(* ===== verification/_CoqProject ===== *)
-Q . S2P
Prelude.v
SysFS.v
Hex.v
KsTypes.v
AuditLog.v
Allowlist.v
BreakGlass.v
KeyStore.v
PeerAuth.v
KeystoreServer.v
GoNet.v
Decimal.v
FilePath.v
GoStrings.v
Regexp.v
Validate.v
Blobs.v
KsClient.v
Tee.v
KT.v
RateWindow.v
RateLimit.v
SendLimit.v
GatewayLimit.v
GatewayRouter.v
Snapshot.v
AuthChecks.v
Float.v
Bayes.v
Spam.v
MailParse.v
Domain.v
DomainDns.v
Pgp.v
Rules.v
Calendar.v
Compose.v
Receiver.v
Sender.v
Peer.v
DkimPool.v
Binary.v
Aead.v
ToyCrypto.v
Envelope.v
Chunked.v
Encrypt.v
Epoch.v
Receipt.v
Outbound.v
Queue.v
Pipeline.v
BlindSig.v
Payment.v
Sql.v
Account.v
Wipe.v
Sessions.v
GroupStore.v
Registration.v
Drive.v
DriveTree.v
DriveFiles.v
Billing.v
MailStore.v
Sanitizer.v
GatewayEdge.v
PaymentEnclave.v
Config.v
Contacts.v
Domains.v
CalendarStore.v
