(* ===== verification/Prelude.v ===== *)
(** * A verification library for the bmail enclaves

    The repository builds five SGX enclaves: [gateway] (TLS terminator and
    reverse proxy), [smtp-inbound], [smtp-outbound], [payment] (blind-signed
    Fake ID credentials) and [keystore] (long-lived secrets handed to attested
    peers).  This library models their decision logic as Rocq functions over
    explicit state, close enough to the Go text to be read beside it, and
    proves what each part promises.  All paths below are under src/.

    ** Parts and files

    Shared ground:
    - Prelude.v (this file): Go's (value, error) results, bytes and strings,
      64-bit wrap-around, list and integer lemmas, tactics and the hint
      database [bmail].
    - Config.v: internal/config/env.go, the environment a program reads.
    - SysFS.v: files with a durability flag, system calls whose outcome an
      oracle decides (so every failure pattern is covered), crashes, a weakest
      precondition [wp] that tracks every intermediate file system, and the
      classes [Json] (encoding/json) and [TEERuntime] (tee.TEERuntime's
      sealing).
    - Hex.v, GoNet.v, Decimal.v, FilePath.v, GoStrings.v, Float.v, Regexp.v: the
      parts of encoding/hex, net, strconv, path/filepath, strings, bufio,
      encoding/base64, float64 arithmetic and regexp (matching by derivatives)
      that the code uses, as executable definitions.
    - Validate.v: the validators of internal/security.
    - Blobs.v: internal/storage/minio.go, the object store of messages,
      attachments and drive files.
    - RateWindow.v: the class [WindowLimiter], what a fixed-window limiter
      promises, and what any client may conclude (a cap per window, twice the
      cap in any span of a window's length).

    The keystore enclave (internal/keystore):
    - KsTypes.v: types.go, errors.go, helpers.go.
    - AuditLog.v: audit.go, the hash-chained log.
    - Allowlist.v: allowlist.go, the table of measurements per role.
    - BreakGlass.v: breakglass.go, operator proofs; [Verify] both as the
      sequential function and as its three atomic steps among other threads.
    - KeyStore.v: store.go, one sealed file per role.
    - PeerAuth.v: auth.go, the TLS hook and the per-request peer.
    - KeystoreServer.v: server.go, the five handlers over all of the above
      ([serve]), and reachable states ([srv_steps]).
    - KsClient.v: client.go over a Record of transport operations, and the
      transport that ends at KeystoreServer.v and loses messages.
    - DkimPool.v: dkimpool.go, cmd/smtp-outbound/dkimpool.go and
      internal/dnsattest/update.go: pool keys, their publication, the hand-over
      of roles to the next build.
    - Snapshot.v: snapshot.go and internal/payment/snapshot.go.

    Limits:
    - RateLimit.v: internal/ratelimit/redis.go (Module Redis),
      internal/smtp/conn_ratelimit.go (Conn), the limiter of
      internal/smtp/bounce.go (Bounce), that of cmd/payment/main.go (IPLimit),
      each an instance of [WindowLimiter].
    - SendLimit.v: internal/smtp/ratelimit.go, with the counters in a heap
      since the code holds pointers to them between two critical sections.
    - GatewayLimit.v: internal/gateway/ratelimit.go (the count-min sketch and
      Module Gateway) and the IP limiter of cmd/gateway/main.go (IPSketch).

    Mail in (internal/smtp, internal/spam, internal/mailparse):
    - AuthChecks.v: auth_checks.go (SPF, DKIM, DMARC).
    - Bayes.v: bayes.go and training.go, on IEEE doubles.
    - Spam.v: the other checks of internal/spam and filter.go's verdict.
    - MailParse.v: internal/mailparse and [buildRawMeta] of pipeline.go.
    - Pgp.v: what pgp.go detects and its Autocrypt headers.
    - Rules.v: the rule engine of pipeline.go.
    - Calendar.v: pipeline_calendar.go.
    - Receiver.v: receiver.go, reserved.go and the recipient resolution of
      auth_store.go: SMTP sessions, one Definition per command.
    - Receipt.v: internal/crypto/receipt.go.
    - Pipeline.v: pipeline.go, from the raw message to the queue, with
      blind_index.go and header_envelope.go of internal/storage.

    Mail out and domains:
    - Compose.v: composeRFC5322 and its helpers in cmd/smtp-outbound/main.go, the
      text of internal/smtp/bounce.go.
    - Outbound.v: the job handler of cmd/smtp-outbound/main.go, its retries,
      bounces and DKIM endpoint.
    - Queue.v: internal/queue/nats.go and the watchdog of the inbound enclave.
    - Domain.v: internal/domain's MTA-STS policies and DANE records.
    - DomainDns.v: dns.go and verify.go, the records a domain publishes.
    - Sender.v: sender.go, signing, TLS policy and the walk over exchangers.

    Cryptography (internal/crypto), over the primitives of a class:
    - Binary.v, Aead.v, ToyCrypto.v: byte order and length prefixes; nonces,
      sealing and key wrapping over the class [Primitives] with its laws; an
      instance on which witnesses are evaluated.
    - Envelope.v: hybrid.go, kem.go, group.go.  Chunked.v and Encrypt.v:
      encrypt.go.  Epoch.v: epoch.go.  BlindSig.v: blind.go.

    Enclave keys (internal/tee, internal/peer):
    - Tee.v: keys.go, the attested TLS configuration of tls.go and tls_ego.go,
      enclave_client.go.
    - Peer.v: peer.go, sharing a TLS key between enclaves of one host name, and
      the DANE record.

    Storage (internal/storage), beside the stores of other files:
    - KT.v: kt_store.go, the key-transparency tables.
    - Sql.v: what the stores rely on in PostgreSQL: a table as a finite map,
      comparisons with NULL, ORDER BY with LIMIT and OFFSET, a transaction that
      the first failed statement aborts, the class of errors.
    - Account.v, Wipe.v, Sessions.v: auth_store.go, the life cycle of accounts,
      their tombstones and purges, sessions and backup addresses.
    - Registration.v: registration, tenants and credentials of auth_store.go;
      folder_store.go and role_store.go.
    - GroupStore.v: group_store.go, private groups and their key rotation.
    - Drive.v, DriveTree.v: drive_store.go, folders, their epochs, keys and
      members, and the recursive queries over the tree.  DriveFiles.v: its files,
      uploads, trash and shares of files.
    - Billing.v: billing_store.go and the expired-credit queries of
      auth_store.go.  MailStore.v: mail_store.go.
    - Contacts.v: contacts_store.go, block_store.go, address_encrypt.go and
      blind_index.go.  Domains.v: domain_store.go and default_domain_store.go.
      CalendarStore.v: calendar_store.go.

    Gateway and payment:
    - GatewayRouter.v: the request path of cmd/gateway/main.go.
    - Sanitizer.v: internal/gateway/sanitizer.go with net/http's cookies, and
      redact.go.  GatewayEdge.v: sealed_cache.go, attestation.go, health.go,
      cmd/gateway/release_proxy.go and sgx_quotes.go, internal/security's
      headers, the image proxy and the static files of cmd/gateway/main.go.
    - Payment.v: internal/payment/service.go, batcher.go, processor.go,
      internal/storage/payment_store.go, fakeid_slot_store.go and the handlers
      of cmd/payment/main.go and fakeid_slots.go.
    - PaymentEnclave.v: the keys, processors, routes, attestation and backups of
      cmd/payment/main.go, fakeid_tags.go and processor_crypto.go.

    The parts meet as in the code: KeystoreServer calls Allowlist, AuditLog,
    BreakGlass, KeyStore and PeerAuth; these and Snapshot write through
    SysFS's system calls; SendLimit and GatewayLimit call RateLimit.Redis;
    GatewayRouter calls GatewayLimit.IPSketch; Payment calls BlindSig; Pipeline
    calls AuthChecks, Spam, MailParse, Pgp, Rules, Calendar, Encrypt and
    Receipt; Spam calls Bayes; Sender calls Domain; Outbound calls
    Compose and Blobs, its jobs arrive through Queue.  DkimPool calls KsClient,
    whose transport is instantiated with KeystoreServer, and gives Sender its
    keys; DomainDns applies AuthChecks to the records it generates, and Peer
    applies the DANE check of Sender to the record it publishes.
    The stores share Sql; Wipe, Sessions and Registration work on the users of
    Account, DriveTree and DriveFiles on the tables of Drive, Billing and
    MailStore on the users of Account; Contacts seals addresses with Encrypt.
    GatewayEdge reads cookies as Sanitizer does; PaymentEnclave loads its keys
    with Tee and hands them to Payment.  A receiver session hands
    its messages to a pipeline that is a parameter of Receiver.v.

    ** How state and operations correspond

    A Go struct is a Record with the same field names; a method is a function
    from the receiver's record to the result and the new record (in [IO], when
    it touches files or draws entropy; in [M] and [P] of Aead.v and Pipeline.v,
    when it draws nonces and keys or publishes).  A critical section under one
    mutex is one step; where the code releases a lock in between (break-glass
    proofs, daily send limits, Fake ID registration) the operation is split
    into its atomic steps and theorems quantify over interleavings.  Errors are
    values of [result] or [option]; a panic and a loop that does not end are
    values of their own where they can happen.  Maps are [gmap], sets [gset];
    slices are lists.  Where the code keeps two references to one buffer and
    overwrites it (a message for several mailboxes, the bytes of an
    attachment), the buffer is part of the state.

    ** What the theorems show

    - Access (KeystoreServer, PeerAuth, BreakGlass): a key is released only
      over a connection whose certificate carried a verified quote with a
      measurement on the role's allowlist, unless the all-zero measurement is
      on it; a measurement gets
      there only through a member or a valid operator proof; proofs bind
      action, role, payload and nonce; a nonce accepted once is refused to any
      later call, and what two overlapping calls can still do; a revoked
      measurement is refused; keys are written once.
    - Durability (AuditLog, Allowlist, KeyStore, Snapshot): a crash at any
      point of a write leaves the state before or after it; the audit chain
      stays verified and cannot be altered under the same last hash without a
      SHA-256 collision; a restored snapshot gives back every key, and no
      archive writes outside the destination.
    - Limits: grants per window and per span for every limiter, the sketch
      never underestimates, daily send caps for calls one at a time without
      Redis (once the limit between midnights, twice in any 24 hours), and the
      window that concurrent first sends leave open.
    - Mail in: sessions deliver only to addresses an accepted recipient leads
      to; SPF ends within its
      DNS budget and a pass is authorised by a record; DMARC passes exactly on
      alignment; the spam verdict is the clamped sum of the checks; the model
      learns only what three users report; a rendered tree of parts is parsed
      back and its offsets are in bounds; a message is queued exactly when the
      call succeeds and the first rule that applies does not delete it, for a
      recipient who can decrypt all of it; a group message
      reaches the members of the epoch and nobody else.
    - Cryptography: encrypt and decrypt are inverse for messages, raw messages
      of any chunk size, group secrets and epoch chains; hybrid code without a
      KEM key is the classical code; nonces do not repeat; signed receipts bind
      their fields; blind signatures verify after unblinding.
    - Mail out: a composed message has the headers asked for and no others,
      except through a reply reference that is copied unfolded; a job is tried
      a bounded number of times, crashes and redeliveries included, and its
      attachments outlive the retries; what
      leaves is signed and goes to a host that the recipient domain's TLS
      policies allow; a queued message is accepted exactly when its MAC is that
      of its type, payload and nonce; a blob is read back by its owner.
    - Enclave keys: a client that pins a measurement talks to nobody else; a
      hand-over opens the configured roles to the requested measurement and
      nothing more, whatever is lost; a provisioned pool key is the one that
      signs; publishing twice publishes once; the key served is the sealed one.
    - Domains and key transparency: a domain with the generated records is
      protected by the receiving side; signed roots stay the roots of the
      leaves served, and every user of a signed epoch has one leaf in the next,
      with the old key or one written for it.
    - Accounts: statuses stay within the declared ones; an account that is kept
      is never due for a wipe; a wipe, with what ON DELETE CASCADE takes along,
      and a registration happen in full or not at all; an interrupted purge of a tenant can be run again; callers that
      race to create a tenant agree on it; a revoked session stays revoked,
      and purging sessions shows to no one; deleting a folder loses no mail.
    - Groups and drive: a rotation archives the keys it supersedes; every epoch
      of a folder has its name, a removed member has no key and is in no list of
      members, access is an unexpired share at or above the folder, deleting a
      tree of one's own loses no file and trashes all in it, folders form a
      forest as long as none is moved below itself; an unfinished upload is in
      no view of complete files (and in others), a revoked share of a file ends
      what it gave.
    - Other stores: no plain address is ever written to an address book and a
      sealed one is found again; the challenge a domain is checked against is
      the newest, whoever opened it; a calendar range shows what overlaps it, a
      reminder sent is not listed again.
    - Mail and billing: pruning takes the oldest mail, others' calls leave mail
      alone; the price of mailboxes is the sum of the prices of their places.
    - Gateway and payment: which requests are proxied and with what headers; the
      ACME responder and the static files stay in their directories; behind
      the sanitizer there are allowed headers and the program's own cookies; the
      certificate cache seals what holds keys; the image proxy dials checked
      addresses; one Fake ID per primary under any interleaving and any
      database fault; the payment enclave's keys last, and no route but the
      public ones answers without the API key.

    Some theorems record behaviour the code may not intend (a failing stat
    overwrites a key, overlapping proofs are both accepted, a failed slot
    insert burns the token, a message with an unclosed multipart is parsed
    forever, an attached calendar is read after it was zeroed, a key sync
    between peers never succeeds, a leaf of one tenant blocks another's epoch); the manifest
    lists them as findings.

    ** Bounds and fuel

    - SPF: [spf_fuel] is 11, one more than the lookup limit of 10; every
      recursive call has passed the counter, so the fuel is never exhausted
      ([spf_terminates_within_budget]).
    - BlindSig: [egcd_fuel] grows with the bit length of its arguments and is
      shown to suffice; [mgf1_loop] has one unit of fuel per output byte while
      every block adds at least one; the rejection loops that pick a random
      factor take the draws as a list and fail when it ends.
    - Chunked: [DecryptChunked] has one unit of fuel per byte and more, which
      [DecryptChunked_terminates] shows to be enough for every chunk size.
    - MailParse: [Parse] takes its fuel as an argument, because the code does
      not end on every input: [wellformed_read_back] gives enough fuel for a
      well-formed message, [unclosed_multipart_never_returns] shows inputs for
      which none is; Pipeline reports an empty tank as [Endless].
    - DriveTree: a recursive query takes the number of its rounds; in a forest
      as many rounds as there are folders are enough, on a cycle none are
      ([folder_moved_into_itself]).
    - Outbound: with k redeliveries fitting into the 90 seconds in which a
      publication can be fresh, a message takes at most 6k + 6 steps
      ([delivery_terminates]).  Wipe: a cascade takes as many rounds as there
      are rows ([sweep_saturates]).
    - All other recursion is structural.  Counters that the code keeps in an
      int are unbounded integers where no run can reach 2^63; sequence numbers
      ([u64]), sketch cells, nonce counters, chunk offsets and rule thresholds
      wrap as in Go.

    ** Parameters

    SHA-256, HMAC, HKDF, X25519, ML-KEM, XChaCha20-Poly1305, Ed25519, X.509
    parsing, SGX quotes, Redis, DNS, the public suffix list, go-message, JSON
    and gob, payment networks, tar and gzip, SQL, the clock and random draws are
    arguments of the definitions, with hypotheses or class laws that state
    their documented behaviour.  Every theorem with hypotheses has a witness
    that applies it to concrete instances.

    ** Not modelled

    Network and SGX calls, the TLS and SGX runtime, start-up wiring, logging and
    metrics: I/O and calls into libraries.  The stores of labels, rules,
    attachments, auto-replies, PGP keys and administration, and some listings
    that only read a page of rows: single statements without a contract beyond
    PostgreSQL's own.  The one-off tool that re-encrypts legacy headers, the
    OPAQUE keys of internal/config.  OpenPGP and DKIM signing themselves, which
    are calls into packages.  *)

From Stdlib Require Export ZArith Lia Ascii String Strings.Byte.
From stdpp Require Export base tactics list gmap strings.

#[global] Set Warnings "-clear-no-such-hyp".

(** * Results: Go's [(value, error)] pairs *)

Inductive result (E A : Type) : Type :=
| Ok (a : A)
| Err (e : E).
Arguments Ok {E A} _.
Arguments Err {E A} _.

#[export] Instance result_ret {E} : MRet (result E) := fun A a => Ok a.
#[export] Instance result_bind {E} : MBind (result E) := fun A B f m =>
  match m with Ok a => f a | Err e => Err e end.

Definition is_ok {E A} (r : result E A) : bool :=
  match r with Ok _ => true | Err _ => false end.

(** [of_option e o] is the Go idiom "if not ok return e". *)
Definition of_option {E A} (e : E) (o : option A) : result E A :=
  match o with Some a => Ok a | None => Err e end.

Lemma of_option_ok {E A} (e : E) (o : option A) a :
  of_option e o = Ok a <-> o = Some a.
Proof. destruct o; cbn; split; congruence. Qed.

(** * Automation *)

Create HintDb bmail discriminated.
#[export] Hint Constants Opaque : bmail.

(** [invert_ok] peels one [Ok]/[Some] equation built by [mbind]. *)
Ltac invert_ok :=
  repeat match goal with
  | H : Ok _ = Ok _ |- _ => injection H as H; try subst
  | H : Err _ = Err _ |- _ => injection H as H; try subst
  | H : Ok _ = Err _ |- _ => discriminate H
  | H : Err _ = Ok _ |- _ => discriminate H
  | H : Some _ = Some _ |- _ => injection H as H; try subst
  | H : Some _ = None |- _ => discriminate H
  | H : None = Some _ |- _ => discriminate H
  | H : (_, _) = (_, _) |- _ => injection H; clear H; intros; try subst
  end.

(** [break_if] splits the first conditional or match of the goal or of a
    hypothesis, keeping the equation. *)
Ltac break_if :=
  match goal with
  | |- context [if ?b then _ else _] => let E := fresh "E" in destruct b eqn:E
  | H : context [if ?b then _ else _] |- _ => let E := fresh "E" in destruct b eqn:E
  end.

Ltac break_match :=
  match goal with
  | |- context [match ?x with _ => _ end] => let E := fresh "E" in destruct x eqn:E
  end.

Ltac break_match_in H :=
  match type of H with
  | context [match ?x with _ => _ end] => let E := fresh "E" in destruct x eqn:E
  end.

(** Boolean connectives of guards, turned into propositions. *)
Ltac bool_prop :=
  repeat match goal with
  | H : (_ && _)%bool = true |- _ => apply andb_true_iff in H; destruct H
  | H : (_ || _)%bool = false |- _ => apply orb_false_iff in H; destruct H
  | H : negb _ = true |- _ => apply negb_true_iff in H
  | H : negb _ = false |- _ => apply negb_false_iff in H
  | H : bool_decide _ = true |- _ => apply bool_decide_eq_true in H
  | H : bool_decide _ = false |- _ => apply bool_decide_eq_false in H
  | H : (_ =? _)%Z = true |- _ => apply Z.eqb_eq in H
  | H : (_ =? _)%Z = false |- _ => apply Z.eqb_neq in H
  | H : (_ <? _)%Z = true |- _ => apply Z.ltb_lt in H
  | H : (_ <? _)%Z = false |- _ => apply Z.ltb_ge in H
  | H : (_ <=? _)%Z = true |- _ => apply Z.leb_le in H
  | H : (_ <=? _)%Z = false |- _ => apply Z.leb_gt in H
  | H : (_ =? _)%nat = true |- _ => apply Nat.eqb_eq in H
  | H : (_ =? _)%nat = false |- _ => apply Nat.eqb_neq in H
  | H : (_ <? _)%nat = true |- _ => apply Nat.ltb_lt in H
  | H : (_ <? _)%nat = false |- _ => apply Nat.ltb_ge in H
  | H : (_ <=? _)%nat = true |- _ => apply Nat.leb_le in H
  | H : (_ <=? _)%nat = false |- _ => apply Nat.leb_gt in H
  | H : String.eqb _ _ = true |- _ => apply String.eqb_eq in H
  | H : String.eqb _ _ = false |- _ => apply String.eqb_neq in H
  end.

(** * Bytes

A Go [[]byte] is [list byte]; a Go [string] is Rocq's [string] (whose
characters are bytes too).  [string_bytes] and [bytes_string] are the Go
conversions between the two. *)

Abbreviation bytes := (list byte).

Definition string_bytes (s : string) : bytes := list_byte_of_string s.
Definition bytes_string (b : bytes) : string := string_of_list_byte b.

(** A literal, as bytes. *)
Definition bs (s : string) : bytes := string_bytes s.

Lemma string_bytes_string b : string_bytes (bytes_string b) = b.
Proof. apply list_byte_of_string_of_list_byte. Qed.

Lemma bytes_string_bytes s : bytes_string (string_bytes s) = s.
Proof. apply string_of_list_byte_of_string. Qed.

Lemma string_bytes_inj s t : string_bytes s = string_bytes t -> s = t.
Proof.
  intros H. rewrite <-(bytes_string_bytes s), <-(bytes_string_bytes t).
  by rewrite H.
Qed.

Lemma bytes_string_inj a b : bytes_string a = bytes_string b -> a = b.
Proof.
  intros H. rewrite <-(string_bytes_string a), <-(string_bytes_string b).
  by rewrite H.
Qed.

#[export] Instance byte_eq_dec : EqDecision byte := Byte.byte_eq_dec.

#[export, program] Instance byte_countable : Countable byte := {|
  encode b := encode (Byte.to_N b);
  decode p := n ← decode p; Byte.of_N n
|}.
Next Obligation. intros b. cbn. rewrite decode_encode. cbn. apply Byte.of_to_N. Qed.

Definition byteZ (b : byte) : Z := Z.of_N (Byte.to_N b).

(** [b] is between the byte literals [lo] and [hi], inclusive. *)
Definition byte_between (lo hi b : byte) : bool :=
  (byteZ lo <=? byteZ b)%Z && (byteZ b <=? byteZ hi)%Z.

Definition byte_eqb (a b : byte) : bool := Byte.eqb a b.

Lemma byte_eqb_eq a b : byte_eqb a b = true <-> a = b.
Proof. unfold byte_eqb. split; [apply Byte.byte_dec_bl | apply Byte.byte_dec_lb]. Qed.

Lemma string_app_cons c (s t : string) :
  (String c s ++ t = String c (s ++ t))%string.
Proof. reflexivity. Qed.

Lemma string_bytes_app s t :
  string_bytes (s ++ t)%string = string_bytes s ++ string_bytes t.
Proof.
  unfold string_bytes, list_byte_of_string.
  induction s as [|c s IH]; [done|].
  rewrite string_app_cons. cbn. f_equal. exact IH.
Qed.

Lemma string_app_assoc (a b c : string) : ((a ++ b) ++ c = a ++ (b ++ c))%string.
Proof. induction a as [|x a IH]; [done|]. by rewrite !string_app_cons, IH. Qed.

(** * Cutting a byte string at a separator *)

(** [sep] does not occur in [l]. *)
Definition no_byte (sep : byte) (l : bytes) : Prop := sep ∉ l.

#[export] Instance no_byte_dec sep l : Decision (no_byte sep l).
Proof. unfold no_byte. apply _. Defined.

Lemma cut_at_inj (sep : byte) (a a' x y : bytes) :
  no_byte sep a -> no_byte sep a' ->
  a ++ sep :: x = a' ++ sep :: y -> a = a' /\ x = y.
Proof.
  unfold no_byte. revert a'. induction a as [|c a IH]; intros [|c' a'] Ha Ha' H;
    simplify_eq/=.
  - done.
  - exfalso. apply Ha'. left.
  - exfalso. apply Ha. left.
  - destruct (IH a') as [-> ->]; [set_solver..|done|done].
Qed.

(** * Machine integers *)

Definition u64 (x : Z) : Z := x mod 2 ^ 64.

Lemma u64_small x : (0 <= x < 2 ^ 64)%Z -> u64 x = x.
Proof. apply Z.mod_small. Qed.

(** Go's [int] and [int64], which wrap. *)
Definition int64 (x : Z) : Z := ((x + 2 ^ 63) mod 2 ^ 64 - 2 ^ 63)%Z.

Lemma int64_small x : (- 2 ^ 63 <= x < 2 ^ 63)%Z -> int64 x = x.
Proof. intros H. unfold int64. rewrite Z.mod_small; lia. Qed.

(** * Lists *)

Lemma forallb_Forall {A} (f : A -> bool) l :
  forallb f l = true <-> Forall (fun x => f x = true) l.
Proof. rewrite forallb_forall, List.Forall_forall. done. Qed.

Lemma existsb_elem {A} (f : A -> bool) l :
  existsb f l = true <-> exists x, x ∈ l /\ f x = true.
Proof.
  rewrite List.existsb_exists. setoid_rewrite list_elem_of_In. done.
Qed.

(** Index of the first element satisfying [f] (the [for i, m := range]
    search loops of the code). *)
Fixpoint find_index {A} (f : A -> bool) (l : list A) : option nat :=
  match l with
  | [] => None
  | x :: l => if f x then Some 0 else S <$> find_index f l
  end.

Lemma find_index_Some {A} (f : A -> bool) l i :
  find_index f l = Some i ->
  exists x, l !! i = Some x /\ f x = true /\
    forall j y, (j < i)%nat -> l !! j = Some y -> f y = false.
Proof.
  revert i. induction l as [|x l IH]; intros i H; cbn in H; [done|].
  destruct (f x) eqn:E.
  - injection H as <-. exists x. repeat split; auto. lia.
  - destruct (find_index f l) as [j|] eqn:F; [|done]. injection H as <-.
    destruct (IH j eq_refl) as (y & H1 & H2 & H3). exists y. repeat split; auto.
    intros [|k] z Hk Hz; cbn in Hz; [congruence|]. apply (H3 k); [lia|done].
Qed.

Lemma find_index_None {A} (f : A -> bool) l :
  find_index f l = None <-> forall x, x ∈ l -> f x = false.
Proof.
  induction l as [|x l IH]; cbn.
  - split; [intros _ y Hy; by apply not_elem_of_nil in Hy | done].
  - destruct (f x) eqn:E.
    + split; [done|]. intros H. rewrite (H x) in E; [done|left].
    + rewrite fmap_None, IH. split.
      * intros H y Hy. apply elem_of_cons in Hy as [->|Hy]; auto.
      * intros H y Hy. apply H. by right.
Qed.

(** [mapM] in the result monad succeeds exactly on pointwise success. *)
Lemma mapM_Ok {E A B} (f : A -> result E B) (l : list A) (k : list B) :
  mapM f l = Ok k <-> Forall2 (fun x y => f x = Ok y) l k.
Proof.
  split.
  - revert k. induction l as [|x l IH]; intros k H; cbn in H.
    + injection H as <-. constructor.
    + destruct (f x) as [y|] eqn:Ef; [|done]. cbn in H.
      destruct (mapM f l) as [ys|] eqn:El; [|done]. injection H as <-.
      constructor; auto.
  - induction 1 as [|x y l k Hxy _ IH]; [done|]. cbn. by rewrite Hxy, IH.
Qed.

Lemma mapM_fmap_id {E A B} (f : B -> result E A) (g : A -> B) (l : list A) :
  (forall x, x ∈ l -> f (g x) = Ok x) -> mapM f (g <$> l) = Ok l.
Proof.
  intros H. apply mapM_Ok. induction l as [|x l IH]; cbn; constructor.
  - apply H. left.
  - apply IH. intros y Hy. apply H. by right.
Qed.

(** Go's [<=] on strings, bytewise. *)
Definition string_le (a b : string) : Prop := String.leb a b = true.

#[export] Instance string_le_dec : RelDecision string_le.
Proof. intros a b. unfold string_le. apply _. Defined.
