(* ===== verification/SysFS.v ===== *)
(** The operating-system surface the enclaves write through: files with a
    durability flag, system calls whose outcome an oracle decides, crashes,
    the [encoding/json] codecs and the TEE sealing interface
    (src/internal/tee/tee.go).  Everything sealed on disk by the keystore
    goes through [write_tmp_rename]. *)

From S2P Require Import Prelude.

(** * Files

    A path is a directory and a base name ([filepath.Join(dir, base)]).  A
    file holds bytes and remembers whether they were fsynced since they were
    last written: a crash may replace unsynced bytes by anything. *)

Abbreviation path := (string * string)%type.

Record file := mkFile { content : bytes; durable : bool }.

#[export] Instance file_eq_dec : EqDecision file.
Proof. solve_decision. Defined.

Abbreviation files := (gmap path file).

(** Outcome of one system call: success, or failure after [n] bytes. *)
Inductive outcome := Done | Failed (n : nat).

(** The world: the files, the outcomes of the coming system calls (all
    succeed once the list is used up), the entropy consumed by sealing and
    every file-system state gone through, latest first. *)
Record world := mkWorld {
  fs : files;
  oracle : list outcome;
  entropy : N;
  history : list files
}.

Definition IO (A : Type) : Type := world -> A * world.

#[export] Instance io_ret : MRet IO := fun A a w => (a, w).
#[export] Instance io_bind : MBind IO := fun A B k m w =>
  let '(a, w') := m w in k a w'.

Definition io_world (f : world -> world) : IO unit := fun w => (tt, f w).

(** The next outcome. *)
Definition take_outcome : IO outcome := fun w =>
  match oracle w with
  | [] => (Done, w)
  | o :: os => (o, mkWorld (fs w) os (entropy w) (history w))
  end.

(** Move to the file system [f fs], recording it in the history. *)
Definition set_fs (f : files -> files) : IO unit := fun w =>
  (tt, mkWorld (f (fs w)) (oracle w) (entropy w) (f (fs w) :: history w)).

Definition fresh_entropy : IO N := fun w =>
  (entropy w, mkWorld (fs w) (oracle w) (N.succ (entropy w)) (history w)).

(** ** System calls *)

(** [os.MkdirAll]: directories are not represented, only its failure is. *)
Definition sys_mkdir : IO bool :=
  o ← take_outcome;
  mret match o with Done => true | Failed _ => false end.

(** [os.OpenFile(p, O_WRONLY|O_CREATE|O_TRUNC, 0o600)]. *)
Definition sys_open_trunc (p : path) : IO bool :=
  o ← take_outcome;
  match o with
  | Done => _ ← set_fs (<[p := mkFile [] false]>); mret true
  | Failed _ => mret false
  end.

(** [f.Write(b)]: a failed write leaves some prefix behind. *)
Definition sys_write (p : path) (b : bytes) : IO bool :=
  o ← take_outcome;
  match o with
  | Done => _ ← set_fs (<[p := mkFile b false]>); mret true
  | Failed n => _ ← set_fs (<[p := mkFile (take n b) false]>); mret false
  end.

Definition sync_file (f : file) : file := mkFile (content f) true.

(** [f.Sync()]. *)
Definition sys_sync (p : path) : IO bool :=
  o ← take_outcome;
  match o with
  | Done => _ ← set_fs (alter sync_file p); mret true
  | Failed _ => mret false
  end.

(** [f.Close()]. *)
Definition sys_close : IO bool :=
  o ← take_outcome;
  mret match o with Done => true | Failed _ => false end.

Definition move_file (p q : path) (m : files) : files :=
  match m !! p with
  | Some f => <[q := f]> (delete p m)
  | None => m
  end.

(** [os.Rename(p, q)]: atomic, replaces [q]. *)
Definition sys_rename (p q : path) : IO bool :=
  o ← take_outcome;
  match o with
  | Done => _ ← set_fs (move_file p q); mret true
  | Failed _ => mret false
  end.

(** [os.Remove(p)], whose error the code ignores. *)
Definition sys_remove (p : path) : IO unit :=
  o ← take_outcome;
  match o with
  | Done => set_fs (delete p)
  | Failed _ => mret tt
  end.

Inductive read_result := ReadOk (b : bytes) | ReadNotExist | ReadFailed.

(** [os.ReadFile(p)]. *)
Definition sys_read (p : path) : IO read_result := fun w =>
  match fs w !! p with
  | None => (ReadNotExist, w)
  | Some f =>
      let '(o, w') := take_outcome w in
      (match o with Done => ReadOk (content f) | Failed _ => ReadFailed end, w')
  end.

(** [p + ".tmp"]. *)
Definition tmp_of (p : path) : path := (p.1, (p.2 ++ ".tmp")%string).

Lemma append_nonempty_ne (s t : string) : t <> ""%string -> (s ++ t)%string <> s.
Proof.
  intros Ht. induction s as [|c s IH]; [done|].
  rewrite string_app_cons. congruence.
Qed.

Lemma tmp_of_ne (p : path) : tmp_of p <> p.
Proof.
  destruct p as [d b]. unfold tmp_of. cbn. intros [= H].
  by apply (append_nonempty_ne b ".tmp"%string) in H.
Qed.

(** * Write to a temporary file, fsync, rename

    The code shared, statement for statement, by [keyStore.writeAtomic],
    [allowlist.persistLocked] and [auditLog.persistLocked]. *)

Definition write_tmp_rename (p : path) (sealed : bytes) : IO bool :=
  let tmp := tmp_of p in
  opened ← sys_open_trunc tmp;
  if negb opened then mret false else
  written ← sys_write tmp sealed;
  if negb written then _ ← sys_close; _ ← sys_remove tmp; mret false else
  synced ← sys_sync tmp;
  if negb synced then _ ← sys_close; _ ← sys_remove tmp; mret false else
  closed ← sys_close;
  if negb closed then _ ← sys_remove tmp; mret false else
  renamed ← sys_rename tmp p;
  if negb renamed then _ ← sys_remove tmp; mret false else
  mret true.

(** ** Crashes *)

(** What may be found at one path after a crash. *)
Definition crash_file (before after : option file) : Prop :=
  match before with
  | None => after = None
  | Some f =>
      if durable f then after = Some f
      else exists b, after = Some (mkFile b true)
  end.

Definition crash (before after : files) : Prop :=
  forall p, crash_file (before !! p) (after !! p).

(** ** What the write leaves behind *)

(** Files other than [p] and [p.tmp] are the same in [m] and [m']. *)
Definition frame (p : path) (m m' : files) : Prop :=
  forall q, q <> p -> q <> tmp_of p -> m' !! q = m !! q.

(** At [p], [m'] holds what [m] held, or the new durable bytes. *)
Definition old_or_new (p : path) (b : bytes) (m m' : files) : Prop :=
  m' !! p = m !! p \/ m' !! p = Some (mkFile b true).

Definition good_state (p : path) (b : bytes) (m m' : files) : Prop :=
  frame p m m' /\ old_or_new p b m m'.

#[local] Ltac fs_lookup :=
  repeat first
    [ rewrite lookup_insert_ne by (first [done | apply not_eq_sym; done])
    | rewrite lookup_insert_eq
    | rewrite lookup_alter_ne by (first [done | apply not_eq_sym; done])
    | rewrite lookup_alter_eq
    | rewrite lookup_delete_ne by (first [done | apply not_eq_sym; done])
    | rewrite lookup_delete_eq ].

(** Changing only the temporary file keeps a good state. *)
Lemma good_insert_tmp (p : path) (b : bytes) (m : files) (m' : files) f :
  good_state p b m m' -> good_state p b m (<[tmp_of p := f]> m').
Proof.
  intros [Hf Ho]. pose proof (tmp_of_ne p). split.
  - intros q Hq Ht. fs_lookup. by apply Hf.
  - destruct Ho as [Ho|Ho]; [left|right]; fs_lookup; done.
Qed.

Lemma good_alter_tmp (p : path) (b : bytes) (m : files) (m' : files) g :
  good_state p b m m' -> good_state p b m (alter g (tmp_of p) m').
Proof.
  intros [Hf Ho]. pose proof (tmp_of_ne p). split.
  - intros q Hq Ht. fs_lookup. by apply Hf.
  - destruct Ho as [Ho|Ho]; [left|right]; fs_lookup; done.
Qed.

Lemma good_delete_tmp (p : path) (b : bytes) (m : files) (m' : files) :
  good_state p b m m' -> good_state p b m (delete (tmp_of p) m').
Proof.
  intros [Hf Ho]. pose proof (tmp_of_ne p). split.
  - intros q Hq Ht. fs_lookup. by apply Hf.
  - destruct Ho as [Ho|Ho]; [left|right]; fs_lookup; done.
Qed.

Lemma good_rename (p : path) (b : bytes) (m : files) (m' : files) :
  good_state p b m m' -> m' !! tmp_of p = Some (mkFile b true) ->
  good_state p b m (move_file (tmp_of p) p m').
Proof.
  intros [Hf Ho] Ht. pose proof (tmp_of_ne p). unfold move_file. rewrite Ht. split.
  - intros q Hq Hqt. fs_lookup. by apply Hf.
  - right. by fs_lookup.
Qed.

Lemma good_refl (p : path) (b : bytes) (m : files) : good_state p b m m.
Proof. split; [done | by left]. Qed.

#[export] Hint Resolve good_insert_tmp good_alter_tmp good_delete_tmp good_refl : bmail.

(** * Weakest preconditions

    [extends I w w']: between [w] and [w'] every file system gone through
    satisfies [I], the last included. *)
Definition extends (I : files -> Prop) (w w' : world) : Prop :=
  I (fs w') /\ exists l, history w' = l ++ history w /\ Forall I l.

(** [wp I m Q s]: whatever the oracle, running [m] on the files [s] goes
    through states satisfying [I] only and ends in a result and files
    related by [Q]. *)
Definition wp {A : Type} (I : files -> Prop) (m : IO A) (Q : A -> files -> Prop)
    (s : files) : Prop :=
  forall w a w', fs w = s -> I s -> m w = (a, w') -> extends I w w' /\ Q a (fs w').

Section wp.
Context (I : files -> Prop).

Lemma extends_refl w : I (fs w) -> extends I w w.
Proof. intros H. split; [done|]. by exists []. Qed.

Lemma extends_trans w1 w2 w3 :
  extends I w1 w2 -> extends I w2 w3 -> extends I w1 w3.
Proof.
  intros [_ (l1 & E1 & F1)] [H (l2 & E2 & F2)]. split; [done|].
  exists (l2 ++ l1). rewrite E2, E1, app_assoc. split; [done|].
  by apply Forall_app.
Qed.

Lemma wp_bind {A B : Type} (m : IO A) (k : A -> IO B) Q s :
  wp I m (fun a => wp I (k a) Q) s -> wp I (mbind k m) Q s.
Proof.
  intros H w b w2 Hs Hi. unfold mbind, io_bind.
  destruct (m w) as [a w1] eqn:E. intros Hk.
  destruct (H w a w1 Hs Hi E) as [X1 H1].
  destruct (H1 w1 b w2 eq_refl (proj1 X1) Hk) as [X2 H2].
  split; [by eapply extends_trans|done].
Qed.

Lemma wp_ret {A : Type} (a : A) (Q : A -> files -> Prop) (s : files) :
  Q a s -> wp I (mret a) Q s.
Proof.
  intros H w b w' <- Hi [= <- <-]. split; [by apply extends_refl|done].
Qed.

Lemma wp_mono {A : Type} (m : IO A) (Q R : A -> files -> Prop) s :
  wp I m Q s -> (forall a s', Q a s' -> R a s') -> wp I m R s.
Proof. intros H HQ w a w' Hs Hi E. destruct (H w a w' Hs Hi E). eauto. Qed.

Lemma wp_take (Q : outcome -> files -> Prop) (s : files) :
  (forall o, Q o s) -> wp I take_outcome Q s.
Proof.
  intros H w a w' <- Hi. unfold take_outcome.
  destruct (oracle w) as [|o os]; intros [= <- <-]; cbn; (split; [|apply H]);
    (split; [done|]; by exists []).
Qed.

Lemma wp_set_fs (f : files -> files) (Q : unit -> files -> Prop) (s : files) :
  I (f s) -> Q tt (f s) -> wp I (set_fs f) Q s.
Proof.
  intros Hf HQ w a w' <- Hi [= <- <-]. cbn. split; [|done].
  split; [done|]. exists [f (fs w)]. split; [done|]. by constructor.
Qed.

Lemma wp_entropy (Q : N -> files -> Prop) (s : files) :
  (forall n, Q n s) -> wp I fresh_entropy Q s.
Proof.
  intros H w a w' <- Hi [= <- <-]. cbn. split; [|apply H]. split; [done|]. by exists [].
Qed.

Lemma wp_read (p : path) (Q : read_result -> files -> Prop) (s : files) :
  (s !! p = None -> Q ReadNotExist s) ->
  (forall f, s !! p = Some f -> Q (ReadOk (content f)) s /\ Q ReadFailed s) ->
  wp I (sys_read p) Q s.
Proof.
  intros HN HS w a w' <- Hi. unfold sys_read, take_outcome.
  destruct (fs w !! p) as [f|] eqn:E.
  - destruct (HS f eq_refl) as [H1 H2].
    destruct (oracle w) as [|[|n] os]; intros [= <- <-]; cbn; (split; [|done]);
      (split; [done|]; by exists []).
  - intros [= <- <-]. split; [by apply extends_refl|auto].
Qed.

Lemma wp_mkdir (Q : bool -> files -> Prop) (s : files) :
  (forall ok, Q ok s) -> wp I sys_mkdir Q s.
Proof. intros H. apply wp_bind, wp_take. intros o. apply wp_ret, H. Qed.

Lemma wp_close (Q : bool -> files -> Prop) (s : files) :
  (forall ok, Q ok s) -> wp I sys_close Q s.
Proof. intros H. apply wp_bind, wp_take. intros o. apply wp_ret, H. Qed.

Lemma wp_open_trunc (p : path) (Q : bool -> files -> Prop) (s : files) :
  I (<[p := mkFile [] false]> s) ->
  Q true (<[p := mkFile [] false]> s) -> Q false s ->
  wp I (sys_open_trunc p) Q s.
Proof.
  intros Hi Ht Hf. apply wp_bind, wp_take. intros [|n]; [|by apply wp_ret].
  apply wp_bind, wp_set_fs; [done|]. by apply wp_ret.
Qed.

Lemma wp_write (p : path) (b : bytes) (Q : bool -> files -> Prop) (s : files) :
  (forall c, I (<[p := mkFile c false]> s)) ->
  Q true (<[p := mkFile b false]> s) ->
  (forall c, Q false (<[p := mkFile c false]> s)) ->
  wp I (sys_write p b) Q s.
Proof.
  intros Hi Ht Hf. apply wp_bind, wp_take.
  intros [|n]; apply wp_bind, wp_set_fs; try done; by apply wp_ret.
Qed.

Lemma wp_sync (p : path) (Q : bool -> files -> Prop) (s : files) :
  I (alter sync_file p s) ->
  Q true (alter sync_file p s) -> Q false s -> wp I (sys_sync p) Q s.
Proof.
  intros Hi Ht Hf. apply wp_bind, wp_take. intros [|n]; [|by apply wp_ret].
  apply wp_bind, wp_set_fs; [done|]. by apply wp_ret.
Qed.

Lemma wp_rename (p : path) (q : path) (Q : bool -> files -> Prop) (s : files) :
  I (move_file p q s) ->
  Q true (move_file p q s) -> Q false s -> wp I (sys_rename p q) Q s.
Proof.
  intros Hi Ht Hf. apply wp_bind, wp_take. intros [|n]; [|by apply wp_ret].
  apply wp_bind, wp_set_fs; [done|]. by apply wp_ret.
Qed.

Lemma wp_remove (p : path) (Q : unit -> files -> Prop) (s : files) :
  I (delete p s) -> Q tt (delete p s) -> Q tt s -> wp I (sys_remove p) Q s.
Proof.
  intros Hi Ht Hf. apply wp_bind, wp_take. intros [|n]; [|by apply wp_ret].
  by apply wp_set_fs.
Qed.
End wp.

(** ** The write, specified *)

(** What [write_tmp_rename] guarantees at the end. *)
Definition write_post (p : path) (b : bytes) (m : files) (ok : bool) (m' : files) : Prop :=
  frame p m m' /\
  m' !! p = if ok then Some (mkFile b true) else m !! p.

(** A state in which the target has not been touched yet. *)
Definition pre_rename (p : path) (m m' : files) : Prop :=
  frame p m m' /\ m' !! p = m !! p.

Lemma pre_rename_refl (p : path) (m : files) : pre_rename p m m.
Proof. by split. Qed.

Lemma pre_rename_change (p : path) (m : files) (m' : files) (m'' : files) :
  pre_rename p m m' -> (forall q, q <> tmp_of p -> m'' !! q = m' !! q) ->
  pre_rename p m m''.
Proof.
  intros [Hf Ho] H. pose proof (tmp_of_ne p). split.
  - intros q Hq Ht. rewrite H by done. by apply Hf.
  - by rewrite H by done.
Qed.

Lemma pre_rename_insert (p : path) (m : files) (m' : files) f :
  pre_rename p m m' -> pre_rename p m (<[tmp_of p := f]> m').
Proof. intros H. eapply pre_rename_change; [done|]. intros q Hq. by fs_lookup. Qed.

Lemma pre_rename_alter (p : path) (m : files) (m' : files) g :
  pre_rename p m m' -> pre_rename p m (alter g (tmp_of p) m').
Proof. intros H. eapply pre_rename_change; [done|]. intros q Hq. by fs_lookup. Qed.

Lemma pre_rename_delete (p : path) (m : files) (m' : files) :
  pre_rename p m m' -> pre_rename p m (delete (tmp_of p) m').
Proof. intros H. eapply pre_rename_change; [done|]. intros q Hq. by fs_lookup. Qed.

Lemma pre_rename_good (p : path) (b : bytes) (m : files) (m' : files) : pre_rename p m m' -> good_state p b m m'.
Proof. intros [? ?]. split; [done|by left]. Qed.

Lemma pre_rename_post (p : path) (b : bytes) (m : files) (m' : files) : pre_rename p m m' -> write_post p b m false m'.
Proof. by intros [? ?]. Qed.

#[export] Hint Resolve pre_rename_refl pre_rename_insert pre_rename_alter
  pre_rename_delete pre_rename_good pre_rename_post : bmail.

Lemma rename_post (p : path) (b : bytes) (m : files) (m' : files) :
  pre_rename p m m' -> m' !! tmp_of p = Some (mkFile b true) ->
  write_post p b m true (move_file (tmp_of p) p m').
Proof.
  intros [Hf _] Ht. pose proof (tmp_of_ne p). unfold move_file. rewrite Ht.
  split; [|by fs_lookup]. intros q Hq Hqt. fs_lookup. by apply Hf.
Qed.

(** The cleanup branches: give up with the target untouched. *)
Lemma wp_give_up (p : path) (b : bytes) (m : files) (s : files) :
  pre_rename p m s ->
  wp (good_state p b m) (_ ← sys_remove (tmp_of p); mret false) (write_post p b m) s.
Proof.
  intros H. apply wp_bind, wp_remove; [|apply wp_ret..]; auto with bmail.
Qed.

Lemma wp_close_give_up (p : path) (b : bytes) (m : files) (s : files) :
  pre_rename p m s ->
  wp (good_state p b m) (_ ← sys_close; _ ← sys_remove (tmp_of p); mret false)
    (write_post p b m) s.
Proof. intros H. apply wp_bind, wp_close. intros _. by apply wp_give_up. Qed.

(** Every state gone through has the old target or the complete, durable new
    one and no other file is touched; success means the new bytes are in
    place, failure that the target is unchanged. *)
Lemma wp_write_tmp_rename (p : path) (b : bytes) (m : files) :
  wp (good_state p b m) (write_tmp_rename p b) (write_post p b m) m.
Proof.
  unfold write_tmp_rename.
  apply wp_bind, wp_open_trunc; [auto with bmail| |apply wp_ret; auto with bmail].
  cbn [negb]. set (m1 := <[_ := _]> m).
  assert (pre_rename p m m1) as H1 by (subst m1; auto with bmail).
  apply wp_bind, wp_write; [auto with bmail| |
    intros c; apply wp_close_give_up; auto with bmail].
  cbn [negb]. set (m2 := <[_ := _]> m1).
  assert (pre_rename p m m2) as H2 by (subst m2; auto with bmail).
  apply wp_bind, wp_sync; [auto with bmail| |apply wp_close_give_up; auto with bmail].
  cbn [negb]. set (m3 := alter _ _ _).
  assert (pre_rename p m m3) as H3 by (subst m3; auto with bmail).
  assert (m3 !! tmp_of p = Some (mkFile b true)) as Ht.
  { subst m3 m2. by rewrite lookup_alter_eq, lookup_insert_eq. }
  apply wp_bind, wp_close. intros [|]; cbn [negb];
    [|apply wp_give_up; auto with bmail].
  apply wp_bind, wp_rename; cbn [negb].
  - apply good_rename; auto with bmail.
  - apply wp_ret. by apply rename_post.
  - apply wp_give_up; auto with bmail.
Qed.

(** ** Crash safety *)

(** The file at [p], if any, has been fsynced. *)
Definition settled (m : files) (p : path) : Prop :=
  forall f, m !! p = Some f -> durable f = true.

Lemma crash_settled (m m' : files) (p : path) :
  crash m m' -> settled m p -> m' !! p = m !! p.
Proof.
  intros Hc Hs. specialize (Hc p). unfold crash_file in Hc.
  destruct (m !! p) as [f|] eqn:E; [|done]. by rewrite (Hs f E) in Hc.
Qed.

(** Cut off anywhere, [p] still reads as before the write or as after it. *)
Lemma crash_good_state (p : path) (b : bytes) (m m' m'' : files) :
  settled m p -> good_state p b m m' -> crash m' m'' ->
  m'' !! p = m !! p \/ m'' !! p = Some (mkFile b true).
Proof.
  intros Hs [_ Ho] Hc.
  assert (settled m' p) as Hs'.
  { intros f Hf. destruct Ho as [Ho|Ho]; rewrite Ho in Hf; [by apply Hs|by injection Hf as <-]. }
  rewrite (crash_settled m' m'' p Hc Hs'). done.
Qed.

(** * Codecs and sealing: the code the enclaves call but do not contain *)

(** [encoding/json] on one Go type: [json.Marshal] and [json.Unmarshal]; what
    was marshalled unmarshals to itself. *)
Class Json (A : Type) := {
  json_marshal : A -> option bytes;
  json_unmarshal : bytes -> option A;
  json_roundtrip : forall a b, json_marshal a = Some b -> json_unmarshal b = Some a
}.

(** Marshalling a slice marshals its elements. *)
Class JsonSlice (A : Type) `{Json A} `{Json (list A)} :=
  json_marshal_elem : forall (l : list A) b x,
    json_marshal l = Some b -> x ∈ l -> is_Some (json_marshal x).

(** [tee.TEERuntime]: sealing draws entropy and may fail; what this enclave
    sealed, it unseals. *)
Class TEERuntime := {
  SealUnique : N -> bytes -> option bytes;
  UnsealUnique : bytes -> option bytes;
  unseal_seal : forall n p c, SealUnique n p = Some c -> UnsealUnique c = Some p
}.

Lemma json_marshal_inj {A : Type} `{Json A} (x y : A) b :
  json_marshal x = Some b -> json_marshal y = Some b -> x = y.
Proof.
  intros Hx Hy. apply json_roundtrip in Hx, Hy. rewrite Hx in Hy. by injection Hy.
Qed.

(** ** Concrete instances, for running the model

    Any countable type has a codec through its [encode]: the bits of a
    positive, one byte each. *)

Fixpoint pos_bytes (p : positive) : bytes :=
  match p with
  | xH => []
  | xO p => x00 :: pos_bytes p
  | xI p => x01 :: pos_bytes p
  end.

Fixpoint bytes_pos (b : bytes) : option positive :=
  match b with
  | [] => Some xH
  | x00 :: b => xO <$> bytes_pos b
  | x01 :: b => xI <$> bytes_pos b
  | _ => None
  end.

Lemma bytes_pos_bytes p : bytes_pos (pos_bytes p) = Some p.
Proof. induction p as [p IH|p IH|]; cbn; by rewrite ?IH. Qed.

Program Definition countable_json {A : Type} `{Countable A} : Json A := {|
  json_marshal a := Some (pos_bytes (encode a));
  json_unmarshal b := p ← bytes_pos b; decode p
|}.
Next Obligation.
  intros A ED C a b [= <-]. rewrite bytes_pos_bytes. cbn. apply decode_encode.
Qed.

(** A sealing that prefixes a marker. *)
Definition marker_unseal (c : bytes) : option bytes :=
  match c with x53 :: p => Some p | _ => None end.

Lemma marker_unseal_seal (n : N) (p c : bytes) :
  Some (x53 :: p) = Some c -> marker_unseal c = Some p.
Proof. by intros [= <-]. Qed.

Definition marker_tee : TEERuntime := {|
  SealUnique _ p := Some (x53 :: p);
  UnsealUnique := marker_unseal;
  unseal_seal := marker_unseal_seal
|}.

(** * Sealed files *)

Section sealed.
Context `{TEERuntime}.

(** [runtime.SealUnique(plain)]. *)
Definition seal_unique (plain : bytes) : IO (option bytes) :=
  n ← fresh_entropy; mret (SealUnique n plain).

(** The file at [p] unseals to [plain] and is durable. *)
Definition sealed_at (p : path) (plain : bytes) (m : files) : Prop :=
  exists c, UnsealUnique c = Some plain /\ m !! p = Some (mkFile c true).

(** Compared with [m], only [p] and its temporary may have changed in [m'],
    and [p] is unchanged or seals [plain]. *)
Definition sealed_state (p : path) (plain : bytes) (m m' : files) : Prop :=
  frame p m m' /\ (m' !! p = m !! p \/ sealed_at p plain m').

Definition sealed_post (p : path) (plain : bytes) (m : files) (ok : bool) (m' : files) : Prop :=
  frame p m m' /\ if ok then sealed_at p plain m' else m' !! p = m !! p.

Lemma sealed_state_refl (p : path) (plain : bytes) (m : files) : sealed_state p plain m m.
Proof. split; [done|by left]. Qed.

Lemma wp_seal_unique (I : files -> Prop) (plain : bytes) (Q : option bytes -> files -> Prop) (s : files) :
  (forall c, UnsealUnique c = Some plain -> Q (Some c) s) -> Q None s ->
  wp I (seal_unique plain) Q s.
Proof.
  intros HS HN. apply wp_bind, wp_entropy. intros n. apply wp_ret.
  destruct (SealUnique n plain) as [c|] eqn:E; [|done]. eauto using unseal_seal.
Qed.

Lemma extends_mono (I J : files -> Prop) w w' :
  (forall s, I s -> J s) -> extends I w w' -> extends J w w'.
Proof.
  intros HIJ [Hi (l & E & F)]. split; [auto|]. exists l. split; [done|].
  by eapply Forall_impl.
Qed.

Lemma wp_inv_mono {A : Type} (I J : files -> Prop) (m : IO A) (Q : A -> files -> Prop) (s : files) :
  (forall s', I s' -> J s') -> I s -> wp I m Q s -> wp J m Q s.
Proof.
  intros HIJ Hs Hw w a w' E _ Hm. subst s. destruct (Hw w a w' eq_refl Hs Hm) as [X HQ].
  split; [|done]. by eapply extends_mono.
Qed.

Lemma wp_write_sealed (p : path) (plain c : bytes) (m : files) :
  UnsealUnique c = Some plain ->
  wp (sealed_state p plain m) (write_tmp_rename p c) (sealed_post p plain m) m.
Proof.
  intros Hc w ok w' Hs _ E.
  destruct (wp_write_tmp_rename p c m w ok w' Hs (good_refl p c m) E) as [X [Hf Ho]].
  split.
  - eapply extends_mono; [|done]. intros s [Hfs [Hos|Hos]]; (split; [done|]); [by left|].
    right. by exists c.
  - split; [done|]. destruct ok; [by exists c|done].
Qed.

(** A crash during a sealed write of [plain] over a durable file. *)
Lemma crash_sealed_state (p : path) (plain : bytes) (m m' m'' : files) :
  settled m p -> sealed_state p plain m m' -> crash m' m'' ->
  m'' !! p = m !! p \/ sealed_at p plain m''.
Proof.
  intros Hs [_ [Ho|(c & Hu & Hc)]] Hx.
  - left. rewrite (crash_settled m' m'' p Hx); [done|].
    intros f Hf. rewrite Ho in Hf. by apply Hs.
  - right. exists c. split; [done|].
    rewrite (crash_settled m' m'' p Hx); [done|].
    intros f Hf. rewrite Hc in Hf. by injection Hf as <-.
Qed.

(** Reading, sealing and writing [p] leaves [q] alone. *)
Definition keeps (q : path) (m s : files) : Prop := s !! q = m !! q.

Lemma keeps_run {A : Type} (q : path) (x : IO A) (w : world) (a : A) (w' : world) :
  (forall m s : files, keeps q m s -> wp (keeps q m) x (fun _ => keeps q m) s) ->
  x w = (a, w') -> fs w' !! q = fs w !! q.
Proof. intros H0 E. by apply (H0 (fs w) (fs w) eq_refl w a w' eq_refl eq_refl E). Qed.

Lemma wp_write_keeps (p q : path) (c : bytes) (m s : files) :
  q <> p -> q <> tmp_of p -> keeps q m s ->
  wp (keeps q m) (write_tmp_rename p c) (fun _ => keeps q m) s.
Proof.
  intros Hp Ht Hk. apply (wp_inv_mono (good_state p c s)); [|apply good_refl|].
  - intros s' [Hf _]. unfold keeps. by rewrite Hf.
  - eapply wp_mono; [apply wp_write_tmp_rename|]. intros ok s' [Hf _].
    unfold keeps. by rewrite Hf.
Qed.

Lemma wp_seal_keeps (q : path) (plain : bytes) (m s : files) :
  keeps q m s -> wp (keeps q m) (seal_unique plain) (fun _ => keeps q m) s.
Proof. intros Hk. by apply wp_seal_unique. Qed.

Lemma wp_read_keeps (p q : path) (m s : files) :
  keeps q m s -> wp (keeps q m) (sys_read p) (fun _ => keeps q m) s.
Proof. intros Hk. by apply wp_read. Qed.

Lemma sealed_post_false (p : path) (plain : bytes) (m : files) : sealed_post p plain m false m.
Proof. by split. Qed.
End sealed.

#[export] Hint Resolve sealed_state_refl sealed_post_false : bmail.
