(* ===== verification/Hex.v ===== *)
(** [encoding/hex] as the enclaves use it: lower-case encoding,
    case-insensitive decoding, their round trip and the alphabet of the
    output. *)

From S2P Require Import Prelude.

(** The nibbles of a byte. *)
Definition hi_nibble (b : byte) : nat := N.to_nat (Byte.to_N b / 16).
Definition lo_nibble (b : byte) : nat := N.to_nat (Byte.to_N b mod 16).

Definition hex_digits : bytes := string_bytes "0123456789abcdef".

Definition hex_digit (n : nat) : byte := List.nth n hex_digits x00.

Fixpoint hex_bytes (b : bytes) : bytes :=
  match b with
  | [] => []
  | x :: b => hex_digit (hi_nibble x) :: hex_digit (lo_nibble x) :: hex_bytes b
  end.

(** [hex.EncodeToString]. *)
Definition hex_EncodeToString (b : bytes) : string := bytes_string (hex_bytes b).

(** The value of a hex digit, either case. *)
Definition hex_value (c : byte) : option N :=
  let n := Byte.to_N c in
  if byte_between "0"%byte "9"%byte c then Some (n - 48)%N
  else if byte_between "a"%byte "f"%byte c then Some (n - 87)%N
  else if byte_between "A"%byte "F"%byte c then Some (n - 55)%N
  else None.

Fixpoint hex_parse (s : bytes) : option bytes :=
  match s with
  | [] => Some []
  | [_] => None
  | a :: c :: s =>
      h ← hex_value a; l ← hex_value c;
      x ← Byte.of_N (16 * h + l);
      rest ← hex_parse s;
      Some (x :: rest)
  end.

(** [hex.DecodeString]; its error is [None]. *)
Definition hex_DecodeString (s : string) : option bytes := hex_parse (string_bytes s).

Lemma hex_digit_roundtrip b :
  (h ← hex_value (hex_digit (hi_nibble b));
   l ← hex_value (hex_digit (lo_nibble b));
   Byte.of_N (16 * h + l)) = Some b.
Proof. by destruct b. Qed.

Lemma hex_parse_bytes b : hex_parse (hex_bytes b) = Some b.
Proof.
  induction b as [|x b IH]; [done|]. cbn [hex_bytes hex_parse].
  pose proof (hex_digit_roundtrip x) as Hx.
  destruct (hex_value (hex_digit (hi_nibble x))) as [h|]; [|done].
  destruct (hex_value (hex_digit (lo_nibble x))) as [l|]; [|done].
  cbn in Hx |- *. by rewrite Hx, IH.
Qed.

(** Decoding what was encoded gives the bytes back. *)
Lemma hex_roundtrip b : hex_DecodeString (hex_EncodeToString b) = Some b.
Proof.
  unfold hex_DecodeString, hex_EncodeToString.
  by rewrite string_bytes_string, hex_parse_bytes.
Qed.

Lemma hex_encode_inj a b : hex_EncodeToString a = hex_EncodeToString b -> a = b.
Proof.
  intros H. assert (Some a = Some b) as [= ->]; [|done].
  by rewrite <-!hex_roundtrip, H.
Qed.

Lemma length_hex_bytes b : length (hex_bytes b) = (2 * length b)%nat.
Proof. induction b as [|x b IH]; cbn; [done|]. rewrite IH. lia. Qed.

Lemma hex_bytes_digits b : Forall (fun c => c ∈ hex_digits) (hex_bytes b).
Proof.
  assert (forall x, hex_digit (hi_nibble x) ∈ hex_digits /\
                    hex_digit (lo_nibble x) ∈ hex_digits) as H.
  { intros x. split; apply (bool_decide_eq_true_1 _); by destruct x. }
  induction b as [|x b IH]; cbn; constructor; [apply H|]. constructor; [apply H|done].
Qed.

(** A byte outside the hex alphabet does not occur in an encoding. *)
Lemma hex_bytes_no_byte sep b : sep ∉ hex_digits -> no_byte sep (hex_bytes b).
Proof.
  intros Hs Hin. apply Hs.
  by apply (proj1 (List.Forall_forall _ _) (hex_bytes_digits b)), list_elem_of_In.
Qed.

Lemma hex_parse_length s b : hex_parse s = Some b -> length s = (2 * length b)%nat.
Proof.
  revert b. remember (length s) as n eqn:Hn. revert s Hn.
  induction n as [n IH] using lt_wf_ind. intros [|a [|c s]] Hn b H; cbn in H.
  - injection H as <-. by subst.
  - done.
  - destruct (hex_value a) as [h|]; [|done]. destruct (hex_value c) as [l|]; [|done].
    cbn -[N.mul] in H. destruct (Byte.of_N _) as [x|]; [|done]. cbn in H.
    destruct (hex_parse s) as [r|] eqn:E; [|done]. injection H as <-.
    rewrite Hn in *. cbn in *.
    rewrite (IH (length s) ltac:(lia) s eq_refl r E). lia.
Qed.
