(* ===== verification/KsTypes.v ===== *)
(** src/internal/keystore/types.go, errors.go, helpers.go: role names, the
    request and response records of the keystore API, its sentinel errors and
    the MRENCLAVE text format. *)

From S2P Require Import Prelude Hex.

(** Sentinel errors (errors.go); [ErrOther] is any wrapped error that matches
    none of them under [errors.Is]. *)
Inductive kerr :=
| ErrInvalidRole
| ErrAlreadyProvisioned
| ErrRoleNotFound
| ErrNotAllowed
| ErrBreakGlassRequired
| ErrBreakGlassInvalid
| ErrBreakGlassReplay
| ErrCorruptedState
| ErrOther.

#[export] Instance kerr_eq_dec : EqDecision kerr.
Proof. solve_decision. Defined.

(** A role string. *)
Abbreviation Role := string (only parsing).

(** A [[32]byte] enclave measurement. *)
Abbreviation MRENCLAVE := (list byte) (only parsing).

(** The characters of the role grammar. *)
Definition role_char (c : byte) : bool :=
  byte_between "a"%byte "z"%byte c || byte_between "0"%byte "9"%byte c ||
  byte_eqb c "-"%byte || byte_eqb c "."%byte || byte_eqb c "_"%byte.

(** [s] starts (ends) with a character no role may start (end) with. *)
Definition role_edge (c : byte) : bool := byte_eqb c "-"%byte || byte_eqb c "."%byte.

Definition validateRole (s : string) : result kerr unit :=
  match string_bytes s with
  | [] => Err ErrInvalidRole
  | (c0 :: _) as b =>
      if (128 <? length b)%nat then Err ErrInvalidRole
      else if role_edge c0 then Err ErrInvalidRole
      else if role_edge (List.last b x00) then Err ErrInvalidRole
      else if forallb role_char b then Ok tt else Err ErrInvalidRole
  end.

(** [Role.Validate]. *)
Definition Role_Validate (r : Role) : result kerr unit := validateRole r.

(** * Requests and responses *)

Record BreakGlassProof := {
  OperatorPubKeyHex : string;
  Nonce : string;
  SignatureHex : string
}.

Record GetRequest := { get_Role : Role }.

Record GetResponse := {
  resp_Key : bytes;
  resp_KeyType : string;
  resp_CreatedAt : Z
}.

Record DelegateRequest := {
  delegate_Role : Role;
  NewMRENCLAVE : MRENCLAVE;
  delegate_BreakGlass : option BreakGlassProof
}.

Record DelegateResponse := {
  delegated_Role : Role;
  delegated_AllowedMRENCLAVE : list MRENCLAVE;
  DelegatedAt : Z
}.

Record RevokeRequest := {
  revoke_Role : Role;
  OldMRENCLAVE : MRENCLAVE;
  revoke_BreakGlass : BreakGlassProof
}.

Record ProvisionRequest := {
  provision_Role : Role;
  provision_Key : bytes;
  provision_KeyType : string;
  provision_BreakGlass : BreakGlassProof
}.

Record ProvisionResponse := {
  provisioned_Role : Role;
  ProvisionedAt : Z
}.

Record ListRequest := {
  list_BreakGlass : BreakGlassProof;
  AuditTailSize : Z
}.

Record RoleInfo := {
  info_Role : Role;
  info_KeyType : string;
  info_CreatedAt : Z;
  info_AllowedMRENCLAVE : list MRENCLAVE
}.

(** One row of the audit log; the timestamp is nanoseconds since the epoch. *)
Record AuditEntry := {
  Sequence : Z;
  Timestamp : Z;
  Action : string;
  audit_Role : Role;
  Actor : string;
  Detail : string;
  PrevHash : string
}.

Record ListResponse := {
  list_Roles : list RoleInfo;
  list_AuditLog : list AuditEntry
}.

#[export] Instance AuditEntry_eq_dec : EqDecision AuditEntry.
Proof. solve_decision. Defined.

Definition AuditEntry_tree (e : AuditEntry) : gen_tree (Z + string) :=
  GenNode 0 [GenLeaf (inl (Sequence e)); GenLeaf (inl (Timestamp e));
    GenLeaf (inr (Action e)); GenLeaf (inr (audit_Role e)); GenLeaf (inr (Actor e));
    GenLeaf (inr (Detail e)); GenLeaf (inr (PrevHash e))].

Definition AuditEntry_of_tree (t : gen_tree (Z + string)) : option AuditEntry :=
  match t with
  | GenNode 0 [GenLeaf (inl s); GenLeaf (inl t); GenLeaf (inr a); GenLeaf (inr r);
      GenLeaf (inr c); GenLeaf (inr d); GenLeaf (inr p)] =>
      Some (Build_AuditEntry s t a r c d p)
  | _ => None
  end.

#[export, program] Instance AuditEntry_countable : Countable AuditEntry :=
  inj_countable AuditEntry_tree AuditEntry_of_tree _.
Next Obligation. by intros []. Qed.

(** * MRENCLAVE text (helpers.go) *)

Definition encodeMRENCLAVEHex (m : MRENCLAVE) : string := hex_EncodeToString m.

Definition decodeMRENCLAVEHex (s : string) : result kerr MRENCLAVE :=
  if negb (String.length s =? 64)%nat then Err ErrOther
  else of_option ErrOther (hex_DecodeString s).

(** * Lemmas *)

(** Accepted roles are exactly the strings of the documented grammar. *)
Lemma validateRole_spec s :
  validateRole s = Ok tt <->
  exists c b, string_bytes s = c :: b /\ (length (c :: b) <= 128)%nat /\
    role_edge c = false /\ role_edge (List.last (c :: b) x00) = false /\
    Forall (fun x => role_char x = true) (c :: b).
Proof.
  unfold validateRole. destruct (string_bytes s) as [|c b].
  { split; [done|]. by intros (c & b & ? & _). }
  split.
  - intros H. exists c, b.
    destruct (128 <? _)%nat eqn:L; [done|]. destruct (role_edge c) eqn:E1; [done|].
    destruct (role_edge (List.last _ _)) eqn:E2; [done|].
    destruct (forallb _ _) eqn:F; [|done]. bool_prop.
    repeat split; auto. by apply forallb_Forall.
  - intros (c' & b' & [= <- <-] & L & -> & -> & F). apply forallb_Forall in F.
    rewrite F. by destruct (Nat.ltb_spec 128 (length (c :: b))); [lia|].
Qed.

Lemma validateRole_chars s :
  validateRole s = Ok tt -> Forall (fun x => role_char x = true) (string_bytes s).
Proof. intros (c & b & -> & _ & _ & _ & F)%validateRole_spec. done. Qed.

(** A validated role holds no separator of the signing input. *)
Lemma validateRole_no_colon s :
  validateRole s = Ok tt -> no_byte ":"%byte (string_bytes s).
Proof.
  intros H%validateRole_chars Hin.
  rewrite Forall_forall in H. by apply H in Hin.
Qed.

Lemma validateRole_ok_or_invalid s :
  validateRole s = Ok tt \/ validateRole s = Err ErrInvalidRole.
Proof. unfold validateRole. repeat case_match; auto. Qed.

Lemma string_length_bytes s : String.length s = length (string_bytes s).
Proof.
  unfold string_bytes, list_byte_of_string. rewrite length_map.
  induction s as [|c s IH]; cbn; [done|]. by rewrite IH.
Qed.

(** The text format round-trips on measurements of the right size. *)
Lemma decode_encode_MRENCLAVE m :
  length m = 32%nat -> decodeMRENCLAVEHex (encodeMRENCLAVEHex m) = Ok m.
Proof.
  intros Hm. unfold decodeMRENCLAVEHex, encodeMRENCLAVEHex.
  rewrite string_length_bytes. unfold hex_EncodeToString at 1.
  rewrite string_bytes_string, length_hex_bytes, Hm. cbn [Nat.mul Nat.add Nat.eqb negb].
  by rewrite hex_roundtrip.
Qed.

Lemma decodeMRENCLAVE_length s m :
  decodeMRENCLAVEHex s = Ok m -> length m = 32%nat.
Proof.
  unfold decodeMRENCLAVEHex. destruct (String.length s =? 64)%nat eqn:L; [|done].
  cbn. intros H%of_option_ok. bool_prop. unfold hex_DecodeString in H.
  apply hex_parse_length in H. rewrite string_length_bytes in L. lia.
Qed.

#[export] Hint Resolve validateRole_no_colon : bmail.
