(* ===== verification/AuditLog.v ===== *)
(** src/internal/keystore/audit.go: the keystore's append-only, hash-chained
    audit log.  [auditLog] is the in-memory state, [loadAuditLog], [Append],
    [Tail], [Len], [verifyChain], [persistLocked] and [canonicalHash] its
    operations.  Shown: appending keeps the chain verified and numbers the
    entries without gaps; a failed append changes nothing; after a crash at
    any point of an append the log on disk loads again, as before or as
    after; altering a verified log without breaking the chain needs a SHA-256
    collision. *)

From S2P Require Import Prelude SysFS Hex KsTypes.

Section audit.
Context `{TEERuntime} `{Json AuditEntry} `{Json (list AuditEntry)}
  `{!JsonSlice AuditEntry}.
Context (sha256 : bytes -> bytes).

Record auditLog := mkAudit { audit_path : path; entries : list AuditEntry }.

Definition genesisHash : string := "47454e45534953".

(** Hex SHA-256 of the JSON of an entry. *)
Definition canonicalHash (e : AuditEntry) : option string :=
  b ← json_marshal e; Some (hex_EncodeToString (sha256 b)).

(** The loop of [verifyChain], from entry [i] with [expectedPrev]. *)
Fixpoint verify_from (i : nat) (expectedPrev : string) (es : list AuditEntry) : result kerr unit :=
  match es with
  | [] => Ok tt
  | e :: es =>
      if negb (String.eqb (PrevHash e) expectedPrev) then Err ErrOther
      else if negb (Sequence e =? u64 (Z.of_nat i + 1))%Z then Err ErrOther
      else match canonicalHash e with
           | None => Err ErrOther
           | Some h => verify_from (S i) h es
           end
  end.

Definition verifyChain (a : auditLog) : result kerr unit :=
  verify_from 0 genesisHash (entries a).

Definition persistLocked (a : auditLog) : IO bool :=
  match json_marshal (entries a) with
  | None => mret false
  | Some plain =>
      sealed ← seal_unique plain;
      match sealed with
      | None => mret false
      | Some c =>
          made ← sys_mkdir;
          if negb made then mret false
          else write_tmp_rename (audit_path a) c
      end
  end.

(** [Append(action, role, actor, detail)] at time [now]: the sequence number
    or an error, and the log afterwards. *)
Definition Append (a : auditLog) (now : Z) (action : string) (role : Role)
    (actor detail : string) : IO (result kerr Z * auditLog) :=
  match
    match last (entries a) with
    | None => Some (genesisHash, 1%Z)
    | Some l => h ← canonicalHash l; Some (h, u64 (Sequence l + 1))
    end
  with
  | None => mret (Err ErrOther, a)
  | Some (prevHash, seq) =>
      let entry := {| Sequence := seq; Timestamp := now; Action := action;
                      audit_Role := role; Actor := actor; Detail := detail;
                      PrevHash := prevHash |} in
      let a' := mkAudit (audit_path a) (entries a ++ [entry]) in
      ok ← persistLocked a';
      if negb ok then
        mret (Err ErrOther,
              mkAudit (audit_path a') (take (length (entries a') - 1) (entries a')))
      else mret (Ok seq, a')
  end.

Definition loadAuditLog (p : path) : IO (result kerr auditLog) :=
  r ← sys_read p;
  match r with
  | ReadNotExist => mret (Ok (mkAudit p []))
  | ReadFailed => mret (Err ErrOther)
  | ReadOk sealed =>
      mret match UnsealUnique sealed with
           | None => Err ErrOther
           | Some plain =>
               match json_unmarshal plain with
               | None => Err ErrCorruptedState
               | Some es =>
                   match verifyChain (mkAudit p es) with
                   | Ok _ => Ok (mkAudit p es)
                   | Err _ => Err ErrCorruptedState
                   end
               end
           end
  end.

(** [Tail(n)]: the last [n] entries; all of them when [n] is not in
    [1..Len()]. *)
Definition Tail (a : auditLog) (n : Z) : list AuditEntry :=
  let len := Z.of_nat (length (entries a)) in
  let n := if (n <=? 0)%Z || (len <? n)%Z then len else n in
  drop (Z.to_nat (len - n)) (entries a).

Definition Len (a : auditLog) : nat := length (entries a).

(** ** The chain *)

(** What the next entry's [PrevHash] must be. *)
Definition head_hash (es : list AuditEntry) : option string :=
  match last es with None => Some genesisHash | Some e => canonicalHash e end.

Lemma verify_from_app (i : nat) (h : string) (es es' : list AuditEntry) :
  verify_from i h (es ++ es') = Ok tt <->
  verify_from i h es = Ok tt /\
  exists h', (match last es with None => Some h | Some e => canonicalHash e end) = Some h' /\
    verify_from (i + length es) h' es' = Ok tt.
Proof.
  revert i h. induction es as [|e es IH]; intros i h.
  { cbn. rewrite Nat.add_0_r. split; [intros Hv|intros [_ (h' & [= <-] & Hv)]]; eauto. }
  cbn [app verify_from]. destruct (negb (String.eqb _ _)); [naive_solver|].
  destruct (negb (_ =? _)%Z); [naive_solver|].
  destruct (canonicalHash e) as [h1|] eqn:E; [|naive_solver].
  rewrite IH. cbn [length]. rewrite last_cons.
  replace (S i + length es) with (i + S (length es)) by lia.
  destruct (last es); rewrite ?E; done.
Qed.

Lemma verify_single (i : nat) (h : string) (e : AuditEntry) :
  verify_from i h [e] = Ok tt <->
  PrevHash e = h /\ Sequence e = u64 (Z.of_nat i + 1) /\ is_Some (canonicalHash e).
Proof.
  cbn. destruct (String.eqb_spec (PrevHash e) h) as [->|Hn]; cbn; [|naive_solver].
  destruct (Z.eqb_spec (Sequence e) (u64 (Z.of_nat i + 1))) as [->|Hn]; cbn; [|naive_solver].
  destruct (canonicalHash e) as [h1|]; split; try done.
  by intros (_ & _ & [? ?]).
Qed.

(** A verified log, seen from its last entry. *)
Lemma verify_snoc (es : list AuditEntry) (e : AuditEntry) :
  verify_from 0 genesisHash (es ++ [e]) = Ok tt <->
  verify_from 0 genesisHash es = Ok tt /\
  head_hash es = Some (PrevHash e) /\
  Sequence e = u64 (Z.of_nat (length es) + 1) /\ is_Some (canonicalHash e).
Proof.
  rewrite verify_from_app. unfold head_hash. rewrite Nat.add_0_l. split.
  - intros [? (h & ? & (<- & ? & ?)%verify_single)]. done.
  - intros (? & ? & ? & ?). split; [done|]. eexists. split; [done|].
    by apply verify_single.
Qed.

Lemma verify_sequence (es : list AuditEntry) (i : nat) (e : AuditEntry) :
  verify_from 0 genesisHash es = Ok tt -> es !! i = Some e ->
  Sequence e = u64 (Z.of_nat i + 1).
Proof.
  induction es as [|x es IH] using rev_ind; intros Hv Hi; [done|].
  apply verify_snoc in Hv as (Hv & _ & Hs & _).
  apply lookup_snoc_Some in Hi as [[_ Hi]|[-> <-]]; auto.
Qed.

(** Two different byte strings with one hash. *)
Definition collision : Prop := exists x y, x <> y /\ sha256 x = sha256 y.

Lemma canonicalHash_inj (e e' : AuditEntry) (h : string) :
  canonicalHash e = Some h -> canonicalHash e' = Some h -> e = e' \/ collision.
Proof.
  unfold canonicalHash. intros He He'.
  destruct (json_marshal e) as [b|] eqn:E; [|done].
  destruct (json_marshal e') as [b'|] eqn:E'; [|done].
  cbn in He, He'. injection He as <-. injection He' as Hh%hex_encode_inj.
  destruct (decide (b = b')) as [<-|Hn].
  - left. by eapply json_marshal_inj.
  - right. by exists b', b.
Qed.

(** ** Writing *)

Lemma wp_persistLocked (a : auditLog) (m : files) (plain : bytes) :
  json_marshal (entries a) = Some plain ->
  wp (sealed_state (audit_path a) plain m) (persistLocked a)
    (sealed_post (audit_path a) plain m) m.
Proof.
  intros E. unfold persistLocked. rewrite E.
  apply wp_bind, wp_seal_unique; [|apply wp_ret; auto with bmail].
  intros c Hc. apply wp_bind, wp_mkdir. intros [|]; cbn [negb];
    [by apply wp_write_sealed|apply wp_ret; auto with bmail].
Qed.

(** The entry [Append] builds on a verified log. *)
Definition next_entry (a : auditLog) (now : Z) (action : string) (role : Role)
    (actor detail : string) (e : AuditEntry) : Prop :=
  Timestamp e = now /\ Action e = action /\ audit_Role e = role /\
  Actor e = actor /\ Detail e = detail /\
  Sequence e = u64 (Z.of_nat (length (entries a)) + 1) /\
  head_hash (entries a) = Some (PrevHash e).

Lemma last_Sequence (a : auditLog) (l : AuditEntry) :
  verifyChain a = Ok tt -> last (entries a) = Some l ->
  Sequence l = u64 (Z.of_nat (length (entries a))).
Proof.
  unfold verifyChain. intros Hv Hl. rewrite last_lookup in Hl.
  rewrite (verify_sequence _ _ _ Hv Hl). f_equal.
  apply lookup_lt_Some in Hl. lia.
Qed.

Lemma u64_succ x : u64 (u64 x + 1) = u64 (x + 1).
Proof. unfold u64. by rewrite Zplus_mod_idemp_l. Qed.

(** [Append] on a verified log: the new entry, when it can be hashed and the
    log marshalled. *)
Lemma Append_cases (a : auditLog) (now : Z) (action role actor detail : string) (m : files) :
  verifyChain a = Ok tt ->
  (exists e plain, next_entry a now action role actor detail e /\
     json_marshal (entries a ++ [e]) = Some plain /\
     wp (sealed_state (audit_path a) plain m) (Append a now action role actor detail)
       (fun r m' => r = (Err ErrOther, a) /\ sealed_post (audit_path a) plain m false m' \/
          r = (Ok (Sequence e), mkAudit (audit_path a) (entries a ++ [e])) /\
          sealed_post (audit_path a) plain m true m') m) \/
  (forall w, Append a now action role actor detail w = ((Err ErrOther, a), w)).
Proof.
  intros Hv. unfold Append.
  assert (exists o, match last (entries a) with
    | None => Some (genesisHash, 1%Z)
    | Some l => h ← canonicalHash l; Some (h, u64 (Sequence l + 1)) end =
    (h ← o; Some (h, u64 (Z.of_nat (length (entries a)) + 1))) /\
    head_hash (entries a) = o) as (o & -> & Ho).
  { unfold head_hash. destruct (last (entries a)) as [l|] eqn:L; eexists; (split; [|done]).
    - rewrite (last_Sequence a l Hv L), u64_succ. done.
    - apply last_None in L. by rewrite L. }
  destruct o as [h|]; cbn [mbind option_bind]; [|right; done].
  set (e := Build_AuditEntry _ _ _ _ _ _ _).
  destruct (json_marshal (entries a ++ [e])) as [plain|] eqn:E.
  - left. exists e, plain. split; [done|]. split; [done|].
    apply wp_bind. eapply wp_mono; [by apply (wp_persistLocked (mkAudit _ _))|].
    intros [|] m' Hp; apply wp_ret; cbn [audit_path entries]; [by right|left].
    split; [|done]. destruct a as [p es]. cbn [entries audit_path].
    by rewrite length_app, Nat.add_sub, take_app_length.
  - right. intros w. unfold mbind, io_bind, persistLocked. cbn [entries].
    rewrite E. cbn. destruct a as [p es]. cbn [entries audit_path].
    by rewrite length_app, Nat.add_sub, take_app_length.
Qed.

(** ** Reading back *)

(** The file at the log's path, if any, is durable and holds the log. *)
Definition on_disk (a : auditLog) (m : files) : Prop :=
  match m !! audit_path a with
  | None => entries a = []
  | Some f => durable f = true /\
      exists plain, UnsealUnique (content f) = Some plain /\
        json_unmarshal plain = Some (entries a)
  end.

(** The world of a fresh process: files [m], no failing system call. *)
Definition boot (m : files) : world := mkWorld m [] 0 [m].

Lemma load_on_disk (a : auditLog) (m : files) :
  on_disk a m -> verifyChain a = Ok tt ->
  loadAuditLog (audit_path a) (boot m) = (Ok a, boot m).
Proof.
  unfold on_disk, loadAuditLog, mbind, io_bind, sys_read. intros Hd Hv.
  destruct a as [p es]. cbn [audit_path entries fs boot] in *.
  destruct (m !! p) as [f|] eqn:E; [|by rewrite Hd].
  destruct Hd as (_ & plain & Hu & Hj). cbn -[verifyChain]. rewrite Hu, Hj. by rewrite Hv.
Qed.

Lemma on_disk_settled (a : auditLog) (m : files) : on_disk a m -> settled m (audit_path a).
Proof. unfold on_disk, settled. intros Hd f Hf. rewrite Hf in Hd. by destruct Hd. Qed.

Lemma on_disk_same (a : auditLog) (m m' : files) :
  on_disk a m -> m' !! audit_path a = m !! audit_path a -> on_disk a m'.
Proof. unfold on_disk. by intros Hd ->. Qed.

Lemma on_disk_sealed (p : path) (es : list AuditEntry) (plain : bytes) (m : files) :
  json_marshal es = Some plain -> sealed_at p plain m -> on_disk (mkAudit p es) m.
Proof.
  intros Hj%json_roundtrip (c & Hu & Hc). unfold on_disk. cbn. rewrite Hc. eauto.
Qed.

(** What a call of [Append] may return from a verified log. *)
Definition append_result (a : auditLog) (now : Z) (action : string) (role : Role)
    (actor detail : string) (r : result kerr Z) (a' : auditLog) : Prop :=
  r = Err ErrOther /\ a' = a \/
  exists e, next_entry a now action role actor detail e /\ r = Ok (Sequence e) /\
    a' = mkAudit (audit_path a) (entries a ++ [e]) /\ verifyChain a' = Ok tt.

Lemma verify_next a now action role actor detail e plain :
  verifyChain a = Ok tt -> next_entry a now action role actor detail e ->
  json_marshal (entries a ++ [e]) = Some plain ->
  verifyChain (mkAudit (audit_path a) (entries a ++ [e])) = Ok tt.
Proof.
  intros Hv (_ & _ & _ & _ & _ & Hs & Hh) Hj. unfold verifyChain. cbn [entries].
  apply verify_snoc. repeat split; [done..|].
  destruct (json_marshal_elem _ _ e Hj) as [b Hb]; [set_solver|].
  unfold canonicalHash. rewrite Hb. by eexists.
Qed.

(** ** The properties *)

Lemma Append_result (a : auditLog) (now : Z) (action role actor detail : string) (w : world) r a' w' :
  verifyChain a = Ok tt ->
  Append a now action role actor detail w = ((r, a'), w') ->
  append_result a now action role actor detail r a'.
Proof.
  intros Hv E.
  destruct (Append_cases a now action role actor detail (fs w) Hv)
    as [(e & plain & Hn & Hj & Hw)|Hf].
  - destruct (Hw w (r, a') w' eq_refl (sealed_state_refl _ _ _) E) as [_ [[Hr _]|[Hr _]]];
      injection Hr as -> ->; [by left|right].
    exists e. repeat split; try apply Hn. by eapply verify_next.
  - rewrite Hf in E. injection E as <- <- <-. by left.
Qed.

Lemma Append_keeps_verified (a : auditLog) (now : Z) (action role actor detail : string)
    (w : world) r a' w' :
  verifyChain a = Ok tt -> Append a now action role actor detail w = ((r, a'), w') ->
  verifyChain a' = Ok tt /\ audit_path a' = audit_path a.
Proof.
  intros Hv E. apply Append_result in E as [[_ ->]|(e & _ & _ & -> & Hv')]; auto.
Qed.

Lemma wp_Append_keeps (q : path) (a : auditLog) (now : Z) (action role actor detail : string)
    (m s : files) :
  q <> audit_path a -> q <> tmp_of (audit_path a) -> keeps q m s ->
  wp (keeps q m) (Append a now action role actor detail) (fun _ => keeps q m) s.
Proof.
  intros Hp Ht Hk. unfold Append.
  destruct (match last (entries a) with None => _ | Some _ => _ end) as [[h n]|];
    [|by apply wp_ret].
  apply wp_bind. unfold persistLocked. cbn [entries audit_path].
  destruct (json_marshal _) as [plain|].
  - apply wp_bind. eapply wp_mono; [by apply wp_seal_keeps|]. intros [c|] s1 Hk1.
    + apply wp_bind, wp_mkdir. intros [|]; cbn [negb].
      * eapply wp_mono; [by apply wp_write_keeps|]. intros [|] s2 Hk2; by apply wp_ret.
      * by apply wp_ret, wp_ret.
    + by apply wp_ret, wp_ret.
  - by apply wp_ret, wp_ret.
Qed.

(** Logs obtained from the empty log of a first boot by appends, whatever
    the arguments and whatever fails. *)
Inductive audit_reach (p : path) : auditLog -> Prop :=
| audit_first : audit_reach p (mkAudit p [])
| audit_append a now action role actor detail w r a' w' :
    audit_reach p a -> Append a now action role actor detail w = ((r, a'), w') ->
    audit_reach p a'.

(** The audit log's promise: after any sequence of appends, failed ones
    included, the hash chain verifies and the entries are numbered 1, 2, 3,
    ... without gaps. *)
Theorem audit_chain_invariant p a :
  audit_reach p a -> (Z.of_nat (Len a) < 2 ^ 64)%Z ->
  verifyChain a = Ok tt /\
  forall i e, entries a !! i = Some e -> Sequence e = (Z.of_nat i + 1)%Z.
Proof.
  intros Hr L. assert (verifyChain a = Ok tt) as Hv.
  { clear L. induction Hr as [|a now action role actor detail w r a' w' _ IH E]; [done|].
    by eapply Append_keeps_verified. }
  split; [done|]. intros i e Hi. rewrite (verify_sequence _ _ _ Hv Hi).
  apply u64_small. apply lookup_lt_Some in Hi. unfold Len in L. lia.
Qed.

(** C3. Kill the machine at any point of an append: the audit log found on
    disk at the next boot passes its integrity check and is the log before
    the append or the log after it, never anything else. *)
Theorem Append_crash_safe a now action role actor detail w ra w' l s m :
  verifyChain a = Ok tt -> on_disk a (fs w) ->
  Append a now action role actor detail w = (ra, w') ->
  history w' = l ++ history w -> s ∈ l -> crash s m ->
  exists a1, loadAuditLog (audit_path a) (boot m) = (Ok a1, boot m) /\
    (a1 = a \/ exists e, next_entry a now action role actor detail e /\
       a1 = mkAudit (audit_path a) (entries a ++ [e])).
Proof.
  intros Hv Hd E Hl Hs Hc.
  destruct (Append_cases a now action role actor detail (fs w) Hv)
    as [(e & plain & Hn & Hj & Hw)|Hf].
  - destruct (Hw w ra w' eq_refl (sealed_state_refl _ _ _) E) as [[_ (l' & El & Fl)] _].
    rewrite El in Hl. apply app_inv_tail in Hl as <-.
    rewrite Forall_forall in Fl. specialize (Fl s Hs).
    destruct (crash_sealed_state _ _ _ _ _ (on_disk_settled _ _ Hd) Fl Hc) as [Ho|Ho].
    + exists a. split; [|by left]. apply load_on_disk; [|done]. by eapply on_disk_same.
    + exists (mkAudit (audit_path a) (entries a ++ [e])). split; [|right; eauto].
      apply (load_on_disk (mkAudit _ _)); [by eapply on_disk_sealed|].
      by eapply verify_next.
  - rewrite Hf in E. injection E as _ <-. apply (f_equal length) in Hl.
    rewrite length_app in Hl. destruct l; [by apply not_elem_of_nil in Hs|cbn in Hl; lia].
Qed.

(** C4. Tamper evidence: two verified logs that agree on the hash of their
    last entry are the same log, entry for entry, unless SHA-256 has
    produced a collision.  (The bound is the range of a slice length.) *)
Theorem chain_tamper_evident p q es es' e e' h :
  verifyChain (mkAudit p (es ++ [e])) = Ok tt ->
  verifyChain (mkAudit q (es' ++ [e'])) = Ok tt ->
  canonicalHash e = Some h -> canonicalHash e' = Some h ->
  (Z.of_nat (length es) < 2 ^ 63)%Z -> (Z.of_nat (length es') < 2 ^ 63)%Z ->
  es ++ [e] = es' ++ [e'] \/ collision.
Proof.
  unfold verifyChain. cbn [entries]. revert es' e e' h.
  induction es as [|x es IH] using rev_ind; intros es' e e' h Hv Hv' He He' L L';
    apply verify_snoc in Hv as (Hv & Hh & Hs & _);
    apply verify_snoc in Hv' as (Hv' & Hh' & Hs' & _);
    (destruct (canonicalHash_inj _ _ _ He He') as [<-|]; [|by right]);
    rewrite Hs in Hs'; rewrite !u64_small in Hs' by lia.
  - destruct es'; [by left|cbn in Hs'; lia].
  - destruct es' as [|x' es' _] using rev_ind; rewrite !length_app in *; cbn in *; [lia|].
    unfold head_hash in Hh, Hh'. rewrite last_snoc in Hh, Hh'.
    destruct (IH es' x x' _ Hv Hv' Hh Hh') as [->|]; [lia..|by left|by right].
Qed.

(** The tail of the log is a suffix of at most [n] entries. *)
Lemma Tail_suffix a n :
  (0 < n)%Z -> exists k, Tail a n = drop k (entries a) /\
    length (Tail a n) = Nat.min (Z.to_nat n) (Len a).
Proof.
  intros Hn. unfold Tail, Len. eexists. split; [done|]. rewrite length_drop.
  destruct (Z.leb_spec n 0); [lia|]. cbn [orb].
  destruct (Z.ltb_spec (Z.of_nat (length (entries a))) n); lia.
Qed.

End audit.

(** * The properties at a concrete log *)

#[local] Existing Instance marker_tee.
#[local] Instance json_entry : Json AuditEntry := countable_json.
#[local] Instance json_entries : Json (list AuditEntry) := countable_json.
#[local] Instance json_slice : JsonSlice AuditEntry.
Proof. intros l b e _ _. by eexists. Qed.

#[local] Definition demo_hash (b : bytes) : bytes := b.
#[local] Definition demo_path : path := ("/sealed", "audit.bin")%string.
#[local] Definition demo_entry : AuditEntry :=
  Build_AuditEntry 1 0 "startup" "" "keystore" "" genesisHash.
#[local] Definition demo_log : auditLog := mkAudit demo_path [demo_entry].
#[local] Definition demo_file : file :=
  mkFile (x53 :: default [] (json_marshal (entries demo_log))) true.
#[local] Definition demo_world : world := boot {[demo_path := demo_file]}.

Lemma audit_chain_invariant_witness :
  exists a, Len a = 1%nat /\ verifyChain demo_hash a = Ok tt.
Proof.
  destruct (Append demo_hash (mkAudit demo_path []) 5 "startup" "" "keystore" ""
    (boot ∅)) as [[r a'] w'] eqn:E.
  assert (Len a' = 1%nat) as Hl.
  { change a' with (snd (fst ((r, a'), w'))). rewrite <-E. vm_compute. reflexivity. }
  exists a'. split; [exact Hl|].
  apply (audit_chain_invariant demo_hash demo_path a').
  - eapply (audit_append demo_hash demo_path); [apply audit_first|exact E].
  - rewrite Hl. reflexivity.
Defined.

(** The crash hits after the temporary file has been created, and leaves
    garbage in it. *)
#[local] Definition demo_after : (result kerr Z * auditLog) * world :=
  Append demo_hash demo_log 5 "get" "r" "m" "" demo_world.
#[local] Definition demo_torn : files := <[tmp_of demo_path := mkFile [] false]> (fs demo_world).
#[local] Definition demo_crashed : files :=
  <[tmp_of demo_path := mkFile [x2a] true]> (fs demo_world).

#[local] Lemma demo_crash : crash demo_torn demo_crashed.
Proof.
  intros q. unfold demo_torn, demo_crashed, crash_file.
  destruct (decide (q = tmp_of demo_path)) as [->|Hq].
  - rewrite !lookup_insert_eq. cbn. by eexists.
  - rewrite !lookup_insert_ne by done. cbn [fs demo_world boot].
    destruct (decide (q = demo_path)) as [->|Hp].
    + by rewrite lookup_singleton_eq.
    + by rewrite lookup_singleton_ne.
Qed.

Lemma Append_crash_safe_witness :
  verifyChain demo_hash demo_log = Ok tt /\ on_disk demo_log (fs demo_world) /\
  exists a1, loadAuditLog demo_hash demo_path (boot demo_crashed) = (Ok a1, boot demo_crashed) /\
    (a1 = demo_log \/ exists e, next_entry demo_hash demo_log 5 "get" "r" "m" "" e /\
       a1 = mkAudit demo_path (entries demo_log ++ [e])).
Proof.
  assert (verifyChain demo_hash demo_log = Ok tt) as Hv by (vm_compute; reflexivity).
  assert (on_disk demo_log (fs demo_world)) as Hd.
  { split; [reflexivity|]. eexists. split; [reflexivity|]. vm_compute. reflexivity. }
  split; [exact Hv|]. split; [exact Hd|].
  apply (Append_crash_safe demo_hash demo_log 5 "get" "r" "m" "" demo_world
    (fst demo_after) (snd demo_after) (take 4 (history (snd demo_after))) demo_torn
    demo_crashed Hv Hd).
  - exact (surjective_pairing demo_after).
  - apply (bool_decide_eq_true_1 _). vm_compute. reflexivity.
  - apply (bool_decide_eq_true_1 _). vm_compute. reflexivity.
  - exact demo_crash.
Defined.

Lemma chain_tamper_evident_witness :
  [demo_entry] = [demo_entry] \/ collision demo_hash.
Proof.
  apply (chain_tamper_evident demo_hash demo_path demo_path [] [] demo_entry demo_entry
    (default ""%string (canonicalHash demo_hash demo_entry)));
    first [vm_compute; reflexivity | cbn; lia].
Defined.
