(* ===== verification/Allowlist.v ===== *)
(** src/internal/keystore/allowlist.go: for each role, the MRENCLAVEs that
    may fetch its key, persisted as one sealed JSON object.  Shown: the
    well-formedness of the table (valid role names, 32-byte measurements, no
    duplicates) is kept by [Add] and [Remove]; what each of them changes, on
    success and on failure; what is persisted loads back; a crash leaves the
    old or the new table. *)

From S2P Require Import Prelude SysFS Hex KsTypes.

Section allowlist.
Context `{TEERuntime} `{Json (gmap string (list string))}.

Abbreviation role_table := (gmap string (list bytes)).

Record allowlist := mkAllow { allow_path : path; roles : role_table }.

(** [a.roles[role]]: the zero value [nil] for an absent role. *)
Definition role_list (rs : role_table) (role : Role) : list bytes := default [] (rs !! role).

(** The on-disk shape. *)
Definition table_text (rs : role_table) : gmap string (list string) :=
  fmap (M := gmap string) (fmap encodeMRENCLAVEHex) rs.

(** One iteration of the decoding loop of [loadAllowlist]. *)
Definition load_role (kv : string * list string) : result kerr (string * list bytes) :=
  match Role_Validate kv.1 with
  | Err _ => Err ErrCorruptedState
  | Ok _ =>
      match mapM decodeMRENCLAVEHex kv.2 with
      | Err _ => Err ErrCorruptedState
      | Ok ms => Ok (kv.1, ms)
      end
  end.

Definition loadAllowlist (p : path) : IO (result kerr allowlist) :=
  r ← sys_read p;
  match r with
  | ReadNotExist => mret (Ok (mkAllow p ∅))
  | ReadFailed => mret (Err ErrOther)
  | ReadOk sealed =>
      mret match UnsealUnique sealed with
           | None => Err ErrOther
           | Some plain =>
               match json_unmarshal plain with
               | None => Err ErrCorruptedState
               | Some onDisk =>
                   kvs ← mapM load_role (map_to_list onDisk);
                   Ok (mkAllow p (list_to_map kvs))
               end
           end
  end.

Definition persistLocked (a : allowlist) : IO bool :=
  match json_marshal (table_text (roles a)) with
  | None => mret false
  | Some plain =>
      sealed ← seal_unique plain;
      match sealed with
      | None => mret false
      | Some c =>
          made ← sys_mkdir;
          if negb made then mret false else write_tmp_rename (allow_path a) c
      end
  end.

Definition Allowed (a : allowlist) (role : Role) (mrenclave : bytes) : bool :=
  existsb (fun m => bool_decide (m = mrenclave)) (role_list (roles a) role).

(** [Get]: a copy of the list, [nil] for an absent role. *)
Definition Get (a : allowlist) (role : Role) : list bytes := role_list (roles a) role.

(** [Add]: the new list for the role or an error, and the table after. *)
Definition Add (a : allowlist) (role : Role) (mrenclave : bytes) :
    IO (result kerr (list bytes) * allowlist) :=
  let cur := role_list (roles a) role in
  if existsb (fun m => bool_decide (m = mrenclave)) cur then mret (Ok cur, a)
  else
    let grown := cur ++ [mrenclave] in
    let a' := mkAllow (allow_path a) (<[role := grown]> (roles a)) in
    ok ← persistLocked a';
    if negb ok then
      mret (Err ErrOther,
            mkAllow (allow_path a)
              (<[role := take (length grown - 1) grown]> (roles a')))
    else mret (Ok grown, a').

Definition Remove (a : allowlist) (role : Role) (mrenclave : bytes) :
    IO (result kerr unit * allowlist) :=
  let cur := role_list (roles a) role in
  match find_index (fun m => bool_decide (m = mrenclave)) cur with
  | None => mret (Ok tt, a)
  | Some idx =>
      let a' := mkAllow (allow_path a)
                  (<[role := take idx cur ++ drop (S idx) cur]> (roles a)) in
      ok ← persistLocked a';
      if negb ok then mret (Err ErrOther, mkAllow (allow_path a) (<[role := cur]> (roles a')))
      else mret (Ok tt, a')
  end.

Definition Snapshot (a : allowlist) : role_table := roles a.

(** ** Well-formedness *)

Definition wf_role (role : Role) (ms : list bytes) : Prop :=
  validateRole role = Ok tt /\ Forall (fun m => length m = 32%nat) ms /\ NoDup ms.

Definition wf_allow (a : allowlist) : Prop :=
  forall role ms, roles a !! role = Some ms -> wf_role role ms.

Lemma wf_role_list (a : allowlist) (role : Role) :
  wf_allow a ->
  Forall (fun m => length m = 32%nat) (role_list (roles a) role) /\
  NoDup (role_list (roles a) role).
Proof.
  intros Hw. unfold role_list. destruct (roles a !! role) as [ms|] eqn:E; cbn.
  - by destruct (Hw _ _ E) as (_ & ? & ?).
  - split; constructor.
Qed.

Lemma wf_insert (a : allowlist) (role : Role) (ms : list bytes) :
  wf_allow a -> wf_role role ms -> wf_allow (mkAllow (allow_path a) (<[role := ms]> (roles a))).
Proof.
  intros Hw Hr role' ms'. cbn. rewrite lookup_insert_Some. intros [[<- <-]|[_ ?]]; auto.
Qed.

Lemma Allowed_spec (a : allowlist) (role : Role) (m : bytes) :
  Allowed a role m = true <-> m ∈ role_list (roles a) role.
Proof.
  unfold Allowed. rewrite existsb_elem. split.
  - intros (x & Hx & ->%bool_decide_eq_true). done.
  - intros Hm. exists m. by rewrite bool_decide_eq_true.
Qed.

Lemma role_list_insert (rs : role_table) (role role' : Role) (ms : list bytes) :
  role_list (<[role := ms]> rs) role' =
  if decide (role' = role) then ms else role_list rs role'.
Proof.
  unfold role_list. destruct (decide (role' = role)) as [->|Hn].
  - by rewrite lookup_insert_eq.
  - by rewrite lookup_insert_ne.
Qed.

(** ** Writing and reading back *)

Lemma wp_persist_table (a : allowlist) (m : files) (plain : bytes) :
  json_marshal (table_text (roles a)) = Some plain ->
  wp (sealed_state (allow_path a) plain m) (persistLocked a)
    (sealed_post (allow_path a) plain m) m.
Proof.
  intros E. unfold persistLocked. rewrite E.
  apply wp_bind, wp_seal_unique; [|apply wp_ret; auto with bmail].
  intros c Hc. apply wp_bind, wp_mkdir. intros [|]; cbn [negb];
    [by apply wp_write_sealed|apply wp_ret; auto with bmail].
Qed.

Lemma load_role_text (role : Role) (ms : list bytes) :
  wf_role role ms -> load_role (role, encodeMRENCLAVEHex <$> ms) = Ok (role, ms).
Proof.
  intros (Hv & Hl & _). unfold load_role, Role_Validate. cbn. rewrite Hv.
  rewrite mapM_fmap_id; [done|]. intros m Hm. apply decode_encode_MRENCLAVE.
  by eapply Forall_forall in Hl.
Qed.

(** Decoding the text of a well-formed table gives the table. *)
Lemma load_table_text (p : path) (a : allowlist) :
  wf_allow a ->
  (kvs ← mapM load_role (map_to_list (table_text (roles a)));
   Ok (mkAllow p (list_to_map kvs))) = Ok (mkAllow p (roles a)) :> result kerr allowlist.
Proof.
  intros Hw. unfold table_text. rewrite map_to_list_fmap.
  rewrite (mapM_fmap_id load_role (prod_map id (fmap encodeMRENCLAVEHex))).
  - cbn. by rewrite list_to_map_to_list.
  - intros [role ms] Hin%elem_of_map_to_list. cbn. apply load_role_text. by apply Hw.
Qed.

(** ** Tables up to empty lists

    A failed first [Add] for a role leaves the role mapped to the empty list,
    where the file has no such role: the two tables allow the same callers. *)

Definition same_table (rs rs' : role_table) : Prop :=
  forall role, role_list rs role = role_list rs' role.

#[export] Instance same_table_equivalence : Equivalence same_table.
Proof.
  split; [done|intros x y Hs r; by rewrite Hs|intros x y z H1 H2 r; by rewrite H1].
Qed.

Lemma Allowed_same (a a' : allowlist) (role : Role) (m : bytes) :
  same_table (roles a) (roles a') -> Allowed a role m = Allowed a' role m.
Proof. intros Hs. unfold Allowed. by rewrite Hs. Qed.

Lemma same_table_insert_id (rs : role_table) (role : Role) :
  same_table (<[role := role_list rs role]> rs) rs.
Proof. intros r. rewrite role_list_insert. case_decide; by subst. Qed.

(** The table is the one the file at its path holds. *)
Definition on_disk (a : allowlist) (m : files) : Prop :=
  match m !! allow_path a with
  | None => same_table (roles a) ∅
  | Some f => durable f = true /\
      exists plain a', UnsealUnique (content f) = Some plain /\
        json_unmarshal plain = Some (table_text (roles a')) /\
        allow_path a' = allow_path a /\ wf_allow a' /\ same_table (roles a) (roles a')
  end.

Lemma load_table_on_disk (a : allowlist) (m : files) :
  on_disk a m ->
  exists a', loadAllowlist (allow_path a) (mkWorld m [] 0 [m]) = (Ok a', mkWorld m [] 0 [m]) /\
    same_table (roles a) (roles a') /\ wf_allow a'.
Proof.
  unfold on_disk, loadAllowlist, mbind, io_bind, sys_read. cbn [fs].
  destruct (m !! allow_path a) as [f|] eqn:E.
  - intros (_ & plain & a' & Hu & Hj & Hp & Hw & Hs).
    exists (mkAllow (allow_path a) (roles a')). split; [|done].
    cbn [oracle take_outcome]. cbn -[mapM]. rewrite Hu, Hj.
    unfold mret, io_ret. f_equal. exact (load_table_text (allow_path a) a' Hw).
  - intros Hs. eexists. split; [reflexivity|]. split; [done|]. intros r ms Hr. done.
Qed.

Lemma table_on_disk_settled (a : allowlist) (m : files) : on_disk a m -> settled m (allow_path a).
Proof. unfold on_disk, settled. intros Hd f Hf. rewrite Hf in Hd. by destruct Hd. Qed.

Lemma table_on_disk_same (a a' : allowlist) (m m' : files) :
  on_disk a m -> m' !! allow_path a = m !! allow_path a ->
  allow_path a' = allow_path a -> same_table (roles a') (roles a) -> on_disk a' m'.
Proof.
  unfold on_disk. intros Hd Hm Hp Hs. rewrite Hp, Hm.
  destruct (m !! allow_path a) as [f|].
  - destruct Hd as (Hf & plain & a1 & Hu & Hj & Ha & Hw & Hs1).
    split; [done|]. exists plain, a1. split_and!; try done. by etrans.
  - by etrans.
Qed.

Lemma table_on_disk_sealed (a : allowlist) (plain : bytes) (m : files) :
  wf_allow a -> json_marshal (table_text (roles a)) = Some plain ->
  sealed_at (allow_path a) plain m -> on_disk a m.
Proof.
  intros Hw Hj%json_roundtrip (c & Hu & Hc). unfold on_disk. rewrite Hc.
  split; [done|]. by exists plain, a.
Qed.

(** A mutation that sets [role] to [ms] and rolls back to [old] when it
    cannot persist: the common shape of [Add] and [Remove]. *)
Definition update (a : allowlist) (role : Role) (ms old : list bytes) : IO (bool * allowlist) :=
  let a' := mkAllow (allow_path a) (<[role := ms]> (roles a)) in
  ok ← persistLocked a';
  mret (if ok : bool then (true, a')
        else (false, mkAllow (allow_path a) (<[role := old]> (roles a')))).

(** What [update] returns. *)
Definition update_post (a : allowlist) (role : Role) (ms old : list bytes)
    (m : files) (r : bool * allowlist) (m' : files) : Prop :=
  if fst r then
    snd r = mkAllow (allow_path a) (<[role := ms]> (roles a)) /\ on_disk (snd r) m'
  else
    snd r = mkAllow (allow_path a) (<[role := old]> (roles a)) /\
    m' !! allow_path a = m !! allow_path a.

(** Every file system gone through holds the table before or the one after. *)
Definition old_or_new_table (a : allowlist) (role : Role) (ms : list bytes) (m s : files) : Prop :=
  s !! allow_path a = m !! allow_path a \/
  on_disk (mkAllow (allow_path a) (<[role := ms]> (roles a))) s.

Lemma wp_update (a : allowlist) (role : Role) (ms old : list bytes) (m : files) :
  wf_allow a -> wf_role role ms ->
  wp (old_or_new_table a role ms m) (update a role ms old) (update_post a role ms old m) m.
Proof.
  intros Hw Hr. unfold update. set (a' := mkAllow _ (<[role := ms]> _)).
  assert (wf_allow a') as Hw' by (by apply wf_insert).
  apply wp_bind.
  destruct (json_marshal (table_text (roles a'))) as [plain|] eqn:E.
  - apply (wp_inv_mono (sealed_state (allow_path a) plain m)); [|auto with bmail|].
    + intros s [_ [Ho|Ho]]; [by left|right]. by eapply (table_on_disk_sealed a').
    + eapply wp_mono; [by apply (wp_persist_table a')|].
      intros [|] m' [_ Hp]; apply wp_ret; unfold update_post; cbn.
      * split; [done|]. by eapply (table_on_disk_sealed a').
      * by rewrite insert_insert_eq.
  - unfold persistLocked. rewrite E. apply wp_ret, wp_ret. unfold update_post. cbn.
    by rewrite insert_insert_eq.
Qed.

(** [Add] and [Remove] are instances of [update]. *)
Lemma Add_update (a : allowlist) (role : Role) (m : bytes) (w : world) :
  m ∉ role_list (roles a) role ->
  Add a role m w =
  let '((ok, a'), w') :=
    update a role (role_list (roles a) role ++ [m]) (role_list (roles a) role) w in
  ((if ok : bool then Ok (role_list (roles a) role ++ [m]) else Err ErrOther, a'), w').
Proof.
  intros Hm. unfold Add, update.
  destruct (existsb _ _) eqn:E.
  { apply (Allowed_spec a role m) in E. done. }
  unfold mbind, io_bind. destruct (persistLocked _ w) as [[|] w']; [done|]. cbn.
  by rewrite length_app, Nat.add_sub, take_app_length.
Qed.

Lemma Remove_update (a : allowlist) (role : Role) (m : bytes) (idx : nat) (w : world) :
  find_index (fun x => bool_decide (x = m)) (role_list (roles a) role) = Some idx ->
  Remove a role m w =
  let '((ok, a'), w') :=
    update a role (take idx (role_list (roles a) role) ++ drop (S idx) (role_list (roles a) role))
      (role_list (roles a) role) w in
  ((if ok : bool then Ok tt else Err ErrOther, a'), w').
Proof.
  intros E. unfold Remove, update. rewrite E. unfold mbind, io_bind.
  by destruct (persistLocked _ w) as [[|] w'].
Qed.

Lemma wf_add (a : allowlist) (role : Role) (m : bytes) :
  wf_allow a -> validateRole role = Ok tt -> length m = 32%nat ->
  m ∉ role_list (roles a) role -> wf_role role (role_list (roles a) role ++ [m]).
Proof.
  intros Hw Hr Hl Hm. destruct (wf_role_list a role Hw) as [Hf Hn]. split; [done|]. split.
  - apply Forall_app. split; [done|]. by constructor.
  - apply NoDup_app. repeat split; [done| |apply NoDup_singleton].
    intros x Hx Hx'. apply list_elem_of_singleton in Hx' as ->. done.
Qed.

Lemma remove_nth_elem (l : list bytes) (i : nat) (x y : bytes) :
  NoDup l -> l !! i = Some x -> y ∈ take i l ++ drop (S i) l <-> y ∈ l /\ y <> x.
Proof.
  intros Hn Hi. rewrite <-(take_drop_middle l i x Hi) in Hn at 1.
  rewrite <-(take_drop_middle l i x Hi) at 3.
  rewrite !elem_of_app, elem_of_cons.
  apply NoDup_app in Hn as (_ & Hd & Hn). apply NoDup_cons in Hn as [Hx _].
  split.
  - intros [Hy|Hy]; (split; [tauto|]); intros ->; [|done].
    apply (Hd x Hy). left.
  - tauto.
Qed.

Lemma wf_remove (a : allowlist) (role : Role) (i : nat) (x : bytes) :
  wf_allow a -> role_list (roles a) role !! i = Some x ->
  wf_role role (take i (role_list (roles a) role) ++ drop (S i) (role_list (roles a) role)).
Proof.
  intros Hw Hi. assert (validateRole role = Ok tt) as Hv.
  { unfold role_list in Hi. destruct (roles a !! role) as [ms|] eqn:E; [|done].
    by destruct (Hw _ _ E). }
  destruct (wf_role_list a role Hw) as [Hf Hn]. split; [done|]. split.
  - apply Forall_app. split; [by apply Forall_take|by apply Forall_drop].
  - eapply sublist_NoDup; [exact Hn|].
    rewrite <-(take_drop_middle _ i x Hi) at 3.
    apply sublist_app; [done|]. by apply sublist_cons.
Qed.

Lemma update_result (a : allowlist) (role : Role) (ms old : list bytes) (w : world) :
  exists ok w', update a role ms old w =
    ((ok : bool, mkAllow (allow_path a) (<[role := if ok then ms else old]> (roles a))), w').
Proof.
  unfold update, mbind, io_bind. destruct (persistLocked _ w) as [[|] w'].
  - by exists true, w'.
  - exists false, w'. cbn. by rewrite insert_insert_eq.
Qed.

(** What [Add] and [Remove] do to the table in memory. *)
Lemma Add_table (a : allowlist) (role : Role) (m : bytes) (w : world) r a' w' :
  wf_allow a -> validateRole role = Ok tt -> length m = 32%nat ->
  Add a role m w = ((r, a'), w') ->
  wf_allow a' /\ allow_path a' = allow_path a /\
  (forall l, r = Ok l -> l = role_list (roles a') role) /\
  (forall e, r = Err e -> e = ErrOther) /\
  forall role' x, Allowed a' role' x = true <->
    Allowed a role' x = true \/ (is_ok r = true /\ role' = role /\ x = m).
Proof.
  intros Hw Hv Hl E. destruct (decide (m ∈ role_list (roles a) role)) as [Hin|Hn].
  - pose proof (proj2 (Allowed_spec a role m) Hin) as Ha. unfold Allowed in Ha.
    unfold Add in E. rewrite Ha in E. injection E as <- <- <-.
    split_and!; try done; [by intros l [= <-]|]. intros role' x. split; [tauto|].
    intros [?|(_ & -> & ->)]; [done|by apply Allowed_spec].
  - rewrite Add_update in E by done.
    destruct (update_result a role (role_list (roles a) role ++ [m])
      (role_list (roles a) role) w) as (ok & w1 & U).
    rewrite U in E. injection E as <- <- <-. destruct (wf_role_list a role Hw).
    split; [apply wf_insert; [done|]; destruct ok; [by apply wf_add|by split]|].
    split; [done|]. cbn [roles].
    split; [intros l; rewrite role_list_insert, decide_True by done; by destruct ok; intros [= <-]|].
    split; [by destruct ok; intros e; [|intros [= <-]]|].
    intros role' x. rewrite !Allowed_spec. cbn [roles]. rewrite role_list_insert.
    destruct ok, (decide (role' = role)) as [->|]; cbn [is_ok];
      rewrite ?elem_of_app, ?list_elem_of_singleton; naive_solver.
Qed.

Lemma Remove_table (a : allowlist) (role : Role) (m : bytes) (w : world) r a' w' :
  wf_allow a -> Remove a role m w = ((r, a'), w') ->
  wf_allow a' /\ allow_path a' = allow_path a /\ (forall e, r = Err e -> e = ErrOther) /\
  forall role' x, Allowed a' role' x = true <->
    Allowed a role' x = true /\ ~ (is_ok r = true /\ role' = role /\ x = m).
Proof.
  intros Hw E.
  destruct (find_index (fun x => bool_decide (x = m)) (role_list (roles a) role)) as [i|] eqn:F.
  - rewrite (Remove_update _ _ _ _ _ F) in E.
    destruct (update_result a role (take i (role_list (roles a) role) ++
      drop (S i) (role_list (roles a) role)) (role_list (roles a) role) w) as (ok & w1 & U).
    rewrite U in E. injection E as <- <- <-.
    apply find_index_Some in F as (y & Hi & ->%bool_decide_eq_true & _).
    destruct (wf_role_list a role Hw) as [Hf Hnd].
    pose proof (wf_remove a role i m Hw Hi) as Hwr.
    split; [apply wf_insert; [done|]; destruct ok; [done|by split; [apply Hwr|]]|].
    split; [done|]. split; [by destruct ok; intros e; [|intros [= <-]]|].
    intros role' x. rewrite !Allowed_spec. cbn [roles]. rewrite role_list_insert.
    destruct ok, (decide (role' = role)) as [->|]; cbn [is_ok];
      rewrite ?(remove_nth_elem _ _ _ _ Hnd Hi); naive_solver.
  - unfold Remove in E. rewrite F in E. injection E as <- <- <-. split_and!; try done.
    intros role' x. split; [|by intros [? _]]. intros Hx. split; [done|]. intros (_ & -> & ->).
    apply Allowed_spec in Hx. rewrite find_index_None in F. apply F in Hx.
    by rewrite bool_decide_eq_false in Hx.
Qed.

(** After [update], the file holds the table in memory. *)
Lemma update_on_disk (a : allowlist) (role : Role) (ms : list bytes) (w : world) ok a' w' :
  wf_allow a -> wf_role role ms -> on_disk a (fs w) ->
  update a role ms (role_list (roles a) role) w = ((ok, a'), w') -> on_disk a' (fs w').
Proof.
  intros Hw Hr Hd U.
  destruct (wp_update a role ms (role_list (roles a) role) (fs w) Hw Hr w _ _ eq_refl
    (or_introl eq_refl) U) as [_ Hp].
  unfold update_post in Hp. destruct ok; cbn [fst snd] in Hp; destruct Hp as [-> Hm]; [done|].
  eapply table_on_disk_same; [done..|]. apply same_table_insert_id.
Qed.

Lemma Add_on_disk (a : allowlist) (role : Role) (m : bytes) (w : world) r a' w' :
  wf_allow a -> on_disk a (fs w) -> validateRole role = Ok tt -> length m = 32%nat ->
  Add a role m w = ((r, a'), w') -> on_disk a' (fs w').
Proof.
  intros Hw Hd Hv Hl E. destruct (decide (m ∈ role_list (roles a) role)) as [Hin|Hn].
  - pose proof (proj2 (Allowed_spec a role m) Hin) as Ha. unfold Allowed in Ha.
    unfold Add in E. rewrite Ha in E. by injection E as <- <- <-.
  - rewrite Add_update in E by done. destruct (update _ _ _ _ w) as [[ok a1] w1] eqn:U.
    injection E as _ <- <-. eapply update_on_disk; [done|by apply wf_add|done|done].
Qed.

Lemma Remove_on_disk (a : allowlist) (role : Role) (m : bytes) (w : world) r a' w' :
  wf_allow a -> on_disk a (fs w) ->
  Remove a role m w = ((r, a'), w') -> on_disk a' (fs w').
Proof.
  intros Hw Hd E.
  destruct (find_index (fun x => bool_decide (x = m)) (role_list (roles a) role)) as [i|] eqn:F.
  - rewrite (Remove_update _ _ _ _ _ F) in E. destruct (update _ _ _ _ w) as [[ok a1] w1] eqn:U.
    injection E as _ <- <-. apply find_index_Some in F as (y & Hi & _).
    eapply update_on_disk; [done|by eapply wf_remove|done|done].
  - unfold Remove in E. rewrite F in E. by injection E as <- <- <-.
Qed.

(** Neither touches a file other than the table's. *)
Lemma wp_persist_keeps (q : path) (a : allowlist) (m s : files) :
  q <> allow_path a -> q <> tmp_of (allow_path a) -> keeps q m s ->
  wp (keeps q m) (persistLocked a) (fun _ => keeps q m) s.
Proof.
  intros Hp Ht Hk. unfold persistLocked. destruct (json_marshal _) as [plain|]; [|by apply wp_ret].
  apply wp_bind. eapply wp_mono; [by apply wp_seal_keeps|]. intros [c|] s1 Hk1; [|by apply wp_ret].
  apply wp_bind, wp_mkdir. intros [|]; cbn [negb]; [by apply wp_write_keeps|by apply wp_ret].
Qed.

Lemma wp_Add_keeps (q : path) (a : allowlist) (role : Role) (x : bytes) (m s : files) :
  q <> allow_path a -> q <> tmp_of (allow_path a) -> keeps q m s ->
  wp (keeps q m) (Add a role x) (fun _ => keeps q m) s.
Proof.
  intros Hp Ht Hk. unfold Add. destruct (existsb _ _); [by apply wp_ret|].
  apply wp_bind. eapply wp_mono; [by apply wp_persist_keeps|].
  intros [|] s1 Hk1; by apply wp_ret.
Qed.

Lemma wp_Remove_keeps (q : path) (a : allowlist) (role : Role) (x : bytes) (m s : files) :
  q <> allow_path a -> q <> tmp_of (allow_path a) -> keeps q m s ->
  wp (keeps q m) (Remove a role x) (fun _ => keeps q m) s.
Proof.
  intros Hp Ht Hk. unfold Remove. destruct (find_index _ _); [|by apply wp_ret].
  apply wp_bind. eapply wp_mono; [by apply wp_persist_keeps|].
  intros [|] s1 Hk1; by apply wp_ret.
Qed.

(** ** The properties *)

(** Granting a measurement access to a role.  On success the role's
    callers are those of before plus this one, and the returned list is the
    role's list; on failure no caller is allowed or forbidden differently.
    Other roles never change, the table stays well formed and the file holds
    it. *)
Theorem Add_spec a role m w r a' w' :
  wf_allow a -> on_disk a (fs w) -> validateRole role = Ok tt -> length m = 32%nat ->
  Add a role m w = ((r, a'), w') ->
  wf_allow a' /\ on_disk a' (fs w') /\
  match r with
  | Ok l => l = Get a' role /\
      forall role' x, Allowed a' role' x = true <->
        Allowed a role' x = true \/ role' = role /\ x = m
  | Err e => e = ErrOther /\
      forall role' x, Allowed a' role' x = true <-> Allowed a role' x = true
  end.
Proof.
  intros Hw Hd Hv Hl E. destruct (Add_table _ _ _ _ _ _ _ Hw Hv Hl E) as (Hw' & _ & Hok & He & Ha).
  split; [done|]. split; [by apply (Add_on_disk a role m w r a' w')|].
  destruct r as [l|e]; (split; [auto|]); intros role' x; rewrite Ha; cbn; naive_solver.
Qed.

(** Revoking a measurement.  On success it is no longer allowed for the
    role and every other caller keeps its access; on failure nothing changes;
    the table stays well formed and the file holds it. *)
Theorem Remove_spec a role m w r a' w' :
  wf_allow a -> on_disk a (fs w) ->
  Remove a role m w = ((r, a'), w') ->
  wf_allow a' /\ on_disk a' (fs w') /\
  match r with
  | Ok _ => forall role' x, Allowed a' role' x = true <->
      Allowed a role' x = true /\ ~ (role' = role /\ x = m)
  | Err e => e = ErrOther /\
      forall role' x, Allowed a' role' x = true <-> Allowed a role' x = true
  end.
Proof.
  intros Hw Hd E. destruct (Remove_table _ _ _ _ _ _ _ Hw E) as (Hw' & _ & He & Ha).
  split; [done|]. split; [by apply (Remove_on_disk a role m w r a' w')|].
  destruct r as [[]|e]; [|split; [auto|]]; intros role' x; rewrite Ha; cbn; naive_solver.
Qed.

(** What [Add] persisted is what the next process loads: whatever the
    crash point, the table read at the next boot allows the callers of before
    or those of after. *)
Theorem Add_crash_safe a role m w r a' w' l st c :
  wf_allow a -> on_disk a (fs w) -> validateRole role = Ok tt -> length m = 32%nat ->
  Add a role m w = ((r, a'), w') -> history w' = l ++ history w -> st ∈ l -> crash st c ->
  exists a1, loadAllowlist (allow_path a) (mkWorld c [] 0 [c]) = (Ok a1, mkWorld c [] 0 [c]) /\
    ((forall role' x, Allowed a1 role' x = Allowed a role' x) \/
     (forall role' x, Allowed a1 role' x = true <->
        Allowed a role' x = true \/ role' = role /\ x = m)).
Proof.
  intros Hw Hd Hv Hl E Hh Hst Hc. destruct (decide (m ∈ role_list (roles a) role)) as [Hin|Hn].
  - pose proof (proj2 (Allowed_spec a role m) Hin) as Ha. unfold Allowed in Ha.
    unfold Add in E. rewrite Ha in E. injection E as _ _ <-.
    apply (f_equal length) in Hh. rewrite length_app in Hh.
    destruct l; [by apply not_elem_of_nil in Hst|cbn in Hh; lia].
  - rewrite Add_update in E by done. destruct (update _ _ _ _ w) as [[ok a2] w2] eqn:U.
    injection E as _ _ <-.
    destruct (wp_update a role _ _ (fs w) Hw (wf_add a role m Hw Hv Hl Hn) w _ _ eq_refl
      (or_introl eq_refl) U) as [[_ (l' & El & Fl)] _].
    rewrite El in Hh. apply app_inv_tail in Hh as <-. rewrite Forall_forall in Fl.
    assert (forall b, allow_path b = allow_path a -> on_disk b st ->
      exists a1, loadAllowlist (allow_path a) (mkWorld c [] 0 [c]) =
        (Ok a1, mkWorld c [] 0 [c]) /\ same_table (roles b) (roles a1)) as Hload.
    { intros b Hp Hb. rewrite <-Hp. assert (on_disk b c) as Hbc.
      { eapply table_on_disk_same; [done| |done|done]. apply (crash_settled st c); [done|].
        by apply table_on_disk_settled. }
      destruct (load_table_on_disk b c Hbc) as (a1 & -> & Hs & _). eauto. }
    destruct (Fl st Hst) as [Ho|Ho].
    + destruct (Hload a) as (a1 & -> & Hs); [done|by eapply table_on_disk_same|].
      exists a1. split; [done|]. left. intros role' x. symmetry. by apply Allowed_same.
    + destruct (Hload (mkAllow (allow_path a)
        (<[role := role_list (roles a) role ++ [m]]> (roles a))) eq_refl Ho) as (a1 & -> & Hs).
      exists a1. split; [done|]. right. intros role' x.
      rewrite <-(Allowed_same (mkAllow (allow_path a) _) a1 role' x Hs), !Allowed_spec.
      cbn [roles]. rewrite role_list_insert. case_decide; [subst|naive_solver].
      rewrite elem_of_app, list_elem_of_singleton. naive_solver.
Qed.

End allowlist.

(** * The properties at a concrete table *)

#[local] Existing Instance marker_tee.
#[local] Instance json_table : Json (gmap string (list string)) := countable_json.

#[local] Definition demo_path : path := ("/sealed", "allowlist.bin")%string.
#[local] Definition demo_m : bytes := replicate 32 x07.
#[local] Definition demo_allow : allowlist := mkAllow demo_path {["r"%string := [demo_m]]}.
#[local] Definition demo_file : file :=
  mkFile (x53 :: default [] (json_marshal (table_text (roles demo_allow)))) true.
#[local] Definition demo_world : world := mkWorld {[demo_path := demo_file]} [] 0 [].

#[local] Lemma demo_wf : wf_allow demo_allow.
Proof.
  intros role ms. cbn. rewrite lookup_singleton_Some. intros [<- <-].
  split; [reflexivity|]. split; [by repeat constructor|apply NoDup_singleton].
Qed.

#[local] Lemma demo_on_disk : on_disk demo_allow (fs demo_world).
Proof.
  unfold on_disk. cbn [fs demo_world allow_path demo_allow]. rewrite lookup_singleton_eq.
  split; [done|]. exists (default [] (json_marshal (table_text (roles demo_allow)))), demo_allow.
  split; [done|]. split; [|split; [done|split; [apply demo_wf|done]]].
  exact (json_roundtrip (table_text (roles demo_allow)) _ eq_refl).
Qed.

Lemma Add_spec_witness :
  exists a', wf_allow a' /\ forall role' x, Allowed a' role' x = true <->
    Allowed demo_allow role' x = true \/ role' = "s"%string /\ x = replicate 32 x08.
Proof.
  destruct (Add demo_allow "s" (replicate 32 x08) demo_world) as [[r a'] w'] eqn:E.
  assert (is_ok r = true) as Hr.
  { change r with (fst (fst ((r, a'), w'))). rewrite <-E. vm_compute. reflexivity. }
  destruct (Add_spec demo_allow "s" (replicate 32 x08) demo_world r a' w'
    demo_wf demo_on_disk eq_refl eq_refl E) as (Hw & _ & H).
  exists a'. split; [exact Hw|]. destruct r as [l|e]; [apply H|discriminate].
Defined.

Lemma Remove_spec_witness :
  exists a', wf_allow a' /\ forall role' x, Allowed a' role' x = true <->
    Allowed demo_allow role' x = true /\ ~ (role' = "r"%string /\ x = demo_m).
Proof.
  destruct (Remove demo_allow "r" demo_m demo_world) as [[r a'] w'] eqn:E.
  assert (is_ok r = true) as Hr.
  { change r with (fst (fst ((r, a'), w'))). rewrite <-E. vm_compute. reflexivity. }
  destruct (Remove_spec demo_allow "r" demo_m demo_world r a' w'
    demo_wf demo_on_disk E) as (Hw & _ & H).
  exists a'. split; [exact Hw|]. destruct r as [l|e]; [apply H|discriminate].
Defined.

#[local] Definition demo_run : (result kerr (list bytes) * allowlist) * world :=
  Add demo_allow "s" (replicate 32 x08) demo_world.
#[local] Definition demo_torn : files := <[tmp_of demo_path := mkFile [] false]> (fs demo_world).
#[local] Definition demo_crashed : files :=
  <[tmp_of demo_path := mkFile [x2a] true]> (fs demo_world).

Lemma Add_crash_safe_witness :
  exists a1, loadAllowlist demo_path (mkWorld demo_crashed [] 0 [demo_crashed]) =
      (Ok a1, mkWorld demo_crashed [] 0 [demo_crashed]) /\
    ((forall role' x, Allowed a1 role' x = Allowed demo_allow role' x) \/
     (forall role' x, Allowed a1 role' x = true <->
        Allowed demo_allow role' x = true \/ role' = "s"%string /\ x = replicate 32 x08)).
Proof.
  apply (Add_crash_safe demo_allow "s" (replicate 32 x08) demo_world (fst (fst demo_run))
    (snd (fst demo_run)) (snd demo_run) (take 4 (history (snd demo_run))) demo_torn demo_crashed).
  - exact demo_wf.
  - exact demo_on_disk.
  - reflexivity.
  - reflexivity.
  - assert (forall x : (result kerr (list bytes) * allowlist) * world,
      x = ((fst (fst x), snd (fst x)), snd x)) as H by (by intros [[] ]).
    exact (H demo_run).
  - apply (bool_decide_eq_true_1 _). vm_compute. reflexivity.
  - apply (bool_decide_eq_true_1 _). vm_compute. reflexivity.
  - intros q. unfold demo_torn, demo_crashed, demo_world, crash_file. cbn [fs].
    rewrite !lookup_insert. case_decide; [by eexists|].
    rewrite lookup_singleton. by case_decide.
Defined.
