(* ===== verification/BreakGlass.v ===== *)
(** src/internal/keystore/breakglass.go: offline-operator Ed25519 proofs.
    [Verify] is modelled twice: as the sequential function the locked
    handlers run ([Verify]) and as the three atomic steps it is made of,
    interleaved between threads ([bg_step]).  Shown: the signing input
    determines the operation it authorises; what [Verify] accepts; no nonce
    is accepted twice when the calls are serialised; with interleaving a
    nonce can be accepted twice, but only by calls that overlap. *)

From S2P Require Import Prelude Hex KsTypes.

Section breakglass.
Context (sha256 : bytes -> bytes).
(** [ed25519.Verify(pub, message, sig)]. *)
Context (ed25519_Verify : bytes -> bytes -> bytes -> bool).

Record breakGlass := mkBG { expectedPub : option bytes; seenNonces : gset string }.

Definition PublicKeySize : nat := 32.
Definition SignatureSize : nat := 64.

Definition newBreakGlass (operatorPubHex : string) : result kerr breakGlass :=
  if String.eqb operatorPubHex "" then Ok (mkBG None ∅)
  else if negb (String.length operatorPubHex =? 64)%nat then Err ErrOther
  else match hex_DecodeString operatorPubHex with
       | None => Err ErrOther
       | Some pub =>
           if negb (length pub =? PublicKeySize)%nat then Err ErrOther
           else Ok (mkBG (Some pub) ∅)
       end.

Definition signing_text (action : string) (role : Role) (payload : bytes) (nonce : string) : string :=
  action ++ ":" ++ role ++ ":" ++ hex_EncodeToString payload ++ ":" ++ nonce.

Definition canonicalBreakGlassSigningInput (action : string) (role : Role)
    (payload : bytes) (nonce : string) : bytes :=
  sha256 (string_bytes (signing_text action role payload nonce)).

(** The checks of [Verify] before the lock: the decoded signature and the
    key it must verify under. *)
Definition verify_static (pub : option bytes) (proof : BreakGlassProof) : result kerr (bytes * bytes) :=
  match pub with
  | None => Err ErrBreakGlassInvalid
  | Some pub =>
      if String.eqb (OperatorPubKeyHex proof) "" || String.eqb (SignatureHex proof) "" ||
         String.eqb (Nonce proof) "" then Err ErrBreakGlassRequired
      else if negb (String.eqb (OperatorPubKeyHex proof) (hex_EncodeToString pub))
      then Err ErrBreakGlassInvalid
      else match hex_DecodeString (SignatureHex proof) with
           | None => Err ErrBreakGlassInvalid
           | Some sig =>
               if negb (length sig =? SignatureSize)%nat then Err ErrBreakGlassInvalid
               else if (String.length (Nonce proof) <? 16)%nat then Err ErrBreakGlassInvalid
               else Ok (pub, sig)
           end
  end.

Definition Verify (bg : breakGlass) (proof : BreakGlassProof) (action : string)
    (role : Role) (payload : bytes) : result kerr unit * breakGlass :=
  match verify_static (expectedPub bg) proof with
  | Err e => (Err e, bg)
  | Ok (pub, sig) =>
      if bool_decide (Nonce proof ∈ seenNonces bg) then (Err ErrBreakGlassReplay, bg)
      else
        let signed := canonicalBreakGlassSigningInput action role payload (Nonce proof) in
        if negb (ed25519_Verify pub signed sig) then (Err ErrBreakGlassInvalid, bg)
        else (Ok tt, mkBG (expectedPub bg) ({[Nonce proof]} ∪ seenNonces bg))
  end.

Definition Enabled (bg : breakGlass) : bool :=
  match expectedPub bg with Some _ => true | None => false end.

(** ** One call among others

Between its two critical sections a call of [Verify] holds no lock.  A
thread is a call with the point it has reached. *)

Inductive verify_pc :=
| Entered                   (* before the first critical section *)
| Unseen (pub sig : bytes)  (* nonce not in [seenNonces], lock released *)
| Finished (r : result kerr unit).

Record call := mkCall {
  call_proof : BreakGlassProof;
  call_action : string;
  call_role : Role;
  call_payload : bytes;
  call_pc : verify_pc
}.

Definition at_pc (c : call) (pc : verify_pc) : call :=
  mkCall (call_proof c) (call_action c) (call_role c) (call_payload c) pc.

(** One atomic step of a call. *)
Definition call_step (bg : breakGlass) (c : call) : option (breakGlass * call) :=
  let nonce := Nonce (call_proof c) in
  match call_pc c with
  | Entered =>
      match verify_static (expectedPub bg) (call_proof c) with
      | Err e => Some (bg, at_pc c (Finished (Err e)))
      | Ok (pub, sig) =>
          if bool_decide (nonce ∈ seenNonces bg)
          then Some (bg, at_pc c (Finished (Err ErrBreakGlassReplay)))
          else Some (bg, at_pc c (Unseen pub sig))
      end
  | Unseen pub sig =>
      if negb (ed25519_Verify pub
                 (canonicalBreakGlassSigningInput (call_action c) (call_role c)
                    (call_payload c) nonce) sig)
      then Some (bg, at_pc c (Finished (Err ErrBreakGlassInvalid)))
      else Some (mkBG (expectedPub bg) ({[nonce]} ∪ seenNonces bg),
                 at_pc c (Finished (Ok tt)))
  | Finished _ => None
  end.

Abbreviation bg_state := (breakGlass * list call)%type.

(** Any call may move next. *)
Inductive bg_step : bg_state -> bg_state -> Prop :=
| bg_step_call bg cs i c bg' c' :
    cs !! i = Some c -> call_step bg c = Some (bg', c') ->
    bg_step (bg, cs) (bg', <[i := c']> cs).

(** Serialised calls: the fold of [Verify] (what [writeMu] gives the
    provision, delegate and revoke handlers). *)
Fixpoint verify_all (bg : breakGlass) (cs : list call) : list (result kerr unit) * breakGlass :=
  match cs with
  | [] => ([], bg)
  | c :: cs =>
      let '(r, bg1) := Verify bg (call_proof c) (call_action c) (call_role c) (call_payload c) in
      let '(rs, bg2) := verify_all bg1 cs in
      (r :: rs, bg2)
  end.

(** ** Lemmas *)

Lemma signing_text_bytes (action role nonce : string) (payload : bytes) :
  string_bytes (signing_text action role payload nonce) =
  string_bytes action ++ ":"%byte :: string_bytes role ++ ":"%byte ::
    hex_bytes payload ++ ":"%byte :: string_bytes nonce.
Proof.
  unfold signing_text, hex_EncodeToString.
  by rewrite !string_bytes_app, string_bytes_string.
Qed.

Lemma colon_not_hex : ":"%byte ∉ hex_digits.
Proof. apply (bool_decide_eq_true_1 _). by vm_compute. Qed.

Lemma Verify_pub (bg : breakGlass) (p : BreakGlassProof) a r pl :
  expectedPub (snd (Verify bg p a r pl)) = expectedPub bg.
Proof. unfold Verify. by repeat case_match. Qed.

Lemma Verify_seen (bg : breakGlass) (p : BreakGlassProof) a r pl :
  seenNonces (snd (Verify bg p a r pl)) =
  if is_ok (fst (Verify bg p a r pl)) then {[Nonce p]} ∪ seenNonces bg else seenNonces bg.
Proof. unfold Verify. by repeat case_match. Qed.

Lemma Verify_ok_unseen (bg : breakGlass) (p : BreakGlassProof) a r pl :
  fst (Verify bg p a r pl) = Ok tt -> Nonce p ∉ seenNonces bg.
Proof.
  unfold Verify. repeat case_match; try done. bool_prop. done.
Qed.

Lemma verify_all_seen (bg : breakGlass) (cs : list call) :
  seenNonces bg ⊆ seenNonces (snd (verify_all bg cs)).
Proof.
  revert bg. induction cs as [|c cs IH]; intros bg; cbn; [done|].
  destruct (Verify _ _ _ _ _) as [r bg1] eqn:V. destruct (verify_all bg1 cs) as [rs bg2] eqn:E.
  cbn. specialize (IH bg1). rewrite E in IH. cbn in IH.
  pose proof (Verify_seen bg (call_proof c) (call_action c) (call_role c) (call_payload c)) as Hs.
  rewrite V in Hs. cbn in Hs. destruct (is_ok r); set_solver.
Qed.

Lemma verify_all_unseen (bg : breakGlass) (cs : list call) j c :
  cs !! j = Some c -> fst (verify_all bg cs) !! j = Some (Ok tt) ->
  Nonce (call_proof c) ∉ seenNonces bg.
Proof.
  revert bg j. induction cs as [|d cs IH]; intros bg j Hc Hr; [done|]. cbn in Hr.
  destruct (Verify _ _ _ _ _) as [r bg1] eqn:V. destruct (verify_all bg1 cs) as [rs bg2] eqn:E.
  destruct j as [|j]; cbn in Hc, Hr.
  - injection Hc as ->. injection Hr as ->.
    apply (Verify_ok_unseen _ _ (call_action c) (call_role c) (call_payload c)). by rewrite V.
  - assert (Nonce (call_proof c) ∉ seenNonces bg1) as Hn.
    { apply (IH bg1 j Hc). by rewrite E. }
    pose proof (Verify_seen bg (call_proof d) (call_action d) (call_role d) (call_payload d)) as Hs.
    rewrite V in Hs. cbn in Hs. destruct (is_ok r); set_solver.
Qed.

(** ** The properties *)

(** A signature authorises one operation: when two signing inputs agree,
    the actions, roles, payloads and nonces agree, unless SHA-256 collided.
    (Actions and roles hold no colon: the four actions are fixed words and
    roles are validated.) *)
Theorem signing_input_binds a r p n a' r' p' n' :
  no_byte ":"%byte (string_bytes a) -> no_byte ":"%byte (string_bytes a') ->
  no_byte ":"%byte (string_bytes r) -> no_byte ":"%byte (string_bytes r') ->
  canonicalBreakGlassSigningInput a r p n = canonicalBreakGlassSigningInput a' r' p' n' ->
  (a, r, p, n) = (a', r', p', n') \/
  (exists x y, x <> y /\ sha256 x = sha256 y).
Proof.
  intros Ha Ha' Hr Hr' E. unfold canonicalBreakGlassSigningInput in E.
  destruct (decide (string_bytes (signing_text a r p n) = string_bytes (signing_text a' r' p' n')))
    as [T|T]; [left|right; eauto].
  rewrite !signing_text_bytes in T.
  apply cut_at_inj in T as [<-%string_bytes_inj T]; [|done..].
  apply cut_at_inj in T as [<-%string_bytes_inj T]; [|done..].
  apply cut_at_inj in T as [T <-%string_bytes_inj];
    [|apply hex_bytes_no_byte, colon_not_hex..].
  assert (Some p = Some p') as [= <-]; [|done].
  by rewrite <-!hex_parse_bytes, T.
Qed.

(** [Verify] accepts exactly a proof under the configured key, with a
    64-byte signature over this action, role, payload and nonce, and a nonce
    of at least 16 characters not used before; it then remembers the nonce,
    and a refusal changes nothing. *)
Theorem Verify_spec bg proof action role payload :
  match Verify bg proof action role payload with
  | (Ok _, bg') => exists pub sig,
      expectedPub bg = Some pub /\
        OperatorPubKeyHex proof = hex_EncodeToString pub /\
        hex_DecodeString (SignatureHex proof) = Some sig /\ length sig = SignatureSize /\
        (16 <= String.length (Nonce proof))%nat /\ (Nonce proof ∉ seenNonces bg) /\
        ed25519_Verify pub
          (canonicalBreakGlassSigningInput action role payload (Nonce proof)) sig = true /\
        bg' = mkBG (Some pub) ({[Nonce proof]} ∪ seenNonces bg)
  | (Err e, bg') => bg' = bg /\
      (e ∈ [ErrBreakGlassInvalid; ErrBreakGlassRequired; ErrBreakGlassReplay])
  end.
Proof.
  unfold Verify, verify_static. destruct (expectedPub bg) as [pub|] eqn:P; [|split; [done|set_solver]].
  destruct (_ || _) eqn:E1; [split; [done|set_solver]|].
  destruct (negb (String.eqb _ _)) eqn:E2; [split; [done|set_solver]|].
  destruct (hex_DecodeString _) as [sig|] eqn:E3; [|split; [done|set_solver]].
  destruct (negb (_ =? _)%nat) eqn:E4; [split; [done|set_solver]|].
  destruct (_ <? 16)%nat eqn:E5; [split; [done|set_solver]|].
  destruct (bool_decide _) eqn:E6; [split; [done|set_solver]|].
  destruct (negb (ed25519_Verify _ _ _)) eqn:E7; [split; [done|set_solver]|].
  bool_prop. exists pub, sig. repeat split; auto.
Qed.

(** Serialised calls never accept a nonce twice. *)
Theorem verify_all_no_replay bg cs i j c d :
  cs !! i = Some c -> cs !! j = Some d ->
  fst (verify_all bg cs) !! i = Some (Ok tt) -> fst (verify_all bg cs) !! j = Some (Ok tt) ->
  Nonce (call_proof c) = Nonce (call_proof d) -> i = j.
Proof.
  revert bg i j. induction cs as [|x cs IH]; intros bg i j Hc Hd Hi Hj Hn; [done|].
  cbn in Hi, Hj.
  destruct (Verify _ _ _ _ _) as [r bg1] eqn:V. destruct (verify_all bg1 cs) as [rs bg2] eqn:E.
  assert (Hrec : fst (verify_all bg1 cs) = rs) by (by rewrite E).
  pose proof (Verify_seen bg (call_proof x) (call_action x) (call_role x) (call_payload x)) as Hs.
  rewrite V in Hs. cbn [fst snd] in *.
  destruct i as [|i], j as [|j]; cbn in Hc, Hd, Hi, Hj; [done| | |].
  - injection Hc as ->. injection Hi as ->. exfalso.
    rewrite <-Hrec in Hj. apply (verify_all_unseen bg1 cs j d Hd) in Hj. set_solver.
  - injection Hd as ->. injection Hj as ->. exfalso.
    rewrite <-Hrec in Hi. apply (verify_all_unseen bg1 cs i c Hc) in Hi. set_solver.
  - f_equal. apply (IH bg1 i j Hc Hd); [by rewrite Hrec..|done].
Qed.

Lemma rtc_keeps {A : Type} (P : A -> Prop) (R : relation A) :
  (forall x y, P x -> R x y -> P y) -> forall x y, rtc R x y -> P x -> P y.
Proof. intros H x y Hr. induction Hr; eauto. Qed.

(** What interleaved calls keep: an accepted call's nonce is remembered. *)
Definition accepted_seen (st : bg_state) : Prop :=
  forall c, c ∈ snd st -> call_pc c = Finished (Ok tt) ->
    Nonce (call_proof c) ∈ seenNonces (fst st).

Lemma call_step_grows bg c bg' c' :
  call_step bg c = Some (bg', c') ->
  seenNonces bg ⊆ seenNonces bg' /\ call_proof c' = call_proof c /\
  (call_pc c' = Finished (Ok tt) -> Nonce (call_proof c) ∈ seenNonces bg').
Proof.
  unfold call_step, at_pc. repeat case_match; intros; simplify_eq/=; set_solver.
Qed.

Lemma accepted_seen_step st st' : accepted_seen st -> bg_step st st' -> accepted_seen st'.
Proof.
  intros Hi Hs. destruct Hs as [bg cs i c bg' c' Hc Hstep]. intros d Hd Hpc. cbn in *.
  destruct (call_step_grows _ _ _ _ Hstep) as (Hg & Hp & Ha).
  apply list_elem_of_lookup in Hd as [k Hk].
  destruct (decide (k = i)) as [->|Hne].
  - rewrite list_lookup_insert_eq in Hk by (by eapply lookup_lt_Some).
    injection Hk as <-. rewrite Hp. by apply Ha.
  - rewrite list_lookup_insert_ne in Hk by done. apply Hg, Hi; [|done].
    cbn. by eapply list_elem_of_lookup_2.
Qed.

(** C5. However calls interleave, from a start at which none has been answered,
    a call that enters its first critical section after some call was accepted
    with the same nonce is refused and changes nothing: a nonce can be
    accepted twice only by overlapping calls. *)
Theorem no_replay_after_accept st0 st st' c d bg' d' :
  (forall e, e ∈ snd st0 -> call_pc e = Entered) ->
  rtc bg_step st0 st -> c ∈ snd st -> call_pc c = Finished (Ok tt) ->
  rtc bg_step st st' ->
  d ∈ snd st' -> call_pc d = Entered -> Nonce (call_proof d) = Nonce (call_proof c) ->
  call_step (fst st') d = Some (bg', d') ->
  exists e, call_pc d' = Finished (Err e) /\ bg' = fst st'.
Proof.
  intros H0 Hr0 Hc Hpc Hr Hd Hd0 Hn Hstep.
  assert (accepted_seen st) as Hi.
  { apply (rtc_keeps _ _ accepted_seen_step _ _ Hr0). intros e He Hf. by rewrite (H0 e He) in Hf. }
  assert (Nonce (call_proof c) ∈ seenNonces (fst st')) as Hin.
  { apply (rtc_keeps (fun st => Nonce (call_proof c) ∈ seenNonces (fst st)) bg_step) with st; [|done|by apply Hi].
    intros x y Hx Hs. destruct Hs as [bg cs i k bg1 k' _ Hs]. by apply (call_step_grows _ _ _ _ Hs). }
  unfold call_step in Hstep. rewrite Hd0, Hn in Hstep.
  destruct (verify_static _ _) as [[pub sig]|e]; [|injection Hstep as <- <-; by eexists].
  rewrite bool_decide_eq_true_2 in Hstep by done. injection Hstep as <- <-. by eexists.
Qed.

End breakglass.

(** * The properties at a concrete proof *)

#[local] Definition demo_pub : bytes := replicate 32 x07.
#[local] Definition demo_proof : BreakGlassProof := {|
  OperatorPubKeyHex := hex_EncodeToString demo_pub;
  Nonce := "0123456789abcdef";
  SignatureHex := hex_EncodeToString (replicate 64 x01) |}.
#[local] Definition demo_verify (pub msg sig : bytes) : bool := true.
#[local] Definition demo_hash (b : bytes) : bytes := b.
#[local] Definition demo_call : call := mkCall demo_proof "list" "" [] Entered.
#[local] Definition demo_bg : breakGlass := mkBG (Some demo_pub) ∅.

Lemma signing_input_binds_witness :
  ("revoke"%string, "gateway-tls"%string, demo_pub, "n"%string) =
  ("revoke"%string, "gateway-tls"%string, demo_pub, "n"%string) \/
  exists x y, x <> y /\ demo_hash x = demo_hash y.
Proof.
  apply (signing_input_binds demo_hash "revoke" "gateway-tls" demo_pub "n"
    "revoke" "gateway-tls" demo_pub "n");
    try reflexivity; apply (bool_decide_eq_true_1 _); vm_compute; reflexivity.
Defined.

Lemma verify_all_no_replay_witness :
  fst (verify_all demo_hash demo_verify demo_bg [demo_call; demo_call]) =
    [Ok tt; Err ErrBreakGlassReplay] /\ (0 = 0)%nat.
Proof.
  split; [vm_compute; reflexivity|].
  apply (verify_all_no_replay demo_hash demo_verify demo_bg [demo_call; demo_call] 0 0
    demo_call demo_call); vm_compute; reflexivity.
Defined.

(** One call runs to its end; the other has the same proof. *)
#[local] Definition demo_start : breakGlass * list call := (demo_bg, [demo_call; demo_call]).
#[local] Definition demo_half : call := at_pc demo_call (Unseen demo_pub (replicate 64 x01)).
#[local] Definition demo_state : breakGlass * list call :=
  (mkBG (Some demo_pub) ({[Nonce demo_proof]} ∪ ∅),
   [at_pc demo_call (Finished (Ok tt)); demo_call]).

Lemma no_replay_after_accept_witness :
  exists e, call_pc (at_pc demo_call (Finished (Err ErrBreakGlassReplay))) = Finished (Err e) /\
    fst demo_state = fst demo_state.
Proof.
  apply (no_replay_after_accept demo_hash demo_verify demo_start demo_state demo_state
    (at_pc demo_call (Finished (Ok tt))) demo_call (fst demo_state)).
  - intros c Hc. cbn in Hc. repeat (apply elem_of_cons in Hc as [->|Hc]; [done|]).
    by apply not_elem_of_nil in Hc.
  - eapply rtc_l; [apply (bg_step_call _ _ demo_bg _ 0 demo_call demo_bg demo_half); vm_compute; reflexivity|].
    eapply rtc_l; [apply (bg_step_call _ _ demo_bg _ 0 demo_half (fst demo_state) (at_pc demo_call (Finished (Ok tt)))); reflexivity|].
    apply rtc_refl.
  - left.
  - reflexivity.
  - apply rtc_refl.
  - right. left.
  - reflexivity.
  - reflexivity.
  - vm_compute. reflexivity.
Defined.

(** Two overlapping calls with the same proof can both be accepted: the
    check of the nonce and its recording are separate critical sections. *)
Theorem verify_race :
  exists bg, rtc (bg_step demo_hash demo_verify) (demo_bg, [demo_call; demo_call])
    (bg, [at_pc demo_call (Finished (Ok tt)); at_pc demo_call (Finished (Ok tt))]).
Proof.
  set (u := at_pc demo_call (Unseen demo_pub (replicate 64 x01))).
  set (f := at_pc demo_call (Finished (Ok tt))).
  set (bg1 := mkBG (Some demo_pub) ({[Nonce demo_proof]} ∪ ∅)).
  set (bg2 := mkBG (Some demo_pub) ({[Nonce demo_proof]} ∪ ({[Nonce demo_proof]} ∪ ∅))).
  exists bg2.
  eapply rtc_l; [apply (bg_step_call _ _ demo_bg _ 0 demo_call demo_bg u); vm_compute; reflexivity|].
  eapply rtc_l; [apply (bg_step_call _ _ demo_bg _ 1 demo_call demo_bg u); vm_compute; reflexivity|].
  eapply rtc_l; [apply (bg_step_call _ _ demo_bg _ 0 u bg1 f); reflexivity|].
  eapply rtc_l; [apply (bg_step_call _ _ bg1 _ 1 u bg2 f); reflexivity|].
  apply rtc_refl.
Qed.
