(* ===== verification/KeyStore.v ===== *)
(** src/internal/keystore/store.go: one sealed file per role, named by the
    hash of the role.  Shown: a key that was provisioned is what [Get]
    returns afterwards, a second [Provision] is refused and changes nothing,
    other roles are untouched unless SHA-256 collides, a crash leaves the role
    unprovisioned or completely provisioned, and whatever the disk holds
    [Get] only returns an entry made for the role asked. *)

From stdpp Require Import sorting.
From S2P Require Import Prelude SysFS Hex KsTypes.

Record keyEntry := {
  entry_Role : Role;
  entry_Key : bytes;
  entry_KeyType : string;
  entry_CreatedAt : Z
}.

Section keystore.
Context `{TEERuntime} `{Json keyEntry}.
Context (sha256 : bytes -> bytes).

(** The directory of the store. *)
Record keyStore := mkStore { store_dir : string }.

(** [path]: <dir>/<hex sha256 of the role>.bin *)
Definition key_path (s : keyStore) (role : Role) : path :=
  (store_dir s, (hex_EncodeToString (sha256 (string_bytes role)) ++ ".bin")%string).

(** [newKeyStore]: only creates the directory. *)
Definition newKeyStore (dir : string) : IO (result kerr keyStore) :=
  made ← sys_mkdir;
  mret (if made : bool then Ok (mkStore dir) else Err ErrOther).

(** [Has]: [os.Stat] on the role's file; any error counts as absent. *)
Definition Has (s : keyStore) (role : Role) : IO bool := fun w =>
  match fs w !! key_path s role with
  | None => (false, w)
  | Some _ => let '(o, w') := take_outcome w in
              (match o with Done => true | Failed _ => false end, w')
  end.

Definition Get (s : keyStore) (role : Role) : IO (result kerr keyEntry) :=
  r ← sys_read (key_path s role);
  mret match r with
       | ReadNotExist => Err ErrRoleNotFound
       | ReadFailed => Err ErrOther
       | ReadOk sealed =>
           match UnsealUnique sealed with
           | None => Err ErrOther
           | Some plain =>
               match json_unmarshal plain with
               | None => Err ErrCorruptedState
               | Some entry =>
                   if negb (String.eqb (entry_Role entry) role) then Err ErrCorruptedState
                   else Ok entry
               end
           end
       end.

Definition writeAtomic (s : keyStore) (entry : keyEntry) : IO (result kerr unit) :=
  match json_marshal entry with
  | None => mret (Err ErrOther)
  | Some plain =>
      sealed ← seal_unique plain;
      match sealed with
      | None => mret (Err ErrOther)
      | Some c =>
          ok ← write_tmp_rename (key_path s (entry_Role entry)) c;
          mret (if ok : bool then Ok tt else Err ErrOther)
      end
  end.

(** [Provision(role, key, keyType)] at unix time [now]. *)
Definition Provision (s : keyStore) (now : Z) (role : Role) (key : bytes) (keyType : string) :
    IO (result kerr unit) :=
  has ← Has s role;
  if has : bool then mret (Err ErrAlreadyProvisioned)
  else writeAtomic s {| entry_Role := role; entry_Key := key;
                        entry_KeyType := keyType; entry_CreatedAt := now |}.

Definition hasSuffix (s suffix : string) : bool :=
  (String.length suffix <=? String.length s)%nat &&
  String.eqb (String.substring (String.length s - String.length suffix)
                (String.length suffix) s) suffix.

(** The names in a directory, sorted ([os.ReadDir]). *)
Definition dir_names (dir : string) (m : files) : list string :=
  merge_sort string_le
    (omap (fun kv : path * file => if String.eqb kv.1.1 dir then Some kv.1.2 else None)
       (map_to_list m)).

(** One iteration of [ListRoles]: errors skip the file. *)
Definition list_one (s : keyStore) (name : string) : IO (list Role) :=
  if negb (hasSuffix name ".bin") then mret []
  else
    r ← sys_read (store_dir s, name);
    mret match r with
         | ReadOk sealed =>
             match UnsealUnique sealed with
             | None => []
             | Some plain =>
                 match json_unmarshal plain with
                 | None => []
                 | Some entry => [entry_Role entry]
                 end
             end
         | _ => []
         end.

Fixpoint list_names (s : keyStore) (names : list string) : IO (list Role) :=
  match names with
  | [] => mret []
  | n :: names =>
      r ← list_one s n;
      rs ← list_names s names;
      mret (r ++ rs)
  end.

Definition ListRoles (s : keyStore) : IO (result kerr (list Role)) := fun w =>
  let '(o, w') := take_outcome w in
  match o with
  | Failed _ => (Err ErrOther, w')
  | Done => let '(rs, w2) := list_names s (dir_names (store_dir s) (fs w')) w' in (Ok rs, w2)
  end.

(** * Lemmas *)

Abbreviation entry_of role key keyType now :=
  {| entry_Role := role; entry_Key := key; entry_KeyType := keyType; entry_CreatedAt := now |}.

Lemma wp_Has (I : files -> Prop) (s : keyStore) (role : Role) (Q : bool -> files -> Prop) (m : files) :
  (m !! key_path s role = None -> Q false m) ->
  (is_Some (m !! key_path s role) -> forall b, Q b m) -> wp I (Has s role) Q m.
Proof.
  intros HN HS w a w' <- Hi. unfold Has, take_outcome.
  destruct (fs w !! key_path s role) as [f|] eqn:E.
  - destruct (oracle w) as [|o os]; intros [= <- <-]; cbn;
      (split; [split; [done|by exists []]|apply HS; by eexists]).
  - intros [= <- <-]. split; [by apply extends_refl|auto].
Qed.

Lemma wp_writeAtomic (s : keyStore) (e : keyEntry) (plain : bytes) (m : files) :
  json_marshal e = Some plain ->
  wp (sealed_state (key_path s (entry_Role e)) plain m) (writeAtomic s e)
    (fun r m' => (r = Ok tt \/ r = Err ErrOther) /\
       sealed_post (key_path s (entry_Role e)) plain m (is_ok r) m') m.
Proof.
  intros E. unfold writeAtomic. rewrite E.
  apply wp_bind, wp_seal_unique.
  - intros c Hc. apply wp_bind. eapply wp_mono; [by apply wp_write_sealed|].
    intros [|] m' Hp; apply wp_ret; cbn; auto.
  - apply wp_ret. cbn. auto with bmail.
Qed.

Lemma key_path_inj (s : keyStore) (r r' : Role) :
  key_path s r = key_path s r' ->
  sha256 (string_bytes r) = sha256 (string_bytes r').
Proof.
  intros [= E]. assert (forall a b : string, (a ++ ".bin" = b ++ ".bin")%string -> a = b) as Hi.
  { intros a b Hab. apply (f_equal string_bytes) in Hab. rewrite !string_bytes_app in Hab.
    apply app_inv_tail in Hab. by apply string_bytes_inj. }
  by apply hex_encode_inj, Hi.
Qed.

(** A role's file is never another role's temporary. *)
Lemma key_path_not_tmp (s : keyStore) (r r' : Role) : key_path s r <> tmp_of (key_path s r').
Proof.
  intros [= E]. apply (f_equal string_bytes) in E. rewrite !string_bytes_app in E.
  apply (f_equal last) in E. rewrite !last_app in E. discriminate.
Qed.

Lemma Get_sealed (s : keyStore) (e : keyEntry) (plain : bytes) (m : files) w :
  json_marshal e = Some plain -> sealed_at (key_path s (entry_Role e)) plain m ->
  fs w = m -> oracle w = [] -> Get s (entry_Role e) w = (Ok e, w).
Proof.
  intros Hj (c & Hu & Hc) Hf Ho. unfold Get, mbind, io_bind, sys_read, mret, io_ret.
  rewrite Hf, Hc. unfold take_outcome. rewrite Ho. cbn. rewrite Hu.
  rewrite (json_roundtrip _ _ Hj). by rewrite String.eqb_refl.
Qed.

(** [Get] only depends on the role's file. *)
Lemma Get_same (s : keyStore) (role : Role) (m m' : files) :
  m' !! key_path s role = m !! key_path s role ->
  fst (Get s role (mkWorld m' [] 0 [])) = fst (Get s role (mkWorld m [] 0 [])).
Proof.
  intros E. unfold Get, mbind, io_bind, sys_read. cbn [fs]. rewrite E.
  destruct (m !! key_path s role); reflexivity.
Qed.

(** ** The properties *)

Lemma Get_pure (s : keyStore) (role : Role) (w : world) r w' :
  Get s role w = (r, w') -> fs w' = fs w /\ history w' = history w.
Proof.
  unfold Get, mbind, io_bind, sys_read, take_outcome. destruct w as [m os en h]. cbn.
  by destruct (m !! key_path s role) as [f|]; [destruct os as [|[|n] os]|];
    intros [= <- <-].
Qed.

Lemma Get_entry_role (s : keyStore) (role : Role) (w : world) e w' :
  Get s role w = (Ok e, w') -> entry_Role e = role.
Proof.
  unfold Get, mbind, io_bind. destruct (sys_read _ w) as [[b| |] w1]; cbn; try done.
  destruct (UnsealUnique b); [|done]. destruct (json_unmarshal _) as [x|]; [|done].
  destruct (String.eqb_spec (entry_Role x) role); cbn; [|done]. by intros [= <- _].
Qed.

Lemma list_names_pure (s : keyStore) (names : list string) (w : world) r w' :
  list_names s names w = (r, w') -> fs w' = fs w.
Proof.
  revert w r w'. induction names as [|n names IH]; intros w r w' E; cbn in E.
  - by injection E as _ <-.
  - unfold mbind, io_bind in E. destruct (list_one s n w) as [r1 w1] eqn:E1.
    destruct (list_names s names w1) as [r2 w2] eqn:E2. injection E as _ <-.
    rewrite (IH _ _ _ E2). unfold list_one in E1.
    destruct (negb _); [by injection E1 as _ <-|].
    unfold mbind, io_bind, sys_read, take_outcome in E1.
    destruct (fs w !! _); [|by injection E1 as _ <-].
    by destruct (oracle w) as [|[|k] os]; injection E1 as _ <-.
Qed.

Lemma ListRoles_pure (s : keyStore) (w : world) r w' :
  ListRoles s w = (r, w') -> fs w' = fs w.
Proof.
  unfold ListRoles, take_outcome. destruct (oracle w) as [|[|k] os].
  - destruct (list_names _ _ w) as [rs w2] eqn:E. intros [= _ <-]. by eapply list_names_pure.
  - destruct (list_names _ _ _) as [rs w2] eqn:E. intros [= _ <-].
    by apply list_names_pure in E.
  - by intros [= _ <-].
Qed.

(** The next system call does not fail. *)
Definition next_succeeds (w : world) : bool :=
  match oracle w with Failed _ :: _ => false | _ => true end.

(** Unless [os.Stat] fails on it, a stored key survives any [Provision]. *)
Lemma Provision_keeps (s : keyStore) (now : Z) (role role' : Role) (key : bytes) (kt : string)
    (w : world) r w' :
  next_succeeds w = true -> is_Some (fs w !! key_path s role) ->
  Provision s now role' key kt w = (r, w') ->
  fs w' !! key_path s role = fs w !! key_path s role.
Proof.
  intros Hn [f Hf] E. destruct (decide (key_path s role' = key_path s role)) as [Hp|Hp].
  - unfold Provision, mbind, io_bind, Has in E. rewrite Hp, Hf in E.
    unfold take_outcome in E. unfold next_succeeds in Hn.
    destruct (oracle w) as [|[|n] os]; [| |done]; by injection E as _ <-.
  - assert (wp (keeps (key_path s role) (fs w)) (Provision s now role' key kt)
      (fun _ => keeps (key_path s role) (fs w)) (fs w)) as Hw.
    { unfold Provision. apply wp_bind.
      assert (wp (keeps (key_path s role) (fs w))
        (writeAtomic s (entry_of role' key kt now))
        (fun _ => keeps (key_path s role) (fs w)) (fs w)) as Hwr.
      { unfold writeAtomic. destruct (json_marshal _) as [plain|]; [|by apply wp_ret].
        apply wp_bind. eapply wp_mono; [by apply wp_seal_keeps|].
        intros [c|] s1 Hk; [|by apply wp_ret]. apply wp_bind.
        eapply wp_mono; [apply wp_write_keeps; [intros E'; exact (Hp (eq_sym E'))|apply key_path_not_tmp|done]|].
        intros ok s2 Hk2. by apply wp_ret. }
      apply wp_Has; [by intros _|]. intros _ [|]; [by apply wp_ret|done]. }
    by apply (Hw w r w' eq_refl eq_refl E).
Qed.

(** Whatever is on disk, a successful [Get] returns an entry whose role is
    the one asked for, and [Get] never writes. *)
Theorem Get_role_bound s role w r w' :
  Get s role w = (r, w') ->
  fs w' = fs w /\ history w' = history w /\ forall e, r = Ok e -> entry_Role e = role.
Proof.
  intros E. destruct (Get_pure _ _ _ _ _ E). split_and!; [done..|].
  intros e ->. by eapply Get_entry_role.
Qed.

(** The shape of [Provision]'s outcomes on an unprovisioned role. *)
Lemma Provision_wp (s : keyStore) (now : Z) (role : Role) (key : bytes) (kt : string)
    (plain : bytes) (m : files) :
  json_marshal (entry_of role key kt now) = Some plain -> m !! key_path s role = None ->
  wp (sealed_state (key_path s role) plain m) (Provision s now role key kt)
    (fun r m' => (r = Ok tt \/ r = Err ErrOther) /\
       sealed_post (key_path s role) plain m (is_ok r) m') m.
Proof.
  intros Hj Hn. unfold Provision. apply wp_bind, wp_Has.
  - intros _. by apply (wp_writeAtomic s (entry_of role key kt now)).
  - intros [? Hs]. congruence.
Qed.

(** Provisioning a role that has no key: on success the next process reads
    back exactly this key, type and time, and a further [Provision] is
    refused without touching the disk; on failure the role still has no key.
    Either way every role whose hash differs reads as before. *)
Theorem Provision_installs s now role key kt w r w' :
  is_Some (json_marshal (entry_of role key kt now)) ->
  fs w !! key_path s role = None ->
  Provision s now role key kt w = (r, w') ->
  let after := mkWorld (fs w') [] 0 [] in
  match r with
  | Ok _ => fst (Get s role after) = Ok (entry_of role key kt now) /\
      (forall now' key' kt',
         Provision s now' role key' kt' after = (Err ErrAlreadyProvisioned, after))
  | Err e => e = ErrOther /\ fst (Get s role after) = Err ErrRoleNotFound
  end /\
  (forall role', sha256 (string_bytes role') <> sha256 (string_bytes role) ->
     fst (Get s role' after) = fst (Get s role' (mkWorld (fs w) [] 0 []))).
Proof.
  intros [plain Hj] Hn E after.
  destruct (Provision_wp s now role key kt plain (fs w) Hj Hn w r w' eq_refl
    (sealed_state_refl _ _ _) E) as [_ [Hr [Hf Hp]]]. split.
  - destruct Hr as [-> | ->]; cbn in Hp.
    + split; [by rewrite (Get_sealed s (entry_of role key kt now) plain (fs w'))|].
      intros now' key' kt'. unfold Provision, Has, mbind, io_bind. subst after. cbn [fs].
      destruct Hp as (c & _ & Hc). by rewrite Hc.
    + split; [done|]. unfold Get, mbind, io_bind, sys_read. subst after. cbn [fs].
      by rewrite Hp, Hn.
  - intros role' Hne. apply Get_same, Hf; [|apply key_path_not_tmp].
    intros E'%key_path_inj. done.
Qed.

(** A crash at any point of a first [Provision] leaves the role either
    without a key or with the complete one. *)
Theorem Provision_crash_safe s now role key kt w r w' l st m :
  is_Some (json_marshal (entry_of role key kt now)) ->
  fs w !! key_path s role = None ->
  Provision s now role key kt w = (r, w') ->
  history w' = l ++ history w -> st ∈ l -> crash st m ->
  fst (Get s role (mkWorld m [] 0 [])) = Err ErrRoleNotFound \/
  fst (Get s role (mkWorld m [] 0 [])) = Ok (entry_of role key kt now).
Proof.
  intros [plain Hj] Hn E Hl Hs Hc.
  destruct (Provision_wp s now role key kt plain (fs w) Hj Hn w r w' eq_refl
    (sealed_state_refl _ _ _) E) as [[_ (l' & El & Fl)] _].
  rewrite El in Hl. apply app_inv_tail in Hl as <-. rewrite Forall_forall in Fl.
  assert (settled (fs w) (key_path s role)) as Hset by (intros f Hf; congruence).
  destruct (crash_sealed_state _ _ _ _ _ Hset (Fl st Hs) Hc) as [Ho|Ho].
  - left. unfold Get, mbind, io_bind, sys_read. cbn [fs]. by rewrite Ho, Hn.
  - right. by rewrite (Get_sealed s (entry_of role key kt now) plain m).
Qed.

End keystore.

(** * The properties at a concrete store *)

#[local] Definition keyEntry_tree (e : keyEntry) : gen_tree (Z + string) :=
  GenNode 0 [GenLeaf (inr (entry_Role e)); GenLeaf (inr (bytes_string (entry_Key e)));
    GenLeaf (inr (entry_KeyType e)); GenLeaf (inl (entry_CreatedAt e))].

#[local] Definition keyEntry_of_tree (t : gen_tree (Z + string)) : option keyEntry :=
  match t with
  | GenNode 0 [GenLeaf (inr r); GenLeaf (inr k); GenLeaf (inr t); GenLeaf (inl c)] =>
      Some (Build_keyEntry r (string_bytes k) t c)
  | _ => None
  end.

#[local] Instance keyEntry_eq_dec : EqDecision keyEntry.
Proof. solve_decision. Defined.

#[local, program] Instance keyEntry_countable : Countable keyEntry :=
  inj_countable keyEntry_tree keyEntry_of_tree _.
Next Obligation.
  intros [r k t c].
  exact (f_equal (fun x => Some (Build_keyEntry r x t c)) (string_bytes_string k)).
Qed.

#[local] Existing Instance marker_tee.
#[local] Instance json_keyEntry : Json keyEntry := countable_json.

#[local] Definition demo_hash (b : bytes) : bytes := b.
#[local] Definition demo_store : keyStore := mkStore "/sealed/keys".
#[local] Definition demo_world : world := mkWorld ∅ [] 0 [∅].
#[local] Definition demo_run : result kerr unit * world :=
  Provision demo_hash demo_store 7 "gateway-tls" [x01] "ecdsa-p256" demo_world.

Lemma Get_role_bound_witness :
  fst (Get demo_hash demo_store "gateway-tls" demo_world) = Err ErrRoleNotFound /\
  fs (snd (Get demo_hash demo_store "gateway-tls" demo_world)) = fs demo_world.
Proof.
  split; [reflexivity|].
  destruct (Get demo_hash demo_store "gateway-tls" demo_world) as [r w'] eqn:E.
  destruct (Get_role_bound demo_hash demo_store "gateway-tls" demo_world r w' E) as [H _].
  exact H.
Defined.

Lemma Provision_installs_witness :
  match fst demo_run with
  | Ok _ => fst (Get demo_hash demo_store "gateway-tls" (mkWorld (fs (snd demo_run)) [] 0 [])) =
      Ok (Build_keyEntry "gateway-tls" [x01] "ecdsa-p256" 7)
  | Err _ => False
  end.
Proof.
  pose proof (Provision_installs demo_hash demo_store 7 "gateway-tls" [x01] "ecdsa-p256"
    demo_world (fst demo_run) (snd demo_run)) as H.
  assert (fst demo_run = Ok tt) as Hr by (vm_compute; reflexivity).
  rewrite Hr in *. cbv zeta in H. apply H.
  - eexists. reflexivity.
  - reflexivity.
  - rewrite <-Hr. exact (surjective_pairing demo_run).
Defined.

#[local] Definition demo_torn : files :=
  {[tmp_of (key_path demo_hash demo_store "gateway-tls") := mkFile [] false]}.
#[local] Definition demo_crashed : files :=
  {[tmp_of (key_path demo_hash demo_store "gateway-tls") := mkFile [x00] true]}.

Lemma Provision_crash_safe_witness :
  fst (Get demo_hash demo_store "gateway-tls" (mkWorld demo_crashed [] 0 [])) =
    Err ErrRoleNotFound \/
  fst (Get demo_hash demo_store "gateway-tls" (mkWorld demo_crashed [] 0 [])) =
    Ok (Build_keyEntry "gateway-tls" [x01] "ecdsa-p256" 7).
Proof.
  apply (Provision_crash_safe demo_hash demo_store 7 "gateway-tls" [x01] "ecdsa-p256"
    demo_world (fst demo_run) (snd demo_run) (take 4 (history (snd demo_run))) demo_torn).
  - eexists. reflexivity.
  - reflexivity.
  - exact (surjective_pairing demo_run).
  - apply (bool_decide_eq_true_1 _). vm_compute. reflexivity.
  - apply (bool_decide_eq_true_1 _). vm_compute. reflexivity.
  - intros q. unfold demo_torn, demo_crashed, crash_file. rewrite !lookup_singleton.
    case_decide; cbn; [by eexists|done].
Defined.

(** ** What a failing [os.Stat] does

    [Has] answers "absent" on any error, so a role whose file cannot be
    inspected is provisioned again. *)

#[local] Definition stored_entry : keyEntry := Build_keyEntry "gateway-tls" [x01] "ecdsa-p256" 7.
#[local] Definition stored_world (os : list outcome) : world :=
  mkWorld {[key_path demo_hash demo_store "gateway-tls" :=
    mkFile (x53 :: default [] (json_marshal stored_entry)) true]} os 0 [].

(** A second [Provision] whose [os.Stat] fails succeeds and replaces the
    stored key: the code treats "cannot tell" as "not provisioned". *)
Theorem stat_failure_overwrites :
  fst (Get demo_hash demo_store "gateway-tls" (stored_world [])) = Ok stored_entry /\
  let '(r, w') := Provision demo_hash demo_store 9 "gateway-tls" [x02] "ecdsa-p256"
                    (stored_world [Failed 0]) in
  r = Ok tt /\ fst (Get demo_hash demo_store "gateway-tls" w') =
    Ok (Build_keyEntry "gateway-tls" [x02] "ecdsa-p256" 9).
Proof.
  split; [vm_compute; reflexivity|].
  destruct (Provision demo_hash demo_store 9 "gateway-tls" [x02] "ecdsa-p256"
    (stored_world [Failed 0])) as [r w'] eqn:E.
  replace r with (fst (r, w')) by done. replace w' with (snd (r, w')) at 2 by done.
  rewrite <-E. split; vm_compute; reflexivity.
Qed.
