(* ===== verification/PeerAuth.v ===== *)
(** src/internal/keystore/auth.go: who is calling.  The TLS hook stores, per
    client certificate, the measurement its SGX quote proves; requests then
    look it up.  Certificate parsing ([crypto/x509]) and quote checking
    ([echeck]) are parameters.  Shown: a non-zero measurement is only ever
    recorded for a certificate whose quote verified and whose signer is the
    expected one, and a request sees exactly what its own certificate
    proved. *)

From S2P Require Import Prelude Hex KsTypes.

Record peerInfo := {
  peer_MRENCLAVE : MRENCLAVE;
  peer_MRSIGNER : bytes;
  CertHash : bytes
}.

Section auth.
Context (sha256 : bytes -> bytes).
(** [x509.ParseCertificate], giving [cert.Raw]. *)
Context (ParseCertificate : bytes -> option bytes).
Context {quote : Type}.
(** [echeck.ExtractQuote], [echeck.VerifyQuote] and [GetQuoteInfo]. *)
Context (ExtractQuote : bytes -> option quote) (VerifyQuote : bytes -> quote -> bool)
  (MREnclave MRSigner : quote -> bytes).

Abbreviation peerStore := (gmap (list byte) peerInfo).

Definition newPeerStore : peerStore := ∅.
Definition put (s : peerStore) (certHash : bytes) (info : peerInfo) : peerStore :=
  <[certHash := info]> s.
Definition get (s : peerStore) (certHash : bytes) : option peerInfo := s !! certHash.
Definition drop_peer (s : peerStore) (certHash : bytes) : peerStore := delete certHash s.

Definition zero32 : bytes := replicate 32 x00.

(** The hook made by [makeVerifyPeerCertificate]. *)
Definition verifyPeerCertificate (expectedMRSIGNER : string) (peers : peerStore)
    (rawCerts : list bytes) : result kerr unit * peerStore :=
  match rawCerts with
  | [] => (Err ErrOther, peers)
  | raw :: _ =>
      match ParseCertificate raw with
      | None => (Err ErrOther, peers)
      | Some cert =>
          let certHash := sha256 cert in
          let blank := {| peer_MRENCLAVE := zero32; peer_MRSIGNER := zero32;
                          CertHash := certHash |} in
          let info :=
            match ExtractQuote cert with
            | None => blank
            | Some q =>
                if VerifyQuote cert q then
                  let gotSIGNER := hex_EncodeToString (MRSigner q) in
                  if String.eqb expectedMRSIGNER "" || String.eqb gotSIGNER expectedMRSIGNER
                  then {| peer_MRENCLAVE := MREnclave q; peer_MRSIGNER := MRSigner q;
                          CertHash := certHash |}
                  else blank
                else blank
            end in
          (Ok tt, put peers certHash info)
      end
  end.

(** A connection as [makeConnContext] sees it. *)
Record conn := {
  is_tls : bool;
  handshake_ok : bool;
  peer_certs : list bytes    (* [state.PeerCertificates[i].Raw] *)
}.

(** The peer attached to the request context, if any. *)
Definition connContext (peers : peerStore) (c : conn) : option peerInfo :=
  if negb (is_tls c) then None
  else if negb (handshake_ok c) then None
  else match peer_certs c with
       | [] => None
       | leaf :: _ => get peers (sha256 leaf)
       end.

(** The certificate proves the measurement: its quote verifies for it, names
    the measurement, and carries the expected signer. *)
Definition attested (expectedMRSIGNER : string) (cert m : bytes) : Prop :=
  exists q, ExtractQuote cert = Some q /\ VerifyQuote cert q = true /\ MREnclave q = m /\
    (expectedMRSIGNER = ""%string \/ hex_EncodeToString (MRSigner q) = expectedMRSIGNER).

(** Everything recorded was proved by some certificate with that hash. *)
Definition peers_attested (expectedMRSIGNER : string) (peers : peerStore) : Prop :=
  forall h info, peers !! h = Some info ->
    peer_MRENCLAVE info = zero32 \/
    exists cert, sha256 cert = h /\ attested expectedMRSIGNER cert (peer_MRENCLAVE info).

Lemma verifyPeerCertificate_keeps mrs peers raws :
  peers_attested mrs peers ->
  peers_attested mrs (snd (verifyPeerCertificate mrs peers raws)).
Proof.
  intros Hp. unfold verifyPeerCertificate. destruct raws as [|raw raws]; [done|].
  destruct (ParseCertificate raw) as [cert|]; [|done]. cbn. intros h info.
  unfold put. rewrite lookup_insert_Some. intros [[<- <-]|[_ Hi]]; [|by eapply Hp].
  destruct (ExtractQuote cert) as [q|] eqn:Eq; [|by left].
  destruct (VerifyQuote cert q) eqn:Ev; [|by left].
  destruct (_ || _) eqn:Es; [|by left]. right. exists cert. split; [done|]. exists q.
  repeat split; try done. apply orb_true_iff in Es as [Es|Es]; apply String.eqb_eq in Es; auto.
Qed.

(** Any sequence of handshakes. *)
Definition handshakes (mrs : string) (rs : list (list bytes)) : peerStore :=
  foldl (fun peers r => snd (verifyPeerCertificate mrs peers r)) newPeerStore rs.

Lemma handshakes_attested mrs rs : peers_attested mrs (handshakes mrs rs).
Proof.
  unfold handshakes. assert (peers_attested mrs newPeerStore) as H by (intros h i Hi; done).
  revert H. generalize newPeerStore. induction rs as [|r rs IH]; intros p Hp; [done|].
  apply IH. by apply verifyPeerCertificate_keeps.
Qed.

(** The measurement a request carries, when it is not all zeros, was proved
    by a quote that verified under the expected signer, in a certificate whose
    hash is that of the certificate the connection presented. *)
Theorem request_peer_attested mrs rs c info :
  connContext (handshakes mrs rs) c = Some info ->
  peer_MRENCLAVE info <> zero32 ->
  exists leaf rest cert, peer_certs c = leaf :: rest /\ sha256 cert = sha256 leaf /\
    attested mrs cert (peer_MRENCLAVE info).
Proof.
  unfold connContext. destruct (is_tls c); [|done]. destruct (handshake_ok c); [|done]. cbn.
  destruct (peer_certs c) as [|leaf rest]; [done|]. intros Hg Hz.
  destruct (handshakes_attested mrs rs _ _ Hg) as [|(cert & Hc & Ha)]; [done|].
  exists leaf, rest, cert. done.
Qed.

End auth.

#[local] Definition demo_conn : conn := Build_conn true true [[x01]].

Lemma request_peer_attested_witness :
  exists leaf rest cert, peer_certs demo_conn = leaf :: rest /\ cert = leaf /\
    attested (fun _ => Some tt) (fun _ _ => true) (fun _ => [x09]) (fun _ => [x0a]) "0a" cert [x09].
Proof.
  destruct (request_peer_attested (fun b => b) Some (fun _ => Some tt) (fun _ _ => true)
    (fun _ => [x09]) (fun _ => [x0a]) "0a" [[[x01]]] demo_conn
    (Build_peerInfo [x09] [x0a] [x01])) as (leaf & rest & cert & H1 & H2 & H3).
  - vm_compute. reflexivity.
  - discriminate.
  - exists leaf, rest, cert. split; [exact H1|]. split; [exact H2|exact H3].
Defined.
