(* ===== verification/KeystoreServer.v ===== *)
(** src/internal/keystore/server.go: the five handlers of the keystore API
    over the audit log, the allowlist, the break-glass verifier and the key
    store.  [serve] dispatches a request; [srv_step] is one request with any
    outcome of its system calls.  Shown: which callers can obtain a key, what
    each answer implies, the invariant of the whole server, and that without
    a valid operator proof an empty allowlist stays empty. *)

From S2P Require Import Prelude SysFS Hex KsTypes.
From S2P Require AuditLog Allowlist BreakGlass KeyStore.
From S2P Require Import PeerAuth.
Import AuditLog(auditLog, entries, audit_path).
Import Allowlist(allowlist, roles, allow_path).
Import BreakGlass(breakGlass, expectedPub, seenNonces).
Import KeyStore(keyStore, keyEntry, entry_Role, entry_Key, entry_KeyType, entry_CreatedAt).

(** The messages of [writeErr]. *)
Inductive errmsg :=
| MsgNoPeer
| MsgDecodeBody
| MsgError (e : kerr)
| MsgKeyRequired
| MsgNeedsMembershipOrProof
| MsgInternal.

Inductive body :=
| BNone
| BError (m : errmsg)
| BGet (r : GetResponse)
| BDelegate (r : DelegateResponse)
| BProvision (r : ProvisionResponse)
| BList (r : ListResponse).

Record response := respond { status : Z; resp_body : body }.

Definition StatusOK := 200%Z.
Definition StatusNoContent := 204%Z.
Definition StatusBadRequest := 400%Z.
Definition StatusUnauthorized := 401%Z.
Definition StatusForbidden := 403%Z.
Definition StatusNotFound := 404%Z.
Definition StatusConflict := 409%Z.
Definition StatusInternalServerError := 500%Z.

Definition writeErr (code : Z) (m : errmsg) : response := respond code (BError m).

Section server.
Context `{TEERuntime} `{Json AuditEntry} `{Json (list AuditEntry)} `{!JsonSlice AuditEntry}
  `{Json (gmap string (list string))} `{Json keyEntry}.
Context (sha256 : bytes -> bytes).
Context (ed25519_Verify : bytes -> bytes -> bytes -> bool).

(** [snapshots] are the labels handed to the configured [Snapshotter]
    ([has_snapshotter]), whose outcome the code only logs. *)
Record Server := mkServer {
  keys : keyStore;
  allow : allowlist;
  audit : auditLog;
  breakGl : breakGlass;
  has_snapshotter : bool;
  snapshots : list string
}.

Definition with_allow (s : Server) (a : allowlist) : Server :=
  mkServer (keys s) a (audit s) (breakGl s) (has_snapshotter s) (snapshots s).
Definition with_audit (s : Server) (a : auditLog) : Server :=
  mkServer (keys s) (allow s) a (breakGl s) (has_snapshotter s) (snapshots s).
Definition with_bg (s : Server) (b : breakGlass) : Server :=
  mkServer (keys s) (allow s) (audit s) b (has_snapshotter s) (snapshots s).

Definition snapshotAfterWrite (s : Server) (label : string) : Server :=
  if has_snapshotter s
  then mkServer (keys s) (allow s) (audit s) (breakGl s) true (snapshots s ++ [label])
  else s.

(** The time of a request: [time.Now()] as the audit log stores it and as
    unix seconds. *)
Record clock := mkClock { utc_ns : Z; unix_s : Z }.

(** [_, _ = s.audit.Append(...)]: the error is dropped. *)
Definition audited (s : Server) (now : clock) (action : string) (role : Role)
    (actor detail : string) : IO Server :=
  ra ← AuditLog.Append sha256 (audit s) (utc_ns now) action role actor detail;
  mret (with_audit s (snd ra)).

Definition actor_of (proof : BreakGlassProof) : string :=
  "operator-break-glass:" ++ OperatorPubKeyHex proof.

(** [body = None]: the JSON body did not decode. *)
Definition handleGet (s : Server) (peer : option peerInfo) (now : clock)
    (body : option GetRequest) : IO (response * Server) :=
  match peer with
  | None => mret (writeErr StatusUnauthorized MsgNoPeer, s)
  | Some peer =>
  match body with
  | None => mret (writeErr StatusBadRequest MsgDecodeBody, s)
  | Some req =>
  match Role_Validate (get_Role req) with
  | Err e => mret (writeErr StatusBadRequest (MsgError e), s)
  | Ok _ =>
  if negb (Allowlist.Allowed (allow s) (get_Role req) (peer_MRENCLAVE peer)) then
    s ← audited s now "get-denied" (get_Role req) (encodeMRENCLAVEHex (peer_MRENCLAVE peer)) "";
    mret (writeErr StatusForbidden (MsgError ErrNotAllowed), s)
  else
    r ← KeyStore.Get sha256 (keys s) (get_Role req);
    match r with
    | Err ErrRoleNotFound => mret (writeErr StatusNotFound (MsgError ErrRoleNotFound), s)
    | Err _ => mret (writeErr StatusInternalServerError MsgInternal, s)
    | Ok entry =>
        s ← audited s now "get" (get_Role req) (encodeMRENCLAVEHex (peer_MRENCLAVE peer)) "";
        mret (respond StatusOK (BGet {| resp_Key := entry_Key entry;
                                        resp_KeyType := entry_KeyType entry;
                                        resp_CreatedAt := entry_CreatedAt entry |}), s)
    end
  end end end.

(** Who authorises a delegation, and the break-glass state afterwards. *)
Definition authorize_delegate (s : Server) (peer : peerInfo) (req : DelegateRequest) :
    result errmsg string * breakGlass :=
  match delegate_BreakGlass req with
  | Some proof =>
      match BreakGlass.Verify sha256 ed25519_Verify (breakGl s) proof "delegate-add"
              (delegate_Role req) (NewMRENCLAVE req) with
      | (Err e, bg) => (Err (MsgError e), bg)
      | (Ok _, bg) => (Ok (actor_of proof), bg)
      end
  | None =>
      if Allowlist.Allowed (allow s) (delegate_Role req) (peer_MRENCLAVE peer)
      then (Ok (encodeMRENCLAVEHex (peer_MRENCLAVE peer)), breakGl s)
      else (Err MsgNeedsMembershipOrProof, breakGl s)
  end.

Definition handleDelegate (s : Server) (peer : option peerInfo) (now : clock)
    (body : option DelegateRequest) : IO (response * Server) :=
  match peer with
  | None => mret (writeErr StatusUnauthorized MsgNoPeer, s)
  | Some peer =>
  match body with
  | None => mret (writeErr StatusBadRequest MsgDecodeBody, s)
  | Some req =>
  match Role_Validate (delegate_Role req) with
  | Err e => mret (writeErr StatusBadRequest (MsgError e), s)
  | Ok _ =>
  match authorize_delegate s peer req with
  | (Err m, bg) => mret (writeErr StatusForbidden m, with_bg s bg)
  | (Ok authorizedBy, bg) =>
      let s := with_bg s bg in
      ra ← Allowlist.Add (allow s) (delegate_Role req) (NewMRENCLAVE req);
      let s := with_allow s (snd ra) in
      match fst ra with
      | Err _ => mret (writeErr StatusInternalServerError MsgInternal, s)
      | Ok newAllow =>
          s ← audited s now "delegate" (delegate_Role req) authorizedBy
                ("added " ++ encodeMRENCLAVEHex (NewMRENCLAVE req));
          let s := snapshotAfterWrite s "post-delegate" in
          mret (respond StatusOK (BDelegate {| delegated_Role := delegate_Role req;
                                               delegated_AllowedMRENCLAVE := newAllow;
                                               DelegatedAt := unix_s now |}), s)
      end
  end end end end.

Definition handleProvision (s : Server) (now : clock) (body : option ProvisionRequest) :
    IO (response * Server) :=
  match body with
  | None => mret (writeErr StatusBadRequest MsgDecodeBody, s)
  | Some req =>
  match Role_Validate (provision_Role req) with
  | Err e => mret (writeErr StatusBadRequest (MsgError e), s)
  | Ok _ =>
  if (length (provision_Key req) =? 0)%nat
  then mret (writeErr StatusBadRequest MsgKeyRequired, s)
  else
  match BreakGlass.Verify sha256 ed25519_Verify (breakGl s) (provision_BreakGlass req)
          "provision" (provision_Role req) (provision_Key req) with
  | (Err e, bg) => mret (writeErr StatusForbidden (MsgError e), with_bg s bg)
  | (Ok _, bg) =>
      let s := with_bg s bg in
      r ← KeyStore.Provision sha256 (keys s) (unix_s now) (provision_Role req)
            (provision_Key req) (provision_KeyType req);
      match r with
      | Err ErrAlreadyProvisioned =>
          mret (writeErr StatusConflict (MsgError ErrAlreadyProvisioned), s)
      | Err _ => mret (writeErr StatusInternalServerError MsgInternal, s)
      | Ok _ =>
          s ← audited s now "provision" (provision_Role req)
                (actor_of (provision_BreakGlass req)) ("type=" ++ provision_KeyType req);
          let s := snapshotAfterWrite s "post-provision" in
          mret (respond StatusOK (BProvision {| provisioned_Role := provision_Role req;
                                                ProvisionedAt := unix_s now |}), s)
      end
  end end end.

Definition handleRevoke (s : Server) (now : clock) (body : option RevokeRequest) :
    IO (response * Server) :=
  match body with
  | None => mret (writeErr StatusBadRequest MsgDecodeBody, s)
  | Some req =>
  match Role_Validate (revoke_Role req) with
  | Err e => mret (writeErr StatusBadRequest (MsgError e), s)
  | Ok _ =>
  match BreakGlass.Verify sha256 ed25519_Verify (breakGl s) (revoke_BreakGlass req)
          "revoke" (revoke_Role req) (OldMRENCLAVE req) with
  | (Err e, bg) => mret (writeErr StatusForbidden (MsgError e), with_bg s bg)
  | (Ok _, bg) =>
      let s := with_bg s bg in
      ra ← Allowlist.Remove (allow s) (revoke_Role req) (OldMRENCLAVE req);
      let s := with_allow s (snd ra) in
      match fst ra with
      | Err _ => mret (writeErr StatusInternalServerError MsgInternal, s)
      | Ok _ =>
          s ← audited s now "revoke" (revoke_Role req) (actor_of (revoke_BreakGlass req))
                ("removed " ++ encodeMRENCLAVEHex (OldMRENCLAVE req));
          mret (respond StatusNoContent BNone, snapshotAfterWrite s "post-revoke")
      end
  end end end.

(** The loop of [handleList] over the stored roles. *)
Fixpoint role_infos (s : Server) (rs : list Role) : IO (list RoleInfo) :=
  match rs with
  | [] => mret []
  | r :: rs =>
      e ← KeyStore.Get sha256 (keys s) r;
      let allowed := default [] (Allowlist.Snapshot (allow s) !! r) in
      let info := match e with
                  | Ok entry => {| info_Role := r; info_KeyType := entry_KeyType entry;
                                   info_CreatedAt := entry_CreatedAt entry;
                                   info_AllowedMRENCLAVE := allowed |}
                  | Err _ => {| info_Role := r; info_KeyType := ""; info_CreatedAt := 0;
                                info_AllowedMRENCLAVE := allowed |}
                  end in
      infos ← role_infos s rs;
      mret (info :: infos)
  end.

Definition handleList (s : Server) (body : option ListRequest) : IO (response * Server) :=
  match body with
  | None => mret (writeErr StatusBadRequest MsgDecodeBody, s)
  | Some req =>
  match BreakGlass.Verify sha256 ed25519_Verify (breakGl s) (list_BreakGlass req) "list" "" [] with
  | (Err e, bg) => mret (writeErr StatusForbidden (MsgError e), with_bg s bg)
  | (Ok _, bg) =>
      let s := with_bg s bg in
      rs ← KeyStore.ListRoles (keys s);
      match rs with
      | Err _ => mret (writeErr StatusInternalServerError MsgInternal, s)
      | Ok rs =>
          infos ← role_infos s rs;
          mret (respond StatusOK (BList {|
                  list_Roles := infos;
                  list_AuditLog := if (0 <? AuditTailSize req)%Z
                                   then AuditLog.Tail (audit s) (AuditTailSize req) else [] |}), s)
      end
  end end.

(** * The service as a transition system *)

Inductive request :=
| RGet (peer : option peerInfo) (b : option GetRequest)
| RDelegate (peer : option peerInfo) (b : option DelegateRequest)
| RProvision (b : option ProvisionRequest)
| RRevoke (b : option RevokeRequest)
| RList (b : option ListRequest).

(** The routes of [New]. *)
Definition serve (s : Server) (now : clock) (r : request) : IO (response * Server) :=
  match r with
  | RGet p b => handleGet s p now b
  | RDelegate p b => handleDelegate s p now b
  | RProvision b => handleProvision s now b
  | RRevoke b => handleRevoke s now b
  | RList b => handleList s b
  end.

(** Requests whose measurements are [[32]byte] values, as Go's types force. *)
Definition request_typed (r : request) : Prop :=
  match r with
  | RDelegate _ (Some d) => length (NewMRENCLAVE d) = 32%nat
  | _ => True
  end.

(** One request served, from any world (so under any system-call outcomes). *)
Inductive srv_step (s : Server) : response -> Server -> Prop :=
| srv_step_serve now r w out s' w' :
    request_typed r -> serve s now r w = ((out, s'), w') -> srv_step s out s'.

(** The measurement may fetch the role's key. *)
Definition Allowed_in (s : Server) (role : Role) (x : MRENCLAVE) : Prop :=
  Allowlist.Allowed (allow s) role x = true.

(** * The invariant *)

(** The audit log and the allowlist live outside the key directory. *)
Definition layout (s : Server) : Prop :=
  fst (allow_path (allow s)) <> KeyStore.store_dir (keys s) /\
  fst (audit_path (audit s)) <> KeyStore.store_dir (keys s).

Definition srv_inv (s : Server) : Prop :=
  Allowlist.wf_allow (allow s) /\ AuditLog.verifyChain sha256 (audit s) = Ok tt /\ layout s.

(** What [audited] changes. *)
Lemma audited_spec (s : Server) (now : clock) (action : string) (role : Role)
    (actor detail : string) (w : world) s' w' :
  audited s now action role actor detail w = (s', w') ->
  exists r a', s' = with_audit s a' /\
    AuditLog.Append sha256 (audit s) (utc_ns now) action role actor detail w = ((r, a'), w').
Proof.
  unfold audited, mbind, io_bind. destruct (AuditLog.Append _ _ _ _ _ _ _ w) as [[r a'] w1].
  intros [= <- <-]. by exists r, a'.
Qed.

Lemma audited_inv (s : Server) (now : clock) (action : string) (role : Role)
    (actor detail : string) (w : world) s' w' :
  srv_inv s -> audited s now action role actor detail w = (s', w') ->
  srv_inv s' /\ allow s' = allow s /\ keys s' = keys s /\ breakGl s' = breakGl s.
Proof.
  intros (Hw & Hv & Hl1 & Hl2) E. apply audited_spec in E as (r & a' & -> & E).
  destruct (AuditLog.Append_keeps_verified _ _ _ _ _ _ _ _ _ _ _ Hv E) as [Hv' Hp].
  split_and!; try done. split_and!; [done|done|]. split; [done|]. cbn. by rewrite Hp.
Qed.

(** How the callers of roles differ after a request: at most one was added,
    by an authorised delegation, or one was removed, by a proven revocation. *)
Definition allow_change (s : Server) (rq : request) (s' : Server) : Prop :=
  forall role x, Allowlist.Allowed (allow s') role x = true ->
    Allowlist.Allowed (allow s) role x = true \/
    exists peer d, rq = RDelegate (Some peer) (Some d) /\ delegate_Role d = role /\
      NewMRENCLAVE d = x /\
      match delegate_BreakGlass d with
      | None => Allowlist.Allowed (allow s) role (peer_MRENCLAVE peer) = true
      | Some proof => fst (BreakGlass.Verify sha256 ed25519_Verify (breakGl s) proof
                             "delegate-add" role x) = Ok tt
      end.

Definition step_ok (s : Server) (rq : request) (s' : Server) : Prop :=
  srv_inv s' /\ expectedPub (breakGl s') = expectedPub (breakGl s) /\ allow_change s rq s'.

Lemma step_ok_same_allow (s : Server) (rq : request) (s' : Server) :
  srv_inv s' -> expectedPub (breakGl s') = expectedPub (breakGl s) ->
  allow s' = allow s -> step_ok s rq s'.
Proof. intros Hi Hp Ha. split; [done|]. split; [done|]. intros role x. rewrite Ha. by left. Qed.

Lemma with_bg_inv (s : Server) (b : breakGlass) : srv_inv s -> srv_inv (with_bg s b).
Proof. done. Qed.

Lemma snapshot_inv (s : Server) (l : string) :
  srv_inv s -> srv_inv (snapshotAfterWrite s l) /\
  allow (snapshotAfterWrite s l) = allow s /\ breakGl (snapshotAfterWrite s l) = breakGl s.
Proof. unfold snapshotAfterWrite. by destruct (has_snapshotter s). Qed.

(** Peel one monadic call of a handler run [E]. *)
#[local] Ltac run_step E :=
  unfold mbind, io_bind in E;
  match type of E with
  | context [let '(_, _) := ?m in _] => let Em := fresh "Em" in destruct m eqn:Em
  end.

Lemma handleGet_ok s peer now b w out s' w' :
  srv_inv s -> handleGet s peer now b w = ((out, s'), w') -> step_ok s (RGet peer b) s'.
Proof.
  intros Hi E. unfold handleGet in E.
  destruct peer as [peer|]; [|injection E as _ <- _; by apply step_ok_same_allow].
  destruct b as [req|]; [|injection E as _ <- _; by apply step_ok_same_allow].
  destruct (Role_Validate _) as [[]|e]; [|injection E as _ <- _; by apply step_ok_same_allow].
  destruct (negb _).
  - run_step E. injection E as _ <- _.
    destruct (audited_inv _ _ _ _ _ _ _ _ _ Hi Em) as (? & Ha & _ & Hb).
    apply step_ok_same_allow; [done|by rewrite Hb|done].
  - run_step E. destruct r as [entry|e].
    + run_step E. injection E as _ <- _.
      destruct (audited_inv _ _ _ _ _ _ _ _ _ Hi Em0) as (? & Ha & _ & Hb).
      apply step_ok_same_allow; [done|by rewrite Hb|done].
    + destruct e; injection E as _ <- _; by apply step_ok_same_allow.
Qed.

(** An answer below 400 to a get: who asked, and what was found. *)
Lemma handleGet_granted s peer now b w out s' w' :
  handleGet s peer now b w = ((out, s'), w') -> (status out < 400)%Z ->
  exists p req entry w1, peer = Some p /\ b = Some req /\
    Allowed_in s (get_Role req) (peer_MRENCLAVE p) /\
    KeyStore.Get sha256 (keys s) (get_Role req) w = (Ok entry, w1) /\
    out = respond StatusOK (BGet {| resp_Key := entry_Key entry; resp_KeyType := entry_KeyType entry;
                                    resp_CreatedAt := entry_CreatedAt entry |}).
Proof.
  intros E Hs. unfold handleGet in E.
  destruct peer as [p|]; [|by injection E as <- _ _].
  destruct b as [req|]; [|by injection E as <- _ _].
  destruct (Role_Validate _) as [[]|e]; [|by injection E as <- _ _].
  destruct (Allowlist.Allowed _ _ _) eqn:Ha; cbn [negb] in E.
  - run_step E. destruct r as [entry|e]; [|by destruct e; injection E as <- _ _].
    run_step E. injection E as <- _ _. by exists p, req, entry, w0.
  - run_step E. by injection E as <- _ _.
Qed.

Lemma authorize_delegate_pub s peer req r bg :
  authorize_delegate s peer req = (r, bg) -> expectedPub bg = expectedPub (breakGl s).
Proof.
  unfold authorize_delegate. destruct (delegate_BreakGlass req) as [proof|].
  - pose proof (BreakGlass.Verify_pub sha256 ed25519_Verify (breakGl s) proof "delegate-add"
      (delegate_Role req) (NewMRENCLAVE req)) as Hp.
    destruct (BreakGlass.Verify _ _ _ _ _ _ _) as [[]bg1]; by intros [= _ <-].
  - destruct (Allowlist.Allowed _ _ _); by intros [= _ <-].
Qed.

Lemma authorize_delegate_ok s peer req a bg :
  authorize_delegate s peer req = (Ok a, bg) ->
  match delegate_BreakGlass req with
  | None => Allowlist.Allowed (allow s) (delegate_Role req) (peer_MRENCLAVE peer) = true
  | Some proof => fst (BreakGlass.Verify sha256 ed25519_Verify (breakGl s) proof
                         "delegate-add" (delegate_Role req) (NewMRENCLAVE req)) = Ok tt
  end.
Proof.
  unfold authorize_delegate. destruct (delegate_BreakGlass req) as [proof|].
  - by destruct (BreakGlass.Verify _ _ _ _ _ _ _) as [[[]|]bg1].
  - by destruct (Allowlist.Allowed _ _ _).
Qed.

Lemma handleDelegate_ok s peer now b w out s' w' :
  srv_inv s -> request_typed (RDelegate peer b) ->
  handleDelegate s peer now b w = ((out, s'), w') -> step_ok s (RDelegate peer b) s'.
Proof.
  intros Hi Ht E. unfold handleDelegate in E.
  destruct peer as [peer|]; [|injection E as _ <- _; by apply step_ok_same_allow].
  destruct b as [req|]; [|injection E as _ <- _; by apply step_ok_same_allow].
  destruct (Role_Validate _) as [[]|e] eqn:Hv; [|injection E as _ <- _; by apply step_ok_same_allow].
  destruct (authorize_delegate s peer req) as [[who|m] bg] eqn:Au;
    pose proof (authorize_delegate_pub _ _ _ _ _ Au) as Hpub;
    [|injection E as _ <- _; by apply step_ok_same_allow].
  apply authorize_delegate_ok in Au.
  run_step E. destruct p as [r a']. cbn [fst snd] in E.
  destruct Hi as (Hw & Hc & Hl).
  destruct (Allowlist.Add_table _ _ _ _ _ _ _ Hw Hv Ht Em) as (Hw' & Hp & _ & _ & Ha).
  set (s1 := with_allow (with_bg s bg) a') in *.
  assert (srv_inv s1) as Hi1.
  { split_and!; [done|done|]. destruct Hl as [Hl1 Hl2]. split; [|done]. cbn. by rewrite Hp. }
  assert (forall s2, srv_inv s2 -> allow s2 = a' -> breakGl s2 = bg ->
    step_ok s (RDelegate (Some peer) (Some req)) s2) as Hdone.
  { intros s2 Hi2 Hal Hb. split; [done|]. split; [by rewrite Hb|]. intros role x.
    rewrite Hal. intros [Hx|(_ & -> & ->)]%Ha; [by left|right]. by exists peer, req. }
  destruct r as [l|e]; [|injection E as _ <- _; by apply Hdone].
  run_step E. injection E as _ <- _.
  destruct (audited_inv _ _ _ _ _ _ _ _ _ Hi1 Em0) as (Hi2 & Ha2 & _ & Hb2).
  destruct (snapshot_inv _ "post-delegate" Hi2) as (Hi3 & Ha3 & Hb3).
  apply Hdone; [done|by rewrite Ha3, Ha2|by rewrite Hb3, Hb2].
Qed.

(** The effect of a delegation without an operator proof: a 200 comes from a
    member and adds the measurement, any other answer is an error and changes
    nobody's access. *)
Lemma handleDelegate_member s p now req w out s' w' :
  srv_inv s -> length (NewMRENCLAVE req) = 32%nat -> delegate_BreakGlass req = None ->
  handleDelegate s (Some p) now (Some req) w = ((out, s'), w') ->
  srv_inv s' /\
  ((status out = StatusOK /\
    Allowed_in s (delegate_Role req) (peer_MRENCLAVE p) /\
    forall role x, Allowed_in s' role x <->
      Allowed_in s role x \/ (role = delegate_Role req /\ x = NewMRENCLAVE req)) \/
   ((400 <= status out)%Z /\ forall role x, Allowed_in s' role x <-> Allowed_in s role x)).
Proof.
  intros Hi Ht Hb E.
  split; [exact (proj1 (handleDelegate_ok s (Some p) now (Some req) w out s' w' Hi Ht E))|].
  unfold handleDelegate in E.
  destruct (Role_Validate _) as [[]|e] eqn:Hv; [|injection E as <- <- _; by right].
  unfold authorize_delegate in E. rewrite Hb in E.
  destruct (Allowlist.Allowed _ _ _) eqn:Ha; [|injection E as <- <- _; by right].
  run_step E. destruct p0 as [r a']. cbn [fst snd] in E. destruct Hi as (Hw & _).
  destruct (Allowlist.Add_table _ _ _ _ _ _ _ Hw Hv Ht Em) as (_ & _ & _ & _ & Hadd).
  destruct r as [l|e].
  - run_step E. injection E as <- <- _. left. split; [done|]. split; [done|].
    intros role x. apply audited_spec in Em0 as (ra & a1 & -> & _).
    unfold Allowed_in, snapshotAfterWrite. cbn. destruct (has_snapshotter s); cbn; rewrite Hadd; tauto.
  - injection E as <- <- _. right. split; [done|]. intros role x.
    unfold Allowed_in. cbn. rewrite Hadd. cbn. intuition congruence.
Qed.

Lemma handleProvision_ok s now b w out s' w' :
  srv_inv s -> handleProvision s now b w = ((out, s'), w') -> step_ok s (RProvision b) s'.
Proof.
  intros Hi E. unfold handleProvision in E.
  destruct b as [req|]; [|injection E as _ <- _; by apply step_ok_same_allow].
  destruct (Role_Validate _) as [[]|e]; [|injection E as _ <- _; by apply step_ok_same_allow].
  destruct (_ =? 0)%nat; [injection E as _ <- _; by apply step_ok_same_allow|].
  pose proof (BreakGlass.Verify_pub sha256 ed25519_Verify (breakGl s) (provision_BreakGlass req)
    "provision" (provision_Role req) (provision_Key req)) as Hpub.
  destruct (BreakGlass.Verify _ _ _ _ _ _ _) as [[[]|e] bg]; cbn [snd] in Hpub;
    [|injection E as _ <- _; by apply step_ok_same_allow].
  run_step E. destruct r as [[]|e].
  - run_step E. injection E as _ <- _.
    destruct (audited_inv _ _ _ _ _ _ _ _ _ (with_bg_inv s bg Hi) Em0) as (Hi2 & Ha2 & _ & Hb2).
    destruct (snapshot_inv _ "post-provision" Hi2) as (Hi3 & Ha3 & Hb3).
    apply step_ok_same_allow; [done|by rewrite Hb3, Hb2|by rewrite Ha3, Ha2].
  - destruct e; injection E as _ <- _; by apply step_ok_same_allow.
Qed.

Lemma handleRevoke_ok s now b w out s' w' :
  srv_inv s -> handleRevoke s now b w = ((out, s'), w') -> step_ok s (RRevoke b) s'.
Proof.
  intros Hi E. unfold handleRevoke in E.
  destruct b as [req|]; [|injection E as _ <- _; by apply step_ok_same_allow].
  destruct (Role_Validate _) as [[]|e]; [|injection E as _ <- _; by apply step_ok_same_allow].
  pose proof (BreakGlass.Verify_pub sha256 ed25519_Verify (breakGl s) (revoke_BreakGlass req)
    "revoke" (revoke_Role req) (OldMRENCLAVE req)) as Hpub.
  destruct (BreakGlass.Verify _ _ _ _ _ _ _) as [[[]|e] bg]; cbn [snd] in Hpub;
    [|injection E as _ <- _; by apply step_ok_same_allow].
  run_step E. destruct p as [r a']. cbn [fst snd] in E.
  destruct Hi as (Hw & Hc & Hl).
  destruct (Allowlist.Remove_table _ _ _ _ _ _ _ Hw Em) as (Hw' & Hp & _ & Ha).
  set (s1 := with_allow (with_bg s bg) a') in *.
  assert (srv_inv s1) as Hi1.
  { split_and!; [done|done|]. destruct Hl as [Hl1 Hl2]. split; [|done]. cbn. by rewrite Hp. }
  assert (forall s2, srv_inv s2 -> allow s2 = a' -> breakGl s2 = bg ->
    step_ok s (RRevoke (Some req)) s2) as Hdone.
  { intros s2 Hi2 Hal Hb. split; [done|]. split; [by rewrite Hb|]. intros role x.
    rewrite Hal. intros [Hx _]%Ha. by left. }
  destruct r as [l|e]; [|injection E as _ <- _; by apply Hdone].
  run_step E. injection E as _ <- _.
  destruct (audited_inv _ _ _ _ _ _ _ _ _ Hi1 Em0) as (Hi2 & Ha2 & _ & Hb2).
  destruct (snapshot_inv _ "post-revoke" Hi2) as (Hi3 & Ha3 & Hb3).
  apply Hdone; [done|by rewrite Ha3, Ha2|by rewrite Hb3, Hb2].
Qed.

Lemma handleList_ok s b w out s' w' :
  srv_inv s -> handleList s b w = ((out, s'), w') -> step_ok s (RList b) s'.
Proof.
  intros Hi E. unfold handleList in E.
  destruct b as [req|]; [|injection E as _ <- _; by apply step_ok_same_allow].
  pose proof (BreakGlass.Verify_pub sha256 ed25519_Verify (breakGl s) (list_BreakGlass req)
    "list" "" []) as Hpub.
  destruct (BreakGlass.Verify _ _ _ _ _ _ _) as [[[]|e] bg]; cbn [snd] in Hpub;
    [|injection E as _ <- _; by apply step_ok_same_allow].
  run_step E. destruct r as [rs|e]; [|injection E as _ <- _; by apply step_ok_same_allow].
  run_step E. injection E as _ <- _. by apply step_ok_same_allow.
Qed.

Lemma serve_ok s now rq w out s' w' :
  srv_inv s -> request_typed rq -> serve s now rq w = ((out, s'), w') -> step_ok s rq s'.
Proof.
  intros Hi Ht E. destruct rq as [p b|p b|b|b|b]; cbn in E.
  - by eapply handleGet_ok.
  - by eapply handleDelegate_ok.
  - by eapply handleProvision_ok.
  - by eapply handleRevoke_ok.
  - by eapply handleList_ok.
Qed.

(** Servers reachable by requests from [s0]. *)
Inductive srv_reach (s0 : Server) : Server -> Prop :=
| srv_here : srv_reach s0 s0
| srv_next s out s' : srv_reach s0 s -> srv_step s out s' -> srv_reach s0 s'.

(** * The properties *)

(** C6. Invariant of the keystore: whatever requests arrive and whatever system
    calls fail, the allowlist stays well formed, the audit chain verifies and
    the operator key stays the configured one. *)
Theorem keystore_invariant s0 s :
  srv_inv s0 -> srv_reach s0 s ->
  srv_inv s /\ expectedPub (breakGl s) = expectedPub (breakGl s0).
Proof.
  intros Hi. induction 1 as [|s out s' _ [IH IHp] Hs]; [done|].
  destruct Hs as [now rq w out s' w' Ht E].
  destruct (serve_ok _ _ _ _ _ _ _ IH Ht E) as (? & Hp & _). split; [done|by rewrite Hp].
Qed.

(** C2. Chained delegation: the only way a measurement gains access to a role is
    a delegation request naming exactly it, made by a caller that already had
    access or carrying an operator proof that verifies for this role and this
    measurement. *)
Theorem access_only_by_delegation s now rq w out s' w' role x :
  srv_inv s -> request_typed rq -> serve s now rq w = ((out, s'), w') ->
  Allowlist.Allowed (allow s) role x = false ->
  Allowlist.Allowed (allow s') role x = true ->
  exists peer d, rq = RDelegate (Some peer) (Some d) /\ delegate_Role d = role /\
    NewMRENCLAVE d = x /\
    match delegate_BreakGlass d with
    | None => Allowlist.Allowed (allow s) role (peer_MRENCLAVE peer) = true
    | Some proof => fst (BreakGlass.Verify sha256 ed25519_Verify (breakGl s) proof
                           "delegate-add" role x) = Ok tt
    end.
Proof.
  intros Hi Ht E Hn Hy. destruct (serve_ok _ _ _ _ _ _ _ Hi Ht E) as (_ & _ & Ha).
  destruct (Ha role x Hy) as [H'|H']; [congruence|done].
Qed.

(** With break-glass disabled, a role nobody may fetch stays so for ever: no
    sequence of requests gives anyone access to it. *)
Theorem no_operator_no_access s0 s role :
  srv_inv s0 -> expectedPub (breakGl s0) = None ->
  (forall x, Allowlist.Allowed (allow s0) role x = false) ->
  srv_reach s0 s -> forall x, Allowlist.Allowed (allow s) role x = false.
Proof.
  intros Hi Hb Hn Hr.
  assert (srv_inv s /\ expectedPub (breakGl s) = None /\
    forall x, Allowlist.Allowed (allow s) role x = false) as (_ & _ & H'); [|done].
  induction Hr as [|s out s' _ (IH & IHp & IHa) Hs]; [done|].
  destruct Hs as [now rq w out s' w' Ht E].
  destruct (serve_ok _ _ _ _ _ _ _ IH Ht E) as (? & Hp & Ha).
  split; [done|]. split; [by rewrite Hp|]. intros x.
  destruct (Allowlist.Allowed (allow s') role x) eqn:Hx; [|done].
  destruct (Ha role x Hx) as [Hx'|(peer & d & _ & _ & _ & Hd)]; [by rewrite IHa in Hx'|].
  destruct (delegate_BreakGlass d) as [proof|]; [|by rewrite IHa in Hd].
  unfold BreakGlass.Verify, BreakGlass.verify_static in Hd. by rewrite IHp in Hd.
Qed.

(** x509.ParseCertificate and the echeck library, as in PeerAuth.v. *)
Context (ParseCertificate : bytes -> option bytes) {quote : Type}.
Context (ExtractQuote : bytes -> option quote) (VerifyQuote : bytes -> quote -> bool)
  (MREnclave MRSigner : quote -> bytes).

(** C1. Who gets a key: a get that comes over a connection [c], after any
    handshakes, is answered 200 only with the entry stored for the (valid) role
    asked, and only if a measurement on that role's allowlist was proved, by a
    quote that verified under the expected signer, in a certificate with the
    hash of the connection's own, or if the all-zero measurement, which
    connections without a quote have, is itself on that allowlist.  Every
    other answer carries no key. *)
Theorem handleGet_authorised mrs rs c s now b w out s' w' :
  handleGet s (connContext sha256 (handshakes sha256 ParseCertificate ExtractQuote VerifyQuote MREnclave MRSigner mrs rs) c)
    now b w = ((out, s'), w') ->
  match resp_body out with
  | BGet g => status out = StatusOK /\
      exists req entry w1, b = Some req /\ Role_Validate (get_Role req) = Ok tt /\
        KeyStore.Get sha256 (keys s) (get_Role req) w = (Ok entry, w1) /\
        entry_Role entry = get_Role req /\
        g = {| resp_Key := entry_Key entry; resp_KeyType := entry_KeyType entry;
               resp_CreatedAt := entry_CreatedAt entry |} /\
        ((exists m leaf rest cert, Allowed_in s (get_Role req) m /\ peer_certs c = leaf :: rest /\
            sha256 cert = sha256 leaf /\ attested ExtractQuote VerifyQuote MREnclave MRSigner mrs cert m) \/
         Allowed_in s (get_Role req) zero32)
  | BError _ => status out <> StatusOK
  | _ => False
  end.
Proof.
  intros E. destruct (connContext _ _ c) as [p|] eqn:Hp; [|by injection E as <- _ _].
  unfold handleGet in E. destruct b as [req|]; [|by injection E as <- _ _].
  destruct (Role_Validate _) as [[]|e] eqn:Hv; [|by injection E as <- _ _].
  destruct (Allowlist.Allowed _ _ _) eqn:Ha; cbn [negb] in E; [|run_step E; by injection E as <- _ _].
  run_step E. destruct r as [entry|e]; [|by destruct e; injection E as <- _ _].
  run_step E. injection E as <- _ _. split; [done|].
  exists req, entry, w0. split_and!; try done; [by eapply KeyStore.Get_entry_role|].
  destruct (decide (peer_MRENCLAVE p = zero32)) as [Hz|Hz]; [right|left].
  - unfold Allowed_in. by rewrite <-Hz.
  - destruct (request_peer_attested _ _ _ _ _ _ _ _ _ _ Hp Hz) as (leaf & rest & cert & ? & ? & ?).
    by exists (peer_MRENCLAVE p), leaf, rest, cert.
Qed.

(** The comment on the TLS hook says that a zero measurement is always denied:
    nothing denies it.  Once zeros are on a role's allowlist, any client with
    any certificate gets that role's key. *)
Theorem zero_measurement_admits_anyone mrs s leaf rest req now w entry w1 :
  ParseCertificate leaf = Some leaf -> ExtractQuote leaf = None ->
  Role_Validate (get_Role req) = Ok tt -> Allowed_in s (get_Role req) zero32 ->
  KeyStore.Get sha256 (keys s) (get_Role req) w = (Ok entry, w1) ->
  exists s' w', handleGet s (connContext sha256 (handshakes sha256 ParseCertificate ExtractQuote VerifyQuote MREnclave MRSigner
      mrs [leaf :: rest]) (Build_conn true true (leaf :: rest))) now (Some req) w =
    ((respond StatusOK (BGet {| resp_Key := entry_Key entry; resp_KeyType := entry_KeyType entry;
        resp_CreatedAt := entry_CreatedAt entry |}), s'), w').
Proof.
  intros Hc Hq Hv Ha Hg. unfold connContext, handshakes, verifyPeerCertificate. cbn -[put get zero32]. rewrite Hc, Hq. unfold get, put, newPeerStore.
  cbn [snd].
  rewrite lookup_insert_eq. unfold handleGet. rewrite Hv. unfold Allowed_in in Ha. cbn [peer_MRENCLAVE]. rewrite Ha. cbn [negb].
  unfold mbind, io_bind. rewrite Hg. destruct (audited _ _ _ _ _ _ w1) as [s1 w2]. by exists s1, w2.
Qed.

(** Revocation takes effect: after a revocation was answered 204, the very
    next get of the revoked measurement for that role is refused with 403. *)
Theorem revoked_is_refused s now req w out s' w' p now' w2 out2 s2 w3 :
  srv_inv s -> handleRevoke s now (Some req) w = ((out, s'), w') ->
  status out = StatusNoContent -> peer_MRENCLAVE p = OldMRENCLAVE req ->
  handleGet s' (Some p) now' (Some {| get_Role := revoke_Role req |}) w2 = ((out2, s2), w3) ->
  out2 = writeErr StatusForbidden (MsgError ErrNotAllowed).
Proof.
  intros Hi E Hs Hp G. unfold handleRevoke in E.
  destruct (Role_Validate _) as [[]|e] eqn:Hv; [|by injection E as <- _ _].
  destruct (BreakGlass.Verify _ _ _ _ _ _ _) as [[[]|e] bg]; [|by injection E as <- _ _].
  run_step E. destruct p0 as [r a']. cbn [fst snd] in E.
  destruct Hi as (Hw & Hc & Hl).
  destruct (Allowlist.Remove_table _ _ _ _ _ _ _ Hw Em) as (Hw' & Hpth & _ & Ha).
  destruct r as [[]|e]; [|by injection E as <- _ _].
  run_step E. injection E as _ <- _. apply audited_spec in Em0 as (ra & a1 & -> & _).
  assert (forall l, allow (snapshotAfterWrite
    (with_audit (with_allow (with_bg s bg) a') a1) l) = a') as Hal.
  { intros l. unfold snapshotAfterWrite. cbn. by destruct (has_snapshotter s). }
  unfold handleGet in G. cbn [get_Role] in G. rewrite Hv, Hal, Hp in G.
  destruct (Allowlist.Allowed a' (revoke_Role req) (OldMRENCLAVE req)) eqn:Hx.
  { apply Ha in Hx as [_ []]. done. }
  cbn [negb] in G. run_step G. by injection G as <- _ _.
Qed.

(** A role's key file. *)
Definition key_file (s : Server) (role : Role) (m : files) : option file :=
  m !! KeyStore.key_path sha256 (keys s) role.

Lemma layout_key_path (s : Server) (role : Role) (p : path) :
  fst p <> KeyStore.store_dir (keys s) ->
  KeyStore.key_path sha256 (keys s) role <> p /\
  KeyStore.key_path sha256 (keys s) role <> tmp_of p.
Proof. intros Hp. split; intros E; apply Hp; exact (eq_sym (f_equal fst E)). Qed.

Lemma audited_key_file (s s0 : Server) (now : clock) (action : string) (role rl : Role)
    (actor detail : string) (w : world) s' w' :
  fst (audit_path (audit s)) <> KeyStore.store_dir (keys s0) ->
  audited s now action rl actor detail w = (s', w') ->
  key_file s0 role (fs w') = key_file s0 role (fs w).
Proof.
  intros Hl E. apply audited_spec in E as (r & a' & _ & E).
  destruct (layout_key_path s0 role _ Hl) as [H1' H2'].
  refine (keeps_run _ _ _ _ _ _ E). intros m st Hk. by apply AuditLog.wp_Append_keeps.
Qed.

Lemma role_infos_pure (s : Server) (rs : list Role) (w : world) r w' :
  role_infos s rs w = (r, w') -> fs w' = fs w.
Proof.
  revert w r w'. induction rs as [|x rs IH]; intros w r w' E; cbn in E; [by injection E as _ <-|].
  run_step E. run_step E. injection E as _ <-.
  rewrite (IH _ _ _ Em0). by destruct (KeyStore.Get_pure _ _ _ _ _ _ Em).
Qed.

Lemma handleGet_key_file s peer now b w out s' w' role :
  srv_inv s -> handleGet s peer now b w = ((out, s'), w') ->
  key_file s role (fs w') = key_file s role (fs w).
Proof.
  intros (_ & _ & _ & Hl) E. unfold handleGet in E.
  destruct peer as [peer|]; [|by injection E as _ _ <-].
  destruct b as [req|]; [|by injection E as _ _ <-].
  destruct (Role_Validate _) as [[]|e]; [|by injection E as _ _ <-].
  destruct (negb _).
  - run_step E. injection E as _ _ <-. by eapply audited_key_file.
  - run_step E. destruct (KeyStore.Get_pure _ _ _ _ _ _ Em) as [Hf _]. rewrite <-Hf.
    destruct r as [entry|e].
    + run_step E. injection E as _ _ <-. by eapply audited_key_file.
    + destruct e; by injection E as _ _ <-.
Qed.

Lemma handleDelegate_key_file s peer now b w out s' w' role :
  srv_inv s -> handleDelegate s peer now b w = ((out, s'), w') ->
  key_file s role (fs w') = key_file s role (fs w).
Proof.
  intros (_ & _ & Hl1 & Hl2) E. unfold handleDelegate in E.
  destruct peer as [peer|]; [|by injection E as _ _ <-].
  destruct b as [req|]; [|by injection E as _ _ <-].
  destruct (Role_Validate _) as [[]|e]; [|by injection E as _ _ <-].
  destruct (authorize_delegate s peer req) as [[who|m] bg]; [|by injection E as _ _ <-].
  run_step E. destruct (layout_key_path s role _ Hl1) as [Hk1 Hk2].
  assert (key_file s role (fs w0) = key_file s role (fs w)) as Hk.
  { refine (keeps_run _ _ _ _ _ _ Em). intros m st Hk. by apply Allowlist.wp_Add_keeps. }
  destruct p as [[l|e] a']; cbn [fst snd] in E; [|by injection E as _ _ <-].
  run_step E. injection E as _ _ <-. rewrite <-Hk.
  refine (audited_key_file _ s _ _ _ _ _ _ _ _ _ _ Em0). exact Hl2.
Qed.

Lemma handleRevoke_key_file s now b w out s' w' role :
  srv_inv s -> handleRevoke s now b w = ((out, s'), w') ->
  key_file s role (fs w') = key_file s role (fs w).
Proof.
  intros (_ & _ & Hl1 & Hl2) E. unfold handleRevoke in E.
  destruct b as [req|]; [|by injection E as _ _ <-].
  destruct (Role_Validate _) as [[]|e]; [|by injection E as _ _ <-].
  destruct (BreakGlass.Verify _ _ _ _ _ _ _) as [[[]|m] bg]; [|by injection E as _ _ <-].
  run_step E. destruct (layout_key_path s role _ Hl1) as [Hk1 Hk2].
  assert (key_file s role (fs w0) = key_file s role (fs w)) as Hk.
  { refine (keeps_run _ _ _ _ _ _ Em). intros m st Hk. by apply Allowlist.wp_Remove_keeps. }
  destruct p as [[l|e] a']; cbn [fst snd] in E; [|by injection E as _ _ <-].
  run_step E. injection E as _ _ <-. rewrite <-Hk.
  refine (audited_key_file _ s _ _ _ _ _ _ _ _ _ _ Em0). exact Hl2.
Qed.

Lemma handleProvision_key_file s now b w out s' w' role :
  srv_inv s -> KeyStore.next_succeeds w = true -> is_Some (key_file s role (fs w)) ->
  handleProvision s now b w = ((out, s'), w') ->
  key_file s role (fs w') = key_file s role (fs w).
Proof.
  intros (_ & _ & Hl1 & Hl2) Hn Hk E. unfold handleProvision in E.
  destruct b as [req|]; [|by injection E as _ _ <-].
  destruct (Role_Validate _) as [[]|e]; [|by injection E as _ _ <-].
  destruct (_ =? 0)%nat; [by injection E as _ _ <-|].
  destruct (BreakGlass.Verify _ _ _ _ _ _ _) as [[[]|m] bg]; [|by injection E as _ _ <-].
  run_step E. pose proof (KeyStore.Provision_keeps _ _ _ _ _ _ _ _ _ _ Hn Hk Em) as Hkk.
  cbn [keys with_bg] in Hkk. unfold key_file in *. rewrite <-Hkk. destruct r as [[]|e].
  - run_step E. injection E as _ _ <-.
    refine (audited_key_file _ s _ _ _ _ _ _ _ _ _ _ Em0). exact Hl2.
  - destruct e; by injection E as _ _ <-.
Qed.

Lemma handleList_key_file s b w out s' w' role :
  handleList s b w = ((out, s'), w') -> key_file s role (fs w') = key_file s role (fs w).
Proof.
  intros E. unfold handleList in E. destruct b as [req|]; [|by injection E as _ _ <-].
  destruct (BreakGlass.Verify _ _ _ _ _ _ _) as [[[]|m] bg]; [|by injection E as _ _ <-].
  run_step E. rewrite <-(KeyStore.ListRoles_pure _ _ _ _ Em).
  destruct r as [rs|e]; [|by injection E as _ _ <-].
  run_step E. injection E as _ _ <-. by rewrite (role_infos_pure _ _ _ _ _ Em0).
Qed.

(** Stored keys are write-once: unless [os.Stat] fails on it, no request of
    any kind changes the file of a role that has a key. *)
Theorem keys_write_once s now rq w out s' w' role :
  srv_inv s -> KeyStore.next_succeeds w = true -> is_Some (key_file s role (fs w)) ->
  serve s now rq w = ((out, s'), w') ->
  key_file s role (fs w') = key_file s role (fs w).
Proof.
  intros Hi Hn Hk E. destruct rq as [p b|p b|b|b|b]; cbn in E.
  - by eapply handleGet_key_file.
  - by eapply handleDelegate_key_file.
  - by eapply handleProvision_key_file.
  - by eapply handleRevoke_key_file.
  - by eapply handleList_key_file.
Qed.

End server.

(** * The properties at a concrete server *)

#[local] Existing Instance marker_tee.
#[local] Existing Instance AuditLog.json_entry.
#[local] Existing Instance AuditLog.json_entries.
#[local] Existing Instance AuditLog.json_slice.
#[local] Existing Instance Allowlist.json_table.
#[local] Existing Instance KeyStore.json_keyEntry.

#[local] Definition hash (b : bytes) : bytes := b.
#[local] Definition verify_any (pub msg sig : bytes) : bool := true.
#[local] Definition demo_pub : bytes := replicate 32 x07.
#[local] Definition m7 : bytes := replicate 32 x07.
#[local] Definition m8 : bytes := replicate 32 x08.
#[local] Definition demo_proof : BreakGlassProof := {|
  OperatorPubKeyHex := hex_EncodeToString demo_pub;
  Nonce := "0123456789abcdef";
  SignatureHex := hex_EncodeToString (replicate 64 x01) |}.
#[local] Definition demo_server (pub : option bytes) : Server :=
  mkServer (KeyStore.mkStore "/sealed/keys")
    (Allowlist.mkAllow ("/sealed", "allowlist.bin")%string {["r"%string := [m7]]})
    (AuditLog.mkAudit ("/sealed", "audit.bin")%string [])
    (BreakGlass.mkBG pub ∅) true [].
#[local] Definition demo_entry : keyEntry := KeyStore.Build_keyEntry "r" [x01] "raw" 7.
#[local] Definition demo_key_file : file :=
  mkFile (x53 :: default [] (json_marshal demo_entry)) true.
#[local] Definition demo_world : world :=
  mkWorld {[KeyStore.key_path hash (KeyStore.mkStore "/sealed/keys") "r" := demo_key_file]}
    [] 0 [].
#[local] Definition demo_peer (m : bytes) : peerInfo := Build_peerInfo m m [].
#[local] Definition demo_clock : clock := mkClock 5 5.
#[local] Definition demo_get : request := RGet (Some (demo_peer m7)) (Some (Build_GetRequest "r")).
#[local] Definition demo_delegate : DelegateRequest := Build_DelegateRequest "r" m8 None.
#[local] Definition demo_revoke : RevokeRequest := Build_RevokeRequest "r" m7 demo_proof.

#[local] Lemma demo_inv pub : srv_inv hash (demo_server pub).
Proof.
  split; [|split; [reflexivity|split; discriminate]].
  intros role ms. cbn. rewrite lookup_singleton_Some. intros [<- <-].
  split; [reflexivity|]. split; [by repeat constructor|apply NoDup_singleton].
Qed.

Lemma keystore_invariant_witness :
  exists out s, serve hash verify_any (demo_server None) demo_clock demo_get demo_world = out /\
    fst out = (fst (fst out), s) /\ srv_inv hash s.
Proof.
  destruct (serve hash verify_any (demo_server None) demo_clock demo_get demo_world)
    as [[out s] w'] eqn:E.
  exists ((out, s), w'), s. split; [exact eq_refl|]. split; [exact eq_refl|].
  apply (keystore_invariant hash verify_any (demo_server None) s).
  - exact (demo_inv None).
  - eapply srv_next; [apply srv_here|]. eapply srv_step_serve; [|exact E]. exact I.
Defined.

Lemma access_only_by_delegation_witness :
  exists s', Allowlist.Allowed (allow s') "r" m8 = true /\
    exists peer d, RDelegate (Some (demo_peer m7)) (Some demo_delegate) =
        RDelegate (Some peer) (Some d) /\ delegate_Role d = "r"%string /\ NewMRENCLAVE d = m8 /\
      match delegate_BreakGlass d with
      | None => Allowlist.Allowed (allow (demo_server None)) "r" (peer_MRENCLAVE peer) = true
      | Some proof => fst (BreakGlass.Verify hash verify_any (breakGl (demo_server None)) proof
                             "delegate-add" "r" m8) = Ok tt
      end.
Proof.
  destruct (serve hash verify_any (demo_server None) demo_clock
    (RDelegate (Some (demo_peer m7)) (Some demo_delegate)) demo_world) as [[out s'] w'] eqn:E.
  assert (Allowlist.Allowed (allow s') "r" m8 = true) as Ha.
  { change s' with (snd (fst ((out, s'), w'))). rewrite <-E. vm_compute. reflexivity. }
  exists s'. split; [exact Ha|].
  apply (access_only_by_delegation hash verify_any (demo_server None) demo_clock
    (RDelegate (Some (demo_peer m7)) (Some demo_delegate)) demo_world out s' w' "r" m8
    (demo_inv None)).
  - reflexivity.
  - exact E.
  - vm_compute. reflexivity.
  - exact Ha.
Defined.

Lemma no_operator_no_access_witness :
  Allowlist.Allowed (allow (demo_server None)) "other" m7 = false.
Proof.
  apply (no_operator_no_access hash verify_any (demo_server None) (demo_server None) "other").
  - exact (demo_inv None).
  - reflexivity.
  - intros x. reflexivity.
  - apply srv_here.
Defined.

(** A client whose certificate carries the quote of [m7]. *)
#[local] Definition demo_conn7 : conn := Build_conn true true [[x01]].
#[local] Definition demo_context7 : option peerInfo :=
  connContext hash (handshakes hash Some (fun _ => Some tt) (fun _ _ => true) (fun _ => m7) (fun _ => m7) "" [[[x01]]]) demo_conn7.

Lemma handleGet_authorised_witness :
  exists out s' w', handleGet hash (demo_server None) demo_context7 demo_clock
      (Some (Build_GetRequest "r")) demo_world = ((out, s'), w') /\
    status out = StatusOK /\ entries (audit s') <> [].
Proof.
  destruct (handleGet hash (demo_server None) demo_context7 demo_clock
      (Some (Build_GetRequest "r")) demo_world) as [[out s'] w'] eqn:E.
  exists out, s', w'. split; [exact eq_refl|].
  assert (exists g, resp_body out = BGet g) as [g Hg].
  { eexists. change out with (fst (fst ((out, s'), w'))). rewrite <-E. vm_compute. reflexivity. }
  pose proof (handleGet_authorised hash Some (fun _ => Some tt) (fun _ _ => true) (fun _ => m7) (fun _ => m7)
      "" [[[x01]]] demo_conn7 (demo_server None) demo_clock
      (Some (Build_GetRequest "r")) demo_world out s' w' E) as H.
  rewrite Hg in H. split; [apply H|].
  change s' with (snd (fst ((out, s'), w'))). rewrite <-E. vm_compute. discriminate.
Defined.

Lemma revoked_is_refused_witness :
  exists out s' w' r2, handleRevoke hash verify_any (demo_server (Some demo_pub)) demo_clock
      (Some demo_revoke) demo_world = ((out, s'), w') /\
    handleGet hash s' (Some (demo_peer m7)) demo_clock (Some (Build_GetRequest "r")) w' = r2 /\
    fst (fst r2) = writeErr StatusForbidden (MsgError ErrNotAllowed).
Proof.
  destruct (handleRevoke hash verify_any (demo_server (Some demo_pub)) demo_clock
      (Some demo_revoke) demo_world) as [[out s'] w'] eqn:E.
  destruct (handleGet hash s' (Some (demo_peer m7)) demo_clock (Some (Build_GetRequest "r")) w')
    as [[out2 s2] w2] eqn:G.
  exists out, s', w', ((out2, s2), w2). split; [exact eq_refl|]. split; [exact G|].
  apply (revoked_is_refused hash verify_any (demo_server (Some demo_pub)) demo_clock demo_revoke
    demo_world out s' w' (demo_peer m7) demo_clock w' out2 s2 w2).
  - exact (demo_inv _).
  - exact E.
  - change out with (fst (fst ((out, s'), w'))). rewrite <-E. vm_compute. reflexivity.
  - reflexivity.
  - exact G.
Defined.

Lemma keys_write_once_witness :
  exists r, serve hash verify_any (demo_server (Some demo_pub)) demo_clock
      (RProvision (Some (Build_ProvisionRequest "r" [x02] "raw" demo_proof))) demo_world = r /\
    status (fst (fst r)) = StatusConflict /\
    key_file hash (demo_server (Some demo_pub)) "r" (fs (snd r)) = Some demo_key_file.
Proof.
  destruct (serve hash verify_any (demo_server (Some demo_pub)) demo_clock
    (RProvision (Some (Build_ProvisionRequest "r" [x02] "raw" demo_proof))) demo_world)
    as [[out s'] w'] eqn:E.
  exists ((out, s'), w'). split; [exact eq_refl|]. split.
  - rewrite <-E. vm_compute. reflexivity.
  - cbn [fst snd]. rewrite (keys_write_once hash verify_any (demo_server (Some demo_pub)) demo_clock
      (RProvision (Some (Build_ProvisionRequest "r" [x02] "raw" demo_proof))) demo_world out s' w'
      "r" (demo_inv _) eq_refl); [|by eexists|exact E].
    reflexivity.
Defined.
