(* ===== verification/GoNet.v ===== *)
(** Addresses as Go's [net] package reads them: [SplitHostPort], [ParseIP],
    [IP.String], [ParseCIDR] and [IPNet.Contains].  These are standard-library
    functions that the rate limiters, the gateway and the SPF check rely on;
    they are modelled here once, byte by byte. *)

From S2P Require Import Prelude.

(** * Searching strings *)

Fixpoint IndexByte (c : byte) (s : bytes) : option nat :=
  match s with
  | [] => None
  | x :: s' => if byte_eqb x c then Some 0%nat else S <$> IndexByte c s'
  end.

Fixpoint LastIndexByte (c : byte) (s : bytes) : option nat :=
  match s with
  | [] => None
  | x :: s' =>
      match LastIndexByte c s' with
      | Some i => Some (S i)
      | None => if byte_eqb x c then Some 0%nat else None
      end
  end.

(** [strings.HasPrefix], [TrimPrefix] and [Split] on bytes. *)
Fixpoint HasPrefix (s p : bytes) : bool :=
  match p, s with
  | [], _ => true
  | y :: p', x :: s' => byte_eqb x y && HasPrefix s' p'
  | _ :: _, [] => false
  end.

Definition TrimPrefix (s p : bytes) : bytes :=
  if HasPrefix s p then skipn (length p) s else s.

Fixpoint split_byte (c : byte) (s : bytes) : list bytes :=
  match s with
  | [] => [[]]
  | x :: s' =>
      if byte_eqb x c then [] :: split_byte c s'
      else match split_byte c s' with
           | w :: ws => (x :: w) :: ws
           | [] => [[x]]
           end
  end.

(** ** [strings.TrimSpace]

    The UTF-8 encodings of the Unicode white-space runes; being valid
    encodings they match at a rune boundary from either end. *)
Definition space_runes : list bytes :=
  [[x09]; [x0a]; [x0b]; [x0c]; [x0d]; [x20]; [xc2; x85]; [xc2; xa0]; [xe1; x9a; x80];
   [xe2; x80; x80]; [xe2; x80; x81]; [xe2; x80; x82]; [xe2; x80; x83]; [xe2; x80; x84];
   [xe2; x80; x85]; [xe2; x80; x86]; [xe2; x80; x87]; [xe2; x80; x88]; [xe2; x80; x89];
   [xe2; x80; x8a]; [xe2; x80; xa8]; [xe2; x80; xa9]; [xe2; x80; xaf]; [xe2; x81; x9f];
   [xe3; x80; x80]].

Fixpoint trim_left (fuel : nat) (runes : list bytes) (s : bytes) : bytes :=
  match fuel with
  | O => s
  | S fuel =>
      match find_index (HasPrefix s) runes with
      | Some i => trim_left fuel runes (skipn (length (default [] (runes !! i))) s)
      | None => s
      end
  end.

Definition TrimSpace (s : bytes) : bytes :=
  let l := trim_left (length s) space_runes s in
  rev (trim_left (length l) (map (@rev byte) space_runes) (rev l)).

(** * Host and port *)

Definition SplitHostPort (hp : bytes) : option (bytes * bytes) :=
  match LastIndexByte ":" hp with
  | None => None
  | Some i =>
      let port := skipn (S i) hp in
      match hp with
      | "["%byte :: _ =>
          match IndexByte "]" hp with
          | None => None
          | Some e =>
              if negb (S e =? i)%nat then None
              else if is_Some_dec (IndexByte "[" (skipn 1 hp)) then None
              else if is_Some_dec (IndexByte "]" (skipn (S e) hp)) then None
              else Some (skipn 1 (firstn e hp), port)
          end
      | _ =>
          let host := firstn i hp in
          if is_Some_dec (IndexByte ":" host) then None
          else if is_Some_dec (IndexByte "[" hp) then None
          else if is_Some_dec (IndexByte "]" hp) then None
          else Some (host, port)
      end
  end.

(** [h, _, err := SplitHostPort(s); err == nil] keeps [h], otherwise [s]. *)
Definition host_of (s : bytes) : bytes :=
  match SplitHostPort s with Some (h, _) => h | None => s end.

(** * IP addresses

    A [net.IP] is a byte slice: four bytes, or sixteen with IPv4 stored under
    the IPv4-in-IPv6 prefix (what [ParseIP] returns); [To4] recovers the four
    bytes. *)

Definition IP := list Z.

Definition v4InV6Prefix : list Z := [0;0;0;0;0;0;0;0;0;0;255;255]%Z.

Definition To4 (ip : IP) : option (list Z) :=
  if (length ip =? 4)%nat then Some ip
  else if (length ip =? 16)%nat && bool_decide (firstn 12 ip = v4InV6Prefix)
       then Some (skipn 12 ip) else None.

Definition digit (b : byte) : option Z :=
  if byte_between "0" "9" b then Some (byteZ b - 48)%Z else None.

Definition hex_digit (b : byte) : option Z :=
  if byte_between "0" "9" b then Some (byteZ b - 48)%Z
  else if byte_between "a" "f" b then Some (byteZ b - 87)%Z
  else if byte_between "A" "F" b then Some (byteZ b - 55)%Z
  else None.

(** An octet: one to three digits, no leading zero, at most 255. *)
Definition parse_octet (s : bytes) : option Z :=
  match s with
  | [] => None
  | "0"%byte :: _ :: _ => None
  | _ =>
      foldl (fun acc b => v ← acc; d ← digit b;
               let v' := (v * 10 + d)%Z in if (255 <? v')%Z then None else Some v')
            (Some 0%Z) s
  end.

Definition parseIPv4Fields (s : bytes) : option (list Z) :=
  match split_byte "." s with
  | [_; _; _; _] as fs => mapM parse_octet fs
  | _ => None
  end.

(** The hexadecimal group at the front of [s]: value, number of digits, rest. *)
Fixpoint hex_group (acc : Z) (off : nat) (s : bytes) : option (Z * nat * bytes) :=
  match s with
  | [] => Some (acc, off, [])
  | c :: s' =>
      match hex_digit c with
      | None => Some (acc, off, s)
      | Some d =>
          if (3 <? off)%nat then None else hex_group (acc * 16 + d)%Z (S off) s'
      end
  end.

(** The group loop of [parseIPv6]: [fuel] counts the groups still allowed,
    [ip] holds the bytes read and [ell] where the ellipsis stood. *)
Fixpoint v6_loop (fuel : nat) (ip : list Z) (ell : option nat) (s : bytes)
    : option (list Z * option nat * bytes) :=
  match fuel with
  | O => Some (ip, ell, s)
  | S fuel =>
      '(acc, off, rest) ← hex_group 0 0 s;
      if (off =? 0)%nat then None
      else match rest with
      | "."%byte :: _ =>
          if negb (bool_decide (is_Some ell)) && negb (length ip =? 12)%nat then None
          else if (16 <? length ip + 4)%nat then None
          else v4 ← parseIPv4Fields s; Some (ip ++ v4, ell, [])
      | [] => Some (ip ++ [acc / 256; acc mod 256]%Z, ell, [])
      | ":"%byte :: [] => None
      | ":"%byte :: ":"%byte :: rest2 =>
          let ip' := ip ++ [acc / 256; acc mod 256]%Z in
          if is_Some_dec ell then None
          else match rest2 with
               | [] => Some (ip', Some (length ip'), [])
               | _ => v6_loop fuel ip' (Some (length ip')) rest2
               end
      | ":"%byte :: rest1 =>
          v6_loop fuel (ip ++ [acc / 256; acc mod 256]%Z) ell rest1
      | _ => None
      end
  end.

Definition v6_expand (ip : list Z) (ell : option nat) : option IP :=
  if (length ip <? 16)%nat then
    e ← ell;
    Some (firstn e ip ++ replicate (16 - length ip) 0%Z ++ skipn e ip)
  else if is_Some_dec ell then None
  else Some ip.

Definition parseIPv6 (s : bytes) : option IP :=
  if is_Some_dec (IndexByte "%" s) then None   (* a zone: [net.ParseIP] refuses it *)
  else
    let '(ell, s') := match s with
                      | ":"%byte :: ":"%byte :: r => (Some 0%nat, r)
                      | _ => (None, s)
                      end in
    match ell, s' with
    | Some _, [] => Some (replicate 16 0%Z)
    | _, _ =>
        '(ip, ell', rest) ← v6_loop 8 [] ell s';
        match rest with [] => v6_expand ip ell' | _ => None end
    end.

(** The first ['.'], [':'] or ['%'] decides the family. *)
Definition ParseIP (s : bytes) : option IP :=
  match find_index (fun c => byte_eqb c "." || byte_eqb c ":" || byte_eqb c "%") s with
  | None => None
  | Some i =>
      match s !! i with
      | Some "."%byte => app v4InV6Prefix <$> parseIPv4Fields s
      | Some ":"%byte => parseIPv6 s
      | _ => None
      end
  end.

(** * Printing *)

Definition dec_byte (z : Z) : byte := default "0"%byte (Byte.of_N (Z.to_N (48 + z))).

Definition print_octet (z : Z) : bytes :=
  if (z <? 10)%Z then [dec_byte z]
  else if (z <? 100)%Z then [dec_byte (z / 10); dec_byte (z mod 10)]
  else [dec_byte (z / 100); dec_byte (z / 10 mod 10); dec_byte (z mod 10)].

Definition hex_byte (z : Z) : byte :=
  default "0"%byte (Byte.of_N (Z.to_N (if (z <? 10)%Z then 48 + z else 87 + z))).

(** A 16-bit group without leading zeros. *)
Definition print_group (z : Z) : bytes :=
  if (z <? 16)%Z then [hex_byte z]
  else if (z <? 256)%Z then [hex_byte (z / 16); hex_byte (z mod 16)]
  else if (z <? 4096)%Z then
    [hex_byte (z / 256); hex_byte (z / 16 mod 16); hex_byte (z mod 16)]
  else [hex_byte (z / 4096); hex_byte (z / 256 mod 16); hex_byte (z / 16 mod 16);
        hex_byte (z mod 16)].

Fixpoint groups (ip : list Z) : list Z :=
  match ip with
  | a :: b :: r => (a * 256 + b)%Z :: groups r
  | _ => []
  end.

Fixpoint zero_run (gs : list Z) : nat :=
  match gs with 0%Z :: gs' => S (zero_run gs') | _ => 0%nat end.

(** The longest run of at least two zero groups, the first one on a tie:
    [(start, length)]. *)
Fixpoint best_run (i : nat) (gs : list Z) (best : nat * nat) : nat * nat :=
  match gs with
  | [] => best
  | _ :: gs' =>
      let n := zero_run gs in
      best_run (S i) gs' (if (snd best <? n)%nat && (1 <? n)%nat then (i, n) else best)
  end.

Fixpoint join_groups (gs : list Z) : bytes :=
  match gs with
  | [] => []
  | [g] => print_group g
  | g :: gs' => print_group g ++ ":"%byte :: join_groups gs'
  end.

Definition IP_String (ip : IP) : bytes :=
  match To4 ip with
  | Some [a; b; c; d] =>
      print_octet a ++ "."%byte :: print_octet b ++ "."%byte :: print_octet c ++
      "."%byte :: print_octet d
  | _ =>
      let gs := groups ip in
      let '(st, n) := best_run 0 gs (0%nat, 0%nat) in
      if (n =? 0)%nat then join_groups gs
      else join_groups (firstn st gs) ++ [":"%byte; ":"%byte] ++
           join_groups (skipn (st + n) gs)
  end.

(** [if ip := net.ParseIP(host); ip != nil { host = ip.String() }] *)
Definition normalize_host (host : bytes) : bytes :=
  match ParseIP host with Some ip => IP_String ip | None => host end.

(** ** Lower case, fields, scanning

    [strings.ToLower] on ASCII; bytes outside ASCII are left alone. *)
Definition lower_byte (b : byte) : byte :=
  if byte_between "A" "Z" b
  then default b (Byte.of_N (Byte.to_N b + 32)%N) else b.

Definition ToLower (s : bytes) : bytes := lower_byte <$> s.

(** [strings.Fields]: maximal runs without white space. *)
Fixpoint fields (fuel : nat) (word : bytes) (s : bytes) : list bytes :=
  let flush := match word with [] => [] | _ => [rev word] end in
  match fuel, s with
  | S fuel, c :: s' =>
      match find_index (HasPrefix s) space_runes with
      | Some i => flush ++ fields fuel [] (skipn (length (default [] (space_runes !! i))) s)
      | None => fields fuel (c :: word) s'
      end
  | _, _ => flush
  end.

Definition Fields (s : bytes) : list bytes := fields (length s) [] s.

(** [fmt.Sscanf(s, "%d", &n)] on text without leading space: an optional sign
    and the longest run of digits, within [int64]. *)
Fixpoint scan_digits (acc : Z) (seen : bool) (s : bytes) : option Z :=
  match s with
  | c :: s' =>
      match digit c with
      | Some d => scan_digits (acc * 10 + d) true s'
      | None => if seen then Some acc else None
      end
  | [] => if seen then Some acc else None
  end.

Definition Sscanf_d (s : bytes) : option Z :=
  let '(neg, s) := match s with
                   | "+"%byte :: r => (false, r)
                   | "-"%byte :: r => (true, r)
                   | _ => (false, s)
                   end in
  n ← scan_digits 0 false s;
  let v := if (neg : bool) then (- n)%Z else n in
  if ((- 2 ^ 63 <=? v) && (v <? 2 ^ 63))%Z then Some v else None.

(** [IP.IsLoopback]: 127.0.0.0/8 or ::1. *)
Definition IsLoopback (ip : IP) : bool :=
  match To4 ip with
  | Some (a :: _) => (a =? 127)%Z
  | _ => bool_decide (ip = replicate 15 0%Z ++ [1%Z])
  end.

(** [IP.IsPrivate]: RFC 1918 and fc00::/7. *)
Definition IsPrivate (ip : IP) : bool :=
  match To4 ip with
  | Some (a :: b :: _) =>
      (a =? 10)%Z || ((a =? 172)%Z && (Z.land b 240 =? 16)%Z) || ((a =? 192)%Z && (b =? 168)%Z)
  | _ => match ip with a :: _ => (Z.land a 254 =? 252)%Z | [] => false end
  end.

(** * CIDR networks *)

Record IPNet := { net_ip : list Z; net_ones : nat }.

Definition mask_byte (n : nat) (i : nat) : Z :=
  let k := (n - 8 * i)%nat in
  if (8 <=? k)%nat then 255%Z else (256 - 2 ^ (8 - Z.of_nat k))%Z.

Definition mask_bytes (len n : nat) (l : list Z) : list Z :=
  imap (fun i b => Z.land b (mask_byte n i)) l.

Fixpoint parse_decimal (acc : Z) (s : bytes) : option Z :=
  match s with
  | [] => Some acc
  | c :: s' => d ← digit c; parse_decimal (acc * 10 + d)%Z s'
  end.

(** [net.ParseCIDR], the network it returns. *)
Definition ParseCIDR (s : bytes) : option IPNet :=
  i ← IndexByte "/" s;
  ip ← ParseIP (firstn i s);
  let mask := skipn (S i) s in
  match mask with
  | [] => None
  | _ =>
      n ← parse_decimal 0 mask;
      let addr := match To4 ip with
                  | Some v4 => if bool_decide (is_Some (IndexByte ":" (firstn i s)))
                               then ip else v4
                  | None => ip end in
      if (Z.of_nat (8 * length addr) <? n)%Z then None
      else Some {| net_ip := mask_bytes (length addr) (Z.to_nat n) addr;
                   net_ones := Z.to_nat n |}
  end.

(** [IPNet.Contains]: addresses are compared in their short form. *)
Definition Contains (n : IPNet) (ip : IP) : bool :=
  let x := match To4 ip with Some v4 => v4 | None => ip end in
  let nn := match To4 (net_ip n) with
            | Some v4 => if (length (net_ip n) =? 16)%nat then v4 else net_ip n
            | None => net_ip n end in
  if (length x =? length nn)%nat then
    let ones := if (length (net_ip n) =? length x)%nat then net_ones n
                else (net_ones n - 96)%nat in
    bool_decide (mask_bytes (length x) ones x = mask_bytes (length x) ones nn)
  else false.

Example TrimSpace_ex : TrimSpace (string_bytes "  a b	 ") = string_bytes "a b".
Proof. vm_compute. reflexivity. Qed.

Example SplitHostPort_v6 :
  SplitHostPort (string_bytes "[::1]:25") = Some (string_bytes "::1", string_bytes "25").
Proof. vm_compute. reflexivity. Qed.

Example normalize_v6 :
  normalize_host (string_bytes "2001:DB8:0:0:0:0:0:1") = string_bytes "2001:db8::1".
Proof. vm_compute. reflexivity. Qed.

Example normalize_v4_mapped :
  normalize_host (string_bytes "::ffff:192.0.2.7") = string_bytes "192.0.2.7".
Proof. vm_compute. reflexivity. Qed.

Example contains_cidr :
  (n ← ParseCIDR (string_bytes "192.0.2.0/24"); ip ← ParseIP (string_bytes "192.0.2.77");
   Some (Contains n ip)) = Some true.
Proof. vm_compute. reflexivity. Qed.
