(* ===== verification/Decimal.v ===== *)
(** Decimal text: fmt's [%d] verb, printing and scanning.  Printing is stdpp's
    [pretty], scanning [Sscanf_d] of GoNet.v; scanning what was printed gives
    the number back. *)

From stdpp Require Import pretty.
From S2P Require Import Prelude GoNet.
Local Open Scope Z_scope.

Lemma byte_of_ascii_String c s :
  string_bytes (String c s) = byte_of_ascii c :: string_bytes s.
Proof. done. Qed.

Lemma digit_printed d :
  (d < 10)%N -> digit (byte_of_ascii (pretty_N_char d)) = Some (Z.of_N d).
Proof.
  intros Hd. assert (d = 0 \/ d = 1 \/ d = 2 \/ d = 3 \/ d = 4 \/ d = 5 \/ d = 6 \/ d = 7 \/
    d = 8 \/ d = 9)%N as Hc by lia.
  by destruct Hc as [->|[->|[->|[->|[->|[->|[->|[->|[->| ->]]]]]]]]].
Qed.

(** Scanning the digits of [x], then what follows. *)
Lemma scan_pretty_go x : forall s rest seen,
  (0 < x)%N ->
  scan_digits 0 seen (string_bytes (pretty_N_go x s) ++ rest) =
  scan_digits (Z.of_N x) true (string_bytes s ++ rest).
Proof.
  induction (N.lt_wf_0 x) as [x _ IH]; intros s rest seen Hx.
  rewrite pretty_N_go_step by done.
  pose proof (N.Div0.div_mod x 10) as Hdm. pose proof (N.mod_lt x 10 ltac:(done)) as Hm.
  destruct (decide (x / 10 = 0)%N) as [E|E].
  - rewrite E, pretty_N_go_0, byte_of_ascii_String. cbn [app scan_digits].
    rewrite digit_printed by done. f_equal. lia.
  - rewrite IH by (try apply N.div_lt; lia). rewrite byte_of_ascii_String. cbn [app scan_digits].
    rewrite digit_printed by done. f_equal. lia.
Qed.

Definition starts_digit (s : bytes) : bool :=
  match s with c :: _ => bool_decide (is_Some (digit c)) | [] => false end.

Lemma scan_digits_stop n rest :
  starts_digit rest = false -> scan_digits n true rest = Some n.
Proof.
  destruct rest as [|c rest]; [done|]. cbn. intros Hc%bool_decide_eq_false.
  destruct (digit c); [|done]. exfalso. apply Hc. by eexists.
Qed.

Lemma digits_pretty (n : N) rest :
  starts_digit rest = false ->
  scan_digits 0 false (string_bytes (pretty n) ++ rest) = Some (Z.of_N n).
Proof.
  intros Hr. unfold pretty, pretty_N. case_decide as Hn.
  - subst n. cbn. by apply scan_digits_stop.
  - rewrite scan_pretty_go by lia. by apply scan_digits_stop.
Qed.

(** The text of a natural number begins with a digit. *)
Lemma pretty_N_head (n : N) : exists c s, string_bytes (pretty n) = c :: s /\ is_Some (digit c).
Proof.
  pose proof (digits_pretty n [] eq_refl) as H. rewrite app_nil_r in H.
  destruct (string_bytes (pretty n)) as [|c s]; [done|]. exists c, s. split; [done|].
  cbn in H. destruct (digit c); [by eexists|done].
Qed.

Lemma not_sign c : is_Some (digit c) -> c <> "+"%byte /\ c <> "-"%byte.
Proof. intros [d Hd]. split; intros ->; done. Qed.

(** [%d] printed and scanned again, before text that does not continue the
    number. *)
Lemma Sscanf_pretty (n : Z) rest :
  - 2 ^ 63 <= n < 2 ^ 63 -> starts_digit rest = false ->
  Sscanf_d (string_bytes (pretty n) ++ rest) = Some n.
Proof.
  intros Hn Hr. destruct n as [|p|p].
  - change (Sscanf_d (string_bytes (pretty 0) ++ rest))
      with (n ← scan_digits 0 true rest;
            if ((- 2 ^ 63 <=? n) && (n <? 2 ^ 63))%Z then Some n else None).
    by rewrite scan_digits_stop.
  - change (pretty (Z.pos p)) with (pretty (N.pos p)).
    destruct (pretty_N_head (N.pos p)) as (c & s & E & Hc).
    pose proof (digits_pretty (N.pos p) rest Hr) as Hd. rewrite E in Hd |- *.
    unfold Sscanf_d. cbn [app] in Hd |- *. destruct (not_sign c Hc) as [Hp Hm].
    assert (match c with "+"%byte => (false, s ++ rest) | "-"%byte => (true, s ++ rest)
            | _ => (false, c :: s ++ rest) end = (false, c :: s ++ rest)) as ->
      by (destruct c; done).
    rewrite Hd. cbn. rewrite (proj2 (Z.leb_le _ _)), (proj2 (Z.ltb_lt _ _)) by lia. done.
  - change (string_bytes (pretty (Z.neg p))) with ("-"%byte :: string_bytes (pretty (N.pos p))).
    unfold Sscanf_d. cbn [app]. rewrite digits_pretty by done. cbn.
    rewrite (proj2 (Z.leb_le _ _)), (proj2 (Z.ltb_lt _ _)) by lia. done.
Qed.

(** The characters of a printed number. *)
Definition number_char (c : byte) : Prop := is_Some (digit c) \/ c = "-"%byte.

Lemma pretty_go_chars x : forall s, Forall number_char (bs s) -> Forall number_char (bs (pretty_N_go x s)).
Proof.
  induction (N.lt_wf_0 x) as [x _ IH]. intros s Hs. destruct (decide (x = 0)%N) as [->|Hx]; [done|].
  rewrite pretty_N_go_step by lia. apply IH; [apply N.div_lt; lia|].
  unfold bs. rewrite byte_of_ascii_String. constructor; [|done].
  left. rewrite digit_printed by (apply N.mod_lt; lia). by eexists.
Qed.

Lemma pretty_Z_chars (n : Z) : Forall number_char (bs (pretty n)).
Proof.
  assert (number_char "0") as H0 by (left; by eexists).
  assert (forall x : N, Forall number_char (bs (pretty x))) as HN.
  { intros x. unfold pretty, pretty_N. case_decide; [by repeat constructor|]. by apply pretty_go_chars. }
  unfold pretty, pretty_Z. destruct n as [|p|p]; [by repeat constructor|apply HN|].
  unfold bs. rewrite string_bytes_app. apply Forall_app. split; [|apply HN]. constructor; [by right|done].
Qed.

Lemma pretty_Z_avoids (n : Z) c : digit c = None -> c <> "-"%byte -> c ∉ bs (pretty n).
Proof.
  intros Hd Hc Hin. pose proof (pretty_Z_chars n) as HF. rewrite Forall_forall in HF.
  destruct (HF c Hin) as [[? E]|]; congruence.
Qed.
