(* ===== verification/FilePath.v ===== *)
(** Go's [path/filepath] on Unix: [Clean], [Join], and the split of a path into
    its directory and its last element.  Shown: joining a relative name
    without ".." to a rooted directory appends the name's components. *)

From S2P Require Import Prelude GoNet SysFS.

(** [filepath.Clean] on Unix, component by component. *)
Definition clean_step (rooted : bool) (stack : list bytes) (c : bytes) : list bytes :=
  if bool_decide (c = []) || bool_decide (c = string_bytes ".") then stack
  else if bool_decide (c = string_bytes "..") then
    match stack with
    | [] => if rooted then [] else [c]
    | top :: rest => if bool_decide (top = string_bytes "..") then c :: stack else rest
    end
  else c :: stack.

Fixpoint join_slash (cs : list bytes) : bytes :=
  match cs with
  | [] => []
  | [c] => c
  | c :: cs => c ++ "/"%byte :: join_slash cs
  end.

Definition Clean (p : bytes) : bytes :=
  let rooted := match p with "/"%byte :: _ => true | _ => false end in
  let body := join_slash (rev (foldl (clean_step rooted) [] (split_byte "/" p))) in
  if rooted then "/"%byte :: body else match body with [] => ["."%byte] | _ => body end.

(** [filepath.Join] of two non-empty elements. *)
Definition Join (a b : bytes) : bytes := Clean (a ++ "/"%byte :: b).

(** The components that [Clean] keeps as they are. *)
Definition proper (c : bytes) : Prop :=
  c <> [] /\ c <> string_bytes "." /\ c <> string_bytes "..".

#[export] Instance proper_dec c : Decision (proper c).
Proof. unfold proper. apply _. Defined.

(** ([filepath.Dir], [filepath.Base]) of a clean path. *)
Definition loc (p : bytes) : path :=
  match LastIndexByte "/" p with
  | None => ("."%string, bytes_string p)
  | Some O => ("/"%string, bytes_string (skipn 1 p))
  | Some i => (bytes_string (firstn i p), bytes_string (skipn (S i) p))
  end.

(** * Lemmas *)

Lemma HasPrefix_app s p : HasPrefix (p ++ s) p = true.
Proof.
  induction p as [|x p IH]; [by destruct s|]. cbn.
  by rewrite (proj2 (byte_eqb_eq x x) eq_refl).
Qed.

Lemma HasPrefix_spec s p : HasPrefix s p = true -> exists t, s = p ++ t.
Proof.
  revert s. induction p as [|x p IH]; intros s Hs; [by exists s|].
  destruct s as [|y s]; [done|]. cbn in Hs. apply andb_true_iff in Hs as [E Hs].
  apply byte_eqb_eq in E as ->. destruct (IH s Hs) as [t ->]. by exists t.
Qed.

Lemma TrimPrefix_app s p : TrimPrefix (p ++ s) p = s.
Proof. unfold TrimPrefix. by rewrite HasPrefix_app, drop_app_length. Qed.

Lemma split_byte_app_sep c a b :
  split_byte c (a ++ c :: b) = split_byte c a ++ split_byte c b.
Proof.
  induction a as [|x a IH]; cbn.
  - rewrite (proj2 (byte_eqb_eq c c) eq_refl). done.
  - destruct (byte_eqb x c); [by rewrite IH|]. rewrite IH.
    destruct (split_byte c a) as [|w ws] eqn:E; [|done].
    exfalso. clear IH. destruct a as [|y a]; cbn in E; [done|].
    destruct (byte_eqb y c); [done|]. by destruct (split_byte c a).
Qed.

Lemma split_byte_none c s : c ∉ s -> split_byte c s = [s].
Proof.
  induction s as [|x s IH]; [done|]. intros Hn. cbn.
  destruct (byte_eqb x c) eqn:E.
  - apply byte_eqb_eq in E as ->. exfalso. apply Hn. by left.
  - rewrite IH; [done|]. intros Hin. apply Hn. by right.
Qed.

Lemma join_slash_snoc l t : l <> [] -> join_slash (l ++ [t]) = join_slash l ++ "/"%byte :: t.
Proof.
  induction l as [|c l IH]; [done|]. intros _. destruct l as [|d l]; [done|].
  change (join_slash ((c :: d :: l) ++ [t]))
    with (c ++ "/"%byte :: join_slash ((d :: l) ++ [t])).
  change (join_slash (c :: d :: l)) with (c ++ "/"%byte :: join_slash (d :: l)).
  rewrite IH by done. by rewrite <-app_assoc.
Qed.

Lemma split_byte_nonempty c s : split_byte c s <> [].
Proof.
  destruct s as [|x s]; cbn; [done|].
  destruct (byte_eqb x c); [done|]. by destruct (split_byte c s).
Qed.

Lemma join_slash_cons c cs : cs <> [] -> join_slash (c :: cs) = c ++ "/"%byte :: join_slash cs.
Proof. by destruct cs. Qed.

Lemma join_split s : join_slash (split_byte "/" s) = s.
Proof.
  induction s as [|x s IH]; [done|]. cbn [split_byte].
  destruct (byte_eqb x "/") eqn:E.
  - apply byte_eqb_eq in E as ->. rewrite join_slash_cons by apply split_byte_nonempty.
    by rewrite IH.
  - destruct (split_byte "/" s) as [|w ws] eqn:Es; [by destruct (split_byte_nonempty "/" s)|].
    destruct ws as [|w' ws]; cbn in *; by rewrite <-IH.
Qed.

(** The components [cs], each after a slash. *)
Definition slashed (cs : list bytes) : bytes := concat ((fun c => "/"%byte :: c) <$> cs).

Lemma join_slash_app l cs : l <> [] -> join_slash (l ++ cs) = join_slash l ++ slashed cs.
Proof.
  intros Hl. induction cs as [|c cs IH] using rev_ind.
  - by rewrite !app_nil_r.
  - unfold slashed in *. rewrite fmap_app, concat_app, app_assoc. cbn.
    rewrite join_slash_snoc by (intros [? _]%app_eq_nil; done).
    by rewrite IH, <-app_assoc, app_nil_r.
Qed.

Lemma slash_join cs : cs <> [] -> slashed cs = "/"%byte :: join_slash cs.
Proof.
  destruct cs as [|c cs]; [done|]. intros _.
  change (slashed (c :: cs)) with ("/"%byte :: (c ++ slashed cs)).
  change (c :: cs) with ([c] ++ cs). by rewrite (join_slash_app [c]).
Qed.

Lemma proper_step rooted stack c : proper c -> clean_step rooted stack c = c :: stack.
Proof.
  intros (H1 & H2 & H3). unfold clean_step.
  by rewrite !bool_decide_eq_false_2 by done.
Qed.

(** Without "..", cleaning only drops empty and "." components. *)
Lemma clean_fold rooted stack cs :
  Forall (fun c => c <> string_bytes "..") cs ->
  exists ks, Forall proper ks /\ foldl (clean_step rooted) stack cs = rev ks ++ stack /\
    (Forall proper cs -> ks = cs).
Proof.
  intros H. revert stack. induction H as [|c cs Hc _ IH]; intros stack.
  - by exists [].
  - cbn [foldl]. destruct (decide (c = [] \/ c = string_bytes ".")) as [Hd|Hd].
    + assert (clean_step rooted stack c = stack) as ->.
      { by destruct Hd as [-> | ->]. }
      destruct (IH stack) as (ks & Hk & E & _). exists ks. split_and!; [done..|].
      intros Hp. inversion Hp as [|? ? (H1 & H2 & _) _]; subst. by destruct Hd.
    + assert (proper c) as Hp by (unfold proper; naive_solver).
      rewrite proper_step by done. destruct (IH (c :: stack)) as (ks & Hk & E & Hks).
      exists (c :: ks). split_and!; [by constructor| |].
      * rewrite E. cbn. by rewrite <-app_assoc.
      * intros Hall. inversion Hall; subst. by rewrite Hks.
Qed.

(** The absolute paths that are [root] or lie below it. *)
Definition at_or_below (root full : bytes) : Prop :=
  exists cs, Forall proper cs /\ full = Clean root ++ slashed cs.

(** Joining a name without ".." components to a rooted directory. *)
Lemma Join_cases root name :
  Clean ("/"%byte :: root) <> ["/"%byte] ->
  Forall (fun c => c <> string_bytes "..") (split_byte "/" name) ->
  exists cs, Forall proper cs /\
    Join ("/"%byte :: root) name = Clean ("/"%byte :: root) ++ slashed cs /\
    (Forall proper (split_byte "/" name) -> cs = split_byte "/" name).
Proof.
  intros Hroot Hn. unfold Join, Clean in *. cbv iota beta in *.
  change (("/"%byte :: root) ++ "/"%byte :: name)
    with ("/"%byte :: (root ++ "/"%byte :: name)).
  cbv iota beta.
  change ("/"%byte :: root ++ "/"%byte :: name) with (("/"%byte :: root) ++ "/"%byte :: name).
  rewrite split_byte_app_sep, foldl_app.
  destruct (clean_fold true (foldl (clean_step true) [] (split_byte "/" ("/"%byte :: root)))
    (split_byte "/" name) Hn) as (ks & Hk & -> & Hp).
  exists ks. split_and!; [done| |done].
  rewrite rev_app_distr, rev_involutive, join_slash_app; [done|].
  intros Hnil. apply Hroot. by rewrite Hnil.
Qed.

Lemma Join_below root name :
  Clean ("/"%byte :: root) <> ["/"%byte] ->
  Forall (fun c => c <> string_bytes "..") (split_byte "/" name) ->
  at_or_below ("/"%byte :: root) (Join ("/"%byte :: root) name).
Proof.
  intros Hr Hn. destruct (Join_cases _ _ Hr Hn) as (cs & Hcs & E & _). by exists cs.
Qed.

Lemma Join_rooted root name :
  Clean ("/"%byte :: root) <> ["/"%byte] -> Forall proper (split_byte "/" name) ->
  Join ("/"%byte :: root) name = Clean ("/"%byte :: root) ++ "/"%byte :: name.
Proof.
  intros Hr Hp. assert (Forall (fun c => c <> string_bytes "..") (split_byte "/" name)) as Hn.
  { eapply Forall_impl; [done|]. by intros c (_ & _ & ?). }
  destruct (Join_cases _ _ Hr Hn) as (cs & Hcs & -> & Hks). rewrite (Hks Hp).
  by rewrite slash_join, join_split by apply split_byte_nonempty.
Qed.

Lemma IndexByte_first c a b : c ∉ a -> IndexByte c (a ++ c :: b) = Some (length a).
Proof.
  induction a as [|x a IH]; intros Hc; cbn.
  - by rewrite (proj2 (byte_eqb_eq c c) eq_refl).
  - rewrite not_elem_of_cons in Hc. destruct Hc as [Hx Hc].
    destruct (byte_eqb x c) eqn:E; [apply byte_eqb_eq in E; congruence|]. by rewrite IH.
Qed.

Lemma LastIndexByte_app c d b :
  c ∉ b -> LastIndexByte c (d ++ c :: b) = Some (length d).
Proof.
  intros Hb. assert (LastIndexByte c b = None) as Hn.
  { induction b as [|x b IH]; [done|]. cbn. rewrite IH by set_solver.
    destruct (byte_eqb x c) eqn:E; [|done]. apply byte_eqb_eq in E. set_solver. }
  induction d as [|x d IH]; cbn.
  - by rewrite Hn, (proj2 (byte_eqb_eq c c) eq_refl).
  - by rewrite IH.
Qed.

Lemma loc_app d b :
  d <> [] -> "/"%byte ∉ b -> loc (d ++ "/"%byte :: b) = (bytes_string d, bytes_string b).
Proof.
  intros Hd Hb. unfold loc. rewrite LastIndexByte_app by done.
  destruct (length d) as [|n] eqn:El; [by destruct d|]. rewrite <-El.
  f_equal; f_equal.
  - by rewrite take_app_length.
  - change (d ++ "/"%byte :: b) with (d ++ ["/"%byte] ++ b). rewrite app_assoc.
    apply drop_app_length'. rewrite length_app. cbn. lia.
Qed.

Lemma LastIndexByte_spec c s i :
  LastIndexByte c s = Some i -> s = firstn i s ++ c :: skipn (S i) s.
Proof.
  revert i. induction s as [|x s IH]; intros i Hi; cbn in Hi; [done|].
  destruct (LastIndexByte c s) as [j|].
  - injection Hi as <-. cbn. f_equal. by apply IH.
  - destruct (byte_eqb x c) eqn:E; [|done]. injection Hi as <-.
    by apply byte_eqb_eq in E as ->.
Qed.

Lemma LastIndexByte_In c a b : is_Some (LastIndexByte c (a ++ c :: b)).
Proof.
  induction a as [|x a IH]; cbn.
  - destruct (LastIndexByte c b); [by eexists|].
    rewrite (proj2 (byte_eqb_eq c c) eq_refl). by eexists.
  - destruct IH as [i ->]. by eexists.
Qed.

(** A path with a directory is determined by its directory and base. *)
Lemma loc_split d b :
  d <> [] -> exists i, LastIndexByte "/" ("/"%byte :: d ++ "/"%byte :: b) = Some (S i) /\
    loc ("/"%byte :: d ++ "/"%byte :: b) =
      (bytes_string (firstn (S i) ("/"%byte :: d ++ "/"%byte :: b)),
       bytes_string (skipn (S (S i)) ("/"%byte :: d ++ "/"%byte :: b))).
Proof.
  intros Hd. destruct (LastIndexByte_In "/" d b) as [i Hi]. exists i.
  assert (LastIndexByte "/" ("/"%byte :: d ++ "/"%byte :: b) = Some (S i)) as E
    by (cbn; by rewrite Hi).
  split; [done|]. unfold loc. by rewrite E.
Qed.

Lemma loc_inj root x y :
  Clean ("/"%byte :: root) <> ["/"%byte] ->
  loc (Clean ("/"%byte :: root) ++ "/"%byte :: x) = loc (Clean ("/"%byte :: root) ++ "/"%byte :: y) ->
  x = y.
Proof.
  intros Hr. destruct (Clean ("/"%byte :: root)) as [|s d] eqn:Ec; [done|].
  assert (s = "/"%byte) as -> by (unfold Clean in Ec; congruence).
  assert (d <> []) as Hd by congruence.
  destruct (loc_split d x Hd) as (i & Hi & Ei), (loc_split d y Hd) as (j & Hj & Ej).
  cbn [app]. rewrite Ei, Ej. intros E.
  pose proof (bytes_string_inj _ _ (f_equal fst E)) as E1.
  pose proof (bytes_string_inj _ _ (f_equal snd E)) as E2. clear E Ei Ej.
  apply LastIndexByte_spec in Hi, Hj. rewrite E1, E2, <-Hj in Hi.
  injection Hi as Hi. by apply app_inv_head in Hi as [= ->].
Qed.
