(* ===== verification/GoStrings.v ===== *)
(** More of Go's strings, strconv, bufio and encoding/base64: suffixes,
    search, decimal numbers, scanned lines, base64. *)

From S2P Require Import Prelude GoNet FilePath.
Local Open Scope Z_scope.

(** [strconv.Atoi] *)
Definition Atoi (s : bytes) : option Z :=
  let '(neg, ds) := match s with
                    | "+"%byte :: r => (false, r)
                    | "-"%byte :: r => (true, r)
                    | _ => (false, s)
                    end in
  if bool_decide (ds = []) then None else
  n ← foldl (fun acc c => n ← acc; d ← digit c; Some (n * 10 + d)) (Some 0) ds;
  let v := if (neg : bool) then - n else n in
  if (- 2 ^ 63 <=? v) && (v <? 2 ^ 63) then Some v else None.

(** [bufio.Scanner] over lines: a line of [limit] bytes or more stops the scan,
    and the code does not ask whether it did.  The default limit is 64 KiB. *)
Definition drop_cr (l : bytes) : bytes :=
  match last l with Some x0d => take (length l - 1) l | _ => l end.

Fixpoint scan_until (limit : Z) (ls : list bytes) : list bytes :=
  match ls with
  | [] => []
  | l :: ls => if Z.of_nat (length l) <? limit then drop_cr l :: scan_until limit ls else []
  end.

Definition scan_lines_max (limit : Z) (body : bytes) : list bytes :=
  let ls := split_byte x0a body in
  scan_until limit (match last ls with Some [] => take (length ls - 1) ls | _ => ls end).

Definition scan_lines (body : bytes) : list bytes := scan_lines_max 65536 body.

Definition TrimSuffix (s t : bytes) : bytes :=
  if HasPrefix (rev s) (rev t) then take (length s - length t) s else s.

Definition HasSuffix (s t : bytes) : bool := HasPrefix (rev s) (rev t).

(** [strings.Index(s, sub)] *)
Fixpoint Index (s sub : bytes) : option nat :=
  if HasPrefix s sub then Some 0%nat
  else match s with [] => None | _ :: s => S <$> Index s sub end.

Definition b64_alphabet : bytes :=
  bs "ABCDEFGHIJKLMNOPQRSTUVWXYZabcdefghijklmnopqrstuvwxyz0123456789+/".

Definition b64_char (n : Z) : byte := default "="%byte (b64_alphabet !! Z.to_nat n).

(** [base64.StdEncoding.EncodeToString] *)
Fixpoint base64 (s : bytes) : bytes :=
  match s with
  | a :: b :: c :: s =>
      let n := byteZ a * 65536 + byteZ b * 256 + byteZ c in
      b64_char (n / 262144) :: b64_char (n / 4096 mod 64) :: b64_char (n / 64 mod 64) ::
      b64_char (n mod 64) :: base64 s
  | [a; b] =>
      let n := byteZ a * 65536 + byteZ b * 256 in
      [b64_char (n / 262144); b64_char (n / 4096 mod 64); b64_char (n / 64 mod 64); "="%byte]
  | [a] =>
      let n := byteZ a * 65536 in
      [b64_char (n / 262144); b64_char (n / 4096 mod 64); "="%byte; "="%byte]
  | [] => []
  end.

Example base64_ex : base64 (bs "light work") = bs "bGlnaHQgd29yaw==".
Proof. vm_compute. reflexivity. Qed.

(** The longest prefix whose bytes satisfy [p], and the rest. *)
Fixpoint span (p : byte -> bool) (s : bytes) : bytes * bytes :=
  match s with
  | c :: r => if p c then let '(a, b) := span p r in (c :: a, b) else ([], s)
  | [] => ([], [])
  end.

(** [strings.TrimRight] with a cutset of ASCII characters. *)
Definition trim_right (cutset s : bytes) : bytes :=
  rev (snd (span (fun c => bool_decide (c ∈ cutset)) (rev s))).

(** [strings.Contains] *)
Definition contains (s sub : bytes) : bool := bool_decide (is_Some (Index s sub)).

(** A header map (map[string][]string): the list of its entries, in the order
    of an iteration. *)
Definition Header := list (bytes * list bytes).

(** [headers[key]] *)
Definition exact (headers : Header) (key : bytes) : list bytes :=
  match list_find (fun kv => kv.1 = key) headers with Some (_, kv) => snd kv | None => [] end.

(** [headers[key] = append(headers[key], v)] *)
Fixpoint header_add (headers : Header) (key v : bytes) : Header :=
  match headers with
  | [] => [(key, [v])]
  | (k, vs) :: headers =>
      if bool_decide (k = key) then (k, vs ++ [v]) :: headers
      else (k, vs) :: header_add headers key v
  end.

(** [headers[key] = vs] *)
Fixpoint header_set (headers : Header) (key : bytes) (vs : list bytes) : Header :=
  match headers with
  | [] => [(key, vs)]
  | (k, vs') :: headers =>
      if bool_decide (k = key) then (k, vs) :: headers
      else (k, vs') :: header_set headers key vs
  end.

(** ** Runes

    The text as its runes: each valid UTF-8 encoding as it stands, each byte
    that does not begin one as the encoding of U+FFFD, which is what ranging over
    the string and writing the runes gives. *)

Definition cont_byte (lo hi : Z) (b : byte) : bool := (lo <=? byteZ b) && (byteZ b <=? hi).

(** The number of bytes after the first in the encoding that begins [s]. *)
Definition rune_tail (s : bytes) : option nat :=
  match s with
  | [] => None
  | b :: t =>
      let z := byteZ b in
      let tail (lo hi : Z) (n : nat) :=
        match t with
        | c :: t => if cont_byte lo hi c && (n - 1 <=? length t)%nat &&
                       forallb (cont_byte 128 191) (take (n - 1) t) then Some n else None
        | [] => None
        end in
      if z <? 128 then Some 0%nat
      else if z <? 194 then None
      else if z <? 224 then tail 128 191 1%nat
      else if z =? 224 then tail 160 191 2%nat
      else if z =? 237 then tail 128 159 2%nat
      else if z <? 240 then tail 128 191 2%nat
      else if z =? 240 then tail 144 191 3%nat
      else if z <? 244 then tail 128 191 3%nat
      else if z =? 244 then tail 128 143 3%nat
      else None
  end.

Definition RuneError : bytes := [xef; xbf; xbd].

Fixpoint runes_from (skip : nat) (s : bytes) : list bytes :=
  match s with
  | [] => []
  | c :: t =>
      match skip with
      | S skip => runes_from skip t
      | O => match rune_tail s with
             | Some n => take (S n) s :: runes_from n t
             | None => RuneError :: runes_from 0 t
             end
      end
  end.

Definition runes (s : bytes) : list bytes := runes_from 0 s.

Example runes_ex : runes [x61; xc3; xa9; xff; xe2; x82] = [[x61]; [xc3; xa9]; RuneError; RuneError; RuneError].
Proof. vm_compute. reflexivity. Qed.

(** ** Replacements *)

(** [strings.NewReplacer(old, new, ...).Replace(s)] for non-empty [old]: at each
    position the first pair that fits. *)
Fixpoint replacing (pairs : list (bytes * bytes)) (skip : nat) (s : bytes) : bytes :=
  match s with
  | [] => []
  | c :: t =>
      match skip with
      | S skip => replacing pairs skip t
      | O => match list_find (fun p => HasPrefix s (fst p) = true) pairs with
             | Some (_, (old, new)) => new ++ replacing pairs (length old - 1) t
             | None => c :: replacing pairs 0 t
             end
      end
  end.

Definition Replace (pairs : list (bytes * bytes)) (s : bytes) : bytes := replacing pairs 0 s.

(** [strings.ReplaceAll(s, old, new)] for non-empty [old] *)
Definition ReplaceAll (s old new : bytes) : bytes := Replace [(old, new)] s.

Example ReplaceAll_ex : ReplaceAll (bs "aXXaXa") (bs "X") (bs "--") = bs "a----a--a".
Proof. vm_compute. reflexivity. Qed.

(** [strings.ContainsAny] with ASCII characters *)
Definition ContainsAny (s chars : bytes) : bool := existsb (fun c => bool_decide (c ∈ chars)) s.

(** [strings.Count] of one byte *)
Definition count_byte (c : byte) (s : bytes) : nat := length (filter (eq c) s).

(** * Lemmas *)

Lemma HasSuffix_spec s t : HasSuffix s t = true -> exists a, s = a ++ t.
Proof.
  unfold HasSuffix. intros (r & E)%HasPrefix_spec. exists (rev r).
  rewrite <-(rev_involutive s), E, rev_app_distr, rev_involutive. done.
Qed.

(** [io.LimitReader]. *)
Definition limit_reader (n : Z) (b : bytes) : bytes :=
  if (Z.of_nat (length b) <=? n)%Z then b else take (Z.to_nat n) b.
