(* ===== verification/Regexp.v ===== *)
(** Go's regexp package on bytes: expressions, the match that a backtracking
    matcher finds first (which is RE2's choice too), and the three operations
    the code uses.  The expressions of the repository only name ASCII bytes and
    the complements of ASCII classes, so matching bytes and matching runes give
    the same text. *)

From S2P Require Import Prelude GoNet GoStrings.
Local Open Scope Z_scope.

Inductive re :=
| Chr (p : byte -> bool)
| Emp
| Cat (a b : re)
| Alt (a b : re)                (* prefers [a] *)
| Star (a : re)                 (* greedy *)
| Grp (n : nat) (a : re)
| TextStart | TextEnd | WordEdge.

(** A position in the text: the byte before it, the text after it, and the
    groups closed so far, latest first. *)
Record position := Pos { before : option byte; rest : bytes; groups : list (nat * bytes) }.

Definition re_digit (c : byte) : bool := (byteZ "0" <=? byteZ c) && (byteZ c <=? byteZ "9").
Definition re_upper (c : byte) : bool := (byteZ "A" <=? byteZ c) && (byteZ c <=? byteZ "Z").
Definition re_lower (c : byte) : bool := (byteZ "a" <=? byteZ c) && (byteZ c <=? byteZ "z").
Definition re_alpha (c : byte) : bool := re_upper c || re_lower c.
Definition re_alnum (c : byte) : bool := re_alpha c || re_digit c.
Definition re_word (c : byte) : bool := re_alnum c || byte_eqb c "_".
Definition one_of (cs : bytes) (c : byte) : bool := bool_decide (c ∈ cs).

Definition at_edge (s : position) : bool :=
  xorb (match before s with Some c => re_word c | None => false end)
       (match rest s with c :: _ => re_word c | [] => false end).

(** The rounds of a star: each must consume something. *)
Fixpoint rounds {A} (body : (position -> option A) -> position -> option A) (k : position -> option A)
    (n : nat) (s : position) : option A :=
  match n with
  | O => k s
  | S n =>
      match body (fun s' => if (length (rest s') <? length (rest s))%nat
                            then rounds body k n s' else None) s with
      | Some x => Some x
      | None => k s
      end
  end.

Definition close_group (n : nat) (s s' : position) : position :=
  Pos (before s') (rest s') ((n, take (length (rest s) - length (rest s')) (rest s)) :: groups s').

(** The first way to match [r] from [s] after which [k] succeeds. *)
Fixpoint exec {A} (r : re) (k : position -> option A) (s : position) : option A :=
  match r with
  | Chr p => match rest s with
             | c :: t => if p c then k (Pos (Some c) t (groups s)) else None
             | [] => None
             end
  | Emp => k s
  | Cat a b => exec a (exec b k) s
  | Alt a b => match exec a k s with Some x => Some x | None => exec b k s end
  | Star a => rounds (exec a) k (length (rest s)) s
  | Grp n a => exec a (fun s' => k (close_group n s s')) s
  | TextStart => match before s with None => k s | Some _ => None end
  | TextEnd => match rest s with [] => k s | _ :: _ => None end
  | WordEdge => if at_edge s then k s else None
  end.

(** The leftmost match from a position on: how many bytes come before it, and
    where it ends. *)
Fixpoint find_from (r : re) (before : option byte) (s : bytes) : option (nat * position) :=
  match exec r Some (Pos before s []) with
  | Some e => Some (0%nat, e)
  | None => match s with
            | c :: t => '(i, e) ← find_from r (Some c) t; Some (S i, e)
            | [] => None
            end
  end.

(** [re.MatchString] *)
Definition MatchString (r : re) (s : bytes) : bool := bool_decide (is_Some (find_from r None s)).

Definition group (e : position) (n : nat) : bytes :=
  match list_find (fun g => fst g = n) (groups e) with Some (_, g) => snd g | None => [] end.

(** [re.FindStringSubmatch]: the position at the end, whose groups are read
    with [group]. *)
Definition FindStringSubmatch (r : re) (s : bytes) : option position := snd <$> find_from r None s.

(** [re.ReplaceAllStringFunc] with a state threaded through the calls, for
    expressions that do not match the empty text; the fuel is the text's length
    and one more. *)
Fixpoint replace_loop {S} (r : re) (f : S -> bytes -> position -> bytes * S) (fuel : nat)
    (b0 : option byte) (s : bytes) (st : S) : bytes * S :=
  match fuel with
  | O => (s, st)
  | Datatypes.S fuel =>
      match find_from r b0 s with
      | None => (s, st)
      | Some (i, e) =>
          let matched := take (length s - i - length (rest e)) (drop i s) in
          let '(new, st) := f st matched e in
          let '(tail, st) := replace_loop r f fuel (before e) (rest e) st in
          (take i s ++ new ++ tail, st)
      end
  end.

Definition ReplaceAllStringFunc {S} (r : re) (s : bytes) (f : S -> bytes -> position -> bytes * S)
    (st : S) : bytes * S := replace_loop r f (length s + 1) None s st.

(** [re.ReplaceAllString] with a replacement without [$]. *)
Definition ReplaceAllString (r : re) (s new : bytes) : bytes :=
  fst (ReplaceAllStringFunc r s (fun _ _ _ => (new, tt)) tt).

(** ** Shorthands *)

Definition Plus (a : re) : re := Cat a (Star a).
Definition Opt (a : re) : re := Alt a Emp.
Fixpoint upto (n : nat) (a : re) : re := match n with O => Emp | S n => Opt (Cat a (upto n a)) end.
Fixpoint times (n : nat) (a : re) : re := match n with O => Emp | S n => Cat a (times n a) end.
Definition cats (l : list re) : re := foldr Cat Emp l.
Definition lit (s : bytes) : re := cats ((fun c => Chr (byte_eqb c)) <$> s).

(** * What a match is *)

Inductive matches : re -> position -> position -> Prop :=
| m_chr p b c t g : p c = true -> matches (Chr p) (Pos b (c :: t) g) (Pos (Some c) t g)
| m_emp s : matches Emp s s
| m_cat a b s1 s2 s3 : matches a s1 s2 -> matches b s2 s3 -> matches (Cat a b) s1 s3
| m_left a b s s' : matches a s s' -> matches (Alt a b) s s'
| m_right a b s s' : matches b s s' -> matches (Alt a b) s s'
| m_stop a s : matches (Star a) s s
| m_round a s1 s2 s3 : matches a s1 s2 -> (length (rest s2) < length (rest s1))%nat ->
    matches (Star a) s2 s3 -> matches (Star a) s1 s3
| m_group n a s s' : matches a s s' -> matches (Grp n a) s (close_group n s s')
| m_start t g : matches TextStart (Pos None t g) (Pos None t g)
| m_end b g : matches TextEnd (Pos b [] g) (Pos b [] g)
| m_edge s : at_edge s = true -> matches WordEdge s s.
#[export] Hint Constructors matches : bmail.

Lemma exec_sound {A} r : forall (k : position -> option A) s x,
  exec r k s = Some x -> exists s', matches r s s' /\ k s' = Some x.
Proof.
  induction r as [p| |a IHa b IHb|a IHa b IHb|a IHa|n a IHa| | |]; intros k s x E; cbn [exec] in E.
  - destruct s as [b0 [|c t] g]; cbn in E; [done|]. destruct (p c) eqn:Ep; [|done]. eauto with bmail.
  - eauto with bmail.
  - apply IHa in E as (s1 & H1 & E). apply IHb in E as (s2 & H2 & E). eauto with bmail.
  - destruct (exec a k s) as [y|] eqn:Ea.
    + injection E as <-. apply IHa in Ea as (s' & H & E). eauto with bmail.
    + apply IHb in E as (s' & H & E). eauto with bmail.
  - assert (forall n s, rounds (exec a) k n s = Some x ->
      exists s', matches (Star a) s s' /\ k s' = Some x) as Hr; [|by eapply Hr].
    clear s E. induction n as [|n IH]; intros s E; cbn [rounds] in E; [eauto with bmail|].
    destruct (exec a _ s) as [y|] eqn:Ea; [|eauto with bmail]. injection E as ->.
    apply IHa in Ea as (s1 & H1 & E). destruct (Nat.ltb_spec (length (rest s1)) (length (rest s))); [|done].
    apply IH in E as (s2 & H2 & E). eauto with bmail.
  - apply IHa in E as (s' & H & E). eauto with bmail.
  - destruct s as [[c|] t g]; cbn in E; [done|]. eauto with bmail.
  - destruct s as [b0 [|c t] g]; cbn in E; [|done]. eauto with bmail.
  - destruct (at_edge s) eqn:Ee; [|done]. eauto with bmail.
Qed.

Lemma exec_complete {A} r : forall (k : position -> option A) s s' x,
  matches r s s' -> k s' = Some x -> exists y, exec r k s = Some y.
Proof.
  induction r as [p| |a IHa b IHb|a IHa b IHb|a IHa|n a IHa| | |]; intros k s s' x H E; cbn [exec].
  - inversion H as [? ? ? ? ? Hp| | | | | | | | | |]; subst. cbn. rewrite Hp. eauto.
  - inversion H; subst. eauto.
  - inversion H as [| |? ? ? s2 ? H1 H2| | | | | | | |]; subst.
    destruct (IHb _ _ _ _ H2 E) as [y Ey]. by eapply IHa.
  - destruct (exec a k s) as [y|] eqn:Ea; [eauto|].
    inversion H as [| | |? ? ? ? H1|? ? ? ? H1| | | | | |]; subst; [|by eapply IHb].
    destruct (IHa _ _ _ _ H1 E) as [y Ey]. congruence.
  - assert (forall n s, matches (Star a) s s' -> (length (rest s) <= n)%nat ->
      exists y, rounds (exec a) k n s = Some y) as Hr; [|by eapply Hr].
    clear s H. induction n as [|n IH]; intros s H Hn; cbn [rounds].
    + inversion H as [| | | | | |? ? ? ? ? Hlt| | | |]; subst; [by eauto|lia].
    + destruct (exec a _ s) as [y|] eqn:Ea; [by eauto|].
      inversion H as [| | | | | |? ? s2 ? H1 Hlt H2| | | |]; subst; [by eauto|].
      destruct (IH s2 H2 ltac:(lia)) as [y Ey].
      destruct (IHa (fun s' => if (length (rest s') <? length (rest s))%nat
                               then rounds (exec a) k n s' else None) s s2 y H1) as [z Ez]; [|congruence].
      destruct (Nat.ltb_spec (length (rest s2)) (length (rest s))); [done|lia].
  - inversion H as [| | | | | | |? ? ? s1 H1| | |]; subst. by eapply IHa.
  - inversion H; subst. cbn. eauto.
  - inversion H; subst. cbn. eauto.
  - inversion H as [| | | | | | | | | |? He]; subst. rewrite He. eauto.
Qed.

(** A text is matched exactly when some suffix of it begins with a match. *)
Lemma find_from_iff r : forall s b0,
  is_Some (find_from r b0 s) <->
  exists i b e, (b = match i with O => b0 | S j => s !! j end) /\ (i <= length s)%nat /\
    matches r (Pos b (drop i s) []) e.
Proof.
  induction s as [|c t IH]; intros b0; cbn [find_from].
  - destruct (exec r Some (Pos b0 [] [])) as [e|] eqn:E.
    + apply exec_sound in E as (s' & H & _). split; [|by eauto]. intros _. exists 0%nat, b0, s'. by eauto.
    + split; [by intros []|]. intros (i & b & e & -> & Hi & H). destruct i; [|cbn in Hi; lia].
      cbn in H. destruct (exec_complete r Some _ _ e H eq_refl). congruence.
  - destruct (exec r Some (Pos b0 (c :: t) [])) as [e|] eqn:E.
    + apply exec_sound in E as (s' & H & _). split; [|by eauto]. intros _.
      exists 0%nat, b0, s'. cbn. split_and!; [done|lia|done].
    + specialize (IH (Some c)). split.
      * intros [x Hx]. destruct (find_from r (Some c) t) as [[i e]|] eqn:Ef; [|done].
        destruct (proj1 IH ltac:(by eauto)) as (j & b & e' & -> & Hj & H).
        exists (S j). do 2 eexists. cbn. split_and!; [by destruct j|lia|exact H].
      * intros (i & b & e & -> & Hi & H). destruct i as [|i].
        { cbn in H. destruct (exec_complete r Some _ _ e H eq_refl). congruence. }
        destruct (proj2 IH) as [[j e'] Ej].
        { exists i. do 2 eexists. cbn in Hi, H. split_and!; [done|lia|]. by destruct i; cbn in H |- *. }
        rewrite Ej. cbn. eauto.
Qed.

(** For an expression anchored at the start only the whole text counts. *)
Lemma MatchString_anchored r s :
  MatchString (Cat TextStart r) s = true <-> exists e, matches r (Pos None s []) e.
Proof.
  unfold MatchString. rewrite bool_decide_eq_true, find_from_iff. split.
  - intros (i & b & e & Hb & Hi & H).
    inversion H as [| |? ? ? s2 ? H1 H2| | | | | | | |]; subst. inversion H1; subst.
    destruct i as [|i]; [by eauto|]. exfalso.
    assert (is_Some (s !! i)) as [x Hx] by (apply lookup_lt_is_Some; lia).
    rewrite Hx in *. done.
  - intros [e H]. exists 0%nat, None, e. split_and!; [done|lia|]. eauto with bmail.
Qed.

(** ** The texts of an expression without anchors *)

Inductive lang : re -> bytes -> Prop :=
| l_chr p c : p c = true -> lang (Chr p) [c]
| l_emp : lang Emp []
| l_cat a b u v : lang a u -> lang b v -> lang (Cat a b) (u ++ v)
| l_left a b u : lang a u -> lang (Alt a b) u
| l_right a b u : lang b u -> lang (Alt a b) u
| l_stop a : lang (Star a) []
| l_round a u v : lang a u -> u <> [] -> lang (Star a) v -> lang (Star a) (u ++ v)
| l_group n a u : lang a u -> lang (Grp n a) u.
#[export] Hint Constructors lang : bmail.

Fixpoint plain (r : re) : bool :=
  match r with
  | Chr _ | Emp => true
  | Cat a b | Alt a b => plain a && plain b
  | Star a | Grp _ a => plain a
  | TextStart | TextEnd | WordEdge => false
  end.

Lemma matches_lang r s e : matches r s e -> plain r = true -> exists u, rest s = u ++ rest e /\ lang r u.
Proof.
  induction 1 as [p b c t g Hp|s|a b s1 s2 s3 _ IH1 _ IH2|a b s s' _ IH|a b s s' _ IH|a s
    |a s1 s2 s3 _ IH1 Hlt _ IH2|n a s s' _ IH| | |]; cbn [plain]; intros Hr; try done.
  - exists [c]. eauto with bmail.
  - exists []. eauto with bmail.
  - apply andb_true_iff in Hr as [Ha Hb]. destruct (IH1 Ha) as (u & E1 & L1), (IH2 Hb) as (v & E2 & L2).
    exists (u ++ v). rewrite E1, E2, app_assoc. eauto with bmail.
  - apply andb_true_iff in Hr as [Ha Hb]. destruct (IH Ha) as (u & E & L). eauto with bmail.
  - apply andb_true_iff in Hr as [Ha Hb]. destruct (IH Hb) as (u & E & L). eauto with bmail.
  - exists []. eauto with bmail.
  - destruct (IH1 Hr) as (u & E1 & L1), (IH2 Hr) as (v & E2 & L2).
    exists (u ++ v). rewrite E1, E2, app_assoc. split; [done|]. constructor; [done| |done].
    intros ->. cbn in E1. rewrite E1 in Hlt. lia.
  - destruct (IH Hr) as (u & E & L). eauto with bmail.
Qed.

Lemma lang_matches r u : lang r u -> forall b t g, exists e, matches r (Pos b (u ++ t) g) e /\ rest e = t.
Proof.
  induction 1 as [p c Hp| |a b u v _ IH1 _ IH2|a b u _ IH|a b u _ IH|a|a u v _ IH1 Hu _ IH2|n a u _ IH];
    intros b0 t g.
  - eexists. split; [by constructor|done].
  - eexists. split; [constructor|done].
  - rewrite <-app_assoc. destruct (IH1 b0 (v ++ t) g) as ([b1 r1 g1] & M1 & E1). cbn in E1. subst r1.
    destruct (IH2 b1 t g1) as (e & M2 & E2). eauto with bmail.
  - destruct (IH b0 t g) as (e & M & E). eauto with bmail.
  - destruct (IH b0 t g) as (e & M & E). eauto with bmail.
  - eexists. split; [constructor|done].
  - rewrite <-app_assoc. destruct (IH1 b0 (v ++ t) g) as ([b1 r1 g1] & M1 & E1). cbn in E1. subst r1.
    destruct (IH2 b1 t g1) as (e & M2 & E2). exists e. split; [|done]. eapply m_round; [exact M1| |exact M2].
    cbn. rewrite (length_app u). destruct u; [done|cbn; lia].
  - destruct (IH b0 t g) as (e & M & E). eexists. split; [by constructor|done].
Qed.

(** An expression between the anchors matches exactly the texts of its
    language. *)
Lemma MatchString_lang r s : plain r = true ->
  MatchString (Cat TextStart (Cat r TextEnd)) s = true <-> lang r s.
Proof.
  intros Hr. rewrite MatchString_anchored. split.
  - intros [e H]. inversion H as [| |? ? ? s2 ? H1 H2| | | | | | | |]; subst.
    apply (matches_lang _ _ _ H1) in Hr as (u & E & L). inversion H2; subst. cbn in E.
    by rewrite app_nil_r in E; subst.
  - intros L. destruct (lang_matches _ _ L None [] []) as ([b t g] & M & E). cbn in E. subst t.
    rewrite app_nil_r in M. eauto with bmail.
Qed.

(** *** Languages of the shorthands *)

Lemma lang_chr p u : lang (Chr p) u <-> exists c, u = [c] /\ p c = true.
Proof. split; [inversion 1; eauto|]. intros (c & -> & H). by constructor. Qed.

Lemma lang_cat a b u : lang (Cat a b) u <-> exists v w, u = v ++ w /\ lang a v /\ lang b w.
Proof. split; [inversion 1; eauto|]. intros (v & w & -> & ? & ?). by constructor. Qed.

Lemma lang_opt a u : lang (Opt a) u <-> u = [] \/ lang a u.
Proof.
  split.
  - inversion 1 as [| | |? ? ? H1|? ? ? H1| | |]; subst; [by right|]. inversion H1; subst. by left.
  - intros [->|H]; [apply l_right; constructor|by apply l_left].
Qed.

Lemma lang_star a u : lang (Star a) u <-> exists us, u = concat us /\ Forall (fun v => lang a v /\ v <> []) us.
Proof.
  split.
  - intros H. remember (Star a) as r eqn:Er. revert Er.
    induction H as [| | | | | |a' u v H1 _ Hu H2 IH|]; intros [= ->].
    + by exists [].
    + destruct (IH eq_refl) as (us & -> & HF). exists (u :: us). eauto.
  - intros (us & -> & HF). induction HF as [|v us [Hv Hn] _ IH]; cbn; eauto with bmail.
Qed.

Lemma lang_star_chr p u : lang (Star (Chr p)) u <-> forallb p u = true.
Proof.
  rewrite lang_star. split.
  - intros (us & -> & HF). induction HF as [|v us [Hv _] _ IH]; cbn; [done|].
    apply lang_chr in Hv as (c & -> & Hc). cbn. by rewrite Hc.
  - induction u as [|c u IH]; cbn; [by exists []|]. intros [Hc Hu]%andb_true_iff.
    destruct (IH Hu) as (us & -> & HF). exists ([c] :: us). split; [done|].
    constructor; [|done]. split; [by constructor|done].
Qed.

Lemma lang_upto_chr n p u : lang (upto n (Chr p)) u <-> (length u <= n)%nat /\ forallb p u = true.
Proof.
  revert u. induction n as [|n IH]; intros u; cbn [upto].
  - split; [by inversion 1|]. intros [Hl _]. destruct u; [constructor|cbn in Hl; lia].
  - rewrite lang_opt, lang_cat. split.
    + intros [->|(v & w & -> & Hv & Hw)]; [cbn; by split; [lia|]|].
      apply lang_chr in Hv as (c & -> & Hc). apply IH in Hw as [Hl Hw]. cbn. rewrite Hc, Hw. split; [lia|done].
    + intros [Hl Hu]. destruct u as [|c u]; [by left|right]. cbn in Hl, Hu. apply andb_true_iff in Hu as [Hc Hu].
      exists [c], u. split_and!; [done|by constructor|]. apply IH. split; [lia|done].
Qed.
