(* ===== verification/Validate.v ===== *)
(** Input validation: internal/security/validation.go. *)

From S2P Require Import Prelude GoNet FilePath GoStrings Regexp.
Local Open Scope Z_scope.

Inductive validation_error :=
| ErrEmptyEmail | ErrInvalidEmail | ErrEmailTooLong
| ErrPasswordTooShort | ErrPasswordTooWeak
| ErrEmptyDomain | ErrInvalidDomain | ErrDomainTooLong.

(** * The expressions *)

Definition email_char : byte -> bool := fun c => re_alnum c || one_of (bs ".!#$%&'*+/=?^_`{|}~-") c.
Definition inner_char : byte -> bool := fun c => re_alnum c || byte_eqb c "-".

Definition label_re : re :=
  Cat (Chr re_alnum) (Opt (Cat (upto 61 (Chr inner_char)) (Chr re_alnum))).
Definition host_re : re := Cat label_re (Star (Cat (Chr (byte_eqb ".")) label_re)).

Definition domainRegex : re := Cat TextStart (Cat host_re TextEnd).
Definition emailRegex : re :=
  Cat TextStart (Cat (Cat (Plus (Chr email_char)) (Cat (Chr (byte_eqb "@")) host_re)) TextEnd).

Definition emailPattern : re :=
  cats [Plus (Chr (fun c => re_alnum c || one_of (bs "._%+-") c)); Chr (byte_eqb "@");
        Plus (Chr (fun c => re_alnum c || one_of (bs ".-") c)); Chr (byte_eqb ".");
        times 2 (Chr re_alpha); Star (Chr re_alpha)].

Definition between (lo hi : nat) (a : re) : re := Cat (times lo a) (upto (hi - lo) a).

Definition ipv4Pattern : re :=
  let d := between 1 3 (Chr re_digit) in
  let dot := Chr (byte_eqb ".") in
  cats [WordEdge; d; dot; d; dot; d; dot; d; WordEdge].

(** The flag (?i) only matters for the letters a to f. *)
Definition hex_char (c : byte) : bool :=
  re_digit c || one_of (bs "abcdefABCDEF") c.

Definition ipv6Pattern : re :=
  let h := between 1 4 (Chr hex_char) in
  let colon := Chr (byte_eqb ":") in
  Alt (Cat h (times 7 (Cat colon h)))
      (cats [colon; colon; upto 5 (Cat h colon); h]).

Definition injectionChars : list bytes := [[x0a]; [x0d]; [x00]; bs "|"; bs ";"; bs "&"].

(** * The validators; [None] is no error *)

Definition ValidateEmailAddress (addr : bytes) : option validation_error :=
  if bool_decide (addr = []) then Some ErrEmptyEmail
  else if 254 <? Z.of_nat (length addr) then Some ErrEmailTooLong
  else if existsb (contains addr) injectionChars then Some ErrInvalidEmail
  else if negb (count_byte "@" addr =? 1)%nat then Some ErrInvalidEmail
  else
    match split_byte "@" addr with
    | [local; domainPart] =>
        if bool_decide (local = []) then Some ErrInvalidEmail
        else if 64 <? Z.of_nat (length local) then Some ErrInvalidEmail
        else if bool_decide (domainPart = []) then Some ErrInvalidEmail
        else if negb (MatchString emailRegex addr) then Some ErrInvalidEmail
        else None
    | _ => Some ErrInvalidEmail               (* not with one @ *)
    end.

Definition ValidateDomain (d : bytes) : option validation_error :=
  if bool_decide (d = []) then Some ErrEmptyDomain
  else if 253 <? Z.of_nat (length d) then Some ErrDomainTooLong
  else if existsb (contains d) injectionChars then Some ErrInvalidDomain
  else if negb (MatchString domainRegex d) then Some ErrInvalidDomain
  else if negb (contains d (bs ".")) && negb (bool_decide (d = bs "localhost")) then Some ErrInvalidDomain
  else None.

Definition SanitizeLogString (s : bytes) : bytes :=
  let s := ReplaceAllString emailPattern s (bs "[EMAIL]") in
  let s := ReplaceAllString ipv4Pattern s (bs "[IPv4]") in
  ReplaceAllString ipv6Pattern s (bs "[IPv6]").

Section passwords.

(** [unicode.IsLetter(r) || unicode.IsDigit(r)] of a rune outside ASCII. *)
Context (letter_or_digit : bytes -> bool).

Definition rune_special (r : bytes) : bool :=
  match r with
  | [c] => negb (re_alnum c)
  | _ => negb (letter_or_digit r)
  end.

Definition classes (pwd : bytes) : Z :=
  (if ContainsAny pwd (bs "abcdefghijklmnopqrstuvwxyz") then 1 else 0) +
  (if ContainsAny pwd (bs "ABCDEFGHIJKLMNOPQRSTUVWXYZ") then 1 else 0) +
  (if ContainsAny pwd (bs "0123456789") then 1 else 0) +
  (if existsb rune_special (runes pwd) then 1 else 0).

Definition ValidatePassword (pwd : bytes) : option validation_error :=
  if Z.of_nat (length pwd) <? 12 then Some ErrPasswordTooShort
  else if classes pwd <? 2 then Some ErrPasswordTooWeak
  else None.
End passwords.

Example domain_ex1 : ValidateDomain (bs "mail.bmail.ag") = None.
Proof. vm_compute. reflexivity. Qed.
Example domain_ex2 : ValidateDomain (bs "-a.b") = Some ErrInvalidDomain.
Proof. vm_compute. reflexivity. Qed.
Example email_ex1 : ValidateEmailAddress (bs "a.b+c@x-y.org") = None.
Proof. vm_compute. reflexivity. Qed.
Example sanitize_ex : SanitizeLogString (bs "from bob@x.org at 10.0.0.1:25") = bs "from [EMAIL] at [IPv4]:25".
Proof. vm_compute. reflexivity. Qed.

(** A compressed IPv6 address keeps its network prefix. *)
Example sanitize_ipv6 : SanitizeLogString (bs "client 2001:db8:12:34::1") = bs "client 2001:db8:12:34[IPv6]".
Proof. vm_compute. reflexivity. Qed.

(** * What is valid *)

(** A host label: 1 to 63 letters, digits and hyphens, no hyphen at an end. *)
Definition label (l : bytes) : Prop :=
  (1 <= length l <= 63)%nat /\ forallb inner_char l = true /\
  (exists c, head l = Some c /\ re_alnum c = true) /\ (exists c, last l = Some c /\ re_alnum c = true).

Lemma alnum_inner c : re_alnum c = true -> inner_char c = true.
Proof. unfold inner_char. by intros ->. Qed.

Lemma label_lang l : lang label_re l <-> label l.
Proof.
  unfold label_re. rewrite lang_cat. split.
  - intros (v & w & -> & (c & -> & Hc)%lang_chr & Hw). apply lang_opt in Hw as [->|Hw].
    + unfold label. cbn. rewrite (alnum_inner _ Hc). split_and!; [lia|lia|done|by eauto|by eauto].
    + apply lang_cat in Hw as (u & z & -> & Hu & (d & -> & Hd)%lang_chr).
      apply lang_upto_chr in Hu as [Hl Hu]. unfold label.
      change ([c] ++ u ++ [d]) with (c :: (u ++ [d])). cbn [length forallb head].
      rewrite length_app, forallb_app, Hu, (alnum_inner _ Hc), app_comm_cons, last_snoc. cbn.
      rewrite (alnum_inner _ Hd). split_and!; [lia|lia|done|by eauto|by eauto].
  - intros (Hl & Hi & (c & Hc & Ec) & (d & Hd & Ed)). destruct l as [|x l]; [done|]. injection Hc as ->.
    exists [c], l. split_and!; [done|by constructor|]. apply lang_opt.
    destruct l as [|y l _] using rev_ind; [by left|right].
    rewrite app_comm_cons, last_snoc in Hd. injection Hd as ->. cbn [length] in Hl.
    rewrite length_app in Hl. cbn in Hl, Hi. apply andb_true_iff in Hi as [_ Hi].
    rewrite forallb_app in Hi. apply andb_true_iff in Hi as [Hi _].
    apply lang_cat. exists l, [d]. split_and!; [done| |by constructor]. apply lang_upto_chr. split; [lia|done].
Qed.

Lemma inner_not_dot l : forallb inner_char l = true -> "."%byte ∉ l.
Proof.
  intros Hl Hin. rewrite forallb_forall in Hl. apply list_elem_of_In, Hl in Hin. vm_compute in Hin. done.
Qed.

(** Labels joined by dots are the pieces between the dots. *)
Lemma split_dots c l ls : (forall x, x ∈ l :: ls -> c ∉ x) ->
  split_byte c (l ++ concat ((fun x => c :: x) <$> ls)) = l :: ls.
Proof.
  revert l. induction ls as [|x ls IH]; intros l Hn; cbn.
  - rewrite app_nil_r. apply split_byte_none, Hn. by left.
  - rewrite split_byte_app_sep, (split_byte_none _ l) by (apply Hn; by left).
    rewrite IH; [done|]. intros y Hy. apply Hn. by right.
Qed.

Lemma join_dots c s : exists l ls, split_byte c s = l :: ls /\ s = l ++ concat ((fun x => c :: x) <$> ls).
Proof.
  induction s as [|x s (l & ls & Es & E)]; [by exists [], []|]. cbn [split_byte]. rewrite Es.
  destruct (byte_eqb x c) eqn:Ex.
  - apply byte_eqb_eq in Ex as ->. exists [], (l :: ls). cbn. by rewrite <-E.
  - exists (x :: l), ls. cbn. by rewrite <-E.
Qed.

Lemma host_lang d : lang host_re d <-> Forall label (split_byte "." d).
Proof.
  unfold host_re. rewrite lang_cat. split.
  - intros (l & w & -> & Hl%label_lang & (us & -> & HF)%lang_star).
    assert (exists ls, concat us = concat ((fun x => "."%byte :: x) <$> ls) /\ Forall label ls)
      as (ls & -> & Hls).
    { induction HF as [|u us [Hu _] _ (ls & E & Hls)]; [by exists []|].
      apply lang_cat in Hu as (a & b & -> & (c & -> & <-%byte_eqb_eq)%lang_chr & Hb%label_lang).
      exists (b :: ls). cbn. rewrite E. auto. }
    rewrite split_dots; [by constructor|]. intros x Hx. assert (label x) as (_ & Hi & _).
    { apply elem_of_cons in Hx as [->|Hx]; [done|]. by eapply Forall_forall in Hx. }
    by apply inner_not_dot.
  - destruct (join_dots "." d) as (l & ls & -> & E). intros [Hl Hls]%Forall_cons.
    exists l, (concat ((fun x => "."%byte :: x) <$> ls)). split_and!; [done|by apply label_lang|].
    apply lang_star. exists ((fun x => "."%byte :: x) <$> ls). split; [done|].
    apply Forall_fmap. eapply Forall_impl; [exact Hls|]. intros x Hx. split; [|done].
    apply lang_cat. exists ["."%byte], x. split_and!; [done|by constructor|by apply label_lang].
Qed.

Lemma contains_byte s c : contains s [c] = true <-> c ∈ s.
Proof.
  unfold contains. rewrite bool_decide_eq_true. induction s as [|x s IH]; cbn [Index HasPrefix].
  - split; [by intros []|]. by intros ?%elem_of_nil.
  - assert (HasPrefix s [] = true) as -> by by destruct s. rewrite andb_true_r, elem_of_cons.
    destruct (byte_eqb x c) eqn:E.
    + apply byte_eqb_eq in E as ->. split; [by left|by eauto].
    + rewrite fmap_is_Some, IH. split; [by right|]. intros [->|H]; [|done].
      by rewrite (proj2 (byte_eqb_eq x x) eq_refl) in E.
Qed.

(** A byte that no accepted text holds is never found. *)
Lemma no_injection (p : byte -> bool) s : forallb p s = true ->
  forallb (fun b => negb (p b)) (concat injectionChars) = true -> existsb (contains s) injectionChars = false.
Proof.
  intros Hs Hp. apply not_true_iff_false. intros (i & Hi & Hc)%existsb_exists.
  assert (exists b, i = [b] /\ b ∈ concat injectionChars) as (b & -> & Hb).
  { cbn in Hi. repeat destruct Hi as [<-|Hi]; [..|done]; (eexists; split; [reflexivity|]);
      apply (bool_decide_unpack _); vm_compute; exact I. }
  apply contains_byte, list_elem_of_In in Hc. rewrite forallb_forall in Hs.
  rewrite forallb_forall in Hp. apply list_elem_of_In, Hp in Hb. by rewrite (Hs _ Hc) in Hb.
Qed.

Definition host_char (c : byte) : bool := inner_char c || byte_eqb c ".".

Lemma host_chars d : Forall label (split_byte "." d) -> forallb host_char d = true.
Proof.
  destruct (join_dots "." d) as (l & ls & Es & E). rewrite Es, E. intros [Hl Hls]%Forall_cons.
  clear Es E. assert (forall x, label x -> forallb host_char x = true) as Hx.
  { intros x (_ & Hi & _). rewrite forallb_forall in Hi |- *. intros c Hc.
    unfold host_char. by rewrite (Hi c Hc). }
  rewrite forallb_app, (Hx l Hl). cbn. induction Hls as [|x ls Hl' _ IH]; cbn; [done|].
  by rewrite forallb_app, (Hx x Hl'), IH.
Qed.

Lemma dotted d : contains d (bs ".") = (1 <? length (split_byte "." d))%nat.
Proof.
  destruct (join_dots "." d) as (l & ls & Es & E). rewrite Es. destruct ls as [|x ls].
  - cbn. apply not_true_iff_false. intros Hc%contains_byte.
    cbn in E. rewrite app_nil_r in E. subst l.
    assert (forall s, "."%byte ∈ s -> (1 < length (split_byte "." s))%nat) as Hlen.
    { clear. intros s (a & b & ->)%list_elem_of_split. rewrite split_byte_app_sep, length_app.
      pose proof (split_byte_nonempty "." a). pose proof (split_byte_nonempty "." b).
      destruct (split_byte "." a), (split_byte "." b); try done. cbn. lia. }
    apply Hlen in Hc. rewrite Es in Hc. cbn in Hc. lia.
  - cbn. apply contains_byte. rewrite E. apply elem_of_app. right. by left.
Qed.

(** A domain is accepted exactly when it has at most 253 bytes and is a
    sequence of labels joined by dots, of two labels at least or "localhost". *)
Theorem ValidateDomain_accepts_iff d :
  ValidateDomain d = None <->
  (length d <= 253)%nat /\ Forall label (split_byte "." d) /\
  ((1 < length (split_byte "." d))%nat \/ d = bs "localhost").
Proof.
  unfold ValidateDomain, domainRegex. rewrite dotted. case_bool_decide as Hd.
  { subst. split; [done|]. intros (_ & [Hl _]%Forall_cons & _). destruct Hl as [[Hl _] _]. cbn in Hl. lia. }
  destruct (Z.ltb_spec 253 (Z.of_nat (length d))) as [Hl|Hl]; [split; [done|lia]|].
  destruct (existsb _ injectionChars) eqn:Ei.
  { split; [done|]. intros (_ & Hf & _). apply host_chars in Hf.
    by rewrite (no_injection _ _ Hf) in Ei. }
  destruct (MatchString _ d) eqn:Em; cbn [negb].
  - apply MatchString_lang, host_lang in Em; [|done].
    destruct (Nat.ltb_spec 1 (length (split_byte "." d))); cbn [negb andb]; [split; [intros _|done]; split_and!; [lia|done|by left]|].
    case_bool_decide as Hloc; cbn [negb]; [split; [intros _|done]; split_and!; [lia|done|by right]|].
    split; [done|]. intros (_ & _ & [?|?]); [lia|done].
  - split; [done|]. intros (_ & Hf & _). apply not_true_iff_false in Em. destruct Em.
    by apply MatchString_lang, host_lang.
Qed.

Lemma count_byte_split c s : length (split_byte c s) = S (count_byte c s).
Proof.
  unfold count_byte. induction s as [|x s IH]; [done|]. cbn [split_byte]. destruct (byte_eqb x c) eqn:E.
  - apply byte_eqb_eq in E as ->. rewrite filter_cons_True by done. cbn. by rewrite IH.
  - rewrite filter_cons_False; [|intros ->; by rewrite (proj2 (byte_eqb_eq x x) eq_refl) in E].
    rewrite <-IH. destruct (split_byte c s) eqn:Es; [by apply split_byte_nonempty in Es|done].
Qed.

Lemma email_lang a : lang (Cat (Plus (Chr email_char)) (Cat (Chr (byte_eqb "@")) host_re)) a <->
  exists local d, a = local ++ "@"%byte :: d /\ local <> [] /\ forallb email_char local = true /\
    Forall label (split_byte "." d).
Proof.
  unfold Plus. rewrite lang_cat. split.
  - intros (v & w & -> & Hv & Hw). apply lang_cat in Hv as (x & y & -> & (c & -> & Hc)%lang_chr & Hy%lang_star_chr).
    apply lang_cat in Hw as (z & d & -> & (e & -> & <-%byte_eqb_eq)%lang_chr & Hd%host_lang).
    exists ([c] ++ y), d. cbn. by rewrite Hc, Hy.
  - intros (l & d & -> & Hn & Hl & Hd). destruct l as [|c l]; [done|]. cbn in Hl. apply andb_true_iff in Hl as [Hc Hl].
    exists (c :: l), ("@"%byte :: d). split_and!; [done| |].
    + apply lang_cat. exists [c], l. split_and!; [done|by constructor|by apply lang_star_chr].
    + apply lang_cat. exists ["@"%byte], d. split_and!; [done|by constructor|by apply host_lang].
Qed.

Definition local_char (c : byte) : bool := email_char c && negb (one_of (bs "|&") c).

Lemma email_no_at l : forallb email_char l = true -> "@"%byte ∉ l.
Proof. intros Hl Hin. rewrite forallb_forall in Hl. apply list_elem_of_In, Hl in Hin. vm_compute in Hin. done. Qed.

Lemma host_no_at d : forallb host_char d = true -> "@"%byte ∉ d.
Proof. intros Hl Hin. rewrite forallb_forall in Hl. apply list_elem_of_In, Hl in Hin. vm_compute in Hin. done. Qed.

Lemma email_local l t : forallb email_char l = true ->
  existsb (contains (l ++ t)) injectionChars = false -> forallb local_char l = true.
Proof.
  rewrite !forallb_forall. intros Hl Hi c Hc. unfold local_char. rewrite (Hl c Hc). cbn.
  apply negb_true_iff, not_true_iff_false. intros Ho%bool_decide_eq_true.
  apply not_true_iff_false in Hi. destruct Hi. apply existsb_exists. exists [c]. split.
  - repeat apply elem_of_cons in Ho as [->|Ho]; [cbn; tauto..|]. by apply elem_of_nil in Ho.
  - apply contains_byte, elem_of_app. left. by apply list_elem_of_In.
Qed.

Lemma local_email l : forallb local_char l = true -> forallb email_char l = true.
Proof. rewrite !forallb_forall. intros H c Hc. by apply H, andb_true_iff in Hc as [? _]. Qed.

Definition address_char (c : byte) : bool := local_char c || byte_eqb c "@" || host_char c.

Lemma address_chars l d : forallb local_char l = true -> forallb host_char d = true ->
  forallb address_char (l ++ "@"%byte :: d) = true.
Proof.
  intros Hl Hd. rewrite forallb_app. apply andb_true_iff. split; [|cbn [forallb]; apply andb_true_iff; split; [done|]];
    [rewrite forallb_forall in Hl |- *; intros c Hc; unfold address_char; by rewrite (Hl c Hc)|].
  rewrite forallb_forall in Hd |- *. intros c Hc. unfold address_char. rewrite (Hd c Hc). apply orb_true_r.
Qed.

(** An address is accepted exactly when it is [local@domain] with a local
    part of 1 to 64 permitted characters (no control character, no "|", ";" or
    "&"), a domain that is a sequence of labels joined by dots, and at most 254
    bytes. *)
Theorem ValidateEmailAddress_accepts_iff addr :
  ValidateEmailAddress addr = None <->
  (length addr <= 254)%nat /\
  exists local dom, addr = local ++ "@"%byte :: dom /\
    (1 <= length local <= 64)%nat /\ forallb local_char local = true /\ Forall label (split_byte "." dom).
Proof.
  unfold ValidateEmailAddress, emailRegex. case_bool_decide as Ha.
  { subst. split; [done|]. intros (_ & [|] & d & E & _); done. }
  destruct (Z.ltb_spec 254 (Z.of_nat (length addr))) as [Hl|Hl]; [split; [done|lia]|].
  pose proof (count_byte_split "@" addr) as Hc.
  pose proof (MatchString_lang (Cat (Plus (Chr email_char)) (Cat (Chr (byte_eqb "@")) host_re)) addr eq_refl) as Hm.
  rewrite email_lang in Hm.
  split.
  - destruct (existsb _ injectionChars) eqn:Ei; [done|].
    destruct (_ =? 1)%nat; [|done]. cbn [negb].
    destruct (split_byte "@" addr) as [|local [|dom [|]]] eqn:Es; try done.
    destruct (join_dots "@" addr) as (l & ls & E1 & E2). rewrite Es in E1. injection E1 as <- <-.
    cbn in E2. rewrite app_nil_r in E2. case_bool_decide; [done|].
    destruct (Z.ltb_spec 64 (Z.of_nat (length local))) as [Hk|Hk]; [done|]. case_bool_decide; [done|].
    destruct (MatchString _ addr); [|done]. intros _. split; [lia|].
    destruct (proj1 Hm eq_refl) as (l & d & E & Hn & Hf & Hd).
    rewrite E, split_byte_app_sep, (split_byte_none _ l) in Es by by apply email_no_at.
    injection Es as -> Es'. rewrite E in E2. apply app_inv_head in E2. injection E2 as ->.
    exists local, dom. split_and!; [done| |lia| |done]; [destruct local; [done|cbn; lia]|].
    eapply email_local; [done|]. by rewrite E in Ei.
  - intros (_ & local & dom & -> & Hk & Hf & Hd).
    pose proof (local_email _ Hf) as He. pose proof (host_chars _ Hd) as Hh.
    rewrite (no_injection address_char) by (reflexivity || by apply address_chars).
    assert (split_byte "@" (local ++ "@"%byte :: dom) = [local; dom]) as Es.
    { rewrite split_byte_app_sep, (split_byte_none _ local) by by apply email_no_at.
      by rewrite split_byte_none by by apply host_no_at. }
    rewrite Es in Hc |- *. injection Hc as <-. cbn [negb Nat.eqb].
    rewrite (proj2 Hm) by (exists local, dom; split_and!; [done|by intros ->; cbn in Hk; lia|done|done]).
    rewrite (bool_decide_eq_false_2 (local = [])) by (intros ->; cbn in Hk; lia).
    rewrite (proj2 (Z.ltb_ge _ _)) by lia. rewrite bool_decide_eq_false_2; [done|].
    intros ->. apply Forall_cons in Hd as [[[H _] _] _]. cbn in H. lia.
Qed.
