(* ===== verification/Blobs.v ===== *)
(** The object store of message and attachment blobs:
    src/internal/storage/minio.go.

A MinIO account is its objects by key and whether it answers; the package's
counter of reads from the fallback is part of the state.  UUIDs are 16 bytes;
google/uuid's parser and printer are the class [UUIDs]. *)

From stdpp Require Import gmap pretty.
From S2P Require Import Prelude Hex GoNet FilePath Decimal.
Local Open Scope Z_scope.

Class UUIDs := { uuid_Parse : bytes -> option bytes; uuid_String : bytes -> bytes }.

(** A printed UUID parses, holds no "/", and no UUID is written "att". *)
Class UUIDLaws `{UUIDs} := {
  parse_printed u : length u = 16%nat -> uuid_Parse (uuid_String u) = Some u;
  printed_no_slash u : "/"%byte ∉ uuid_String u;
  att_no_uuid : uuid_Parse (bs "att") = None
}.

Record account := mkAccount { objects : gmap bytes bytes; answers : bool }.

Record BlobStore := mkStore {
  client : account;
  fallback : option account;            (* SetFallback *)
  fallbackReadCount : Z
}.

Inductive blob_error := ErrBlobNotFound | ErrStore | ErrRefFormat | ErrRefUser | ErrOwner.

Definition getFrom (c : account) (blobRef : bytes) : result blob_error bytes :=
  if answers c then
    match objects c !! blobRef with Some data => Ok data | None => Err ErrBlobNotFound end
  else Err ErrStore.

Definition count_fallback (bs : BlobStore) : BlobStore :=
  mkStore (client bs) (fallback bs) (fallbackReadCount bs + 1).

Definition download (s : BlobStore) (blobRef : bytes) : result blob_error bytes * BlobStore :=
  match getFrom (client s) blobRef, fallback s with
  | Ok data, _ => (Ok data, s)
  | Err ErrBlobNotFound, Some fb =>
      match getFrom fb blobRef with
      | Ok data => (Ok data, count_fallback s)
      | Err _ => (Err ErrBlobNotFound, s)
      end
  | Err e, _ => (Err e, s)
  end.

(** [client.PutObject] and the key it was given *)
Definition PutObject (s : BlobStore) (key data : bytes) : result blob_error bytes * BlobStore :=
  if answers (client s)
  then (Ok key, mkStore (mkAccount (<[key := data]> (objects (client s))) true) (fallback s) (fallbackReadCount s))
  else (Err ErrStore, s).

(** [strings.SplitN(s, "/", 3)] *)
Definition split3 (s : bytes) : list bytes :=
  match split_byte "/" s with
  | a :: b :: c :: r => [a; b; join_slash (c :: r)]
  | l => l
  end.

Section store.
Context `{UUIDs}.

Definition message_key (tenantID userID messageID : bytes) : bytes :=
  uuid_String tenantID ++ bs "/" ++ uuid_String userID ++ bs "/" ++ uuid_String messageID.

Definition shared_key (tenantID attachmentID : bytes) : bytes :=
  uuid_String tenantID ++ bs "/att/" ++ uuid_String attachmentID.

Definition chunk_of (blobRef : bytes) (chunkIndex : Z) : bytes := blobRef ++ bs "/" ++ bs (pretty chunkIndex).

Definition Upload (s : BlobStore) (tenantID userID messageID data : bytes) :=
  PutObject s (message_key tenantID userID messageID) data.

Definition UploadShared (s : BlobStore) (tenantID attachmentID data : bytes) :=
  PutObject s (shared_key tenantID attachmentID) data.

Definition UploadChunk (s : BlobStore) (tenantID fileID : bytes) (chunkIndex : Z) (data : bytes) :=
  PutObject s (chunk_of (shared_key tenantID fileID) chunkIndex) data.

Definition DownloadVerified (s : BlobStore) (blobRef requestingUserID : bytes) :=
  match split3 blobRef with
  | [_; user; _] =>
      match uuid_Parse user with
      | None => (Err ErrRefUser, s)
      | Some embeddedUserID =>
          if bool_decide (embeddedUserID = requestingUserID) then download s blobRef else (Err ErrOwner, s)
      end
  | _ => (Err ErrRefFormat, s)
  end.

Definition DownloadShared (s : BlobStore) (blobRef : bytes) := download s blobRef.

Definition DownloadChunk (s : BlobStore) (blobRef : bytes) (chunkIndex : Z) :=
  download s (chunk_of blobRef chunkIndex).

Definition Delete (s : BlobStore) (blobRef : bytes) : bool * BlobStore :=
  if answers (client s)
  then (true, mkStore (mkAccount (delete blobRef (objects (client s))) true) (fallback s) (fallbackReadCount s))
  else (false, s).

(** [EnsureBucketWithRetry]: the tries until one succeeds, with the pauses in
    seconds between them; [ok n] says whether try [n] succeeds. *)
Fixpoint ensure_from (ok : nat -> bool) (attempt more : nat) : bool * list Z :=
  if ok attempt then (true, [])
  else match more with
       | O => (false, [])
       | S more => let '(r, pauses) := ensure_from ok (S attempt) more in
                   (r, Z.shiftl 1 (Z.of_nat attempt) :: pauses)
       end.

Definition EnsureBucketWithRetry (ok : nat -> bool) (maxRetries : nat) : bool * list Z :=
  ensure_from ok 0 maxRetries.

End store.

(** * What a read sees *)

(** The object under a key, seen through the fallback. *)
Definition visible (s : BlobStore) (blobRef : bytes) : option bytes :=
  match objects (client s) !! blobRef, fallback s with
  | Some data, _ => Some data
  | None, Some fb => if answers fb then objects fb !! blobRef else None
  | None, None => None
  end.

Lemma download_visible s blobRef data : answers (client s) = true ->
  fst (download s blobRef) = Ok data <-> visible s blobRef = Some data.
Proof.
  intros Ha. unfold download, visible, getFrom. rewrite Ha.
  destruct (objects (client s) !! blobRef); [cbn; split; congruence|].
  destruct (fallback s) as [fb|]; [|done]. destruct (answers fb); [|done].
  destruct (objects fb !! blobRef); cbn; split; congruence.
Qed.

Lemma download_answers s blobRef data s' : download s blobRef = (Ok data, s') -> answers (client s) = true.
Proof.
  unfold download, getFrom. destruct (answers (client s)); [done|]. by destruct (fallback s).
Qed.

Section laws.
Context `{UUIDLaws}.

Lemma printed_inj u v : length u = 16%nat -> length v = 16%nat -> uuid_String u = uuid_String v -> u = v.
Proof. intros Hu Hv E. pose proof (parse_printed u Hu) as P. rewrite E, parse_printed in P by done. by injection P. Qed.

Lemma slash_app x : bs "/" ++ x = "/"%byte :: x.
Proof. done. Qed.

Lemma split_printed u r : split_byte "/" (uuid_String u ++ "/"%byte :: r) = uuid_String u :: split_byte "/" r.
Proof. by rewrite split_byte_app_sep, split_byte_none by apply printed_no_slash. Qed.

Lemma split_last u : split_byte "/" (uuid_String u) = [uuid_String u].
Proof. apply split_byte_none, printed_no_slash. Qed.

Lemma split_message_key t u m : split_byte "/" (message_key t u m) = [uuid_String t; uuid_String u; uuid_String m].
Proof. unfold message_key. by rewrite !slash_app, !split_printed, split_last. Qed.

Lemma split_shared_key t a r : split_byte "/" (shared_key t a ++ r) = uuid_String t :: bs "att" :: split_byte "/" (uuid_String a ++ r).
Proof.
  unfold shared_key. rewrite <-!app_assoc. change (bs "/att/" ++ uuid_String a ++ r)
    with ("/"%byte :: bs "att" ++ "/"%byte :: uuid_String a ++ r).
  rewrite split_printed, split_byte_app_sep. done.
Qed.

Lemma split_shared_att t a : split_byte "/" (shared_key t a) = [uuid_String t; bs "att"; uuid_String a].
Proof. rewrite <-(app_nil_r (shared_key t a)), split_shared_key, app_nil_r, split_last. done. Qed.

Lemma split_chunk t f (i : Z) : split_byte "/" (shared_key t f ++ bs "/" ++ bs (pretty i)) =
  [uuid_String t; bs "att"; uuid_String f; bs (pretty i)].
Proof.
  rewrite split_shared_key, slash_app, split_printed. do 3 f_equal.
  by apply split_byte_none, pretty_Z_avoids.
Qed.

Lemma att_not_printed u : length u = 16%nat -> uuid_String u <> bs "att".
Proof. intros Hu E. pose proof (parse_printed u Hu) as P. rewrite E, att_no_uuid in P. done. Qed.

(** A blob uploaded for a user is read back by that user and refused to
    everyone else, whichever other object the account holds. *)
Theorem owner_reads_blob s t u m data v
    (Ha : answers (client s) = true) (Hu : length u = 16%nat) :
  let '(r, s') := Upload s t u m data in
  r = Ok (message_key t u m) /\
  fst (DownloadVerified s' (message_key t u m) v) = if bool_decide (u = v) then Ok data else Err ErrOwner.
Proof.
  unfold Upload, PutObject. rewrite Ha. split; [done|].
  unfold DownloadVerified, split3. rewrite split_message_key, parse_printed by done.
  case_bool_decide; [|done]. apply download_visible; [done|]. unfold visible. cbn. by rewrite lookup_insert_eq.
Qed.

(** A shared attachment is never read through the ownership check: its
    reference has "att" where the check expects a user. *)
Theorem shared_blob_never_verified s t a v :
  DownloadVerified s (shared_key t a) v = (Err ErrRefUser, s).
Proof.
  unfold DownloadVerified, split3. by rewrite split_shared_att, att_no_uuid.
Qed.

(** The three kinds of object. *)
Inductive blob_name :=
| Message (tenant user message : bytes)
| Shared (tenant attachment : bytes)
| Chunk (tenant file : bytes) (index : Z).

Definition key_of (n : blob_name) : bytes :=
  match n with
  | Message t u m => message_key t u m
  | Shared t a => shared_key t a
  | Chunk t f i => chunk_of (shared_key t f) i
  end.

Definition uuids_of (n : blob_name) : list bytes :=
  match n with Message t u m => [t; u; m] | Shared t a => [t; a] | Chunk t f _ => [t; f] end.

Definition named (n : blob_name) : Prop := Forall (fun u => length u = 16%nat) (uuids_of n).

(** Two objects of the store have the same key only if they are the same
    object: no upload overwrites another message, attachment or chunk. *)
Theorem keys_never_collide a b (Ha : named a) (Hb : named b) (E : key_of a = key_of b) : a = b.
Proof.
  apply (f_equal (split_byte "/")) in E.
  destruct a as [t u m|t a|t f i], b as [t' u' m'|t' a'|t' f' i']; cbn [key_of] in E;
    unfold chunk_of in E; rewrite ?split_message_key, ?split_shared_att, ?split_chunk in E;
    try discriminate E; unfold named in Ha, Hb; cbn [uuids_of] in Ha, Hb.
  all: rewrite !Forall_cons in Ha, Hb.
  - injection E as E1 E2 E3. f_equal; apply printed_inj; tauto.
  - injection E as _ E _. destruct (att_not_printed u); tauto.
  - injection E as _ E _. symmetry in E. destruct (att_not_printed u'); tauto.
  - injection E as E1 E2. f_equal; apply printed_inj; tauto.
  - injection E as E1 E2 E3. apply string_bytes_inj, (inj pretty) in E3. subst. f_equal; apply printed_inj; tauto.
Qed.

(** Deleting a blob is not the end of it while a fallback account is
    attached: the next read is served from the fallback's copy.  Without one it
    is gone. *)
Theorem deleted_blob_resurfaces s blobRef :
  fst (Delete s blobRef) = true ->
  visible (snd (Delete s blobRef)) blobRef =
  match fallback s with Some fb => if answers fb then objects fb !! blobRef else None | None => None end.
Proof.
  unfold Delete. destruct (answers (client s)); [|done]. intros _. unfold visible. cbn. by rewrite lookup_delete_eq.
Qed.
End laws.

(** * Witnesses *)

#[local] Instance toy_uuids : UUIDs :=
  {| uuid_Parse s := u ← hex_parse s; if (length u =? 16)%nat then Some u else None; uuid_String := hex_bytes |}.

#[local] Instance toy_uuid_laws : UUIDLaws.
Proof.
  split.
  - intros u Hu. cbn [uuid_Parse uuid_String toy_uuids]. rewrite hex_parse_bytes. cbn [mbind option_bind]. by rewrite Hu.
  - intros u. by apply hex_bytes_no_byte, (bool_decide_unpack _).
  - done.
Qed.

#[local] Definition amy : bytes := replicate 16 x01.
#[local] Definition bob : bytes := replicate 16 x02.
#[local] Definition empty_store : BlobStore := mkStore (mkAccount ∅ true) None 0.

Lemma owner_reads_blob_witness :
  let '(r, s') := Upload empty_store amy amy bob (bs "mail") in
  r = Ok (message_key amy amy bob) /\
  fst (DownloadVerified s' (message_key amy amy bob) bob) = if bool_decide (amy = bob) then Ok (bs "mail") else Err ErrOwner.
Proof. by apply owner_reads_blob. Defined.

Lemma keys_never_collide_witness : Message amy amy bob = Message amy amy bob.
Proof. apply keys_never_collide; [repeat constructor..|reflexivity]. Defined.

Lemma deleted_blob_resurfaces_witness :
  let s := mkStore (mkAccount ∅ true) (Some (mkAccount {[bs "k" := bs "old"]} true)) 0 in
  visible (snd (Delete s (bs "k"))) (bs "k") = Some (bs "old").
Proof. exact (deleted_blob_resurfaces (mkStore (mkAccount ∅ true) (Some (mkAccount {[bs "k" := bs "old"]} true)) 0) (bs "k") eq_refl). Defined.
