(* ===== verification/KsClient.v ===== *)
(** src/internal/keystore/client.go: the client other enclaves use, its check
    of the keystore's certificate and its request cycle, over a transport; and
    the transport that ends at the server of KeystoreServer.v, with messages
    lost either way.  Shown: a client with a pinned measurement sends nothing
    to anyone else; what a delegation does to the keystore's allowlist
    whatever is lost; a key received is the key stored. *)

From S2P Require Import Prelude SysFS Hex GoStrings KsTypes.
From S2P Require AuditLog Allowlist BreakGlass KeyStore.
From S2P Require Import PeerAuth KeystoreServer.
Import KeyStore(keyEntry, entry_Role, entry_Key, entry_KeyType, entry_CreatedAt).

#[local] Open Scope Z_scope.

(** The errors of the client, by where they arise. *)
Inductive cerr :=
| CNoAddress
| CNoCertificate
| CExtractQuote
| CVerifyQuote
| CMismatch
| CMarshal
| CRoundTrip
| CRead
| CStatus (code : Z) (msg : bytes)
| CDecode.

(** [ClientConfig], without the certificate, and [Client]. *)
Record ClientConfig := {
  ServerAddr : string;
  ExpectedKeystoreMRENCLAVE : MRENCLAVE;
  Timeout : Z
}.

Record Client := {
  serverAddr : string;
  expected : MRENCLAVE;
  client_timeout : Z
}.

Definition NewClient (cfg : ClientConfig) : result cerr Client :=
  if String.eqb (ServerAddr cfg) "" then Err CNoAddress
  else Ok {| serverAddr := ServerAddr cfg; expected := ExpectedKeystoreMRENCLAVE cfg;
             client_timeout := if Timeout cfg =? 0 then 30 * 10 ^ 9 else Timeout cfg |}.

(** A peer over the network, whose state is [St]: the certificates it
    presents, and one POST, giving the status and the body that could be read;
    [None] is any failure to get an answer. *)
Record transport (St : Type) := {
  presented : string -> St -> list bytes;
  exchange : string -> string -> bytes -> St -> option (Z * option bytes) * St
}.
Arguments presented {St}.
Arguments exchange {St}.

(** The zero value a reply is decoded into. *)
Definition zero_GetResponse : GetResponse :=
  {| resp_Key := []; resp_KeyType := ""; resp_CreatedAt := 0 |}.
Definition zero_DelegateResponse : DelegateResponse :=
  {| delegated_Role := ""; delegated_AllowedMRENCLAVE := []; DelegatedAt := 0 |}.
Definition zero_ProvisionResponse : ProvisionResponse :=
  {| provisioned_Role := ""; ProvisionedAt := 0 |}.
Definition zero_ListResponse : ListResponse := {| list_Roles := []; list_AuditLog := [] |}.

Definition max_response : Z := 4 * 1024 * 1024.

Section client.
Context {quote : Type}.
(** [echeck.ExtractQuote], [echeck.VerifyQuote] and [GetQuoteInfo]. *)
Context (ExtractQuote : bytes -> option quote) (VerifyQuote : bytes -> quote -> bool)
  (MREnclave : quote -> MRENCLAVE).
(** The value of the key "error" of a JSON object, or nothing. *)
Context (error_field : bytes -> bytes).
Context `{Json GetRequest, Json DelegateRequest, Json ProvisionRequest, Json RevokeRequest,
  Json ListRequest, Json GetResponse, Json DelegateResponse, Json ProvisionResponse,
  Json ListResponse}.

(** The hook [verify] of [NewClient]. *)
Definition verifyConnection (want : MRENCLAVE) (certs : list bytes) : result cerr unit :=
  match certs with
  | [] => Err CNoCertificate
  | serverCert :: _ =>
      if bool_decide (want = zero32) then Ok tt
      else match ExtractQuote serverCert with
           | None => Err CExtractQuote
           | Some q =>
               if negb (VerifyQuote serverCert q) then Err CVerifyQuote
               else if bool_decide (MREnclave q = want) then Ok tt else Err CMismatch
           end
  end.

Section calls.
Context {St : Type} (net : transport St).

(** [c.httpc.Do]: the handshake with its hook, then the exchange. *)
Definition httpc_Do (c : Client) (path : string) (b : bytes) (st : St) :
    option (Z * option bytes) * St :=
  match verifyConnection (expected c) (presented net (serverAddr c) st) with
  | Err _ => (None, st)
  | Ok _ => exchange net (serverAddr c) path b st
  end.

(** The answer of [do]: [Ok None] leaves [out] as it was. *)
Definition read_answer {Resp : Type} (out : option (bytes -> option Resp))
    (a : option (Z * option bytes)) : result cerr (option Resp) :=
  match a with
  | None => Err CRoundTrip
  | Some (_, None) => Err CRead
  | Some (code, Some full) =>
      let respBody := limit_reader max_response full in
      if 400 <=? code then Err (CStatus code (error_field respBody))
      else if code =? StatusNoContent then Ok None
      else match out with
           | None => Ok None
           | Some decode =>
               match decode respBody with None => Err CDecode | Some r => Ok (Some r) end
           end
  end.

Definition do {Req Resp : Type} `{Json Req} (c : Client) (path : string) (body : Req)
    (out : option (bytes -> option Resp)) (st : St) : result cerr (option Resp) * St :=
  match json_marshal body with
  | None => (Err CMarshal, st)
  | Some b => let '(a, st) := httpc_Do c path b st in (read_answer out a, st)
  end.

(** [var resp R; if err := c.do(...); err != nil {...}; return &resp, nil]. *)
Definition into {R : Type} (zero : R) (r : result cerr (option R)) : result cerr R :=
  match r with Err e => Err e | Ok o => Ok (default zero o) end.

Definition Get (c : Client) (role : Role) (st : St) : result cerr GetResponse * St :=
  let '(r, st) := do c "/keystore/get" (Build_GetRequest role) (Some json_unmarshal) st in
  (into zero_GetResponse r, st).

Definition Delegate (c : Client) (role : Role) (newMRENCLAVE : MRENCLAVE) (st : St) :
    result cerr DelegateResponse * St :=
  let '(r, st) := do c "/keystore/delegate" (Build_DelegateRequest role newMRENCLAVE None)
                    (Some json_unmarshal) st in
  (into zero_DelegateResponse r, st).

Definition DelegateWithBreakGlass (c : Client) (role : Role) (newMRENCLAVE : MRENCLAVE)
    (bg : BreakGlassProof) (st : St) : result cerr DelegateResponse * St :=
  let '(r, st) := do c "/keystore/delegate" (Build_DelegateRequest role newMRENCLAVE (Some bg))
                    (Some json_unmarshal) st in
  (into zero_DelegateResponse r, st).

Definition Provision (c : Client) (role : Role) (key : bytes) (keyType : string)
    (bg : BreakGlassProof) (st : St) : result cerr ProvisionResponse * St :=
  let '(r, st) := do c "/keystore/provision" (Build_ProvisionRequest role key keyType bg)
                    (Some json_unmarshal) st in
  (into zero_ProvisionResponse r, st).

Definition Revoke (c : Client) (role : Role) (oldMRENCLAVE : MRENCLAVE)
    (bg : BreakGlassProof) (st : St) : result cerr unit * St :=
  let '(r, st) := do (Resp := unit) c "/keystore/revoke" (Build_RevokeRequest role oldMRENCLAVE bg)
                    None st in
  (into tt r, st).

Definition List (c : Client) (auditTailSize : Z) (bg : BreakGlassProof) (st : St) :
    result cerr ListResponse * St :=
  let '(r, st) := do c "/keystore/list" (Build_ListRequest bg auditTailSize)
                    (Some json_unmarshal) st in
  (into zero_ListResponse r, st).

End calls.

Lemma verifyConnection_ok want certs :
  verifyConnection want certs = Ok tt <->
  exists cert rest, certs = cert :: rest /\
    (want = zero32 \/
     exists q, ExtractQuote cert = Some q /\ VerifyQuote cert q = true /\ MREnclave q = want).
Proof.
  destruct certs as [|cert rest]; cbn; [by split; [|intros (c & r & E & _)]|].
  split.
  - intros E. exists cert, rest. split; [done|].
    case_bool_decide as Hz; [by left|]. right.
    destruct (ExtractQuote cert) as [q|] eqn:Eq; [|done]. exists q.
    destruct (VerifyQuote cert q) eqn:Ev; cbn in E; [|done]. by case_bool_decide.
  - intros (c & r & [= <- <-] & [->|(q & -> & -> & <-)]).
    + by rewrite bool_decide_eq_true_2.
    + cbn. rewrite (bool_decide_eq_true_2 (MREnclave q = MREnclave q) eq_refl). by case_bool_decide.
Qed.

(** A client that pins a measurement talks to nobody else: when a call has
    any effect on the other side or comes back without an error, the
    certificate presented carries a quote that verifies for it and names
    exactly the pinned measurement. *)
Theorem pinned_client_is_safe {St Req Resp : Type} `{Json Req} (net : transport St) c path
    (body : Req) (out : option (bytes -> option Resp)) st r st' :
  expected c <> zero32 -> do net c path body out st = (r, st') ->
  st' <> st \/ is_ok r = true ->
  exists cert rest q, presented net (serverAddr c) st = cert :: rest /\
    ExtractQuote cert = Some q /\ VerifyQuote cert q = true /\ MREnclave q = expected c.
Proof.
  intros Hz E Hr. unfold do, httpc_Do in E.
  destruct (json_marshal body) as [b|]; [|injection E as <- <-; by destruct Hr].
  destruct (verifyConnection _ _) as [[]|e] eqn:Ev; [|injection E as <- <-; by destruct Hr].
  apply verifyConnection_ok in Ev as (cert & rest & Hc & [?|(q & Hq)]); [done|].
  by exists cert, rest, q.
Qed.

End client.

(** [json.NewEncoder(w).Encode] adds a newline, which the client's decoder
    skips. *)
Class JsonLine (A : Type) `{Json A} :=
  json_line : forall (a : A) b, json_marshal a = Some b -> json_unmarshal (b ++ [x0a]) = Some a.

(** What becomes of one exchange: the request does not arrive, the answer does
    not, its body breaks off, or all goes well. *)
Inductive delivery := RequestLost | ReplyLost | ReplyCut | Delivered.

#[export] Instance delivery_eq_dec : EqDecision delivery.
Proof. solve_decision. Defined.

(** * The transport that ends at the keystore *)

Section wire.
Context `{TEERuntime} `{Json AuditEntry} `{Json (list AuditEntry)} `{!JsonSlice AuditEntry}
  `{Json (gmap string (list string))} `{Json keyEntry}.
Context (sha256 : bytes -> bytes).
Context (ed25519_Verify : bytes -> bytes -> bytes -> bool).
Context `{Json GetRequest, Json DelegateRequest, Json ProvisionRequest, Json RevokeRequest,
  Json ListRequest, Json GetResponse, Json DelegateResponse, Json ProvisionResponse,
  Json ListResponse}.
(** [json] of [map[string]string{"error": msg}]. *)
Context (error_json : errmsg -> bytes).

(** The mux of [New] for a POST: [None] is its 404. *)
Definition route (peer : option peerInfo) (path : string) (b : bytes) : option request :=
  if String.eqb path "/keystore/get" then Some (RGet peer (json_unmarshal b))
  else if String.eqb path "/keystore/delegate" then Some (RDelegate peer (json_unmarshal b))
  else if String.eqb path "/keystore/provision" then Some (RProvision (json_unmarshal b))
  else if String.eqb path "/keystore/revoke" then Some (RRevoke (json_unmarshal b))
  else if String.eqb path "/keystore/list" then Some (RList (json_unmarshal b))
  else None.

(** [writeJSON]: an encoding that fails writes nothing. *)
Definition encode_line {A : Type} `{Json A} (a : A) : bytes :=
  match json_marshal a with Some b => b ++ [x0a] | None => [] end.

Definition encode_body (b : body) : bytes :=
  match b with
  | BNone => []
  | BError m => error_json m ++ [x0a]
  | BGet r => encode_line r
  | BDelegate r => encode_line r
  | BProvision r => encode_line r
  | BList r => encode_line r
  end.

Definition not_found_body : bytes := string_bytes "404 page not found" ++ [x0a].

(** The keystore behind a network: the server and its disk, the peer its TLS
    layer attests the caller to be, the certificate it presents, and what the
    network will do to the exchanges to come. *)
Record keystore_net := mkNet {
  srv : Server;
  disk : world;
  caller : option peerInfo;
  cert_chain : list bytes;
  feed : list (clock * delivery)
}.

Definition answer_of (d : delivery) (code : Z) (b : bytes) : option (Z * option bytes) :=
  match d with
  | RequestLost | ReplyLost => None
  | ReplyCut => Some (code, None)
  | Delivered => Some (code, Some b)
  end.

Definition keystore_exchange (_ path : string) (b : bytes) (n : keystore_net) :
    option (Z * option bytes) * keystore_net :=
  match feed n with
  | [] => (None, n)
  | (now, d) :: f =>
      let quiet := mkNet (srv n) (disk n) (caller n) (cert_chain n) f in
      if bool_decide (d = RequestLost) then (None, quiet)
      else match route (caller n) path b with
           | None => (answer_of d 404 not_found_body, quiet)
           | Some rq =>
               let '((out, s'), w') := serve sha256 ed25519_Verify (srv n) now rq (disk n) in
               (answer_of d (status out) (encode_body (resp_body out)),
                mkNet s' w' (caller n) (cert_chain n) f)
           end
  end.

Definition keystore_transport : transport keystore_net := {|
  presented _ n := cert_chain n;
  exchange := keystore_exchange
|}.

Definition net_allowed (n : keystore_net) (role : Role) (x : MRENCLAVE) : Prop :=
  Allowed_in (srv n) role x.

(** The caller may fetch the role's key. *)
Definition caller_in (n : keystore_net) (role : Role) : Prop :=
  exists p, caller n = Some p /\ net_allowed n role (peer_MRENCLAVE p).

Definition net_inv (n : keystore_net) : Prop := srv_inv sha256 (srv n).

(** How a delegation of [m] for [role] may change the network. *)
Definition delegation_effect (role : Role) (m : MRENCLAVE) (ok : bool) (n n' : keystore_net) : Prop :=
  net_inv n' /\ caller n' = caller n /\
  (forall role' x, net_allowed n role' x -> net_allowed n' role' x) /\
  (forall role' x, net_allowed n' role' x ->
     net_allowed n role' x \/ (role' = role /\ x = m /\ caller_in n role)) /\
  (ok = true -> caller_in n role /\ net_allowed n' role m).

Lemma delegation_effect_none role m n n' :
  net_inv n -> srv n' = srv n -> caller n' = caller n ->
  delegation_effect role m false n n'.
Proof.
  intros Hi Hs Hc. unfold delegation_effect, net_inv, net_allowed. rewrite Hs.
  split_and!; try done. by left.
Qed.

Lemma exchange_delegate n addr role m b a n' :
  net_inv n -> length m = 32%nat ->
  json_marshal (Build_DelegateRequest role m None) = Some b ->
  keystore_exchange addr "/keystore/delegate" b n = (a, n') ->
  delegation_effect role m (match a with Some (c, Some _) => c <? 400 | _ => false end) n n'.
Proof.
  intros Hi Hm Hj E. unfold keystore_exchange in E.
  destruct (feed n) as [|[now d] f]; [injection E as <- <-; by apply delegation_effect_none|].
  case_bool_decide as Hd; [injection E as <- <-; by apply delegation_effect_none|].
  cbn in E. rewrite (json_roundtrip _ _ Hj) in E. cbn in E.
  destruct (caller n) as [p|] eqn:Hp.
  2: { cbn in E. injection E as <- <-. destruct d; by apply delegation_effect_none. }
  destruct (handleDelegate _ _ _ _ _ _ _) as [[out s'] w'] eqn:Eh. injection E as <- <-.
  destruct (handleDelegate_member _ _ _ _ _ (Build_DelegateRequest role m None) _ _ _ _
    Hi Hm eq_refl Eh) as [Hi' [(Hs & Ha & Hx)|[Hs Hx]]]; cbn in Hx.
  - split_and!; [done|done| | |].
    + intros role' x. unfold net_allowed. cbn. rewrite Hx. tauto.
    + intros role' x. unfold net_allowed. cbn. rewrite Hx.
      intros [?|[-> ->]]; [by left|right]. split_and!; [done..|]. by exists p.
    + intros _. split; [by exists p|]. unfold net_allowed. cbn. rewrite Hx. tauto.
  - assert ((status out <? 400) = false) as Hf by lia.
    split_and!; [done|done| | |].
    + intros role' x. unfold net_allowed. cbn. by rewrite Hx.
    + intros role' x. unfold net_allowed. cbn. rewrite Hx. by left.
    + destruct d; cbn; rewrite ?Hf; done.
Qed.

Lemma delegation_effect_weaken role m ok ok' n n' :
  (ok' = true -> ok = true) -> delegation_effect role m ok n n' ->
  delegation_effect role m ok' n n'.
Proof. intros Hok (? & ? & ? & ? & Hy). split_and!; try done. intros E. by apply Hy, Hok. Qed.

Context {quote : Type} (ExtractQuote : bytes -> option quote)
  (VerifyQuote : bytes -> quote -> bool) (MREnclave : quote -> MRENCLAVE)
  (error_field : bytes -> bytes).

(** A call of [Delegate], whatever is lost on the way. *)
Lemma Delegate_effect c role m n r n' :
  net_inv n -> length m = 32%nat ->
  Delegate ExtractQuote VerifyQuote MREnclave error_field keystore_transport c role m n = (r, n') ->
  delegation_effect role m (is_ok r) n n'.
Proof.
  intros Hi Hm E. unfold Delegate, do, httpc_Do in E.
  destruct (json_marshal _) as [b|] eqn:Hj;
    [|injection E as <- <-; by apply delegation_effect_none].
  destruct (verifyConnection _ _ _ _ _);
    [|injection E as <- <-; by apply delegation_effect_none].
  destruct (exchange _ _ _ _ _) as [ans n1] eqn:Ex. injection E as <- <-.
  refine (delegation_effect_weaken _ _ _ _ _ _ _ (exchange_delegate _ _ _ _ _ _ _ Hi Hm Hj Ex)).
  destruct ans as [[code [full|]]|]; cbn; try done.
  destruct (Z.leb_spec 400 code); [done|]. by destruct (Z.ltb_spec code 400); [|lia].
Qed.

(** What [handleGet] makes of an entry. *)
Definition get_answer (e : keyEntry) : GetResponse :=
  {| resp_Key := entry_Key e; resp_KeyType := entry_KeyType e; resp_CreatedAt := entry_CreatedAt e |}.

(** A call of [Get] that succeeds was made by a member of the role, and found
    an entry; unless the encoded answer exceeds what the client reads, it is
    that entry. *)
Lemma Get_effect `{!JsonLine GetResponse} c role n g n' :
  Get ExtractQuote VerifyQuote MREnclave error_field keystore_transport c role n = (Ok g, n') ->
  caller_in n role /\
  exists entry w1, KeyStore.Get sha256 (keys (srv n)) role (disk n) = (Ok entry, w1) /\
    forall b, json_marshal (get_answer entry) = Some b ->
      Z.of_nat (length b) < max_response -> g = get_answer entry.
Proof.
  intros E. unfold Get, do, httpc_Do in E.
  destruct (json_marshal _) as [b|] eqn:Hj; [|done].
  destruct (verifyConnection _ _ _ _ _); [|done].
  destruct (exchange _ _ _ _ _) as [ans n1] eqn:Ex. injection E as Ea <-.
  destruct ans as [[code [full|]]|]; [|done..]. cbn in Ex. unfold keystore_exchange in Ex.
  destruct (feed n) as [|[now d] f]; [done|]. case_bool_decide; [done|]. cbn in Ex.
  rewrite (json_roundtrip _ _ Hj) in Ex.
  destruct (handleGet _ _ _ _ _ _) as [[out s'] w'] eqn:Eh. injection Ex as Ex _.
  assert (code = status out /\ full = encode_body (resp_body out)) as [-> ->].
  { by destruct d; cbn in Ex; simplify_eq. }
  cbn in Ea. destruct (Z.leb_spec 400 (status out)); [done|].
  destruct (handleGet_granted _ _ _ _ _ _ _ _ _ Eh) as (p & req & entry & w1 & Hp & Hr & Ha & Hg & Hb);
    [lia|].
  injection Hr as <-. split; [by exists p|]. exists entry, w1. split; [done|].
  intros bb Hbb Hl. change (Build_GetResponse _ _ _) with (get_answer entry) in Hb.
  rewrite Hb in Ea. cbn in Ea. unfold encode_line in Ea. rewrite Hbb in Ea.
  unfold limit_reader in Ea. rewrite length_app in Ea. cbn in Ea.
  destruct (Z.leb_spec (Z.of_nat (length bb + 1)) max_response); [|lia].
  rewrite (json_line _ _ Hbb) in Ea. by injection Ea.
Qed.

End wire.

(** * Concrete codecs and a client *)

(** A codec whose decoder skips newlines. *)
Definition no_newline (b : bytes) : bytes := filter (fun x => x <> x0a) b.

Lemma no_newline_pos p : no_newline (pos_bytes p) = pos_bytes p.
Proof.
  unfold no_newline. induction p as [p IH|p IH|]; cbn [pos_bytes]; [..|done];
    by rewrite filter_cons_True, IH by done.
Qed.

Program Definition line_json {A : Type} `{Countable A} : Json A := {|
  json_marshal a := Some (pos_bytes (encode a));
  json_unmarshal b := p ← bytes_pos (no_newline b); decode p
|}.
Next Obligation.
  intros A ED C a b [= <-]. rewrite no_newline_pos, bytes_pos_bytes. cbn. apply decode_encode.
Qed.

Lemma line_json_line {A : Type} `{Countable A} : @JsonLine A line_json.
Proof.
  intros a b [= <-]. cbn. unfold no_newline. rewrite filter_app.
  fold (no_newline (pos_bytes (encode a))). rewrite no_newline_pos. cbn [filter list_filter].
  rewrite decide_False by naive_solver. rewrite app_nil_r, bytes_pos_bytes. cbn. apply decode_encode.
Qed.

#[local] Instance GetRequest_eq_dec : EqDecision GetRequest.
Proof. solve_decision. Defined.
#[local] Instance BreakGlassProof_eq_dec : EqDecision BreakGlassProof.
Proof. solve_decision. Defined.
#[local] Instance DelegateRequest_eq_dec : EqDecision DelegateRequest.
Proof. solve_decision. Defined.
#[local] Instance GetResponse_eq_dec : EqDecision GetResponse.
Proof. solve_decision. Defined.
#[local] Instance DelegateResponse_eq_dec : EqDecision DelegateResponse.
Proof. solve_decision. Defined.

#[local, program] Instance GetRequest_countable : Countable GetRequest :=
  inj_countable' get_Role Build_GetRequest _.
Next Obligation. by intros []. Qed.
#[local, program] Instance BreakGlassProof_countable : Countable BreakGlassProof :=
  inj_countable' (fun p => (OperatorPubKeyHex p, Nonce p, SignatureHex p))
    (fun '(a, b, c) => Build_BreakGlassProof a b c) _.
Next Obligation. by intros []. Qed.
#[local, program] Instance DelegateRequest_countable : Countable DelegateRequest :=
  inj_countable' (fun d => (delegate_Role d, NewMRENCLAVE d, delegate_BreakGlass d))
    (fun '(a, b, c) => Build_DelegateRequest a b c) _.
Next Obligation. by intros []. Qed.
#[local, program] Instance GetResponse_countable : Countable GetResponse :=
  inj_countable' (fun g => (resp_Key g, resp_KeyType g, resp_CreatedAt g))
    (fun '(a, b, c) => Build_GetResponse a b c) _.
Next Obligation. by intros []. Qed.
#[local, program] Instance DelegateResponse_countable : Countable DelegateResponse :=
  inj_countable' (fun g => (delegated_Role g, delegated_AllowedMRENCLAVE g, DelegatedAt g))
    (fun '(a, b, c) => Build_DelegateResponse a b c) _.
Next Obligation. by intros []. Qed.

Definition json_GetRequest : Json GetRequest := line_json.
Definition json_DelegateRequest : Json DelegateRequest := line_json.
Definition json_GetResponse : Json GetResponse := line_json.
Lemma json_GetResponse_line : @JsonLine GetResponse json_GetResponse.
Proof. exact line_json_line. Qed.
Definition json_DelegateResponse : Json DelegateResponse := line_json.

(** A codec that refuses everything, for messages a demonstration never sends. *)
Program Definition no_json (A : Type) : Json A := {|
  json_marshal _ := None;
  json_unmarshal _ := None
|}.
Next Obligation. done. Qed.

#[local] Definition demo_pin : MRENCLAVE := replicate 32 x07.

(** A peer that counts the requests it gets. *)
#[local] Definition counting_peer : transport nat := {|
  presented _ _ := [demo_pin];
  exchange _ _ _ n := (Some (204, Some []), S n)
|}.

#[local] Definition demo_client : Client :=
  {| serverAddr := "127.0.0.1:8094"; expected := demo_pin; client_timeout := 1 |}.

Lemma pinned_client_is_safe_witness :
  exists cert rest q, presented counting_peer (serverAddr demo_client) 0%nat = cert :: rest /\
    Some cert = Some q /\ bool_decide (cert = q) = true /\ q = demo_pin.
Proof.
  apply (pinned_client_is_safe (quote := bytes) Some (fun c q => bool_decide (c = q)) (fun q => q)
    (fun b => b) (H8 := json_GetRequest) counting_peer demo_client "/keystore/get"
    (Build_GetRequest "r") (None : option (bytes -> option unit)) 0%nat (Ok None) 1%nat).
  - discriminate.
  - vm_compute. reflexivity.
  - left. discriminate.
Defined.
