(* ===== verification/Tee.v ===== *)
(** internal/tee: keys sealed to disk (keys.go), the attested TLS certificate
    and the staged key of a rotation (tls.go, tls_ego.go), and the client that
    checks another enclave's quote (enclave_client.go).  Shown: a sealed key is
    found again by every later start that can read and unseal the file, and
    what happens to it otherwise; the key in the DANE record is the sealed one
    whatever certificate file the host provides; a client pins the signer. *)

From S2P Require Import Prelude SysFS Hex.

#[local] Open Scope Z_scope.

(** * keys.go *)

(** [os.WriteFile]: truncate, write, close. *)
Definition write_file (p : path) (b : bytes) : IO bool :=
  opened ← sys_open_trunc p;
  if negb opened then mret false else
  written ← sys_write p b;
  closed ← sys_close;
  mret (written && closed).

Inductive tee_err := TGenerate | TSeal | TMkdir | TWrite | TRename | TMarshal | TParse | TCert
  | TReadCert | TNoCert | TMismatch.

Inductive load_log := Unsealed | Persisted | NotPersisted.

Section sealing.
(** [runtime.Seal] and [runtime.Unseal], or their Unique variants. *)
Context (Seal : N -> bytes -> option bytes) (Unseal : bytes -> option bytes).

(** What a read of the sealed file yields: the key, when the bytes are there
    and unseal. *)
Definition unsealed (r : read_result) : option bytes :=
  match r with
  | ReadOk b => if (length b =? 0)%nat then None else Unseal b
  | _ => None
  end.

(** [LoadOrSealBytes], with what it logs beside the key: a write that fails is
    no error. *)
Definition LoadOrSealBytes (p : path) (generate : IO (option bytes)) :
    IO (result tee_err (bytes * load_log)) :=
  r ← sys_read p;
  match unsealed r with
  | Some plaintext => mret (Ok (plaintext, Unsealed))
  | None =>
      k ← generate;
      match k with
      | None => mret (Err TGenerate)
      | Some keyBytes =>
          n ← fresh_entropy;
          match Seal n keyBytes with
          | None => mret (Err TSeal)
          | Some sealed =>
              ok ← write_file p sealed;
              mret (Ok (keyBytes, if (ok : bool) then Persisted else NotPersisted))
          end
      end
  end.

(** The file holds a sealing of [k]. *)
Definition holds (p : path) (k : bytes) (m : files) : Prop :=
  exists f, m !! p = Some f /\ content f <> [] /\ Unseal (content f) = Some k.

Lemma load_sealed p generate k w :
  holds p k (fs w) -> head (oracle w) = None \/ head (oracle w) = Some Done ->
  exists w', LoadOrSealBytes p generate w = (Ok (k, Unsealed), w') /\ fs w' = fs w.
Proof.
  intros (f & Hf & Hne & Hu) Ho. unfold LoadOrSealBytes, mbind, io_bind, sys_read.
  rewrite Hf. unfold take_outcome.
  destruct (content f) as [|b c] eqn:Ec; [done|].
  destruct (oracle w) as [|[|n] os]; cbn in *; rewrite ?Ec; cbn; rewrite ?Hu.
  - by exists w.
  - by eexists.
  - by destruct Ho.
Qed.

(** A write that reports success leaves the bytes. *)
Lemma write_file_ok p b w w' :
  write_file p b w = (true, w') -> fs w' !! p = Some (mkFile b false).
Proof.
  unfold write_file, sys_open_trunc, sys_write, sys_close, mbind, io_bind, mret, io_ret,
    take_outcome, set_fs.
  destruct w as [m [|[|a] [|[|a'] [|[|a''] os]]] en h]; cbn; intros E; simplify_eq;
    apply lookup_insert_eq.
Qed.

End sealing.

(** The two functions of keys.go differ in the sealing only. *)
Class Sealings := {
  Seal : N -> bytes -> option bytes;
  Unseal : bytes -> option bytes;
  SealU : N -> bytes -> option bytes;
  UnsealU : bytes -> option bytes
}.

(** What SGX sealing promises: a sealing is not empty and unseals to what was
    sealed, under the same identity. *)
Class SealingLaws `{Sealings} := {
  seal_unseal n k c : Seal n k = Some c -> c <> [] /\ Unseal c = Some k;
  sealu_unseal n k c : SealU n k = Some c -> c <> [] /\ UnsealU c = Some k
}.

Section keys.
Context `{SealingLaws}.

(** [LoadOrSealUniqueBytes]. *)
Definition LoadOrSealUniqueBytes (p : path) (generate : IO (option bytes)) :
    IO (result tee_err (bytes * load_log)) :=
  LoadOrSealBytes SealU UnsealU p generate.

Definition LoadOrSeal (p : path) (generate : IO (option bytes)) :
    IO (result tee_err (bytes * load_log)) :=
  LoadOrSealBytes Seal Unseal p generate.

(** How a start leaves the file: it read the sealed key, or it made a new one
    and wrote it, or tried to. *)
Lemma load_or_seal_cases p generate w k log w' :
  LoadOrSeal p generate w = (Ok (k, log), w') ->
  match log with
  | Unsealed => holds Unseal p k (fs w) /\ fs w' = fs w
  | Persisted => unsealed Unseal (sys_read p w).1 = None /\ holds Unseal p k (fs w') /\
      (generate (sys_read p w).2).1 = Some k
  | NotPersisted => unsealed Unseal (sys_read p w).1 = None
  end.
Proof.
  unfold LoadOrSeal, LoadOrSealBytes, mbind, io_bind.
  destruct (sys_read p w) as [r w1] eqn:Er. cbn [fst snd].
  destruct (unsealed Unseal r) as [k0|] eqn:Eu.
  - intros [= <- <- <-]. unfold sys_read in Er. destruct r as [b| |]; cbn in Eu; try done.
    destruct (fs w !! p) as [f|] eqn:Ef; [|done]. unfold take_outcome in Er.
    destruct (oracle w) as [|[|n] os]; try done; injection Er as <- <-;
      (split; [|done]); exists f; by destruct (content f).
  - destruct (generate w1) as [[k1|] w2] eqn:Eg; [|done]. cbn.
    destruct (Seal _ k1) as [c|] eqn:Es; [|done].
    destruct (write_file p c _) as [ok w4] eqn:Ew. intros [= <- <- <-].
    destruct ok; [|done]. split; [done|]. split; [|done].
    apply write_file_ok in Ew. apply seal_unseal in Es as [Hne Hu]. by exists (mkFile c false).
Qed.

(** A key lasts: when a start read the key from its file, or made it and
    reported it persisted, every later start that finds the file as it was
    left, and can read it, returns that key and writes nothing. *)
Theorem sealed_key_lasts p generate generate' w k log w' w2 :
  LoadOrSeal p generate w = (Ok (k, log), w') -> log <> NotPersisted ->
  fs w2 !! p = fs w' !! p -> head (oracle w2) = None \/ head (oracle w2) = Some Done ->
  exists w3, LoadOrSeal p generate' w2 = (Ok (k, Unsealed), w3) /\ fs w3 = fs w2.
Proof.
  intros E Hl Hsame Ho. apply (load_sealed Seal); [|done].
  assert (holds Unseal p k (fs w')) as (f & Hf & Hk).
  { apply load_or_seal_cases in E. destruct log; [|tauto|done]. by destruct E as [? ->]. }
  exists f. by rewrite Hsame.
Qed.

(** A sealed key is lost when its file cannot be read once: the start goes on
    with a new key, and the file now holds that one. *)
Theorem unreadable_key_replaced p generate w k f n os k' w2 c :
  fs w !! p = Some f -> Unseal (content f) = Some k -> oracle w = Failed n :: os ->
  generate (mkWorld (fs w) os (entropy w) (history w)) = (Some k', w2) ->
  oracle w2 = [] -> Seal (entropy w2) k' = Some c ->
  exists w', LoadOrSeal p generate w = (Ok (k', Persisted), w') /\ holds Unseal p k' (fs w').
Proof.
  intros Hf Hu Ho Hg Ho2 Hs. destruct (seal_unseal _ _ _ Hs) as [Hne Hun].
  unfold LoadOrSeal, LoadOrSealBytes, mbind, io_bind, sys_read. rewrite Hf.
  unfold take_outcome. rewrite Ho. cbn [unsealed]. rewrite Hg. cbn. rewrite Hs.
  unfold write_file, sys_open_trunc, sys_write, sys_close, mbind, io_bind, mret, io_ret,
    take_outcome, set_fs.
  cbn. rewrite Ho2. cbn. eexists. split; [done|]. exists (mkFile c false).
  split; [apply lookup_insert_eq|done].
Qed.

End keys.

(** * tls.go and tls_ego.go *)

(** [certPath]: LETSENCRYPT_CERT_PATH and what its file holds, if it is set and
    if it can be read. *)
Abbreviation le_file := (option (option bytes)) (only parsing).

Section tls.
Context {Priv Pub : Type}.
(** crypto/x509: parsing a private key, the public half, its SubjectPublicKeyInfo,
    the attestation (or self-signed) certificate made for a key and a host,
    the SubjectPublicKeyInfo inside a certificate; the blocks of a PEM file. *)
Context (ParsePrivateKey : bytes -> option Priv) (Public : Priv -> Pub)
  (MarshalPKIXPublicKey : Pub -> option bytes)
  (CreateCertificate : string -> Priv -> option bytes)
  (ParseCertificate : bytes -> option bytes)
  (pem_blocks : bytes -> list (string * bytes)).

Record tls_cert := { chain : list bytes; cert_key : Priv; leaf_spki : bytes }.

Definition loadLECert (file : option bytes) (priv : Priv) : result tee_err tls_cert :=
  match file with
  | None => Err TReadCert
  | Some certPEM =>
      match snd <$> filter (fun b => b.1 = "CERTIFICATE"%string) (pem_blocks certPEM) with
      | [] => Err TNoCert
      | (c0 :: _) as chain =>
          match ParseCertificate c0 with
          | None => Err TParse
          | Some spki =>
              match MarshalPKIXPublicKey (Public priv) with
              | None => Err TMarshal
              | Some sealedSPKI =>
                  if bool_decide (sealedSPKI = spki)
                  then Ok {| chain := chain; cert_key := priv; leaf_spki := spki |}
                  else Err TMismatch
              end
          end
      end
  end.

(** [buildAttestationTLSConfig]; a certificate file that does not load leaves
    the attestation certificate. *)
Definition buildAttestationTLSConfig (hostname : string) (keyDER : bytes) (le : le_file) :
    result tee_err (tls_cert * bytes) :=
  match ParsePrivateKey keyDER with
  | None => Err TParse
  | Some priv =>
      match CreateCertificate hostname priv with
      | None => Err TCert
      | Some certDER =>
          match ParseCertificate certDER with
          | None => Err TParse
          | Some spki =>
              let own := {| chain := [certDER]; cert_key := priv; leaf_spki := spki |} in
              let served := match le with
                            | None => own
                            | Some f => match loadLECert f priv with Ok c => c | Err _ => own end
                            end in
              Ok (served, leaf_spki served)
          end
      end
  end.

Lemma buildAttestationTLSConfig_spki hostname keyDER le cert spki :
  (forall h p der, CreateCertificate h p = Some der ->
     ParseCertificate der = MarshalPKIXPublicKey (Public p)) ->
  buildAttestationTLSConfig hostname keyDER le = Ok (cert, spki) ->
  exists priv, ParsePrivateKey keyDER = Some priv /\ cert_key cert = priv /\
    leaf_spki cert = spki /\ MarshalPKIXPublicKey (Public priv) = Some spki.
Proof.
  intros Hlaw E. unfold buildAttestationTLSConfig in E.
  destruct (ParsePrivateKey keyDER) as [priv|]; [|done].
  destruct (CreateCertificate hostname priv) as [der|] eqn:Ec; [|done].
  destruct (ParseCertificate der) as [spki0|] eqn:Ep; [|done].
  apply Hlaw in Ec. rewrite Ep in Ec. exists priv. split; [done|].
  destruct le as [f|]; [|injection E as <- <-; by split_and!].
  destruct (loadLECert f priv) as [c|e] eqn:El; [|injection E as <- <-; by split_and!].
  injection E as <- <-. unfold loadLECert in El. destruct f as [pem|]; [|done].
  destruct (snd <$> _) as [|c0 cs]; [done|]. destruct (ParseCertificate c0) as [s|]; [|done].
  destruct (MarshalPKIXPublicKey _) as [sealed|] eqn:Em; [|done].
  case_bool_decide as Hs; [|done]. injection El as <-. cbn. subst s. by split_and!.
Qed.

Section config.
Context `{SealingLaws}.

Definition GenerateServerTLSConfig (p : path) (hostname : string) (generate : IO (option bytes))
    (le : le_file) : IO (result tee_err (tls_cert * bytes * load_log)) :=
  r ← LoadOrSeal p generate;
  match r with
  | Err e => mret (Err e)
  | Ok (keyDER, log) =>
      match buildAttestationTLSConfig hostname keyDER le with
      | Err e => mret (Err e)
      | Ok (cert, spki) => mret (Ok (cert, spki, log))
      end
  end.

(** [GenerateServerTLSConfigUnique]: the key is bound to this very build. *)
Definition GenerateServerTLSConfigUnique (p : path) (hostname : string)
    (generate : IO (option bytes)) (le : le_file) : IO (result tee_err (tls_cert * bytes * load_log)) :=
  r ← LoadOrSealUniqueBytes p generate;
  match r with
  | Err e => mret (Err e)
  | Ok (keyDER, log) =>
      match buildAttestationTLSConfig hostname keyDER le with
      | Err e => mret (Err e)
      | Ok (cert, spki) => mret (Ok (cert, spki, log))
      end
  end.

(** The key the world sees is the sealed one, and stays: the certificate
    served, whatever file the host puts in its place, carries the public half
    of the sealed key; and once that key is on disk, every later start that can
    read the file serves the same key, so a published DANE record keeps
    matching. *)
Theorem served_key_is_sealed_key p hostname generate le w cert spki log w' :
  (forall h k der, CreateCertificate h k = Some der ->
     ParseCertificate der = MarshalPKIXPublicKey (Public k)) ->
  GenerateServerTLSConfig p hostname generate le w = (Ok (cert, spki, log), w') ->
  leaf_spki cert = spki /\ MarshalPKIXPublicKey (Public (cert_key cert)) = Some spki /\
  (log <> NotPersisted ->
   forall hostname2 generate2 le2 w2 cert2 spki2 log2 w3,
     fs w2 !! p = fs w' !! p -> head (oracle w2) = None \/ head (oracle w2) = Some Done ->
     GenerateServerTLSConfig p hostname2 generate2 le2 w2 = (Ok (cert2, spki2, log2), w3) ->
     cert_key cert2 = cert_key cert /\ spki2 = spki /\ fs w3 = fs w2).
Proof.
  intros Hlaw E. unfold GenerateServerTLSConfig, mbind, io_bind in E.
  destruct (LoadOrSeal p generate w) as [[[k log0]|e] w1] eqn:El; [|done].
  destruct (buildAttestationTLSConfig hostname k le) as [[c s]|e] eqn:Eb; [|done].
  injection E as <- <- <- <-.
  destruct (buildAttestationTLSConfig_spki _ _ _ _ _ Hlaw Eb) as (priv & Hp & Hk & Hs & Hm).
  split; [done|]. split; [by rewrite Hk|].
  intros Hl h2 g2 le2 w2 c2 s2 log2 w3 Hsame Ho E2.
  assert (holds Unseal p k (fs w2)) as Hh.
  { apply load_or_seal_cases in El. destruct log0; [|destruct El as (_ & Hh & _)|done].
    - destruct El as [(f & Hf & Hh) Hfs]. exists f. by rewrite Hsame, Hfs.
    - destruct Hh as (f & Hf & Hh). exists f. by rewrite Hsame. }
  destruct (load_sealed Seal Unseal p g2 k w2 Hh Ho) as (w4 & Hload & Hfs).
  unfold GenerateServerTLSConfig, mbind, io_bind, LoadOrSeal in E2. rewrite Hload in E2.
  destruct (buildAttestationTLSConfig h2 k le2) as [[c3 s3]|e] eqn:Eb2; [|done].
  injection E2 as <- <- _ <-.
  destruct (buildAttestationTLSConfig_spki _ _ _ _ _ Hlaw Eb2) as (priv2 & Hp2 & Hk2 & Hs2 & Hm2).
  rewrite Hp in Hp2. injection Hp2 as <-. rewrite Hm in Hm2. injection Hm2 as <-.
  by rewrite Hk, Hk2.
Qed.

Context (sha256 : bytes -> bytes).

(** [sealAndWriteKey], the body of [GenerateAndSealNewTLSKey*]. *)
Definition sealAndWriteKey (keyBytes : bytes) (pub : Pub) (outPath : path) :
    IO (result tee_err bytes) :=
  n ← fresh_entropy;
  match Seal n keyBytes with
  | None => mret (Err TSeal)
  | Some sealed =>
      made ← sys_mkdir;
      if negb made then mret (Err TMkdir) else
      written ← write_file (tmp_of outPath) sealed;
      if negb written then mret (Err TWrite) else
      renamed ← sys_rename (tmp_of outPath) outPath;
      if negb renamed then _ ← sys_remove (tmp_of outPath); mret (Err TRename) else
      match MarshalPKIXPublicKey pub with
      | None => mret (Err TMarshal)
      | Some spki => mret (Ok (sha256 spki))
      end
  end.

(** A staged key reported with its hash is in place, and the next start serves
    it; but the file was never synced, so a crash may leave anything there. *)
Theorem staged_key_not_durable keyBytes pub outPath w h w' :
  sealAndWriteKey keyBytes pub outPath w = (Ok h, w') ->
  holds Unseal outPath keyBytes (fs w') /\
  (exists spki, MarshalPKIXPublicKey pub = Some spki /\ h = sha256 spki) /\
  forall b, exists m, crash (fs w') m /\ m !! outPath = Some (mkFile b true).
Proof.
  unfold sealAndWriteKey, mbind, io_bind. intros E. destruct (fresh_entropy w) as [n w1].
  destruct (Seal n keyBytes) as [c|] eqn:Es; [|done]. apply seal_unseal in Es as [Hne Hu].
  destruct (sys_mkdir w1) as [[] w2]; [|done]. cbn [negb] in E.
  destruct (write_file _ c w2) as [[] w3] eqn:Ew; [|done]. apply write_file_ok in Ew. cbn [negb] in E.
  destruct (sys_rename _ outPath w3) as [renamed w4] eqn:Er.
  assert (renamed = true -> fs w4 !! outPath = Some (mkFile c false)) as Hren.
  { unfold sys_rename, mbind, io_bind, take_outcome, set_fs, mret, io_ret in Er.
    destruct (oracle w3) as [|[|k] os]; cbn in Er; injection Er as <- <-; try done; intros _; cbn;
      unfold move_file; rewrite Ew; apply lookup_insert_eq. }
  destruct renamed; cbn [negb] in E.
  2: { by destruct (sys_remove _ w4). }
  destruct (MarshalPKIXPublicKey pub) as [spki|]; [|done]. injection E as <- <-.
  specialize (Hren eq_refl). split; [by exists (mkFile c false)|]. split; [by exists spki|].
  intros b. exists (<[outPath := mkFile b true]> (sync_file <$> fs w4)).
  split; [|apply lookup_insert_eq]. intros q. destruct (decide (q = outPath)) as [->|Hq].
  - rewrite Hren, lookup_insert_eq. cbn. by exists b.
  - rewrite lookup_insert_ne, lookup_fmap by done. destruct (fs w4 !! q) as [f|]; cbn; [|done].
    destruct f as [bs d]. unfold sync_file. cbn. destruct d; [done|]. by exists bs.
Qed.

End config.
End tls.

(** * enclave_client.go *)

Section client.
Context {quote : Type} (ExtractQuote : bytes -> option quote) (VerifyQuote : bytes -> quote -> bool)
  (MRSigner : quote -> bytes).

(** The hook of [NewEnclaveClient]; [true]: the connection goes on. *)
Definition verifyEnclaveConnection (expectedMRSigner : string) (certs : list bytes) : bool :=
  match certs with
  | [] => false
  | cert :: _ =>
      match ExtractQuote cert with
      | None => false
      | Some q =>
          if negb (VerifyQuote cert q) then false
          else if String.eqb expectedMRSigner "" then true
          else String.eqb (hex_EncodeToString (MRSigner q)) expectedMRSigner
      end
  end.

Definition enclave_client_accepts (expectedMRSigner : string) (certs : list bytes) : bool :=
  if String.eqb expectedMRSigner "" then true
  else verifyEnclaveConnection expectedMRSigner certs.

(** With a signer configured, a server is accepted exactly when its certificate
    carries a quote that verifies for it and names that signer; without one,
    every server is. *)
Theorem enclave_client_accepts_iff signer certs :
  enclave_client_accepts signer certs = true <->
  signer = ""%string \/
  exists cert rest q, certs = cert :: rest /\ ExtractQuote cert = Some q /\
    VerifyQuote cert q = true /\ hex_EncodeToString (MRSigner q) = signer.
Proof.
  unfold enclave_client_accepts. destruct (String.eqb_spec signer "") as [->|Hn].
  { split; [by left|done]. }
  unfold verifyEnclaveConnection. rewrite (proj2 (String.eqb_neq signer "") Hn).
  destruct certs as [|cert rest]; [split; [done|by intros [?|(c & r & q & E & _)]]|].
  split.
  - intros E. right. exists cert, rest. destruct (ExtractQuote cert) as [q|]; [|done]. exists q.
    destruct (VerifyQuote cert q); [|done]. by apply String.eqb_eq in E.
  - intros [?|(c & r & q & [= <- <-] & -> & -> & <-)]; [done|]. apply String.eqb_refl.
Qed.

End client.

(** * The properties at concrete inputs *)

#[local] Instance marker_sealings : Sealings := {|
  Seal _ p := Some (x53 :: p); Unseal := marker_unseal;
  SealU _ p := Some (x55 :: p);
  UnsealU c := match c with x55 :: p => Some p | _ => None end
|}.

#[local] Instance marker_sealing_laws : SealingLaws.
Proof. by split; intros n k c [= <-]. Qed.

#[local] Definition key_path : path := ("/sealed", "tls.bin")%string.
#[local] Definition draw (k : bytes) : IO (option bytes) := fun w => (Some k, w).
#[local] Definition fresh_box : world := mkWorld ∅ [] 0 [].
#[local] Definition first_start : world := (LoadOrSeal key_path (draw [x01; x02]) fresh_box).2.

Lemma sealed_key_lasts_witness :
  exists w3, LoadOrSeal key_path (draw [x09]) (mkWorld (fs first_start) [Done] 7 []) =
      (Ok ([x01; x02], Unsealed), w3) /\ fs w3 = fs first_start.
Proof.
  apply (sealed_key_lasts key_path (draw [x01; x02]) (draw [x09]) fresh_box [x01; x02] Persisted
    first_start (mkWorld (fs first_start) [Done] 7 [])).
  - reflexivity.
  - discriminate.
  - reflexivity.
  - right. reflexivity.
Defined.

Lemma unreadable_key_replaced_witness :
  exists w', LoadOrSeal key_path (draw [x09]) (mkWorld (fs first_start) [Failed 0] 7 []) =
      (Ok ([x09], Persisted), w') /\ holds Unseal key_path [x09] (fs w').
Proof.
  apply (unreadable_key_replaced key_path (draw [x09])
    (mkWorld (fs first_start) [Failed 0] 7 []) [x01; x02] (mkFile [x53; x01; x02] false) 0 []
    [x09] (mkWorld (fs first_start) [] 7 []) [x53; x09]).
  - vm_compute. reflexivity.
  - reflexivity.
  - reflexivity.
  - reflexivity.
  - reflexivity.
  - reflexivity.
Defined.

(** Keys whose public half is the key; a host-provided file for another key. *)
#[local] Definition make_cert (h : string) (k : bytes) : option bytes := Some k.
#[local] Definition demo_blocks (b : bytes) : list (string * bytes) := [("CERTIFICATE"%string, b)].

#[local] Definition demo_config (le : option (option bytes)) (w : world) :
    result tee_err (tls_cert * bytes * load_log) * world :=
  GenerateServerTLSConfig Some (fun k => k) Some make_cert Some demo_blocks key_path "smtp"
    (draw [x01; x02]) le w.

Lemma served_key_is_sealed_key_witness :
  exists cert spki log w', demo_config (Some (Some [xee])) fresh_box = (Ok (cert, spki, log), w') /\
    leaf_spki cert = spki /\ spki = [x01; x02] /\
    forall cert2 spki2 log2 w3,
      demo_config None (mkWorld (fs w') [] 0 []) = (Ok (cert2, spki2, log2), w3) -> spki2 = spki.
Proof.
  set (own := Build_tls_cert [[x01; x02]] ([x01; x02] : bytes) [x01; x02]).
  assert (demo_config (Some (Some [xee])) fresh_box =
    (Ok (own, [x01; x02], Persisted), (demo_config (Some (Some [xee])) fresh_box).2)) as E0
    by reflexivity.
  exists own, [x01; x02], Persisted, (demo_config (Some (Some [xee])) fresh_box).2.
  split; [exact E0|].
  destruct (served_key_is_sealed_key Some (fun k => k) Some make_cert Some demo_blocks key_path "smtp"
    (draw [x01; x02]) (Some (Some [xee])) fresh_box own [x01; x02] Persisted
    (demo_config (Some (Some [xee])) fresh_box).2 (fun h k der E => eq_sym E) E0) as (Hs & Hk & Hlast).
  split; [exact Hs|]. split; [reflexivity|]. intros cert2 spki2 log2 w3 E.
  destruct (Hlast ltac:(discriminate) "smtp"%string (draw [x01; x02]) None
    (mkWorld (fs (demo_config (Some (Some [xee])) fresh_box).2) [] 0 []) cert2 spki2 log2 w3
    eq_refl (or_introl eq_refl) E) as (_ & Hsame & _).
  exact Hsame.
Defined.

Lemma staged_key_not_durable_witness :
  exists h w', sealAndWriteKey Some (fun b => b) [x05] [x05] key_path fresh_box = (Ok h, w') /\
    holds Unseal key_path [x05] (fs w') /\
    exists m, crash (fs w') m /\ m !! key_path = Some (mkFile [] true).
Proof.
  set (run := sealAndWriteKey Some (fun b => b) [x05] [x05] key_path fresh_box).
  assert (run = (Ok [x05], run.2)) as E by reflexivity.
  exists [x05], run.2. split; [exact E|].
  destruct (staged_key_not_durable (H := marker_sealings) Some (fun b => b) [x05] [x05] key_path fresh_box [x05] run.2 E)
    as (Hh & _ & Hc).
  split; [exact Hh|]. exact (Hc []).
Defined.
