(* ===== verification/KT.v ===== *)
(** src/internal/storage/kt_store.go: the key-transparency tables, as Postgres
    keeps them: leaves unique per user and epoch, roots unique per tenant and
    epoch.  Shown: what advancing an epoch does, and that every signed root
    stays the root of the leaves served for its epoch and no published key
    drops out of a later epoch, as long as leaves are added only to the
    pending epoch and a user belongs to one tenant; what happens otherwise. *)

From S2P Require Import Prelude.

#[local] Open Scope Z_scope.

Abbreviation UUID := (list byte) (only parsing).

Record KTLeaf := mkLeaf {
  LeafID : Z;
  leaf_User : UUID;
  leaf_Tenant : UUID;
  leaf_Epoch : Z;
  PubkeyHash : bytes;
  leaf_CreatedAt : Z
}.

Record KTRoot := mkRoot {
  root_Epoch : Z;
  root_Tenant : UUID;
  RootHash : bytes;
  Signature : bytes;
  TreeSize : Z;
  root_CreatedAt : Z
}.

#[export] Instance KTLeaf_eq_dec : EqDecision KTLeaf.
Proof. solve_decision. Defined.
#[export] Instance KTRoot_eq_dec : EqDecision KTRoot.
Proof. solve_decision. Defined.

(** The tables: leaves in the order of [leaf_id], and its sequence. *)
Record KTStore := mkStore {
  leaves : list KTLeaf;
  roots : list KTRoot;
  leaf_seq : Z
}.

Inductive kterr :=
| KTNoRows
| KTQuery
| KTDuplicate
| KTNoLeaves (epoch : Z)
| KTRootExists (epoch : Z)
| KTCompute
| KTCommit.

(** * Queries

[up] says whether the database answers the statement. *)

Definition at_epoch (t : UUID) (e : Z) (l : KTLeaf) : Prop :=
  leaf_Tenant l = t /\ leaf_Epoch l = e.
#[export] Instance at_epoch_dec t e l : Decision (at_epoch t e l).
Proof. unfold at_epoch. apply _. Defined.

Definition same_key (u : UUID) (e : Z) (l : KTLeaf) : Prop :=
  leaf_User l = u /\ leaf_Epoch l = e.
#[export] Instance same_key_dec u e l : Decision (same_key u e l).
Proof. unfold same_key. apply _. Defined.

(** [WHERE tenant_id = $1 AND epoch = $2 ORDER BY leaf_id]. *)
Definition leaves_at (db : KTStore) (t : UUID) (e : Z) : list KTLeaf :=
  filter (at_epoch t e) (leaves db).

Definition roots_of (db : KTStore) (t : UUID) : list KTRoot :=
  filter (fun r => root_Tenant r = t) (roots db).

(** [ORDER BY epoch DESC LIMIT 1] on the roots of a tenant. *)
Definition last_epoch (db : KTStore) (t : UUID) : option Z :=
  match root_Epoch <$> roots_of db t with
  | [] => None
  | e :: es => Some (foldr Z.max e es)
  end.

(** A stable insertion sort by epoch. *)
Fixpoint insert_by {A : Type} (key : A -> Z) (x : A) (l : list A) : list A :=
  match l with
  | [] => [x]
  | y :: l' => if key x <=? key y then x :: l else y :: insert_by key x l'
  end.
Definition sort_by {A : Type} (key : A -> Z) (l : list A) : list A := foldr (insert_by key) [] l.

Definition GetLatestEpoch (up : bool) (db : KTStore) (t : UUID) : result kterr Z :=
  if up then of_option KTNoRows (last_epoch db t) else Err KTQuery.

(** Any error counts as having no root yet. *)
Definition NextEpoch (up : bool) (db : KTStore) (t : UUID) : Z :=
  match GetLatestEpoch up db t with Ok latest => int64 (latest + 1) | Err _ => 1 end.

Definition GetLeaves (up : bool) (db : KTStore) (t : UUID) (e : Z) : result kterr (list KTLeaf) :=
  if up then Ok (leaves_at db t e) else Err KTQuery.

Definition GetLeavesByUser (up : bool) (db : KTStore) (t u : UUID) : result kterr (list KTLeaf) :=
  if up then Ok (sort_by leaf_Epoch
                   (filter (fun l => leaf_Tenant l = t /\ leaf_User l = u) (leaves db)))
  else Err KTQuery.

Definition GetRoot (up : bool) (db : KTStore) (t : UUID) (e : Z) : result kterr KTRoot :=
  if up then of_option KTNoRows (List.find (fun r => root_Epoch r =? e) (roots_of db t))
  else Err KTQuery.

Definition GetLatestRoot (up : bool) (db : KTStore) (t : UUID) : result kterr KTRoot :=
  if up then
    match last_epoch db t with
    | None => Err KTNoRows
    | Some e => of_option KTNoRows (List.find (fun r => root_Epoch r =? e) (roots_of db t))
    end
  else Err KTQuery.

Definition GetRootsSince (up : bool) (db : KTStore) (t : UUID) (since : Z) :
    result kterr (list KTRoot) :=
  if up then Ok (sort_by root_Epoch (filter (fun r => since < root_CreatedAt r) (roots_of db t)))
  else Err KTQuery.

(** The tenant of the user's leaf with the highest epoch. *)
Definition GetTenantByUserID (up : bool) (db : KTStore) (u : UUID) : result kterr UUID :=
  if up then
    of_option KTNoRows
      (leaf_Tenant <$> last (sort_by leaf_Epoch (filter (fun l => leaf_User l = u) (leaves db))))
  else Err KTQuery.

(** * Statements *)

(** An INSERT of one leaf, in breach of the unique index or not. *)
Definition insert_leaf (now : Z) (db : KTStore) (u t : UUID) (e : Z) (h : bytes) : option KTStore :=
  if existsb (fun l => bool_decide (same_key u e l)) (leaves db) then None
  else Some (mkStore (leaves db ++ [mkLeaf (leaf_seq db) u t e h now]) (roots db) (leaf_seq db + 1)).

(** A refused insert has used a number of the sequence. *)
Definition bump (db : KTStore) : KTStore := mkStore (leaves db) (roots db) (leaf_seq db + 1).

Definition set_hash (u : UUID) (e : Z) (h : bytes) (l : KTLeaf) : KTLeaf :=
  if bool_decide (same_key u e l)
  then mkLeaf (LeafID l) (leaf_User l) (leaf_Tenant l) (leaf_Epoch l) h (leaf_CreatedAt l)
  else l.

Definition AddOrUpdateLeaf (up : bool) (now : Z) (db : KTStore) (u t : UUID) (e : Z) (h : bytes) :
    result kterr unit * KTStore :=
  if negb up then (Err KTQuery, db)
  else match insert_leaf now db u t e h with
       | Some db' => (Ok tt, db')
       | None => (Ok tt, mkStore (set_hash u e h <$> leaves db) (roots db) (leaf_seq db + 1))
       end.

Definition AddLeaf (up : bool) (now : Z) (db : KTStore) (u t : UUID) (e : Z) (h : bytes) :
    result kterr Z * KTStore :=
  if negb up then (Err KTQuery, db)
  else match insert_leaf now db u t e h with
       | Some db' => (Ok (leaf_seq db), db')
       | None => (Err KTDuplicate, bump db)
       end.

Definition insert_root (db : KTStore) (r : KTRoot) : option KTStore :=
  if existsb (fun x => bool_decide (root_Tenant x = root_Tenant r /\ root_Epoch x = root_Epoch r))
       (roots db)
  then None else Some (mkStore (leaves db) (roots db ++ [r]) (leaf_seq db)).

(** [treeSize ...int64]. *)
Definition StoreRoot (up : bool) (now : Z) (db : KTStore) (t : UUID) (e : Z)
    (rootHash signature : bytes) (treeSize : list Z) : result kterr unit * KTStore :=
  if negb up then (Err KTQuery, db)
  else match insert_root db (mkRoot e t rootHash signature (default 0 (head treeSize)) now) with
       | Some db' => (Ok tt, db')
       | None => (Err (KTRootExists e), db)
       end.

(** The INSERT ... SELECT of [AdvanceEpochTx]: the leaves of the epoch before
    whose users have none yet, one row after the other. *)
Fixpoint insert_all (now : Z) (t : UUID) (e : Z) (rows : list KTLeaf) (db : KTStore) :
    option KTStore :=
  match rows with
  | [] => Some db
  | l :: rows =>
      match insert_leaf now db (leaf_User l) t e (PubkeyHash l) with
      | None => None
      | Some db => insert_all now t e rows db
      end
  end.

Definition to_carry (db : KTStore) (t : UUID) (e : Z) : list KTLeaf :=
  filter (fun l => leaf_User l ∉ (leaf_User <$> leaves_at db t e)) (leaves_at db t (e - 1)).

Definition carry_forward (now : Z) (db : KTStore) (t : UUID) (e : Z) : option KTStore :=
  insert_all now t e (to_carry db t e) db.

(** Where the transaction fails; a failed statement aborts it. *)
Inductive tx_fault := NoFault | BeginFails | StatementFails | CommitFails.

Definition users (db : KTStore) (t : UUID) (e : Z) : list UUID := leaf_User <$> leaves_at db t e.

Lemma set_hash_keeps u e h l :
  leaf_User (set_hash u e h l) = leaf_User l /\ leaf_Tenant (set_hash u e h l) = leaf_Tenant l /\
  leaf_Epoch (set_hash u e h l) = leaf_Epoch l.
Proof. unfold set_hash. by case_bool_decide. Qed.

Lemma leaves_at_set_hash db u e h ls sq t e' :
  leaves_at (mkStore (set_hash u e h <$> leaves db) ls sq) t e' =
  set_hash u e h <$> leaves_at db t e'.
Proof.
  unfold leaves_at. cbn [leaves]. induction (leaves db) as [|l rest IH]; [done|].
  destruct (set_hash_keeps u e h l) as (_ & Ht & He). cbn [fmap list_fmap].
  assert (at_epoch t e' (set_hash u e h l) <-> at_epoch t e' l) as Hk.
  { unfold at_epoch. by rewrite Ht, He. }
  destruct (decide (at_epoch t e' l)) as [Ha|Ha].
  - rewrite !filter_cons_True by tauto. cbn. by rewrite IH.
  - rewrite !filter_cons_False by tauto. exact IH.
Qed.

Section advance.
Context (computeRoot : Z -> list KTLeaf -> option (bytes * bytes * Z)).

(** The statements of the transaction, from the epoch it computes. *)
Definition advance_body (now : Z) (db : KTStore) (t : UUID) : result kterr (Z * KTStore) :=
  let currentEpoch := int64 (default 0 (last_epoch db t) + 1) in
  match (if 1 <? currentEpoch then carry_forward now db t currentEpoch else Some db) with
  | None => Err KTDuplicate
  | Some db =>
      let ls := leaves_at db t currentEpoch in
      if (length ls =? 0)%nat then Err (KTNoLeaves currentEpoch)
      else match computeRoot currentEpoch ls with
      | None => Err KTCompute
      | Some (rootHash, sig, treeSize) =>
          match insert_root db (mkRoot currentEpoch t rootHash sig treeSize now) with
          | None => Err (KTRootExists currentEpoch)
          | Some db => Ok (currentEpoch, db)
          end
      end
  end.

(** A transaction that does not commit leaves the tables.  (Postgres does not
    give back the sequence numbers its inserts took; only the order of the ids
    matters, so the sequence is left alone here.) *)
Definition AdvanceEpochTx (fault : tx_fault) (now : Z) (db : KTStore) (t : UUID) :
    result kterr Z * KTStore :=
  match fault with
  | BeginFails | StatementFails => (Err KTQuery, db)
  | CommitFails => (Err KTCommit, db)
  | NoFault =>
      match advance_body now db t with
      | Err e => (Err e, db)
      | Ok (e, db') => (Ok e, db')
      end
  end.

(** * What the statements change *)

Lemma insert_leaf_spec now db u t e h db' :
  insert_leaf now db u t e h = Some db' ->
  Forall (fun l => ~ same_key u e l) (leaves db) /\
  leaves db' = leaves db ++ [mkLeaf (leaf_seq db) u t e h now] /\ roots db' = roots db.
Proof.
  unfold insert_leaf. destruct (existsb _ _) eqn:Ex; [done|]. intros [= <-].
  split; [|done]. apply Forall_forall. intros l Hl Hs.
  apply not_true_iff_false in Ex as []. apply existsb_elem. exists l.
  by rewrite bool_decide_eq_true.
Qed.

Lemma insert_leaf_none now db u t e h :
  insert_leaf now db u t e h = None <-> exists l, l ∈ leaves db /\ same_key u e l.
Proof.
  unfold insert_leaf. destruct (existsb _ _) eqn:Ex.
  - split; [|done]. intros _. apply existsb_elem in Ex as (l & Hl & Hs).
    exists l. by rewrite bool_decide_eq_true in Hs.
  - split; [done|]. intros (l & Hl & Hs). apply not_true_iff_false in Ex as [].
    apply existsb_elem. exists l. by rewrite bool_decide_eq_true.
Qed.

Lemma insert_all_spec now t e rows db db' :
  insert_all now t e rows db = Some db' ->
  roots db' = roots db /\
  exists new, leaves db' = leaves db ++ new /\
    Forall2 (fun l n => leaf_User n = leaf_User l /\ PubkeyHash n = PubkeyHash l /\
                        leaf_Tenant n = t /\ leaf_Epoch n = e) rows new.
Proof.
  revert db. induction rows as [|l rows IH]; intros db E; cbn in E.
  { injection E as <-. split; [done|]. exists []. by rewrite app_nil_r. }
  destruct (insert_leaf now db _ t e _) as [db1|] eqn:Ei; [|done].
  apply insert_leaf_spec in Ei as (_ & El & Er).
  destruct (IH _ E) as (-> & new & -> & Hf). split; [done|].
  eexists (_ :: new). rewrite El, <-app_assoc. split; [done|]. by constructor.
Qed.

Lemma insert_root_spec db r db' :
  insert_root db r = Some db' ->
  leaves db' = leaves db /\ roots db' = roots db ++ [r].
Proof. unfold insert_root. destruct (existsb _ _); [done|]. by intros [= <-]. Qed.

Lemma leaves_at_app db t e ls new :
  leaves db = ls ++ new ->
  leaves_at db t e = filter (at_epoch t e) ls ++ filter (at_epoch t e) new.
Proof. unfold leaves_at. intros ->. apply filter_app. Qed.

Lemma filter_none {A : Type} (P : A -> Prop) `{!forall x, Decision (P x)} (l : list A) :
  Forall (fun x => ~ P x) l -> filter P l = [].
Proof. induction 1; [done|]. by rewrite filter_cons_False. Qed.

Lemma filter_all {A : Type} (P : A -> Prop) `{!forall x, Decision (P x)} (l : list A) :
  Forall P l -> filter P l = l.
Proof. induction 1 as [|x l Hx _ IH]; [done|]. by rewrite filter_cons_True, IH. Qed.

(** The body on success: the new leaves are those carried forward, at the new
    epoch; the root is computed from all leaves of that epoch. *)
Lemma advance_body_spec now db t e db' :
  advance_body now db t = Ok (e, db') ->
  e = int64 (default 0 (last_epoch db t) + 1) /\
  (exists new, leaves db' = leaves db ++ new /\
     Forall (at_epoch t e) new /\
     Forall2 (fun l n => leaf_User n = leaf_User l /\ PubkeyHash n = PubkeyHash l)
       (if 1 <? e then to_carry db t e else []) new) /\
  exists rh sig size, computeRoot e (leaves_at db' t e) = Some (rh, sig, size) /\
    roots db' = roots db ++ [mkRoot e t rh sig size now].
Proof.
  unfold advance_body. set (e0 := int64 _).
  assert (forall db1, (if 1 <? e0 then carry_forward now db t e0 else Some db) = Some db1 ->
    roots db1 = roots db /\ exists new, leaves db1 = leaves db ++ new /\
    Forall2 (fun l n => leaf_User n = leaf_User l /\ PubkeyHash n = PubkeyHash l /\
                        leaf_Tenant n = t /\ leaf_Epoch n = e0)
      (if 1 <? e0 then to_carry db t e0 else []) new) as Hcarry.
  { intros db1. destruct (1 <? e0); [apply insert_all_spec|]. intros [= <-].
    split; [done|]. exists []. by rewrite app_nil_r. }
  destruct (if 1 <? e0 then _ else _) as [db1|]; [|done].
  destruct (Hcarry _ eq_refl) as (Hr & new & Hl & Hf).
  destruct (length _ =? 0)%nat; [done|].
  destruct (computeRoot e0 _) as [[[rh sig] size]|] eqn:Ec; [|done].
  destruct (insert_root _ _) as [db2|] eqn:Er; [|done]. intros [= <- <-].
  apply insert_root_spec in Er as [El2 Er2]. split; [done|]. split.
  - exists new. rewrite El2. split; [done|]. split.
    + clear -Hf. induction Hf as [|l n rows new (?&?&?&?) _ IH]; [done|]. by constructor.
    + eapply Forall2_impl; [exact Hf|]. cbn. tauto.
  - exists rh, sig, size. unfold leaves_at in *. by rewrite El2, Er2, Hr.
Qed.

(** * What stays true

[home]: the one tenant of each user.  Leaves are added for the pending
epoch of that tenant; epochs stay far below the width of a BIGINT. *)

Context (home : UUID -> UUID).

Definition signed (db : KTStore) (t : UUID) : nat := length (roots_of db t).

Record kt_ok (db : KTStore) : Prop := {
  at_home : Forall (fun l => leaf_Tenant l = home (leaf_User l)) (leaves db);
  consecutive : forall t, root_Epoch <$> roots_of db t = Z.of_nat <$> seq 1 (signed db t);
  roots_true : forall r, r ∈ roots db ->
    computeRoot (root_Epoch r) (leaves_at db (root_Tenant r) (root_Epoch r)) =
      Some (RootHash r, Signature r, TreeSize r);
  persistent : forall t e u, 1 <= e < Z.of_nat (signed db t) ->
    u ∈ users db t e -> u ∈ users db t (e + 1)
}.

(** A key written for a user and an epoch. *)
Definition write : Type := UUID * Z * bytes.

(** One call, with the key it has written, if any. *)
Inductive kt_step (db : KTStore) : list write -> KTStore -> Prop :=
| step_upsert up now u h r db' :
    Z.of_nat (length (roots db)) < 2 ^ 62 ->
    AddOrUpdateLeaf up now db u (home u) (NextEpoch true db (home u)) h = (r, db') ->
    kt_step db (if is_ok r then [(u, NextEpoch true db (home u), h)] else []) db'
| step_add up now u h r db' :
    Z.of_nat (length (roots db)) < 2 ^ 62 ->
    AddLeaf up now db u (home u) (NextEpoch true db (home u)) h = (r, db') ->
    kt_step db (if is_ok r then [(u, NextEpoch true db (home u), h)] else []) db'
| step_advance fault now t r db' :
    Z.of_nat (length (roots db)) < 2 ^ 62 ->
    AdvanceEpochTx fault now db t = (r, db') -> kt_step db [] db'.

(** Any calls from empty tables, with all keys written. *)
Inductive kt_run : list write -> KTStore -> Prop :=
| run_start : kt_run [] (mkStore [] [] 1)
| run_call ws db w db' : kt_run ws db -> kt_step db w db' -> kt_run (w ++ ws) db'.

Lemma foldr_max_seq a k : foldr Z.max (Z.of_nat a) (Z.of_nat <$> seq (S a) k) = Z.of_nat (a + k).
Proof.
  revert a. induction k as [|k IH]; intros a; [cbn; f_equal; lia|].
  rewrite seq_S, fmap_app, foldr_app. cbn [foldr fmap list_fmap].
  transitivity (foldr Z.max (Z.of_nat (a + S k)) (Z.of_nat <$> seq (S a) k)); [f_equal; lia|].
  clear IH. assert (forall x l, Forall (fun y => y <= x) l -> foldr Z.max x l = x) as Hm.
  { intros x l. induction 1 as [|y l Hy _ IHl]; cbn; [done|lia]. }
  apply Hm, Forall_forall. intros y (z & -> & Hz)%list_elem_of_fmap.
  apply elem_of_seq in Hz. lia.
Qed.

Lemma signed_bound db t : (signed db t <= length (roots db))%nat.
Proof. unfold signed, roots_of. apply length_filter. Qed.

Lemma last_epoch_signed db t :
  kt_ok db -> default 0 (last_epoch db t) = Z.of_nat (signed db t).
Proof.
  intros Hok. unfold last_epoch. rewrite (consecutive _ Hok). destruct (signed db t) as [|k]; [done|].
  cbn [seq fmap list_fmap]. change (default 0 (Some ?x)) with x. rewrite foldr_max_seq. lia.
Qed.

Lemma next_epoch_signed db t :
  kt_ok db -> Z.of_nat (length (roots db)) < 2 ^ 62 ->
  int64 (default 0 (last_epoch db t) + 1) = Z.of_nat (signed db t) + 1.
Proof.
  intros Hok Hb. rewrite last_epoch_signed by done. pose proof (signed_bound db t).
  rewrite int64_small; lia.
Qed.

Lemma NextEpoch_signed db t :
  kt_ok db -> Z.of_nat (length (roots db)) < 2 ^ 62 ->
  NextEpoch true db t = Z.of_nat (signed db t) + 1.
Proof.
  intros Hok Hb. rewrite <-(next_epoch_signed db t Hok Hb). unfold NextEpoch, GetLatestEpoch.
  by destruct (last_epoch db t).
Qed.

(** Leaves may change outside the signed epochs only, and keep their users. *)
Lemma kt_ok_frame db db' :
  kt_ok db -> roots db' = roots db ->
  Forall (fun l => leaf_Tenant l = home (leaf_User l)) (leaves db') ->
  (forall t e, 1 <= e <= Z.of_nat (signed db t) -> leaves_at db' t e = leaves_at db t e) ->
  (forall t e u, u ∈ users db t e -> u ∈ users db' t e) -> kt_ok db'.
Proof.
  intros [Hh Hc Hr Hp] Er Hh' Hsame Hmono.
  assert (forall t, roots_of db' t = roots_of db t) as Ero by (intros t; unfold roots_of; by rewrite Er).
  split; [done|intros t; unfold signed; by rewrite !Ero| |].
  - intros r Hin. rewrite Er in Hin. rewrite Hsame; [by apply Hr|].
    assert (root_Epoch r ∈ (root_Epoch <$> roots_of db (root_Tenant r))) as Hep.
    { apply list_elem_of_fmap_2. unfold roots_of. by apply list_elem_of_filter. }
    rewrite Hc in Hep. apply list_elem_of_fmap in Hep as (k & -> & Hk%elem_of_seq). lia.
  - intros t e u He. unfold signed in He. rewrite Ero in He. unfold users at 1.
    rewrite Hsame by (unfold signed; lia). intros Hu. by apply Hmono, Hp.
Qed.

Lemma insert_pending db db' now u h :
  kt_ok db -> Z.of_nat (length (roots db)) < 2 ^ 62 ->
  insert_leaf now db u (home u) (NextEpoch true db (home u)) h = Some db' -> kt_ok db'.
Proof.
  intros Hok Hb (_ & El & Er)%insert_leaf_spec. rewrite NextEpoch_signed in El by done.
  apply (kt_ok_frame db); [done|done| | |].
  - rewrite El. apply Forall_app. split; [apply Hok|]. by repeat constructor.
  - intros t e He. rewrite (leaves_at_app _ _ _ _ _ El), filter_cons_False, app_nil_r; [done|].
    unfold at_epoch. cbn. intros [<- <-]. lia.
  - intros t e x Hx. unfold users. rewrite (leaves_at_app _ _ _ _ _ El), fmap_app.
    apply elem_of_app. by left.
Qed.

Lemma update_pending db u h sq :
  kt_ok db -> Z.of_nat (length (roots db)) < 2 ^ 62 ->
  kt_ok (mkStore (set_hash u (NextEpoch true db (home u)) h <$> leaves db) (roots db) sq).
Proof.
  intros Hok Hb. rewrite NextEpoch_signed by done. apply (kt_ok_frame db); [done|done| | |].
  - cbn. apply Forall_fmap. eapply Forall_impl; [apply Hok|]. intros l Hl. cbn in *.
    by destruct (set_hash_keeps u (Z.of_nat (signed db (home u)) + 1) h l) as (-> & -> & _).
  - intros t e He. rewrite leaves_at_set_hash.
    rewrite <-(list_fmap_id (leaves_at db t e)) at 2. apply list_fmap_ext. intros i l Hl.
    apply list_elem_of_lookup_2, list_elem_of_filter in Hl as [[<- <-] Hin].
    unfold set_hash. case_bool_decide as Hk; [|done]. destruct Hk as [<- Hke].
    pose proof (at_home _ Hok) as Hh. rewrite Forall_forall in Hh. rewrite <-(Hh _ Hin) in Hke. lia.
  - intros t e x. unfold users. rewrite leaves_at_set_hash, <-list_fmap_compose.
    intros (l & -> & Hl)%list_elem_of_fmap. apply list_elem_of_fmap. exists l. cbn.
    by destruct (set_hash_keeps u (Z.of_nat (signed db (home u)) + 1) h l) as (-> & _).
Qed.

(** ** After a committed advance *)

Section committed.
Context (now : Z) (db db' : KTStore) (t : UUID) (e : Z) (new : list KTLeaf)
  (rh sig : bytes) (size : Z).
Hypothesis Hok : kt_ok db.
Hypothesis Ee : e = Z.of_nat (signed db t) + 1.
Hypothesis El : leaves db' = leaves db ++ new.
Hypothesis Hn : Forall (at_epoch t e) new.
Hypothesis Hf : Forall2 (fun l n => leaf_User n = leaf_User l /\ PubkeyHash n = PubkeyHash l)
  (if 1 <? e then to_carry db t e else []) new.
Hypothesis Hc : computeRoot e (leaves_at db' t e) = Some (rh, sig, size).
Hypothesis Er : roots db' = roots db ++ [mkRoot e t rh sig size now].

#[local] Lemma other_epochs t' e' : (t', e') <> (t, e) -> leaves_at db' t' e' = leaves_at db t' e'.
Proof.
  intros Hne. rewrite (leaves_at_app _ _ _ _ _ El), (filter_none _ new), app_nil_r; [done|].
  eapply Forall_impl; [exact Hn|]. by intros l [<- <-] [<- <-].
Qed.

#[local] Lemma new_epoch : leaves_at db' t e = leaves_at db t e ++ new.
Proof. rewrite (leaves_at_app _ _ _ _ _ El). by rewrite (filter_all _ new). Qed.

#[local] Lemma new_users x :
  x ∈ (leaf_User <$> new) <-> x ∈ (leaf_User <$> (if 1 <? e then to_carry db t e else [])).
Proof.
  generalize Hf. generalize (if 1 <? e then to_carry db t e else []) as rows. intros rows F.
  clear -F. induction F as [|l n rows ns [Hu _] _ IH]; [done|].
  cbn. rewrite !elem_of_cons, Hu. tauto.
Qed.

#[local] Lemma roots_of_committed t' :
  roots_of db' t' = roots_of db t' ++ (if decide (t' = t) then [mkRoot e t rh sig size now] else []).
Proof.
  unfold roots_of. rewrite Er, filter_app. f_equal. destruct (decide (t' = t)) as [->|Hn'].
  - by rewrite filter_cons_True.
  - by rewrite filter_cons_False by (cbn; congruence).
Qed.

#[local] Lemma signed_committed : signed db' t = S (signed db t).
Proof.
  unfold signed. rewrite roots_of_committed, decide_True by done. rewrite length_app. cbn. lia.
Qed.

#[local] Lemma carried_from l : l ∈ to_carry db t e -> l ∈ leaves_at db t (e - 1).
Proof. unfold to_carry. by intros [_ ?]%list_elem_of_filter. Qed.

#[local] Lemma new_at_home : Forall (fun l => leaf_Tenant l = home (leaf_User l)) new.
Proof.
  apply Forall_forall. intros n Hin. pose proof (at_home _ Hok) as Hh. rewrite Forall_forall in Hn, Hh.
  destruct (Hn _ Hin) as [-> _]. apply (list_elem_of_fmap_2 leaf_User), new_users in Hin.
  destruct (1 <? e); [|by apply not_elem_of_nil in Hin].
  apply list_elem_of_fmap in Hin as (l & -> & [[<- _] Hl]%carried_from%list_elem_of_filter).
  by apply Hh.
Qed.

#[local] Lemma old_root_epoch r : r ∈ roots db -> (root_Tenant r, root_Epoch r) <> (t, e).
Proof.
  intros Hr [= Ht He].
  assert (root_Epoch r ∈ (root_Epoch <$> roots_of db t)) as Hep.
  { apply list_elem_of_fmap_2. unfold roots_of. by apply list_elem_of_filter. }
  rewrite (consecutive _ Hok) in Hep.
  apply list_elem_of_fmap in Hep as (k & Hk & Hin%elem_of_seq). lia.
Qed.

#[local] Lemma carried u : 1 < e -> u ∈ users db t (e - 1) -> u ∈ users db' t e.
Proof.
  intros He Hu. unfold users. rewrite new_epoch, fmap_app, elem_of_app.
  destruct (decide (u ∈ (leaf_User <$> leaves_at db t e))) as [Hin|Hout]; [by left|right].
  apply new_users. rewrite (proj2 (Z.ltb_lt 1 e)) by lia.
  apply list_elem_of_fmap in Hu as (l & -> & Hl). apply list_elem_of_fmap_2.
  unfold to_carry. by apply list_elem_of_filter.
Qed.

#[local] Lemma persistent_committed t' e' u :
  1 <= e' < Z.of_nat (signed db' t') -> u ∈ users db' t' e' -> u ∈ users db' t' (e' + 1).
Proof.
  intros He' Hu. destruct (decide (t' = t)) as [->|Hne].
  - rewrite signed_committed in He'. unfold users in Hu.
    rewrite other_epochs in Hu by (intros [=]; lia). destruct (decide (e' + 1 = e)) as [He|He].
    + rewrite He. apply carried; [lia|]. by replace (e - 1) with e' by lia.
    + unfold users. rewrite other_epochs by congruence. apply (persistent _ Hok); [lia|done].
  - unfold users in *. rewrite other_epochs in Hu |- * by congruence.
    apply (persistent _ Hok); [|done].
    unfold signed in *. by rewrite roots_of_committed, decide_False, app_nil_r in He' by done.
Qed.

Lemma committed_ok : kt_ok db'.
Proof.
  split; [|intros t'| |exact persistent_committed].
  - rewrite El. apply Forall_app. split; [apply Hok|exact new_at_home].
  - unfold signed. rewrite roots_of_committed, fmap_app, (consecutive _ Hok), length_app.
    destruct (decide (t' = t)) as [->|Hne]; cbn [length fmap list_fmap root_Epoch].
    + rewrite Nat.add_1_r, seq_S, fmap_app. cbn. do 2 f_equal. rewrite Ee. unfold signed. lia.
    + by rewrite app_nil_r, Nat.add_0_r.
  - intros r. rewrite Er, elem_of_app. intros [Hr|Hr%list_elem_of_singleton]; [|by subst r].
    rewrite other_epochs; [by apply (roots_true _ Hok)|by apply old_root_epoch].
Qed.

End committed.

Lemma advance_ok now db t e db' :
  kt_ok db -> Z.of_nat (length (roots db)) < 2 ^ 62 ->
  advance_body now db t = Ok (e, db') -> kt_ok db'.
Proof.
  intros Hok Hb E. apply advance_body_spec in E as (Ee & (new & El & Hn & Hf) & rh & sig & size & Hc & Er).
  rewrite next_epoch_signed in Ee by done. by eapply committed_ok.
Qed.

Lemma kt_step_ok db w db' : kt_ok db -> kt_step db w db' -> kt_ok db'.
Proof.
  intros Hok [up now u h r db1 Hb E|up now u h r db1 Hb E|fault now t r db1 Hb E].
  - unfold AddOrUpdateLeaf in E. destruct up; [|by injection E as _ <-]. cbn in E.
    destruct (insert_leaf _ _ _ _ _ _) as [db2|] eqn:Ei; injection E as _ <-;
      [by eapply insert_pending|by apply update_pending].
  - unfold AddLeaf in E. destruct up; [|by injection E as _ <-]. cbn in E.
    destruct (insert_leaf _ _ _ _ _ _) as [db2|] eqn:Ei; injection E as _ <-;
      [by eapply insert_pending|]. by apply (kt_ok_frame db); [..|apply Hok| |].
  - unfold AdvanceEpochTx in E. destruct fault; try by injection E as _ <-.
    destruct (advance_body now db t) as [[e db2]|e] eqn:Ea; injection E as _ <-; [|done].
    by eapply advance_ok.
Qed.

Lemma kt_ok_empty : kt_ok (mkStore [] [] 1).
Proof. split; [constructor|done|by intros r ?%not_elem_of_nil|by intros t e u ?]. Qed.

(** ** Where keys come from *)

(** One leaf per user and epoch; and each leaf was written by a call, or was
    carried into a signed epoch from the one before. *)
Definition unique (db : KTStore) : Prop := forall l l',
  l ∈ leaves db -> l' ∈ leaves db -> leaf_User l = leaf_User l' -> leaf_Epoch l = leaf_Epoch l' -> l = l'.

Definition traced (ws : list write) (db : KTStore) : Prop := forall l, l ∈ leaves db ->
  (leaf_User l, leaf_Epoch l, PubkeyHash l) ∈ ws \/
  (leaf_Epoch l <= Z.of_nat (signed db (leaf_Tenant l)) /\
   exists l0, l0 ∈ leaves_at db (leaf_Tenant l) (leaf_Epoch l - 1) /\ leaf_User l0 = leaf_User l /\
     PubkeyHash l0 = PubkeyHash l).

Lemma insert_leaf_unique now db u t e h db' : unique db -> insert_leaf now db u t e h = Some db' -> unique db'.
Proof.
  intros Hu (Hf & El & _)%insert_leaf_spec l l'. rewrite Forall_forall in Hf. rewrite El, !elem_of_app.
  intros [Hl|Hl%list_elem_of_singleton] [Hl'|Hl'%list_elem_of_singleton] H1 H2; subst; cbn in *; [by apply Hu| | |done].
  - by destruct (Hf l).
  - by destruct (Hf l').
Qed.

Lemma insert_all_unique now t e rows : forall db db', unique db -> insert_all now t e rows db = Some db' -> unique db'.
Proof.
  induction rows as [|l rows IH]; intros db db' Hu E; cbn in E; [by injection E as <-|].
  destruct (insert_leaf now db _ t e _) as [db1|] eqn:Ei; [|done]. by eauto using insert_leaf_unique.
Qed.

Lemma advance_body_unique now db t e db' : unique db -> advance_body now db t = Ok (e, db') -> unique db'.
Proof.
  intros Hu. unfold advance_body. set (e0 := int64 _).
  assert (forall db1, (if 1 <? e0 then carry_forward now db t e0 else Some db) = Some db1 -> unique db1) as Hc.
  { intros db1. destruct (1 <? e0); [by apply insert_all_unique|]. by intros [= <-]. }
  destruct (if 1 <? e0 then _ else _) as [db1|]; [|done]. specialize (Hc _ eq_refl).
  destruct (length _ =? 0)%nat; [done|]. destruct (computeRoot e0 _) as [[[rh sig] size]|]; [|done].
  destruct (insert_root _ _) as [db2|] eqn:Er; [|done]. intros [= _ <-].
  apply insert_root_spec in Er as [El _]. intros l l'. rewrite El. apply Hc.
Qed.

Lemma signed_roots db db' t : roots db' = roots db -> signed db' t = signed db t.
Proof. unfold signed, roots_of. by intros ->. Qed.

Lemma leaf_at l db : l ∈ leaves db <-> l ∈ leaves_at db (leaf_Tenant l) (leaf_Epoch l).
Proof. unfold leaves_at. rewrite list_elem_of_filter. unfold at_epoch. tauto. Qed.

(** More leaves, more keys written, more roots. *)
Lemma traced_mono (ws ws' : list write) db db' l :
  ws ⊆ ws' -> leaves db ⊆ leaves db' -> (forall t, signed db t <= signed db' t)%nat ->
  ((leaf_User l, leaf_Epoch l, PubkeyHash l) ∈ ws \/
   (leaf_Epoch l <= Z.of_nat (signed db (leaf_Tenant l)) /\
    exists l0, l0 ∈ leaves_at db (leaf_Tenant l) (leaf_Epoch l - 1) /\ leaf_User l0 = leaf_User l /\
      PubkeyHash l0 = PubkeyHash l)) ->
  (leaf_User l, leaf_Epoch l, PubkeyHash l) ∈ ws' \/
  (leaf_Epoch l <= Z.of_nat (signed db' (leaf_Tenant l)) /\
   exists l0, l0 ∈ leaves_at db' (leaf_Tenant l) (leaf_Epoch l - 1) /\ leaf_User l0 = leaf_User l /\
     PubkeyHash l0 = PubkeyHash l).
Proof.
  intros Hw Hl Hs [H|(He & l0 & Hl0 & Hu & Hh)]; [left; by apply Hw|right].
  specialize (Hs (leaf_Tenant l)). split; [lia|]. exists l0. split; [|done].
  unfold leaves_at in *. rewrite list_elem_of_filter in Hl0 |- *. split; [apply Hl0|]. by apply Hl, Hl0.
Qed.

Lemma traced_insert ws now db u t e h db' :
  traced ws db -> insert_leaf now db u t e h = Some db' -> traced ([(u, e, h)] ++ ws) db'.
Proof.
  intros Ht (_ & El & Er)%insert_leaf_spec l. rewrite El, elem_of_app.
  intros [Hl|Hl%list_elem_of_singleton].
  - eapply traced_mono; [| | |by apply Ht]; [set_solver|rewrite El; set_solver|].
    intros t'. by rewrite (signed_roots db db').
  - subst l. left. cbn. by left.
Qed.

Lemma traced_update ws db u h sq :
  kt_ok db -> Z.of_nat (length (roots db)) < 2 ^ 62 -> traced ws db ->
  traced ([(u, NextEpoch true db (home u), h)] ++ ws)
    (mkStore (set_hash u (NextEpoch true db (home u)) h <$> leaves db) (roots db) sq).
Proof.
  intros Hok Hb Ht l. cbn [leaves]. intros (x & -> & Hx)%list_elem_of_fmap.
  destruct (decide (same_key u (NextEpoch true db (home u)) x)) as [Hk|Hk].
  - left. unfold set_hash. rewrite bool_decide_eq_true_2 by done. destruct Hk as [<- <-]. cbn. by left.
  - assert (set_hash u (NextEpoch true db (home u)) h x = x) as Ex by (unfold set_hash; by rewrite bool_decide_eq_false_2).
    rewrite Ex. destruct (Ht x Hx) as [H|(He & l0 & Hl0 & Hu & Hh)]; [left; by right|right].
    split; [exact He|]. exists l0. split; [|done]. rewrite leaves_at_set_hash. apply list_elem_of_fmap.
    exists l0. split; [|done]. unfold set_hash. rewrite bool_decide_eq_false_2; [done|]. intros [Hu0 He0].
    apply list_elem_of_filter in Hl0 as [[Ht0 Hep0] Hin]. pose proof (at_home _ Hok) as Hh0.
    rewrite Forall_forall in Hh0. specialize (Hh0 _ Hin). rewrite NextEpoch_signed in He0 by done.
    rewrite <-Hu0, <-Hh0, Ht0 in He0. lia.
Qed.

Lemma traced_advance ws now db t e db' :
  kt_ok db -> Z.of_nat (length (roots db)) < 2 ^ 62 -> traced ws db ->
  advance_body now db t = Ok (e, db') -> traced ws db'.
Proof.
  intros Hok Hb Ht E. pose proof E as (Ee & (new & El & Hn & Hf) & rh & sig & size & Hc & Er)%advance_body_spec.
  rewrite next_epoch_signed in Ee by done.
  assert (forall t', (signed db t' <= signed db' t')%nat) as Hs.
  { intros t'. unfold signed, roots_of. rewrite Er, filter_app, length_app. lia. }
  assert (e <= Z.of_nat (signed db' t)) as Hse.
  { unfold signed, roots_of. rewrite Er, filter_app, length_app, filter_cons_True by done. cbn. unfold signed, roots_of in Ee. lia. }
  intros l. rewrite El, elem_of_app. intros [Hl|Hl].
  - eapply traced_mono; [| | |by apply Ht]; [done|rewrite El; set_solver|done].
  - right. rewrite Forall_forall in Hn. destruct (Hn _ Hl) as [-> ->]. split; [done|].
    assert (exists l0, l0 ∈ (if 1 <? e then to_carry db t e else []) /\ leaf_User l = leaf_User l0 /\ PubkeyHash l = PubkeyHash l0)
      as (l0 & Hl0 & Hu & Hh).
    { clear -Hf Hl. induction Hf as [|x n rows ns Hx _ IH]; [by apply not_elem_of_nil in Hl|].
      apply elem_of_cons in Hl as [->|Hl]; [exists x; split; [by left|exact Hx]|].
      destruct (IH Hl) as (l0 & ? & ?). exists l0. split; [by right|done]. }
    destruct (1 <? e); [|by apply not_elem_of_nil in Hl0]. exists l0. split; [|done].
    apply list_elem_of_filter in Hl0 as [_ Hl0]. unfold leaves_at in *. rewrite El.
    rewrite list_elem_of_filter in Hl0 |- *. split; [apply Hl0|]. apply elem_of_app. left. apply Hl0.
Qed.

Lemma kt_run_ok ws db : kt_run ws db -> kt_ok db /\ unique db /\ traced ws db.
Proof.
  induction 1 as [|ws db w db' _ (Hok & Hu & Ht) Hs].
  { split; [apply kt_ok_empty|]. split; [by intros l l' ?%not_elem_of_nil|by intros l ?%not_elem_of_nil]. }
  split; [by eapply kt_step_ok|].
  destruct Hs as [up now u h r db' Hb E|up now u h r db' Hb E|fault now t r db' Hb E].
  - unfold AddOrUpdateLeaf in E. destruct up; [|by injection E as <- <-]. cbn in E.
    destruct (insert_leaf _ _ _ _ _ _) as [db2|] eqn:Ei; injection E as <- <-; cbn [is_ok].
    + split; [by eapply insert_leaf_unique|by eapply traced_insert].
    + split; [|by apply traced_update]. intros l l'. cbn [leaves].
      intros (x & -> & Hx)%list_elem_of_fmap (x' & -> & Hx')%list_elem_of_fmap.
      destruct (set_hash_keeps u (NextEpoch true db (home u)) h x) as (-> & _ & ->).
      destruct (set_hash_keeps u (NextEpoch true db (home u)) h x') as (-> & _ & ->).
      intros H1 H2. by rewrite (Hu x x').
  - unfold AddLeaf in E. destruct up; [|by injection E as <- <-]. cbn in E.
    destruct (insert_leaf _ _ _ _ _ _) as [db2|] eqn:Ei; injection E as <- <-; cbn [is_ok]; [|done].
    split; [by eapply insert_leaf_unique|by eapply traced_insert].
  - unfold AdvanceEpochTx in E. destruct fault; try by injection E as _ <-.
    destruct (advance_body now db t) as [[e db2]|e] eqn:Ea; injection E as _ <-; [|done].
    split; [by eapply advance_body_unique|by eapply traced_advance].
Qed.

(** C23. Key transparency stays true, where leaves are written for the pending
    epoch of the one tenant a user belongs to and the database answers when it
    is asked for that epoch: however writes and advances follow each other and
    fail, the roots of a tenant are numbered 1, 2, ... without a gap, and each
    one is the root that [computeRoot] gives for the leaves the store serves
    for its epoch today.  And from one signed epoch to the next no user is
    lost: each has exactly one leaf in the later one, with the key of the
    earlier one or a key that a call wrote for that user and that epoch. *)
Theorem signed_roots_stay_true ws db t :
  kt_run ws db ->
  root_Epoch <$> roots_of db t = Z.of_nat <$> seq 1 (signed db t) /\
  (forall r, r ∈ roots_of db t ->
     computeRoot (root_Epoch r) (leaves_at db t (root_Epoch r)) =
       Some (RootHash r, Signature r, TreeSize r)) /\
  (forall e l, 1 <= e < Z.of_nat (signed db t) -> l ∈ leaves_at db t e ->
     exists l', (forall x, x ∈ leaves_at db t (e + 1) /\ leaf_User x = leaf_User l <-> x = l') /\
       (PubkeyHash l' = PubkeyHash l \/ (leaf_User l, e + 1, PubkeyHash l') ∈ ws)).
Proof.
  intros (Hok & Hu & Ht)%kt_run_ok. split; [apply Hok|]. split.
  - intros r [<- Hin]%list_elem_of_filter. by apply (roots_true _ Hok).
  - intros e l He Hl. assert (leaf_User l ∈ users db t (e + 1)) as Hp.
    { apply (persistent _ Hok); [lia|]. by apply list_elem_of_fmap_2. }
    apply list_elem_of_fmap in Hp as (l' & Hl'u & Hl'). exists l'.
    pose proof Hl' as [[Htl' Hel'] Hin']%list_elem_of_filter. pose proof Hl as [[Htl Hel] Hin]%list_elem_of_filter.
    split.
    + intros x. split; [|by intros ->].
      intros [[[Htx Hex] Hinx]%list_elem_of_filter Hux]. apply Hu; [done|done|congruence|congruence].
    + destruct (Ht l' Hin') as [Hw|(_ & l0 & [[Ht0 He0] Hin0]%list_elem_of_filter & Hu0 & Hh0)].
      * right. by rewrite Hl'u, <-Hel'.
      * left. rewrite <-Hh0. f_equal. apply Hu; [done|done|congruence|]. rewrite He0, Hel', Hel. lia.
Qed.

(** A refused advance leaves everything as it was. *)
Lemma advance_refused fault now db t x db' :
  AdvanceEpochTx fault now db t = (Err x, db') -> db' = db.
Proof.
  unfold AdvanceEpochTx. destruct fault; try by intros [= _ <-].
  destruct (advance_body now db t) as [[e db1]|e]; by intros [= _ <-].
Qed.

(** A member with a leaf of the epoch to come in another tenant, and none in
    this one, blocks this tenant: it cannot be carried forward, so every
    attempt fails. *)
Theorem foreign_leaf_blocks_tenant fault now db t n l l' :
  last_epoch db t = Some n -> 1 <= n < 2 ^ 62 ->
  l ∈ leaves_at db t n -> leaf_User l ∉ users db t (n + 1) ->
  l' ∈ leaves db -> same_key (leaf_User l) (n + 1) l' ->
  exists x, AdvanceEpochTx fault now db t = (Err x, db).
Proof.
  intros Hn Hb Hl Hout Hl' Hk. unfold AdvanceEpochTx. destruct fault; try by eexists.
  unfold advance_body. rewrite Hn. change (default 0 (Some n)) with n. rewrite int64_small by lia.
  rewrite (proj2 (Z.ltb_lt 1 (n + 1))) by lia.
  assert (carry_forward now db t (n + 1) = None) as ->; [|by eexists].
  unfold carry_forward.
  assert (l ∈ to_carry db t (n + 1)) as Hin.
  { unfold to_carry. apply list_elem_of_filter. split; [done|]. by replace (n + 1 - 1) with n by lia. }
  revert Hin. generalize (to_carry db t (n + 1)) as rows. intros rows Hin.
  clear Hn Hl Hout. revert db Hl'. induction rows as [|x rows IH]; intros db Hl';
    [by apply not_elem_of_nil in Hin|].
  cbn. destruct (insert_leaf _ _ _ _ _ _) as [db1|] eqn:Ei; [|done].
  apply elem_of_cons in Hin as [->|Hin].
  - assert (insert_leaf now db (leaf_User x) t (n + 1) (PubkeyHash x) = None) as H0; [|congruence].
    apply insert_leaf_none. by exists l'.
  - apply IH; [done|]. apply insert_leaf_spec in Ei as (_ & -> & _). apply elem_of_app. by left.
Qed.

End advance.

(** A leaf written for a user in another tenant's pending epoch lands on the
    leaf the user already has there, signed or not: that one changes its hash
    and the other tenant gets none. *)
Theorem foreign_upsert_rewrites_leaf now db a b e l h r db' :
  l ∈ leaves_at db a e ->
  AddOrUpdateLeaf true now db (leaf_User l) b e h = (r, db') ->
  r = Ok tt /\ users db' b e = users db b e /\
  exists l', l' ∈ leaves_at db' a e /\ leaf_User l' = leaf_User l /\ PubkeyHash l' = h.
Proof.
  intros Hl E. pose proof Hl as [Ha Hin]%list_elem_of_filter.
  assert (same_key (leaf_User l) e l) as Hk by (split; [done|apply Ha]).
  unfold AddOrUpdateLeaf in E. cbn in E.
  rewrite (proj2 (insert_leaf_none now db (leaf_User l) b e h)) in E by by exists l.
  injection E as <- <-. split; [done|]. split.
  - unfold users. rewrite leaves_at_set_hash, <-list_fmap_compose. apply list_fmap_ext.
    intros _ x _. cbn. apply set_hash_keeps.
  - exists (set_hash (leaf_User l) e h l). rewrite leaves_at_set_hash.
    split; [by apply list_elem_of_fmap_2|]. unfold set_hash.
    by rewrite bool_decide_eq_true_2.
Qed.

(** A failed query makes [NextEpoch] name the first epoch, long signed. *)
Example next_epoch_on_failure (db : KTStore) (t : UUID) : NextEpoch false db t = 1.
Proof. reflexivity. Qed.

(** * The properties at a concrete store *)

#[local] Definition tenant : UUID := [x0a].
#[local] Definition demo_root (e : Z) (ls : list KTLeaf) : option (bytes * bytes * Z) :=
  Some (concat (PubkeyHash <$> ls), [], Z.of_nat (length ls)).
#[local] Definition demo_home (u : UUID) : UUID := tenant.
#[local] Definition demo1 : KTStore := (AddLeaf true 10 (mkStore [] [] 1) [x01] tenant 1 [xaa]).2.
#[local] Definition demo2 : KTStore := (AdvanceEpochTx demo_root NoFault 20 demo1 tenant).2.
#[local] Definition demo3 : KTStore := (AddOrUpdateLeaf true 30 demo2 [x02] tenant 2 [xbb]).2.
#[local] Definition demo4 : KTStore := (AdvanceEpochTx demo_root NoFault 40 demo3 tenant).2.

#[local] Definition demo_writes : list write := [([x02], 2, [xbb]); ([x01], 1, [xaa])].

#[local] Lemma demo_run : kt_run demo_root demo_home demo_writes demo4.
Proof.
  refine (run_call _ _ demo_writes demo3 [] demo4 _
    (step_advance _ _ _ NoFault 40 tenant (Ok 2) _ _ _)); [|vm_compute; reflexivity..].
  refine (run_call _ _ [([x01], 1, [xaa])] demo2 [([x02], 2, [xbb])] demo3 _ _).
  - refine (run_call _ _ [([x01], 1, [xaa])] demo1 [] demo2 _
      (step_advance _ _ _ NoFault 20 tenant (Ok 1) _ _ _)); [|vm_compute; reflexivity..].
    refine (run_call _ _ [] (mkStore [] [] 1) [([x01], 1, [xaa])] demo1 (run_start _ _)
      (step_add _ _ _ true 10 [x01] [xaa] (Ok 1) _ _ _)); vm_compute; reflexivity.
  - refine (step_upsert _ _ _ true 30 [x02] [xbb] (Ok tt) _ _ _); vm_compute; reflexivity.
Qed.

(** The key of the first user is carried from epoch 1 to epoch 2. *)
Lemma signed_roots_stay_true_witness :
  users demo4 tenant 2 = [[x02]; [x01]] /\
  root_Epoch <$> roots_of demo4 tenant = [1; 2] /\
  (exists l', l' ∈ leaves_at demo4 tenant 2 /\ leaf_User l' = [x01] /\
     (PubkeyHash l' = [xaa] \/ ([x01], 2, PubkeyHash l') ∈ demo_writes)).
Proof.
  split; [vm_compute; reflexivity|].
  destruct (signed_roots_stay_true demo_root demo_home demo_writes demo4 tenant demo_run) as (H1 & _ & H3).
  split; [rewrite H1; vm_compute; reflexivity|].
  destruct (H3 1 (mkLeaf 1 [x01] tenant 1 [xaa] 10)) as (l' & Hx & Hk).
  - split; [lia|]. vm_compute. reflexivity.
  - apply (bool_decide_unpack _). vm_compute. exact I.
  - exists l'. destruct (proj2 (Hx l') eq_refl) as [Hl' Hu]. split; [exact Hl'|]. split; [exact Hu|exact Hk].
Defined.

Lemma foreign_leaf_blocks_tenant_witness :
  exists x, AdvanceEpochTx demo_root NoFault 60
    (AddLeaf true 50 demo2 [x01] [x0b] 2 [xcc]).2 tenant = (Err x, (AddLeaf true 50 demo2 [x01] [x0b] 2 [xcc]).2).
Proof.
  apply (foreign_leaf_blocks_tenant demo_root NoFault 60 _ tenant 1
    (mkLeaf 1 [x01] tenant 1 [xaa] 10) (mkLeaf 2 [x01] [x0b] 2 [xcc] 50)).
  - vm_compute. reflexivity.
  - lia.
  - apply (bool_decide_unpack _). vm_compute. exact I.
  - apply (bool_decide_unpack _). vm_compute. exact I.
  - apply (bool_decide_unpack _). vm_compute. exact I.
  - split; reflexivity.
Defined.

Lemma foreign_upsert_rewrites_leaf_witness :
  exists l', l' ∈ leaves_at (AddOrUpdateLeaf true 50 demo2 [x01] [x0b] 1 [xcc]).2 tenant 1 /\
    leaf_User l' = [x01] /\ PubkeyHash l' = [xcc].
Proof.
  destruct (AddOrUpdateLeaf true 50 demo2 [x01] [x0b] 1 [xcc]) as [r db'] eqn:E.
  destruct (foreign_upsert_rewrites_leaf 50 demo2 tenant [x0b] 1
    (mkLeaf 1 [x01] tenant 1 [xaa] 10) [xcc] r db') as (_ & _ & Hl).
  - apply (bool_decide_unpack _). vm_compute. exact I.
  - exact E.
  - exact Hl.
Defined.
