(* ===== verification/RateWindow.v ===== *)
(** The contract of a fixed-window rate limiter, as a type class, and what
    every client may conclude from it.  The limiters of the program (Redis
    fallback, SMTP connections, bounces, gateway users, payment IPs, daily send
    caps) differ in how a window opens and when stale buckets are dropped; each
    is an instance (file RateLimit), and the bound on the calls granted in a
    span of time is proved here once. *)

From S2P Require Import Prelude.
Local Open Scope Z_scope.

Definition b2z (b : bool) : Z := if b then 1 else 0.

Section view.

Context (close : Z -> Z).

(** What a call at time [now] may do to the view [(end, count)] of one key's
    window; [g] says that this key's call was granted. *)
Inductive view_step (now : Z) (g : bool) : option (Z * Z) -> option (Z * Z) -> Prop :=
| vs_none : g = false -> view_step now g None None
| vs_same e n n' :
    (g = true -> now <= e) -> n + b2z g <= n' ->
    view_step now g (Some (e, n)) (Some (e, n'))
| vs_open v n' :
    (forall e n, v = Some (e, n) -> e <= now) -> b2z g <= n' ->
    view_step now g v (Some (close now, n'))
| vs_evict e n :
    g = false -> e <= now -> view_step now g (Some (e, n)) None.
End view.

Lemma view_step_refl close now v : view_step close now false v v.
Proof. destruct v as [[e n]|]; constructor; cbn; try done; lia. Qed.

Lemma view_step_None close now g v' :
  view_step close now g None v' ->
  (g = false /\ v' = None) \/ exists n', v' = Some (close now, n') /\ b2z g <= n'.
Proof. intros Hs. inversion Hs; subst; eauto. Qed.

Lemma view_step_Some close now g e n v' :
  view_step close now g (Some (e, n)) v' ->
  (exists n', v' = Some (e, n') /\ n + b2z g <= n') \/
  (e <= now /\ exists n', v' = Some (close now, n') /\ b2z g <= n') \/
  (g = false /\ v' = None /\ e <= now).
Proof.
  intros Hs. inversion Hs; subst; [left|right; left|right; right]; [by eauto| |done].
  split; [by eauto|by eauto].
Qed.

Lemma view_step_late close now g e n v' :
  view_step close now g (Some (e, n)) v' -> e < now -> g = true ->
  exists n', v' = Some (close now, n') /\ b2z g <= n'.
Proof. intros Hs Hl ->. inversion Hs; subst; eauto; naive_solver lia. Qed.

#[export] Hint Constructors view_step : bmail.
#[export] Hint Resolve view_step_refl : bmail.

(** [WindowLimiter S K]: a limiter over states [S] and keys [K]. *)
Class WindowLimiter (S K : Type) `{EqDecision K} := {
  wl_allow : Z -> K -> S -> bool * S;
  wl_inv : S -> Prop;
  wl_view : S -> K -> option (Z * Z);
  wl_cap : Z;                         (* calls granted in one window *)
  wl_window : Z;                      (* its length *)
  wl_close : Z -> Z;                  (* when a window opened at [t] ends *)
  wl_cap_nonneg : 0 <= wl_cap;
  wl_close_after t : t <= wl_close t;
  wl_close_gap t1 t2 :
    wl_close t1 <= t2 -> wl_close t1 + wl_window <= wl_close t2;
  wl_view_bound s k e n :
    wl_inv s -> wl_view s k = Some (e, n) ->
    0 <= n <= wl_cap /\ exists t, e = wl_close t;
  wl_step now k s :
    wl_inv s ->
    wl_inv (snd (wl_allow now k s)) /\
    forall k', view_step wl_close now (bool_decide (k' = k) && fst (wl_allow now k s))
                 (wl_view s k') (wl_view (snd (wl_allow now k s)) k')
}.

Section client.

Context {S K : Type} `{WL : WindowLimiter S K}.

(** A sequence of calls, as [(time, key)]; [ordered lo] says that the clock
    does not run backwards from [lo]. *)
Fixpoint ordered (lo : Z) (calls : list (Z * K)) : Prop :=
  match calls with
  | [] => True
  | (t, _) :: calls => lo <= t /\ ordered t calls
  end.

(** Number of calls for [k] that the limiter grants. *)
Fixpoint granted (k : K) (calls : list (Z * K)) (s : S) : Z :=
  match calls with
  | [] => 0
  | (t, k') :: calls =>
      let r := wl_allow t k' s in
      b2z (bool_decide (k = k') && fst r) + granted k calls (snd r)
  end.

Definition before (hi : Z) (calls : list (Z * K)) : Prop :=
  Forall (fun c => fst c < hi) calls.

Lemma ordered_weaken lo lo' calls : lo' <= lo -> ordered lo calls -> ordered lo' calls.
Proof. destruct calls as [|[t k] calls]; cbn; [done|]. intros ? []. split; [lia|done]. Qed.

(** One step of a run, seen at key [k]. *)
Lemma granted_step k t k' calls s :
  wl_inv s -> exists g v',
  wl_inv (snd (wl_allow t k' s)) /\
  wl_view (snd (wl_allow t k' s)) k = v' /\
  view_step wl_close t g (wl_view s k) v' /\
  granted k ((t, k') :: calls) s =
    b2z g + granted k calls (snd (wl_allow t k' s)).
Proof.
  intros Hi. destruct (wl_step t k' s Hi) as [Hi' Hs].
  exists (bool_decide (k = k') && fst (wl_allow t k' s))%bool. eexists.
  repeat split; eauto.
Qed.

(** While a window is open its key gets at most what is left of the cap. *)
Lemma granted_in_window k calls s e n :
  wl_inv s -> wl_view s k = Some (e, n) -> before e calls ->
  granted k calls s <= wl_cap - n.
Proof.
  revert s n. induction calls as [|[t k'] calls IH]; intros s n Hi Hv Hb.
  - cbn. destruct (wl_view_bound s k e n Hi Hv). lia.
  - apply Forall_cons in Hb as [Ht Hb]. cbn in Ht.
    destruct (granted_step k t k' calls s Hi) as (g & v' & Hi' & Hv' & Hs & ->).
    rewrite Hv in Hs.
    destruct (view_step_Some _ _ _ _ _ _ Hs) as [(n' & -> & Hn)|[(Hp & _)|(_ & _ & Hp)]];
      [|lia..].
    specialize (IH _ n' Hi' Hv' Hb). lia.
Qed.

(** After a window that ended at [close t0], one more window at most opens
    before [close t0 + window]. *)
Lemma granted_after_window k calls s t0 a :
  wl_inv s -> wl_view s k = None -> ordered (wl_close t0) calls ->
  a <= wl_close t0 -> before (a + wl_window) calls ->
  granted k calls s <= wl_cap.
Proof.
  intros Hi Hv Ho Ha Hb. revert s Hi Hv.
  assert (exists lo, wl_close t0 <= lo /\ ordered lo calls) as (lo & Hlo & Ho')
    by (exists (wl_close t0); split; [lia|done]).
  clear Ho. revert lo Hlo Ho' Hb.
  induction calls as [|[t k'] calls IH]; intros lo Hlo Ho Hb s Hi Hv.
  - cbn. apply wl_cap_nonneg.
  - destruct Ho as [Ht Ho]. apply Forall_cons in Hb as [_ Hb].
    destruct (granted_step k t k' calls s Hi) as (g & v' & Hi' & Hv' & Hs & ->).
    rewrite Hv in Hs.
    destruct (view_step_None _ _ _ _ Hs) as [[-> ->]|(n' & -> & Hn)].
    + cbn. apply (IH t); auto; lia.
    + assert (wl_close t0 + wl_window <= wl_close t) by (apply wl_close_gap; lia).
      assert (granted k calls (snd (wl_allow t k' s)) <= wl_cap - n'); [|cbn in *; lia].
      eapply granted_in_window; eauto.
      eapply Forall_impl; [exact Hb|]. cbn. intros. lia.
Qed.

(** From inside a window: what is left of it, then one more window. *)
Lemma granted_from_window k calls s e n lo a :
  wl_inv s -> wl_view s k = Some (e, n) -> a <= e -> ordered lo calls ->
  before (a + wl_window) calls ->
  granted k calls s <= (wl_cap - n) + wl_cap.
Proof.
  intros Hi Hv Hae. revert s n lo Hi Hv.
  induction calls as [|[t k'] calls IH]; intros s n lo Hi Hv Ho Hb.
  - cbn. destruct (wl_view_bound s k e n Hi Hv). lia.
  - destruct Ho as [Ht Ho]. apply Forall_cons in Hb as [_ Hb].
    destruct (wl_view_bound s k e n Hi Hv) as [Hn0 [t0 He]].
    destruct (granted_step k t k' calls s Hi) as (g & v' & Hi' & Hv' & Hs & ->).
    rewrite Hv in Hs.
    destruct (view_step_Some _ _ _ _ _ _ Hs)
      as [(n' & -> & Hn)|[(Hp & n' & -> & Hn)|(-> & -> & Hp)]].
    + specialize (IH _ n' t Hi' Hv' Ho Hb). lia.
    + assert (wl_close t0 + wl_window <= wl_close t) by (apply wl_close_gap; lia).
      assert (granted k calls (snd (wl_allow t k' s)) <= wl_cap - n'); [|cbn in *; lia].
      eapply granted_in_window; eauto.
      eapply Forall_impl; [exact Hb|]. cbn. intros. lia.
    + cbn. subst e.
      assert (granted k calls (snd (wl_allow t k' s)) <= wl_cap); [|lia].
      apply (granted_after_window _ _ _ t0 a); auto.
      eapply ordered_weaken; [|exact Ho]; lia.
Qed.

(** Two windows' worth is all a key gets in any span of one window length. *)
Lemma granted_in_span k calls s a :
  wl_inv s -> ordered a calls -> before (a + wl_window) calls ->
  granted k calls s <= 2 * wl_cap.
Proof.
  intros Hi Ho.
  assert (exists lo, a <= lo /\ ordered lo calls) as (lo & Hlo & Ho')
    by (exists a; split; [lia|done]).
  clear Ho. revert s lo Hi Hlo Ho'.
  induction calls as [|[t k'] calls IH]; intros s lo Hi Hlo Ho Hb.
  - cbn. pose proof (wl_cap_nonneg (S:=S) (K:=K)). lia.
  - destruct (wl_view s k) as [[e n]|] eqn:Hv; [destruct (decide (a <= e)) as [Hae|Hae]|].
    + destruct (wl_view_bound s k e n Hi Hv) as [? _].
      pose proof (granted_from_window k _ s e n lo a Hi Hv Hae Ho Hb). lia.
    + destruct Ho as [Ht Ho]. apply Forall_cons in Hb as [_ Hb].
      destruct (granted_step k t k' calls s Hi) as ([] & v' & Hi' & Hv' & Hs & ->).
      * rewrite Hv in Hs.
        destruct (view_step_late _ _ _ _ _ _ Hs ltac:(lia) eq_refl) as (n' & -> & Hn).
        pose proof (wl_close_after (S:=S) (K:=K) t).
        pose proof (granted_from_window k calls _ _ _ t a Hi' Hv' ltac:(lia) Ho Hb). lia.
      * cbn. apply (IH _ t); auto; lia.
    + destruct Ho as [Ht Ho]. apply Forall_cons in Hb as [_ Hb].
      destruct (granted_step k t k' calls s Hi) as (g & v' & Hi' & Hv' & Hs & ->).
      rewrite Hv in Hs.
      destruct (view_step_None _ _ _ _ Hs) as [[-> ->]|(n' & -> & Hn)].
      * cbn. apply (IH _ t); auto; lia.
      * pose proof (wl_close_after (S:=S) (K:=K) t).
        pose proof (granted_from_window k calls _ _ _ t a Hi' Hv' ltac:(lia) Ho Hb). lia.
Qed.

(** Calls that all fall into the window closing at [e], strictly after the end of
    every earlier one: at most one window's worth, whatever the state. *)
Lemma granted_in_one_window k calls s e :
  wl_inv s ->
  Forall (fun c => wl_close (fst c) = e /\ fst c < e /\ forall t0, wl_close t0 < fst c \/ e <= wl_close t0) calls ->
  granted k calls s <= wl_cap.
Proof.
  intros Hi Hc. assert (before e calls) as Hb by (eapply Forall_impl; [exact Hc|]; cbn; tauto).
  revert s Hi. induction Hc as [|[t k'] calls (He & Ht & Hgap) Hc IH]; intros s Hi; [apply wl_cap_nonneg|].
  apply Forall_cons in Hb as [_ Hb]. cbn in He, Ht, Hgap.
  destruct (wl_view s k) as [[e' n]|] eqn:Hv.
  - destruct (wl_view_bound s k e' n Hi Hv) as [Hn [t0 ->]]. destruct (Hgap t0) as [Hl|Hl].
    + destruct (granted_step k t k' calls s Hi) as ([] & v' & Hi' & Hv' & Hs & ->).
      * rewrite Hv in Hs. destruct (view_step_late _ _ _ _ _ _ Hs Hl eq_refl) as (n' & -> & Hn').
        rewrite He in Hv'. pose proof (granted_in_window k calls _ _ _ Hi' Hv' Hb). cbn in *. lia.
      * cbn. by apply IH.
    + assert (before (wl_close t0) ((t, k') :: calls)) as Hb'.
      { constructor; [cbn; lia|]. eapply Forall_impl; [exact Hb|]. cbn. intros. lia. }
      pose proof (granted_in_window k _ s _ _ Hi Hv Hb'). lia.
  - destruct (granted_step k t k' calls s Hi) as (g & v' & Hi' & Hv' & Hs & ->). rewrite Hv in Hs.
    destruct (view_step_None _ _ _ _ Hs) as [[-> ->]|(n' & -> & Hn')].
    + cbn. by apply IH.
    + rewrite He in Hv'. pose proof (granted_in_window k calls _ _ _ Hi' Hv' Hb). cbn in *. lia.
Qed.
End client.

(** * Windows that open at the first call and last [w] *)

Lemma sliding_close_after w t : 0 <= w -> t <= t + w.
Proof. lia. Qed.

Lemma sliding_close_gap w t1 t2 : t1 + w <= t2 -> t1 + w + w <= t2 + w.
Proof. lia. Qed.

(** * Windows aligned to multiples of [w] since the zero time

[now.Truncate(w).Add(w)]. *)
Definition Truncate (t w : Z) : Z := t - t mod w.

Lemma aligned_close_after w t : 0 < w -> t <= Truncate t w + w.
Proof. unfold Truncate. intros. pose proof (Z.mod_pos_bound t w). lia. Qed.

Lemma aligned_close_gap w t1 t2 : 0 < w ->
  Truncate t1 w + w <= t2 -> (Truncate t1 w + w) + w <= Truncate t2 w + w.
Proof.
  unfold Truncate. intros Hw Hle.
  rewrite !Z.mod_eq in * by lia.
  assert (t1 / w + 1 <= t2 / w); [|nia].
  apply Z.div_le_lower_bound; [lia|]. nia.
Qed.

(** Every instant strictly between two multiples closes its window at the second. *)
Lemma aligned_between w m t : 0 < w -> w * m < t < w * (m + 1) ->
  Truncate t w + w = w * (m + 1) /\
  forall t0, Truncate t0 w + w < t \/ w * (m + 1) <= Truncate t0 w + w.
Proof.
  intros Hw Ht. assert (forall x, Truncate x w = w * (x / w)) as E
    by (intros x; unfold Truncate; rewrite Z.mod_eq by lia; lia).
  assert (t / w = m) as Hm by (symmetry; apply (Z.div_unique t w m (t - w * m)); lia).
  split; [rewrite E, Hm; lia|]. intros t0. rewrite E. destruct (decide (t0 / w < m)); [left|right]; nia.
Qed.
