(* ===== verification/RateLimit.v ===== *)
(** The in-memory and Redis-backed fixed-window limiters:
    internal/ratelimit/redis.go, internal/smtp/conn_ratelimit.go, the bounce
    limiter of internal/smtp/bounce.go and the IP limiter of
    cmd/payment/main.go.  Each is an instance of [RateWindow.WindowLimiter].

Times and durations are nanoseconds in [Z].  The Redis server is a
parameter: [redis_run] is the Lua script's reply ([None] for any error). *)

From S2P Require Import Prelude GoNet Hex RateWindow.
From stdpp Require Import pretty.
Local Open Scope Z_scope.

Definition Second : Z := 1000000000.
Definition Minute : Z := 60 * Second.
Definition Hour : Z := 60 * Minute.

(** * Buckets *)

Record bucket := { count : Z; windowEnd : Z }.

Definition fresh_view (cap : Z) (b : bucket) : Z * Z := (windowEnd b, Z.min (count b) cap).

Lemma fresh_view_one limit e :
  fresh_view (Z.max 1 limit) {| count := 1; windowEnd := e |} = (e, 1).
Proof. unfold fresh_view. f_equal. cbn [count]. lia. Qed.

(** Windows of a map of buckets [B], seen through [f : B -> (end, count)]. *)
Section bucket_map.

Context {K : Type} `{Countable K} {B : Type} (f : B -> Z * Z) (close : Z -> Z).
Implicit Types m : gmap K B.

(** Dropping the entries whose window is over. *)
Lemma filter_step (keep : K * B -> Prop) `{!forall x, Decision (keep x)} now m k :
  (forall b : B, m !! k = Some b -> ~ keep (k, b) -> fst (f b) <= now) ->
  view_step close now false (f <$> m !! k) (f <$> filter keep m !! k).
Proof.
  intros Hold. rewrite map_lookup_filter. destruct (m !! k) as [b|] eqn:E; cbn.
  - destruct (decide (keep (k, b))) as [Hk|Hk].
    + rewrite option_guard_True by done. cbn. auto with bmail.
    + rewrite option_guard_False by done. cbn.
      destruct (f b) as [e n] eqn:Ef. apply vs_evict; [done|].
      specialize (Hold b eq_refl Hk). by rewrite Ef in Hold.
  - constructor. done.
Qed.

(** Opening a window for [k], other keys being left alone or dropped. *)
Lemma open_step now k m m2 g n :
  (forall b : B, m !! k = Some b -> fst (f b) <= now) ->
  f <$> m2 !! k = Some (close now, n) -> b2z g <= n ->
  (forall k', k' <> k -> view_step close now false (f <$> m !! k') (f <$> m2 !! k')) ->
  forall k', view_step close now (bool_decide (k' = k) && g)
               (f <$> m !! k') (f <$> m2 !! k').
Proof.
  intros Hpast Hm2 Hn Hother k'. destruct (decide (k' = k)) as [->|Hne].
  - rewrite bool_decide_eq_true_2 by done. cbn. rewrite Hm2. apply vs_open; [|done].
    intros e x He. apply fmap_Some in He as (b & Hb & Hf).
    specialize (Hpast b Hb). by rewrite <-Hf in Hpast.
  - rewrite bool_decide_eq_false_2 by done. cbn. auto.
Qed.

(** Counting a call of [k] in its open window. *)
Lemma bump_step now k m (b b' : B) g :
  m !! k = Some b -> (g = true -> now <= fst (f b)) ->
  fst (f b') = fst (f b) -> snd (f b) + b2z g <= snd (f b') ->
  forall k', view_step close now (bool_decide (k' = k) && g)
               (f <$> m !! k') (f <$> <[k := b']> m !! k').
Proof.
  intros Hb Hg He Hn k'. destruct (decide (k' = k)) as [->|Hne].
  - rewrite bool_decide_eq_true_2 by done. cbn. rewrite Hb, lookup_insert_eq. cbn.
    destruct (f b) as [e n], (f b') as [e' n']. cbn in *. subst. by apply vs_same.
  - rewrite bool_decide_eq_false_2, lookup_insert_ne by done. cbn. auto with bmail.
Qed.

(** A refused call that changes nothing. *)
Lemma refuse_step now k m :
  forall k', view_step close now (bool_decide (k' = k) && false)
               (f <$> m !! k') (f <$> m !! k').
Proof. intros k'. rewrite andb_false_r. auto with bmail. Qed.

(** First other keys are dropped, then the call acts. *)
Lemma view_step_trans_evict now v1 v2 v3 g :
  view_step close now false v1 v2 -> view_step close now g v2 v3 ->
  (forall e n, v1 = Some (e, n) -> v2 = Some (e, n) \/ v2 = None) ->
  view_step close now g v1 v3.
Proof.
  intros H1 H2 H3. destruct v1 as [[e n]|].
  - destruct (H3 e n eq_refl) as [->| ->]; [done|].
    apply view_step_Some in H1 as [(? & ? & _)|[(? & ? & ? & _)|(_ & _ & Hp)]]; [done..|].
    apply view_step_None in H2 as [[-> ->]|(n' & -> & Hn)].
    + by apply vs_evict.
    + apply vs_open; [|done]. intros ? ? [= <- <-]. done.
  - apply view_step_None in H1 as [[_ ->]|(n' & -> & Hn)]; [done|].
    destruct (view_step_Some _ _ _ _ _ _ H2)
      as [(m' & -> & ?)|[(? & m' & -> & ?)|(-> & -> & _)]].
    + apply vs_open; [done|]. cbn in Hn. lia.
    + by apply vs_open.
    + by apply vs_none.
Qed.
End bucket_map.

Lemma map_Forall_filter_keep {K} `{Countable K} {B} (P : K -> B -> Prop)
    (keep : K * B -> Prop) `{!forall x, Decision (keep x)} (m : gmap K B) :
  map_Forall P m -> map_Forall P (filter keep m).
Proof. intros Hm i b Hb. apply map_lookup_filter_Some in Hb as [Hb _]. by apply Hm. Qed.

(** * internal/ratelimit: the shared limiter *)

Module Redis.

Section redis.

Context {R : Type} (redis_run : R -> string -> Z -> option Z * R).

Definition maxInMemBuckets : Z := 10000.

Record RedisRateLimiter := {
  redis : bool;                       (* a client is configured *)
  prefix : string;
  counters : gmap string bucket
}.

Definition cleanStaleLocked (now : Z) (m : gmap string bucket) : gmap string bucket :=
  filter (fun kb => ~ windowEnd kb.2 < now) m.

Definition allowInMemory (now : Z) (key : string) (limit window : Z)
    (m : gmap string bucket) : bool * gmap string bucket :=
  let open :=
    let m1 : gmap string bucket :=
      <[key := {| count := 1; windowEnd := now + window |}]> m in
    (true, if maxInMemBuckets <? Z.of_nat (size m1) then cleanStaleLocked now m1 else m1) in
  match m !! key with
  | None => open
  | Some b =>
      if windowEnd b <? now then open
      else
        let b' := {| count := count b + 1; windowEnd := windowEnd b |} in
        (count b' <=? limit, <[key := b']> m)
  end.

(** [int(window.Seconds())], at least one second. *)
Definition window_seconds (window : Z) : Z :=
  let s := Z.quot window Second in if s <? 1 then 1 else s.

Definition allowRedis (rd : R) (key : string) (limit window : Z) : option bool * R :=
  let '(reply, rd') := redis_run rd key (window_seconds window) in
  ((fun n => n <=? limit) <$> reply, rd').

Definition with_counters (rl : RedisRateLimiter) (m : gmap string bucket) :=
  {| redis := redis rl; prefix := prefix rl; counters := m |}.

Definition Allow (now : Z) (rl : RedisRateLimiter) (rd : R) (key : string)
    (limit window : Z) : bool * RedisRateLimiter * R :=
  let fullKey := (prefix rl ++ key)%string in
  let memory rd :=
    let '(ok, m) := allowInMemory now fullKey limit window (counters rl) in
    (ok, with_counters rl m, rd) in
  if redis rl then
    match allowRedis rd fullKey limit window with
    | (Some allowed, rd') => (allowed, rl, rd')
    | (None, rd') => memory rd'
    end
  else memory rd.

(** What the memory path does to every key's window. *)
Section memory.

Context (limit window : Z) (Hw : 0 <= window).

Definition mem_inv (m : gmap string bucket) : Prop :=
  map_Forall (fun _ b => 1 <= count b) m.

Definition mem_view (m : gmap string bucket) (k : string) : option (Z * Z) :=
  fresh_view (Z.max 1 limit) <$> m !! k.

Lemma mem_step now k m :
  mem_inv m ->
  mem_inv (allowInMemory now k limit window m).2 /\
  forall k', view_step (fun t => t + window) now
    (bool_decide (k' = k) && (allowInMemory now k limit window m).1)
    (mem_view m k') (mem_view (allowInMemory now k limit window m).2 k').
Proof using Hw.
  intros Hi. set (b1 := {| count := 1; windowEnd := now + window |}).
  assert (mem_inv (<[k := b1]> m)) as Hi1
    by (apply map_Forall_insert_2; [cbn; lia|done]).
  unfold allowInMemory. fold b1.
  assert (Hopen : (forall b, m !! k = Some b -> windowEnd b <= now) ->
    let m2 := if maxInMemBuckets <? Z.of_nat (size (<[k := b1]> m))
              then cleanStaleLocked now (<[k := b1]> m) else <[k := b1]> m in
    mem_inv m2 /\ forall k', view_step (fun t => t + window) now
      (bool_decide (k' = k) && true) (mem_view m k') (mem_view m2 k')).
  { intros Hpast m2. split.
    - unfold m2. destruct (_ <? _); [|done]. by apply map_Forall_filter_keep.
    - apply (open_step _ _ now k m m2 true 1); [done| |done|].
      + assert (m2 !! k = Some b1) as ->; [|by rewrite <-(fresh_view_one limit)].
        unfold m2. destruct (_ <? _); [|apply lookup_insert_eq].
        apply map_lookup_filter_Some. rewrite lookup_insert_eq. cbn. split; [done|lia].
      + intros k' Hne. rewrite <-(lookup_insert_ne m k k' b1) by done.
        unfold m2. destruct (_ <? _); [|auto with bmail].
        apply filter_step. cbn. intros b _ Hk. lia. }
  destruct (m !! k) as [b|] eqn:Eb; [|apply Hopen; by intros].
  destruct (windowEnd b <? now) eqn:Ew; bool_prop.
  - apply Hopen. intros b' [= <-]. lia.
  - pose proof (Hi k b Eb) as Hb. cbn in Hb. split.
    + apply map_Forall_insert_2; [cbn; lia|done].
    + eapply bump_step; [done|done|done|].
      cbn. destruct (count b + 1 <=? limit) eqn:El; bool_prop; cbn; lia.
Qed.

#[global] Instance mem_limiter : WindowLimiter (gmap string bucket) string.
Proof using Hw limit window.
  refine {| wl_allow := fun now k m => allowInMemory now k limit window m;
            wl_inv := mem_inv; wl_view := mem_view; wl_cap := Z.max 1 limit;
            wl_window := window; wl_close := fun t => t + window |}.
  - lia.
  - intros. lia.
  - intros. lia.
  - intros s k e n Hi Hv. unfold mem_view, fresh_view in Hv.
    destruct (s !! k) as [b|] eqn:Eb; [|done]. cbn in Hv. injection Hv as <- <-.
    pose proof (Hi k b Eb) as Hb. cbn in Hb. split; [lia|].
    exists (windowEnd b - window). lia.
  - apply mem_step.
Defined.
End memory.

(** When the reply comes from Redis, nothing in memory moves; when Redis
    fails, the verdict is the memory limiter's. *)
Lemma Allow_cases now rl rd key limit window :
  let fullKey := (prefix rl ++ key)%string in
  let reply := redis_run rd fullKey (window_seconds window) in
  Allow now rl rd key limit window =
    match (if redis rl then fst reply else None) with
    | Some n => (n <=? limit, rl, snd reply)
    | None =>
        let mem := allowInMemory now fullKey limit window (counters rl) in
        (fst mem, with_counters rl (snd mem), if redis rl then snd reply else rd)
    end.
Proof.
  cbn. unfold Allow, allowRedis.
  destruct (redis rl); [destruct (redis_run _ _ _) as [[n|] rd']; cbn|];
    try done; by destruct (allowInMemory _ _ _ _ _).
Qed.
End redis.
End Redis.

(** * internal/smtp/conn_ratelimit.go: connections per client address *)

(** Year and day of the year of a time counted from 1 January of year 1. *)
Definition year_yday (t : Z) : Z * Z :=
  let d := t / (24 * Hour) in
  let n400 := d / 146097 in let d := d - 146097 * n400 in
  let n100 := Z.min (d / 36524) 3 in let d := d - 36524 * n100 in
  let n4 := d / 1461 in let d := d - 1461 * n4 in
  let n1 := Z.min (d / 365) 3 in let d := d - 365 * n1 in
  (400 * n400 + 100 * n100 + 4 * n4 + n1 + 1, d + 1).

Module Conn.

Section conn.

Context (sha256 : bytes -> bytes).
Context {R : Type} (redis_run : R -> string -> Z -> option Z * R).

(** A [net.Addr]: none, a TCP address, or any other with its text. *)
Inductive Addr := NoAddr | TCPAddr (ip : IP) | OtherAddr (text : bytes).

Definition extractIP (a : Addr) : bytes :=
  match a with
  | NoAddr => []
  | TCPAddr ip => IP_String ip
  | OtherAddr s => host_of s
  end.

(** The process-wide salt: the random secret and the salt of the day. *)
Record salts := { connSalt : bytes; ipSalt : option (bytes * Z) }.

Definition day_salt (secret : bytes) (now : Z) : bytes :=
  let '(y, today) := year_yday now in
  sha256 (secret ++ string_bytes ("smtp-conn-salt:" ++ pretty y ++ ":" ++ pretty today)).

Definition hashIP (now : Z) (ip : bytes) (s : salts) : string * salts :=
  let today := snd (year_yday now) in
  let salt := match ipSalt s with
              | Some (v, day) => if today =? day then v else day_salt (connSalt s) now
              | None => day_salt (connSalt s) now
              end in
  let day := match ipSalt s with
             | Some (_, day) => if today =? day then day else today
             | None => today end in
  (hex_EncodeToString (firstn 16 (sha256 (salt ++ ip))),
   {| connSalt := connSalt s; ipSalt := Some (salt, day) |}).

Record ConnRateLimiter := {
  redis : bool;
  limit : Z;
  window : Z;
  counters : gmap string bucket
}.

Definition defaultConnRateLimit : Z := 30.
Definition defaultConnRateWindow : Z := 1 * Minute.

Definition NewConnRateLimiter : ConnRateLimiter :=
  {| redis := false; limit := defaultConnRateLimit; window := defaultConnRateWindow;
     counters := ∅ |}.

Definition cleanStaleLocked (now : Z) (m : gmap string bucket) : gmap string bucket :=
  filter (fun kb => ~ windowEnd kb.2 < now) m.

Definition with_counters (rl : ConnRateLimiter) (m : gmap string bucket) :=
  {| redis := redis rl; limit := limit rl; window := window rl; counters := m |}.

Definition allowInMemory (now : Z) (ip : string) (rl : ConnRateLimiter)
    : bool * ConnRateLimiter :=
  let open :=
    let m1 : gmap string bucket :=
      <[ip := {| count := 1; windowEnd := now + window rl |}]> (counters rl) in
    (true, with_counters rl
             (if 10000 <? Z.of_nat (size m1) then cleanStaleLocked now m1 else m1)) in
  match counters rl !! ip with
  | None => open
  | Some b =>
      if windowEnd b <? now then open
      else
        let b' := {| count := count b + 1; windowEnd := windowEnd b |} in
        (count b' <=? limit rl, with_counters rl (<[ip := b']> (counters rl)))
  end.

Definition allowRedis (rd : R) (ip : string) (rl : ConnRateLimiter) : option bool * R :=
  let '(reply, rd') :=
    redis_run rd ("smtp:rate:" ++ ip)%string (Z.quot (window rl) Second) in
  ((fun n => n <=? limit rl) <$> reply, rd').

Definition Allow (now : Z) (addr : Addr) (rl : ConnRateLimiter) (s : salts) (rd : R)
    : bool * ConnRateLimiter * salts * R :=
  let ip := extractIP addr in
  match ip with
  | [] => (true, rl, s, rd)
  | _ =>
      let '(hashedIP, s') := hashIP now ip s in
      if redis rl then
        match allowRedis rd hashedIP rl with
        | (Some allowed, rd') => (allowed, rl, s', rd')
        | (None, rd') =>
            let '(ok, rl') := allowInMemory now hashedIP rl in (ok, rl', s', rd')
        end
      else let '(ok, rl') := allowInMemory now hashedIP rl in (ok, rl', s', rd)
  end.

(** The memory path is the shared limiter's algorithm. *)
Lemma allowInMemory_shared now ip rl :
  allowInMemory now ip rl =
    (let r := Redis.allowInMemory now ip (limit rl) (window rl) (counters rl) in
     (fst r, with_counters rl (snd r))).
Proof.
  unfold allowInMemory, Redis.allowInMemory.
  destruct (counters rl !! ip) as [b|]; [|done]. by destruct (windowEnd b <? now).
Qed.
End conn.
End Conn.

(** * internal/smtp/bounce.go: bounces per source address *)

Record start_bucket := { scount : Z; windowStart : Z }.

Definition start_view (cap window : Z) (b : start_bucket) : Z * Z :=
  (windowStart b + window, Z.min (scount b) cap).

Lemma start_view_one limit w t :
  start_view (Z.max 1 limit) w {| scount := 1; windowStart := t |} = (t + w, 1).
Proof. unfold start_view. cbn [scount windowStart]. f_equal. lia. Qed.

(** Law shared by the limiters that store when a window started. *)
Section start_map.

Context {K : Type} `{Countable K} (limit window : Z).

Definition start_inv (m : gmap K start_bucket) : Prop :=
  map_Forall (fun _ b => 1 <= scount b) m.

Definition start_map_view (m : gmap K start_bucket) (k : K) : option (Z * Z) :=
  start_view (Z.max 1 limit) window <$> m !! k.

Lemma start_inv_insert m k n t : 1 <= n -> start_inv m ->
  start_inv (<[k := {| scount := n; windowStart := t |}]> m).
Proof. intros. by apply map_Forall_insert_2. Qed.

Lemma start_view_bound m k e n :
  start_inv m -> start_map_view m k = Some (e, n) ->
  0 <= n <= Z.max 1 limit /\ exists t, e = t + window.
Proof.
  intros Hi Hv. apply fmap_Some in Hv as (b & Hb & [= -> ->]).
  pose proof (Hi k b Hb) as H1. cbn in H1. split; [lia|eauto].
Qed.

Lemma start_open_step now k (m : gmap K start_bucket) :
  (forall b, m !! k = Some b -> windowStart b + window <= now) ->
  forall k', view_step (fun t => t + window) now (bool_decide (k' = k) && true)
    (start_map_view m k')
    (start_map_view (<[k := {| scount := 1; windowStart := now |}]> m) k').
Proof.
  intros Hp. apply (open_step _ _ now k m _ true 1); [done| |done|].
  - rewrite lookup_insert_eq. cbn. by rewrite start_view_one.
  - intros k' Hne. rewrite lookup_insert_ne by done. auto with bmail.
Qed.
End start_map.

Module Bounce.

Record bounceRateLimiter := {
  counts : gmap string start_bucket;
  limit : Z;
  window : Z
}.

Definition defaultBounceLimiter : bounceRateLimiter :=
  {| counts := ∅; limit := 10; window := Minute |}.

Definition with_counts (l : bounceRateLimiter) (m : gmap string start_bucket) :=
  {| counts := m; limit := limit l; window := window l |}.

Definition evict (now : Z) (l : bounceRateLimiter) : gmap string start_bucket :=
  if 10000 <? Z.of_nat (size (counts l)) then
    filter (fun kb => ~ window l < now - windowStart kb.2) (counts l)
  else counts l.

Definition allow (now : Z) (domain : string) (l : bounceRateLimiter)
    : bool * bounceRateLimiter :=
  let m := evict now l in
  let open := (true, with_counts l
    (<[domain := {| scount := 1; windowStart := now |}]> m)) in
  match m !! domain with
  | None => open
  | Some b =>
      if window l <? now - windowStart b then open
      else if limit l <=? scount b then (false, with_counts l m)
      else (true, with_counts l
             (<[domain := {| scount := scount b + 1; windowStart := windowStart b |}]> m))
  end.

Definition inv (w lim : Z) (l : bounceRateLimiter) : Prop :=
  window l = w /\ limit l = lim /\ start_inv (counts l).

Lemma evict_step now l k :
  view_step (fun t => t + window l) now false
    (start_map_view (limit l) (window l) (counts l) k)
    (start_map_view (limit l) (window l) (evict now l) k).
Proof.
  unfold evict. destruct (_ <? _); [|auto with bmail].
  apply filter_step. cbn. intros b _ Hk. lia.
Qed.

Lemma evict_keeps now l k b :
  evict now l !! k = Some b -> counts l !! k = Some b.
Proof.
  unfold evict. destruct (_ <? _); [|done].
  intros Hb. by apply map_lookup_filter_Some in Hb as [Hb _].
Qed.

Lemma evict_inv now l : start_inv (counts l) -> start_inv (evict now l).
Proof. intros Hi k b Hb. apply evict_keeps in Hb. by apply (Hi k). Qed.

Lemma allow_after_evict now k l :
  start_inv (counts l) ->
  start_inv (counts (allow now k l).2) /\
  forall k', view_step (fun t => t + window l) now
    (bool_decide (k' = k) && (allow now k l).1)
    (start_map_view (limit l) (window l) (evict now l) k')
    (start_map_view (limit l) (window l) (counts (allow now k l).2) k').
Proof.
  intros Hi. apply (evict_inv now) in Hi. unfold allow.
  destruct (evict now l !! k) as [b|] eqn:Eb.
  - pose proof (Hi k b Eb) as Hb. cbn in Hb.
    destruct (window l <? now - windowStart b) eqn:Ew; bool_prop;
      [|destruct (limit l <=? scount b) eqn:El; bool_prop]; cbn [fst snd counts with_counts].
    + split; [by apply start_inv_insert|]. apply start_open_step.
      intros b' Hb'. assert (b' = b) as -> by congruence. lia.
    + split; [done|]. apply refuse_step.
    + split; [apply start_inv_insert; [lia|done]|].
      eapply bump_step; [exact Eb|cbn; lia|done|cbn; lia].
  - split; [by apply start_inv_insert|]. cbn [fst snd counts with_counts].
    apply start_open_step. intros b' Hb'. congruence.
Qed.

Section instance.

Context (w lim : Z) (Hw : 0 <= w).

#[global] Instance bounce_limiter : WindowLimiter bounceRateLimiter string.
Proof using Hw lim w.
  refine {| wl_allow := allow; wl_inv := inv w lim;
            wl_view := fun l => start_map_view lim w (counts l);
            wl_cap := Z.max 1 lim; wl_window := w; wl_close := fun t => t + w |}.
  - lia.
  - intros. lia.
  - intros. lia.
  - intros l k e n (_ & _ & Hi). by apply start_view_bound.
  - intros now k l (<- & <- & Hi).
    destruct (allow_after_evict now k l Hi) as [Hi' Hs]. split.
    + unfold inv. repeat split; [..|done];
        unfold allow; repeat break_match; reflexivity.
    + intros k'. eapply view_step_trans_evict; [apply (evict_step now)|apply Hs|].
      intros e n. unfold start_map_view. intros He.
      destruct (evict now l !! k') as [b|] eqn:Eb; [|by right].
      left. apply evict_keeps in Eb. by rewrite Eb in He.
Defined.
End instance.
End Bounce.

(** * cmd/payment/main.go: requests per client IP, with a bounded table *)

Module IPLimit.

Record ipRateLimiter := {
  clients : gmap string start_bucket;
  rate : Z;
  window : Z
}.

Definition maxRateLimitEntries : Z := 10000.

Definition newIPRateLimiter (rate window : Z) : ipRateLimiter :=
  {| clients := ∅; rate := rate; window := window |}.

Definition with_clients (rl : ipRateLimiter) (m : gmap string start_bucket) :=
  {| clients := m; rate := rate rl; window := window rl |}.

Definition allow (now : Z) (ip : string) (rl : ipRateLimiter) : bool * ipRateLimiter :=
  let fresh := (true, with_clients rl
    (<[ip := {| scount := 1; windowStart := now |}]> (clients rl))) in
  match clients rl !! ip with
  | None =>
      if maxRateLimitEntries <=? Z.of_nat (size (clients rl)) then (false, rl) else fresh
  | Some b =>
      if window rl <=? now - windowStart b then fresh
      else
        let n := scount b + 1 in
        (n <=? rate rl, with_clients rl
           (<[ip := {| scount := n; windowStart := windowStart b |}]> (clients rl)))
  end.

Definition evictStale (now : Z) (rl : ipRateLimiter) : ipRateLimiter :=
  with_clients rl
    (filter (fun kb => ~ window rl <= now - windowStart kb.2) (clients rl)).

(** [extractIP]: the host of [RemoteAddr], in canonical form. *)
Definition extractIP (remoteAddr : bytes) : bytes :=
  match SplitHostPort remoteAddr with
  | None => remoteAddr
  | Some (host, _) => normalize_host host
  end.

(** A request reaches its handler only when the limiter lets its IP through. *)
Definition rateLimitMiddleware {A} (now : Z) (remoteAddr : bytes) (refused : A)
    (next : A) (rl : ipRateLimiter) : A * ipRateLimiter :=
  let '(ok, rl') := allow now (bytes_string (extractIP remoteAddr)) rl in
  (if ok then next else refused, rl').

(** Calls and the background eviction, on the same table. *)
Definition event := option string.      (* [None]: the eviction tick *)

Definition on_event (now : Z) (e : event) (rl : ipRateLimiter) : bool * ipRateLimiter :=
  match e with
  | Some ip => allow now ip rl
  | None => (false, evictStale now rl)
  end.

Lemma allow_params now ip rl :
  rate (allow now ip rl).2 = rate rl /\ window (allow now ip rl).2 = window rl.
Proof. unfold allow. repeat break_match; done. Qed.

(** The table never outgrows its bound. *)
Definition bounded (rl : ipRateLimiter) : Prop :=
  Z.of_nat (size (clients rl)) <= maxRateLimitEntries.

Lemma allow_bounded now ip rl : bounded rl -> bounded (allow now ip rl).2.
Proof.
  unfold bounded, allow. intros Hb.
  destruct (clients rl !! ip) as [b|] eqn:Eb.
  - destruct (window rl <=? now - windowStart b); cbn [snd clients with_clients];
      (rewrite map_size_insert_Some; [done|by rewrite Eb]).
  - destruct (maxRateLimitEntries <=? _) eqn:Es; bool_prop; [done|].
    cbn [snd clients with_clients]. rewrite map_size_insert_None by done. lia.
Qed.

Lemma evictStale_bounded now rl : bounded rl -> bounded (evictStale now rl).
Proof.
  unfold bounded, evictStale. cbn. intros Hb. etransitivity; [|exact Hb].
  apply inj_le, map_subseteq_size, map_filter_subseteq.
Qed.

Section instance.

Context (lim w : Z) (Hw : 0 <= w).

Lemma allow_step now k rl :
  window rl = w -> rate rl = lim -> start_inv (clients rl) ->
  start_inv (clients (allow now k rl).2) /\
  forall k', view_step (fun t => t + w) now (bool_decide (k' = k) && (allow now k rl).1)
    (start_map_view lim w (clients rl) k')
    (start_map_view lim w (clients (allow now k rl).2) k').
Proof.
  intros <- <- Hi. unfold allow. destruct (clients rl !! k) as [b|] eqn:Eb.
  - pose proof (Hi k b Eb) as Hb. cbn in Hb.
    destruct (window rl <=? now - windowStart b) eqn:Ew; bool_prop;
      cbn [fst snd clients with_clients].
    + split; [by apply start_inv_insert|]. apply start_open_step.
      intros b' Hb'. assert (b' = b) as -> by congruence. lia.
    + split; [apply start_inv_insert; [lia|done]|].
      destruct (scount b + 1 <=? rate rl) eqn:El; bool_prop;
        (eapply bump_step; [exact Eb|cbn; lia|done|cbn; lia]).
  - destruct (maxRateLimitEntries <=? _); cbn [fst snd clients with_clients].
    + split; [done|]. apply refuse_step.
    + split; [by apply start_inv_insert|]. apply start_open_step.
      intros b' Hb'. congruence.
Qed.

#[global] Instance ip_limiter : WindowLimiter ipRateLimiter event.
Proof using Hw lim w.
  refine {| wl_allow := on_event;
            wl_inv := fun rl => window rl = w /\ rate rl = lim /\ start_inv (clients rl);
            wl_view := fun rl e => k ← e; start_map_view lim w (clients rl) k;
            wl_cap := Z.max 1 lim; wl_window := w; wl_close := fun t => t + w |}.
  - lia.
  - intros. lia.
  - intros. lia.
  - intros rl [k|] e n (_ & _ & Hi); [by apply start_view_bound|done].
  - intros now [k|] rl (Hw1 & Hl1 & Hi); cbn [on_event].
    + destruct (allow_step now k rl Hw1 Hl1 Hi) as [Hi' Hs].
      destruct (allow_params now k rl) as [Hr' Hw'].
      split; [by rewrite Hw', Hr'|]. intros [k'|]; cbn.
      * rewrite (bool_decide_ext (Some k' = Some k) (k' = k)) by naive_solver. apply Hs.
      * apply vs_none. by rewrite bool_decide_eq_false_2.
    + split.
      { repeat split; [done..|]. by apply map_Forall_filter_keep. }
      intros [k'|]; cbn.
      * rewrite bool_decide_eq_false_2 by done. apply filter_step. cbn.
        intros b _ Hk. lia.
      * by apply vs_none.
Defined.
End instance.
End IPLimit.

(** * Properties *)

(** In memory, the shared limiter grants a key at most [2 * max 1 limit]
    operations in any span of one window length, whatever the other keys do and
    whatever stale entries are dropped. *)
Theorem memory_limiter_span_cap (limit window : Z) (Hw : 0 <= window) m key a calls
    (HI : Redis.mem_inv m) (HO : ordered a calls) (HB : before (a + window) calls) :
  granted (WL := Redis.mem_limiter limit window Hw) key calls m <= 2 * Z.max 1 limit.
Proof. exact (granted_in_span (WL := Redis.mem_limiter limit window Hw) key calls m a HI HO HB). Qed.

Lemma memory_limiter_span_cap_witness :
  granted (WL := Redis.mem_limiter 1 10 ltac:(lia)) "k"%string
    [(9, "k"); (9, "k"); (12, "k"); (17, "k")]%string
    {["k"%string := {| count := 1; windowEnd := 11 |}]} <= 2.
Proof.
  refine (memory_limiter_span_cap 1 10 _ _ _ 9 _ _ _ _).
  - by apply (bool_decide_eq_true_1 _).
  - cbn. lia.
  - repeat constructor; cbn; lia.
Defined.

(** The same bound for the payment service's IP limiter, background eviction
    included; and its table never exceeds 10000 clients. *)
Theorem ip_limiter_span_cap (rate window : Z) (Hw : 0 <= window) rl ip a events
    (HP : IPLimit.window rl = window /\ IPLimit.rate rl = rate /\ start_inv (IPLimit.clients rl))
    (HT : IPLimit.bounded rl) (HO : ordered a events) (HB : before (a + window) events) :
  granted (WL := IPLimit.ip_limiter rate window Hw) (Some ip) events rl <= 2 * Z.max 1 rate /\
  IPLimit.bounded (foldl (fun s e => snd (IPLimit.on_event (fst e) (snd e) s)) rl events).
Proof.
  split.
  - exact (granted_in_span (WL := IPLimit.ip_limiter rate window Hw) (Some ip) events rl a HP HO HB).
  - clear HP HO HB. revert rl HT. induction events as [|[t [k|]] events IH]; intros rl HT;
      cbn [foldl]; [done|apply IH, IPLimit.allow_bounded, HT|apply IH, IPLimit.evictStale_bounded, HT].
Qed.

Lemma Minute_nonneg : 0 <= Minute.
Proof. discriminate. Qed.

Lemma ip_limiter_span_cap_witness :
  granted (WL := IPLimit.ip_limiter 10 Minute Minute_nonneg) (Some "1.2.3.4"%string)
    [(1, Some "1.2.3.4"); (2, None); (3, Some "1.2.3.4")]%string
    (IPLimit.newIPRateLimiter 10 Minute) <= 20 /\
  IPLimit.bounded (foldl (fun s e => snd (IPLimit.on_event (fst e) (snd e) s))
    (IPLimit.newIPRateLimiter 10 Minute)
    [(1, Some "1.2.3.4"); (2, None); (3, Some "1.2.3.4")]%string).
Proof.
  apply (ip_limiter_span_cap 10 Minute Minute_nonneg
           (IPLimit.newIPRateLimiter 10 Minute) "1.2.3.4" 1).
  - split; [done|split; [done|apply map_Forall_empty]].
  - by vm_compute.
  - cbn. lia.
  - repeat constructor; cbn; unfold Minute, Second; lia.
Defined.

(** SMTP connections: with Redis down or absent the verdict on a client with
    an address is the in-memory limiter's on the day's hash of that address; an
    answer from Redis is authoritative and leaves the memory untouched; a
    connection without an address is let in. *)
Theorem conn_allow_spec sha256 {R : Type} (redis_run : R -> string -> Z -> option Z * R)
    now addr rl s rd :
  let ip := Conn.extractIP addr in
  let hashed := fst (Conn.hashIP sha256 now ip s) in
  let reply := redis_run rd ("smtp:rate:" ++ hashed)%string
                         (Z.quot (Conn.window rl) Second) in
  let mem := Redis.allowInMemory now hashed (Conn.limit rl) (Conn.window rl)
               (Conn.counters rl) in
  fst (fst (Conn.Allow sha256 redis_run now addr rl s rd)) =
    match ip with
    | [] => (true, rl)
    | _ => match (if Conn.redis rl then fst reply else None) with
           | Some n => (n <=? Conn.limit rl, rl)
           | None => (fst mem, Conn.with_counters rl (snd mem))
           end
    end.
Proof.
  cbv zeta. unfold Conn.Allow, Conn.allowRedis.
  destruct (Conn.extractIP addr) as [|b ip]; [done|].
  destruct (Conn.hashIP sha256 now (b :: ip) s) as [h s']. cbn [fst].
  rewrite Conn.allowInMemory_shared. cbv zeta.
  destruct (Conn.redis rl); [|done].
  by destruct (redis_run _ _ _) as [[n|] rd'].
Qed.

(** The hash under which a connection is counted does not change within a
    day, and is a function of the day's salt and the address only. *)
Theorem conn_hash_stable sha256 now now' ip s
    (HD : snd (year_yday now) = snd (year_yday now')) :
  fst (Conn.hashIP sha256 now' ip (snd (Conn.hashIP sha256 now ip s))) =
  fst (Conn.hashIP sha256 now ip s).
Proof.
  unfold Conn.hashIP. cbn [fst snd Conn.ipSalt Conn.connSalt].
  rewrite <-HD. destruct (Conn.ipSalt s) as [[v day]|].
  - destruct (Z.eqb_spec (snd (year_yday now)) day); [subst|]; by rewrite Z.eqb_refl.
  - by rewrite Z.eqb_refl.
Qed.

(** The window limiters compare only from the second call on: with a limit
    of zero the first call of every window is still granted (here for the
    shared limiter). *)
Theorem zero_limit_grants_first now key limit window m
    (HM : m !! key = None) :
  fst (Redis.allowInMemory now key limit window m) = true.
Proof. unfold Redis.allowInMemory. by rewrite HM. Qed.

Lemma zero_limit_grants_first_witness : fst (Redis.allowInMemory 5 "k" 0 10 ∅) = true.
Proof. apply zero_limit_grants_first. reflexivity. Defined.

Lemma conn_hash_stable_witness :
  fst (Conn.hashIP (fun b => b) 7 [x01]
    (snd (Conn.hashIP (fun b => b) 5 [x01] {| Conn.connSalt := [x02]; Conn.ipSalt := None |}))) =
  fst (Conn.hashIP (fun b => b) 5 [x01] {| Conn.connSalt := [x02]; Conn.ipSalt := None |}).
Proof. apply conn_hash_stable. reflexivity. Defined.
