(* ===== verification/SendLimit.v ===== *)
(** Daily send caps, internal/smtp/ratelimit.go.

[RateLimiter] keeps pointers to counters in two maps, and [Allow] takes its
mutex twice: it looks the counter up in one critical section and may create
and count in a second one.  The heap of counters is therefore explicit, the
two sections are separate operations, and [Allow] is their composition. *)

From S2P Require Import Prelude RateWindow RateLimit.
Local Open Scope Z_scope.

Definition limitFree : Z := 15.
Definition limitMail : Z := 1000.
Definition limitBusiness : Z := 5000.
Definition tenantDailyCapDefault : Z := 10000.
Definition newFreeAccountWindow : Z := 72 * Hour.
Definition newFreeAccountDailyLimit : Z := 5.
Definition maxRecipientsPerMessageFree : Z := 5.
Definition Day : Z := 24 * Hour.

Definition tierLimit (tier : string) : Z :=
  if bool_decide (tier ∈ ["mail"; "unlimited"; "paid"]%string) then limitMail
  else if bool_decide (tier ∈ ["business"; "enterprise"]%string) then limitBusiness
  else limitFree.

(** 0 stands for "no limit". *)
Definition MaxRecipientsPerMessage (tier : string) : Z :=
  if String.eqb tier "free" then maxRecipientsPerMessageFree else 0.

Record accountCounter := { count : Z; windowEnd : Z; createdAt : Z }.

(** [now.Truncate(24h).Add(24h)] *)
Definition day_end (now : Z) : Z := Truncate now Day + Day.

Definition new_counter (now : Z) : accountCounter :=
  {| count := 0; windowEnd := day_end now; createdAt := now |}.

(** Reset the counter if its window has passed. *)
Definition roll (now : Z) (ac : accountCounter) : accountCounter :=
  if windowEnd ac <? now
  then {| count := 0; windowEnd := day_end now; createdAt := createdAt ac |}
  else ac.

(** Reset if the window has passed, refuse at the limit, count otherwise. *)
Definition tick (now limit : Z) (ac : accountCounter) : bool * accountCounter :=
  let ac := roll now ac in
  if limit <=? count ac then (false, ac)
  else (true, {| count := count ac + 1; windowEnd := windowEnd ac;
                 createdAt := createdAt ac |}).

Section limiter.

Context {U : Type} `{Countable U} (uuid_String : U -> string).
Context {R : Type} (redis_run : R -> string -> Z -> option Z * R).

Record RateLimiter := {
  heap : list accountCounter;            (* the counters ever allocated *)
  counters : gmap U nat;                 (* pointers into [heap] *)
  tenantCounters : gmap U nat;
  tenantDailyCap : Z;
  redisRL : option Redis.RedisRateLimiter
}.

Definition NewRateLimiter : RateLimiter :=
  {| heap := []; counters := ∅; tenantCounters := ∅;
     tenantDailyCap := tenantDailyCapDefault; redisRL := None |}.

Definition with_heap (rl : RateLimiter) (h : list accountCounter) : RateLimiter :=
  {| heap := h; counters := counters rl; tenantCounters := tenantCounters rl;
     tenantDailyCap := tenantDailyCap rl; redisRL := redisRL rl |}.

Definition with_redis (rl : RateLimiter) (x : Redis.RedisRateLimiter) : RateLimiter :=
  {| heap := heap rl; counters := counters rl; tenantCounters := tenantCounters rl;
     tenantDailyCap := tenantDailyCap rl; redisRL := Some x |}.

(** [ac = &accountCounter{...}; rl.counters[userID] = ac] *)
Definition alloc_user (u : U) (ac : accountCounter) (rl : RateLimiter)
    : nat * RateLimiter :=
  let p := length (heap rl) in
  (p, {| heap := heap rl ++ [ac]; counters := <[u := p]> (counters rl);
         tenantCounters := tenantCounters rl; tenantDailyCap := tenantDailyCap rl;
         redisRL := redisRL rl |}).

Definition alloc_tenant (u : U) (ac : accountCounter) (rl : RateLimiter)
    : nat * RateLimiter :=
  let p := length (heap rl) in
  (p, {| heap := heap rl ++ [ac]; counters := counters rl;
         tenantCounters := <[u := p]> (tenantCounters rl);
         tenantDailyCap := tenantDailyCap rl; redisRL := redisRL rl |}).

(** [tick] on the counter behind pointer [p]. *)
Definition tick_at (now limit : Z) (p : nat) (rl : RateLimiter) : bool * RateLimiter :=
  match heap rl !! p with
  | Some ac => let '(ok, ac') := tick now limit ac in
               (ok, with_heap rl (<[p := ac']> (heap rl)))
  | None => (false, rl)
  end.

Definition RegisterAccount (now : Z) (u : U) (rl : RateLimiter) : RateLimiter :=
  snd (alloc_user u (new_counter now) rl).

(** [rl.redisRL.Allow(key, limit, 24h)] *)
Definition redis_allow (now : Z) (key : string) (limit : Z) (rr : Redis.RedisRateLimiter)
    (rl : RateLimiter) (rd : R) : bool * RateLimiter * R :=
  let '(ok, rr', rd') := Redis.Allow redis_run now rr rd key limit Day in
  (ok, with_redis rl rr', rd').

Definition AllowTenant (now : Z) (t : U) (rl : RateLimiter) (rd : R)
    : bool * RateLimiter * R :=
  let limit := tenantDailyCap rl in
  if limit <=? 0 then (true, rl, rd)
  else match redisRL rl with
  | Some rr => redis_allow now ("smtp:send:tenant:" ++ uuid_String t) limit rr rl rd
  | None =>
      let '(p, rl) := match tenantCounters rl !! t with
                      | Some p => (p, rl)
                      | None => alloc_tenant t (new_counter now) rl
                      end in
      let '(ok, rl) := tick_at now limit p rl in (ok, rl, rd)
  end.

(** First critical section of [Allow]: the ramp of new free accounts. *)
Inductive entered :=
| RampDenied
| RampCounted
| Continue (ac : option nat).           (* the captured counter, if any *)

Definition allow_enter (now : Z) (u : U) (tier : string) (rl : RateLimiter)
    : entered * RateLimiter :=
  match counters rl !! u with
  | None => (Continue None, rl)
  | Some p =>
      match heap rl !! p with
      | None => (Continue (Some p), rl)
      | Some ac =>
          if String.eqb tier "free" && (now <? createdAt ac + newFreeAccountWindow) then
            let '(ok, rl') := tick_at now newFreeAccountDailyLimit p rl in
            ((if ok then RampCounted else RampDenied), rl')
          else (Continue (Some p), rl)
      end
  end.

(** Second critical section: the in-memory daily cap. *)
Definition allow_finish (now : Z) (u : U) (limit : Z) (ac : option nat)
    (rl : RateLimiter) : bool * RateLimiter :=
  let '(p, rl) := match ac with
                  | Some p => (p, rl)
                  | None => alloc_user u (new_counter now) rl
                  end in
  tick_at now limit p rl.

Definition Allow (now : Z) (u : U) (tier : string) (rl : RateLimiter) (rd : R)
    : bool * RateLimiter * R :=
  let limit := tierLimit tier in
  let key := ("smtp:send:" ++ uuid_String u)%string in
  match allow_enter now u tier rl with
  | (RampDenied, rl) => (false, rl, rd)
  | (RampCounted, rl) =>
      match redisRL rl with
      | Some rr => redis_allow now key limit rr rl rd
      | None => (true, rl, rd)
      end
  | (Continue ac, rl) =>
      match redisRL rl with
      | Some rr => redis_allow now key limit rr rl rd
      | None => let '(ok, rl) := allow_finish now u limit ac rl in (ok, rl, rd)
      end
  end.
End limiter.

(** * Sequential calls keep the daily cap *)

Section pointers.

Context {U : Type} `{Countable U} (cap : Z).
Implicit Types (h : list accountCounter) (m : gmap U nat).

Definition sane (ac : accountCounter) : Prop :=
  0 <= count ac <= cap /\ exists t, windowEnd ac = day_end t.

(** The pointers of [m] are valid and distinct, their counters within [cap]. *)
Definition wf_pointers h m : Prop :=
  (forall k p, m !! k = Some p -> exists ac, h !! p = Some ac /\ sane ac) /\
  (forall k k' p, m !! k = Some p -> m !! k' = Some p -> k = k').

Definition pointer_view h m (k : U) : option (Z * Z) :=
  p ← m !! k; ac ← h !! p; Some (windowEnd ac, count ac).


Lemma tick_step now limit ac :
  limit <= cap -> 0 <= cap -> sane ac ->
  sane (tick now limit ac).2 /\
  view_step day_end now (tick now limit ac).1
    (Some (windowEnd ac, count ac))
    (Some (windowEnd (tick now limit ac).2, count (tick now limit ac).2)).
Proof.
  intros Hl Hc [Hn Ht]. unfold tick, roll.
  destruct (windowEnd ac <? now) eqn:Ew; bool_prop; cbn [count windowEnd];
    (destruct (limit <=? _) eqn:El; bool_prop; cbn [fst snd count windowEnd]).
  - split; [split; [cbn; lia|eauto]|]. apply vs_open; [intros ?? [= <- <-]; lia|done].
  - split; [split; [cbn; lia|eauto]|]. apply vs_open; [intros ?? [= <- <-]; lia|done].
  - split; [by split|]. auto with bmail.
  - split; [split; [cbn; lia|eauto]|]. apply vs_same; [lia|cbn; lia].
Qed.

Lemma tick_at_step now limit h m k p ac :
  limit <= cap -> 0 <= cap -> wf_pointers h m -> m !! k = Some p -> h !! p = Some ac ->
  let r := tick now limit ac in
  wf_pointers (<[p := snd r]> h) m /\
  forall k', view_step day_end now (bool_decide (k' = k) && fst r)
               (pointer_view h m k') (pointer_view (<[p := snd r]> h) m k').
Proof.
  intros Hl Hc [Hv Hi] Hk Hp r.
  assert (sane ac) as Hs by (destruct (Hv k p Hk) as (x & ? & ?); by simplify_eq).
  destruct (tick_step now limit ac Hl Hc Hs) as [Hs' Hstep].
  assert (p < length h)%nat as Hlt by (eapply lookup_lt_Some; eauto).
  split; [split; [|done]|].
  - intros k' q Hq. destruct (decide (q = p)) as [->|Hne].
    + exists (snd r). split; [by apply list_lookup_insert_eq|done].
    + rewrite list_lookup_insert_ne by done. by apply (Hv k').
  - intros k'. unfold pointer_view. destruct (decide (k' = k)) as [->|Hne].
    + rewrite bool_decide_eq_true_2, Hk by done. cbn.
      rewrite Hp, list_lookup_insert_eq by done. cbn. exact Hstep.
    + rewrite bool_decide_eq_false_2 by done. cbn.
      destruct (m !! k') as [q|] eqn:Eq; cbn; [|by apply vs_none].
      rewrite list_lookup_insert_ne by naive_solver. auto with bmail.
Qed.

Lemma alloc_step now h m k :
  0 <= cap -> wf_pointers h m -> m !! k = None ->
  let h' := h ++ [new_counter now] in let m' := <[k := length h]> m in
  wf_pointers h' m' /\
  pointer_view h' m' k = Some (day_end now, 0) /\
  forall k', k' <> k -> pointer_view h' m' k' = pointer_view h m k'.
Proof.
  intros Hc [Hv Hi] Hk h' m'. split; [split|split].
  - intros k' q. unfold m'. rewrite lookup_insert_Some. intros [[_ <-]|[Hne Hq]].
    + exists (new_counter now). split; [by apply list_lookup_middle|].
      split; [cbn; lia|cbn; eauto].
    + destruct (Hv k' q Hq) as (ac & Ha & Hs). exists ac. split; [|done].
      unfold h'. by apply lookup_app_l_Some.
  - intros k1 k2 q. unfold m'. rewrite !lookup_insert_Some.
    intros [[<- <-]|[? H1]] [[<- E]|[? H2]]; [done| | |by eapply Hi].
    + destruct (Hv k2 _ H2) as (ac & Ha & _). apply lookup_lt_Some in Ha. lia.
    + subst q. destruct (Hv k1 _ H1) as (ac & Ha & _). apply lookup_lt_Some in Ha. lia.
  - unfold pointer_view, m'. rewrite lookup_insert_eq. cbn. unfold h'.
    by rewrite list_lookup_middle.
  - intros k' Hne. unfold pointer_view, m'. rewrite lookup_insert_ne by done.
    destruct (m !! k') as [q|] eqn:Eq; [|done]. cbn.
    destruct (Hv k' q Eq) as (ac & Ha & _). unfold h'.
    by rewrite Ha, (lookup_app_l_Some _ _ _ _ Ha).
Qed.

(** Allocating the counter of [k] and counting in it. *)
Lemma alloc_tick_step now limit h m k :
  limit <= cap -> 0 <= cap -> wf_pointers h m -> m !! k = None ->
  let r := tick now limit (new_counter now) in
  let h' := <[length h := snd r]> (h ++ [new_counter now]) in
  let m' := <[k := length h]> m in
  wf_pointers h' m' /\
  forall k', view_step day_end now (bool_decide (k' = k) && fst r)
               (pointer_view h m k') (pointer_view h' m' k').
Proof.
  intros Hl Hc Hwf Hk r h' m'.
  destruct (alloc_step now h m k Hc Hwf Hk) as (Hwf' & Hvk & Hother).
  destruct (tick_at_step now limit _ _ k (length h) (new_counter now) Hl Hc Hwf'
              (lookup_insert_eq _ _ _) (list_lookup_middle _ _ _ _ eq_refl)) as [H1 H2].
  split; [done|]. intros k'. specialize (H2 k').
  destruct (decide (k' = k)) as [->|Hne]; [|by rewrite Hother in H2].
  eapply view_step_trans_evict; [|exact H2|].
  - rewrite Hvk. unfold pointer_view. rewrite Hk. cbn. apply vs_open; [done|done].
  - intros e n. unfold pointer_view. by rewrite Hk.
Qed.
End pointers.

Section caps.

Context {U : Type} `{Countable U} (uuid_String : U -> string).
Context {R : Type} (redis_run : R -> string -> Z -> option Z * R).


Lemma tierLimit_pos tier : limitFree <= tierLimit tier.
Proof. unfold tierLimit, limitFree, limitMail, limitBusiness. repeat case_bool_decide; lia. Qed.



Definition tenant_inv (cap : Z) (rl : RateLimiter (U:=U)) : Prop :=
  redisRL rl = None /\ tenantDailyCap rl = cap /\
  wf_pointers cap (heap rl) (tenantCounters rl).

Lemma AllowTenant_step cap now t rl rd :
  0 < cap -> tenant_inv cap rl ->
  let r := AllowTenant uuid_String redis_run now t rl rd in
  tenant_inv cap (snd (fst r)) /\
  forall k', view_step day_end now (bool_decide (k' = t) && fst (fst r))
               (pointer_view (heap rl) (tenantCounters rl) k')
               (pointer_view (heap (snd (fst r))) (tenantCounters (snd (fst r))) k').
Proof.
  intros Hcap (Hr & Hc & Hwf). unfold AllowTenant. rewrite Hc, Hr.
  destruct (Z.leb_spec cap 0); [lia|]. assert (0 <= cap) as Hcap' by lia.
  destruct (tenantCounters rl !! t) as [p|] eqn:Ep; unfold tick_at.
  - destruct (proj1 Hwf t p Ep) as (ac & Ha & Hs). rewrite Ha.
    pose proof (tick_at_step cap now cap _ _ t p ac (Z.le_refl _) Hcap' Hwf Ep Ha) as [H1 H2].
    destruct (tick now cap ac) as [ok ac']; cbn in H1, H2.
    split; [split; [done|split; [done|exact H1]]|exact H2].
  - unfold alloc_tenant. cbn [heap]. rewrite list_lookup_middle by done.
    pose proof (alloc_tick_step cap now cap _ _ t (Z.le_refl _) Hcap' Hwf Ep) as [H1 H2].
    destruct (tick now cap (new_counter now)) as [ok ac']; cbn in H1, H2.
    split; [split; [done|split; [done|exact H1]]|exact H2].
Qed.

#[global] Instance tenant_limiter (cap : Z) (Hcap : 0 < cap) (rd : R)
  : WindowLimiter (RateLimiter (U:=U)) U.
Proof using redis_run uuid_String.
  refine {| wl_allow := fun now t rl => fst (AllowTenant uuid_String redis_run now t rl rd);
            wl_inv := tenant_inv cap;
            wl_view := fun rl => pointer_view (heap rl) (tenantCounters rl);
            wl_cap := cap; wl_window := Day; wl_close := day_end |}.
  - lia.
  - intros t. by apply aligned_close_after.
  - intros t1 t2. by apply aligned_close_gap.
  - intros rl k e n (_ & _ & [Hv _]) Hvk. unfold pointer_view in Hvk.
    destruct (tenantCounters rl !! k) as [p|] eqn:Ep; [|done].
    destruct (Hv k p Ep) as (ac & Ha & Hs). cbn in Hvk. rewrite Ha in Hvk. cbn in Hvk.
    injection Hvk as <- <-. exact Hs.
  - intros now k rl Hi. apply (AllowTenant_step cap now k rl rd Hcap Hi).
Defined.
End caps.

(** * Interleaved calls

Concurrent [Allow] calls of one user, one critical section at a time
(in-memory mode). *)

Inductive call_pc :=
| Start
| Entered (ac : option nat)
| Done (ok : bool).

Section interleaving.

Context {U : Type} `{Countable U} (now : Z) (u : U) (tier : string).

Definition after_enter (e : entered) : call_pc :=
  match e with
  | RampDenied => Done false
  | RampCounted => Done true
  | Continue ac => Entered ac
  end.

Inductive allow_step : list call_pc * RateLimiter (U:=U) ->
                       list call_pc * RateLimiter (U:=U) -> Prop :=
| do_enter (i : nat) (pcs : list call_pc) rl :
    pcs !! i = Some Start ->
    allow_step (pcs, rl)
      (<[i := after_enter (fst (allow_enter now u tier rl))]> pcs,
       snd (allow_enter now u tier rl))
| do_finish (i : nat) (pcs : list call_pc) ac rl :
    pcs !! i = Some (Entered ac) ->
    allow_step (pcs, rl)
      (<[i := Done (fst (allow_finish now u (tierLimit tier) ac rl))]> pcs,
       snd (allow_finish now u (tierLimit tier) ac rl)).

Lemma finish_fresh limit rl :
  0 < limit -> fst (allow_finish now u limit None rl) = true.
Proof.
  intros Hl. unfold allow_finish, alloc_user, tick_at. cbn [heap].
  rewrite list_lookup_middle by done. unfold tick, roll, new_counter.
  cbn [windowEnd count createdAt].
  destruct (day_end now <? now) eqn:E; bool_prop;
    (destruct (limit <=? _) eqn:El; bool_prop; [cbn in El; lia|done]).
Qed.

Lemma insert_split {A} (x y : A) j k :
  <[j := y]> (replicate j y ++ x :: replicate k x) = replicate (S j) y ++ replicate k x.
Proof.
  rewrite insert_app_r_alt by (rewrite length_replicate; lia).
  rewrite length_replicate, Nat.sub_diag. cbn [list_insert].
  change (<[0%nat:=y]> (x :: replicate k x)) with (y :: replicate k x).
  rewrite replicate_S_end, <-app_assoc. done.
Qed.

Lemma all_enter rl k j :
  counters rl !! u = None ->
  rtc allow_step (replicate j (Entered None) ++ replicate k Start, rl)
                 (replicate (j + k) (Entered None), rl).
Proof.
  intros Hu. revert j. induction k as [|k IH]; intros j; cbn [replicate].
  - rewrite app_nil_r, Nat.add_0_r. done.
  - eapply rtc_l.
    + apply (do_enter j). apply list_lookup_middle. by rewrite length_replicate.
    + unfold allow_enter. rewrite Hu. cbn [after_enter fst snd].
      rewrite insert_split. replace (j + S k)%nat with (S j + k)%nat by lia. apply IH.
Qed.

Lemma all_finish rl k j :
  exists rl', rtc allow_step (replicate j (Done true) ++ replicate k (Entered None), rl)
                             (replicate (j + k) (Done true), rl').
Proof.
  revert j rl. induction k as [|k IH]; intros j rl; cbn [replicate].
  - exists rl. rewrite app_nil_r, Nat.add_0_r. done.
  - destruct (IH (S j) (snd (allow_finish now u (tierLimit tier) None rl))) as [rl' Hrl'].
    exists rl'. eapply rtc_l.
    + apply (do_finish j _ None). apply list_lookup_middle. by rewrite length_replicate.
    + rewrite finish_fresh by (pose proof (tierLimit_pos tier); unfold limitFree in *; lia).
      rewrite insert_split. replace (j + S k)%nat with (S j + k)%nat by lia. exact Hrl'.
Qed.
End interleaving.

(** * Properties *)




(** The aggregate cap of a tenant: at most twice [tenantDailyCap] sends in
    any 24 hours, over all its users. *)
Theorem tenant_send_cap {U : Type} `{Countable U} (uuid_String : U -> string)
    {R : Type} (redis_run : R -> string -> Z -> option Z * R) (rd : R)
    cap (Hcap : 0 < cap) (t : U) a calls rl
    (HI : tenant_inv cap rl) (HO : ordered a calls) (HB : before (a + Day) calls) :
  granted (WL := tenant_limiter uuid_String redis_run cap Hcap rd) t calls rl <= 2 * cap.
Proof.
  exact (granted_in_span (WL := tenant_limiter uuid_String redis_run cap Hcap rd)
           t calls rl a HI HO HB).
Qed.

Lemma tenant_send_cap_witness :
  granted (WL := tenant_limiter (fun n : nat => "t"%string) (fun (r : unit) _ _ => (None, r))
             10000 ltac:(lia) tt) 7%nat [(1, 7%nat); (2, 7%nat)] NewRateLimiter <= 20000.
Proof.
  refine (tenant_send_cap (fun n : nat => "t"%string) (fun (r : unit) _ _ => (None, r)) tt
           10000 _ 7%nat 1 [(1, 7%nat); (2, 7%nat)] NewRateLimiter _ _ _).
  - split; [done|split; [done|]]. split; intros k p; cbn; by rewrite lookup_empty.
  - cbn. lia.
  - repeat constructor; cbn; unfold Day, Hour, Minute, Second; lia.
Defined.

(** The daily cap does not hold for concurrent calls: [Allow] looks the
    counter up in one critical section and creates it in another, so for any
    [n] there is a schedule of [n] simultaneous first calls of one user that
    are all granted. *)
Theorem concurrent_first_sends_all_granted {U : Type} `{Countable U} now (u : U) tier n rl
    (HU : counters rl !! u = None) :
  exists rl', rtc (allow_step now u tier)
                  (replicate n Start, rl) (replicate n (Done true), rl').
Proof.
  destruct (all_finish now u tier rl n 0) as [rl' Hfin]. exists rl'.
  etransitivity; [exact (all_enter now u tier rl n 0 HU)|exact Hfin].
Qed.

Lemma concurrent_first_sends_all_granted_witness :
  limitFree < 100 /\
  exists rl', rtc (allow_step 0 7%nat "free")
                  (replicate 100 Start, NewRateLimiter) (replicate 100 (Done true), rl').
Proof.
  split; [done|]. apply concurrent_first_sends_all_granted. reflexivity.
Defined.
