(* ===== verification/GatewayLimit.v ===== *)
(** The gateway's limiters: the count-min sketch and [GatewayRateLimiter] of
    internal/gateway/ratelimit.go, and the per-IP limiter of
    cmd/gateway/main.go built on the same sketch. *)

From S2P Require Import Prelude GoNet Hex RateWindow RateLimit.
Local Open Scope Z_scope.

(** * CountMinSketch *)

Record CountMinSketch := { width : Z; depth : nat; matrix : list (list Z) }.

Section sketch.

Context (sha256 : bytes -> bytes).

Definition NewCountMinSketch (w : Z) (d : nat) : CountMinSketch :=
  {| width := w; depth := d; matrix := replicate d (replicate (Z.to_nat w) 0) |}.

(** Big-endian bytes of a 32-bit integer, and the value of big-endian bytes. *)
Definition be32 (n : Z) : bytes :=
  (fun s => default x00 (Byte.of_N (Z.to_N (Z.land (Z.shiftr n s) 255)))) <$> [24; 16; 8; 0].

Definition be_value (b : bytes) : Z := foldl (fun acc x => acc * 256 + byteZ x) 0 b.

Definition hash (cms : CountMinSketch) (row : nat) (key : bytes) : nat :=
  Z.to_nat (be_value (firstn 8 (sha256 (be32 (Z.of_nat row) ++ key))) mod width cms).

(** [cms.matrix[i][idx]++] for every row, on 64-bit counters. *)
Definition increment_row (cms : CountMinSketch) (key : bytes) (i : nat) (r : list Z)
    : list Z :=
  alter (fun c => u64 (c + 1)) (hash cms i key) r.

Definition Increment (key : bytes) (cms : CountMinSketch) : CountMinSketch :=
  {| width := width cms; depth := depth cms;
     matrix := imap (fun i r => if (i <? depth cms)%nat then increment_row cms key i r else r)
                    (matrix cms) |}.

(** [min(math.MaxUint64, cells)]. *)
Definition cell (cms : CountMinSketch) (key : bytes) (i : nat) : Z :=
  default 0 (r ← matrix cms !! i; r !! hash cms i key).

Definition min_cells (cms : CountMinSketch) (key : bytes) : Z :=
  foldl (fun m i => if cell cms key i <? m then cell cms key i else m)
        (2 ^ 64 - 1) (seq 0 (depth cms)).

(** The conversion [int(min)] is two's complement. *)
Definition int_of_u64 (x : Z) : Z := if x <? 2 ^ 63 then x else x - 2 ^ 64.

Definition Estimate (key : bytes) (cms : CountMinSketch) : Z :=
  int_of_u64 (min_cells cms key).

Definition Reset (cms : CountMinSketch) : CountMinSketch :=
  {| width := width cms; depth := depth cms;
     matrix := (fun r : list Z => (fun _ => 0) <$> r) <$> matrix cms |}.

(** ** The estimate never falls below the true count *)

Definition shaped (cms : CountMinSketch) : Prop :=
  0 < width cms /\ length (matrix cms) = depth cms /\
  Forall (fun r => Z.of_nat (length r) = width cms) (matrix cms).

Lemma shaped_new w d : 0 < w -> shaped (NewCountMinSketch w d).
Proof.
  intros Hw. unfold shaped, NewCountMinSketch. cbn. rewrite length_replicate.
  repeat split; [done|]. apply Forall_replicate. rewrite length_replicate. lia.
Qed.

Lemma shaped_increment key cms : shaped cms -> shaped (Increment key cms).
Proof.
  intros (Hw & Hl & Hr). unfold shaped, Increment. cbn [matrix width depth]. rewrite length_imap.
  repeat split; [done..|]. apply Forall_lookup. intros i r.
  rewrite list_lookup_imap. intros (r0 & E0 & ->)%fmap_Some.
  rewrite Forall_lookup in Hr. specialize (Hr _ _ E0).
  destruct (i <? depth cms)%nat; [|done].
  unfold increment_row. by rewrite length_alter.
Qed.

Lemma shaped_reset cms : shaped cms -> shaped (Reset cms).
Proof.
  intros (Hw & Hl & Hr). unfold shaped, Reset. cbn. rewrite length_fmap.
  repeat split; [done..|]. apply Forall_fmap. eapply Forall_impl; [exact Hr|].
  cbn. intros r. by rewrite length_fmap.
Qed.

Lemma hash_in_row cms i key r :
  shaped cms -> matrix cms !! i = Some r -> is_Some (r !! hash cms i key).
Proof.
  intros (Hw & _ & Hr) Hi. rewrite Forall_lookup in Hr. specialize (Hr _ _ Hi).
  apply lookup_lt_is_Some. unfold hash.
  pose proof (Z.mod_pos_bound
    (be_value (firstn 8 (sha256 (be32 (Z.of_nat i) ++ key)))) (width cms) Hw). lia.
Qed.

(** Every row's cell of [key] counts at least [n]; no cell exceeds [total]. *)
Definition counts_at_least (cms : CountMinSketch) (key : bytes) (n : Z) : Prop :=
  forall i, (i < depth cms)%nat -> n <= cell cms key i.

Definition cells_below (cms : CountMinSketch) (total : Z) : Prop :=
  forall (i j : nat) (r : list Z) c,
    matrix cms !! i = Some r -> r !! j = Some c -> 0 <= c <= total.

Lemma cell_increment cms key key' i :
  shaped cms -> cells_below cms (2 ^ 64 - 2) -> (i < depth cms)%nat ->
  cell (Increment key cms) key' i =
    cell cms key' i + (if bool_decide (hash cms i key = hash cms i key') then 1 else 0).
Proof.
  intros Hs Hb Hi. pose proof Hs as (_ & Hl & _).
  destruct (lookup_lt_is_Some_2 (matrix cms) i ltac:(lia)) as [r Hr].
  destruct (hash_in_row cms i key' r Hs Hr) as [c Hc].
  unfold cell. change (hash (Increment key cms) i key') with (hash cms i key').
  unfold Increment. cbn [matrix]. rewrite list_lookup_imap, Hr.
  cbn [fmap option_fmap option_map mbind option_bind].
  destruct (Nat.ltb_spec i (depth cms)); [|lia].
  unfold increment_row. case_bool_decide as Eh.
  - rewrite Eh, list_lookup_alter_eq, Hc. cbn. unfold u64. rewrite Z.mod_small; [done|].
    specialize (Hb i _ r c Hr Hc). lia.
  - rewrite list_lookup_alter_ne by done. rewrite Hc. cbn. lia.
Qed.

Lemma cells_below_increment cms key total :
  total <= 2 ^ 64 - 2 -> cells_below cms total -> cells_below (Increment key cms) (total + 1).
Proof.
  intros Ht Hb i j r c. unfold Increment. cbn [matrix]. rewrite list_lookup_imap.
  intros (r0 & E0 & ->)%fmap_Some.
  destruct (i <? depth cms)%nat; [|intros Hc; specialize (Hb _ _ _ _ E0 Hc); lia].
  unfold increment_row. intros Hc.
  destruct (decide (j = hash cms i key)) as [->|Hne].
  - rewrite list_lookup_alter_eq in Hc. apply fmap_Some in Hc as (c0 & Hc0 & ->).
    specialize (Hb _ _ _ _ E0 Hc0). rewrite u64_small by lia. lia.
  - rewrite list_lookup_alter_ne in Hc by done. specialize (Hb _ _ _ _ E0 Hc). lia.
Qed.

Lemma cells_below_reset cms : cells_below (Reset cms) 0.
Proof.
  intros i j r c. unfold Reset. cbn [matrix]. rewrite list_lookup_fmap.
  intros (r0 & _ & ->)%fmap_Some. rewrite list_lookup_fmap.
  intros (c0 & _ & ->)%fmap_Some. lia.
Qed.

Lemma cells_below_weaken cms t t' : t <= t' -> cells_below cms t -> cells_below cms t'.
Proof. intros Ht Hb i j r c Hr Hc. specialize (Hb _ _ _ _ Hr Hc). lia. Qed.

Lemma min_cells_lower cms key n :
  n <= 2 ^ 64 - 1 -> counts_at_least cms key n -> n <= min_cells cms key.
Proof.
  unfold counts_at_least, min_cells. intros Hn Hc.
  assert (forall l m, n <= m -> (forall i, i ∈ l -> n <= cell cms key i) ->
    n <= foldl (fun m i => if cell cms key i <? m then cell cms key i else m) m l) as Hfold.
  { induction l as [|i l IH]; intros m Hm Hl; cbn [foldl]; [done|]. apply IH.
    - destruct (_ <? _); [|done]. apply Hl. left.
    - intros j Hj. apply Hl. by right. }
  apply Hfold; [done|]. intros i Hi. apply elem_of_seq in Hi. apply Hc. lia.
Qed.

(** With at least one row, the minimum is at most any cell. *)
Lemma min_cells_upper cms key i :
  (i < depth cms)%nat -> min_cells cms key <= cell cms key i.
Proof.
  unfold min_cells. intros Hi.
  assert (forall l m, foldl (fun m i => if cell cms key i <? m then cell cms key i else m) m l
            <= m) as Hle.
  { induction l as [|j l IH]; intros m; cbn [foldl]; [done|].
    etransitivity; [apply IH|]. destruct (Z.ltb_spec (cell cms key j) m); lia. }
  assert (forall l m, i ∈ l ->
    foldl (fun m i => if cell cms key i <? m then cell cms key i else m) m l
      <= cell cms key i) as Hin.
  { induction l as [|j l IH]; intros m Hm; [by apply not_elem_of_nil in Hm|].
    cbn [foldl]. apply elem_of_cons in Hm as [<-|Hm]; [|by apply IH].
    etransitivity; [apply Hle|]. destruct (Z.ltb_spec (cell cms key i) m); lia. }
  apply Hin, elem_of_seq. lia.
Qed.

Definition occurrences (key : bytes) (ks : list bytes) : Z :=
  Z.of_nat (length (filter (fun k => k = key) ks)).

(** Incrementing for [ks] from a reset sketch. *)
Definition increments (ks : list bytes) (cms : CountMinSketch) : CountMinSketch :=
  foldl (fun c k => Increment k c) cms ks.

Lemma increments_counted ks cms key n total :
  shaped cms -> cells_below cms total -> counts_at_least cms key n ->
  total + Z.of_nat (length ks) < 2 ^ 64 - 1 ->
  let cms' := increments ks cms in
  shaped cms' /\ cells_below cms' (total + Z.of_nat (length ks)) /\
  counts_at_least cms' key (n + occurrences key ks).
Proof.
  revert cms n total. induction ks as [|k ks IH]; intros cms n total Hs Hb Hc Ht.
  - cbn. rewrite !Z.add_0_r. done.
  - cbn [increments foldl].
    assert (Hc' : counts_at_least (Increment k cms) key
              (n + if bool_decide (k = key) then 1 else 0)).
    { intros i Hi. rewrite cell_increment; [|done| |done].
      - specialize (Hc i Hi). repeat case_bool_decide; subst; try done; lia.
      - eapply cells_below_weaken; [|exact Hb]. cbn [length] in Ht. lia. }
    destruct (IH (Increment k cms) (n + if bool_decide (k = key) then 1 else 0) (total + 1)) as (H1 & H2 & H3); cbn [length] in *.
    + by apply shaped_increment.
    + apply cells_below_increment; [lia|done].
    + exact Hc'.
    + lia.
    + split; [done|]. split.
      * replace (total + Z.of_nat (S (length ks))) with
          (total + 1 + Z.of_nat (length ks)) by lia. done.
      * intros i Hi. specialize (H3 i Hi). unfold occurrences in *. rewrite filter_cons.
        fold (increments ks (Increment k cms)).
        case_bool_decide; case_decide; try done; cbn [length]; lia.
Qed.
End sketch.

(** * internal/gateway: GatewayRateLimiter *)

Module Gateway.

Section gateway.

Context (sha256 : bytes -> bytes).
Context {R : Type} (redis_run : R -> string -> Z -> option Z * R).

Record GatewayRateLimiter := {
  authLimit : Z;
  unauthLimit : Z;
  redisRL : option Redis.RedisRateLimiter;
  authCounts : gmap string start_bucket;
  unauthSketch : CountMinSketch;
  dailySalt : bytes;
  saltRotated : Z;
  limStart : Z                            (* field windowStart *)
}.

Definition NewGatewayRateLimiter (now : Z) (salt : bytes) (authLimit unauthLimit : Z)
    (rr : option Redis.RedisRateLimiter) : GatewayRateLimiter :=
  {| authLimit := authLimit; unauthLimit := unauthLimit; redisRL := rr;
     authCounts := ∅; unauthSketch := NewCountMinSketch 4096 4; dailySalt := salt;
     saltRotated := now; limStart := now |}.

Definition with_auth (rl : GatewayRateLimiter) (m : gmap string start_bucket) :=
  {| authLimit := authLimit rl; unauthLimit := unauthLimit rl; redisRL := redisRL rl;
     authCounts := m; unauthSketch := unauthSketch rl; dailySalt := dailySalt rl;
     saltRotated := saltRotated rl; limStart := limStart rl |}.

Definition with_sketch (rl : GatewayRateLimiter) (c : CountMinSketch) :=
  {| authLimit := authLimit rl; unauthLimit := unauthLimit rl; redisRL := redisRL rl;
     authCounts := authCounts rl; unauthSketch := c; dailySalt := dailySalt rl;
     saltRotated := saltRotated rl; limStart := limStart rl |}.

Definition with_redisRL (rl : GatewayRateLimiter) (rr : Redis.RedisRateLimiter) :=
  {| authLimit := authLimit rl; unauthLimit := unauthLimit rl; redisRL := Some rr;
     authCounts := authCounts rl; unauthSketch := unauthSketch rl;
     dailySalt := dailySalt rl; saltRotated := saltRotated rl; limStart := limStart rl |}.

(** [rnd] is what [rand.Read] delivers if the salt is rotated. *)
Definition rotateSaltIfNeeded (now : Z) (rnd : bytes) (rl : GatewayRateLimiter) :=
  if 24 * Hour <=? now - saltRotated rl then
    {| authLimit := authLimit rl; unauthLimit := unauthLimit rl; redisRL := redisRL rl;
       authCounts := authCounts rl; unauthSketch := Reset (unauthSketch rl);
       dailySalt := rnd; saltRotated := now; limStart := limStart rl |}
  else rl.

Definition resetWindowIfNeeded (now : Z) (rl : GatewayRateLimiter) :=
  if Minute <=? now - limStart rl then
    {| authLimit := authLimit rl; unauthLimit := unauthLimit rl; redisRL := redisRL rl;
       authCounts := filter (fun kb => ~ Minute <= now - windowStart kb.2) (authCounts rl);
       unauthSketch := Reset (unauthSketch rl); dailySalt := dailySalt rl;
       saltRotated := saltRotated rl; limStart := now |}
  else rl.

(** [hashIPWithSalt] (and [hashIP] of cmd/gateway). *)
Definition hashIPWithSalt (remoteAddr salt : bytes) : bytes :=
  sha256 (normalize_host (host_of remoteAddr) ++ salt).

Definition allow_user (now : Z) (userID : string) (rl : GatewayRateLimiter)
    : bool * GatewayRateLimiter :=
  let fresh := (true, with_auth rl
    (<[userID := {| scount := 1; windowStart := now |}]> (authCounts rl))) in
  match authCounts rl !! userID with
  | None => fresh
  | Some b =>
      if Minute <=? now - windowStart b then fresh
      else
        let n := scount b + 1 in
        (n <=? authLimit rl, with_auth rl
           (<[userID := {| scount := n; windowStart := windowStart b |}]> (authCounts rl)))
  end.

Definition Allow (now : Z) (rnd : bytes) (userID : string) (remoteAddr : bytes)
    (rl : GatewayRateLimiter) (rd : R) : bool * GatewayRateLimiter * R :=
  let rl := resetWindowIfNeeded now (rotateSaltIfNeeded now rnd rl) in
  let via_redis rr key limit :=
    let '(ok, rr', rd') := Redis.Allow redis_run now rr rd key limit Minute in
    (ok, with_redisRL rl rr', rd') in
  match userID with
  | EmptyString =>
      if unauthLimit rl <=? 0 then (true, rl, rd)
      else
        let key := hashIPWithSalt remoteAddr (dailySalt rl) in
        match redisRL rl with
        | Some rr => via_redis rr ("gateway:unauth:" ++ hex_EncodeToString key)%string
                               (unauthLimit rl)
        | None =>
            let c := Increment sha256 key (unauthSketch rl) in
            (Estimate sha256 key c <=? unauthLimit rl, with_sketch rl c, rd)
        end
  | _ =>
      match redisRL rl with
      | Some rr => via_redis rr ("gateway:auth:" ++ userID)%string (authLimit rl)
      | None => let '(ok, rl) := allow_user now userID rl in (ok, rl, rd)
      end
  end.

(** ** The client's address *)

Record request := { RemoteAddr : bytes; Header : string -> bytes }.

Definition ExtractClientIP (r : request) : bytes :=
  match Header r "CF-Connecting-IP" with
  | _ :: _ as cfIP => cfIP
  | [] =>
      match ParseIP (host_of (RemoteAddr r)) with
      | Some ip =>
          if IsLoopback ip then
            match Header r "X-Real-IP", Header r "X-Forwarded-For" with
            | _ :: _ as xri, _ => xri
            | [], _ :: _ as xff =>
                match IndexByte "," xff with
                | Some idx => TrimSpace (firstn idx xff)
                | None => TrimSpace xff
                end
            | [], [] => RemoteAddr r
            end
          else RemoteAddr r
      | None => RemoteAddr r
      end
  end.

Definition IPOnlyRateLimitMiddleware {A} (now : Z) (rnd : bytes) (r : request)
    (next refused : A) (rl : GatewayRateLimiter) (rd : R) : A * GatewayRateLimiter * R :=
  let '(ok, rl, rd) := Allow now rnd "" (ExtractClientIP r) rl rd in
  ((if ok then next else refused), rl, rd).

(** ** Authenticated users, in memory *)

Definition auth_inv (limit : Z) (rl : GatewayRateLimiter) : Prop :=
  redisRL rl = None /\ authLimit rl = limit /\ start_inv (authCounts rl).

Lemma refreshed_step now rnd rl k :
  view_step (fun t => t + Minute) now false
    (start_map_view (authLimit rl) Minute (authCounts rl) k)
    (start_map_view (authLimit rl) Minute
       (authCounts (resetWindowIfNeeded now (rotateSaltIfNeeded now rnd rl))) k).
Proof.
  unfold resetWindowIfNeeded, rotateSaltIfNeeded. repeat break_if; cbn;
    try auto with bmail; apply filter_step; cbn; intros b _ Hk; lia.
Qed.

Lemma refreshed_keeps now rnd rl k b :
  authCounts (resetWindowIfNeeded now (rotateSaltIfNeeded now rnd rl)) !! k = Some b ->
  authCounts rl !! k = Some b.
Proof.
  unfold resetWindowIfNeeded, rotateSaltIfNeeded. repeat break_if; cbn; try done;
    intros Hb; by apply map_lookup_filter_Some in Hb as [Hb _].
Qed.

Lemma refreshed_inv limit now rnd rl :
  auth_inv limit rl ->
  auth_inv limit (resetWindowIfNeeded now (rotateSaltIfNeeded now rnd rl)).
Proof.
  intros (Hr & Hl & Hi). unfold auth_inv. split; [|split].
  - unfold resetWindowIfNeeded, rotateSaltIfNeeded. by repeat break_if.
  - unfold resetWindowIfNeeded, rotateSaltIfNeeded. by repeat break_if.
  - intros k b Hb. apply refreshed_keeps in Hb. by apply (Hi k).
Qed.

Lemma allow_user_step now k rl limit :
  auth_inv limit rl ->
  auth_inv limit (allow_user now k rl).2 /\
  forall k', view_step (fun t => t + Minute) now
    (bool_decide (k' = k) && (allow_user now k rl).1)
    (start_map_view limit Minute (authCounts rl) k')
    (start_map_view limit Minute (authCounts (allow_user now k rl).2) k').
Proof.
  intros (Hr & <- & Hi). unfold allow_user, auth_inv.
  destruct (authCounts rl !! k) as [b|] eqn:Eb.
  - pose proof (Hi k b Eb) as Hb. cbn in Hb.
    destruct (Minute <=? now - windowStart b) eqn:Ew; bool_prop;
      cbn [fst snd authCounts with_auth authLimit redisRL].
    + split; [split; [done|split; [done|by apply start_inv_insert]]|].
      apply start_open_step. intros b' Hb'. assert (b' = b) as -> by congruence. lia.
    + split; [split; [done|split; [done|apply start_inv_insert; [lia|done]]]|].
      destruct (scount b + 1 <=? authLimit rl) eqn:El; bool_prop;
        (eapply bump_step; [exact Eb|cbn; lia|done|cbn; lia]).
  - cbn [fst snd authCounts with_auth authLimit redisRL].
    split; [split; [done|split; [done|by apply start_inv_insert]]|].
    apply start_open_step. intros b' Hb'. congruence.
Qed.

(** The limiter of authenticated users; a user ID is non-empty, given by its
    first character and the rest. *)
Section instance.

Context (limit : Z) (rnd : Z -> bytes) (addr : bytes) (rd : R).

Definition user_allow (now : Z) (u : ascii * string) (rl : GatewayRateLimiter) :=
  fst (Allow now (rnd now) (String (fst u) (snd u)) addr rl rd).

Lemma user_allow_eq now u rl :
  auth_inv limit rl ->
  user_allow now u rl =
    allow_user now (String (fst u) (snd u))
      (resetWindowIfNeeded now (rotateSaltIfNeeded now (rnd now) rl)).
Proof.
  intros Hi. unfold user_allow, Allow.
  destruct (refreshed_inv limit now (rnd now) rl Hi) as (Hr & _ & _). rewrite Hr.
  by destruct (allow_user _ _ _).
Qed.

#[global] Instance gateway_user_limiter
  : WindowLimiter GatewayRateLimiter (ascii * string).
Proof using limit rnd addr rd redis_run sha256.
  refine {| wl_allow := user_allow; wl_inv := auth_inv limit;
            wl_view := fun rl u => start_map_view limit Minute (authCounts rl)
                                     (String (fst u) (snd u));
            wl_cap := Z.max 1 limit; wl_window := Minute;
            wl_close := fun t => t + Minute |}.
  - lia.
  - unfold Minute, Second. intros. lia.
  - intros. lia.
  - intros rl k e n (_ & _ & Hi). by apply start_view_bound.
  - intros now u rl Hi. rewrite user_allow_eq by done.
    pose proof (refreshed_inv limit now (rnd now) rl Hi) as Hi2.
    destruct (allow_user_step now (String (fst u) (snd u)) _ limit Hi2) as [Hi' Hs].
    split; [done|]. intros u'.
    rewrite (bool_decide_ext (u' = u)
               (String (fst u') (snd u') = String (fst u) (snd u)))
      by (destruct u, u'; cbn; naive_solver).
    eapply view_step_trans_evict; [| |].
    + pose proof (refreshed_step now (rnd now) rl (String (fst u') (snd u'))) as Hrs.
      destruct Hi as (_ & Hl & _). rewrite Hl in Hrs. exact Hrs.
    + apply Hs.
    + intros e n He. unfold start_map_view in *.
      destruct (authCounts (resetWindowIfNeeded _ _) !! _) as [b|] eqn:Eb; [|by right].
      left. apply refreshed_keeps in Eb. by rewrite Eb in He.
Defined.
End instance.
End gateway.
End Gateway.

(** * cmd/gateway/main.go: ipRateLimiter *)

Module IPSketch.

Section sketch_limiter.

Context (sha256 : bytes -> bytes).

Record ipRateLimiter := {
  sketch : CountMinSketch;
  limit : Z;
  window : Z;
  salt : bytes;
  winStart : Z;                           (* field windowStart *)
  saltRotated : Z
}.

Definition newIPRateLimiter (now : Z) (rnd : bytes) (limit window : Z) : ipRateLimiter :=
  {| sketch := NewCountMinSketch 4096 4; limit := limit; window := window; salt := rnd;
     winStart := now; saltRotated := now |}.

(** The salt's lifetime, [max(24h, window)]. *)
Definition saltCap (rl : ipRateLimiter) : Z :=
  if 24 * Hour <? window rl then window rl else 24 * Hour.

Definition rotate (now : Z) (rnd : bytes) (rl : ipRateLimiter) : ipRateLimiter :=
  if saltCap rl <=? now - saltRotated rl then
    {| sketch := Reset (sketch rl); limit := limit rl; window := window rl; salt := rnd;
       winStart := winStart rl; saltRotated := now |}
  else rl.

Definition reset_window (now : Z) (rl : ipRateLimiter) : ipRateLimiter :=
  if window rl <=? now - winStart rl then
    {| sketch := Reset (sketch rl); limit := limit rl; window := window rl;
       salt := salt rl; winStart := now; saltRotated := saltRotated rl |}
  else rl.

Definition with_sketch (rl : ipRateLimiter) (c : CountMinSketch) : ipRateLimiter :=
  {| sketch := c; limit := limit rl; window := window rl; salt := salt rl;
     winStart := winStart rl; saltRotated := saltRotated rl |}.

Definition hashIP (remoteAddr salt : bytes) : bytes :=
  sha256 (normalize_host (host_of remoteAddr) ++ salt).

Definition allow (now : Z) (rnd remoteAddr : bytes) (rl : ipRateLimiter)
    : bool * ipRateLimiter :=
  let rl := reset_window now (rotate now rnd rl) in
  let key := hashIP remoteAddr (salt rl) in
  let c := Increment sha256 key (sketch rl) in
  (Estimate sha256 key c <=? limit rl, with_sketch rl c).

(** ** One epoch: no salt rotation and no window reset *)

Definition in_epoch (rl : ipRateLimiter) (now : Z) : Prop :=
  now - winStart rl < window rl /\ now - saltRotated rl < saltCap rl.

Lemma allow_in_epoch now rnd addr rl :
  in_epoch rl now ->
  allow now rnd addr rl =
    let key := hashIP addr (salt rl) in
    let c := Increment sha256 key (sketch rl) in
    (Estimate sha256 key c <=? limit rl, with_sketch rl c).
Proof.
  intros [Hw Hs]. unfold allow, rotate.
  destruct (Z.leb_spec (saltCap rl) (now - saltRotated rl)); [lia|].
  unfold reset_window. destruct (Z.leb_spec (window rl) (now - winStart rl)); [lia|done].
Qed.

(** What is known of the sketch: shape, a bound on all its cells, and a lower
    bound on the cells of [key]. *)
Definition tracked (key : bytes) (n total : Z) (rl : ipRateLimiter) : Prop :=
  shaped (sketch rl) /\ (0 < depth (sketch rl))%nat /\
  cells_below (sketch rl) total /\ counts_at_least sha256 (sketch rl) key n.

Lemma tracked_new now rnd lim w key : tracked key 0 0 (newIPRateLimiter now rnd lim w).
Proof.
  unfold tracked. cbn. split; [by apply shaped_new|]. split; [lia|].
  assert (cells_below (NewCountMinSketch 4096 4) 0) as Hb.
  { intros i j r c Hi Hj. cbn [NewCountMinSketch matrix] in Hi.
    apply lookup_replicate in Hi as [-> _]. apply lookup_replicate in Hj as [-> _]. lia. }
  split; [exact Hb|]. intros i Hi. unfold cell.
  destruct (matrix (NewCountMinSketch 4096 4) !! i) as [r|] eqn:Er; [|cbn; lia].
  cbn [mbind option_bind].
  destruct (r !! hash sha256 (NewCountMinSketch 4096 4) i key) as [c|] eqn:Ec; cbn; [|lia].
  specialize (Hb i _ r c Er Ec). lia.
Qed.

Lemma tracked_allow now rnd addr rl key n total :
  in_epoch rl now -> total < 2 ^ 63 - 1 -> tracked key n total rl ->
  let r := allow now rnd addr rl in
  let hit := bool_decide (hashIP addr (salt rl) = key) in
  tracked key (n + b2z hit) (total + 1) (snd r) /\
  (hit = true -> fst r = true -> n + 1 <= limit rl) /\
  limit (snd r) = limit rl /\ salt (snd r) = salt rl /\
  (forall t, in_epoch rl t -> in_epoch (snd r) t).
Proof.
  intros He Ht (Hs & Hd & Hb & Hc) r hit. subst r hit.
  rewrite allow_in_epoch by done. cbn [fst snd with_sketch limit salt sketch].
  set (k := hashIP addr (salt rl)).
  assert (Hc' : counts_at_least sha256 (Increment sha256 k (sketch rl)) key
                  (n + b2z (bool_decide (k = key)))).
  { intros i Hi. rewrite cell_increment; [|done| |done].
    - specialize (Hc i Hi). repeat case_bool_decide; subst; try done; cbn; lia.
    - eapply cells_below_weaken; [|exact Hb]. lia. }
  assert (Hb' : cells_below (Increment sha256 k (sketch rl)) (total + 1))
    by (apply cells_below_increment; [lia|done]).
  assert (Hs' : shaped (Increment sha256 k (sketch rl))) by (by apply shaped_increment).
  split; [split; [done|split; [done|split; done]]|].
  split; [|done]. intros Hhit Hok. bool_prop. rewrite bool_decide_true in Hc' by done.
  subst key. cbn [b2z] in Hc'.
  set (c := Increment sha256 k (sketch rl)) in *.
  assert (min_cells sha256 c k <= total + 1) as Hmin.
  { etransitivity; [apply (min_cells_upper sha256 c k 0); cbn; lia|]. unfold cell.
    destruct (matrix c !! 0%nat) as [r|] eqn:Er; cbn; [|].
    - destruct (r !! hash sha256 c 0 k) as [x|] eqn:Ex; cbn.
      + by destruct (Hb' 0%nat _ r x Er Ex).
      + destruct (hash_in_row sha256 c 0 k r Hs' Er) as [y Hy]. congruence.
    - destruct Hs' as (_ & Hl & _). apply lookup_ge_None in Er. cbn in *. lia. }
  pose proof (Hc' 0%nat ltac:(cbn; lia)) as H0.
  assert (n + 1 <= min_cells sha256 c k) as Hlow.
  { apply min_cells_lower; [|done].
    etransitivity; [apply H0|]. unfold cell.
    destruct (matrix c !! 0%nat) as [r|] eqn:Er; cbn; [|lia].
    destruct (r !! hash sha256 c 0 k) as [x|] eqn:Ex; cbn; [|lia].
    destruct (Hb' 0%nat _ r x Er Ex). lia. }
  unfold Estimate, int_of_u64 in Hok.
  destruct (Z.ltb_spec (min_cells sha256 c k) (2 ^ 63)); lia.
Qed.

(** Calls [(time, fresh salt, address)] and the grants to addresses that hash
    to [key] under the current salt. *)
Fixpoint granted_to (key : bytes) (calls : list (Z * bytes * bytes)) (rl : ipRateLimiter)
    : Z :=
  match calls with
  | [] => 0
  | (t, rnd, addr) :: calls =>
      let r := allow t rnd addr rl in
      b2z (bool_decide (hashIP addr (salt rl) = key) && fst r) +
      granted_to key calls (snd r)
  end.

Lemma granted_to_bound key calls rl n total :
  tracked key n total rl -> total + Z.of_nat (length calls) < 2 ^ 63 ->
  Forall (fun c => in_epoch rl (fst (fst c))) calls ->
  granted_to key calls rl <= Z.max 0 (limit rl - n).
Proof.
  revert rl n total. induction calls as [|[[t rnd] addr] calls IH];
    intros rl n total Htr Hlen He; cbn [granted_to]; [lia|].
  apply Forall_cons in He as [He1 He]. cbn [fst] in He1. cbn [length] in Hlen.
  destruct (tracked_allow t rnd addr rl key n total He1 ltac:(lia) Htr)
    as (Htr' & Hok & Hl & Hsalt & Hep).
  specialize (IH _ _ _ Htr' ltac:(lia)
    ltac:(eapply Forall_impl; [exact He|]; intros; by apply Hep)).
  rewrite Hl in IH.
  destruct (bool_decide (hashIP addr (salt rl) = key)) eqn:Eh; cbn [b2z andb] in *; [|lia].
  destruct (fst (allow t rnd addr rl)) eqn:Ef; cbn [b2z] in *; [|lia].
  specialize (Hok eq_refl eq_refl). lia.
Qed.
End sketch_limiter.
End IPSketch.

(** * Properties *)

(** The sketch never underestimates: after any sequence of increments on a
    fresh sketch the estimate of a key is at least the number of its
    increments, and at most the number of all increments (below 2^63 of them,
    where the conversion to [int] is exact). *)
Theorem sketch_never_underestimates sha256 w d key ks
    (HW : 0 < w) (HD : (0 < d)%nat) (HN : Z.of_nat (length ks) < 2 ^ 63) :
  let cms := increments sha256 ks (NewCountMinSketch w d) in
  occurrences key ks <= Estimate sha256 key cms <= Z.of_nat (length ks).
Proof.
  cbv zeta. set (c0 := NewCountMinSketch w d). set (cms := increments sha256 ks c0).
  assert (Hb0 : cells_below c0 0).
  { intros i j r c Hi Hj. apply lookup_replicate in Hi as [-> _].
    apply lookup_replicate in Hj as [-> _]. lia. }
  assert (Hc0 : counts_at_least sha256 c0 key 0).
  { intros i Hi. unfold cell. destruct (matrix c0 !! i) as [r|] eqn:Er; cbn; [|lia].
    destruct (r !! hash sha256 c0 i key) as [c|] eqn:Ec; cbn; [|lia].
    by destruct (Hb0 i _ r c Er Ec). }
  destruct (increments_counted sha256 ks c0 key 0 0) as (Hs & Hb & Hc);
    [by apply shaped_new|done|done|lia|]. fold cms in Hs, Hb, Hc. rewrite !Z.add_0_l in *.
  assert (Hdep : depth cms = d).
  { unfold cms. clear. revert c0. induction ks as [|k ks IH] using rev_ind; intros c0; [done|].
    unfold increments in *. rewrite foldl_app. cbn. apply IH. }
  assert (cell sha256 cms key 0 <= Z.of_nat (length ks)) as H0.
  { unfold cell. destruct (matrix cms !! 0%nat) as [r|] eqn:Er; cbn; [|lia].
    destruct (r !! hash sha256 cms 0 key) as [c|] eqn:Ec; cbn; [|lia].
    by destruct (Hb 0%nat _ r c Er Ec). }
  pose proof (min_cells_upper sha256 cms key 0 ltac:(lia)).
  assert (occurrences key ks <= min_cells sha256 cms key).
  { apply min_cells_lower; [|done]. specialize (Hc 0%nat ltac:(lia)). lia. }
  unfold Estimate, int_of_u64.
  destruct (Z.ltb_spec (min_cells sha256 cms key) (2 ^ 63)); lia.
Qed.

Lemma sketch_never_underestimates_witness :
  let ks := [[x01]; [x02]; [x01]] in
  let cms := increments (fun b => rev b) ks (NewCountMinSketch 16 2) in
  occurrences [x01] ks <= Estimate (fun b => rev b) [x01] cms <= 3.
Proof. refine (sketch_never_underestimates (fun b => rev b) 16 2 [x01] [[x01]; [x02]; [x01]] _ _ _); [lia|lia|done]. Defined.

(** Signed-in users without Redis: at most [2 * max 1 authLimit] requests of
    one user in any minute, salt rotations and window resets included. *)
Theorem gateway_user_cap sha256 {R : Type} (redis_run : R -> string -> Z -> option Z * R)
    limit rnd addr rd u a calls rl
    (HI : Gateway.auth_inv limit rl) (HO : ordered a calls) (HB : before (a + Minute) calls) :
  granted (WL := Gateway.gateway_user_limiter sha256 redis_run limit rnd addr rd) u calls rl
    <= 2 * Z.max 1 limit.
Proof.
  exact (granted_in_span (WL := Gateway.gateway_user_limiter sha256 redis_run limit rnd addr rd)
           u calls rl a HI HO HB).
Qed.

Lemma gateway_user_cap_witness :
  granted (WL := Gateway.gateway_user_limiter (fun b => b) (fun (r : unit) _ _ => (None, r)) 3
             (fun _ => []) [] tt) ("u"%char, "1"%string)
    [(1, ("u"%char, "1"%string)); (2, ("u"%char, "1"%string))]
    (Gateway.NewGatewayRateLimiter 0 [] 3 3 None) <= 6.
Proof.
  apply (gateway_user_cap (fun b => b) (fun (r : unit) _ _ => (None, r)) 3 (fun _ => []) [] tt
           _ 1 _ (Gateway.NewGatewayRateLimiter 0 [] 3 3 None)).
  - split; [done|split; [done|apply map_Forall_empty]].
  - cbn. lia.
  - repeat constructor; cbn; unfold Minute, Second; lia.
Defined.

(** Forwarded headers are believed only from a loopback peer: any other peer
    without Cloudflare's header is identified by its own connection address. *)
Theorem forwarded_only_from_loopback r
    (HC : Gateway.Header r "CF-Connecting-IP" = [])
    (HL : forall ip, ParseIP (host_of (Gateway.RemoteAddr r)) = Some ip -> IsLoopback ip = false) :
  Gateway.ExtractClientIP r = Gateway.RemoteAddr r.
Proof.
  unfold Gateway.ExtractClientIP. rewrite HC.
  destruct (ParseIP _) as [ip|] eqn:E; [|done]. by rewrite (HL ip eq_refl).
Qed.

Lemma forwarded_only_from_loopback_witness :
  let r := {| Gateway.RemoteAddr := string_bytes "198.51.100.4:443";
              Gateway.Header := fun k => if String.eqb k "X-Real-IP" then [x31] else [] |} in
  Gateway.ExtractClientIP r = Gateway.RemoteAddr r.
Proof.
  intros r. apply forwarded_only_from_loopback; [reflexivity|].
  intros ip Hip. vm_compute in Hip. injection Hip as <-. reflexivity.
Defined.
