(* ===== verification/GatewayRouter.v ===== *)
(** The gateway's request path, cmd/gateway/main.go: path normalisation, the
    API handler with its limiters and its credential check, the reverse proxy
    that rebuilds the headers, the redirects and the ACME webroot.

Headers are a finite map from canonical names to value lists.  The
reverse proxy itself is [net/http/httputil.ReverseProxy]: after the
Director it sets [X-Forwarded-For] from the connection's address and an
empty [User-Agent]; [forward] is that standard behaviour around the code's
Director. *)

From S2P Require Import Prelude GoNet FilePath GatewayLimit.
Local Open Scope Z_scope.

(** * Paths *)

Definition has_prefix (s p : string) : bool := HasPrefix (string_bytes s) (string_bytes p).

Definition trim_prefix (s p : string) : string :=
  bytes_string (TrimPrefix (string_bytes s) (string_bytes p)).

Definition gatewayBackendPath (p : string) : string :=
  if has_prefix p "/app/api/" then trim_prefix p "/app/api"
  else if String.eqb p "/app/api" then "/"
  else if has_prefix p "/fakeid/api/" then "/fakeid" ++ trim_prefix p "/fakeid/api"
  else if String.eqb p "/fakeid/api" then "/fakeid"
  else if has_prefix p "/api/" then trim_prefix p "/api"
  else if String.eqb p "/api" then "/"
  else p.

Definition rateLimitedPaths : list string :=
  ["/auth/login/start"; "/auth/login/finish"; "/auth/register/start";
   "/auth/register/finish"; "/auth/recover/start"; "/auth/recover/finish";
   "/auth/recover/email"; "/auth/recover/opaque/start"; "/auth/recover/opaque/ke3";
   "/auth/login/verify-totp"; "/fakeid/auth/login/start"; "/fakeid/auth/login/finish";
   "/fakeid/auth/register/start"; "/fakeid/auth/register/finish";
   "/fakeid/auth/recover/start"; "/fakeid/auth/recover/finish"; "/auth/org/start";
   "/auth/org/register/start"; "/auth/org/register/finish"]%string.

Definition publicPaths : list string :=
  ["/auth/domains"; "/auth/turnstile-config"; "/auth/login/start"; "/auth/login/finish";
   "/auth/login/verify-totp"; "/auth/register/start"; "/auth/register/finish";
   "/auth/register/invite/start"; "/auth/register/invite/finish"; "/auth/org/start";
   "/auth/org/register/start"; "/auth/org/register/finish"; "/auth/recover/start";
   "/auth/recover/finish"; "/auth/recover/email"; "/auth/recover/email/start";
   "/auth/recover/opaque/start"; "/auth/recover/opaque/ke3"; "/auth/refresh";
   "/auth/accounts"; "/auth/push-config"; "/auth/keys"; "/auth/meet-cap";
   "/kt/signing-key"; "/kt/key"; "/kt/root"; "/auth/recipient-keys"; "/auth/pgp-key";
   "/auth/entitlement-pubkey"; "/auth/verify-backup-email"; "/billing/webhook";
   "/affiliate/track"; "/spec"; "/fakeid/auth/login/start"; "/fakeid/auth/login/finish";
   "/fakeid/auth/register/start"; "/fakeid/auth/register/finish";
   "/fakeid/auth/recover/start"; "/fakeid/auth/recover/finish"; "/fakeid/auth/refresh";
   "/fakeid/auth/keys"]%string.

Definition regLimitedPaths : list string :=
  ["/auth/register/finish"; "/auth/register/invite/finish";
   "/fakeid/auth/register/finish"]%string.

(** * Requests *)

Abbreviation Header := (gmap string (list string)).

Definition header_get (h : Header) (k : string) : string :=
  match h !! k with Some (v :: _) => v | _ => "" end.

Definition header_set (h : Header) (k v : string) : Header := <[k := [v]]> h.

Record request := {
  URLPath : string;
  RequestURI : string;
  Host : string;
  RemoteAddr : bytes;
  ReqHeader : Header
}.

(** ** [Request.Cookies] *)

(** [strings.Cut]. *)
Definition cut_byte (c : byte) (s : bytes) : bytes * bytes :=
  match IndexByte c s with
  | Some i => (firstn i s, skipn (S i) s)
  | None => (s, [])
  end.

(** [textproto.TrimString]: ASCII white space. *)
Definition ascii_space : list bytes := [[x20]; [x09]; [x0a]; [x0d]].

Definition TrimString (s : bytes) : bytes :=
  let l := trim_left (length s) ascii_space s in
  rev (trim_left (length l) ascii_space (rev l)).

Definition token_byte (b : byte) : bool :=
  byte_between "0" "9" b || byte_between "a" "z" b || byte_between "A" "Z" b ||
  bool_decide (b ∈ string_bytes "!#$%&'*+-.^_`|~").

Definition isCookieNameValid (s : bytes) : bool :=
  negb (bool_decide (s = [])) && forallb token_byte s.

Definition cookie_value_byte (b : byte) : bool :=
  (32 <=? byteZ b) && (byteZ b <? 127) &&
  negb (bool_decide (b ∈ [x22; x3b; x5c])).

(** [parseCookieValue(raw, true)]: quotes are stripped, the bytes checked. *)
Definition parseCookieValue (raw : bytes) : option bytes :=
  let raw := match raw with
             | x22 :: (_ :: _) as body =>
                 if bool_decide (last body = Some x22) then removelast body else raw
             | _ => raw
             end in
  if forallb cookie_value_byte raw then Some raw else None.

Definition parse_cookie (part : bytes) : option (string * string) :=
  let part := TrimString part in
  if bool_decide (part = []) then None
  else
    let '(name, val) := cut_byte "=" part in
    let name := TrimString name in
    if isCookieNameValid name then
      v ← parseCookieValue val; Some (bytes_string name, bytes_string v)
    else None.

Definition Cookies (h : Header) : list (string * string) :=
  line ← default [] (h !! "Cookie");
  omap parse_cookie (split_byte ";" (TrimString (string_bytes line))).

(** * The API handler *)

Definition hasCredentials (r : request) : bool :=
  existsb (fun c => has_prefix (fst c) "bmail_session" || has_prefix (fst c) "bmail_fakeid_session")
          (Cookies (ReqHeader r)) ||
  negb (String.eqb (header_get (ReqHeader r) "Authorization") "").

(** Headers copied when they are present, in the Director's order. *)
Definition optional_headers : list string :=
  ["X-Csrf-Token"; "X-Request-Id"; "X-Client-Type"; "X-Account-Index"; "X-Reauth-Token";
   "Last-Event-Id"; "Authorization"; "Cache-Control"; "If-None-Match"; "Stripe-Signature";
   "Origin"; "X-Meet-Secret"]%string.

Definition copy_if_present (h : Header) (out : Header) (k : string) : Header :=
  let v := header_get h k in
  if String.eqb v "" then out else header_set out k v.

Definition director_headers (h : Header) (host : string) : Header :=
  let s : Header := ∅ in
  let s := copy_if_present h s "Cookie" in
  let s := header_set s "Content-Type" (header_get h "Content-Type") in
  let s := header_set s "Content-Length" (header_get h "Content-Length") in
  let s := header_set s "Accept" (header_get h "Accept") in
  let s := foldl (copy_if_present h) s optional_headers in
  header_set s "X-Forwarded-Host" host.

(** The request as it leaves for the backend. *)
Record outbound := { out_path : string; out_host : string; out_header : Header }.

Definition director (backendHost : string) (r : request) : outbound :=
  let p := gatewayBackendPath (URLPath r) in
  {| out_path := if String.eqb p "" then "/" else p;
     out_host := backendHost;
     out_header := director_headers (ReqHeader r) (Host r) |}.

(** [httputil.ReverseProxy] with a Director. *)
Definition forward (backendHost : string) (r : request) : outbound :=
  let o := director backendHost r in
  let h := out_header o in
  let h := match SplitHostPort (RemoteAddr r) with
           | None => h
           | Some (clientIP, _) =>
               match h !! "X-Forwarded-For" with
               | Some [] => h
               | Some prior =>
                   header_set h "X-Forwarded-For"
                     (String.concat ", " prior ++ ", " ++ bytes_string clientIP)
               | None => header_set h "X-Forwarded-For" (bytes_string clientIP)
               end
           end in
  let h := match h !! "User-Agent" with
           | Some _ => h
           | None => header_set h "User-Agent" ""
           end in
  {| out_path := out_path o; out_host := out_host o; out_header := h |}.

Inductive api_result :=
| RateLimited (retry_after : string)
| Unauthorized
| Proxied (o : outbound).

Record limiters := {
  limiter : IPSketch.ipRateLimiter;
  regLimiter : IPSketch.ipRateLimiter;
  regDailyLimiter : IPSketch.ipRateLimiter
}.

Section handler.

Context (sha256 : bytes -> bytes) (backendHost : string).

Definition is_public (bp : string) : bool :=
  bool_decide (bp ∈ publicPaths) ||
  has_prefix bp "/drive/shared/" || has_prefix bp "/drive/shared-folder/".

(** [now] and [rnd] are the clock and the fresh salt of this request. *)
Definition apiHandler (now : Z) (rnd : bytes) (r : request) (ls : limiters)
    : api_result * limiters :=
  let bp := gatewayBackendPath (URLPath r) in
  let addr := RemoteAddr r in
  let '(ok1, l1) :=
    if bool_decide (bp ∈ rateLimitedPaths)
    then IPSketch.allow sha256 now rnd addr (limiter ls) else (true, limiter ls) in
  let ls1 := {| limiter := l1; regLimiter := regLimiter ls;
                regDailyLimiter := regDailyLimiter ls |} in
  if negb ok1 then (RateLimited "60", ls1)
  else
    let '(burstOK, l2) :=
      if bool_decide (bp ∈ regLimitedPaths)
      then IPSketch.allow sha256 now rnd addr (regLimiter ls) else (true, regLimiter ls) in
    let '(dailyOK, l3) :=
      if bool_decide (bp ∈ regLimitedPaths)
      then IPSketch.allow sha256 now rnd addr (regDailyLimiter ls)
      else (true, regDailyLimiter ls) in
    let ls2 := {| limiter := l1; regLimiter := l2; regDailyLimiter := l3 |} in
    if negb burstOK || negb dailyOK then
      (RateLimited (if negb burstOK then "60" else "86400"), ls2)
    else if negb (is_public bp) && negb (hasCredentials r) then (Unauthorized, ls2)
    else (Proxied (forward backendHost r), ls2).
End handler.

(** * Redirects *)

Inductive redirect := Misdirected | MovedTo (target : string).

Definition strip_port (host : string) : string :=
  bytes_string (host_of (string_bytes host)).

(** [httpsRedirect]; [allowed] is [allowedDomainSet]. *)
Definition httpsRedirect (allowed : list string) (r : request) : redirect :=
  if bool_decide (strip_port (Host r) ∈ allowed)
  then MovedTo ("https://" ++ Host r ++ RequestURI r)
  else Misdirected.

(** The outermost handler: other hosts go to the primary domain, except for
    /.well-known/ paths. *)
Definition primary_redirect (primaryDomain : string) (r : request) : option string :=
  if negb (String.eqb (strip_port (Host r)) primaryDomain) &&
     negb (has_prefix (URLPath r) "/.well-known/")
  then Some ("https://" ++ primaryDomain ++ RequestURI r)%string
  else None.

(** * ACME challenges from the webroot *)

Definition token_char (b : byte) : bool :=
  byte_between "A" "Z" b || byte_between "a" "z" b || byte_between "0" "9" b ||
  byte_eqb b "-" || byte_eqb b "_".

Definition validACMEToken (s : bytes) : bool :=
  negb (bool_decide (s = [])) && (length s <=? 128)%nat && forallb token_char s.

Definition acme_prefix : string := "/.well-known/acme-challenge/".

(** The file read, if any: [ReadFile] is the file system, [None] an error. *)
Definition webrootACMEFirst (webroot : bytes) (ReadFile : bytes -> option bytes)
    (r : request) : option bytes :=
  if has_prefix (URLPath r) acme_prefix then
    let token := TrimPrefix (string_bytes (URLPath r)) (string_bytes acme_prefix) in
    if validACMEToken token then ReadFile (Join webroot token) else None
  else None.

(** * Lemmas *)

Lemma header_set_lookup h k v k' :
  header_set h k v !! k' = if decide (k = k') then Some [v] else h !! k'.
Proof.
  unfold header_set. destruct (decide (k = k')) as [->|Hne].
  - apply lookup_insert_eq.
  - by apply lookup_insert_ne.
Qed.

Lemma copy_if_present_dom h out k k' :
  is_Some (copy_if_present h out k !! k') -> k' = k \/ is_Some (out !! k').
Proof.
  unfold copy_if_present. destruct (String.eqb _ _); [auto|].
  rewrite header_set_lookup. case_decide; auto.
Qed.

Lemma copy_fold_dom h ks (out : Header) k' :
  is_Some (foldl (copy_if_present h) out ks !! k') -> k' ∈ ks \/ is_Some (out !! k').
Proof.
  revert out. induction ks as [|k ks IH]; intros out Hk; [by right|].
  cbn [foldl] in Hk. destruct (IH _ Hk) as [Hin|Hs]; [left; by right|].
  apply copy_if_present_dom in Hs as [->|Hs]; [left; by left|by right].
Qed.

(** What the Director may send. *)
Definition director_names : list string :=
  ["X-Forwarded-Host"; "Accept"; "Content-Length"; "Content-Type"; "Cookie"]%string
    ++ optional_headers.

Lemma director_headers_dom h host k :
  is_Some (director_headers h host !! k) -> k ∈ director_names.
Proof.
  unfold director_headers, director_names. rewrite header_set_lookup.
  case_decide as E; [intros _; subst; by left|]. clear E. intros Hk.
  apply copy_fold_dom in Hk as [Hk|Hk]; [apply elem_of_app; by right|].
  apply elem_of_app. left. rewrite !header_set_lookup in Hk.
  repeat (case_decide; [subst; set_solver|]).
  apply copy_if_present_dom in Hk as [->|Hk]; [set_solver|].
  rewrite lookup_empty in Hk. by destruct Hk.
Qed.

Section handler_lemmas.

Context (sha256 : bytes -> bytes) (backendHost : string).

(** What one request does to the daily registration limiter. *)
Lemma apiHandler_daily now rnd r ls :
  let out := apiHandler sha256 backendHost now rnd r ls in
  let daily := IPSketch.allow sha256 now rnd (RemoteAddr r) (regDailyLimiter ls) in
  (regDailyLimiter (snd out) = regDailyLimiter ls /\
     (bool_decide (gatewayBackendPath (URLPath r) ∈ regLimitedPaths) = true ->
      forall o, fst out <> Proxied o)) \/
  (regDailyLimiter (snd out) = snd daily /\
     (forall o, fst out = Proxied o -> fst daily = true)).
Proof.
  cbv zeta. unfold apiHandler.
  set (bp := gatewayBackendPath (URLPath r)).
  destruct (if bool_decide (bp ∈ rateLimitedPaths) then _ else _) as [ok1 l1].
  destruct ok1; cbn [negb]; [|left; split; [done|intros _ o; done]].
  destruct (bool_decide (bp ∈ regLimitedPaths)).
  - right. destruct (IPSketch.allow _ _ _ _ (regLimiter ls)) as [burstOK l2].
    destruct (IPSketch.allow _ _ _ _ (regDailyLimiter ls)) as [dailyOK l3].
    destruct burstOK, dailyOK; cbn; repeat break_if; done.
  - left. cbn. split; [by repeat break_if|done].
Qed.
End handler_lemmas.

Lemma token_chars t b : validACMEToken t = true -> b ∈ t -> token_char b = true.
Proof.
  unfold validACMEToken. intros Hv Hb. bool_prop.
  apply forallb_Forall in H0. rewrite Forall_forall in H0. auto.
Qed.

(** A valid token is a plain path component. *)
Lemma token_proper t : validACMEToken t = true -> proper t.
Proof.
  intros Hv.
  assert (forall b, b ∈ t -> b <> "."%byte) as Hdot.
  { intros b Hb ->. apply (token_chars _ _ Hv) in Hb. by vm_compute in Hb. }
  split_and!; intros ->.
  - by vm_compute in Hv.
  - apply (Hdot "."%byte); [left|done].
  - apply (Hdot "."%byte); [left|done].
Qed.

(** Joining a valid token to a rooted directory stays directly inside it. *)
Lemma Join_token root t :
  validACMEToken t = true -> Clean ("/"%byte :: root) <> ["/"%byte] ->
  Join ("/"%byte :: root) t = Clean ("/"%byte :: root) ++ "/"%byte :: t.
Proof.
  intros Hv Hroot. apply Join_rooted; [done|]. rewrite (split_byte_none _ t).
  - by constructor; [apply token_proper|].
  - intros Hb. apply (token_chars _ _ Hv) in Hb. by vm_compute in Hb.
Qed.

(** * Properties *)

(** C7. The gateway proxies an API request to the backend only if its
    backend-facing path is public or the request carries credentials, and the
    path the backend receives is the very path that was checked. *)
Theorem proxied_only_public_or_credentialed sha256 backendHost now rnd r ls o
    (HP : fst (apiHandler sha256 backendHost now rnd r ls) = Proxied o) :
  (is_public (gatewayBackendPath (URLPath r)) = true \/ hasCredentials r = true) /\
  out_path o = (if String.eqb (gatewayBackendPath (URLPath r)) "" then "/"
                else gatewayBackendPath (URLPath r)) /\
  out_host o = backendHost.
Proof.
  unfold apiHandler in HP.
  destruct (if bool_decide (_ ∈ rateLimitedPaths) then _ else _) as [ok1 l1].
  destruct ok1; cbn [negb] in HP; [|done].
  destruct (if bool_decide (_ ∈ regLimitedPaths) then _ else _) as [burst l2].
  destruct (if bool_decide (_ ∈ regLimitedPaths) then _ else _) as [daily l3].
  destruct (negb burst || negb daily)%bool; [done|].
  destruct (is_public _) eqn:Ep; [|destruct (hasCredentials r) eqn:Ec; [|done]];
    cbn in HP; injection HP as <-; repeat split; auto.
Qed.

Definition sample_request : request :=
  {| URLPath := "/app/api/mail/list"; RequestURI := "/app/api/mail/list"; Host := "bmail.ag";
     RemoteAddr := string_bytes "203.0.113.9:51442";
     ReqHeader := {[ "Cookie" := ["theme=dark; bmail_session_0=abc"]; "User-Agent" := ["x"] ]} |}.

Definition sample_limiters : limiters :=
  {| limiter := IPSketch.newIPRateLimiter 0 [] 120 60;
     regLimiter := IPSketch.newIPRateLimiter 0 [] 5 60;
     regDailyLimiter := IPSketch.newIPRateLimiter 0 [] 2 86400 |}.

Lemma proxied_only_public_or_credentialed_witness :
  is_public "/mail/list" = true \/ hasCredentials sample_request = true.
Proof.
  apply (proxied_only_public_or_credentialed (fun b => b) "backend" 0 [] sample_request
           sample_limiters (forward "backend" sample_request)).
  reflexivity.
Defined.

(** Whatever headers a client sends, the backend only receives the names the
    Director copies, plus the three the reverse proxy itself adds. *)
Theorem backend_headers_allowlisted backendHost r k
    (Hk : is_Some (out_header (forward backendHost r) !! k)) :
  k ∈ director_names \/ k = "X-Forwarded-For"%string \/ k = "User-Agent"%string.
Proof.
  unfold forward in Hk. cbn [out_header] in Hk.
  set (d := out_header (director backendHost r)) in *.
  assert (Hdir : is_Some (d !! k) -> k ∈ director_names)
    by apply director_headers_dom.
  destruct (SplitHostPort (RemoteAddr r)) as [[ip port]|];
    [destruct (d !! "X-Forwarded-For") as [[|v vs]|]|];
    repeat match type of Hk with
    | context [match ?x with _ => _ end] => destruct x
    | _ => rewrite header_set_lookup in Hk
    end; try case_decide; subst; auto.
Qed.

Lemma backend_headers_allowlisted_witness :
  "Cookie"%string ∈ director_names \/ "Cookie"%string = "X-Forwarded-For"%string \/
  "Cookie"%string = "User-Agent"%string.
Proof.
  apply (backend_headers_allowlisted "backend" sample_request).
  exists ["theme=dark; bmail_session_0=abc"%string].
  apply (bool_decide_eq_true_1 _). vm_compute. reflexivity.
Defined.

(** The client's address reaches the backend: the Director drops every
    client-identifying header but leaves [X-Forwarded-For] unset, and the
    reverse proxy then fills it with the host of the connection. *)
Theorem client_address_reaches_backend backendHost r ip port
    (HA : SplitHostPort (RemoteAddr r) = Some (ip, port)) :
  out_header (forward backendHost r) !! "X-Forwarded-For" = Some [bytes_string ip].
Proof.
  unfold forward. rewrite HA. cbn [out_header].
  set (d := out_header (director backendHost r)).
  assert (d !! "X-Forwarded-For" = None) as Hn.
  { apply eq_None_not_Some. intros Hs.
    assert (Hin : "X-Forwarded-For"%string ∈ director_names)
      by (apply (director_headers_dom (ReqHeader r) (Host r)); exact Hs).
    apply (bool_decide_eq_false_1 ("X-Forwarded-For"%string ∈ director_names)); [|exact Hin].
    vm_compute. reflexivity. }
  rewrite Hn.
  destruct (header_set d "X-Forwarded-For" (bytes_string ip) !! "User-Agent");
    rewrite !header_set_lookup; repeat (case_decide; try done).
Qed.

Lemma client_address_reaches_backend_witness :
  out_header (forward "backend" sample_request) !! "X-Forwarded-For" = Some ["203.0.113.9"%string].
Proof.
  apply (client_address_reaches_backend "backend" sample_request
           (string_bytes "203.0.113.9") (string_bytes "51442")).
  reflexivity.
Defined.

(** Registrations proxied for addresses that hash to [key]. *)
Fixpoint registrations sha256 backendHost (key : bytes)
    (reqs : list (Z * bytes * request)) (ls : limiters) : Z :=
  match reqs with
  | [] => 0
  | (t, rnd, r) :: reqs =>
      let out := apiHandler sha256 backendHost t rnd r ls in
      RateWindow.b2z
        (bool_decide (gatewayBackendPath (URLPath r) ∈ regLimitedPaths) &&
         bool_decide (IPSketch.hashIP sha256 (RemoteAddr r)
                        (IPSketch.salt (regDailyLimiter ls)) = key) &&
         match fst out with Proxied _ => true | _ => false end) +
      registrations sha256 backendHost key reqs (snd out)
  end.

Lemma registrations_bound sha256 backendHost key reqs ls n total :
  IPSketch.tracked sha256 key n total (regDailyLimiter ls) ->
  total + Z.of_nat (length reqs) < 2 ^ 63 ->
  Forall (fun c => IPSketch.in_epoch (regDailyLimiter ls) (fst (fst c))) reqs ->
  registrations sha256 backendHost key reqs ls
    <= Z.max 0 (IPSketch.limit (regDailyLimiter ls) - n).
Proof.
  revert ls n total. induction reqs as [|[[t rnd] r] reqs IH]; intros ls n total Htr Hlen He;
    cbn [registrations]; [lia|].
  apply Forall_cons in He as [He1 He]. cbn [fst] in He1. cbn [length] in Hlen.
  destruct (apiHandler_daily sha256 backendHost t rnd r ls) as [[Hd Hno]|[Hd Hok]].
  - assert (forall b, (bool_decide (gatewayBackendPath (URLPath r) ∈ regLimitedPaths) && b &&
      match fst (apiHandler sha256 backendHost t rnd r ls) with Proxied _ => true | _ => false end
      = false)%bool) as ->.
    { intros b. destruct (bool_decide _); [|done]. specialize (Hno eq_refl).
      destruct (fst (apiHandler _ _ _ _ _ _)); [by rewrite andb_false_r..|].
      by destruct (Hno o). }
    cbn [RateWindow.b2z]. rewrite <-Hd. apply (IH _ n total); rewrite ?Hd; [done|lia|done].
  - assert (Hlt : total < 2 ^ 63 - 1) by lia.
    assert (Hlen' : total + 1 + Z.of_nat (length reqs) < 2 ^ 63) by lia.
    destruct (IPSketch.tracked_allow sha256 t rnd (RemoteAddr r) _ key n total He1
      Hlt Htr) as (Htr' & Hlim & Hl & Hs & Hep).
    rewrite <-Hd in Htr', Hl, Hs, Hep.
    specialize (IH _ _ _ Htr' Hlen'
      ltac:(eapply Forall_impl; [exact He|]; intros; by apply Hep)).
    rewrite Hl in IH.
    destruct (bool_decide (gatewayBackendPath (URLPath r) ∈ regLimitedPaths)); cbn [andb RateWindow.b2z];
      destruct (bool_decide (IPSketch.hashIP _ _ _ = key)) eqn:Eh;
      cbn [andb RateWindow.b2z] in *; try lia.
    destruct (fst (apiHandler _ _ _ _ _ _)) eqn:Ef; cbn [RateWindow.b2z]; try lia.
    specialize (Hlim eq_refl (Hok _ eq_refl)). lia.
Qed.

(** Within one epoch of the daily limiter (no window reset, no salt
    rotation) the gateway proxies at most [limit] (two, as configured)
    registration requests for any one client address, whatever other requests
    are interleaved and whatever sketch collisions occur. *)
Theorem registration_daily_cap sha256 backendHost key reqs ls t0 rnd0
    (HI : regDailyLimiter ls = IPSketch.newIPRateLimiter t0 rnd0 2 (24 * RateLimit.Hour))
    (HL : Z.of_nat (length reqs) < 2 ^ 63)
    (HE : Forall (fun c => t0 <= fst (fst c) < t0 + 24 * RateLimit.Hour) reqs) :
  registrations sha256 backendHost key reqs ls <= 2.
Proof.
  pose proof (registrations_bound sha256 backendHost key reqs ls 0 0) as Hb.
  rewrite HI in Hb. etransitivity; [apply Hb|done].
  - apply IPSketch.tracked_new.
  - lia.
  - eapply Forall_impl; [exact HE|]. intros c Hc. unfold IPSketch.in_epoch, IPSketch.saltCap.
    cbn [IPSketch.newIPRateLimiter IPSketch.window IPSketch.winStart IPSketch.saltRotated].
    rewrite Z.ltb_irrefl. cbv beta in Hc. lia.
Qed.

(** The ACME responder reads no file outside the webroot: every path it
    reads is a direct child of the (cleaned) webroot, named by a token of
    base64url characters. *)
Theorem webroot_confined root fs r data
    (HR : Clean ("/"%byte :: root) <> ["/"%byte])
    (HD : webrootACMEFirst ("/"%byte :: root) fs r = Some data) :
  exists t, forallb token_char t = true /\ t <> [] /\ (length t <= 128)%nat /\
    fs (Clean ("/"%byte :: root) ++ "/"%byte :: t) = Some data.
Proof.
  unfold webrootACMEFirst in HD. break_match_in HD; [|done].
  destruct (validACMEToken _) eqn:Ev; [|done]. rewrite Join_token in HD by done.
  eexists. split; [|split; [|split; [|exact HD]]];
    unfold validACMEToken in Ev; bool_prop; auto.
Qed.

(** Two registrations pass, the third is refused. *)
Definition sample_registration : request :=
  {| URLPath := "/api/auth/register/invite/finish"; RequestURI := ""; Host := "bmail.ag";
     RemoteAddr := string_bytes "203.0.113.9:51442"; ReqHeader := ∅ |}.

Definition registration_limiters : limiters :=
  {| limiter := IPSketch.newIPRateLimiter 0 [] 120 60;
     regLimiter := IPSketch.newIPRateLimiter 0 [] 5 (60 * RateLimit.Second);
     regDailyLimiter := IPSketch.newIPRateLimiter 0 [] 2 (24 * RateLimit.Hour) |}.

Definition toy_hash (b : bytes) : bytes := firstn 16 (rev b).

Lemma registration_daily_cap_witness :
  registrations toy_hash "backend"
    (IPSketch.hashIP toy_hash (string_bytes "203.0.113.9:1") [])
    [(1, [], sample_registration); (2, [], sample_registration); (3, [], sample_registration)]
    registration_limiters <= 2.
Proof.
  apply (registration_daily_cap toy_hash "backend" _ _ registration_limiters 0 []).
  - reflexivity.
  - reflexivity.
  - repeat constructor; cbn; unfold RateLimit.Hour, RateLimit.Minute, RateLimit.Second; lia.
Defined.

Definition acme_request : request :=
  {| URLPath := "/.well-known/acme-challenge/tok-1_A"; RequestURI := ""; Host := "bmail.ag";
     RemoteAddr := []; ReqHeader := ∅ |}.

Definition sample_fs (p : bytes) : option bytes :=
  if bool_decide (p = string_bytes "/var/www/acme-challenges/tok-1_A")
  then Some (string_bytes "key-authz") else None.

Lemma webroot_confined_witness :
  exists t, forallb token_char t = true /\ t <> [] /\ (length t <= 128)%nat /\
    sample_fs (Clean (string_bytes "/var/www/acme-challenges") ++ "/"%byte :: t)
      = Some (string_bytes "key-authz").
Proof.
  apply (webroot_confined (string_bytes "var/www/acme-challenges") sample_fs acme_request
           (string_bytes "key-authz")).
  - discriminate.
  - vm_compute. reflexivity.
Defined.
