(* ===== verification/Snapshot.v ===== *)
(** Durable backups of sealed files: src/internal/keystore/snapshot.go (the
    whole sealed directory) and src/internal/payment/snapshot.go (a list of
    files, stored flat).  The two packages hold the same code up to the name
    of the header entry, the names an archive may hold and whether
    directories are made; [format] is what differs.

Shown: a restored snapshot gives back every stored key; whatever the
archive, restoring it writes at or below the destination only; the header
hash binds the contents of a given list of names, but not the list;
the packing order does not depend on the order of the directory.

[archive/tar] and [compress/gzip] appear as the class [TarGz]: writing a
list of entries, and what a reader meets in a given archive.  Strings are
UTF-8, so [encoding/json] gives them back. *)

From stdpp Require Import sorting.
From S2P Require Import Prelude SysFS Hex KsTypes KeyStore GoNet FilePath.

Inductive snapErr :=
| ErrIO            (* a system call failed *)
| ErrMarshal       (* the header or the archive could not be written *)
| ErrArchive       (* gzip, tar or the header's JSON is broken *)
| ErrUnsafePath (name : string)
| ErrNoHeader
| ErrIntegrity.

Record SnapshotMeta := {
  CreatedAt : Z;
  Label : string;
  Files : list string;
  Hash : string;
  Bytes : Z
}.

Record packEntry := mkEntry { rel : string; pbytes : bytes }.

(** What [tr.Next] and [io.ReadAll] give: an error, or a name with its body. *)
Inductive tar_event := TarErr | TarFile (name : string) (body : option bytes).

(** Names that archive/tar stores as they are, as regular files. *)
Definition plain_name (name : string) : Prop :=
  (name <> "")%string /\ (x00 ∉ string_bytes name) /\ last (string_bytes name) <> Some "/"%byte.

Class TarGz := {
  tgz_write : list (string * bytes) -> option bytes;
  tgz_open : bytes -> option (list tar_event);
  tgz_roundtrip : forall es a,
    Forall (fun e : string * bytes => plain_name e.1) es -> tgz_write es = Some a ->
    tgz_open a = Some ((fun e => TarFile e.1 (Some e.2)) <$> es)
}.

(** ** Order of the entries *)

(** [for j := i; j > 0 && es[j-1].rel > es[j].rel; j--] *)
Fixpoint sink (j : nat) (es : list packEntry) : list packEntry :=
  match j with
  | O => es
  | S j' =>
      match es !! j', es !! j with
      | Some a, Some b =>
          if String.leb (rel a) (rel b) then es
          else sink j' (<[j := a]> (<[j' := b]> es))
      | _, _ => es
      end
  end.

Definition sortPackEntries (es : list packEntry) : list packEntry :=
  foldl (fun es i => sink i es) es (seq 1 (length es - 1)).

(** ** Names *)

(** [strings.Contains(s, "..")] *)
Fixpoint contains_dotdot (s : bytes) : bool :=
  match s with
  | [] => false
  | c :: s => HasPrefix (c :: s) (string_bytes "..") || contains_dotdot s
  end.

Record format := { metaName : string; unsafe : bytes -> bool; makesDirs : bool }.

Definition keystore_format : format := {|
  metaName := "_keystore_snapshot.json";
  unsafe s := contains_dotdot s || HasPrefix s (string_bytes "/");
  makesDirs := true
|}.

Definition payment_format : format := {|
  metaName := "_payment_snapshot.json";
  unsafe s := bool_decide ("/"%byte ∈ s) || contains_dotdot s;
  makesDirs := false
|}.

Section snapshot.

Context `{TarGz} `{Json SnapshotMeta} (sha256 : bytes -> bytes).

(** ** Packing *)

(** What is written to the hasher. *)
Definition hash_stream (es : list packEntry) : bytes :=
  concat ((fun e => string_bytes (rel e) ++ sha256 (pbytes e)) <$> es).

Definition stream_hash (s : bytes) : string := hex_EncodeToString (sha256 s).

Definition total_bytes (es : list packEntry) : Z :=
  foldl (fun n e => n + Z.of_nat (length (pbytes e)))%Z 0%Z es.

Definition meta_of (now : Z) (label : string) (es : list packEntry) : SnapshotMeta := {|
  CreatedAt := now; Label := label; Files := rel <$> es;
  Hash := stream_hash (hash_stream es); Bytes := total_bytes es
|}.

(** From the entries read to the archive: sort, hash, header first. *)
Definition pack (fmt : format) (now : Z) (label : string) (es : list packEntry) :
    result snapErr (bytes * SnapshotMeta) :=
  let es := sortPackEntries es in
  let meta := meta_of now label es in
  match json_marshal meta with
  | None => Err ErrMarshal
  | Some metaJSON =>
      match tgz_write ((metaName fmt, metaJSON) :: ((fun e => (rel e, pbytes e)) <$> es)) with
      | None => Err ErrMarshal
      | Some a => Ok (a, meta)
      end
  end.

(** [filepath.Rel(root, p)] for a file below [root]. *)
Definition rel_of (root : string) (p : path) : option string :=
  if String.eqb p.1 root then Some p.2
  else if HasPrefix (string_bytes p.1) (string_bytes (root ++ "/"))
       then Some (bytes_string (TrimPrefix (string_bytes p.1) (string_bytes (root ++ "/")))
                  ++ "/" ++ p.2)%string
       else None.

(** The files [filepath.WalkDir] meets, in a fixed order. *)
Definition walk_le (a b : string * path) : Prop := string_le a.1 b.1.

#[export] Instance walk_le_dec : RelDecision walk_le.
Proof. intros a b. unfold walk_le. apply _. Defined.

Definition walk_files (root : string) (m : files) : list (string * path) :=
  merge_sort walk_le
    (omap (fun kv : path * file => (fun r => (r, kv.1)) <$> rel_of root kv.1) (map_to_list m)).

(** The callback: skip temporaries, read the rest. *)
Fixpoint read_walk (root : string) (ps : list (string * path)) :
    IO (result snapErr (list packEntry)) :=
  match ps with
  | [] => mret (Ok [])
  | (r, p) :: ps =>
      if hasSuffix (root ++ "/" ++ r) ".tmp" then read_walk root ps
      else
        x ← sys_read p;
        match x with
        | ReadOk b =>
            rest ← read_walk root ps;
            mret match rest with Ok es => Ok (mkEntry r b :: es) | Err e => Err e end
        | _ => mret (Err ErrIO)
        end
  end.

Definition PackSealedDir (sealedDir label : string) (now : Z) :
    IO (result snapErr (bytes * SnapshotMeta)) := fun w =>
  let '(listed, w) := take_outcome w in
  match listed with
  | Failed _ => (Err ErrIO, w)
  | Done =>
      let '(r, w) := read_walk sealedDir (walk_files sealedDir (fs w)) w in
      (match r with Err e => Err e | Ok es => pack keystore_format now label es end, w)
  end.

(** [PackFiles]: the files named, under their base names; missing ones are
    skipped.  [sort.Slice] does not specify the order of equal names. *)
Fixpoint read_files (ps : list path) : IO (result snapErr (list packEntry)) :=
  match ps with
  | [] => mret (Ok [])
  | p :: ps =>
      x ← sys_read p;
      match x with
      | ReadNotExist => read_files ps
      | ReadFailed => mret (Err ErrIO)
      | ReadOk b =>
          rest ← read_files ps;
          mret match rest with Ok es => Ok (mkEntry p.2 b :: es) | Err e => Err e end
      end
  end.

Definition PackFiles (ps : list path) (label : string) (now : Z) :
    IO (result snapErr (bytes * SnapshotMeta)) :=
  r ← read_files ps;
  mret match r with Err e => Err e | Ok es => pack payment_format now label es end.

(** ** Extracting *)

(** [os.WriteFile(p, b, 0o600)] *)
Definition WriteFile (p : path) (b : bytes) : IO bool :=
  opened ← sys_open_trunc p;
  if negb opened then mret false else
  written ← sys_write p b;
  closed ← sys_close;
  mret (written && closed).

Definition target (destDir name : string) : path :=
  loc (Join (string_bytes destDir) (string_bytes name)).

Fixpoint extract_loop (fmt : format) (destDir : string) (evs : list tar_event)
    (hasher : bytes) (meta : option SnapshotMeta) :
    IO (result snapErr (bytes * option SnapshotMeta)) :=
  match evs with
  | [] => mret (Ok (hasher, meta))
  | TarErr :: _ => mret (Err ErrArchive)
  | TarFile name body :: evs =>
      if unsafe fmt (string_bytes name) then mret (Err (ErrUnsafePath name))
      else match body with
      | None => mret (Err ErrArchive)
      | Some buf =>
          if String.eqb name (metaName fmt) then
            match json_unmarshal buf with
            | None => mret (Err ErrArchive)
            | Some m => extract_loop fmt destDir evs hasher (Some m)
            end
          else
            let hasher := hasher ++ string_bytes name ++ sha256 buf in
            made ← (if makesDirs fmt then sys_mkdir else mret true);
            if negb made then mret (Err ErrIO)
            else
              ok ← WriteFile (target destDir name) buf;
              if negb ok then mret (Err ErrIO)
              else extract_loop fmt destDir evs hasher meta
      end
  end.

Definition extract (fmt : format) (archive : bytes) (destDir : string) :
    IO (result snapErr SnapshotMeta) :=
  match tgz_open archive with
  | None => mret (Err ErrArchive)
  | Some evs =>
      r ← extract_loop fmt destDir evs [] None;
      mret match r with
           | Err e => Err e
           | Ok (_, None) => Err ErrNoHeader
           | Ok (hasher, Some meta) =>
               if String.eqb (stream_hash hasher) (Hash meta) then Ok meta
               else Err ErrIntegrity
           end
  end.

Definition ExtractSealedDir : bytes -> string -> IO (result snapErr SnapshotMeta) :=
  extract keystore_format.

Definition ExtractFiles : bytes -> string -> IO (result snapErr SnapshotMeta) :=
  extract payment_format.

(** [LocalFSSnapshotter.Save], given the identifier chosen and the packing:
    written beside the target and renamed, without a sync. *)
Definition LocalFS_Save (Dir id : string)
    (packing : IO (result snapErr (bytes * SnapshotMeta))) : IO (result snapErr string) :=
  made ← sys_mkdir;
  if negb made then mret (Err ErrIO) else
  r ← packing;
  match r with
  | Err e => mret (Err e)
  | Ok (archive, _) =>
      let full := target Dir (id ++ ".tgz") in
      written ← WriteFile (tmp_of full) archive;
      if negb written then mret (Err ErrIO) else
      renamed ← sys_rename (tmp_of full) full;
      if negb renamed then _ ← sys_remove (tmp_of full); mret (Err ErrIO)
      else mret (Ok id)
  end.

End snapshot.

(** ** Snapshot identifiers and listings *)

Definition label_char (c : byte) : byte :=
  if byte_between "a" "z" c || byte_between "A" "Z" c || byte_between "0" "9" c ||
     byte_eqb c "-" || byte_eqb c "_" then c else "-"%byte.

Definition sanitizeLabel (label : string) : string :=
  if String.eqb label "" then "snap" else bytes_string (label_char <$> string_bytes label).

(** [ts] is the formatted time, [rnd] the four random bytes. *)
Definition snapshotID (ts : string) (rnd : bytes) (label : string) : string :=
  (ts ++ "-" ++ sanitizeLabel label ++ "-" ++ hex_EncodeToString rnd)%string.

(** The payment package replaces slashes and spaces only. *)
Definition payment_snapshotID (ts : string) (rnd : bytes) (label : string) : string :=
  let clean := (fun c => if byte_eqb c "/" || byte_eqb c " " then "_"%byte else c)
                 <$> string_bytes label in
  (ts ++ "-" ++ bytes_string clean ++ "-" ++ hex_EncodeToString rnd)%string.

(** [strings.TrimSuffix(s, ".tgz")] *)
Definition trim_tgz (s : string) : string :=
  if hasSuffix s ".tgz" then String.substring 0 (String.length s - 4) s else s.

(** The object keys of the bucket, or the first listing error. *)
Fixpoint listed_ids (prefix : string) (objs : list (option string)) : option (list string) :=
  match objs with
  | [] => Some []
  | None :: _ => None
  | Some key :: objs =>
      let name := trim_tgz (bytes_string (TrimPrefix (string_bytes key) (string_bytes prefix))) in
      (fun ids => if String.eqb name "" then ids else name :: ids) <$> listed_ids prefix objs
  end.

(** The keystore's [List] reverses the listing, the payment's sorts it. *)
Definition keystore_List (prefix : string) (objs : list (option string)) : option (list string) :=
  (fun ids => reverse ids) <$> listed_ids prefix objs.

Definition string_ge (a b : string) : Prop := string_le b a.

#[export] Instance string_ge_dec : RelDecision string_ge.
Proof. intros a b. unfold string_ge. apply _. Defined.

Definition payment_List (prefix : string) (objs : list (option string)) : option (list string) :=
  (fun ids => merge_sort string_ge ids) <$> listed_ids prefix objs.

(** * Lemmas *)

(** ** Sorting *)

Definition rel_le (a b : packEntry) : Prop := String.le (rel a) (rel b).

#[export] Instance rel_le_trans : Transitive rel_le.
Proof. intros a b c. unfold rel_le. apply transitivity. Qed.

Lemma sorted_snoc (l : list packEntry) x :
  StronglySorted rel_le l -> Forall (fun a => rel_le a x) l -> StronglySorted rel_le (l ++ [x]).
Proof.
  induction 1 as [|a l Hl IH Ha]; intros Hx; cbn; [by repeat constructor|].
  inversion Hx; subst. constructor; [by apply IH|]. apply Forall_app. by repeat constructor.
Qed.

Lemma sorted_snoc_inv (l : list packEntry) x :
  StronglySorted rel_le (l ++ [x]) -> StronglySorted rel_le l /\ Forall (fun a => rel_le a x) l.
Proof.
  induction l as [|a l IH]; cbn; intros Hs; [by repeat constructor|].
  inversion Hs as [|? ? Hl Ha]; subst. destruct (IH Hl) as [H1 H2].
  apply Forall_app in Ha as [Ha Hax]. inversion Hax; subst. by repeat constructor.
Qed.

(** Sinking the element after a sorted prefix inserts it there. *)
Lemma sink_spec (l1 : list packEntry) x l2 :
  StronglySorted rel_le l1 ->
  exists l, sink (length l1) (l1 ++ x :: l2) = l ++ l2 /\ l ≡ₚ l1 ++ [x] /\
    StronglySorted rel_le l.
Proof.
  revert l2. induction l1 as [|a l1 IH] using rev_ind; intros l2 Hs.
  - exists [x]. by repeat constructor.
  - apply sorted_snoc_inv in Hs as [Hs Ha]. rewrite length_app, Nat.add_1_r. cbn [sink].
    rewrite <-!app_assoc. cbn [app].
    rewrite (list_lookup_middle l1 (x :: l2) a) by done.
    replace (l1 ++ a :: x :: l2) with ((l1 ++ [a]) ++ x :: l2) by by rewrite <-app_assoc.
    rewrite (list_lookup_middle (l1 ++ [a]) l2 x) by (rewrite length_app; cbn; lia).
    destruct (String.leb (rel a) (rel x)) eqn:E.
    + exists ((l1 ++ [a]) ++ [x]). rewrite <-!app_assoc. split_and!; [done..|].
      rewrite app_assoc. apply sorted_snoc; [by apply sorted_snoc|].
      assert (rel_le a x) as Hax by (unfold rel_le, String.le; by rewrite E).
      apply Forall_app. split; [|by repeat constructor].
      eapply Forall_impl; [done|]. intros b Hb. by transitivity a.
    + rewrite <-app_assoc. cbn [app].
      rewrite insert_app_r_alt, Nat.sub_diag by lia. cbn.
      rewrite insert_app_r_alt by lia.
      replace (S (length l1) - length l1) with 1 by lia. cbn.
      destruct (IH (a :: l2) Hs) as (l & -> & Hp & Hl). exists (l ++ [a]).
      rewrite <-app_assoc. split_and!; [done| |].
      * rewrite Hp, <-!app_assoc. apply Permutation_app_head, Permutation_app_comm.
      * apply sorted_snoc; [done|]. rewrite Hp. apply Forall_app. split; [done|].
        repeat constructor. unfold rel_le, String.le.
        destruct (String.leb_total (rel a) (rel x)) as [?|Hle]; [congruence|by rewrite Hle].
Qed.

(** Insertion sort: the result is sorted and has the same entries. *)
Lemma sortPackEntries_spec es :
  sortPackEntries es ≡ₚ es /\ StronglySorted rel_le (sortPackEntries es).
Proof.
  destruct es as [|e es]; [by repeat constructor|].
  assert (forall rest pre, StronglySorted rel_le pre ->
    foldl (fun es i => sink i es) (pre ++ rest) (seq (length pre) (length rest)) ≡ₚ pre ++ rest /\
    StronglySorted rel_le
      (foldl (fun es i => sink i es) (pre ++ rest) (seq (length pre) (length rest)))) as Hgen.
  { induction rest as [|x rest IH]; intros pre Hpre; cbn [length seq foldl].
    - by rewrite app_nil_r.
    - destruct (sink_spec pre x rest Hpre) as (l & -> & Hp & Hl).
      assert (length l = S (length pre)) as <-.
      { rewrite Hp, length_app. cbn. lia. }
      destruct (IH l Hl) as [H1 H2]. split; [|done].
      rewrite H1, Hp, <-app_assoc. done. }
  unfold sortPackEntries. cbn [length]. rewrite Nat.sub_1_r. cbn [Nat.pred].
  apply (Hgen es [e]). by repeat constructor.
Qed.

(** The archive does not depend on the order in which the files were met. *)
Theorem sortPackEntries_canonical es es' :
  es ≡ₚ es' -> NoDup (rel <$> es) -> sortPackEntries es = sortPackEntries es'.
Proof.
  intros Hp Hn. destruct (sortPackEntries_spec es) as [P1 S1].
  destruct (sortPackEntries_spec es') as [P2 S2].
  apply (Sorted_unique_strong rel_le); [|by apply StronglySorted_Sorted..|by rewrite P1, P2].
  intros x y Hx Hy Hxy Hyx. rewrite P1 in Hx. rewrite P2, <-Hp in Hy.
  assert (rel x = rel y) as Hr by (unfold rel_le in *; by apply (anti_symm String.le)).
  apply list_elem_of_lookup in Hx as [i Hi], Hy as [j Hj].
  assert (i = j) as ->; [|by simplify_eq].
  eapply (NoDup_lookup (rel <$> es)); [done|by rewrite list_lookup_fmap, Hi|].
  rewrite list_lookup_fmap, Hj. cbn. by f_equal.
Qed.

(** ** Names *)

Lemma split_infix c s w : w ∈ split_byte c s -> exists a b, s = a ++ w ++ b.
Proof.
  assert (forall s w ws, split_byte c s = w :: ws -> exists b, s = w ++ b) as Hhead.
  { clear. induction s as [|x s IH]; cbn; intros w ws E; [by injection E as <- <-; exists []|].
    destruct (byte_eqb x c); [injection E as <- <-; by eexists|].
    destruct (split_byte c s) as [|w' ws'] eqn:Es; [by destruct (split_byte_nonempty c s)|].
    injection E as <- <-. destruct (IH _ _ eq_refl) as [b ->]. by exists b. }
  revert w. induction s as [|x s IH]; intros w Hw.
  - apply list_elem_of_singleton in Hw as ->. by exists [], [].
  - cbn in Hw. destruct (byte_eqb x c).
    + apply elem_of_cons in Hw as [->|Hw]; [by exists [], (x :: s)|].
      destruct (IH w Hw) as (a & b & ->). by exists (x :: a), b.
    + destruct (split_byte c s) as [|w' ws] eqn:Es; [by destruct (split_byte_nonempty c s)|].
      apply elem_of_cons in Hw as [->|Hw].
      * destruct (Hhead s w' ws Es) as [b ->]. by exists [], b.
      * destruct (IH w) as (a & b & ->); [by right|]. by exists (x :: a), b.
Qed.

Lemma contains_dotdot_infix a b : contains_dotdot (a ++ string_bytes ".." ++ b) = true.
Proof.
  induction a as [|x a IH]; [by destruct b|]. cbn [app contains_dotdot].
  by rewrite IH, orb_true_r.
Qed.

Lemma no_dotdot_components s :
  contains_dotdot s = false -> Forall (fun c => c <> string_bytes "..") (split_byte "/" s).
Proof.
  intros Hs. apply Forall_forall. intros c Hc ->.
  destruct (split_infix _ _ _ Hc) as (a & b & ->).
  by rewrite contains_dotdot_infix in Hs.
Qed.

(** A format refuses at least the names with "..". *)
Definition refuses_dotdot (fmt : format) : Prop :=
  forall s, unsafe fmt s = false -> contains_dotdot s = false.

Lemma keystore_refuses_dotdot : refuses_dotdot keystore_format.
Proof. intros s H. cbn in H. by apply orb_false_iff in H as [H _]. Qed.

Lemma payment_refuses_dotdot : refuses_dotdot payment_format.
Proof. intros s H. cbn in H. by apply orb_false_iff in H as [_ H]. Qed.

(** Files outside [root] are the same in [m] and [m']. *)
Definition confined (root : bytes) (m m' : files) : Prop :=
  forall q, m' !! q <> m !! q -> exists full, at_or_below root full /\ q = loc full.

Lemma confined_refl (root : bytes) (m : files) : confined root m m.
Proof. by intros q H. Qed.

Lemma confined_insert (root : bytes) (m m' : files) (full : bytes) (f : file) :
  at_or_below root full -> confined root m m' -> confined root m (<[loc full := f]> m').
Proof.
  intros Ha Hc q Hq. destruct (decide (q = loc full)) as [->|Hne]; [by exists full|].
  rewrite lookup_insert_ne in Hq by done. by apply Hc.
Qed.

#[local] Hint Resolve confined_refl confined_insert : bmail.

Section extraction.

Context `{TarGz} `{Json SnapshotMeta} (sha256 : bytes -> bytes).

Lemma wp_WriteFile (root : bytes) (m s : files) (full : bytes) (b : bytes) :
  at_or_below root full -> confined root m s ->
  wp (confined root m) (WriteFile (loc full) b) (fun _ => confined root m) s.
Proof.
  intros Ha Hc. unfold WriteFile.
  apply wp_bind, wp_open_trunc; [auto with bmail| |by apply wp_ret].
  cbn [negb]. apply wp_bind, wp_write; [auto with bmail|..];
    intros; apply wp_bind, wp_close; intros; apply wp_ret; auto with bmail.
Qed.

Context (root : bytes) (Hroot : Clean ("/"%byte :: root) <> ["/"%byte]).
#[local] Abbreviation dest := (bytes_string ("/"%byte :: root)).

Lemma wp_extract_loop (fmt : format) (m : files) (evs : list tar_event) (hasher : bytes)
    (meta : option SnapshotMeta) (s : files) :
  refuses_dotdot fmt -> confined ("/"%byte :: root) m s ->
  wp (confined ("/"%byte :: root) m) (extract_loop sha256 fmt dest evs hasher meta)
    (fun _ => confined ("/"%byte :: root) m) s.
Proof.
  intros Hfmt. revert hasher meta s.
  induction evs as [|[|name body] evs IH]; intros hasher meta s Hc; cbn [extract_loop];
    [by apply wp_ret..|].
  destruct (unsafe fmt (string_bytes name)) eqn:Eu; [by apply wp_ret|].
  destruct body as [buf|]; [|by apply wp_ret].
  destruct (String.eqb name (metaName fmt)).
  { destruct (json_unmarshal buf); [by apply IH|by apply wp_ret]. }
  assert (at_or_below ("/"%byte :: root) (Join (string_bytes dest) (string_bytes name))) as Ha.
  { rewrite string_bytes_string. apply Join_below; [done|].
    by apply no_dotdot_components, Hfmt. }
  assert (wp (confined ("/"%byte :: root) m)
    (ok ← WriteFile (target dest name) buf;
     if negb ok then mret (Err ErrIO)
     else extract_loop sha256 fmt dest evs (hasher ++ string_bytes name ++ sha256 buf) meta)
    (fun _ => confined ("/"%byte :: root) m) s) as Hw.
  { apply wp_bind. eapply wp_mono; [by apply (wp_WriteFile ("/"%byte :: root))|].
    intros [|] s' Hs'; cbn [negb]; [by apply IH|by apply wp_ret]. }
  apply wp_bind. destruct (makesDirs fmt).
  - apply wp_mkdir. intros [|]; cbn [negb]; [exact Hw|by apply wp_ret].
  - apply wp_ret. exact Hw.
Qed.

(** Whatever the archive and whatever fails, restoring it into a rooted
    directory creates or changes files at or below that directory only, in
    every state it goes through: no entry escapes by "..", by a leading slash
    or otherwise. *)
Theorem extract_confined (fmt : format) (archive : bytes) (w : world) r w' :
  fmt = keystore_format \/ fmt = payment_format ->
  extract sha256 fmt archive dest w = (r, w') ->
  confined ("/"%byte :: root) (fs w) (fs w') /\
  exists l, history w' = l ++ history w /\ Forall (confined ("/"%byte :: root) (fs w)) l.
Proof.
  intros Hfmt E.
  assert (refuses_dotdot fmt) as Hd.
  { destruct Hfmt as [-> | ->]; [apply keystore_refuses_dotdot|apply payment_refuses_dotdot]. }
  assert (wp (confined ("/"%byte :: root) (fs w)) (extract sha256 fmt archive dest)
    (fun _ => confined ("/"%byte :: root) (fs w)) (fs w)) as Hw.
  { unfold extract. destruct (tgz_open archive) as [evs|]; [|apply wp_ret, confined_refl].
    apply wp_bind. eapply wp_mono; [apply wp_extract_loop; auto with bmail|].
    intros [[h [meta|]]|e] s' Hs'; apply wp_ret; done. }
  destruct (Hw w r w' eq_refl (confined_refl _ _) E) as [[H1 H2] _]. done.
Qed.

End extraction.

(** ** Names that come back *)

Definition good_name (fmt : format) (name : string) : Prop :=
  Forall proper (split_byte "/" (string_bytes name)) /\
  contains_dotdot (string_bytes name) = false /\
  (x00 ∉ string_bytes name) /\ name <> metaName fmt.

Lemma split_byte_cons_sep c s : split_byte c (c :: s) = [] :: split_byte c s.
Proof. cbn. by rewrite (proj2 (byte_eqb_eq c c) eq_refl). Qed.

Lemma split_byte_snoc_sep c s : split_byte c (s ++ [c]) = split_byte c s ++ [[]].
Proof. by rewrite (split_byte_app_sep c s []). Qed.

Lemma good_plain fmt name : good_name fmt name -> plain_name name.
Proof.
  intros (Hp & _ & H0 & _). split_and!; [|done|].
  - intros ->. by destruct (List.Forall_inv Hp) as [Hx _].
  - intros Hl. apply last_Some in Hl as [s Hs]. rewrite Hs, split_byte_snoc_sep in Hp.
    apply Forall_app in Hp as [_ Hp]. by destruct (List.Forall_inv Hp) as [Hx _].
Qed.

Lemma good_safe name : good_name keystore_format name -> unsafe keystore_format (string_bytes name) = false.
Proof.
  intros (Hp & Hd & _ & _). cbn [unsafe keystore_format]. rewrite Hd. cbn [orb].
  destruct (string_bytes name) as [|b s] eqn:E; [done|].
  change (string_bytes "/") with ["/"%byte]. cbn [HasPrefix].
  destruct (byte_eqb b "/") eqn:Eb; [|done]. apply byte_eqb_eq in Eb as ->.
  rewrite split_byte_cons_sep in Hp. by destruct (List.Forall_inv Hp) as [Hx _].
Qed.

Section places.
Context (root : bytes) (Hroot : Clean ("/"%byte :: root) <> ["/"%byte]).
#[local] Abbreviation dest := (bytes_string ("/"%byte :: root)).

Lemma target_good fmt name :
  good_name fmt name ->
  target dest name = loc (Clean ("/"%byte :: root) ++ "/"%byte :: string_bytes name).
Proof.
  intros (Hp & _). unfold target. rewrite string_bytes_string. by rewrite Join_rooted.
Qed.

Lemma target_inj fmt n n' :
  good_name fmt n -> good_name fmt n' -> target dest n = target dest n' -> n = n'.
Proof.
  intros Hn Hn'. rewrite (target_good _ _ Hn), (target_good _ _ Hn').
  intros E%loc_inj; [by apply string_bytes_inj|done].
Qed.
End places.

(** ** Packing and extracting when nothing fails *)

Section restore.

Context `{TarGz} `{Json SnapshotMeta} (sha256 : bytes -> bytes).

(** The files of [m] below [root] that a snapshot keeps. *)
Definition kept (sealedDir : string) (m : files) (p : path) (r : string) : Prop :=
  is_Some (m !! p) /\ rel_of sealedDir p = Some r /\
  hasSuffix (sealedDir ++ "/" ++ r) ".tmp" = false.

Definition entries_of (sealedDir : string) (m : files) (ps : list (string * path)) :
    list packEntry :=
  omap (fun rp : string * path =>
    if hasSuffix (sealedDir ++ "/" ++ rp.1) ".tmp" then None
    else (fun f => mkEntry rp.1 (content f)) <$> m !! rp.2) ps.

Lemma read_walk_run (sealedDir : string) (ps : list (string * path)) (w : world) :
  oracle w = [] -> Forall (fun rp : string * path => is_Some (fs w !! rp.2)) ps ->
  read_walk sealedDir ps w = (Ok (entries_of sealedDir (fs w) ps), w).
Proof.
  intros Ho. induction 1 as [|[r p] ps [f Hf] _ IH]; [done|].
  cbn [read_walk entries_of omap list_omap fst snd].
  destruct (hasSuffix _ ".tmp"); [exact IH|].
  unfold mbind, io_bind, sys_read. cbn [snd] in Hf. rewrite Hf. unfold take_outcome.
  rewrite Ho. rewrite IH. done.
Qed.

Lemma walk_files_elem (sealedDir : string) (m : files) r p :
  (r, p) ∈ walk_files sealedDir m <-> rel_of sealedDir p = Some r /\ is_Some (m !! p).
Proof.
  unfold walk_files. rewrite merge_sort_Permutation, list_elem_of_omap. split.
  - intros ([q f] & Hq & E). apply elem_of_map_to_list in Hq. cbn in E.
    destruct (rel_of sealedDir q) as [r'|] eqn:Er; [|done]. injection E as <- <-.
    split; [done|by eexists].
  - intros [Hr [f Hf]]. exists (p, f). split; [by apply elem_of_map_to_list|].
    cbn. by rewrite Hr.
Qed.

Lemma entries_elem (sealedDir : string) (m : files) e :
  e ∈ entries_of sealedDir m (walk_files sealedDir m) <->
  exists p f, kept sealedDir m p (rel e) /\ m !! p = Some f /\ pbytes e = content f.
Proof.
  unfold entries_of. rewrite list_elem_of_omap. split.
  - intros ([r p] & Hw & E). apply walk_files_elem in Hw as [Hr [f Hf]]. cbn in E.
    destruct (hasSuffix _ ".tmp") eqn:Es; [done|]. rewrite Hf in E. injection E as <-.
    exists p, f. cbn. by repeat split.
  - intros (p & f & (Hs & Hr & Ht) & Hf & Hb). exists (rel e, p).
    split; [by apply walk_files_elem|]. cbn. rewrite Ht, Hf. cbn. destruct e; cbn in *.
    by subst.
Qed.

(** Base names hold no slash. *)
Definition wf_files (m : files) : Prop :=
  forall p, is_Some (m !! p) -> "/"%byte ∉ string_bytes p.2.

Lemma rel_of_loc (sealedDir : string) p r :
  sealedDir <> ""%string -> "/"%byte ∉ string_bytes p.2 -> rel_of sealedDir p = Some r ->
  loc (string_bytes (sealedDir ++ "/" ++ r)) = p.
Proof.
  intros Hs Hb. unfold rel_of. destruct p as [d b]. cbn [fst snd] in *.
  assert (forall x y : string, string_bytes (x ++ "/" ++ y) =
    string_bytes x ++ "/"%byte :: string_bytes y) as Hcat.
  { intros x y. by rewrite !string_bytes_app. }
  destruct (String.eqb_spec d sealedDir) as [->|Hne].
  - intros [= <-]. rewrite Hcat, loc_app, !bytes_string_bytes; [done| |done].
    intros E. apply Hs. by apply string_bytes_inj.
  - destruct (HasPrefix _ _) eqn:Ep; [|done]. intros [= <-].
    apply HasPrefix_spec in Ep as [s Es]. rewrite Es, TrimPrefix_app.
    rewrite Hcat, Hcat, string_bytes_string.
    replace (string_bytes sealedDir ++ "/"%byte :: s ++ "/"%byte :: string_bytes b)
      with (string_bytes d ++ "/"%byte :: string_bytes b).
    + rewrite loc_app, !bytes_string_bytes; [done| |done]. rewrite Es.
      rewrite string_bytes_app. intros [[? ?]%app_eq_nil _]%app_eq_nil. done.
    + rewrite Es, string_bytes_app, <-!app_assoc. done.
Qed.

Lemma walk_files_nodup (sealedDir : string) (m : files) :
  sealedDir <> ""%string -> wf_files m -> NoDup (walk_files sealedDir m).*1.
Proof.
  intros Hs Hwf.
  assert (NoDup (omap (fun kv : path * file => (fun r => (r, kv.1)) <$> rel_of sealedDir kv.1)
    (map_to_list m)).*1) as Hn.
  { assert (forall l : list (path * file), NoDup l.*1 ->
      (forall kv, kv ∈ l -> "/"%byte ∉ string_bytes kv.1.2) ->
      NoDup (omap (fun kv : path * file => (fun r => (r, kv.1)) <$> rel_of sealedDir kv.1) l).*1)
      as Hgen.
    { induction l as [|[p f] l IH]; cbn; intros Hl Hb; [constructor|].
      inversion Hl as [|? ? Hp Hl']; subst.
      assert (NoDup (omap (fun kv : path * file => (fun r => (r, kv.1)) <$> rel_of sealedDir kv.1)
        l).*1) as Hi by (apply IH; [done|]; intros kv Hkv; apply Hb; by right).
      destruct (rel_of sealedDir p) as [r|] eqn:Er; [|done]. cbn. constructor; [|done].
      intros Hin. apply list_elem_of_fmap in Hin as ([r' q] & E & Hin). cbn in E. subst r'.
      apply list_elem_of_omap in Hin as ([q' f'] & Hq & E). cbn in E.
      destruct (rel_of sealedDir q') as [r'|] eqn:Er'; [|done]. injection E as <- <-.
      apply Hp, list_elem_of_fmap. exists (q', f'). split; [|done]. cbn.
      assert ("/"%byte ∉ string_bytes p.2) as Hb1 by (apply (Hb (p, f)); by left).
      assert ("/"%byte ∉ string_bytes q'.2) as Hb2 by (apply (Hb (q', f')); by right).
      by rewrite <-(rel_of_loc _ _ _ Hs Hb1 Er), <-(rel_of_loc _ _ _ Hs Hb2 Er'). }
    apply Hgen; [apply NoDup_fst_map_to_list|]. intros [p f] Hkv.
    apply elem_of_map_to_list in Hkv. apply Hwf. by eexists. }
  unfold walk_files. by rewrite merge_sort_Permutation.
Qed.

(** What one extracted entry does to the files. *)
Definition install (destDir : string) (m : files) (e : packEntry) : files :=
  <[target destDir (rel e) := mkFile (pbytes e) false]> m.

Lemma WriteFile_run (p : path) (b : bytes) (w : world) :
  oracle w = [] -> exists w', WriteFile p b w = (true, w') /\ oracle w' = [] /\
    fs w' = <[p := mkFile b false]> (fs w).
Proof.
  intros Ho. destruct w as [m os en h]. cbn in Ho. subst os. eexists.
  split; [reflexivity|]. split; [done|]. cbn. apply insert_insert_eq.
Qed.

Lemma extract_loop_run (destDir : string) (es : list packEntry) hasher meta (w : world) :
  oracle w = [] -> Forall (fun e => good_name keystore_format (rel e)) es ->
  exists w', extract_loop sha256 keystore_format destDir
      ((fun e => TarFile (rel e) (Some (pbytes e))) <$> es) hasher meta w
    = (Ok (hasher ++ hash_stream sha256 es, meta), w') /\
    fs w' = foldl (install destDir) (fs w) es.
Proof.
  intros Ho Hes. revert hasher w Ho.
  induction Hes as [|e es He _ IH]; intros hasher w Ho.
  - exists w. unfold hash_stream. cbn. by rewrite app_nil_r.
  - change (hash_stream sha256 (e :: es))
      with ((string_bytes (rel e) ++ sha256 (pbytes e)) ++ hash_stream sha256 es).
    cbn [fmap list_fmap extract_loop]. rewrite good_safe by done.
    destruct He as (_ & _ & _ & Hm). apply String.eqb_neq in Hm. rewrite Hm.
    cbn [makesDirs keystore_format].
    unfold mbind, io_bind, sys_mkdir, mbind, io_bind, take_outcome. rewrite Ho.
    cbn [negb mret io_ret]. unfold mret, io_ret. cbn [negb].
    destruct (WriteFile_run (target destDir (rel e)) (pbytes e) w Ho) as (w1 & -> & Ho1 & Hf1).
    cbn [negb]. destruct (IH (hasher ++ string_bytes (rel e) ++ sha256 (pbytes e)) w1 Ho1)
      as (w2 & E2 & Hf2).
    exists w2. rewrite E2, Hf2. cbn [foldl]. unfold install at 3. rewrite Hf1.
    by rewrite <-!app_assoc.
Qed.

Lemma install_other (destDir : string) (es : list packEntry) (m : files) (q : path) :
  (forall e, e ∈ es -> target destDir (rel e) <> q) ->
  foldl (install destDir) m es !! q = m !! q.
Proof.
  revert m. induction es as [|e es IH]; intros m Hq; [done|]. cbn [foldl].
  rewrite IH by (intros e' He'; apply Hq; by right).
  unfold install. apply lookup_insert_ne. apply Hq. by left.
Qed.

Lemma install_lookup (destDir : string) (es : list packEntry) (m : files) (e : packEntry) :
  NoDup ((fun e => target destDir (rel e)) <$> es) -> e ∈ es ->
  foldl (install destDir) m es !! target destDir (rel e) = Some (mkFile (pbytes e) false).
Proof.
  revert m. induction es as [|x es IH]; intros m Hn He; [by apply not_elem_of_nil in He|].
  inversion Hn as [|? ? Hx Hn']; subst. cbn [foldl].
  apply elem_of_cons in He as [->|He]; [|by apply IH].
  rewrite install_other.
  - unfold install. apply lookup_insert_eq.
  - intros e' He' E. apply Hx. apply (list_elem_of_fmap_2' _ _ _ _ He'). by rewrite E.
Qed.

Lemma pack_ok fmt now label es archive meta :
  pack sha256 fmt now label es = Ok (archive, meta) ->
  meta = meta_of sha256 now label (sortPackEntries es) /\
  exists mj, json_marshal meta = Some mj /\
    tgz_write ((metaName fmt, mj) :: ((fun e => (rel e, pbytes e)) <$> sortPackEntries es))
      = Some archive.
Proof.
  unfold pack. destruct (json_marshal _) as [mj|] eqn:Ej; [|done].
  destruct (tgz_write _) as [a|] eqn:Ea; [|done]. intros [= <- <-]. split; [done|].
  by exists mj.
Qed.

(** Extracting an archive whose header's hash is that of its entries. *)
Lemma extract_run (es : list packEntry) meta mj archive (destDir : string) (w : world) :
  json_marshal meta = Some mj ->
  tgz_write ((metaName keystore_format, mj) :: ((fun e => (rel e, pbytes e)) <$> es))
    = Some archive ->
  Hash meta = stream_hash sha256 (hash_stream sha256 es) ->
  Forall (fun e => good_name keystore_format (rel e)) es -> oracle w = [] ->
  exists w', ExtractSealedDir sha256 archive destDir w = (Ok meta, w') /\
    fs w' = foldl (install destDir) (fs w) es.
Proof.
  intros Hj Ha Hh Hes Ho.
  apply tgz_roundtrip in Ha.
  2:{ constructor; [|].
      - split_and!; [done| |done]. apply (bool_decide_eq_true_1 _). reflexivity.
      - apply Forall_fmap. eapply Forall_impl; [done|].
        intros e He. exact (good_plain keystore_format _ He). }
  rewrite fmap_cons, <-list_fmap_compose in Ha. cbn [fst snd] in Ha.
  destruct (extract_loop_run destDir es [] (Some meta) w Ho Hes) as (w' & E & Hf).
  exists w'. split; [|done]. unfold ExtractSealedDir, extract. rewrite Ha.
  unfold mbind, io_bind. cbn [extract_loop].
  replace (unsafe keystore_format (string_bytes (metaName keystore_format))) with false by reflexivity.
  rewrite String.eqb_refl, (json_roundtrip _ _ Hj). unfold compose. cbn [fst snd]. rewrite E.
  cbn [app]. by rewrite Hh, String.eqb_refl.
Qed.

(** Extracting what was packed. *)
Lemma extract_pack now label (es : list packEntry) archive meta (destDir : string) (w : world) :
  pack sha256 keystore_format now label es = Ok (archive, meta) ->
  Forall (fun e => good_name keystore_format (rel e)) es -> oracle w = [] ->
  exists w', ExtractSealedDir sha256 archive destDir w = (Ok meta, w') /\
    fs w' = foldl (install destDir) (fs w) (sortPackEntries es).
Proof.
  intros Hp Hes Ho. destruct (pack_ok _ _ _ _ _ _ Hp) as (-> & mj & Hj & Ha).
  destruct (sortPackEntries_spec es) as [Hperm _].
  eapply extract_run; [done..| |done]. by rewrite Hperm.
Qed.

(** *** What the header hash binds *)

(** For a given list of names it binds the contents. *)
Theorem same_hash_same_contents es es' :
  (forall x, length (sha256 x) = 32) -> rel <$> es = rel <$> es' ->
  stream_hash sha256 (hash_stream sha256 es) = stream_hash sha256 (hash_stream sha256 es') ->
  pbytes <$> es = pbytes <$> es' \/ exists x y, x <> y /\ sha256 x = sha256 y.
Proof.
  intros Hlen Hn Hh. unfold stream_hash in Hh. apply hex_encode_inj in Hh.
  destruct (decide (hash_stream sha256 es = hash_stream sha256 es')) as [Es|Es];
    [clear Hh|right; by eexists _, _].
  revert es' Hn Es. induction es as [|e es IH]; intros [|e' es'] Hn Es; try done; [by left|].
  cbn in Hn. injection Hn as Hr Hn. unfold hash_stream in Es. cbn in Es.
  rewrite Hr, <-!app_assoc in Es. apply app_inv_head in Es.
  apply app_inj_1 in Es as [E1 E2]; [|by rewrite !Hlen].
  destruct (decide (pbytes e = pbytes e')) as [Eb|Eb]; [|right; by eexists _, _].
  destruct (IH es' Hn E2) as [Eq|?]; [left|by right].
  by rewrite !fmap_cons, Eb, Eq.
Qed.

(** The names themselves are not bound: two files and one file with a
    contrived name are written to the hasher as the same bytes. *)
Definition merged (e1 e2 : packEntry) : packEntry :=
  mkEntry (bytes_string (string_bytes (rel e1) ++ sha256 (pbytes e1) ++ string_bytes (rel e2)))
    (pbytes e2).

Lemma hash_stream_merged e1 e2 :
  hash_stream sha256 [merged e1 e2] = hash_stream sha256 [e1; e2].
Proof.
  unfold hash_stream, merged. cbn [fmap list_fmap concat rel pbytes].
  by rewrite string_bytes_string, !app_nil_r, <-!app_assoc.
Qed.

(** So an archive that holds the one merged file under the header of the two
    is accepted, although the header lists two files. *)
Theorem merged_archive_accepted e1 e2 now label mj archive (destDir : string) (w : world) :
  let meta := meta_of sha256 now label [e1; e2] in
  good_name keystore_format (rel (merged e1 e2)) ->
  json_marshal meta = Some mj ->
  tgz_write [(metaName keystore_format, mj); (rel (merged e1 e2), pbytes e2)] = Some archive ->
  oracle w = [] ->
  exists w', ExtractSealedDir sha256 archive destDir w = (Ok meta, w') /\
    Files meta = [rel e1; rel e2] /\ fs w' = install destDir (fs w) (merged e1 e2).
Proof.
  intros meta Hg Hj Ha Ho.
  destruct (extract_run [merged e1 e2] meta mj archive destDir w) as (w' & E & Hf); try done.
  - cbn [Hash meta meta_of]. by rewrite hash_stream_merged.
  - by constructor.
  - by exists w'.
Qed.

End restore.

Lemma substring_all (s : string) : String.substring 0 (String.length s) s = s.
Proof. induction s as [|c s IH]; [done|]. cbn. by rewrite IH. Qed.

Lemma hasSuffix_spec (s t : string) : hasSuffix s t = true -> exists a, s = (a ++ t)%string.
Proof.
  unfold hasSuffix. intros H. bool_prop. revert H H0.
  induction s as [|c s IH]; intros Hl E.
  - destruct t; cbn in Hl; [by exists ""%string|lia].
  - destruct (decide (String.length t = S (String.length s))) as [El|El].
    + exists ""%string. cbn [String.length] in E. rewrite El, Nat.sub_diag in E.
      rewrite <-E. symmetry. exact (substring_all (String c s)).
    + cbn [String.length] in *. replace (S (String.length s) - String.length t)
        with (S (String.length s - String.length t)) in E by lia. cbn [String.substring] in E.
      destruct IH as [a ->]; [lia|done|]. by exists (String c a).
Qed.

Lemma bin_not_tmp (s : string) : hasSuffix (s ++ ".bin") ".tmp" = false.
Proof.
  apply not_true_is_false. intros (a & E)%hasSuffix_spec.
  apply (f_equal string_bytes) in E. rewrite !string_bytes_app in E.
  apply (f_equal last) in E. rewrite !last_app in E. discriminate.
Qed.

Section restore_keys.

Context `{TarGz} `{Json SnapshotMeta} `{TEERuntime} `{Json keyEntry}.
Context (sha256 : bytes -> bytes).

Lemma entries_nodup (sealedDir : string) (m : files) (ps : list (string * path)) :
  NoDup ps.*1 -> NoDup (rel <$> entries_of sealedDir m ps).
Proof.
  unfold entries_of. induction ps as [|[r p] ps IH]; intros Hn; [constructor|].
  apply NoDup_cons in Hn as [Hr Hn]. cbn [omap list_omap fst snd].
  destruct (hasSuffix _ ".tmp"); [by apply IH|].
  destruct (m !! p) as [f|]; [|by apply IH]. cbn. constructor; [|by apply IH].
  intros (e & He & Hin)%list_elem_of_fmap. apply Hr.
  apply list_elem_of_omap in Hin as ([r' p'] & Hin & E). cbn in E.
  destruct (hasSuffix _ ".tmp"); [done|]. destruct (m !! p'); [|done].
  injection E as <-. cbn in He. subst r'. by apply (list_elem_of_fmap_2' fst _ (r, p')).
Qed.

Lemma targets_nodup root (es : list packEntry) :
  Clean ("/"%byte :: root) <> ["/"%byte] ->
  Forall (fun e => good_name keystore_format (rel e)) es -> NoDup (rel <$> es) ->
  NoDup ((fun e => target (bytes_string ("/"%byte :: root)) (rel e)) <$> es).
Proof.
  intros Hr Hg Hn. rewrite Forall_forall in Hg.
  replace ((fun e => target (bytes_string ("/"%byte :: root)) (rel e)) <$> es)
    with (target (bytes_string ("/"%byte :: root)) <$> (rel <$> es))
    by by rewrite <-list_fmap_compose.
  apply NoDup_fmap_2_strong; [|done].
  intros x y (ex & -> & Hx)%list_elem_of_fmap (ey & -> & Hy)%list_elem_of_fmap.
  apply (target_inj root Hr keystore_format); by apply Hg.
Qed.

(** [Get] reads the content of the role's file and nothing else. *)
Lemma Get_content (s s' : keyStore) (role : Role) (w w' : world) e :
  oracle w = [] -> oracle w' = [] ->
  content <$> fs w' !! key_path sha256 s' role = content <$> fs w !! key_path sha256 s role ->
  fst (Get sha256 s role w) = Ok e -> fst (Get sha256 s' role w') = Ok e.
Proof.
  intros Ho Ho' Hc. unfold Get, mbind, io_bind, sys_read, take_outcome.
  rewrite Ho, Ho'.
  destruct (fs w !! key_path sha256 s role) as [f|],
    (fs w' !! key_path sha256 s' role) as [f'|]; cbn in Hc; try done.
  injection Hc as Hc. cbn. by rewrite Hc.
Qed.

Lemma Get_present (s : keyStore) (role : Role) (w : world) e :
  fst (Get sha256 s role w) = Ok e -> is_Some (fs w !! key_path sha256 s role).
Proof.
  unfold Get, mbind, io_bind, sys_read.
  destruct (fs w !! key_path sha256 s role); [by eexists|done].
Qed.

(** A key file's place below the sealed directory, and where it is restored. *)
Lemma key_rel (sealedDir : string) (role : Role) :
  rel_of sealedDir (key_path sha256 (mkStore (sealedDir ++ "/keys")) role) =
    Some ("keys/" ++ (hex_EncodeToString (sha256 (string_bytes role)) ++ ".bin"))%string.
Proof.
  unfold rel_of, key_path. cbn [fst snd store_dir].
  rewrite (proj2 (String.eqb_neq _ _)) by by apply append_nonempty_ne.
  replace (string_bytes (sealedDir ++ "/keys"))
    with (string_bytes (sealedDir ++ "/") ++ string_bytes "keys")
    by by rewrite !string_bytes_app, <-app_assoc.
  by rewrite HasPrefix_app, TrimPrefix_app.
Qed.

Lemma key_target root (role : Role) :
  Clean ("/"%byte :: root) = "/"%byte :: root -> root <> [] ->
  let b := (hex_EncodeToString (sha256 (string_bytes role)) ++ ".bin")%string in
  good_name keystore_format ("keys/" ++ b) -> "/"%byte ∉ string_bytes b ->
  target (bytes_string ("/"%byte :: root)) ("keys/" ++ b) =
    key_path sha256 (mkStore (bytes_string ("/"%byte :: root) ++ "/keys")) role.
Proof.
  intros Hc Hr b Hg Hb.
  rewrite (target_good root) with (fmt := keystore_format); [|rewrite Hc; congruence|done].
  rewrite Hc. unfold key_path. cbn [store_dir]. fold b.
  replace (("/"%byte :: root) ++ "/"%byte :: string_bytes ("keys/" ++ b))
    with ((("/"%byte :: root) ++ string_bytes "/keys") ++ "/"%byte :: string_bytes b)
    by by rewrite <-app_assoc, string_bytes_app.
  rewrite loc_app by done. rewrite bytes_string_bytes. f_equal.
  apply string_bytes_inj. by rewrite string_bytes_app, !string_bytes_string.
Qed.

(** C12. A snapshot taken of the sealed directory, restored into a fresh place
    on a machine where nothing fails, gives back every key: for each role
    that the running keystore could read, a keystore opened on the restored
    directory reads the same entry. *)
Theorem restore_recovers_keys (sealedDir label : string) (root : bytes) (now : Z)
    (w w1 w2 : world) (archive : bytes) (meta : SnapshotMeta)
    (Hdest : Clean ("/"%byte :: root) = "/"%byte :: root) (Hroot : root <> [])
    (Hsealed : sealedDir <> ""%string) (Hwf : wf_files (fs w))
    (Hnames : forall p r, kept sealedDir (fs w) p r -> good_name keystore_format r)
    (Ho : oracle w = []) (Ho2 : oracle w2 = [])
    (Hpack : PackSealedDir sha256 sealedDir label now w = (Ok (archive, meta), w1)) :
  exists w3,
    ExtractSealedDir sha256 archive (bytes_string ("/"%byte :: root)) w2 = (Ok meta, w3) /\
    forall role e,
      fst (Get sha256 (mkStore (sealedDir ++ "/keys")) role w) = Ok e ->
      fst (Get sha256 (mkStore (bytes_string ("/"%byte :: root) ++ "/keys")) role
             (mkWorld (fs w3) [] 0 [])) = Ok e.
Proof.
  unfold PackSealedDir, take_outcome in Hpack. rewrite Ho in Hpack.
  rewrite read_walk_run in Hpack; [|done|].
  2:{ apply Forall_forall. intros [r p] [_ Hp]%walk_files_elem. exact Hp. }
  apply (f_equal fst) in Hpack. cbn [fst] in Hpack.
  set (es := entries_of sealedDir (fs w) (walk_files sealedDir (fs w))) in Hpack.
  assert (Forall (fun e => good_name keystore_format (rel e)) es) as Hgood.
  { apply Forall_forall. intros e (p & f & Hk & _)%entries_elem. by eapply Hnames. }
  destruct (extract_pack sha256 now label es archive meta (bytes_string ("/"%byte :: root)) w2
    Hpack Hgood Ho2) as (w3 & E3 & Hf3). exists w3. split; [done|].
  intros role e He. eapply Get_content; [exact Ho|done| |exact He]. cbn [fs].
  destruct (Get_present _ _ _ _ He) as [f Hf].
  set (b := (hex_EncodeToString (sha256 (string_bytes role)) ++ ".bin")%string).
  assert (kept sealedDir (fs w) (key_path sha256 (mkStore (sealedDir ++ "/keys")) role)
    ("keys/" ++ b)) as Hk.
  { split_and!; [by eexists|apply key_rel|]. subst b.
    rewrite <-!string_app_assoc. apply bin_not_tmp. }
  assert ("/"%byte ∉ string_bytes b) as Hb.
  { apply (Hwf (key_path sha256 (mkStore (sealedDir ++ "/keys")) role)). by eexists. }
  rewrite <-(key_target root role Hdest Hroot (Hnames _ _ Hk) Hb), Hf. fold b.
  assert (mkEntry ("keys/" ++ b) (content f) ∈ es) as Hin
    by (apply entries_elem; by eexists _, _).
  destruct (sortPackEntries_spec es) as [Hperm _].
  rewrite Hf3.
  rewrite (install_lookup _ _ (fs w2) (mkEntry ("keys/" ++ b) (content f))); [done| |by rewrite Hperm].
  apply targets_nodup; [rewrite Hdest; congruence|by rewrite Hperm|].
  rewrite Hperm. by apply entries_nodup, walk_files_nodup.
Qed.

End restore_keys.


(** ** Identifiers and listings *)

(** A keystore snapshot's label cannot add a path component: every byte of
    it is a letter, a digit, a dash or an underscore. *)
Lemma sanitizeLabel_chars label c :
  c ∈ string_bytes (sanitizeLabel label) -> label_char c = c.
Proof.
  unfold sanitizeLabel. destruct (String.eqb label "").
  - intros Hc. revert c Hc. apply Forall_forall.
    apply (bool_decide_eq_true_1 _). vm_compute. reflexivity.
  - rewrite string_bytes_string. intros (d & -> & _)%list_elem_of_fmap.
    unfold label_char at 2 3. destruct (_ || _) eqn:E; [|done].
    unfold label_char. by rewrite E.
Qed.

#[export] Instance string_ge_trans : Transitive string_ge.
Proof. intros a b c H1 H2. unfold string_ge, string_le in *.
  apply Is_true_eq_true. apply (transitivity (R := String.le) (y := b)); by apply Is_true_eq_left.
Qed.

#[export] Instance string_ge_antisymm : AntiSymm (=) string_ge.
Proof. intros a b H1 H2. by apply String.leb_antisym. Qed.

(** Where the store lists keys in ascending order the two packages' [List]
    agree: reversing is sorting. *)
Theorem lists_agree prefix objs ids :
  listed_ids prefix objs = Some ids -> StronglySorted string_le ids ->
  keystore_List prefix objs = payment_List prefix objs.
Proof.
  unfold keystore_List, payment_List. intros -> Hs. cbn. f_equal.
  apply (Sorted_unique string_ge).
  - apply StronglySorted_Sorted. induction Hs as [|x l Hl IH Hx]; [constructor|].
    rewrite reverse_cons. clear Hl.
    assert (Forall (fun y => string_ge y x) (reverse l)) as Hx' by by rewrite reverse_Permutation.
    revert IH Hx'. generalize (reverse l). clear. intros l.
    induction 1 as [|a l Hl IH Ha]; intros Hx; cbn; [by repeat constructor|].
    inversion Hx; subst. constructor; [by apply IH|]. apply Forall_app. by repeat constructor.
  - apply Sorted_merge_sort. intros a b.
    destruct (String.leb_total a b); [by right|by left].
  - by rewrite merge_sort_Permutation, reverse_Permutation.
Qed.

(** * The properties at a concrete store *)

#[local] Definition meta_tuple (m : SnapshotMeta) : Z * string * list string * string * Z :=
  (CreatedAt m, Label m, Files m, Hash m, Bytes m).
#[local] Definition tuple_meta (t : Z * string * list string * string * Z) : SnapshotMeta :=
  let '(c, l, f, h, b) := t in Build_SnapshotMeta c l f h b.

#[local] Instance meta_eq_dec : EqDecision SnapshotMeta.
Proof. solve_decision. Defined.
#[local, program] Instance meta_countable : Countable SnapshotMeta :=
  inj_countable' meta_tuple tuple_meta _.
Next Obligation. by intros [c l f h b]. Qed.

#[local] Instance json_meta : Json SnapshotMeta := countable_json.

#[local] Definition demo_open (a : bytes) : option (list tar_event) :=
  match bytes_pos a with
  | None => None
  | Some p => (fun es : list (string * bytes) => (fun e => TarFile e.1 (Some e.2)) <$> es)
                <$> decode p
  end.

#[local, program] Instance demo_tgz : TarGz := {|
  tgz_write es := Some (pos_bytes (encode es));
  tgz_open := demo_open
|}.
Next Obligation.
  intros es a _ [= <-]. unfold demo_open. by rewrite bytes_pos_bytes, decode_encode.
Qed.

#[local] Existing Instance marker_tee.
#[local] Existing Instance KeyStore.json_keyEntry.

#[local] Definition demo_hash (b : bytes) : bytes := take 2 b.
#[local] Definition demo_entry : keyEntry := Build_keyEntry "gw" [x01] "rsa" 7.
#[local] Definition demo_key : path :=
  key_path demo_hash (mkStore "/s/keys") "gw".
#[local] Definition demo_files : files :=
  {[demo_key := mkFile (x53 :: default [] (json_marshal demo_entry)) true]}.
#[local] Definition demo_w : world := mkWorld demo_files [] 0 [].
#[local] Definition empty_w : world := mkWorld ∅ [] 0 [].

Lemma demo_pack_ok fmt now label es : is_ok (pack demo_hash fmt now label es) = true.
Proof. reflexivity. Qed.

Lemma restore_recovers_keys_witness :
  exists archive meta w1 w3,
    PackSealedDir demo_hash "/s" "manual" 9 demo_w = (Ok (archive, meta), w1) /\
    ExtractSealedDir demo_hash archive "/r" empty_w = (Ok meta, w3) /\
    fst (Get demo_hash (mkStore "/r/keys") "gw" (mkWorld (fs w3) [] 0 [])) = Ok demo_entry.
Proof.
  destruct (PackSealedDir demo_hash "/s" "manual" 9 demo_w) as [[[archive meta]|e] w1] eqn:E.
  2:{ exfalso. unfold PackSealedDir in E. cbn [take_outcome oracle demo_w] in E.
      rewrite read_walk_run in E; [|done|].
      - apply (f_equal (fun x => is_ok (fst x))) in E. cbn [fst] in E.
        rewrite demo_pack_ok in E. discriminate.
      - apply Forall_forall. intros [r p] [_ Hp]%walk_files_elem. exact Hp. }
  assert (forall p, is_Some (fs demo_w !! p) -> p = demo_key) as Hkey.
  { intros p [f Hf]. unfold demo_w, demo_files in Hf. cbn [fs] in Hf.
    by apply lookup_singleton_Some in Hf as [<- _]. }
  assert (wf_files (fs demo_w)) as Hwf.
  { intros p ->%Hkey. apply (bool_decide_eq_true_1 _). vm_compute. reflexivity. }
  assert (forall p r, kept "/s" (fs demo_w) p r -> good_name keystore_format r) as Hnames.
  { intros p r (->%Hkey & Hr & _). vm_compute in Hr. injection Hr as <-.
    split_and!; [| |apply (bool_decide_eq_true_1 _)|done].
    - apply (bool_decide_eq_true_1 _). vm_compute. reflexivity.
    - vm_compute. reflexivity.
    - vm_compute. reflexivity. }
  assert (string_bytes "r" <> []) as Hr by (intros Hr; discriminate Hr).
  assert ("/s"%string <> ""%string) as Hs by (intros Hx; discriminate Hx).
  assert (Clean ("/"%byte :: string_bytes "r") = "/"%byte :: string_bytes "r") as Hc
    by (vm_compute; reflexivity).
  destruct (restore_recovers_keys demo_hash "/s" "manual" (string_bytes "r") 9 demo_w w1 empty_w
    archive meta Hc Hr Hs Hwf Hnames eq_refl eq_refl E) as (w3 & E3 & HG).
  exists archive, meta, w1, w3. split; [reflexivity|]. split; [exact E3|].
  apply (HG "gw"%string demo_entry). vm_compute. reflexivity.
Defined.

(** An archive with an entry that tries to leave the destination. *)
#[local] Definition demo_evil : bytes :=
  default [] (tgz_write [("keys/a.bin"%string, [x01]); ("../../etc/passwd"%string, [x02])]).

Lemma extract_confined_witness :
  fst (extract demo_hash keystore_format demo_evil "/r" empty_w) =
    Err (ErrUnsafePath "../../etc/passwd") /\
  confined (string_bytes "/r") (fs empty_w)
    (fs (snd (extract demo_hash keystore_format demo_evil "/r" empty_w))).
Proof.
  split; [vm_compute; reflexivity|].
  destruct (extract demo_hash keystore_format demo_evil "/r" empty_w) as [r w'] eqn:E.
  refine (proj1 (extract_confined demo_hash (string_bytes "r") _ keystore_format demo_evil
    empty_w r w' (or_introl eq_refl) E)).
  apply (bool_decide_eq_true_1 _). vm_compute. reflexivity.
Defined.
