(* ===== verification/AuthChecks.v ===== *)
(** Sender authentication, internal/smtp/auth_checks.go: SPF evaluation with
    its DNS budget, DKIM result selection, DMARC policy parsing and alignment.

The resolver is a parameter.  Its answers may change from one query to the
next: each lookup is given the number of queries already made.  DNS errors
are [None].  The evaluation recurses through [include:] and [redirect=], so
it has fuel; [CheckSPF] runs it with [spf_fuel], which is always enough. *)

From S2P Require Import Prelude GoNet.
Local Open Scope Z_scope.

(** * SPF *)

Inductive query := QTXT (d : bytes) | QHost (d : bytes) | QMX (d : bytes).

(** [spfDNSCounter], and the queries made so far (most recent first). *)
Record spfState := { count : Z; queries : list query }.

Definition spf_limit : Z := 10.

Definition newSPFDNSCounter : spfState := {| count := 0; queries := [] |}.

(** [inc]: the new state, and whether the limit is exceeded. *)
Definition inc (st : spfState) : bool * spfState :=
  (spf_limit <? count st + 1, {| count := count st + 1; queries := queries st |}).

Definition log (q : query) (st : spfState) : spfState :=
  {| count := count st; queries := q :: queries st |}.

(** ** Mechanism syntax and address matching *)

(** [parseMechanismDomainCIDR]; [n] is the length of the mechanism's name. *)
Definition parseMechanismDomainCIDR (mechanism : bytes) (n : nat) (defaultDomain : bytes)
    : bytes * Z :=
  match skipn n mechanism with
  | [] => (defaultDomain, 0)
  | ":"%byte :: rest =>
      match IndexByte "/" rest with
      | Some i => (firstn i rest, default 0 (Sscanf_d (skipn (S i) rest)))
      | None => (rest, 0)
      end
  | "/"%byte :: rest => (defaultDomain, default 0 (Sscanf_d rest))
  | _ => (defaultDomain, 0)
  end.

(** [netip.AddrFromSlice(ip)] followed by [Unmap]. *)
Definition addr_of (ip : IP) : option (list Z) :=
  if (length ip =? 4)%nat || (length ip =? 16)%nat
  then Some (match To4 ip with Some v4 => v4 | None => ip end)
  else None.

(** The first [n] bits of two addresses of one family agree. *)
Definition same_prefix (n : nat) (a b : list Z) : bool :=
  (length a =? length b)%nat &&
  bool_decide (mask_bytes (length a) n a = mask_bytes (length a) n b).

Definition matchIPWithPrefix (clientIP : IP) (resolvedIP : option IP) (prefix : Z) : bool :=
  match resolvedIP with
  | None => false
  | Some r =>
      match addr_of clientIP, addr_of r with
      | Some c, Some r =>
          let maxBits := 8 * Z.of_nat (length c) in
          let p := Z.max 0 (Z.min prefix maxBits) in
          same_prefix (Z.to_nat p) r c
      | _, _ => false
      end
  end.

(** [netip.ParseAddr] without zones: an address with a zone never equals the
    zoneless client address and is refused in a prefix. *)
Definition parse_addr (s : bytes) : option IP := ParseIP s.

(** [netip.ParsePrefix]: the address with its own family (a mapped address
    stays an IPv6 one) and the number of bits. *)
Definition ParsePrefix (s : bytes) : option (list Z * nat) :=
  i ← LastIndexByte "/" s;
  let a := firstn i s in
  let bits := skipn (S i) s in
  ip ← parse_addr a;
  let addr := if is_Some_dec (IndexByte ":" a) then ip
              else match To4 ip with Some v4 => v4 | None => ip end in
  match bits with
  | [] => None
  | "0"%byte :: _ :: _ => None
  | _ =>
      n ← parse_decimal 0 bits;
      if 8 * Z.of_nat (length addr) <? n then None else Some (addr, Z.to_nat n)
  end.

Definition matchIPCIDR (ip : IP) (cidr : bytes) : bool :=
  match addr_of ip with
  | None => false
  | Some addr =>
      if is_Some_dec (IndexByte "/" cidr) then
        match ParsePrefix cidr with
        | Some (p, n) => same_prefix n p addr
        | None => false
        end
      else match parse_addr cidr with
      | Some t => bool_decide (addr_of t = Some addr)
      | None => false
      end
  end.

(** One resolved host list against the client, for [a] and [mx]. *)
Definition hosts_match (ip : IP) (prefix : Z) (ips : list bytes) : bool :=
  existsb (fun r => if 0 <? prefix then matchIPWithPrefix ip (ParseIP r) prefix
                    else bool_decide (r = IP_String ip)) ips.

(** A term of the record: its qualifier and mechanism. *)
Definition split_qualifier (part : bytes) : byte * bytes :=
  match part with
  | c :: rest =>
      if bool_decide (c ∈ ["+"; "-"; "~"; "?"]%byte) then (c, rest) else ("+"%byte, part)
  | [] => ("+"%byte, part)
  end.

Definition qualifier_result (q : byte) : string :=
  if byte_eqb q "+" then "pass"
  else if byte_eqb q "-" then "fail"
  else if byte_eqb q "~" then "softfail"
  else "neutral".

Definition is_spf_record (txt : bytes) : bool :=
  HasPrefix txt (bs "v=spf1 ") || bool_decide (txt = bs "v=spf1").

(** [mechanism == name] or [name] followed by one of [seps]. *)
Definition is_mech (mech : bytes) (name : string) (seps : list byte) : bool :=
  bool_decide (mech = bs name) ||
  existsb (fun c => HasPrefix mech (bs name ++ [c])) seps.

Inductive outcome :=
| Return (result : string)
| Matched (matched : bool).

Section spf.
  Context (LookupTXT LookupHost LookupMX : nat -> bytes -> option (list bytes)).

Definition ask_txt (d : bytes) (st : spfState) : option (list bytes) * spfState :=
  (LookupTXT (length (queries st)) d, log (QTXT d) st).

Definition ask_host (d : bytes) (st : spfState) : option (list bytes) * spfState :=
  (LookupHost (length (queries st)) d, log (QHost d) st).

Definition ask_mx (d : bytes) (st : spfState) : option (list bytes) * spfState :=
  (LookupMX (length (queries st)) d, log (QMX d) st).

(** The loop over MX hosts, each of which costs a lookup. *)
Fixpoint mx_loop (ip : IP) (prefix : Z) (hosts : list bytes) (st : spfState)
    : outcome * spfState :=
  match hosts with
  | [] => (Matched false, st)
  | h :: hosts =>
      let '(over, st) := inc st in
      if over then (Return "permerror", st)
      else
        let '(ips, st) := ask_host h st in
        if hosts_match ip prefix (default [] ips) then (Matched true, st)
        else mx_loop ip prefix hosts st
  end.

(** [if counter.inc() { return "permerror", ... }] before [k]. *)
Definition counted (st : spfState) (k : spfState -> option (outcome * spfState))
    : option (outcome * spfState) :=
  let '(over, st) := inc st in
  if over then Some (Return "permerror", st) else k st.

(** One mechanism; [rec] is the recursive evaluation of another domain, and
    [None] is lack of fuel. *)
Definition eval_mechanism (rec : bytes -> spfState -> option (string * spfState))
    (ip : IP) (domain mechanism : bytes) (st : spfState) : option (outcome * spfState) :=
  if bool_decide (mechanism = bs "all") then Some (Matched true, st)
  else if HasPrefix mechanism (bs "ip4:") || HasPrefix mechanism (bs "ip6:") then
    Some (Matched (matchIPCIDR ip (skipn 4 mechanism)), st)
  else if is_mech mechanism "a" [":"; "/"]%byte then
    counted st (fun st =>
      let '(aDomain, prefix) := parseMechanismDomainCIDR mechanism 1 domain in
      let '(ips, st) := ask_host aDomain st in
      Some (Matched (hosts_match ip prefix (default [] ips)), st))
  else if is_mech mechanism "mx" [":"; "/"]%byte then
    counted st (fun st =>
      let '(mxDomain, prefix) := parseMechanismDomainCIDR mechanism 2 domain in
      let '(mxs, st) := ask_mx mxDomain st in
      Some (mx_loop ip prefix (default [] mxs) st))
  else if HasPrefix mechanism (bs "include:") then
    counted st (fun st =>
      '(r, st) ← rec (skipn 8 mechanism) st;
      Some (if String.eqb r "permerror" then Return "permerror"
            else Matched (String.eqb r "pass"), st))
  else if HasPrefix mechanism (bs "redirect=") then
    counted st (fun st => '(r, st) ← rec (skipn 9 mechanism) st; Some (Return r, st))
  else if is_mech mechanism "ptr" [":"]%byte then Some (Return "neutral", st)
  else if HasPrefix mechanism (bs "exists:") then
    counted st (fun st =>
      let '(ips, st) := ask_host (skipn 7 mechanism) st in
      Some (Matched (match default [] ips with [] => false | _ => true end), st))
  else Some (Matched false, st).

Fixpoint eval_terms (rec : bytes -> spfState -> option (string * spfState))
    (ip : IP) (domain : bytes) (terms : list bytes) (st : spfState)
    : option (string * spfState) :=
  match terms with
  | [] => Some ("neutral"%string, st)
  | part :: terms =>
      let '(q, mechanism) := split_qualifier part in
      '(o, st) ← eval_mechanism rec ip domain mechanism st;
      match o with
      | Return r => Some (r, st)
      | Matched true => Some (qualifier_result q, st)
      | Matched false => eval_terms rec ip domain terms st
      end
  end.

Fixpoint checkSPFWithCounter (fuel : nat) (ip : IP) (domain : bytes) (st : spfState)
    : option (string * spfState) :=
  match fuel with
  | O => None
  | S fuel =>
      let '(txts, st) := ask_txt domain st in
      match txts with
      | None => Some ("temperror"%string, st)
      | Some txts =>
          match base.filter (fun t => is_spf_record t = true) txts with
          | [] => Some ("none"%string, st)
          | [r] => eval_terms (checkSPFWithCounter fuel ip) ip domain (skipn 1 (Fields r)) st
          | _ => Some ("permerror"%string, st)
          end
      end
  end.

Definition spf_fuel : nat := 11.

(** [CheckSPF]: the result and the queries made. *)
Definition CheckSPF (ip : IP) (helo from : bytes) : option (string * spfState) :=
  let domain := match LastIndexByte "@" from with
                | Some i => skipn (S i) from
                | None => from
                end in
  let domain := match domain with [] => helo | _ => domain end in
  match domain with
  | [] => Some ("none"%string, newSPFDNSCounter)
  | _ => checkSPFWithCounter spf_fuel ip domain newSPFDNSCounter
  end.

(** ** Termination and the DNS budget *)

(** Queries made, against the lookups counted (an excessive one makes none):
    from [st] to [st'] with [free] queries not counted. *)
Definition charged (st : spfState) : Z := Z.min (count st) spf_limit.

Definition within (free : Z) (st st' : spfState) : Prop :=
  Z.of_nat (length (queries st')) + charged st
    <= Z.of_nat (length (queries st)) + charged st' + free /\
  count st <= count st'.

Lemma within_trans a b st1 st2 st3 :
  within a st1 st2 -> within b st2 st3 -> within (a + b) st1 st3.
Proof. unfold within. lia. Qed.

Lemma within_refl st : within 0 st st.
Proof. unfold within. lia. Qed.

(** How a mechanism may end: beyond the limit only with "permerror". *)
Definition good_outcome (free : Z) (st : spfState) (r : option (outcome * spfState)) : Prop :=
  exists o st', r = Some (o, st') /\ within free st st' /\
    (count st' <= spf_limit \/ o = Return "permerror").

Lemma log_within q st : within 1 st (log q st).
Proof. unfold within, charged, log. cbn [count queries length]. lia. Qed.

Lemma good_now free st st' o :
  within free st st' -> count st' <= spf_limit -> good_outcome free st (Some (o, st')).
Proof. intros. exists o, st'. auto. Qed.

(** A counted step may make one query of its own. *)
Lemma counted_good st k :
  (forall st1, count st1 <= spf_limit -> count st1 = count st + 1 -> good_outcome 1 st1 (k st1)) ->
  good_outcome 0 st (counted st k).
Proof.
  intros Hk. unfold counted, inc.
  destruct (Z.ltb_spec spf_limit (count st + 1)) as [Ho|Ho].
  - eexists _, _. split; [reflexivity|]. split; [|by right].
    unfold within, charged. cbn [count queries]. lia.
  - destruct (Hk {| count := count st + 1; queries := queries st |}) as (o & st' & -> & Hw & Hl);
      [done..|].
    exists o, st'. split; [done|]. split; [|done].
    unfold within, charged in *. cbn [count queries] in *. lia.
Qed.

Lemma mx_loop_good ip prefix hosts st :
  count st <= spf_limit -> good_outcome 0 st (Some (mx_loop ip prefix hosts st)).
Proof.
  revert st. induction hosts as [|h hosts IH]; intros st Hc; cbn [mx_loop].
  - by apply good_now; [apply within_refl|].
  - pose proof (counted_good st (fun st =>
      let '(ips, st) := ask_host h st in
      Some (if hosts_match ip prefix (default [] ips) then (Matched true, st)
            else mx_loop ip prefix hosts st))) as Hg.
    unfold counted in Hg. destruct (inc st) as [over st1]. destruct over; apply Hg; clear Hg;
      intros st2 H2 _; cbn [ask_host]; destruct (hosts_match _ _ _);
      try (by apply good_now; [apply log_within|]);
      destruct (IH (log (QHost h) st2) H2) as (o & st' & -> & Hw & Hl);
      exists o, st'; (split; [done|]); (split; [|done]);
      exact (within_trans 1 0 _ _ _ (log_within _ _) Hw).
Qed.

(** The recursive evaluation, as the loops may rely on it. *)
Definition good_rec (c : Z) (rec : bytes -> spfState -> option (string * spfState)) : Prop :=
  forall d st, count st <= spf_limit -> c <= count st ->
    exists r st', rec d st = Some (r, st') /\ within 1 st st' /\
      (count st' <= spf_limit \/ r = "permerror"%string).

Lemma eval_mechanism_good rec ip domain mech st :
  count st <= spf_limit -> good_rec (count st + 1) rec ->
  good_outcome 0 st (eval_mechanism rec ip domain mech st).
Proof.
  intros Hc Hrec. unfold eval_mechanism.
  repeat match goal with
  | |- good_outcome _ _ (if ?b then _ else _) => destruct b
  | |- good_outcome _ _ (Some (_, st)) => apply good_now; [apply within_refl|done]
  | |- good_outcome _ _ (counted _ _) => apply counted_good; intros st1 Hl1 Hc1
  end.
  - destruct (parseMechanismDomainCIDR _ _ _) as [d p]. cbn [ask_host].
    by apply good_now; [apply log_within|].
  - destruct (parseMechanismDomainCIDR _ _ _) as [d p]. cbn [ask_mx].
    destruct (mx_loop_good ip p (default [] (LookupMX (length (queries st1)) d))
                (log (QMX d) st1) Hl1) as (o & st' & -> & Hw & Hl).
    exists o, st'. split; [done|]. split; [|done].
    exact (within_trans 1 0 _ _ _ (log_within _ _) Hw).
  - destruct (Hrec (skipn 8 mech) st1 Hl1) as (r & st' & -> & Hw & Hl); [lia|].
    eexists _, st'. split; [reflexivity|]. split; [done|].
    destruct Hl as [Hl| ->]; [by left|by right].
  - destruct (Hrec (skipn 9 mech) st1 Hl1) as (r & st' & -> & Hw & Hl); [lia|].
    eexists _, st'. split; [reflexivity|]. split; [done|].
    destruct Hl as [Hl| ->]; [by left|by right].
  - cbn [ask_host]. by apply good_now; [apply log_within|].
Qed.

Lemma eval_terms_good rec ip domain terms st :
  count st <= spf_limit -> good_rec (count st + 1) rec ->
  exists r st', eval_terms rec ip domain terms st = Some (r, st') /\ within 0 st st' /\
    (count st' <= spf_limit \/ r = "permerror"%string).
Proof.
  revert st. induction terms as [|part terms IH]; intros st Hc Hrec; cbn [eval_terms].
  - exists "neutral"%string, st. split; [done|]. split; [apply within_refl|by left].
  - destruct (split_qualifier part) as [q mech].
    destruct (eval_mechanism_good rec ip domain mech st Hc Hrec) as (o & st1 & -> & Hw & Hl).
    cbn [mbind option_bind]. destruct o as [r|[]].
    + exists r, st1. split; [done|]. split; [done|]. destruct Hl as [?|[= ->]]; auto.
    + destruct Hl as [Hl|]; [|done]. eauto 10.
    + destruct Hl as [Hl|]; [|done].
      destruct (IH st1 Hl) as (r & st2 & -> & Hw2 & Hl2).
      { intros d st2 H1 H2. apply Hrec; [done|]. destruct Hw. lia. }
      exists r, st2. split; [done|]. split; [|done].
      exact (within_trans 0 0 _ _ _ Hw Hw2).
Qed.

Lemma checkSPF_good fuel ip c :
  spf_limit < Z.of_nat fuel + c -> good_rec c (checkSPFWithCounter fuel ip).
Proof.
  revert c. induction fuel as [|fuel IH]; intros c Hf d st Hc Hcs; [lia|].
  cbn [checkSPFWithCounter ask_txt].
  assert (Hw : within 1 st (log (QTXT d) st)) by apply log_within.
  destruct (LookupTXT _ d) as [txts|]; [|eauto 10].
  destruct (base.filter _ txts) as [|t [|]]; [eauto 10| |eauto 10].
  destruct (eval_terms_good (checkSPFWithCounter fuel ip) ip d (skipn 1 (Fields t))
              (log (QTXT d) st) Hc) as (r & st' & -> & Hw2 & Hl).
  - apply IH. cbn [log count]. lia.
  - exists r, st'. split; [done|]. split; [|done]. exact (within_trans 1 0 _ _ _ Hw Hw2).
Qed.
(** ** What a "pass" means

[authorised ip d]: some answer of the resolver holds a single SPF record of
[d], one of whose terms authorises [ip] under the qualifier "+", or sends
the decision to a domain that authorises it. *)
Inductive authorised (ip : IP) : bytes -> Prop :=
| auth_term d n txts r part mech :
LookupTXT n d = Some txts ->
base.filter (fun t => is_spf_record t = true) txts = [r] ->
part ∈ skipn 1 (Fields r) ->
split_qualifier part = ("+"%byte, mech) ->
allows ip d mech -> authorised ip d
| auth_redirect d n txts r part q mech :
LookupTXT n d = Some txts ->
base.filter (fun t => is_spf_record t = true) txts = [r] ->
part ∈ skipn 1 (Fields r) ->
split_qualifier part = (q, mech) ->
HasPrefix mech (bs "redirect=") = true ->
authorised ip (skipn 9 mech) -> authorised ip d
with allows (ip : IP) : bytes -> bytes -> Prop :=
| allows_all d : allows ip d (bs "all")
| allows_cidr d mech : matchIPCIDR ip (skipn 4 mech) = true -> allows ip d mech
| allows_a d mech n dom p hosts :
is_mech mech "a" [":"; "/"]%byte = true ->
parseMechanismDomainCIDR mech 1 d = (dom, p) ->
LookupHost n dom = Some hosts -> hosts_match ip p hosts = true -> allows ip d mech
| allows_mx d mech n n' dom p mxs h hosts :
is_mech mech "mx" [":"; "/"]%byte = true ->
parseMechanismDomainCIDR mech 2 d = (dom, p) ->
LookupMX n dom = Some mxs -> h ∈ mxs ->
LookupHost n' h = Some hosts -> hosts_match ip p hosts = true -> allows ip d mech
| allows_include d mech :
HasPrefix mech (bs "include:") = true ->
authorised ip (skipn 8 mech) -> allows ip d mech
| allows_exists d mech n h hosts :
HasPrefix mech (bs "exists:") = true ->
LookupHost n (skipn 7 mech) = Some (h :: hosts) -> allows ip d mech.

Lemma qualifier_pass q : qualifier_result q = "pass"%string -> q = "+"%byte.
Proof.
  unfold qualifier_result. destruct (byte_eqb q "+") eqn:E; [by apply byte_eqb_eq in E|].
  by repeat break_if.
Qed.

Lemma hosts_match_some ip p (o : option (list bytes)) :
  hosts_match ip p (default [] o) = true -> exists hosts, o = Some hosts /\ hosts_match ip p hosts = true.
Proof. destruct o as [hosts|]; [eauto|done]. Qed.

Lemma mx_loop_match ip p hosts st o st' :
  mx_loop ip p hosts st = (o, st') ->
  o <> Return "pass" /\
  (o = Matched true -> exists h n ips, h ∈ hosts /\ LookupHost n h = Some ips /\
                         hosts_match ip p ips = true).
Proof.
  revert st. induction hosts as [|h hosts IH]; intros st Hm; cbn [mx_loop] in Hm.
  - injection Hm as <- _. done.
  - destruct (inc st) as [[] st1]; [by injection Hm as <- _|].
    cbn [ask_host] in Hm. destruct (hosts_match ip p _) eqn:E.
    + injection Hm as <- _. split; [done|]. intros _.
      apply hosts_match_some in E as (ips & E & Hm). exists h. eexists. exists ips.
      split; [left|]. split; [exact E|exact Hm].
    + destruct (IH _ Hm) as [H1 H2]. split; [done|]. intros Ho.
      destruct (H2 Ho) as (h' & n & ips & Hin & Hl & Hh). exists h', n, ips.
      split; [by right|done].
Qed.

Definition sound_rec (ip : IP) (rec : bytes -> spfState -> option (string * spfState)) : Prop :=
  forall d st st', rec d st = Some ("pass"%string, st') -> authorised ip d.

Lemma counted_inv st k r :
  counted st k = Some r ->
  (exists st1, k st1 = Some r) \/ fst r = Return "permerror".
Proof.
  unfold counted. destruct (inc st) as [[] st1]; [|eauto].
  intros [= <-]. by right.
Qed.

(** A mechanism that matches, or decides "pass", is authorised. *)
Lemma eval_mechanism_sound rec ip d mech st o st' :
  sound_rec ip rec -> eval_mechanism rec ip d mech st = Some (o, st') ->
  (o = Matched true -> allows ip d mech) /\
  (o = Return "pass" -> HasPrefix mech (bs "redirect=") = true /\ authorised ip (skipn 9 mech)).
Proof.
  intros Hrec He. unfold eval_mechanism in He.
  case_bool_decide as Eall; [subst; injection He as <- _; split; [intros _; constructor|done]|].
  destruct (_ || _)%bool; [injection He as <- _; split; [intros [= ?]; by apply allows_cidr|done]|].
  destruct (is_mech mech "a" _) eqn:Ea.
  { apply counted_inv in He as [[st1 He]|He]; [|cbn in He; by subst].
    destruct (parseMechanismDomainCIDR mech 1 d) as [dom p] eqn:Ep.
    cbn [ask_host] in He. injection He as <- _. split; [|done]. intros [= Hm].
    apply hosts_match_some in Hm as (hosts & Hl & Hm). by eapply allows_a. }
  destruct (is_mech mech "mx" _) eqn:Em.
  { apply counted_inv in He as [[st1 He]|He]; [|cbn in He; by subst].
    destruct (parseMechanismDomainCIDR mech 2 d) as [dom p] eqn:Ep.
    cbn [ask_mx] in He. injection He as He. apply mx_loop_match in He as [H1 H2].
    split; [|done]. intros Ho. destruct (H2 Ho) as (h & n & ips & Hin & Hl & Hm).
    destruct (LookupMX _ dom) as [mxs|] eqn:El; [|by apply not_elem_of_nil in Hin].
    by eapply allows_mx. }
  destruct (HasPrefix mech (bs "include:")) eqn:Ei.
  { apply counted_inv in He as [[st1 He]|He]; [|cbn in He; by subst].
    destruct (rec _ st1) as [[r st2]|] eqn:Er; [|done]. cbn in He. injection He as <- _.
    destruct (String.eqb_spec r "permerror"); [done|]. split; [|done]. intros [= Hp].
    apply String.eqb_eq in Hp. subst. apply allows_include; [done|]. by eapply Hrec. }
  destruct (HasPrefix mech (bs "redirect=")) eqn:Eredir.
  { apply counted_inv in He as [[st1 He]|He]; [|cbn in He; by subst].
    destruct (rec _ st1) as [[r st2]|] eqn:Er; [|done]. cbn in He. injection He as <- _.
    split; [done|]. intros [= ->]. split; [done|]. by eapply Hrec. }
  destruct (is_mech mech "ptr" _); [by injection He as <- _|].
  destruct (HasPrefix mech (bs "exists:")) eqn:Ee; [|by injection He as <- _].
  apply counted_inv in He as [[st1 He]|He]; [|cbn in He; by subst].
  cbn [ask_host] in He. injection He as <- _. split; [|done]. intros [= Hm].
  destruct (LookupHost _ _) as [[|h hosts]|] eqn:El; [done| |done]. by eapply allows_exists.
Qed.

Lemma eval_terms_sound rec ip d terms st st' :
  sound_rec ip rec -> eval_terms rec ip d terms st = Some ("pass"%string, st') ->
  exists part mech q, part ∈ terms /\ split_qualifier part = (q, mech) /\
    ((q = "+"%byte /\ allows ip d mech) \/
     (HasPrefix mech (bs "redirect=") = true /\ authorised ip (skipn 9 mech))).
Proof.
  intros Hrec. revert st. induction terms as [|part terms IH]; intros st He;
    cbn [eval_terms] in He; [done|].
  destruct (split_qualifier part) as [q mech] eqn:Eq.
  destruct (eval_mechanism rec ip d mech st) as [[o st1]|] eqn:Em; [|done].
  cbn [mbind option_bind] in He.
  destruct (eval_mechanism_sound _ _ _ _ _ _ _ Hrec Em) as [Hm Hr].
  destruct o as [r|[]].
  - injection He as -> _. exists part, mech, q. split; [left|]. split; [done|]. right. auto.
  - injection He as Hq _. apply qualifier_pass in Hq. exists part, mech, q.
    split; [left|]. split; [done|]. left. auto.
  - destruct (IH _ He) as (p & m & q' & Hin & Hs & Hc). exists p, m, q'. split; [by right|done].
Qed.

Lemma checkSPF_sound fuel ip : sound_rec ip (checkSPFWithCounter fuel ip).
Proof.
  induction fuel as [|fuel IH]; intros d st st' He; [done|].
  cbn [checkSPFWithCounter ask_txt] in He.
  destruct (LookupTXT _ d) as [txts|] eqn:El; [|done].
  destruct (base.filter _ txts) as [|r [|]] eqn:Ef; [done| |done].
  destruct (eval_terms_sound _ _ _ _ _ _ IH He) as (part & mech & q & Hin & Hs & [[-> Ha]|[Hp Ha]]).
  - by eapply auth_term.
  - by eapply auth_redirect.
Qed.
End spf.

(** * DKIM *)

(** [CheckDKIM]: [dkim.Verify] is a library; it returns the verifications (did
    it verify, signing domain) or an error. *)
Definition CheckDKIM (verify : bytes -> option (list (bool * bytes))) (message : bytes)
    : string * bytes :=
  match verify message with
  | None | Some [] => ("none"%string, [])
  | Some ((_, d0) :: _ as vs) =>
      match list_find (fun v => fst v = true) vs with
      | Some (_, (_, d)) => ("pass"%string, d)
      | None => ("fail"%string, d0)
      end
  end.

(** * DMARC *)

Definition alnum (c : byte) : bool :=
  byte_between "a" "z" c || byte_between "A" "Z" c || byte_between "0" "9" c.

(** One part of the record: nothing, an error, or a tag with its value. *)
Inductive tag_result := NoTag | BadTag | Tag (key value : bytes).

Definition strict_tag (part : bytes) : tag_result :=
  let part := TrimSpace part in
  match part with
  | [] => NoTag
  | _ =>
      match IndexByte "=" part with
      | None => BadTag
      | Some i =>
          let key := TrimSpace (firstn i part) in
          let value := TrimSpace (skipn (S i) part) in
          match key with
          | [] => BadTag
          | _ => if forallb alnum key then Tag key value else BadTag
          end
      end
  end.

Fixpoint strict_tags (parts : list bytes) (policy : gmap bytes bytes)
    : option (gmap bytes bytes) :=
  match parts with
  | [] => Some policy
  | part :: parts =>
      match strict_tag part with
      | NoTag => strict_tags parts policy
      | BadTag => None
      | Tag key value =>
          match policy !! key with
          | Some _ => None
          | None => strict_tags parts (<[key := value]> policy)
          end
      end
  end.

Definition parseDMARCPolicyStrict (record : bytes) : option (gmap bytes bytes) :=
  policy ← strict_tags (split_byte ";" record) ∅;
  if bool_decide (policy !! bs "v" = Some (bs "DMARC1")) then Some policy else None.

(** [parseDMARCPolicy], the lenient parser. *)
Definition lenient_tag (policy : gmap bytes bytes) (part : bytes) : gmap bytes bytes :=
  let part := TrimSpace part in
  match IndexByte "=" part with
  | Some i => <[TrimSpace (firstn i part) := TrimSpace (skipn (S i) part)]> policy
  | None => policy
  end.

Definition parseDMARCPolicy (record : bytes) : gmap bytes bytes :=
  foldl lenient_tag ∅ (split_byte ";" record).

(** [policy[key]] of a Go map: the empty string when absent. *)
Definition tag_value (policy : gmap bytes bytes) (k : string) : bytes :=
  default [] (policy !! bs k).

(** [strings.TrimSuffix(s, ".")]. *)
Definition trim_dot (s : bytes) : bytes :=
  match last s with Some "."%byte => removelast s | _ => s end.

Section dmarc.
  Context (EffectiveTLDPlusOne : bytes -> option bytes)
          (LookupTXT : bytes -> option (list bytes)).

Fixpoint last_two (parts : list bytes) : bytes :=
  match parts with
  | [a; b] => a ++ "."%byte :: b
  | _ :: rest => last_two rest
  | [] => []
  end.

Definition orgDomain (domain : bytes) : bytes :=
  let domain := ToLower (trim_dot domain) in
  match EffectiveTLDPlusOne domain with
  | Some e => e
  | None =>
      let parts := split_byte "." domain in
      if (length parts <=? 2)%nat then domain else last_two parts
  end.

Definition domainsAlign (fromDomain authDomain mode : bytes) : bool :=
  match fromDomain, authDomain with
  | [], _ | _, [] => false
  | _, _ =>
      let f := ToLower fromDomain in
      let a := ToLower authDomain in
      if bool_decide (mode = bs "s") then bool_decide (f = a)
      else bool_decide (orgDomain f = orgDomain a)
  end.

Definition CheckDKIMAlignment := domainsAlign.

Definition dmarc_record (txts : list bytes) : bytes :=
  match list_find (fun t => HasPrefix t (bs "v=DMARC1") = true) txts with
  | Some (_, t) => t
  | None => []
  end.

Definition CheckDMARC (fromDomain : bytes) (spfResult : string) (spfDomain : bytes)
    (dkimResult : string) (dkimDomain : bytes) : string :=
  match fromDomain with
  | [] => "none"
  | _ =>
      match LookupTXT (bs "_dmarc." ++ fromDomain) with
      | None => "none"
      | Some txts =>
          match dmarc_record txts with
          | [] => "none"
          | record =>
              match parseDMARCPolicyStrict record with
              | None => "permerror"
              | Some policy =>
                  let spfAligned := String.eqb spfResult "pass" &&
                    domainsAlign fromDomain spfDomain (tag_value policy "aspf") in
                  let dkimAligned := String.eqb dkimResult "pass" &&
                    domainsAlign fromDomain dkimDomain (tag_value policy "adkim") in
                  if spfAligned || dkimAligned then "pass"
                  else if bool_decide (tag_value policy "p" = bs "reject") then "reject"
                  else if bool_decide (tag_value policy "p" = bs "quarantine") then "quarantine"
                  else "fail"
              end
          end
      end
  end.
End dmarc.

(** ** Lemmas *)

Lemma strict_tag_lenient part policy :
  match strict_tag part with
  | NoTag => lenient_tag policy part = policy
  | BadTag => True
  | Tag k v => lenient_tag policy part = <[k := v]> policy /\ k <> [] /\ forallb alnum k = true
  end.
Proof.
  unfold strict_tag, lenient_tag. destruct (TrimSpace part) as [|c p]; [done|].
  destruct (IndexByte "=" (c :: p)) as [i|]; [|done].
  destruct (TrimSpace (firstn i (c :: p))) as [|k ks]; [done|].
  by destruct (forallb alnum (k :: ks)) eqn:E.
Qed.

Lemma strict_tags_lenient parts policy policy' :
  strict_tags parts policy = Some policy' ->
  foldl lenient_tag policy parts = policy' /\
  policy ⊆ policy' /\
  (forall k, is_Some (policy' !! k) -> is_Some (policy !! k) \/ (k <> [] /\ forallb alnum k = true)).
Proof.
  revert policy. induction parts as [|part parts IH]; intros policy Hs; cbn [strict_tags foldl] in *.
  - injection Hs as ->. split; [done|]. split; [done|auto].
  - pose proof (strict_tag_lenient part policy) as Hl.
    destruct (strict_tag part) as [| |k v]; [|done|].
    + rewrite Hl. by apply IH.
    + destruct (policy !! k) as [x|] eqn:Ek; [done|]. destruct Hl as (-> & Hne & Hal).
      destruct (IH _ Hs) as (H1 & H2 & H3). split; [done|]. split.
      * etransitivity; [|exact H2]. by apply insert_subseteq.
      * intros k' Hk'. destruct (H3 k' Hk') as [Hin|]; [|auto].
        destruct (decide (k' = k)) as [->|Hne']; [auto|].
        rewrite lookup_insert_ne in Hin by done. auto.
Qed.

Lemma ToLower_idem s : ToLower (ToLower s) = ToLower s.
Proof.
  unfold ToLower. rewrite <-list_fmap_compose. apply list_fmap_ext. intros _ b _.
  unfold compose. by destruct b.
Qed.

(** * Properties *)

(** C9. SPF evaluation always ends with a result, within eleven DNS queries,
    whatever the resolver answers (answers may even change between queries,
    and records may include or redirect to each other in cycles); it only
    exceeds the limit of ten counted lookups to report "permerror". *)
Theorem spf_terminates_within_budget (txt host mx : nat -> bytes -> option (list bytes))
    ip helo from :
  exists r st, CheckSPF txt host mx ip helo from = Some (r, st) /\
    (length (queries st) <= 11)%nat /\
    (count st <= spf_limit \/ r = "permerror"%string).
Proof.
  unfold CheckSPF. destruct (match _ with [] => helo | _ => _ end) as [|c d].
  - eexists _, _. split; [reflexivity|]. split; [cbn; lia|by left].
  - destruct (checkSPF_good txt host mx spf_fuel ip 0 eq_refl (c :: d) newSPFDNSCounter)
      as (r & st & -> & Hw & Hl); [done|done|].
    exists r, st. split; [done|]. split; [|done].
    unfold within, charged in Hw. cbn in Hw. unfold spf_limit in Hw. lia.
Qed.

(** "pass" is only given to an address that a "+" term of the sender
    domain's single SPF record authorises, directly or through the domains that
    record includes or redirects to. *)
Theorem spf_pass_authorised (txt host mx : nat -> bytes -> option (list bytes))
    ip helo from st
    (HP : CheckSPF txt host mx ip helo from = Some ("pass"%string, st)) :
  exists domain,
    authorised txt host mx ip domain /\
    (domain = helo \/ domain = from \/ exists l, from = l ++ "@"%byte :: domain).
Proof.
  unfold CheckSPF in HP.
  set (d := match LastIndexByte "@" from with Some i => skipn (S i) from | None => from end) in *.
  assert (Hd : d = from \/ exists l, from = l ++ "@"%byte :: d).
  { unfold d. destruct (LastIndexByte "@" from) as [i|] eqn:Ei; [|by left]. right.
    clear -Ei. revert i Ei. induction from as [|c s IH]; intros i Ei; cbn [LastIndexByte] in Ei;
      [done|].
    destruct (LastIndexByte "@" s) as [j|].
    - injection Ei as <-. destruct (IH j eq_refl) as [l Hl]. exists (c :: l). cbn.
      f_equal. exact Hl.
    - destruct (byte_eqb c "@") eqn:Ec; [|done]. injection Ei as <-.
      apply byte_eqb_eq in Ec as ->. by exists []. }
  destruct d as [|c d'] eqn:Ed.
  - exists helo. split; [|by left]. destruct helo as [|h t]; [done|].
    eapply checkSPF_sound, HP.
  - exists (c :: d'). split; [|by right]. eapply checkSPF_sound, HP.
Qed.

(** A resolver with one record, evaluated for 192.0.2.77. *)
Definition sample_txt (n : nat) (d : bytes) : option (list bytes) :=
  if bool_decide (d = bs "example.org") then Some [bs "v=spf1 include:_spf.example.net -all"]
  else if bool_decide (d = bs "_spf.example.net") then Some [bs "v=spf1 ip4:192.0.2.0/24 ?all"]
  else None.

Definition no_host (n : nat) (d : bytes) : option (list bytes) := None.

Definition sample_ip : IP := v4InV6Prefix ++ [192; 0; 2; 77].

Lemma spf_pass_authorised_witness :
  exists domain,
    authorised sample_txt no_host no_host sample_ip domain /\
    (domain = bs "mx.example.org" \/ domain = bs "a@example.org" \/
     exists l, bs "a@example.org" = l ++ "@"%byte :: domain).
Proof.
  apply (spf_pass_authorised sample_txt no_host no_host sample_ip (bs "mx.example.org")
           (bs "a@example.org") {| count := 1; queries := [QTXT (bs "_spf.example.net");
                                                           QTXT (bs "example.org")] |}).
  vm_compute. reflexivity.
Defined.

(** DMARC reports "pass" exactly when a well-formed record exists and SPF or
    DKIM passed for a domain aligned under the record's mode. *)
Theorem dmarc_pass_iff_aligned etld txt fromDomain spfR spfD dkimR dkimD :
  CheckDMARC etld txt fromDomain spfR spfD dkimR dkimD = "pass"%string <->
  fromDomain <> [] /\
  exists txts policy,
    txt (bs "_dmarc." ++ fromDomain) = Some txts /\
    dmarc_record txts <> [] /\
    parseDMARCPolicyStrict (dmarc_record txts) = Some policy /\
    ((spfR = "pass"%string /\
      domainsAlign etld fromDomain spfD (tag_value policy "aspf") = true) \/
     (dkimR = "pass"%string /\
      domainsAlign etld fromDomain dkimD (tag_value policy "adkim") = true)).
Proof.
  unfold CheckDMARC. destruct fromDomain as [|c f]; [split; [done|by intros [? _]]|].
  destruct (txt _) as [txts|]; [|split; [done|by intros (_ & ? & ? & ? & _)]].
  destruct (dmarc_record txts) as [|r0 r] eqn:Er;
    [split; [done|intros (_ & ? & ? & [= <-] & ? & _); congruence]|].
  destruct (parseDMARCPolicyStrict (r0 :: r)) as [policy|] eqn:Ep;
    [|split; [done|intros (_ & ? & ? & [= <-] & _ & ? & _); congruence]].
  assert (Hb : (String.eqb spfR "pass" && domainsAlign etld (c :: f) spfD (tag_value policy "aspf")
      || String.eqb dkimR "pass" && domainsAlign etld (c :: f) dkimD (tag_value policy "adkim"))%bool
      = true <->
    (spfR = "pass"%string /\ domainsAlign etld (c :: f) spfD (tag_value policy "aspf") = true) \/
    (dkimR = "pass"%string /\ domainsAlign etld (c :: f) dkimD (tag_value policy "adkim") = true))
    by (rewrite orb_true_iff, !andb_true_iff, !String.eqb_eq; done).
  destruct (_ || _)%bool.
  - split; [intros _|done]. split; [done|]. exists txts, policy. rewrite Er.
    split; [done|]. split; [done|]. split; [done|]. by apply Hb.
  - split; [intros Hp; exfalso; revert Hp; repeat case_bool_decide; done|].
    intros (_ & t & p & [= <-] & _ & Hp & Hc). rewrite Er, Ep in Hp. injection Hp as <-.
    by apply Hb in Hc.
Qed.

(** The strict DMARC parser refines the lenient one: where it accepts, both
    read the same tags, every tag name is a non-empty alphanumeric word, and the
    version tag is present. *)
Theorem strict_policy_refines_lenient record policy
    (HP : parseDMARCPolicyStrict record = Some policy) :
  parseDMARCPolicy record = policy /\
  policy !! bs "v" = Some (bs "DMARC1") /\
  forall k, is_Some (policy !! k) -> k <> [] /\ forallb alnum k = true.
Proof.
  unfold parseDMARCPolicyStrict in HP.
  destruct (strict_tags _ _) as [p|] eqn:Es; [|done]. cbn in HP.
  case_bool_decide as Hv; [|done]. injection HP as <-.
  destruct (strict_tags_lenient _ _ _ Es) as (H1 & _ & H3). split; [done|]. split; [done|].
  intros k Hk. destruct (H3 k Hk) as [Hin|]; [|done].
  rewrite lookup_empty in Hin. by destruct Hin.
Qed.

Definition sample_record : bytes := bs "v=DMARC1; p=reject; adkim=s".

Definition sample_policy : gmap bytes bytes :=
  {[ bs "v" := bs "DMARC1"; bs "p" := bs "reject"; bs "adkim" := bs "s" ]}.

Lemma strict_policy_refines_lenient_witness :
  parseDMARCPolicy sample_record = sample_policy /\
  sample_policy !! bs "v" = Some (bs "DMARC1") /\
  forall k, is_Some (sample_policy !! k) -> k <> [] /\ forallb alnum k = true.
Proof.
  apply (strict_policy_refines_lenient sample_record sample_policy).
  apply (bool_decide_eq_true_1 _). vm_compute. reflexivity.
Defined.

(** Alignment does not depend on the order of the domains, and strict
    alignment implies alignment under any mode. *)
Theorem alignment_symmetric_and_strict_is_finer etld f a mode :
  domainsAlign etld f a mode = domainsAlign etld a f mode /\
  (domainsAlign etld f a (bs "s") = true -> domainsAlign etld f a mode = true).
Proof.
  unfold domainsAlign. destruct f as [|x f], a as [|y a]; try done. split.
  - case_bool_decide; apply bool_decide_ext; split; congruence.
  - rewrite (bool_decide_eq_true_2 (bs "s" = bs "s")) by done. intros Hs. bool_prop.
    case_bool_decide; apply bool_decide_eq_true; congruence.
Qed.
