(* ===== verification/Bayes.v ===== *)
(** The spam classifier and its training: src/internal/spam/bayes.go and
    src/internal/spam/training.go.

Floats are exact binary64 ([Float]).  [math.Log] and [math.Exp] are
assembly on the enclave's platform and SHA-256 and encoding/gob are
libraries: they are parameters.  A map that the code ranges over is given
as the list of its entries in the order of that iteration, because float
sums depend on it.

Shown: the features of a body count its words; a prediction is never
outside [0, 1] (it can be NaN); a stored model is accepted exactly under
its checksum; the model changes only when three different users reported
the same words under the same label, each within their quota; but the
frequencies that reach the model are the last reporter's alone. *)

From stdpp Require Import gmap sorting.
From S2P Require Import Prelude Hex GoNet FilePath GoStrings Float.
Local Open Scope Z_scope.

(** What a float-valued counter map holds for [w]; Go reads a missing entry as
    zero. *)
Definition count_of (m : gmap bytes float64) (w : bytes) : float64 := default f0 (m !! w).

(** * Classifier *)

Record BayesClassifier := mkBayes {
  SpamWords : gmap bytes float64;
  HamWords : gmap bytes float64;
  SpamTotal : float64;
  HamTotal : float64;
  SpamDocs : float64;
  HamDocs : float64
}.

Definition NewBayesClassifier : BayesClassifier := mkBayes ∅ ∅ f0 f0 f0 f0.

Definition maxVocabSize : Z := 500000.

(** One feature of [Train]'s loop over a class: its word counts and its total. *)
Definition learn (cls : gmap bytes float64 * float64) (f : bytes * float64)
    : gmap bytes float64 * float64 :=
  let '(ws, total) := cls in
  let '(word, freq) := f in
  if bool_decide (ws !! word = None) && (maxVocabSize <=? Z.of_nat (size ws)) then cls
  else (<[word := fadd (count_of ws word) freq]> ws, fadd total freq).

Definition Train (features : list (bytes * float64)) (isSpam : bool) (bc : BayesClassifier)
    : BayesClassifier :=
  if isSpam then
    let '(ws, total) := foldl learn (SpamWords bc, SpamTotal bc) features in
    mkBayes ws (HamWords bc) total (HamTotal bc) (fadd (SpamDocs bc) f1) (HamDocs bc)
  else
    let '(ws, total) := foldl learn (HamWords bc, HamTotal bc) features in
    mkBayes (SpamWords bc) ws (SpamTotal bc) total (SpamDocs bc) (fadd (HamDocs bc) f1).

(** [math.Log] and [math.Exp]. *)
Class MathLib := { math_Log : float64 -> float64; math_Exp : float64 -> float64 }.

Section predict.
Context `{MathLib}.

(** The likelihood a feature adds to one class. *)
Definition word_term (ws : gmap bytes float64) (total vocabSize : float64) (word : bytes)
    (freq : float64) : float64 :=
  fmul freq (math_Log (fdiv (fadd (count_of ws word) f1) (fadd total vocabSize))).

Definition vocab_size (bc : BayesClassifier) : float64 :=
  let n := Z.of_nat (size (dom (SpamWords bc) ∪ dom (HamWords bc) : gset bytes)) in
  if n =? 0 then f1 else f64_of_Z n.

Definition log_likelihoods (bc : BayesClassifier) (features : list (bytes * float64))
    : float64 * float64 :=
  let totalDocs := fadd (SpamDocs bc) (HamDocs bc) in
  let prior docs := math_Log (fdiv (fadd docs f1) (fadd totalDocs (f64_of_Z 2))) in
  let v := vocab_size bc in
  foldl (fun acc f =>
      (fadd (fst acc) (word_term (SpamWords bc) (SpamTotal bc) v (fst f) (snd f)),
       fadd (snd acc) (word_term (HamWords bc) (HamTotal bc) v (fst f) (snd f))))
    (prior (SpamDocs bc), prior (HamDocs bc)) features.

Definition Predict (bc : BayesClassifier) (features : list (bytes * float64)) : float64 :=
  if SFeqb (fadd (SpamDocs bc) (HamDocs bc)) f0 then decimal 1 2
  else
    let '(spam, ham) := log_likelihoods bc features in
    let maxLog := if SFltb spam ham then ham else spam in
    let expSpam := math_Exp (fsub spam maxLog) in
    let expHam := math_Exp (fsub ham maxLog) in
    let prob := fdiv expSpam (fadd expSpam expHam) in
    let prob := if SFltb prob f0 then f0 else prob in
    if SFltb f1 prob then f1 else prob.

End predict.

(** * Persistence *)

Section persistence.
Context (sha256 : bytes -> bytes).
Context (gob_Encode : BayesClassifier -> option bytes)
        (gob_Decode : bytes -> option BayesClassifier).

Definition checksumSize : nat := 32.

Definition Serialize (bc : BayesClassifier) : option bytes :=
  gobBytes ← gob_Encode bc; Some (gobBytes ++ sha256 gobBytes).

(** The error leaves the receiver as it was. *)
Definition Deserialize (b : bytes) (bc : BayesClassifier) : bool * BayesClassifier :=
  if (length b <? checksumSize)%nat then (false, bc)
  else
    let gobBytes := take (length b - checksumSize) b in
    let storedChecksum := drop (length b - checksumSize) b in
    if negb (bool_decide (sha256 gobBytes = storedChecksum)) then (false, bc)
    else match gob_Decode gobBytes with Some data => (true, data) | None => (false, bc) end.

End persistence.

(** * Features *)

(** [strings.ToLower] as far as the tokenizer sees it: besides the ASCII
    letters, U+0130 and U+212A have an ASCII lower case; any other rune stays
    outside ASCII, where no word continues. *)
Fixpoint to_lower (s : bytes) : bytes :=
  match s with
  | xe2 :: (x84 :: (xaa :: r)) => "k"%byte :: to_lower r
  | xc4 :: (xb0 :: r) => "i"%byte :: to_lower r
  | c :: r => lower_byte c :: to_lower r
  | [] => []
  end.

Fixpoint strip (inTag : bool) (s : bytes) : bytes :=
  match s with
  | [] => []
  | c :: r =>
      if bool_decide (c = "<"%byte) then strip true r
      else if bool_decide (c = ">"%byte) then x20 :: strip false r
      else if inTag then strip inTag r
      else c :: strip inTag r
  end.

Definition stripHTML (s : bytes) : bytes := strip false s.

Definition word_char (c : byte) : bool :=
  byte_between "a" "z" c || byte_between "A" "Z" c || byte_between "0" "9" c.

(** [wordRegex.FindAllString]: the maximal runs of letters and digits. *)
Fixpoint words (cur : bytes) (s : bytes) : list bytes :=
  let flush := match cur with [] => [] | _ => [rev cur] end in
  match s with
  | [] => flush
  | c :: r => if word_char c then words (c :: cur) r else flush ++ words [] r
  end.

Definition isAllDigits (s : bytes) : bool := forallb (byte_between "0" "9") s.

Definition keeps_token (token : bytes) : bool :=
  negb ((length token <? 2)%nat || (30 <? length token)%nat) && negb (isAllDigits token).

Definition maxBody : Z := 1024 * 1024.
Definition maxTokens : Z := 50000.

Definition tokens_of (body : bytes) : list bytes :=
  let body := if maxBody <? Z.of_nat (length body) then take (Z.to_nat maxBody) body else body in
  take (Z.to_nat maxTokens) (words [] (stripHTML (to_lower body))).

Definition ExtractFeatures (body : bytes) : gmap bytes float64 :=
  foldl (fun features token =>
      if keeps_token token
      then <[token := fadd (count_of features token) f1]> features else features)
    ∅ (tokens_of body).

Example features_ex :
  ExtractFeatures (bs "<b>Buy</b> now, buy 2day 2025 x") =
  {[ bs "buy" := f64_of_Z 2; bs "now" := f1; bs "2day" := f1 ]}.
Proof. apply (bool_decide_unpack _). vm_compute. exact I. Qed.

(** * Training from user reports *)

Section training.
Context (sha256 : bytes -> bytes).

Definition bytes_le (a b : bytes) : Prop := string_le (bytes_string a) (bytes_string b).

#[export] Instance bytes_le_dec : RelDecision bytes_le.
Proof. intros a b. unfold bytes_le. apply _. Defined.

Definition featureFingerprint (features : gmap bytes float64) (isSpam : bool) : bytes :=
  let keys := merge_sort bytes_le (elements (dom features)) in
  hex_bytes (sha256 (concat ((fun k => k ++ [x00]) <$> keys) ++ [if isSpam then x01 else x00])).

Record pendingReport := mkReport {
  report_features : gmap bytes float64;
  report_isSpam : bool;
  report_users : gset bytes
}.

Record TrainingManager := mkTM {
  classifier : BayesClassifier;
  userCounts : gmap bytes Z;
  maxPerUser : Z;
  consensusThreshold : nat;
  pendingReports : gmap bytes pendingReport;
  totalSamples : Z;
  sealEvery : Z
}.

Definition NewTrainingManager (bc : BayesClassifier) (maxPerUser sealEvery : Z) : TrainingManager :=
  mkTM bc ∅ maxPerUser 3 ∅ 0 sealEvery.

(** [features] is the map in the order in which [Train] would range over it. *)
Definition TrainFromFeedback (userID : bytes) (features : list (bytes * float64)) (isSpam : bool)
    (tm : TrainingManager) : bool * TrainingManager :=
  let count := default 0 (userCounts tm !! userID) in
  if maxPerUser tm <=? count then (false, tm)
  else
    let counts := <[userID := count + 1]> (userCounts tm) in
    let fp := featureFingerprint (list_to_map features) isSpam in
    let report := default (mkReport (list_to_map features) isSpam ∅) (pendingReports tm !! fp) in
    let report := mkReport (report_features report) (report_isSpam report)
                           ({[userID]} ∪ report_users report) in
    if (consensusThreshold tm <=? size (report_users report))%nat then
      (true, mkTM (Train features isSpam (classifier tm)) counts (maxPerUser tm)
               (consensusThreshold tm) (delete fp (pendingReports tm)) (totalSamples tm + 1)
               (sealEvery tm))
    else
      (true, mkTM (classifier tm) counts (maxPerUser tm) (consensusThreshold tm)
               (<[fp := report]> (pendingReports tm)) (totalSamples tm) (sealEvery tm)).

Definition ResetRateLimits (tm : TrainingManager) : TrainingManager :=
  mkTM (classifier tm) ∅ (maxPerUser tm) (consensusThreshold tm) (pendingReports tm)
    (totalSamples tm) (sealEvery tm).

Definition ShouldSeal (tm : TrainingManager) : bool :=
  if sealEvery tm <=? 0 then false
  else (Z.rem (totalSamples tm) (sealEvery tm) =? 0) && (0 <? totalSamples tm).

Definition TotalSamples (tm : TrainingManager) : Z := totalSamples tm.

Definition AnonymizeFeatures (features : list (bytes * float64)) : gmap bytes float64 :=
  foldl (fun anon f =>
      let key := hex_bytes (take 8 (sha256 (fst f))) in
      <[key := fadd (count_of anon key) (snd f)]> anon) ∅ features.

(** ** Histories *)

Inductive event :=
| Feedback (userID : bytes) (features : list (bytes * float64)) (isSpam : bool)
| Reset.

(** What was accepted: who reported which fingerprint, ever and since the last
    reset. *)
Record history := mkHistory {
  manager : TrainingManager;
  reports : list (bytes * bytes);
  recent : list (bytes * bytes)
}.

Definition step (h : history) (e : event) : history :=
  match e with
  | Reset => mkHistory (ResetRateLimits (manager h)) (reports h) []
  | Feedback u fs spam =>
      let '(ok, tm) := TrainFromFeedback u fs spam (manager h) in
      let r := (u, featureFingerprint (list_to_map fs) spam) in
      if ok : bool then mkHistory tm (r :: reports h) (r :: recent h) else mkHistory tm (reports h) (recent h)
  end.

Definition run (tm : TrainingManager) (es : list event) : history :=
  foldl step (mkHistory tm [] []) es.

Lemma play_snoc tm es e : run tm (es ++ [e]) = step (run tm es) e.
Proof. unfold run. by rewrite foldl_app. Qed.

(** ** Invariant *)

Definition by_user (u : bytes) (l : list (bytes * bytes)) : nat :=
  length (filter (fun r => r.1 = u) l).

Definition backed (h : history) : Prop :=
  forall fp r, pendingReports (manager h) !! fp = Some r ->
    (size (report_users r) < consensusThreshold (manager h))%nat /\
    forall u, u ∈ report_users r -> (u, fp) ∈ reports h.

Definition metered (h : history) : Prop :=
  forall u, default 0 (userCounts (manager h) !! u) = Z.of_nat (by_user u (recent h)) /\
    (Z.of_nat (by_user u (recent h)) <= Z.max 0 (maxPerUser (manager h))).

Definition sound (h : history) : Prop := backed h /\ metered h.

Lemma by_user_cons u r l : by_user u (r :: l) = ((if decide (r.1 = u) then 1 else 0) + by_user u l)%nat.
Proof. unfold by_user. rewrite filter_cons. by destruct (decide _). Qed.

Lemma sound_new bc m s : sound (run (NewTrainingManager bc m s) []).
Proof.
  split.
  - intros fp r H. cbn in H. by rewrite lookup_empty in H.
  - intros u. cbn. rewrite lookup_empty. cbn. lia.
Qed.

(** The users behind a fingerprint once [u] has reported it. *)
Lemma joined_backed h u fp :
  backed h ->
  let us := {[u]} ∪ default ∅ (report_users <$> pendingReports (manager h) !! fp) : gset bytes in
  forall v, v ∈ us -> (v, fp) ∈ (u, fp) :: reports h.
Proof.
  intros Hb us v [->%elem_of_singleton|Hv]%elem_of_union; [left|].
  right. destruct (pendingReports _ !! fp) as [r|] eqn:E; cbn in Hv; [|set_solver].
  by apply (Hb fp r E).
Qed.

Lemma metered_add h u r tm :
  metered h -> r.1 = u ->
  maxPerUser (manager h) > default 0 (userCounts (manager h) !! u) ->
  userCounts tm = <[u := default 0 (userCounts (manager h) !! u) + 1]> (userCounts (manager h)) ->
  maxPerUser tm = maxPerUser (manager h) ->
  metered (mkHistory tm (r :: reports h) (r :: recent h)).
Proof.
  intros Hm <- Hlt Ec Em v. destruct (Hm v) as [Hv Hv']. cbn [manager recent]. rewrite Ec, Em, by_user_cons.
  destruct (decide (r.1 = v)) as [<-|Hne].
  - rewrite lookup_insert_eq. cbn. lia.
  - rewrite lookup_insert_ne by done. rewrite Nat.add_0_l. auto.
Qed.

Lemma sound_step h e : sound h -> sound (step h e).
Proof.
  intros [Hb Hm]. destruct e as [u fs spam|]; cbn [step].
  - unfold TrainFromFeedback.
    set (fp := featureFingerprint (list_to_map fs) spam).
    break_if; [by split|]. apply Z.leb_gt in E.
    pose proof (joined_backed h u fp Hb) as Hj. cbn in Hj.
    break_if; (split; [|apply (metered_add h u); [done|done|lia|done|done]]); intros fp' r Hr; cbn in Hr |- *.
    + apply lookup_delete_Some in Hr as [_ Hr]. destruct (Hb fp' r Hr) as [H1 H2].
      split; [done|]. intros v Hv. right. auto.
    + apply lookup_insert_Some in Hr as [[<- <-]|[_ Hr]]; cbn.
      * apply Nat.leb_gt in E0. split; [done|]. intros v Hv. apply Hj.
        destruct (pendingReports _ !! fp); [exact Hv|exact Hv].
      * destruct (Hb fp' r Hr) as [H1 H2]. split; [done|]. intros v Hv. right. auto.
  - split; [done|]. intros v. cbn. rewrite lookup_empty. cbn. lia.
Qed.

Lemma sound_run bc m s es : sound (run (NewTrainingManager bc m s) es).
Proof.
  induction es as [|e es IH] using rev_ind; [apply sound_new|].
  rewrite play_snoc. by apply sound_step.
Qed.

(** The settings never change. *)
Lemma settings_run bc m s es :
  let tm := manager (run (NewTrainingManager bc m s) es) in
  consensusThreshold tm = 3%nat /\ maxPerUser tm = m.
Proof.
  induction es as [|e es IH] using rev_ind; [done|]. rewrite play_snoc. cbn in IH |- *.
  destruct e; cbn [step]; [|done]. unfold TrainFromFeedback. by repeat break_if.
Qed.

(** The model changes only on a report with which at least three different
    users have reported, each within the quota, the same set of words under
    the same label. *)
Theorem training_needs_consensus bc m s es e :
  let h := run (NewTrainingManager bc m s) es in
  let h' := run (NewTrainingManager bc m s) (es ++ [e]) in
  classifier (manager h') <> classifier (manager h) ->
  exists u fs spam us, e = Feedback u fs spam /\ (3 <= size (us : gset bytes))%nat /\ u ∈ us /\
    forall v, v ∈ us -> (v, featureFingerprint (list_to_map fs) spam) ∈ reports h'.
Proof.
  cbn. rewrite play_snoc. set (h := run _ es). intros Hc.
  destruct (sound_run bc m s es) as [Hb _]. fold h in Hb.
  destruct e as [u fs spam|]; [|done]. exists u, fs, spam.
  pose proof (joined_backed h u (featureFingerprint (list_to_map fs) spam) Hb) as Hj.
  revert Hc. cbn [step]. unfold TrainFromFeedback.
  break_if; [done|]. break_if; [|done]. intros _.
  apply Nat.leb_le in E0. rewrite (proj1 (settings_run bc m s es) : consensusThreshold (manager h) = 3%nat) in E0.
  eexists. split; [done|]. split; [exact E0|]. split; [set_solver|]. intros v Hv. apply Hj.
  destruct (pendingReports _ !! _); exact Hv.
Qed.

(** Between two resets no user has more reports accepted than the quota. *)
Theorem feedback_quota bc m s es u :
  Z.of_nat (by_user u (recent (run (NewTrainingManager bc m s) es))) <= Z.max 0 m.
Proof.
  destruct (sound_run bc m s es) as [_ Hm]. destruct (Hm u) as [_ H].
  by rewrite (proj2 (settings_run bc m s es)) in H.
Qed.

(** What one accepted report does when [k] users are behind its fingerprint. *)
Lemma TrainFromFeedback_pending u fs spam tm r :
  default 0 (userCounts tm !! u) < maxPerUser tm ->
  let fp := featureFingerprint (list_to_map fs) spam in
  default ∅ (report_users <$> pendingReports tm !! fp) = r ->
  (size ({[u]} ∪ r : gset bytes) < consensusThreshold tm)%nat ->
  let tm' := snd (TrainFromFeedback u fs spam tm) in
  classifier tm' = classifier tm /\ maxPerUser tm' = maxPerUser tm /\
  consensusThreshold tm' = consensusThreshold tm /\
  userCounts tm' = <[u := default 0 (userCounts tm !! u) + 1]> (userCounts tm) /\
  default ∅ (report_users <$> pendingReports tm' !! fp) = {[u]} ∪ r.
Proof.
  intros Hc fp Hr Hs. unfold TrainFromFeedback. fold fp.
  destruct (Z.leb_spec (maxPerUser tm) (default 0 (userCounts tm !! u))); [lia|].
  assert (Hu : report_users (default (mkReport (list_to_map fs) spam ∅) (pendingReports tm !! fp)) = r)
    by (rewrite <-Hr; by destruct (pendingReports tm !! fp)).
  cbn [report_users]. rewrite Hu. destruct (Nat.leb_spec (consensusThreshold tm) (size ({[u]} ∪ r))); [lia|].
  cbn. by rewrite lookup_insert_eq.
Qed.

(** The threshold counts users who reported the same words; how often each
    word is said to occur is not compared, and what reaches the model is the
    third reporter's claim alone. *)
Theorem last_reporter_sets_frequencies bc m s u1 u2 u3 fs1 fs2 fs3 spam :
  1 <= m -> u1 <> u2 -> u3 <> u1 -> u3 <> u2 ->
  dom (list_to_map fs1 : gmap bytes float64) = dom (list_to_map fs3 : gmap bytes float64) ->
  dom (list_to_map fs2 : gmap bytes float64) = dom (list_to_map fs3 : gmap bytes float64) ->
  classifier (manager (run (NewTrainingManager bc m s)
    [Feedback u1 fs1 spam; Feedback u2 fs2 spam; Feedback u3 fs3 spam])) = Train fs3 spam bc.
Proof.
  intros Hm H12 H31 H32 D1 D2.
  assert (F1 : featureFingerprint (list_to_map fs1) spam = featureFingerprint (list_to_map fs3) spam)
    by (unfold featureFingerprint; by rewrite D1).
  assert (F2 : featureFingerprint (list_to_map fs2) spam = featureFingerprint (list_to_map fs3) spam)
    by (unfold featureFingerprint; by rewrite D2).
  set (tm0 := NewTrainingManager bc m s).
  destruct (TrainFromFeedback_pending u1 fs1 spam tm0 ∅) as (C1 & M1 & T1 & U1 & P1);
    [cbn; rewrite lookup_empty; cbn; lia|cbn; by rewrite lookup_empty
    |rewrite union_empty_r_L, size_singleton; cbn; lia|].
  set (tm1 := snd (TrainFromFeedback u1 fs1 spam tm0)) in *. rewrite F1 in P1.
  destruct (TrainFromFeedback_pending u2 fs2 spam tm1 ({[u1]} ∪ ∅)) as (C2 & M2 & T2 & U2 & P2);
    [rewrite U1, M1, lookup_insert_ne by done; cbn; rewrite lookup_empty; cbn; lia|by rewrite F2
    |rewrite T1, union_empty_r_L, size_union, !size_singleton by set_solver; cbn; lia|].
  set (tm2 := snd (TrainFromFeedback u2 fs2 spam tm1)) in *. rewrite F2 in P2.
  assert (Hrun : manager (run tm0 [Feedback u1 fs1 spam; Feedback u2 fs2 spam; Feedback u3 fs3 spam])
    = snd (TrainFromFeedback u3 fs3 spam tm2)).
  { unfold run. cbn [foldl step manager]. unfold tm2, tm1.
    destruct (TrainFromFeedback u1 fs1 spam tm0) as [[] ?]; cbn [manager snd];
    destruct (TrainFromFeedback u2 fs2 spam _) as [[] ?]; cbn [manager snd];
    by destruct (TrainFromFeedback u3 fs3 spam _) as [[] ?]. }
  rewrite Hrun. unfold TrainFromFeedback.
  rewrite U2, lookup_insert_ne, U1, lookup_insert_ne, M2, M1 by done.
  cbn [tm0 NewTrainingManager userCounts maxPerUser]. rewrite lookup_empty. cbn [default].
  destruct (Z.leb_spec m 0); [lia|].
  destruct (pendingReports tm2 !! _) as [r|] eqn:Er; cbn in P2; [|set_solver].
  cbn [from_option id report_users]. rewrite P2, T2, T1. cbn [tm0 NewTrainingManager consensusThreshold].
  rewrite union_empty_r_L, !size_union, !size_singleton by set_solver. cbn [Nat.leb].
  cbn. by rewrite C2, C1.
Qed.

End training.

(** * Predictions *)

(** A prediction is not below 0 and not above 1.  (It can be NaN, which is
    neither.) *)
Theorem Predict_in_range `{MathLib} bc fs :
  SFltb (Predict bc fs) f0 = false /\ SFltb f1 (Predict bc fs) = false.
Proof.
  unfold Predict. break_if; [by vm_compute|].
  destruct (log_likelihoods bc fs) as [sp ha].
  set (p := fdiv _ _). pose proof (clamp_low f0 p eq_refl) as Hl.
  set (q := if SFltb p f0 then f0 else p) in *.
  split; [|by apply clamp_high]. by destruct (SFltb f1 q).
Qed.

(** A stored model is accepted exactly when it is followed by its own
    checksum and decodes; then it replaces the classifier, and otherwise the
    classifier stays. *)
Theorem Deserialize_spec sha256 gob_Decode b bc ok bc'
    (sha256_length : forall x, length (sha256 x) = 32%nat) :
  Deserialize sha256 gob_Decode b bc = (ok, bc') <->
  (ok = true /\ exists g, b = g ++ sha256 g /\ gob_Decode g = Some bc') \/
  (ok = false /\ bc' = bc /\ forall g d, b = g ++ sha256 g -> gob_Decode g = Some d -> False).
Proof.
  assert (Hcut : forall g, take (length (g ++ sha256 g) - 32) (g ++ sha256 g) = g /\
    drop (length (g ++ sha256 g) - 32) (g ++ sha256 g) = sha256 g).
  { intros g. rewrite length_app, sha256_length, Nat.add_sub. split; [apply take_app_length|apply drop_app_length]. }
  unfold Deserialize, checksumSize. set (g0 := take _ b). set (c0 := drop _ b).
  assert (Hb : b = g0 ++ c0) by (symmetry; apply take_drop).
  assert (Hg : forall g, b = g ++ sha256 g -> g0 = g /\ c0 = sha256 g).
  { intros g Eb. unfold g0, c0. rewrite Eb. apply Hcut. }
  assert (Hlen : forall g, b = g ++ sha256 g -> (32 <= length b)%nat)
    by (intros g ->; rewrite length_app, sha256_length; lia).
  destruct (Nat.ltb_spec (length b) 32) as [Hs|Hs].
  { split.
    - intros [= <- <-]. right. split_and!; [done..|]. intros g d Eb _. apply Hlen in Eb. lia.
    - intros [(-> & g & Eb & _)|(-> & -> & _)]; [|done]. apply Hlen in Eb. lia. }
  destruct (bool_decide_reflect (sha256 g0 = c0)) as [Ec|Ec]; cbn [negb].
  - destruct (gob_Decode g0) as [d|] eqn:Ed; (split; [intros [= <- <-]|]).
    + left. split; [done|]. exists g0. rewrite Ec. auto.
    + intros [(-> & g & Eb & Eg)|(-> & -> & Hn)].
      * apply Hg in Eb as [<- _]. congruence.
      * destruct (Hn g0 d); [congruence|done].
    + right. split_and!; [done..|]. intros g d' Eb Eg. apply Hg in Eb as [<- _]. congruence.
    + intros [(-> & g & Eb & Eg)|(-> & -> & _)]; [|done]. apply Hg in Eb as [<- _]. congruence.
  - split.
    + intros [= <- <-]. right. split_and!; [done..|]. intros g d Eb _. apply Hg in Eb as [<- E]. done.
    + intros [(-> & g & Eb & _)|(-> & -> & _)]; [|done]. apply Hg in Eb as [<- E]. done.
Qed.

(** * Features *)

Definition occurrences (w : bytes) (l : list bytes) : Z := Z.of_nat (length (filter (eq w) l)).

Lemma occurrences_snoc w l t :
  occurrences w (l ++ [t]) = occurrences w l + (if decide (w = t) then 1 else 0).
Proof.
  unfold occurrences. rewrite filter_app, length_app. cbn.
  destruct (decide (w = t)); cbn; lia.
Qed.

Lemma occurrences_bound w l : 0 <= occurrences w l <= Z.of_nat (length l).
Proof. unfold occurrences. pose proof (length_filter (eq w) l). lia. Qed.

Definition counted (w : bytes) (l : list bytes) : option float64 :=
  if keeps_token w && (0 <? occurrences w l) then Some (f64_of_Z (occurrences w l)) else None.

(** A body's features are its words of 2 to 30 letters and digits that are
    not numbers, each with its exact number of occurrences among the first
    50,000 words. *)
Theorem ExtractFeatures_counts body w :
  ExtractFeatures body !! w = counted w (tokens_of body).
Proof.
  assert (Hl : Z.of_nat (length (tokens_of body)) <= count_limit).
  { unfold tokens_of. set (ws := words _ _). pose proof (length_take ws (Z.to_nat maxTokens)).
    unfold maxTokens, count_limit in *. lia. }
  unfold ExtractFeatures. revert Hl.
  induction (tokens_of body) as [|t l IH] using rev_ind; intros Hl.
  { unfold counted. cbn. by rewrite andb_false_r. }
  rewrite length_app in Hl. cbn in Hl. rewrite foldl_app. cbn [foldl].
  specialize (IH ltac:(lia)). pose proof (occurrences_bound w l) as Hn.
  set (m := foldl _ ∅ l) in *. unfold counted in *. rewrite occurrences_snoc.
  destruct (decide (w = t)) as [<-|Hne].
  - destruct (keeps_token w); [|done]. rewrite lookup_insert_eq.
    destruct (Z.ltb_spec 0 (occurrences w l + 1)); [|lia]. cbn [andb]. f_equal.
    rewrite <-f64_succ by (unfold count_limit in *; lia). unfold count_of. rewrite IH. cbn [andb].
    destruct (Z.ltb_spec 0 (occurrences w l)); [done|].
    by replace (occurrences w l) with 0 by lia.
  - rewrite Z.add_0_r. destruct (keeps_token t); [|done]. by rewrite lookup_insert_ne.
Qed.

(** * Witnesses *)

#[local] Definition toy_sum (x : bytes) : bytes := take 32 (x ++ replicate 32 x00).

#[local] Lemma toy_sum_length x : length (toy_sum x) = 32%nat.
Proof. unfold toy_sum. rewrite length_take, length_app, length_replicate. lia. Qed.

#[local] Definition claim (n : Z) : list (bytes * float64) := [(bs "offer", f64_of_Z n)].

#[local] Definition two_reports : list event :=
  [Feedback (bs "ann") (claim 1) true; Feedback (bs "ben") (claim 1) true].

#[local] Definition third_report : event := Feedback (bs "eve") (claim 1000) true.

Lemma training_needs_consensus_witness :
  exists u fs spam us, third_report = Feedback u fs spam /\ (3 <= size (us : gset bytes))%nat /\ u ∈ us /\
    forall v, v ∈ us -> (v, featureFingerprint toy_sum (list_to_map fs) spam) ∈
      reports (run toy_sum (NewTrainingManager NewBayesClassifier 5 10) (two_reports ++ [third_report])).
Proof.
  apply training_needs_consensus. intros H.
  apply (f_equal (fun c => bool_decide (SpamDocs c = f1))) in H. vm_compute in H. discriminate H.
Defined.

Lemma last_reporter_sets_frequencies_witness :
  SpamWords (classifier (manager (run toy_sum (NewTrainingManager NewBayesClassifier 5 10)
    (two_reports ++ [third_report])))) !! bs "offer" = Some (f64_of_Z 1000).
Proof.
  pose proof (last_reporter_sets_frequencies toy_sum NewBayesClassifier 5 10
    (bs "ann") (bs "ben") (bs "eve") (claim 1) (claim 1) (claim 1000) true) as H.
  unfold two_reports, third_report. cbn [app]. rewrite H.
  - vm_compute. reflexivity.
  - lia.
  - intros [=].
  - intros [=].
  - intros [=].
  - reflexivity.
  - apply (bool_decide_unpack _). vm_compute. exact I.
Defined.

Lemma Deserialize_spec_witness :
  let decode (g : bytes) := if bool_decide (g = bs "model") then Some NewBayesClassifier else None in
  Deserialize toy_sum decode (bs "model" ++ toy_sum (bs "model"))
    (Train (claim 1) true NewBayesClassifier) = (true, NewBayesClassifier).
Proof.
  cbn zeta. apply (Deserialize_spec toy_sum _ _ _ _ _ toy_sum_length). left. split; [done|].
  exists (bs "model"). split; [done|]. vm_compute. reflexivity.
Defined.
