(* ===== verification/Spam.v ===== *)
(** Spam scoring: src/internal/spam/spf.go, dkim.go, dmarc.go, dnsbl.go,
    reverse_dns.go, heuristics.go, urls.go, trusted.go, config.go and filter.go.

Scores are exact binary64.  Parameters: the two DNS lookups, the clock,
[time.Parse] for one layout, the host that net/url finds in a URL, and the
order in which a map of features is ranged over.  A header map is the list
of its entries in the order of its iteration.

Shown: the verdict is the clamped sum of the listed checks compared with
the threshold, junk exactly when spam; reverse DNS scores zero exactly when
a PTR name resolves back; a DNSBL query name holds the address's digits in
reverse; extracted URLs are distinct; a DMARC policy of reject or
quarantine is scored as if the domain had none; a NaN probability sends
every message to the inbox. *)

From stdpp Require Import gmap.
From S2P Require Import Prelude GoNet FilePath GoStrings AuthChecks Float Bayes.
Local Open Scope Z_scope.

(** A Go [switch] over strings. *)
Fixpoint switch {A} (x : bytes) (cases : list (string * A)) (otherwise : A) : A :=
  match cases with
  | [] => otherwise
  | (k, a) :: cases => if bool_decide (x = bs k) then a else switch x cases otherwise
  end.

(** * Authentication results *)

Definition canonical (result : string) : bytes := ToLower (TrimSpace (string_bytes result)).

Definition ScoreSPF (result : string) : float64 :=
  switch (canonical result)
    [("pass"%string, f0); ("fail"%string, f64_of_Z 3); ("softfail"%string, decimal 15 10);
     ("neutral"%string, decimal 3 10); ("none"%string, decimal 3 10)] (decimal 3 10).

Definition ScoreDKIM (result : string) : float64 :=
  switch (canonical result)
    [("pass"%string, f0); ("fail"%string, decimal 25 10); ("none"%string, decimal 3 10)]
    (decimal 3 10).

Definition ScoreDMARC (result : string) : float64 :=
  switch (canonical result)
    [("pass"%string, f0); ("fail"%string, f64_of_Z 4); ("none"%string, decimal 2 10)]
    (decimal 2 10).

(** * DNS blocklists *)

Definition To16 (ip : IP) : option (list Z) :=
  if (length ip =? 4)%nat then Some (v4InV6Prefix ++ ip)
  else if (length ip =? 16)%nat then Some ip else None.

(** [strings.Join(parts, sep)] *)
Fixpoint Join (parts : list bytes) (sep : bytes) : bytes :=
  match parts with
  | [] => []
  | [p] => p
  | p :: parts => p ++ sep ++ Join parts sep
  end.

(** The nibbles of one byte as the loop writes them: low, then high. *)
Definition nibbles (b : Z) : list bytes := [[hex_byte (b mod 16)]; [hex_byte (b / 16)]].

(** A nil address is the empty list. *)
Definition reverseIP (ip : IP) : bytes :=
  match To4 ip with
  | Some ip4 =>
      match split_byte "." (IP_String ip4) with
      | [a; b; c; d] => d ++ bs "." ++ c ++ bs "." ++ b ++ bs "." ++ a
      | _ => []
      end
  | None =>
      match To16 ip with
      | Some ip6 => Join (concat (nibbles <$> rev ip6)) (bs ".")
      | None => []
      end
  end.

Section dns.
Context (LookupHost : bytes -> option (list bytes)).

Definition CheckDNSBLWithResolver (ip : IP) (lists : list bytes) : float64 * list bytes :=
  let reversed := reverseIP ip in
  if bool_decide (reversed = []) then (f0, [])
  else foldl (fun acc bl =>
    match LookupHost (reversed ++ bs "." ++ bl) with
    | Some (_ :: _) => (fadd (fst acc) (decimal 45 10), snd acc ++ [bl])
    | _ => acc
    end) (f0, []) lists.

(** * Reverse DNS *)

Context (LookupAddr : bytes -> option (list bytes)).

Definition confirms (ip : IP) (name : bytes) : bool :=
  match LookupHost (TrimSuffix name (bs ".")) with
  | Some addrs => bool_decide (IP_String ip ∈ addrs)
  | None => false
  end.

Definition CheckReverseDNSWithResolver (ip : IP) (helo : bytes) : float64 :=
  if bool_decide (ip = []) then decimal 15 10
  else match LookupAddr (IP_String ip) with
       | None | Some [] => decimal 15 10
       | Some names => if existsb (confirms ip) names then f0 else decimal 15 10
       end.
End dns.

(** * Header heuristics *)

Definition headerPresent (headers : Header) (key : bytes) : bool :=
  negb (bool_decide (exact headers key = [])) ||
  existsb (fun kv => bool_decide (ToLower (fst kv) = ToLower key) &&
                     negb (bool_decide (snd kv = []))) headers.

Definition getHeaderValues (headers : Header) (key : bytes) : list bytes :=
  match list_find (fun kv => ToLower kv.1 = ToLower key) headers with
  | Some (_, kv) => snd kv
  | None => []
  end.

Definition rule : Type := float64 * bytes.
Definition no_rule : rule := (f0, []).

Definition dateFormats : list bytes := bs <$>
  ["Mon, 02 Jan 2006 15:04:05 -0700"%string; "Mon, 02 Jan 2006 15:04:05 MST"%string;
   "02 Jan 06 15:04 -0700"%string; "02 Jan 06 15:04 MST"%string;
   "Mon, 2 Jan 2006 15:04:05 -0700"%string; "Mon, 2 Jan 2006 15:04:05 MST"%string;
   "2 Jan 2006 15:04:05 -0700"%string].

Section filter.
(** Times are nanoseconds since the epoch. *)
Context (time_Parse : bytes -> bytes -> option Z).
Context (now : Z).

Definition day : Z := 24 * 3600 * 1000000000.

(** The loop stops at the first layout that parses. *)
Fixpoint first_parse (formats : list bytes) (dateStr : bytes) : option Z :=
  match formats with
  | [] => None
  | f :: formats => match time_Parse f dateStr with
                    | Some t => Some t
                    | None => first_parse formats dateStr
                    end
  end.

Definition checkDateAnomaly (headers : Header) : rule :=
  match getHeaderValues headers (bs "Date") with
  | [] => (f1, bs "missing_date")
  | [] :: _ => (f1, bs "empty_date")
  | dateStr :: _ =>
      match first_parse dateFormats dateStr with
      | None => (f1, bs "unparseable_date")
      | Some parsed =>
          if now - parsed <? -day then (f1, bs "date_future")
          else if 30 * day <? now - parsed then (f1, bs "date_old")
          else no_rule
      end
  end.

Definition suspiciousMailers : list bytes := bs <$>
  ["the bat"%string; "mass mailer"%string; "bulk"%string; "blastmail"%string;
   "mailmerge"%string; "phpmailer"%string; "swiftmailer"%string; "mailchimp"%string].

Definition unusualCharsets : list bytes := bs <$>
  ["koi8-r"%string; "iso-2022-jp"%string; "windows-874"%string; "viscii"%string;
   "big5"%string; "gb2312"%string; "gbk"%string].

Definition contains_any (s : bytes) (subs : list bytes) : bool :=
  existsb (contains s) subs.

Definition checkXMailer (headers : Header) : rule :=
  match getHeaderValues headers (bs "X-Mailer") with
  | [] => no_rule
  | v :: _ => if contains_any (ToLower v) suspiciousMailers
              then (decimal 5 10, bs "suspicious_xmailer") else no_rule
  end.

Definition checkCharsetAnomaly (headers : Header) : rule :=
  match getHeaderValues headers (bs "Content-Type") with
  | [] => no_rule
  | v :: _ => if contains_any (ToLower v) unusualCharsets
              then (decimal 5 10, bs "unusual_charset") else no_rule
  end.

(** "if score > 0, add it and name the rule" *)
Definition trigger (acc : float64 * list bytes) (r : rule) : float64 * list bytes :=
  if SFltb f0 (fst r) then (fadd (fst acc) (fst r), snd acc ++ [snd r]) else acc.

Definition missing_id (headers : Header) : rule :=
  if negb (headerPresent headers (bs "Message-Id")) && negb (headerPresent headers (bs "Message-ID"))
  then (f1, bs "missing_message_id") else no_rule.

Definition ScoreHeaders (headers : Header) : float64 * list bytes :=
  foldl trigger (f0, [])
    [missing_id headers; checkDateAnomaly headers; checkXMailer headers;
     checkCharsetAnomaly headers].
End filter.

(** * URLs *)

Definition re_space (c : byte) : bool :=
  bool_decide (c ∈ [x09; x0a; x0c; x0d; x20]).

Definition url_char (c : byte) : bool :=
  negb (re_space c || bool_decide (c ∈ bs "<>'" ++ [x22] ++ bs ")")).

Definition href_char (c : byte) : bool :=
  negb (re_space c || bool_decide (c ∈ [x22] ++ bs "'>")).

(** At least one byte of the class after a literal. *)
Definition after_scheme (p : byte -> bool) (scheme s : bytes) : option (bytes * bytes) :=
  match span p (drop (length scheme) s) with
  | ([], _) => None
  | (a, rest) => Some (take (length scheme) s ++ a, rest)
  end.

(** [urlRegex] at the start of [s]: https?://[^\s<>'\)]+ (and no double
    quote). *)
Definition match_url (s : bytes) : option (bytes * bytes) :=
  if HasPrefix s (bs "https://") then after_scheme url_char (bs "https://") s
  else if HasPrefix s (bs "http://") then after_scheme url_char (bs "http://") s
  else None.

(** A literal, case-insensitively: in a class of case foldings only "s" meets a
    letter outside ASCII, the long s U+017F. *)
Definition fold_prefix (p s : bytes) : option nat :=
  if bool_decide (ToLower (take (length p) s) = p) then Some (length p) else None.

Definition fold_scheme (s : bytes) : option nat :=
  match fold_prefix (bs "https://") s with
  | Some n => Some n
  | None =>
      match fold_prefix (bs "http") s with
      | Some n =>
          if HasPrefix (drop n s) ([xc5; xbf] ++ bs "://") then Some (n + 5)%nat
          else fold_prefix (bs "http://") s
      | None => None
      end
  end.

(** [hrefRegex] at the start of [s]; the result is its group. *)
Definition match_href (s : bytes) : option (bytes * bytes) :=
  n ← fold_prefix (bs "href") s;
  let s1 := snd (span re_space (drop n s)) in
  match s1 with
  | "="%byte :: s2 =>
      let s3 := snd (span re_space s2) in
      let s4 := match s3 with x22 :: r | "'"%byte :: r => r | _ => s3 end in
      k ← fold_scheme s4;
      after_scheme href_char (take k s4) s4
  | _ => None
  end.

(** [FindAll(text, n)]: leftmost matches, each search from the last one's end. *)
Fixpoint find_all (m : bytes -> option (bytes * bytes)) (n fuel : nat) (s : bytes) : list bytes :=
  match n, fuel with
  | S n', S fuel =>
      match m s with
      | Some (a, rest) => a :: find_all m n' fuel rest
      | None => match s with [] => [] | _ :: r => find_all m n fuel r end
      end
  | _, _ => []
  end.

Definition maxURLs : nat := 1000.

Definition FindAll (m : bytes -> option (bytes * bytes)) (text : bytes) : list bytes :=
  find_all m maxURLs (S (length text)) text.

(** One match of either loop; [seen] holds exactly what is in [urls]. *)
Definition collect (urls : list bytes) (m : bytes) : list bytes :=
  let clean := trim_right (bs ".,;:!?") m in
  if bool_decide (clean ∈ urls) then urls else urls ++ [clean].

Definition ExtractURLs (body : bytes) : list bytes :=
  foldl collect (foldl collect [] (FindAll match_url body)) (FindAll match_href body).

Example urls_ex :
  ExtractURLs (bs "see http://a.example/x. or (https://t.co/q) <a HREF = 'HTTPS://b.example/y'>") =
  [bs "http://a.example/x"; bs "https://t.co/q"; bs "HTTPS://b.example/y"].
Proof. vm_compute. reflexivity. Qed.

Definition defaultShorteners : list bytes := bs <$>
  ["bit.ly"%string; "t.co"%string; "goo.gl"%string; "tinyurl.com"%string; "ow.ly"%string;
   "is.gd"%string; "buff.ly"%string; "rebrand.ly"%string; "short.io"%string;
   "cutt.ly"%string; "rb.gy"%string].

Section urls.
(** The host name of a URL that parses. *)
Context (url_Hostname : bytes -> option bytes).

Record tallies := mkTallies {
  url_score : float64;
  checkedShorteners : gset bytes;
  checkedBlocked : gset bytes
}.

Definition score_url (blocklist : gset bytes) (t : tallies) (rawURL : bytes) : tallies :=
  match url_Hostname rawURL with
  | None => t
  | Some h =>
      let host := ToLower h in
      if bool_decide (host = []) then t
      else
        let t := if bool_decide (host ∈ defaultShorteners) && negb (bool_decide (host ∈ checkedShorteners t))
                 then mkTallies (fadd (url_score t) f1) ({[host]} ∪ checkedShorteners t) (checkedBlocked t)
                 else t in
        if bool_decide (host ∈ blocklist) && negb (bool_decide (host ∈ checkedBlocked t))
        then mkTallies (fadd (url_score t) (f64_of_Z 3)) (checkedShorteners t) ({[host]} ∪ checkedBlocked t)
        else t
  end.

Definition ScoreURLs (urls : list bytes) (blocklist : gset bytes) : float64 :=
  url_score (foldl (score_url blocklist) (mkTallies f0 ∅ ∅) urls).
End urls.

(** * Trusted senders *)

Definition trustedProviderDomains : list bytes := bs <$>
  [".google.com"%string; ".googlemail.com"%string; ".gmail.com"%string; ".outlook.com"%string;
   ".hotmail.com"%string; ".microsoft.com"%string; ".protection.outlook.com"%string;
   ".apple.com"%string; ".icloud.com"%string; ".me.com"%string; ".yahoo.com"%string;
   ".yahoodns.net"%string; ".aol.com"%string; ".protonmail.ch"%string; ".proton.me"%string;
   ".fastmail.com"%string; ".messagingengine.com"%string; ".amazonses.com"%string;
   ".atonline.com"%string; ".zoho.com"%string; ".zohomail.com"%string].

Definition trustedFromDomains : list bytes := bs <$>
  ["gmail.com"%string; "googlemail.com"%string; "outlook.com"%string; "hotmail.com"%string;
   "live.com"%string; "icloud.com"%string; "me.com"%string; "mac.com"%string;
   "yahoo.com"%string; "aol.com"%string; "protonmail.com"%string; "proton.me"%string;
   "fastmail.com"%string; "zoho.com"%string].

Definition whitelistedDomains : list bytes := [bs "vp.net"].

Definition sender_domain (from : bytes) : bytes :=
  match LastIndexByte "@" from with Some i => ToLower (drop (S i) from) | None => [] end.

Definition isWhitelistedSender (from : bytes) (spfResult dkimResult : string) : bool :=
  String.eqb spfResult "pass" && String.eqb dkimResult "pass" &&
  bool_decide (sender_domain from ∈ whitelistedDomains).

Definition scoreTrustedProvider (helo from : bytes) : float64 :=
  if existsb (HasSuffix (ToLower helo)) trustedProviderDomains then f64_of_Z (-4)
  else if bool_decide (sender_domain from ∈ trustedFromDomains) then f64_of_Z (-3)
  else f0.

(** * The filter *)

Record Config := mkConfig {
  SpamThreshold : float64;
  WeightSPF : float64; WeightDKIM : float64; WeightDMARC : float64; WeightDNSBL : float64;
  WeightReverseDNS : float64; WeightHeaders : float64; WeightBayes : float64; WeightURLs : float64;
  DNSBLLists : list bytes;
  URLBlocklist : gset bytes
}.

Definition DefaultConfig : Config :=
  mkConfig (f64_of_Z 5) f1 f1 f1 f1 f1 f1 f1 f1
    [bs "zen.spamhaus.org"; bs "b.barracudacentral.org"] ∅.

Record CheckResult := mkCheck { check_name : string; check_score : float64; check_details : bytes }.

Record SpamResult := mkSpam {
  Score : float64; IsSpam : bool; Checks : list CheckResult; FolderAssignment : string
}.

Definition joinStrings (ss : list bytes) : bytes := Join ss (bs ", ").

Section check.
Context `{MathLib} (LookupHost LookupAddr : bytes -> option (list bytes)).
Context (time_Parse : bytes -> bytes -> option Z) (now : Z).
Context (url_Hostname : bytes -> option bytes).
Context (ranged : gmap bytes float64 -> list (bytes * float64)).

Record SpamFilter := mkFilter { config : Config; bayesClassifier : BayesClassifier }.

(** The checks in order; the last is appended only when it subtracts. *)
Definition run_checks (sf : SpamFilter) (ip : IP) (helo from : bytes) (headers : Header)
    (body : bytes) (spf dkim dmarc : string) : list CheckResult :=
  let c := config sf in
  let '(dnsbl, matched) := CheckDNSBLWithResolver LookupHost ip (DNSBLLists c) in
  let rdns := CheckReverseDNSWithResolver LookupHost LookupAddr ip helo in
  let '(header, rules) := ScoreHeaders time_Parse now headers in
  let prob := Predict (bayesClassifier sf) (ranged (ExtractFeatures body)) in
  let urls := ScoreURLs url_Hostname (ExtractURLs body) (URLBlocklist c) in
  let bonus := scoreTrustedProvider helo from in
  [mkCheck "spf" (fmul (ScoreSPF spf) (WeightSPF c)) (string_bytes spf);
   mkCheck "dkim" (fmul (ScoreDKIM dkim) (WeightDKIM c)) (string_bytes dkim);
   mkCheck "dmarc" (fmul (ScoreDMARC dmarc) (WeightDMARC c)) (string_bytes dmarc);
   mkCheck "dnsbl" (fmul dnsbl (WeightDNSBL c))
     (if bool_decide (matched = []) then [] else bs "matched: " ++ joinStrings matched);
   mkCheck "reverse_dns" (fmul rdns (WeightReverseDNS c)) [];
   mkCheck "headers" (fmul header (WeightHeaders c)) (joinStrings rules);
   mkCheck "bayes" (fmul (fmul prob (f64_of_Z 5)) (WeightBayes c)) [];
   mkCheck "urls" (fmul urls (WeightURLs c)) []] ++
  (if SFltb bonus f0 then [mkCheck "trusted_provider" bonus helo] else []).

Definition CheckMessage (sf : SpamFilter) (ip : IP) (helo from : bytes) (headers : Header)
    (body : bytes) (spf dkim dmarc : string) : SpamResult :=
  if isWhitelistedSender from spf dkim then
    mkSpam f0 false [mkCheck "whitelist" f0 (bs "trusted sender, SPF+DKIM pass")] "inbox"
  else
    let checks := run_checks sf ip helo from headers body spf dkim dmarc in
    let totalScore := foldl (fun acc c => fadd acc (check_score c)) f0 checks in
    let totalScore := if SFltb totalScore f0 then f0 else totalScore in
    let isSpam := SFleb (SpamThreshold (config sf)) totalScore in
    mkSpam totalScore isSpam checks (if isSpam then "junk" else "inbox").
End check.

(** * Lemmas *)

Lemma switch_in {A} (P : A -> Prop) x cases (d : A) :
  P d -> Forall (fun c => P (snd c)) cases -> P (switch x cases d).
Proof. intros Hd. induction 1 as [|[k a] cases Ha _ IH]; cbn; [done|]. by case_bool_decide. Qed.

Lemma sum_nan (cs : list float64) acc :
  acc = S754_nan \/ S754_nan ∈ cs -> foldl fadd acc cs = S754_nan.
Proof.
  revert acc. induction cs as [|c cs IH]; intros acc H; cbn.
  - destruct H as [->|H]; [done|]. by apply not_elem_of_nil in H.
  - apply IH. destruct H as [->|[<-|H]%elem_of_cons].
    + left. apply fadd_nan_l.
    + left. apply fadd_nan_r.
    + by right.
Qed.

Lemma foldl_score (cs : list CheckResult) acc :
  foldl (fun acc c => fadd acc (check_score c)) acc cs = foldl fadd acc (check_score <$> cs).
Proof. revert acc. induction cs as [|c cs IH]; intros acc; cbn; [done|apply IH]. Qed.

(** ** Addresses *)

Definition octet_clean (z : Z) : Prop := "."%byte ∉ print_octet z.

#[export] Instance octet_clean_dec z : Decision (octet_clean z).
Proof. unfold octet_clean. apply _. Defined.

Lemma octets_clean z : 0 <= z < 256 -> octet_clean z.
Proof.
  intros Hz. assert (H : Forall octet_clean (seqZ 0 256)).
  { apply (bool_decide_unpack _). vm_compute. exact I. }
  eapply Forall_forall in H; [exact H|]. apply elem_of_seqZ. lia.
Qed.

Lemma split_dotted a b c d :
  0 <= a < 256 -> 0 <= b < 256 -> 0 <= c < 256 -> 0 <= d < 256 ->
  split_byte "." (IP_String [a; b; c; d]) = [print_octet a; print_octet b; print_octet c; print_octet d].
Proof.
  intros Ha%octets_clean Hb%octets_clean Hc%octets_clean Hd%octets_clean.
  cbn [IP_String To4 length Nat.eqb]. unfold octet_clean in *.
  rewrite !split_byte_app_sep, !split_byte_none by done. done.
Qed.

(** The two digits of a byte, as they are printed. *)
Definition hex_pair (b : Z) : list bytes := [[hex_byte (b / 16)]; [hex_byte (b mod 16)]].

Lemma nibbles_rev ip : concat (nibbles <$> rev ip) = rev (concat (hex_pair <$> ip)).
Proof.
  induction ip as [|b ip IH]; [done|]. cbn [rev fmap list_fmap concat].
  rewrite fmap_app, concat_app, IH, rev_app_distr. done.
Qed.

(** The name queried for an address is its octets in reverse, or for IPv6 its
    32 hex digits in reverse; other lengths have none. *)
Theorem reverseIP_spec ip :
  Forall (fun z => 0 <= z < 256) ip ->
  reverseIP ip =
    match To4 ip with
    | Some ip4 => Join (rev (print_octet <$> ip4)) (bs ".")
    | None => if (length ip =? 16)%nat then Join (rev (concat (hex_pair <$> ip))) (bs ".") else []
    end.
Proof.
  intros Hip. unfold reverseIP.
  assert (Hl : forall ip4, To4 ip = Some ip4 -> length ip4 = 4%nat /\ Forall (fun z => 0 <= z < 256) ip4).
  { unfold To4. intros ip4. destruct (Nat.eqb_spec (length ip) 4); [by intros [= <-]|].
    destruct (Nat.eqb_spec (length ip) 16); [|done]. cbn [andb]. case_bool_decide; [|done].
    intros [= <-]. split; [rewrite length_skipn; lia|by apply Forall_drop]. }
  destruct (To4 ip) as [ip4|] eqn:E4.
  - destruct (Hl ip4 eq_refl) as [Hlen Hb]. clear Hl.
    destruct ip4 as [|a [|b [|c [|d [|]]]]]; try discriminate Hlen.
    rewrite !Forall_cons in Hb. destruct Hb as (Ha & Hb & Hc & Hd & _).
    by rewrite split_dotted.
  - unfold To4 in E4. unfold To16. destruct (Nat.eqb_spec (length ip) 4); [done|].
    destruct (length ip =? 16)%nat; [|done]. by rewrite nibbles_rev.
Qed.

(** Reverse DNS costs nothing exactly when some PTR name of the client
    resolves back to the client's address; what the client says in HELO is not
    compared. *)
Theorem reverse_dns_confirmed_iff host addr ip helo :
  CheckReverseDNSWithResolver host addr ip helo = f0 <->
  ip <> [] /\ exists names name addrs,
    addr (IP_String ip) = Some names /\ name ∈ names /\
    host (TrimSuffix name (bs ".")) = Some addrs /\ IP_String ip ∈ addrs.
Proof.
  assert (Hne : decimal 15 10 <> f0) by (vm_compute; discriminate).
  unfold CheckReverseDNSWithResolver. case_bool_decide as Hip.
  { split; [done|]. by intros [? _]. }
  destruct (addr (IP_String ip)) as [names|];
    [|split; [done|intros (_ & ? & ? & ? & [=] & _)]].
  assert (Hc : existsb (confirms host ip) names = true <-> exists name addrs,
    name ∈ names /\ host (TrimSuffix name (bs ".")) = Some addrs /\ IP_String ip ∈ addrs).
  { rewrite existsb_elem. unfold confirms. split.
    - intros (name & Hin & H). destruct (host _) as [addrs|] eqn:E; [|done].
      exists name, addrs. split_and!; [done..|]. by apply bool_decide_eq_true in H.
    - intros (name & addrs & Hin & E & H). exists name. split; [done|]. rewrite E. by apply bool_decide_eq_true. }
  assert (Hr : match names with [] => decimal 15 10
    | _ :: _ => if existsb (confirms host ip) names then f0 else decimal 15 10 end = f0
    <-> existsb (confirms host ip) names = true).
  { destruct names; [done|]. by destruct (existsb _ _). }
  rewrite Hr, Hc. split.
  - intros (name & addrs & H). split; [done|]. exists names, name, addrs. naive_solver.
  - intros (_ & ns & name & addrs & [= <-] & H). exists name, addrs. naive_solver.
Qed.

(** ** URLs *)

Lemma find_all_length m n fuel s : (length (find_all m n fuel s) <= n)%nat.
Proof.
  revert n s. induction fuel as [|fuel IH]; intros [|n] s; cbn; try lia.
  destruct (m s) as [[a rest]|]; cbn; [specialize (IH n rest); lia|].
  destruct s; cbn; [lia|apply IH].
Qed.

Lemma collect_spec ms urls :
  NoDup urls -> NoDup (foldl collect urls ms) /\
  (length (foldl collect urls ms) <= length urls + length ms)%nat.
Proof.
  revert urls. induction ms as [|m ms IH]; intros urls Hu; cbn [foldl length]; [split; [done|lia]|].
  assert (Hc : NoDup (collect urls m) /\ (length (collect urls m) <= S (length urls))%nat).
  { unfold collect. case_bool_decide as Hin; [split; [done|lia]|]. split.
    - apply NoDup_app. split_and!; [done| |apply NoDup_singleton]. set_solver.
    - rewrite length_app. cbn. lia. }
  destruct Hc as [Hn Hl]. destruct (IH _ Hn) as [H1 H2]. split; [done|]. lia.
Qed.

(** The URLs of a body are distinct and at most twice 1,000. *)
Theorem ExtractURLs_bounded body :
  NoDup (ExtractURLs body) /\ (length (ExtractURLs body) <= 2 * maxURLs)%nat.
Proof.
  unfold ExtractURLs.
  destruct (collect_spec (FindAll match_url body) [] ltac:(constructor)) as [H1 H2].
  destruct (collect_spec (FindAll match_href body) _ H1) as [H3 H4]. split; [done|].
  pose proof (find_all_length match_url maxURLs (S (length body)) body).
  pose proof (find_all_length match_href maxURLs (S (length body)) body).
  unfold FindAll in *. cbn [length] in H2. lia.
Qed.

(** ** The verdict *)

Definition clamp0 (x : float64) : float64 := if SFltb x f0 then f0 else x.

Section verdict.
Context `{MathLib} (LookupHost LookupAddr : bytes -> option (list bytes)).
Context (time_Parse : bytes -> bytes -> option Z) (now : Z).
Context (url_Hostname : bytes -> option bytes).
Context (ranged : gmap bytes float64 -> list (bytes * float64)).

#[local] Abbreviation check :=
  (CheckMessage LookupHost LookupAddr time_Parse now url_Hostname ranged).

(** The score is the sum, clamped at zero, of the scores of the listed
    checks; a message is junk exactly when it is spam, and unless its sender
    is whitelisted with SPF and DKIM passed it is spam exactly when the score
    reaches the threshold. *)
Theorem verdict_spec sf ip helo from headers body spf dkim dmarc :
  let r := check sf ip helo from headers body spf dkim dmarc in
  Score r = clamp0 (foldl fadd f0 (check_score <$> Checks r)) /\
  SFltb (Score r) f0 = false /\
  (FolderAssignment r = "junk"%string <-> IsSpam r = true) /\
  (IsSpam r = true <-> isWhitelistedSender from spf dkim = false /\
                       SFleb (SpamThreshold (config sf)) (Score r) = true).
Proof.
  unfold CheckMessage. destruct (isWhitelistedSender from spf dkim); cbn [Score IsSpam Checks FolderAssignment].
  { split_and!; [by vm_compute|done|done|]. split; [done|by intros [? _]]. }
  rewrite foldl_score. set (t := foldl fadd f0 _). fold (clamp0 t).
  split_and!; [done|by apply clamp_low| |].
  - destruct (SFleb _ (clamp0 t)); split; done.
  - split; [by split|by intros [_ ?]].
Qed.

(** When the classifier's probability is NaN, the message goes to the inbox
    whatever the other checks say. *)
Theorem nan_probability_delivers sf ip helo from headers body spf dkim dmarc :
  Predict (bayesClassifier sf) (ranged (ExtractFeatures body)) = S754_nan ->
  let r := check sf ip helo from headers body spf dkim dmarc in
  IsSpam r = false /\ FolderAssignment r = "inbox"%string.
Proof.
  intros Hn. unfold CheckMessage. destruct (isWhitelistedSender from spf dkim); [done|].
  cbn [IsSpam FolderAssignment]. rewrite foldl_score.
  assert (Ht : foldl fadd f0 (check_score <$> run_checks LookupHost LookupAddr time_Parse now
    url_Hostname ranged sf ip helo from headers body spf dkim dmarc) = S754_nan).
  { apply sum_nan. right. unfold run_checks.
    destruct (CheckDNSBLWithResolver _ _ _) as [dn ma]. destruct (ScoreHeaders _ _ _) as [he ru].
    rewrite Hn, fmap_app. apply elem_of_app. left. cbn [fmap list_fmap check_score].
    rewrite !fmul_nan_l. do 6 right. left. }
  rewrite Ht. cbn [SFltb SFcompare]. by rewrite le_nan.
Qed.

(** The checks of a message about which everything but the sender's claims is
    known. *)
Lemma run_checks_plain b ip helo from headers body spf dkim dmarc :
  Predict b (ranged (ExtractFeatures body)) = decimal 1 2 ->
  CheckDNSBLWithResolver LookupHost ip (DNSBLLists DefaultConfig) = (f0, []) ->
  CheckReverseDNSWithResolver LookupHost LookupAddr ip helo = f0 ->
  ScoreHeaders time_Parse now headers = (f0, []) ->
  ScoreURLs url_Hostname (ExtractURLs body) ∅ = f0 ->
  check_score <$> run_checks LookupHost LookupAddr time_Parse now url_Hostname ranged
    (mkFilter DefaultConfig b) ip helo from headers body spf dkim dmarc =
  [fmul (ScoreSPF spf) f1; fmul (ScoreDKIM dkim) f1; fmul (ScoreDMARC dmarc) f1; fmul f0 f1;
   fmul f0 f1; fmul f0 f1; fmul (fmul (decimal 1 2) (f64_of_Z 5)) f1; fmul f0 f1] ++
  (if SFltb (scoreTrustedProvider helo from) f0 then [scoreTrustedProvider helo from] else []).
Proof.
  intros Hp Hd Hr Hh Hu. unfold run_checks. cbn [config bayesClassifier].
  rewrite Hd, Hr, Hh, Hp. cbn [DefaultConfig URLBlocklist]. rewrite Hu, fmap_app.
  f_equal. by destruct (SFltb _ _).
Qed.

(** With an untrained model and the default configuration, a message that
    fails SPF, DKIM and a DMARC policy of quarantine, and that nothing else
    counts against, is junk; if its HELO ends in the name of a large provider it goes
    to the inbox.  HELO is whatever the client sends. *)
Theorem forged_helo_delivers b ip helo from headers body
    (untrained : SFeqb (fadd (SpamDocs b) (HamDocs b)) f0 = true)
    (unlisted : CheckDNSBLWithResolver LookupHost ip (DNSBLLists DefaultConfig) = (f0, []))
    (resolves : CheckReverseDNSWithResolver LookupHost LookupAddr ip helo = f0)
    (headers_fine : ScoreHeaders time_Parse now headers = (f0, []))
    (links_fine : ScoreURLs url_Hostname (ExtractURLs body) ∅ = f0)
    (not_trusted : sender_domain from ∉ trustedFromDomains) :
  FolderAssignment (check (mkFilter DefaultConfig b) ip helo from headers body "fail" "fail" "quarantine") =
  if existsb (HasSuffix (ToLower helo)) trustedProviderDomains then "inbox"%string else "junk"%string.
Proof.
  assert (Hp : Predict b (ranged (ExtractFeatures body)) = decimal 1 2)
    by (unfold Predict; by rewrite untrained).
  unfold CheckMessage. cbn [isWhitelistedSender String.eqb andb].
  rewrite foldl_score, run_checks_plain by done.
  unfold scoreTrustedProvider. rewrite (bool_decide_eq_false_2 _ not_trusted).
  destruct (existsb _ _); vm_compute; reflexivity.
Qed.
End verdict.

(** The filter knows DMARC's "fail" only.  A message that is not aligned
    scores 4 when the domain asks for nothing to be done, and 0.2, as if there
    were no policy, when the domain asks for rejection or quarantine. *)
Theorem strict_dmarc_scores_as_none etld txt f spfR spfD dkimR dkimD txts policy :
  let r := CheckDMARC etld txt f spfR spfD dkimR dkimD in
  f <> [] -> txt (bs "_dmarc." ++ f) = Some txts -> dmarc_record txts <> [] ->
  parseDMARCPolicyStrict (dmarc_record txts) = Some policy -> r <> "pass"%string ->
  ScoreDMARC r =
    if bool_decide (tag_value policy "p" = bs "reject" \/ tag_value policy "p" = bs "quarantine")
    then ScoreDMARC "none" else f64_of_Z 4.
Proof.
  unfold CheckDMARC. intros Hf Ht Hr Hp. destruct f as [|c f]; [done|].
  rewrite Ht. destruct (dmarc_record txts) as [|r0 r]; [done|]. rewrite Hp.
  destruct (_ || _)%bool; [done|]. intros _.
  case_bool_decide as H1.
  { rewrite bool_decide_eq_true_2 by auto. vm_compute. reflexivity. }
  case_bool_decide as H2.
  { rewrite bool_decide_eq_true_2 by auto. vm_compute. reflexivity. }
  rewrite bool_decide_eq_false_2 by naive_solver. vm_compute. reflexivity.
Qed.

(** * Witnesses *)

#[local] Instance toy_math : MathLib := {| math_Log x := x; math_Exp x := x |}.

#[local] Definition no_host (h : bytes) : option (list bytes) := None.
#[local] Definition sender_ip : IP := v4InV6Prefix ++ [192; 0; 2; 7].
#[local] Definition own_host (h : bytes) : option (list bytes) :=
  if bool_decide (h = bs "mx.sender.example") then Some [bs "192.0.2.7"] else None.
#[local] Definition ptr (a : bytes) : option (list bytes) :=
  if bool_decide (a = bs "192.0.2.7") then Some [bs "mx.sender.example."] else None.
#[local] Definition date_zero (layout s : bytes) : option Z := Some 0.
#[local] Definition fine_headers : Header :=
  [(bs "Message-Id", [bs "<1@sender.example>"]); (bs "Date", [bs "Thu, 01 Jan 1970 00:00:00 +0000"])].

#[local] Definition poisoned : BayesClassifier :=
  Train [(bs "offer", S754_infinity false)] true NewBayesClassifier.

Lemma nan_probability_delivers_witness :
  let r := CheckMessage no_host no_host date_zero 0 Some map_to_list
    (mkFilter DefaultConfig poisoned) sender_ip (bs "x") (bs "a@b.example") []
    (bs "special offer") "fail" "fail" "fail" in
  IsSpam r = false /\ FolderAssignment r = "inbox"%string.
Proof. apply nan_probability_delivers. vm_compute. reflexivity. Defined.

Lemma forged_helo_delivers_witness :
  FolderAssignment (CheckMessage own_host ptr date_zero 0 Some map_to_list
    (mkFilter DefaultConfig NewBayesClassifier) sender_ip (bs "mail-ed1.google.com") (bs "ceo@bank.example")
    fine_headers (bs "wire the money") "fail" "fail" "quarantine") = "inbox"%string /\
  FolderAssignment (CheckMessage own_host ptr date_zero 0 Some map_to_list
    (mkFilter DefaultConfig NewBayesClassifier) sender_ip (bs "mx.sender.example") (bs "ceo@bank.example")
    fine_headers (bs "wire the money") "fail" "fail" "quarantine") = "junk"%string.
Proof.
  split; (rewrite forged_helo_delivers;
    [vm_compute; reflexivity|vm_compute; reflexivity|vm_compute; reflexivity|vm_compute; reflexivity
    |vm_compute; reflexivity|vm_compute; reflexivity|]);
  apply (bool_decide_unpack _); vm_compute; exact I.
Defined.

Lemma strict_dmarc_scores_as_none_witness :
  let txt (d : bytes) := if bool_decide (d = bs "_dmarc.bank.example")
                         then Some [bs "v=DMARC1; p=reject"] else None in
  ScoreDMARC (CheckDMARC (fun _ => None) txt (bs "bank.example") "fail" [] "none" []) = decimal 2 10.
Proof.
  cbn zeta.
  rewrite (strict_dmarc_scores_as_none _ _ _ _ _ _ _ [bs "v=DMARC1; p=reject"]
    (default ∅ (parseDMARCPolicyStrict (bs "v=DMARC1; p=reject")))).
  - vm_compute. reflexivity.
  - intros [=].
  - vm_compute. reflexivity.
  - intros [=].
  - apply (bool_decide_unpack _). vm_compute. exact I.
  - vm_compute. intros [=].
Defined.
