(* ===== verification/MailParse.v ===== *)
(** The MIME structure of a message: src/internal/mailparse/parse.go and
    part.go, and the index that src/internal/smtp/pipeline.go (buildRawMeta)
    makes of it.

The input is in memory, so a read fails only at its end: the reader is the
list of remaining lines with their endings, and the offset of the next one.
[mime.ParseMediaType] and RFC 2047 decoding are parameters.  A loop that
can run for ever is a function of fuel, [None] being "not done yet".

Shown: the parser reads back the structure and every body's offsets of a
well-formed message; offsets are ordered, nested and inside the message;
but in a multipart that is never closed the parser does not return. *)

From S2P Require Import Prelude GoNet FilePath GoStrings.
Local Open Scope Z_scope.
#[local] Set Warnings "-register-all".

(** * Reading lines *)

(** The text in lines, each with its "\n"; the last may lack it. *)
Fixpoint lines_from (cur : bytes) (s : bytes) : list bytes :=
  match s with
  | [] => match cur with [] => [] | _ => [rev cur] end
  | c :: s => if bool_decide (c = x0a) then rev (c :: cur) :: lines_from [] s
              else lines_from (c :: cur) s
  end.

Definition lines_of (s : bytes) : list bytes := lines_from [] s.

Definition size_of (line : bytes) : Z := Z.of_nat (length line).

(** [ReadBytes] returned the line together with [io.EOF]. *)
Definition at_eof (line : bytes) : bool := negb (bool_decide (last line = Some x0a)).

(** * Headers *)

(** The bytes of an HTTP token. *)
Definition token_byte (c : byte) : bool :=
  byte_between "a" "z" c || byte_between "A" "Z" c || byte_between "0" "9" c ||
  bool_decide (c ∈ bs "!#$%&'*+-.^_`|~").

Definition upper_byte (b : byte) : byte :=
  if byte_between "a" "z" b then default b (Byte.of_N (Byte.to_N b - 32)%N) else b.

Fixpoint canonical_key (upper : bool) (s : bytes) : bytes :=
  match s with
  | [] => []
  | c :: s => (if upper then upper_byte c else lower_byte c) ::
              canonical_key (bool_decide (c = "-"%byte)) s
  end.

(** [textproto.CanonicalMIMEHeaderKey]: anything but a token stays as it is. *)
Definition CanonicalMIMEHeaderKey (s : bytes) : bytes :=
  if forallb token_byte s then canonical_key true s else s.

(** [Header.Get]: the first value, or nothing. *)
Definition header_Get (h : Header) (key : bytes) : bytes :=
  default [] (head (exact h (CanonicalMIMEHeaderKey key))).

Definition trim_crlf (line : bytes) : bytes := trim_right [x0d; x0a] line.

(** The variables of [parseHeaders]: the map, [currentKey] and what
    [currentValue] has been written. *)
Record header_state := mkHS { hs_map : Header; currentKey : bytes; currentValue : bytes }.

Definition flush (h : header_state) : header_state :=
  if bool_decide (currentKey h = []) then h
  else mkHS (header_add (hs_map h) (CanonicalMIMEHeaderKey (currentKey h)) (currentValue h)) [] [].

Definition is_continuation (trimmed : bytes) : bool :=
  match trimmed with c :: _ => bool_decide (c = x20 \/ c = x09) | [] => false end.

Definition continue_value (h : header_state) (trimmed : bytes) : header_state :=
  if bool_decide (currentKey h = []) then h
  else mkHS (hs_map h) (currentKey h) (currentValue h ++ [x20] ++ TrimSpace trimmed).

(** A line "key: value" after the flush; [None] when there is no colon. *)
Definition start_field (h : header_state) (trimmed : bytes) : option header_state :=
  colonIdx ← IndexByte ":" trimmed;
  Some (mkHS (hs_map h) (CanonicalMIMEHeaderKey (take colonIdx trimmed))
         (currentValue h ++ TrimSpace (drop (S colonIdx) trimmed))).

Fixpoint parseHeaders (ls : list bytes) (pos : Z) (h : header_state) : Header * list bytes * Z :=
  match ls with
  | [] => (hs_map (flush h), [], pos)
  | line :: ls =>
      let pos := pos + size_of line in
      let trimmed := trim_crlf line in
      if bool_decide (trimmed = []) then (hs_map (flush h), ls, pos)
      else if is_continuation trimmed then
        let h := continue_value h trimmed in
        if at_eof line then (hs_map (flush h), ls, pos) else parseHeaders ls pos h
      else
        let h := flush h in
        match start_field h trimmed with
        | None => if at_eof line then (hs_map h, ls, pos) else parseHeaders ls pos h
        | Some h => if at_eof line then (hs_map (flush h), ls, pos) else parseHeaders ls pos h
        end
  end.

(** * Parts *)

Record info := mkInfo {
  ContentType : bytes;
  Boundary : bytes;
  Charset : bytes;
  TransferEncoding : bytes;
  ContentDisposition : bytes;
  Name : bytes;
  Filename : bytes
}.

Inductive Part := mkPart {
  StartPos : Z;
  BodyPos : Z;
  EndPos : Z;
  header : Header;
  content : info;
  Children : list Part
}.

(** * Boundaries *)

Definition checkBoundary (line boundary : bytes) : bool * bool :=
  let trimmed := trim_right [x20; x09; x0d; x0a] line in
  if negb (HasPrefix trimmed (bs "--" ++ boundary)) then (false, false)
  else
    let rest := drop (2 + length boundary) trimmed in
    if bool_decide (rest = []) then (true, false)
    else if bool_decide (rest = bs "--") then (true, true)
    else (false, false).

Definition lineEndingLen (line : bytes) : Z :=
  if HasSuffix line [x0d; x0a] then 2 else if HasSuffix line [x0a] then 1 else 0.

(** [first] and [prevLineEndLen]; the result is closing, EndPos, and the reader. *)
Fixpoint until_boundary (ls : list bytes) (pos : Z) (boundary : bytes) (first : bool)
    (prevLineEndLen : Z) : bool * Z * list bytes * Z :=
  match ls with
  | [] => (false, pos, [], pos)
  | line :: ls =>
      let lineStart := pos in
      let pos := pos + size_of line in
      let '(isBound, isClose) := checkBoundary line boundary in
      if isBound then (isClose, if first then lineStart else lineStart - prevLineEndLen, ls, pos)
      else if at_eof line then (false, pos, ls, pos)
      else until_boundary ls pos boundary false (lineEndingLen line)
  end.

Fixpoint total (ls : list bytes) : Z :=
  match ls with [] => 0 | l :: ls => size_of l + total ls end.

Definition readUntilBoundary (ls : list bytes) (pos : Z) (boundary : bytes)
    : bool * Z * list bytes * Z :=
  if bool_decide (boundary = []) then (false, pos + total ls, [], pos + total ls)
  else until_boundary ls pos boundary true 0.

(** The preamble: [true] when there are children to read after it. *)
Fixpoint skip_preamble (ls : list bytes) (pos : Z) (boundary : bytes) : bool * list bytes * Z :=
  match ls with
  | [] => (false, [], pos)
  | line :: ls =>
      let pos := pos + size_of line in
      let '(isBound, isClose) := checkBoundary line boundary in
      if isBound then (negb isClose, ls, pos)
      else if at_eof line then (false, ls, pos)
      else skip_preamble ls pos boundary
  end.

Section parse.
(** The media type and its parameters (a missing one reads as empty). *)
Context (ParseMediaType : bytes -> option (bytes * (bytes -> bytes))).
Context (DecodeWords : bytes -> option bytes).

Definition DecodeHeader (s : bytes) : bytes :=
  if bool_decide (s = []) then s else default s (DecodeWords s).

Definition DecodedHeader (p : Part) (key : bytes) : bytes := DecodeHeader (header_Get (header p) key).

(** (media type, boundary, charset, name) *)
Definition content_type (h : Header) : bytes * bytes * bytes * bytes :=
  let ascii := bs "us-ascii" in
  let ct := header_Get h (bs "Content-Type") in
  if bool_decide (ct = []) then (bs "text/plain", [], ascii, [])
  else match ParseMediaType ct with
       | Some (mediaType, params) =>
           let c := params (bs "charset") in
           (mediaType, params (bs "boundary"), if bool_decide (c = []) then ascii else c,
            DecodeHeader (params (bs "name")))
       | None => (ToLower (TrimSpace ct), [], ascii, [])
       end.

Definition transfer_encoding (h : Header) (contentType : bytes) : bytes :=
  let te := header_Get h (bs "Content-Transfer-Encoding") in
  if negb (bool_decide (te = [])) then ToLower (TrimSpace te)
  else if HasPrefix contentType (bs "multipart/") then bs "8bit" else bs "7bit".

(** (disposition, file name) *)
Definition disposition (h : Header) : bytes * bytes :=
  let cd := header_Get h (bs "Content-Disposition") in
  if bool_decide (cd = []) then ([], [])
  else match ParseMediaType cd with
       | Some (d, params) => (d, DecodeHeader (params (bs "filename")))
       | None => (ToLower (TrimSpace (match IndexByte ";" cd with Some i => take i cd | None => cd end)), [])
       end.

Definition extractContentInfo (h : Header) : info :=
  let '(mediaType, boundary, charset, name) := content_type h in
  let '(d, filename) := disposition h in
  mkInfo mediaType boundary charset (transfer_encoding h mediaType) d name filename.

(** One part, and the children of a multipart from its first boundary on. *)
Fixpoint parsePart (fuel : nat) (ls : list bytes) (pos : Z) (terminating : bytes)
    : option (Part * bool * list bytes * Z) :=
  match fuel with
  | O => None
  | S fuel =>
      let '(h, ls1, bodyPos) := parseHeaders ls pos (mkHS [] [] []) in
      let inf := extractContentInfo h in
      '(children, ls2, pos2) ←
        (if bool_decide (Boundary inf = []) then Some ([], ls1, bodyPos)
         else let '(more, ls', pos') := skip_preamble ls1 bodyPos (Boundary inf) in
              if more : bool then parseChildren fuel ls' pos' (Boundary inf) else Some ([], ls', pos'));
      let '(closing, endPos, ls3, pos3) := readUntilBoundary ls2 pos2 terminating in
      Some (mkPart pos bodyPos endPos h inf children, closing, ls3, pos3)
  end
with parseChildren (fuel : nat) (ls : list bytes) (pos : Z) (boundary : bytes)
    : option (list Part * list bytes * Z) :=
  match fuel with
  | O => None
  | S fuel =>
      '(child, closing, ls, pos) ← parsePart fuel ls pos boundary;
      if closing : bool then Some ([child], ls, pos)
      else
        '(rest, ls, pos) ← parseChildren fuel ls pos boundary;
        Some (child :: rest, ls, pos)
  end.

Definition Parse (fuel : nat) (raw : bytes) : option Part :=
  '(part, _, _, _) ← parsePart fuel (lines_of raw) 0 [];
  Some part.

End parse.

(** * The reader advances *)

(** [ls'] is what is left of [ls], and the offsets agree. *)
Definition moved (ls : list bytes) (pos : Z) (ls' : list bytes) (pos' : Z) : Prop :=
  ls' `suffix_of` ls /\ pos + total ls = pos' + total ls'.

Lemma size_nonneg l : 0 <= size_of l.
Proof. unfold size_of. lia. Qed.

Lemma total_app a b : total (a ++ b) = total a + total b.
Proof. induction a as [|l a IH]; cbn; [done|]. rewrite IH. lia. Qed.

Lemma total_nonneg ls : 0 <= total ls.
Proof. induction ls as [|l ls IH]; cbn; [lia|]. pose proof (size_nonneg l). lia. Qed.

Lemma moved_refl ls pos : moved ls pos ls pos.
Proof. split; [done|lia]. Qed.

Lemma moved_trans a p b q c r : moved a p b q -> moved b q c r -> moved a p c r.
Proof. intros [H1 H2] [H3 H4]. split; [by etrans|lia]. Qed.

Lemma moved_cons l ls pos ls' pos' :
  moved ls (pos + size_of l) ls' pos' -> moved (l :: ls) pos ls' pos'.
Proof. intros [H1 H2]. split; [by apply suffix_cons_r|]. cbn. lia. Qed.

Lemma moved_le ls pos ls' pos' : moved ls pos ls' pos' -> pos <= pos'.
Proof.
  intros [[pre ->] H]. rewrite total_app in H. pose proof (total_nonneg pre). lia.
Qed.

Lemma moved_Forall P ls pos ls' pos' : moved ls pos ls' pos' -> Forall P ls -> Forall P ls'.
Proof. intros [[pre ->] _] H. by apply Forall_app in H as [_ H]. Qed.

Lemma parseHeaders_moved ls : forall pos h,
  let '(_, ls', pos') := parseHeaders ls pos h in moved ls pos ls' pos'.
Proof.
  induction ls as [|l ls IH]; intros pos h; cbn [parseHeaders]; [apply moved_refl|].
  pose proof (moved_cons l ls pos ls _ (moved_refl _ _)) as H1.
  assert (H2 : forall h', let '(_, ls', pos') := parseHeaders ls (pos + size_of l) h' in
    moved (l :: ls) pos ls' pos').
  { intros h'. specialize (IH (pos + size_of l) h'). destruct (parseHeaders ls _ h') as [[? ?] ?].
    by apply moved_cons. }
  case_bool_decide; [done|]. destruct (is_continuation _).
  - destruct (at_eof l); [done|apply H2].
  - destruct (start_field _ _); (destruct (at_eof l); [done|apply H2]).
Qed.

Lemma skip_preamble_moved ls : forall pos b,
  let '(_, ls', pos') := skip_preamble ls pos b in moved ls pos ls' pos'.
Proof.
  induction ls as [|l ls IH]; intros pos b; cbn [skip_preamble]; [apply moved_refl|].
  destruct (checkBoundary l b) as [[] c].
  - apply moved_cons, moved_refl.
  - destruct (at_eof l); [apply moved_cons, moved_refl|].
    specialize (IH (pos + size_of l) b). destruct (skip_preamble ls _ b) as [[? ?] ?].
    by apply moved_cons.
Qed.

Lemma lineEndingLen_bound l : 0 <= lineEndingLen l <= size_of l.
Proof.
  unfold lineEndingLen, size_of. destruct (HasSuffix l [x0d; x0a]) eqn:E2.
  - apply HasSuffix_spec in E2 as [a ->]. rewrite length_app. cbn. lia.
  - destruct (HasSuffix l [x0a]) eqn:E1; [|lia].
    apply HasSuffix_spec in E1 as [a ->]. rewrite length_app. cbn. lia.
Qed.

(** Where [until_boundary] puts the end, [start] being where the body began. *)
Lemma until_boundary_moved ls : forall pos b (first : bool) prev start,
  start <= pos - (if first then 0 else prev) -> 0 <= prev ->
  let '(_, e, ls', pos') := until_boundary ls pos b first prev in
  moved ls pos ls' pos' /\ start <= e <= pos'.
Proof.
  induction ls as [|l ls IH]; intros pos b first prev start Hs Hp; cbn [until_boundary].
  { split; [apply moved_refl|]. destruct first; lia. }
  pose proof (size_nonneg l). destruct (checkBoundary l b) as [[] c].
  - split; [apply moved_cons, moved_refl|]. destruct first; lia.
  - pose proof (lineEndingLen_bound l). destruct (at_eof l).
    + split; [apply moved_cons, moved_refl|]. destruct first; lia.
    + specialize (IH (pos + size_of l) b false (lineEndingLen l) start).
      destruct (until_boundary ls _ b false _) as [[[? ?] ?] ?].
      destruct IH as [H1 H2]; [destruct first; lia|lia|]. split; [by apply moved_cons|lia].
Qed.

Lemma readUntilBoundary_moved ls pos b :
  let '(_, e, ls', pos') := readUntilBoundary ls pos b in
  moved ls pos ls' pos' /\ pos <= e <= pos'.
Proof.
  unfold readUntilBoundary. case_bool_decide.
  - pose proof (total_nonneg ls). split; [|lia]. split; [apply suffix_nil|cbn; lia].
  - apply (until_boundary_moved ls pos b true 0 pos); lia.
Qed.

(** Only a closing line closes. *)
Definition closes (b line : bytes) : Prop := checkBoundary line b = (true, true).

#[export] Instance closes_dec b line : Decision (closes b line).
Proof. unfold closes. apply _. Defined.

Lemma until_boundary_closing ls : forall pos b first prev e ls' pos',
  until_boundary ls pos b first prev = (true, e, ls', pos') -> exists l, l ∈ ls /\ closes b l.
Proof.
  induction ls as [|l ls IH]; intros pos b first prev e ls' pos' H; cbn [until_boundary] in H; [done|].
  destruct (checkBoundary l b) as [[] c] eqn:Ec.
  - injection H as -> _ _ _. exists l. split; [left|done].
  - destruct (at_eof l); [done|]. apply IH in H as (l' & Hin & Hl). exists l'. split; [by right|done].
Qed.

(** * The parser *)

Section theorems.
Context (ParseMediaType : bytes -> option (bytes * (bytes -> bytes))).
Context (DecodeWords : bytes -> option bytes).

#[local] Abbreviation part_at := (parsePart ParseMediaType DecodeWords).
#[local] Abbreviation children_at := (parseChildren ParseMediaType DecodeWords).
#[local] Abbreviation info_of := (extractContentInfo ParseMediaType DecodeWords).

Lemma parsePart_S fuel ls pos terminating :
  part_at (S fuel) ls pos terminating =
  let '(h, ls1, bodyPos) := parseHeaders ls pos (mkHS [] [] []) in
  let inf := info_of h in
  '(children, ls2, pos2) ←
    (if bool_decide (Boundary inf = []) then Some ([], ls1, bodyPos)
     else let '(more, ls', pos') := skip_preamble ls1 bodyPos (Boundary inf) in
          if more : bool then children_at fuel ls' pos' (Boundary inf) else Some ([], ls', pos'));
  let '(closing, endPos, ls3, pos3) := readUntilBoundary ls2 pos2 terminating in
  Some (mkPart pos bodyPos endPos h inf children, closing, ls3, pos3).
Proof. reflexivity. Qed.

Lemma parseChildren_S fuel ls pos boundary :
  children_at (S fuel) ls pos boundary =
  '(child, closing, ls, pos) ← part_at fuel ls pos boundary;
  if closing : bool then Some ([child], ls, pos)
  else
    '(rest, ls, pos) ← children_at fuel ls pos boundary;
    Some (child :: rest, ls, pos).
Proof. reflexivity. Qed.

(** ** Offsets *)

(** Inside [lo, hi]; siblings follow each other in their parent's body. *)
Inductive placed : Z -> Z -> Part -> Prop :=
| placed_part lo hi s b e h i cs :
    lo <= s -> s <= b -> b <= e -> e <= hi -> placed_all b e cs ->
    placed lo hi (mkPart s b e h i cs)
with placed_all : Z -> Z -> list Part -> Prop :=
| placed_nil lo hi : placed_all lo hi []
| placed_cons lo hi c cs :
    placed lo hi c -> placed_all (EndPos c) hi cs -> placed_all lo hi (c :: cs).

Lemma placed_higher lo hi hi' p : hi <= hi' -> placed lo hi p -> placed lo hi' p.
Proof. intros H Hp. destruct Hp. constructor; try done; lia. Qed.

Lemma placed_all_higher lo hi hi' cs : hi <= hi' -> placed_all lo hi cs -> placed_all lo hi' cs.
Proof.
  intros H Hc. induction Hc as [|lo hi c cs Hp _ IH]; constructor; [by eapply placed_higher|auto].
Qed.

Lemma placed_all_lower lo lo' hi cs : lo' <= lo -> placed_all lo hi cs -> placed_all lo' hi cs.
Proof.
  intros H Hc. destruct Hc as [|lo hi c cs Hp Hc]; constructor; [|done]. destruct Hp. constructor; try done; lia.
Qed.

Lemma placed_end lo hi p : placed lo hi p -> EndPos p <= hi.
Proof. by destruct 1. Qed.

Lemma parts_placed fuel :
  (forall ls pos b p c ls' pos', part_at fuel ls pos b = Some (p, c, ls', pos') ->
     moved ls pos ls' pos' /\ placed pos pos' p /\ StartPos p = pos) /\
  (forall ls pos b cs ls' pos', children_at fuel ls pos b = Some (cs, ls', pos') ->
     moved ls pos ls' pos' /\ placed_all pos pos' cs).
Proof.
  induction fuel as [|fuel [IHp IHc]]; [done|]. split.
  - intros ls pos b p c ls' pos' H. rewrite parsePart_S in H.
    pose proof (parseHeaders_moved ls pos (mkHS [] [] [])) as Mh.
    destruct (parseHeaders ls pos _) as [[h ls1] bp]. set (inf := info_of h) in *.
    apply bind_Some in H as ([[cs ls2] pos2] & Hc & H).
    assert (Mc : moved ls1 bp ls2 pos2 /\ placed_all bp pos2 cs).
    { case_bool_decide; [injection Hc as <- <- <-; split; [apply moved_refl|constructor]|].
      pose proof (skip_preamble_moved ls1 bp (Boundary inf)) as Ms.
      destruct (skip_preamble ls1 bp _) as [[[] lsx] px].
      - apply IHc in Hc as [M1 M2]. split; [by eapply moved_trans|].
        eapply placed_all_lower; [|done]. by eapply moved_le.
      - injection Hc as <- <- <-. split; [done|constructor]. }
    destruct Mc as [Mc Pc]. pose proof (readUntilBoundary_moved ls2 pos2 b) as Mr.
    destruct (readUntilBoundary ls2 pos2 b) as [[[cl e] ls3] pos3]. destruct Mr as [Mr He].
    injection H as <- <- <- <-. split; [|split; [|done]].
    + eapply moved_trans; [exact Mh|]. by eapply moved_trans.
    + pose proof (moved_le _ _ _ _ Mh). pose proof (moved_le _ _ _ _ Mc).
      constructor; try lia. eapply placed_all_higher; [|done]. lia.
  - intros ls pos b cs ls' pos' H. rewrite parseChildren_S in H.
    apply bind_Some in H as ([[[child closing] ls1] pos1] & Hp & H).
    apply IHp in Hp as (Mp & Pp & _). destruct closing.
    + injection H as <- <- <-. split; [done|]. constructor; [done|constructor].
    + apply bind_Some in H as ([[rest ls2] pos2] & Hc & H). injection H as <- <- <-.
      apply IHc in Hc as [Mc Pc]. split; [by eapply moved_trans|].
      pose proof (moved_le _ _ _ _ Mc). constructor.
      * eapply placed_higher; [|exact Pp]. lia.
      * eapply placed_all_lower; [|exact Pc]. by eapply placed_end.
Qed.

Lemma total_lines_from s : forall cur, total (lines_from cur s) = Z.of_nat (length cur + length s).
Proof.
  induction s as [|c s IH]; intros cur; cbn [lines_from].
  - destruct cur; [done|]. cbn [total]. unfold size_of. rewrite length_rev. cbn. lia.
  - case_bool_decide.
    + cbn [total]. rewrite IH. unfold size_of. rewrite length_rev. cbn. lia.
    + rewrite IH. cbn. lia.
Qed.

(** Whatever the parser returns, every part starts, has its body and ends
    in this order, inside its parent's body, after its elder siblings, and
    inside the message. *)
Theorem Parse_offsets fuel raw p :
  Parse ParseMediaType DecodeWords fuel raw = Some p ->
  placed 0 (Z.of_nat (length raw)) p /\ StartPos p = 0.
Proof.
  unfold Parse. intros ([[[q c] ls] pos] & H & [= ->])%bind_Some.
  destruct (parts_placed fuel) as [Hp _]. apply Hp in H as (M & P & S). split; [|done].
  eapply placed_higher; [|done]. destruct M as [_ M]. unfold lines_of in M.
  rewrite total_lines_from in M. cbn in M. pose proof (total_nonneg ls). lia.
Qed.

(** ** Multiparts that are not closed *)

Lemma children_unclosed fuel : forall ls pos b,
  b <> [] -> Forall (fun l => ~ closes b l) ls -> children_at fuel ls pos b = None.
Proof.
  induction fuel as [|fuel IH]; intros ls pos b Hb Hl; [done|]. rewrite parseChildren_S.
  destruct (part_at fuel ls pos b) as [[[[child closing] ls1] pos1]|] eqn:E; [|done].
  pose proof (proj1 (parts_placed fuel) _ _ _ _ _ _ _ E) as (M & _ & _).
  destruct closing; cbn.
  - exfalso. destruct fuel as [|fuel]; [done|]. rewrite parsePart_S in E.
    pose proof (parseHeaders_moved ls pos (mkHS [] [] [])) as Mh.
    destruct (parseHeaders ls pos _) as [[h lsh] bp].
    apply bind_Some in E as ([[cs ls2] pos2] & Hc & E).
    assert (Mc : moved lsh bp ls2 pos2).
    { case_bool_decide; [injection Hc as <- <- <-; apply moved_refl|].
      pose proof (skip_preamble_moved lsh bp (Boundary (info_of h))) as Ms.
      destruct (skip_preamble lsh bp _) as [[[] lsx] px].
      - apply (parts_placed fuel) in Hc as [M1 _]. by eapply moved_trans.
      - by injection Hc as <- <- <-. }
    unfold readUntilBoundary in E. rewrite bool_decide_eq_false_2 in E by done.
    destruct (until_boundary ls2 pos2 b true 0) as [[[cl e] ls3] pos3] eqn:Eu.
    injection E as _ -> _ _. apply until_boundary_closing in Eu as (l & Hin & Hcl).
    pose proof (moved_Forall _ _ _ _ _ (moved_trans _ _ _ _ _ _ Mh Mc) Hl) as Hf.
    rewrite Forall_forall in Hf. by apply (Hf l).
  - rewrite IH; [done|done|]. by eapply moved_Forall.
Qed.

(** C17. A multipart message in which the first boundary is not followed by a
    closing boundary makes the parser run for ever: no fuel is enough.  It
    adds an empty part in every round. *)
Theorem unclosed_multipart_never_returns raw h ls1 p1 ls2 p2
    (Hh : parseHeaders (lines_of raw) 0 (mkHS [] [] []) = (h, ls1, p1))
    (Hb : Boundary (info_of h) <> [])
    (Ho : skip_preamble ls1 p1 (Boundary (info_of h)) = (true, ls2, p2))
    (Hc : Forall (fun l => ~ closes (Boundary (info_of h)) l) ls2) fuel :
  Parse ParseMediaType DecodeWords fuel raw = None.
Proof.
  unfold Parse. destruct fuel as [|fuel]; [done|]. rewrite parsePart_S, Hh.
  cbn beta iota zeta. rewrite bool_decide_eq_false_2 by done. rewrite Ho. by rewrite children_unclosed.
Qed.

(** ** Well-formed messages *)

(** A part to be written: its header fields, and its body's lines or its
    boundary and children. *)
Inductive tree :=
| Leaf (hs : list (bytes * bytes)) (body : list bytes)
| Multi (hs : list (bytes * bytes)) (b : bytes) (cs : list tree).

Definition crlf : bytes := [x0d; x0a].
Definition field_line (f : bytes * bytes) : bytes := f.1 ++ bs ": " ++ f.2 ++ crlf.
Definition delimiter (b : bytes) : bytes := bs "--" ++ b ++ crlf.
Definition closer (b : bytes) : bytes := bs "--" ++ b ++ bs "--" ++ crlf.
Definition head_lines (hs : list (bytes * bytes)) : list bytes := (field_line <$> hs) ++ [crlf].
Definition body_lines (body : list bytes) : list bytes := (fun l => l ++ crlf) <$> body.

(** The lines of a part; a leaf's last line ending is the delimiter's. *)
Fixpoint render (t : tree) : list bytes :=
  match t with
  | Leaf hs body => head_lines hs ++ body_lines body
  | Multi hs b cs => head_lines hs ++ concat ((fun c => delimiter b :: render c) <$> cs) ++ [closer b]
  end.

Definition fields_of (hs : list (bytes * bytes)) : Header :=
  foldl (fun h f => header_add h f.1 f.2) [] hs.

Definition field_ok (f : bytes * bytes) : Prop :=
  f.1 <> [] /\ (":"%byte ∉ f.1) /\ CanonicalMIMEHeaderKey f.1 = f.1 /\
  TrimSpace (x20 :: f.2) = f.2 /\
  trim_crlf (field_line f) = f.1 ++ bs ": " ++ f.2 /\
  is_continuation f.1 = false.

Definition boundary_ok (b : bytes) : Prop :=
  b <> [] /\ checkBoundary (delimiter b) b = (true, false) /\ checkBoundary (closer b) b = (true, true).

Definition body_ok (terminating : bytes) (body : list bytes) : Prop :=
  Forall (fun l => checkBoundary (l ++ crlf) terminating = (false, false)) body.

Fixpoint wf (terminating : bytes) (t : tree) : Prop :=
  match t with
  | Leaf hs body =>
      Forall field_ok hs /\ Boundary (info_of (fields_of hs)) = [] /\
      (terminating = [] \/ body_ok terminating body)
  | Multi hs b cs =>
      Forall field_ok hs /\ Boundary (info_of (fields_of hs)) = b /\ boundary_ok b /\
      foldr (fun c P => wf b c /\ P) True cs
  end.

(** The bytes between two offsets. *)
Definition slice (raw : bytes) (from to : Z) : bytes :=
  take (Z.to_nat (to - from)) (drop (Z.to_nat from) raw).

(** What a part of [raw] must give back: the header map, and the body's text or
    the children.  The root's text keeps its last line ending. *)
Fixpoint reads (raw : bytes) (root : bool) (t : tree) (p : Part) : Prop :=
  match t with
  | Leaf hs body =>
      header p = fields_of hs /\ Children p = [] /\
      slice raw (BodyPos p) (EndPos p) ++ (if root || bool_decide (body = []) then [] else crlf) =
        concat (body_lines body)
  | Multi hs b cs =>
      header p = fields_of hs /\ Boundary (content p) = b /\
      (fix all cs ps := match cs, ps with
                        | [], [] => True
                        | c :: cs, q :: ps => reads raw false c q /\ all cs ps
                        | _, _ => False
                        end) cs (Children p)
  end.

Fixpoint weight (t : tree) : nat :=
  match t with
  | Leaf _ _ => 1
  | Multi _ _ cs => S (foldr (fun c n => S (weight c) + n) 0 cs)%nat
  end.

Lemma at_eof_line l : at_eof (l ++ crlf) = false.
Proof.
  unfold at_eof. rewrite bool_decide_eq_true_2; [done|].
  change crlf with ([x0d] ++ [x0a]). by rewrite app_assoc, last_snoc.
Qed.

(** One field line, when the value builder is empty or about to be flushed. *)
Lemma parse_field f ls pos h :
  field_ok f -> (currentKey h = [] -> currentValue h = []) ->
  parseHeaders (field_line f :: ls) pos h =
  parseHeaders ls (pos + size_of (field_line f)) (mkHS (hs_map (flush h)) f.1 f.2).
Proof.
  intros (Hne & Hcol & Hcan & Hval & Htrim & Hcont) Hv. destruct f as [k v]. cbn [fst snd] in *.
  cbn [parseHeaders]. rewrite Htrim.
  destruct k as [|c k]; [done|]. cbn [app]. rewrite bool_decide_eq_false_2 by done.
  change (is_continuation (c :: k ++ bs ": " ++ v)) with (is_continuation (c :: k)). rewrite Hcont.
  unfold start_field.
  change (c :: k ++ bs ": " ++ v) with ((c :: k) ++ ":"%byte :: x20 :: v).
  rewrite (IndexByte_first _ _ _ Hcol). cbn [mbind option_bind].
  assert (at_eof (field_line (c :: k, v)) = false) as ->.
  { unfold field_line. cbn [fst snd]. rewrite !app_assoc. apply at_eof_line. }
  rewrite take_app_length, Hcan.
  rewrite (drop_app_ge _ _ (S (length (c :: k)))) by lia.
  replace (S (length (c :: k)) - length (c :: k))%nat with 1%nat by lia. cbn [drop].
  rewrite Hval. do 2 f_equal. unfold flush. case_bool_decide as Hk; [by rewrite (Hv Hk)|done].
Qed.

Lemma parse_fields hs rest : forall pos h,
  Forall field_ok hs -> (currentKey h = [] -> currentValue h = []) ->
  parseHeaders (head_lines hs ++ rest) pos h =
  (foldl (fun m f => header_add m f.1 f.2) (hs_map (flush h)) hs, rest, pos + total (head_lines hs)).
Proof.
  unfold head_lines. induction hs as [|f hs IH]; intros pos h Hf Hv.
  - cbn. repeat f_equal; lia.
  - apply Forall_cons in Hf as [Hok Hf]. cbn [fmap list_fmap app].
    rewrite parse_field by done. destruct Hok as (Hne & _ & Hcan & _).
    rewrite IH; [|done|done]. cbn [foldl total]. unfold flush at 1. cbn [currentKey hs_map currentValue].
    rewrite bool_decide_eq_false_2 by done. rewrite Hcan. cbn [hs_map]. f_equal. lia.
Qed.

Lemma parse_head hs rest pos :
  Forall field_ok hs ->
  parseHeaders (head_lines hs ++ rest) pos (mkHS [] [] []) =
  (fields_of hs, rest, pos + total (head_lines hs)).
Proof. intros H. by rewrite parse_fields. Qed.

Lemma lineEndingLen_crlf l : lineEndingLen (l ++ crlf) = 2.
Proof. unfold lineEndingLen, HasSuffix. rewrite rev_app_distr.
  change (rev [x0d; x0a]) with (rev crlf). by rewrite HasPrefix_app.
Qed.

Lemma until_body b bl closing tail body : forall pos (first : bool) prev,
  body_ok b body -> checkBoundary bl b = (true, closing) ->
  until_boundary (body_lines body ++ bl :: tail) pos b first prev =
  (closing, if bool_decide (body = []) then (if first then pos else pos - prev)
            else pos + total (body_lines body) - 2,
   tail, pos + total (body_lines body) + size_of bl).
Proof.
  induction body as [|l body IH]; intros pos first prev Hb Hbl.
  - cbn. rewrite Hbl, Z.add_0_r. done.
  - apply Forall_cons in Hb as [Hl Hb]. cbn [body_lines fmap list_fmap app until_boundary total].
    rewrite Hl, at_eof_line, lineEndingLen_crlf. fold (body_lines body). rewrite IH by done.
    rewrite (bool_decide_eq_false_2 (l :: body = [])) by done. rewrite <-!Z.add_assoc.
    case_bool_decide as Hn; [|done]. subst. cbn [body_lines fmap list_fmap total].
    do 3 f_equal. lia.
Qed.

Lemma total_concat ls : total ls = Z.of_nat (length (concat ls)).
Proof. induction ls as [|l ls IH]; [done|]. cbn. rewrite IH, length_app. unfold size_of. lia. Qed.

Lemma slice_mid a x c :
  slice (a ++ x ++ c) (Z.of_nat (length a)) (Z.of_nat (length a) + Z.of_nat (length x)) = x.
Proof.
  unfold slice. replace (Z.to_nat (_ + _ - _)) with (length x) by lia.
  rewrite Nat2Z.id, drop_app_length. by rewrite take_app_length.
Qed.

Lemma body_text_end body : body <> [] -> exists x, concat (body_lines body) = x ++ crlf.
Proof.
  intros H. destruct (exists_last H) as (b' & l & ->). unfold body_lines.
  rewrite fmap_app, concat_app. cbn. rewrite app_nil_r, app_assoc. eauto.
Qed.

(** A body between its header and what follows. *)
Lemma leaf_slice raw pre body post (root : bool) :
  raw = concat pre ++ concat (body_lines body) ++ post ->
  slice raw (total pre)
    (if root then total pre + total (body_lines body)
     else if bool_decide (body = []) then total pre
     else total pre + total (body_lines body) - 2) ++
  (if root || bool_decide (body = []) then [] else crlf) = concat (body_lines body).
Proof.
  intros ->. rewrite !total_concat. destruct root; cbn [orb].
  - by rewrite slice_mid, app_nil_r.
  - case_bool_decide as Hb.
    + subst. unfold slice. rewrite Z.sub_diag. done.
    + destruct (body_text_end body Hb) as [x Hx]. rewrite Hx, <-app_assoc, length_app.
      rewrite (app_assoc x crlf post) at 1. rewrite <-(app_assoc x crlf post).
      replace (Z.of_nat (length (concat pre)) + Z.of_nat (length x + length crlf) - 2)
        with (Z.of_nat (length (concat pre)) + Z.of_nat (length x)) by (cbn; lia).
      by rewrite slice_mid.
Qed.

Lemma reads_all raw cs ps :
  (fix all cs ps := match cs, ps with
                    | [], [] => True
                    | c :: cs, q :: ps => reads raw false c q /\ all cs ps
                    | _, _ => False
                    end) cs ps <-> Forall2 (reads raw false) cs ps.
Proof.
  revert ps. induction cs as [|c cs IH]; intros [|q ps]; cbn.
  - split; [constructor|done].
  - split; [done|by inversion 1].
  - split; [done|by inversion 1].
  - rewrite IH. split; [intros []; by constructor|by inversion 1].
Qed.

Lemma part_at_leaf fuel hs rest pos b :
  Forall field_ok hs -> Boundary (info_of (fields_of hs)) = [] ->
  part_at (S fuel) (head_lines hs ++ rest) pos b =
  let '(cl, e, ls3, p3) := readUntilBoundary rest (pos + total (head_lines hs)) b in
  Some (mkPart pos (pos + total (head_lines hs)) e (fields_of hs) (info_of (fields_of hs)) [], cl, ls3, p3).
Proof.
  intros Hf Hb. rewrite parsePart_S, parse_head by done. cbn beta iota zeta.
  by rewrite bool_decide_eq_true_2.
Qed.

(** What the induction gives for one part before a boundary line. *)
Definition readable (raw : bytes) (b : bytes) (t : tree) : Prop :=
  forall bl closing tail pre fuel,
    checkBoundary bl b = (true, closing) ->
    raw = concat (pre ++ render t ++ bl :: tail) -> (weight t <= fuel)%nat ->
    exists p,
      part_at fuel (render t ++ bl :: tail) (total pre) b =
        Some (p, closing, tail, total pre + total (render t) + size_of bl) /\ reads raw false t p.

Lemma total_cons l ls : total (l :: ls) = size_of l + total ls.
Proof. done. Qed.

Lemma read_children raw b cs tail : forall c pre fuel,
  boundary_ok b -> Forall (readable raw b) (c :: cs) ->
  raw = concat (pre ++ render c ++ concat ((fun c => delimiter b :: render c) <$> cs) ++ closer b :: tail) ->
  (foldr (fun c n => S (weight c) + n) 0 (c :: cs) <= fuel)%nat ->
  exists ps,
    children_at fuel (render c ++ concat ((fun c => delimiter b :: render c) <$> cs) ++ closer b :: tail)
      (total pre) b =
      Some (ps, tail, total pre + total (render c ++
              concat ((fun c => delimiter b :: render c) <$> cs) ++ [closer b])) /\
    Forall2 (reads raw false) (c :: cs) ps.
Proof.
  induction cs as [|c' cs IH]; intros c pre fuel Hb Hr Hraw Hw;
    apply Forall_cons in Hr as [Hc Hr]; destruct Hb as (Hne & Hd & Hk);
    (destruct fuel as [|fuel]; [cbn in Hw; lia|]); cbn [foldr] in Hw.
  - cbn [fmap list_fmap concat app] in *.
    destruct (Hc (closer b) true tail pre fuel Hk Hraw ltac:(lia)) as (p & Hp & Hreads).
    exists [p]. split; [|by repeat constructor]. rewrite parseChildren_S, Hp. cbn [mbind option_bind].
    do 2 f_equal. rewrite total_app. cbn [total]. lia.
  - cbn [fmap list_fmap concat] in *.
    rewrite <-!app_assoc in *. cbn [app] in *.
    destruct (Hc (delimiter b) false _ pre fuel Hd Hraw ltac:(lia)) as (p & Hp & Hreads).
    destruct (IH c' (pre ++ render c ++ [delimiter b]) fuel) as (ps & Hps & Hall);
      [done|done| |cbn [foldr]; lia|].
    { rewrite Hraw. by rewrite <-!app_assoc. }
    exists (p :: ps). split; [|by constructor].
    rewrite parseChildren_S, Hp. cbn [mbind option_bind].
    replace (total pre + total (render c) + size_of (delimiter b))
      with (total (pre ++ render c ++ [delimiter b])) by (rewrite !total_app; cbn [total]; lia).
    rewrite Hps. cbn [mbind option_bind]. do 2 f_equal.
    rewrite !total_app. cbn [total]. rewrite !total_app. cbn [total]. lia.
Qed.

Lemma part_at_multi raw fuel hs b cs pre rest term :
  Forall field_ok hs -> Boundary (info_of (fields_of hs)) = b -> boundary_ok b ->
  Forall (readable raw b) cs ->
  raw = concat (pre ++ render (Multi hs b cs) ++ rest) ->
  (foldr (fun c n => S (weight c) + n) 0 cs <= fuel)%nat ->
  exists ps, Forall2 (reads raw false) cs ps /\
  part_at (S fuel) (render (Multi hs b cs) ++ rest) (total pre) term =
  let '(cl, e, ls3, p3) := readUntilBoundary rest (total pre + total (render (Multi hs b cs))) term in
  Some (mkPart (total pre) (total pre + total (head_lines hs)) e (fields_of hs)
          (info_of (fields_of hs)) ps, cl, ls3, p3).
Proof.
  intros Hf Hi Hb Hr Hraw Hw. pose proof Hb as (Hne & Hd & Hk).
  rewrite parsePart_S. cbn [render] in *. rewrite <-!app_assoc in *.
  rewrite parse_head by done. cbn beta iota zeta. rewrite Hi, bool_decide_eq_false_2 by done.
  destruct cs as [|c cs]; cbn [fmap list_fmap concat app skip_preamble] in *.
  - exists []. split; [constructor|]. rewrite Hk. cbn [negb mbind option_bind].
    rewrite !total_app. cbn [total]. by rewrite Z.add_0_r, Z.add_assoc.
  - rewrite Hd. cbn [negb]. rewrite <-!app_assoc in *.
    destruct (read_children raw b cs rest c (pre ++ head_lines hs ++ [delimiter b]) fuel Hb Hr)
      as (ps & Hps & Hall); [by rewrite Hraw, <-!app_assoc|done|].
    exists ps. split; [done|].
    replace (total pre + total (head_lines hs) + size_of (delimiter b))
      with (total (pre ++ head_lines hs ++ [delimiter b])) by (rewrite !total_app; cbn [total]; lia).
    cbn [app] in *. rewrite Hps. cbn [mbind option_bind].
    assert (Ht : total (pre ++ head_lines hs ++ [delimiter b]) +
      total (render c ++ concat ((fun c => delimiter b :: render c) <$> cs) ++ [closer b]) =
      total pre + total (head_lines hs ++ delimiter b :: render c ++
        concat ((fun c => delimiter b :: render c) <$> cs) ++ [closer b])).
    { rewrite !total_app. cbn [total]. rewrite !total_app. cbn [total]. lia. }
    by rewrite Ht.
Qed.

Lemma tree_nested_ind (P : tree -> Prop) :
  (forall hs body, P (Leaf hs body)) ->
  (forall hs b cs, Forall P cs -> P (Multi hs b cs)) ->
  forall t, P t.
Proof.
  intros HL HM. fix IH 1. intros [hs body|hs b cs]; [apply HL|apply HM].
  induction cs as [|c cs IHcs]; constructor; [apply IH|exact IHcs].
Qed.

Lemma wf_children b cs : foldr (fun c P => wf b c /\ P) True cs <-> Forall (wf b) cs.
Proof.
  induction cs as [|c cs IH]; cbn; [split; [constructor|done]|]. by rewrite IH, Forall_cons.
Qed.

Lemma tree_readable raw t : forall b, b <> [] -> wf b t -> readable raw b t.
Proof.
  induction t as [hs body|hs b' cs IH] using tree_nested_ind; intros b Hne Hwf bl closing tail pre fuel Hbl Hraw Hw.
  - destruct Hwf as (Hf & Hi & Hbody). destruct fuel as [|fuel]; [cbn in Hw; lia|].
    destruct Hbody as [->|Hbody]; [done|]. cbn [render] in *. rewrite <-!app_assoc in *.
    rewrite part_at_leaf by done. unfold readUntilBoundary. rewrite bool_decide_eq_false_2 by done.
    rewrite (until_body b bl closing tail) by done.
    eexists. split; [by rewrite total_app, Z.add_assoc|].
    split_and!; [done..|]. cbn [BodyPos EndPos]. rewrite <-total_app.
    apply (leaf_slice raw (pre ++ head_lines hs) body (concat (bl :: tail)) false).
    by rewrite Hraw, !concat_app, <-!app_assoc.
  - destruct Hwf as (Hf & Hi & Hb & Hcs%wf_children). destruct fuel as [|fuel]; [cbn in Hw; lia|].
    destruct (part_at_multi raw fuel hs b' cs pre (bl :: tail) b) as (ps & Hall & Hp);
      [done|done|done| |done|exact (le_S_n _ _ Hw)|].
    + destruct Hb as [Hne' _]. eapply Forall_impl;
        [apply Forall_and; split; [exact IH|exact Hcs]|]. intros c [Hc1 Hc2]. by apply Hc1.
    + rewrite Hp. unfold readUntilBoundary. rewrite bool_decide_eq_false_2 by done.
      cbn [until_boundary]. rewrite Hbl. eexists. split; [done|].
      split_and!; [done..|]. by apply reads_all.
Qed.

(** A well-formed message is read back: given enough fuel the parser
    returns its tree, with every header map, and with offsets that cut out
    exactly the bytes of every body. *)
Theorem wellformed_read_back t fuel
    (Hwf : wf [] t) (Hlines : lines_of (concat (render t)) = render t)
    (Hfuel : (weight t <= fuel)%nat) :
  exists p, Parse ParseMediaType DecodeWords fuel (concat (render t)) = Some p /\
    reads (concat (render t)) true t p.
Proof.
  unfold Parse. rewrite Hlines. destruct t as [hs body|hs b cs];
    (destruct fuel as [|fuel]; [cbn in Hfuel; lia|]).
  - destruct Hwf as (Hf & Hi & _). cbn [render]. rewrite part_at_leaf by done.
    cbn [readUntilBoundary]. unfold readUntilBoundary. rewrite bool_decide_eq_true_2 by done.
    cbn [mbind option_bind]. eexists. split; [done|]. split_and!; [done..|].
    cbn [BodyPos EndPos]. rewrite Z.add_0_l.
    apply (leaf_slice _ (head_lines hs) body [] true). by rewrite app_nil_r, concat_app.
  - destruct Hwf as (Hf & Hi & Hb & Hcs%wf_children).
    destruct (part_at_multi (concat (render (Multi hs b cs))) fuel hs b cs [] [] [])
      as (ps & Hall & Hp); [done|done|done| |by rewrite app_nil_r|exact (le_S_n _ _ Hfuel)|].
    + destruct Hb as [Hne _]. eapply Forall_impl; [exact Hcs|]. intros c Hc. by apply tree_readable.
    + rewrite app_nil_r in Hp. cbn [total] in Hp. rewrite Hp. unfold readUntilBoundary.
      rewrite bool_decide_eq_true_2 by done. cbn [mbind option_bind]. eexists. split; [done|].
      split_and!; [done..|]. by apply reads_all.
Qed.

End theorems.

(** * Accessors and the index of parts *)

(** [Walk] with a visitor that always goes on, as [Parts] uses it. *)
Fixpoint Parts (p : Part) : list Part := p :: concat (Parts <$> Children p).

Definition BodySize (p : Part) : Z := EndPos p - BodyPos p.

Record rawMetaPart := mkMeta {
  meta_ContentType : bytes; meta_Charset : bytes; meta_TransferEncoding : bytes;
  meta_Disposition : bytes; meta_Filename : bytes;
  Start : Z; Body : Z; End : Z;
  meta_Children : list nat
}.

Definition meta_of (p : Part) (children : list nat) : rawMetaPart :=
  mkMeta (ContentType (content p)) (Charset (content p)) (TransferEncoding (content p))
    (ContentDisposition (content p)) (Filename (content p)) (StartPos p) (BodyPos p) (EndPos p) children.

(** [index.Parts[idx].Children = childIndices] *)
Definition set_children (parts : list rawMetaPart) (idx : nat) (cs : list nat) : list rawMetaPart :=
  match parts !! idx with
  | Some m => <[idx := mkMeta (meta_ContentType m) (meta_Charset m) (meta_TransferEncoding m)
                 (meta_Disposition m) (meta_Filename m) (Start m) (Body m) (End m) cs]> parts
  | None => parts
  end.

(** Appends the entries of a subtree; the result is also the subtree's index. *)
Fixpoint flattenParts (p : Part) (parts : list rawMetaPart) : nat * list rawMetaPart :=
  let idx := length parts in
  let '(childIndices, parts) :=
    foldl (fun acc child =>
      let '(childIdx, parts) := flattenParts child (snd acc) in (fst acc ++ [childIdx], parts))
      ([], parts ++ [meta_of p []]) (Children p) in
  (idx, match childIndices with [] => parts | _ => set_children parts idx childIndices end).

(** The index of a message; one opaque part when the parser fails, which it
    never does on bytes in memory. *)
Definition buildRawMeta ParseMediaType DecodeWords (fuel : nat) (raw : bytes)
    : option (list rawMetaPart * Header) :=
  root ← Parse ParseMediaType DecodeWords fuel raw;
  Some (snd (flattenParts root []), header root).

(** [parts] holds [p] at [idx], and its children where its entry says. *)
Fixpoint indexes (parts : list rawMetaPart) (idx : nat) (p : Part) {struct p} : Prop :=
  match p with
  | mkPart s b e h i kids => exists cs, parts !! idx = Some (meta_of (mkPart s b e h i kids) cs) /\
      (fix all (ps : list Part) (cs : list nat) : Prop :=
         match ps, cs with
         | [], [] => True
         | c :: ps, i :: cs => indexes parts i c /\ all ps cs
         | _, _ => False
         end) kids cs
  end.

Lemma indexes_all parts ps cs :
  (fix all (ps : list Part) (cs : list nat) : Prop :=
     match ps, cs with
     | [], [] => True
     | c :: ps, i :: cs => indexes parts i c /\ all ps cs
     | _, _ => False
     end) ps cs <-> Forall2 (indexes parts) cs ps.
Proof.
  revert cs. induction ps as [|q ps IH]; intros [|c cs]; cbn.
  - split; [constructor|done].
  - split; [done|by inversion 1].
  - split; [done|by inversion 1].
  - rewrite IH. split; [intros []; by constructor|by inversion 1].
Qed.

Lemma indexes_unfold parts idx p :
  indexes parts idx p <->
  exists cs, parts !! idx = Some (meta_of p cs) /\ Forall2 (indexes parts) cs (Children p).
Proof. destruct p. cbn [indexes Children]. by setoid_rewrite indexes_all. Qed.

Lemma flattenParts_unfold p parts :
  flattenParts p parts =
  let '(childIndices, parts') :=
    foldl (fun acc child =>
      let '(childIdx, parts) := flattenParts child (snd acc) in (fst acc ++ [childIdx], parts))
      ([], parts ++ [meta_of p []]) (Children p) in
  (length parts, match childIndices with [] => parts' | _ => set_children parts' (length parts) childIndices end).
Proof. by destruct p. Qed.

Lemma Part_nested_ind (P : Part -> Prop) :
  (forall s b e h i cs, Forall P cs -> P (mkPart s b e h i cs)) -> forall p, P p.
Proof.
  intros HP. fix IH 1. intros [s b e h i cs]. apply HP.
  induction cs as [|c cs IHcs]; constructor; [apply IH|exact IHcs].
Qed.

(** A subtree appends [es], which is right after any [pre] of that length. *)
Definition flattens (p : Part) : Prop := forall parts, exists es,
  flattenParts p parts = (length parts, parts ++ es) /\
  forall pre more, length pre = length parts -> indexes (pre ++ es ++ more) (length parts) p.

Lemma flatten_children cs : Forall flattens cs -> forall ids ps, exists ids' es,
  foldl (fun acc child =>
      let '(childIdx, parts) := flattenParts child (snd acc) in (fst acc ++ [childIdx], parts))
    (ids, ps) cs = (ids ++ ids', ps ++ es) /\
  forall pre more, length pre = length ps -> Forall2 (indexes (pre ++ es ++ more)) ids' cs.
Proof.
  induction 1 as [|c cs Hc _ IH]; intros ids ps.
  - exists [], []. cbn. rewrite !app_nil_r. split; [done|]. intros. constructor.
  - destruct (Hc ps) as (e1 & E1 & I1). destruct (IH (ids ++ [length ps]) (ps ++ e1)) as (ids' & e2 & E2 & I2).
    exists (length ps :: ids'), (e1 ++ e2). cbn [foldl fst snd]. rewrite E1. cbn [fst snd].
    rewrite E2, <-!app_assoc. split; [done|]. intros pre more Hl. constructor.
    + rewrite <-app_assoc. by apply I1.
    + rewrite <-app_assoc, (app_assoc pre e1). apply I2. rewrite !length_app. lia.
Qed.

(** Every part is in the index, where its parent's entry says, with its own
    offsets; the root is entry 0. *)
Theorem flattenParts_indexes root : indexes (snd (flattenParts root [])) 0 root.
Proof.
  assert (H : flattens root).
  { induction root as [s b e h i cs IH] using Part_nested_ind. intros parts.
    set (p := mkPart s b e h i cs). rewrite flattenParts_unfold. change (Children p) with cs.
    destruct (flatten_children cs IH [] (parts ++ [meta_of p []])) as (ids & es & -> & Hi). cbn [app].
    exists (meta_of p ids :: es). split.
    - f_equal. rewrite <-app_assoc. cbn [app]. destruct ids; [done|].
      unfold set_children. rewrite list_lookup_middle by done. by rewrite insert_app_r_alt, Nat.sub_diag by done.
    - intros pre more Hl. apply indexes_unfold. exists ids. cbn [app]. split; [by apply list_lookup_middle|].
      change (Children p) with cs.
      replace (pre ++ meta_of p ids :: es ++ more) with ((pre ++ [meta_of p ids]) ++ es ++ more)
        by by rewrite <-app_assoc.
      apply Hi. rewrite !length_app. cbn. lia. }
  destruct (H []) as (es & -> & Hi). specialize (Hi [] [] eq_refl). cbn in Hi |- *.
  by rewrite app_nil_r in Hi.
Qed.

(** * Witnesses *)

#[local] Definition media (ct : bytes) : option (bytes * (bytes -> bytes)) :=
  if bool_decide (ct = bs "multipart/mixed; boundary=sep")
  then Some (bs "multipart/mixed", fun k => if bool_decide (k = bs "boundary") then bs "sep" else [])
  else Some (ct, fun _ => []).
#[local] Definition no_words (s : bytes) : option bytes := None.

#[local] Definition mixed : list (bytes * bytes) :=
  [(bs "Subject", bs "two parts"); (bs "Content-Type", bs "multipart/mixed; boundary=sep")].
#[local] Definition letter : tree :=
  Multi mixed (bs "sep")
    [Leaf [(bs "Content-Type", bs "text/plain")] [bs "hello"; bs "--seq"]; Leaf [] []].

#[local] Definition cut_off : bytes :=
  bs "Content-Type: multipart/mixed; boundary=sep" ++ crlf ++ crlf ++ bs "--sep" ++ crlf ++ crlf ++ bs "hi".

Lemma wellformed_read_back_witness :
  exists p, Parse media no_words 6 (concat (render letter)) = Some p /\
    reads (concat (render letter)) true letter p.
Proof.
  apply wellformed_read_back.
  - cbn [wf letter foldr]. unfold body_ok, boundary_ok, field_ok.
    repeat split; try (right; repeat constructor; vm_compute; reflexivity);
    repeat constructor; try (vm_compute; reflexivity); try (apply (bool_decide_unpack _); vm_compute; exact I).
  - vm_compute. reflexivity.
  - cbn. lia.
Defined.

Lemma unclosed_multipart_never_returns_witness : Parse media no_words 1000 cut_off = None.
Proof.
  eapply unclosed_multipart_never_returns.
  - vm_compute. reflexivity.
  - vm_compute. intros [=].
  - vm_compute. reflexivity.
  - apply (bool_decide_unpack _). vm_compute. exact I.
Defined.

Lemma Parse_offsets_witness :
  let raw := concat (render letter) in
  exists p, placed 0 (Z.of_nat (length raw)) p /\ StartPos p = 0.
Proof.
  cbn zeta. exists (default (mkPart 0 0 0 [] (mkInfo [] [] [] [] [] [] []) []) (Parse media no_words 6 (concat (render letter)))).
  apply (Parse_offsets media no_words 6). vm_compute. reflexivity.
Defined.
