(* ===== verification/Domain.v ===== *)
(** Transport policies of other mail domains: MTA-STS (src/internal/domain/
    mtasts.go) and DANE records (src/internal/domain/dane.go).

Shown: the parser reads back every policy the generator writes, its
answers are well-formed and capped, a wildcard covers exactly one label;
the TLSA parser reads back what the generator writes and refuses
out-of-range fields, but a record cut after its three numbers makes it
index past the end of the fields, a run-time panic.

[strings.ToLower] is modelled on ASCII. *)

From S2P Require Import Prelude Hex GoNet FilePath GoStrings.
Local Open Scope Z_scope.

(** * MTA-STS *)

Record MTASTSPolicy := mkPolicy {
  Version : bytes;
  Mode : bytes;
  MX : list bytes;
  MaxAge : Z
}.

Definition newline : bytes := [x0a].

Definition GenerateMTASTSPolicy (mxHosts : list bytes) : bytes :=
  bs "version: STSv1" ++ newline ++ bs "mode: enforce" ++ newline ++
  concat ((fun mx => bs "mx: " ++ mx ++ newline) <$> mxHosts) ++
  bs "max_age: 604800" ++ newline.

Definition GenerateMTASTSRecord (domain : bytes) : bytes :=
  bs "_mta-sts." ++ domain ++ bs ". IN TXT " ++ [x22] ++ bs "v=STSv1; id=20260307" ++ [x22].

(** One line of the scan; [None] is the error return. *)
Definition parse_line (p : MTASTSPolicy) (line : bytes) : option MTASTSPolicy :=
  let line := TrimSpace line in
  match IndexByte ":" line with
  | None => Some p
  | Some i =>
      let key := TrimSpace (firstn i line) in
      let val := TrimSpace (skipn (S i) line) in
      if bool_decide (key = bs "version") then Some (mkPolicy val (Mode p) (MX p) (MaxAge p))
      else if bool_decide (key = bs "mode") then Some (mkPolicy (Version p) val (MX p) (MaxAge p))
      else if bool_decide (key = bs "mx") then
        Some (mkPolicy (Version p) (Mode p) (MX p ++ [val]) (MaxAge p))
      else if bool_decide (key = bs "max_age") then
        match Atoi val with
        | None => None
        | Some n => Some (mkPolicy (Version p) (Mode p) (MX p) n)
        end
      else Some p
  end.

Definition parse_lines (p : MTASTSPolicy) (ls : list bytes) : option MTASTSPolicy :=
  foldl (fun p l => p ← p; parse_line p l) (Some p) ls.

Definition maxAllowedAge : Z := 7 * 24 * 3600.

Definition ParseMTASTSPolicy (body : bytes) : option MTASTSPolicy :=
  p ← parse_lines (mkPolicy [] [] [] 0) (scan_lines body);
  if negb (bool_decide (Version p = bs "STSv1")) then None
  else if negb (bool_decide (Mode p = bs "enforce") || bool_decide (Mode p = bs "testing") ||
                bool_decide (Mode p = bs "none")) then None
  else Some (mkPolicy (Version p) (Mode p) (MX p)
               (if maxAllowedAge <? MaxAge p then maxAllowedAge else MaxAge p)).

(** One pattern of the policy against a normalised host. *)
Definition matches_pattern (host pattern : bytes) : bool :=
  let pattern := ToLower (TrimSpace pattern) in
  bool_decide (pattern = host) ||
  (HasPrefix pattern (bs "*.") &&
   let suffix := skipn 1 pattern in
   HasSuffix host suffix &&
   negb (bool_decide ("."%byte ∈ take (length host - length suffix) host))).

Definition MatchesMX (p : MTASTSPolicy) (host : bytes) : bool :=
  let host := ToLower (TrimSuffix host (bs ".")) in
  existsb (matches_pattern host) (MX p).

(** * DANE *)

Section dane.
Context (sha256 : bytes -> bytes).

Definition GenerateTLSARecord (domain spkiDER : bytes) : bytes :=
  bs "_25._tcp.mx." ++ domain ++ bs ". IN TLSA 3 1 1 " ++ hex_bytes (sha256 spkiDER).

Definition GenerateHTTPSTLSARecord (domain spkiDER : bytes) : bytes :=
  bs "_443._tcp.api." ++ domain ++ bs ". IN TLSA 3 1 1 " ++ hex_bytes (sha256 spkiDER).
End dane.

(** What [ParseTLSARecord] does: return, fail, or index out of range. *)
Inductive tlsa_result :=
| Parsed (usage selector matchType : Z) (hash : bytes)
| Refused
| Panicked.

(** [strings.EqualFold(p, "TLSA")]; U+017F folds to S. *)
Definition is_TLSA (p : bytes) : bool :=
  let l := ToLower p in
  bool_decide (l = bs "tlsa") || bool_decide (l = bs "tl" ++ [xc5; xbf] ++ bs "a").

Definition in_range (lo hi n : Z) : bool := (lo <=? n) && (n <=? hi).

Definition ParseTLSARecord (record : bytes) : tlsa_result :=
  let parts := Fields record in
  match find_index is_TLSA parts with
  | None => Refused
  | Some i =>
      if (length parts <? i + 4)%nat then Refused
      else
        let field k := Atoi (default [] (parts !! (i + k)%nat)) in
        match field 1%nat with None => Refused | Some usage =>
        match field 2%nat with None => Refused | Some selector =>
        match field 3%nat with None => Refused | Some matchType =>
        if negb (in_range 0 3 usage) then Refused
        else if negb (in_range 0 1 selector) then Refused
        else if negb (in_range 0 2 matchType) then Refused
        else match parts !! (i + 4)%nat with
             | None => Panicked
             | Some h => match hex_parse h with
                         | None => Refused
                         | Some hash => Parsed usage selector matchType hash
                         end
             end
        end end end
  end.

Example truncated_record :
  ParseTLSARecord (bs "_25._tcp.mx.a.b. IN TLSA 3 1 1") = Panicked.
Proof. vm_compute. reflexivity. Qed.

Example policy_example :
  ParseMTASTSPolicy (GenerateMTASTSPolicy [bs "mx.a.b"]) =
    Some (mkPolicy (bs "STSv1") (bs "enforce") [bs "mx.a.b"] 604800).
Proof. vm_compute. reflexivity. Qed.

(** * Lemmas *)

(** ** White space *)

Definition graphic_byte (b : byte) : bool := byte_between "!" "~" b.

Definition graphic (s : bytes) : Prop := Forall (fun b => graphic_byte b = true) s.

#[export] Instance graphic_dec s : Decision (graphic s).
Proof. unfold graphic. apply _. Defined.

(** No white-space rune starts, or ends, with a graphic byte. *)
Lemma graphic_no_space b s :
  graphic_byte b = true ->
  find_index (HasPrefix (b :: s)) space_runes = None /\
  find_index (HasPrefix (b :: s)) (map (@rev byte) space_runes) = None.
Proof.
  intros Hb. split; apply find_index_None.
  - assert (Forall (fun r => match r with [] => False | c :: _ => graphic_byte c = false end)
      space_runes) as H by (repeat constructor).
    rewrite Forall_forall in H. intros [|c r] Hr; [by apply H in Hr|].
    apply H in Hr. cbn. destruct (byte_eqb b c) eqn:E; [|done].
    apply byte_eqb_eq in E. congruence.
  - assert (Forall (fun r => match r with [] => False | c :: _ => graphic_byte c = false end)
      (map (@rev byte) space_runes)) as H by (repeat constructor).
    rewrite Forall_forall in H. intros [|c r] Hr; [by apply H in Hr|].
    apply H in Hr. cbn. destruct (byte_eqb b c) eqn:E; [|done].
    apply byte_eqb_eq in E. congruence.
Qed.

Lemma trim_left_graphic fuel b s :
  graphic_byte b = true ->
  trim_left fuel space_runes (b :: s) = b :: s /\
  trim_left fuel (map (@rev byte) space_runes) (b :: s) = b :: s.
Proof.
  intros Hb. destruct (graphic_no_space b s Hb) as [H1 H2].
  destruct fuel; [done|]. cbn [trim_left]. by rewrite H1, H2.
Qed.

(** Text that starts and ends with a graphic byte is already trimmed. *)
Lemma TrimSpace_ends a m b :
  graphic_byte a = true -> graphic_byte b = true ->
  TrimSpace (a :: m ++ [b]) = a :: m ++ [b].
Proof.
  intros Ha Hb. unfold TrimSpace.
  destruct (trim_left_graphic (length (a :: m ++ [b])) a (m ++ [b]) Ha) as [-> _].
  assert (rev (a :: m ++ [b]) = b :: rev m ++ [a]) as ->
    by (cbn; by rewrite rev_app_distr).
  destruct (trim_left_graphic (length (a :: m ++ [b])) b (rev m ++ [a]) Hb) as [_ ->].
  cbn. by rewrite rev_app_distr, rev_involutive.
Qed.

Lemma TrimSpace_graphic s : graphic s -> TrimSpace s = s.
Proof.
  intros Hs. destruct s as [|a s]; [done|].
  apply Forall_cons in Hs as [Ha Hs].
  destruct s as [|b m _] using rev_ind.
  - unfold TrimSpace. cbn [length]. destruct (trim_left_graphic 1 a [] Ha) as [E1 E2].
    rewrite E1. cbn [length rev app]. by rewrite E2.
  - apply Forall_app in Hs as [_ Hb]. apply TrimSpace_ends; [done|].
    by apply Forall_inv in Hb.
Qed.

Lemma TrimSpace_blank s : graphic s -> s <> [] -> TrimSpace (x20 :: s) = s.
Proof.
  intros Hs Hne. transitivity (TrimSpace s); [|by apply TrimSpace_graphic].
  destruct s as [|a s]; [done|]. apply Forall_cons in Hs as [Ha Hs].
  unfold TrimSpace.
  assert (trim_left (length (x20 :: a :: s)) space_runes (x20 :: a :: s) = a :: s) as ->.
  { cbn [length]. change (trim_left (S (S (length s))) space_runes (x20 :: a :: s))
      with (trim_left (S (length s)) space_runes (a :: s)).
    by destruct (trim_left_graphic (S (length s)) a s Ha). }
  by destruct (trim_left_graphic (length (a :: s)) a s Ha) as [-> _].
Qed.

(** [Fields] of graphic words separated by single spaces. *)
Definition spaced (ws : list bytes) : bytes :=
  match ws with [] => [] | w :: ws => w ++ concat ((fun w => x20 :: w) <$> ws) end.

Lemma fields_word fuel word w s :
  graphic w -> (length (w ++ s) <= fuel)%nat ->
  fields fuel word (w ++ s) = fields (fuel - length w) (rev w ++ word) s.
Proof.
  intros Hw. revert fuel word. induction Hw as [|b w Hb _ IH]; intros fuel word Hf.
  - by rewrite Nat.sub_0_r.
  - destruct fuel as [|fuel]; [cbn in Hf; lia|].
    change ((b :: w) ++ s) with (b :: (w ++ s)). cbn [fields].
    destruct (graphic_no_space b (w ++ s) Hb) as [-> _].
    rewrite IH by (cbn in Hf; lia). cbn. by rewrite <-app_assoc.
Qed.

Lemma fields_space fuel word s :
  (0 < fuel)%nat -> word <> [] ->
  fields fuel word (x20 :: s) = rev word :: fields (fuel - 1) [] s.
Proof.
  intros Hf Hw. destruct fuel as [|fuel]; [lia|]. cbn [fields].
  replace (find_index (HasPrefix (x20 :: s)) space_runes) with (Some 5%nat) by by destruct s.
  destruct word as [|c word]; [done|]. cbn [lookup list_lookup space_runes default length skipn].
  by rewrite Nat.sub_succ, Nat.sub_0_r.
Qed.

Lemma Fields_spaced ws :
  Forall (fun w => graphic w /\ w <> []) ws -> Fields (spaced ws) = ws.
Proof.
  assert (forall ws w word fuel, Forall (fun w => graphic w /\ w <> []) ws ->
    graphic w -> rev w ++ word <> [] ->
    (length (w ++ concat ((fun w => x20 :: w) <$> ws)) <= fuel)%nat ->
    fields fuel word (w ++ concat ((fun w => x20 :: w) <$> ws)) = rev (rev w ++ word) :: ws) as Hgen.
  { clear. induction ws as [|w' ws IH]; intros w word fuel Hws Hw Hne Hf.
    - cbn [fmap list_fmap concat] in *. rewrite fields_word by done.
      destruct (fuel - length w)%nat; cbn; by destruct (rev w ++ word).
    - rewrite fields_word by done. apply Forall_cons in Hws as [[Hw' Hne'] Hws].
      cbn [fmap list_fmap concat] in *. rewrite length_app in Hf. cbn [length app] in Hf.
      cbn [app]. rewrite fields_space by (done || lia). f_equal.
      rewrite IH; [|done|done| |].
      + rewrite app_nil_r, rev_involutive. done.
      + rewrite app_nil_r. intros E. apply Hne'. rewrite <-(rev_involutive w'). by rewrite E.
      + lia. }
  intros Hws. destruct ws as [|w ws]; [done|]. apply Forall_cons in Hws as [[Hw Hne] Hws].
  unfold Fields. cbn [spaced]. rewrite Hgen; try done.
  - by rewrite app_nil_r, rev_involutive.
  - rewrite app_nil_r. intros E. apply Hne. rewrite <-(rev_involutive w). by rewrite E.
Qed.

(** ** Parsing what the generator writes *)

Definition host_ok (mx : bytes) : Prop :=
  graphic mx /\ mx <> [] /\ Z.of_nat (length mx) < 65000.

Lemma graphic_no_byte s c : graphic s -> graphic_byte c = false -> c ∉ s.
Proof.
  unfold graphic. rewrite Forall_forall. intros Hs Hc Hin. apply Hs in Hin. congruence.
Qed.

Lemma drop_cr_graphic s b : graphic_byte b = true -> drop_cr (s ++ [b]) = s ++ [b].
Proof. intros Hb. unfold drop_cr. rewrite last_snoc. by destruct b. Qed.

Lemma graphic_snoc s : graphic s -> s <> [] -> exists m b, s = m ++ [b] /\ graphic_byte b = true.
Proof.
  intros Hs Hne. destruct s as [|b m _] using rev_ind; [done|].
  exists m, b. split; [done|]. apply Forall_app in Hs as [_ Hb]. by apply Forall_inv in Hb.
Qed.

(** The line of one host. *)
Lemma parse_mx_line p mx :
  host_ok mx ->
  parse_line p (bs "mx: " ++ mx) = Some (mkPolicy (Version p) (Mode p) (MX p ++ [mx]) (MaxAge p)).
Proof.
  intros (Hg & Hne & _). destruct (graphic_snoc mx Hg Hne) as (m & b & -> & Hb).
  unfold parse_line.
  change (bs "mx: " ++ m ++ [b]) with ("m"%byte :: (bs "x: " ++ m ++ [b])).
  rewrite (app_assoc (bs "x: ")), TrimSpace_ends by done. rewrite <-app_assoc.
  change (IndexByte ":" ("m"%byte :: bs "x: " ++ m ++ [b])) with (Some 2%nat). cbv beta iota.
  change (skipn 3 ("m"%byte :: bs "x: " ++ m ++ [b])) with (x20 :: m ++ [b]).
  rewrite TrimSpace_blank by done.
  change (TrimSpace (firstn 2 ("m"%byte :: bs "x: " ++ m ++ [b]))) with (bs "mx").
  done.
Qed.

Lemma parse_lines_app p l1 l2 :
  parse_lines p (l1 ++ l2) = (p' ← parse_lines p l1; parse_lines p' l2).
Proof.
  unfold parse_lines. rewrite foldl_app.
  destruct (foldl _ (Some p) l1); [done|]. cbn.
  induction l2 as [|l l2 IH]; [done|]. exact IH.
Qed.

Lemma parse_mx_lines p mxs :
  Forall host_ok mxs ->
  parse_lines p ((fun mx => bs "mx: " ++ mx) <$> mxs) =
    Some (mkPolicy (Version p) (Mode p) (MX p ++ mxs) (MaxAge p)).
Proof.
  intros H. revert p. induction H as [|mx mxs Hmx _ IH]; intros p.
  - rewrite app_nil_r. by destruct p.
  - rewrite fmap_cons.
    change ((bs "mx: " ++ mx) :: ((fun mx => bs "mx: " ++ mx) <$> mxs))
      with ([bs "mx: " ++ mx] ++ ((fun mx => bs "mx: " ++ mx) <$> mxs)).
    rewrite parse_lines_app.
    change (parse_lines p [bs "mx: " ++ mx]) with (parse_line p (bs "mx: " ++ mx)).
    rewrite parse_mx_line by done. cbn [mbind option_bind]. rewrite IH.
    cbn [Version Mode MX MaxAge]. by rewrite <-app_assoc.
Qed.

Definition policy_lines (mxs : list bytes) : list bytes :=
  [bs "version: STSv1"; bs "mode: enforce"] ++ ((fun mx => bs "mx: " ++ mx) <$> mxs) ++
  [bs "max_age: 604800"].

Lemma split_lines (ls : list bytes) :
  Forall (fun l => (x0a ∉ l)) ls ->
  split_byte x0a (concat ((fun l => l ++ newline) <$> ls)) = ls ++ [[]].
Proof.
  induction 1 as [|l ls Hl _ IH]; [done|]. cbn [fmap list_fmap concat].
  unfold newline at 1. rewrite <-app_assoc. cbn [app].
  by rewrite split_byte_app_sep, IH, (split_byte_none x0a l Hl).
Qed.

Lemma policy_lines_ok mxs :
  Forall host_ok mxs ->
  Forall (fun l => (x0a ∉ l) /\ drop_cr l = l /\ Z.of_nat (length l) < 65536) (policy_lines mxs).
Proof.
  intros H. unfold policy_lines. repeat (apply Forall_app; split).
  - repeat constructor; apply (bool_decide_eq_true_1 _); vm_compute; reflexivity.
  - apply Forall_fmap. eapply Forall_impl; [done|]. intros mx (Hg & Hne & Hl).
    split_and!.
    + rewrite not_elem_of_app. split; [apply (bool_decide_eq_true_1 _); by vm_compute|].
      by apply graphic_no_byte.
    + destruct (graphic_snoc mx Hg Hne) as (m & b & -> & Hb).
      rewrite app_assoc. by apply drop_cr_graphic.
    + rewrite length_app. change (length (bs "mx: ")) with 4%nat. lia.
  - repeat constructor; apply (bool_decide_eq_true_1 _); vm_compute; reflexivity.
Qed.

Lemma scan_lines_spec ls :
  Forall (fun l => (x0a ∉ l) /\ drop_cr l = l /\ Z.of_nat (length l) < 65536) ls ->
  scan_lines (concat ((fun l => l ++ newline) <$> ls)) = ls.
Proof.
  intros H. unfold scan_lines, scan_lines_max. rewrite split_lines.
  - rewrite last_snoc, length_app, Nat.add_sub, take_app_length.
    induction H as [|l ls (_ & Hd & Hl) _ IH]; [done|]. cbn [scan_until].
    apply Z.ltb_lt in Hl. by rewrite Hl, Hd, IH.
  - eapply Forall_impl; [done|]. by intros l (? & _).
Qed.

Lemma generated_lines mxs :
  GenerateMTASTSPolicy mxs = concat ((fun l => l ++ newline) <$> policy_lines mxs).
Proof.
  unfold GenerateMTASTSPolicy, policy_lines.
  rewrite !fmap_app, !concat_app, <-list_fmap_compose.
  replace ((fun mx => bs "mx: " ++ mx ++ newline) <$> mxs)
    with ((fun l => l ++ newline) ∘ (fun mx => bs "mx: " ++ mx) <$> mxs).
  - cbn [fmap list_fmap concat]. by rewrite !app_nil_r, <-!app_assoc.
  - apply list_fmap_ext. intros i x _. unfold compose. by rewrite <-app_assoc.
Qed.

(** The policy served for a domain is read back by the parser as
    written: enforcing, with exactly its hosts, valid for a week. *)
Theorem mtasts_roundtrip mxs :
  Forall host_ok mxs ->
  ParseMTASTSPolicy (GenerateMTASTSPolicy mxs) =
    Some (mkPolicy (bs "STSv1") (bs "enforce") mxs 604800).
Proof.
  intros H. unfold ParseMTASTSPolicy. rewrite generated_lines.
  rewrite scan_lines_spec by by apply policy_lines_ok.
  unfold policy_lines. rewrite parse_lines_app.
  replace (parse_lines (mkPolicy [] [] [] 0) [bs "version: STSv1"; bs "mode: enforce"])
    with (Some (mkPolicy (bs "STSv1") (bs "enforce") [] 0)) by by vm_compute.
  unfold mbind at 2, option_bind at 2. rewrite parse_lines_app, parse_mx_lines by done.
  reflexivity.
Qed.

(** What the parser returns is well-formed: the known version, a known mode,
    an age of at most a week. *)
Theorem ParseMTASTSPolicy_wf body p :
  ParseMTASTSPolicy body = Some p ->
  Version p = bs "STSv1" /\
  (Mode p = bs "enforce" \/ Mode p = bs "testing" \/ Mode p = bs "none") /\
  MaxAge p <= 604800.
Proof.
  unfold ParseMTASTSPolicy. destruct (parse_lines _ _) as [q|]; [|done]. cbn [mbind option_bind].
  destruct (bool_decide (Version q = bs "STSv1")) eqn:Ev; [|done]. cbn [negb].
  destruct (negb _) eqn:Em; [done|]. intros [= <-]. cbn [Version Mode MaxAge].
  apply bool_decide_eq_true in Ev. apply negb_false_iff, orb_true_iff in Em.
  split_and!; [done| |].
  - destruct Em as [[Em|Em]%orb_true_iff|Em]; apply bool_decide_eq_true in Em; auto.
  - unfold maxAllowedAge. destruct (_ <? _) eqn:E; bool_prop; lia.
Qed.

(** An accepted host is listed, or is one label before a listed wildcard. *)
Theorem MatchesMX_sound p host :
  MatchesMX p host = true ->
  let h := ToLower (TrimSuffix host (bs ".")) in
  exists pattern, pattern ∈ MX p /\
    (ToLower (TrimSpace pattern) = h \/
     exists label suffix, h = label ++ "."%byte :: suffix /\ ("."%byte ∉ label) /\
       ToLower (TrimSpace pattern) = "*"%byte :: "."%byte :: suffix).
Proof.
  cbv zeta. unfold MatchesMX. set (h := ToLower (TrimSuffix host (bs "."))).
  intros (pattern & Hp & Hm)%existsb_elem. exists pattern. split; [done|].
  unfold matches_pattern in Hm. apply orb_true_iff in Hm as [Hm|Hm].
  - left. by apply bool_decide_eq_true in Hm.
  - right. apply andb_true_iff in Hm as [Hw Hm]. apply HasPrefix_spec in Hw as [suffix Es].
    rewrite Es in Hm |- *. apply andb_true_iff in Hm as [Hs Hd].
    change (skipn 1 (bs "*." ++ suffix)) with ("."%byte :: suffix) in Hs, Hd.
    apply HasSuffix_spec in Hs as [label El]. exists label, suffix.
    split_and!; [done| |done]. apply negb_true_iff, bool_decide_eq_false in Hd.
    rewrite El, length_app, Nat.add_sub, take_app_length in Hd. done.
Qed.

(** ** DANE *)

Lemma hex_bytes_graphic b : graphic (hex_bytes b).
Proof.
  unfold graphic. eapply Forall_impl; [apply hex_bytes_digits|]. intros c Hc.
  assert (Forall (fun c => graphic_byte c = true) hex_digits) as H by repeat constructor.
  rewrite Forall_forall in H. by apply H.
Qed.

(** The TLSA record published for a certificate is parsed back to usage
    3, selector 1, matching type 1 and the SHA-256 of its public key. *)
Theorem tlsa_roundtrip sha256 domain spki :
  graphic domain -> sha256 spki <> [] ->
  ParseTLSARecord (GenerateTLSARecord sha256 domain spki) = Parsed 3 1 1 (sha256 spki).
Proof.
  intros Hd Hs.
  assert (GenerateTLSARecord sha256 domain spki =
    spaced [bs "_25._tcp.mx." ++ domain ++ bs "."; bs "IN"; bs "TLSA"; bs "3"; bs "1"; bs "1";
            hex_bytes (sha256 spki)]) as ->.
  { unfold GenerateTLSARecord, spaced. cbn [fmap list_fmap concat].
    rewrite app_nil_r, <-!app_assoc. reflexivity. }
  unfold ParseTLSARecord. rewrite Fields_spaced.
  - replace (find_index is_TLSA _) with (Some 2%nat) by reflexivity.
    cbn [length lookup list_lookup Nat.add default]. rewrite hex_parse_bytes. reflexivity.
  - assert (graphic (bs "_25._tcp.mx.") /\ graphic (bs ".")) as [G1 G2]
      by (split; apply (bool_decide_eq_true_1 _); vm_compute; reflexivity).
    constructor.
    { split; [|by destruct domain]. unfold graphic in *. by rewrite !Forall_app. }
    do 5 (constructor; [split; [apply (bool_decide_eq_true_1 _); vm_compute; reflexivity|done]|]).
    constructor; [|constructor]. split; [apply hex_bytes_graphic|].
    intros E. apply (f_equal length) in E. rewrite length_hex_bytes in E.
    destruct (sha256 spki); cbn in E; [done|lia].
Qed.

(** [ParseTLSARecord] panics exactly on the records whose fields end right
    after "TLSA" and three numbers in range: the length check allows one field
    fewer than the function reads. *)
Theorem ParseTLSARecord_panics_iff record :
  ParseTLSARecord record = Panicked <->
  exists pre kw u s m usage selector matchType,
    Fields record = pre ++ [kw; u; s; m] /\ is_TLSA kw = true /\
    Forall (fun f => is_TLSA f = false) pre /\
    Atoi u = Some usage /\ Atoi s = Some selector /\ Atoi m = Some matchType /\
    0 <= usage <= 3 /\ 0 <= selector <= 1 /\ 0 <= matchType <= 2.
Proof.
  unfold ParseTLSARecord. set (parts := Fields record). split.
  - destruct (find_index is_TLSA parts) as [i|] eqn:Ei; [|done].
    apply find_index_Some in Ei as (kw & Hkw & Ht & Hpre).
    destruct (length parts <? i + 4)%nat eqn:El; [done|]. bool_prop.
    destruct (Atoi (default [] (parts !! (i + 1)%nat))) as [usage|] eqn:E1; [|done].
    destruct (Atoi (default [] (parts !! (i + 2)%nat))) as [selector|] eqn:E2; [|done].
    destruct (Atoi (default [] (parts !! (i + 3)%nat))) as [matchType|] eqn:E3; [|done].
    destruct (in_range 0 3 usage) eqn:R1; [|done].
    destruct (in_range 0 1 selector) eqn:R2; [|done].
    destruct (in_range 0 2 matchType) eqn:R3; [|done]. cbn [negb].
    destruct (parts !! (i + 4)%nat) as [h|] eqn:Eh; [by destruct (hex_parse h)|]. intros _.
    apply lookup_ge_None in Eh.
    assert (exists u s m, drop i parts = [kw; u; s; m]) as (u & s & m & Ed).
    { pose proof (drop_S parts kw i Hkw) as Ed. rewrite Ed.
      assert (length (drop (S i) parts) = 3)%nat as Hl by (rewrite length_drop; lia).
      destruct (drop (S i) parts) as [|u [|s [|m [|]]]]; try done. by exists u, s, m. }
    exists (take i parts), kw, u, s, m, usage, selector, matchType.
    assert (parts = take i parts ++ [kw; u; s; m]) as Hsplit by by rewrite <-Ed, take_drop.
    assert (length (take i parts) = i) as Hi by (rewrite length_take; lia).
    assert (forall k, parts !! (i + k)%nat = [kw; u; s; m] !! k) as Hk.
    { intros k. rewrite Hsplit, lookup_app_r by lia. f_equal. lia. }
    rewrite Hk in E1, E2, E3. cbn in E1, E2, E3. unfold in_range in *. bool_prop.
    split_and!; try done; try lia.
    apply Forall_forall. intros f Hf. apply list_elem_of_lookup in Hf as [j Hj].
    apply lookup_take_Some in Hj as [Hj Hlt]. by apply (Hpre j f).
  - intros (pre & kw & u & s & m & usage & selector & matchType & -> & Ht & Hpre & H1 & H2 & H3 &
      R1 & R2 & R3).
    assert (find_index is_TLSA (pre ++ [kw; u; s; m]) = Some (length pre)) as ->.
    { clear -Ht Hpre. induction Hpre as [|f pre Hf _ IH]; cbn; [by rewrite Ht|by rewrite Hf, IH]. }
    rewrite length_app. cbn [length].
    replace (length pre + 4 <? length pre + 4)%nat with false by by rewrite Nat.ltb_irrefl.
    cbv zeta beta. rewrite !lookup_app_r by lia. rewrite !Nat.add_sub'. cbn [lookup list_lookup default id].
    rewrite H1, H2, H3. unfold in_range.
    by rewrite !(proj2 (Z.leb_le _ _)) by lia.
Qed.

(** * The properties at concrete inputs *)

Lemma mtasts_roundtrip_witness :
  ParseMTASTSPolicy (GenerateMTASTSPolicy [bs "mx1.bmail.ag"; bs "*.bmail.ag"]) =
    Some (mkPolicy (bs "STSv1") (bs "enforce") [bs "mx1.bmail.ag"; bs "*.bmail.ag"] 604800).
Proof.
  apply mtasts_roundtrip.
  repeat (constructor; [split_and!; [apply (bool_decide_eq_true_1 _); vm_compute; reflexivity
    |done|done]|]). constructor.
Defined.

Lemma tlsa_roundtrip_witness :
  ParseTLSARecord (GenerateTLSARecord (fun b => b) (bs "bmail.ag") [x01; xab]) =
    Parsed 3 1 1 [x01; xab].
Proof.
  apply (tlsa_roundtrip (fun b => b)); [|done].
  apply (bool_decide_eq_true_1 _). vm_compute. reflexivity.
Defined.
