(* ===== verification/DomainDns.v ===== *)
(** internal/domain/dns.go and verify.go: the DNS records a domain is told to
    publish, and the check that it did.  Shown: a zone that holds the records
    verifies; and what the receiving side of this repository makes of such a
    zone: mail from the configured outbound address passes SPF and DMARC,
    mail from elsewhere is rejected. *)

From S2P Require Import Prelude GoNet GoStrings FilePath Domain AuthChecks.

#[local] Open Scope Z_scope.

Record DNSRecord := { rr_Type : string; rr_Name : bytes; rr_Value : bytes; rr_Priority : string }.

#[export] Instance DNSRecord_eq_dec : EqDecision DNSRecord.
Proof. solve_decision. Defined.

(** [spfRecord]; [ip] is the environment's OUTBOUND_IP. *)
Definition spfRecord (ip : bytes) : bytes :=
  if bool_decide (ip = []) then bs "v=spf1 mx -all" else bs "v=spf1 mx ip4:" ++ ip ++ bs " -all".

Definition dmarc_value (policy : string) (domain : bytes) : bytes :=
  bs "v=DMARC1; p=" ++ bs policy ++ bs "; rua=mailto:dmarc@" ++ domain.

Definition txt (name value : bytes) : DNSRecord :=
  {| rr_Type := "TXT"; rr_Name := name; rr_Value := value; rr_Priority := "" |}.

Definition GenerateDNSRecords (ip domain dkimPubKey dkimSelector mxHost : bytes) : list DNSRecord :=
  [{| rr_Type := "MX"; rr_Name := domain; rr_Value := mxHost; rr_Priority := "10" |};
   txt domain (spfRecord ip);
   txt (dkimSelector ++ bs "._domainkey." ++ domain) (bs "v=DKIM1; k=ed25519; p=" ++ dkimPubKey);
   txt (bs "_dmarc." ++ domain) (dmarc_value "reject" domain);
   txt (bs "_mta-sts." ++ domain) (bs "v=STSv1; id=20260101")].

Definition GenerateDNSRecordsPool (domain poolSelector poolZone mxHost spfInclude : bytes) :
    list DNSRecord :=
  [{| rr_Type := "MX"; rr_Name := domain; rr_Value := mxHost; rr_Priority := "10" |};
   txt domain (bs "v=spf1 include:" ++ spfInclude ++ bs " -all");
   {| rr_Type := "CNAME"; rr_Name := poolSelector ++ bs "._domainkey." ++ domain;
      rr_Value := poolSelector ++ bs "._domainkey." ++ poolZone; rr_Priority := "" |};
   txt (bs "_dmarc." ++ domain) (dmarc_value "none" domain)].

(** * verify.go *)

Inductive verify_error :=
| MXLookup | NoMX | SPFLookup | NoSPF | NoDKIMBase | DKIMWithoutVersion
| DMARCLookup | NoDMARC | MTASTSLookup | NoMTASTS.

Record VerificationResult := {
  v_MX : bool; v_SPF : bool; v_DKIM : bool; v_DMARC : bool; v_MTASTS : bool; v_Ownership : bool;
  v_Errors : list verify_error
}.

Section verify.
(** The resolver; [None] is an error, NXDOMAIN included. *)
Context (LookupMX LookupTXT : bytes -> option (list bytes)).

(** A TXT check: whether it passed, and the error it adds. *)
Definition check_txt (name : bytes) (test : bytes -> bool) (failed missing : verify_error) :
    bool * list verify_error :=
  match LookupTXT name with
  | None => (false, [failed])
  | Some txts => if existsb test txts then (true, []) else (false, [missing])
  end.

Definition VerifyDNS (domain : bytes) : VerificationResult :=
  let '(mx, e1) := match LookupMX domain with
                   | None => (false, [MXLookup])
                   | Some [] => (false, [NoMX])
                   | Some _ => (true, [])
                   end in
  let '(spf, e2) := check_txt domain (fun t => HasPrefix t (bs "v=spf1")) SPFLookup NoSPF in
  let '(dkim, e3) := check_txt (bs "_domainkey." ++ domain) (fun t => contains t (bs "v=DKIM1"))
                       NoDKIMBase DKIMWithoutVersion in
  let '(dmarc, e4) := check_txt (bs "_dmarc." ++ domain) (fun t => HasPrefix t (bs "v=DMARC1"))
                        DMARCLookup NoDMARC in
  let '(sts, e5) := check_txt (bs "_mta-sts." ++ domain) (fun t => HasPrefix t (bs "v=STSv1"))
                      MTASTSLookup NoMTASTS in
  {| v_MX := mx; v_SPF := spf; v_DKIM := dkim; v_DMARC := dmarc; v_MTASTS := sts;
     v_Ownership := false; v_Errors := e1 ++ e2 ++ e3 ++ e4 ++ e5 |}.

Definition VerifyOwnershipTXT (domain expectedToken : bytes) : bool :=
  existsb (fun t => bool_decide (TrimSpace t = bs "bmail-verify=" ++ expectedToken))
    (default [] (LookupTXT (bs "_bmail-verify." ++ domain))).

(** [None]: the lookup failed. *)
Definition VerifyDKIMSelector (domain selector : bytes) : option bool :=
  txts ← LookupTXT (selector ++ bs "._domainkey." ++ domain);
  Some (existsb (fun t => contains t (bs "v=DKIM1")) txts).

(** The zone answers with exactly the records of a list. *)
Definition values_at (ty : string) (name : bytes) (rs : list DNSRecord) : list bytes :=
  rr_Value <$> filter (fun r => rr_Type r = ty /\ rr_Name r = name) rs.

Definition zone_holds (rs : list DNSRecord) : Prop :=
  (forall name, LookupTXT name =
     match values_at "TXT" name rs with [] => None | vs => Some vs end) /\
  (forall name, LookupMX name =
     match values_at "MX" name rs with [] => None | vs => Some vs end).

End verify.

Lemma contains_prefix p s : contains (p ++ s) p = true.
Proof.
  unfold contains. apply bool_decide_eq_true. pose proof (HasPrefix_app s p) as Hp.
  destruct (p ++ s) as [|x r]; cbn [Index]; rewrite Hp; by eexists.
Qed.

(** ** A zone that holds the records verifies *)

(** The record names differ in length. *)
#[local] Ltac rr_apart :=
  let Ht := fresh in let Hn := fresh in
  intros [Ht Hn]; cbn [txt rr_Type rr_Name] in Ht, Hn;
  first [ discriminate Ht
        | apply (f_equal length) in Hn; rewrite !length_app in Hn; cbn in Hn; lia ].

#[local] Ltac rr_values :=
  unfold values_at, GenerateDNSRecords, txt;
  repeat first
    [ rewrite filter_cons_True by (split; reflexivity)
    | rewrite filter_cons_False by rr_apart ];
  reflexivity.

Lemma generated_values ip domain pub sel mx :
  let rs := GenerateDNSRecords ip domain pub sel mx in
  values_at "MX" domain rs = [mx] /\ values_at "TXT" domain rs = [spfRecord ip] /\
  values_at "TXT" (bs "_dmarc." ++ domain) rs = [dmarc_value "reject" domain] /\
  values_at "TXT" (bs "_mta-sts." ++ domain) rs = [bs "v=STSv1; id=20260101"] /\
  values_at "TXT" (sel ++ bs "._domainkey." ++ domain) rs = [bs "v=DKIM1; k=ed25519; p=" ++ pub] /\
  values_at "TXT" (bs "_domainkey." ++ domain) rs = [].
Proof. cbv zeta. split_and!; rr_values. Qed.

Lemma check_txt_one LookupTXT name test failed missing v :
  LookupTXT name = Some [v] -> test v = true ->
  check_txt LookupTXT name test failed missing = (true, []).
Proof. intros Hl Ht. unfold check_txt. rewrite Hl. cbn. by rewrite Ht. Qed.

Lemma spfRecord_prefix ip : HasPrefix (spfRecord ip) (bs "v=spf1") = true.
Proof. unfold spfRecord. by case_bool_decide. Qed.

(** What [VerifyDNS] says of a zone with exactly the generated records: all
    present but the base DKIM record, which is not among them; the selector's
    record is found by its name. *)
Theorem generated_zone_verifies LookupMX LookupTXT ip domain pub sel mx :
  zone_holds LookupMX LookupTXT (GenerateDNSRecords ip domain pub sel mx) ->
  VerifyDNS LookupMX LookupTXT domain =
    {| v_MX := true; v_SPF := true; v_DKIM := false; v_DMARC := true; v_MTASTS := true;
       v_Ownership := false; v_Errors := [NoDKIMBase] |} /\
  VerifyDKIMSelector LookupTXT domain sel = Some true.
Proof.
  intros [Ht Hm]. destruct (generated_values ip domain pub sel mx) as (E1 & E2 & E3 & E4 & E5 & E6).
  split.
  - unfold VerifyDNS. rewrite Hm, E1.
    rewrite (check_txt_one _ domain _ _ _ (spfRecord ip)) by (rewrite ?Ht, ?E2; apply spfRecord_prefix || done).
    rewrite (check_txt_one _ (bs "_dmarc." ++ domain) _ _ _ (dmarc_value "reject" domain))
      by (rewrite ?Ht, ?E3; done).
    rewrite (check_txt_one _ (bs "_mta-sts." ++ domain) _ _ _ (bs "v=STSv1; id=20260101"))
      by (rewrite ?Ht, ?E4; done).
    unfold check_txt. by rewrite Ht, E6.
  - unfold VerifyDKIMSelector. rewrite Ht, E5. cbn [mbind option_bind existsb].
    assert (contains (bs "v=DKIM1; k=ed25519; p=" ++ pub) (bs "v=DKIM1") = true) as ->; [|done].
    exact (contains_prefix (bs "v=DKIM1") (bs "; k=ed25519; p=" ++ pub)).
Qed.

(** * What receivers make of the zone *)

Section receivers.
Context (LookupMX LookupTXT LookupHost : bytes -> option (list bytes)).
Context (EffectiveTLDPlusOne : bytes -> option bytes).

#[local] Abbreviation spf_check :=
  (CheckSPF (fun _ => LookupTXT) (fun _ => LookupHost) (fun _ => LookupMX)).

(** No mail exchanger resolves to the address. *)
Definition not_an_exchanger (client : IP) : Prop :=
  forall h, hosts_match client 0 (default [] (LookupHost h)) = false.

Lemma mx_loop_budget client hosts st :
  count st + Z.of_nat (length hosts) <= spf_limit ->
  exists b st', mx_loop (fun _ => LookupHost) client 0 hosts st = (Matched b, st') /\
    (not_an_exchanger client -> b = false).
Proof.
  revert st. induction hosts as [|h hosts IH]; intros st Hb; cbn [mx_loop]; [by eexists _, _|].
  unfold inc. cbn [length] in Hb. rewrite (proj2 (Z.ltb_ge _ _)) by lia. cbn [ask_host].
  destruct (hosts_match _ _ _) eqn:Em.
  - eexists _, _. split; [done|]. intros Hn. by rewrite Hn in Em.
  - apply IH. cbn. lia.
Qed.

Lemma spfRecord_fields ip :
  graphic ip -> ip <> [] -> skipn 1 (Fields (spfRecord ip)) = [bs "mx"; bs "ip4:" ++ ip; bs "-all"].
Proof.
  intros Hg Hne. assert (spfRecord ip = spaced [bs "v=spf1"; bs "mx"; bs "ip4:" ++ ip; bs "-all"]) as ->.
  { unfold spfRecord. by rewrite bool_decide_eq_false_2. }
  rewrite Fields_spaced; [done|].
  repeat (apply Forall_cons; split); [..|apply Forall_nil_2]; (split; [|done]);
    first [ by apply (bool_decide_unpack _)
          | apply Forall_app; split; [by apply (bool_decide_unpack _)|done] ].
Qed.

Lemma eval_generated rec client domain ip mx st :
  LookupMX domain = Some [mx] -> count st + 2 <= spf_limit ->
  exists r st', eval_terms (fun _ => LookupHost) (fun _ => LookupMX) rec client domain
      [bs "mx"; bs "ip4:" ++ ip; bs "-all"] st = Some (r, st') /\
    (matchIPCIDR client ip = true -> r = "pass"%string) /\
    (matchIPCIDR client ip = false -> not_an_exchanger client -> r = "fail"%string).
Proof.
  intros Hmx Hb.
  destruct (mx_loop_budget client [mx]
    (AuthChecks.log (QMX domain) {| count := count st + 1; queries := queries st |}))
    as (b & st1 & Hloop & Hno); [cbn; lia|].
  assert (eval_mechanism (fun _ => LookupHost) (fun _ => LookupMX) rec client domain (bs "mx") st =
    Some (Matched b, st1)) as Hm.
  { unfold eval_mechanism. cbn -[Z.ltb Z.add mx_loop]. unfold counted, inc.
    rewrite (proj2 (Z.ltb_ge _ _)) by lia. cbn -[mx_loop Z.add]. rewrite Hmx. cbn -[mx_loop Z.add].
    by rewrite <-Hloop. }
  cbn [eval_terms]. change (split_qualifier (bs "mx")) with ("+"%byte, bs "mx"). cbn beta iota.
  rewrite Hm. cbn [mbind option_bind]. destruct b.
  { eexists _, _. split; [done|]. split; [done|]. intros _ Hn. by specialize (Hno Hn). }
  change (split_qualifier (bs "ip4:" ++ ip)) with ("+"%byte, bs "ip4:" ++ ip). cbn beta iota.
  assert (eval_mechanism (fun _ => LookupHost) (fun _ => LookupMX) rec client domain
    (bs "ip4:" ++ ip) st1 = Some (Matched (matchIPCIDR client ip), st1)) as ->.
  { unfold eval_mechanism. rewrite bool_decide_eq_false_2 by discriminate. by rewrite HasPrefix_app. }
  cbn [mbind option_bind]. destruct (matchIPCIDR client ip); [by eexists _, _|].
  eexists _, _. split; [reflexivity|]. by split.
Qed.

(** The envelope sender's domain, as [CheckSPF] reads it. *)
Definition sent_by (domain from : bytes) : Prop :=
  exists i, LastIndexByte "@" from = Some i /\ skipn (S i) from = domain.

Lemma spf_of_generated client helo from ip domain pub sel mx :
  zone_holds LookupMX LookupTXT (GenerateDNSRecords ip domain pub sel mx) ->
  graphic ip -> ip <> [] -> domain <> [] ->
  sent_by domain from ->
  exists r st, spf_check client helo from = Some (r, st) /\
    (matchIPCIDR client ip = true -> r = "pass"%string) /\
    (matchIPCIDR client ip = false -> not_an_exchanger client -> r = "fail"%string).
Proof.
  intros [Ht Hm] Hg Hne Hd (i & Hi & Hs).
  destruct (generated_values ip domain pub sel mx) as (E1 & E2 & _).
  unfold CheckSPF. rewrite Hi, Hs. destruct domain as [|c d]; [done|]. set (domain := c :: d) in *.
  unfold spf_fuel. cbn [checkSPFWithCounter ask_txt]. rewrite Ht, E2.
  cbn [base.filter list_filter]. rewrite decide_True.
  2: { unfold is_spf_record, spfRecord. by rewrite bool_decide_eq_false_2. }
  rewrite spfRecord_fields by done. apply (eval_generated _ client domain ip mx); [|by cbn].
  by rewrite Hm, E1.
Qed.

(** ** DMARC *)

Definition parsed_policy (policy : string) (domain : bytes) : gmap bytes bytes :=
  <[bs "rua" := bs "mailto:dmarc@" ++ domain]> (<[bs "p" := bs policy]> (<[bs "v" := bs "DMARC1"]> ∅)).

Lemma strict_tag_field key value :
  graphic key -> graphic value -> key <> [] -> "="%byte ∉ key -> forallb alnum key = true ->
  strict_tag (x20 :: key ++ "="%byte :: value) = Tag key value.
Proof.
  intros Hk Hv Hne Heq Hal. unfold strict_tag.
  assert (graphic (key ++ "="%byte :: value)) as Hg.
  { apply Forall_app. split; [done|]. apply Forall_cons. split; [by apply (bool_decide_unpack _)|done]. }
  rewrite TrimSpace_blank by (done || by destruct key).
  destruct (key ++ "="%byte :: value) as [|c r] eqn:E; [by destruct key|]. rewrite <-E.
  rewrite (IndexByte_first _ _ _ Heq), take_app_length.
  replace (skipn (S (length key)) (key ++ "="%byte :: value)) with value
    by (rewrite skipn_app, skipn_all2, Nat.sub_succ_l, Nat.sub_diag by lia; done).
  rewrite !TrimSpace_graphic by done. destruct key; [done|]. by rewrite Hal.
Qed.

Lemma dmarc_value_parses domain :
  graphic domain -> ";"%byte ∉ domain ->
  parseDMARCPolicyStrict (dmarc_value "reject" domain) = Some (parsed_policy "reject" domain).
Proof.
  intros Hg Hsemi.
  assert (split_byte ";" (dmarc_value "reject" domain) =
    [bs "v=DMARC1"; bs " p=reject"; bs " rua=mailto:dmarc@" ++ domain]) as Hsplit.
  { change (dmarc_value "reject" domain) with
      (bs "v=DMARC1" ++ ";"%byte :: (bs " p=reject" ++ ";"%byte :: (bs " rua=mailto:dmarc@" ++ domain))).
    rewrite !split_byte_app_sep by (by apply (bool_decide_unpack _)).
    rewrite (split_byte_none ";" (_ ++ domain)); [done|].
    intros [Hin|Hin]%elem_of_app; [|done]. revert Hin. by apply (bool_decide_unpack _). }
  assert (graphic (bs "mailto:dmarc@" ++ domain)) as Hv.
  { apply Forall_app. split; [|done]. by apply (bool_decide_unpack _). }
  unfold parseDMARCPolicyStrict. rewrite Hsplit. cbn [strict_tags].
  change (strict_tag (bs "v=DMARC1")) with (Tag (bs "v") (bs "DMARC1")). cbn iota beta.
  rewrite lookup_empty.
  change (strict_tag (bs " p=reject")) with (Tag (bs "p") (bs "reject")). cbn iota beta.
  rewrite lookup_insert_ne, lookup_empty by done.
  change (bs " rua=mailto:dmarc@" ++ domain)
    with (x20 :: bs "rua" ++ "="%byte :: (bs "mailto:dmarc@" ++ domain)).
  rewrite strict_tag_field by (done || by apply (bool_decide_unpack _)).
  rewrite !lookup_insert_ne, lookup_empty by done. cbn [mbind option_bind].
  unfold parsed_policy. rewrite bool_decide_eq_true_2; [done|].
  by rewrite !lookup_insert_ne, lookup_insert_eq by done.
Qed.

Lemma align_self domain mode : domain <> [] -> domainsAlign EffectiveTLDPlusOne domain domain mode = true.
Proof.
  intros Hne. destruct domain as [|c d]; [done|]. unfold domainsAlign.
  by destruct (bool_decide (mode = bs "s")); rewrite bool_decide_eq_true_2.
Qed.

Lemma dmarc_record_single v : HasPrefix v (bs "v=DMARC1") = true -> dmarc_record [v] = v.
Proof. intros Hv. unfold dmarc_record. cbn. by rewrite decide_True. Qed.

Lemma dmarc_of_generated ip domain pub sel mx spfR dkimR dkimD :
  zone_holds LookupMX LookupTXT (GenerateDNSRecords ip domain pub sel mx) ->
  graphic domain -> ";"%byte ∉ domain -> domain <> [] ->
  let dmarc := CheckDMARC EffectiveTLDPlusOne LookupTXT domain spfR domain dkimR dkimD in
  (spfR = "pass"%string -> dmarc = "pass"%string) /\
  (spfR <> "pass"%string ->
   (String.eqb dkimR "pass" && domainsAlign EffectiveTLDPlusOne domain dkimD [])%bool = false ->
   dmarc = "reject"%string).
Proof.
  intros [Ht _] Hg Hsemi Hne dmarc. subst dmarc.
  destruct (generated_values ip domain pub sel mx) as (_ & _ & E3 & _).
  unfold CheckDMARC. destruct domain as [|c d]; [done|]. set (domain := c :: d) in *.
  rewrite Ht, E3, dmarc_record_single by reflexivity.
  destruct (dmarc_value "reject" domain) as [|r0 r] eqn:Er; [discriminate Er|].
  rewrite <-Er, dmarc_value_parses by done.
  change (tag_value (parsed_policy "reject" domain) "aspf") with (@nil byte).
  change (tag_value (parsed_policy "reject" domain) "adkim") with (@nil byte).
  change (tag_value (parsed_policy "reject" domain) "p") with (bs "reject").
  rewrite align_self by done. split.
  - by intros ->.
  - intros Hn Hd. rewrite (proj2 (String.eqb_neq _ _) Hn), Hd. reflexivity.
Qed.

(** A domain that publishes the generated records is protected by this
    repository's own receiving side: mail in its name from the configured
    outbound address passes SPF and DMARC, and mail in its name from an
    address that is neither that one nor a mail exchanger's, without an
    aligned DKIM signature, fails SPF and gets the DMARC verdict reject. *)
Theorem generated_zone_protects ip domain pub sel mx client helo from dkimR dkimD :
  zone_holds LookupMX LookupTXT (GenerateDNSRecords ip domain pub sel mx) ->
  graphic ip -> ip <> [] -> graphic domain -> ";"%byte ∉ domain -> domain <> [] ->
  sent_by domain from ->
  (matchIPCIDR client ip = true \/
   not_an_exchanger client /\
   (String.eqb dkimR "pass" && domainsAlign EffectiveTLDPlusOne domain dkimD [])%bool = false) ->
  exists spf st, spf_check client helo from = Some (spf, st) /\
    let dmarc := CheckDMARC EffectiveTLDPlusOne LookupTXT domain spf domain dkimR dkimD in
    if matchIPCIDR client ip then spf = "pass"%string /\ dmarc = "pass"%string
    else spf = "fail"%string /\ dmarc = "reject"%string.
Proof.
  intros Hz Hi Hne Hg Hsemi Hd Hby Hc.
  destruct (spf_of_generated client helo from _ _ _ _ _ Hz Hi Hne Hd Hby) as (r & st & Hr & Hp & Hf).
  destruct (dmarc_of_generated _ _ _ _ _ r dkimR dkimD Hz Hg Hsemi Hd) as [Hdp Hdr].
  exists r, st. split; [exact Hr|]. cbv zeta. destruct (matchIPCIDR client ip).
  - split; [by apply Hp|]. by apply Hdp, Hp.
  - destruct Hc as [|[Hn Hk]]; [done|]. pose proof (Hf eq_refl Hn) as ->.
    split; [done|]. by apply Hdr.
Qed.

End receivers.

(** ** A concrete zone *)

Definition demo_records : list DNSRecord :=
  GenerateDNSRecords (bs "192.0.2.77") (bs "a.test") (bs "cHVi") (bs "s1") (bs "mx.a.test").

Definition demo_answers (ty : string) (name : bytes) : option (list bytes) :=
  match values_at ty name demo_records with [] => None | vs => Some vs end.

Lemma generated_zone_verifies_witness :
  VerifyDKIMSelector (demo_answers "TXT") (bs "a.test") (bs "s1") = Some true /\
  v_DKIM (VerifyDNS (demo_answers "MX") (demo_answers "TXT") (bs "a.test")) = false.
Proof.
  assert (zone_holds (demo_answers "MX") (demo_answers "TXT") demo_records) as Hz by done.
  destruct (generated_zone_verifies _ _ _ _ _ _ _ Hz) as [E1 E2].
  split; [exact E2|]. exact (f_equal v_DKIM E1).
Defined.

Definition demo_forger : IP := v4InV6Prefix ++ [203; 0; 113; 5].

Lemma generated_zone_protects_witness :
  exists spf st,
    CheckSPF (fun _ => demo_answers "TXT") (fun _ _ => None) (fun _ => demo_answers "MX")
      demo_forger (bs "evil.test") (bs "boss@a.test") = Some (spf, st) /\
    CheckDMARC (fun _ => None) (demo_answers "TXT") (bs "a.test") spf (bs "a.test") "none" []
      = "reject"%string.
Proof.
  edestruct (generated_zone_protects (demo_answers "MX") (demo_answers "TXT") (fun _ => None) (fun _ => None)
    (bs "192.0.2.77") (bs "a.test") (bs "cHVi") (bs "s1") (bs "mx.a.test") demo_forger (bs "evil.test")
    (bs "boss@a.test") "none" []) as (spf & st & E1 & E2).
  - done.
  - by apply (bool_decide_unpack _).
  - done.
  - by apply (bool_decide_unpack _).
  - by apply (bool_decide_unpack _).
  - done.
  - by exists 4%nat.
  - right. split; [done|reflexivity].
  - exists spf, st. split; [exact E1|]. exact (proj2 E2).
Defined.
