(* ===== verification/Pgp.v ===== *)
(** The parts of src/internal/crypto/pgp.go that are the program's own:
    detection of encrypted mail and the Autocrypt header.  Key handling,
    encryption and signatures in that file are calls of a PGP library.

Shown: base64 decoding undoes the encoding; an Autocrypt header is read
back with its address and key; a message is taken for PGP/MIME or S/MIME by
words anywhere in its header block, in any field. *)

From S2P Require Import Prelude GoNet FilePath GoStrings Domain.
Local Open Scope Z_scope.

(** * Base64 decoding *)

Definition b64_value (c : byte) : option Z :=
  if byte_between "A" "Z" c then Some (byteZ c - 65)
  else if byte_between "a" "z" c then Some (byteZ c - 71)
  else if byte_between "0" "9" c then Some (byteZ c + 4)
  else if bool_decide (c = "+"%byte) then Some 62
  else if bool_decide (c = "/"%byte) then Some 63
  else None.

Definition byte_at (n shift : Z) : byte := default x00 (Byte.of_N (Z.to_N (n / shift mod 256))).

Fixpoint quanta (s : bytes) : option bytes :=
  match s with
  | [] => Some []
  | a :: b :: c :: d :: r =>
      x ← b64_value a; y ← b64_value b;
      if bool_decide (r = []) && bool_decide (d = "="%byte) then
        if bool_decide (c = "="%byte) then Some [byte_at (x * 262144 + y * 4096) 65536]
        else
          z ← b64_value c;
          let n := x * 262144 + y * 4096 + z * 64 in
          Some [byte_at n 65536; byte_at n 256]
      else
        z ← b64_value c; w ← b64_value d;
        let n := x * 262144 + y * 4096 + z * 64 + w in
        rest ← quanta r;
        Some (byte_at n 65536 :: byte_at n 256 :: byte_at n 1 :: rest)
  | _ => None
  end.

(** [base64.StdEncoding.DecodeString]: line breaks are ignored, trailing bits
    are not checked. *)
Definition base64_decode (s : bytes) : option bytes :=
  quanta (filter (fun c => c <> x0d /\ c <> x0a) s).

(** * Detection *)

(** The header block, or the first 4 KB of a message without a blank line. *)
Definition header_block (raw : bytes) : bytes :=
  match Index raw [x0d; x0a; x0d; x0a] with
  | Some i => take i raw
  | None =>
      match Index raw [x0a; x0a] with
      | Some i => take i raw
      | None => if 4096 <? Z.of_nat (length raw) then take (Z.to_nat 4096) raw else raw
      end
  end.

Definition DetectPGPMIME (raw : bytes) : bool :=
  let headers := ToLower (header_block raw) in
  contains headers (bs "multipart/encrypted") && contains headers (bs "application/pgp-encrypted").

Definition DetectPGPInline (body : bytes) : bool := contains body (bs "-----BEGIN PGP MESSAGE-----").

Definition DetectSMIME (raw : bytes) : bool :=
  let headers := ToLower (header_block raw) in
  contains headers (bs "application/pkcs7-mime") || contains headers (bs "application/x-pkcs7-mime").

(** * Autocrypt *)

(** The replacer drops CR, LF and NUL. *)
Definition strip_breaks (s : bytes) : bytes :=
  filter (fun c => c <> x0d /\ c <> x0a /\ c <> x00) s.

Definition FormatAutocryptHeader (email minimalKeyBase64 : bytes) : bytes :=
  bs "addr=" ++ strip_breaks email ++ bs "; prefer-encrypt=mutual; keydata=" ++
  strip_breaks minimalKeyBase64.

Record autocrypt := mkAutocrypt { ac_email : bytes; ac_key : bytes; ac_prefer : bytes }.

(** One attribute; [None] is invalid base64. *)
Definition attribute (a : autocrypt) (part : bytes) : option autocrypt :=
  let part := TrimSpace part in
  if HasPrefix part (bs "addr=") then
    Some (mkAutocrypt (TrimPrefix part (bs "addr=")) (ac_key a) (ac_prefer a))
  else if HasPrefix part (bs "prefer-encrypt=") then
    Some (mkAutocrypt (ac_email a) (ac_key a) (TrimPrefix part (bs "prefer-encrypt=")))
  else if HasPrefix part (bs "keydata=") then
    let raw := filter (fun c => c <> x20 /\ c <> x0a /\ c <> x0d) (TrimPrefix part (bs "keydata=")) in
    decoded ← base64_decode raw;
    Some (mkAutocrypt (ac_email a) decoded (ac_prefer a))
  else Some a.

Definition ParseAutocryptHeader (headerValue : bytes) : option autocrypt :=
  a ← foldl (fun acc part => a ← acc; attribute a part)
        (Some (mkAutocrypt [] [] (bs "nopreference"))) (split_byte ";" headerValue);
  if bool_decide (ac_email a = []) then None
  else if bool_decide (ac_key a = []) then None
  else Some a.

(** * Lemmas *)

Lemma byteZ_range b : 0 <= byteZ b < 256.
Proof. unfold byteZ. pose proof (Byte.to_N_bounded b). lia. Qed.

Lemma b64_value_char d : 0 <= d < 64 -> b64_value (b64_char d) = Some d.
Proof.
  intros Hd. assert (H : Forall (fun d => b64_value (b64_char d) = Some d) (seqZ 0 64)).
  { apply (bool_decide_unpack _). vm_compute. exact I. }
  rewrite Forall_forall in H. apply H, elem_of_seqZ. lia.
Qed.

Lemma b64_char_ok d : 0 <= d < 64 -> graphic_byte (b64_char d) = true /\ b64_char d <> "="%byte /\
  b64_char d <> ";"%byte.
Proof.
  intros Hd. assert (H : Forall (fun d => graphic_byte (b64_char d) = true /\ b64_char d <> "="%byte /\
    b64_char d <> ";"%byte) (seqZ 0 64)).
  { apply (bool_decide_unpack _). vm_compute. exact I. }
  rewrite Forall_forall in H. apply H, elem_of_seqZ. lia.
Qed.

Lemma byte_at_Z n shift b : n / shift mod 256 = byteZ b -> byte_at n shift = b.
Proof.
  unfold byte_at, byteZ. intros ->. rewrite N2Z.id, Byte.of_to_N. done.
Qed.

Lemma bytes_ind3 (P : bytes -> Prop) :
  P [] -> (forall a, P [a]) -> (forall a b, P [a; b]) ->
  (forall a b c s, P s -> P (a :: b :: c :: s)) -> forall s, P s.
Proof.
  intros H0 H1 H2 H3. fix IH 1. intros [|a [|b [|c s]]]; [done|apply H1|apply H2|apply H3, IH].
Qed.

(** The four digits of a 24-bit number are in range and give it back. *)
Lemma b64_digits n : 0 <= n < 16777216 ->
  0 <= n / 262144 < 64 /\ 0 <= n / 4096 mod 64 < 64 /\ 0 <= n / 64 mod 64 < 64 /\ 0 <= n mod 64 < 64 /\
  n / 262144 * 262144 + (n / 4096 mod 64) * 4096 + (n / 64 mod 64) * 64 + n mod 64 = n.
Proof. intros Hn. Z.to_euclidean_division_equations. lia. Qed.

Lemma quanta_base64 s : quanta (base64 s) = Some s.
Proof.
  induction s as [|a|a b|a b c s IH] using bytes_ind3; [done|..]; cbn [base64].
  - pose proof (byteZ_range a). set (n := byteZ a * 65536).
    destruct (b64_digits n ltac:(lia)) as (R1 & R2 & R3 & R4 & E).
    cbn [quanta]. rewrite !b64_value_char by done. cbn [mbind option_bind]. do 2 f_equal.
    apply byte_at_Z. Z.to_euclidean_division_equations. lia.
  - pose proof (byteZ_range a). pose proof (byteZ_range b).
    set (n := byteZ a * 65536 + byteZ b * 256).
    destruct (b64_digits n ltac:(lia)) as (R1 & R2 & R3 & R4 & E).
    destruct (b64_char_ok _ R3) as (_ & Hne & _).
    cbn [quanta]. rewrite !b64_value_char by done. cbn [mbind option_bind].
    assert (E4 : n mod 64 = 0) by (Z.to_euclidean_division_equations; lia).
    rewrite E4, Z.add_0_r in E. rewrite E, (bool_decide_eq_false_2 _ Hne). cbn [andb].
    assert (Hb : [byte_at n 65536; byte_at n 256] = [a; b]).
    { repeat f_equal; apply byte_at_Z; Z.to_euclidean_division_equations; lia. }
    by rewrite Hb.
  - pose proof (byteZ_range a). pose proof (byteZ_range b). pose proof (byteZ_range c).
    set (n := byteZ a * 65536 + byteZ b * 256 + byteZ c).
    destruct (b64_digits n ltac:(lia)) as (R1 & R2 & R3 & R4 & E).
    destruct (b64_char_ok _ R4) as (_ & Hne & _).
    cbn [quanta]. rewrite !b64_value_char by done. cbn [mbind option_bind].
    rewrite (bool_decide_eq_false_2 _ Hne), andb_false_r, E, IH.
    assert (Hb : [byte_at n 65536; byte_at n 256; byte_at n 1] = [a; b; c]).
    { repeat f_equal; apply byte_at_Z; Z.to_euclidean_division_equations; lia. }
    injection Hb as -> -> ->. done.
Qed.

Definition b64_clean (c : byte) : Prop := graphic_byte c = true /\ c <> ";"%byte.

Lemma b64_char_clean d : 0 <= d < 64 -> b64_clean (b64_char d).
Proof. intros Hd. destruct (b64_char_ok d Hd) as (? & _ & ?). by split. Qed.

Lemma pad_clean : b64_clean "="%byte.
Proof. by split. Qed.

#[local] Hint Resolve b64_char_clean pad_clean : core.

Lemma base64_clean s : Forall b64_clean (base64 s).
Proof.
  induction s as [|a|a b|a b c s IH] using bytes_ind3; cbn [base64]; [constructor|..].
  - pose proof (byteZ_range a).
    destruct (b64_digits (byteZ a * 65536) ltac:(lia)) as (R1 & R2 & _). auto 6.
  - pose proof (byteZ_range a). pose proof (byteZ_range b).
    destruct (b64_digits (byteZ a * 65536 + byteZ b * 256) ltac:(lia)) as (R1 & R2 & R3 & _). auto 6.
  - pose proof (byteZ_range a). pose proof (byteZ_range b). pose proof (byteZ_range c).
    destruct (b64_digits (byteZ a * 65536 + byteZ b * 256 + byteZ c) ltac:(lia)) as (R1 & R2 & R3 & R4 & _).
    auto 6.
Qed.

Lemma base64_decode_base64 s : base64_decode (base64 s) = Some s.
Proof.
  unfold base64_decode.
  assert (filter (fun c => c <> x0d /\ c <> x0a) (base64 s) = base64 s) as ->; [|apply quanta_base64].
  pose proof (base64_clean s) as H. induction H as [|c l [Hg _] _ IH]; [done|].
  rewrite filter_cons_True, IH; [done|]. split; intros ->; by vm_compute in Hg.
Qed.

Lemma base64_graphic s : graphic (base64 s) /\ (";"%byte ∉ base64 s).
Proof.
  pose proof (base64_clean s) as H. split.
  - eapply Forall_impl; [exact H|]. by intros c [].
  - intros Hin. rewrite Forall_forall in H. by apply H in Hin as [_ []].
Qed.

Lemma filter_id (P : byte -> Prop) `{forall c, Decision (P c)} (s : bytes) :
  (forall c, c ∈ s -> P c) -> filter P s = s.
Proof.
  induction s as [|c s IH]; intros Hs; [done|].
  rewrite filter_cons_True by (apply Hs; left). f_equal. apply IH. intros d Hd. apply Hs. by right.
Qed.

(** A text of visible characters has none of the bytes that are dropped. *)
Lemma filter_graphic (P : byte -> Prop) `{forall c, Decision (P c)} (s : bytes) :
  graphic s -> (forall c, graphic_byte c = true -> P c) -> filter P s = s.
Proof.
  intros Hs HP. apply filter_id. intros c Hc. apply HP. unfold graphic in Hs.
  rewrite Forall_forall in Hs. by apply Hs.
Qed.

(** Decoding undoes the encoding. *)
Theorem base64_roundtrip s : base64_decode (base64 s) = Some s.
Proof.
  unfold base64_decode. rewrite filter_graphic; [apply quanta_base64|apply base64_graphic|].
  intros c Hc. by split; intros ->.
Qed.

(** An Autocrypt header written for an address and a key is read back. *)
Theorem autocrypt_roundtrip email key
    (He : graphic email) (Hsemi : ";"%byte ∉ email) (Hne : email <> []) (Hk : key <> []) :
  ParseAutocryptHeader (FormatAutocryptHeader email (base64 key)) =
  Some (mkAutocrypt email key (bs "mutual")).
Proof.
  destruct (base64_graphic key) as [Hg Hs].
  unfold FormatAutocryptHeader, strip_breaks.
  rewrite !filter_graphic by (done || (intros c Hc; split_and!; by intros ->)).
  unfold ParseAutocryptHeader.
  assert (Hp : split_byte ";" (bs "addr=" ++ email ++ bs "; prefer-encrypt=mutual; keydata=" ++ base64 key) =
    [bs "addr=" ++ email; x20 :: bs "prefer-encrypt=mutual"; x20 :: bs "keydata=" ++ base64 key]).
  { change (bs "; prefer-encrypt=mutual; keydata=" ++ base64 key) with
      (";"%byte :: (x20 :: bs "prefer-encrypt=mutual") ++ ";"%byte :: (x20 :: bs "keydata=" ++ base64 key)).
    rewrite app_assoc, !split_byte_app_sep, (split_byte_none _ (bs "addr=" ++ email)),
      (split_byte_none _ (x20 :: bs "keydata=" ++ base64 key)).
    - reflexivity.
    - rewrite not_elem_of_cons, not_elem_of_app. split_and!; [done| |done].
      apply (bool_decide_unpack _). vm_compute. exact I.
    - rewrite not_elem_of_app. split; [|done]. apply (bool_decide_unpack _). vm_compute. exact I. }
  rewrite Hp. cbn [foldl]. clear Hp.
  assert (Hlit : forall s, graphic s -> graphic (bs "addr=" ++ s) /\ graphic (bs "keydata=" ++ s)).
  { intros s Hs'. split; apply Forall_app; (split; [|exact Hs']); apply (bool_decide_unpack _); vm_compute; exact I. }
  unfold attribute at 3. cbn [mbind option_bind]. rewrite TrimSpace_graphic by by apply Hlit.
  rewrite HasPrefix_app, TrimPrefix_app. cbn [mbind option_bind].
  unfold attribute at 2. rewrite TrimSpace_blank; [|apply (bool_decide_unpack _); vm_compute; exact I|done].
  change (HasPrefix (bs "prefer-encrypt=mutual") (bs "addr=")) with false.
  change (HasPrefix (bs "prefer-encrypt=mutual") (bs "prefer-encrypt=")) with true.
  change (TrimPrefix (bs "prefer-encrypt=mutual") (bs "prefer-encrypt=")) with (bs "mutual").
  cbn [ac_email ac_key ac_prefer mbind option_bind].
  unfold attribute. rewrite TrimSpace_blank by (by apply Hlit || done).
  change (HasPrefix (bs "keydata=" ++ base64 key) (bs "addr=")) with false.
  change (HasPrefix (bs "keydata=" ++ base64 key) (bs "prefer-encrypt=")) with false.
  cbv iota. rewrite HasPrefix_app, TrimPrefix_app.
  rewrite filter_graphic by (done || (intros c Hc; split_and!; by intros ->)).
  rewrite base64_roundtrip. cbn [mbind option_bind ac_email ac_key ac_prefer].
  by rewrite !bool_decide_eq_false_2.
Qed.

(** A plain message is taken for S/MIME when its subject says so. *)
Example smime_by_subject :
  DetectSMIME (bs "Subject: what is application/pkcs7-mime?" ++ [x0d; x0a; x0d; x0a] ++ bs "hi") = true.
Proof. vm_compute. reflexivity. Qed.

Lemma autocrypt_roundtrip_witness :
  ParseAutocryptHeader (FormatAutocryptHeader (bs "ann@example.org") (base64 (bs "key bytes"))) =
  Some (mkAutocrypt (bs "ann@example.org") (bs "key bytes") (bs "mutual")).
Proof.
  apply autocrypt_roundtrip.
  - apply (bool_decide_unpack _). vm_compute. exact I.
  - apply (bool_decide_unpack _). vm_compute. exact I.
  - intros [=].
  - intros [=].
Defined.
