(* ===== verification/Rules.v ===== *)
(** The mail rules of a recipient: evalRulesIntoDecisions and decodeRuleJSON of
    src/internal/smtp/pipeline.go, over the rows of
    src/internal/storage/rule_store.go (ListRules).

encoding/json is a parameter.  Shown: a rule applies exactly when it is
enabled, has a condition on the sender, an attachment or the size, and all
of those hold; conditions on the subject, the body or the recipients are
passed over, so the rule "from X and subject Y: delete" deletes everything
from X; a size of 2^53 KiB or more wraps, and then every message is larger;
only the first rule that applies acts. *)

From S2P Require Import Prelude GoNet FilePath GoStrings Pgp.
Local Open Scope Z_scope.

Record ruleCondition := mkCond { Field : bytes; Operator : bytes; Value : bytes }.
Record ruleAction := mkAction { Type_ : bytes; action_Value : bytes }.

Record MailRule := mkRule {
  Enabled : bool;
  ConditionsEncrypted : bytes;
  ActionsEncrypted : bytes
}.

Record inboundDecisions := mkDecisions {
  Drop : bool;
  FolderAssignment : bytes;
  MoveFolderID : bytes;
  LabelIDs : list bytes;
  MarkRead : bool;
  MarkStarred : bool
}.

(** [strconv.ParseInt(s, 10, 64)] with its error thrown away: zero for what is
    not a number, the nearest bound for what does not fit. *)
Definition ParseInt_value (s : bytes) : Z :=
  let '(neg, ds) := match s with
                    | "+"%byte :: r => (false, r)
                    | "-"%byte :: r => (true, r)
                    | _ => (false, s)
                    end in
  if bool_decide (ds = []) then 0
  else match foldl (fun acc c => n ← acc; d ← digit c; Some (n * 10 + d)) (Some 0) ds with
       | None => 0
       | Some n => if (neg : bool) then Z.max (- 2 ^ 63) (- n) else Z.min (2 ^ 63 - 1) n
       end.

(** The size a condition names, in bytes. *)
Definition threshold_bytes (c : ruleCondition) : Z := int64 (ParseInt_value (Value c) * 1024).

(** What one condition says of a message; [None] when the server skips it. *)
Definition condition_holds (fromAddr : bytes) (hasAttachments : bool) (sizeBytes : Z)
    (c : ruleCondition) : option bool :=
  if bool_decide (Field c = bs "from") then
    let val := ToLower (Value c) in
    let from := ToLower fromAddr in
    Some (if bool_decide (Operator c = bs "contains") then contains from val
          else if bool_decide (Operator c = bs "equals") then bool_decide (from = val)
          else false)
  else if bool_decide (Field c = bs "has_attachment") then Some hasAttachments
  else if bool_decide (Field c = bs "size_gt") then Some (negb (sizeBytes <=? threshold_bytes c))
  else if bool_decide (Field c = bs "size_lt") then Some (negb (threshold_bytes c <=? sizeBytes))
  else None.

(** The loop's variables [allMatch] and [hasServerCondition]. *)
Definition match_conditions (fromAddr : bytes) (hasAttachments : bool) (sizeBytes : Z)
    (conditions : list ruleCondition) : bool * bool :=
  foldl (fun acc c =>
    match condition_holds fromAddr hasAttachments sizeBytes c with
    | Some true => (fst acc, true)
    | Some false => (false, true)
    | None => acc
    end) (true, false) conditions.

Section rules.
Context (Unmarshal_conditions : bytes -> option (list ruleCondition)).
Context (Unmarshal_actions : bytes -> option (list ruleAction)).
(** [folderStore.GetFolderByType] for the archive: its id, [None] when it fails
    or there is no store. *)
Context (archive : option bytes).

(** JSON as it is, or base64 of it. *)
Definition decodeRuleJSON {T} (Unmarshal : bytes -> option (list T)) (raw : bytes) : list T :=
  match Unmarshal raw with
  | Some out => out
  | None => default [] (decoded ← base64_decode raw; Unmarshal decoded)
  end.

Definition apply_action (d : inboundDecisions) (a : ruleAction) : inboundDecisions :=
  let v := action_Value a in
  if bool_decide (Type_ a = bs "move") then
    mkDecisions (Drop d) (FolderAssignment d) v (LabelIDs d) (MarkRead d) (MarkStarred d)
  else if bool_decide (Type_ a = bs "label") then
    mkDecisions (Drop d) (FolderAssignment d) (MoveFolderID d) (LabelIDs d ++ [v]) (MarkRead d) (MarkStarred d)
  else if bool_decide (Type_ a = bs "mark_read") then
    mkDecisions (Drop d) (FolderAssignment d) (MoveFolderID d) (LabelIDs d) true (MarkStarred d)
  else if bool_decide (Type_ a = bs "star") then
    mkDecisions (Drop d) (FolderAssignment d) (MoveFolderID d) (LabelIDs d) (MarkRead d) true
  else if bool_decide (Type_ a = bs "delete") then
    mkDecisions true (FolderAssignment d) (MoveFolderID d) (LabelIDs d) (MarkRead d) (MarkStarred d)
  else if bool_decide (Type_ a = bs "archive") then
    match archive with
    | Some id => mkDecisions (Drop d) (FolderAssignment d) id (LabelIDs d) (MarkRead d) (MarkStarred d)
    | None => d
    end
  else d.

Definition rule_conditions (r : MailRule) : list ruleCondition :=
  decodeRuleJSON Unmarshal_conditions (ConditionsEncrypted r).

Definition rule_actions (r : MailRule) : list ruleAction :=
  decodeRuleJSON Unmarshal_actions (ActionsEncrypted r).

(** Whether the loop body reaches the actions. *)
Definition rule_applies (fromAddr : bytes) (hasAttachments : bool) (sizeBytes : Z) (r : MailRule) : bool :=
  if negb (Enabled r) then false
  else match rule_conditions r with
       | [] => false
       | conditions =>
           let '(allMatch, hasServerCondition) :=
             match_conditions fromAddr hasAttachments sizeBytes conditions in
           hasServerCondition && allMatch
       end.

(** [rules] is what [ListRules] returns, [None] an error. *)
Fixpoint eval_rules (fromAddr : bytes) (hasAttachments : bool) (sizeBytes : Z) (rules : list MailRule)
    (d : inboundDecisions) : inboundDecisions :=
  match rules with
  | [] => d
  | r :: rules =>
      if rule_applies fromAddr hasAttachments sizeBytes r
      then foldl apply_action d (rule_actions r)
      else eval_rules fromAddr hasAttachments sizeBytes rules d
  end.

Definition evalRulesIntoDecisions (fromAddr : bytes) (hasAttachments : bool) (sizeBytes : Z)
    (rules : option (list MailRule)) (d : inboundDecisions) : inboundDecisions :=
  eval_rules fromAddr hasAttachments sizeBytes (default [] rules) d.

(** * Theorems *)

Lemma match_conditions_acc from att size cs acc :
  foldl (fun acc c =>
    match condition_holds from att size c with
    | Some true => (fst acc, true)
    | Some false => (false, true)
    | None => acc
    end) acc cs =
  (fst acc && forallb (fun c => default true (condition_holds from att size c)) cs,
   snd acc || existsb (fun c => bool_decide (is_Some (condition_holds from att size c))) cs).
Proof.
  revert acc. induction cs as [|c cs IH]; intros [a h]; cbn [foldl forallb existsb fst snd].
  - by rewrite andb_true_r, orb_false_r.
  - destruct (condition_holds from att size c) as [[]|]; rewrite IH; cbn;
      rewrite ?orb_true_r, ?andb_false_r; done.
Qed.

(** Conditions that the server examines. *)
Definition is_server (c : ruleCondition) : Prop :=
  Field c = bs "from" \/ Field c = bs "has_attachment" \/ Field c = bs "size_gt" \/ Field c = bs "size_lt".

Lemma condition_server from att size c : is_Some (condition_holds from att size c) <-> is_server c.
Proof.
  unfold condition_holds, is_server. repeat case_bool_decide; split; intros H'; eauto; try (by destruct H');
  naive_solver.
Qed.

(** A rule applies exactly when it is enabled, has a condition that the
    server examines, and every such condition holds.  The other conditions of
    the rule are not asked. *)
Theorem rule_applies_iff from att size r :
  rule_applies from att size r = true <->
  Enabled r = true /\ (exists c, c ∈ rule_conditions r /\ is_server c) /\
  forall c, c ∈ rule_conditions r -> is_server c -> condition_holds from att size c = Some true.
Proof.
  unfold rule_applies. destruct (Enabled r); cbn [negb]; [|by split; [|intros [? _]]].
  assert (Hm : (let '(a, h) := match_conditions from att size (rule_conditions r) in h && a) = true <->
    (exists c, c ∈ rule_conditions r /\ is_server c) /\
    forall c, c ∈ rule_conditions r -> is_server c -> condition_holds from att size c = Some true).
  { unfold match_conditions. rewrite match_conditions_acc. cbn [fst snd andb orb].
    rewrite andb_true_iff, existsb_elem, forallb_Forall, Forall_forall.
    setoid_rewrite bool_decide_eq_true. setoid_rewrite condition_server.
    split; intros [H1 H2]; (split; [done|]); intros c Hc.
    - intros Hs. specialize (H2 c Hc). apply (condition_server from att size) in Hs as [b Hb].
      rewrite Hb in H2 |- *. cbn in H2. by subst.
    - destruct (condition_holds from att size c) as [b|] eqn:E; [|done].
      specialize (H2 c Hc). rewrite E in H2. cbn.
      assert (Hs : is_server c) by (apply (condition_server from att size); by rewrite E).
      specialize (H2 Hs). congruence. }
  destruct (rule_conditions r) as [|c cs].
  - split; [done|]. intros (_ & (c & Hc & _) & _). by apply not_elem_of_nil in Hc.
  - rewrite Hm. naive_solver.
Qed.

(** The actions of a rule never touch the folder that the filter chose. *)
Lemma rules_keep_folder from att size rules d :
  FolderAssignment (evalRulesIntoDecisions from att size rules d) =
  FolderAssignment d.
Proof.
  assert (forall l e, FolderAssignment (foldl apply_action e l) = FolderAssignment e) as Ha.
  { induction l as [|a l IH]; intros e; [done|]. cbn [foldl]. rewrite IH. unfold apply_action.
    repeat case_bool_decide; try done. by destruct archive. }
  unfold evalRulesIntoDecisions. induction (default [] rules) as [|r l IH]; [done|].
  cbn [eval_rules]. by destruct (rule_applies _ _ _ _).
Qed.

Lemma action_drop d a :
  Drop (apply_action d a) = Drop d || bool_decide (Type_ a = bs "delete").
Proof.
  unfold apply_action.
  repeat (case_bool_decide as H; [rewrite bool_decide_eq_false_2, orb_false_r;
    [done|rewrite H; apply (bool_decide_unpack _); vm_compute; exact I]|clear H]).
  case_bool_decide; [by rewrite orb_true_r|]. rewrite orb_false_r.
  case_bool_decide; [by destruct archive|done].
Qed.

(** Actions drop the message exactly when one of them is "delete". *)
Lemma actions_drop acts d :
  Drop (foldl apply_action d acts) = true <-> Drop d = true \/ exists a, a ∈ acts /\ Type_ a = bs "delete".
Proof.
  revert d. induction acts as [|a acts IH]; intros d; cbn [foldl].
  - split; [by left|]. intros [?|(a & Ha & _)]; [done|]. by apply not_elem_of_nil in Ha.
  - rewrite IH, action_drop, orb_true_iff, bool_decide_eq_true. setoid_rewrite elem_of_cons. split.
    + intros [[Hd|Ht]|(b & Hb & Ht)]; eauto.
    + intros [Hd|(b & [->|Hb] & Ht)]; eauto.
Qed.

(** The first rule of [rules] that applies deletes. *)
Definition first_deletes (from : bytes) (att : bool) (size : Z) (rules : list MailRule) : Prop :=
  exists i r a, rules !! i = Some r /\ rule_applies from att size r = true /\
    (forall j r', (j < i)%nat -> rules !! j = Some r' -> rule_applies from att size r' = false) /\
    a ∈ rule_actions r /\ Type_ a = bs "delete".

Lemma rules_drop from att size rules d :
  Drop d = false ->
  Drop (evalRulesIntoDecisions from att size (Some rules) d) = true <-> first_deletes from att size rules.
Proof.
  intros Hd. change (Drop (eval_rules from att size rules d) = true <-> first_deletes from att size rules).
  induction rules as [|r rs IH]; cbn [eval_rules].
  { rewrite Hd. split; [done|]. by intros (i & r & a & H & _). }
  destruct (rule_applies from att size r) eqn:E.
  - rewrite actions_drop. split.
    + intros [?|(a & Ha & Ht)]; [congruence|]. exists 0%nat, r, a. split_and!; try done. intros j r' Hj. lia.
    + intros (i & r0 & a & Hi & Hr & Hj & Ha & Ht). right. destruct i as [|i].
      * injection Hi as <-. eauto.
      * specialize (Hj 0%nat r ltac:(lia) eq_refl). congruence.
  - rewrite IH. split.
    + intros (i & r0 & a & Hi & Hr & Hj & Ha & Ht). exists (S i), r0, a. split_and!; try done.
      intros [|j] r' Hlt Hj'; [by injection Hj' as <-|]. apply (Hj j); [lia|done].
    + intros (i & r0 & a & Hi & Hr & Hj & Ha & Ht). destruct i as [|i]; [injection Hi as <-; congruence|].
      exists i, r0, a. split_and!; try done. intros j r' Hlt Hj'. apply (Hj (S j)); [lia|done].
Qed.

(** Only the first rule that applies acts, and its actions are taken in
    order. *)
Theorem first_rule_wins from att size rules d :
  evalRulesIntoDecisions from att size rules d =
  match list_find (fun r => rule_applies from att size r = true) (default [] rules) with
  | Some (_, r) => foldl apply_action d (rule_actions r)
  | None => d
  end.
Proof.
  unfold evalRulesIntoDecisions. induction (default [] rules) as [|r rs IH]; [done|].
  cbn [eval_rules list_find]. destruct (rule_applies from att size r) eqn:E.
  - by rewrite decide_True.
  - rewrite decide_False by done. rewrite IH. cbn. by destruct (list_find _ rs) as [[? ?]|].
Qed.
End rules.

(** A "larger than" condition of 2^53 KiB or more, up to the largest int64,
    multiplies to a number that wraps: 2^53 KiB becomes the smallest int64, and
    every message is larger than it. *)
Theorem huge_size_matches_everything from att size op
    (Hs : 0 <= size) :
  condition_holds from att size (mkCond (bs "size_gt") op (bs "9007199254740992")) = Some true /\
  condition_holds from att size (mkCond (bs "size_gt") op (bs "99999999999999999999")) = Some true.
Proof.
  unfold condition_holds. cbn [Field Value].
  assert (E1 : threshold_bytes (mkCond (bs "size_gt") op (bs "9007199254740992")) = - 2 ^ 63)
    by (vm_compute; reflexivity).
  assert (E2 : threshold_bytes (mkCond (bs "size_gt") op (bs "99999999999999999999")) = - 1024)
    by (vm_compute; reflexivity).
  rewrite E1, E2. split; repeat case_bool_decide; try discriminate; try congruence; f_equal; apply negb_true_iff, Z.leb_gt; lia.
Qed.

Lemma huge_size_matches_everything_witness :
  condition_holds [] false 0 (mkCond (bs "size_gt") [] (bs "9007199254740992")) = Some true.
Proof. apply (huge_size_matches_everything [] false 0 []). lia. Defined.
