(* ===== verification/Calendar.v ===== *)
(** Calendar replies in inbound mail: src/internal/smtp/pipeline_calendar.go.

The calendar store and Redis answer as parameters; what is asked of them is
the result.  [strings.ToUpper] and [strings.ToLower] are parameters too:
outside ASCII they can change a text's length, which matters here because
an offset found in the converted line is used in the original.

Shown: folding a line does not change what is read; a line is read without
a panic when both conversions keep its length, which they do on ASCII, and
with one when a conversion makes the text before the match longer; a cancellation or a
reply takes effect for whoever sends it: the sender is not an input. *)

From S2P Require Import Prelude GoNet FilePath GoStrings.
Local Open Scope Z_scope.

Record parsedAttendee := mkAttendee { Email : bytes; PartStat : bytes }.

Record parsedICS := mkICS { Method : bytes; UID : bytes; Attendees : list parsedAttendee }.

(** [strings.LastIndex(s, sub)] *)
Fixpoint LastIndex (s sub : bytes) : option nat :=
  match s with
  | [] => if HasPrefix [] sub then Some 0%nat else None
  | _ :: s' => match LastIndex s' sub with
               | Some i => Some (S i)
               | None => if HasPrefix s sub then Some 0%nat else None
               end
  end.

(** [strings.IndexAny(s, chars)], or the end. *)
Definition until_any (chars s : bytes) : bytes := fst (span (fun c => bool_decide (c ∉ chars)) s).

Section ics.
Context (ToUpper ToLower : bytes -> bytes).

(** [s[from:]]; [None] is the run-time panic. *)
Definition slice_from (s : bytes) (from : nat) : option bytes :=
  if (length s <? from)%nat then None else Some (drop from s).

Definition attendee_email (line : bytes) : option bytes :=
  match LastIndex (ToLower line) (bs "mailto:") with
  | None => Some []
  | Some idx =>
      email ← slice_from line (idx + 7);
      Some (ToLower (TrimSpace (trim_right ([">"%byte; x20; x09; x0d; x0a]) email)))
  end.

Definition attendee_partstat (line : bytes) : option bytes :=
  match Index (ToUpper line) (bs "PARTSTAT=") with
  | None => Some []
  | Some idx =>
      rest ← slice_from line (idx + 9);
      Some (ToUpper (TrimSpace (until_any (bs ";:") rest)))
  end.

Definition parseAttendeeLine (line : bytes) : option parsedAttendee :=
  email ← attendee_email line;
  partStat ← attendee_partstat line;
  Some (mkAttendee email partStat).

(** The result so far and [inVEvent]. *)
Definition ics_state : Type := parsedICS * bool.

Definition processLine (st : ics_state) (line : bytes) : option ics_state :=
  let '(r, inVEvent) := st in
  let line := trim_right [x0d; x0a] line in
  if HasPrefix line (bs "METHOD:") then
    Some (mkICS (ToUpper (TrimSpace (TrimPrefix line (bs "METHOD:")))) (UID r) (Attendees r), inVEvent)
  else if bool_decide (line = bs "BEGIN:VEVENT") then Some (r, true)
  else if bool_decide (line = bs "END:VEVENT") then Some (r, false)
  else if negb inVEvent then Some (r, inVEvent)
  else if HasPrefix line (bs "UID:") then
    Some (mkICS (Method r) (TrimSpace (TrimPrefix line (bs "UID:"))) (Attendees r), inVEvent)
  else if HasPrefix line (bs "ATTENDEE") then
    att ← parseAttendeeLine line;
    Some (if bool_decide (Email att = []) then r else mkICS (Method r) (UID r) (Attendees r ++ [att]),
          inVEvent)
  else Some (r, inVEvent).

Definition process_nonempty (st : ics_state) (line : bytes) : option ics_state :=
  if bool_decide (line = []) then Some st else processLine st line.

Definition is_folded (raw : bytes) : bool :=
  match raw with c :: _ => bool_decide (c = x20 \/ c = x09) | [] => false end.

(** The loop over scanned lines, with [currentLine]. *)
Fixpoint ics_lines (ls : list bytes) (currentLine : bytes) (st : ics_state) : option ics_state :=
  match ls with
  | [] => process_nonempty st currentLine
  | raw :: ls =>
      if is_folded raw then ics_lines ls (currentLine ++ drop 1 raw) st
      else st ← process_nonempty st currentLine; ics_lines ls raw st
  end.

(** The outer option is the panic, the inner one the code's nil. *)
Definition parseICSMethod (data : bytes) : option (option parsedICS) :=
  '(r, _) ← ics_lines (scan_lines_max 8192 data) [] (mkICS [] [] [], false);
  Some (if bool_decide (Method r = []) || bool_decide (UID r = []) then None else Some r).

Definition mapPartStat (partstat : bytes) : bytes :=
  let u := ToUpper partstat in
  if bool_decide (u = bs "ACCEPTED") then bs "accepted"
  else if bool_decide (u = bs "DECLINED") then bs "declined"
  else if bool_decide (u = bs "TENTATIVE") then bs "tentative"
  else if bool_decide (u = bs "NEEDS-ACTION") then bs "needs-action"
  else [].

(** ** Effects *)

Record calendarEvent := mkEvent { EventID : bytes; ExternalUID : option bytes }.

Inductive effect :=
| UpdateAttendeeResponse (user tenant event email status : bytes)
| BroadcastAttendeeResponse (tenant uid email status : bytes)
| MarkCancelled (user tenant event : bytes)
| NotifyUpdated (user uid : bytes).

Record calendarStore := mkStore {
  GetByExternalUID : bytes -> bytes -> bytes -> option calendarEvent;
  update_ok : bytes -> bytes -> bytes -> bool;    (* event, email, status *)
  ListUsersByExternalUID : bytes -> bytes -> option (list bytes);
  redis : bool
}.

Definition notifyCalendarEventUpdated (cs : calendarStore) (tenant uid : bytes) : list effect :=
  if negb (redis cs) || bool_decide (uid = []) then []
  else (fun u => NotifyUpdated u uid) <$> default [] (ListUsersByExternalUID cs tenant uid).

Definition reply_one (cs : calendarStore) (user tenant : bytes) (ev : calendarEvent) (uid : bytes)
    (att : parsedAttendee) : list effect :=
  if bool_decide (Email att = []) || bool_decide (PartStat att = []) then []
  else
    let status := mapPartStat (PartStat att) in
    if bool_decide (status = []) then []
    else
      UpdateAttendeeResponse user tenant (EventID ev) (Email att) status ::
      (if negb (update_ok cs (EventID ev) (Email att) status) then []
       else
         let externalUID := match ExternalUID ev with
                            | Some ((_ :: _) as x) => x
                            | _ => uid
                            end in
         BroadcastAttendeeResponse tenant externalUID (Email att) status ::
         notifyCalendarEventUpdated cs tenant externalUID).

Definition processICSReply (cs : calendarStore) (user tenant : bytes) (ics : parsedICS) : list effect :=
  if bool_decide (Attendees ics = []) then []
  else match GetByExternalUID cs user tenant (UID ics) with
       | None => []
       | Some ev => concat (reply_one cs user tenant ev (UID ics) <$> Attendees ics)
       end.

Definition processICSCancel (cs : calendarStore) (user tenant : bytes) (ics : parsedICS) : list effect :=
  match GetByExternalUID cs user tenant (UID ics) with
  | None => []
  | Some ev => [MarkCancelled user tenant (EventID ev)]
  end.

(** [None] is a panic. *)
Definition processInboundICS (cs : calendarStore) (user tenant icsData : bytes) : option (list effect) :=
  ics ← parseICSMethod icsData;
  Some (match ics with
        | None => []
        | Some ics =>
            if bool_decide (Method ics = bs "REPLY") then processICSReply cs user tenant ics
            else if bool_decide (Method ics = bs "CANCEL") then processICSCancel cs user tenant ics
            else []
        end).

(** * Theorems *)

(** A line folded in two after any of its bytes is read as one. *)
Theorem folding_is_invisible l1 l2 a b cur st :
  is_folded a = false -> a <> [] ->
  ics_lines (l1 ++ [a; x20 :: b] ++ l2) cur st = ics_lines (l1 ++ [a ++ b] ++ l2) cur st.
Proof.
  intros Ha Hne. revert cur st. induction l1 as [|l l1 IH]; intros cur st; cbn [app ics_lines].
  - assert (is_folded (a ++ b) = false) as -> by (by destruct a).
    rewrite Ha. cbn [is_folded drop]. rewrite bool_decide_eq_true_2 by by left. done.
  - destruct (is_folded l); [apply IH|]. destruct (process_nonempty st cur); cbn; [apply IH|done].
Qed.

Lemma Index_bound s sub i : Index s sub = Some i -> (i + length sub <= length s)%nat.
Proof.
  revert i. induction s as [|c s IH]; intros i H; cbn [Index] in H.
  - destruct sub; cbn in H; [by injection H as <-|done].
  - destruct (HasPrefix (c :: s) sub) eqn:E.
    + injection H as <-. apply HasPrefix_spec in E as [t E].
      rewrite E, length_app. lia.
    + apply fmap_Some in H as (j & Hj & ->). apply IH in Hj. cbn [length]. lia.
Qed.

Lemma LastIndex_bound s sub i : LastIndex s sub = Some i -> (i + length sub <= length s)%nat.
Proof.
  revert i. induction s as [|c s IH]; intros i H; cbn [LastIndex] in H.
  - destruct sub; cbn in H; [by injection H as <-|done].
  - destruct (LastIndex s sub) as [j|] eqn:E.
    + injection H as <-. specialize (IH j eq_refl). cbn [length]. lia.
    + destruct (HasPrefix (c :: s) sub) eqn:Ep; [|done]. injection H as <-.
      apply HasPrefix_spec in Ep as [t Ep]. rewrite Ep, length_app. lia.
Qed.

Lemma slice_from_spec s n : slice_from s n = None <-> (length s < n)%nat.
Proof. unfold slice_from. destruct (Nat.ltb_spec (length s) n); split; (done || lia). Qed.

(** Reading an ATTENDEE line panics exactly when an offset found in a
    converted copy lies beyond the original; never when both conversions keep
    the length of the line. *)
Theorem attendee_panics_iff line :
  (parseAttendeeLine line = None <->
   (exists i, LastIndex (ToLower line) (bs "mailto:") = Some i /\ (length line < i + 7)%nat) \/
   (exists i, Index (ToUpper line) (bs "PARTSTAT=") = Some i /\ (length line < i + 9)%nat)) /\
  (length (ToLower line) = length line -> length (ToUpper line) = length line ->
   is_Some (parseAttendeeLine line)).
Proof.
  assert (Hm : attendee_email line = None <->
    exists i, LastIndex (ToLower line) (bs "mailto:") = Some i /\ (length line < i + 7)%nat).
  { unfold attendee_email. destruct (LastIndex _ _) as [i|]; [|split; [done|by intros (? & [=] & _)]].
    rewrite bind_None, slice_from_spec. split; [|intros (j & [= <-] & ?); by left].
    intros [?|(? & ? & ?)]; [eauto|done]. }
  assert (Hp : attendee_partstat line = None <->
    exists i, Index (ToUpper line) (bs "PARTSTAT=") = Some i /\ (length line < i + 9)%nat).
  { unfold attendee_partstat. destruct (Index _ _) as [i|]; [|split; [done|by intros (? & [=] & _)]].
    rewrite bind_None, slice_from_spec. split; [|intros (j & [= <-] & ?); by left].
    intros [?|(? & ? & ?)]; [eauto|done]. }
  assert (Hn : parseAttendeeLine line = None <->
    attendee_email line = None \/ attendee_partstat line = None).
  { unfold parseAttendeeLine. destruct (attendee_email line); cbn; [|naive_solver].
    destruct (attendee_partstat line); cbn; naive_solver. }
  rewrite Hn, Hm, Hp. split; [done|]. intros Hl Hu. apply not_eq_None_Some. rewrite Hn, Hm, Hp.
  intros [(i & Hi & Hlt)|(i & Hi & Hlt)].
  - apply LastIndex_bound in Hi. cbn in Hi. lia.
  - apply Index_bound in Hi. cbn in Hi. lia.
Qed.

(** A calendar file that cancels an event is obeyed whoever sent it: the
    organizer recorded with the event is not consulted, and no result of
    authentication is an input. *)
Theorem cancel_needs_no_organizer cs user tenant data ics ev :
  parseICSMethod data = Some (Some ics) -> Method ics = bs "CANCEL" ->
  GetByExternalUID cs user tenant (UID ics) = Some ev ->
  processInboundICS cs user tenant data = Some [MarkCancelled user tenant (EventID ev)].
Proof.
  intros Hp Hm Hg. unfold processInboundICS. rewrite Hp. cbn [mbind option_bind].
  rewrite Hm. rewrite bool_decide_eq_false_2 by (intros [=]). rewrite bool_decide_eq_true_2 by done.
  unfold processICSCancel. by rewrite Hg.
Qed.
End ics.

Lemma ToLower_length s : length (GoNet.ToLower s) = length s.
Proof. apply length_fmap. Qed.

(** * Witnesses *)

#[local] Definition up (b : byte) : byte :=
  if byte_between "a" "z" b then default b (Byte.of_N (Byte.to_N b - 32)%N) else b.

(** ASCII, and U+0250, whose upper case U+2C6F is one byte longer. *)
#[local] Fixpoint demo_upper (s : bytes) : bytes :=
  match s with
  | xc9 :: (x90 :: r) => [xe2; xb1; xaf] ++ demo_upper r
  | c :: r => up c :: demo_upper r
  | [] => []
  end.

(** Ten letters U+0250 before the parameter: reading the line panics. *)
Example foreign_name_panics :
  parseAttendeeLine demo_upper GoNet.ToLower
    (bs "ATTENDEE;CN=" ++ concat (replicate 10 [xc9; x90]) ++ bs ";PARTSTAT=") = None.
Proof. vm_compute. reflexivity. Qed.

#[local] Definition cancel_text : bytes :=
  bs "BEGIN:VCALENDAR" ++ [x0d; x0a] ++ bs "METHOD:CANCEL" ++ [x0d; x0a] ++ bs "BEGIN:VEVENT" ++ [x0d; x0a] ++
  bs "UID:meeting-" ++ [x0d; x0a] ++ bs " 42" ++ [x0d; x0a] ++ bs "END:VEVENT" ++ [x0d; x0a].

#[local] Definition demo_store : calendarStore :=
  mkStore (fun _ _ uid => if bool_decide (uid = bs "meeting-42") then Some (mkEvent (bs "e1") None) else None)
    (fun _ _ _ => true) (fun _ _ => None) false.

Lemma attendee_panics_iff_witness :
  is_Some (parseAttendeeLine demo_upper GoNet.ToLower (bs "ATTENDEE;PARTSTAT=accepted:mailto:A@b.org")).
Proof. apply attendee_panics_iff; vm_compute; reflexivity. Defined.

Lemma cancel_needs_no_organizer_witness :
  processInboundICS demo_upper GoNet.ToLower demo_store (bs "u1") (bs "t") cancel_text =
  Some [MarkCancelled (bs "u1") (bs "t") (bs "e1")].
Proof.
  apply (cancel_needs_no_organizer demo_upper GoNet.ToLower demo_store (bs "u1") (bs "t") cancel_text
    (mkICS (bs "CANCEL") (bs "meeting-42") []) (mkEvent (bs "e1") None)).
  - vm_compute. reflexivity.
  - reflexivity.
  - vm_compute. reflexivity.
Defined.
