(* ===== verification/Compose.v ===== *)
(** Composing an outgoing message: the text helpers and composeRFC5322 of
    src/cmd/smtp-outbound/main.go, and the delivery report of
    src/internal/smtp/bounce.go.

Unicode case mapping, html.UnescapeString, the calendar of package time, the
clock and the generated identifiers are parameters. *)

From stdpp Require Import pretty.
From S2P Require Import Prelude GoNet FilePath GoStrings Regexp Decimal MailParse Pgp Calendar.
Local Open Scope Z_scope.

(** * Text *)

Definition dq : bytes := [x22].
Definition dec (n : Z) : bytes := bs (pretty n).

Definition normalizeEditorHTML (s : bytes) : bytes :=
  let s := ReplaceAll s (bs "<div><br></div>") (bs "<br>") in
  ReplaceAll s (bs "<div><br/></div>") (bs "<br>").

Definition sanitizeHeaderValue (s : bytes) : bytes :=
  Replace [(crlf, bs " "); ([x0d], bs " "); ([x0a], bs " "); ([x00], [])] s.

Definition upper_hex (n : nat) : byte := nth n (bs "0123456789ABCDEF") x00.

(** [fmt.Fprintf(w, "%%%02X", c)] *)
Definition percent (c : byte) : bytes := ["%"%byte; upper_hex (Hex.hi_nibble c); upper_hex (Hex.lo_nibble c)].

Definition filename_safe (c : byte) : bool := re_alnum c || one_of (bs ".-_~") c.

Definition encodeRFC2231Filename (filename : bytes) : bytes :=
  concat ((fun c => if filename_safe c then [c] else percent c) <$> filename).

(** [url.QueryEscape] *)
Definition QueryEscape (s : bytes) : bytes :=
  concat ((fun c => if filename_safe c then [c] else if byte_eqb c x20 then bs "+" else percent c) <$> s).

(** [base64.URLEncoding.DecodeString] *)
Definition base64url_decode (s : bytes) : option bytes :=
  if existsb (one_of (bs "+/")) s then None
  else base64_decode ((fun c => if byte_eqb c "-" then "+"%byte else if byte_eqb c "_" then "/"%byte else c) <$> s).

Definition base64Decode (s : bytes) : option bytes :=
  match base64_decode s with Some b => Some b | None => base64url_decode s end.

(** The runes outside angle brackets. *)
Fixpoint strip_runes (inTag : bool) (rs : list bytes) : bytes :=
  match rs with
  | [] => []
  | r :: rs =>
      if bool_decide (r = bs "<") then strip_runes true rs
      else if bool_decide (r = bs ">") then strip_runes false rs
      else if inTag then strip_runes inTag rs else r ++ strip_runes inTag rs
  end.

Definition stripHTMLTags (s : bytes) : bytes := strip_runes false (runes s).

(** [html.EscapeString] *)
Definition EscapeString (s : bytes) : bytes :=
  Replace [(bs "&", bs "&amp;"); (bs "'", bs "&#39;"); (bs "<", bs "&lt;"); (bs ">", bs "&gt;"); (dq, bs "&#34;")] s.

(** [writeBase64Lines]: 76 characters a line. *)
Fixpoint chunks (fuel : nat) (encoded : bytes) : bytes :=
  match fuel with
  | O => []
  | S fuel =>
      match encoded with
      | [] => []
      | _ => take 76 encoded ++ crlf ++ chunks fuel (drop 76 encoded)
      end
  end.

Definition writeBase64Lines (data : bytes) : bytes :=
  let encoded := base64 data in chunks (length encoded) encoded.

(** * Inline images *)

Record cidImage := mkImage { CID : bytes; ContentType : bytes; Data : bytes }.

Definition safeImageMIMEs : list bytes := bs <$>
  ["png"%string; "jpeg"%string; "jpg"%string; "gif"%string; "webp"%string; "bmp"%string; "ico"%string; "avif"%string].

Definition re_space (c : byte) : bool := one_of [x09; x0a; x0c; x0d; x20] c.
Definition not_gt (c : byte) : bool := negb (byte_eqb c ">").
Definition re_quote : re := Chr (one_of (bs "'" ++ dq)).

Definition dataURIRegexp : re :=
  cats [Grp 1 (cats [lit (bs "<img"); WordEdge; Star (Chr not_gt); WordEdge; lit (bs "src");
                     Star (Chr re_space); lit (bs "="); Star (Chr re_space); re_quote]);
        lit (bs "data:image/");
        Grp 2 (Plus (Chr (fun c => re_alnum c || one_of (bs "+.-") c)));
        lit (bs ";base64,");
        Grp 3 (Plus (Chr (fun c => re_alnum c || one_of (bs "+/=") c || re_space c)));
        Grp 4 (cats [re_quote; Star (Chr not_gt); lit (bs ">")])].

(** [%03d] *)
Definition dec3 (n : nat) : bytes :=
  let d := dec (Z.of_nat n) in replicate (3 - length d) "0"%byte ++ d.

Definition cid_of (counter : nat) : bytes := bs "img" ++ dec3 counter ++ bs "@bmail.ag".

(** The replacement of one tag; the images so far are also the counter.  The
    type is ASCII, so [strings.ToLower] maps its letters only. *)
Definition image_tag (images : list cidImage) (match_ : bytes) (_ : position) : bytes * list cidImage :=
  match FindStringSubmatch dataURIRegexp match_ with
  | None => (match_, images)
  | Some parts =>
      let imgType := group parts 2 in
      if negb (bool_decide (ToLower imgType ∈ safeImageMIMEs)) then (match_, images)
      else
        match base64_decode (concat (Fields (group parts 3))) with
        | None => (match_, images)
        | Some raw =>
            let cid := cid_of (S (length images)) in
            (group parts 1 ++ bs "cid:" ++ cid ++ group parts 4,
             images ++ [mkImage cid (bs "image/" ++ imgType) raw])
        end
  end.

Definition extractInlineImages (html : bytes) : bytes * list cidImage :=
  ReplaceAllStringFunc dataURIRegexp html image_tag [].

Definition tag := bs "<p><IMG src='a'><img alt='x' src = 'data:image/png;base64,aGk=' w=1><img src='data:image/svg+xml;base64,aGk='>".
Example inline_ex : extractInlineImages tag =
  (bs "<p><IMG src='a'><img alt='x' src = 'cid:img001@bmail.ag' w=1><img src='data:image/svg+xml;base64,aGk='>",
   [mkImage (bs "img001@bmail.ag") (bs "image/png") (bs "hi")]).
Proof. vm_compute. reflexivity. Qed.

(** * The free tier's footer *)

Definition appendFreeTierFooter (body format senderDomain affiliateCode : bytes) : bytes :=
  let senderDomain := if bool_decide (senderDomain = []) then bs "bmail.ag" else senderDomain in
  let signupURL := if bool_decide (affiliateCode = []) then bs "https://bmail.ag/"
                   else bs "https://bmail.ag/?_a=" ++ QueryEscape affiliateCode in
  if bool_decide (format = bs "plain") then
    body ++ crlf ++ crlf ++ bs "-- " ++ crlf ++
    bs "Sent with bmail — private encrypted email. Get your @" ++ senderDomain ++
    bs " email free at " ++ signupURL ++ crlf
  else
    body ++ bs "<div style=" ++ dq ++
    bs "margin-top:24px;padding-top:8px;border-top:1px solid #eee;color:#888;font:12px -apple-system,BlinkMacSystemFont,Segoe UI,sans-serif" ++
    dq ++ bs "><a href=" ++ dq ++ signupURL ++ dq ++ bs " style=" ++ dq ++ bs "color:#888;text-decoration:none" ++ dq ++
    bs ">Sent with bmail — private encrypted email. Get your @" ++ senderDomain ++ bs " email free →</a></div>".

(** * Bounce reasons *)

Definition bounceReasonRegexp : re :=
  let ws := Chr re_space in let digits := Plus (Chr re_digit) in let dot := lit (bs ".") in
  cats [TextStart; Star ws;
        Grp 1 (Alt (cats [Opt (Cat (times 3 (Chr re_digit)) (Plus ws)); digits; dot; digits; dot; digits])
                   (times 3 (Chr re_digit)));
        WordEdge; Star ws; Grp 2 (Star (Chr (fun c => negb (byte_eqb c x0a)))); TextEnd].

Definition splitBounceReason (reason : bytes) : bytes * bytes :=
  match FindStringSubmatch bounceReasonRegexp reason with
  | None => ([], reason)
  | Some m => (group m 1, group m 2)
  end.

Example split_ex1 : splitBounceReason (bs "550 5.1.1 No such user") = (bs "550 5.1.1", bs "No such user").
Proof. vm_compute. reflexivity. Qed.
Example split_ex2 : splitBounceReason (bs "5.7.1 spam blocked") = (bs "5.7.1", bs "spam blocked").
Proof. vm_compute. reflexivity. Qed.
Example split_ex3 : splitBounceReason (bs "450: greylisted") = (bs "450", bs ": greylisted").
Proof. vm_compute. reflexivity. Qed.
Example split_ex4 : splitBounceReason (bs "permanent SMTP error 550") = ([], bs "permanent SMTP error 550").
Proof. vm_compute. reflexivity. Qed.

(** * Parameters *)

Record Libs := {
  ToUpper : bytes -> bytes; ToLowerU : bytes -> bytes;       (* strings.ToUpper, strings.ToLower *)
  UnescapeString : bytes -> bytes;                           (* html.UnescapeString *)
  day_text : bytes -> option bytes;       (* Parse("20060102", v), then Format("Mon, Jan 2, 2006") *)
  minute_text : bytes -> option bytes     (* Parse("20060102T150405", v), then Format("Mon, Jan 2, 2006 3:04 PM") *)
}.

(** What a call of [composeRFC5322] reads: a new UUID, the date in RFC1123Z and
    [time.Now().UnixNano()] where a boundary is made. *)
Record Moment := {
  new_uuid : bytes; date : bytes;
  nano_alt : Z; nano_rel : Z; nano_mixed : Z; nano_cal : Z
}.

(** The fields of the queue's payload that are read here or by the handler. *)
Record plaintextAttachment := mkPA { AttachmentID : bytes; pa_Filename : bytes; pa_ContentType : bytes; pa_Data : bytes }.

Record OutboundMessage := mkOM {
  ToAddress : bytes;
  SenderAddress : bytes;
  EncryptedBody : bytes;
  EncryptedSubject : bytes;
  TenantID : bytes;
  EncryptionType : bytes;
  RFCMessageID : bytes;
  SenderDisplayName : bytes;
  AttachmentIDs : list bytes;
  SenderUserID : bytes;
  SenderTier : bytes;
  SenderAffiliateCode : bytes;
  PlaintextAttachments : list plaintextAttachment;
  CcAddresses : list bytes;
  om_InReplyTo : bytes;
  BodyFormat : bytes;
  Attempt : Z
}.

Record mimeAttachment := mkMime { Filename : bytes; ma_ContentType : bytes; ma_Data : bytes }.

Section compose.
Context (L : Libs).

(** * Calendars *)

Definition normalize_breaks (body : bytes) : bytes :=
  ReplaceAll (ReplaceAll body crlf [x0a]) [x0d] [x0a].

(** [None] is the run-time panic of a slice, here and below. *)
Fixpoint find_method (ls : list bytes) : option bytes :=
  match ls with
  | [] => Some []
  | line :: ls =>
      let trimmed := TrimSpace line in
      if HasPrefix (ToUpper L trimmed) (bs "METHOD:")
      then value ← slice_from trimmed 7; Some (TrimSpace value)
      else find_method ls
  end.

Definition extractICSMethod (body : bytes) : option bytes :=
  find_method (split_byte x0a (normalize_breaks body)).

Definition icsFoldRe : re := Cat (Chr (byte_eqb x0a)) (Chr (one_of [x20; x09])).

Definition icsUnfoldLines (body : bytes) : list bytes :=
  let n := ReplaceAllString icsFoldRe (normalize_breaks body) [] in
  filter (fun l => TrimSpace l <> []) (split_byte x0a n).

(** The text before the first [c], and after it if there is one. *)
Definition cut (c : byte) (s : bytes) : bytes * option bytes :=
  match IndexByte c s with
  | Some i => (take i s, Some (drop (S i) s))
  | None => (s, None)
  end.

Fixpoint icsProp (lines : list bytes) (name : bytes) : bytes * bytes :=
  match lines with
  | [] => ([], [])
  | l :: lines =>
      match cut ":" l with
      | (_, None) => icsProp lines name
      | (key, Some value) =>
          let '(kn, params) := cut ";" key in
          if bool_decide (ToUpper L (TrimSpace kn) = ToUpper L name) then (default [] params, value)
          else icsProp lines name
      end
  end.

Definition icsUnescapeText (s : bytes) : bytes :=
  let s := ReplaceAll s (bs "\n") [x0a] in
  let s := ReplaceAll s (bs "\N") [x0a] in
  let s := ReplaceAll s (bs "\,") (bs ",") in
  let s := ReplaceAll s (bs "\;") (bs ";") in
  TrimSpace (ReplaceAll s (bs "\\") (bs "\")).

Definition icsHumanWhen (lines : list bytes) : bytes :=
  let '(params, val) := icsProp lines (bs "DTSTART") in
  let val := TrimSpace val in
  if bool_decide (val = []) then []
  else
    let all_day := if contains (ToUpper L params) (bs "VALUE=DATE") || (length val =? 8)%nat
                   then day_text L val else None in
    match all_day with
    | Some t => t ++ bs " (all day)"
    | None =>
        let '(v, suffix) := if HasSuffix val (bs "Z") then (TrimSuffix val (bs "Z"), bs " UTC") else (val, []) in
        match minute_text L v with Some t => t ++ suffix | None => val end
    end.

Definition icsFriendlyBody (body : bytes) : option (bytes * bytes) :=
  let lines := icsUnfoldLines body in
  let prop (name : string) := snd (icsProp lines (bs name)) in
  let summary := icsUnescapeText (prop "SUMMARY"%string) in
  let loc := icsUnescapeText (prop "LOCATION"%string) in
  let desc := icsUnescapeText (prop "DESCRIPTION"%string) in
  let org := prop "ORGANIZER"%string in
  orgEmail ← match LastIndex (ToLowerU L org) (bs "mailto:") with
             | Some i => e ← slice_from org (i + 7); Some (TrimSpace e)
             | None => Some []
             end;
  let when := icsHumanWhen lines in
  method ← extractICSMethod body;
  let verb := if bool_decide (ToUpper L method = bs "CANCEL") then bs "This event was cancelled"
              else if bool_decide (ToUpper L method = bs "REPLY") then bs "RSVP update for"
              else bs "You've been invited to" in
  let summary := if bool_decide (summary = []) then bs "(untitled event)" else summary in
  let esc := EscapeString in
  let unless_empty (s text : bytes) := if bool_decide (s = []) then [] else text in
  let hb :=
    bs "<p>" ++ esc verb ++ bs ":</p><p><strong>" ++ esc summary ++ bs "</strong>" ++
    unless_empty when (bs "<br>" ++ esc when) ++ bs "</p>" ++
    unless_empty loc
      (if HasPrefix loc (bs "http://") || HasPrefix loc (bs "https://")
       then bs "<p>📍 <a href=" ++ dq ++ esc loc ++ dq ++ bs ">" ++ esc loc ++ bs "</a></p>"
       else bs "<p>📍 " ++ esc loc ++ bs "</p>") ++
    unless_empty desc (bs "<p>" ++ ReplaceAll (esc desc) [x0a] (bs "<br>") ++ bs "</p>") ++
    unless_empty orgEmail
      (bs "<p style=" ++ dq ++ bs "color:#888;font-size:13px" ++ dq ++ bs ">Organizer: " ++ esc orgEmail ++ bs "</p>") in
  let pb :=
    verb ++ bs ":" ++ [x0a] ++ summary ++ [x0a] ++
    unless_empty when (when ++ [x0a]) ++ unless_empty loc (loc ++ [x0a]) ++
    unless_empty desc ([x0a] ++ desc ++ [x0a]) ++
    unless_empty orgEmail ([x0a] ++ bs "Organizer: " ++ orgEmail ++ [x0a]) in
  Some (pb, hb).

(** * The message *)

Definition or_default (s dflt : bytes) : bytes := if bool_decide (s = []) then dflt else s.

Definition domain_of (addr : bytes) : option bytes :=
  i ← LastIndexByte "@" addr; Some (drop (S i) addr).

(** "<uuid@domain>", where an address without "@" gives [dflt]. *)
Definition message_id (uuid addr : bytes) : bytes :=
  bs "<" ++ uuid ++ bs "@" ++ default (bs "bmail.ag") (domain_of addr) ++ bs ">".

Definition line (s : bytes) : bytes := s ++ crlf.

(** Subject and body in clear. *)
Definition decode_payload (om : OutboundMessage) : bytes * bytes :=
  let subject := or_default (EncryptedSubject om) (bs "(no subject)") in
  let body := EncryptedBody om in
  if bool_decide (EncryptionType om = bs "plaintext") then
    let subject := sanitizeHeaderValue (default subject (base64Decode subject)) in
    let body := ReplaceAll (default body (base64Decode body)) [x00] [] in
    let body := if bool_decide (SenderTier om = bs "free")
                then appendFreeTierFooter body (BodyFormat om) (default [] (domain_of (SenderAddress om)))
                       (SenderAffiliateCode om)
                else body in
    (subject, body)
  else (subject, body).

Fixpoint join (sep : bytes) (l : list bytes) : bytes :=
  match l with
  | [] => []
  | [x] => x
  | x :: l => x ++ sep ++ join sep l
  end.

(** The header fields up to MIME-Version. *)
Definition from_value (om : OutboundMessage) : bytes :=
  let addr := sanitizeHeaderValue (SenderAddress om) in
  if bool_decide (SenderDisplayName om = []) then addr
  else
    let safeName := sanitizeHeaderValue (SenderDisplayName om) in
    let safeName := ReplaceAll safeName (bs "\") (bs "\\") in
    let safeName := ReplaceAll safeName dq (bs "\" ++ dq) in
    dq ++ safeName ++ dq ++ bs " <" ++ addr ++ bs ">".

Definition header_fields (om : OutboundMessage) (subject msgID : bytes) (t : Moment) : list (bytes * bytes) :=
  [(bs "From", from_value om); (bs "To", sanitizeHeaderValue (ToAddress om))] ++
  (if bool_decide (CcAddresses om = []) then []
   else [(bs "Cc", join (bs ", ") (sanitizeHeaderValue <$> CcAddresses om))]) ++
  [(bs "Subject", sanitizeHeaderValue subject); (bs "Date", date t); (bs "Message-Id", msgID)] ++
  (if bool_decide (om_InReplyTo om = []) then []
   else [(bs "In-Reply-To", sanitizeHeaderValue (om_InReplyTo om));
         (bs "References", sanitizeHeaderValue (om_InReplyTo om))]) ++
  [(bs "MIME-Version", bs "1.0")].

Definition field_text (f : bytes * bytes) : bytes := line (f.1 ++ bs ": " ++ f.2).
Definition boundary (kind : string) (nano : Z) : bytes := bs "=_bmail_" ++ bs kind ++ bs "_" ++ dec nano.
Definition multipart (subtype : string) (b : bytes) : bytes :=
  line (bs "Content-Type: multipart/" ++ bs subtype ++ bs "; boundary=" ++ dq ++ b ++ dq).
Definition content_line (s : string) : bytes := line (bs "Content-Type: " ++ bs s).
Definition open_part (b : bytes) : bytes := line (bs "--" ++ b).
Definition close_parts (b : bytes) : bytes := line (bs "--" ++ b ++ bs "--").
Definition html_document (s : bytes) : bytes := line (bs "<!DOCTYPE html><html><body>" ++ s ++ bs "</body></html>").

Definition plain_of_html (body : bytes) : bytes :=
  let nl (tag : string) s := ReplaceAll s (bs tag) [x0a] in
  let s := nl "</div>"%string (nl "</p>"%string (nl "<br />"%string (nl "<br/>"%string (nl "<br>"%string body)))) in
  UnescapeString L (stripHTMLTags s).

Definition writeAltParts (t : Moment) (isHTML : bool) (body : bytes) : bytes :=
  if isHTML then
    let b := boundary "alt" (nano_alt t) in
    multipart "alternative" b ++ crlf ++
    open_part b ++ content_line "text/plain; charset=utf-8" ++ crlf ++ line (TrimSpace (plain_of_html body)) ++
    open_part b ++ content_line "text/html; charset=utf-8" ++ crlf ++ html_document body ++
    close_parts b
  else content_line "text/plain; charset=utf-8" ++ crlf ++ line (UnescapeString L body).

Definition image_part (b : bytes) (i : cidImage) : bytes :=
  open_part b ++ line (bs "Content-Type: " ++ ContentType i) ++ line (bs "Content-Transfer-Encoding: base64") ++
  line (bs "Content-ID: <" ++ CID i ++ bs ">") ++ line (bs "Content-Disposition: inline") ++ crlf ++
  writeBase64Lines (Data i).

Definition writeRelatedParts (t : Moment) (isHTML : bool) (body : bytes) (images : list cidImage) : bytes :=
  let b := boundary "rel" (nano_rel t) in
  multipart "related" b ++ crlf ++ open_part b ++ writeAltParts t isHTML body ++
  concat (image_part b <$> images) ++ close_parts b.

Definition file_part (b : bytes) (a : mimeAttachment) : bytes :=
  let ct := or_default (ma_ContentType a) (bs "application/octet-stream") in
  let encoded := encodeRFC2231Filename (Filename a) in
  open_part b ++
  bs "Content-Type: " ++ ct ++ bs ";" ++ crlf ++ [x09] ++ line (bs "name*=UTF-8''" ++ encoded) ++
  bs "Content-Disposition: attachment;" ++ crlf ++ [x09] ++ line (bs "filename*=UTF-8''" ++ encoded) ++
  line (bs "Content-Transfer-Encoding: base64") ++ crlf ++ writeBase64Lines (ma_Data a).

Definition writeFileAttachments (b : bytes) (attachments : list mimeAttachment) : bytes :=
  concat (file_part b <$> attachments).

Definition calendar_parts (t : Moment) (body : bytes) : option bytes :=
  method ← extractICSMethod body;
  let method := or_default method (bs "REQUEST") in
  '(plain, htmlBody) ← icsFriendlyBody body;
  let b := boundary "cal" (nano_cal t) in
  Some (multipart "alternative" b ++ crlf ++
    open_part b ++ content_line "text/plain; charset=utf-8" ++ crlf ++ line (TrimSpace plain) ++
    open_part b ++ content_line "text/html; charset=utf-8" ++ crlf ++ html_document htmlBody ++
    open_part b ++ line (bs "Content-Type: text/calendar; charset=utf-8; method=" ++ method) ++ crlf ++ line body ++
    close_parts b).

Definition mixed (t : Moment) (first : bytes) (attachments : list mimeAttachment) : bytes :=
  let b := boundary "mixed" (nano_mixed t) in
  multipart "mixed" b ++ crlf ++ open_part b ++ first ++ writeFileAttachments b attachments ++ close_parts b.

(** The part from Content-Type on. *)
Definition body_parts (t : Moment) (om : OutboundMessage) (body : bytes) (images : list cidImage)
    (attachments : list mimeAttachment) : option bytes :=
  let isHTML := negb (bool_decide (BodyFormat om = bs "plain")) in
  if bool_decide (BodyFormat om = bs "calendar") then calendar_parts t body
  else Some
    match images, attachments with
    | [], [] => writeAltParts t isHTML body
    | _ :: _, [] => writeRelatedParts t isHTML body images
    | [], _ :: _ => mixed t (writeAltParts t isHTML body) attachments
    | _ :: _, _ :: _ => mixed t (writeRelatedParts t isHTML body images) attachments
    end.

Definition message_id_of (t : Moment) (om : OutboundMessage) : bytes :=
  or_default (RFCMessageID om) (message_id (new_uuid t) (SenderAddress om)).

Definition composeRFC5322 (t : Moment) (om : OutboundMessage) (attachments : list mimeAttachment) : option bytes :=
  let msgID := message_id_of t om in
  let '(subject, body) := decode_payload om in
  let '(body, inlineImages) := extractInlineImages (normalizeEditorHTML body) in
  parts ← body_parts t om body inlineImages attachments;
  Some (concat (field_text <$> header_fields om subject msgID t) ++ parts).

End compose.

(** * Delivery reports *)

Definition sanitizeHeader (s : bytes) : bytes :=
  Replace [(crlf, bs " "); ([x0d], bs " "); ([x0a], bs " "); ([x00], [])] s.

Definition bounce_fields (from date : bytes) (nano : Z) (permanent : bool) : list (bytes * bytes) :=
  let bounceDomain := default (bs "bmail.ag") (domain_of from) in
  [(bs "From", bs "mailer-daemon@" ++ bounceDomain); (bs "To", from);
   (bs "Subject", if permanent then bs "Delivery Status Notification (Failure)"
                  else bs "Delivery Status Notification (Delayed)");
   (bs "Date", date); (bs "Message-ID", bs "<" ++ dec nano ++ bs ".bounce@" ++ bounceDomain ++ bs ">");
   (bs "MIME-Version", bs "1.0")].

Definition GenerateBounce (date : bytes) (nano : Z) (originalFrom originalTo reason : bytes) (permanent : bool)
    : bytes :=
  let originalFrom := sanitizeHeader originalFrom in
  let originalTo := sanitizeHeader originalTo in
  let b := bs "=_bmail_dsn_" ++ dec nano in
  let sanitizedReason := sanitizeHeader reason in
  concat (field_text <$> bounce_fields originalFrom date nano permanent) ++
  bs "Content-Type: multipart/report; report-type=delivery-status;" ++ crlf ++
  [x09] ++ line (bs "boundary=" ++ dq ++ b ++ dq) ++ crlf ++
  open_part b ++ content_line "text/plain; charset=utf-8" ++ crlf ++
  (if permanent then
     line (bs "Your message to " ++ originalTo ++ bs " could not be delivered.") ++ crlf ++
     line (bs "This is a permanent error. The message will not be retried.")
   else
     line (bs "Delivery of your message to " ++ originalTo ++ bs " has been delayed.") ++ crlf ++
     line (bs "The server has exhausted all retry attempts.")) ++
  crlf ++ line (bs "Diagnostic information:") ++ line sanitizedReason ++ crlf ++
  open_part b ++ content_line "message/delivery-status" ++ crlf ++
  line (bs "Reporting-MTA: dns; bmail.ag") ++ line (bs "Arrival-Date: " ++ date) ++ crlf ++
  line (bs "Final-Recipient: rfc822; " ++ originalTo) ++
  line (bs "Action: " ++ (if permanent then bs "failed" else bs "delayed")) ++
  line (bs "Status: " ++ (if permanent then bs "5.0.0" else bs "4.0.0")) ++
  line (bs "Diagnostic-Code: smtp; " ++ sanitizedReason) ++ crlf ++
  close_parts b.

(** * No header is injected *)

Definition no_break (s : bytes) : Prop := (x0d ∉ s) /\ (x0a ∉ s).

Lemma no_break_app a b : no_break (a ++ b) <-> no_break a /\ no_break b.
Proof. unfold no_break. rewrite !not_elem_of_app. tauto. Qed.

Lemma no_break_dec s : forallb (fun c => negb (one_of crlf c)) s = true -> no_break s.
Proof.
  intros H. rewrite forallb_forall in H. unfold no_break. split; intros Hin%list_elem_of_In%H; by vm_compute in Hin.
Qed.

(** A byte is gone when it has a pair of its own and no replacement holds it. *)
Lemma replacing_removes pairs c new : ([c], new) ∈ pairs -> Forall (fun p => c ∉ p.2) pairs ->
  forall s skip, c ∉ replacing pairs skip s.
Proof.
  intros Hc Hn. induction s as [|x s IH]; intros skip; cbn [replacing]; [apply not_elem_of_nil|].
  destruct skip as [|skip]; [|apply IH].
  destruct (list_find _ pairs) as [[i [old new']]|] eqn:E.
  - apply list_find_Some in E as (Hi & _ & _). apply not_elem_of_app. split; [|apply IH].
    apply list_elem_of_lookup_2 in Hi. rewrite Forall_forall in Hn. apply (Hn _ Hi).
  - apply not_elem_of_cons. split; [|apply IH]. intros <-. apply list_find_None in E.
    rewrite Forall_forall in E. apply (E _ Hc). cbn. rewrite (proj2 (byte_eqb_eq c c) eq_refl). by destruct s.
Qed.

Lemma replacing_avoids pairs c : Forall (fun p => c ∉ p.2) pairs ->
  forall s skip, c ∉ s -> c ∉ replacing pairs skip s.
Proof.
  intros Hn. induction s as [|x s IH]; intros skip Hs; cbn [replacing]; [done|].
  apply not_elem_of_cons in Hs as [Hx Hs]. destruct skip as [|skip]; [|by apply IH].
  destruct (list_find _ pairs) as [[i [old new']]|] eqn:E.
  - apply list_find_Some in E as (Hi & _ & _). apply not_elem_of_app. split; [|by apply IH].
    apply list_elem_of_lookup_2 in Hi. rewrite Forall_forall in Hn. apply (Hn _ Hi).
  - apply not_elem_of_cons. split; [done|by apply IH].
Qed.

Lemma sanitized_no_break s : no_break (sanitizeHeaderValue s).
Proof.
  split; eapply replacing_removes; [right; left|..|right; right; left|]; repeat constructor;
    apply (bool_decide_unpack _); vm_compute; exact I.
Qed.

Lemma ReplaceAll_no_break s old new : no_break s -> no_break new -> no_break (ReplaceAll s old new).
Proof. intros [] []. split; apply replacing_avoids; repeat constructor; done. Qed.

Lemma dec_no_break n : no_break (dec n).
Proof. by split; apply pretty_Z_avoids. Qed.

#[export] Hint Resolve dec_no_break sanitized_no_break : bmail.

Ltac breaks :=
  repeat (rewrite no_break_app; split); auto with bmail; try (apply no_break_dec; vm_compute; reflexivity).

(** ** Lines *)

Lemma lines_from_line x : forall cur rest, x0a ∉ x ->
  lines_from cur (x ++ x0a :: rest) = (rev cur ++ x ++ [x0a]) :: lines_of rest.
Proof.
  induction x as [|c x IH]; intros cur rest Hx; cbn [app lines_from].
  - done.
  - apply not_elem_of_cons in Hx as [Hc Hx]. rewrite bool_decide_eq_false_2 by done.
    rewrite IH by done. cbn [rev]. by rewrite <-app_assoc.
Qed.

Lemma lines_of_line s rest : no_break s -> lines_of (line s ++ rest) = line s :: lines_of rest.
Proof.
  intros [_ Hs]. unfold line, lines_of at 1. rewrite <-app_assoc. change (crlf ++ rest) with ([x0d] ++ x0a :: rest).
  rewrite app_assoc, lines_from_line; [cbn; by rewrite <-app_assoc|].
  apply not_elem_of_app. split; [done|]. by apply (bool_decide_unpack _).
Qed.

Lemma trim_line s c : no_break (s ++ [c]) -> trim_crlf (line (s ++ [c])) = s ++ [c].
Proof.
  intros [H1 H2]. unfold trim_crlf, trim_right, line. rewrite !rev_app_distr. cbn [rev app crlf].
  change (rev crlf) with [x0a; x0d]. cbn [app].
  assert (c <> x0d /\ c <> x0a) as [Hd Ha].
  { split; intros ->; [apply H1|apply H2]; apply elem_of_app; right; by left. }
  cbn [span]. rewrite !bool_decide_eq_true_2 by (apply (bool_decide_unpack _); vm_compute; exact I).
  rewrite bool_decide_eq_false_2.
  - cbn. by rewrite rev_involutive.
  - intros [->|[->|[]%elem_of_nil]%elem_of_cons]%elem_of_cons; done.
Qed.

Lemma at_eof_crlf s : at_eof (line s) = false.
Proof. apply at_eof_line. Qed.

(** What the parser makes of a field: its key in canonical form, its value
    without the white space around it. *)
Definition read_field (f : bytes * bytes) : bytes * bytes :=
  (CanonicalMIMEHeaderKey f.1, TrimSpace (x20 :: f.2)).

Definition key_ok (k : bytes) : Prop :=
  k <> [] /\ (":"%byte ∉ k) /\ is_continuation k = false /\ no_break k /\
  CanonicalMIMEHeaderKey (CanonicalMIMEHeaderKey k) = CanonicalMIMEHeaderKey k.

Definition clean (f : bytes * bytes) : Prop := key_ok f.1 /\ no_break f.2.

Lemma canonical_nonempty k : k <> [] -> CanonicalMIMEHeaderKey k <> [].
Proof. unfold CanonicalMIMEHeaderKey. destruct (forallb token_byte k); [by destruct k|done]. Qed.

Lemma field_text_snoc (f : bytes * bytes) : exists s c, f.1 ++ bs ": " ++ f.2 = s ++ [c].
Proof.
  destruct (exists_last (l := f.1 ++ bs ": " ++ f.2)) as (s & c & E); [|by eauto].
  by destruct f as [[|] ?].
Qed.

(** One field of the block. *)
Lemma parse_read f ls pos h : clean f -> (currentKey h = [] -> currentValue h = []) ->
  parseHeaders (field_text f :: ls) pos h =
  parseHeaders ls (pos + size_of (field_text f)) (mkHS (hs_map (flush h)) (read_field f).1 (read_field f).2).
Proof.
  intros [(Hne & Hcol & Hcont & Hk & _) Hv] Hh. destruct (field_text_snoc f) as (s & c & E).
  assert (trim_crlf (field_text f) = f.1 ++ bs ": " ++ f.2) as Ht.
  { unfold field_text. rewrite E. apply trim_line. rewrite <-E. breaks. }
  cbn [parseHeaders]. rewrite Ht. unfold field_text. rewrite at_eof_crlf.
  destruct f as [[|x k] v]; [done|]. cbn [fst snd app] in *. rewrite bool_decide_eq_false_2 by done.
  change (is_continuation (x :: k ++ bs ": " ++ v)) with (is_continuation (x :: k)). rewrite Hcont.
  unfold start_field. change (x :: k ++ bs ": " ++ v) with ((x :: k) ++ ":"%byte :: x20 :: v).
  rewrite (IndexByte_first _ _ _ Hcol). cbn [mbind option_bind]. rewrite take_app_length.
  rewrite (drop_app_ge _ _ (S (length (x :: k)))) by lia.
  replace (S (length (x :: k)) - length (x :: k))%nat with 1%nat by lia. cbn [drop].
  do 2 f_equal. unfold flush. case_bool_decide as Hq; [by rewrite (Hh Hq)|done].
Qed.

(** The parser's state after a block of fields. *)
Definition after_fields (h : header_state) (fs : list (bytes * bytes)) : header_state :=
  foldl (fun h f => mkHS (hs_map (flush h)) (read_field f).1 (read_field f).2) h fs.

Lemma lines_of_fields fs rest : Forall clean fs ->
  lines_of (concat (field_text <$> fs) ++ rest) = (field_text <$> fs) ++ lines_of rest.
Proof.
  induction 1 as [|f fs [(_ & _ & _ & Hk & _) Hv] _ IH]; [done|]. cbn [fmap list_fmap concat app].
  rewrite <-app_assoc. unfold field_text at 1. rewrite lines_of_line by breaks. by rewrite IH.
Qed.

Lemma parse_read_all fs ls : forall pos h, Forall clean fs -> (currentKey h = [] -> currentValue h = []) ->
  parseHeaders ((field_text <$> fs) ++ ls) pos h =
  parseHeaders ls (pos + total (field_text <$> fs)) (after_fields h fs).
Proof.
  induction fs as [|f fs IH]; intros pos h Hf Hh; cbn [fmap list_fmap app total]; [by rewrite Z.add_0_r|].
  apply Forall_cons in Hf as [Hok Hf]. rewrite parse_read, IH by (done || (intros E; exfalso; revert E;
    cbn; apply canonical_nonempty; by destruct Hok as [[? _] _])). cbn [after_fields foldl]. f_equal. lia.
Qed.


Lemma after_fields_map fs : forall h, Forall clean fs ->
  hs_map (flush (after_fields h fs)) = foldl (fun m f => header_add m f.1 f.2) (hs_map (flush h)) (read_field <$> fs).
Proof.
  induction fs as [|f fs IH]; intros h Hf; [done|]. apply Forall_cons in Hf as [[(Hne & _ & _ & _ & Hcan) _] Hf].
  cbn [after_fields foldl fmap list_fmap]. unfold after_fields in IH. rewrite IH by done. f_equal.
  unfold flush at 1. cbn [currentKey hs_map currentValue].
  rewrite bool_decide_eq_false_2 by by apply canonical_nonempty. cbn [read_field fst] in *. by rewrite Hcan.
Qed.

(** A block of clean fields and an empty line are read as these fields, and the
    body starts after them. *)
Lemma parse_block fs body : Forall clean fs ->
  let block := concat (field_text <$> fs) ++ crlf in
  parseHeaders (lines_of (block ++ body)) 0 (mkHS [] [] []) =
  (fields_of (read_field <$> fs), lines_of body, Z.of_nat (length block)).
Proof.
  intros Hf block. unfold block. rewrite <-app_assoc, lines_of_fields by done.
  change (crlf ++ body) with (line [] ++ body). rewrite lines_of_line by by apply no_break_dec.
  rewrite parse_read_all by done. cbn [parseHeaders]. rewrite bool_decide_eq_true_2 by done.
  rewrite after_fields_map by done. rewrite length_app, Nat2Z.inj_add, <-total_concat. done.
Qed.

Ltac clean_fields :=
  repeat (apply Forall_cons; split);
  [split; [split_and!; [done|by apply (bool_decide_unpack _)|done|by apply no_break_dec|done]|cbn [fst snd]; breaks]..|by apply Forall_nil].

Lemma domain_no_break a : no_break a -> no_break (default (bs "bmail.ag") (domain_of a)).
Proof.
  intros Ha. unfold domain_of. destruct (LastIndexByte "@" a) as [i|]; cbn; [|by apply no_break_dec].
  rewrite <-(take_drop (S i) a) in Ha. by apply no_break_app in Ha as [_ ?].
Qed.

Lemma join_no_break l : Forall no_break l -> no_break (join (bs ", ") l).
Proof.
  induction 1 as [|x l Hx Hl IH]; [by apply no_break_dec|]. cbn [join]. destruct l; [done|].
  rewrite !no_break_app. split_and!; [done|by apply no_break_dec|done].
Qed.

Lemma from_no_break om : no_break (from_value om).
Proof.
  unfold from_value. case_bool_decide; [auto with bmail|]. rewrite !no_break_app.
  split_and!; auto with bmail; try by apply no_break_dec.
  repeat apply ReplaceAll_no_break; auto with bmail; by apply no_break_dec.
Qed.

#[export] Hint Resolve domain_no_break from_no_break : bmail.

Lemma headers_clean om subject msgID t : no_break msgID -> no_break (date t) ->
  Forall clean (header_fields om subject msgID t).
Proof.
  intros Hm Hd. unfold header_fields. rewrite !Forall_app. split_and!.
  - clean_fields.
  - case_bool_decide; [by apply Forall_nil|]. clean_fields. apply join_no_break, Forall_fmap, Forall_true.
    intros x. apply sanitized_no_break.
  - clean_fields.
  - case_bool_decide; [by apply Forall_nil|]. clean_fields.
  - clean_fields.
Qed.

(** Every body begins with its Content-Type and an empty line. *)
Definition typed (p : bytes) : Prop :=
  exists ct rest, p = field_text (bs "Content-Type", ct) ++ crlf ++ rest /\ no_break ct.

Lemma multipart_typed subtype nano kind rest : no_break (bs subtype) -> no_break (bs kind) ->
  typed (multipart subtype (boundary kind nano) ++ crlf ++ rest).
Proof.
  intros Hs Hk. exists (bs "multipart/" ++ bs subtype ++ bs "; boundary=" ++ dq ++ boundary kind nano ++ dq), rest.
  split; [|unfold boundary; breaks]. unfold multipart, field_text. cbn [fst snd]. done.
Qed.

Lemma body_parts_typed L t om body images atts p : body_parts L t om body images atts = Some p -> typed p.
Proof.
  assert (forall isHTML, typed (writeAltParts L t isHTML body)) as Halt.
  { intros [|]; [by apply multipart_typed; apply no_break_dec|].
    exists (bs "text/plain; charset=utf-8"), (line (UnescapeString L body)). split; [done|by apply no_break_dec]. }
  unfold body_parts. case_bool_decide.
  - unfold calendar_parts. intros (m & _ & ([plain html] & _ & <-%(inj Some))%bind_Some)%bind_Some.
    by apply multipart_typed; apply no_break_dec.
  - intros <-%(inj Some). destruct images, atts; [apply Halt|..]; by apply multipart_typed; apply no_break_dec.
Qed.

(** The header block of a composed message, read back by the parser of
    incoming mail, holds exactly the intended fields, one each, and the body
    starts after it: whatever bytes are in the addresses, the display name, the
    carbon copies, the subject and the reply reference, none of them becomes a field
    or a body.  The Message-Id alone must not hold a line break. *)
Theorem composed_headers L t om atts msg
    (Hm : composeRFC5322 L t om atts = Some msg)
    (Hid : no_break (message_id_of t om)) (Hd : no_break (date t)) :
  exists ct n,
    parseHeaders (lines_of msg) 0 (mkHS [] [] []) =
    (fields_of (read_field <$> (header_fields om (fst (decode_payload om)) (message_id_of t om) t ++ [(bs "Content-Type", ct)])),
     lines_of (drop n msg), Z.of_nat n).
Proof.
  unfold composeRFC5322 in Hm. destruct (decode_payload om) as [subject body].
  destruct (extractInlineImages _) as [body' images]. apply bind_Some in Hm as (parts & Hp & <-%(inj Some)).
  apply body_parts_typed in Hp as (ct & rest & -> & Hct).
  set (fs := header_fields om subject (message_id_of t om) t ++ [(bs "Content-Type", ct)]).
  assert (Forall clean fs) as Hf.
  { apply Forall_app. split; [by apply headers_clean|]. clean_fields. }
  pose proof (parse_block fs rest Hf) as Hb. cbn zeta in Hb.
  exists ct, (length (concat (field_text <$> fs) ++ crlf)). cbn [fst]. fold fs.
  assert (concat (field_text <$> header_fields om subject (message_id_of t om) t) ++ field_text (bs "Content-Type", ct) ++ crlf ++ rest
          = (concat (field_text <$> fs) ++ crlf) ++ rest) as ->.
  { unfold fs. rewrite fmap_app, concat_app. cbn [fmap list_fmap concat]. by rewrite app_nil_r, <-!app_assoc. }
  by rewrite drop_app_length.
Qed.

Lemma compose_total L t om atts : BodyFormat om <> bs "calendar" -> is_Some (composeRFC5322 L t om atts).
Proof.
  intros Hf. unfold composeRFC5322. destruct (decode_payload om), (extractInlineImages _).
  unfold body_parts. rewrite bool_decide_eq_false_2 by done. by eexists.
Qed.

(** * Attachments *)

Definition not_break (c : byte) : Prop := c <> x0d /\ c <> x0a.

Lemma base64_not_break s : Forall not_break (base64 s).
Proof.
  destruct (base64_graphic s) as [Hg _]. eapply Forall_impl; [exact Hg|].
  intros c Hc. by split; intros ->.
Qed.

(** The lines of an encoded body. *)
Fixpoint body_of (fuel : nat) (s : bytes) : list bytes :=
  match fuel with
  | O => []
  | S fuel => match s with [] => [] | _ => take 76 s :: body_of fuel (drop 76 s) end
  end.

Lemma chunks_lines fuel : forall s, chunks fuel s = concat (line <$> body_of fuel s).
Proof.
  induction fuel as [|fuel IH]; intros s; [done|]. cbn [chunks body_of].
  destruct s as [|x s]; [done|]. cbn [fmap list_fmap concat]. unfold line at 1. by rewrite <-app_assoc, IH.
Qed.

Lemma body_of_all fuel : forall s, (length s <= fuel)%nat -> concat (body_of fuel s) = s.
Proof.
  induction fuel as [|fuel IH]; intros s Hs; [by destruct s; [|cbn in Hs; lia]|]. cbn [body_of].
  destruct s as [|x s]; [done|]. cbn [concat]. rewrite IH; [by rewrite take_drop|].
  rewrite length_drop, length_cons in *. lia.
Qed.

Lemma body_of_forall P fuel : forall s, Forall P s -> Forall (fun l => (1 <= length l <= 76)%nat /\ Forall P l) (body_of fuel s).
Proof.
  induction fuel as [|fuel IH]; intros s Hs; cbn [body_of]; [done|]. destruct s as [|x s]; [done|].
  constructor; [|apply IH; by apply Forall_drop]. split; [rewrite length_take, length_cons; lia|by apply Forall_take].
Qed.

Lemma filter_lines ls : Forall (Forall not_break) ls ->
  filter (fun c => c <> x0d /\ c <> x0a) (concat (line <$> ls)) = concat ls.
Proof.
  induction 1 as [|l ls Hl _ IH]; [done|]. cbn [fmap list_fmap concat]. unfold line at 1.
  rewrite !filter_app, IH. f_equal. rewrite filter_id; [cbn; apply app_nil_r|].
  intros c Hc. rewrite Forall_forall in Hl. by apply Hl.
Qed.

(** An attachment's data is written in lines of 1 to 76 characters, none
    with a line break inside, from which a reader gets exactly the data back. *)
Theorem base64_lines_roundtrip data : exists ls,
  writeBase64Lines data = concat (line <$> ls) /\
  Forall (fun l => (1 <= length l <= 76)%nat /\ no_break l) ls /\
  base64_decode (writeBase64Lines data) = Some data.
Proof.
  exists (body_of (length (base64 data)) (base64 data)).
  pose proof (body_of_forall _ (length (base64 data)) _ (base64_not_break data)) as Hl.
  unfold writeBase64Lines. rewrite chunks_lines. split_and!; [done|..].
  - eapply Forall_impl; [exact Hl|]. intros l [Hn Hb]. rewrite Forall_forall in Hb.
    split; [done|]. split; intros Hin%Hb; by destruct Hin.
  - unfold base64_decode. rewrite filter_lines by (eapply Forall_impl; [exact Hl|]; by intros ? []).
    rewrite body_of_all by done. apply quanta_base64.
Qed.

(** A reader of RFC 2231 values. *)
Fixpoint percent_decode (s : bytes) : option bytes :=
  match s with
  | [] => Some []
  | c :: s =>
      if byte_eqb c "%" then
        match s with
        | a :: b :: s => v ← Hex.hex_parse [a; b]; r ← percent_decode s; Some (v ++ r)
        | _ => None
        end
      else r ← percent_decode s; Some (c :: r)
  end.

Definition token_safe (c : byte) : Prop := filename_safe c = true \/ c = "%"%byte.

Lemma percent_back c : Hex.hex_parse [upper_hex (Hex.hi_nibble c); upper_hex (Hex.lo_nibble c)] = Some [c] /\
  filename_safe (upper_hex (Hex.hi_nibble c)) = true /\ filename_safe (upper_hex (Hex.lo_nibble c)) = true.
Proof. by destruct c. Qed.

Definition escape (c : byte) : bytes := if filename_safe c then [c] else percent c.

Lemma percent_decode_escape c s : percent_decode (escape c ++ s) = r ← percent_decode s; Some (c :: r).
Proof.
  unfold escape. destruct (filename_safe c) eqn:Hc; cbn [app percent_decode].
  - by destruct (byte_eqb c "%") eqn:E; [apply byte_eqb_eq in E as ->|].
  - destruct (percent_back c) as (Hp & _ & _). unfold percent. cbn [app percent_decode].
    rewrite (proj2 (byte_eqb_eq "%" "%") eq_refl), Hp. by destruct (percent_decode s).
Qed.

Lemma escape_safe c : Forall token_safe (escape c).
Proof.
  unfold escape. destruct (filename_safe c) eqn:Hc; [constructor; [by left|done]|].
  destruct (percent_back c) as (_ & Ha & Hb). apply Forall_cons; split; [by right|]. apply Forall_cons; split; [by left|]. apply Forall_cons; split; [by left|done].
Qed.

(** A filename parameter holds letters, digits, ".-_~" and "%" only, so
    neither a quote, a line break nor a byte outside ASCII, and decodes to the
    filename. *)
Theorem filename_roundtrip filename :
  percent_decode (encodeRFC2231Filename filename) = Some filename /\
  Forall token_safe (encodeRFC2231Filename filename).
Proof.
  unfold encodeRFC2231Filename. fold escape. induction filename as [|c f [IH1 IH2]]; [by split|].
  cbn [fmap list_fmap concat]. rewrite percent_decode_escape, IH1. split; [done|].
  apply Forall_app. split; [apply escape_safe|done].
Qed.

(** * Inline images *)

Lemma replace_loop_ind {S} (P : S -> Prop) r f : (forall st m e, P st -> P (snd (f st m e))) ->
  forall fuel b s st, P st -> P (snd (replace_loop r f fuel b s st)).
Proof.
  intros Hf. induction fuel as [|fuel IH]; intros b s st Hst; cbn [replace_loop]; [done|].
  destruct (find_from r b s) as [[i e]|]; [|done].
  pose proof (Hf st (take (length s - i - length (rest e)) (drop i s)) e Hst) as H.
  destruct (f st _ e) as [new st']. specialize (IH (before e) (rest e) st' H).
  destruct (replace_loop r f fuel (before e) (rest e) st') as [tail st'']. exact IH.
Qed.

Definition image_ok (n : nat) (i : cidImage) : Prop :=
  CID i = cid_of (S n) /\ exists t, ContentType i = bs "image/" ++ t /\ ToLower t ∈ safeImageMIMEs.

(** The images taken out of a body are numbered from 1 in order, and each
    has one of the eight raster types: no other data URI, SVG in particular,
    becomes a part of the message. *)
Theorem inline_images_safe html n i :
  snd (extractInlineImages html) !! n = Some i -> image_ok n i.
Proof.
  cut (forall n i, snd (extractInlineImages html) !! n = Some i -> image_ok n i); [by auto|].
  apply (replace_loop_ind (fun images => forall n i, images !! n = Some i -> image_ok n i)); [|done].
  clear. intros images m e Him. unfold image_tag. destruct (FindStringSubmatch _ m) as [parts|]; [|done].
  case_bool_decide as Hs; cbn [negb]; [|done].
  destruct (base64_decode _) as [raw|]; [|done]. cbn [snd]. intros n i [Hi|[Hn Hi]]%lookup_app_Some; [by apply Him|].
  apply list_lookup_singleton_Some in Hi as [Hz <-]. split; [by replace n with (length images) by lia|]. by eexists.
Qed.

(** * The reason of a bounce *)

Lemma find_anchored r b s : b <> None -> find_from (Cat TextStart r) b s = None.
Proof.
  revert b. induction s as [|c s IH]; intros b Hb; destruct b as [b|]; try done.
  cbn [find_from exec before]. by rewrite IH.
Qed.

(** The text of a permanent error, [ErrPermanent.Error()]. *)
Definition permanent_text (code : Z) (message : bytes) : bytes :=
  bs "permanent failure " ++ dec code ++ bs ": " ++ message.

(** The status code of a permanent failure is never recognised: the
    expression is anchored, and the text it is given begins with "permanent
    failure".  The bounce's record has no code and the whole text as its message. *)
Theorem bounce_code_never_found code message :
  splitBounceReason (permanent_text code message) = ([], permanent_text code message).
Proof.
  unfold splitBounceReason, FindStringSubmatch, permanent_text.
  change (bs "permanent failure " ++ dec code ++ bs ": " ++ message)
    with ("p"%byte :: (bs "ermanent failure " ++ dec code ++ bs ": " ++ message)).
  generalize (bs "ermanent failure " ++ dec code ++ bs ": " ++ message). intros s.
  unfold bounceReasonRegexp. cbn zeta. cbn [cats foldr find_from].
  rewrite find_anchored by done. reflexivity.
Qed.

(** * The delivery report *)

Lemma sanitizeHeader_no_break s : no_break (sanitizeHeader s).
Proof. apply sanitized_no_break. Qed.

(** A value continued on a second line. *)
Lemma parse_folded k v w ls pos h : clean (k, v) -> no_break w -> w <> [] -> (currentKey h = [] -> currentValue h = []) ->
  parseHeaders (field_text (k, v) :: line (x09 :: w) :: ls) pos h =
  parseHeaders ls (pos + size_of (field_text (k, v)) + size_of (line (x09 :: w)))
    (mkHS (hs_map (flush h)) (read_field (k, v)).1 ((read_field (k, v)).2 ++ [x20] ++ TrimSpace (x09 :: w))).
Proof.
  intros Hc Hw Hn Hh. rewrite parse_read by done.
  destruct (exists_last Hn) as (s & c & ->). cbn [parseHeaders].
  assert (trim_crlf (line (x09 :: s ++ [c])) = x09 :: s ++ [c]) as ->.
  { rewrite app_comm_cons. apply trim_line. rewrite <-app_comm_cons. change (no_break ([x09] ++ (s ++ [c]))). 
    apply no_break_app. split; [by apply no_break_dec|done]. }
  rewrite bool_decide_eq_false_2 by done. cbn [is_continuation]. rewrite bool_decide_eq_true_2 by by right.
  rewrite at_eof_crlf. unfold continue_value. cbn [currentKey]. rewrite bool_decide_eq_false_2; [done|].
  destruct Hc as [[? _] _]. by apply canonical_nonempty.
Qed.

Lemma after_fields_key fs h : Forall clean fs -> (currentKey h = [] -> currentValue h = []) ->
  currentKey (after_fields h fs) = [] -> currentValue (after_fields h fs) = [].
Proof.
  intros Hf Hh. destruct fs as [|f fs _] using rev_ind; [done|]. unfold after_fields. rewrite foldl_app. cbn.
  apply Forall_app in Hf as [_ [[[? _] _] _]%Forall_cons]. by intros ?%canonical_nonempty.
Qed.

Definition report_type : bytes := bs "multipart/report; report-type=delivery-status;".
Definition report_boundary (nano : Z) : bytes := bs "boundary=" ++ dq ++ bs "=_bmail_dsn_" ++ dec nano ++ dq.

(** A delivery report's header block, read back, holds exactly its seven
    fields: neither the envelope addresses nor the remote server's words add a
    field or end the block. *)
Theorem bounce_headers date nano from to reason permanent (Hd : no_break date) :
  exists n, let msg := GenerateBounce date nano from to reason permanent in
    parseHeaders (lines_of msg) 0 (mkHS [] [] []) =
    (fields_of ((read_field <$> bounce_fields (sanitizeHeader from) date nano permanent) ++
                [(bs "Content-Type", report_type ++ [x20] ++ TrimSpace (x09 :: report_boundary nano))]),
     lines_of (drop n msg), Z.of_nat n).
Proof.
  set (fs := bounce_fields (sanitizeHeader from) date nano permanent).
  set (ct := (bs "Content-Type", report_type)).
  assert (Forall clean (fs ++ [ct])) as Hf.
  { unfold fs, bounce_fields, ct. cbn [app]. pose proof (sanitizeHeader_no_break from) as Hs.
    pose proof (domain_no_break _ Hs). clean_fields. by destruct permanent; apply no_break_dec. }
  assert (no_break (x09 :: report_boundary nano)) as Hb.
  { change (no_break ([x09] ++ report_boundary nano)). unfold report_boundary. breaks. }
  assert (exists rest, GenerateBounce date nano from to reason permanent =
    (concat (field_text <$> (fs ++ [ct])) ++ line (x09 :: report_boundary nano)) ++ crlf ++ rest) as [rest ->].
  { eexists. unfold GenerateBounce. cbn zeta. fold fs. rewrite fmap_app, concat_app. cbn [fmap list_fmap concat].
    rewrite app_nil_r, <-!app_assoc. f_equal. }
  exists (length ((concat (field_text <$> (fs ++ [ct])) ++ line (x09 :: report_boundary nano)) ++ crlf)). cbn zeta.
  apply Forall_app in Hf as Hf'. destruct Hf' as [Hfs [Hct _]%Forall_cons].
  rewrite <-!app_assoc, lines_of_fields by done. rewrite lines_of_line by done.
  change (crlf ++ rest) with (line [] ++ rest). rewrite lines_of_line by by apply no_break_dec.
  rewrite fmap_app, <-app_assoc, parse_read_all by done. cbn [fmap list_fmap app]. unfold ct at 1.
  assert (no_break (report_boundary nano)) as Hw by by apply (no_break_app [x09]).
  rewrite parse_folded; [|done|done|done|by apply after_fields_key].
  cbn [parseHeaders]. rewrite bool_decide_eq_true_2 by done.
  set (A := concat ((field_text <$> fs) ++ [field_text ct])). set (B := line (x09 :: report_boundary nano)).
  change (line [] ++ rest) with (crlf ++ rest). rewrite !app_assoc, drop_app_length.
  apply f_equal2; [apply f_equal2; [|done]|].
  - unfold flush at 1. cbn [currentKey hs_map currentValue]. rewrite bool_decide_eq_false_2 by done. cbn [hs_map].
    rewrite after_fields_map by done. unfold fields_of. rewrite foldl_app. reflexivity.
  - unfold A. rewrite concat_app, !length_app, !Nat2Z.inj_add, <-total_concat. cbn [concat]. rewrite app_nil_r.
    unfold size_of. fold B ct. change (Z.of_nat (length (line []))) with 2. change (Z.of_nat (length crlf)) with 2. lia.
Qed.

(** * Witnesses *)

#[local] Definition plain_libs : Libs :=
  {| ToUpper := fmap upper_byte; ToLowerU := GoNet.ToLower; UnescapeString := fun s => s;
     day_text := fun _ => None; minute_text := fun _ => None |}.

#[local] Definition noon : Moment :=
  {| new_uuid := bs "u-1"; date := bs "Mon, 02 Jan 2006 15:04:05 +0000";
     nano_alt := 1; nano_rel := 2; nano_mixed := 3; nano_cal := 4 |}.

#[local] Definition hostile : OutboundMessage :=
  mkOM (bs "bob@x.org") (bs "amy@bmail.ag") (bs "PGI+aGk8L2I+")
    (base64 (bs "Hi" ++ crlf ++ bs "Bcc: eve@x.org")) (bs "t") (bs "plaintext") [] (bs "Amy" ++ crlf ++ bs "X: y")
    [] [] (bs "mail") [] [] [] [] (bs "html") 0.

Lemma composed_headers_witness : exists msg ct n,
  composeRFC5322 plain_libs noon hostile [mkMime (bs "a.txt") [] (bs "data")] = Some msg /\
  parseHeaders (lines_of msg) 0 (mkHS [] [] []) =
  (fields_of (read_field <$> (header_fields hostile (fst (decode_payload hostile)) (message_id_of noon hostile) noon
                              ++ [(bs "Content-Type", ct)])),
   lines_of (drop n msg), Z.of_nat n).
Proof.
  destruct (composeRFC5322 plain_libs noon hostile [mkMime (bs "a.txt") [] (bs "data")]) as [msg|] eqn:E;
    [|vm_compute in E; discriminate E].
  destruct (composed_headers plain_libs noon hostile [mkMime (bs "a.txt") [] (bs "data")] msg E) as (ct & n & H).
  - by apply no_break_dec.
  - by apply no_break_dec.
  - exists msg, ct, n. split; [done|exact H].
Defined.

(** A generated Message-Id with a line break does inject: nothing sanitises it. *)
#[local] Definition with_id (id : bytes) : OutboundMessage :=
  mkOM (bs "bob@x.org") (bs "amy@bmail.ag") [] [] (bs "t") (bs "plaintext") id [] [] [] [] [] [] [] [] (bs "plain") 0.

Example message_id_injects :
  option_map (fun msg => header_Get (fst (fst (parseHeaders (lines_of msg) 0 (mkHS [] [] [])))) (bs "Bcc"))
    (composeRFC5322 plain_libs noon (with_id (bs "<1@x>" ++ crlf ++ bs "Bcc: eve@x.org")) [])
  = Some (bs "eve@x.org").
Proof. vm_compute. reflexivity. Qed.

Lemma inline_images_safe_witness :
  image_ok 0 (mkImage (bs "img001@bmail.ag") (bs "image/png") (bs "hi")).
Proof. apply (inline_images_safe tag). vm_compute. reflexivity. Defined.

Lemma bounce_headers_witness : exists n,
  let msg := GenerateBounce (date noon) 7 (bs "amy@bmail.ag") (bs "bob" ++ crlf ++ bs "X: y") (bs "no" ++ crlf) true in
    parseHeaders (lines_of msg) 0 (mkHS [] [] []) =
    (fields_of ((read_field <$> bounce_fields (sanitizeHeader (bs "amy@bmail.ag")) (date noon) 7 true) ++
                [(bs "Content-Type", report_type ++ [x20] ++ TrimSpace (x09 :: report_boundary 7))]),
     lines_of (drop n msg), Z.of_nat n).
Proof. apply (bounce_headers (date noon) 7). by apply no_break_dec. Defined.
