(* ===== verification/Receiver.v ===== *)
(** Inbound SMTP sessions: src/internal/smtp/receiver.go, with the reserved
    names of src/internal/reserved/reserved.go and the recipient resolution of
    src/internal/storage/auth_store.go.

A session is the record the go-smtp library calls [Mail], [Rcpt], [Data]
and [Reset] on, in any order ([step], [run]).  What the stores answer at
each command is part of the command, so answers may change between two
commands; the message pipeline is an oracle that sees every earlier
delivery.  Timing pads and logs are left out.

Shown: mail is handed to a mailbox only if an accepted RCPT of the same
transaction leads to it, and at most once per message; every target shares
one buffer, which the first delivery zeroes; DATA is answered
250 exactly when one delivery succeeded; an empty sender makes the client
look like 127.0.0.1; RCPT looks at one target of an alias, DATA delivers
to all of them. *)

From stdpp Require Import gmap.
From S2P Require Import Prelude GoNet FilePath RateLimit.
Local Open Scope Z_scope.

(** * Addresses *)

(** [IsLocalPart]: trimmed, lower case, without its plus tag. *)
Definition reservedLocalParts : list bytes :=
  bs <$> ["postmaster"; "abuse"; "security"; "hostmaster"; "webmaster"; "noc";
          "dmarc-reports"; "admin"; "root"; "mailer-daemon"]%string.

Definition IsLocalPart (localPart : bytes) : bool :=
  let lp := ToLower (TrimSpace localPart) in
  let lp := match IndexByte "+" lp with Some i => firstn i lp | None => lp end in
  bool_decide (lp ∈ reservedLocalParts).

Definition IsAddress (address : bytes) : bool :=
  match IndexByte "@" address with
  | Some (S i) => IsLocalPart (firstn (S i) address)
  | _ => false
  end.

Definition containsControlChars (s : bytes) : bool :=
  existsb (fun c => (byteZ c <=? 31) || (byteZ c =? 127)) s.

(** [addr[1:len-1]]; on the one-byte text "<" the prefix and suffix tests
    cannot both hold. *)
Definition stripAngleBrackets (addr : bytes) : bytes :=
  let addr := TrimSpace addr in
  if HasPrefix addr (bs "<") && HasPrefix (rev addr) (bs ">")
  then take (length addr - 2) (drop 1 addr) else addr.

Definition StripPlusTag (address : bytes) : bytes :=
  match LastIndexByte "@" address with
  | None => address
  | Some at_ =>
      let local := firstn at_ address in
      let domain := skipn at_ address in
      match IndexByte "+" local with
      | Some plus => firstn plus local ++ domain
      | None => address
      end
  end.

(** * Stores *)

Record User := {
  UserID : bytes;
  TenantID : bytes;
  Address : bytes;
  Tier : bytes;
  AccountStatus : bytes;
  AccountType : bytes;
  PublicKeyEncryption : bytes;
  PublicKeyKEM : bytes;
  KeyEpoch : Z
}.

Record Group := {
  GroupID : bytes;
  GroupTenant : bytes;
  GroupAddress : bytes;
  PostingPolicy : bytes;
  GroupX25519 : bytes;
  GroupKEM : bytes;
  GroupEpoch : Z
}.

(** What the tables answer while one command runs; a failed query answers as
    if there were no row, except where the code tells them apart. *)
Record Directory := {
  users : gmap bytes User;                (* by address *)
  users_by_id : gmap bytes User;
  aliases : gmap bytes (list bytes);      (* address -> target user ids *)
  alias_error : bool;                     (* the alias query fails *)
  catch_all : gmap bytes bytes;           (* domain -> user id *)
  groups : gmap bytes Group;
  group_members : list (bytes * bytes);   (* group id, user id *)
  default_domains : gmap bytes bool;      (* absent: the query fails *)
  storage_limit : User -> option Z;
  drive_used : User -> option Z;
  storage_used : User -> Z -> option Z
}.

Definition GetUserByAddress (d : Directory) (address : bytes) : option User :=
  users d !! ToLower (StripPlusTag address).

Definition after_last_at (address : bytes) : option bytes :=
  (fun i => skipn (S i) address) <$> LastIndexByte "@" address.

Definition catch_all_user (d : Directory) (address : bytes) : option User :=
  dom ← after_last_at address; uid ← catch_all d !! dom; users_by_id d !! uid.

Definition ResolveRecipient (d : Directory) (address : bytes) : option User :=
  let address := ToLower (TrimSpace address) in
  match GetUserByAddress d address with
  | Some u => Some u
  | None =>
      if alias_error d then None
      else match aliases d !! address with
           | Some (target :: _) => users_by_id d !! target
           | _ => catch_all_user d address
           end
  end.

Definition ResolveRecipientAddresses (d : Directory) (address : bytes) : option (list bytes) :=
  let address := ToLower (TrimSpace address) in
  match GetUserByAddress d address with
  | Some _ => Some [address]
  | None =>
      if alias_error d then None
      else
        match omap (fun uid => Address <$> users_by_id d !! uid)
                (default [] (aliases d !! address)) with
        | [] => (fun u => [Address u]) <$> catch_all_user d address
        | targets => Some targets
        end
  end.

(** * Sessions *)

(** Which optional stores are wired in. *)
Record SMTPReceiver := {
  adminStore : bool;
  defaultDomainStore : bool;
  groupStore : bool;
  billingStore : bool;
  driveStore : bool
}.

(** The TCP address and HELO name of the connection. *)
Record Conn := { RemoteIP : option IP; Hostname : bytes }.

Record session := mkSession {
  from : bytes;
  recipients : list bytes;
  roleRecipients : list bytes;
  groupRecipients : list bytes;
  clientIP : option IP;
  helo : bytes
}.

(** SMTP replies: code and enhanced code. *)
Inductive reply := Accepted | Rejected (code : Z) (enhanced : option (Z * Z * Z)) | ReadError.

Definition fresh : session := mkSession [] [] [] [] None [].

Definition NewSession (connAllowed : bool) : reply * option session :=
  if connAllowed then (Accepted, Some fresh) else (Rejected 421 None, None).

Definition Mail (c : Conn) (addr : bytes) (s : session) : reply * session :=
  let addr := TrimSpace addr in
  let with_from f := mkSession f (recipients s) (roleRecipients s) (groupRecipients s)
                       (clientIP s) (helo s) in
  if bool_decide (addr = []) then (Accepted, with_from [])
  else
    let addr := stripAngleBrackets addr in
    if negb (bool_decide (addr = [])) && containsControlChars addr then
      (Rejected 553 (Some (5, 1, 7)), s)
    else if negb (bool_decide (addr = [])) && negb (bool_decide ("@"%byte ∈ addr)) then
      (Rejected 553 (Some (5, 1, 7)), s)
    else
      (Accepted, mkSession addr (recipients s) (roleRecipients s) (groupRecipients s)
                   (match RemoteIP c with Some ip => Some ip | None => clientIP s end)
                   (Hostname c)).

Definition receivingStatuses : list bytes :=
  bs <$> ["active"; "payment_failed"; "lapsed_to_free"; "prune_warned"; "pruning"]%string.

Definition deletedStatuses : list bytes :=
  bs <$> ["tombstone"; "deleted_tombstone"; "purge_pending"; "deletion_pending"]%string.

Definition status_of (u : User) : bytes :=
  if bool_decide (AccountStatus u = []) then bs "active" else AccountStatus u.

Definition over_quota (r : SMTPReceiver) (d : Directory) (u : User) : bool :=
  billingStore r &&
  match storage_limit d u with
  | Some limit =>
      (0 <? limit) &&
      let driveUsed := if driveStore r then default 0 (drive_used d u) else 0 in
      match storage_used d u driveUsed with
      | Some used => limit <=? used
      | None => false
      end
  | None => false
  end.

Definition senderIsGroupMember (d : Directory) (s : session) (g : Group) : bool :=
  negb (bool_decide (from s = [])) &&
  match GetUserByAddress d (from s) with
  | None => false
  | Some u => bool_decide ((GroupID g, UserID u) ∈ group_members d)
  end.

Definition add_recipient (s : session) (a : bytes) : session :=
  mkSession (from s) (recipients s ++ [a]) (roleRecipients s) (groupRecipients s)
    (clientIP s) (helo s).
Definition add_role (s : session) (a : bytes) : session :=
  mkSession (from s) (recipients s) (roleRecipients s ++ [a]) (groupRecipients s)
    (clientIP s) (helo s).
Definition add_group (s : session) (a : bytes) : session :=
  mkSession (from s) (recipients s) (roleRecipients s) (groupRecipients s ++ [a])
    (clientIP s) (helo s).

(** A reserved local part on a default domain. *)
Definition is_role (r : SMTPReceiver) (d : Directory) (to : bytes) : bool :=
  adminStore r && defaultDomainStore r &&
  match IndexByte "@" to with
  | Some (S i) =>
      IsLocalPart (firstn (S i) to) &&
      default false (default_domains d !! skipn (S (S i)) to)
  | _ => false
  end.

(** The fallback for addresses that resolve to no user. *)
Definition rcpt_group (r : SMTPReceiver) (d : Directory) (to : bytes) (s : session)
    : reply * session :=
  match (if groupStore r then groups d !! ToLower to else None) with
  | Some g =>
      if bool_decide (PostingPolicy g = bs "members") && negb (senderIsGroupMember d s g)
      then (Rejected 550 (Some (5, 7, 1)), s)
      else (Accepted, add_group s (ToLower to))
  | None => (Rejected 550 (Some (5, 1, 1)), s)
  end.

Definition rcpt_user (r : SMTPReceiver) (d : Directory) (to : bytes) (u : User) (s : session)
    : reply * session :=
  let status := status_of u in
  if negb (bool_decide (status ∈ receivingStatuses)) then
    (Rejected 550 (Some (if bool_decide (status ∈ deletedStatuses) then (5, 1, 6) else (5, 2, 1))), s)
  else if over_quota r d u then (Rejected 552 (Some (5, 2, 2)), s)
  else (Accepted, add_recipient s to).

Definition clean_rcpt (to : bytes) : bytes := stripAngleBrackets (TrimSpace to).

Definition Rcpt (r : SMTPReceiver) (d : Directory) (to : bytes) (s : session) : reply * session :=
  let to := clean_rcpt to in
  if bool_decide (to = []) || containsControlChars to then (Rejected 553 (Some (5, 1, 3)), s)
  else if is_role r d to then (Accepted, add_role s (ToLower to))
  else match ResolveRecipient d to with
       | None => rcpt_group r d to s
       | Some u => rcpt_user r d to u s
       end.

Definition Reset (s : session) : session := mkSession [] [] [] [] (clientIP s) (helo s).

(** ** DATA *)

Definition maxMessageBytes : Z := 37 * 1024 * 1024.

Inductive delivery :=
| RoleMessage (rcpt sender subject raw : bytes)
| Personal (sender target raw : bytes) (ip : IP) (helo : bytes)
| ToGroup (sender : bytes) (g : Group) (raw : bytes) (ip : IP) (helo : bytes)
    (directRecipients : list bytes).

(** [crypto.ZeroBytes]. *)
Definition ZeroBytes (b : bytes) : bytes := replicate (length b) "000"%byte.

(** The deliveries tried so far with their outcome, the code's counters, and
    the bytes of the slice [rawMessage], which every delivery is passed. *)
Record tally := mkTally {
  log : list (delivery * bool);
  rawMessage : bytes;
  succeeded : Z;
  roleSucceeded : Z;
  groupSucceeded : Z
}.

Section data.

(** [InsertRoleMessage], [ProcessMessage], [ProcessGroupMessage]: success of a
    delivery after those already tried; the parsed Subject of a message. *)
Context (outcome : list (delivery * bool) -> delivery -> bool).
Context (subject_of : bytes -> option bytes).

(** A delivery reads the shared slice.  [ProcessMessage] and
    [ProcessGroupMessage] overwrite it with zeros when they return, whatever
    their result: [defer crypto.ZeroBytes(rawMessage)]. *)
Definition try (t : tally) (mk : bytes -> delivery) : tally :=
  let x := mk (rawMessage t) in
  let ok := outcome (log t) x in
  let one := if ok then 1 else 0 in
  let log' := log t ++ [(x, ok)] in
  match x with
  | RoleMessage _ _ _ _ =>
      mkTally log' (rawMessage t) (succeeded t) (roleSucceeded t + one) (groupSucceeded t)
  | Personal _ _ _ _ _ =>
      mkTally log' (ZeroBytes (rawMessage t)) (succeeded t + one) (roleSucceeded t) (groupSucceeded t)
  | ToGroup _ _ _ _ _ _ =>
      mkTally log' (ZeroBytes (rawMessage t)) (succeeded t) (roleSucceeded t) (groupSucceeded t + one)
  end.

Definition deliver_roles (s : session) (t : tally) : tally :=
  let subject :=
    match roleRecipients s with [] => [] | _ => default [] (subject_of (rawMessage t)) end in
  foldl (fun t rcpt => try t (RoleMessage rcpt (from s) subject)) t (roleRecipients s).

(** One target, unless it has been delivered to already. *)
Definition deliver_target (s : session) (ip : IP)
    (st : gset bytes * tally) (target : bytes) : gset bytes * tally :=
  let '(delivered, t) := st in
  if bool_decide (target ∈ delivered) then (delivered, t)
  else ({[target]} ∪ delivered, try t (fun raw => Personal (from s) target raw ip (helo s))).

Definition targets_of (d : Directory) (rcpt : bytes) : list bytes :=
  match ResolveRecipientAddresses d rcpt with
  | None | Some [] => [rcpt]
  | Some targets => targets
  end.

Definition deliver_users (d : Directory) (s : session) (ip : IP) (t : tally)
    : tally :=
  snd (foldl (fun st rcpt => foldl (deliver_target s ip) st (targets_of d rcpt))
         (∅, t) (recipients s)).

Definition deliver_groups (d : Directory) (s : session) (ip : IP) (t : tally)
    : tally :=
  foldl (fun t rcpt =>
    match groups d !! rcpt with
    | None => t
    | Some g => try t (fun raw => ToGroup (from s) g raw ip (helo s) (recipients s))
    end) t (groupRecipients s).

Definition loopback : IP := v4InV6Prefix ++ [127; 0; 0; 1].

(** The body is what the reader gives, [None] a read error.  Reading one byte
    beyond the limit and comparing is comparing the whole length. *)
Definition Data (d : Directory) (body : option bytes) (s : session) : reply * list (delivery * bool) :=
  match body with
  | None => (ReadError, [])
  | Some raw =>
      if maxMessageBytes <? Z.of_nat (length raw) then (Rejected 552 None, [])
      else match recipients s, roleRecipients s, groupRecipients s with
      | [], [], [] => (Rejected 503 None, [])
      | _, _, _ =>
          let ip := default loopback (clientIP s) in
          let t := deliver_roles s (mkTally [] raw 0 0 0) in
          let t := deliver_users d s ip t in
          let t := deliver_groups d s ip t in
          if (succeeded t =? 0) && (roleSucceeded t =? 0) && (groupSucceeded t =? 0)
          then (Rejected 451 None, log t)
          else (Accepted, log t)
      end
  end.

(** ** Command sequences *)

Inductive command :=
| MAIL (c : Conn) (addr : bytes)
| RCPT (d : Directory) (to : bytes)
| DATA (d : Directory) (body : option bytes)
| RSET.

Definition step (r : SMTPReceiver) (s : session) (c : command)
    : reply * list (delivery * bool) * session :=
  match c with
  | MAIL c addr => let '(rep, s) := Mail c addr s in (rep, [], s)
  | RCPT d to => let '(rep, s) := Rcpt r d to s in (rep, [], s)
  | DATA d body => let '(rep, l) := Data d body s in (rep, l, s)
  | RSET => (Accepted, [], Reset s)
  end.

Definition after (r : SMTPReceiver) (s : session) (cs : list command) : session :=
  foldl (fun s c => snd (step r s c)) s cs.
End data.

(** * Lemmas *)

Definition personal_target (x : delivery) : option bytes :=
  match x with Personal _ t _ _ _ => Some t | _ => None end.

(** The mailboxes a log hands the message to, in order. *)
Definition targets_tried (l : list (delivery * bool)) : list bytes :=
  omap (fun x => personal_target x.1) l.

Lemma targets_tried_app l l' : targets_tried (l ++ l') = targets_tried l ++ targets_tried l'.
Proof. apply omap_app. Qed.

(** Sender, client and HELO that a delivery carries. *)
Definition carries (s : session) (ip : IP) (x : delivery) : Prop :=
  match x with
  | RoleMessage rcpt f _ _ => f = from s /\ rcpt ∈ roleRecipients s
  | Personal f _ _ i h => f = from s /\ i = ip /\ h = helo s
  | ToGroup f g _ i h direct => f = from s /\ i = ip /\ h = helo s /\ direct = recipients s
  end.

(** The bytes a delivery reads. *)
Definition body_of (x : delivery) : bytes :=
  match x with RoleMessage _ _ _ b | Personal _ _ b _ _ | ToGroup _ _ b _ _ _ => b end.

(** The pipeline has run. *)
Definition zeroing (x : delivery * bool) : bool :=
  match x.1 with RoleMessage _ _ _ _ => false | _ => true end.

(** What the shared slice holds after the deliveries [l]. *)
Definition left_after (raw : bytes) (l : list (delivery * bool)) : bytes :=
  if existsb zeroing l then ZeroBytes raw else raw.

Lemma ZeroBytes_twice b : ZeroBytes (ZeroBytes b) = ZeroBytes b.
Proof. unfold ZeroBytes. by rewrite length_replicate. Qed.

Section data_lemmas.

Context (outcome : list (delivery * bool) -> delivery -> bool).
Context (subject_of : bytes -> option bytes).

Lemma log_try t mk :
  log (try outcome t mk) =
  log t ++ [(mk (rawMessage t), outcome (log t) (mk (rawMessage t)))].
Proof. unfold try. by destruct (mk (rawMessage t)). Qed.

(** The slice is intact until the pipeline has run once. *)
Definition buffered (raw : bytes) (t : tally) : Prop :=
  rawMessage t = left_after raw (log t) /\
  forall l x l', log t = l ++ x :: l' -> body_of x.1 = left_after raw l.

Lemma buffered_try raw t mk :
  (forall b, body_of (mk b) = b) -> buffered raw t -> buffered raw (try outcome t mk).
Proof.
  intros Hmk [Hr Hl]. split.
  - unfold left_after in *. rewrite log_try, existsb_app.
    unfold try. destruct (mk (rawMessage t)); cbn; rewrite ?orb_true_r, ?orb_false_r, ?Hr; try done;
      destruct (existsb zeroing (log t)); by rewrite ?ZeroBytes_twice.
  - intros l x l'. rewrite log_try. destruct l' as [|y l' _] using rev_ind.
    + intros [<- [= <-]]%app_inj_tail. cbn. by rewrite Hmk.
    + rewrite (app_comm_cons l' [y]), app_assoc. intros [E _]%app_inj_tail. by eapply Hl.
Qed.

(** The counters count the successes of the log, and the slice is as
    [buffered] says. *)
Definition counted (raw : bytes) (t : tally) : Prop :=
  buffered raw t /\
  0 <= succeeded t /\ 0 <= roleSucceeded t /\ 0 <= groupSucceeded t /\
  ((exists x, (x, true) ∈ log t) <->
   ~ (succeeded t = 0 /\ roleSucceeded t = 0 /\ groupSucceeded t = 0)).

Lemma counted_try raw t mk :
  (forall b, body_of (mk b) = b) -> counted raw t -> counted raw (try outcome t mk).
Proof.
  intros Hmk (H0 & H1 & H2 & H3 & H4). split; [by apply buffered_try|]. rewrite log_try.
  unfold try. generalize (mk (rawMessage t)). intros x.
  assert ((exists y, (y, true) ∈ log t ++ [(x, outcome (log t) x)]) <->
    (exists y, (y, true) ∈ log t) \/ outcome (log t) x = true) as ->.
  { setoid_rewrite elem_of_app. setoid_rewrite list_elem_of_singleton. split.
    - intros (y & [Hy|[= -> <-]]); eauto.
    - intros [(y & Hy)|Ho]; [by eauto|]. exists x. right. by rewrite Ho. }
  rewrite H4. destruct x, (outcome (log t) _); cbn; split_and!; try lia;
    (split; [intros [?|?]; [lia|try done; lia]|intros ?; try (right; done); left; lia]).
Qed.

(** What delivering to the places of one kind keeps. *)
Definition extends (s : session) (raw : bytes) (ip : IP) (t t' : tally)
    (P : list (delivery * bool) -> Prop) : Prop :=
  counted raw t' /\
  exists l, log t' = log t ++ l /\ Forall (fun x => carries s ip x.1) l /\ P l.

#[local] Abbreviation no_targets := (fun l => targets_tried l = []).

Lemma tally_extends_refl s raw ip t : counted raw t -> extends s raw ip t t no_targets.
Proof. intros Ht. split; [done|]. exists []. by rewrite app_nil_r. Qed.

Lemma extends_try s raw ip t t' mk :
  (forall b, body_of (mk b) = b) -> (forall b, carries s ip (mk b)) ->
  (forall b, personal_target (mk b) = None) ->
  counted raw t -> (counted raw (try outcome t mk) -> extends s raw ip (try outcome t mk) t' no_targets) ->
  extends s raw ip t t' no_targets.
Proof.
  intros Hb Hc Hp Ht H. destruct (H (counted_try _ _ _ Hb Ht)) as (Hc' & l & El & Hf & Hl).
  split; [done|]. rewrite El, log_try, <-app_assoc. eexists. split; [done|].
  cbn [app]. split; [by constructor; [apply Hc|]|]. unfold targets_tried in *. cbn. by rewrite Hp.
Qed.

Lemma deliver_roles_spec s raw ip t :
  counted raw t -> extends s raw ip t (deliver_roles outcome subject_of s t) no_targets.
Proof.
  unfold deliver_roles.
  generalize (match roleRecipients s with [] => [] | _ => default [] (subject_of (rawMessage t)) end).
  intros subject. assert (forall a, a ∈ roleRecipients s -> a ∈ roleRecipients s) as Hin by done.
  revert Hin. generalize (roleRecipients s) at 1 3. intros rs. revert t.
  induction rs as [|a rs IH]; intros t Hin Ht; cbn [foldl]; [by apply tally_extends_refl|].
  apply (extends_try s raw ip t _ (RoleMessage a (from s) subject)); [done| |done|done|].
  - intros b. split; [done|]. apply Hin. by left.
  - apply IH. intros b Hb. apply Hin. by right.
Qed.

Lemma deliver_groups_spec d s raw ip t :
  counted raw t -> extends s raw ip t (deliver_groups outcome d s ip t) no_targets.
Proof.
  unfold deliver_groups. generalize (groupRecipients s). intros gs. revert t.
  induction gs as [|a gs IH]; intros t Ht; cbn [foldl]; [by apply tally_extends_refl|].
  destruct (groups d !! a) as [g|]; [|by apply IH].
  apply (extends_try s raw ip t _ (fun raw => ToGroup (from s) g raw ip (helo s) (recipients s)));
    [done..|apply IH].
Qed.

(** Delivering to a list of targets tries each new one once, in order. *)
Definition users_inv (s : session) (raw : bytes) (ip : IP) (t0 : tally)
    (seen : list bytes) (st : gset bytes * tally) : Prop :=
  (forall t, t ∈ fst st <-> t ∈ seen) /\
  extends s raw ip t0 (snd st) (fun l =>
    NoDup (targets_tried l) /\ forall t, t ∈ targets_tried l <-> t ∈ seen).

Lemma deliver_target_inv s raw ip t0 seen st target :
  users_inv s raw ip t0 seen st ->
  users_inv s raw ip t0 (seen ++ [target]) (deliver_target outcome s ip st target).
Proof.
  intros (Hd & Hc & l & El & Hf & Hn & Ht). destruct st as [delivered t]. cbn [fst snd] in *.
  unfold deliver_target. case_bool_decide as Hin.
  - assert (forall x, x ∈ seen ++ [target] <-> x ∈ seen) as Hs.
    { intros x. rewrite elem_of_app, list_elem_of_singleton. split; [|by left].
      intros [?| ->]; [done|]. by apply Hd. }
    split; [intros x; by rewrite Hs|]. split; [done|]. exists l. split_and!; try done.
    intros x. by rewrite Hs.
  - split.
    { intros x. cbn. rewrite elem_of_union, elem_of_singleton, Hd, elem_of_app, list_elem_of_singleton.
      tauto. }
    split; [by apply counted_try|]. cbn [fst snd]. eexists. rewrite log_try, El, <-app_assoc.
    split; [done|]. rewrite targets_tried_app. cbn. split_and!.
    + apply Forall_app. split; [done|]. by repeat constructor.
    + apply NoDup_app. split_and!; [done| |repeat constructor; set_solver].
      intros x Hx ->%list_elem_of_singleton. by apply Hin, Hd, Ht.
    + intros x. by rewrite !elem_of_app, Ht.
Qed.

Lemma deliver_targets_inv s raw ip t0 ts : forall seen st,
  users_inv s raw ip t0 seen st ->
  users_inv s raw ip t0 (seen ++ ts) (foldl (deliver_target outcome s ip) st ts).
Proof.
  induction ts as [|t ts IH]; intros seen st Hi; cbn [foldl]; [by rewrite app_nil_r|].
  replace (seen ++ t :: ts) with ((seen ++ [t]) ++ ts) by by rewrite <-app_assoc.
  by apply IH, deliver_target_inv.
Qed.

Lemma deliver_users_spec d s raw ip t :
  counted raw t ->
  extends s raw ip t (deliver_users outcome d s ip t) (fun l =>
    NoDup (targets_tried l) /\
    forall x, x ∈ targets_tried l <-> exists a, a ∈ recipients s /\ x ∈ targets_of d a).
Proof.
  intros Ht. unfold deliver_users.
  assert (forall rs seen st, users_inv s raw ip t seen st ->
    users_inv s raw ip t (seen ++ concat (targets_of d <$> rs))
      (foldl (fun st rcpt => foldl (deliver_target outcome s ip) st (targets_of d rcpt)) st rs))
    as Hgen.
  { induction rs as [|a rs IH]; intros seen st Hi; cbn [foldl]; [by rewrite app_nil_r|].
    cbn [fmap list_fmap concat]. rewrite app_assoc. by apply IH, deliver_targets_inv. }
  destruct (Hgen (recipients s) [] (∅, t)) as (_ & Hc & l & El & Hf & Hn & Hx).
  { split; [set_solver|]. split; [done|]. exists []. cbn. rewrite app_nil_r.
    split_and!; [done|done|constructor|done]. }
  split; [done|]. exists l. split_and!; [done|done|done|].
  intros x. rewrite Hx. cbn [app]. rewrite list_elem_of_In, in_concat. split.
  - intros (ts & Hts%list_elem_of_In & Hin%list_elem_of_In).
    apply list_elem_of_fmap in Hts as (a & -> & Ha). eauto.
  - intros (a & Ha & Hin). exists (targets_of d a). split; apply list_elem_of_In; [|done].
    by apply list_elem_of_fmap_2.
Qed.

(** The log of a DATA command that reads [raw] for some recipient. *)
Definition delivered_log (d : Directory) (s : session) (raw : bytes) (l : list (delivery * bool))
    : Prop :=
  NoDup (targets_tried l) /\
  (forall x, x ∈ targets_tried l <-> exists a, a ∈ recipients s /\ x ∈ targets_of d a) /\
  Forall (fun x => carries s (default loopback (clientIP s)) x.1) l /\
  (forall l1 x l2, l = l1 ++ x :: l2 -> body_of x.1 = left_after raw l1).

(** The log and the answer of a DATA command that reads a message of
    admissible size for some recipient. *)
Lemma Data_cases d body s :
  (snd (Data outcome subject_of d body s) = [] /\ fst (Data outcome subject_of d body s) <> Accepted) \/
  (exists raw, body = Some raw /\ Z.of_nat (length raw) <= maxMessageBytes /\
    let l := snd (Data outcome subject_of d body s) in
    delivered_log d s raw l /\
    (fst (Data outcome subject_of d body s) = Accepted <-> exists x, (x, true) ∈ l)).
Proof.
  unfold Data. destruct body as [raw|]; [|by left].
  destruct (maxMessageBytes <? Z.of_nat (length raw)) eqn:El; [by left|]. bool_prop.
  set (ip := default loopback (clientIP s)). set (t0 := mkTally [] raw 0 0 0).
  assert (counted raw t0) as H0.
  { split; [split; [done|by intros [] ? ? ?]|]. split_and!; try done. split; [|cbn; lia].
    intros (x & Hx). by apply not_elem_of_nil in Hx. }
  destruct (deliver_roles_spec s raw ip t0 H0) as (H1 & l1 & E1 & F1 & T1).
  destruct (deliver_users_spec d s raw ip _ H1) as (H2 & l2 & E2 & F2 & N2 & T2).
  destruct (deliver_groups_spec d s raw ip _ H2) as (H3 & l3 & E3 & F3 & T3).
  set (t := deliver_groups outcome d s ip
    (deliver_users outcome d s ip (deliver_roles outcome subject_of s t0))) in *.
  assert (log t = l1 ++ l2 ++ l3) as Elog by by rewrite E3, E2, E1, <-app_assoc.
  destruct H3 as ([_ HB] & P1 & P2 & P3 & P4).
  assert (delivered_log d s raw (log t)) as HL.
  { split_and!; [| | |done]; rewrite Elog, ?targets_tried_app, ?T1, ?T3, ?app_nil_r;
      [done..|]. by rewrite !Forall_app. }
  assert (forall out, out = (if (succeeded t =? 0) && (roleSucceeded t =? 0) && (groupSucceeded t =? 0)
      then (Rejected 451 None, log t) else (Accepted, log t)) ->
    delivered_log d s raw (snd out) /\ (fst out = Accepted <-> exists x, (x, true) ∈ snd out)) as Hout.
  { intros out ->. destruct (_ && _ && _) eqn:E; cbn [fst snd]; rewrite P4; (split; [done|]).
    - bool_prop. split; [done|lia].
    - rewrite !andb_false_iff, !Z.eqb_neq in E. split; [lia|done]. }
  destruct (recipients s), (roleRecipients s), (groupRecipients s); [by left|..];
    right; exists raw; (split; [done|]); (split; [lia|]); by apply Hout.
Qed.
End data_lemmas.

(** ** Transactions *)

(** [a] was accepted as a mailbox by a RCPT that no RSET follows in [cs], which
    looked it up in [d] as the user [u]. *)
Definition accepted_as (r : SMTPReceiver) (cs : list command) (a : bytes) (d : Directory) (u : User) : Prop :=
  exists pre to post, cs = pre ++ RCPT d to :: post /\ (forall c, c ∈ post -> c <> RSET) /\
    a = clean_rcpt to /\ ResolveRecipient d a = Some u /\
    status_of u ∈ receivingStatuses /\ over_quota r d u = false.

Definition accepted_in (r : SMTPReceiver) (cs : list command) (a : bytes) : Prop :=
  exists d u, accepted_as r cs a d u.

(** [a] was accepted as the address of a group by a RCPT that no RSET
    follows, from a sender its posting policy allows. *)
Definition group_accepted_in (r : SMTPReceiver) (cs : list command) (a : bytes) : Prop :=
  exists pre d to post g f, cs = pre ++ RCPT d to :: post /\ (forall c, c ∈ post -> c <> RSET) /\
    a = ToLower (clean_rcpt to) /\ groups d !! a = Some g /\
    (PostingPolicy g = bs "members" ->
       exists u, GetUserByAddress d f = Some u /\ (GroupID g, UserID u) ∈ group_members d).

Lemma in_snoc r cs c a (P : SMTPReceiver -> list command -> bytes -> Prop) :
  c <> RSET ->
  (P = accepted_in \/ P = group_accepted_in) -> P r cs a -> P r (cs ++ [c]) a.
Proof.
  intros Hc [-> | ->].
  - intros (d & u & pre & to & post & -> & Hp & H). exists d, u, pre, to, (post ++ [c]).
    rewrite <-app_assoc. split_and!; try done; try apply H.
    intros x [Hx| ->%list_elem_of_singleton]%elem_of_app; auto.
  - intros (pre & d & to & post & g & f & -> & Hp & H). exists pre, d, to, (post ++ [c]), g, f.
    rewrite <-app_assoc. split_and!; try done; try apply H.
    intros x [Hx| ->%list_elem_of_singleton]%elem_of_app; auto.
Qed.

Section transactions.

Context (outcome : list (delivery * bool) -> delivery -> bool).
Context (subject_of : bytes -> option bytes).
Context (r : SMTPReceiver).

#[local] Abbreviation run cs := (after outcome subject_of r fresh cs).

Lemma run_snoc cs c : run (cs ++ [c]) = snd (step outcome subject_of r (run cs) c).
Proof. unfold after. by rewrite foldl_app. Qed.

Lemma Mail_recipients c addr s rep s' :
  Mail c addr s = (rep, s') ->
  recipients s' = recipients s /\ groupRecipients s' = groupRecipients s.
Proof. unfold Mail. repeat case_match; by intros [= <- <-]. Qed.

Lemma Rcpt_recipients d to s :
  let s' := snd (Rcpt r d to s) in
  (recipients s' = recipients s \/
   (recipients s' = recipients s ++ [clean_rcpt to] /\
    exists u, ResolveRecipient d (clean_rcpt to) = Some u /\
      status_of u ∈ receivingStatuses /\ over_quota r d u = false)) /\
  (groupRecipients s' = groupRecipients s \/
   (groupRecipients s' = groupRecipients s ++ [ToLower (clean_rcpt to)] /\
    exists g, groups d !! ToLower (clean_rcpt to) = Some g /\
      (PostingPolicy g = bs "members" ->
       exists u, GetUserByAddress d (from s) = Some u /\ (GroupID g, UserID u) ∈ group_members d))).
Proof.
  unfold Rcpt. destruct (_ || _); [by split; left|]. destruct (is_role _ _ _); [by split; left|].
  destruct (ResolveRecipient d _) as [u|] eqn:Eu.
  - unfold rcpt_user. destruct (bool_decide (status_of u ∈ _)) eqn:Es; cbn [negb]; [|by split; left].
    destruct (over_quota r d u) eqn:Eq; [by split; left|]. split; [right|by left].
    split; [done|]. exists u. apply bool_decide_eq_true in Es. done.
  - unfold rcpt_group. destruct (if groupStore r then _ else None) as [g|] eqn:Eg;
      [|by split; left].
    destruct (groupStore r); [|done].
    destruct (_ && _) eqn:Ep; [by split; left|]. split; [by left|right].
    split; [done|]. exists g. split; [done|]. intros Hm. rewrite Hm, bool_decide_eq_true_2 in Ep by done.
    cbn [andb] in Ep. apply negb_false_iff in Ep. unfold senderIsGroupMember in Ep.
    apply andb_true_iff in Ep as [_ Ep]. destruct (GetUserByAddress d (from s)) as [u|]; [|done].
    exists u. apply bool_decide_eq_true in Ep. done.
Qed.

(** Every recipient of a reachable session was accepted in its transaction. *)
Lemma recipients_accepted cs :
  (forall a, a ∈ recipients (run cs) -> accepted_in r cs a) /\
  (forall a, a ∈ groupRecipients (run cs) -> group_accepted_in r cs a).
Proof.
  induction cs as [|c cs [IH1 IH2]] using rev_ind.
  - split; intros a Ha; by apply not_elem_of_nil in Ha.
  - rewrite run_snoc. destruct c as [cn addr|d to|d body|]; cbn [step].
    + destruct (Mail cn addr (run cs)) as [rep s'] eqn:E. cbn [snd].
      destruct (Mail_recipients _ _ _ _ _ E) as [-> ->].
      split; intros a Ha; (eapply in_snoc; [done|by auto|auto]).
    + pose proof (Rcpt_recipients d to (run cs)) as HR.
      destruct (Rcpt r d to (run cs)) as [rep s']. cbn [snd] in HR |- *.
      destruct HR as [H1 H2]. split; intros a Ha.
      * destruct H1 as [H1|[H1 (u & Hu & Hs & Hq)]]; rewrite H1 in Ha;
          [eapply in_snoc; [done|by auto|auto]|].
        apply elem_of_app in Ha as [Ha| ->%list_elem_of_singleton];
          [eapply in_snoc; [done|by auto|auto]|].
        exists d, u, cs, to, []. split_and!; try done. intros c Hc. by apply not_elem_of_nil in Hc.
      * destruct H2 as [H2|[H2 (g & Hg & Hp)]]; rewrite H2 in Ha;
          [eapply in_snoc; [done|by auto|auto]|].
        apply elem_of_app in Ha as [Ha| ->%list_elem_of_singleton];
          [eapply in_snoc; [done|by auto|auto]|].
        exists cs, d, to, [], g, (from (run cs)). split_and!; try done.
        intros c Hc. by apply not_elem_of_nil in Hc.
    + destruct (Data outcome subject_of d body (run cs)) as [rep l]. cbn [snd].
      split; intros a Ha; (eapply in_snoc; [done|by auto|auto]).
    + split; intros a Ha; by apply not_elem_of_nil in Ha.
Qed.

(** An address that is no alias leads to the user RCPT looks it up as. *)
Lemma targets_of_user d a u target :
  ResolveRecipient d a = Some u -> aliases d !! ToLower (TrimSpace a) = None ->
  target ∈ targets_of d a -> GetUserByAddress d target = Some u \/ target = Address u.
Proof.
  unfold ResolveRecipient, targets_of, ResolveRecipientAddresses. intros Hu Ha.
  destruct (GetUserByAddress d (ToLower (TrimSpace a))) as [u'|] eqn:E.
  - injection Hu as ->. intros ->%list_elem_of_singleton. by left.
  - destruct (alias_error d); [done|]. rewrite Ha in *. cbn. rewrite Hu. cbn.
    intros ->%list_elem_of_singleton. by right.
Qed.

(** C13. Whatever commands a client sends, a message is handed to a mailbox
    address only when a RCPT of the same transaction was accepted for an
    address that leads there, and RCPT had looked that address up as a user
    whose status receives mail and who was within quota.  When the address is
    no alias, and the directory has not changed since, that user is the one
    the mailbox belongs to (for an alias it is the first member, and the
    others are not examined: [suspended_alias_member_receives]).  The message
    carries the transaction's sender, and no address is tried twice. *)
Theorem mail_only_to_accepted cs d body sender target raw ip h ok
    (HD : (Personal sender target raw ip h, ok) ∈
            snd (Data outcome subject_of d body (run cs))) :
  sender = from (run cs) /\
  (exists a d0 u, accepted_as r cs a d0 u /\ target ∈ targets_of d a /\
     (d0 = d -> aliases d !! ToLower (TrimSpace a) = None ->
      GetUserByAddress d target = Some u \/ target = Address u)) /\
  NoDup (targets_tried (snd (Data outcome subject_of d body (run cs)))).
Proof.
  destruct (Data_cases outcome subject_of d body (run cs)) as [[E _]|(raw' & Hb & Hl & H)].
  - rewrite E in HD. by apply not_elem_of_nil in HD.
  - destruct H as ((Hn & Ht & Hf & _) & _). rewrite Forall_forall in Hf.
    destruct (Hf _ HD) as (-> & _). split_and!; [done| |done].
    assert (target ∈ targets_tried (snd (Data outcome subject_of d body (run cs)))) as Hin.
    { apply list_elem_of_omap. by eexists. }
    apply Ht in Hin as (a & Ha & Hin). destruct (proj1 (recipients_accepted cs) a Ha) as (d0 & u & Hacc).
    exists a, d0, u. split_and!; [done|done|]. intros <- Hna.
    destruct Hacc as (_ & _ & _ & _ & _ & _ & Hu & _). by eapply targets_of_user.
Qed.

(** DATA is answered 250 exactly when the message is within the size
    limit and at least one delivery succeeded; each target of each accepted
    recipient has then been tried, once.  Deliveries that failed beside it
    are neither retried nor bounced. *)
Theorem data_accepted_iff d body s :
  (fst (Data outcome subject_of d body s) = Accepted <->
   exists x, (x, true) ∈ snd (Data outcome subject_of d body s)) /\
  (fst (Data outcome subject_of d body s) = Accepted ->
   NoDup (targets_tried (snd (Data outcome subject_of d body s))) /\
   forall x, x ∈ targets_tried (snd (Data outcome subject_of d body s)) <->
     exists a, a ∈ recipients s /\ x ∈ targets_of d a).
Proof.
  destruct (Data_cases outcome subject_of d body s) as [[E Hr]|(raw & _ & _ & (Hn & Ht & _ & _) & Hi)].
  - rewrite E. split; [|done]. split; [done|].
    intros (x & Hx). by apply not_elem_of_nil in Hx.
  - by split.
Qed.

(** The pipeline zeroes the message it is handed, and DATA hands every
    target the same slice: the first mailbox or group reads the message that
    the client sent, every later one reads as many NUL bytes.  Messages for
    the role inbox come first and are intact. *)
Theorem later_targets_read_zeros d raw s l x l'
    (HD : snd (Data outcome subject_of d (Some raw) s) = l ++ x :: l') :
  body_of x.1 = if existsb zeroing l then ZeroBytes raw else raw.
Proof.
  destruct (Data_cases outcome subject_of d (Some raw) s)
    as [[E _]|(raw' & [= <-] & _ & (_ & _ & _ & Hb) & _)].
  - rewrite E in HD. by destruct l.
  - by eapply Hb.
Qed.

(** The client's address and HELO name as a delivery sees them. *)
Definition seen_client (x : delivery) : option (IP * bytes) :=
  match x with
  | Personal _ _ _ ip h | ToGroup _ _ _ ip h _ => Some (ip, h)
  | RoleMessage _ _ _ _ => None
  end.

Definition is_RCPT (c : command) : Prop := match c with RCPT _ _ => True | _ => False end.

Lemma Rcpt_client d to s :
  clientIP (snd (Rcpt r d to s)) = clientIP s /\ helo (snd (Rcpt r d to s)) = helo s.
Proof. unfold Rcpt, rcpt_user, rcpt_group. by repeat case_match. Qed.

Lemma rcpts_client cs s :
  Forall is_RCPT cs ->
  clientIP (after outcome subject_of r s cs) = clientIP s /\
  helo (after outcome subject_of r s cs) = helo s.
Proof.
  intros H. revert s. induction H as [|c cs Hc _ IH]; intros s; [done|].
  destruct c as [|d to| |]; try done.
  change (after outcome subject_of r s (RCPT d to :: cs))
    with (after outcome subject_of r (snd (step outcome subject_of r s (RCPT d to))) cs).
  destruct (IH (snd (step outcome subject_of r s (RCPT d to)))) as [-> ->]. cbn [step].
  pose proof (Rcpt_client d to s). by destruct (Rcpt r d to s).
Qed.

(** When a connection's first transaction has the empty sender (a bounce),
    MAIL returns before it records the client: every delivery of that
    transaction is told that the client is 127.0.0.1 and has no HELO name,
    whoever connected. *)
Theorem null_sender_hides_client c addr rcpts d body x ok
    (Hnull : TrimSpace addr = []) (Hr : Forall is_RCPT rcpts)
    (HD : (x, ok) ∈ snd (Data outcome subject_of d body (run (MAIL c addr :: rcpts)))) :
  seen_client x = None \/ seen_client x = Some (loopback, []).
Proof.
  destruct (Data_cases outcome subject_of d body (run (MAIL c addr :: rcpts)))
    as [[E _]|(raw & _ & _ & (_ & _ & Hf & _) & _)].
  { rewrite E in HD. by apply not_elem_of_nil in HD. }
  rewrite Forall_forall in Hf. specialize (Hf _ HD).
  destruct (rcpts_client rcpts (snd (step outcome subject_of r fresh (MAIL c addr))) Hr) as [H1 H2].
  change (after outcome subject_of r fresh (MAIL c addr :: rcpts))
    with (after outcome subject_of r (snd (step outcome subject_of r fresh (MAIL c addr))) rcpts) in Hf.
  unfold carries in Hf. rewrite H1, H2 in Hf.
  assert (clientIP (snd (step outcome subject_of r fresh (MAIL c addr))) = None /\
    helo (snd (step outcome subject_of r fresh (MAIL c addr))) = []) as [Ec Eh].
  { cbn [step]. unfold Mail. by rewrite Hnull. }
  rewrite Ec, Eh in Hf. destruct x as [|f t b i h|f g b i h direct]; cbn; [by left|right..].
  - by destruct Hf as (_ & -> & ->).
  - by destruct Hf as (_ & -> & -> & _).
Qed.

End transactions.

(** * The properties at a concrete receiver *)

#[local] Definition alice : User :=
  Build_User (bs "u1") (bs "t") (bs "alice@b.ag") (bs "mail") (bs "active") (bs "primary") [] [] 1.
#[local] Definition bob : User :=
  Build_User (bs "u2") (bs "t") (bs "bob@b.ag") (bs "mail") (bs "suspended") (bs "primary") [] [] 1.
#[local] Definition directory : Directory := {|
  users := {[bs "alice@b.ag" := alice; bs "bob@b.ag" := bob]};
  users_by_id := {[bs "u1" := alice; bs "u2" := bob]};
  aliases := {[bs "team@b.ag" := [bs "u1"; bs "u2"]]};
  alias_error := false; catch_all := ∅; groups := ∅; group_members := [];
  default_domains := {[bs "b.ag" := true]};
  storage_limit _ := Some 100; drive_used _ := None; storage_used _ _ := Some 5
|}.
#[local] Definition receiver : SMTPReceiver :=
  Build_SMTPReceiver true true true true true.
#[local] Definition peer : Conn :=
  Build_Conn (Some [198; 51; 100; 7]) (bs "mx.example").
#[local] Definition all_succeed (l : list (delivery * bool)) (x : delivery) : bool := true.
#[local] Definition no_subject (raw : bytes) : option bytes := None.
#[local] Definition commands (sender to : bytes) : list command :=
  [MAIL peer sender; RCPT directory to].
#[local] Definition data_log (cs : list command) : list (delivery * bool) :=
  snd (Data all_succeed no_subject directory (Some (bs "hello"))
    (after all_succeed no_subject receiver fresh cs)).

(** A suspended user is refused at RCPT, but receives what is sent to an
    alias whose first target may receive: RCPT examines the user that
    [ResolveRecipient] returns, DATA delivers to every target. *)
Theorem suspended_alias_member_receives :
  fst (Rcpt receiver directory (bs "bob@b.ag") fresh) = Rejected 550 (Some (5, 2, 1)) /\
  (Personal (bs "eve@x.y") (bs "bob@b.ag") (ZeroBytes (bs "hello")) [198; 51; 100; 7] (bs "mx.example"), true)
    ∈ data_log (commands (bs "<eve@x.y>") (bs "<team@b.ag>")).
Proof.
  split; [vm_compute; reflexivity|].
  replace (data_log (commands (bs "<eve@x.y>") (bs "<team@b.ag>"))) with
    [(Personal (bs "eve@x.y") (bs "alice@b.ag") (bs "hello") [198; 51; 100; 7] (bs "mx.example"), true);
     (Personal (bs "eve@x.y") (bs "bob@b.ag") (ZeroBytes (bs "hello")) [198; 51; 100; 7] (bs "mx.example"), true)]
    by (vm_compute; reflexivity).
  right. left.
Qed.

(** DATA counts copies by address, so that a member addressed twice gets one;
    an address with a plus tag is another address of the same mailbox. *)
Theorem plus_address_delivered_twice :
  omap (fun x => personal_target x.1)
    (data_log [MAIL peer (bs "eve@x.y"); RCPT directory (bs "alice@b.ag"); RCPT directory (bs "alice+x@b.ag")]) =
    [bs "alice@b.ag"; bs "alice+x@b.ag"] /\
  GetUserByAddress directory (bs "alice@b.ag") = Some alice /\
  GetUserByAddress directory (bs "alice+x@b.ag") = Some alice.
Proof. split_and!; vm_compute; reflexivity. Qed.

(** The reserved names are found whatever the case of the local part, but the
    domain is looked up as the client wrote it. *)
Example reserved_local_part_case :
  fst (Rcpt receiver directory (bs "Postmaster@b.ag") fresh) = Accepted /\
  fst (Rcpt receiver directory (bs "postmaster@B.ag") fresh) = Rejected 550 (Some (5, 1, 1)).
Proof. split; vm_compute; reflexivity. Qed.

#[local] Definition alice_delivery (ip : IP) (h : bytes) (sender : bytes) : delivery * bool :=
  (Personal sender (bs "alice@b.ag") (bs "hello") ip h, true).

Lemma mail_only_to_accepted_witness :
  exists a d0 u, accepted_as receiver (commands (bs "<eve@x.y>") (bs "alice@b.ag")) a d0 u /\
    bs "alice@b.ag" ∈ targets_of directory a.
Proof.
  assert (alice_delivery [198; 51; 100; 7] (bs "mx.example") (bs "eve@x.y")
    ∈ data_log (commands (bs "<eve@x.y>") (bs "alice@b.ag"))) as HD.
  { replace (data_log (commands (bs "<eve@x.y>") (bs "alice@b.ag")))
      with [alice_delivery [198; 51; 100; 7] (bs "mx.example") (bs "eve@x.y")]
      by (vm_compute; reflexivity). left. }
  destruct (mail_only_to_accepted all_succeed no_subject receiver
    (commands (bs "<eve@x.y>") (bs "alice@b.ag")) directory (Some (bs "hello"))
    (bs "eve@x.y") (bs "alice@b.ag") (bs "hello") [198; 51; 100; 7] (bs "mx.example") true HD)
    as (_ & (a & d0 & u & H1 & H2 & _) & _). exists a, d0, u. split; [exact H1|exact H2].
Defined.

Lemma null_sender_hides_client_witness :
  seen_client (fst (alice_delivery loopback [] [])) = None \/
  seen_client (fst (alice_delivery loopback [] [])) = Some (loopback, []).
Proof.
  apply (null_sender_hides_client all_succeed no_subject receiver peer []
    [RCPT directory (bs "alice@b.ag")] directory (Some (bs "hello"))
    (fst (alice_delivery loopback [] [])) true).
  - reflexivity.
  - by repeat constructor.
  - change ((fst (alice_delivery loopback [] []), true)
      ∈ data_log (commands [] (bs "alice@b.ag"))).
    replace (data_log (commands [] (bs "alice@b.ag"))) with [alice_delivery loopback [] []]
      by (vm_compute; reflexivity). left.
Defined.

(** Two members of one alias: the second is handed five NUL bytes. *)
Lemma later_targets_read_zeros_witness :
  exists x, (x ∈ data_log (commands (bs "<eve@x.y>") (bs "<team@b.ag>"))) /\
    personal_target x.1 = Some (bs "bob@b.ag") /\
    body_of x.1 = replicate 5 "000"%byte /\ body_of x.1 <> bs "hello".
Proof.
  pose (l := data_log (commands (bs "<eve@x.y>") (bs "<team@b.ag>"))).
  exists (nth 1 l (alice_delivery [] [] [])). split.
  { apply (list_elem_of_lookup_2 _ 1). vm_compute. reflexivity. }
  assert (body_of (nth 1 l (alice_delivery [] [] [])).1 = replicate 5 "000"%byte) as H.
  { rewrite (later_targets_read_zeros all_succeed no_subject directory (bs "hello")
      (after all_succeed no_subject receiver fresh (commands (bs "<eve@x.y>") (bs "<team@b.ag>")))
      (take 1 l) (nth 1 l (alice_delivery [] [] [])) []); vm_compute; reflexivity. }
  split; [vm_compute; reflexivity|]. rewrite H. split; [reflexivity|discriminate].
Defined.
