(* ===== verification/Sender.v ===== *)
(** Outbound delivery: src/internal/smtp/sender.go.

The network is a parameter: what DNS, the policy host and each mail
exchanger answer.  [deliverToMX] and [SendMessage] return, besides their
result, the envelopes and messages they put on the wire.  Key parsing and
DKIM signing (src/internal/domain/dkim.go hands them to crypto/x509 and
go-msgauth) are parameters as well.

Shown: nothing is sent without a DKIM signature; no envelope goes to a host
that the recipient domain's DANE or MTA-STS policy excludes, in the clear
when TLS is required or offered, or under a key that no TLSA record names;
the exchangers are tried in order until one accepts or refuses for good. *)

From stdpp Require Import gmap.
From S2P Require Import Prelude Hex GoNet FilePath GoStrings Domain Pgp.
Local Open Scope Z_scope.

(** * Autocrypt header *)

Definition crlf : bytes := [x0d; x0a].

(** The header goes after the first line. *)
Definition insert_after_first_line (h body : bytes) : bytes :=
  match Index body crlf with
  | Some idx => take (idx + 2) body ++ bs "Autocrypt: " ++ h ++ crlf ++ drop (idx + 2) body
  | None => body
  end.

(** * Results *)

Inductive send_error := ErrPermanent (code : Z) | ErrTemporary (code : Z) | ErrOther.

Definition sent : Type := result send_error unit.

Definition is_permanent (r : sent) : bool :=
  match r with Err (ErrPermanent _) => true | _ => false end.

(** What a mail exchanger does at each point of the dialogue. *)
Inductive smtp_reply := ReplyOK | ReplyCode (code : Z) | ReplyBroken.

Definition classifyError (r : smtp_reply) : sent :=
  match r with
  | ReplyOK => Ok tt
  | ReplyCode code =>
      if (500 <=? code) && (code <? 600) then Err (ErrPermanent code)
      else Err (ErrTemporary code)
  | ReplyBroken => Err (ErrTemporary 450)
  end.

Record Remote := {
  connects : bool;
  greets : bool;
  ehlo_ok : bool;
  offers_starttls : bool;
  handshake_ok : bool;         (* with certificate verification *)
  peer_key : option bytes;     (* SubjectPublicKeyInfo of the leaf *)
  mail_reply : smtp_reply;
  rcpt_reply : smtp_reply;
  data_reply : smtp_reply;
  write_ok : bool;
  close_reply : smtp_reply
}.

(** What the enclave puts on the wire: an envelope (MAIL FROM), a message. *)
Inductive event :=
| Envelope (host : bytes) (tls : bool) (key : option bytes) (sender rcpt : bytes)
| Message (host : bytes) (tls : bool) (body : bytes).

Record TLSARecord := { Usage : Z; Selector : Z; MatchingType : Z; Certificate : bytes }.

(** The world outside: DNS, HTTPS, mail exchangers. *)
Record Net := {
  LookupMX : bytes -> option (list bytes);     (* hosts, best first *)
  LookupTXT : bytes -> option (list bytes);
  QueryTLSA : bytes -> option (bool * list TLSARecord);  (* authenticated? *)
  FetchPolicy : bytes -> option bytes;         (* body of a 200 answer *)
  exchanger : bytes -> Remote
}.

(** * TLS policy *)

Record tlsRequirement := {
  requireTLS : bool;
  tlsaHashes : gmap bytes (list bytes);
  stsPolicy : option MTASTSPolicy
}.

(** Only DANE-EE, SPKI, SHA-256 records of an authenticated answer. *)
Definition tlsa_hash (t : TLSARecord) : option bytes :=
  if (Usage t =? 3) && (Selector t =? 1) && (MatchingType t =? 1) then
    match hex_parse (Certificate t) with
    | Some h => if (length h =? 32)%nat then Some h else None
    | None => None
    end
  else None.

Definition lookupTLSARecords (net : Net) (host : bytes) : option (list bytes) :=
  match QueryTLSA net (bs "_25._tcp." ++ host ++ bs ".") with
  | None => None
  | Some (authenticated, answers) =>
      if negb authenticated then Some [] else Some (omap tlsa_hash answers)
  end.

(** [s.redis]: absent, or the policies cached under their keys.  Expiry and
    Redis errors, which read as a miss, happen between two calls: a caller may
    pass a smaller map than the last call returned. *)
Definition cache : Type := option (gmap bytes MTASTSPolicy).

Definition mtaSTSCacheKey (domain : bytes) : bytes := bs "mtasts:policy:" ++ domain.

Definition fetchMTASTSPolicyHTTP (net : Net) (domain : bytes) : option MTASTSPolicy :=
  body ← FetchPolicy net domain; ParseMTASTSPolicy (take (Z.to_nat 65536) body).

Definition fetchMTASTSPolicy (net : Net) (domain : bytes) (c : cache)
    : option MTASTSPolicy * cache :=
  match (m ← c; m !! mtaSTSCacheKey domain) with
  | Some p => (Some p, c)
  | None =>
      match fetchMTASTSPolicyHTTP net domain with
      | None => (None, c)
      | Some p => (Some p, (fun m => <[mtaSTSCacheKey domain := p]> m) <$> c)
      end
  end.

Definition add_dane (net : Net) (pol : tlsRequirement) (mx : bytes) : tlsRequirement :=
  let host := TrimSuffix mx (bs ".") in
  match lookupTLSARecords net host with
  | None | Some [] => pol
  | Some hashes => {| requireTLS := true; tlsaHashes := <[host := hashes]> (tlsaHashes pol);
                      stsPolicy := stsPolicy pol |}
  end.

Definition has_sts_record (txts : option (list bytes)) : bool :=
  existsb (fun txt => bool_decide (is_Some (Index txt (bs "v=STSv1")))) (default [] txts).

Definition enforces (p : MTASTSPolicy) : bool := bool_decide (Mode p = bs "enforce").

Definition lookupTLSPolicy (net : Net) (recipientDomain : bytes) (mxs : list bytes) (c : cache)
    : tlsRequirement * cache :=
  let pol := foldl (add_dane net)
               {| requireTLS := false; tlsaHashes := ∅; stsPolicy := None |} mxs in
  if has_sts_record (LookupTXT net (bs "_mta-sts." ++ recipientDomain)) then
    let '(p, c) := fetchMTASTSPolicy net recipientDomain c in
    (match p with
     | None => pol
     | Some p => {| requireTLS := requireTLS pol || enforces p; tlsaHashes := tlsaHashes pol;
                    stsPolicy := Some p |}
     end, c)
  else (pol, c).

(** * One exchanger *)

Section sender.

Context (sha256 : bytes -> bytes).

(** From MAIL FROM on. *)
Definition transfer (m : Remote) (host : bytes) (tls : bool) (sender rcpt body : bytes)
    : sent * list event :=
  let env := Envelope host tls (if tls then peer_key m else None) sender rcpt in
  match classifyError (mail_reply m) with
  | Err e => (Err e, [env])
  | Ok _ =>
  match classifyError (rcpt_reply m) with
  | Err e => (Err e, [env])
  | Ok _ =>
  match classifyError (data_reply m) with
  | Err e => (Err e, [env])
  | Ok _ =>
      if negb (write_ok m) then (Err (ErrTemporary 450), [env; Message host tls body])
      else (classifyError (close_reply m), [env; Message host tls body])
  end end end.

Definition dane_check (pol : tlsRequirement) (m : Remote) (host : bytes) (tls : bool) : sent :=
  match tlsaHashes pol !! host with
  | Some expected =>
      if tls then
        match peer_key m with
        | None => Err (ErrTemporary 450)
        | Some key => if bool_decide (sha256 key ∈ expected) then Ok tt else Err (ErrPermanent 550)
        end
      else Ok tt
  | None => Ok tt
  end.

Definition sts_check (pol : tlsRequirement) (host : bytes) : sent :=
  match stsPolicy pol with
  | Some p => if enforces p && negb (MatchesMX p host) then Err (ErrPermanent 550) else Ok tt
  | None => Ok tt
  end.

Definition deliverToMX (net : Net) (pol : tlsRequirement) (host sender rcpt body : bytes)
    : sent * list event :=
  let m := exchanger net host in
  if negb (connects m) then (Err (ErrTemporary 450), [])
  else if negb (greets m) then (Err (ErrTemporary 450), [])
  else if negb (ehlo_ok m) then (Err (ErrTemporary 450), [])
  else if offers_starttls m && negb (handshake_ok m) then (Err (ErrTemporary 450), [])
  else
    let tls := offers_starttls m in
    if requireTLS pol && negb tls then (Err (ErrTemporary 450), [])
    else match dane_check pol m host tls with
         | Err e => (Err e, [])
         | Ok _ =>
             match sts_check pol host with
             | Err e => (Err e, [])
             | Ok _ => transfer m host tls sender rcpt body
             end
         end.

(** The loop over the exchangers; [last] is [lastErr]. *)
Fixpoint try_hosts (deliver : bytes -> sent * list event) (last : sent) (hosts : list bytes)
    : sent * list event :=
  match hosts with
  | [] => (last, [])
  | h :: hosts =>
      let '(r, evs) := deliver h in
      match r with
      | Ok _ => (Ok tt, evs)
      | Err (ErrPermanent _) => (r, evs)
      | Err _ => let '(r', evs') := try_hosts deliver r hosts in (r', evs ++ evs')
      end
  end.

(** * Signing *)

Record Tenant := {
  TenantDomain : bytes;
  DKIMPoolSelector : bytes;
  DKIMRSAPrivateKeyEncrypted : bytes;
  DKIMRSASelector : bytes;
  DKIMPrivateKeyEncrypted : bytes;
  DKIMSelector : bytes
}.

Record DKIMPoolKeys := { PoolSelector : bytes; Ed25519Seed : bytes; RSAPKCS8 : bytes }.

Context {RSAKey EdKey : Type}.

(** [x509.ParsePKCS8PrivateKey], whose key may be of another type;
    [ed25519.NewKeyFromSeed] and the conversion of a full key; the signers. *)
Context (ParsePKCS8 : bytes -> option (option RSAKey)).
Context (NewKeyFromSeed FullKey : bytes -> EdKey).
Context (SignMessageRSA : RSAKey -> bytes -> bytes -> bytes -> option bytes).
Context (SignMessage : EdKey -> bytes -> bytes -> bytes -> option bytes).

Record SMTPSender := {
  unseal : option (bytes -> option bytes);                  (* s.teeRuntime *)
  dkimPool : option (bytes -> option (option DKIMPoolKeys));
  pgp_key : option (bytes -> option bytes);                 (* s.authStore *)
  export_minimal : bytes -> option bytes
}.

Definition inject_autocrypt (s : SMTPSender) (sender body : bytes) : bytes :=
  match pgp_key s with
  | None => body
  | Some lookup =>
      match lookup sender with
      | None | Some [] => body
      | Some key =>
          match export_minimal s key with
          | None | Some [] => body
          | Some minimal =>
              insert_after_first_line (FormatAutocryptHeader sender (base64 minimal)) body
          end
      end
  end.

(** [s.teeRuntime.Unseal], or the bytes themselves without a runtime. *)
Definition unseal_or_raw (s : SMTPSender) (b : bytes) : option bytes :=
  match unseal s with Some f => f b | None => Some b end.

(** The RSA signature of the pool. *)
Definition sign_pool (t : Tenant) (pool : DKIMPoolKeys) (body : bytes) : option bytes :=
  match ParsePKCS8 (RSAPKCS8 pool) with
  | Some (Some key) => SignMessageRSA key (TenantDomain t) (PoolSelector pool) body
  | _ => None
  end.

(** The tenant's own signatures.  [None] is an error return; the flag says
    whether the message has been signed. *)
Definition sign_rsa (s : SMTPSender) (t : Tenant) (body : bytes) : option (bytes * bool) :=
  if negb (bool_decide (DKIMRSAPrivateKeyEncrypted t = [])) &&
     negb (bool_decide (DKIMRSASelector t = []))
  then
    der ← unseal_or_raw s (DKIMRSAPrivateKeyEncrypted t);
    match ParsePKCS8 der with
    | Some (Some key) =>
        signed ← SignMessageRSA key (TenantDomain t) (DKIMRSASelector t) body;
        Some (signed, true)
    | _ => Some (body, false)
    end
  else Some (body, false).

Definition ed_key (seed : bytes) : option EdKey :=
  if (length seed =? 32)%nat then Some (NewKeyFromSeed seed)
  else if (length seed =? 64)%nat then Some (FullKey seed)
  else None.

Definition sign_ed (s : SMTPSender) (t : Tenant) (body : bytes) (already : bool)
    : option (bytes * bool) :=
  if negb (bool_decide (DKIMPrivateKeyEncrypted t = [])) &&
     negb (bool_decide (DKIMSelector t = []))
  then
    seed ← unseal_or_raw s (DKIMPrivateKeyEncrypted t);
    match ed_key seed with
    | Some key =>
        signed ← SignMessage key (TenantDomain t) (DKIMSelector t) body;
        Some (signed, true)
    | None => Some (body, already)
    end
  else Some (body, already).

(** Section 2b of [SendMessage], with the refusal to send unsigned. *)
Definition dkim_sign (s : SMTPSender) (t : Tenant) (body : bytes) : option bytes :=
  match dkimPool s with
  | Some get =>
      if negb (bool_decide (DKIMPoolSelector t = [])) then
        match get (DKIMPoolSelector t) with
        | Some (Some pool) => sign_pool t pool body
        | _ => None
        end
      else
        '(body, ok) ← sign_rsa s t body;
        '(body, ok) ← sign_ed s t body ok;
        if (ok : bool) then Some body else None
  | None =>
      '(body, ok) ← sign_rsa s t body;
      '(body, ok) ← sign_ed s t body ok;
      if (ok : bool) then Some body else None
  end.

(** * SendMessage *)

Definition recipient_domain (rcpt : bytes) : bytes :=
  match LastIndexByte "@" rcpt with Some i => skipn (S i) rcpt | None => rcpt end.

Definition SendMessage (s : SMTPSender) (net : Net) (GetTenant : bytes -> option Tenant)
    (sender rcpt body tenantID : bytes) (c : cache) : sent * list event * cache :=
  match GetTenant tenantID with
  | None => (Err ErrOther, [], c)
  | Some tenant =>
  match dkim_sign s tenant (inject_autocrypt s sender body) with
  | None => (Err ErrOther, [], c)
  | Some body =>
  match LookupMX net (recipient_domain rcpt) with
  | None => (Err (ErrTemporary 450), [], c)
  | Some [] => (Err (ErrPermanent 550), [], c)
  | Some mxs =>
      let '(pol, c) := lookupTLSPolicy net (recipient_domain rcpt) mxs c in
      let '(r, evs) := try_hosts (fun host => deliverToMX net pol host sender rcpt body) (Ok tt)
                         ((fun mx => TrimSuffix mx (bs ".")) <$> mxs) in
      (r, evs, c)
  end end end.

End sender.

(** * Lemmas *)

(** What the policy demands of an envelope to [host]. *)
Definition allowed_by (sha256 : bytes -> bytes) (pol : tlsRequirement) (host : bytes)
    (tls : bool) (key : option bytes) : Prop :=
  (requireTLS pol = true -> tls = true) /\
  (forall hashes, tlsaHashes pol !! host = Some hashes ->
     tls = true /\ exists k, key = Some k /\ sha256 k ∈ hashes) /\
  (forall p, stsPolicy pol = Some p -> Mode p = bs "enforce" ->
     tls = true /\ MatchesMX p host = true).

(** Policies as [lookupTLSPolicy] builds them require TLS whenever they
    constrain a host. *)
Definition coherent (pol : tlsRequirement) : Prop :=
  (forall host hashes, tlsaHashes pol !! host = Some hashes -> requireTLS pol = true) /\
  (forall p, stsPolicy pol = Some p -> Mode p = bs "enforce" -> requireTLS pol = true).

Lemma add_dane_coherent net pol mx : coherent pol -> coherent (add_dane net pol mx).
Proof.
  intros [H1 H2]. unfold add_dane. destruct (lookupTLSARecords _ _) as [[|h hs]|]; try done.
Qed.

Lemma lookupTLSPolicy_coherent net dom mxs c : coherent (fst (lookupTLSPolicy net dom mxs c)).
Proof.
  unfold lookupTLSPolicy.
  assert (forall pol, coherent pol -> coherent (foldl (add_dane net) pol mxs)) as Hf.
  { induction mxs as [|mx mxs IH]; intros pol Hp; [done|]. cbn [foldl].
    by apply IH, add_dane_coherent. }
  specialize (Hf {| requireTLS := false; tlsaHashes := ∅; stsPolicy := None |}).
  set (pol := foldl _ _ mxs) in *.
  assert (coherent pol) as Hp.
  { apply Hf. split; cbn; [|done]. intros host hashes Hh. by rewrite lookup_empty in Hh. }
  destruct (has_sts_record _); [|done]. destruct (fetchMTASTSPolicy _ _ _) as [[p|] c']; [|done].
  cbn [fst]. destruct Hp as [H1 H2]. split; cbn [requireTLS tlsaHashes stsPolicy].
  - intros host hashes Hh. by rewrite (H1 host hashes Hh).
  - intros q [= <-] Hm. unfold enforces. rewrite bool_decide_eq_true_2 by done. apply orb_true_r.
Qed.

Lemma transfer_events m host tls sender rcpt body ev :
  ev ∈ snd (transfer m host tls sender rcpt body) ->
  ev = Envelope host tls (if tls then peer_key m else None) sender rcpt \/
  ev = Message host tls body.
Proof.
  unfold transfer. repeat case_match; cbn [snd]; rewrite ?elem_of_cons, ?list_elem_of_singleton; set_solver.
Qed.

Section lemmas.
Context (sha256 : bytes -> bytes).

(** Nothing is sent to an exchanger the policy does not allow. *)
Lemma deliverToMX_events net pol host sender rcpt body ev :
  coherent pol -> ev ∈ snd (deliverToMX sha256 net pol host sender rcpt body) ->
  let tls := offers_starttls (exchanger net host) in
  let key := if tls then peer_key (exchanger net host) else None in
  (ev = Envelope host tls key sender rcpt \/ ev = Message host tls body) /\
  allowed_by sha256 pol host tls key.
Proof.
  intros [C1 C2]. unfold deliverToMX. set (m := exchanger net host). cbv zeta.
  destruct (connects m); cbn [negb]; [|by intros ?%not_elem_of_nil].
  destruct (greets m); cbn [negb]; [|by intros ?%not_elem_of_nil].
  destruct (ehlo_ok m); cbn [negb]; [|by intros ?%not_elem_of_nil].
  destruct (offers_starttls m && negb (handshake_ok m)); [by intros ?%not_elem_of_nil|].
  set (tls := offers_starttls m).
  destruct (requireTLS pol && negb tls) eqn:Er; [by intros ?%not_elem_of_nil|].
  assert (requireTLS pol = true -> tls = true) as Hreq.
  { intros E. rewrite E in Er. by destruct tls. }
  destruct (dane_check sha256 pol m host tls) as [[]|e] eqn:Ed; [|by intros ?%not_elem_of_nil].
  destruct (sts_check pol host) as [[]|e] eqn:Es; [|by intros ?%not_elem_of_nil].
  intros Hev. split; [by eapply transfer_events|]. split_and!; [done| |].
  - intros hashes Hh. unfold dane_check in Ed. rewrite Hh in Ed.
    rewrite (Hreq (C1 _ _ Hh)) in Ed |- *. split; [done|].
    destruct (peer_key m) as [k|]; [|done]. case_bool_decide; [|done]. by exists k.
  - intros p Hp Hm. split; [by apply Hreq, (C2 p)|]. unfold sts_check in Es. rewrite Hp in Es.
    unfold enforces in Es. rewrite bool_decide_eq_true_2 in Es by done.
    by destruct (MatchesMX p host).
Qed.

Lemma try_hosts_events deliver (hosts : list bytes) last ev :
  ev ∈ snd (try_hosts deliver last hosts) -> exists h, h ∈ hosts /\ ev ∈ snd (deliver h).
Proof.
  revert last. induction hosts as [|h hosts IH]; intros last Hev; cbn [try_hosts] in Hev.
  - by apply not_elem_of_nil in Hev.
  - destruct (deliver h) as [r evs] eqn:E.
    assert (ev ∈ evs -> exists h', h' ∈ h :: hosts /\ ev ∈ snd (deliver h')) as Hhere.
    { intros Hin. exists h. rewrite E. split; [by left|done]. }
    destruct r as [[]|[code|code|]]; cbn [snd] in Hev; [by apply Hhere..| |].
    + destruct (try_hosts deliver _ hosts) as [r' evs'] eqn:E'. cbn [snd] in Hev.
      apply elem_of_app in Hev as [Hev|Hev]; [by apply Hhere|].
      destruct (IH (Err (ErrTemporary code))) as (h' & Hh & Hd); [by rewrite E'|].
      exists h'. split; [by right|done].
    + destruct (try_hosts deliver _ hosts) as [r' evs'] eqn:E'. cbn [snd] in Hev.
      apply elem_of_app in Hev as [Hev|Hev]; [by apply Hhere|].
      destruct (IH (Err ErrOther)) as (h' & Hh & Hd); [by rewrite E'|].
      exists h'. split; [by right|done].
Qed.

(** The exchangers before [pre] failed for now. *)
Definition soft_failure (deliver : bytes -> sent * list event) (h : bytes) : Prop :=
  exists e, fst (deliver h) = Err e /\ is_permanent (Err e) = false.

(** The exchangers are tried in order of preference.  The message is
    delivered exactly when one of them accepts it after all better ones failed
    temporarily; a permanent refusal ends the attempt as such; and when all
    fail temporarily the last failure is the result. *)
Theorem try_hosts_spec deliver (hosts : list bytes) last
    (Hlast : hosts <> []) :
  match fst (try_hosts deliver last hosts) with
  | Err (ErrPermanent c) => exists pre h post, hosts = pre ++ h :: post /\
      Forall (soft_failure deliver) pre /\ fst (deliver h) = Err (ErrPermanent c)
  | Ok _ => exists pre h post, hosts = pre ++ h :: post /\
      Forall (soft_failure deliver) pre /\ fst (deliver h) = Ok tt
  | Err e => exists pre h, hosts = pre ++ [h] /\
      Forall (soft_failure deliver) hosts /\ fst (deliver h) = Err e
  end.
Proof.
  revert last Hlast. induction hosts as [|h hosts IH]; intros last Hlast; [done|].
  cbn [try_hosts]. destruct (deliver h) as [r evs] eqn:E.
  assert (fst (deliver h) = r) as Eh by by rewrite E.
  destruct r as [[]|[code|code|]].
  - cbn. exists [], h, hosts. by repeat split.
  - cbn. exists [], h, hosts. by repeat split.
  - assert (soft_failure deliver h) as Hs by by eexists.
    destruct hosts as [|h2 hosts].
    + cbn. exists [], h. repeat split; [by constructor|done].
    + specialize (IH (Err (ErrTemporary code)) ltac:(done)).
      destruct (try_hosts deliver _ (h2 :: hosts)) as [r' evs']. cbn [fst] in IH |- *.
      destruct r' as [[]|[c|c|]]; [destruct IH as (pre & x & post & -> & Hf & Hd);
        exists (h :: pre), x, post; by repeat split; try constructor..| |];
        destruct IH as (pre & x & -> & Hf & Hd); exists (h :: pre), x;
        (split; [done|split; [by constructor|done]]).
  - assert (soft_failure deliver h) as Hs by by eexists.
    destruct hosts as [|h2 hosts].
    + cbn. exists [], h. repeat split; [by constructor|done].
    + specialize (IH (Err ErrOther) ltac:(done)).
      destruct (try_hosts deliver _ (h2 :: hosts)) as [r' evs']. cbn [fst] in IH |- *.
      destruct r' as [[]|[c|c|]]; [destruct IH as (pre & x & post & -> & Hf & Hd);
        exists (h :: pre), x, post; by repeat split; try constructor..| |];
        destruct IH as (pre & x & -> & Hf & Hd); exists (h :: pre), x;
        (split; [done|split; [by constructor|done]]).
Qed.

(** ** Signing *)

Context {RSAKey EdKey : Type}.
Context (ParsePKCS8 : bytes -> option (option RSAKey)).
Context (NewKeyFromSeed FullKey : bytes -> EdKey).
Context (SignMessageRSA : RSAKey -> bytes -> bytes -> bytes -> option bytes).
Context (SignMessage : EdKey -> bytes -> bytes -> bytes -> option bytes).

(** [b] is the output of one of the signers for the tenant's domain. *)
Definition dkim_signed (t : Tenant) (b : bytes) : Prop :=
  (exists key selector b0, SignMessageRSA key (TenantDomain t) selector b0 = Some b) \/
  (exists key selector b0, SignMessage key (TenantDomain t) selector b0 = Some b).

Lemma sign_rsa_signed s t body b ok :
  sign_rsa ParsePKCS8 SignMessageRSA s t body = Some (b, ok) ->
  if (ok : bool) then dkim_signed t b else b = body.
Proof.
  unfold sign_rsa. destruct (_ && _); [|by intros [= <- <-]].
  destruct (unseal_or_raw _ _) as [der|]; [|done]. cbn [mbind option_bind].
  destruct (ParsePKCS8 der) as [[key|]|]; [|by intros [= <- <-]..].
  destruct (SignMessageRSA _ _ _ _) as [b'|] eqn:E; [|done]. intros [= <- <-].
  left. by eexists _, _, _.
Qed.

Lemma sign_ed_signed s t body already b ok :
  sign_ed NewKeyFromSeed FullKey SignMessage s t body already = Some (b, ok) ->
  dkim_signed t b \/ (b = body /\ ok = already).
Proof.
  unfold sign_ed. destruct (_ && _); [|intros [= <- <-]; by right].
  destruct (unseal_or_raw _ _) as [seed|]; [|done]. cbn [mbind option_bind].
  destruct (ed_key _ _ seed) as [key|]; [|intros [= <- <-]; by right].
  destruct (SignMessage _ _ _ _) as [b'|] eqn:E; [|done]. intros [= <- <-].
  left. right. by eexists _, _, _.
Qed.

Lemma dkim_sign_signed s t body b :
  dkim_sign ParsePKCS8 NewKeyFromSeed FullKey SignMessageRSA SignMessage s t body = Some b ->
  dkim_signed t b.
Proof.
  assert ((('(body, ok) ← sign_rsa ParsePKCS8 SignMessageRSA s t body;
    '(body, ok) ← sign_ed NewKeyFromSeed FullKey SignMessage s t body ok;
    if (ok : bool) then Some body else None) = Some b) -> dkim_signed t b) as Hown.
  { destruct (sign_rsa _ _ s t body) as [[b1 ok1]|] eqn:E1; [|done]. cbn [mbind option_bind].
    destruct (sign_ed _ _ _ s t b1 ok1) as [[b2 ok2]|] eqn:E2; [|done]. cbn [mbind option_bind].
    destruct ok2; [|done]. intros [= <-].
    apply sign_ed_signed in E2 as [E2|[-> E2]]; [done|]. subst ok1.
    exact (sign_rsa_signed _ _ _ _ _ E1). }
  unfold dkim_sign. destruct (dkimPool s) as [get|]; [|done].
  destruct (negb _); [|done]. destruct (get _) as [[pool|]|]; [|done..].
  unfold sign_pool. destruct (ParsePKCS8 _) as [[key|]|]; [|done..].
  intros E. left. by eexists _, _, _.
Qed.

(** C14. Every envelope and every message that [SendMessage] puts on the wire
    goes to a mail exchanger of the recipient's domain, as that domain's
    policy allows: over TLS when DANE or an enforced MTA-STS policy demands
    it or the exchanger offers it, to a host the MTA-STS policy lists, under
    a key one of its TLSA records names; and every message is DKIM-signed for
    the tenant's domain. *)
Theorem sent_under_policy_and_signed s net GetTenant sender rcpt body tenantID c r evs c' ev
    (HS : SendMessage sha256 ParsePKCS8 NewKeyFromSeed FullKey SignMessageRSA SignMessage
            s net GetTenant sender rcpt body tenantID c = (r, evs, c'))
    (Hev : ev ∈ evs) :
  exists tenant mxs mx,
    GetTenant tenantID = Some tenant /\
    LookupMX net (recipient_domain rcpt) = Some mxs /\ mx ∈ mxs /\
    let host := TrimSuffix mx (bs ".") in
    let tls := offers_starttls (exchanger net host) in
    let key := if tls then peer_key (exchanger net host) else None in
    allowed_by sha256 (fst (lookupTLSPolicy net (recipient_domain rcpt) mxs c)) host tls key /\
    (ev = Envelope host tls key sender rcpt \/
     exists b, ev = Message host tls b /\ dkim_signed tenant b).
Proof.
  unfold SendMessage in HS. destruct (GetTenant tenantID) as [tenant|] eqn:Et;
    [|injection HS as <- <- <-; by apply not_elem_of_nil in Hev].
  destruct (dkim_sign _ _ _ _ _ s tenant _) as [b|] eqn:Eb;
    [|injection HS as <- <- <-; by apply not_elem_of_nil in Hev].
  destruct (LookupMX net _) as [[|mx0 mxs]|] eqn:Em;
    [injection HS as <- <- <-; by apply not_elem_of_nil in Hev| |
     injection HS as <- <- <-; by apply not_elem_of_nil in Hev].
  pose proof (lookupTLSPolicy_coherent net (recipient_domain rcpt) (mx0 :: mxs) c) as Hcoh.
  destruct (lookupTLSPolicy net _ (mx0 :: mxs) c) as [pol c1] eqn:Ep. cbn [fst] in Hcoh.
  destruct (try_hosts _ _ _) as [r' evs'] eqn:Eh. injection HS as <- <- <-.
  assert (ev ∈ snd (r', evs')) as Hev' by done. rewrite <-Eh in Hev'.
  apply try_hosts_events in Hev' as (h & Hh & Hev').
  apply list_elem_of_fmap in Hh as (mx & -> & Hmx).
  destruct (deliverToMX_events _ _ _ _ _ _ _ Hcoh Hev') as [He Ha].
  exists tenant, (mx0 :: mxs), mx. split_and!; [done..|]. cbv zeta. rewrite Ep.
  split; [exact Ha|]. destruct He as [->| ->]; [by left|right].
  exists b. split; [done|]. by eapply dkim_sign_signed.
Qed.

End lemmas.

(** * The properties at a concrete recipient domain *)

#[local] Definition good_remote (key : bytes) : Remote := {|
  connects := true; greets := true; ehlo_ok := true; offers_starttls := true;
  handshake_ok := true; peer_key := Some key; mail_reply := ReplyOK; rcpt_reply := ReplyOK;
  data_reply := ReplyOK; write_ok := true; close_reply := ReplyOK
|}.
#[local] Definition dead_remote : Remote := {|
  connects := false; greets := false; ehlo_ok := false; offers_starttls := false;
  handshake_ok := false; peer_key := None; mail_reply := ReplyBroken; rcpt_reply := ReplyBroken;
  data_reply := ReplyBroken; write_ok := false; close_reply := ReplyBroken
|}.
#[local] Definition demo_key : bytes := replicate 32 x07.
#[local] Definition demo_net : Net := {|
  LookupMX d := if bool_decide (d = bs "a.b") then Some [bs "mx1.a.b."; bs "mx2.a.b."] else None;
  LookupTXT d := Some [bs "v=STSv1; id=1"];
  QueryTLSA q := if bool_decide (q = bs "_25._tcp.mx2.a.b.")
    then Some (true, [Build_TLSARecord 3 1 1 (hex_bytes demo_key)]) else None;
  FetchPolicy d := Some (GenerateMTASTSPolicy [bs "*.a.b"]);
  exchanger h := if bool_decide (h = bs "mx2.a.b") then good_remote demo_key else dead_remote
|}.
#[local] Definition demo_tenant : Tenant :=
  Build_Tenant (bs "t.x") [] [] [] (replicate 32 x01) (bs "sel").
#[local] Definition demo_sender : SMTPSender :=
  Build_SMTPSender None None None (fun _ => None).
#[local] Definition demo_send : sent * list event * cache :=
  SendMessage (fun b => b) (fun _ : bytes => None (A := option unit)) (fun s => s) (fun s => s)
    (fun _ _ _ _ => None) (fun key d s b => Some (bs "DKIM-Signature: " ++ b))
    demo_sender demo_net (fun _ => Some demo_tenant)
    (bs "me@t.x") (bs "you@a.b") (bs "hi") (bs "t") None.
#[local] Definition demo_message : event :=
  Message (bs "mx2.a.b") true (bs "DKIM-Signature: hi").

Example demo_send_delivers :
  fst demo_send =
    (Ok tt, [Envelope (bs "mx2.a.b") true (Some demo_key) (bs "me@t.x") (bs "you@a.b"); demo_message]).
Proof. vm_compute. reflexivity. Qed.

Lemma sent_under_policy_and_signed_witness :
  exists mx, mx ∈ [bs "mx1.a.b."; bs "mx2.a.b."] /\
    MatchesMX (mkPolicy (bs "STSv1") (bs "enforce") [bs "*.a.b"] 604800) (TrimSuffix mx (bs "."))
      = true.
Proof.
  destruct demo_send as [[r evs] c'] eqn:E.
  assert (demo_message ∈ evs) as Hev.
  { apply (f_equal (fun x => snd (fst x))) in E. cbn [fst snd] in E. rewrite <-E.
    replace (snd (fst demo_send)) with
      [Envelope (bs "mx2.a.b") true (Some demo_key) (bs "me@t.x") (bs "you@a.b"); demo_message]
      by (vm_compute; reflexivity).
    right. left. }
  destruct (sent_under_policy_and_signed _ _ _ _ _ _ _ _ _ _ _ _ _ _ _ _ _ _ E Hev)
    as (tenant & mxs & mx & _ & Hm & Hin & Ha & _).
  assert (mxs = [bs "mx1.a.b."; bs "mx2.a.b."]) as ->
    by (vm_compute in Hm; injection Hm as <-; reflexivity).
  exists mx. split; [exact Hin|]. apply Ha; [vm_compute; reflexivity|reflexivity].
Defined.

#[local] Definition demo_deliver (h : bytes) : sent * list event :=
  if bool_decide (h = bs "mx2") then (Ok tt, []) else (Err (ErrTemporary 451), []).

Lemma try_hosts_spec_witness :
  exists pre h post, [bs "mx1"; bs "mx2"; bs "mx3"] = pre ++ h :: post /\
    Forall (soft_failure demo_deliver) pre /\ fst (demo_deliver h) = Ok tt.
Proof.
  apply (try_hosts_spec demo_deliver [bs "mx1"; bs "mx2"; bs "mx3"] (Ok tt)). discriminate.
Defined.
