(* ===== verification/Peer.v ===== *)
(** internal/peer/peer.go: enclaves of one host name sharing a TLS key, the
    three handlers they offer each other and the DANE record they publish.
    Shown: who is given the key; what a sync takes over, and that it never
    succeeds against an enclave whose key is longer than a report can bind;
    that the record published is one the outbound sender accepts the served
    key under. *)

From stdpp Require Import pretty.
From S2P Require Import Prelude SysFS Hex GoNet GoStrings Decimal Tee.
From S2P Require Domain Sender.

#[local] Open Scope Z_scope.

(** [strconv.ParseInt(strconv.FormatInt(n))]. *)
Lemma fold_digits ds acc :
  Forall (fun c => is_Some (digit c)) ds ->
  foldl (fun a c => n ← a; d ← digit c; Some (n * 10 + d)) (Some acc) ds =
  scan_digits acc true ds.
Proof.
  intros Hd. revert acc. induction Hd as [|c ds [d Hc] _ IH]; intros acc; [done|].
  cbn. rewrite Hc. cbn. apply IH.
Qed.

Lemma pretty_go_digits x : forall s, Forall (fun c => is_Some (digit c)) (string_bytes s) ->
  Forall (fun c => is_Some (digit c)) (string_bytes (pretty_N_go x s)).
Proof.
  induction (N.lt_wf_0 x) as [x _ IH]. intros s Hs. destruct (decide (x = 0)%N) as [->|Hx]; [done|].
  rewrite pretty_N_go_step by lia. apply IH; [apply N.div_lt; lia|].
  rewrite byte_of_ascii_String. constructor; [|done].
  rewrite digit_printed by (apply N.mod_lt; lia). by eexists.
Qed.

Lemma fold_pretty (n : N) :
  string_bytes (pretty n) <> [] /\
  foldl (fun a c => m ← a; d ← digit c; Some (m * 10 + d)) (Some 0) (string_bytes (pretty n)) =
  Some (Z.of_N n).
Proof.
  pose proof (digits_pretty n [] eq_refl) as Hd. rewrite app_nil_r in Hd.
  destruct (pretty_N_head n) as (c & s & E & Hc).
  assert (Forall (fun c => is_Some (digit c)) (string_bytes (pretty n))) as Hf.
  { unfold pretty, pretty_N. case_decide; [repeat constructor; by eexists|].
    apply pretty_go_digits. constructor. }
  split; [by rewrite E|]. rewrite fold_digits by done. rewrite <-Hd, E. by destruct Hc as [d Hc]; cbn; rewrite Hc.
Qed.

Lemma Atoi_pretty (n : Z) : - 2 ^ 63 <= n < 2 ^ 63 -> Atoi (string_bytes (pretty n)) = Some n.
Proof.
  intros Hn. assert (forall p, Atoi (string_bytes (pretty (N.pos p))) =
    if (- 2 ^ 63 <=? Z.pos p) && (Z.pos p <? 2 ^ 63) then Some (Z.pos p) else None) as Hp.
  { intros p. destruct (fold_pretty (N.pos p)) as [Hne Hf].
    destruct (pretty_N_head (N.pos p)) as (c & s & E & Hc). destruct (not_sign c Hc) as [Hp Hm].
    unfold Atoi. rewrite E in *.
    assert (match c with "+"%byte => (false, s) | "-"%byte => (true, s)
            | _ => (false, c :: s) end = (false, c :: s)) as -> by (destruct c; done).
    rewrite bool_decide_eq_false_2 by done. by rewrite Hf. }
  destruct n as [|p|p]; [done| |].
  - change (pretty (Z.pos p)) with (pretty (N.pos p)). rewrite Hp.
    rewrite (proj2 (Z.leb_le _ _)), (proj2 (Z.ltb_lt _ _)) by lia. done.
  - change (string_bytes (pretty (Z.neg p))) with ("-"%byte :: string_bytes (pretty (N.pos p))).
    destruct (fold_pretty (N.pos p)) as [Hne Hf]. unfold Atoi.
    rewrite bool_decide_eq_false_2 by done. rewrite Hf. cbn.
    rewrite (proj2 (Z.leb_le _ _)), (proj2 (Z.ltb_lt _ _)) by lia. done.
Qed.

(** * State *)

Record Config := {
  Hostname : string;
  TLSKeyPath : path;
  AuthSecret : bytes
}.

(** [tls_issuer]: the issuer's common name, when the leaf has been parsed. *)
Record cert := { cert_chain : list bytes; tls_issuer : option bytes }.

Record Manager := mkManager {
  cfg : Config;
  tlsCert : option cert;
  tlsKey : bytes;
  certPEM : bytes;
  spkiDER : bytes;
  localIPs : list bytes
}.

(** [NewManager]. *)
Definition NewManager (c : Config) (ips : list bytes) : Manager := mkManager c None [] [] [] ips.

(** The requests peers send each other, and the answers. *)
Inductive peer_request := PeerCert | PeerAttestation | PeerKey (ts mac : bytes).

Inductive sync_err := SCert | SAttestation | SNoSecret | SKey | SPair | SLeaf.

(** A Go map: one request's JSON of [updateDANE]. *)
Record dane_update := { dane_host : string; dane_tlsa : bytes; dane_attestation : bytes }.

Definition peerKeyAuthSkew : Z := 60.

Section peer.
Context (hmac : bytes -> bytes -> bytes) (sha256 : bytes -> bytes).
(** [TEERuntime.Attest], [SelfID] and the JSON of an attestation. *)
Context (Attest : bytes -> option bytes) (SelfID : string)
  (attestation_json : string -> bytes -> bytes) (attestation_decodes : bytes -> bool).
(** encoding/pem and crypto/tls: a key as PEM and its first block, a chain as
    PEM, pairing a chain with a key, and what a certificate says. *)
Context (pem_key : bytes -> bytes) (pem_first : bytes -> option bytes)
  (pem_chain : list bytes -> bytes) (X509KeyPair : bytes -> bytes -> option (list bytes))
  (ParseCertificate : bytes -> option (bytes * bytes)).

(** * Handlers *)

Definition handleGetCert (m : Manager) : Z * bytes :=
  if bool_decide (certPEM m = []) then (404, []) else (200, certPEM m).

Definition key_request_text (unixTS : Z) : bytes :=
  bs "GET /peer/key" ++ [x0a] ++ bs (pretty unixTS).

Definition signPeerKeyRequest (secret : bytes) (unixTS : Z) : bytes :=
  hex_bytes (hmac secret (key_request_text unixTS)).

Definition handleGetKey (now : Z) (m : Manager) (tsStr mac : bytes) : Z * bytes :=
  let secret := AuthSecret (cfg m) in
  if bool_decide (secret = []) then (503, [])
  else if bool_decide (tsStr = []) || bool_decide (mac = []) then (401, [])
  else match Atoi tsStr with
  | None => (401, [])
  | Some ts =>
      if (ts <? now - peerKeyAuthSkew) || (now + peerKeyAuthSkew <? ts) then (401, [])
      else
        let expected := signPeerKeyRequest secret ts in
        match hex_parse mac with
        | None => (401, [])
        | Some providedBytes =>
            if negb (bool_decide (Some providedBytes = hex_parse expected)) then (403, [])
            else if bool_decide (tlsKey m = []) then (404, [])
            else (200, pem_key (tlsKey m))
        end
  end.

(** The quote binds the bytes of the SubjectPublicKeyInfo themselves. *)
Definition handleGetAttestation (m : Manager) : Z * bytes :=
  match Attest (spkiDER m) with
  | None => (500, [])
  | Some quote => (200, attestation_json SelfID (base64 quote))
  end.

(** A peer at some time, as its mux answers. *)
Definition peer_answer (now : Z) (m : Manager) (r : peer_request) : Z * bytes :=
  match r with
  | PeerCert => handleGetCert m
  | PeerAttestation => handleGetAttestation m
  | PeerKey ts mac => handleGetKey now m ts mac
  end.

(** * The requesting side *)

Definition hasLECert (m : Manager) : bool :=
  match tlsCert m with
  | Some {| tls_issuer := Some issuer |} =>
      existsb (contains issuer) [bs "Let's Encrypt"; bs "R3"; bs "R10"; bs "E5"; bs "E6"]
  | _ => false
  end.

(** [ips]: the lookup of the host name, if it succeeds. *)
Definition discoverPeers (m : Manager) (ips : option (list bytes)) : list bytes :=
  match ips with
  | None => []
  | Some ips =>
      if existsb (fun ip => bool_decide (ip ∈ localIPs m)) ips
      then filter (fun ip => ip ∉ localIPs m) ips else []
  end.

(** [ask]: one GET over plain HTTP; [None] is no answer or an unreadable one. *)
Abbreviation asker := (peer_request -> option (Z * bytes)) (only parsing).

Definition ok_body (a : option (Z * bytes)) : option bytes :=
  match a with Some (code, b) => if code =? 200 then Some b else None | None => None end.

(** ** Who gets the key *)

Definition in_window (now ts : Z) : Prop := now - peerKeyAuthSkew <= ts <= now + peerKeyAuthSkew.

(** The key is handed out exactly to a request that names a time within a
    minute of the server's clock and carries the MAC of that time under the
    shared secret; without a secret, to none. *)
Lemma handleGetKey_spec now m tsStr mac body :
  handleGetKey now m tsStr mac = (200, body) <->
  AuthSecret (cfg m) <> [] /\ tlsKey m <> [] /\ body = pem_key (tlsKey m) /\ mac <> [] /\
  exists ts, Atoi tsStr = Some ts /\ in_window now ts /\
    hex_parse mac = Some (hmac (AuthSecret (cfg m)) (key_request_text ts)).
Proof.
  unfold handleGetKey, signPeerKeyRequest, in_window.
  assert (forall x, hex_parse (hex_bytes x) = Some x) as Hhex.
  { intros x. pose proof (hex_roundtrip x) as Hr. unfold hex_DecodeString, hex_EncodeToString in Hr.
    by rewrite string_bytes_string in Hr. }
  case_bool_decide as Hs; [by split; [|intros [? _]]|].
  destruct (bool_decide (tsStr = [])) eqn:Et; cbn [orb].
  { apply bool_decide_eq_true in Et as ->. split; [done|].
    by intros (_ & _ & _ & _ & ts & Ha & _). }
  clear Et.
  case_bool_decide as Hm; [by split; [|intros (_ & _ & _ & ? & _)]|].
  destruct (Atoi tsStr) as [ts|].
  2: { split; [done|]. by intros (_ & _ & _ & _ & ts & Hts & _). }
  destruct (Z.ltb_spec ts (now - peerKeyAuthSkew)); cbn [orb].
  { split; [done|]. intros (_ & _ & _ & _ & ts' & [= <-] & ? & _). lia. }
  destruct (Z.ltb_spec (now + peerKeyAuthSkew) ts).
  { split; [done|]. intros (_ & _ & _ & _ & ts' & [= <-] & ? & _). lia. }
  rewrite Hhex. destruct (hex_parse mac) as [provided|].
  2: { split; [done|]. by intros (_ & _ & _ & _ & ts' & _ & _ & ?). }
  case_bool_decide as Hp; cbn [negb].
  - injection Hp as ->. case_bool_decide as Hk; [by split; [|intros (_ & ? & _)]|].
    split; [|by intros (_ & _ & -> & _)]. intros [= <-]. split_and!; try done. by exists ts.
  - split; [done|]. intros (_ & _ & _ & _ & ts' & [= <-] & _ & ?). congruence.
Qed.

(** A request that was answered is answered again for as long as its time is in
    the window, whoever sends it. *)
Theorem key_request_replays now now' m tsStr mac body ts :
  handleGetKey now m tsStr mac = (200, body) -> Atoi tsStr = Some ts -> in_window now' ts ->
  handleGetKey now' m tsStr mac = (200, body).
Proof.
  intros (Hs & Hk & Hb & Hm & ts' & Ht & _ & Hx)%handleGetKey_spec Ha Hw.
  apply handleGetKey_spec. rewrite Ha in Ht. injection Ht as <-. split_and!; try done. by exists ts.
Qed.

Section sync.
Context `{Sealings}.

(** Sealing a copy of the key: failures are logged. *)
Definition reseal (p : path) (k : bytes) : IO unit :=
  n ← fresh_entropy;
  match Seal n k with
  | None => mret tt
  | Some sealed => _ ← write_file p sealed; mret tt
  end.

Definition install (m : Manager) (chain : list bytes) (pem key spki issuer : bytes) : Manager :=
  mkManager (cfg m) (Some {| cert_chain := chain; tls_issuer := Some issuer |}) key pem spki
    (localIPs m).

Definition syncFromPeer (m : Manager) (ask : asker) (reqTS : Z) : IO (result sync_err Manager) :=
  match ok_body (ask PeerCert) with
  | None => mret (Err SCert)
  | Some cert_full =>
  let pem := limit_reader (2 ^ 20) cert_full in
  match ok_body (ask PeerAttestation) with
  | None => mret (Err SAttestation)
  | Some att =>
  if negb (attestation_decodes att) then mret (Err SAttestation)
  else if bool_decide (AuthSecret (cfg m) = []) then mret (Err SNoSecret)
  else
  match ok_body (ask (PeerKey (bs (pretty reqTS))
                        (signPeerKeyRequest (AuthSecret (cfg m)) reqTS))) with
  | None => mret (Err SKey)
  | Some key_full =>
  let keyPEM := limit_reader (2 ^ 20) key_full in
  match X509KeyPair pem keyPEM with
  | None => mret (Err SPair)
  | Some chain =>
  match leaf ← head chain; ParseCertificate leaf with
  | None => mret (Err SLeaf)
  | Some (spki, issuer) =>
      match pem_first keyPEM with
      | None => mret (Err SPair)     (* [X509KeyPair] has found a block *)
      | Some key =>
          _ ← reseal (TLSKeyPath (cfg m)) key;
          mret (Ok (install m chain pem key spki issuer))
      end
  end end end end end.

(** The loop of [Start]: the first peer that works. *)
Fixpoint sync_first (m : Manager) (peers : list (asker * Z)) : IO Manager :=
  match peers with
  | [] => mret m
  | (ask, ts) :: peers =>
      r ← syncFromPeer m ask ts;
      match r with
      | Ok m' => mret m'
      | Err _ => sync_first m peers
      end
  end.

(** [updateDANE]: what is posted, if anything. *)
Definition updateDANE (m : Manager) : option dane_update :=
  if bool_decide (spkiDER m = []) then None
  else
    let hash := sha256 (spkiDER m) in
    quote ← Attest hash;
    Some {| dane_host := Hostname (cfg m); dane_tlsa := bs "3 1 1 " ++ hex_bytes hash;
            dane_attestation := base64 quote |}.

(** [Start]; [peer_at]: the peer behind an address, and when it is asked. *)
Definition Start (m : Manager) (c : option cert) (key spki : bytes) (ips : option (list bytes))
    (peer_at : bytes -> asker * Z) : IO (Manager * option dane_update) :=
  let pem := match c with
             | Some c => if bool_decide (cert_chain c = []) then certPEM m else pem_chain (cert_chain c)
             | None => certPEM m
             end in
  let m := mkManager (cfg m) c key pem spki (localIPs m) in
  let peers := discoverPeers m ips in
  m ← (if bool_decide (peers = []) || hasLECert m then mret m else sync_first m (peer_at <$> peers));
  mret (m, updateDANE m).

(** ** What a sync does *)

(** A sync that fails leaves the disk as it was. *)
Lemma syncFromPeer_err m ask ts w e w' :
  syncFromPeer m ask ts w = (Err e, w') -> w' = w.
Proof.
  unfold syncFromPeer. repeat (case_match; try by intros [= _ <-]).
  unfold mbind, io_bind, mret, io_ret. destruct (reseal _ _ w) as [[] w1]. by intros [= ? _].
Qed.

(** One that succeeds has the peer's chain and key, which fit together. *)
Lemma syncFromPeer_ok m ask ts w m' w' :
  syncFromPeer m ask ts w = (Ok m', w') ->
  exists pem keyPEM chain leaf issuer,
    X509KeyPair pem keyPEM = Some chain /\ head chain = Some leaf /\
    ParseCertificate leaf = Some (spkiDER m', issuer) /\ pem_first keyPEM = Some (tlsKey m') /\
    certPEM m' = pem /\ tlsCert m' = Some {| cert_chain := chain; tls_issuer := Some issuer |} /\
    cfg m' = cfg m /\ AuthSecret (cfg m) <> [].
Proof.
  unfold syncFromPeer. destruct (ok_body (ask PeerCert)) as [b|]; [|done].
  destruct (ok_body (ask PeerAttestation)) as [att|]; [|done].
  destruct (attestation_decodes att); [|done]. cbn [negb].
  case_bool_decide as Hs; [done|]. destruct (ok_body (ask (PeerKey _ _))) as [kf|]; [|done].
  destruct (X509KeyPair _ _) as [chain|] eqn:Ex; [|done].
  destruct (head chain) as [leaf|] eqn:Eh; cbn [mbind option_bind]; [|done].
  destruct (ParseCertificate leaf) as [[spki issuer]|] eqn:Ep; [|done].
  destruct (pem_first _) as [key|] eqn:Ek; [|done].
  unfold mbind, io_bind, mret, io_ret. destruct (reseal _ _ w) as [[] w1]. intros [= <- <-].
  exists (limit_reader (2 ^ 20) b), (limit_reader (2 ^ 20) kf), chain, leaf, issuer. by split_and!.
Qed.

(** Syncing the key from a peer cannot work on SGX: a report binds at most
    64 bytes, and the attestation handler asks it to bind the public key
    itself, not its hash; for a key whose SubjectPublicKeyInfo is longer (an
    ECDSA P-256 one has 91 bytes) it answers 500 and the requester gives up,
    whatever the secret, the clocks and the certificates. *)
Theorem peer_sync_never_succeeds m peer now ts w :
  (forall d, (64 < length d)%nat -> Attest d = None) ->
  (64 < length (spkiDER peer))%nat ->
  exists e, syncFromPeer m (fun r => Some (peer_answer now peer r)) ts w = (Err e, w) /\
    (e = SCert \/ e = SAttestation).
Proof.
  intros Hlimit Hlong. unfold syncFromPeer. cbn [peer_answer].
  destruct (ok_body (Some (handleGetCert peer))) as [b|]; [|exists SCert; split; [done|by left]].
  unfold handleGetAttestation. rewrite Hlimit by done. cbn. exists SAttestation. split; [done|by right].
Qed.

(** A whole start among such peers keeps its own key; with a short enough key,
    an honest peer and clocks a minute apart at most, it takes over the
    peer's. *)
Lemma peer_sync_copies m peer now ts w chain leaf issuer quote :
  handleGetCert peer = (200, certPEM peer) -> Attest (spkiDER peer) = Some quote ->
  attestation_decodes (attestation_json SelfID (base64 quote)) = true ->
  AuthSecret (cfg m) <> [] -> AuthSecret (cfg peer) = AuthSecret (cfg m) -> tlsKey peer <> [] ->
  hmac (AuthSecret (cfg m)) (key_request_text ts) <> [] ->
  - 2 ^ 63 <= ts < 2 ^ 63 -> in_window now ts ->
  Z.of_nat (length (certPEM peer)) <= 2 ^ 20 ->
  Z.of_nat (length (pem_key (tlsKey peer))) <= 2 ^ 20 ->
  X509KeyPair (certPEM peer) (pem_key (tlsKey peer)) = Some chain -> head chain = Some leaf ->
  ParseCertificate leaf = Some (spkiDER peer, issuer) ->
  pem_first (pem_key (tlsKey peer)) = Some (tlsKey peer) ->
  exists m' w', syncFromPeer m (fun r => Some (peer_answer now peer r)) ts w = (Ok m', w') /\
    tlsKey m' = tlsKey peer /\ spkiDER m' = spkiDER peer /\ certPEM m' = certPEM peer.
Proof.
  intros Hc Ha Hd Hs Hsame Hk Hmac Hts Hw Hl1 Hl2 Hx Hh Hp Hf.
  assert (handleGetKey now peer (bs (pretty ts)) (signPeerKeyRequest (AuthSecret (cfg m)) ts) =
    (200, pem_key (tlsKey peer))) as Hkey.
  { apply handleGetKey_spec. rewrite Hsame. split_and!; [done..| |].
    - unfold signPeerKeyRequest. by destruct (hmac _ _).
    - exists ts. split; [by apply Atoi_pretty|]. split; [done|].
      pose proof (hex_roundtrip (hmac (AuthSecret (cfg m)) (key_request_text ts))) as Hr.
      unfold hex_DecodeString, hex_EncodeToString in Hr. by rewrite string_bytes_string in Hr. }
  unfold syncFromPeer. cbn [peer_answer]. rewrite Hc. cbn [ok_body Z.eqb Pos.eqb].
  unfold handleGetAttestation. rewrite Ha. cbn [ok_body Z.eqb Pos.eqb]. rewrite Hd. cbn [negb].
  rewrite bool_decide_eq_false_2 by done. rewrite Hkey. cbn [ok_body Z.eqb Pos.eqb].
  unfold limit_reader. rewrite !(proj2 (Z.leb_le _ _)) by done. rewrite Hx, Hh. cbn. rewrite Hp, Hf.
  unfold mbind, io_bind, mret, io_ret. destruct (reseal _ _ w) as [[] w1]. by do 2 eexists.
Qed.

(** The DANE record that is published is one the outbound sender accepts the
    served key under: the hash it takes from the record is that of the key,
    so a host presenting the key passes, and one presenting a key of another
    hash is refused. *)
Theorem published_record_accepts_served_key m u pol (remote : Sender.Remote) host :
  (forall b, length (sha256 b) = 32%nat) -> updateDANE m = Some u ->
  exists cert h, dane_tlsa u = bs "3 1 1 " ++ cert /\
    Sender.tlsa_hash (Sender.Build_TLSARecord 3 1 1 cert) = Some h /\
    (Sender.tlsaHashes pol !! host = Some [h] ->
     forall key, Sender.peer_key remote = Some key ->
       Sender.dane_check sha256 pol remote host true =
         if bool_decide (sha256 key = sha256 (spkiDER m)) then Ok tt
         else Err (Sender.ErrPermanent 550)).
Proof.
  intros Hlen E. unfold updateDANE in E. case_bool_decide; [done|].
  destruct (Attest _) as [quote|]; [|done]. injection E as <-.
  exists (hex_bytes (sha256 (spkiDER m))), (sha256 (spkiDER m)). split; [done|].
  pose proof (hex_roundtrip (sha256 (spkiDER m))) as Hr.
  unfold hex_DecodeString, hex_EncodeToString in Hr. rewrite string_bytes_string in Hr. split.
  - unfold Sender.tlsa_hash. cbn. rewrite Hr. by rewrite Hlen.
  - intros Hpol key Hkey. unfold Sender.dane_check. rewrite Hpol, Hkey.
    destruct (decide (sha256 key = sha256 (spkiDER m))) as [Heq|Hne].
    + rewrite Heq, !bool_decide_eq_true_2; [done|done|by left].
    + rewrite !bool_decide_eq_false_2; [done|done|]. by intros ?%list_elem_of_singleton.
Qed.

End sync.
End peer.

(** * The properties at concrete inputs *)

#[local] Instance peer_sealings : Sealings := {|
  Seal _ p := Some (x53 :: p); Unseal := marker_unseal;
  SealU _ p := Some (x55 :: p); UnsealU := marker_unseal
|}.

(** Reports that bind at most 64 bytes; hashes of 32. *)
#[local] Definition short_attest (d : bytes) : option bytes :=
  if (length d <=? 64)%nat then Some d else None.
#[local] Definition pad_hash (b : bytes) : bytes := take 32 (b ++ replicate 32 x00).
#[local] Definition demo_cfg : Config :=
  {| Hostname := "smtp.example"; TLSKeyPath := ("/sealed", "tls.bin")%string; AuthSecret := [x01] |}.
#[local] Definition demo_peer : Manager :=
  mkManager demo_cfg (Some {| cert_chain := [[x0c]]; tls_issuer := None |}) [x0b] [x0c]
    (replicate 91 x04) [].

#[local] Definition demo_mac (k t : bytes) : bytes := k ++ t.
#[local] Definition demo_answer (r : peer_request) : option (Z * bytes) :=
  Some (peer_answer demo_mac short_attest "id" (fun i q => q) (fun k => k) 100 demo_peer r).
#[local] Definition empty_disk : world := mkWorld ∅ [] 0 [].

Lemma peer_sync_never_succeeds_witness :
  exists e, syncFromPeer demo_mac (fun _ => true) Some (fun c _ => Some [c])
      (fun c => Some (c, [])) (NewManager demo_cfg []) demo_answer 100 empty_disk =
      (Err e, empty_disk) /\ (e = SCert \/ e = SAttestation).
Proof.
  apply (peer_sync_never_succeeds demo_mac short_attest "id" (fun i q => q) (fun _ => true)
    (fun k => k) Some (fun c _ => Some [c]) (fun c => Some (c, []))
    (NewManager demo_cfg []) demo_peer 100 100 empty_disk).
  - intros d Hd. unfold short_attest. by rewrite (proj2 (Nat.leb_gt _ _)).
  - vm_compute. lia.
Defined.

#[local] Definition demo_policy : Sender.tlsRequirement :=
  Sender.Build_tlsRequirement true {[bs "smtp.example" := [pad_hash (replicate 91 x04)]]} None.

Lemma published_record_accepts_served_key_witness :
  exists u, updateDANE pad_hash short_attest demo_peer = Some u /\
    exists cert h, dane_tlsa u = bs "3 1 1 " ++ cert /\
      Sender.tlsa_hash (Sender.Build_TLSARecord 3 1 1 cert) = Some h.
Proof.
  exists {| dane_host := "smtp.example";
            dane_tlsa := bs "3 1 1 " ++ hex_bytes (pad_hash (replicate 91 x04));
            dane_attestation := base64 (pad_hash (replicate 91 x04)) |}.
  split; [vm_compute; reflexivity|].
  destruct (published_record_accepts_served_key pad_hash short_attest demo_peer
    {| dane_host := "smtp.example";
       dane_tlsa := bs "3 1 1 " ++ hex_bytes (pad_hash (replicate 91 x04));
       dane_attestation := base64 (pad_hash (replicate 91 x04)) |} demo_policy
    (Sender.good_remote [x01]) (bs "smtp.example")) as (cert & h & Hc & Hh & _).
  - intros b. unfold pad_hash. rewrite length_take, length_app, length_replicate. lia.
  - vm_compute. reflexivity.
  - exists cert, h. split; [exact Hc|exact Hh].
Defined.
