(* ===== verification/DkimPool.v ===== *)
(** The shared DKIM keys: internal/keystore/dkimpool.go (the entry stored in
    the keystore and its DNS records), cmd/smtp-outbound/dkimpool.go (fetching
    it for signing, publishing it, and handing the roles over to the next
    build) and internal/dnsattest/update.go.  Shown: an entry written is read
    back with the key it was made from; what a hand-over does to the
    keystore's allowlist, whatever messages are lost; publishing twice
    publishes once; a signing key once fetched is never fetched again. *)

From S2P Require Import Prelude SysFS Hex GoNet GoStrings KsTypes.
From S2P Require AuditLog Allowlist BreakGlass KeyStore Sender.
From S2P Require Import PeerAuth KeystoreServer KsClient.
Import KeyStore(keyEntry, entry_Key, entry_Role).

#[local] Open Scope Z_scope.

(** * internal/keystore/dkimpool.go *)

Record DKIMPoolEntry := {
  Selector : string;
  Ed25519Seed : bytes;
  RSAPKCS8 : bytes;
  Ed25519PubB64 : string;
  RSAPubB64 : string;
  CreatedAt : Z
}.

Definition DKIMPoolRoleName (selector : string) : Role :=
  ("smtp-outbound-dkim-pool-" ++ selector)%string.

Inductive perr := PSeedSize | PNoRSAKey | PRSATooSmall | PMarshal | PUnmarshal | PNoSelector.

Record DKIMTXTRecord := { txt_Name : string; txt_Value : string; txt_Algorithm : string }.

Definition DKIMPoolDNSRecords (e : DKIMPoolEntry) (zoneDomain : string) : list DKIMTXTRecord :=
  let name := (Selector e ++ "._domainkey." ++ zoneDomain)%string in
  [{| txt_Name := name; txt_Value := "v=DKIM1; k=ed25519; p=" ++ Ed25519PubB64 e;
      txt_Algorithm := "ed25519" |};
   {| txt_Name := name; txt_Value := "v=DKIM1; k=rsa; p=" ++ RSAPubB64 e;
      txt_Algorithm := "rsa" |}].

Section entry.
Context `{Json DKIMPoolEntry}.
(** [rsa.PrivateKey], [N.BitLen], the encoders of crypto/x509 and the public
    half of an Ed25519 seed. *)
Context {RSAKey : Type} (BitLen : RSAKey -> Z)
  (MarshalPKCS8PrivateKey MarshalPKIXPublicKey : RSAKey -> option bytes)
  (ed25519_Public : bytes -> bytes).

Definition MarshalDKIMPoolEntry (selector : string) (seed : bytes) (rsaKey : option RSAKey)
    (createdAt : Z) : result perr bytes :=
  if negb (length seed =? 32)%nat then Err PSeedSize
  else match rsaKey with
  | None => Err PNoRSAKey
  | Some key =>
      if BitLen key <? 2048 then Err PRSATooSmall
      else match MarshalPKCS8PrivateKey key, MarshalPKIXPublicKey key with
      | Some rsaDER, Some rsaPubDER =>
          of_option PMarshal (json_marshal {|
            Selector := selector;
            Ed25519Seed := seed;
            RSAPKCS8 := rsaDER;
            Ed25519PubB64 := bytes_string (base64 (ed25519_Public seed));
            RSAPubB64 := bytes_string (base64 rsaPubDER);
            CreatedAt := createdAt |})
      | _, _ => Err PMarshal
      end
  end.

Definition UnmarshalDKIMPoolEntry (b : bytes) : result perr DKIMPoolEntry :=
  match json_unmarshal b with
  | None => Err PUnmarshal
  | Some e =>
      if String.eqb (Selector e) "" then Err PNoSelector
      else if negb (length (Ed25519Seed e) =? 32)%nat then Err PSeedSize
      else if (length (RSAPKCS8 e) =? 0)%nat then Err PNoRSAKey
      else Ok e
  end.

(** What was written for a selector is read back: the same seed, an RSA key
    that parses to the one given, and DNS records that carry its public half.
    Only an entry for the empty selector is written and cannot be read. *)
Lemma pool_entry_readable (ParsePKCS8 : bytes -> option (option RSAKey))
    selector seed key createdAt b :
  (forall k d, MarshalPKCS8PrivateKey k = Some d -> d <> [] /\ ParsePKCS8 d = Some (Some k)) ->
  MarshalDKIMPoolEntry selector seed (Some key) createdAt = Ok b ->
  2048 <= BitLen key /\
  if String.eqb selector "" then UnmarshalDKIMPoolEntry b = Err PNoSelector
  else exists e pub, UnmarshalDKIMPoolEntry b = Ok e /\ Selector e = selector /\
    Ed25519Seed e = seed /\ ParsePKCS8 (RSAPKCS8 e) = Some (Some key) /\
    MarshalPKIXPublicKey key = Some pub /\
    RSAPubB64 e = bytes_string (base64 pub) /\
    Ed25519PubB64 e = bytes_string (base64 (ed25519_Public seed)).
Proof.
  intros Hlaw E. unfold MarshalDKIMPoolEntry in E.
  destruct (length seed =? 32)%nat eqn:Hs; [|done]. cbn in E.
  destruct (Z.ltb_spec (BitLen key) 2048); [done|].
  destruct (MarshalPKCS8PrivateKey key) as [der|] eqn:Hd; [|done].
  destruct (MarshalPKIXPublicKey key) as [pub|] eqn:Hpub; [|done].
  apply of_option_ok in E. apply json_roundtrip in E. split; [done|].
  unfold UnmarshalDKIMPoolEntry. rewrite E. cbn.
  destruct (String.eqb_spec selector ""); [done|]. rewrite Hs. cbn.
  destruct (Hlaw _ _ Hd) as [Hne Hp]. destruct der as [|x der]; [done|]. cbn.
  eexists _, pub. by split_and!.
Qed.

End entry.

(** * internal/dnsattest/update.go *)

(** The fields of the request body. *)
Record DnsUpdate := {
  up_host : string;
  up_type : string;
  up_value : string;
  up_mode : string;
  up_ttl : Z;
  up_attestation : bytes
}.

Definition ModeReplace : string := "replace".
Definition ModeAdd : string := "add".

Section update.
(** The state of DNS, one POST to the update API, and the [result] of its
    answer's JSON ("" when absent). *)
Context {D : Type} (post : DnsUpdate -> D -> option (Z * bytes) * D).
Context (envelope_result : bytes -> string).
Context (sha256 : bytes -> bytes).

Definition update_ok (a : option (Z * bytes)) : bool :=
  match a with
  | None => false
  | Some (code, full) =>
      if negb (code =? 200) then false
      else let r := envelope_result (limit_reader 4096 full) in
           String.eqb r "" || String.eqb r "success"
  end.

(** [u.runtime.Attest]; [None]: no runtime. *)
Definition Update (Attest : option (bytes -> option bytes)) (host recordType value mode : string)
    (ttl : Z) (d : D) : bool * D :=
  match Attest with
  | None => (false, d)
  | Some attest =>
      if String.eqb host "" || String.eqb recordType "" || String.eqb value "" then (false, d)
      else
        let mode := if String.eqb mode "" then ModeReplace else mode in
        match attest (sha256 (string_bytes (recordType ++ ":" ++ host ++ ":" ++ value))) with
        | None => (false, d)
        | Some quote =>
            let '(a, d) := post {| up_host := host; up_type := recordType; up_value := value;
                                   up_mode := mode; up_ttl := ttl;
                                   up_attestation := base64 quote |} d in
            (update_ok a, d)
        end
  end.

(** * Publishing (cmd/smtp-outbound/dkimpool.go) *)

(** [net.DefaultResolver.LookupTXT]. *)
Context (LookupTXT : D -> string -> option (list string)).

Definition txtAlreadyLive (d : D) (host : string) (want : list string) : bool :=
  match LookupTXT d host with
  | None | Some [] => false
  | Some got =>
      if negb (length got =? length want)%nat then false
      else forallb (fun w => bool_decide (w ∈ got)) want
  end.

(** The calls of [Update] for the records from index [i] on, with their
    outcomes. *)
Fixpoint push_records (Attest : option (bytes -> option bytes)) (i : nat)
    (records : list DKIMTXTRecord) (d : D) : list (DKIMTXTRecord * string * bool) * D :=
  match records with
  | [] => ([], d)
  | r :: records =>
      let mode := if (i =? 0)%nat then ModeReplace else ModeAdd in
      let '(ok, d) := Update Attest (txt_Name r) "TXT" (txt_Value r) mode 300 d in
      let '(evs, d) := push_records Attest (S i) records d in
      ((r, mode, ok) :: evs, d)
  end.

(** The body of the loop of [publishDKIMPoolTXTs], once the entry is there. *)
Definition publish_entry (Attest : option (bytes -> option bytes)) (zone : string)
    (e : DKIMPoolEntry) (d : D) : list (DKIMTXTRecord * string * bool) * D :=
  let records := filter (fun r => txt_Algorithm r = "rsa"%string) (DKIMPoolDNSRecords e zone) in
  match records with
  | [] => ([], d)
  | r0 :: _ =>
      if txtAlreadyLive d (txt_Name r0) (map txt_Value records) then ([], d)
      else push_records Attest 0 records d
  end.

Definition publish_entries (Attest : option (bytes -> option bytes)) (zone : string) :
    list DKIMPoolEntry -> D -> list (DKIMTXTRecord * string * bool) * D :=
  fix go es d :=
    match es with
    | [] => ([], d)
    | e :: es =>
        let '(evs, d) := publish_entry Attest zone e d in
        let '(evs', d) := go es d in (evs ++ evs', d)
    end.

(** [strings.Split(selRaw, ",")], trimmed, without the empty ones. *)
Definition selectors (selRaw : bytes) : list string :=
  filter (fun s => s <> ""%string)
    ((fun s => bytes_string (TrimSpace s)) <$> split_byte ","%byte selRaw).

Section publish.
Context {St E : Type} (fetch : string -> St -> result E DKIMPoolEntry * St).

Fixpoint publish_selectors (Attest : option (bytes -> option bytes)) (zone : string)
    (sels : list string) (st : St) (d : D) : list (DKIMTXTRecord * string * bool) * (St * D) :=
  match sels with
  | [] => ([], (st, d))
  | sel :: sels =>
      let '(r, st) := fetch sel st in
      match r with
      | Err _ => publish_selectors Attest zone sels st d
      | Ok entry =>
          let '(evs, d) := publish_entry Attest zone entry d in
          let '(evs', sd) := publish_selectors Attest zone sels st d in (evs ++ evs', sd)
      end
  end.

(** [has_client]: [w.client <> nil]. *)
Definition publishDKIMPoolTXTs (has_client : bool) (Attest : option (bytes -> option bytes))
    (selRaw : bytes) (zone : string) (st : St) (d : D) :
    list (DKIMTXTRecord * string * bool) * (St * D) :=
  if negb has_client then ([], (st, d))
  else if bool_decide (selRaw = []) || String.eqb zone "" then ([], (st, d))
  else publish_selectors Attest zone (selectors selRaw) st d.

(** The entries that can be fetched, in order. *)
Fixpoint fetched (sels : list string) (st : St) : list DKIMPoolEntry :=
  match sels with
  | [] => []
  | sel :: sels =>
      match fetch sel st with
      | (Ok e, st) => e :: fetched sels st
      | (Err _, st) => fetched sels st
      end
  end.

Lemma publish_selectors_entries Attest zone sels st d :
  exists st', publish_selectors Attest zone sels st d =
    ((publish_entries Attest zone (fetched sels st) d).1,
     (st', (publish_entries Attest zone (fetched sels st) d).2)).
Proof.
  revert st d. induction sels as [|sel sels IH]; intros st d; cbn; [by exists st|].
  destruct (fetch sel st) as [[e|e] st1]; cbn; [|apply IH].
  destruct (publish_entry Attest zone e d) as [evs d1].
  destruct (IH st1 d1) as [st2 ->]. exists st2.
  by destruct (publish_entries Attest zone (fetched sels st1) d1).
Qed.

End publish.
(** What is published for an entry. *)
Definition pool_host (zone : string) (e : DKIMPoolEntry) : string :=
  (Selector e ++ "._domainkey." ++ zone)%string.
Definition pool_value (e : DKIMPoolEntry) : string := ("v=DKIM1; k=rsa; p=" ++ RSAPubB64 e)%string.

Lemma txtAlreadyLive_one d host v :
  txtAlreadyLive d host [v] = true <-> LookupTXT d host = Some [v].
Proof.
  unfold txtAlreadyLive. destruct (LookupTXT d host) as [[|g [|g' got]]|]; cbn; try done.
  rewrite andb_true_r, bool_decide_eq_true, list_elem_of_singleton.
  split; [by intros ->|by intros [= <-]].
Qed.

Lemma rsa_records zone e :
  filter (fun r => txt_Algorithm r = "rsa"%string) (DKIMPoolDNSRecords e zone) =
  [{| txt_Name := pool_host zone e; txt_Value := pool_value e; txt_Algorithm := "rsa" |}].
Proof.
  unfold DKIMPoolDNSRecords. rewrite filter_cons_False by done.
  by rewrite filter_cons_True by done.
Qed.

(** One entry: nothing is sent when DNS holds exactly its RSA record, and one
    replacing update otherwise; the Ed25519 key is never published. *)
Lemma publish_entry_eq Attest zone e d :
  publish_entry Attest zone e d =
  if bool_decide (LookupTXT d (pool_host zone e) = Some [pool_value e]) then ([], d)
  else let r := Update Attest (pool_host zone e) "TXT" (pool_value e) ModeReplace 300 d in
       ([({| txt_Name := pool_host zone e; txt_Value := pool_value e; txt_Algorithm := "rsa" |},
          ModeReplace, r.1)], r.2).
Proof.
  unfold publish_entry. rewrite rsa_records. cbn -[txtAlreadyLive Update].
  destruct (txtAlreadyLive d (pool_host zone e) [pool_value e]) eqn:El.
  - apply txtAlreadyLive_one in El. by rewrite bool_decide_eq_true_2.
  - rewrite bool_decide_eq_false_2; [by destruct (Update _ _ _ _ _ _ _)|].
    intros Hl%txtAlreadyLive_one. congruence.
Qed.

(** A replacing TXT update that the API accepts leaves that one value at the
    host, at once, and no other host is touched. *)
Definition replace_visible : Prop :=
  forall u d a d', post u d = (a, d') -> update_ok a = true ->
    up_type u = "TXT"%string -> up_mode u = ModeReplace ->
    LookupTXT d' (up_host u) = Some [up_value u] /\
    forall h, h <> up_host u -> LookupTXT d' h = LookupTXT d h.

Lemma Update_replace Attest host v d d' :
  replace_visible -> Update Attest host "TXT" v ModeReplace 300 d = (true, d') ->
  LookupTXT d' host = Some [v] /\ forall h, h <> host -> LookupTXT d' h = LookupTXT d h.
Proof.
  intros Hlaw E. unfold Update in E. destruct Attest as [attest|]; [|done].
  destruct (_ || _); [done|]. destruct (attest _) as [q|]; [|done].
  cbn in E. destruct (post _ d) as [ans d1] eqn:Ep. injection E as Eu <-.
  by destruct (Hlaw _ _ _ _ Ep Eu eq_refl eq_refl).
Qed.

(** Two entries of one selector agree on the key they publish. *)
Definition one_key_per_selector (es : list DKIMPoolEntry) : Prop :=
  forall e e', e ∈ es -> e' ∈ es -> Selector e = Selector e' -> RSAPubB64 e = RSAPubB64 e'.

Lemma pool_host_inj zone e e' : pool_host zone e = pool_host zone e' -> Selector e = Selector e'.
Proof.
  intros E%(f_equal string_bytes). unfold pool_host in E. rewrite !string_bytes_app in E.
  apply app_inv_tail in E. by apply string_bytes_inj.
Qed.

Definition live (zone : string) (d : D) (e : DKIMPoolEntry) : Prop :=
  LookupTXT d (pool_host zone e) = Some [pool_value e].

Lemma publish_entries_live Attest zone es d evs d' :
  replace_visible -> one_key_per_selector es ->
  publish_entries Attest zone es d = (evs, d') -> Forall (fun ev => ev.2 = true) evs ->
  Forall (live zone d') es /\
  forall h, (forall e, e ∈ es -> h <> pool_host zone e) -> LookupTXT d' h = LookupTXT d h.
Proof.
  intros Hlaw. revert d evs d'.
  induction es as [|e es IH]; intros d evs d' Hone E Hok; cbn in E; [by injection E as <- <-|].
  destruct (publish_entry Attest zone e d) as [ev1 d1] eqn:E1.
  fold (publish_entries Attest zone) in E.
  destruct (publish_entries Attest zone es d1) as [ev2 d2] eqn:E2. injection E as <- <-.
  apply Forall_app in Hok as [Hok1 Hok2].
  assert (live zone d1 e /\ forall h, h <> pool_host zone e -> LookupTXT d1 h = LookupTXT d h)
    as [Hl Hh].
  { rewrite publish_entry_eq in E1. case_bool_decide; [by injection E1 as <- <-|].
    destruct (Update _ _ _ _ _ _ d) as [ok d3] eqn:Eu. injection E1 as <- <-.
    apply Forall_cons in Hok1 as [[= ->] _]. by eapply Update_replace. }
  assert (one_key_per_selector es) as Hone' by (intros x y ??; apply Hone; by right).
  destruct (IH _ _ _ Hone' E2 Hok2) as [Hls Hhs]. split.
  - apply Forall_cons. split; [|done].
    destruct (decide (Exists (fun x => Selector x = Selector e) es)) as [Hx|Hx].
    + apply Exists_exists in Hx as (x & Hin & Hs). rewrite Forall_forall in Hls.
      pose proof (Hls x Hin) as Hlx. unfold live, pool_host, pool_value in *.
      rewrite <-Hs, Hlx. do 3 f_equal. apply Hone; [by right|by left|done].
    + unfold live. rewrite Hhs; [done|]. intros x Hin Hp%pool_host_inj. apply Hx.
      apply Exists_exists. by exists x.
  - intros h Hn. rewrite Hhs, Hh; [done|apply Hn; by left|]. intros x ?. apply Hn. by right.
Qed.

Lemma publish_entries_skip Attest zone es d :
  Forall (live zone d) es -> publish_entries Attest zone es d = ([], d).
Proof.
  induction 1 as [|e es Hl _ IH]; [done|]. cbn. fold (publish_entries Attest zone).
  rewrite publish_entry_eq, bool_decide_eq_true_2 by done. by rewrite IH.
Qed.

(** Publication is idempotent: after a start whose updates all succeeded, a
    later start that fetches the same entries sends no update and leaves DNS
    as it is. *)
Theorem publish_idempotent {St E : Type} (fetch : string -> St -> result E DKIMPoolEntry * St)
    Attest selRaw zone st d evs st1 d1 st2 :
  replace_visible -> one_key_per_selector (fetched fetch (selectors selRaw) st) ->
  fetched fetch (selectors selRaw) st2 = fetched fetch (selectors selRaw) st ->
  publishDKIMPoolTXTs fetch true Attest selRaw zone st d = (evs, (st1, d1)) ->
  Forall (fun ev => ev.2 = true) evs ->
  exists st3, publishDKIMPoolTXTs fetch true Attest selRaw zone st2 d1 = ([], (st3, d1)).
Proof.
  unfold publishDKIMPoolTXTs. intros Hlaw Hone Hsame Er Hok. cbn in *.
  destruct (_ || _); [by eexists|].
  destruct (publish_selectors_entries fetch Attest zone (selectors selRaw) st d) as [st4 E4].
  rewrite E4 in Er. injection Er as <- <- <-.
  destruct (publish_selectors_entries fetch Attest zone (selectors selRaw) st2
    (publish_entries Attest zone (fetched fetch (selectors selRaw) st) d).2) as [st5 ->].
  rewrite Hsame. exists st5. rewrite publish_entries_skip; [done|].
  by eapply publish_entries_live; [..|apply surjective_pairing|].
Qed.

End update.

(** * Fetching, signing and hand-over (cmd/smtp-outbound/dkimpool.go) *)

(** [smtp.DKIMPoolKeys]. *)
Abbreviation DKIMPoolKeys := Sender.DKIMPoolKeys (only parsing).

(** The errors of a fetch: the keystore's, or those of the entry. *)
Inductive ferr := FGet (e : cerr) | FParse (e : perr).

(** The environment of [buildDKIMPoolWiring]; [None] where it fails. *)
Inductive wiring_err := WHalf | WBadHex | WSize | WNoCert | WClient (e : cerr).

(** [tls_certs]: how many certificates [tee.GenerateServerTLSConfig] returns,
    if it succeeds.  [Ok None]: the pool is not configured. *)
Definition buildDKIMPoolWiring (addr mreHex : string) (tls_certs : option nat) :
    result wiring_err (option Client) :=
  if String.eqb addr "" && String.eqb mreHex "" then Ok None
  else if String.eqb addr "" || String.eqb mreHex "" then Err WHalf
  else match hex_DecodeString mreHex with
  | None => Err WBadHex
  | Some mreBytes =>
      if negb (length mreBytes =? 32)%nat then Err WSize
      else match tls_certs with
      | None | Some 0%nat => Err WNoCert
      | Some _ =>
          match NewClient {| ServerAddr := addr; ExpectedKeystoreMRENCLAVE := mreBytes;
                             Timeout := 15 * 10 ^ 9 |} with
          | Err e => Err (WClient e)
          | Ok c => Ok (Some c)
          end
      end
  end.

(** The request of the deploy script. *)
Inductive pd_answer :=
| PdLocalhostOnly
| PdNoKeystore
| PdDecode
| PdBadMRENCLAVE
| PdNothing
| PdResults (results : list (Role * option cerr)).

Definition is_local (remoteAddr : bytes) : bool :=
  let host := match SplitHostPort remoteAddr with Some (h, _) => h | None => [] end in
  bool_decide (host = bs "127.0.0.1") || bool_decide (host = bs "::1") || bool_decide (host = []).

(** [poolCache]. *)
Abbreviation poolCache := (gmap string Sender.DKIMPoolKeys) (only parsing).

Section client.
Context {quote : Type} (ExtractQuote : bytes -> option quote)
  (VerifyQuote : bytes -> quote -> bool) (MREnclave : quote -> MRENCLAVE)
  (error_field : bytes -> bytes).
Context `{Json DKIMPoolEntry}.
Context `{Json GetRequest, Json DelegateRequest, Json GetResponse, Json DelegateResponse}.
Context {St : Type} (net : transport St).

Definition fetchPoolEntry (c : Client) (selector : string) (st : St) :
    result ferr DKIMPoolEntry * St :=
  let '(r, st) := Get ExtractQuote VerifyQuote MREnclave error_field net c
                    (DKIMPoolRoleName selector) st in
  match r with
  | Err e => (Err (FGet e), st)
  | Ok resp =>
      match UnmarshalDKIMPoolEntry (resp_Key resp) with
      | Err e => (Err (FParse e), st)
      | Ok entry => (Ok entry, st)
      end
  end.

Definition pool_keys (e : DKIMPoolEntry) : DKIMPoolKeys :=
  Sender.Build_DKIMPoolKeys (bs (Selector e)) (Ed25519Seed e) (RSAPKCS8 e).

(** The getter of [buildDKIMPoolWiring]. *)
Definition getter (c : Client) (selector : string) (cache : poolCache) (st : St) :
    result ferr DKIMPoolKeys * poolCache * St :=
  match cache !! selector with
  | Some hit => (Ok hit, cache, st)
  | None =>
      let '(r, st) := fetchPoolEntry c selector st in
      match r with
      | Err e => (Err e, cache, st)
      | Ok entry => (Ok (pool_keys entry), <[selector := pool_keys entry]> cache, st)
      end
  end.

(** Getter calls for any selectors, each against any state of the keystore. *)
Definition getter_calls (c : Client) (calls : list (string * St)) (cache : poolCache) : poolCache :=
  foldl (fun cache x => (getter c x.1 cache x.2).1.2) cache calls.

Lemma getter_calls_keep c calls cache sel k :
  cache !! sel = Some k -> getter_calls c calls cache !! sel = Some k.
Proof.
  revert cache. induction calls as [|[s st] calls IH]; intros cache Hk; cbn; [done|].
  apply IH. unfold getter. destruct (cache !! s) as [hit|] eqn:Eh; cbn; [done|].
  destruct (fetchPoolEntry c s st) as [[e|e] st1]; cbn; [|done].
  rewrite lookup_insert_ne; [done|]. intros ->. congruence.
Qed.

(** A key once fetched is the key for the life of the process: whatever other
    keys are fetched meanwhile and whatever becomes of the keystore, later
    calls answer the same and ask nobody. *)
Theorem pool_key_never_refreshed c sel cache st k cache1 st1 calls st2 :
  getter c sel cache st = (Ok k, cache1, st1) ->
  getter c sel (getter_calls c calls cache1) st2 =
    (Ok k, getter_calls c calls cache1, st2).
Proof.
  intros E. assert (cache1 !! sel = Some k) as Hk.
  { unfold getter in E. destruct (cache !! sel) eqn:Eh; [by injection E as <- <- _|].
    destruct (fetchPoolEntry c sel st) as [[e|e] st3]; [|done]. injection E as <- <- _.
    apply lookup_insert_eq. }
  unfold getter. by rewrite (getter_calls_keep c calls _ _ _ Hk).
Qed.

(** The loop of [handlePreDeploy]. *)
Fixpoint delegate_all (c : Client) (newMRE : MRENCLAVE) (sels : list string) (st : St) :
    list (Role * option cerr) * St :=
  match sels with
  | [] => ([], st)
  | sel :: sels =>
      let role := DKIMPoolRoleName sel in
      let '(r, st) := Delegate ExtractQuote VerifyQuote MREnclave error_field net c role newMRE st in
      let '(rs, st) := delegate_all c newMRE sels st in
      ((role, match r with Err e => Some e | Ok _ => None end) :: rs, st)
  end.

(** [body]: the field [new_mrenclave_hex] of the request's JSON; [None]: it
    did not decode. *)
Definition handlePreDeploy (client : option Client) (remoteAddr : bytes) (body : option string)
    (selRaw : bytes) (st : St) : Z * pd_answer * St :=
  if negb (is_local remoteAddr) then (StatusForbidden, PdLocalhostOnly, st)
  else match client with
  | None => (503, PdNoKeystore, st)
  | Some c =>
  match body with
  | None => (StatusBadRequest, PdDecode, st)
  | Some h =>
  match hex_DecodeString h with
  | None => (StatusBadRequest, PdBadMRENCLAVE, st)
  | Some newMRE =>
      if negb (length newMRE =? 32)%nat then (StatusBadRequest, PdBadMRENCLAVE, st)
      else if bool_decide (selRaw = []) then (StatusOK, PdNothing, st)
      else
        let '(results, st) := delegate_all c newMRE (selectors selRaw) st in
        let anySuccess := existsb (fun r => bool_decide (r.2 = None)) results in
        (if anySuccess then StatusOK else StatusInternalServerError, PdResults results, st)
  end end end.

End client.

(** * Against the keystore *)

Section handover.
Context `{TEERuntime} `{Json AuditEntry} `{Json (list AuditEntry)} `{!JsonSlice AuditEntry}
  `{Json (gmap string (list string))} `{Json keyEntry} `{Json DKIMPoolEntry}.
Context (sha256 : bytes -> bytes).
Context (ed25519_Verify : bytes -> bytes -> bytes -> bool).
Context `{Json GetRequest, Json DelegateRequest, Json ProvisionRequest, Json RevokeRequest,
  Json ListRequest, Json GetResponse, Json DelegateResponse, Json ProvisionResponse,
  Json ListResponse}.
Context (error_json : errmsg -> bytes) (error_field : bytes -> bytes).
Context {quote : Type} (ExtractQuote : bytes -> option quote)
  (VerifyQuote : bytes -> quote -> bool) (MREnclave : quote -> MRENCLAVE).

Abbreviation knet := (keystore_transport sha256 ed25519_Verify error_json).

(** From [n0] to [n'], at most [m] gained access, to some of the roles and
    only where the caller had it; nobody lost any. *)
Definition handed_over (sels : list string) (m : MRENCLAVE) (n0 n' : keystore_net) : Prop :=
  net_inv sha256 n' /\ caller n' = caller n0 /\
  (forall role x, net_allowed n0 role x -> net_allowed n' role x) /\
  forall role x, net_allowed n' role x -> net_allowed n0 role x \/
    (x = m /\ caller_in n0 role /\ exists sel, sel ∈ sels /\ role = DKIMPoolRoleName sel).

Lemma delegate_all_spec c m sels n rs n' :
  net_inv sha256 n -> length m = 32%nat ->
  delegate_all ExtractQuote VerifyQuote MREnclave error_field knet c m sels n = (rs, n') ->
  handed_over sels m n n' /\ map fst rs = DKIMPoolRoleName <$> sels /\
  Forall (fun r => r.2 = None -> caller_in n r.1 /\ net_allowed n' r.1 m) rs.
Proof.
  intros Hi Hm. revert n rs n' Hi.
  induction sels as [|sel sels IH]; intros n rs n' Hi E; cbn [delegate_all] in E.
  { injection E as <- <-. split; [|by split]. split_and!; [done..|]. by left. }
  destruct (Delegate _ _ _ _ _ _ _ _ _) as [r n1] eqn:Ed.
  destruct (delegate_all _ _ _ _ _ _ _ _ n1) as [rs1 n2] eqn:Ea. injection E as <- <-.
  apply Delegate_effect in Ed as (Hi1 & Hc1 & Hmono & Hnew & Hok); [|done..].
  destruct (IH _ _ _ Hi1 Ea) as [(Hi2 & Hc2 & Hmono2 & Hnew2) [Hnames Hall]].
  assert (forall role, caller_in n1 role -> caller_in n role) as Hcaller.
  { intros role (p & Hp & Ha). rewrite Hc1 in Hp. destruct (Hnew _ _ Ha) as [Ha'|(-> & _ & ?)];
      [by exists p|done]. }
  split; [|split].
  - split_and!; [done|by rewrite Hc2|by intros; apply Hmono2, Hmono|].
    intros role x [Hx|(-> & Hx & s & Hs & ->)]%Hnew2.
    + apply Hnew in Hx as [?|(-> & -> & ?)]; [by left|right]. split_and!; [done..|].
      exists sel. split; [by left|done].
    + right. split_and!; [done|by apply Hcaller|]. exists s. split; [by right|done].
  - cbn. by rewrite Hnames.
  - apply Forall_cons. split.
    + cbn. destruct r as [a|e]; [|done]. intros _. destruct (Hok eq_refl) as [? Ha].
      split; [done|by apply Hmono2].
    + eapply Forall_impl; [exact Hall|]. cbn. intros x Hx Hn. destruct (Hx Hn).
      split; [by apply Hcaller|done].
Qed.

(** C22. The hand-over before a deployment: whatever the network loses, only the
    measurement in the request gains access, only to the roles of the
    configured selectors, and only if this enclave itself has access to them;
    nobody loses access; each role reported without an error is open to the new
    measurement; and a request from another host, or without a keystore, or
    with a malformed measurement, changes nothing. *)
Theorem predeploy_hands_over client remoteAddr body selRaw n code ans n' :
  net_inv sha256 n ->
  handlePreDeploy ExtractQuote VerifyQuote MREnclave error_field knet client remoteAddr body
    selRaw n = (code, ans, n') ->
  match ans with
  | PdResults rs => exists m,
      body ≫= hex_DecodeString = Some m /\ length m = 32%nat /\ is_local remoteAddr = true /\
      handed_over (selectors selRaw) m n n' /\
      map fst rs = DKIMPoolRoleName <$> selectors selRaw /\
      Forall (fun r => r.2 = None -> caller_in n r.1 /\ net_allowed n' r.1 m) rs /\
      (code = StatusOK <-> exists r, r ∈ rs /\ r.2 = None)
  | _ => n' = n
  end.
Proof.
  intros Hi E. unfold handlePreDeploy in E.
  destruct (is_local remoteAddr) eqn:Hl; [|by injection E as _ <- <-]. cbn [negb] in E.
  destruct client as [c|]; [|by injection E as _ <- <-].
  destruct body as [h|]; [|by injection E as _ <- <-].
  destruct (hex_DecodeString h) as [m|] eqn:Hh; [|by injection E as _ <- <-].
  destruct (length m =? 32)%nat eqn:Hm; [|by injection E as _ <- <-]. cbn [negb] in E.
  case_bool_decide; [by injection E as _ <- <-|].
  destruct (delegate_all _ _ _ _ _ _ _ _ n) as [rs n1] eqn:Ed. injection E as <- <- <-.
  apply Nat.eqb_eq in Hm. destruct (delegate_all_spec _ _ _ _ _ _ Hi Hm Ed) as (Ho & Hn & Hf).
  exists m. split_and!; [done..|].
  destruct (existsb _ rs) eqn:Ex.
  - split; [|done]. intros _. apply existsb_elem in Ex as (r & Hr & Hx).
    exists r. by rewrite bool_decide_eq_true in Hx.
  - split; [done|]. intros (r & Hr & Hx). apply not_true_iff_false in Ex as [].
    apply existsb_elem. exists r. by rewrite bool_decide_eq_true.
Qed.

(** From the operator's bootstrap to the signature: when the keystore holds
    for a selector's role what [MarshalDKIMPoolEntry] made from a key, then
    the key that [smtp-outbound] signs with is that key, under that selector,
    however often it was asked for in between. *)
Theorem provisioned_key_signs `{!JsonLine GetResponse} {RSAKey : Type} BitLen
    (MarshalPKCS8PrivateKey MarshalPKIXPublicKey : RSAKey -> option bytes) ed25519_Public
    (ParsePKCS8 : bytes -> option (option RSAKey)) c sel seed key createdAt n k cache n1
    entry w1 calls n2 ans :
  (forall k d, MarshalPKCS8PrivateKey k = Some d -> d <> [] /\ ParsePKCS8 d = Some (Some k)) ->
  sel <> ""%string ->
  MarshalDKIMPoolEntry BitLen MarshalPKCS8PrivateKey MarshalPKIXPublicKey ed25519_Public
    sel seed (Some key) createdAt = Ok (entry_Key entry) ->
  KeyStore.Get sha256 (keys (srv n)) (DKIMPoolRoleName sel) (disk n) = (Ok entry, w1) ->
  json_marshal (get_answer entry) = Some ans -> Z.of_nat (length ans) < max_response ->
  getter ExtractQuote VerifyQuote MREnclave error_field knet c sel ∅ n = (Ok k, cache, n1) ->
  caller_in n (DKIMPoolRoleName sel) /\
  Sender.PoolSelector k = bs sel /\ Sender.Ed25519Seed k = seed /\
  ParsePKCS8 (Sender.RSAPKCS8 k) = Some (Some key) /\
  (getter ExtractQuote VerifyQuote MREnclave error_field knet c sel
     (getter_calls ExtractQuote VerifyQuote MREnclave error_field knet c calls cache) n2).1.1 = Ok k.
Proof.
  intros Hlaw Hsel Hmar Hks Hans Hlen Eg. unfold getter, fetchPoolEntry in Eg.
  rewrite lookup_empty in Eg.
  destruct (Get _ _ _ _ _ _ _ n) as [[g|e] n3] eqn:Ec; [|done].
  destruct (Get_effect _ _ _ _ _ _ _ _ _ _ _ _ Ec) as (Hin & entry' & w1' & Hks' & Hg).
  rewrite Hks in Hks'. injection Hks' as <- <-. rewrite (Hg _ Hans Hlen) in Eg. cbn in Eg.
  destruct (pool_entry_readable _ _ _ _ _ _ _ _ _ _ Hlaw Hmar) as [_ Hr].
  apply String.eqb_neq in Hsel as Hsel'. rewrite Hsel' in Hr.
  destruct Hr as (e & pub & Hu & <- & <- & Hp & _). rewrite Hu in Eg. injection Eg as <- <- <-.
  split_and!; try done.
  unfold getter. by rewrite (getter_calls_keep _ _ _ _ _ c calls _ (Selector e) (pool_keys e)
    (lookup_insert_eq _ _ _)).
Qed.

End handover.

(** * The properties at concrete inputs *)

#[local] Existing Instances marker_tee AuditLog.json_entry AuditLog.json_entries
  AuditLog.json_slice Allowlist.json_table KeyStore.json_keyEntry.
#[local] Existing Instances json_GetRequest json_DelegateRequest json_GetResponse
  json_DelegateResponse json_GetResponse_line.
#[local] Instance demo_json_provision : Json ProvisionRequest := no_json _.
#[local] Instance demo_json_revoke : Json RevokeRequest := no_json _.
#[local] Instance demo_json_list : Json ListRequest := no_json _.
#[local] Instance demo_json_provisioned : Json ProvisionResponse := no_json _.
#[local] Instance demo_json_listed : Json ListResponse := no_json _.

#[local] Instance DKIMPoolEntry_eq_dec : EqDecision DKIMPoolEntry.
Proof. solve_decision. Defined.
#[local, program] Instance DKIMPoolEntry_countable : Countable DKIMPoolEntry :=
  inj_countable' (fun e => (Selector e, Ed25519Seed e, RSAPKCS8 e, Ed25519PubB64 e, RSAPubB64 e,
                            CreatedAt e))
    (fun '(a, b, c, d, e, f) => Build_DKIMPoolEntry a b c d e f) _.
Next Obligation. by intros []. Qed.
#[local] Instance demo_json_pool : Json DKIMPoolEntry := countable_json.

#[local] Definition hash (b : bytes) : bytes := b.
#[local] Definition verify_any (pub msg sig : bytes) : bool := true.
#[local] Definition quote_of (c : bytes) : option bytes := Some c.
#[local] Definition quote_ok (c q : bytes) : bool := true.
#[local] Definition quote_mre (q : bytes) : MRENCLAVE := q.
#[local] Definition error_text (m : errmsg) : bytes := [x21].
#[local] Definition error_of (b : bytes) : bytes := b.

#[local] Definition old_mre : MRENCLAVE := replicate 32 x07.
#[local] Definition new_mre : MRENCLAVE := replicate 32 x08.
#[local] Definition ks_mre : MRENCLAVE := replicate 32 x09.

(** A keystore that lets the old build fetch s1, and loses one answer. *)
#[local] Definition demo_allow : gmap string (list bytes) := {[DKIMPoolRoleName "s1" := [old_mre]]}.
#[local] Definition demo_srv : Server :=
  mkServer (KeyStore.mkStore "/sealed/keys")
    (Allowlist.mkAllow ("/sealed", "allowlist.bin")%string demo_allow)
    (AuditLog.mkAudit ("/sealed", "audit.bin")%string [])
    (BreakGlass.mkBG None ∅) false [].

(** The pool entry of a "key" that is a number. *)
#[local] Definition rsa_der (k : Z) : option bytes := Some (replicate (Z.to_nat (k - 2040)) x01).
#[local] Definition der_rsa (d : bytes) : option (option Z) := Some (Some (2040 + Z.of_nat (length d))).
#[local] Definition demo_seed : bytes := replicate 32 x05.
#[local] Definition demo_blob : bytes :=
  match MarshalDKIMPoolEntry (fun k => k) (fun k => if 2040 <? k then rsa_der k else None) rsa_der
          (fun s => s) "s1" demo_seed (Some 2048) 7 with Ok b => b | Err _ => [] end.
#[local] Definition demo_entry : keyEntry :=
  KeyStore.Build_keyEntry (DKIMPoolRoleName "s1") demo_blob "dkim-pool" 7.
#[local] Definition demo_disk : world :=
  mkWorld {[KeyStore.key_path hash (KeyStore.mkStore "/sealed/keys") (DKIMPoolRoleName "s1") :=
              mkFile (x53 :: default [] (json_marshal demo_entry)) true]} [] 0 [].

#[local] Lemma demo_sealed :
  sealed_at (KeyStore.key_path hash (KeyStore.mkStore "/sealed/keys") (entry_Role demo_entry))
    (default [] (json_marshal demo_entry)) (fs demo_disk).
Proof.
  eexists. split; [|unfold demo_disk; cbn [fs]; exact (lookup_singleton_eq _ _)]. reflexivity.
Qed.

#[local] Definition demo_net (feed : list (clock * delivery)) : keystore_net :=
  mkNet demo_srv demo_disk (Some (Build_peerInfo old_mre old_mre [])) [ks_mre] feed.
#[local] Definition demo_client : Client :=
  {| serverAddr := "127.0.0.1:8094"; expected := ks_mre; client_timeout := 1 |}.

#[local] Lemma demo_net_inv feed : net_inv hash (demo_net feed).
Proof.
  split; [|split; [reflexivity|split; discriminate]].
  intros role ms. cbn. unfold demo_allow. rewrite lookup_singleton_Some. intros [<- <-].
  split; [vm_compute; reflexivity|]. split; [by repeat constructor|apply NoDup_singleton].
Qed.

#[local] Definition two_calls : list (clock * delivery) :=
  [(mkClock 1 1, Delivered); (mkClock 2 2, Delivered)].

#[local] Definition demo_predeploy (feed : list (clock * delivery)) : Z * pd_answer * keystore_net :=
  handlePreDeploy quote_of quote_ok quote_mre error_of
    (keystore_transport hash verify_any error_text) (Some demo_client) (bs "127.0.0.1:51234")
    (Some (hex_EncodeToString new_mre)) (bs "s1, s2,") (demo_net feed).

Lemma predeploy_hands_over_witness :
  exists rs n', demo_predeploy two_calls = (StatusOK, PdResults rs, n') /\
    handed_over hash ["s1"; "s2"]%string new_mre (demo_net two_calls) n' /\
    map fst rs = DKIMPoolRoleName <$> ["s1"; "s2"]%string.
Proof.
  assert ((demo_predeploy two_calls).1.1 = StatusOK /\
    match (demo_predeploy two_calls).1.2 with PdResults _ => True | _ => False end) as [Hc Ha].
  { vm_compute. split; [reflexivity|exact I]. }
  destruct (demo_predeploy two_calls) as [[code ans] n'] eqn:E. cbn in Hc, Ha. subst code.
  destruct ans as [| | | | |rs]; try contradiction.
  exists rs, n'. split; [reflexivity|].
  destruct (predeploy_hands_over hash verify_any error_text error_of quote_of quote_ok quote_mre
    (Some demo_client) (bs "127.0.0.1:51234") (Some (hex_EncodeToString new_mre))
    (bs "s1, s2,") _ StatusOK (PdResults rs) n' (demo_net_inv _) E)
    as (m & Hm & _ & _ & Ho & Hn & _).
  assert (m = new_mre) as ->.
  { assert (Some new_mre = Some m) as Hs by (rewrite <-Hm; vm_compute; reflexivity).
    exact (eq_sym (inj Some _ _ Hs)). }
  split; [exact Ho|exact Hn].
Defined.

#[local] Definition demo_zone : gmap string (list string) := ∅.
#[local] Definition demo_post (u : DnsUpdate) (d : gmap string (list string)) :
    option (Z * bytes) * gmap string (list string) :=
  (Some (200, []), <[up_host u := if String.eqb (up_mode u) ModeReplace then [up_value u]
                                  else default [] (d !! up_host u) ++ [up_value u]]> d).
#[local] Definition demo_lookup (d : gmap string (list string)) (h : string) :
    option (list string) := d !! h.
#[local] Definition demo_fetch (sel : string) (st : unit) : result unit DKIMPoolEntry * unit :=
  (Ok (Build_DKIMPoolEntry sel demo_seed [x01] "a" "b" 7), st).
#[local] Definition demo_attest : option (bytes -> option bytes) := Some Some.

#[local] Lemma demo_visible : replace_visible demo_post (fun _ => ""%string) demo_lookup.
Proof.
  intros u d a d' [= <- <-] _ _ Hm. unfold demo_lookup. rewrite Hm. cbn. split.
  - by rewrite lookup_insert_eq.
  - intros h Hh. by rewrite lookup_insert_ne by done.
Qed.

Lemma publish_idempotent_witness :
  exists evs d1, publishDKIMPoolTXTs demo_post (fun _ => ""%string) hash demo_lookup demo_fetch
      true demo_attest (bs "s1,s2") "dkim.example" tt demo_zone = (evs, (tt, d1)) /\
    length evs = 2%nat /\
    exists st3, publishDKIMPoolTXTs demo_post (fun _ => ""%string) hash demo_lookup demo_fetch
      true demo_attest (bs "s1,s2") "dkim.example" tt d1 = ([], (st3, d1)).
Proof.
  set (run := publishDKIMPoolTXTs demo_post (fun _ => ""%string) hash demo_lookup demo_fetch
    true demo_attest (bs "s1,s2") "dkim.example" tt demo_zone).
  assert (length run.1 = 2%nat /\ forallb snd run.1 = true) as [Hl Hok].
  { vm_compute. split; reflexivity. }
  destruct run as [evs [[] d1]] eqn:E. cbn [fst] in Hl, Hok. subst run.
  exists evs, d1. split; [reflexivity|]. split; [exact Hl|].
  apply (publish_idempotent demo_post (fun _ => ""%string) hash demo_lookup demo_fetch demo_attest
    (bs "s1,s2") "dkim.example" tt demo_zone evs tt d1 tt demo_visible).
  - intros e e' He He' _. vm_compute in He, He'.
    repeat (apply elem_of_cons in He as [->|He]); [..|by apply not_elem_of_nil in He];
      (repeat (apply elem_of_cons in He' as [->|He']); [..|by apply not_elem_of_nil in He']; done).
  - reflexivity.
  - exact E.
  - apply forallb_Forall in Hok. exact Hok.
Defined.

Lemma provisioned_key_signs_witness :
  exists k cache n1, getter quote_of quote_ok quote_mre error_of
      (keystore_transport hash verify_any error_text) demo_client "s1" ∅
      (demo_net [(mkClock 1 1, Delivered)]) = (Ok k, cache, n1) /\
    Sender.PoolSelector k = bs "s1" /\ Sender.Ed25519Seed k = demo_seed /\
    der_rsa (Sender.RSAPKCS8 k) = Some (Some 2048).
Proof.
  set (run := getter quote_of quote_ok quote_mre error_of
    (keystore_transport hash verify_any error_text) demo_client "s1" ∅
    (demo_net [(mkClock 1 1, Delivered)])).
  assert (is_ok run.1.1 = true) as Hr by (vm_compute; reflexivity).
  destruct run as [[r cache] n1] eqn:E. cbn [fst] in Hr. subst run.
  destruct r as [k|e]; [|discriminate]. exists k, cache, n1. split; [reflexivity|].
  destruct (provisioned_key_signs hash verify_any error_text error_of quote_of quote_ok quote_mre
    (fun k => k) (fun k => if 2040 <? k then rsa_der k else None) rsa_der (fun s => s) der_rsa
    demo_client "s1" demo_seed 2048 7 (demo_net [(mkClock 1 1, Delivered)]) k cache n1
    demo_entry demo_disk [] (demo_net []) (default [] (json_marshal (get_answer demo_entry))))
    as (_ & Hs & Hd & Hp & _).
  - intros z d. destruct (Z.ltb_spec 2040 z); [|done]. intros <-%(inj Some).
    destruct (Z.to_nat (z - 2040)) eqn:En; [lia|]. split; [done|].
    unfold der_rsa. cbn. rewrite length_replicate. do 2 f_equal. lia.
  - discriminate.
  - vm_compute. reflexivity.
  - exact (KeyStore.Get_sealed hash (KeyStore.mkStore "/sealed/keys") demo_entry _ _ demo_disk
      eq_refl demo_sealed eq_refl eq_refl).
  - reflexivity.
  - vm_compute. reflexivity.
  - exact E.
  - split; [exact Hs|]. split; [exact Hd|exact Hp].
Defined.
