(* ===== verification/Binary.v ===== *)
(** Fixed-width integers in byte strings: the parts of the standard library's
    encoding/binary that the program uses.  The encodings and their laws are
    coqutil's little-endian lists; big-endian is their reversal. *)

From coqutil Require Import Word.LittleEndianList.
From S2P Require Import Prelude.
Local Open Scope Z_scope.

(** [binary.LittleEndian.Uint64] of the first eight bytes, [PutUint64]. *)
Definition LE_Uint64 (b : bytes) : Z := LittleEndianList.le_combine (take 8 b).
Definition LE_PutUint64 (x : Z) : bytes := LittleEndianList.le_split 8 x.

(** [binary.BigEndian.PutUint64], [PutUint32]. *)
Definition BE_PutUint64 (x : Z) : bytes := rev (LittleEndianList.le_split 8 x).
Definition BE_PutUint32 (x : Z) : bytes := rev (LittleEndianList.le_split 4 x).

#[global] Arguments LE_PutUint64 : simpl never.
#[global] Arguments LE_Uint64 : simpl never.
#[global] Arguments BE_PutUint64 : simpl never.
#[global] Arguments BE_PutUint32 : simpl never.

Lemma length_LE_PutUint64 x : length (LE_PutUint64 x) = 8%nat.
Proof. apply LittleEndianList.length_le_split. Qed.

Lemma length_BE_PutUint64 x : length (BE_PutUint64 x) = 8%nat.
Proof. unfold BE_PutUint64. by rewrite length_rev, LittleEndianList.length_le_split. Qed.

Lemma length_BE_PutUint32 x : length (BE_PutUint32 x) = 4%nat.
Proof. unfold BE_PutUint32. by rewrite length_rev, LittleEndianList.length_le_split. Qed.

Lemma le_split_inj n x y :
  LittleEndianList.le_split n x = LittleEndianList.le_split n y ->
  x mod 2 ^ (8 * Z.of_nat n) = y mod 2 ^ (8 * Z.of_nat n).
Proof.
  intros H. apply (f_equal LittleEndianList.le_combine) in H.
  rewrite !LittleEndianList.le_combine_split in H. by rewrite Z.mul_comm.
Qed.

(** Equal encodings are equal integers of that width. *)
Lemma LE_PutUint64_inj x y : LE_PutUint64 x = LE_PutUint64 y -> u64 x = u64 y.
Proof. apply le_split_inj. Qed.

Lemma BE_PutUint64_inj x y : BE_PutUint64 x = BE_PutUint64 y -> u64 x = u64 y.
Proof. intros H%(f_equal (@rev byte)). unfold BE_PutUint64 in H. rewrite !rev_involutive in H. by apply le_split_inj in H. Qed.

Lemma BE_PutUint32_inj x y :
  BE_PutUint32 x = BE_PutUint32 y -> x mod 2 ^ 32 = y mod 2 ^ 32.
Proof. intros H%(f_equal (@rev byte)). unfold BE_PutUint32 in H. rewrite !rev_involutive in H. by apply le_split_inj in H. Qed.

Lemma LE_Uint64_bound b : 0 <= LE_Uint64 b < 2 ^ 64.
Proof.
  pose proof (LittleEndianList.le_combine_bound (take 8 b)) as H.
  assert (2 ^ (8 * Z.of_nat (length (take 8 b))) <= 2 ^ 64).
  { apply Z.pow_le_mono_r; [lia|]. rewrite length_take. lia. }
  unfold LE_Uint64. lia.
Qed.

Lemma u64_bound x : 0 <= u64 x < 2 ^ 64.
Proof. apply Z.mod_pos_bound. lia. Qed.

(** Exclusive or stays within 64 bits and can be undone. *)
Lemma lxor_u64 a b :
  0 <= a < 2 ^ 64 -> 0 <= b < 2 ^ 64 -> 0 <= Z.lxor a b < 2 ^ 64.
Proof.
  intros Ha Hb. split; [apply Z.lxor_nonneg; lia|].
  assert (forall x, 0 <= x < 2 ^ 64 -> Z.log2 x < 64) as Hlog.
  { intros x Hx. destruct (Z.eq_dec x 0) as [->|]; [done|]. apply Z.log2_lt_pow2; lia. }
  destruct (Z.eq_dec (Z.lxor a b) 0) as [->|Hn]; [lia|].
  apply Z.log2_lt_pow2.
  - pose proof (proj2 (Z.lxor_nonneg a b)). lia.
  - eapply Z.le_lt_trans; [apply Z.log2_lxor; lia|].
    apply Z.max_lub_lt; by apply Hlog.
Qed.

Lemma lxor_cancel_l a x y : Z.lxor a x = Z.lxor a y -> x = y.
Proof.
  intros H%(f_equal (Z.lxor a)). by rewrite <-!Z.lxor_assoc, !Z.lxor_nilpotent, !Z.lxor_0_l in H.
Qed.

(** * Appending fields *)

(** Fields of equal length can be split off. *)
Lemma app_inj_field {A} (a b x y : list A) :
  length a = length b -> a ++ x = b ++ y -> a = b /\ x = y.
Proof. intros. by apply app_inj_1. Qed.

(** [appendLengthPrefixed] of src/internal/crypto/receipt.go, which other
    formats write out by hand: four bytes of length, then the data. *)
Definition length_prefixed (data : bytes) : bytes :=
  BE_PutUint32 (Z.of_nat (length data)) ++ data.

Definition fits32 (data : bytes) : Prop := Z.of_nat (length data) < 2 ^ 32.

Lemma length_prefixed_inj a b x y :
  fits32 a -> fits32 b ->
  length_prefixed a ++ x = length_prefixed b ++ y -> a = b /\ x = y.
Proof.
  unfold fits32, length_prefixed. intros Ha Hb. rewrite <-!app_assoc. intros H.
  apply app_inj_field in H as [Hl H]; [|by rewrite !length_BE_PutUint32].
  apply BE_PutUint32_inj in Hl. rewrite !Z.mod_small in Hl by lia.
  apply app_inj_field in H; [done|lia].
Qed.
