(* ===== verification/Aead.v ===== *)
(** Keys, randomness and authenticated encryption: the first part of
    src/internal/crypto/encrypt.go, with src/internal/crypto/keys.go and
    src/internal/crypto/recovery.go.

The primitives (X25519, ML-KEM-768, HKDF-SHA256, XChaCha20-Poly1305) are
the operations of the class [Primitives]; [PrimitiveLaws] states what the
packages document.  Functions that draw random bytes run in the monad [M],
whose state is the position in the random source and the nonce counter.

Shown: what is sealed opens again under the same key and context, an
opened blob is one that was sealed; a source that repeats itself never
yields the same nonce twice within 2^64 draws. *)

From S2P Require Import Prelude Binary.
Local Open Scope Z_scope.

(** * Primitives *)

(** Private keys are their bytes: 32 for X25519, the 64-byte seed for
    ML-KEM.  Key derivation gives as many bytes as are read from it.  [Seal]
    is not asked for more than 256 GiB, where it panics. *)
Class Primitives := {
  hkdf : bytes -> bytes -> bytes -> nat -> bytes;       (* secret, salt, info *)
  x25519_base : bytes -> bytes;                          (* public key *)
  x25519 : bytes -> bytes -> option bytes;               (* [None]: the all-zero point *)
  aead_Seal : bytes -> bytes -> bytes -> bytes -> bytes; (* key, nonce, plaintext, aad *)
  aead_Open : bytes -> bytes -> bytes -> bytes -> option bytes;
  kem_public : bytes -> option bytes;                    (* of a seed *)
  kem_valid : bytes -> bool;                             (* encapsulation keys *)
  kem_Encapsulate : bytes -> nat -> bytes * bytes;       (* secret, ciphertext *)
  kem_Decapsulate : bytes -> bytes -> option bytes
}.

Class PrimitiveLaws `{Primitives} := {
  hkdf_length : forall secret salt info n, length (hkdf secret salt info n) = n;
  x25519_base_length : forall k, length (x25519_base k) = 32%nat;
  x25519_agrees : forall a b, length a = 32%nat -> length b = 32%nat ->
    x25519 a (x25519_base b) = x25519 b (x25519_base a);
  Seal_length : forall k n p a, length (aead_Seal k n p a) = (length p + 16)%nat;
  Open_Seal : forall k n p a, aead_Open k n (aead_Seal k n p a) a = Some p;
  Open_sound : forall k n c a p, aead_Open k n c a = Some p -> c = aead_Seal k n p a;
  kem_public_valid : forall dk ek, kem_public dk = Some ek ->
    length ek = 1184%nat /\ kem_valid ek = true;
  kem_ciphertext_length : forall ek i, length (snd (kem_Encapsulate ek i)) = 1088%nat;
  kem_correct : forall dk ek i, kem_public dk = Some ek ->
    kem_Decapsulate dk (snd (kem_Encapsulate ek i)) = Some (fst (kem_Encapsulate ek i))
}.

(** [crypto/rand] at the [i]-th read of [n] bytes; [None] is an error. *)
Class Entropy := read_random : nat -> nat -> option bytes.
Class EntropyLaws `{Entropy} :=
  read_random_length : forall i n b, read_random i n = Some b -> length b = n.

(** * The monad *)

Record world := mkWorld { reads : nat; nonceCounter : Z }.

Definition M (A : Type) : Type := world -> option A * world.

#[export] Instance M_ret : MRet M := fun A a w => (Some a, w).
#[export] Instance M_bind : MBind M := fun A B f m w =>
  match m w with (Some a, w) => f a w | (None, w) => (None, w) end.

Definition failM {A} : M A := fun w => (None, w).
Definition liftM {A} (o : option A) : M A := fun w => (o, w).

(** [m] gives [a] from [w]. *)
Definition gives {A} (m : M A) (w : world) (a : A) : Prop := fst (m w) = Some a.

Lemma gives_bind {A B} (m : M A) (f : A -> M B) w b :
  gives (m ≫= f) w b <-> exists a w', m w = (Some a, w') /\ gives (f a) w' b.
Proof.
  unfold gives, mbind, M_bind. destruct (m w) as [[a|] w']; cbn.
  - split; [eauto|]. by intros (? & ? & [= <- <-] & ?).
  - split; [done|]. by intros (? & ? & ? & ?).
Qed.

Lemma gives_lift {A} (o : option A) w a : gives (liftM o) w a <-> o = Some a.
Proof. done. Qed.

Lemma gives_ret {A} (a b : A) w : gives (mret a) w b <-> a = b.
Proof. unfold gives. cbn. split; congruence. Qed.

(** [gives_inv H] takes a run apart, statement by statement. *)
Ltac gives_inv H :=
  repeat match type of H with
  | gives (_ ≫= _) _ _ =>
      let a := fresh "a" in let w := fresh "w" in let E := fresh "E" in
      apply gives_bind in H as (a & w & E & H)
  | gives (mret _) _ _ => apply gives_ret in H
  end.

Section primitives.

Context `{Primitives} `{Entropy}.

Definition rand_Read (n : nat) : M bytes := fun w =>
  (read_random (reads w) n, mkWorld (S (reads w)) (nonceCounter w)).

(** * Nonces and keys *)

Definition all_zero (b : bytes) : bool := forallb (fun x => byteZ x =? 0) b.

(** [atomic.AddUint64(&nonceCounter, 1)] *)
Definition next_counter : M Z := fun w =>
  let c := u64 (nonceCounter w + 1) in (Some c, mkWorld (reads w) c).

Definition secureNonce (size : nat) : M bytes :=
  nonce ← rand_Read size;
  if all_zero nonce then failM
  else if (8 <=? size)%nat then
    ctr ← next_counter;
    mret (LE_PutUint64 (Z.lxor (LE_Uint64 nonce) ctr) ++ drop 8 nonce)
  else mret nonce.

Definition secureKey (size : nat) : M bytes :=
  key ← rand_Read size;
  if all_zero key then failM else mret key.

(** * Sealing *)

Definition KeySize : nat := 32.
Definition NonceSizeX : nat := 24.

(** [chacha20poly1305.NewX] refuses keys of another length. *)
Definition good_key (key : bytes) : bool := (length key =? KeySize)%nat.

Definition sealXChaCha20 (key plaintext aad : bytes) : M bytes :=
  if negb (good_key key) then failM
  else
    nonce ← secureNonce NonceSizeX;
    mret (nonce ++ aead_Seal key nonce plaintext aad).

Definition openXChaCha20 (key encrypted aad : bytes) : option bytes :=
  if (length encrypted <? NonceSizeX)%nat then None
  else if negb (good_key key) then None
  else aead_Open key (take NonceSizeX encrypted) (drop NonceSizeX encrypted) aad.

Definition deriveKey (sharedSecret salt : bytes) (info : string) : bytes :=
  hkdf sharedSecret salt (bs info) KeySize.

Definition DeriveWrapKey (sharedSecret ephemeralPubkey : bytes) : bytes :=
  deriveKey sharedSecret ephemeralPubkey "message-key-wrap".

Definition SealWrappedKey (wrapKey messageKey ephemeralPubkey : bytes) : M bytes :=
  sealXChaCha20 wrapKey messageKey ephemeralPubkey.

Definition OpenWrappedKey (wrapKey encrypted ephemeralPubkey : bytes) : option bytes :=
  openXChaCha20 wrapKey encrypted ephemeralPubkey.

(** * Key pairs *)

(** [ecdh.X25519().NewPublicKey], [NewPrivateKey]: the bytes, if 32. *)
Definition NewPublicKey (b : bytes) : option bytes :=
  if (length b =? 32)%nat then Some b else None.
Definition NewPrivateKey (b : bytes) : option bytes :=
  if (length b =? 32)%nat then Some b else None.

Definition GenerateX25519KeyPair : M (bytes * bytes) :=
  priv ← rand_Read 32;
  mret (priv, x25519_base priv).

Definition EncryptPrivateKey (privateKeyBytes exportKey aad : bytes) : M bytes :=
  if negb (length exportKey =? KeySize)%nat then failM
  else
    nonce ← secureNonce NonceSizeX;
    mret (nonce ++ aead_Seal exportKey nonce privateKeyBytes aad).

Definition DecryptPrivateKey (encrypted exportKey aad : bytes) : option bytes :=
  if negb (length exportKey =? KeySize)%nat then None
  else if (length encrypted <? NonceSizeX)%nat then None
  else aead_Open exportKey (take NonceSizeX encrypted) (drop NonceSizeX encrypted) aad.

Definition AADPrivateKey : bytes := bs "bmail-private-key-v1".
Definition AADPrivateKeyKEM : bytes := bs "bmail-private-key-kem-v1".
Definition AADRecoveryKey : bytes := bs "bmail-recovery-key-v1".
Definition AADRecoveryBlob : bytes := bs "bmail-recovery-blob-v1".

(** * Recovery keys *)

(** [bip39.EntropyFromMnemonic] *)
Context (EntropyFromMnemonic : bytes -> option bytes).

Definition recovery_salt : bytes := bs "bmail-recovery-salt-v1".

Definition deriveRecoveryKeyV2 (entropy : bytes) : bytes :=
  hkdf entropy recovery_salt (bs "bmail-recovery-key-v2") 32.

Definition DeriveRecoveryKey (mnemonic : bytes) : option bytes :=
  entropy ← EntropyFromMnemonic mnemonic;
  Some (deriveRecoveryKeyV2 entropy).

Definition DeriveRecoveryKeyV3 (mnemonic userID : bytes) : option bytes :=
  if bool_decide (userID = []) then None
  else
    entropy ← EntropyFromMnemonic mnemonic;
    Some (hkdf entropy recovery_salt (bs "bmail-recovery-key-v3:" ++ userID) 32).

Definition EncryptWithRecoveryKey (plaintext recoveryKey : bytes) : M bytes :=
  sealXChaCha20 recoveryKey plaintext AADRecoveryKey.

Definition DecryptWithRecoveryKey (encrypted recoveryKey : bytes) : option bytes :=
  openXChaCha20 recoveryKey encrypted AADRecoveryKey.

End primitives.

(** * Lemmas *)

Lemma some_pair_inv {A B} (a a' : A) (b b' : B) :
  (Some a, b) = (Some a', b') -> a = a' /\ b = b'.
Proof. by intros [= -> ->]. Qed.

Section laws.

Context `{Primitives} `{!PrimitiveLaws} `{Entropy} `{!EntropyLaws}.

Lemma rand_Read_length n w b w' : rand_Read n w = (Some b, w') -> length b = n.
Proof. unfold rand_Read. intros [= Hb _]. by eapply read_random_length. Qed.

Lemma secureNonce_length n w b w' :
  (8 <= n)%nat -> secureNonce n w = (Some b, w') -> length b = n.
Proof.
  intros Hn. unfold secureNonce, mbind, M_bind.
  destruct (rand_Read n w) as [[r|] w1] eqn:E; [|done].
  pose proof (rand_Read_length _ _ _ _ E) as Hr.
  destruct (all_zero r); [done|]. destruct (Nat.leb_spec 8 n); [|lia].
  cbn. intros [<- <-]%some_pair_inv. rewrite length_app, length_LE_PutUint64, length_drop. lia.
Qed.

Lemma secureKey_length n w b w' : secureKey n w = (Some b, w') -> length b = n.
Proof.
  unfold secureKey, mbind, M_bind. destruct (rand_Read n w) as [[r|] w1] eqn:E; [|done].
  destruct (all_zero r); [done|]. intros [= <- <-]. by eapply rand_Read_length.
Qed.

(** A sealed blob: the nonce, then the ciphertext. *)
Definition sealed (key aad p c : bytes) : Prop :=
  length key = KeySize /\
  exists nonce, length nonce = NonceSizeX /\ c = nonce ++ aead_Seal key nonce p aad.

Lemma seal_sealed key p aad w c w' :
  sealXChaCha20 key p aad w = (Some c, w') -> sealed key aad p c.
Proof.
  unfold sealXChaCha20, good_key. destruct (Nat.eqb_spec (length key) KeySize) as [Hk|]; [|done].
  cbn [negb]. unfold mbind, M_bind.
  destruct (secureNonce NonceSizeX w) as [[n|] w1] eqn:E; [|done].
  apply secureNonce_length in E; [|unfold NonceSizeX; lia]. intros [= <- <-]. split; [done|]. by exists n.
Qed.

Lemma EncryptPrivateKey_seal key p aad w :
  EncryptPrivateKey p key aad w = sealXChaCha20 key p aad w.
Proof. done. Qed.

(** Opening accepts exactly what sealing writes under the same key and
    additional data. *)
Lemma open_sealed_iff key aad p c :
  openXChaCha20 key c aad = Some p <-> sealed key aad p c.
Proof.
  unfold openXChaCha20, good_key, sealed. split.
  - destruct (Nat.ltb_spec (length c) NonceSizeX); [done|].
    destruct (Nat.eqb_spec (length key) KeySize) as [Hk|]; [|done]. cbn [negb].
    intros Ho%Open_sound. split; [done|]. exists (take NonceSizeX c). rewrite length_take.
    split; [lia|]. by rewrite <-Ho, take_drop.
  - intros (Hk & nonce & Hn & ->). rewrite length_app, Hn.
    rewrite (proj2 (Nat.ltb_ge _ _)) by lia. rewrite Hk, Nat.eqb_refl. cbn [negb].
    rewrite take_app_length', drop_app_length' by done. apply Open_Seal.
Qed.

Lemma DecryptPrivateKey_open key aad c :
  DecryptPrivateKey c key aad = openXChaCha20 key c aad.
Proof.
  unfold DecryptPrivateKey, openXChaCha20, good_key.
  by destruct (length key =? KeySize)%nat, (length c <? NonceSizeX)%nat.
Qed.

Lemma seal_open key p aad w c w' :
  sealXChaCha20 key p aad w = (Some c, w') -> openXChaCha20 key c aad = Some p.
Proof. intros E. apply open_sealed_iff. by eapply seal_sealed. Qed.

(** A sealed blob is 40 bytes longer than its plaintext. *)
Lemma sealed_length key aad p c : sealed key aad p c -> length c = (length p + 40)%nat.
Proof. intros (_ & n & Hn & ->). rewrite length_app, Seal_length, Hn. unfold NonceSizeX. lia. Qed.

Lemma deriveKey_length ss salt info : length (deriveKey ss salt info) = KeySize.
Proof. apply hkdf_length. Qed.

Lemma NewPublicKey_base k : NewPublicKey (x25519_base k) = Some (x25519_base k).
Proof. unfold NewPublicKey. by rewrite x25519_base_length. Qed.

Lemma NewPrivateKey_spec b k : NewPrivateKey b = Some k <-> k = b /\ length b = 32%nat.
Proof.
  unfold NewPrivateKey. destruct (Nat.eqb_spec (length b) 32); [|naive_solver].
  split; [by intros [= <-]|]. by intros [-> _].
Qed.

(** ** Nonces *)

(** The world after [i] calls in a row. *)
Definition after_calls (i : nat) (w : world) : world :=
  Nat.iter i (fun w => snd (secureNonce NonceSizeX w)) w.

Lemma after_calls_S i w : after_calls (S i) w = snd (secureNonce NonceSizeX (after_calls i w)).
Proof. done. Qed.

Lemma secureNonce_run w :
  reads (snd (secureNonce NonceSizeX w)) = S (reads w) /\
  ((fst (secureNonce NonceSizeX w) = None /\
    nonceCounter (snd (secureNonce NonceSizeX w)) = nonceCounter w) \/
   exists d, read_random (reads w) NonceSizeX = Some d /\
    nonceCounter (snd (secureNonce NonceSizeX w)) = u64 (nonceCounter w + 1) /\
    fst (secureNonce NonceSizeX w) =
      Some (LE_PutUint64 (Z.lxor (LE_Uint64 d) (u64 (nonceCounter w + 1))) ++ drop 8 d)).
Proof.
  unfold secureNonce, mbind, M_bind, rand_Read.
  destruct (read_random (reads w) NonceSizeX) as [d|]; cbn; [|by auto].
  destruct (all_zero d); cbn; [by auto|]. split; [done|]. right. by exists d.
Qed.

Lemma after_calls_reads i w : reads (after_calls i w) = (reads w + i)%nat.
Proof.
  induction i as [|i IH]; [cbn; lia|]. rewrite after_calls_S.
  rewrite (proj1 (secureNonce_run _)). lia.
Qed.

(** The counter advances by at most one per call. *)
Lemma after_calls_counter i w :
  0 <= nonceCounter w < 2 ^ 64 ->
  exists k, 0 <= k <= Z.of_nat i /\ nonceCounter (after_calls i w) = u64 (nonceCounter w + k).
Proof.
  intros Hw. induction i as [|i (k & Hk & E)].
  - exists 0. split; [lia|]. cbn. rewrite Z.add_0_r. by rewrite u64_small.
  - rewrite after_calls_S. destruct (secureNonce_run (after_calls i w)) as [_ [[_ ->]|(d & _ & -> & _)]].
    + exists k. split; [lia|done].
    + exists (k + 1). split; [lia|]. rewrite E. unfold u64.
      by rewrite Zplus_mod_idemp_l, Z.add_assoc.
Qed.

Lemma after_calls_add i j w : after_calls (i + j) w = after_calls i (after_calls j w).
Proof. apply Nat.iter_add. Qed.

(** Two nonces of one process differ even when the random source returns
    the same bytes for both, as long as fewer than 2^64 nonces lie between
    them. *)
Theorem repeated_draw_distinct_nonce w i j a b d
    (Hw : 0 <= nonceCounter w < 2 ^ 64)
    (Hij : (i < j)%nat) (Hnear : Z.of_nat j - Z.of_nat i < 2 ^ 64)
    (Ha : fst (secureNonce NonceSizeX (after_calls i w)) = Some a)
    (Hb : fst (secureNonce NonceSizeX (after_calls j w)) = Some b)
    (Hd : read_random (reads w + i) NonceSizeX = Some d)
    (Hd' : read_random (reads w + j) NonceSizeX = Some d) :
  a <> b.
Proof.
  pose proof (secureNonce_run (after_calls i w)) as [_ [[Hn _]|(d1 & Hd1 & Hc1 & Hr1)]]; [congruence|].
  pose proof (secureNonce_run (after_calls j w)) as [_ [[Hn _]|(d2 & Hd2 & _ & Hr2)]]; [congruence|].
  rewrite after_calls_reads in Hd1, Hd2.
  rewrite Hd in Hd1. rewrite Hd' in Hd2. injection Hd1 as <-. injection Hd2 as <-.
  rewrite Hr1 in Ha. rewrite Hr2 in Hb. apply (inj Some) in Ha as <-. apply (inj Some) in Hb as <-.
  intros [E _]%app_inj_field; [|by rewrite !length_LE_PutUint64].
  apply LE_PutUint64_inj in E.
  rewrite !(u64_small (Z.lxor _ _)) in E
    by (apply lxor_u64; [apply LE_Uint64_bound|apply u64_bound]).
  apply lxor_cancel_l in E. revert E.
  replace j with ((j - S i) + S i)%nat by lia. rewrite after_calls_add.
  destruct (after_calls_counter (j - S i) (after_calls (S i) w)) as (k & Hk & ->).
  { rewrite after_calls_S, Hc1. apply u64_bound. }
  rewrite after_calls_S, Hc1. unfold u64. rewrite Zplus_mod_idemp_l, <-Z.add_assoc, Zplus_mod_idemp_l.
  generalize (nonceCounter (after_calls i w) + 1). intros c E.
  apply (f_equal (fun x => (x - c) mod 2 ^ 64)) in E.
  rewrite !Zminus_mod_idemp_l, Z.sub_diag in E.
  replace (c + (k + 1) - c) with (k + 1) in E by lia. rewrite (Z.mod_small (k + 1)) in E by lia.
  change (0 mod 2 ^ 64) with 0 in E. lia.
Qed.
End laws.

(** A random source that always returns the same bytes. *)
#[local] Definition stuck : Entropy := fun _ n => Some (replicate n x05).
#[local] Definition stuck_world : world := mkWorld 0 (2 ^ 64 - 1).
#[local] Definition stuck_nonce (i : nat) : bytes :=
  default [] (fst (@secureNonce stuck NonceSizeX (@after_calls stuck i stuck_world))).

(** The counter wraps to zero between the two. *)
Lemma repeated_draw_distinct_nonce_witness : stuck_nonce 0 <> stuck_nonce 1.
Proof.
  apply (@repeated_draw_distinct_nonce stuck stuck_world 0 1 _ _ (replicate NonceSizeX x05));
    (reflexivity || (vm_compute; (reflexivity || (split; [discriminate|reflexivity]))) || lia).
Defined.
