(* ===== verification/ToyCrypto.v ===== *)
(** A toy instance of the cryptographic primitives, on which the properties
    that assume [PrimitiveLaws] are evaluated: it keeps the laws and nothing
    else. *)

From coqutil Require Import Byte.
From S2P Require Import Prelude Binary Aead.
Local Open Scope Z_scope.

Definition checksum (b : bytes) : byte := byte.of_Z (foldl (fun s x => 3 * s + byteZ x + 1) 0 b).

Definition toy_pad (n : nat) (b : bytes) : bytes := take n (b ++ replicate n x00).

Lemma toy_pad_length n b : length (toy_pad n b) = n.
Proof. unfold toy_pad. rewrite length_take, length_app, length_replicate. lia. Qed.

Definition byte_add (a b : byte) : byte := byte.of_Z (byteZ a + byteZ b).

Definition toy_Seal (k n p a : bytes) : bytes := p ++ replicate 16 (checksum (k ++ n ++ a ++ p)).

Definition toy_Open (k n c a : bytes) : option bytes :=
  let p := take (length c - 16) c in
  if bool_decide (c = toy_Seal k n p a) then Some p else None.

#[local] Instance toy : Primitives := {|
  hkdf secret salt info n := replicate n (checksum (secret ++ salt ++ info));
  x25519_base k := toy_pad 32 k;
  x25519 a p := Some (zip_with byte_add a p);
  aead_Seal := toy_Seal;
  aead_Open := toy_Open;
  kem_public seed := if (length seed =? 64)%nat then Some (toy_pad 1184 seed) else None;
  kem_valid _ := true;
  kem_Encapsulate ek i := (take 32 ek, replicate 1088 (byte.of_Z (Z.of_nat i)));
  kem_Decapsulate dk ct := Some (take 32 dk)
|}.

Lemma toy_pad_self n b : length b = n -> toy_pad n b = b.
Proof. intros H. unfold toy_pad. by rewrite take_app_length'. Qed.

Lemma byte_add_comm a b : byte_add a b = byte_add b a.
Proof. unfold byte_add. f_equal. lia. Qed.

Lemma zip_add_comm : forall a b, zip_with byte_add a b = zip_with byte_add b a.
Proof.
  induction a as [|x a IH]; intros [|y b]; try done. cbn. by rewrite IH, byte_add_comm.
Qed.

#[local] Instance toy_laws : PrimitiveLaws.
Proof.
  split; cbn.
  - intros. apply length_replicate.
  - intros. apply toy_pad_length.
  - intros a b Ha Hb. rewrite !toy_pad_self by done. f_equal. apply zip_add_comm.
  - intros. unfold toy_Seal. by rewrite length_app, length_replicate.
  - intros k n p a. unfold toy_Open.
    assert (take (length (toy_Seal k n p a) - 16) (toy_Seal k n p a) = p) as ->.
    { unfold toy_Seal. apply take_app_length'. rewrite length_app, length_replicate. lia. }
    by rewrite bool_decide_eq_true_2.
  - intros k n c a p. unfold toy_Open. case_bool_decide as H; [|done]. by intros [= <-].
  - intros dk ek. destruct (length dk =? 64)%nat; [|done]. intros [= <-].
    split; [apply toy_pad_length|done].
  - reflexivity.
  - intros dk ek i. destruct (Nat.eqb_spec (length dk) 64); [|done]. intros [= <-].
    f_equal. unfold toy_pad. rewrite take_take, Nat.min_l by lia. by rewrite take_app_le by lia.
Qed.

(** The [i]-th read repeats the byte [i + 1]. *)
#[local] Instance toy_entropy : Entropy :=
  fun i n => Some (replicate n (byte.of_Z (Z.of_nat i + 1))).

#[local] Instance toy_entropy_laws : EntropyLaws.
Proof. intros i n b [= <-]. apply length_replicate. Qed.

Definition toy_world : world := mkWorld 0 7.
Definition toy_key (n : Z) : bytes := replicate 32 (byte.of_Z n).
Definition toy_seed (n : Z) : bytes := replicate 64 (byte.of_Z n).
