(* ===== verification/Envelope.v ===== *)
(** Key envelopes and group secrets: src/internal/crypto/hybrid.go, kem.go and
    group.go.

A message key travels in an envelope, made from an ephemeral X25519 key
alone ("classical", 32 bytes) or from X25519 and ML-KEM-768 together
("hybrid", 1121 bytes).  Shown: the holder of the private keys unwraps
exactly what was wrapped for the public ones; nothing else unwraps; a
group's secret survives the trip through its blob and a member's envelope. *)

From S2P Require Import Prelude Binary Aead.
Local Open Scope Z_scope.

Definition MLKEMEncapsulationKeySize : nat := 1184.
Definition MLKEMDecapsulationKeySize : nat := 64.
Definition MLKEMCiphertextSize : nat := 1088.
Definition EnvelopeVersionHybrid : byte := x02.
Definition HybridEnvelopeKeySize : nat := 1 + 32 + MLKEMCiphertextSize.
Definition classicalEphKeySize : nat := 32.

Section envelope.

Context `{Primitives} `{Entropy}.

Definition MLKEMEncapsulationKeyFromBytes (b : bytes) : option bytes :=
  if negb (length b =? MLKEMEncapsulationKeySize)%nat then None
  else if kem_valid b then Some b else None.

Definition MLKEMDecapsulationKeyFromBytes (seed : bytes) : option bytes :=
  if negb (length seed =? MLKEMDecapsulationKeySize)%nat then None
  else match kem_public seed with Some _ => Some seed | None => None end.

(** [mlkem.GenerateKey768] keeps the seed it draws. *)
Definition GenerateMLKEMKeyPair : M (bytes * bytes) :=
  seed ← rand_Read MLKEMDecapsulationKeySize;
  ek ← liftM (kem_public seed);
  mret (ek, seed).

(** [ek.Encapsulate()] draws once and cannot fail. *)
Definition Encapsulate (ek : bytes) : M (bytes * bytes) := fun w =>
  (Some (kem_Encapsulate ek (reads w)), mkWorld (S (reads w)) (nonceCounter w)).

(** [make] and [copy] into fixed places: the ciphertext fills the rest of the
    1121 bytes, as its length is 1088. *)
Definition hybrid_key (ephPub kemCT : bytes) : bytes :=
  let b := EnvelopeVersionHybrid :: ephPub ++ kemCT in
  take HybridEnvelopeKeySize (b ++ replicate (HybridEnvelopeKeySize - length b) x00).

Definition hybridWrap (x25519Pub kemEK messageKey : bytes) : M (bytes * bytes) :=
  ephemeral ← rand_Read 32;
  x25519SS ← liftM (x25519 ephemeral x25519Pub);
  '(kemSS, kemCT) ← Encapsulate kemEK;
  let envelopeKey := hybrid_key (x25519_base ephemeral) kemCT in
  let wrapKey := deriveKey (x25519SS ++ kemSS) (drop 1 envelopeKey) "message-key-wrap-v2" in
  encryptedMessageKey ← sealXChaCha20 wrapKey messageKey envelopeKey;
  mret (envelopeKey, encryptedMessageKey).

Definition hybridUnwrap (x25519Priv kemDK envelopeKey encryptedMessageKey : bytes)
    : option bytes :=
  if negb (length envelopeKey =? HybridEnvelopeKeySize)%nat then None
  else if negb (bool_decide (head envelopeKey = Some EnvelopeVersionHybrid)) then None
  else
    let kemCT := drop 33 envelopeKey in
    ephPub ← NewPublicKey (take 32 (drop 1 envelopeKey));
    x25519SS ← x25519 x25519Priv ephPub;
    kemSS ← kem_Decapsulate kemDK kemCT;
    let wrapKey := deriveKey (x25519SS ++ kemSS) (drop 1 envelopeKey) "message-key-wrap-v2" in
    openXChaCha20 wrapKey encryptedMessageKey envelopeKey.

Definition classicalWrap (x25519Pub messageKey : bytes) : M (bytes * bytes) :=
  ephemeral ← rand_Read 32;
  sharedSecret ← liftM (x25519 ephemeral x25519Pub);
  let ephPubBytes := x25519_base ephemeral in
  let derivedKey := deriveKey sharedSecret ephPubBytes "message-key-wrap" in
  encryptedMessageKey ← sealXChaCha20 derivedKey messageKey ephPubBytes;
  mret (ephPubBytes, encryptedMessageKey).

Definition classicalUnwrap (x25519Priv ephPubBytes encryptedMessageKey : bytes) : option bytes :=
  ephPub ← NewPublicKey ephPubBytes;
  sharedSecret ← x25519 x25519Priv ephPub;
  let derivedKey := deriveKey sharedSecret ephPubBytes "message-key-wrap" in
  openXChaCha20 derivedKey encryptedMessageKey ephPubBytes.

(** A nil KEM key is [None]. *)
Definition wrapEnvelope (x25519Pub : bytes) (kemEK : option bytes) (messageKey : bytes)
    : M (bytes * bytes) :=
  match kemEK with
  | Some ek => hybridWrap x25519Pub ek messageKey
  | None => classicalWrap x25519Pub messageKey
  end.

Definition unwrapEnvelope (x25519Priv : bytes) (kemDK : option bytes)
    (envelopeKey encryptedMessageKey : bytes) : option bytes :=
  if (length envelopeKey =? classicalEphKeySize)%nat then
    classicalUnwrap x25519Priv envelopeKey encryptedMessageKey
  else if (length envelopeKey =? HybridEnvelopeKeySize)%nat &&
          bool_decide (head envelopeKey = Some EnvelopeVersionHybrid) then
    match kemDK with
    | None => None
    | Some dk => hybridUnwrap x25519Priv dk envelopeKey encryptedMessageKey
    end
  else None.

(** * Groups *)

Definition GroupSecretBlobSize : nat := 32 + MLKEMDecapsulationKeySize.

Definition MarshalGroupSecret (x25519Priv kemSeed : bytes) : option bytes :=
  if negb (length x25519Priv =? 32)%nat then None
  else if negb (length kemSeed =? MLKEMDecapsulationKeySize)%nat then None
  else Some (x25519Priv ++ kemSeed).

Definition UnmarshalGroupSecret (blob : bytes) : option (bytes * bytes) :=
  if negb (length blob =? GroupSecretBlobSize)%nat then None
  else Some (take 32 blob, drop 32 blob).

Record GroupKeypair := { X25519Pub : bytes; KEMPub : bytes; Secret : bytes }.

Definition GenerateGroupKeypair : M GroupKeypair :=
  '(priv, pub) ← GenerateX25519KeyPair;
  '(ek, dk) ← GenerateMLKEMKeyPair;
  secret ← liftM (MarshalGroupSecret priv dk);
  mret (Build_GroupKeypair pub ek secret).

(** An optional ML-KEM key given as bytes; the outer [None] is an error. *)
Definition optional_key (parse : bytes -> option bytes) (b : bytes) : option (option bytes) :=
  if bool_decide (b = []) then Some None else Some <$> parse b.

Definition WrapGroupSecret (memberX25519Pub memberKemEK secret : bytes) : M (bytes * bytes) :=
  pub ← liftM (NewPublicKey memberX25519Pub);
  ek ← liftM (optional_key MLKEMEncapsulationKeyFromBytes memberKemEK);
  wrapEnvelope pub ek secret.

Definition UnwrapGroupSecret (myX25519Priv myKemSeed kemOutput wrapped : bytes) : option bytes :=
  priv ← NewPrivateKey myX25519Priv;
  dk ← optional_key MLKEMDecapsulationKeyFromBytes myKemSeed;
  unwrapEnvelope priv dk kemOutput wrapped.

End envelope.

(** * Lemmas *)

Section laws.

Context `{Primitives} `{!PrimitiveLaws} `{Entropy} `{!EntropyLaws}.

Lemma hybrid_key_spec ephPub kemCT :
  length ephPub = 32%nat -> length kemCT = 1088%nat ->
  hybrid_key ephPub kemCT = EnvelopeVersionHybrid :: ephPub ++ kemCT.
Proof.
  intros He Hc. unfold hybrid_key.
  assert (length (EnvelopeVersionHybrid :: ephPub ++ kemCT) = HybridEnvelopeKeySize) as Hl.
  { unfold HybridEnvelopeKeySize, MLKEMCiphertextSize. cbn [length]. rewrite length_app. lia. }
  rewrite Hl, Nat.sub_diag. cbn [replicate]. rewrite app_nil_r. apply take_ge. lia.
Qed.

(** An envelope of one of the two kinds around [mk], for the private keys
    [priv] and [dk]. *)
Definition classical_envelope (priv mk ek emk : bytes) : Prop :=
  length ek = classicalEphKeySize /\
  exists ss, x25519 priv ek = Some ss /\ sealed (deriveKey ss ek "message-key-wrap") ek mk emk.

Definition hybrid_envelope (priv dk mk ek emk : bytes) : Prop :=
  exists eph ct ss kss, length eph = 32%nat /\ length ct = MLKEMCiphertextSize /\
    ek = EnvelopeVersionHybrid :: eph ++ ct /\
    x25519 priv eph = Some ss /\ kem_Decapsulate dk ct = Some kss /\
    sealed (deriveKey (ss ++ kss) (eph ++ ct) "message-key-wrap-v2") ek mk emk.

Lemma classicalUnwrap_iff priv ek emk mk :
  classicalUnwrap priv ek emk = Some mk <-> classical_envelope priv mk ek emk.
Proof.
  unfold classicalUnwrap, classical_envelope, NewPublicKey, classicalEphKeySize.
  destruct (Nat.eqb_spec (length ek) 32); cbn; [|naive_solver].
  destruct (x25519 priv ek) as [ss|]; cbn; [|naive_solver].
  rewrite open_sealed_iff. naive_solver.
Qed.

Lemma hybridUnwrap_iff priv dk ek emk mk :
  hybridUnwrap priv dk ek emk = Some mk <-> hybrid_envelope priv dk mk ek emk.
Proof.
  unfold hybridUnwrap, hybrid_envelope. split.
  - destruct (Nat.eqb_spec (length ek) HybridEnvelopeKeySize) as [Hl|]; [|done]. cbn [negb].
    case_bool_decide as Hh; [|done]. cbn [negb]. destruct ek as [|v ek]; [done|].
    injection Hh as ->. cbn [drop]. change (drop 0 ek) with ek. unfold NewPublicKey. rewrite length_take.
    unfold HybridEnvelopeKeySize, MLKEMCiphertextSize in *. cbn [length] in Hl.
    replace (32 `min` length ek)%nat with 32%nat by lia. cbn [Nat.eqb mbind option_bind].
    destruct (x25519 priv (take 32 ek)) as [ss|] eqn:Es; [|done]. cbn.
    destruct (kem_Decapsulate dk (drop 32 ek)) as [kss|] eqn:Ek; [|done]. cbn.
    intros Ho%open_sealed_iff. exists (take 32 ek), (drop 32 ek), ss, kss.
    rewrite take_drop, length_take, length_drop. split_and!; try done; lia.
  - intros (eph & ct & ss & kss & He & Hc & -> & Es & Ek & Hs).
    unfold HybridEnvelopeKeySize, MLKEMCiphertextSize in *.
    cbn [length head]. rewrite length_app, He, Hc. cbn [Nat.eqb Nat.add negb].
    rewrite bool_decide_eq_true_2 by done. cbn [negb drop]. change (drop 0 (eph ++ ct)) with (eph ++ ct).
    rewrite take_app_length', drop_app_length' by done. unfold NewPublicKey. rewrite He.
    cbn [Nat.eqb mbind option_bind]. rewrite Es. cbn. rewrite Ek. cbn.
    by apply open_sealed_iff.
Qed.

(** What unwraps is an envelope. *)
Definition envelope_for (priv : bytes) (dk : option bytes) (mk ek emk : bytes) : Prop :=
  classical_envelope priv mk ek emk \/
  exists seed, dk = Some seed /\ hybrid_envelope priv seed mk ek emk.

Lemma hybrid_envelope_length priv dk mk ek emk :
  hybrid_envelope priv dk mk ek emk ->
  length ek = HybridEnvelopeKeySize /\ head ek = Some EnvelopeVersionHybrid.
Proof.
  intros (eph & ct & ss & kss & He & Hc & -> & _). split; [|done].
  unfold HybridEnvelopeKeySize, MLKEMCiphertextSize in *. cbn [length]. rewrite length_app. lia.
Qed.

(** The message key comes out of an envelope exactly when the envelope,
    classical or hybrid, was sealed around it for these private keys. *)
Theorem unwrapEnvelope_iff priv dk ek emk mk :
  unwrapEnvelope priv dk ek emk = Some mk <-> envelope_for priv dk mk ek emk.
Proof.
  unfold unwrapEnvelope, envelope_for, classicalEphKeySize.
  destruct (Nat.eqb_spec (length ek) 32) as [Hl|Hl].
  - rewrite classicalUnwrap_iff. split; [by left|]. intros [|(seed & _ & Hh)]; [done|].
    apply hybrid_envelope_length in Hh as [Hl' _]. by rewrite Hl in Hl'.
  - assert (classical_envelope priv mk ek emk <-> False) as Hc.
    { split; [|done]. intros [Hc _]. by apply Hl. }
    destruct (Nat.eqb_spec (length ek) HybridEnvelopeKeySize) as [Hh|Hh]; cbn [andb].
    + case_bool_decide as Hv.
      * destruct dk as [seed|]; [rewrite hybridUnwrap_iff|]; naive_solver.
      * split; [done|]. intros [?|(seed & _ & Hx)]; [tauto|].
        by apply hybrid_envelope_length in Hx as [_ ?].
    + split; [done|]. intros [?|(seed & _ & Hx)]; [tauto|].
      by apply hybrid_envelope_length in Hx as [? _].
Qed.

Lemma classicalWrap_spec priv mk w r w' :
  length priv = 32%nat -> classicalWrap (x25519_base priv) mk w = (Some r, w') ->
  classical_envelope priv mk r.1 r.2.
Proof.
  intros Hp. unfold classicalWrap, mbind, M_bind, liftM.
  destruct (rand_Read 32 w) as [[eph|] w1] eqn:Er; [|done].
  apply rand_Read_length in Er. rewrite (x25519_agrees eph priv Er Hp).
  destruct (x25519 priv (x25519_base eph)) as [ss|] eqn:Es; [|done].
  destruct (sealXChaCha20 _ mk _ w1) as [[emk|] w2] eqn:Ec; [|done].
  intros [= <- <-]. split; [apply x25519_base_length|]. exists ss. split; [done|].
  by eapply seal_sealed.
Qed.

Lemma hybridWrap_spec priv dk ek mk w r w' :
  length priv = 32%nat -> kem_public dk = Some ek ->
  hybridWrap (x25519_base priv) ek mk w = (Some r, w') ->
  hybrid_envelope priv dk mk r.1 r.2.
Proof.
  intros Hp Hdk. unfold hybridWrap, mbind, M_bind, liftM, Encapsulate.
  destruct (rand_Read 32 w) as [[eph|] w1] eqn:Er; [|done].
  apply rand_Read_length in Er. rewrite (x25519_agrees eph priv Er Hp).
  destruct (x25519 priv (x25519_base eph)) as [ss|] eqn:Es; [|done].
  pose proof (kem_correct dk ek (reads w1) Hdk) as Hk.
  pose proof (kem_ciphertext_length ek (reads w1)) as Hc.
  destruct (kem_Encapsulate ek (reads w1)) as [kss ct]. cbn [fst snd] in Hk, Hc.
  rewrite hybrid_key_spec by (done || apply x25519_base_length). cbn [drop].
  change (drop 0 (x25519_base eph ++ ct)) with (x25519_base eph ++ ct).
  destruct (sealXChaCha20 _ mk _ _) as [[emk|] w2] eqn:Ec; [|done].
  intros [= <- <-]. exists (x25519_base eph), ct, ss, kss.
  split_and!; try done; [apply x25519_base_length|]. by eapply seal_sealed.
Qed.

(** The public keys of [priv] and [dk]. *)
Definition public_kem (dk ek : option bytes) : Prop :=
  match dk, ek with
  | Some dk, Some ek => kem_public dk = Some ek
  | _, None => True
  | None, Some _ => False
  end.

Lemma wrapEnvelope_spec priv dk ek mk w r w' :
  length priv = 32%nat -> public_kem dk ek ->
  wrapEnvelope (x25519_base priv) ek mk w = (Some r, w') ->
  unwrapEnvelope priv dk r.1 r.2 = Some mk.
Proof.
  intros Hp Hk Hw. apply unwrapEnvelope_iff. destruct ek as [ek|]; cbn in Hw.
  - destruct dk as [dk|]; [|done]. right. exists dk. split; [done|]. by eapply hybridWrap_spec.
  - left. by eapply classicalWrap_spec.
Qed.

Lemma MLKEMEncapsulationKeyFromBytes_public dk ek :
  kem_public dk = Some ek -> MLKEMEncapsulationKeyFromBytes ek = Some ek.
Proof.
  intros [Hl Hv]%kem_public_valid. unfold MLKEMEncapsulationKeyFromBytes, MLKEMEncapsulationKeySize.
  by rewrite Hl, Hv.
Qed.

Lemma GenerateGroupKeypair_spec w g w' :
  GenerateGroupKeypair w = (Some g, w') ->
  exists priv seed, length priv = 32%nat /\ length seed = 64%nat /\ Secret g = priv ++ seed /\
    x25519_base priv = X25519Pub g /\ kem_public seed = Some (KEMPub g).
Proof.
  unfold GenerateGroupKeypair, GenerateX25519KeyPair, GenerateMLKEMKeyPair.
  unfold mbind, M_bind, liftM.
  destruct (rand_Read 32 w) as [[priv|] w1] eqn:E1; [|done]. cbn -[rand_Read].
  destruct (rand_Read MLKEMDecapsulationKeySize w1) as [[seed|] w2] eqn:E2; [|done].
  destruct (kem_public seed) as [ek|] eqn:E3; [|done]. cbn.
  apply rand_Read_length in E1, E2. unfold MarshalGroupSecret. rewrite E1, E2. cbn.
  intros [= <- <-]. by exists priv, seed.
Qed.

Lemma group_wrap_unwrap priv seed ek secret w r w' :
  length priv = 32%nat -> length seed = 64%nat -> kem_public seed = Some ek ->
  WrapGroupSecret (x25519_base priv) ek secret w = (Some r, w') ->
  UnwrapGroupSecret priv seed r.1 r.2 = Some secret.
Proof.
  intros Hp Hs Hk. unfold WrapGroupSecret, UnwrapGroupSecret, mbind, M_bind, liftM.
  rewrite NewPublicKey_base. unfold optional_key, NewPrivateKey. rewrite Hp. cbn [Nat.eqb].
  pose proof (proj1 (kem_public_valid _ _ Hk)) as Hl.
  rewrite bool_decide_eq_false_2 by (intros ->; cbn in Hl; lia).
  rewrite (MLKEMEncapsulationKeyFromBytes_public _ _ Hk). cbn -[wrapEnvelope].
  rewrite bool_decide_eq_false_2 by (intros ->; cbn in Hs; lia).
  unfold MLKEMDecapsulationKeyFromBytes, MLKEMDecapsulationKeySize. rewrite Hs, Hk.
  cbn -[wrapEnvelope]. intros Hw. by eapply (wrapEnvelope_spec priv (Some seed) (Some ek)).
Qed.

(** A group generated on one device: its secret, wrapped to a member's
    published keys, is recovered by the member's private keys and splits into
    the private keys of the group's published ones. *)
Theorem group_secret_roundtrip priv seed ek w g w1 r w2
    (Hp : length priv = 32%nat) (Hs : length seed = 64%nat) (Hk : kem_public seed = Some ek)
    (Hg : GenerateGroupKeypair w = (Some g, w1))
    (Hw : WrapGroupSecret (x25519_base priv) ek (Secret g) w1 = (Some r, w2)) :
  exists gpriv gseed,
    (blob ← UnwrapGroupSecret priv seed r.1 r.2; UnmarshalGroupSecret blob) = Some (gpriv, gseed) /\
    x25519_base gpriv = X25519Pub g /\ kem_public gseed = Some (KEMPub g).
Proof.
  destruct (GenerateGroupKeypair_spec _ _ _ Hg) as (gpriv & gseed & E1 & E2 & E3 & E4 & E5).
  exists gpriv, gseed. split_and!; [|done|done].
  rewrite (group_wrap_unwrap _ _ _ _ _ _ _ Hp Hs Hk Hw), E3. cbn.
  unfold UnmarshalGroupSecret. rewrite length_app, E1, E2. cbn.
  by rewrite take_app_length', drop_app_length' by done.
Qed.

End laws.
