(* ===== verification/Chunked.v ===== *)
(** Chunked encryption of raw messages: the last part of
    src/internal/crypto/encrypt.go (from "Chunked encryption for raw message
    blobs" on).

A blob is the concatenation of sealed chunks, each under a nonce and
additional data derived from its index.  Chunk arithmetic is on 64-bit
[int]s that wrap.  Shown: decryption always returns, and accepts exactly
concatenations of chunks in order; what was encrypted decrypts again for
every chunk size; but the number of chunks is bound nowhere, so a blob cut
at a chunk boundary decrypts to the beginning of the message without an
error. *)

From stdpp Require Import pretty.
From S2P Require Import Prelude GoNet Decimal FilePath Binary Aead ToyCrypto.
Local Open Scope Z_scope.

(** What a call does: a value, an error return, or a run-time panic; [Running]
    is a loop whose fuel was too small (never the case, see below). *)
Inductive outcome (A : Type) := Done (a : A) | Failed | Panicked | Running.
Arguments Done {A} _. Arguments Failed {A}. Arguments Panicked {A}. Arguments Running {A}.

#[export] Instance outcome_ret : MRet outcome := fun A a => Done a.
#[export] Instance outcome_bind : MBind outcome := fun A B f m =>
  match m with Done a => f a | Failed => Failed | Panicked => Panicked | Running => Running end.

Definition of_opt {A} (o : option A) : outcome A :=
  match o with Some a => Done a | None => Failed end.

(** [b[lo:hi]] with [hi] at most the length. *)
Definition slice (b : bytes) (lo hi : Z) : outcome bytes :=
  if (0 <=? lo) && (lo <=? hi) && (hi <=? Z.of_nat (length b))
  then Done (take (Z.to_nat (hi - lo)) (drop (Z.to_nat lo) b)) else Panicked.

Definition DefaultChunkSize : Z := 65536.
Definition ChunkTagSize : Z := 16.
Definition RawBlobFormatSingle : bytes := bs "XChaCha20-Poly1305".

Definition RawBlobFormatChunked (chunkSize : Z) : bytes :=
  bs "XChaCha20-Poly1305-Chunked(" ++ bs (pretty chunkSize) ++ bs ")".

(** [ss.SkipSpace] before a number: [None] is the "unexpected newline". *)
Fixpoint SkipSpace (fuel : nat) (s : bytes) : option bytes :=
  match fuel, s with
  | S fuel, x0d :: ((x0a :: _) as r) => SkipSpace fuel r
  | S fuel, x0a :: _ => None
  | S fuel, _ =>
      match find_index (HasPrefix s) space_runes with
      | Some i => SkipSpace fuel (drop (length (default [] (space_runes !! i))) s)
      | None => Some s
      end
  | O, _ => Some s
  end.

(** [fmt.Sscanf]: the literal text, spaces, a decimal [int]; the scan's own
    error about what follows the number is ignored by the code. *)
Definition ParseRawBlobFormat (format : bytes) : bool * Z :=
  let prefix := bs "XChaCha20-Poly1305-Chunked(" in
  let scanned :=
    if HasPrefix format prefix then
      let r := drop (length prefix) format in
      r ← SkipSpace (length r) r; Sscanf_d r
    else None in
  match scanned with
  | Some cs => if 0 <? cs then (true, cs) else (false, 0)
  | None => (false, 0)
  end.

Section chunked.

Context `{Primitives}.

Definition deriveChunkNonce (messageKey : bytes) (chunkIndex : Z) : bytes :=
  hkdf messageKey (bs "chunk-nonce") (BE_PutUint64 chunkIndex) NonceSizeX.

Definition chunkAAD (chunkIndex : Z) : bytes := bs "raw:chunk:" ++ BE_PutUint64 chunkIndex.

Definition seal_chunk (messageKey : bytes) (i : nat) (chunk : bytes) : bytes :=
  aead_Seal messageKey (deriveChunkNonce messageKey (Z.of_nat i)) chunk (chunkAAD (Z.of_nat i)).

Definition open_chunk (messageKey : bytes) (i : nat) (chunkData : bytes) : option bytes :=
  aead_Open messageKey (deriveChunkNonce messageKey (Z.of_nat i)) chunkData
    (chunkAAD (Z.of_nat i)).

(** The loop from chunk [i], [n] chunks to go. *)
Fixpoint encrypt_loop (messageKey plaintext : bytes) (chunkSize : Z) (n i : nat) (out : bytes)
    : outcome bytes :=
  match n with
  | O => Done out
  | S n =>
      let start := int64 (Z.of_nat i * chunkSize) in
      let end_ := int64 (start + chunkSize) in
      let end_ := if Z.of_nat (length plaintext) <? end_ then Z.of_nat (length plaintext) else end_ in
      chunk ← slice plaintext start end_;
      encrypt_loop messageKey plaintext chunkSize n (S i) (out ++ seal_chunk messageKey i chunk)
  end.

Definition EncryptChunked (messageKey plaintext : bytes) (chunkSize : Z) : outcome bytes :=
  let chunkSize := if chunkSize <=? 0 then DefaultChunkSize else chunkSize in
  if negb (good_key messageKey) then Failed
  else
    let len := Z.of_nat (length plaintext) in
    let numChunks := Z.quot (int64 (len + chunkSize - 1)) chunkSize in
    let numChunks := if numChunks =? 0 then 1 else numChunks in
    if int64 (len + int64 (numChunks * ChunkTagSize)) <? 0 then Panicked   (* make's capacity *)
    else encrypt_loop messageKey plaintext chunkSize (Z.to_nat numChunks) 0 [].

Fixpoint decrypt_loop (fuel : nat) (messageKey blob : bytes) (storedChunkSize : Z) (i : nat)
    (plaintext : bytes) : outcome bytes :=
  match fuel with
  | O => Running
  | S fuel =>
      let len := Z.of_nat (length blob) in
      let offset := int64 (Z.of_nat i * storedChunkSize) in
      if len <=? offset then Done plaintext
      else
        let end_ := int64 (offset + storedChunkSize) in
        let end_ := if len <? end_ then len else end_ in
        chunkData ← slice blob offset end_;
        decrypted ← of_opt (open_chunk messageKey i chunkData);
        decrypt_loop fuel messageKey blob storedChunkSize (S i) (plaintext ++ decrypted)
  end.

Definition DecryptChunked (messageKey blob : bytes) (chunkSize : Z) : outcome bytes :=
  let chunkSize := if chunkSize <=? 0 then DefaultChunkSize else chunkSize in
  if negb (good_key messageKey) then Failed
  else decrypt_loop (S (length blob)) messageKey blob (int64 (chunkSize + ChunkTagSize)) 0 [].

Definition DecryptChunk (messageKey : bytes) (chunkIndex : Z) (chunkData : bytes) (chunkSize : Z)
    : option bytes :=
  if negb (good_key messageKey) then None
  else aead_Open messageKey (deriveChunkNonce messageKey chunkIndex) chunkData (chunkAAD chunkIndex).

End chunked.

(** * Lemmas *)

Section laws.

Context `{Primitives} `{!PrimitiveLaws}.

(** The reference: chunks sealed in order, from index [i]. *)
Fixpoint join (k : bytes) (i : nat) (ps : list bytes) : bytes :=
  match ps with [] => [] | p :: ps => seal_chunk k i p ++ join k (S i) ps end.

(** Every piece has [cs] bytes, but the last, which may be shorter. *)
Fixpoint cut (cs : nat) (ps : list bytes) : Prop :=
  match ps with
  | [] => True
  | [p] => (length p <= cs)%nat
  | p :: ps => length p = cs /\ cut cs ps
  end.

Lemma cut_cons cs p ps :
  cut cs (p :: ps) <-> (if ps is [] then (length p <= cs)%nat else length p = cs) /\ cut cs ps.
Proof. destruct ps; cbn; tauto. Qed.

Lemma seal_chunk_length k i p : length (seal_chunk k i p) = (length p + 16)%nat.
Proof. apply Seal_length. Qed.

Lemma open_chunk_iff k i c p : open_chunk k i c = Some p <-> c = seal_chunk k i p.
Proof. split; [apply Open_sound|]. intros ->. apply Open_Seal. Qed.

Lemma join_length k i ps : length (join k i ps) = (length (concat ps) + 16 * length ps)%nat.
Proof.
  revert i. induction ps as [|p ps IH]; intros i; [done|].
  cbn [join concat length]. rewrite !length_app, seal_chunk_length, IH. lia.
Qed.

Lemma slice_nat b lo hi :
  (lo <= hi)%nat -> (hi <= length b)%nat ->
  slice b (Z.of_nat lo) (Z.of_nat hi) = Done (take (hi - lo) (drop lo b)).
Proof.
  intros H1 H2. unfold slice.
  rewrite !(proj2 (Z.leb_le _ _)) by lia. cbn [andb]. do 2 f_equal; [|f_equal]; lia.
Qed.

(** One turn of the loop, at offset [i * s] in the blob. *)
Lemma decrypt_loop_step fuel k blob s i acc :
  Z.of_nat (length blob) + Z.of_nat s < 2 ^ 63 -> (i * s < length blob + s)%nat ->
  decrypt_loop (S fuel) k blob (Z.of_nat s) i acc =
    match drop (i * s) blob with
    | [] => Done acc
    | rest =>
        d ← of_opt (open_chunk k i (take s rest));
        decrypt_loop fuel k blob (Z.of_nat s) (S i) (acc ++ d)
    end.
Proof.
  intros Hb Hi. cbn [decrypt_loop]. rewrite <-Nat2Z.inj_mul. rewrite int64_small by lia.
  destruct (Z.leb_spec (Z.of_nat (length blob)) (Z.of_nat (i * s))) as [Hle|Hlt].
  - rewrite drop_ge by lia. done.
  - destruct (drop (i * s) blob) as [|x rest] eqn:Er.
    { apply (f_equal length) in Er. rewrite length_drop in Er. cbn in Er. lia. }
    rewrite <-Er. rewrite <-Nat2Z.inj_add, int64_small by lia.
    destruct (Z.ltb_spec (Z.of_nat (length blob)) (Z.of_nat (i * s + s))) as [Hs|Hs].
    + rewrite slice_nat by lia. rewrite !take_ge; [done|rewrite length_drop; lia..].
    + rewrite slice_nat by lia. by replace (i * s + s - i * s)%nat with s by lia.
Qed.

(** The loop accepts exactly chunks in order, cut as [cut] says. *)
Lemma decrypt_loop_iff k blob cs fuel : forall i acc p,
  Z.of_nat (length blob) + Z.of_nat (cs + 16) < 2 ^ 63 -> (i * (cs + 16) < length blob + (cs + 16))%nat ->
  (length blob < i + fuel)%nat ->
  decrypt_loop fuel k blob (Z.of_nat (cs + 16)) i acc = Done p <->
  exists ps, cut cs ps /\ drop (i * (cs + 16)) blob = join k i ps /\ p = acc ++ concat ps.
Proof.
  induction fuel as [|fuel IH]; intros i acc p Hb Hi Hf.
  - nia.
  - rewrite decrypt_loop_step by lia.
    assert (drop (S i * (cs + 16)) blob = drop (cs + 16) (drop (i * (cs + 16)) blob)) as HS.
    { rewrite drop_drop. f_equal. lia. }
    destruct (drop (i * (cs + 16)) blob) as [|x rest] eqn:Er.
    + split.
      * intros [= <-]. exists []. by rewrite app_nil_r.
      * intros ([|q ps] & _ & Hj & ->); [cbn; by rewrite app_nil_r|].
        apply (f_equal length) in Hj. rewrite join_length in Hj. cbn [length] in Hj. lia.
    + assert (i * (cs + 16) < length blob)%nat as Hlt.
      { apply (f_equal length) in Er. rewrite length_drop in Er. cbn in Er. lia. }
      rewrite <-Er in HS |- *. split.
      * destruct (open_chunk k i _) as [d|] eqn:Eo; [|done]. cbn.
        apply open_chunk_iff in Eo. intros Hd.
        apply IH in Hd as (ps & Hc & Hj & ->); [|lia..]. rewrite HS in Hj.
        exists (d :: ps). split_and!.
        -- apply cut_cons. split; [|done]. apply (f_equal length) in Eo.
           rewrite seal_chunk_length, length_take in Eo. destruct ps as [|q ps]; [lia|].
           apply (f_equal length) in Hj. rewrite join_length, length_drop in Hj. cbn [length] in Hj. lia.
        -- cbn [join]. by rewrite <-Eo, <-Hj, take_drop.
        -- cbn [concat]. by rewrite app_assoc.
      * intros ([|q ps] & Hc & Hj & ->); [by rewrite Hj in Er|].
        cbn [join] in Hj. apply cut_cons in Hc as [Hq Hc].
        assert (take (cs + 16) (drop (i * (cs + 16)) blob) = seal_chunk k i q /\
          drop (cs + 16) (drop (i * (cs + 16)) blob) = join k (S i) ps) as [-> Hd].
        { rewrite Hj. destruct ps as [|q' ps].
          - cbn [join]. rewrite app_nil_r. split; [apply take_ge|apply drop_ge];
              rewrite seal_chunk_length; lia.
          - rewrite take_app_length', drop_app_length' by (rewrite seal_chunk_length; lia). done. }
        rewrite (proj2 (open_chunk_iff k i _ q)) by done. cbn.
        apply IH; [lia..|]. exists ps. rewrite HS. split_and!; [done|done|].
        cbn [concat]. by rewrite app_assoc.
Qed.

(** The loop always ends, wrapped arithmetic included. *)
Lemma decrypt_loop_ends k blob s fuel : forall i acc,
  Z.of_nat (length blob) < 2 ^ 63 -> 0 < s < 2 ^ 63 ->
  Z.of_nat i * s < Z.of_nat (length blob) + s -> (length blob < i + fuel)%nat ->
  decrypt_loop fuel k blob s i acc <> Running.
Proof.
  induction fuel as [|fuel IH]; intros i acc Hb Hs Hi Hf.
  - assert (Z.of_nat i * 1 <= Z.of_nat i * s) by nia. nia.
  - cbn [decrypt_loop]. destruct (Z_lt_ge_dec (Z.of_nat i * s) (2 ^ 63)) as [Hlt|Hge].
    + rewrite (int64_small (Z.of_nat i * s)) by nia.
      destruct (Z.leb_spec (Z.of_nat (length blob)) (Z.of_nat i * s)); [done|].
      destruct (slice _ _ _) eqn:Esl; cbn; try done.
      * destruct (open_chunk k i a) as [d|]; cbn; [|done]. apply IH; nia.
      * revert Esl. unfold slice. by destruct (_ && _).
    + assert (int64 (Z.of_nat i * s) = Z.of_nat i * s - 2 ^ 64) as Hw.
      { unfold int64. rewrite <-(Z_mod_plus_full _ (-1)), Z.mod_small; lia. }
      rewrite Hw. destruct (Z.leb_spec (Z.of_nat (length blob)) (Z.of_nat i * s - 2 ^ 64)); [done|].
      unfold slice. rewrite (proj2 (Z.leb_gt 0 (Z.of_nat i * s - 2 ^ 64))) by lia. done.
Qed.

(** The chunk size in force. *)
Definition effective (chunkSize : Z) : Z :=
  if chunkSize <=? 0 then DefaultChunkSize else chunkSize.

(** Decryption returns on every blob and every 64-bit chunk size: its
    fuel, one unit per byte, is never exhausted. *)
Theorem DecryptChunked_terminates k blob chunkSize
    (Hb : Z.of_nat (length blob) < 2 ^ 63) (Hcs : chunkSize < 2 ^ 63) :
  DecryptChunked k blob chunkSize <> Running.
Proof.
  unfold DecryptChunked. fold (effective chunkSize). destruct (good_key k); [|done]. cbn [negb].
  assert (0 < effective chunkSize < 2 ^ 63) as He.
  { unfold effective, DefaultChunkSize. destruct (Z.leb_spec chunkSize 0); lia. }
  unfold ChunkTagSize. destruct (Z_lt_ge_dec (effective chunkSize + 16) (2 ^ 63)) as [Hlt|Hge].
  - rewrite int64_small by lia. apply decrypt_loop_ends; lia.
  - assert (int64 (effective chunkSize + 16) = effective chunkSize + 16 - 2 ^ 64) as Hw.
    { unfold int64. rewrite <-(Z_mod_plus_full _ (-1)), Z.mod_small; lia. }
    rewrite Hw. cbn [decrypt_loop]. change (Z.of_nat 0) with 0. rewrite Z.mul_0_l. change (int64 0) with 0.
    destruct (Z.leb_spec (Z.of_nat (length blob)) 0); [done|]. rewrite Z.add_0_l, int64_small by lia.
    rewrite (proj2 (Z.ltb_ge _ _)) by lia. unfold slice.
    rewrite (proj2 (Z.leb_gt 0 (effective chunkSize + 16 - 2 ^ 64))), andb_false_r by lia. done.
Qed.

(** Sizes for which no chunk arithmetic wraps. *)
Definition moderate (len : nat) (chunkSize : Z) : Prop :=
  Z.of_nat len < 2 ^ 61 /\ chunkSize < 2 ^ 62.

Lemma effective_nat chunkSize :
  chunkSize < 2 ^ 62 ->
  exists cs, effective chunkSize = Z.of_nat cs /\ (0 < cs)%nat /\ Z.of_nat cs < 2 ^ 62.
Proof.
  intros H1. exists (Z.to_nat (effective chunkSize)).
  unfold effective, DefaultChunkSize in *. destruct (Z.leb_spec chunkSize 0); lia.
Qed.

Lemma DecryptChunked_iff k blob chunkSize cs p :
  moderate (length blob) chunkSize -> effective chunkSize = Z.of_nat cs -> good_key k = true ->
  DecryptChunked k blob chunkSize = Done p <->
  exists ps, cut cs ps /\ blob = join k 0 ps /\ p = concat ps.
Proof.
  intros [Hb Hc] He Hk. unfold DecryptChunked. fold (effective chunkSize).
  destruct (effective_nat _ Hc) as (cs' & He' & _ & Hcs). rewrite He in He'.
  apply Nat2Z.inj in He' as <-. rewrite Hk, He. cbn [negb]. unfold ChunkTagSize.
  replace (Z.of_nat cs + 16) with (Z.of_nat (cs + 16)) by lia. rewrite int64_small by lia.
  by rewrite (decrypt_loop_iff k blob cs) by lia.
Qed.

(** C15. A chunked blob decrypts to [p] exactly when it is the concatenation
    of chunks sealed in order from index 0, all of full size but possibly the
    last, whose contents joined are [p]. *)
Theorem DecryptChunked_accepts_iff k blob chunkSize p (Hm : moderate (length blob) chunkSize) :
  DecryptChunked k blob chunkSize = Done p <->
  good_key k = true /\
  exists ps, cut (Z.to_nat (effective chunkSize)) ps /\ blob = join k 0 ps /\ p = concat ps.
Proof.
  destruct (effective_nat chunkSize (proj2 Hm)) as (cs & He & _ & _).
  destruct (good_key k) eqn:Hk; [|unfold DecryptChunked; rewrite Hk; naive_solver].
  rewrite (DecryptChunked_iff _ _ _ cs) by done. rewrite He, Nat2Z.id. naive_solver.
Qed.

Lemma encrypt_loop_spec k plain cs n : forall i out,
  Z.of_nat (length plain) + Z.of_nat cs < 2 ^ 63 ->
  (length plain <= (i + n) * cs)%nat -> (n <> 0 -> (i + n - 1) * cs <= length plain)%nat ->
  exists ps, encrypt_loop k plain (Z.of_nat cs) n i out = Done (out ++ join k i ps) /\
    cut cs ps /\ concat ps = drop (i * cs) plain /\ length ps = n.
Proof.
  induction n as [|n IH]; intros i out Hb Hle Hfull; cbn [encrypt_loop].
  - exists []. cbn. rewrite app_nil_r, drop_ge by lia. done.
  - specialize (Hfull ltac:(lia)).
    assert (i * cs <= (i + S n - 1) * cs)%nat as Hi by nia.
    rewrite <-Nat2Z.inj_mul, int64_small by lia. rewrite <-Nat2Z.inj_add, int64_small by lia.
    set (e := if Z.of_nat (length plain) <? Z.of_nat (i * cs + cs) then Z.of_nat (length plain)
              else Z.of_nat (i * cs + cs)).
    assert (e = Z.of_nat (length plain `min` (i * cs + cs))) as ->.
    { unfold e. destruct (Z.ltb_spec (Z.of_nat (length plain)) (Z.of_nat (i * cs + cs))); lia. }
    rewrite slice_nat by lia. cbn [mbind outcome_bind].
    set (piece := take (length plain `min` (i * cs + cs) - i * cs) (drop (i * cs) plain)).
    assert (piece = take cs (drop (i * cs) plain)) as Hpiece.
    { unfold piece. destruct (Nat.le_gt_cases (length plain) (i * cs + cs)) as [Hs|Hs].
      - rewrite !take_ge; [done|rewrite length_drop; lia..].
      - f_equal. lia. }
    destruct (IH (S i) (out ++ seal_chunk k i piece) Hb ltac:(nia) ltac:(nia))
      as (ps & -> & Hc & Hcat & Hlen).
    exists (piece :: ps). cbn [join concat length]. rewrite <-app_assoc, Hcat, Hlen.
    split_and!; [done| |rewrite Hpiece|done].
    + apply cut_cons. split; [|done]. rewrite Hpiece, length_take, length_drop.
      destruct ps as [|q ps]; [lia|]. cbn in Hlen. subst n. nia.
    + replace (S i * cs)%nat with (i * cs + cs)%nat by lia. by rewrite <-drop_drop, take_drop.
Qed.

(** Encryption seals the pieces of the plaintext in order. *)
Lemma EncryptChunked_spec k p chunkSize c :
  moderate (17 * length p + 16) chunkSize ->
  EncryptChunked k p chunkSize = Done c ->
  good_key k = true /\ exists ps, c = join k 0 ps /\ cut (Z.to_nat (effective chunkSize)) ps /\
    concat ps = p /\ (length ps <= length p + 1)%nat.
Proof.
  intros [Hp Hc]. unfold EncryptChunked. fold (effective chunkSize).
  destruct (good_key k); [|done]. cbn [negb]. intros H1. split; [done|]. revert H1.
  destruct (effective_nat chunkSize Hc) as (cs & -> & Hcs0 & Hcs). rewrite Nat2Z.id.
  rewrite (int64_small (Z.of_nat (length p) + Z.of_nat cs - 1)) by lia.
  rewrite Z.quot_div_nonneg by lia.
  set (N := (Z.of_nat (length p) + Z.of_nat cs - 1) / Z.of_nat cs).
  assert (Z.of_nat cs * N <= Z.of_nat (length p) + Z.of_nat cs - 1 < Z.of_nat cs * N + Z.of_nat cs) as HN.
  { pose proof (Z.mul_div_le (Z.of_nat (length p) + Z.of_nat cs - 1) (Z.of_nat cs)).
    pose proof (Z.mul_succ_div_gt (Z.of_nat (length p) + Z.of_nat cs - 1) (Z.of_nat cs)).
    unfold N. lia. }
  assert (0 <= N <= Z.of_nat (length p)) as HN0 by nia.
  set (n := if N =? 0 then 1 else N).
  assert (n = N /\ 0 < N \/ n = 1 /\ N = 0) as Hn.
  { unfold n. destruct (Z.eqb_spec N 0); lia. }
  rewrite !int64_small by (unfold ChunkTagSize; try lia; rewrite int64_small; lia).
  destruct (_ <? 0); [done|]. intros Hrun.
  destruct (encrypt_loop_spec k p cs (Z.to_nat n) 0 []) as (ps & E & Hcut & Hcat & Hlen);
    [lia|nia|nia|].
  rewrite E in Hrun. injection Hrun as <-. exists ps. cbn. split_and!; [done..|lia].
Qed.

Lemma moderate_join k ps chunkSize :
  moderate (17 * length (concat ps) + 16) chunkSize -> (length ps <= length (concat ps) + 1)%nat ->
  moderate (length (join k 0 ps)) chunkSize.
Proof. intros [H1 H2] H3. rewrite join_length. unfold moderate in *. lia. Qed.

(** Whatever the chunk size, a chunked blob decrypts to what was
    encrypted. *)
Theorem chunked_roundtrip k p chunkSize c
    (Hm : moderate (17 * length p + 16) chunkSize)
    (He : EncryptChunked k p chunkSize = Done c) :
  DecryptChunked k c chunkSize = Done p.
Proof.
  destruct (EncryptChunked_spec _ _ _ _ Hm He) as (Hk & ps & -> & Hcut & <- & Hlen).
  destruct (effective_nat chunkSize (proj2 Hm)) as (cs & Hcs & _ & _).
  rewrite Hcs, Nat2Z.id in Hcut.
  apply (DecryptChunked_iff k _ chunkSize cs); [by apply moderate_join|done|done|].
  by exists ps.
Qed.

Lemma join_take k cs ps : forall i n,
  cut cs ps -> take (n * (cs + 16)) (join k i ps) = join k i (take n ps) /\
  concat (take n ps) = take (n * cs) (concat ps).
Proof.
  induction ps as [|p ps IH]; intros i n Hc; [cbn [join concat]; by rewrite !take_nil|].
  apply cut_cons in Hc as [Hp Hc]. destruct n as [|n]; [done|].
  change (take (S n) (p :: ps)) with (p :: take n ps). destruct ps as [|q ps].
  - assert (take n (@nil bytes) = []) as -> by apply take_nil. cbn [join concat take]. rewrite !app_nil_r.
    by rewrite !take_ge by (rewrite ?seal_chunk_length; lia).
  - destruct (IH (S i) n Hc) as [E1 E2].
    replace (S n * (cs + 16))%nat with ((cs + 16) + n * (cs + 16))%nat by lia.
    replace (S n * cs)%nat with (cs + n * cs)%nat by lia.
    change (join k i (p :: q :: ps)) with (seal_chunk k i p ++ join k (S i) (q :: ps)).
    change (concat (p :: q :: ps)) with (p ++ concat (q :: ps)).
    change (join k i (p :: take n (q :: ps))) with (seal_chunk k i p ++ join k (S i) (take n (q :: ps))).
    change (concat (p :: take n (q :: ps))) with (p ++ concat (take n (q :: ps))).
    rewrite !take_app, !(take_ge (seal_chunk k i p)), !(take_ge p)
      by (rewrite ?seal_chunk_length; lia).
    rewrite seal_chunk_length, Hp.
    replace (cs + 16 + n * (cs + 16) - (cs + 16))%nat with (n * (cs + 16))%nat by lia.
    replace (cs + n * cs - cs)%nat with (n * cs)%nat by lia. by rewrite E1, <-E2.
Qed.

Lemma cut_take cs ps n : cut cs ps -> cut cs (take n ps).
Proof.
  revert n. induction ps as [|p ps IH]; intros [|n] Hc; try done.
  apply cut_cons in Hc as [Hp Hc]. cbn [take]. apply cut_cons. split; [|by apply IH].
  destruct ps as [|q ps]; [by destruct n|]. destruct n; cbn; lia.
Qed.

(** The tail of a chunked blob is not protected: cut after any number of
    chunks, it decrypts without an error to as many chunks of the message;
    cut to nothing, to the empty message. *)
Theorem chunked_prefix_accepted k p chunkSize c n
    (Hm : moderate (17 * length p + 16) chunkSize) (Hpos : 0 < chunkSize)
    (He : EncryptChunked k p chunkSize = Done c) :
  let cs := Z.to_nat chunkSize in
  DecryptChunked k (take (n * (cs + 16)) c) chunkSize = Done (take (n * cs) p).
Proof.
  destruct (EncryptChunked_spec _ _ _ _ Hm He) as (Hk & ps & -> & Hcut & <- & Hlen). cbn zeta.
  assert (effective chunkSize = chunkSize) as Hcs.
  { unfold effective. by rewrite (proj2 (Z.leb_gt _ _)) by lia. }
  rewrite Hcs in Hcut. destruct (join_take k _ ps 0 n Hcut) as [-> <-].
  apply (DecryptChunked_iff k _ chunkSize (Z.to_nat chunkSize)); [|lia|done|].
  - pose proof (moderate_join k ps chunkSize Hm Hlen) as [H1 H2]. split; [|done].
    eapply Z.le_lt_trans; [|exact H1]. apply inj_le.
    destruct (join_take k _ ps 0 n Hcut) as [<- _]. rewrite length_take. lia.
  - exists (take n ps). split; [by apply cut_take|done].
Qed.


(** ** Formats *)

Lemma SkipSpace_number fuel c s :
  is_Some (digit c) \/ c = "-"%byte -> SkipSpace (S fuel) (c :: s) = Some (c :: s).
Proof.
  intros H1. destruct c; try reflexivity; by destruct H1 as [[d Hd]|].
Qed.

Lemma pretty_Z_head (n : Z) :
  exists c s, bs (pretty n) = c :: s /\ (is_Some (digit c) \/ c = "-"%byte).
Proof.
  destruct n as [|p|p].
  - by exists "0"%byte, []; split; [|left; eexists].
  - destruct (pretty_N_head (N.pos p)) as (c & s & E & Hc). exists c, s. by split; [|left].
  - exists "-"%byte, (bs (pretty (N.pos p))). by split; [|right].
Qed.

(** The format written beside a blob is read back as its chunk size; sizes
    that mean a single block are read as that. *)
Lemma format_roundtrip chunkSize :
  - 2 ^ 63 <= chunkSize < 2 ^ 63 ->
  ParseRawBlobFormat (RawBlobFormatChunked chunkSize) =
    if 0 <? chunkSize then (true, chunkSize) else (false, 0).
Proof.
  intros Hc. unfold ParseRawBlobFormat, RawBlobFormatChunked.
  set (prefix := bs "XChaCha20-Poly1305-Chunked(").
  rewrite HasPrefix_app.
  rewrite drop_app_length.
  assert (SkipSpace (length (bs (pretty chunkSize) ++ bs ")")) (bs (pretty chunkSize) ++ bs ")")
    = Some (bs (pretty chunkSize) ++ bs ")")) as ->.
  { destruct (pretty_Z_head chunkSize) as (c & s & -> & Hs). by apply SkipSpace_number. }
  cbn [mbind option_bind]. unfold bs. by rewrite Sscanf_pretty.
Qed.

(** A format whose chunk size nearly exhausts [int] crashes the reader: the
    stored chunk size wraps to a negative number. *)
Lemma huge_format_panics k blob chunkSize :
  2 ^ 63 - 16 <= chunkSize < 2 ^ 63 -> good_key k = true -> blob <> [] ->
  Z.of_nat (length blob) < 2 ^ 63 ->
  DecryptChunked k blob chunkSize = Panicked.
Proof.
  intros Hc Hk Hb Hl. unfold DecryptChunked. rewrite Hk. cbn [negb].
  rewrite (proj2 (Z.leb_gt chunkSize 0)) by lia. unfold ChunkTagSize.
  assert (int64 (chunkSize + 16) = chunkSize + 16 - 2 ^ 64) as ->.
  { unfold int64. rewrite <-(Z_mod_plus_full _ (-1)), Z.mod_small; lia. }
  cbn [decrypt_loop]. change (int64 (Z.of_nat 0 * _)) with 0.
  destruct blob as [|x blob]; [done|]. cbn [length]. rewrite (proj2 (Z.leb_gt _ 0)) by lia.
  rewrite Z.add_0_l, int64_small by lia. rewrite (proj2 (Z.ltb_ge _ _)) by lia. unfold slice.
  rewrite (proj2 (Z.leb_gt 0 (chunkSize + 16 - 2 ^ 64))), andb_false_r by lia. done.
Qed.

End laws.

(** * Witnesses *)

#[local] Existing Instances toy toy_laws.

#[local] Definition demo_key : bytes := toy_key 3.
#[local] Definition demo_text : bytes := bs "chunked text".
#[local] Definition demo_blob : bytes := join demo_key 0 [bs "chunk"; bs "ed te"; bs "xt"].

Lemma demo_encrypted : EncryptChunked demo_key demo_text 5 = Done demo_blob.
Proof. vm_compute. reflexivity. Qed.

Lemma DecryptChunked_terminates_witness : DecryptChunked demo_key demo_blob (2 ^ 63 - 1) <> Running.
Proof. apply DecryptChunked_terminates; vm_compute; reflexivity. Defined.

Lemma DecryptChunked_accepts_iff_witness :
  DecryptChunked demo_key demo_blob 5 = Done demo_text <->
  good_key demo_key = true /\ exists ps, cut (Z.to_nat (effective 5)) ps /\
    demo_blob = join demo_key 0 ps /\ demo_text = concat ps.
Proof. apply DecryptChunked_accepts_iff. split; vm_compute; reflexivity. Defined.

Lemma chunked_roundtrip_witness : DecryptChunked demo_key demo_blob 5 = Done demo_text.
Proof.
  apply chunked_roundtrip; [split; vm_compute; reflexivity|exact demo_encrypted].
Defined.

(** Without its last chunk, "chunked text" reads as "chunked te". *)
Lemma chunked_prefix_accepted_witness :
  DecryptChunked demo_key (take (2 * (5 + 16)) demo_blob) 5 = Done (bs "chunked te").
Proof.
  apply (chunked_prefix_accepted demo_key demo_text 5 demo_blob 2);
    [split; vm_compute; reflexivity|reflexivity|exact demo_encrypted].
Defined.
