(* ===== verification/Encrypt.v ===== *)
(** Encrypted messages: the message functions of
    src/internal/crypto/encrypt.go, over envelopes (Envelope.v) and chunks
    (Chunked.v).

A message has slots (body, subject, headers, raw metadata), each sealed
under one fresh message key with the slot's name as additional data; the
key travels in an envelope.  The classical functions, written out one by
one in the code, and their hybrid variants are both modelled.  Shown: the
recipient reads back every slot; raw messages survive with the format
string stored beside them; re-wrapping a key for another recipient leaves
the slots readable by both; the hybrid functions without a KEM key are the
classical ones.

A nil slice is the empty list: a sealed slot is never empty. *)

From S2P Require Import Prelude Binary Aead ToyCrypto Envelope Chunked.
Local Open Scope Z_scope.

Record EncryptedMessage := mkEncrypted {
  EphemeralPubkey : bytes;
  EncryptedMessageKey : bytes;
  EncryptedBody : bytes;
  EncryptedSubject : bytes;
  EncryptedHeaders : bytes
}.

Record EncryptedRawMessage := mkRaw {
  Embedded : EncryptedMessage;
  EncryptedMeta : bytes
}.

Section messages.

Context `{Primitives} `{Entropy}.

(** An outcome inside a drawing computation: a panic ends the run like an
    error does (the callers below never meet one). *)
Definition of_outcome {A} (o : outcome A) : M A :=
  match o with Done a => mret a | _ => failM end.

(** * Classical *)

(** The part all classical functions begin with. *)
Definition EncryptMessage (recipientPub subject body : bytes) : M EncryptedMessage :=
  messageKey ← secureKey 32;
  ephemeral ← rand_Read 32;
  sharedSecret ← liftM (x25519 ephemeral recipientPub);
  let ephPubBytes := x25519_base ephemeral in
  let derivedKey := deriveKey sharedSecret ephPubBytes "message-key-wrap" in
  encryptedMessageKey ← sealXChaCha20 derivedKey messageKey ephPubBytes;
  encryptedBody ← sealXChaCha20 messageKey body (bs "body");
  encryptedSubject ← sealXChaCha20 messageKey subject (bs "subject");
  mret (mkEncrypted ephPubBytes encryptedMessageKey encryptedBody encryptedSubject []).

(** [headers] is nil or a slice. *)
Definition EncryptMessageWithHeaders (recipientPub subject body : bytes) (headers : option bytes)
    : M EncryptedMessage :=
  messageKey ← secureKey 32;
  ephemeral ← rand_Read 32;
  sharedSecret ← liftM (x25519 ephemeral recipientPub);
  let ephPubBytes := x25519_base ephemeral in
  let derivedKey := deriveKey sharedSecret ephPubBytes "message-key-wrap" in
  encryptedMessageKey ← sealXChaCha20 derivedKey messageKey ephPubBytes;
  encryptedBody ← sealXChaCha20 messageKey body (bs "body");
  encryptedSubject ← sealXChaCha20 messageKey subject (bs "subject");
  match headers with
  | None => mret (mkEncrypted ephPubBytes encryptedMessageKey encryptedBody encryptedSubject [])
  | Some headers =>
      encryptedHeaders ← sealXChaCha20 messageKey headers (bs "headers");
      mret (mkEncrypted ephPubBytes encryptedMessageKey encryptedBody encryptedSubject
              encryptedHeaders)
  end.

Definition EncryptMessageChunkedBody (recipientPub subject body : bytes) (chunkSize : Z)
    : M EncryptedMessage :=
  messageKey ← secureKey 32;
  ephemeral ← rand_Read 32;
  sharedSecret ← liftM (x25519 ephemeral recipientPub);
  let ephPubBytes := x25519_base ephemeral in
  let derivedKey := deriveKey sharedSecret ephPubBytes "message-key-wrap" in
  encryptedMessageKey ← sealXChaCha20 derivedKey messageKey ephPubBytes;
  encryptedBody ← of_outcome (EncryptChunked messageKey body chunkSize);
  encryptedSubject ← sealXChaCha20 messageKey subject (bs "subject");
  mret (mkEncrypted ephPubBytes encryptedMessageKey encryptedBody encryptedSubject []).

(** Chunked, or a single block for a chunk size that is not positive. *)
Definition encrypt_raw_body (messageKey rawMessage : bytes) (chunkSize : Z) : M bytes :=
  if 0 <? chunkSize then of_outcome (EncryptChunked messageKey rawMessage chunkSize)
  else sealXChaCha20 messageKey rawMessage (bs "body").

Definition EncryptRawMessageWithMeta (recipientPub rawMessage metadata : bytes) (chunkSize : Z)
    : M EncryptedRawMessage :=
  messageKey ← secureKey 32;
  ephemeral ← rand_Read 32;
  sharedSecret ← liftM (x25519 ephemeral recipientPub);
  let ephPubBytes := x25519_base ephemeral in
  let derivedKey := deriveKey sharedSecret ephPubBytes "message-key-wrap" in
  encryptedMessageKey ← sealXChaCha20 derivedKey messageKey ephPubBytes;
  encryptedBody ← encrypt_raw_body messageKey rawMessage chunkSize;
  encryptedMeta ← sealXChaCha20 messageKey metadata (bs "raw-meta");
  mret (mkRaw (mkEncrypted ephPubBytes encryptedMessageKey encryptedBody [] []) encryptedMeta).

(** The unwrapping that every classical reader repeats. *)
Definition read_key (recipientPriv ephemeralPubkey encryptedMessageKey : bytes) : option bytes :=
  if negb (length ephemeralPubkey =? 32)%nat then None
  else
    ephPub ← NewPublicKey ephemeralPubkey;
    sharedSecret ← x25519 recipientPriv ephPub;
    let derivedKey := deriveKey sharedSecret ephemeralPubkey "message-key-wrap" in
    openXChaCha20 derivedKey encryptedMessageKey ephemeralPubkey.

(** The subject slot of a whole message may be absent. *)
Definition open_subject (messageKey encryptedSubject : bytes) : option bytes :=
  if bool_decide (encryptedSubject = []) then Some []
  else openXChaCha20 messageKey encryptedSubject (bs "subject").

Definition DecryptMessage (recipientPriv : bytes) (msg : EncryptedMessage) : option (bytes * bytes) :=
  messageKey ← read_key recipientPriv (EphemeralPubkey msg) (EncryptedMessageKey msg);
  body ← openXChaCha20 messageKey (EncryptedBody msg) (bs "body");
  subject ← open_subject messageKey (EncryptedSubject msg);
  Some (subject, body).

Definition DecryptSubjectOnly (recipientPriv ephemeralPubkey encryptedMessageKey encryptedSubject : bytes)
    : option bytes :=
  messageKey ← read_key recipientPriv ephemeralPubkey encryptedMessageKey;
  openXChaCha20 messageKey encryptedSubject (bs "subject").

Definition DecryptSubject (recipientPriv ephemeralPubkey encryptedMessageKey encryptedSubject : bytes)
    : option bytes :=
  messageKey ← read_key recipientPriv ephemeralPubkey encryptedMessageKey;
  openXChaCha20 messageKey encryptedSubject (bs "subject").

Definition DecryptHeaders (recipientPriv ephemeralPubkey encryptedMessageKey encryptedHeaders : bytes)
    : option bytes :=
  if bool_decide (encryptedHeaders = []) then None
  else
    messageKey ← read_key recipientPriv ephemeralPubkey encryptedMessageKey;
    openXChaCha20 messageKey encryptedHeaders (bs "headers").

Definition DecryptMetaOnly (recipientPriv ephemeralPubkey encryptedMessageKey encryptedMeta : bytes)
    : option bytes :=
  messageKey ← read_key recipientPriv ephemeralPubkey encryptedMessageKey;
  openXChaCha20 messageKey encryptedMeta (bs "raw-meta").

(** The body in the stored format; metadata that does not open is dropped. *)
Definition open_raw (messageKey encryptedBody format encryptedMeta : bytes)
    : outcome (bytes * bytes) :=
  let '(chunked, chunkSize) := ParseRawBlobFormat format in
  body ← (if (chunked : bool) then DecryptChunked messageKey encryptedBody chunkSize
          else of_opt (openXChaCha20 messageKey encryptedBody (bs "body")));
  Done (body,
        if bool_decide (encryptedMeta = []) then []
        else default [] (openXChaCha20 messageKey encryptedMeta (bs "raw-meta"))).

Definition DecryptRawMessage (recipientPriv : bytes) (msg : EncryptedMessage)
    (format encryptedMeta : bytes) : outcome (bytes * bytes) :=
  messageKey ← of_opt (read_key recipientPriv (EphemeralPubkey msg) (EncryptedMessageKey msg));
  open_raw messageKey (EncryptedBody msg) format encryptedMeta.

Definition RewrapMessageKey (originalEphPubBytes originalEncMsgKey senderPriv recipientPub : bytes)
    : M (bytes * bytes) :=
  ak ← liftM (read_key senderPriv originalEphPubBytes originalEncMsgKey);
  newEph ← rand_Read 32;
  newSharedSecret ← liftM (x25519 newEph recipientPub);
  let newEphPubBytes := x25519_base newEph in
  let newDerivedKey := deriveKey newSharedSecret newEphPubBytes "message-key-wrap" in
  newEncMsgKey ← sealXChaCha20 newDerivedKey ak newEphPubBytes;
  mret (newEphPubBytes, newEncMsgKey).

(** * Hybrid *)

Definition EncryptMessageHybrid (recipientPub : bytes) (kemEK : option bytes) (subject body : bytes)
    : M EncryptedMessage :=
  messageKey ← secureKey 32;
  '(envelopeKey, encryptedMessageKey) ← wrapEnvelope recipientPub kemEK messageKey;
  encryptedBody ← sealXChaCha20 messageKey body (bs "body");
  encryptedSubject ← sealXChaCha20 messageKey subject (bs "subject");
  mret (mkEncrypted envelopeKey encryptedMessageKey encryptedBody encryptedSubject []).

Definition EncryptMessageWithHeadersHybrid (recipientPub : bytes) (kemEK : option bytes)
    (subject body : bytes) (headers : option bytes) : M EncryptedMessage :=
  messageKey ← secureKey 32;
  '(envelopeKey, encryptedMessageKey) ← wrapEnvelope recipientPub kemEK messageKey;
  encryptedBody ← sealXChaCha20 messageKey body (bs "body");
  encryptedSubject ← sealXChaCha20 messageKey subject (bs "subject");
  match headers with
  | None => mret (mkEncrypted envelopeKey encryptedMessageKey encryptedBody encryptedSubject [])
  | Some headers =>
      encryptedHeaders ← sealXChaCha20 messageKey headers (bs "headers");
      mret (mkEncrypted envelopeKey encryptedMessageKey encryptedBody encryptedSubject
              encryptedHeaders)
  end.

Definition EncryptRawMessageWithMetaHybrid (recipientPub : bytes) (kemEK : option bytes)
    (rawMessage metadata : bytes) (chunkSize : Z) : M EncryptedRawMessage :=
  messageKey ← secureKey 32;
  '(envelopeKey, encryptedMessageKey) ← wrapEnvelope recipientPub kemEK messageKey;
  encryptedBody ← encrypt_raw_body messageKey rawMessage chunkSize;
  encryptedMeta ← sealXChaCha20 messageKey metadata (bs "raw-meta");
  mret (mkRaw (mkEncrypted envelopeKey encryptedMessageKey encryptedBody [] []) encryptedMeta).

Definition DecryptMessageAuto (recipientPriv : bytes) (kemDK : option bytes) (msg : EncryptedMessage)
    : option (bytes * bytes) :=
  messageKey ← unwrapEnvelope recipientPriv kemDK (EphemeralPubkey msg) (EncryptedMessageKey msg);
  body ← openXChaCha20 messageKey (EncryptedBody msg) (bs "body");
  subject ← open_subject messageKey (EncryptedSubject msg);
  Some (subject, body).

Definition DecryptSubjectOnlyAuto (recipientPriv : bytes) (kemDK : option bytes)
    (envelopeKey encryptedMessageKey encryptedSubject : bytes) : option bytes :=
  messageKey ← unwrapEnvelope recipientPriv kemDK envelopeKey encryptedMessageKey;
  openXChaCha20 messageKey encryptedSubject (bs "subject").

Definition DecryptHeadersAuto (recipientPriv : bytes) (kemDK : option bytes)
    (envelopeKey encryptedMessageKey encryptedHeaders : bytes) : option bytes :=
  if bool_decide (encryptedHeaders = []) then None
  else
    messageKey ← unwrapEnvelope recipientPriv kemDK envelopeKey encryptedMessageKey;
    openXChaCha20 messageKey encryptedHeaders (bs "headers").

Definition DecryptMetaOnlyAuto (recipientPriv : bytes) (kemDK : option bytes)
    (envelopeKey encryptedMessageKey encryptedMeta : bytes) : option bytes :=
  messageKey ← unwrapEnvelope recipientPriv kemDK envelopeKey encryptedMessageKey;
  openXChaCha20 messageKey encryptedMeta (bs "raw-meta").

Definition DecryptRawMessageAuto (recipientPriv : bytes) (kemDK : option bytes)
    (msg : EncryptedMessage) (format encryptedMeta : bytes) : outcome (bytes * bytes) :=
  messageKey ← of_opt (unwrapEnvelope recipientPriv kemDK (EphemeralPubkey msg)
                         (EncryptedMessageKey msg));
  open_raw messageKey (EncryptedBody msg) format encryptedMeta.

Definition RewrapMessageKeyHybrid (originalEnvelopeKey originalEncMsgKey senderPriv : bytes)
    (senderKEMDK : option bytes) (recipientPub : bytes) (recipientKEMEK : option bytes)
    : M (bytes * bytes) :=
  ak ← liftM (unwrapEnvelope senderPriv senderKEMDK originalEnvelopeKey originalEncMsgKey);
  wrapEnvelope recipientPub recipientKEMEK ak.

End messages.

(** * Theorems *)

Section laws.

Context `{Primitives} `{!PrimitiveLaws} `{Entropy} `{!EntropyLaws}.

Lemma sealed_nonempty key aad p c : sealed key aad p c -> c <> [].
Proof. intros Hs%sealed_length ->. cbn in Hs. lia. Qed.

Lemma open_subject_sealed key p c :
  sealed key (bs "subject") p c -> open_subject key c = Some p.
Proof.
  intros Hs. unfold open_subject. rewrite bool_decide_eq_false_2 by by eapply sealed_nonempty.
  by apply open_sealed_iff.
Qed.

(** A message whose slots are sealed under [mk], kept for [priv] and [dk]. *)
Definition message_for (priv : bytes) (dk : option bytes) (subject body : bytes)
    (headers : option bytes) (msg : EncryptedMessage) : Prop :=
  exists mk, unwrapEnvelope priv dk (EphemeralPubkey msg) (EncryptedMessageKey msg) = Some mk /\
    sealed mk (bs "body") body (EncryptedBody msg) /\
    sealed mk (bs "subject") subject (EncryptedSubject msg) /\
    match headers with
    | None => EncryptedHeaders msg = []
    | Some h => sealed mk (bs "headers") h (EncryptedHeaders msg)
    end.

Lemma EncryptMessageWithHeadersHybrid_spec priv dk ek subject body headers w msg w' :
  length priv = 32%nat -> public_kem dk ek ->
  EncryptMessageWithHeadersHybrid (x25519_base priv) ek subject body headers w = (Some msg, w') ->
  message_for priv dk subject body headers msg.
Proof.
  intros Hp Hk. unfold EncryptMessageWithHeadersHybrid, mbind, M_bind.
  destruct (secureKey 32 w) as [[mk|] w1] eqn:E1; [|done].
  destruct (wrapEnvelope (x25519_base priv) ek mk w1) as [[[ek' emk]|] w2] eqn:E2; [|done].
  apply (wrapEnvelope_spec _ _ _ _ _ _ _ Hp Hk) in E2. cbn [fst snd] in E2.
  destruct (sealXChaCha20 mk body _ w2) as [[cb|] w3] eqn:E3; [|done].
  destruct (sealXChaCha20 mk subject _ w3) as [[cs|] w4] eqn:E4; [|done].
  apply seal_sealed in E3, E4. destruct headers as [h|].
  - destruct (sealXChaCha20 mk h _ w4) as [[ch|] w5] eqn:E5; [|done].
    apply seal_sealed in E5. intros [= <- <-]. by exists mk.
  - intros [= <- <-]. by exists mk.
Qed.

Lemma message_for_opens priv dk subject body headers msg :
  message_for priv dk subject body headers msg ->
  DecryptMessageAuto priv dk msg = Some (subject, body) /\
  DecryptSubjectOnlyAuto priv dk (EphemeralPubkey msg) (EncryptedMessageKey msg)
    (EncryptedSubject msg) = Some subject /\
  DecryptHeadersAuto priv dk (EphemeralPubkey msg) (EncryptedMessageKey msg)
    (EncryptedHeaders msg) = headers.
Proof.
  intros (mk & Hu & Hb & Hs & Hh).
  unfold DecryptMessageAuto, DecryptSubjectOnlyAuto, DecryptHeadersAuto. rewrite Hu. cbn [mbind option_bind].
  rewrite (proj2 (open_sealed_iff _ _ _ _) Hb). cbn [mbind option_bind].
  rewrite (open_subject_sealed _ _ _ Hs), (proj2 (open_sealed_iff _ _ _ _) Hs).
  split_and!; [done..|].
  destruct headers as [h|].
  - rewrite bool_decide_eq_false_2 by by eapply sealed_nonempty. by apply open_sealed_iff.
  - by rewrite Hh.
Qed.

(** A message encrypted to a recipient's public keys, with or without
    ML-KEM and headers, is read back slot by slot with the private keys. *)
Theorem message_roundtrip priv dk ek subject body headers w msg w'
    (Hp : length priv = 32%nat) (Hk : public_kem dk ek)
    (He : EncryptMessageWithHeadersHybrid (x25519_base priv) ek subject body headers w
            = (Some msg, w')) :
  DecryptMessageAuto priv dk msg = Some (subject, body) /\
  DecryptSubjectOnlyAuto priv dk (EphemeralPubkey msg) (EncryptedMessageKey msg)
    (EncryptedSubject msg) = Some subject /\
  DecryptHeadersAuto priv dk (EphemeralPubkey msg) (EncryptedMessageKey msg)
    (EncryptedHeaders msg) = headers.
Proof. by eapply message_for_opens, EncryptMessageWithHeadersHybrid_spec. Qed.

(** The classical readers and writers are the hybrid ones without a KEM key. *)
Lemma read_key_unwrap priv dk ek emk :
  (dk = None \/ length ek = 32%nat) -> read_key priv ek emk = unwrapEnvelope priv dk ek emk.
Proof.
  intros Hc. unfold read_key, unwrapEnvelope, classicalEphKeySize, classicalUnwrap.
  destruct (Nat.eqb_spec (length ek) 32) as [|Hn]; [done|]. cbn [negb].
  destruct Hc as [->|]; [|done]. by destruct (_ && _).
Qed.

Lemma M_bind_assoc {A B C} (m : M A) (f : A -> M B) (g : B -> M C) w :
  ((m ≫= f) ≫= g) w = (m ≫= (fun a => f a ≫= g)) w.
Proof. unfold mbind, M_bind. by destruct (m w) as [[a|] w']. Qed.

Lemma M_bind_ext {A B} (m : M A) (f g : A -> M B) w :
  (forall a w', f a w' = g a w') -> (m ≫= f) w = (m ≫= g) w.
Proof. intros Hfg. unfold mbind, M_bind. destruct (m w) as [[a|] w']; [apply Hfg|done]. Qed.

(** Wrapping for no KEM key, followed by the rest of a function. *)
Lemma classical_then {B} pub mk (g : bytes * bytes -> M B) w :
  (wrapEnvelope pub None mk ≫= g) w =
  (ephemeral ← rand_Read 32;
   sharedSecret ← liftM (x25519 ephemeral pub);
   let ephPubBytes := x25519_base ephemeral in
   let derivedKey := deriveKey sharedSecret ephPubBytes "message-key-wrap" in
   encryptedMessageKey ← sealXChaCha20 derivedKey mk ephPubBytes;
   g (ephPubBytes, encryptedMessageKey)) w.
Proof.
  cbn [wrapEnvelope]. unfold classicalWrap.
  rewrite M_bind_assoc. apply M_bind_ext. intros eph w1.
  rewrite M_bind_assoc. apply M_bind_ext. intros ss w2. cbn zeta.
  rewrite M_bind_assoc. by apply M_bind_ext.
Qed.

(** Without a KEM key the hybrid functions are the classical ones, which
    the code writes out separately: same messages from the same random bytes,
    same answers on every input. *)
Theorem hybrid_without_kem_is_classical :
  (forall pub subject body headers w,
     EncryptMessageWithHeadersHybrid pub None subject body headers w =
     EncryptMessageWithHeaders pub subject body headers w) /\
  (forall pub subject body w,
     EncryptMessageHybrid pub None subject body w = EncryptMessage pub subject body w) /\
  (forall pub raw meta cs w,
     EncryptRawMessageWithMetaHybrid pub None raw meta cs w =
     EncryptRawMessageWithMeta pub raw meta cs w) /\
  (forall priv msg, DecryptMessageAuto priv None msg = DecryptMessage priv msg) /\
  (forall priv msg format meta,
     DecryptRawMessageAuto priv None msg format meta = DecryptRawMessage priv msg format meta) /\
  (forall priv ek emk c, DecryptHeadersAuto priv None ek emk c = DecryptHeaders priv ek emk c) /\
  (forall ek emk priv pub w,
     RewrapMessageKeyHybrid ek emk priv None pub None w = RewrapMessageKey ek emk priv pub w).
Proof.
  assert (forall priv ek emk, unwrapEnvelope priv None ek emk = read_key priv ek emk) as Hr.
  { intros. symmetry. apply read_key_unwrap. by left. }
  split_and!; intros.
  - apply M_bind_ext. intros mk w1. by rewrite classical_then.
  - apply M_bind_ext. intros mk w1. by rewrite classical_then.
  - apply M_bind_ext. intros mk w1. by rewrite classical_then.
  - unfold DecryptMessageAuto. by rewrite Hr.
  - unfold DecryptRawMessageAuto. by rewrite Hr.
  - unfold DecryptHeadersAuto. by rewrite Hr.
  - unfold RewrapMessageKeyHybrid. rewrite Hr. by apply M_bind_ext.
Qed.


Lemma open_raw_spec mk raw meta chunkSize c cm w w' :
  moderate (17 * length raw + 16) chunkSize -> - 2 ^ 63 <= chunkSize ->
  encrypt_raw_body mk raw chunkSize w = (Some c, w') -> sealed mk (bs "raw-meta") meta cm ->
  open_raw mk c (RawBlobFormatChunked chunkSize) cm = Done (raw, meta).
Proof.
  intros Hm Hlo Hb Hs. unfold open_raw. rewrite format_roundtrip by (destruct Hm; lia).
  assert ((if bool_decide (cm = []) then [] else default [] (openXChaCha20 mk cm (bs "raw-meta")))
    = meta) as ->.
  { rewrite bool_decide_eq_false_2 by by eapply sealed_nonempty.
    by rewrite (proj2 (open_sealed_iff _ _ _ _) Hs). }
  unfold encrypt_raw_body in Hb. destruct (0 <? chunkSize) eqn:Hc.
  - destruct (EncryptChunked mk raw chunkSize) as [c'| | |] eqn:Ee; try done.
    injection Hb as <- _. by rewrite (chunked_roundtrip _ _ _ _ Hm Ee).
  - apply seal_open in Hb. by rewrite Hb.
Qed.

Lemma raw_opens priv dk ek raw meta chunkSize w msg w' :
  length priv = 32%nat -> public_kem dk ek ->
  moderate (17 * length raw + 16) chunkSize -> - 2 ^ 63 <= chunkSize ->
  EncryptRawMessageWithMetaHybrid (x25519_base priv) ek raw meta chunkSize w = (Some msg, w') ->
  DecryptRawMessageAuto priv dk (Embedded msg) (RawBlobFormatChunked chunkSize)
    (EncryptedMeta msg) = Done (raw, meta) /\
  DecryptMetaOnlyAuto priv dk (EphemeralPubkey (Embedded msg))
    (EncryptedMessageKey (Embedded msg)) (EncryptedMeta msg) = Some meta.
Proof.
  intros Hp Hk Hm Hlo. unfold EncryptRawMessageWithMetaHybrid, mbind at 1, M_bind at 1.
  destruct (secureKey 32 w) as [[mk|] w1]; [|done]. unfold mbind at 1, M_bind at 1.
  destruct (wrapEnvelope (x25519_base priv) ek mk w1) as [[[ek' emk]|] w2] eqn:E2; [|done].
  apply (wrapEnvelope_spec _ _ _ _ _ _ _ Hp Hk) in E2. cbn [fst snd] in E2.
  unfold mbind at 1, M_bind at 1.
  destruct (encrypt_raw_body mk raw chunkSize w2) as [[cb|] w3] eqn:E3; [|done].
  unfold mbind at 1, M_bind at 1.
  destruct (sealXChaCha20 mk meta _ w3) as [[cm|] w4] eqn:E4; [|done].
  apply seal_sealed in E4. intros [= <- <-].
  unfold DecryptRawMessageAuto, DecryptMetaOnlyAuto. cbn [Embedded EncryptedMeta EphemeralPubkey
    EncryptedMessageKey EncryptedBody]. rewrite E2. cbn [of_opt mbind option_bind outcome_bind].
  rewrite (proj2 (open_sealed_iff _ _ _ _) E4). split; [by eapply open_raw_spec|done].
Qed.

(** A raw message and its metadata are read back with the format string
    that the program stores beside the blob, chunked or not. *)
Theorem raw_message_roundtrip priv dk ek raw meta chunkSize w msg w'
    (Hp : length priv = 32%nat) (Hk : public_kem dk ek)
    (Hm : moderate (17 * length raw + 16) chunkSize) (Hlo : - 2 ^ 63 <= chunkSize)
    (He : EncryptRawMessageWithMetaHybrid (x25519_base priv) ek raw meta chunkSize w
            = (Some msg, w')) :
  DecryptRawMessageAuto priv dk (Embedded msg) (RawBlobFormatChunked chunkSize)
    (EncryptedMeta msg) = Done (raw, meta) /\
  DecryptMetaOnlyAuto priv dk (EphemeralPubkey (Embedded msg))
    (EncryptedMessageKey (Embedded msg)) (EncryptedMeta msg) = Some meta.
Proof. by eapply raw_opens. Qed.

(** Re-wrapping an envelope gives a new recipient exactly the key that the
    sender holds, so what the sender reads in a slot the recipient reads too;
    it succeeds only for someone who can unwrap the original. *)
Theorem rewrap_keeps_message priv dk rpriv rdk rek ek emk w r w' msg
    (Hp : length rpriv = 32%nat) (Hk : public_kem rdk rek)
    (Hr : RewrapMessageKeyHybrid ek emk priv dk (x25519_base rpriv) rek w = (Some r, w'))
    (He : EphemeralPubkey msg = ek) (Hm : EncryptedMessageKey msg = emk) :
  is_Some (unwrapEnvelope priv dk ek emk) /\
  DecryptMessageAuto rpriv rdk
    (mkEncrypted r.1 r.2 (EncryptedBody msg) (EncryptedSubject msg) (EncryptedHeaders msg)) =
  DecryptMessageAuto priv dk msg.
Proof.
  revert Hr. unfold RewrapMessageKeyHybrid, mbind at 1, M_bind at 1, liftM.
  destruct (unwrapEnvelope priv dk ek emk) as [ak|] eqn:E1; [|done]. intros E2.
  apply (wrapEnvelope_spec _ _ _ _ _ _ _ Hp Hk) in E2. split; [by eexists|].
  unfold DecryptMessageAuto. cbn [EphemeralPubkey EncryptedMessageKey EncryptedBody EncryptedSubject].
  by rewrite E2, He, Hm, E1.
Qed.

(** A collision of the cipher: one ciphertext under one key and nonce for two
    different additional data. *)
Definition aad_collision : Prop :=
  exists k n p p' a a', a <> a' /\ aead_Seal k n p a = aead_Seal k n p' a'.

(** The slots of a message cannot be exchanged: a body presented as
    subject or headers, or a subject as body, is refused unless the cipher
    has a collision. *)
Theorem slots_not_interchangeable priv dk subject body headers msg
    (Hmsg : message_for priv dk subject body headers msg) :
  (forall x, DecryptSubjectOnlyAuto priv dk (EphemeralPubkey msg) (EncryptedMessageKey msg)
       (EncryptedBody msg) = Some x -> aad_collision) /\
  (forall x, DecryptHeadersAuto priv dk (EphemeralPubkey msg) (EncryptedMessageKey msg)
       (EncryptedBody msg) = Some x -> aad_collision) /\
  (forall x s h, DecryptMessageAuto priv dk (mkEncrypted (EphemeralPubkey msg) (EncryptedMessageKey msg)
       (EncryptedSubject msg) s h) = Some x -> aad_collision).
Proof.
  destruct Hmsg as (mk & Hu & (Hk & nb & Hnb & Hb) & (_ & ns & Hns & Hs) & _).
  assert (forall aad aad' p p' c, sealed mk aad p c -> sealed mk aad' p' c -> aad <> aad' ->
    aad_collision) as Hcol.
  { intros aad aad' p p' c (_ & n & Hn & ->) (_ & n' & Hn' & E) Hne.
    apply app_inj_field in E as [-> E]; [|congruence]. by exists mk, n', p, p', aad, aad'. }
  assert (sealed mk (bs "body") body (EncryptedBody msg)) as Sb by (split; eauto).
  assert (sealed mk (bs "subject") subject (EncryptedSubject msg)) as Ss by (split; eauto).
  split_and!.
  - intros x. unfold DecryptSubjectOnlyAuto. rewrite Hu. cbn [mbind option_bind].
    intros Ho%open_sealed_iff. apply (Hcol _ _ _ _ _ Sb Ho). done.
  - intros x. unfold DecryptHeadersAuto. rewrite bool_decide_eq_false_2 by by eapply sealed_nonempty.
    rewrite Hu. cbn [mbind option_bind]. intros Ho%open_sealed_iff. apply (Hcol _ _ _ _ _ Sb Ho). done.
  - intros x s h. unfold DecryptMessageAuto.
    cbn [EphemeralPubkey EncryptedMessageKey EncryptedBody EncryptedSubject]. rewrite Hu.
    cbn [mbind option_bind].
    destruct (openXChaCha20 mk (EncryptedSubject msg) (bs "body")) as [b|] eqn:Eo; [|done].
    apply open_sealed_iff in Eo. intros _. apply (Hcol _ _ _ _ _ Ss Eo). done.
Qed.

End laws.

(** * Witnesses *)

#[local] Existing Instances toy toy_laws toy_entropy toy_entropy_laws.

#[local] Definition demo_priv : bytes := toy_key 9.
#[local] Definition demo_dk : option bytes := Some (toy_seed 4).
#[local] Definition demo_ek : option bytes := demo_dk ≫= kem_public.
#[local] Definition no_message : EncryptedMessage := mkEncrypted [] [] [] [] [].

#[local] Definition demo_run : option EncryptedMessage * world :=
  EncryptMessageWithHeadersHybrid (x25519_base demo_priv) demo_ek (bs "hi") (bs "body text")
    (Some (bs "From: a")) toy_world.
#[local] Definition demo_msg : EncryptedMessage := default no_message (fst demo_run).

Lemma demo_run_eq : demo_run = (Some demo_msg, snd demo_run).
Proof. vm_compute. reflexivity. Qed.

Lemma demo_kem : public_kem demo_dk demo_ek.
Proof. vm_compute. reflexivity. Qed.

Lemma message_roundtrip_witness :
  DecryptMessageAuto demo_priv demo_dk demo_msg = Some (bs "hi", bs "body text").
Proof.
  destruct (message_roundtrip demo_priv demo_dk demo_ek
    (bs "hi") (bs "body text") (Some (bs "From: a")) toy_world demo_msg (snd demo_run) eq_refl demo_kem demo_run_eq)
    as (E & _ & _). exact E.
Defined.

#[local] Definition raw_run : option EncryptedRawMessage * world :=
  EncryptRawMessageWithMetaHybrid (x25519_base demo_priv) None (bs "raw mail text") (bs "{}") 4
    toy_world.
#[local] Definition raw_msg : EncryptedRawMessage :=
  default (mkRaw no_message []) (fst raw_run).

Lemma raw_run_eq : raw_run = (Some raw_msg, snd raw_run).
Proof. vm_compute. reflexivity. Qed.

Lemma raw_message_roundtrip_witness :
  DecryptRawMessageAuto demo_priv None (Embedded raw_msg) (bs "XChaCha20-Poly1305-Chunked(4)")
    (EncryptedMeta raw_msg) = Done (bs "raw mail text", bs "{}").
Proof.
  destruct (raw_message_roundtrip demo_priv None None (bs "raw mail text") (bs "{}") 4
    toy_world raw_msg (snd raw_run) eq_refl I ltac:(split; vm_compute; reflexivity) ltac:(vm_compute; discriminate) raw_run_eq)
    as [E _]. exact E.
Defined.

#[local] Definition rewrap_run : option (bytes * bytes) * world :=
  RewrapMessageKeyHybrid (EphemeralPubkey demo_msg) (EncryptedMessageKey demo_msg) demo_priv demo_dk
    (x25519_base (toy_key 2)) None toy_world.

Lemma rewrap_run_eq : rewrap_run = (Some (default ([], []) (fst rewrap_run)), snd rewrap_run).
Proof. vm_compute. reflexivity. Qed.

Lemma rewrap_keeps_message_witness :
  let r := default ([], []) (fst rewrap_run) in
  DecryptMessageAuto (toy_key 2) None
    (mkEncrypted r.1 r.2 (EncryptedBody demo_msg) (EncryptedSubject demo_msg)
       (EncryptedHeaders demo_msg)) = DecryptMessageAuto demo_priv demo_dk demo_msg.
Proof.
  exact (proj2 (rewrap_keeps_message demo_priv demo_dk (toy_key 2) None None
    (EphemeralPubkey demo_msg) (EncryptedMessageKey demo_msg) toy_world
    (default ([], []) (fst rewrap_run)) (snd rewrap_run) demo_msg eq_refl I rewrap_run_eq eq_refl eq_refl)).
Defined.

Lemma slots_not_interchangeable_witness :
  forall x, DecryptSubjectOnlyAuto demo_priv demo_dk (EphemeralPubkey demo_msg)
    (EncryptedMessageKey demo_msg) (EncryptedBody demo_msg) = Some x -> aad_collision.
Proof.
  exact (proj1 (slots_not_interchangeable demo_priv demo_dk (bs "hi") (bs "body text")
    (Some (bs "From: a")) demo_msg
    (EncryptMessageWithHeadersHybrid_spec demo_priv demo_dk demo_ek (bs "hi") (bs "body text") (Some (bs "From: a")) toy_world demo_msg (snd demo_run)
       eq_refl demo_kem demo_run_eq))).
Defined.
