(* ===== verification/Epoch.v ===== *)
(** Epoch keys: src/internal/crypto/epoch.go.

Each epoch's private key is kept encrypted under the next epoch's public
key; walking the chain backwards recovers them all.  Shown: a chain written
by the program is recovered whole; chains that are too deep or not
decreasing are refused; a link made for another user is refused for epochs
above the legacy cutoff, while at or below it a link bound to no user opens
for anyone who holds the key. *)

From stdpp Require Import gmap.
From S2P Require Import Prelude Binary Aead ToyCrypto Encrypt.
Local Open Scope Z_scope.

Record EpochKeyPair := { KeyEpoch : Z; Private : bytes; Public : bytes }.

Record EncryptedEpochKey := mkEpochKey {
  Epoch : Z;
  EphemeralPubkey : bytes;
  EncryptedPrivKey : bytes
}.

Definition MaxEpochChainDepth : nat := 100.
Definition LegacyAADMaxEpoch : Z := 1000.

(** The additional data of a link.  The variadic [userID] is the empty list
    when it is left out or empty. *)
Definition epochAAD (epoch : Z) : bytes := BE_PutUint64 epoch.

Definition linkAAD (epoch : Z) (userID : bytes) : bytes :=
  if bool_decide (userID = []) then epochAAD epoch
  else epochAAD epoch ++ length_prefixed userID.

Section epoch.

Context `{Primitives} `{Entropy}.

Definition GenerateEpochKey (epoch : Z) : M EpochKeyPair :=
  '(priv, pub) ← GenerateX25519KeyPair;
  mret {| KeyEpoch := epoch; Private := priv; Public := pub |}.

Definition EncryptPreviousEpochKey (prevPrivKey : bytes) (prevEpoch : Z) (newPubKey userID : bytes)
    : M EncryptedEpochKey :=
  '(ephPriv, ephPub) ← GenerateX25519KeyPair;
  sharedSecret ← liftM (x25519 ephPriv newPubKey);
  let derivedKey := deriveKey sharedSecret ephPub "epoch-key-wrap" in
  encrypted ← sealXChaCha20 derivedKey prevPrivKey (linkAAD prevEpoch userID);
  mret (mkEpochKey prevEpoch ephPub encrypted).

(** The formats tried in turn for a user. *)
Definition open_link (derivedKey : bytes) (enc : EncryptedEpochKey) (userID : bytes)
    : option bytes :=
  let e := epochAAD (Epoch enc) in
  let c := EncryptedPrivKey enc in
  if bool_decide (userID = []) then openXChaCha20 derivedKey c e
  else
    match openXChaCha20 derivedKey c (e ++ length_prefixed userID) with
    | Some k => Some k
    | None =>
        if LegacyAADMaxEpoch <? Epoch enc then None
        else match openXChaCha20 derivedKey c (e ++ userID) with
             | Some k => Some k
             | None => openXChaCha20 derivedKey c e
             end
    end.

Definition DecryptEpochKey (enc : EncryptedEpochKey) (currentPrivKey userID : bytes)
    : option bytes :=
  if negb (length (EphemeralPubkey enc) =? 32)%nat then None
  else
    ephemeralPub ← NewPublicKey (EphemeralPubkey enc);
    sharedSecret ← x25519 currentPrivKey ephemeralPub;
    let derivedKey := deriveKey sharedSecret (EphemeralPubkey enc) "epoch-key-wrap" in
    privKeyBytes ← open_link derivedKey enc userID;
    NewPrivateKey privKeyBytes.

(** Strictly decreasing epochs. *)
Fixpoint decreasing (chain : list EncryptedEpochKey) : bool :=
  match chain with
  | a :: ((b :: _) as rest) => (Epoch b <? Epoch a) && decreasing rest
  | _ => true
  end.

Fixpoint walk (chain : list EncryptedEpochKey) (privKey userID : bytes) (keys : gmap Z bytes)
    : option (gmap Z bytes) :=
  match chain with
  | [] => Some keys
  | enc :: chain =>
      decrypted ← DecryptEpochKey enc privKey userID;
      walk chain decrypted userID (<[Epoch enc := decrypted]> keys)
  end.

Definition TraverseEpochChain (chain : list EncryptedEpochKey) (currentPrivKey userID : bytes)
    : option (gmap Z bytes) :=
  if (MaxEpochChainDepth <? length chain)%nat then None
  else if negb (decreasing chain) then None
  else walk chain currentPrivKey userID ∅.

End epoch.

(** * Theorems *)

Section laws.

Context `{Primitives} `{!PrimitiveLaws} `{Entropy} `{!EntropyLaws}.

(** What a written link is. *)
Definition link (cur k : bytes) (e : Z) (userID : bytes) (enc : EncryptedEpochKey) : Prop :=
  Epoch enc = e /\ length (EphemeralPubkey enc) = 32%nat /\
  exists ss, x25519 cur (EphemeralPubkey enc) = Some ss /\
    sealed (deriveKey ss (EphemeralPubkey enc) "epoch-key-wrap") (linkAAD e userID) k
      (EncryptedPrivKey enc).

Lemma EncryptPreviousEpochKey_link cur k e userID w enc w' :
  length cur = 32%nat ->
  EncryptPreviousEpochKey k e (x25519_base cur) userID w = (Some enc, w') ->
  link cur k e userID enc.
Proof.
  intros Hc. unfold EncryptPreviousEpochKey, GenerateX25519KeyPair. rewrite M_bind_assoc.
  unfold mbind at 1, M_bind at 1.
  destruct (rand_Read 32 w) as [[eph|] w1] eqn:E1; [|done]. apply rand_Read_length in E1.
  unfold mbind, M_bind, mret, M_ret, liftM. rewrite (x25519_agrees eph cur E1 Hc).
  destruct (x25519 cur (x25519_base eph)) as [ss|] eqn:Es; [|done].
  destruct (sealXChaCha20 _ k _ w1) as [[c|] w2] eqn:Ec; [|done]. intros [= <- <-].
  split; [done|]. split; [apply x25519_base_length|]. exists ss. split; [done|].
  by eapply seal_sealed.
Qed.

Lemma open_link_new dk enc k userID :
  sealed dk (linkAAD (Epoch enc) userID) k (EncryptedPrivKey enc) -> open_link dk enc userID = Some k.
Proof.
  unfold open_link, linkAAD. case_bool_decide; intros Hs%open_sealed_iff; by rewrite Hs.
Qed.

Lemma DecryptEpochKey_link cur k e userID enc :
  link cur k e userID enc -> length k = 32%nat -> DecryptEpochKey enc cur userID = Some k.
Proof.
  intros (<- & Hl & ss & Hx & Hs) Hk. unfold DecryptEpochKey, NewPublicKey. rewrite Hl.
  cbn [negb Nat.eqb mbind option_bind]. rewrite Hx. cbn [mbind option_bind].
  rewrite (open_link_new _ _ _ _ Hs). cbn [mbind option_bind]. unfold NewPrivateKey. by rewrite Hk.
Qed.

(** A chain as rotation writes it: each key encrypted to the one before. *)
Inductive written (userID : bytes) :
    bytes -> list EncryptedEpochKey -> list (Z * bytes) -> Prop :=
| written_nil cur : written userID cur [] []
| written_cons cur k e w enc w' chain keys :
    length k = 32%nat ->
    EncryptPreviousEpochKey k e (x25519_base cur) userID w = (Some enc, w') ->
    written userID k chain keys ->
    written userID cur (enc :: chain) ((e, k) :: keys).

Lemma walk_written userID cur chain keys : forall m,
  length cur = 32%nat -> written userID cur chain keys ->
  walk chain cur userID m = Some (foldl (fun m x => <[x.1 := x.2]> m) m keys).
Proof.
  intros m Hc Hw. revert m Hc. induction Hw as [|cur k e w enc w' chain keys Hk He Hw IH]; intros m Hc;
    [done|].
  apply EncryptPreviousEpochKey_link in He as Hl; [|done].
  cbn [walk foldl]. rewrite (DecryptEpochKey_link _ _ _ _ _ Hl Hk). cbn [mbind option_bind].
  destruct Hl as [-> _]. by apply IH.
Qed.

Lemma written_epochs userID cur chain keys :
  length cur = 32%nat -> written userID cur chain keys -> Epoch <$> chain = keys.*1.
Proof.
  intros Hc Hw. induction Hw as [|cur k e w enc w' chain keys Hk He Hw IH]; [done|].
  apply EncryptPreviousEpochKey_link in He as [He _]; [|done]. cbn. by rewrite He, IH.
Qed.

Lemma decreasing_iff chain :
  decreasing chain = true <->
  forall i a b, (Epoch <$> chain) !! i = Some a -> (Epoch <$> chain) !! S i = Some b -> b < a.
Proof.
  induction chain as [|x [|y chain] IH].
  - split; [by intros|done].
  - split; [by intros _ [|i] a b|done].
  - change (decreasing (x :: y :: chain)) with ((Epoch y <? Epoch x) && decreasing (y :: chain)).
    rewrite andb_true_iff, Z.ltb_lt, IH. split.
    + intros [Hxy Hr] [|i] a b; cbn; [by intros [= <-] [= <-]|]. apply (Hr i).
    + intros Hr. split; [by apply (Hr 0%nat)|]. intros i a b. apply (Hr (S i)).
Qed.

(** C16. A chain of at most a hundred epoch keys with decreasing epochs, as key
    rotation writes it for a user, is recovered whole from the newest key. *)
Theorem epoch_chain_recovered userID cur chain keys
    (Hc : length cur = 32%nat) (Hw : written userID cur chain keys)
    (Hlen : (length keys <= 100)%nat)
    (Hdec : forall i a b, keys.*1 !! i = Some a -> keys.*1 !! S i = Some b -> b < a) :
  TraverseEpochChain chain cur userID =
    Some (foldl (fun m x => <[x.1 := x.2]> m) ∅ keys).
Proof.
  pose proof (written_epochs _ _ _ _ Hc Hw) as He.
  unfold TraverseEpochChain, MaxEpochChainDepth.
  assert (length chain = length keys) as Hl by (apply (f_equal length) in He; by rewrite !length_fmap in He).
  rewrite (proj2 (Nat.ltb_ge _ _)) by lia.
  rewrite (proj2 (decreasing_iff chain)) by by rewrite He. cbn [negb].
  by apply walk_written.
Qed.

(** Each link opens with the key before it. *)
Fixpoint opens (userID cur : bytes) (chain : list EncryptedEpochKey) (ks : list bytes) : Prop :=
  match chain, ks with
  | [], [] => True
  | enc :: chain, k :: ks => DecryptEpochKey enc cur userID = Some k /\ opens userID k chain ks
  | _, _ => False
  end.

Lemma walk_iff userID chain keys : forall cur m,
  walk chain cur userID m = Some keys <->
  exists ks, opens userID cur chain ks /\
    keys = foldl (fun m x => <[x.1 := x.2]> m) m (zip (Epoch <$> chain) ks).
Proof.
  induction chain as [|enc chain IH]; intros cur m; cbn [walk].
  - split; [intros [= <-]; by exists []|]. by intros ([|] & ? & ->).
  - split.
    + destruct (DecryptEpochKey enc cur userID) as [k|] eqn:Ek; [|done]. cbn [mbind option_bind].
      intros (ks & Ho & ->)%IH. by exists (k :: ks).
    + intros ([|k ks] & Ho & ->); [done|]. destruct Ho as [-> Ho]. cbn [mbind option_bind].
      apply IH. by exists ks.
Qed.

(** A chain is walked exactly if it has at most a hundred links, its
    epochs strictly decrease and every link opens with the key of the link
    before; the answer then holds those keys under their epochs. *)
Theorem TraverseEpochChain_accepts_iff chain cur userID keys :
  TraverseEpochChain chain cur userID = Some keys <->
  (length chain <= 100)%nat /\
  (forall i a b, (Epoch <$> chain) !! i = Some a -> (Epoch <$> chain) !! S i = Some b -> b < a) /\
  exists ks, opens userID cur chain ks /\
    keys = foldl (fun m x => <[x.1 := x.2]> m) ∅ (zip (Epoch <$> chain) ks).
Proof.
  unfold TraverseEpochChain, MaxEpochChainDepth.
  destruct (Nat.ltb_spec 100 (length chain)) as [|Hl]; [split; [done|lia]|].
  rewrite <-walk_iff. destruct (decreasing chain) eqn:Hd; cbn [negb].
  - rewrite decreasing_iff in Hd. tauto.
  - split; [done|]. intros (_ & Hr & _). apply decreasing_iff in Hr. congruence.
Qed.

(** Above the legacy cutoff a link made for one user is refused for
    another, unless the cipher has a collision. *)
Theorem cross_user_link_refused cur k e owner other enc k'
    (Hl : link cur k e owner enc) (Hcut : LegacyAADMaxEpoch < e)
    (Ho : fits32 owner) (Hu : fits32 other) (Hne : owner <> other) (Hn : other <> [])
    (Hd : DecryptEpochKey enc cur other = Some k') :
  aad_collision.
Proof.
  destruct Hl as (He & Hlen & ss & Hx & Hs). revert Hd.
  unfold DecryptEpochKey, NewPublicKey. rewrite Hlen. cbn [negb Nat.eqb mbind option_bind].
  rewrite Hx. cbn [mbind option_bind]. unfold open_link.
  rewrite (bool_decide_eq_false_2 (other = [])) by done.
  destruct (openXChaCha20 _ _ _) as [p|] eqn:Eo.
  - intros _. apply open_sealed_iff in Eo. destruct Hs as (Hk & n & Hn1 & E1).
    destruct Eo as (_ & n' & Hn2 & E2). rewrite E1 in E2.
    apply app_inj_field in E2 as [-> E2]; [|congruence].
    exists (deriveKey ss (EphemeralPubkey enc) "epoch-key-wrap"), n', k, p,
      (linkAAD e owner), (epochAAD (Epoch enc) ++ length_prefixed other).
    split; [|done]. rewrite He. unfold linkAAD. case_bool_decide as Hown.
    + intros E3%(f_equal length). rewrite length_app in E3. unfold length_prefixed in E3.
      rewrite length_app, length_BE_PutUint32 in E3. lia.
    + intros [_ E3]%app_inj_field; [|done]. apply Hne.
      apply (length_prefixed_inj owner other [] []); [done..|by rewrite !app_nil_r].
  - rewrite He. by rewrite (proj2 (Z.ltb_lt _ _)).
Qed.

(** At or below the cutoff a link bound to no user opens for every user. *)
Lemma legacy_link_unbound cur k e userID enc :
  link cur k e [] enc -> length k = 32%nat -> e <= LegacyAADMaxEpoch ->
  DecryptEpochKey enc cur userID = Some k \/ aad_collision.
Proof.
  intros Hl Hk He. destruct (decide (userID = [])) as [->|Hn];
    [left; by eapply DecryptEpochKey_link|].
  destruct Hl as (<- & Hlen & ss & Hx & Hs). unfold DecryptEpochKey, NewPublicKey. rewrite Hlen.
  cbn [negb Nat.eqb mbind option_bind]. rewrite Hx. cbn [mbind option_bind]. unfold open_link.
  rewrite (bool_decide_eq_false_2 (userID = [])) by done.
  rewrite (proj2 (Z.ltb_ge _ _)) by lia.
  assert (forall x p, x <> [] ->
    openXChaCha20 (deriveKey ss (EphemeralPubkey enc) "epoch-key-wrap") (EncryptedPrivKey enc)
      (epochAAD (Epoch enc) ++ x) = Some p -> aad_collision) as Hcol.
  { intros x p Hx0 (_ & n' & Hn2 & E2)%open_sealed_iff. destruct Hs as (_ & n & Hn1 & E1).
    rewrite E1 in E2. apply app_inj_field in E2 as [-> E2]; [|congruence].
    eexists _, n', k, p, (linkAAD (Epoch enc) []), (epochAAD (Epoch enc) ++ x). split; [|done].
    unfold linkAAD. cbn. intros E3%(f_equal length). rewrite length_app in E3.
    destruct x; [done|]. cbn in E3. lia. }
  destruct (openXChaCha20 _ _ (_ ++ length_prefixed userID)) as [p|] eqn:E1.
  { right. eapply Hcol; [|exact E1]. unfold length_prefixed. by destruct userID. }
  destruct (openXChaCha20 _ _ (_ ++ userID)) as [p|] eqn:E2; [right; by eapply Hcol|].
  left. apply open_sealed_iff in Hs. unfold linkAAD in Hs. cbn in Hs. rewrite Hs. cbn.
  unfold NewPrivateKey. by rewrite Hk.
Qed.

End laws.

(** * Witnesses *)

#[local] Existing Instances toy toy_laws toy_entropy toy_entropy_laws.

#[local] Definition no_link : EncryptedEpochKey := mkEpochKey 0 [] [].
#[local] Definition demo_link_run (cur k : bytes) (e : Z) (uid : bytes)
    : option EncryptedEpochKey * world :=
  EncryptPreviousEpochKey k e (x25519_base cur) uid toy_world.
#[local] Definition demo_link (cur k : bytes) (e : Z) (uid : bytes) : EncryptedEpochKey :=
  default no_link (fst (demo_link_run cur k e uid)).

#[local] Definition demo_chain : list EncryptedEpochKey :=
  [demo_link (toy_key 30) (toy_key 20) 2 (bs "alice");
   demo_link (toy_key 20) (toy_key 10) 1 (bs "alice")].
#[local] Definition demo_keys : list (Z * bytes) := [(2, toy_key 20); (1, toy_key 10)].

Lemma demo_written : written (bs "alice") (toy_key 30) demo_chain demo_keys.
Proof.
  apply (written_cons _ _ _ _ toy_world _
    (snd (demo_link_run (toy_key 30) (toy_key 20) 2 (bs "alice"))));
    [reflexivity|vm_compute; reflexivity|].
  apply (written_cons _ _ _ _ toy_world _
    (snd (demo_link_run (toy_key 20) (toy_key 10) 1 (bs "alice"))));
    [reflexivity|vm_compute; reflexivity|constructor].
Qed.

Lemma epoch_chain_recovered_witness :
  TraverseEpochChain demo_chain (toy_key 30) (bs "alice") =
    Some (<[1 := toy_key 10]> (<[2 := toy_key 20]> ∅)).
Proof.
  apply (epoch_chain_recovered (bs "alice") (toy_key 30) demo_chain demo_keys eq_refl demo_written).
  - cbn. lia.
  - intros [|[|i]] a b; cbn; [by intros [= <-] [= <-]|done..].
Defined.

(** The toy cipher has collisions: "ad" and "ba" are one of them. *)
Lemma cross_user_link_refused_witness : aad_collision.
Proof.
  apply (cross_user_link_refused (toy_key 30) (toy_key 20) 2000 (bs "ad") (bs "ba")
    (demo_link (toy_key 30) (toy_key 20) 2000 (bs "ad")) (toy_key 20)).
  - apply (EncryptPreviousEpochKey_link _ _ _ _ toy_world _
      (snd (demo_link_run (toy_key 30) (toy_key 20) 2000 (bs "ad")))); vm_compute; reflexivity.
  - reflexivity.
  - reflexivity.
  - reflexivity.
  - discriminate.
  - discriminate.
  - vm_compute. reflexivity.
Defined.
