(* ===== verification/Receipt.v ===== *)
(** Enclave receipts: src/internal/crypto/receipt.go.

Shown: the signed text determines every field of a receipt but the
fraction of the second, so no other receipt carries the same signature;
what is signed verifies; a malformed key, signature or the all-zero key is
refused; sender hashes of one day and process agree exactly on equal
addresses. *)

From S2P Require Import Prelude Binary Aead.
Local Open Scope Z_scope.

(** A [time.Time] by its Unix seconds and nanoseconds, a float64 by its bits. *)
Record EnclaveReceipt := mkReceipt {
  MessageHash : bytes;
  CiphertextHash : bytes;
  SenderHash : bytes;
  SigningPublicKey : bytes;
  Timestamp : Z * Z;
  EnclaveID : bytes;
  TLSVerified : bool;
  SPFResult : bytes;
  DKIMResult : bytes;
  DMARCResult : bytes;
  SpamScore : Z;
  FolderAssignment : bytes;
  Signature : bytes
}.

Definition appendLengthPrefixed (buf data : bytes) : bytes := buf ++ length_prefixed data.

Definition receiptSigningPayload (r : EnclaveReceipt) : bytes :=
  let buf := [x01] in
  let buf := buf ++ MessageHash r in
  let buf := buf ++ CiphertextHash r in
  let buf := buf ++ SenderHash r in
  let buf := buf ++ SigningPublicKey r in
  let buf := buf ++ BE_PutUint64 (fst (Timestamp r)) in
  let buf := appendLengthPrefixed buf (EnclaveID r) in
  let buf := buf ++ [if TLSVerified r then x01 else x00] in
  let buf := appendLengthPrefixed buf (SPFResult r) in
  let buf := appendLengthPrefixed buf (DKIMResult r) in
  let buf := appendLengthPrefixed buf (DMARCResult r) in
  let buf := buf ++ BE_PutUint64 (SpamScore r) in
  appendLengthPrefixed buf (FolderAssignment r).

Section sign.

(** [crypto/ed25519], keys by their bytes. *)
Context (ed25519_Sign : bytes -> bytes -> bytes).
Context (ed25519_Verify : bytes -> bytes -> bytes -> bool).

Definition with_signature (r : EnclaveReceipt) (sig : bytes) : EnclaveReceipt :=
  mkReceipt (MessageHash r) (CiphertextHash r) (SenderHash r) (SigningPublicKey r) (Timestamp r)
    (EnclaveID r) (TLSVerified r) (SPFResult r) (DKIMResult r) (DMARCResult r) (SpamScore r)
    (FolderAssignment r) sig.

(** The signature, and the receipt with its field set. *)
Definition SignReceipt (receipt : EnclaveReceipt) (privKey : bytes)
    : option bytes * EnclaveReceipt :=
  if negb (length privKey =? 64)%nat then (None, receipt)
  else
    let sig := ed25519_Sign privKey (receiptSigningPayload receipt) in
    (Some sig, with_signature receipt sig).

(** [None] is an error. *)
Definition VerifyReceipt (receipt : EnclaveReceipt) (pubKey : bytes) : option bool :=
  if negb (length pubKey =? 32)%nat then None
  else if all_zero pubKey then None
  else if negb (length (Signature receipt) =? 64)%nat then None
  else Some (ed25519_Verify pubKey (receiptSigningPayload receipt) (Signature receipt)).

(** * Sender hashes *)

Context (sha256 : bytes -> bytes).
(** [fmt.Sprintf("sender-hash-salt:%d:%d", year, day)] *)
Context (salt_text : Z -> Z -> bytes).

(** The package's variables; [once] is whether [senderSecretOnce] has run. *)
Record hasher := mkHasher {
  senderSalt : option bytes;
  senderSaltDay : Z;
  senderSecretKey : option bytes;
  once : bool
}.

Definition InitSenderSecret (secret : bytes) (h : hasher) : hasher :=
  mkHasher None (senderSaltDay h) (Some secret) true.

(** [None] is the panic.  [year] and [today] are the UTC date; [production] is
    whether VP_ENV says so. *)
Definition HashSender (production : bool) (year today : Z) (addr : bytes) (h : hasher)
    : option (bytes * hasher) :=
  h ← (if once h then Some h
       else match senderSecretKey h with
            | Some _ => Some (mkHasher (senderSalt h) (senderSaltDay h) (senderSecretKey h) true)
            | None =>
                if production then None
                else Some (mkHasher (senderSalt h) (senderSaltDay h) (Some (replicate 32 x00)) true)
            end);
  let h :=
    match senderSalt h with
    | Some _ =>
        if today =? senderSaltDay h then h
        else mkHasher (Some (sha256 (default [] (senderSecretKey h) ++ salt_text year today))) today
               (senderSecretKey h) (once h)
    | None => mkHasher (Some (sha256 (default [] (senderSecretKey h) ++ salt_text year today))) today
                (senderSecretKey h) (once h)
    end in
  Some (sha256 (default [] (senderSalt h) ++ addr), h).

(** * Theorems *)

(** Receipts as the program builds them: 32-byte arrays, texts below 4 GiB,
    64-bit seconds and score. *)
Definition receipt_wf (r : EnclaveReceipt) : Prop :=
  length (MessageHash r) = 32%nat /\ length (CiphertextHash r) = 32%nat /\
  length (SenderHash r) = 32%nat /\ length (SigningPublicKey r) = 32%nat /\
  - 2 ^ 63 <= fst (Timestamp r) < 2 ^ 63 /\ 0 <= SpamScore r < 2 ^ 64 /\
  fits32 (EnclaveID r) /\ fits32 (SPFResult r) /\ fits32 (DKIMResult r) /\
  fits32 (DMARCResult r) /\ fits32 (FolderAssignment r).

Lemma u64_inj_signed x y :
  - 2 ^ 63 <= x < 2 ^ 63 -> - 2 ^ 63 <= y < 2 ^ 63 -> u64 x = u64 y -> x = y.
Proof.
  intros Hx Hy E. unfold u64 in E.
  pose proof (Z.div_mod x (2 ^ 64) ltac:(lia)). pose proof (Z.div_mod y (2 ^ 64) ltac:(lia)). nia.
Qed.

(** Two receipts with the same signed text agree in every field but the
    signature and the fraction of the second, which is not signed. *)
Theorem receipt_payload_binds r s (Hr : receipt_wf r) (Hs : receipt_wf s)
    (E : receiptSigningPayload r = receiptSigningPayload s) :
  exists nanos, s = with_signature
    (mkReceipt (MessageHash r) (CiphertextHash r) (SenderHash r) (SigningPublicKey r)
       (fst (Timestamp r), nanos) (EnclaveID r) (TLSVerified r) (SPFResult r) (DKIMResult r)
       (DMARCResult r) (SpamScore r) (FolderAssignment r) (Signature r)) (Signature s).
Proof.
  destruct Hr as (R1 & R2 & R3 & R4 & R5 & R6 & R7 & R8 & R9 & R10 & R11).
  destruct Hs as (S1 & S2 & S3 & S4 & S5 & S6 & S7 & S8 & S9 & S10 & S11).
  unfold receiptSigningPayload, appendLengthPrefixed in E. rewrite <-!app_assoc in E.
  apply app_inj_field in E as [_ E]; [|done].
  apply app_inj_field in E as [E1 E]; [|congruence].
  apply app_inj_field in E as [E2 E]; [|congruence].
  apply app_inj_field in E as [E3 E]; [|congruence].
  apply app_inj_field in E as [E4 E]; [|congruence].
  apply app_inj_field in E as [E5 E]; [|by rewrite !length_BE_PutUint64].
  apply length_prefixed_inj in E as [E6 E]; [|done..].
  apply app_inj_field in E as [E7 E]; [|done].
  apply length_prefixed_inj in E as [E8 E]; [|done..].
  apply length_prefixed_inj in E as [E9 E]; [|done..].
  apply length_prefixed_inj in E as [E10 E]; [|done..].
  apply app_inj_field in E as [E11 E]; [|by rewrite !length_BE_PutUint64].
  rewrite <-(app_nil_r (length_prefixed (FolderAssignment r))),
    <-(app_nil_r (length_prefixed (FolderAssignment s))) in E.
  apply length_prefixed_inj in E as [E12 _]; [|done..].
  apply BE_PutUint64_inj, u64_inj_signed in E5; [|done..].
  apply BE_PutUint64_inj in E11. rewrite !u64_small in E11 by done.
  assert (TLSVerified r = TLSVerified s) as E7' by (by destruct (TLSVerified r), (TLSVerified s)).
  exists (snd (Timestamp s)). destruct s as [? ? ? ? [sec nanos] ? ? ? ? ? ? ? ?].
  cbn in *. unfold with_signature. cbn. congruence.
Qed.

(** A receipt signed with the private key of a non-zero public key
    verifies; verification answers only for a 32-byte non-zero key and a
    64-byte signature, and says what Ed25519 says of the signed text. *)
Theorem VerifyReceipt_spec priv pub r
    (Hkey : forall m, ed25519_Verify pub m (ed25519_Sign priv m) = true)
    (Hlen : forall m, length (ed25519_Sign priv m) = 64%nat)
    (Hpriv : length priv = 64%nat) (Hpub : length pub = 32%nat) (Hz : all_zero pub = false) :
  VerifyReceipt (snd (SignReceipt r priv)) pub = Some true /\
  forall r pub b, VerifyReceipt r pub = Some b <->
    length pub = 32%nat /\ all_zero pub = false /\ length (Signature r) = 64%nat /\
    b = ed25519_Verify pub (receiptSigningPayload r) (Signature r).
Proof.
  split.
  - unfold SignReceipt, VerifyReceipt. rewrite Hpriv, Hpub, Hz. cbn. by rewrite Hlen, Hkey.
  - clear. intros r pub b. unfold VerifyReceipt.
    destruct (Nat.eqb_spec (length pub) 32); cbn [negb]; [|naive_solver].
    destruct (all_zero pub); [naive_solver|].
    destruct (Nat.eqb_spec (length (Signature r)) 64); cbn [negb]; naive_solver.
Qed.

(** In production nothing is hashed before the secret is set, and the first
    hash of a day is under the secret, the year and the day. *)
Lemma HashSender_fresh production year today addr secret h :
  HashSender production year today addr (InitSenderSecret secret h) =
    Some (sha256 (sha256 (secret ++ salt_text year today) ++ addr),
          mkHasher (Some (sha256 (secret ++ salt_text year today))) today (Some secret) true).
Proof. done. Qed.

Lemma HashSender_unset year today addr salt day :
  HashSender true year today addr (mkHasher salt day None false) = None.
Proof. done. Qed.

(** The cached salt is keyed by the day of the year alone: a process that
    hashes nothing for a year goes on with last year's salt. *)
Lemma HashSender_other_year production year year' today addr addr' h d h1 :
  HashSender production year today addr h = Some (d, h1) ->
  HashSender production year' today addr' h1 =
    Some (sha256 (default [] (senderSalt h1) ++ addr'), h1).
Proof.
  unfold HashSender at 1. intros E.
  assert (once h1 = true /\ is_Some (senderSalt h1) /\ senderSaltDay h1 = today) as (H1 & [s H2] & H3).
  { destruct (once h) eqn:Eo; [|destruct (senderSecretKey h); [|destruct production; [done|]]];
      cbn [mbind option_bind senderSalt senderSaltDay] in E;
      destruct (senderSalt h) eqn:Es; try destruct (Z.eqb_spec today (senderSaltDay h));
      cbn in E; injection E as _ <-; cbn; rewrite ?Eo, ?Es; split_and!; try done; try by eexists. }
  unfold HashSender. rewrite H1. cbn. rewrite H2. by rewrite H3, Z.eqb_refl, H2.
Qed.

End sign.

(** * Witnesses *)

#[local] Definition demo_receipt (nanos : Z) : EnclaveReceipt :=
  mkReceipt (replicate 32 x01) (replicate 32 x02) (replicate 32 x03) (replicate 32 x04)
    (1700000000, nanos) (bs "mre") true (bs "pass") (bs "none") (bs "fail") 0 (bs "inbox") [].

#[local] Definition demo_sign (priv m : bytes) : bytes := take 64 (priv ++ m).
#[local] Definition demo_verify (pub m sig : bytes) : bool :=
  bool_decide (sig = take 64 (replicate 64 x07)).

Lemma demo_receipt_wf nanos : receipt_wf (demo_receipt nanos).
Proof. unfold receipt_wf, fits32. cbn. split_and!; lia. Qed.

(** The same second, another fraction: one signed text. *)
Lemma receipt_payload_binds_witness :
  exists nanos, demo_receipt 999 = with_signature (demo_receipt nanos) [].
Proof.
  destruct (receipt_payload_binds (demo_receipt 5) (demo_receipt 999) (demo_receipt_wf 5)
    (demo_receipt_wf 999) eq_refl) as [nanos E]. exists nanos. exact E.
Defined.

Lemma VerifyReceipt_spec_witness :
  VerifyReceipt demo_verify (snd (SignReceipt demo_sign (demo_receipt 5) (replicate 64 x07)))
    (replicate 32 x07) = Some true.
Proof.
  exact (proj1 (VerifyReceipt_spec demo_sign demo_verify (replicate 64 x07) (replicate 32 x07)
    (demo_receipt 5) (fun m => eq_refl) (fun m => eq_refl) eq_refl eq_refl eq_refl)).
Defined.
