(* ===== verification/Outbound.v ===== *)
(** The outbound worker: the queue handler, bounces and the DKIM key endpoint of
    src/cmd/smtp-outbound/main.go.

[handle] takes one queue message through download, composition, delivery and
what follows; it always acknowledges, so its result is the next state and the
retry it has scheduled, or [None] for a run-time panic.  Each call has an
environment [Env] (network, clock, failures of the stores); the JSON codec and
the user and attachment queries are parameters. *)

From stdpp Require Import gmap pretty relations.
From S2P Require Import Prelude SysFS GoNet FilePath GoStrings RateLimit Domain MailParse Pgp Calendar Sender.
From S2P Require Import Binary Aead ToyCrypto Envelope Encrypt Compose Blobs.
Local Open Scope Z_scope.

Definition maxAttempts : Z := 3.

(** verifyMessage of internal/queue/nats.go, in seconds. *)
Definition maxMessageAge : Z := 60.
Definition maxClockSkew : Z := 30.

Definition tmpBlobsTerminal (sendErr : sent) (attempt : Z) : bool :=
  match sendErr with
  | Ok _ => true
  | Err (ErrPermanent _) => true
  | Err _ => maxAttempts <=? attempt + 1
  end.

(** Seconds before attempt number [attempt], counted from 0: 30·4^(attempt-1),
    cut to an integer, at most five minutes. *)
Definition backoff (attempt : Z) : Z :=
  let s := if 1 <=? attempt then 30 * 4 ^ (attempt - 1) else 30 / 4 ^ (1 - attempt) in
  Z.min s 300.

(** * State *)

Record account_row := mkRow { recent_bounces : Z; account_status : bytes }.

Record BounceEvent := mkEvent {
  ev_UserID : bytes; ev_TenantID : bytes; Recipient : bytes; SMTPCode : bytes; SMTPMessage : bytes; BounceType : bytes
}.

Record User := mkUser { UserID : bytes; TenantID : bytes; PublicKeyEncryption : bytes; PublicKeyKEM : bytes }.

(** The message of a bounce on mail.inbound. *)
Record bounce_notice := mkNotice {
  bn_from : bytes; bn_to : bytes; bn_tenant : bytes; bn_user : bytes;
  bn_message : EncryptedMessage;
  bn_message_id : bytes; bn_in_reply_to : bytes
}.

Inductive published :=
| RetryPayload (subject payload : bytes)
| Notice (subject : bytes) (n : bounce_notice).

Record state := mkState {
  blobs : option BlobStore;                    (* h.blobStore *)
  limiter : Bounce.bounceRateLimiter;
  accounts : gmap bytes account_row;
  bounceEvents : option (list BounceEvent);    (* h.bounceEventStore *)
  stsCache : cache;
  draws : world;
  sends : list sent;                           (* the results of SendMessage so far *)
  queue : list published
}.

Definition with_blobs (b : option BlobStore) (st : state) : state :=
  mkState b (limiter st) (accounts st) (bounceEvents st) (stsCache st) (draws st) (sends st) (queue st).
Definition with_limiter (l : Bounce.bounceRateLimiter) (st : state) : state :=
  mkState (blobs st) l (accounts st) (bounceEvents st) (stsCache st) (draws st) (sends st) (queue st).
Definition with_accounts (a : gmap bytes account_row) (st : state) : state :=
  mkState (blobs st) (limiter st) a (bounceEvents st) (stsCache st) (draws st) (sends st) (queue st).
Definition with_events (e : option (list BounceEvent)) (st : state) : state :=
  mkState (blobs st) (limiter st) (accounts st) e (stsCache st) (draws st) (sends st) (queue st).
Definition with_draws (d : world) (st : state) : state :=
  mkState (blobs st) (limiter st) (accounts st) (bounceEvents st) (stsCache st) d (sends st) (queue st).
Definition after_send (r : sent) (c : cache) (st : state) : state :=
  mkState (blobs st) (limiter st) (accounts st) (bounceEvents st) c (draws st) (sends st ++ [r]) (queue st).
Definition publish (p : published) (st : state) : state :=
  mkState (blobs st) (limiter st) (accounts st) (bounceEvents st) (stsCache st) (draws st) (sends st) (queue st ++ [p]).

(** What one call meets. *)
Record Env := mkEnv {
  net : Net;
  moment : Moment;
  clock : Z;                                   (* for the bounce limiter *)
  remote_words : bytes;                        (* the message of a permanent error *)
  error_words : bytes;                         (* any other error's text *)
  increment_ok : bool; freeze_ok : bool; event_ok : bool; publish_ok : bool
}.

Definition error_text (E : Env) (e : send_error) : bytes :=
  match e with ErrPermanent code => permanent_text code (remote_words E) | _ => error_words E end.

Definition BounceFreezeThreshold : Z := 3.

(** The two updates of the users table. *)
Definition IncrementBounces (user : bytes) (rows : gmap bytes account_row) : option (Z * gmap bytes account_row) :=
  r ← rows !! user;
  let r := mkRow (recent_bounces r + 1) (account_status r) in
  Some (recent_bounces r, <[user := r]> rows).

Definition FreezeForAbuse (user : bytes) (rows : gmap bytes account_row) : gmap bytes account_row :=
  alter (fun r => if bool_decide (account_status r = bs "active") then mkRow (recent_bounces r) (bs "suspended") else r)
    user rows.

(** [(s *BounceEventStore) Insert] *)
Definition insert_event (ok : bool) (ev : BounceEvent) (store : list BounceEvent) : list BounceEvent :=
  let ev := if bool_decide (BounceType ev = [])
            then mkEvent (ev_UserID ev) (ev_TenantID ev) (Recipient ev) (SMTPCode ev) (SMTPMessage ev) (bs "permanent")
            else ev in
  if ok then store ++ [ev] else store.

Section outbound.
Context `{Primitives} `{Entropy} `{UUIDs}.

(** The sender's libraries, see Sender.v. *)
Context {RSAKey EdKey : Type} (sha256 : bytes -> bytes).
Context (ParsePKCS8 : bytes -> option (option RSAKey)) (NewKeyFromSeed FullKey : bytes -> EdKey).
Context (SignMessageRSA : RSAKey -> bytes -> bytes -> bytes -> option bytes).
Context (SignMessage : EdKey -> bytes -> bytes -> bytes -> option bytes).
Context (sender : SMTPSender) (GetTenant : bytes -> option Tenant).

(** Text libraries, JSON, and the queries; an attachment row is its blob key,
    file name and content type. *)
Context (L : Compose.Libs).
Context (Unmarshal : bytes -> option OutboundMessage) (Marshal : OutboundMessage -> bytes).
Context (GetUserByAddress : bytes -> option User).
Context (GetAttachment : option (bytes -> bytes -> bytes -> option (bytes * bytes * bytes))).
(** The broker's wait for an acknowledgement, in seconds: a setting of the server. *)
Context (AckWait : Z).

Definition send (E : Env) (st : state) (from to body tenantID : bytes) : sent * state :=
  let '(r, _, c) := SendMessage sha256 ParsePKCS8 NewKeyFromSeed FullKey SignMessageRSA SignMessage
                      sender (net E) GetTenant from to body tenantID (stsCache st) in
  (r, after_send r c st).

(** * Bounces *)

Definition bounce_subject (originalTo : bytes) : bytes := bs "Undelivered: message to " ++ originalTo.

Definition bounce_body (originalTo reason : bytes) (permanent : bool) : bytes :=
  let status := if permanent then bs "could not be delivered"
                else bs "could not be delivered after multiple attempts" in
  let detail := if permanent then bs "This is a permanent error. The message will not be retried."
                else bs "The server has exhausted all retry attempts." in
  bs "<div style=" ++ dq ++
  bs "font-family: -apple-system, BlinkMacSystemFont, 'Segoe UI', Roboto, sans-serif; max-width: 600px; line-height: 1.6;" ++
  dq ++ bs ">" ++ [x0a] ++
  bs "<p>Your message to <strong>" ++ originalTo ++ bs "</strong> " ++ status ++ bs ".</p>" ++ [x0a] ++
  bs "<p>" ++ detail ++ bs "</p>" ++ [x0a] ++
  bs "<p style=" ++ dq ++
  bs "padding: 12px; background: #f8d7da; color: #721c24; border: 1px solid #f5c6cb; border-radius: 6px; font-family: monospace; font-size: 13px;" ++
  dq ++ bs ">" ++ EscapeString reason ++ bs "</p>" ++ [x0a] ++
  bs "<p style=" ++ dq ++ bs "color: #888; font-size: 12px;" ++ dq ++ bs ">— bmail mail delivery system</p>" ++ [x0a] ++
  bs "</div>".

(** The count of permanent failures, which may freeze the account. *)
Definition count_bounce (E : Env) (user : bytes) (st : state) : state :=
  match (if increment_ok E then IncrementBounces user (accounts st) else None) with
  | None => st
  | Some (n, rows) =>
      let st := with_accounts rows st in
      if (BounceFreezeThreshold <=? n) && freeze_ok E then with_accounts (FreezeForAbuse user rows) st else st
  end.

Definition record_bounce (E : Env) (user : User) (originalTo reason : bytes) (permanent : bool) (st : state) : state :=
  match bounceEvents st with
  | None => st
  | Some store =>
      let '(code, message) := splitBounceReason reason in
      let ev := mkEvent (UserID user) (TenantID user) originalTo code message
                  (if permanent then bs "permanent" else bs "transient") in
      with_events (Some (insert_event (event_ok E) ev store)) st
  end.

(** [MLKEMEncapsulationKeyFromBytes], with the fall-back to X25519 alone. *)
Definition bounce_kem (user : User) : option bytes :=
  if bool_decide (PublicKeyKEM user = []) then None else MLKEMEncapsulationKeyFromBytes (PublicKeyKEM user).

Definition notify (E : Env) (user : User) (originalFrom originalTo reason originalMessageID : bytes) (permanent : bool)
    (st : state) : state :=
  match NewPublicKey (PublicKeyEncryption user) with
  | None => st
  | Some recipientPub =>
      let '(encrypted, w) := EncryptMessageHybrid recipientPub (bounce_kem user) (bounce_subject originalTo)
                               (bounce_body originalTo reason permanent) (draws st) in
      let st := with_draws w st in
      match encrypted with
      | None => st
      | Some m =>
          let msgDomain := default (bs "bmail.ag") (domain_of originalFrom) in
          let n := mkNotice (bs "noreply@" ++ msgDomain) originalFrom (TenantID user) (UserID user) m
                     (message_id (new_uuid (moment E)) originalFrom) originalMessageID in
          if publish_ok E then publish (Notice (bs "mail.inbound." ++ uuid_String (TenantID user)) n) st else st
      end
  end.

Definition insertBounce (E : Env) (originalFrom originalTo reason originalMessageID : bytes) (permanent : bool)
    (st : state) : state :=
  let '(ok, l) := Bounce.allow (clock E) (bytes_string originalFrom) (limiter st) in
  let st := with_limiter l st in
  if ok then
    match GetUserByAddress originalFrom with
    | None => st
    | Some user =>
        let st := if permanent then count_bounce E (UserID user) st else st in
        let st := record_bounce E user originalTo reason permanent st in
        notify E user originalFrom originalTo reason originalMessageID permanent st
    end
  else st.

(** * The handler *)

(** One plaintext attachment: its data, the blob to delete afterwards, and the
    store. *)
Definition fetch_plain (b : option BlobStore) (pa : plaintextAttachment)
    : option bytes * list bytes * option BlobStore :=
  match b with
  | Some store =>
      if contains (pa_Data pa) (bs "/att/") then
        match DownloadShared store (pa_Data pa) with
        | (Ok data, store) => (Some data, [pa_Data pa], Some store)
        | (Err _, store) => (None, [], Some store)
        end
      else (base64_decode (pa_Data pa), [], b)
  | None => (base64_decode (pa_Data pa), [], b)
  end.

Fixpoint fetch_all (b : option BlobStore) (pas : list plaintextAttachment)
    : list mimeAttachment * list bytes * option BlobStore :=
  match pas with
  | [] => ([], [], b)
  | pa :: pas =>
      let '(data, keys, b) := fetch_plain b pa in
      let '(atts, more, b) := fetch_all b pas in
      (match data with
       | Some d => mkMime (pa_Filename pa) (pa_ContentType pa) d :: atts
       | None => atts
       end, keys ++ more, b)
  end.

(** The older messages name their attachments. *)
Fixpoint fetch_legacy (get : bytes -> bytes -> bytes -> option (bytes * bytes * bytes)) (store : BlobStore)
    (senderUID tenantID : bytes) (ids : list bytes) : list mimeAttachment * BlobStore :=
  match ids with
  | [] => ([], store)
  | aidStr :: ids =>
      match aid ← uuid_Parse aidStr; get aid senderUID tenantID with
      | None => fetch_legacy get store senderUID tenantID ids
      | Some (blobKey, filename, contentType) =>
          let '(r, store) := DownloadVerified store blobKey senderUID in
          let '(atts, store) := fetch_legacy get store senderUID tenantID ids in
          (match r with Ok data => mkMime filename contentType data :: atts | Err _ => atts end, store)
      end
  end.

Definition fetch_attachments (om : OutboundMessage) (tenantID : bytes) (b : option BlobStore)
    : list mimeAttachment * list bytes * option BlobStore :=
  if negb (bool_decide (PlaintextAttachments om = [])) then fetch_all b (PlaintextAttachments om)
  else
    match AttachmentIDs om, SenderUserID om, GetAttachment, b with
    | _ :: _, _ :: _, Some get, Some store =>
        match uuid_Parse (SenderUserID om) with
        | None => ([], [], b)
        | Some senderUID =>
            let '(atts, store) := fetch_legacy get store senderUID tenantID (AttachmentIDs om) in
            (atts, [], Some store)
        end
    | _, _, _, _ => ([], [], b)
    end.

Definition deleteTmpBlobs (keys : list bytes) (b : option BlobStore) : option BlobStore :=
  foldl (fun b k => (fun s => snd (Delete s k)) <$> b) b keys.

Definition with_attempt (om : OutboundMessage) (n : Z) : OutboundMessage :=
  mkOM (ToAddress om) (SenderAddress om) (EncryptedBody om) (EncryptedSubject om) (Compose.TenantID om) (EncryptionType om)
    (RFCMessageID om) (SenderDisplayName om) (AttachmentIDs om) (SenderUserID om) (SenderTier om)
    (SenderAffiliateCode om) (PlaintextAttachments om) (CcAddresses om) (om_InReplyTo om) (BodyFormat om) n.

(** A retry that waits: seconds, subject and payload. *)
Record timer := mkTimer { seconds : Z; retry_subject : bytes; retry_payload : bytes }.

(** What follows a delivery attempt. *)
Definition settle (E : Env) (om : OutboundMessage) (r : sent) (st : state) : state * option timer :=
  match r with
  | Ok _ => (st, None)
  | Err e =>
      let bounce := insertBounce E (SenderAddress om) (ToAddress om) (error_text E e) (RFCMessageID om) in
      if is_permanent r then (bounce true st, None)
      else
        let om := with_attempt om (Attempt om + 1) in
        if maxAttempts <=? Attempt om then (bounce false st, None)
        else (st, Some (mkTimer (backoff (Attempt om)) (bs "mail.outbound.retry." ++ bs (pretty (Attempt om)))
                          (Marshal om)))
  end.

Definition deliver (E : Env) (om : OutboundMessage) (tenantID : bytes) (st : state) : option (state * option timer) :=
  let '(attachments, tmpBlobKeys, b) := fetch_attachments om tenantID (blobs st) in
  let st := with_blobs b st in
  rfcBody ← composeRFC5322 L (moment E) om attachments;
  let '(sendErr, st) := send E st (SenderAddress om) (ToAddress om) rfcBody tenantID in
  let st := if tmpBlobsTerminal sendErr (Attempt om)
            then with_blobs (deleteTmpBlobs tmpBlobKeys (blobs st)) st else st in
  Some (settle E om sendErr st).

(** A message that does not parse, or has no valid tenant, is dropped. *)
Definition handle (E : Env) (msg : bytes) (st : state) : option (state * option timer) :=
  match Unmarshal msg with
  | None => Some (st, None)
  | Some om =>
      match uuid_Parse (Compose.TenantID om) with
      | None => Some (st, None)
      | Some tenantID => deliver E om tenantID st
      end
  end.

(** * The life of a message

The consumer acknowledges a message when [handle] returns, and the broker
keeps what it has not seen acknowledged: a panic ends the process with the
message un-acknowledged, and the broker delivers it again, [AckWait] seconds
after the last delivery or later, as often as that takes.  The queue client
ends what is older than a minute when it is delivered (verifyMessage of
internal/queue/nats.go).  A retry is a timer in the process; it is published
again, with a new timestamp, when it fires, unless the publication fails or the
process has stopped.  [age]: seconds since the publication, by the consumer's
clock, which may be 30 seconds behind the publisher's.  The process is not
killed while [handle] runs. *)
Inductive phase :=
| Queued (msg : bytes) (age : Z)
| Unacked (msg : bytes) (age : Z)
| Waiting (t : timer)
| Finished
| Lost.

Definition after (t : option timer) : phase := match t with Some t => Waiting t | None => Finished end.

(** A new process: the limiter, the policy cache and the counter of fallback
    reads are in memory. *)
Definition restart (st : state) : state :=
  mkState ((fun s => mkStore (client s) (Blobs.fallback s) 0) <$> blobs st) Bounce.defaultBounceLimiter (accounts st)
    (bounceEvents st) None (draws st) (sends st) (queue st).

(** What verifyMessage lets through. *)
Definition fresh_age (age : Z) : Prop := - maxClockSkew <= age <= maxMessageAge.

Inductive step : phase * state -> phase * state -> Prop :=
| step_handle E msg age st st' t : handle E msg st = Some (st', t) -> step (Queued msg age, st) (after t, st')
| step_crash E msg age st : handle E msg st = None -> step (Queued msg age, st) (Unacked msg age, restart st)
| step_redeliver msg age age' st :
    age + AckWait <= age' <= maxMessageAge -> step (Unacked msg age, st) (Queued msg age', st)
| step_expire msg age age' st :
    age + AckWait <= age' -> maxMessageAge < age' -> step (Unacked msg age, st) (Lost, st)
| step_fire t age st : fresh_age age ->
    step (Waiting t, st) (Queued (retry_payload t) age, publish (RetryPayload (retry_subject t) (retry_payload t)) st)
| step_drop t st : step (Waiting t, st) (Lost, st).

(** * Frames *)

Lemma insertBounce_frame E from to reason mid perm st :
  sends (insertBounce E from to reason mid perm st) = sends st /\
  blobs (insertBounce E from to reason mid perm st) = blobs st.
Proof.
  unfold insertBounce, notify, record_bounce, count_bounce.
  destruct (Bounce.allow _ _ _) as [[|] l]; [|done]. destruct (GetUserByAddress from) as [u|]; [|done].
  destruct perm; repeat (case_match; simplify_eq; try done).
Qed.

(** Two handles on the store that read alike: only the counter of fallback reads
    differs. *)
Definition same_objects (a b : option BlobStore) : Prop :=
  match a, b with
  | Some s, Some s' => client s = client s' /\ fallback s = fallback s'
  | None, None => True
  | _, _ => False
  end.

Lemma same_refl a : same_objects a a.
Proof. by destruct a. Qed.

Lemma same_trans a b c : same_objects a b -> same_objects b c -> same_objects a c.
Proof. destruct a, b, c; cbn; try done. intros [-> ->] [-> ->]. done. Qed.

Lemma same_sym a b : same_objects a b -> same_objects b a.
Proof. destruct a, b; cbn; try done. by intros [-> ->]. Qed.

Lemma download_same s s' k : client s = client s' -> fallback s = fallback s' ->
  fst (download s k) = fst (download s' k) /\
  same_objects (Some (snd (download s k))) (Some s) .
Proof.
  intros Ec Ef. unfold download. rewrite <-Ec, <-Ef. destruct (getFrom (client s) k) as [d|[]], (fallback s) as [fb|] eqn:E;
    cbn; try (by rewrite ?E). destruct (getFrom fb k); cbn; by rewrite E.
Qed.

Lemma verified_same s s' k u : client s = client s' -> fallback s = fallback s' ->
  fst (DownloadVerified s k u) = fst (DownloadVerified s' k u) /\
  same_objects (Some (snd (DownloadVerified s k u))) (Some s).
Proof.
  intros Ec Ef. unfold DownloadVerified. destruct (split3 k) as [|a [|b [|c [|]]]]; try done.
  destruct (uuid_Parse b); [|done]. case_bool_decide; [by apply download_same|done].
Qed.

Lemma fetch_plain_same b b' pa : same_objects b b' ->
  fst (fetch_plain b pa) = fst (fetch_plain b' pa) /\ same_objects (snd (fetch_plain b pa)) b.
Proof.
  destruct b as [s|], b' as [s'|]; [|done..]. intros [Ec Ef]. unfold fetch_plain, DownloadShared.
  destruct (contains _ _); [|done]. destruct (download_same s s' (pa_Data pa) Ec Ef) as [E1 E2].
  destruct (download s _) as [r s1], (download s' _) as [r' s1']. cbn in E1, E2. subst r'. by destruct r.
Qed.

Lemma fetch_all_same pas : forall b b', same_objects b b' ->
  fst (fetch_all b pas) = fst (fetch_all b' pas) /\ same_objects (snd (fetch_all b pas)) b.
Proof.
  induction pas as [|pa pas IH]; intros b b' Hb; cbn [fetch_all]; [by split; [|apply same_refl]|].
  destruct (fetch_plain_same b b' pa Hb) as [E1 E2]. destruct (fetch_plain_same b' b' pa (same_refl _)) as [_ E2'].
  destruct (fetch_plain b pa) as [[d ks] b1], (fetch_plain b' pa) as [[d' ks'] b1']. cbn in E1, E2, E2'.
  injection E1 as <- <-. destruct (IH b1 b1') as [E3 E4].
  { eapply same_trans; [exact E2|]. eapply same_trans; [exact Hb|by apply same_sym]. }
  destruct (fetch_all b1 pas) as [[a m] b2], (fetch_all b1' pas) as [[a' m'] b2']. cbn in E3, E4.
  injection E3 as <- <-. split; [done|]. cbn. by eapply same_trans.
Qed.

Lemma fetch_legacy_same get u t ids : forall s s', client s = client s' -> fallback s = fallback s' ->
  fst (fetch_legacy get s u t ids) = fst (fetch_legacy get s' u t ids) /\
  same_objects (Some (snd (fetch_legacy get s u t ids))) (Some s).
Proof.
  induction ids as [|i ids IH]; intros s s' Ec Ef; cbn [fetch_legacy]; [done|].
  destruct (_ ≫= _) as [[[k f] ct]|]; [|by apply IH].
  destruct (verified_same s s' k u Ec Ef) as [E1 E2], (verified_same s' s' k u eq_refl eq_refl) as [_ E2'].
  destruct (DownloadVerified s k u) as [r s1], (DownloadVerified s' k u) as [r' s1']. cbn in E1, E2, E2'. subst r'.
  destruct (IH s1 s1') as [E3 E4]; [destruct E2, E2'; congruence..|].
  destruct (fetch_legacy get s1 u t ids) as [a s2], (fetch_legacy get s1' u t ids) as [a' s2']. cbn in E3, E4. subst a'.
  split; [done|]. cbn. destruct E2, E4. split; congruence.
Qed.

Lemma fetch_same om t b b' : same_objects b b' ->
  fst (fetch_attachments om t b) = fst (fetch_attachments om t b') /\
  same_objects (snd (fetch_attachments om t b)) b.
Proof.
  intros Hb. unfold fetch_attachments. case_bool_decide; cbn [negb]; [|by apply fetch_all_same].
  destruct (AttachmentIDs om) as [|aid aids]; [by split; [|apply same_refl]|].
  destruct (SenderUserID om); [by split; [|apply same_refl]|].
  destruct GetAttachment as [get|]; [|by split; [|apply same_refl]].
  destruct b as [s|], b' as [s'|]; [|done..]. destruct (uuid_Parse _) as [u|]; [|by split].
  destruct Hb as [Ec Ef]. destruct (fetch_legacy_same get u t (aid :: aids) s s' Ec Ef) as [E1 E2].
  destruct (fetch_legacy get s u t _) as [a s2], (fetch_legacy get s' u t _) as [a' s2']. cbn in E1. by subst a'.
Qed.

(** * One attempt *)

Definition temporary (r : sent) : Prop := (exists e, r = Err e) /\ is_permanent r = false.

Lemma send_frame E st from to body t :
  sends (snd (send E st from to body t)) = sends st ++ [fst (send E st from to body t)] /\
  blobs (snd (send E st from to body t)) = blobs st.
Proof. unfold send. by destruct (SendMessage _ _ _ _ _ _ _ _ _ _ _ _ _ _) as [[r ev] c]. Qed.

(** What one handled message has done: nothing, or one delivery attempt whose
    result decides about the retry and the temporary blobs. *)
Definition attempted (E : Env) (om : OutboundMessage) (t : bytes) (st st' : state) (tm : option timer) : Prop :=
  exists r, sends st' = sends st ++ [r] /\
  let keys := snd (fst (fetch_attachments om t (blobs st))) in
  match tm with
  | Some tm =>
      temporary r /\ Attempt om + 1 < maxAttempts /\
      retry_payload tm = Marshal (with_attempt om (Attempt om + 1)) /\
      seconds tm = backoff (Attempt om + 1) /\
      retry_subject tm = bs "mail.outbound.retry." ++ bs (pretty (Attempt om + 1)) /\
      same_objects (blobs st') (blobs st)
  | None =>
      (r = Ok tt \/ is_permanent r = true \/ temporary r /\ maxAttempts <= Attempt om + 1) /\
      exists b, same_objects b (blobs st) /\ blobs st' = deleteTmpBlobs keys b
  end.

Lemma deliver_spec E om t st st' tm : deliver E om t st = Some (st', tm) -> attempted E om t st st' tm.
Proof.
  unfold deliver, attempted. destruct (fetch_same om t (blobs st) (blobs st) (same_refl _)) as [_ Hs].
  destruct (fetch_attachments om t (blobs st)) as [[atts keys] b]. cbn [fst snd] in Hs |- *.
  intros (body & _ & HS)%bind_Some.
  pose proof (send_frame E (with_blobs b st) (SenderAddress om) (ToAddress om) body t) as [Hsend Hb].
  destruct (send E _ _ _ body t) as [r st1]. cbn [fst snd] in Hsend, Hb, HS. exists r.
  unfold settle in HS. destruct r as [[]|e].
  - apply (inj Some), pair_equal_spec in HS as [<- <-]. cbn. rewrite Hb. split; [done|]. split; [by left|]. by exists b.
  - destruct (is_permanent (Err e)) eqn:Ep.
    + destruct e as [code|code|]; try done. apply (inj Some), pair_equal_spec in HS as [<- <-]. cbn [tmpBlobsTerminal].
      destruct (insertBounce_frame E (SenderAddress om) (ToAddress om) (error_text E (ErrPermanent code)) (RFCMessageID om)
        true (with_blobs (deleteTmpBlobs keys (blobs st1)) st1)) as [-> ->]. cbn [sends blobs with_blobs].
      rewrite Hb. split; [done|]. split; [right; by left|]. by exists b.
    + assert (tmpBlobsTerminal (Err e) (Attempt om) = (maxAttempts <=? Attempt om + 1)) as Et by by destruct e.
      rewrite Et in HS. cbn [Attempt with_attempt] in HS.
      destruct (Z.leb_spec maxAttempts (Attempt om + 1)) as [Hm|Hm]; apply (inj Some), pair_equal_spec in HS as [<- <-].
      * destruct (insertBounce_frame E (SenderAddress om) (ToAddress om) (error_text E e) (RFCMessageID om)
          false (with_blobs (deleteTmpBlobs keys (blobs st1)) st1)) as [-> ->]. cbn [sends blobs with_blobs].
        rewrite Hb. split; [done|]. split; [|by exists b]. right; right. split; [|done]. by split; [eexists|].
      * rewrite Hb. split; [done|]. cbn [retry_payload seconds retry_subject].
        assert (temporary (Err e)) as Ht by (by split; [eexists|]). split; [exact Ht|]. by split_and!.
Qed.

(** * The life of a message, step by step *)

Context (om : OutboundMessage) (msg : bytes) (tenantID : bytes) (st0 : state).
Context (age0 : Z) (Hage0 : fresh_age age0) (Hwait : 0 < AckWait).

(** The message as it was accepted, and a JSON codec that reads back what it
    has written for its retries. *)
Context (Hmsg : Unmarshal msg = Some om) (Hfirst : Attempt om = 0).
Context (Htenant : uuid_Parse (Compose.TenantID om) = Some tenantID).
Context (Hjson : forall n, Unmarshal (Marshal (with_attempt om n)) = Some (with_attempt om n)).

Definition tmp_keys : list bytes := snd (fst (fetch_attachments om tenantID (blobs st0))).

(** Everything that can be reached from the first delivery. *)
Definition invariant (x : phase * state) : Prop :=
  exists rs, sends (snd x) = sends st0 ++ rs /\
  match fst x with
  | Queued m age | Unacked m age =>
      Unmarshal m = Some (with_attempt om (Z.of_nat (length rs))) /\ Forall temporary rs /\ (length rs < 3)%nat /\
      same_objects (blobs (snd x)) (blobs st0) /\ fresh_age age
  | Waiting t =>
      retry_payload t = Marshal (with_attempt om (Z.of_nat (length rs))) /\
      seconds t = backoff (Z.of_nat (length rs)) /\ Forall temporary rs /\ (1 <= length rs < 3)%nat /\
      same_objects (blobs (snd x)) (blobs st0)
  | Finished =>
      exists init r, rs = init ++ [r] /\ Forall temporary init /\ (length rs <= 3)%nat /\
        (r = Ok tt \/ is_permanent r = true \/ temporary r /\ length rs = 3%nat) /\
        exists b, same_objects b (blobs st0) /\ blobs (snd x) = deleteTmpBlobs tmp_keys b
  | Lost => Forall temporary rs /\ (length rs < 3)%nat /\ same_objects (blobs (snd x)) (blobs st0)
  end.

Lemma with_attempt_same : with_attempt om 0 = om.
Proof. rewrite <-Hfirst. by destruct om. Qed.

Lemma restart_same st : same_objects (blobs (restart st)) (blobs st).
Proof. cbn. by destruct (blobs st). Qed.

Lemma invariant_step x y : invariant x -> step x y -> invariant y.
Proof.
  intros (rs & Es & Hx) Hstep.
  destruct Hstep as [E m age st st' tm Hh|E m age st Hh|m age age' st Ha|m age age' st Ha Ho|tm age st Ha|tm st]; cbn [fst snd] in *.
  - destruct Hx as (Em & Ht & Hl & Hb & _). unfold handle in Hh. rewrite Em in Hh.
    change (Compose.TenantID (with_attempt om _)) with (Compose.TenantID om) in Hh. rewrite Htenant in Hh.
    apply deliver_spec in Hh as (r & Er & Htm).
    exists (rs ++ [r]). cbn [snd]. rewrite Er, Es, <-app_assoc. split; [done|]. rewrite length_app.
    assert (fst (fetch_attachments (with_attempt om (Z.of_nat (length rs))) tenantID (blobs st)) =
            fst (fetch_attachments om tenantID (blobs st0))) as Ef by apply (fetch_same om _ _ _ Hb).
    cbn zeta in Htm. rewrite Ef in Htm. unfold maxAttempts in Htm.
    change (Attempt (with_attempt om (Z.of_nat (length rs)))) with (Z.of_nat (length rs)) in Htm.
    destruct tm as [tm|]; cbn [after fst].
    + destruct Htm as (Hr & Hm & Hp & Hsec & _ & Hsame).
      replace (Z.of_nat (length rs + length [r])) with (Z.of_nat (length rs) + 1) by (cbn; lia).
      split_and!; [done|done|by apply Forall_app; split; [|constructor]|cbn; lia|cbn; lia|by eapply same_trans].
    + destruct Htm as (Hr & b & Hbs & Hd). exists rs, r. split; [done|]. split; [done|]. split; [cbn; lia|].
      split; [|exists b; split; [by eapply same_trans|done]].
      destruct Hr as [->|[Hr|[Hr Hm]]]; [by left|by right; left|]. right; right. split; [done|]. cbn. lia.
  - exists rs. destruct Hx as (Em & Ht & Hl & Hb & Hage). cbn [fst snd]. split; [done|]. split_and!; try done.
    eapply same_trans; [apply restart_same|exact Hb].
  - exists rs. destruct Hx as (Em & Ht & Hl & Hb & Hage). cbn [fst snd]. split; [done|]. split_and!; try done.
    unfold fresh_age in *. lia.
  - exists rs. destruct Hx as (Em & Ht & Hl & Hb & Hage). done.
  - exists rs. destruct Hx as (Hp & _ & Ht & Hl & Hb). cbn [fst snd]. split; [done|]. rewrite Hp. split_and!; [apply Hjson|done|lia|done|done].
  - exists rs. destruct Hx as (_ & _ & Ht & Hl & Hb). cbn [fst snd]. split; [done|]. split_and!; [done|lia|done].
Qed.

Lemma invariant_reachable x age : fresh_age age -> rtc step (Queued msg age, st0) x -> invariant x.
Proof.
  intros Hage Hrtc. assert (invariant (Queued msg age, st0)) as Hi.
  { exists []. cbn [fst snd length]. rewrite app_nil_r. change (Z.of_nat 0) with 0. rewrite with_attempt_same.
    split_and!; [done|done|done|lia|apply same_refl|done]. }
  clear Hage. induction Hrtc as [|x y z Hstep _ IH]; [done|]. apply IH. by eapply invariant_step.
Qed.

(** An accepted message, first delivered while it is fresh, is handed to the
    mail exchangers at most three times, 30 and then 120 seconds apart,
    redeliveries after a crash included.  It is finished exactly when one
    attempt has succeeded, has failed for good, or was the third; every attempt
    before the last has failed temporarily.  A message lost on the way has
    only failed temporarily, less than three times. *)
Theorem delivery_attempts ph st (Hr : rtc step (Queued msg age0, st0) (ph, st)) :
  exists rs, sends st = sends st0 ++ rs /\ (length rs <= 3)%nat /\
  match ph with
  | Queued _ _ | Unacked _ _ => Forall temporary rs
  | Waiting t => Forall temporary rs /\ (length rs = 1%nat /\ seconds t = 30 \/ length rs = 2%nat /\ seconds t = 120)
  | Finished => exists init r, rs = init ++ [r] /\ Forall temporary init /\
      (r = Ok tt \/ is_permanent r = true \/ temporary r /\ length rs = 3%nat)
  | Lost => Forall temporary rs /\ (length rs < 3)%nat
  end.
Proof.
  apply (invariant_reachable _ _ Hage0) in Hr as (rs & Es & Hx). exists rs. cbn [fst snd] in *. split; [done|].
  destruct ph as [m a|m a|t| |].
  - destruct Hx as (_ & Ht & Hl & _). by split; [lia|].
  - destruct Hx as (_ & Ht & Hl & _). by split; [lia|].
  - destruct Hx as (_ & Hs & Ht & Hl & _). split; [lia|]. split; [done|]. rewrite Hs.
    destruct rs as [|? [|? [|]]]; cbn in Hl; try lia; cbn [length]; [left|right]; done.
  - destruct Hx as (init & r & -> & Ht & Hl & Hr & _). split; [done|]. by exists init, r.
  - destruct Hx as (Ht & Hl & _). by split; [lia|].
Qed.

(** Until its outcome is terminal a message keeps its temporary blobs, so
    that every attempt composes with the attachments of the first; when it is
    finished they are deleted.  A message that is lost leaves them behind. *)
Theorem attachments_survive_retries ph st (Hr : rtc step (Queued msg age0, st0) (ph, st)) :
  match ph with
  | Finished => exists b, same_objects b (blobs st0) /\ blobs st = deleteTmpBlobs tmp_keys b
  | _ =>
      fst (fetch_attachments om tenantID (blobs st)) = fst (fetch_attachments om tenantID (blobs st0)) /\
      same_objects (blobs st) (blobs st0)
  end.
Proof.
  apply (invariant_reachable _ _ Hage0) in Hr as (rs & Es & Hx). cbn [fst snd] in *. destruct ph as [m a|m a|t| |].
  - destruct Hx as (_ & _ & _ & Hb & _). split; [by apply fetch_same|done].
  - destruct Hx as (_ & _ & _ & Hb & _). split; [by apply fetch_same|done].
  - destruct Hx as (_ & _ & _ & _ & Hb). split; [by apply fetch_same|done].
  - by destruct Hx as (init & r & _ & _ & _ & _ & Hb).
  - destruct Hx as (_ & _ & Hb). split; [by apply fetch_same|done].
Qed.










End outbound.

(** * What a bounce does *)

Section bounces.
Context `{Primitives} `{!PrimitiveLaws} `{Entropy} `{!EntropyLaws} `{UUIDs}.
Context (GetUserByAddress : bytes -> option User).

Lemma hybrid_without_headers pub ek subject body w m w' :
  EncryptMessageHybrid pub ek subject body w = (Some m, w') ->
  EncryptMessageWithHeadersHybrid pub ek subject body None w = (Some m, w').
Proof. exact (fun E => E). Qed.

Definition allowed (E : Env) (from : bytes) (st : state) : bool :=
  fst (Bounce.allow (clock E) (bytes_string from) (limiter st)).

Lemma record_frame E u to reason perm st :
  draws (record_bounce E u to reason perm st) = draws st /\
  queue (record_bounce E u to reason perm st) = queue st /\
  accounts (record_bounce E u to reason perm st) = accounts st.
Proof. unfold record_bounce. by repeat case_match. Qed.

Lemma count_frame E u st :
  draws (count_bounce E u st) = draws st /\ queue (count_bounce E u st) = queue st /\
  bounceEvents (count_bounce E u st) = bounceEvents st.
Proof. unfold count_bounce. by repeat case_match. Qed.

Lemma notify_frame E u from to reason mid perm st :
  accounts (notify E u from to reason mid perm st) = accounts st.
Proof. unfold notify. by repeat case_match. Qed.

(** C21. An allowed bounce reaches the sender: exactly one notice is published
    on the sender's tenant, addressed to the sender, and the sender's keys open
    it to the subject and the text that name the recipient and, escaped, the
    reason. *)
Theorem bounce_is_readable E from to reason mid perm st user priv dk m w
    (Hallow : allowed E from st = true) (Huser : GetUserByAddress from = Some user)
    (Hpub : PublicKeyEncryption user = x25519_base priv) (Hp : length priv = 32%nat)
    (Hkem : public_kem dk (bounce_kem user)) (Hok : publish_ok E = true)
    (Henc : EncryptMessageHybrid (x25519_base priv) (bounce_kem user) (bounce_subject to) (bounce_body to reason perm)
              (draws st) = (Some m, w)) :
  exists n,
    queue (insertBounce GetUserByAddress E from to reason mid perm st) =
    queue st ++ [Notice (bs "mail.inbound." ++ uuid_String (TenantID user)) n] /\
    bn_to n = from /\ bn_user n = UserID user /\ bn_in_reply_to n = mid /\
    DecryptMessageAuto priv dk (bn_message n) = Some (bounce_subject to, bounce_body to reason perm).
Proof.
  unfold allowed in Hallow. unfold insertBounce.
  destruct (Bounce.allow _ _ _) as [ok l]. cbn [fst] in Hallow. subst ok. rewrite Huser.
  set (st1 := if perm then _ else _).
  assert (draws st1 = draws st /\ queue st1 = queue st) as [Ed Eq].
  { unfold st1. destruct perm; [|done]. by destruct (count_frame E (UserID user) (with_limiter l st)) as (-> & -> & _). }
  destruct (record_frame E user to reason perm st1) as (Ed' & Eq' & _).
  unfold notify. rewrite Hpub, NewPublicKey_base, Ed', Ed, Henc, Hok. cbn [with_draws queue publish].
  rewrite Eq', Eq. eexists. split; [done|]. cbn. split_and!; [done..|].
  apply hybrid_without_headers in Henc. eapply EncryptMessageWithHeadersHybrid_spec in Henc; [|done|exact Hkem].
  by eapply message_for_opens in Henc as (-> & _).
Qed.

(** The row of a sender after a permanent failure. *)
Definition counted (E : Env) (r : account_row) : account_row :=
  let n := recent_bounces r + 1 in
  mkRow n (if (BounceFreezeThreshold <=? n) && freeze_ok E && bool_decide (account_status r = bs "active")
           then bs "suspended" else account_status r).

(** Only an allowed, permanent failure counts against the sender, by one;
    the third suspends an active account.  Nobody else's row changes. *)
Theorem bounce_counts E from to reason mid perm st user r
    (Huser : GetUserByAddress from = Some user) (Hrow : accounts st !! UserID user = Some r)
    (Hup : increment_ok E = true) :
  accounts (insertBounce GetUserByAddress E from to reason mid perm st) =
  if allowed E from st && perm then <[UserID user := counted E r]> (accounts st) else accounts st.
Proof.
  unfold allowed, insertBounce. destruct (Bounce.allow _ _ _) as [[|] l]; cbn [fst andb]; [|done].
  rewrite Huser, notify_frame. destruct (record_frame E user to reason perm
    (if perm then count_bounce E (UserID user) (with_limiter l st) else with_limiter l st)) as (_ & _ & ->).
  destruct perm; [|done]. unfold count_bounce, IncrementBounces. rewrite Hup. cbn [accounts with_limiter].
  rewrite Hrow. cbn [mbind option_bind]. unfold counted.
  destruct (_ <=? _); [|done]. destruct (freeze_ok E); [|done]. cbn [andb accounts with_accounts].
  unfold FreezeForAbuse. rewrite alter_insert_eq. cbn [account_status recent_bounces].
  by case_bool_decide.
Qed.
End bounces.

(** * The DKIM key endpoint *)

(** A key pair or an error, of the generators and the sealing: the sealed
    private key and the public key's text. *)
Record dkim_results := mkDkim {
  gen_ed : option (bytes * bytes); gen_rsa : option (bytes * bytes);
  tee_Seal : bytes -> option bytes; unix_now : Z
}.

Record dkimKeyResult := mkKeyResult { SealedPrivateKey : bytes; PublicKey : bytes; Selector : bytes }.

Inductive dkim_response :=
| Unauthorized
| InternalError (error : string)
| Generated (Ed25519 RSA : dkimKeyResult).

Definition bearer_ok (apiKey auth : bytes) : bool :=
  let token := TrimPrefix auth (bs "Bearer ") in
  negb (bool_decide (token = auth)) && bool_decide (token = apiKey).

Definition handleDKIMGenerate (apiKey : bytes) (D : dkim_results) (auth : bytes) : dkim_response :=
  if negb (bool_decide (apiKey = [])) && negb (bearer_ok apiKey auth) then Unauthorized
  else
    match gen_ed D with
    | None => InternalError "key generation failed"
    | Some (edPriv, edPub) =>
    match tee_Seal D edPriv with
    | None => InternalError "seal failed"
    | Some edSealed =>
    match gen_rsa D with
    | None => InternalError "rsa key generation failed"
    | Some (rsaPriv, rsaPub) =>
    match tee_Seal D rsaPriv with
    | None => InternalError "rsa seal failed"
    | Some rsaSealed =>
        let selector (prefix : string) := bs prefix ++ bs "-" ++ dec (unix_now D) in
        Generated (mkKeyResult edSealed edPub (selector "vp1"%string)) (mkKeyResult rsaSealed rsaPub (selector "rsa1"%string))
    end end end end.

(** With a key configured, only the header "Bearer KEY" gets past the check;
    with none configured, every request does. *)
Theorem dkim_endpoint_open_without_key apiKey D auth :
  handleDKIMGenerate apiKey D auth <> Unauthorized <-> apiKey = [] \/ auth = bs "Bearer " ++ apiKey.
Proof.
  unfold handleDKIMGenerate.
  assert (bearer_ok apiKey auth = true <-> auth = bs "Bearer " ++ apiKey) as Hb.
  { unfold bearer_ok, TrimPrefix. rewrite andb_true_iff, negb_true_iff, bool_decide_eq_false, bool_decide_eq_true. split.
    - destruct (HasPrefix auth (bs "Bearer ")) eqn:E; [|by intros [? _]]. apply HasPrefix_spec in E as [r ->].
      rewrite drop_app_length. by intros [_ ->].
    - intros ->. rewrite HasPrefix_app, drop_app_length. split; [|done].
      intros E. apply (f_equal length) in E. rewrite length_app in E. cbn in E. lia. }
  case_bool_decide as Ha; cbn [negb andb].
  - split; [by left|]. intros _. by repeat case_match.
  - destruct (bearer_ok apiKey auth) eqn:Eb; cbn [negb].
    + split; [right; by apply Hb|]. intros _. by repeat case_match.
    + split; [done|]. intros [?|?%Hb]; [done|congruence].
Qed.

(** * Witnesses *)

#[local] Existing Instances toy toy_laws toy_entropy toy_entropy_laws.
#[local] Instance no_uuids : UUIDs := {| uuid_Parse := Some; uuid_String := fun u => u |}.

#[local] Definition demo : OutboundMessage :=
  mkOM (bs "bob@x.org") (bs "amy@bmail.ag") [] [] (bs "t") (bs "plaintext") [] [] [] [] (bs "mail") [] [] [] [] (bs "plain") 0.

(** A codec for [demo] and its retries. *)
#[local] Definition marshal (om : OutboundMessage) : bytes :=
  (if Attempt om <? 0 then x01 else x00) :: replicate (Z.abs_nat (Attempt om)) x00.
#[local] Definition unmarshal (b : bytes) : option OutboundMessage :=
  match b with
  | s :: r => Some (with_attempt demo (if byte_eqb s x01 then - Z.of_nat (length r) else Z.of_nat (length r)))
  | [] => None
  end.

Lemma unmarshal_marshal n : unmarshal (marshal (with_attempt demo n)) = Some (with_attempt demo n).
Proof.
  unfold unmarshal, marshal. cbn [Attempt with_attempt]. rewrite length_replicate.
  destruct (Z.ltb_spec n 0); cbn [byte_eqb]; do 2 f_equal; cbn; lia.
Qed.

#[local] Definition quiet : Net :=
  {| LookupMX := fun _ => None; LookupTXT := fun _ => None; QueryTLSA := fun _ => None;
     FetchPolicy := fun _ => None; exchanger := fun _ =>
       {| connects := false; greets := false; ehlo_ok := false; offers_starttls := false; handshake_ok := false;
          peer_key := None; mail_reply := ReplyBroken; rcpt_reply := ReplyBroken; data_reply := ReplyBroken;
          write_ok := false; close_reply := ReplyBroken |} |}.
#[local] Definition libs : Compose.Libs :=
  {| ToUpper := fun s => s; ToLowerU := fun s => s; UnescapeString := fun s => s;
     day_text := fun _ => None; minute_text := fun _ => None |}.
#[local] Definition now : Moment :=
  {| new_uuid := bs "u"; date := bs "Mon"; nano_alt := 1; nano_rel := 2; nano_mixed := 3; nano_cal := 4 |}.
#[local] Definition env : Env := mkEnv quiet now 0 (bs "no") (bs "no MX") true true true true.
#[local] Definition amy : User := mkUser (bs "a") (bs "t") (x25519_base (toy_key 1)) [].
#[local] Definition amys_row : account_row := mkRow 2 (bs "active").
#[local] Definition start : state :=
  mkState (Some (mkStore (mkAccount {[bs "t/att/1" := bs "data"]} true) None 0)) Bounce.defaultBounceLimiter
    {[bs "a" := amys_row]} (Some []) None toy_world [] [].
#[local] Definition users (addr : bytes) : option User :=
  if bool_decide (addr = bs "amy@bmail.ag") then Some amy else None.

#[local] Definition demo_handle :=
  handle (fun b => b) (fun _ : bytes => None (A := option unit)) (fun s => s) (fun s => s)
    (fun _ _ _ _ => None) (fun _ _ _ b => Some b)
    (Build_SMTPSender None None None (fun _ => None)) (fun _ => Some (Build_Tenant (bs "x") [] [] [] (replicate 32 x01) (bs "s")))
    libs unmarshal marshal users None.
#[local] Definition demo_step :=
  step (fun b => b) (fun _ : bytes => None (A := option unit)) (fun s => s) (fun s => s)
    (fun _ _ _ _ => None) (fun _ _ _ b => Some b)
    (Build_SMTPSender None None None (fun _ => None)) (fun _ => Some (Build_Tenant (bs "x") [] [] [] (replicate 32 x01) (bs "s")))
    libs unmarshal marshal users None 30.

(** A run in which nothing is lost. *)
#[local] Definition advance (x : phase * state) : phase * state :=
  match x with
  | (Queued m a, st) => match demo_handle env m st with Some (st', t) => (after t, st') | None => (Unacked m a, restart st) end
  | (Waiting t, st) => (Queued (retry_payload t) 1, publish (RetryPayload (retry_subject t) (retry_payload t)) st)
  | x => x
  end.
#[local] Definition run (n : nat) : phase * state := Nat.iter n advance (Queued (marshal demo) 2, start).

Lemma run_steps n : (forall k, (k < n)%nat -> match fst (run k) with Queued _ _ | Waiting _ => true | _ => false end = true) ->
  nsteps demo_step n (Queued (marshal demo) 2, start) (run n).
Proof.
  induction n as [|n IH]; intros Hn; [constructor|]. apply nsteps_r with (run n).
  - apply IH. intros k Hk. apply Hn. lia.
  - specialize (Hn n ltac:(lia)). change (run (S n)) with (advance (run n)).
    destruct (run n) as [[m a|m a|t| |] st]; try discriminate Hn; cbn [advance].
    + destruct (demo_handle env m st) as [[st' t]|] eqn:E; [by eapply step_handle|by eapply step_crash].
    + by constructor.
Qed.

#[local] Definition five : nsteps demo_step 5 (Queued (marshal demo) 2, start) (run 5).
Proof.
  apply run_steps. intros k Hk. do 5 (destruct k as [|k]; [vm_compute; reflexivity|]). lia.
Qed.

Lemma demo_finished : fst (run 5) = Finished.
Proof. vm_compute. reflexivity. Qed.

Lemma delivery_attempts_witness :
  exists init r, sends (snd (run 5)) = init ++ [r] /\ Forall temporary init /\
    (r = Ok tt \/ is_permanent r = true \/ temporary r /\ length (init ++ [r]) = 3%nat).
Proof.
  pose proof (rtc_nsteps_2 _ _ _ five) as H. unfold demo_step in H.
  pose proof demo_finished as Hf. destruct (run 5) as [ph st]. cbn [fst snd] in Hf |- *. subst ph.
  eapply (delivery_attempts _ _ _ _ _ _ _ _ _ _ _ _ _ 30 demo) in H as (rs & Es & _ & init & r & E & Ht & Hr).
  { cbn in Es. exists init, r. rewrite Es. split; [exact E|]. split; [exact Ht|]. by rewrite <-E. }
  all: first [exact (unmarshal_marshal 0) | apply unmarshal_marshal | reflexivity | done].
Defined.

Lemma attachments_survive_retries_witness :
  exists b, same_objects b (blobs start) /\ blobs (snd (run 5)) = deleteTmpBlobs (tmp_keys None demo (bs "t") start) b.
Proof.
  pose proof (rtc_nsteps_2 _ _ _ five) as H. unfold demo_step in H.
  pose proof demo_finished as Hf. destruct (run 5) as [ph st]. cbn [fst snd] in Hf |- *. subst ph.
  eapply (attachments_survive_retries _ _ _ _ _ _ _ _ _ _ _ _ _ 30 demo _ (bs "t")) in H.
  { exact H. }
  all: first [exact (unmarshal_marshal 0) | apply unmarshal_marshal | reflexivity | done].
Defined.


Lemma bounce_counts_witness :
  accounts (insertBounce users env (bs "amy@bmail.ag") (bs "bob@x.org") (bs "no") [] true start) =
  {[bs "a" := mkRow 3 (bs "suspended")]}.
Proof.
  rewrite (bounce_counts users env (bs "amy@bmail.ag") (bs "bob@x.org") (bs "no") [] true start amy amys_row).
  - replace (allowed env (bs "amy@bmail.ag") start) with true by (vm_compute; reflexivity).
    cbn [andb]. change (UserID amy) with (bs "a"). cbn [accounts start].
    replace (counted env amys_row) with (mkRow 3 (bs "suspended")) by (vm_compute; reflexivity).
    by rewrite insert_singleton_eq.
  - reflexivity.
  - by apply lookup_singleton_Some.
  - reflexivity.
Defined.

Lemma bounce_is_readable_witness : exists n,
  queue (insertBounce users env (bs "amy@bmail.ag") (bs "bob@x.org") (bs "<no>") (bs "m1") true start) =
  [Notice (bs "mail.inbound.t") n] /\
  DecryptMessageAuto (toy_key 1) None (bn_message n) =
    Some (bounce_subject (bs "bob@x.org"), bounce_body (bs "bob@x.org") (bs "<no>") true).
Proof.
  destruct (EncryptMessageHybrid (x25519_base (toy_key 1)) (bounce_kem amy) (bounce_subject (bs "bob@x.org"))
              (bounce_body (bs "bob@x.org") (bs "<no>") true) (draws start)) as [[m|] w] eqn:E;
    [|vm_compute in E; discriminate E].
  destruct (bounce_is_readable users env (bs "amy@bmail.ag") (bs "bob@x.org") (bs "<no>") (bs "m1") true start amy
    (toy_key 1) None m w) as (n & Eq & _ & _ & _ & Ed).
  - vm_compute. reflexivity.
  - reflexivity.
  - reflexivity.
  - reflexivity.
  - reflexivity.
  - reflexivity.
  - exact E.
  - exists n. split; [exact Eq|exact Ed].
Defined.
