(* ===== verification/Queue.v ===== *)
(** The mail queue: src/internal/queue/nats.go and watchdog.go.

Messages are sealed, stamped and tagged ([signMessage]), and checked on every
delivery ([verifyMessage]); [dispatch] is the consumer's answer to the broker.
HMAC-SHA256 is a parameter; the broker is what the code asks of it: per stream
the last sequence number, per consumer the last one delivered. *)

From stdpp Require Import gmap.
From S2P Require Import Prelude Hex GoNet FilePath GoStrings Binary Aead ToyCrypto.
Local Open Scope Z_scope.

Definition i64 (x : Z) : Z := (x + 2 ^ 63) mod 2 ^ 64 - 2 ^ 63.

(** [binary.BigEndian.Uint64] *)
Definition BE_Uint64 (b : bytes) : Z := LE_Uint64 (rev (take 8 b)).

Definition hmacTagSize : nat := 32.
Definition timestampSize : nat := 8.
Definition maxMessageAge : Z := 60.
Definition maxClockSkew : Z := 30.

Record QueueClient := mkClient { hmacKey : bytes; encKey : bytes }.

Section messages.
Context `{Primitives} `{Entropy}.
Context (hmac : bytes -> bytes -> bytes).

Definition deriveQueueEncKey (key : bytes) : bytes :=
  hkdf key (bs "bmail-queue-hkdf-salt-v1") (bs "bmail-queue-encryption-v1") KeySize.

(** The key of [NewQueueClient]: the first argument if it has 32 bytes, else
    random. *)
Definition client_key (hmacKey : list bytes) : M bytes :=
  match hmacKey with
  | k :: _ => if (length k =? 32)%nat then mret k else rand_Read 32
  | [] => rand_Read 32
  end.

Definition NewQueueClient (hmacKey : list bytes) : M QueueClient :=
  key ← client_key hmacKey;
  mret (mkClient key (deriveQueueEncKey key)).

Definition tag_of (q : QueueClient) (ts encPayload : bytes) : bytes :=
  hmac (hmacKey q) (ts ++ BE_PutUint64 (Z.of_nat (length encPayload)) ++ encPayload).

(** The wire format. *)
Definition envelope (q : QueueClient) (now : Z) (nonce data subject : bytes) : bytes :=
  let encPayload := nonce ++ aead_Seal (encKey q) nonce data subject in
  tag_of q (BE_PutUint64 now) encPayload ++ BE_PutUint64 now ++ encPayload.

Definition signMessage (q : QueueClient) (now : Z) (data subject : bytes) : M bytes :=
  if negb (good_key (encKey q)) then failM
  else nonce ← rand_Read NonceSizeX; mret (envelope q now nonce data subject).

Inductive queue_error := ErrShort | ErrHMAC | ErrFuture | ErrOld | ErrPayloadShort | ErrKey | ErrOpen.

Definition verifyMessage (q : QueueClient) (now : Z) (signed subject : bytes) : result queue_error bytes :=
  if (length signed <? hmacTagSize + timestampSize + NonceSizeX)%nat then Err ErrShort
  else
    let tag := take hmacTagSize signed in
    let tsBuf := take timestampSize (drop hmacTagSize signed) in
    let encPayload := drop (hmacTagSize + timestampSize) signed in
    if negb (bool_decide (tag = tag_of q tsBuf encPayload)) then Err ErrHMAC
    else
      let age := i64 (now - i64 (BE_Uint64 tsBuf)) in
      if age <? - maxClockSkew then Err ErrFuture
      else if maxMessageAge <? age then Err ErrOld
      else if (length encPayload <? NonceSizeX)%nat then Err ErrPayloadShort
      else if negb (good_key (encKey q)) then Err ErrKey
      else match aead_Open (encKey q) (take NonceSizeX encPayload) (drop NonceSizeX encPayload) subject with
           | Some plaintext => Ok plaintext
           | None => Err ErrOpen
           end.

(** * Consuming *)

Inductive disposition := Ack | Nak | Term.

(** The callback of [cons.Consume]; the handler's error is [false]. *)
Definition dispatch (q : QueueClient) (now : Z) (signed subject : bytes) (handler : bytes -> bool) : disposition :=
  match verifyMessage q now signed subject with
  | Err _ => Term
  | Ok data => if handler data then Ack else Nak
  end.

(** A message in the stream: the broker delivers it again after a Nak, each
    time at a later moment and to a handler that may do better. *)
Inductive outcome := Pending | Handled | Dropped.

Fixpoint deliveries (q : QueueClient) (signed subject : bytes) (tries : list (Z * (bytes -> bool))) : outcome :=
  match tries with
  | [] => Pending
  | (now, handler) :: tries =>
      match dispatch q now signed subject handler with
      | Ack => Handled
      | Term => Dropped
      | Nak => deliveries q signed subject tries
      end
  end.
End messages.

(** ** Subscriptions *)

Definition streamConfigs : list (bytes * list bytes) :=
  [(bs "MAIL_INBOUND", [bs "mail.inbound.>"]); (bs "MAIL_OUTBOUND", [bs "mail.outbound.>"])].

Definition stream_of (subject : bytes) : option bytes :=
  fst ∘ snd <$> list_find (fun cfg =>
    Exists (fun s => HasPrefix subject (take (length s - 1) s) = true) (snd cfg)) streamConfigs.

Definition consumer_name (stream subject : bytes) : bytes :=
  stream ++ bs "_" ++ Replace [(bs ".", bs "_"); (bs ">", bs "all"); (bs "*", bs "any")] subject.

(** The broker: the last sequence number of a stream, the last one a durable
    consumer has been given. *)
Record broker := mkBroker { last_seq : gmap bytes Z; delivered : gmap bytes Z }.

(** What the broker answers: information and deletions may fail. *)
Record answers := mkAnswers { info_ok : bool; delete_ok : bool; create_ok : bool }.

Definition stale (b : broker) (stream consumer : bytes) : bool :=
  match delivered b !! consumer, last_seq b !! stream with
  | Some d, Some l => l <? d
  | _, _ => false
  end.

Definition heal (a : answers) (b : broker) (stream consumer : bytes) : broker :=
  if info_ok a && stale b stream consumer && delete_ok a
  then mkBroker (last_seq b) (delete consumer (delivered b)) else b.

(** [Subscribe] up to the consumer; [None] is an error.  CreateOrUpdate keeps a
    durable consumer's position, and starts a new one at 0. *)
Definition Subscribe (a : answers) (b : broker) (subject : bytes) : option (bytes * broker) :=
  stream ← stream_of subject;
  let name := consumer_name stream subject in
  let b := heal a b stream name in
  if create_ok a
  then Some (name, mkBroker (last_seq b) (<[name := default 0 (delivered b !! name)]> (delivered b)))
  else None.

Example stream_ex1 : stream_of (bs "mail.outbound.>") = Some (bs "MAIL_OUTBOUND").
Proof. vm_compute. reflexivity. Qed.
Example stream_ex2 : stream_of (bs "mail") = None.
Proof. vm_compute. reflexivity. Qed.
Example consumer_ex : consumer_name (bs "MAIL_OUTBOUND") (bs "mail.outbound.>") = bs "MAIL_OUTBOUND_mail_outbound_all".
Proof. vm_compute. reflexivity. Qed.

(** * The watchdog *)

Record WatchdogConfig := mkConfig { Label : bytes; has_OnFail : bool; Interval : Z; GracePeriod : Z; MaxConsecutiveMisses : Z }.

(** The defaults of [StartWatchdog], in seconds; [None] is its error. *)
Definition configure (c : WatchdogConfig) : option WatchdogConfig :=
  if bool_decide (Label c = []) || negb (has_OnFail c) then None
  else Some (mkConfig (Label c) true
    (if Interval c =? 0 then 30 else Interval c) (if GracePeriod c =? 0 then 10 else GracePeriod c)
    (if MaxConsecutiveMisses c =? 0 then 3 else MaxConsecutiveMisses c)).

Definition lastSubjectToken (s : bytes) : bytes :=
  match LastIndexByte "." s with Some i => drop (S i) s | None => [] end.

(** [watchdogPending.seen] and the loop's counter; [alive] until OnFail. *)
Record watchdog := mkDog { seen : gset bytes; consecutiveMisses : Z; alive : bool }.

Definition expect (id : bytes) (seen : gset bytes) : gset bytes := seen ∖ {[id]}.
Definition markSeen (id : bytes) (seen : gset bytes) : gset bytes := {[id]} ∪ seen.
Definition consume (id : bytes) (seen : gset bytes) : bool * gset bytes :=
  if bool_decide (id ∈ seen) then (false, seen ∖ {[id]}) else (true, seen).

(** The subscription's callback. *)
Definition on_message (subject : bytes) (seen : gset bytes) : gset bytes :=
  let id := lastSubjectToken subject in
  if bool_decide (id = []) then seen else markSeen id seen.

Definition ping_subject (c : WatchdogConfig) (id : bytes) : bytes := bs "_bmail.health." ++ Label c ++ bs "." ++ id.

(** What happens: a tick without a payload, a heartbeat with the messages that
    arrive before its grace period ends, a message at any other time. *)
Inductive event :=
| NoPayload
| Beat (id : bytes) (published : bool) (arriving : list bytes)
| Arrives (subject : bytes).

Definition beat (c : WatchdogConfig) (id : bytes) (published : bool) (arriving : list bytes) (w : watchdog) : watchdog :=
  let s := foldl (fun s m => on_message m s) (expect id (seen w)) arriving in
  let '(s, misses) :=
    if published
    then let '(missed, s) := consume id s in (s, if (missed : bool) then consecutiveMisses w + 1 else 0)
    else (s, consecutiveMisses w + 1) in
  mkDog s misses (misses <? MaxConsecutiveMisses c).

Definition on_event (c : WatchdogConfig) (w : watchdog) (e : event) : watchdog :=
  if alive w then
    match e with
    | NoPayload => w
    | Beat id published arriving => beat c id published arriving w
    | Arrives m => mkDog (on_message m (seen w)) (consecutiveMisses w) true
    end
  else w.

Definition watch (c : WatchdogConfig) (evs : list event) : watchdog :=
  foldl (on_event c) (mkDog ∅ 0 true) evs.

(** * What is accepted *)

Lemma i64_id x : - 2 ^ 63 <= x < 2 ^ 63 -> i64 x = x.
Proof. intros Hx. unfold i64. rewrite Z.mod_small by lia. lia. Qed.

Lemma i64_u64 x : i64 (u64 x) = i64 x.
Proof. unfold i64, u64. by rewrite Zplus_mod_idemp_l. Qed.

Lemma BE_Uint64_Put x r : BE_Uint64 (BE_PutUint64 x ++ r) = u64 x.
Proof.
  unfold BE_Uint64, BE_PutUint64, LE_Uint64. rewrite take_app_length' by by rewrite length_rev, LittleEndianList.length_le_split.
  rewrite rev_involutive, take_ge by by rewrite LittleEndianList.length_le_split.
  rewrite LittleEndianList.le_combine_split. done.
Qed.

Lemma BE_Put_Uint64 b : length b = 8%nat -> BE_PutUint64 (BE_Uint64 b) = b.
Proof.
  intros Hb. unfold BE_Uint64, BE_PutUint64, LE_Uint64. rewrite (take_ge b) by lia.
  rewrite take_ge by (rewrite length_rev; lia).
  assert (length (rev b) = 8%nat) as Hr by by rewrite length_rev.
  rewrite <-Hr at 1. rewrite LittleEndianList.split_le_combine. apply rev_involutive.
Qed.

Section theorems.
Context `{PrimitiveLaws} `{Entropy} `{!EntropyLaws}.
Context (hmac : bytes -> bytes -> bytes) (hmac_length : forall k m, length (hmac k m) = hmacTagSize).
Context (q : QueueClient) (Hkey : length (encKey q) = KeySize).

Lemma good_enc : good_key (encKey q) = true.
Proof. unfold good_key. by rewrite Hkey. Qed.

Lemma length_envelope ts nonce data subject : length nonce = NonceSizeX ->
  length (envelope hmac q ts nonce data subject) = (hmacTagSize + timestampSize + NonceSizeX + (length data + 16))%nat.
Proof.
  intros Hn. unfold envelope, tag_of. rewrite !length_app, hmac_length, length_BE_PutUint64, Seal_length.
  unfold timestampSize. lia.
Qed.

(** The three fields of an envelope. *)
Lemma fields_of_envelope ts nonce data subject :
  let enc := nonce ++ aead_Seal (encKey q) nonce data subject in
  let m := envelope hmac q ts nonce data subject in
  take hmacTagSize m = tag_of hmac q (BE_PutUint64 ts) enc /\
  take timestampSize (drop hmacTagSize m) = BE_PutUint64 ts /\
  drop (hmacTagSize + timestampSize) m = enc.
Proof.
  intros enc m. unfold m, envelope. fold enc. set (tag := tag_of hmac q _ _).
  assert (length tag = hmacTagSize) as Ht by apply hmac_length.
  assert (length (BE_PutUint64 ts) = timestampSize) as Hts by apply length_BE_PutUint64.
  split_and!.
  - by rewrite take_app_length'.
  - rewrite drop_app_length' by done. by rewrite take_app_length'.
  - by rewrite <-drop_drop, !drop_app_length' by done.
Qed.

Lemma verify_envelope now ts nonce data subject : length nonce = NonceSizeX ->
  - maxClockSkew <= i64 (now - i64 ts) <= maxMessageAge ->
  verifyMessage hmac q now (envelope hmac q ts nonce data subject) subject = Ok data.
Proof.
  intros Hn Hage. unfold verifyMessage. rewrite length_envelope by done.
  destruct (Nat.ltb_spec (hmacTagSize + timestampSize + NonceSizeX + (length data + 16)) (hmacTagSize + timestampSize + NonceSizeX)); [lia|].
  destruct (fields_of_envelope ts nonce data subject) as (-> & -> & ->).
  rewrite bool_decide_eq_true_2 by done. cbn [negb].
  rewrite <-(app_nil_r (BE_PutUint64 ts)), BE_Uint64_Put, i64_u64.
  rewrite (proj2 (Z.ltb_ge _ _)) by lia. rewrite (proj2 (Z.ltb_ge _ _)) by lia.
  rewrite (proj2 (Nat.ltb_ge _ _)) by (rewrite length_app; lia).
  rewrite good_enc. cbn [negb]. rewrite take_app_length', drop_app_length' by done. by rewrite Open_Seal.
Qed.

Lemma verify_sound now signed subject data : verifyMessage hmac q now signed subject = Ok data ->
  exists ts nonce, length nonce = NonceSizeX /\
    - maxClockSkew <= i64 (now - i64 ts) <= maxMessageAge /\
    signed = envelope hmac q ts nonce data subject.
Proof.
  unfold verifyMessage. destruct (Nat.ltb_spec (length signed) (hmacTagSize + timestampSize + NonceSizeX)) as [|Hl]; [done|].
  case_bool_decide as Htag; [|done]. cbn [negb].
  set (ts := take timestampSize (drop hmacTagSize signed)) in *. set (enc := drop (hmacTagSize + timestampSize) signed) in *.
  destruct (Z.ltb_spec (i64 (now - i64 (BE_Uint64 ts))) (- maxClockSkew)) as [|Hlo]; [done|].
  destruct (Z.ltb_spec maxMessageAge (i64 (now - i64 (BE_Uint64 ts)))) as [|Hhi]; [done|].
  destruct (Nat.ltb_spec (length enc) NonceSizeX) as [|Henc]; [done|]. rewrite good_enc. cbn [negb].
  destruct (aead_Open _ _ _ _) as [p|] eqn:Ho; [|done]. intros [= ->]. apply Open_sound in Ho.
  assert (length ts = 8%nat) as Hts.
  { unfold ts. rewrite length_take, length_drop. unfold hmacTagSize, timestampSize in *. lia. }
  exists (BE_Uint64 ts), (take NonceSizeX enc). split; [rewrite length_take; lia|]. split; [done|].
  unfold envelope. rewrite <-Ho, take_drop, BE_Put_Uint64, <-Htag by done.
  unfold ts, enc. rewrite <-(take_drop hmacTagSize signed) at 1. f_equal.
  by rewrite <-drop_drop, take_drop.
Qed.

(** What a queue delivers under a subject is exactly what was sealed for
    that subject with the shared keys, stamped at most 60 seconds ago and at
    most 30 seconds ahead; in particular nothing sealed for another subject. *)
Theorem verify_accepts_iff now signed subject data :
  verifyMessage hmac q now signed subject = Ok data <->
  exists ts nonce, length nonce = NonceSizeX /\
    - maxClockSkew <= i64 (now - i64 ts) <= maxMessageAge /\
    signed = envelope hmac q ts nonce data subject.
Proof.
  split; [apply verify_sound|]. intros (ts & nonce & Hn & Hage & ->). by apply verify_envelope.
Qed.

Lemma sign_spec t0 data subject w m w' : signMessage hmac q t0 data subject w = (Some m, w') ->
  exists nonce, length nonce = NonceSizeX /\ m = envelope hmac q t0 nonce data subject.
Proof.
  unfold signMessage. rewrite good_enc. cbn [negb]. unfold mbind, M_bind, rand_Read.
  destruct (read_random (reads w) NonceSizeX) as [nonce|] eqn:E; [|done]. intros [= <- <-].
  exists nonce. split; [by eapply read_random_length|done].
Qed.

(** Clocks of this era: [time.Now().Unix()] is far from overflowing. *)
Definition era (t : Z) : Prop := 0 <= t < 2 ^ 62.

Lemma era_age now t : era now -> era t -> i64 (now - i64 t) = now - t.
Proof. intros [] []. rewrite (i64_id t) by lia. apply i64_id. lia. Qed.

Lemma dispatch_early t0 now data subject nonce h : length nonce = NonceSizeX -> era t0 -> era now ->
  t0 - maxClockSkew <= now <= t0 + maxMessageAge ->
  dispatch hmac q now (envelope hmac q t0 nonce data subject) subject h = if h data then Ack else Nak.
Proof.
  intros Hn Ht Hw Hage. unfold dispatch. rewrite verify_envelope; [done|done|]. rewrite era_age by done. lia.
Qed.

Lemma envelope_inj ts ts' nonce nonce' data data' subject : length nonce = NonceSizeX -> length nonce' = NonceSizeX ->
  envelope hmac q ts nonce data subject = envelope hmac q ts' nonce' data' subject -> u64 ts = u64 ts' /\ data = data'.
Proof.
  intros Hn Hn' E. destruct (fields_of_envelope ts nonce data subject) as (_ & E2 & E3).
  destruct (fields_of_envelope ts' nonce' data' subject) as (_ & F2 & F3). rewrite E in E2, E3.
  rewrite E2 in F2. apply BE_PutUint64_inj in F2. split; [done|].
  rewrite E3 in F3. apply app_inj_1 in F3 as [-> Es]; [|congruence].
  apply (f_equal (fun c => aead_Open (encKey q) nonce' c subject)) in Es. rewrite !Open_Seal in Es. by injection Es.
Qed.

Lemma dispatch_late t0 now data subject nonce h : length nonce = NonceSizeX -> era t0 -> era now ->
  t0 + maxMessageAge < now ->
  dispatch hmac q now (envelope hmac q t0 nonce data subject) subject h = Term.
Proof.
  intros Hn Ht Hw Hage. unfold dispatch.
  destruct (verifyMessage hmac q now _ subject) as [d|] eqn:E; [|done]. exfalso.
  apply verify_sound in E as (ts & nonce' & Hn' & Hts & E).
  apply envelope_inj in E as [Eu _]; [|done..]. rewrite <-(i64_u64 ts), <-Eu, i64_u64, era_age in Hts by done. lia.
Qed.

(** A published message reaches the handler, unchanged, at the first
    delivery within 60 seconds at which the handler succeeds; if there is none,
    the next delivery drops it for good and the handler never sees it again.  A
    backlog of a minute, or a minute of failures, loses the mail. *)
Theorem backlog_loses_mail t0 data subject w m w' fails now h rest
    (Hs : signMessage hmac q t0 data subject w = (Some m, w')) (Ht0 : era t0) (Hnow : era now)
    (Hfail : Forall (fun t => era (fst t) /\ t0 - maxClockSkew <= fst t <= t0 + maxMessageAge /\ snd t data = false) fails) :
  (t0 - maxClockSkew <= now <= t0 + maxMessageAge -> h data = true ->
   deliveries hmac q m subject (fails ++ (now, h) :: rest) = Handled) /\
  (t0 + maxMessageAge < now -> deliveries hmac q m subject (fails ++ (now, h) :: rest) = Dropped).
Proof.
  apply sign_spec in Hs as (nonce & Hn & ->).
  assert (deliveries hmac q (envelope hmac q t0 nonce data subject) subject (fails ++ (now, h) :: rest) =
          deliveries hmac q (envelope hmac q t0 nonce data subject) subject ((now, h) :: rest)) as ->.
  { induction Hfail as [|[t g] fails (He & Ht & Hg) _ IH]; [done|]. cbn [app deliveries].
    cbn [fst snd] in *. rewrite dispatch_early, Hg by done. exact IH. }
  cbn [deliveries]. split.
  - intros Hw Hh. by rewrite dispatch_early, Hh.
  - intros Hw. by rewrite dispatch_late.
Qed.
End theorems.

(** ** Subscriptions *)

(** A successful subscription never leaves its consumer ahead of the stream:
    when the broker gives its state and the deletion works, the consumer's
    position is within the stream; no other consumer moves. *)
Theorem subscribe_not_ahead a b subject stream name b' last
    (Hs : Subscribe a b subject = Some (name, b')) (Hstream : stream_of subject = Some stream)
    (Hlast : last_seq b !! stream = Some last) (Hnn : 0 <= last)
    (Hi : info_ok a = true) (Hd : delete_ok a = true) :
  (exists d, delivered b' !! name = Some d /\ d <= last) /\
  forall other, other <> name -> delivered b' !! other = delivered b !! other.
Proof.
  unfold Subscribe in Hs. rewrite Hstream in Hs. cbn [mbind option_bind] in Hs.
  destruct (create_ok a); [|done]. apply (inj Some), pair_equal_spec in Hs as [<- <-].
  cbn [delivered]. unfold heal, stale. rewrite Hi, Hd, Hlast, andb_true_r. cbn [andb].
  set (n := consumer_name stream subject).
  destruct (delivered b !! n) as [d|] eqn:Ed; [destruct (Z.ltb_spec last d)|]; cbn [delivered].
  - rewrite lookup_delete_eq. cbn. split; [exists 0; by rewrite lookup_insert_eq|].
    intros o Ho. by rewrite lookup_insert_ne, lookup_delete_ne.
  - rewrite Ed. cbn. split; [exists d; by rewrite lookup_insert_eq|]. intros o Ho. by rewrite lookup_insert_ne.
  - rewrite Ed. cbn. split; [exists 0; by rewrite lookup_insert_eq|]. intros o Ho. by rewrite lookup_insert_ne.
Qed.

(** ** The watchdog *)

(** A heartbeat is missed when it is not published or its own echo does not
    arrive in time. *)
Definition echoed (id : bytes) (arriving : list bytes) : bool := existsb (fun m => bool_decide (lastSubjectToken m = id)) arriving.
Definition missed (e : event) : option bool :=
  match e with Beat id published arriving => Some (negb (published && echoed id arriving)) | _ => None end.

Definition misses_of (evs : list event) : list bool := omap missed evs.

(** Heartbeats have identifiers. *)
Definition named (e : event) : Prop := match e with Beat id _ _ => id <> [] | _ => True end.

Lemma seen_after id arriving : id <> [] -> forall s,
  id ∈ foldl (fun s m => on_message m s) s arriving <-> id ∈ s \/ echoed id arriving = true.
Proof.
  intros Hid. induction arriving as [|m ms IH]; intros s; cbn [foldl echoed existsb]; [set_solver|].
  rewrite IH, orb_true_iff, bool_decide_eq_true. unfold on_message, markSeen. fold (echoed id ms).
  case_bool_decide as Hm; [|set_solver].
  split; [tauto|]. intros [?|[E|?]]; [tauto| |tauto]. congruence.
Qed.

Lemma beat_misses c id published arriving w : id <> [] ->
  consecutiveMisses (beat c id published arriving w) =
  if negb (published && echoed id arriving) then consecutiveMisses w + 1 else 0.
Proof.
  intros Hid. unfold beat, consume. destruct published; [|done]. cbn [andb].
  pose proof (seen_after id arriving Hid (expect id (seen w))) as Hs. unfold expect in Hs at 2.
  case_bool_decide as Hin; destruct (echoed id arriving); try done; cbn.
  - apply Hs in Hin. set_solver.
  - destruct Hin. apply Hs. by right.
Qed.

(** [k] misses in a row somewhere. *)
Definition streak (k : nat) (l : list bool) : Prop := exists a b, l = a ++ replicate k true ++ b.

Lemma watch_stopped c evs : forall w, alive w = false -> foldl (on_event c) w evs = w.
Proof. induction evs as [|e evs IH]; intros w Hw; [done|]. cbn. unfold on_event at 2. rewrite Hw. by apply IH. Qed.

Lemma streak_false k m l : (m < k)%nat -> streak k (replicate m true ++ false :: l) <-> streak k l.
Proof.
  intros Hm. split.
  - intros (a & b & E). assert (length a <= m -> False)%nat as Hla.
    { intros Hl. assert ((replicate m true ++ false :: l) !! m = Some false) as H1.
      { by rewrite lookup_app_r, length_replicate, Nat.sub_diag by by rewrite length_replicate. }
      rewrite E, lookup_app_r, lookup_app_l, lookup_replicate_2 in H1; [done|lia|rewrite length_replicate; lia|lia]. }
    exists (drop (S m) a), b. apply (f_equal (drop (S m))) in E.
    rewrite (drop_app_le a) in E by lia. rewrite <-E.
    change (false :: l) with ([false] ++ l). rewrite app_assoc, drop_app_length'; [done|].
    rewrite length_app, length_replicate. cbn. lia.
  - intros (a & b & ->). exists (replicate m true ++ false :: a), b. by rewrite <-app_assoc.
Qed.

Lemma streak_short k m : (m < k)%nat -> ~ streak k (replicate m true).
Proof. intros Hm (a & b & E%(f_equal length)). rewrite !length_app, !length_replicate in E. lia. Qed.

Lemma replicate_snoc_true n l : replicate n true ++ true :: l = replicate (S n) true ++ l.
Proof. induction n as [|n IH]; [done|]. cbn in *. by rewrite IH. Qed.

Lemma watch_from c evs : Forall named evs -> forall w,
  alive w = true -> 0 <= consecutiveMisses w < MaxConsecutiveMisses c ->
  alive (foldl (on_event c) w evs) = false <->
  streak (Z.to_nat (MaxConsecutiveMisses c)) (replicate (Z.to_nat (consecutiveMisses w)) true ++ misses_of evs).
Proof.
  induction 1 as [|e evs He _ IH]; intros w Ha Hm; cbn [foldl].
  { rewrite Ha, app_nil_r. split; [done|]. intros []%streak_short. lia. }
  unfold on_event at 2. rewrite Ha. destruct e as [|id published arriving|m].
  - rewrite IH by done. done.
  - set (w' := beat c id published arriving w).
    pose proof (beat_misses c id published arriving w He) as Hb. fold w' in Hb.
    assert (alive w' = (consecutiveMisses w' <? MaxConsecutiveMisses c)) as Hal.
    { unfold w', beat. destruct published; [|done]. by destruct (consume _ _). }
    cbn [misses_of omap list_omap missed]. fold (misses_of evs).
    destruct (negb (published && echoed id arriving)).
    + rewrite replicate_snoc_true. replace (S (Z.to_nat (consecutiveMisses w))) with (Z.to_nat (consecutiveMisses w')) by lia.
      destruct (Z.ltb_spec (consecutiveMisses w') (MaxConsecutiveMisses c)) as [Hlt|Hge].
      * rewrite IH by (done || lia). done.
      * rewrite watch_stopped by done. split; [|done]. intros _. exists [], (misses_of evs). cbn [app].
        by replace (consecutiveMisses w') with (MaxConsecutiveMisses c) by lia.
    + rewrite streak_false by lia. rewrite IH; [|rewrite Hal, Hb; apply Z.ltb_lt; lia|lia]. by rewrite Hb.
  - rewrite IH by done. done.
Qed.

(** The watchdog fires exactly when the configured number of heartbeats in
    a row were missed: not published, or their own echo late.  Nothing else
    counts: neither another instance's heartbeats nor the state of JetStream. *)
Theorem watchdog_fires_iff c evs (Hmax : 0 < MaxConsecutiveMisses c) (Hid : Forall named evs) :
  alive (watch c evs) = false <-> streak (Z.to_nat (MaxConsecutiveMisses c)) (misses_of evs).
Proof. unfold watch. rewrite watch_from by (done || lia). done. Qed.

(** An identifier that is never expected or consumed again stays. *)
Definition foreign (id : bytes) (e : event) : Prop := match e with Beat id' _ _ => id' <> id | _ => True end.

Lemma fold_keeps id ms : forall s, id ∈ s -> id ∈ foldl (fun s m => on_message m s) s ms.
Proof.
  induction ms as [|m ms IH]; intros s Hs; [done|]. cbn. apply IH. unfold on_message, markSeen.
  case_bool_decide; set_solver.
Qed.

Lemma event_keeps c id e w : foreign id e -> id ∈ seen w -> id ∈ seen (on_event c w e).
Proof.
  intros Hf Hs. unfold on_event. destruct (alive w); [|done]. destruct e as [|id' published arriving|m]; [done| |].
  - unfold beat, consume. assert (id ∈ foldl (fun s m => on_message m s) (expect id' (seen w)) arriving) as Hin.
    { apply fold_keeps. unfold expect. cbn in Hf. set_solver. }
    destruct published; [|done]. case_bool_decide; cbn; [|done]. cbn in Hf. set_solver.
  - cbn. unfold on_message, markSeen. case_bool_decide; set_solver.
Qed.

(** The echo of a heartbeat that is not this instance's, or that comes after
    its heartbeat was given up, is remembered for as long as the process lives. *)
Theorem late_echo_leaks c before m after :
  alive (watch c before) = true -> lastSubjectToken m <> [] -> Forall (foreign (lastSubjectToken m)) after ->
  lastSubjectToken m ∈ seen (watch c (before ++ Arrives m :: after)).
Proof.
  intros Ha Hm Hf. unfold watch in *. rewrite foldl_app. cbn [foldl]. set (w := foldl _ _ before) in *.
  assert (lastSubjectToken m ∈ seen (on_event c w (Arrives m))) as Hin.
  { unfold on_event. rewrite Ha. cbn. unfold on_message, markSeen. rewrite bool_decide_eq_false_2 by done. set_solver. }
  revert Hin. generalize (on_event c w (Arrives m)). clear -Hf.
  induction Hf as [|e after He _ IH]; intros w Hin; [done|]. cbn. apply IH. by apply event_keeps.
Qed.

(** * Witnesses *)

#[local] Existing Instances toy toy_laws toy_entropy toy_entropy_laws.
#[local] Definition toy_hmac (k m : bytes) : bytes := toy_pad 32 (k ++ m).
#[local] Definition demo_q : QueueClient := mkClient (toy_key 3) (toy_key 4).

Lemma toy_hmac_length k m : length (toy_hmac k m) = hmacTagSize.
Proof. apply toy_pad_length. Qed.

Lemma verify_accepts_iff_witness :
  verifyMessage toy_hmac demo_q 1060 (envelope toy_hmac demo_q 1000 (replicate 24 x01) (bs "mail") (bs "s")) (bs "s")
  = Ok (bs "mail").
Proof.
  apply (verify_accepts_iff toy_hmac toy_hmac_length demo_q eq_refl).
  exists 1000, (replicate 24 x01). split_and!; [reflexivity|vm_compute; discriminate|vm_compute; discriminate|reflexivity].
Defined.

Lemma backlog_loses_mail_witness : exists m,
  deliveries toy_hmac demo_q m (bs "s") [(1010, fun _ => false); (1061, fun _ => true)] = Dropped.
Proof.
  destruct (signMessage toy_hmac demo_q 1000 (bs "mail") (bs "s") toy_world) as [[m|] w] eqn:E; [|vm_compute in E; discriminate E].
  exists m. apply (backlog_loses_mail toy_hmac toy_hmac_length demo_q eq_refl 1000 (bs "mail") (bs "s") toy_world m w
    [(1010, fun _ => false)] 1061 (fun _ => true) [] E).
  - by split.
  - by split.
  - repeat constructor; cbn; done.
  - reflexivity.
Defined.

#[local] Definition outdated : broker :=
  mkBroker {[bs "MAIL_OUTBOUND" := 5]} {[bs "MAIL_OUTBOUND_mail_outbound_all" := 9]}.

Lemma subscribe_not_ahead_witness :
  exists b' d, Subscribe (mkAnswers true true true) outdated (bs "mail.outbound.>") =
    Some (bs "MAIL_OUTBOUND_mail_outbound_all", b') /\
  delivered b' !! bs "MAIL_OUTBOUND_mail_outbound_all" = Some d /\ d <= 5.
Proof.
  destruct (Subscribe (mkAnswers true true true) outdated (bs "mail.outbound.>")) as [[name b']|] eqn:E;
    [|vm_compute in E; discriminate E].
  assert (name = bs "MAIL_OUTBOUND_mail_outbound_all") as -> by (vm_compute in E; by injection E as <- _).
  destruct (subscribe_not_ahead (mkAnswers true true true) outdated (bs "mail.outbound.>") (bs "MAIL_OUTBOUND") _ b' 5 E)
    as [(d & Hd & Hle) _]; [reflexivity|by apply lookup_singleton_Some|done|done|done|].
  exists b', d. split; [reflexivity|]. by split.
Defined.

#[local] Definition conf : WatchdogConfig := mkConfig (bs "w") true 30 10 3.
#[local] Definition silent : list event := [Beat (bs "a") true [bs "h.w.a"]; Beat (bs "b") false []; Beat (bs "c") true [bs "h.w.a"]; NoPayload; Beat (bs "d") true []].

Lemma watchdog_fires_iff_witness : alive (watch conf silent) = false.
Proof.
  apply watchdog_fires_iff; [done|repeat constructor; discriminate|]. exists [false], []. reflexivity.
Defined.

Lemma late_echo_leaks_witness : bs "x" ∈ seen (watch conf ([] ++ Arrives (bs "h.w.x") :: silent)).
Proof.
  apply (late_echo_leaks conf [] (bs "h.w.x") silent); [reflexivity|discriminate|repeat constructor; discriminate].
Defined.
