(* ===== verification/Pipeline.v ===== *)
(** Inbound delivery: src/internal/smtp/pipeline.go, with the address tokens of
    src/internal/storage/blind_index.go and the header envelope of
    src/internal/storage/header_envelope.go.

[ProcessMessage] and [ProcessGroupMessage] run in [P]: a state of random
draws, the sender-hash variables and what has been done so far, and
results that can be errors, panics or a computation that does not end.
go-message, encoding/json, DNS, DKIM, Ed25519, SHA-256, HMAC, the clock and
the SQL stores are parameters ([Libs], and the fields of [Pipeline]).
Bytes read from a part live in numbered buffers, because the code keeps two
references to one buffer and overwrites it through one of them. *)

From stdpp Require Import gmap.
From S2P Require Import Prelude Hex GoNet FilePath GoStrings AuthChecks Float Spam MailParse Pgp Rules.
From S2P Require Import Calendar Receiver Binary Aead ToyCrypto Envelope Chunked Encrypt Receipt.
Local Open Scope Z_scope.

(** * Messages on the queue *)

Record EncryptedInboundAttachment := mkEncAtt {
  ea_EphemeralPubkey : bytes;
  ea_EncryptedKey : bytes;
  ea_EncryptedData : bytes;
  ea_EncryptedMetadata : bytes;
  ea_SizeBytes : Z
}.

Record InboundMessage := mkInbound {
  im_SenderBlindIndex : bytes;
  im_RuleMoveFolderID : bytes;
  im_RuleLabelIDs : list bytes;
  im_RuleMarkRead : bool;
  im_RuleMarkStarred : bool;
  im_TenantID : bytes;
  im_UserID : bytes;
  im_GroupID : bytes;
  im_GroupKeyEpoch : Z;
  im_Encrypted : EncryptedMessage;          (* its five fields *)
  im_SPFResult : string;
  im_DKIMResult : string;
  im_DMARCResult : string;
  im_Receipt : bytes;
  im_FolderAssignment : bytes;
  im_ReceivedAt : Z * Z;
  im_InReplyTo : bytes;
  im_References : bytes;
  im_MessageID : bytes;
  im_EncryptionType : bytes;
  im_AutocryptAddr : bytes;
  im_AutocryptKeyData : bytes;
  im_AutocryptPrefer : bytes;
  im_EncryptedAttachments : list EncryptedInboundAttachment;
  im_EncryptedRaw : EncryptedRawMessage;    (* body, key, ephemeral key, metadata *)
  im_RawBlobFormat : bytes
}.

Record outboundPayload := mkOutbound {
  ToAddress : bytes;
  SenderAddress : bytes;
  ob_EncryptedBody : bytes;
  ob_EncryptedSubject : bytes;
  ob_TenantID : bytes;
  RFCMessageID : bytes;
  ob_InReplyTo : bytes;
  SenderUserID : bytes
}.

(** The row that [storeAutoReplySentCopy] inserts.  storage.Message has no
    field for the encrypted body; [BlobRef] would name it. *)
Record sentCopy := mkSent {
  sc_UserID : bytes;
  sc_FolderID : bytes;
  sc_EncryptedSubject : bytes;
  sc_EncryptedMessageKey : bytes;
  sc_EphemeralPubkey : bytes;
  sc_EncryptedHeaders : bytes;
  sc_SenderBlindIndex : bytes;
  sc_SizeBytes : Z;
  sc_KeyEpoch : Z;
  sc_InReplyTo : option bytes;
  sc_RFCMessageID : bytes;
  sc_BlobRef : bytes
}.

Inductive effect :=
| AutoAdd (user addr : bytes)
| RecordAutoReply (user blind : bytes)
| Publish (natsSubject : bytes) (m : InboundMessage)
| PublishReply (natsSubject : bytes) (r : outboundPayload)
| InsertMessage (m : sentCopy)
| CalendarEffects (l : list Calendar.effect).

(** * Parameters *)

Inductive part :=
| InlinePart (ct cid : bytes) (body : option bytes)
| AttachedPart (filename ct cid : bytes) (body : option bytes).

(** What go-message gives for a message: the decoded Subject, the header fields
    from the top, and the parts before the first error; a part's body is [None]
    when reading it fails. *)
Record mail := mkMail {
  mail_Subject : bytes;
  mail_Fields : list (bytes * bytes);
  mail_Parts : list part
}.

Record Libs := {
  CreateReader : bytes -> option mail;
  ParseMediaType : bytes -> option (bytes * (bytes -> bytes));
  DecodeWords : bytes -> option bytes;
  parse_fuel : nat;
  LookupTXT : nat -> bytes -> option (list bytes);
  LookupHost : nat -> bytes -> option (list bytes);
  LookupMX : nat -> bytes -> option (list bytes);
  EffectiveTLDPlusOne : bytes -> option bytes;
  dkim_Verify : bytes -> option (list (bool * bytes));
  sha256 : bytes -> bytes;
  ed25519_Sign : bytes -> bytes -> bytes;
  salt_text : Z -> Z -> bytes;
  production : bool;
  year : Z; today : Z; now : Z * Z;
  hmac : bytes -> bytes -> bytes;
  blindIndexSecret : option bytes;
  json_receipt : EnclaveReceipt -> bytes;
  json_headers : Header -> bytes;
  json_meta : list rawMetaPart * Header -> bytes;
  quote : bytes -> bytes;                         (* fmt's %q *)
  uuid : bytes;
  ToUpper : bytes -> bytes; ToLowerU : bytes -> bytes;
  Unmarshal_conditions : bytes -> option (list ruleCondition);
  Unmarshal_actions : bytes -> option (list ruleAction)
}.

Record AutoReply := mkReply {
  ar_Enabled : bool; ar_Subject : bytes; ar_Body : bytes;
  StartDate : option Z; EndDate : option Z          (* nanoseconds *)
}.

(** The optional stores are options; a query that fails answers [None]. *)
Record Pipeline := {
  directory : Directory;
  blockStore : option (bytes -> bytes -> option bool);
  contactsStore : bool;
  ruleStore : option (bytes -> bytes -> option (list MailRule));
  mailStore : bool;
  groupStore : option (bytes -> option (list (bytes * Z)));   (* member, joined_at_epoch *)
  folderStore : option (bytes -> bytes -> option bytes);      (* user, type *)
  autoReplyStore : option (bytes -> option AutoReply);
  autoReplyDedup : option (bytes -> bytes -> option bool);
  calendarStore : option Calendar.calendarStore;
  queue_ok : list effect -> bool;
  signingKey : bytes;
  signingPub : bytes;
  enclaveID : bytes;
  spamFilter : option (IP -> bytes -> bytes -> Header -> bytes -> string -> string -> string -> SpamResult);
  tlsActive : bool
}.

(** * The monad *)

Inductive perr :=
| ErrParse | ErrRecipient | ErrRecipientKey | ErrEncrypt | ErrReceipt | ErrPublish | ErrGroup
| Panic | Endless.

Record pworld := mkPW { draws : world; hashing : hasher; done : list effect }.

Definition P (A : Type) : Type := pworld -> result perr A * pworld.

#[export] Instance P_ret : MRet P := fun A a w => (Ok a, w).
#[export] Instance P_bind : MBind P := fun A B f m w =>
  match m w with (Ok a, w) => f a w | (Err e, w) => (Err e, w) end.

Definition failP {A} (e : perr) : P A := fun w => (Err e, w).
Definition liftP {A} (e : perr) (o : option A) : P A :=
  match o with Some a => mret a | None => failP e end.
Definition crypt {A} (e : perr) (m : M A) : P A := fun w =>
  let '(r, d) := m (draws w) in (of_option e r, mkPW d (hashing w) (done w)).
Definition emit (x : effect) : P unit := fun w => (Ok tt, mkPW (draws w) (hashing w) (done w ++ [x])).

(** * Parsing *)

Record InboundAttachment := mkAtt {
  att_Filename : bytes; att_ContentType : bytes; att_ContentID : bytes;
  att_Data : nat                                      (* buffer *)
}.

(** The variables of [parseMessage]'s loop. *)
Record part_state := mkPS {
  textBody : option bytes;
  htmlBody : option bytes;
  attachments : list InboundAttachment;
  calendarICS : option nat;                           (* buffer *)
  buffers : list bytes
}.

Definition limit (n : Z) (b : bytes) : bytes :=
  if n <? Z.of_nat (length b) then take (Z.to_nat n) b else b.

Definition trim_both (cutset s : bytes) : bytes :=
  trim_right cutset (snd (span (fun c => bool_decide (c ∈ cutset)) s)).

Definition trim_angles (s : bytes) : bytes := trim_both (bs "<>") s.

Definition is_calendar (ct : bytes) : bool := HasPrefix ct (bs "text/calendar").
Definition is_image (ct : bytes) : bool := HasPrefix ct (bs "image/").

Definition inline_part (s : part_state) (ct cid body : bytes) : part_state :=
  let body := limit (10 * 1024 * 1024) body in
  if bool_decide (ct = bs "text/html") then
    mkPS (textBody s) (Some body) (attachments s) (calendarICS s) (buffers s)
  else if bool_decide (ct = bs "text/plain") then
    mkPS (Some body) (htmlBody s) (attachments s) (calendarICS s) (buffers s)
  else if is_calendar ct then
    mkPS (textBody s) (htmlBody s) (attachments s) (Some (length (buffers s))) (buffers s ++ [body])
  else if is_image ct then
    let cid := trim_angles cid in
    let filename := if bool_decide (cid = []) then bs "inline-image" else cid in
    mkPS (textBody s) (htmlBody s) (attachments s ++ [mkAtt filename ct cid (length (buffers s))])
      (calendarICS s) (buffers s ++ [body])
  else s.

Definition attached_part (s : part_state) (filename ct cid body : bytes) : part_state :=
  let cid := trim_angles cid in
  let filename :=
    if bool_decide (filename = [])
    then if negb (bool_decide (cid = [])) && is_image ct then cid else bs "attachment"
    else filename in
  let ct := if bool_decide (ct = []) then bs "application/octet-stream" else ct in
  let data := length (buffers s) in
  let ics := match calendarICS s with
             | Some b => Some b
             | None => if is_calendar ct || HasSuffix (GoNet.ToLower filename) (bs ".ics")
                       then Some data else None
             end in
  mkPS (textBody s) (htmlBody s) (attachments s ++ [mkAtt filename ct cid data]) ics
    (buffers s ++ [limit (25 * 1024 * 1024) body]).

Definition read_part (s : part_state) (p : part) : part_state :=
  match p with
  | InlinePart ct cid (Some body) => inline_part s ct cid body
  | AttachedPart filename ct cid (Some body) => attached_part s filename ct cid body
  | _ => s
  end.

Definition extractRawBody (raw : bytes) : bytes :=
  match Index raw [x0d; x0a; x0d; x0a] with
  | Some i => drop (i + 4) raw
  | None => match Index raw [x0a; x0a] with Some i => drop (i + 2) raw | None => raw end
  end.

Record parsedMessage := mkParsed {
  Subject : bytes;
  pm_Body : bytes;
  InReplyTo : bytes;
  References : bytes;
  MessageID : bytes;
  Headers : Header;
  Attachments : list InboundAttachment;
  CalendarICS : option nat
}.

Definition addressDisplayHeaders : list bytes := bs <$>
  ["From"%string; "To"%string; "Cc"%string; "Bcc"%string; "Reply-To"%string; "Sender"%string].

Definition field_get (m : mail) (key : bytes) : bytes :=
  match list_find (fun f => f.1 = key) (mail_Fields m) with Some (_, f) => f.2 | None => [] end.

Section pipeline.
Context `{Primitives} `{Entropy}.
Context (L : Libs) (p : Pipeline).

Definition header_map (m : mail) : Header :=
  foldl (fun h f =>
    let val := if bool_decide (f.1 ∈ addressDisplayHeaders) then DecodeHeader (DecodeWords L) f.2 else f.2 in
    header_add h f.1 val) [] (mail_Fields m).

(** [parseMessageFull]; the buffers of the parts beside the message. *)
Definition parseMessageFull (raw : bytes) : option (parsedMessage * list bytes) :=
  m ← CreateReader L raw;
  let s := foldl read_part (mkPS None None [] None []) (mail_Parts m) in
  let body := match htmlBody s, textBody s with
              | Some b, _ => b
              | None, Some b => b
              | None, None => extractRawBody raw
              end in
  Some (mkParsed (mail_Subject m) body (field_get m (bs "In-Reply-To")) (field_get m (bs "References"))
          (field_get m (bs "Message-Id")) (header_map m) (attachments s) (calendarICS s), buffers s).

(** * Checks *)

Definition domain_after_at (from : bytes) : bytes :=
  match LastIndexByte "@" from with Some i => drop (S i) from | None => [] end.

(** [CheckSPF] returns an error exactly with its two error results, and
    [checkSPFWithCounter] within its fuel. *)
Definition runSecurityChecks (from : bytes) (clientIP : IP) (raw : bytes) : string * string * string :=
  let fromDomain := domain_after_at from in
  let spf := match CheckSPF (LookupTXT L) (LookupHost L) (LookupMX L) clientIP fromDomain from with
             | Some (r, _) => r
             | None => "temperror"%string
             end in
  let spf := if String.eqb spf "permerror" then "temperror"%string else spf in
  let '(dkim, dkimDomain) := CheckDKIM (dkim_Verify L) raw in
  let dmarc := CheckDMARC (EffectiveTLDPlusOne L) (LookupTXT L 0) fromDomain spf fromDomain dkim dkimDomain in
  (spf, dkim, dmarc).

Definition extractAutocrypt (h : Header) : bytes * bytes * bytes :=
  match exact h (bs "Autocrypt") with
  | [] => ([], [], [])
  | v :: _ =>
      match ParseAutocryptHeader v with
      | Some a => (ac_email a, base64 (ac_key a), ac_prefer a)
      | None => ([], [], [])
      end
  end.

(** The verdict of steps 2 and 3: the results, the score and the folder. *)
Record verdict := mkVerdict {
  v_spf : string; v_dkim : string; v_dmarc : string; v_score : float64; v_folder : bytes
}.

Definition classify (from : bytes) (ip : IP) (helo raw : bytes) (h : Header) (body : bytes) : verdict :=
  let '(spf, dkim, dmarc) := runSecurityChecks from ip raw in
  let '(score, folder) :=
    match spamFilter p with
    | Some check => let r := check ip helo from h body spf dkim dmarc in
                    (Score r, bs (Spam.FolderAssignment r))
    | None => (f0, bs "inbox")
    end in
  let folder := if String.eqb dmarc "reject" then bs "junk" else folder in
  mkVerdict spf dkim dmarc score folder.

(** encoding/json refuses NaN and infinities. *)
Definition marshal_receipt (r : EnclaveReceipt) (score : float64) : option bytes :=
  match score with
  | S754_nan | S754_infinity _ => None
  | _ => Some (json_receipt L r)
  end.

Definition HashSenderP (from : bytes) : P bytes := fun w =>
  match HashSender (sha256 L) (salt_text L) (production L) (year L) (today L) from (hashing w) with
  | Some (h, st) => (Ok h, mkPW (draws w) st (done w))
  | None => (Err Panic, w)
  end.

Definition buildEnclaveReceipt (raw ciphertext from : bytes) (v : verdict) (folder : bytes) : P bytes :=
  senderHash ← HashSenderP from;
  let receipt := mkReceipt (sha256 L raw) (sha256 L ciphertext) senderHash
    (take 32 (signingPub p ++ replicate 32 x00)) (now L) (enclaveID p) (tlsActive p)
    (bs (v_spf v)) (bs (v_dkim v)) (bs (v_dmarc v)) (Float64bits (v_score v)) folder [] in
  let '(sig, receipt) := SignReceipt (ed25519_Sign L) receipt (signingKey p) in
  match sig with
  | None => failP ErrReceipt
  | Some _ => liftP ErrReceipt (marshal_receipt receipt (v_score v))
  end.

(** [ComputeAddressBlindIndex]; a user id is its text here and 16 bytes there. *)
Definition ComputeAddressBlindIndex (scope userID address : bytes) : P bytes :=
  secret ← liftP Panic (blindIndexSecret L);
  let normalized := GoNet.ToLower (TrimSpace address) in
  mret (hex_bytes (hmac L secret (scope ++ bs ":" ++ userID ++ bs ":" ++ normalized))).

Definition BlindScopeMessageSender : bytes := bs "message-sender-v1".

(** [MarshalMessageHeaders] cannot fail on strings. *)
Definition MarshalMessageHeaders (h : Header) : bytes := json_headers L h.

Definition BuildSimpleHeadersJSON (from : bytes) (to cc bcc : list bytes)
    (dateRFC messageID inReplyTo references : bytes) : bytes :=
  let one k v h := if bool_decide (v = []) then h else header_set h (bs k) [v] in
  let many k vs h := if bool_decide (vs = []) then h else header_set h (bs k) vs in
  let h := one "From" from [] in
  let h := many "To" to h in
  let h := many "Cc" cc h in
  let h := many "Bcc" bcc h in
  let h := one "Date" dateRFC h in
  let h := one "Message-ID" messageID h in
  let h := one "In-Reply-To" inReplyTo h in
  let h := one "References" references h in
  MarshalMessageHeaders h.

(** * Encryption *)

(** An ML-KEM key that does not parse is dropped. *)
Definition parse_kem (kemKey : bytes) : option bytes :=
  if bool_decide (kemKey = []) then None
  else if (length kemKey =? 1184)%nat && kem_valid kemKey then Some kemKey else None.

Definition recipient_keys (x25519Key kemKey : bytes) : P (bytes * option bytes) :=
  pub ← liftP ErrRecipientKey (NewPublicKey x25519Key);
  mret (pub, parse_kem kemKey).

Definition metadata_json (a : InboundAttachment) : bytes :=
  bs "{" ++ [x22] ++ bs "filename" ++ [x22] ++ bs ":" ++ quote L (att_Filename a) ++
  bs "," ++ [x22] ++ bs "content_type" ++ [x22] ++ bs ":" ++ quote L (att_ContentType a) ++
  bs "," ++ [x22] ++ bs "content_id" ++ [x22] ++ bs ":" ++ quote L (att_ContentID a) ++ bs "}".

Definition buffer (bufs : list bytes) (i : nat) : bytes := default [] (bufs !! i).

(** Encrypts the attachments in turn and overwrites each buffer afterwards. *)
Fixpoint encrypt_attachments (pub : bytes) (ek : option bytes) (atts : list InboundAttachment)
    (bufs : list bytes) : P (list EncryptedInboundAttachment * list bytes) :=
  match atts with
  | [] => mret ([], bufs)
  | a :: atts =>
      let data := buffer bufs (att_Data a) in
      enc ← crypt ErrEncrypt (EncryptMessageHybrid pub ek (metadata_json a) data);
      let bufs := <[att_Data a := ZeroBytes data]> bufs in
      '(rest, bufs) ← encrypt_attachments pub ek atts bufs;
      mret (mkEncAtt (EphemeralPubkey enc) (EncryptedMessageKey enc) (EncryptedBody enc)
              (EncryptedSubject enc) (Z.of_nat (length data)) :: rest, bufs)
  end.

Definition encrypt_raw (pub : bytes) (ek : option bytes) (raw : bytes) : P EncryptedRawMessage :=
  meta ← liftP Endless (buildRawMeta (ParseMediaType L) (DecodeWords L) (parse_fuel L) raw);
  crypt ErrEncrypt (EncryptRawMessageWithMetaHybrid pub ek raw (json_meta L meta) DefaultChunkSize).

(** * After receipt *)

Definition publish (x : effect) : P bool := fun w =>
  if queue_ok p (done w) then (Ok true, mkPW (draws w) (hashing w) (done w ++ [x])) else (Ok false, w).

Definition nanoseconds (t : Z * Z) : Z := fst t * 10 ^ 9 + snd t.

(** Enabled, with a body, and inside its dates; the last day counts. *)
Definition reply_due (ar : AutoReply) : bool :=
  let t := nanoseconds (now L) in
  ar_Enabled ar && negb (bool_decide (ar_Body ar = [])) &&
  match StartDate ar with Some s => negb (t <? s) | None => true end &&
  match EndDate ar with Some e => negb (e + 24 * 3600 * 10 ^ 9 <? t) | None => true end.

(** [storeAutoReplySentCopy]: any failure ends it quietly. *)
Definition storeAutoReplySentCopy (u : User) (addr subject body inReplyTo rfcMsgID : bytes) : P unit :=
  match NewPublicKey (PublicKeyEncryption u) with
  | None => mret tt
  | Some pub =>
      let ek := parse_kem (PublicKeyKEM u) in
      match (match folderStore p with Some get => get (UserID u) (bs "sent") | None => None end) with
      | None => mret tt
      | Some folder =>
          let headersJSON := BuildSimpleHeadersJSON (Address u) [addr] [] [] [] rfcMsgID inReplyTo [] in
          fun w =>
            match EncryptMessageWithHeadersHybrid pub ek subject body (Some headersJSON) (draws w) with
            | (None, d) => (Ok tt, mkPW d (hashing w) (done w))
            | (Some enc, d) =>
                (blind ← ComputeAddressBlindIndex BlindScopeMessageSender (UserID u) (Address u);
                 emit (InsertMessage (mkSent (UserID u) folder (EncryptedSubject enc)
                   (EncryptedMessageKey enc) (EphemeralPubkey enc) (EncryptedHeaders enc) blind
                   (Z.of_nat (length body)) (KeyEpoch u)
                   (if bool_decide (inReplyTo = []) then None else Some inReplyTo) rfcMsgID [])))
                  (mkPW d (hashing w) (done w))
            end
      end
  end.

(** The dedup table's answer; [None] is "do not reply". *)
Definition reply_allowed (u : User) (senderAddress : bytes) : P bool :=
  match autoReplyDedup p with
  | None => mret true
  | Some try =>
      senderBlind ← ComputeAddressBlindIndex BlindScopeMessageSender (UserID u) senderAddress;
      match try (UserID u) senderBlind with
      | Some true => _ ← emit (RecordAutoReply (UserID u) senderBlind); mret true
      | _ => mret false
      end
  end.

Definition reply_domain (u : User) : bytes :=
  match LastIndexByte "@" (Address u) with Some i => drop (S i) (Address u) | None => bs "bmail.ag" end.

Definition maybeSendAutoReply (get : bytes -> option AutoReply) (u : User)
    (senderAddress originalMessageID : bytes) : P unit :=
  match get (UserID u) with
  | None => mret tt
  | Some ar =>
      if negb (reply_due ar) then mret tt
      else
        ok ← reply_allowed u senderAddress;
        if negb ok then mret tt
        else
          let replySubject := if bool_decide (ar_Subject ar = []) then bs "Auto-reply" else ar_Subject ar in
          let rfcMsgID := bs "<" ++ uuid L ++ bs "@" ++ reply_domain u ++ bs ">" in
          let payload := mkOutbound senderAddress (Address u) (base64 (ar_Body ar)) (base64 replySubject)
                           (TenantID u) rfcMsgID originalMessageID (UserID u) in
          sent ← publish (PublishReply (bs "mail.outbound." ++ TenantID u) payload);
          if negb sent then mret tt
          else if mailStore p then
            storeAutoReplySentCopy u senderAddress (ar_Subject ar) (ar_Body ar) originalMessageID rfcMsgID
          else mret tt
  end.

(** Steps 1 and 3 of [applyPostReceive]: the block list, then the rules. *)
Definition decide_placement (u : User) (from : bytes) (hasAttachments : bool) (sizeBytes : Z)
    (d : inboundDecisions) : inboundDecisions :=
  let d := match blockStore p with
           | Some isBlocked =>
               if bool_decide (isBlocked (UserID u) from = Some true)
               then mkDecisions (Drop d) (bs "junk") (MoveFolderID d) (LabelIDs d) (MarkRead d) (MarkStarred d)
               else d
           | None => d
           end in
  match ruleStore p with
  | Some list =>
      evalRulesIntoDecisions (Unmarshal_conditions L) (Unmarshal_actions L)
        (match folderStore p with Some get => get (UserID u) (bs "archive") | None => None end)
        from hasAttachments sizeBytes (list (UserID u) (TenantID u)) d
  | None => d
  end.

Definition applyPostReceive (u : User) (from : bytes) (hasAttachments : bool) (sizeBytes : Z)
    (originalMessageID : bytes) (d : inboundDecisions) : P inboundDecisions :=
  _ ← (if contactsStore p then emit (AutoAdd (UserID u) from) else mret tt);
  let d := decide_placement u from hasAttachments sizeBytes d in
  if bool_decide (is_Some (ruleStore p)) && Drop d then mret d
  else
    _ ← (match autoReplyStore p with
         | Some get => maybeSendAutoReply get u from originalMessageID
         | None => mret tt
         end);
    mret d.

Definition process_calendar (u : User) (ics : option nat) (bufs : list bytes) : P unit :=
  match ics, calendarStore p with
  | Some b, Some cs =>
      l ← liftP Panic (processInboundICS (ToUpper L) (ToLowerU L) cs (UserID u) (TenantID u) (buffer bufs b));
      emit (CalendarEffects l)
  | _, _ => mret tt
  end.

(** * One recipient *)

Definition encryption_type (raw body : bytes) : bytes :=
  if DetectPGPMIME raw || DetectPGPInline body then bs "pgp"
  else if DetectSMIME raw then bs "smime" else bs "received".

(** Steps 1 to 8 of [ProcessMessage] and the record of step 9; [None] when a
    rule drops the message. *)
Definition prepare (from to raw : bytes) (ip : IP) (helo : bytes) : P (option (bytes * InboundMessage)) :=
  '(parsed, bufs) ← liftP ErrParse (parseMessageFull raw);
  let body := pm_Body parsed in
  let v := classify from ip helo raw (Headers parsed) body in
  let '(acAddr, acKey, acPrefer) := extractAutocrypt (Headers parsed) in
  u ← liftP ErrRecipient (ResolveRecipient (directory p) to);
  let encryptionType := encryption_type raw body in
  '(pub, ek) ← recipient_keys (PublicKeyEncryption u) (PublicKeyKEM u);
  encryptedRaw ← encrypt_raw pub ek raw;
  let messageBody := if bool_decide (encryptionType = bs "received") then body else raw in
  encrypted ← crypt ErrEncrypt (EncryptMessageWithHeadersHybrid pub ek (Subject parsed) messageBody
                                  (Some (MarshalMessageHeaders (Headers parsed))));
  '(encryptedAtts, bufs) ← encrypt_attachments pub ek (Attachments parsed) bufs;
  senderBlindIndex ← ComputeAddressBlindIndex BlindScopeMessageSender (UserID u) from;
  d ← applyPostReceive u from (negb (bool_decide (encryptedAtts = []))) (Z.of_nat (length raw))
        (MessageID parsed) (mkDecisions false (v_folder v) [] [] false false);
  if Drop d then mret None
  else
    _ ← process_calendar u (CalendarICS parsed) bufs;
    receipt ← buildEnclaveReceipt raw (EncryptedBody encrypted) from v (Rules.FolderAssignment d);
    mret (Some (bs "mail.inbound." ++ TenantID u,
      mkInbound senderBlindIndex (MoveFolderID d) (LabelIDs d) (MarkRead d) (MarkStarred d)
        (TenantID u) (UserID u) [] 0 encrypted (v_spf v) (v_dkim v) (v_dmarc v) receipt
        (Rules.FolderAssignment d) (now L) (InReplyTo parsed) (References parsed) (MessageID parsed)
        encryptionType acAddr acKey acPrefer encryptedAtts encryptedRaw
        (RawBlobFormatChunked DefaultChunkSize))).

Definition ProcessMessage (from to raw : bytes) (ip : IP) (helo : bytes) : P unit :=
  prepared ← prepare from to raw ip helo;
  match prepared with
  | None => mret tt
  | Some (natsSubject, msg) =>
      ok ← publish (Publish natsSubject msg);
      if ok : bool then mret tt else failP ErrPublish
  end.

(** * Groups *)

(** The header map and the raw bytes with the list headers in front; the
    sender's own Reply-To stays. *)
Definition stampGroupListHeaders (h : Header) (raw groupAddress : bytes) : Header * bytes :=
  let noReplyTo := bool_decide (exact h (bs "Reply-To") = []) in
  let listID := bs "<" ++ (match Index groupAddress (bs "@") with
                           | Some i => take i groupAddress ++ bs "." ++ drop (S i) groupAddress
                           | None => groupAddress
                           end) ++ bs ">" in
  let listPost := bs "<mailto:" ++ groupAddress ++ bs ">" in
  let h := if noReplyTo then header_set h (bs "Reply-To") [groupAddress] else h in
  let h := header_set (header_set h (bs "List-Id") [listID]) (bs "List-Post") [listPost] in
  let line k v := bs k ++ bs ": " ++ v ++ [x0d; x0a] in
  (h, (if noReplyTo then line "Reply-To" groupAddress else []) ++
      line "List-Id" listID ++ line "List-Post" listPost ++ raw).

(** The users who are passed over: the sender and the direct recipients. *)
Definition skip_members (from : bytes) (directRecipients : list bytes) : gset bytes :=
  list_to_set (omap (fun addr =>
    if bool_decide (TrimSpace addr = []) then None
    else UserID <$> GetUserByAddress (directory p) addr) (from :: directRecipients)).

(** The loop over members: delivered and skipped counts. *)
Fixpoint fan_out (mk : bytes -> InboundMessage) (subject : bytes) (epoch : Z) (skip : gset bytes)
    (members : list (bytes * Z)) : P (Z * Z) :=
  match members with
  | [] => mret (0, 0)
  | (member, joined) :: members =>
      if epoch <? joined then fan_out mk subject epoch skip members
      else if bool_decide (member ∈ skip) then
        '(d, s) ← fan_out mk subject epoch skip members; mret (d, s + 1)
      else
        ok ← publish (Publish subject (mk member));
        '(d, s) ← fan_out mk subject epoch skip members;
        mret (if ok : bool then d + 1 else d, s)
  end.

Definition ProcessGroupMessage (from : bytes) (g : Group) (raw : bytes) (ip : IP) (helo : bytes)
    (directRecipients : list bytes) : P unit :=
  listMembers ← liftP ErrGroup (groupStore p);
  '(parsed, bufs) ← liftP ErrParse (parseMessageFull raw);
  let body := pm_Body parsed in
  let v := classify from ip helo raw (Headers parsed) body in
  let '(headers, stamped) := stampGroupListHeaders (Headers parsed) raw (GroupAddress g) in
  '(pub, ek) ← recipient_keys (GroupX25519 g) (GroupKEM g);
  encryptedRaw ← encrypt_raw pub ek stamped;
  encrypted ← crypt ErrEncrypt (EncryptMessageWithHeadersHybrid pub ek (Subject parsed) body
                                  (Some (MarshalMessageHeaders headers)));
  '(encryptedAtts, bufs) ← encrypt_attachments pub ek (Attachments parsed) bufs;
  receipt ← buildEnclaveReceipt stamped (EncryptedBody encrypted) from v (v_folder v);
  members ← liftP ErrGroup (listMembers (GroupID g));
  let mk user := mkInbound [] [] [] false false (GroupTenant g) user (GroupID g) (GroupEpoch g) encrypted
                   (v_spf v) (v_dkim v) (v_dmarc v) receipt (v_folder v) (now L) (InReplyTo parsed)
                   (References parsed) (MessageID parsed) (bs "received") [] [] [] encryptedAtts
                   encryptedRaw (RawBlobFormatChunked DefaultChunkSize) in
  '(delivered, skipped) ← fan_out mk (bs "mail.inbound." ++ GroupTenant g) (GroupEpoch g)
                            (skip_members from directRecipients) members;
  if (delivered =? 0) && (skipped =? 0) then failP ErrGroup else mret tt.
End pipeline.

(** * Runs *)

(** [m] only adds effects, all of them in [Q]. *)
Definition only {A} (Q : effect -> Prop) (m : P A) : Prop :=
  forall w, exists es, done (snd (m w)) = done w ++ es /\ Forall Q es.

(** Neither a message for a mailbox nor a calendar change. *)
Definition side (x : effect) : Prop :=
  match x with Publish _ _ | CalendarEffects _ => False | _ => True end.

Definition quiet (x : effect) : Prop := match x with Publish _ _ => False | _ => True end.

Section only.
Context (Q : effect -> Prop).

Lemma only_same {A} (m : P A) : (forall w, done (snd (m w)) = done w) -> only Q m.
Proof. intros H w. exists []. rewrite H, app_nil_r. split; [done|constructor]. Qed.

(** The rule of [bind]; the continuation may use that the first part gave [a]. *)
Lemma only_bind_ok {A B} (m : P A) (f : A -> P B) :
  only Q m -> (forall a, (exists w w', m w = (Ok a, w')) -> only Q (f a)) -> only Q (m ≫= f).
Proof.
  intros Hm Hf w. destruct (Hm w) as (es & E & H). unfold mbind, P_bind.
  destruct (m w) as [[a|e] w1] eqn:Em; cbn [snd] in *; [|by exists es].
  destruct (Hf a ltac:(by exists w, w1) w1) as (es' & E' & H'). exists (es ++ es').
  rewrite E', E, app_assoc. split; [done|]. by apply Forall_app.
Qed.

Lemma only_bind {A B} (m : P A) (f : A -> P B) :
  only Q m -> (forall a, only Q (f a)) -> only Q (m ≫= f).
Proof. intros Hm Hf. apply only_bind_ok; [done|]. intros a _. apply Hf. Qed.

Lemma only_ret {A} (a : A) : only Q (mret a).
Proof. by apply only_same. Qed.

Lemma only_fail {A} e : only Q (@failP A e).
Proof. by apply only_same. Qed.

Lemma only_lift {A} e (o : option A) : only Q (liftP e o).
Proof. by apply only_same; destruct o. Qed.

Lemma only_crypt {A} e (m : M A) : only Q (crypt e m).
Proof. apply only_same. intros w. unfold crypt. by destruct (m (draws w)) as [[]]. Qed.

Lemma only_emit x : Q x -> only Q (emit x).
Proof. intros Hx w. exists [x]. split; [done|by constructor]. Qed.
End only.

Lemma only_mono {A} (Q Q' : effect -> Prop) (m : P A) :
  (forall x, Q x -> Q' x) -> only Q m -> only Q' m.
Proof.
  intros HQ Hm w. destruct (Hm w) as (es & E & H). exists es. split; [done|].
  by eapply Forall_impl.
Qed.

Ltac only_steps :=
  repeat match goal with
  | |- only _ (_ ≫= _) => apply only_bind; [|intros ?]
  | |- only _ (mret _) => apply only_ret
  | |- only _ (failP _) => apply only_fail
  | |- only _ (liftP _ _) => apply only_lift
  | |- only _ (crypt _ _) => apply only_crypt
  | |- only _ (emit _) => apply only_emit; exact I
  | |- only _ (let '(_, _) := ?x in _) => destruct x
  | |- only _ (if ?b then _ else _) => destruct b
  | |- only _ (match ?x with _ => _ end) => destruct x
  end.

Lemma P_bind_ok {A B} (m : P A) (f : A -> P B) w b w' :
  (m ≫= f) w = (Ok b, w') -> exists a w1, m w = (Ok a, w1) /\ f a w1 = (Ok b, w').
Proof. unfold mbind, P_bind. destruct (m w) as [[a|e] w1]; [eauto|done]. Qed.

Lemma liftP_ok {A} e (o : option A) w a w' : liftP e o w = (Ok a, w') -> o = Some a /\ w' = w.
Proof. unfold liftP. by destruct o; [intros [= <- <-]|]. Qed.

Lemma crypt_ok {A} e (m : M A) w a w' : crypt e m w = (Ok a, w') -> m (draws w) = (Some a, draws w').
Proof.
  unfold crypt, of_option. destruct (m (draws w)) as [[b|] d]; [|done]. by intros [= <- <-].
Qed.

Section effects.
Context `{Primitives} `{Entropy}.
Context (L : Libs) (p : Pipeline).

Lemma only_blind Q scope u a : only Q (ComputeAddressBlindIndex L scope u a).
Proof. unfold ComputeAddressBlindIndex. only_steps. Qed.

Lemma only_publish Q x : Q x -> only Q (publish p x).
Proof.
  intros Hx w. unfold publish. destruct (queue_ok p (done w)); cbn [snd done].
  - exists [x]. split; [done|by constructor].
  - exists []. by rewrite app_nil_r.
Qed.

Lemma only_sent_copy u a s b i r : only side (storeAutoReplySentCopy L p u a s b i r).
Proof.
  unfold storeAutoReplySentCopy. destruct (NewPublicKey _); [|only_steps].
  destruct (match folderStore p with Some _ => _ | None => _ end); [|only_steps].
  intros w. destruct (EncryptMessageWithHeadersHybrid _ _ _ _ _ _) as [[enc|] d].
  - match goal with |- context [snd (?m ?w')] => assert (Hq : only side m) end.
    { apply only_bind; [apply only_blind|intros; by apply only_emit]. }
    apply (Hq (mkPW d (hashing w) (done w))).
  - exists []. by rewrite app_nil_r.
Qed.

Lemma only_auto_reply get u a i : only side (maybeSendAutoReply L p get u a i).
Proof.
  unfold maybeSendAutoReply. destruct (get (UserID u)) as [ar|]; [|only_steps].
  destruct (negb (reply_due L ar)); [only_steps|].
  apply only_bind; [|intros ok; destruct (negb ok); [only_steps|]].
  - unfold reply_allowed. destruct (autoReplyDedup p); [|only_steps].
    apply only_bind; [apply only_blind|]. intros b. only_steps.
  - apply only_bind; [by apply only_publish|]. intros sent.
    destruct (negb sent); [only_steps|]. destruct (mailStore p); [apply only_sent_copy|only_steps].
Qed.

Lemma only_post_receive u from h n i d : only side (applyPostReceive L p u from h n i d).
Proof.
  unfold applyPostReceive. apply only_bind; [only_steps|intros _].
  destruct (_ && _); [only_steps|]. apply only_bind; [|intros _; only_steps].
  destruct (autoReplyStore p); [apply only_auto_reply|only_steps].
Qed.

Lemma only_attachments Q pub ek atts : forall bufs, only Q (encrypt_attachments L pub ek atts bufs).
Proof.
  induction atts as [|a atts IH]; intros bufs; cbn [encrypt_attachments]; [only_steps|].
  apply only_bind; [only_steps|intros enc]. apply only_bind; [apply IH|intros [rest b]; only_steps].
Qed.

Lemma only_receipt Q raw c from v f : only Q (buildEnclaveReceipt L p raw c from v f).
Proof.
  unfold buildEnclaveReceipt. apply only_bind; [|intros s; only_steps].
  apply only_same. intros w. unfold HashSenderP.
  by destruct (HashSender _ _ _ _ _ _ _) as [[]|].
Qed.

(** [prepare] adds side effects and what the calendar step adds. *)
Lemma only_prepare (Q : effect -> Prop) from to raw ip helo :
  (forall x, side x -> Q x) ->
  (forall parsed bufs u pub ek encs bufs' w w', parseMessageFull L raw = Some (parsed, bufs) ->
     encrypt_attachments L pub ek (Attachments parsed) bufs w = (Ok (encs, bufs'), w') ->
     only Q (process_calendar L p u (CalendarICS parsed) bufs')) ->
  only Q (prepare L p from to raw ip helo).
Proof.
  intros HQ Hcal. unfold prepare.
  apply only_bind_ok; [only_steps|intros [parsed bufs] (w1 & w1' & Ep)]. apply liftP_ok in Ep as [Ep _].
  destruct (extractAutocrypt _) as [[acA acK] acP].
  apply only_bind; [only_steps|intros u].
  apply only_bind; [unfold recipient_keys; only_steps|intros [pub ek]].
  apply only_bind; [unfold encrypt_raw; only_steps|intros er].
  apply only_bind; [only_steps|intros enc].
  apply only_bind_ok; [apply only_attachments|intros [atts bufs'] (w2 & w2' & Ea)].
  apply only_bind; [apply only_blind|intros bl].
  apply only_bind; [by eapply only_mono, only_post_receive|intros d].
  destruct (Drop d); [only_steps|].
  apply only_bind; [by eapply Hcal|intros _].
  apply only_bind; [apply only_receipt|intros rc; only_steps].
Qed.

Lemma quiet_prepare from to raw ip helo : only quiet (prepare L p from to raw ip helo).
Proof.
  apply only_prepare; [by intros []|]. intros. unfold process_calendar. only_steps.
Qed.
End effects.

Section theorems.
Context `{Primitives} `{!PrimitiveLaws} `{Entropy} `{!EntropyLaws}.
Context (L : Libs) (p : Pipeline).

(** ** Attachments *)

(** Every attachment has a buffer of its own. *)
Definition buffers_distinct (s : part_state) : Prop :=
  NoDup (att_Data <$> attachments s) /\
  Forall (fun i => i < length (buffers s))%nat (att_Data <$> attachments s).

Lemma distinct_add s a body t h c :
  att_Data a = length (buffers s) -> buffers_distinct s ->
  buffers_distinct (mkPS t h (attachments s ++ [a]) c (buffers s ++ [body])).
Proof.
  intros Ha [Hn Hf]. unfold buffers_distinct. cbn [attachments buffers].
  rewrite fmap_app, length_app. cbn [fmap list_fmap length]. rewrite Ha. split.
  - apply NoDup_app. split_and!; [done| |apply NoDup_singleton].
    intros i Hi Hi'. rewrite Forall_forall in Hf. apply list_elem_of_singleton in Hi' as ->.
    specialize (Hf _ Hi). lia.
  - apply Forall_app. split; [|repeat constructor; lia].
    eapply Forall_impl; [exact Hf|]. cbn. lia.
Qed.

Lemma distinct_grow s body t h c :
  buffers_distinct s -> buffers_distinct (mkPS t h (attachments s) c (buffers s ++ [body])).
Proof.
  intros [Hn Hf]. split; [done|]. cbn [attachments buffers]. rewrite length_app.
  eapply Forall_impl; [exact Hf|]. cbn. lia.
Qed.

Lemma read_part_distinct s x : buffers_distinct s -> buffers_distinct (read_part s x).
Proof.
  intros Hs. destruct x as [ct cid [body|]|fn ct cid [body|]]; cbn [read_part]; try done.
  - unfold inline_part. case_bool_decide; [done|]. case_bool_decide; [done|].
    destruct (is_calendar ct); [by apply distinct_grow|].
    destruct (is_image ct); [by apply distinct_add|done].
  - by apply distinct_add.
Qed.

Lemma parse_distinct raw parsed bufs :
  parseMessageFull L raw = Some (parsed, bufs) -> NoDup (att_Data <$> Attachments parsed).
Proof.
  unfold parseMessageFull. intros (m & _ & E)%bind_Some. injection E as <- <-. cbn [Attachments].
  assert (forall l s, buffers_distinct s -> buffers_distinct (foldl read_part s l)) as Hfold.
  { induction l as [|x l IH]; intros s Hs; [done|]. cbn [foldl]. by apply IH, read_part_distinct. }
  eapply (Hfold (mail_Parts m) (mkPS None None [] None [])). split; constructor.
Qed.

Lemma buffer_insert bufs i j :
  buffer (<[i := ZeroBytes (buffer bufs i)]> bufs) j =
  if decide (j = i) then ZeroBytes (buffer bufs i) else buffer bufs j.
Proof.
  unfold buffer. destruct (decide (j = i)) as [->|Hne].
  - destruct (bufs !! i) as [b|] eqn:E.
    + by rewrite list_lookup_insert_eq by (by eapply lookup_lt_Some).
    + rewrite list_insert_ge by (by apply lookup_ge_None). by rewrite E.
  - by rewrite list_lookup_insert_ne by done.
Qed.

Lemma encrypt_attachments_cons pub ek a atts bufs w encs bufs' w' :
  encrypt_attachments L pub ek (a :: atts) bufs w = (Ok (encs, bufs'), w') ->
  let data := buffer bufs (att_Data a) in
  exists enc rest w1,
    EncryptMessageHybrid pub ek (metadata_json L a) data (draws w) = (Some enc, draws w1) /\
    encrypt_attachments L pub ek atts (<[att_Data a := ZeroBytes data]> bufs) w1 =
      (Ok (rest, bufs'), w') /\
    encs = mkEncAtt (EphemeralPubkey enc) (EncryptedMessageKey enc) (EncryptedBody enc)
             (EncryptedSubject enc) (Z.of_nat (length data)) :: rest.
Proof.
  cbn [encrypt_attachments]. intros R. apply P_bind_ok in R as (enc & w1 & Ee & R).
  apply crypt_ok in Ee. apply P_bind_ok in R as ([rest b] & w2 & Er & R). injection R as <- <- <-.
  exists enc, rest, w1. by split_and!.
Qed.

(** Afterwards the buffers of the attachments hold zeros. *)
Lemma attachments_zeroed pub ek atts : forall bufs w encs bufs' w' i,
  encrypt_attachments L pub ek atts bufs w = (Ok (encs, bufs'), w') ->
  buffer bufs' i = if bool_decide (i ∈ att_Data <$> atts) then ZeroBytes (buffer bufs i)
                   else buffer bufs i.
Proof.
  induction atts as [|a atts IH]; intros bufs w encs bufs' w' i R.
  - by injection R as <- <- <-.
  - apply encrypt_attachments_cons in R as (enc & rest & w1 & _ & R & _).
    rewrite (IH _ _ _ _ _ i R), buffer_insert, fmap_cons.
    destruct (decide (i = att_Data a)) as [->|Hne].
    + rewrite (bool_decide_eq_true_2 (_ ∈ _ :: _)) by by left. rewrite ZeroBytes_twice. by case_bool_decide.
    + case_bool_decide; [by rewrite bool_decide_eq_true_2 by by right|].
      rewrite bool_decide_eq_false_2; [done|]. by intros [?|?]%elem_of_cons.
Qed.

(** What a recipient reads of a stored attachment: the metadata and the bytes. *)
Definition read_attachment (priv : bytes) (dk : option bytes) (e : EncryptedInboundAttachment) :
    option (bytes * bytes) :=
  DecryptMessageAuto priv dk (mkEncrypted (ea_EphemeralPubkey e) (ea_EncryptedKey e)
    (ea_EncryptedData e) (ea_EncryptedMetadata e) []).

Lemma attachments_open priv dk ek atts :
  length priv = 32%nat -> public_kem dk ek -> forall bufs w encs bufs' w',
  NoDup (att_Data <$> atts) ->
  encrypt_attachments L (x25519_base priv) ek atts bufs w = (Ok (encs, bufs'), w') ->
  read_attachment priv dk <$> encs =
  (fun a => Some (metadata_json L a, buffer bufs (att_Data a))) <$> atts.
Proof.
  intros Hp Hk. induction atts as [|a atts IH]; intros bufs w encs bufs' w' Hn R.
  - by injection R as <- <- <-.
  - rewrite fmap_cons in Hn. apply NoDup_cons in Hn as [Ha Hn].
    apply encrypt_attachments_cons in R as (enc & rest & w1 & Ee & R & ->).
    rewrite !fmap_cons. f_equal.
    + change (EncryptMessageHybrid ?p ?k ?s ?b) with (EncryptMessageWithHeadersHybrid p k s b None) in Ee.
      apply (EncryptMessageWithHeadersHybrid_spec _ _ _ _ _ _ _ _ _ Hp Hk) in Ee.
      by apply message_for_opens in Ee as (E & _).
    + rewrite (IH _ _ _ _ _ Hn R). apply list_fmap_ext. intros i x Hx. do 2 f_equal.
      rewrite buffer_insert, decide_False; [done|]. intros E. apply Ha.
      rewrite <-E. apply list_elem_of_fmap. exists x. split; [done|]. by eapply list_elem_of_lookup_2.
Qed.

(** ** What a published message is *)

Lemma applyPostReceive_ok u from h n i d w d' w' :
  applyPostReceive L p u from h n i d w = (Ok d', w') -> d' = decide_placement L p u from h n d.
Proof.
  unfold applyPostReceive. intros R. apply P_bind_ok in R as (x & w1 & _ & R).
  destruct (_ && _); [by injection R as <- _|]. apply P_bind_ok in R as (y & w2 & _ & R).
  by injection R as <- _.
Qed.

(** The message [m] for the queue [subj] is what delivering [raw] to [u] makes. *)
Definition delivers (from raw : bytes) (ip : IP) (helo : bytes) (u : User) (parsed : parsedMessage)
    (bufs : list bytes) (subj : bytes) (m : InboundMessage) : Prop :=
  let v := classify L p from ip helo raw (Headers parsed) (pm_Body parsed) in
  let ek := parse_kem (PublicKeyKEM u) in
  let d := decide_placement L p u from (negb (bool_decide (im_EncryptedAttachments m = [])))
             (Z.of_nat (length raw)) (mkDecisions false (v_folder v) [] [] false false) in
  subj = bs "mail.inbound." ++ TenantID u /\ im_UserID m = UserID u /\
  im_DMARCResult m = v_dmarc v /\ Drop d = false /\ im_FolderAssignment m = Rules.FolderAssignment d /\
  im_RawBlobFormat m = RawBlobFormatChunked DefaultChunkSize /\
  exists pub meta w1 w2 w3 w4 w5 w6 bufs',
    NewPublicKey (PublicKeyEncryption u) = Some pub /\
    buildRawMeta (ParseMediaType L) (DecodeWords L) (parse_fuel L) raw = Some meta /\
    EncryptRawMessageWithMetaHybrid pub ek raw (json_meta L meta) DefaultChunkSize w1 =
      (Some (im_EncryptedRaw m), w2) /\
    EncryptMessageWithHeadersHybrid pub ek (Subject parsed)
      (if bool_decide (encryption_type raw (pm_Body parsed) = bs "received") then pm_Body parsed else raw)
      (Some (json_headers L (Headers parsed))) w3 = (Some (im_Encrypted m), w4) /\
    encrypt_attachments L pub ek (Attachments parsed) bufs w5 =
      (Ok (im_EncryptedAttachments m, bufs'), w6).

Lemma prepare_ok from to raw ip helo w subj m w' :
  prepare L p from to raw ip helo w = (Ok (Some (subj, m)), w') ->
  exists parsed bufs u, parseMessageFull L raw = Some (parsed, bufs) /\
    ResolveRecipient (directory p) to = Some u /\ delivers from raw ip helo u parsed bufs subj m.
Proof.
  unfold prepare. intros R. apply P_bind_ok in R as ([parsed bufs] & wa & Ep & R).
  apply liftP_ok in Ep as [Ep ->]. set (v := classify L p _ _ _ _ _ _) in R.
  destruct (extractAutocrypt _) as [[acA acK] acP].
  apply P_bind_ok in R as (u & wb & Eu & R). apply liftP_ok in Eu as [Eu ->].
  apply P_bind_ok in R as ([pub ek] & wc & Ek & R).
  unfold recipient_keys in Ek. apply P_bind_ok in Ek as (pub' & wd & Epub & Ek).
  apply liftP_ok in Epub as [Epub ->]. injection Ek as -> <- <-.
  apply P_bind_ok in R as (encRaw & we & Er & R). unfold encrypt_raw in Er.
  apply P_bind_ok in Er as (meta & wf & Em & Er). apply liftP_ok in Em as [Em ->].
  apply crypt_ok in Er. apply P_bind_ok in R as (enc & wg & Ee & R). apply crypt_ok in Ee.
  apply P_bind_ok in R as ([atts bufs'] & wh & Ea & R). apply P_bind_ok in R as (blind & wi & _ & R).
  apply P_bind_ok in R as (d & wj & Ed & R). apply applyPostReceive_ok in Ed.
  destruct (Drop d) eqn:Edrop; [done|].
  apply P_bind_ok in R as (? & wk & _ & R). apply P_bind_ok in R as (rc & wl & _ & R).
  injection R as <- <- _. exists parsed, bufs, u. split_and!; [done..|].
  unfold delivers. cbn [im_EncryptedAttachments im_UserID im_DMARCResult im_FolderAssignment
    im_RawBlobFormat im_EncryptedRaw im_Encrypted]. fold v. rewrite <-Ed.
  split_and!; [done..|]. exists pub, meta. do 7 eexists.
  split_and!; [done|done|exact Er|exact Ee|exact Ea].
Qed.

Lemma published_prepared from to raw ip helo w r w' subj m es :
  ProcessMessage L p from to raw ip helo w = (r, w') -> done w' = done w ++ es ->
  Publish subj m ∈ es ->
  exists w1, prepare L p from to raw ip helo w = (Ok (Some (subj, m)), w1).
Proof.
  intros Hrun Hes Hin. destruct (quiet_prepare L p from to raw ip helo w) as (es0 & E & Q).
  rewrite Forall_forall in Q.
  unfold ProcessMessage, mbind at 1, P_bind at 1 in Hrun.
  destruct (prepare L p from to raw ip helo w) as [[[[subj' m']|]|e] w1]; cbn [fst snd] in *.
  - unfold mbind, P_bind, publish in Hrun. destruct (queue_ok p (done w1)); injection Hrun as _ <-.
    + cbn [done] in Hes. rewrite E, <-app_assoc in Hes. apply app_inv_head in Hes as <-.
      apply elem_of_app in Hin as [Hin|Hin]; [by apply Q in Hin|].
      apply list_elem_of_singleton in Hin. injection Hin as -> ->. eauto.
    + rewrite E in Hes. apply app_inv_head in Hes as <-. by apply Q in Hin.
  - injection Hrun as _ <-. rewrite E in Hes. apply app_inv_head in Hes as <-. by apply Q in Hin.
  - injection Hrun as _ <-. rewrite E in Hes. apply app_inv_head in Hes as <-. by apply Q in Hin.
Qed.






(** C18. Whatever is published for a mailbox, its owner reads: the holder of the
    private keys of the user that the address resolves to decrypts the subject,
    the body, the headers, every attachment with its name and type, and the raw
    message with its part offsets. *)
Theorem recipient_reads_mail from to raw ip helo w r w' es subj m
    (Hrun : ProcessMessage L p from to raw ip helo w = (r, w')) (Hes : done w' = done w ++ es)
    (Hin : Publish subj m ∈ es) (Hsize : Z.of_nat (length raw) < 2 ^ 56) :
  exists u parsed bufs meta,
    ResolveRecipient (directory p) to = Some u /\ im_UserID m = UserID u /\
    parseMessageFull L raw = Some (parsed, bufs) /\
    buildRawMeta (ParseMediaType L) (DecodeWords L) (parse_fuel L) raw = Some meta /\
    forall priv dk, length priv = 32%nat -> PublicKeyEncryption u = x25519_base priv ->
      public_kem dk (parse_kem (PublicKeyKEM u)) ->
      let msg := im_Encrypted m in let rawMsg := im_EncryptedRaw m in
      DecryptMessageAuto priv dk msg = Some (Subject parsed,
        if bool_decide (encryption_type raw (pm_Body parsed) = bs "received")
        then pm_Body parsed else raw) /\
      DecryptHeadersAuto priv dk (EphemeralPubkey msg) (EncryptedMessageKey msg)
        (EncryptedHeaders msg) = Some (json_headers L (Headers parsed)) /\
      read_attachment priv dk <$> im_EncryptedAttachments m =
        (fun a => Some (metadata_json L a, buffer bufs (att_Data a))) <$> Attachments parsed /\
      DecryptRawMessageAuto priv dk (Embedded rawMsg) (im_RawBlobFormat m) (EncryptedMeta rawMsg) =
        Done (raw, json_meta L meta).
Proof.
  destruct (published_prepared _ _ _ _ _ _ _ _ _ _ _ Hrun Hes Hin) as (w1 & E).
  apply prepare_ok in E as (parsed & bufs & u & Ep & Eu & _ & Huser & _ & _ & _ & Hfmt &
    pub & meta & w2 & w3 & w4 & w5 & w6 & w7 & bufs' & Epub & Em & Er & Ee & Ea).
  exists u, parsed, bufs, meta. split_and!; [done..|]. intros priv dk Hp Hk Hkem. cbn zeta.
  rewrite Hfmt. unfold NewPublicKey in Epub. destruct (_ =? _)%nat in Epub; [|done].
  injection Epub as <-. rewrite Hk in Er, Ee, Ea.
  apply (EncryptMessageWithHeadersHybrid_spec _ _ _ _ _ _ _ _ _ Hp Hkem), message_for_opens in Ee
    as (E1 & _ & E2).
  split_and!; [exact E1|exact E2| |].
  - eapply attachments_open; [done|exact Hkem|by eapply parse_distinct|exact Ea].
  - eapply raw_opens in Er as [E3 _]; [exact E3|done|exact Hkem| |unfold DefaultChunkSize; lia].
    unfold moderate, DefaultChunkSize. lia.
Qed.

(** Where a published message goes: to junk when the recipient blocks the
    sender or DMARC says reject, else where the spam filter puts it.  Rules only
    move it further or drop it; they never change this folder. *)
Theorem folder_assignment from to raw ip helo w r w' es subj m
    (Hrun : ProcessMessage L p from to raw ip helo w = (r, w')) (Hes : done w' = done w ++ es)
    (Hin : Publish subj m ∈ es) :
  exists parsed bufs, parseMessageFull L raw = Some (parsed, bufs) /\
  let '(spf, dkim, dmarc) := runSecurityChecks L from ip raw in
  let blocked := match blockStore p with Some b => bool_decide (b (im_UserID m) from = Some true)
                 | None => false end in
  im_DMARCResult m = dmarc /\
  im_FolderAssignment m =
    if blocked then bs "junk" else if String.eqb dmarc "reject" then bs "junk"
    else match spamFilter p with
         | Some check => bs (Spam.FolderAssignment
             (check ip helo from (Headers parsed) (pm_Body parsed) spf dkim dmarc))
         | None => bs "inbox"
         end.
Proof.
  destruct (published_prepared _ _ _ _ _ _ _ _ _ _ _ Hrun Hes Hin) as (w1 & E).
  apply prepare_ok in E as (parsed & bufs & u & Ep & _ & _ & Huser & Hdmarc & _ & Hf & _).
  exists parsed, bufs. split; [done|]. rewrite Huser. revert Hdmarc Hf. unfold classify.
  destruct (runSecurityChecks L from ip raw) as [[spf dkim] dmarc].
  intros Hdmarc ->. rewrite Hdmarc. split.
  { by destruct (spamFilter p). }
  unfold decide_placement. destruct (ruleStore p); rewrite ?rules_keep_folder;
    (destruct (blockStore p); [case_bool_decide|]); destruct (spamFilter p); cbn; destruct (String.eqb dmarc "reject"); done.
Qed.

Lemma aligned_self etld d mode : d <> [] -> domainsAlign etld d d mode = true.
Proof.
  intros Hd. unfold domainsAlign. destruct d as [|c d]; [done|].
  by case_bool_decide; apply bool_decide_eq_true_2.
Qed.

(** The DMARC check compares the envelope sender's domain with itself: when
    SPF passes for the envelope, no message is ever marked reject, quarantine or
    fail, whatever domain its From header claims. *)
Theorem envelope_spf_passes_dmarc from ip raw dkim dmarc
    (Hspf : runSecurityChecks L from ip raw = ("pass"%string, dkim, dmarc)) :
  dmarc = "pass"%string \/ dmarc = "none"%string \/ dmarc = "permerror"%string.
Proof.
  revert Hspf. unfold runSecurityChecks.
  match goal with |- context [if ?b then _ else ?s] => set (spf := if b then _ else s) end.
  destruct (CheckDKIM _ raw) as [dk dd]. intros [= Es _ <-]. rewrite Es. unfold CheckDMARC.
  destruct (domain_after_at from) as [|c d] eqn:Ed; [by auto|].
  destruct (LookupTXT L 0 _) as [txts|]; [|by auto]. destruct (dmarc_record txts); [by auto|].
  destruct (parseDMARCPolicyStrict _); [|by auto].
  rewrite (aligned_self _ (c :: d)) by done. by left.
Qed.

(** ** Calendars *)

Lemma scan_zeros n limit :
  scan_lines_max limit (replicate n x00) = [] \/
  scan_lines_max limit (replicate n x00) = [replicate n x00].
Proof.
  unfold scan_lines_max. assert (split_byte x0a (replicate n x00) = [replicate n x00]) as ->.
  { induction n as [|n IH]; [done|]. cbn [replicate split_byte]. by rewrite IH. }
  destruct n as [|n]; [by left|]. cbn [replicate last scan_until].
  destruct (_ <? limit); [|by left]. right. f_equal.
  unfold drop_cr. change (x00 :: replicate n x00) with (replicate (S n) x00).
  rewrite replicate_S_end, last_snoc. done.
Qed.

Lemma process_zeros n r :
  process_nonempty (ToUpper L) (ToLowerU L) (r, false) (replicate n x00) = Some (r, false).
Proof.
  unfold process_nonempty, processLine. destruct n as [|n]; [done|].
  assert (forall m, rev (replicate m x00) = replicate m x00) as Hrev.
  { intros m. rewrite rev_alt. apply (reverse_replicate m x00). }
  assert (trim_right [x0d; x0a] (replicate (S n) x00) = x00 :: replicate n x00) as ->.
  { unfold trim_right. rewrite Hrev. cbn [replicate span]. rewrite bool_decide_eq_false_2.
    - apply (Hrev (S n)).
    - intros Hin. repeat apply elem_of_cons in Hin as [Hin|Hin]; [done..|]. by apply not_elem_of_nil in Hin. }
  cbn [HasPrefix]. done.
Qed.

(** A calendar of zero bytes asks for nothing. *)
Lemma zeros_no_calendar cs u t n :
  processInboundICS (ToUpper L) (ToLowerU L) cs u t (replicate n x00) = Some [].
Proof.
  unfold processInboundICS, parseICSMethod.
  assert (ics_lines (ToUpper L) (ToLowerU L) (scan_lines_max 8192 (replicate n x00)) []
            (mkICS [] [] [], false) = Some (mkICS [] [] [], false)) as ->; [|done].
  destruct (scan_zeros n 8192) as [->| ->]; cbn [ics_lines]; [done|].
  destruct n as [|n]; [done|]. cbn [replicate is_folded]. change (x00 :: replicate n x00) with (replicate (S n) x00). cbn [mbind option_bind process_nonempty]. apply process_zeros.
Qed.

(** A calendar that comes as an attachment is processed after its bytes have
    been overwritten with zeros, so it never changes the calendar. *)
Theorem attached_calendar_does_nothing from to raw ip helo w parsed bufs a
    (Hp : parseMessageFull L raw = Some (parsed, bufs)) (Ha : a ∈ Attachments parsed)
    (Hcal : CalendarICS parsed = Some (att_Data a)) :
  exists es, done (snd (ProcessMessage L p from to raw ip helo w)) = done w ++ es /\
    forall l, CalendarEffects l ∈ es -> l = [].
Proof.
  set (Q := fun x => match x with CalendarEffects l => l = [] | _ => True end).
  assert (only Q (ProcessMessage L p from to raw ip helo)) as Honly.
  { unfold ProcessMessage. apply only_bind.
    - apply only_prepare; [by intros []|]. intros parsed' bufs' u pub ek encs bufs'' w1 w1' Hp' Hz.
      rewrite Hp in Hp'. injection Hp' as <- <-. unfold process_calendar. rewrite Hcal.
      destruct (calendarStore p) as [cs|]; [|by only_steps].
      pose proof (attachments_zeroed _ _ _ _ _ _ _ _ (att_Data a) Hz) as Hb.
      rewrite bool_decide_eq_true_2 in Hb by (by apply list_elem_of_fmap_2).
      rewrite Hb. unfold ZeroBytes. rewrite zeros_no_calendar.
      apply only_bind_ok; [by only_steps|]. intros l (w2 & w2' & El). apply liftP_ok in El as [El _].
      injection El as <-. by apply only_emit.
    - intros [[subj m]|]; [|by only_steps]. apply only_bind; [by apply only_publish|].
      intros ok. by only_steps. }
  destruct (Honly w) as (es & E & HQ). exists es. split; [done|]. intros l Hl.
  rewrite Forall_forall in HQ. exact (HQ _ Hl).
Qed.

(** ** Groups *)

(** The members that get a copy: there since the epoch, and not passed over. *)
Definition copied (epoch : Z) (skip : gset bytes) (members : list (bytes * Z)) : list bytes :=
  filter (fun u => u ∉ skip) (filter (fun x => snd x <= epoch) members).*1.

Lemma fan_out_copies mk subject epoch skip members :
  (forall es, queue_ok p es = true) -> forall w,
  exists d s, fan_out p mk subject epoch skip members w =
    (Ok (d, s), mkPW (draws w) (hashing w)
       (done w ++ ((fun u => Publish subject (mk u)) <$> copied epoch skip members))).
Proof.
  intros Hq. unfold copied. induction members as [|[u j] ms IH]; intros [dr ha dn]; cbn [fan_out].
  - exists 0, 0. by rewrite app_nil_r.
  - rewrite filter_cons. cbn [snd]. destruct (Z.ltb_spec epoch j) as [Hlt|Hle].
    + rewrite decide_False by lia. apply IH.
    + rewrite decide_True by lia. rewrite fmap_cons, filter_cons. cbn [fst].
      case_bool_decide as Hs.
      * rewrite decide_False by (by intros ?). destruct (IH (mkPW dr ha dn)) as (d & s & E).
        exists d, (s + 1). unfold mbind, P_bind. by rewrite E.
      * rewrite decide_True by done. unfold mbind, P_bind, publish. rewrite Hq. cbn [done draws hashing].
        destruct (IH (mkPW dr ha (dn ++ [Publish subject (mk u)]))) as (d & s & E). rewrite E.
        exists (d + 1), s. cbn [done draws hashing]. by rewrite <-app_assoc.
Qed.

(** A step that adds nothing. *)
Lemma nothing_added {A} (m : P A) w r w' :
  only (fun _ => False) m -> m w = (r, w') -> done w' = done w.
Proof.
  intros Hm E. destruct (Hm w) as (es & Ed & HF). rewrite E in Ed. cbn [snd] in Ed. rewrite Ed.
  destruct es as [|x es]; [apply app_nil_r|]. by apply Forall_cons in HF as [].
Qed.

(** A message to a group, once accepted, is queued once for every member who
    was there at the group's epoch, the sender and the direct recipients left
    out, and for nobody else; the copies are one ciphertext, which the holder of
    the group's private keys reads. *)
Theorem group_copies from g raw ip helo direct w w'
    (Hrun : ProcessGroupMessage L p from g raw ip helo direct w = (Ok tt, w'))
    (Hq : forall es, queue_ok p es = true) :
  exists members parsed bufs enc mk,
    groupStore p ≫= (fun list => list (GroupID g)) = Some members /\
    parseMessageFull L raw = Some (parsed, bufs) /\
    done w' = done w ++ ((fun u => Publish (bs "mail.inbound." ++ GroupTenant g) (mk u)) <$>
                           copied (GroupEpoch g) (skip_members p from direct) members) /\
    (forall u, im_UserID (mk u) = u /\ im_GroupID (mk u) = GroupID g /\ im_Encrypted (mk u) = enc) /\
    forall priv dk, length priv = 32%nat -> GroupX25519 g = x25519_base priv ->
      public_kem dk (parse_kem (GroupKEM g)) ->
      DecryptMessageAuto priv dk enc = Some (Subject parsed, pm_Body parsed) /\
      DecryptHeadersAuto priv dk (EphemeralPubkey enc) (EncryptedMessageKey enc) (EncryptedHeaders enc) =
        Some (json_headers L (fst (stampGroupListHeaders (Headers parsed) raw (GroupAddress g)))).
Proof.
  revert Hrun. unfold ProcessGroupMessage. intros R.
  apply P_bind_ok in R as (listMembers & w1 & El & R). apply liftP_ok in El as [El ->].
  apply P_bind_ok in R as ([parsed bufs] & w2 & Ep & R). apply liftP_ok in Ep as [Ep ->].
  destruct (stampGroupListHeaders _ _ _) as [headers stamped] eqn:Est.
  apply P_bind_ok in R as ([pub ek] & w3 & Ek & R).
  unfold recipient_keys in Ek. apply P_bind_ok in Ek as (pub' & w4 & Epub & Ek).
  apply liftP_ok in Epub as [Epub ->]. injection Ek as -> <- <-.
  apply P_bind_ok in R as (raw' & w5 & Er & R).
  apply nothing_added in Er; [|by unfold encrypt_raw; only_steps].
  apply P_bind_ok in R as (enc & w6 & Ee & R).
  pose proof (nothing_added _ _ _ _ (only_crypt _ _ _) Ee) as Ee'. apply crypt_ok in Ee.
  apply P_bind_ok in R as ([atts bufs'] & w7 & Ea & R). apply nothing_added in Ea; [|apply only_attachments].
  apply P_bind_ok in R as (rc & w8 & Erc & R). apply nothing_added in Erc; [|apply only_receipt].
  apply P_bind_ok in R as (members & w9 & Emem & R). apply liftP_ok in Emem as [Emem ->].
  apply P_bind_ok in R as ([d s] & w10 & Ef & R).
  match type of Ef with fan_out _ ?mk _ _ _ _ _ = _ => set (mk' := mk) in Ef end.
  destruct (fan_out_copies mk' (bs "mail.inbound." ++ GroupTenant g) (GroupEpoch g)
    (skip_members p from direct) members Hq w8) as (d' & s' & Ef').
  rewrite Ef' in Ef. injection Ef as _ _ <-.
  destruct (_ && _); [done|]. injection R as <-.
  exists members, parsed, bufs, enc, mk'. split_and!; [by rewrite El|done| |by intros u|].
  { cbn [done]. by rewrite Erc, Ea, Ee', Er. }
  intros priv dk Hp Hk Hkem. unfold NewPublicKey in Epub. destruct (_ =? _)%nat in Epub; [|done].
  injection Epub as <-. rewrite Hk in Ee.
  apply (EncryptMessageWithHeadersHybrid_spec _ _ _ _ _ _ _ _ _ Hp Hkem), message_for_opens in Ee
    as (E1 & _ & E2). rewrite Est. split; [exact E1|exact E2].
Qed.
End theorems.

(** * Witnesses *)

#[local] Existing Instances toy toy_laws toy_entropy toy_entropy_laws.

#[local] Definition demo_priv : bytes := toy_key 9.
#[local] Definition demo_dk : option bytes := Some (toy_seed 4).

#[local] Definition demo_user : User :=
  Receiver.Build_User (bs "u1") (bs "t1") (bs "ann@b.org") (bs "free") (bs "active") (bs "mailbox")
    (x25519_base demo_priv) (default [] (demo_dk ≫= kem_public)) 0.

#[local] Definition demo_group : Group :=
  Build_Group (bs "g1") (bs "t1") (bs "all@b.org") (bs "anyone") (x25519_base demo_priv)
    (default [] (demo_dk ≫= kem_public)) 3.

#[local] Definition demo_directory : Directory :=
  Build_Directory {[bs "ann@b.org" := demo_user]} {[bs "u1" := demo_user]} ∅ false ∅ ∅ [] ∅
    (fun _ => None) (fun _ => None) (fun _ _ => None).

#[local] Definition demo_mail : mail :=
  mkMail (bs "hi") [(bs "From", bs "boss@bank.test")]
    [InlinePart (bs "text/plain") [] (Some (bs "hello"));
     AttachedPart (bs "invite.ics") (bs "text/calendar") []
       (Some (bs "METHOD:CANCEL" ++ [x0a] ++ bs "BEGIN:VEVENT" ++ [x0a] ++ bs "UID:7"))].

#[local] Definition demo_txt (n : nat) (d : bytes) : option (list bytes) :=
  if bool_decide (d = bs "evil.test") then Some [bs "v=spf1 +all"]
  else if bool_decide (d = bs "_dmarc.evil.test") then Some [bs "v=DMARC1; p=reject"]
  else Some [].

#[local] Definition demo_libs : Libs := {|
  CreateReader _ := Some demo_mail;
  ParseMediaType _ := None; DecodeWords _ := None; parse_fuel := 100;
  LookupTXT := demo_txt; LookupHost _ _ := Some []; LookupMX _ _ := Some [];
  EffectiveTLDPlusOne d := Some d; dkim_Verify _ := None;
  sha256 b := toy_pad 32 b; ed25519_Sign k m := toy_pad 64 (k ++ m);
  salt_text _ _ := []; production := false; year := 2026; today := 10; now := (1000, 0);
  hmac k m := toy_pad 32 (k ++ m); blindIndexSecret := Some (toy_key 1);
  json_receipt r := MessageHash r; json_headers h := concat (map fst h);
  json_meta _ := bs "{}"; quote b := b; uuid := bs "id";
  ToUpper b := b; ToLowerU b := b;
  Unmarshal_conditions _ := None; Unmarshal_actions _ := None
|}.

#[local] Definition demo_store : Calendar.calendarStore :=
  mkStore (fun _ _ _ => None) (fun _ _ _ => true) (fun _ _ => Some [bs "u1"]) true.

#[local] Definition demo_pipe : Pipeline := {|
  directory := demo_directory; blockStore := None; contactsStore := true; ruleStore := None;
  mailStore := false;
  groupStore := Some (fun _ => Some [(bs "u1", 0); (bs "u2", 3); (bs "u3", 4); (bs "u4", 1)]);
  folderStore := None; autoReplyStore := None;
  autoReplyDedup := None; calendarStore := Some demo_store; queue_ok _ := true;
  signingKey := toy_pad 64 []; signingPub := toy_key 3; enclaveID := bs "e1"; spamFilter := None;
  tlsActive := true
|}.

#[local] Definition demo_raw : bytes := bs "From: boss@bank.test" ++ [x0d; x0a; x0d; x0a] ++ bs "hello".
#[local] Definition demo_world : pworld := mkPW toy_world (mkHasher None 0 None false) [].
#[local] Definition demo_ip : IP := [192; 0; 2; 7].

#[local] Definition demo_run : result perr unit * pworld :=
  ProcessMessage demo_libs demo_pipe (bs "x@evil.test") (bs "ann@b.org") demo_raw demo_ip (bs "h") demo_world.

#[local] Definition demo_published : bytes * InboundMessage :=
  match last (done (snd demo_run)) with
  | Some (Publish s m) => (s, m)
  | _ => ([], mkInbound [] [] [] false false [] [] [] 0 (mkEncrypted [] [] [] [] []) "" "" "" [] []
                (0, 0) [] [] [] [] [] [] [] [] (mkRaw (mkEncrypted [] [] [] [] []) []) [])
  end.

Lemma demo_in :
  Publish (fst demo_published) (snd demo_published) ∈ done (snd demo_run).
Proof.
  assert (last (done (snd demo_run)) = Some (Publish (fst demo_published) (snd demo_published))) as E
    by (vm_compute; reflexivity).
  apply last_Some in E as [l E]. rewrite E. apply elem_of_app. right. by apply list_elem_of_singleton.
Qed.

Lemma recipient_reads_mail_witness :
  DecryptMessageAuto demo_priv demo_dk (im_Encrypted (snd demo_published)) = Some (bs "hi", bs "hello").
Proof.
  destruct (recipient_reads_mail demo_libs demo_pipe (bs "x@evil.test") (bs "ann@b.org") demo_raw
    demo_ip (bs "h") demo_world (fst demo_run) (snd demo_run) (done (snd demo_run))
    (fst demo_published) (snd demo_published) (surjective_pairing demo_run) eq_refl demo_in eq_refl)
    as (u & parsed & bufs & meta & Eu & _ & Ep & _ & Hdec).
  vm_compute in Eu. injection Eu as <-. vm_compute in Ep. injection Ep as <- <-.
  exact (proj1 (Hdec demo_priv demo_dk eq_refl eq_refl eq_refl)).
Defined.

Lemma folder_assignment_witness : im_FolderAssignment (snd demo_published) = bs "inbox".
Proof.
  destruct (folder_assignment demo_libs demo_pipe (bs "x@evil.test") (bs "ann@b.org") demo_raw
    demo_ip (bs "h") demo_world (fst demo_run) (snd demo_run) (done (snd demo_run))
    (fst demo_published) (snd demo_published) (surjective_pairing demo_run) eq_refl demo_in)
    as (parsed & bufs & _ & E).
  vm_compute in E. exact (proj2 E).
Defined.

Lemma envelope_spf_passes_dmarc_witness :
  snd (runSecurityChecks demo_libs (bs "x@evil.test") demo_ip demo_raw) <> "reject"%string.
Proof.
  intros Er. pose proof (envelope_spf_passes_dmarc demo_libs (bs "x@evil.test") demo_ip demo_raw "none"
    (snd (runSecurityChecks demo_libs (bs "x@evil.test") demo_ip demo_raw))
    ltac:(vm_compute; reflexivity)) as E.
  rewrite Er in E. by destruct E as [E|[E|E]].
Defined.

Lemma attached_calendar_does_nothing_witness :
  CalendarEffects [Calendar.NotifyUpdated (bs "u1") (bs "7")] ∉ done (snd demo_run).
Proof.
  destruct (attached_calendar_does_nothing demo_libs demo_pipe (bs "x@evil.test") (bs "ann@b.org")
    demo_raw demo_ip (bs "h") demo_world
    (fst (default (mkParsed [] [] [] [] [] [] [] None, []) (parseMessageFull demo_libs demo_raw)))
    (snd (default (mkParsed [] [] [] [] [] [] [] None, []) (parseMessageFull demo_libs demo_raw)))
    (mkAtt (bs "invite.ics") (bs "text/calendar") [] 0)) as (es & E & Hes).
  - vm_compute. reflexivity.
  - vm_compute. left.
  - reflexivity.
  - change (done (snd demo_run)) with (done (snd (ProcessMessage demo_libs demo_pipe (bs "x@evil.test") (bs "ann@b.org")
    demo_raw demo_ip (bs "h") demo_world))). rewrite E. intros Hin. by apply Hes in Hin.
Defined.

#[local] Definition group_run : result perr unit * pworld :=
  ProcessGroupMessage demo_libs demo_pipe (bs "Ann@b.org") demo_group demo_raw demo_ip (bs "h") []
    demo_world.

Lemma group_copies_witness :
  (fun x => match x with Publish _ m => im_UserID m | _ => [] end) <$> done (snd group_run) =
  [bs "u2"; bs "u4"].
Proof.
  destruct (group_copies demo_libs demo_pipe (bs "Ann@b.org") demo_group demo_raw demo_ip (bs "h") []
    demo_world (snd group_run)) as (members & parsed & bufs & enc & mk & Em & Ep & E & Hmk & _).
  - vm_compute. reflexivity.
  - reflexivity.
  - injection Em as <-. rewrite E.
    assert (copied (GroupEpoch demo_group) (skip_members demo_pipe (bs "Ann@b.org") [])
              [(bs "u1", 0); (bs "u2", 3); (bs "u3", 4); (bs "u4", 1)] = [bs "u2"; bs "u4"]) as ->
      by (vm_compute; reflexivity).
    cbn [done demo_world app fmap list_fmap]. f_equal; [apply Hmk|]. f_equal. apply Hmk.
Defined.
