(* ===== verification/BlindSig.v ===== *)
(** Chaum blind signatures, internal/crypto/blind.go, on unbounded integers
    ([math/big]).  SHA-256 is a parameter; random draws are arguments, in the
    order the code asks for them. *)

From S2P Require Import Prelude.
From Stdlib Require Import Zpow_facts.
Local Open Scope Z_scope.

(** * Integers of [math/big] *)

(** [SetBytes], big-endian. *)
Definition SetBytes (b : bytes) : Z := foldl (fun acc x => acc * 256 + byteZ x) 0 b.

Definition BitLen (n : Z) : Z := if n =? 0 then 0 else Z.log2 (Z.abs n) + 1.

(** [Exp(x, y, m)] for a non-negative exponent and a positive modulus. *)
Definition Exp (x y m : Z) : Z := (x ^ y) mod m.

(** The extended Euclidean algorithm: [(g, x, y)] with [x*a + y*b = g]. *)
Fixpoint egcd (fuel : nat) (a b : Z) : Z * Z * Z :=
  match fuel with
  | O => (a, 1, 0)
  | S fuel =>
      if b =? 0 then (a, 1, 0)
      else let '(g, x, y) := egcd fuel b (a mod b) in (g, y, x - (a / b) * y)
  end.

(** Enough steps for the product [a*b] to halve down to nothing. *)
Definition egcd_fuel (a b : Z) : nat := S (Z.to_nat (Z.log2 (a * b) + 1)).

(** [ModInverse(r, n)]: [None] when [r] and [n] have a common factor. *)
Definition ModInverse (r n : Z) : option Z :=
  let '(g, x, y) := egcd (egcd_fuel n (r mod n)) n (r mod n) in
  if g =? 1 then Some (y mod n) else None.

Lemma egcd_ok k a b :
  0 <= b <= a -> 0 < a -> a * b < 2 ^ Z.of_nat k ->
  let '(g, x, y) := egcd k a b in g = Z.gcd a b /\ x * a + y * b = g.
Proof.
  revert a b. induction k as [|k IH]; intros a b Hb Ha Hk.
  - cbn in Hk |- *. assert (b = 0) as -> by nia. rewrite Z.gcd_0_r. lia.
  - cbn [egcd]. destruct (Z.eqb_spec b 0) as [->|Hne].
    + rewrite Z.gcd_0_r. lia.
    + pose proof (Z.mod_pos_bound a b ltac:(lia)) as Hm.
      pose proof (Z.div_mod a b Hne) as Hdm.
      assert (1 <= a / b) by (apply Z.div_le_lower_bound; lia).
      assert (Hhalf : b * (a mod b) < 2 ^ Z.of_nat k).
      { rewrite Nat2Z.inj_succ, Z.pow_succ_r in Hk by lia. nia. }
      specialize (IH b (a mod b) ltac:(lia) ltac:(lia) Hhalf).
      destruct (egcd k b (a mod b)) as [[g x] y]. destruct IH as [Hg Hxy].
      split; [|nia]. rewrite Hg. rewrite Z.gcd_comm, Z.gcd_mod by done. apply Z.gcd_comm.
Qed.

(** [ModInverse] finds the inverse exactly when there is one. *)
Lemma ModInverse_spec r n :
  1 < n ->
  match ModInverse r n with
  | Some i => 0 <= i < n /\ (r * i) mod n = 1
  | None => Z.gcd r n <> 1
  end.
Proof.
  intros Hn. unfold ModInverse. set (b := r mod n).
  pose proof (Z.mod_pos_bound r n ltac:(lia)) as Hb. fold b in Hb.
  assert (Hf : n * b < 2 ^ Z.of_nat (egcd_fuel n b)).
  { unfold egcd_fuel. destruct (Z.eq_dec (n * b) 0) as [->|Hne]; [by vm_compute|].
    pose proof (Z.log2_spec (n * b) ltac:(nia)) as [_ Hlog].
    eapply Z.lt_le_trans; [exact Hlog|]. apply Z.pow_le_mono_r; [lia|].
    pose proof (Z.log2_nonneg (n * b)). lia. }
  pose proof (egcd_ok (egcd_fuel n b) n b ltac:(lia) ltac:(lia) Hf) as He.
  destruct (egcd _ n b) as [[g x] y]. destruct He as [Hg Hxy].
  assert (Hgcd : Z.gcd r n = g).
  { rewrite Hg. unfold b. rewrite (Z.gcd_comm n (r mod n)), Z.gcd_mod by lia. apply Z.gcd_comm. }
  destruct (Z.eqb_spec g 1) as [->|Hne]; [|congruence].
  split; [apply Z.mod_pos_bound; lia|].
  rewrite Zmult_mod_idemp_r, <-Zmult_mod_idemp_l. fold b.
  replace (b * y) with (1 + - x * n) by lia. rewrite Z_mod_plus_full. apply Z.mod_small. lia.
Qed.

(** * Full-domain hash *)

Section blind.
Context (sha256 : bytes -> bytes).

Definition counter_bytes (i : nat) : bytes :=
  (fun s => default x00 (Byte.of_N (Z.to_N (Z.land (Z.shiftr (Z.of_nat i) s) 255))))
    <$> [24; 16; 8; 0].

(** The loop of [mgf1SHA256]: blocks are appended until [length] is reached. *)
Fixpoint mgf1_loop (fuel i : nat) (seed out : bytes) (len : nat) : bytes :=
  match fuel with
  | O => out
  | S fuel =>
      if (length out <? len)%nat
      then mgf1_loop fuel (S i) seed (out ++ sha256 (seed ++ counter_bytes i)) len
      else out
  end.

Definition mgf1SHA256 (seed : bytes) (len : nat) : bytes :=
  firstn len (mgf1_loop len 0 seed [] len).

Definition blindDomainSeparator : bytes := string_bytes "bmail-blind-signature-v1:".

Definition fdh (message : bytes) (n : Z) : option Z :=
  let nLen := Z.to_nat ((BitLen n + 7) / 8) in
  let m := SetBytes (mgf1SHA256 (blindDomainSeparator ++ message) nLen) mod n in
  if m =? 0 then None else Some m.

(** * Keys, blinding, signing *)

Record PublicKey := { N : Z; E : Z }.

Record PrivateKey := { pub : PublicKey; P : Z; Q : Z; Dp : Z; Dq : Z; Qinv : Z }.

Definition GenerateBlindSigningKey (generate : Z -> option PrivateKey) (bits : Z)
    : option PrivateKey :=
  if bits <? 3072 then None else generate bits.

(** The draws of [rand.Int(rand.Reader, n)], reduced below [n]; running out of
    draws is the reader's error. *)
Fixpoint pick_blinding (draws : list Z) (n : Z) : option Z :=
  match draws with
  | [] => None
  | r :: draws =>
      if r =? 0 then pick_blinding draws n
      else if Z.gcd r n =? 1 then Some r
      else pick_blinding draws n
  end.

Definition BlindMessage (message : bytes) (k : PublicKey) (draws : list Z)
    : option (Z * Z) :=
  m ← fdh message (N k);
  r ← pick_blinding draws (N k);
  Some ((m * Exp r (E k) (N k)) mod N k, r).

Fixpoint pick_nonzero (draws : list Z) : option Z :=
  match draws with
  | [] => None
  | r :: draws => if r =? 0 then pick_nonzero draws else Some r
  end.

(** The signature by the Chinese remainder theorem, before the timing blind is
    removed. *)
Definition crt_sign (x : Z) (k : PrivateKey) : Z :=
  let m1 := Exp x (Dp k) (P k) in
  let m2 := Exp x (Dq k) (Q k) in
  let h := ((m1 - m2) * Qinv k) mod P k in
  h * Q k + m2.

Definition SignBlinded (blinded : Z) (k : PrivateKey) (draws : list Z) : option Z :=
  let n := N (pub k) in
  let e := E (pub k) in
  r ← pick_nonzero draws;
  let blindedInput := (blinded * Exp r e n) mod n in
  rInv ← ModInverse r n;
  let result := (crt_sign blindedInput k * rInv) mod n in
  if Exp result e n =? blinded then Some result else None.

Definition UnblindSignature (blindSig blindingFactor : Z) (k : PublicKey) : option Z :=
  rInv ← ModInverse blindingFactor (N k); Some ((blindSig * rInv) mod N k).

Definition VerifySignature (message : bytes) (signature : Z) (k : PublicKey) : bool :=
  if signature <=? 0 then false
  else match fdh message (N k) with
       | None => false
       | Some rhs => Exp signature (E k) (N k) =? rhs
       end.

(** * Lemmas *)

Lemma Exp_mod x y m : 0 < m -> Exp (x mod m) y m = Exp x y m.
Proof.
  intros Hm. unfold Exp. symmetry. by apply Zpower_mod.
Qed.

Lemma Exp_mul x x' y m : 0 <= y -> 0 < m -> Exp (x * x') y m = (Exp x y m * Exp x' y m) mod m.
Proof. intros. unfold Exp. by rewrite Z.pow_mul_l, Zmult_mod by done. Qed.

Lemma Exp_bound x y m : 0 < m -> 0 <= Exp x y m < m.
Proof. intros. by apply Z.mod_pos_bound. Qed.

Lemma fdh_bound message n m : 0 < n -> fdh message n = Some m -> 0 < m < n.
Proof.
  unfold fdh. intros Hn Hm. set (x := SetBytes _) in Hm.
  pose proof (Z.mod_pos_bound x n Hn) as Hb.
  destruct (Z.eqb_spec (x mod n) 0); [done|]. injection Hm as <-. lia.
Qed.

Lemma pick_blinding_ok draws n r :
  pick_blinding draws n = Some r -> r ∈ draws /\ Z.gcd r n = 1.
Proof.
  induction draws as [|d draws IH]; cbn [pick_blinding]; [done|]. intros Hp.
  destruct (Z.eqb_spec d 0); [destruct (IH Hp); split; [by right|done]|].
  destruct (Z.eqb_spec (Z.gcd d n) 1).
  - injection Hp as <-. split; [left|done].
  - destruct (IH Hp); split; [by right|done].
Qed.

(** A signature the signer hands out satisfies the verification equation. *)
Lemma SignBlinded_ok blinded k draws s :
  0 < N (pub k) -> SignBlinded blinded k draws = Some s ->
  0 <= s < N (pub k) /\ Exp s (E (pub k)) (N (pub k)) = blinded.
Proof.
  intros Hn. unfold SignBlinded. destruct (pick_nonzero draws) as [r|]; [|done]. cbn.
  destruct (ModInverse r (N (pub k))) as [rInv|]; [|done]. cbn.
  destruct (Z.eqb_spec (Exp ((crt_sign ((blinded * Exp r (E (pub k)) (N (pub k)))
    mod N (pub k)) k * rInv) mod N (pub k)) (E (pub k)) (N (pub k))) blinded) as [He|]; [|done].
  intros [= <-]. split; [|done]. by apply Z.mod_pos_bound.
Qed.

Lemma unblind_power m r i s e n :
  1 < n -> 0 < e -> (r * i) mod n = 1 -> 0 < m < n ->
  Exp s e n = (m * Exp r e n) mod n ->
  Exp ((s * i) mod n) e n = m.
Proof.
  intros Hn He Hi Hm Hs. rewrite Exp_mod, Exp_mul, Hs by lia.
  rewrite Zmult_mod_idemp_l, <-Z.mul_assoc.
  assert (Hri : (Exp r e n * Exp i e n) mod n = 1).
  { rewrite <-Exp_mul by lia. rewrite <-Exp_mod, Hi by lia. unfold Exp.
    rewrite Z.pow_1_l by lia. apply Z.mod_small. lia. }
  rewrite <-Zmult_mod_idemp_r, Hri, Z.mul_1_r. apply Z.mod_small. lia.
Qed.
End blind.

(** * Properties *)

(** C11. The protocol is complete and sound for the holder: whatever the signer
    returns for a blinded message, unblinding it succeeds and gives a signature
    that verifies on the original message.  (The signer may only fail; a wrong
    CRT result is caught by its fault check.) *)
Theorem blind_signature_roundtrip sha256 message (k : PrivateKey) draws draws' blinded r s
    (HN : 1 < N (pub k)) (HE : 0 < E (pub k))
    (HB : BlindMessage sha256 message (pub k) draws = Some (blinded, r))
    (HS : SignBlinded blinded k draws' = Some s) :
  exists sig, UnblindSignature s r (pub k) = Some sig /\
              VerifySignature sha256 message sig (pub k) = true.
Proof.
  unfold BlindMessage in HB. destruct (fdh sha256 message (N (pub k))) as [m|] eqn:Em; [|done].
  destruct (pick_blinding draws (N (pub k))) as [r'|] eqn:Er; [|done].
  cbn [mbind option_bind] in HB. injection HB as HB ->.
  apply pick_blinding_ok in Er as [_ Hgcd].
  assert (0 < N (pub k)) as Hn by lia.
  pose proof (fdh_bound _ _ _ _ Hn Em) as Hm.
  destruct (SignBlinded_ok _ _ _ _ Hn HS) as [_ Hs]. rewrite <-HB in Hs.
  pose proof (ModInverse_spec r (N (pub k)) HN) as Hinv. unfold UnblindSignature.
  destruct (ModInverse r (N (pub k))) as [i|]; [|done]. destruct Hinv as [_ Hi].
  eexists. split; [reflexivity|].
  pose proof (unblind_power m r i s _ _ HN HE Hi Hm Hs) as Hv.
  unfold VerifySignature. rewrite Em, Hv, Z.eqb_refl.
  destruct (Z.leb_spec ((s * i) mod N (pub k)) 0) as [Hle|]; [|done].
  pose proof (Z.mod_pos_bound (s * i) (N (pub k)) ltac:(lia)).
  assert ((s * i) mod N (pub k) = 0) as Hz by lia. rewrite Hz in Hv.
  unfold Exp in Hv. rewrite Z.pow_0_l, Zmod_0_l in Hv by lia. lia.
Qed.

(** A small key: p = 61, q = 53, e = 17. *)
Definition toy_key : PrivateKey :=
  {| pub := {| N := 3233; E := 17 |}; P := 61; Q := 53; Dp := 53; Dq := 49; Qinv := 38 |}.

Definition toy_sha (b : bytes) : bytes := [x0a; x7b].

Lemma blind_signature_roundtrip_witness :
  exists sig, UnblindSignature 603 7 (pub toy_key) = Some sig /\
              VerifySignature toy_sha [x01] sig (pub toy_key) = true.
Proof.
  apply (blind_signature_roundtrip toy_sha [x01] toy_key [0; 61; 7] [0; 5]
           3182 7 603).
  - done.
  - done.
  - vm_compute. reflexivity.
  - vm_compute. reflexivity.
Defined.
