(* ===== verification/Payment.v ===== *)
(** The payment enclave: the signing service (internal/payment/service.go), the
    batcher (batcher.go), the tier mapping of the processors (processor.go), the
    tables of internal/storage/payment_store.go and fakeid_slot_store.go, and
    the handlers of cmd/payment/main.go and fakeid_slots.go.

The database is the state of its tables together with the faults the next
statements meet; a statement may fail before or after it took effect.
Decoded JSON bodies are arguments ([None] when decoding failed).  SHA-256,
HMAC, Ed25519 and the JSON of the processors are parameters. *)

From S2P Require Import Prelude Hex BlindSig.
Local Open Scope Z_scope.

(** * Tiers and processors *)

Definition TierFakeIDMint : string := "fakeid_mint".
Definition TierFakeIDRatchet : string := "fakeid_ratchet".

Definition Tiers : list string :=
  ["paid"; "pro"; "business"; TierFakeIDMint; TierFakeIDRatchet]%string.

Definition stripeTierFromAmount (amount : Z) : string :=
  if 1000 <=? amount then "business" else if 500 <=? amount then "pro" else "paid".

Definition lightningTierFromSats (sats : Z) : string :=
  if 100000 <=? sats then "business" else if 50000 <=? sats then "pro" else "paid".

(** [safeIDPattern] and [safeHexPattern]. *)
Definition safe_id (s : bytes) : bool :=
  negb (bool_decide (s = [])) &&
  forallb (fun b => byte_between "a" "z" b || byte_between "A" "Z" b ||
                    byte_between "0" "9" b || byte_eqb b "_" || byte_eqb b "-") s.

Definition safe_hash (s : bytes) : bool :=
  (length s =? 64)%nat &&
  forallb (fun b => byte_between "a" "f" b || byte_between "A" "F" b ||
                    byte_between "0" "9" b) s.

(** A payment intent and an invoice, as the code reads them from the answer of
    the payment network: [None] stands for any transport, status or JSON error. *)
Record stripePaymentIntent := { Status : string; Amount : Z }.
Record lndInvoice := { Settled : bool; AmtPaidSat : option Z }.

Definition stripe_VerifyPayment (proof_id : option bytes)
    (api : bytes -> option stripePaymentIntent) : option string :=
  id ← proof_id;
  if bool_decide (id = []) then None
  else if negb (safe_id id) then None
  else
    pi ← api id;
    if negb (String.eqb (Status pi) "succeeded") then None
    else Some (stripeTierFromAmount (Amount pi)).

Definition lightning_VerifyPayment (proof_hash : option bytes)
    (api : bytes -> option lndInvoice) : option string :=
  h ← proof_hash;
  if bool_decide (h = []) then None
  else if negb (safe_hash h) then None
  else
    inv ← api h;
    if negb (Settled inv) then None
    else a ← AmtPaidSat inv; Some (lightningTierFromSats a).

(** The stub processors check their proof's fields and then always fail. *)
Definition stub_VerifyPayment (fields : option (list bytes)) : option string := None.

(** * The batcher *)

Record signJob := { job_id : nat; cancelled : bool; blindedToken : Z; job_tier : string }.

Record SigningBatcher := {
  keys : gmap string PrivateKey;
  maxBatch : nat;
  queueSize : nat;
  queue : list signJob
}.

Definition NewSigningBatcher (keys : gmap string PrivateKey) : SigningBatcher :=
  {| keys := keys; maxBatch := 100; queueSize := 1000; queue := [] |}.

(** [b.queue <- job]: blocks ([None]) while the channel is full. *)
Definition enqueue (j : signJob) (b : SigningBatcher) : option SigningBatcher :=
  if (length (queue b) <? queueSize b)%nat
  then Some {| keys := keys b; maxBatch := maxBatch b; queueSize := queueSize b;
               queue := queue b ++ [j] |}
  else None.

(** The receive loop of [drain]: one job at a time, until the batch is full or
    the queue is empty. *)
Fixpoint drain_loop (room : nat) (q : list signJob) (batch : list signJob)
    : list signJob * list signJob :=
  match room, q with
  | S room, j :: q => drain_loop room q (batch ++ [j])
  | _, _ => (batch, q)
  end.

Definition drain (b : SigningBatcher) : list signJob * SigningBatcher :=
  let '(batch, q) := drain_loop (maxBatch b) (queue b) [] in
  (batch, {| keys := keys b; maxBatch := maxBatch b; queueSize := queueSize b; queue := q |}).

Inductive sign_error := Cancelled | NoSigningKey | SignFailed | BatcherStopped.

(** The answer to one job; [draws] are the random draws of its signature. *)
Definition answer (b : SigningBatcher) (draws : nat -> list Z) (j : signJob)
    : result sign_error Z :=
  if cancelled j then Err Cancelled
  else match keys b !! job_tier j with
       | None => Err NoSigningKey
       | Some k => of_option SignFailed (SignBlinded (blindedToken j) k (draws (job_id j)))
       end.

(** [processBatch]: the answers sent, in order, and what stays queued. *)
Definition processBatch (draws : nat -> list Z) (b : SigningBatcher)
    : list (nat * result sign_error Z) * SigningBatcher :=
  let '(batch, b') := drain b in
  ((fun j => (job_id j, answer b draws j)) <$> batch, b').

(** [run]: one batch per tick, one more when the batcher is stopped. *)
Fixpoint run_ticks (draws : nat -> list Z) (ticks : nat) (b : SigningBatcher)
    : list (nat * result sign_error Z) * SigningBatcher :=
  match ticks with
  | O => ([], b)
  | S ticks =>
      let '(out, b) := processBatch draws b in
      let '(rest, b) := run_ticks draws ticks b in
      (out ++ rest, b)
  end.

Definition Stop (draws : nat -> list Z) (b : SigningBatcher) := processBatch draws b.

(** * The service *)

Record PaymentService := {
  signingKeys : gmap string PrivateKey;
  publicKeys : gmap string PublicKey;
  processors : gmap string (bytes -> option string);
  (** how the batcher serves a call, when there is one *)
  batcher : option (string -> Z -> result sign_error Z)
}.

Definition NewPaymentService (ks : gmap string PrivateKey)
    (ps : gmap string (bytes -> option string)) : PaymentService :=
  {| signingKeys := ks; publicKeys := pub <$> ks; processors := ps; batcher := None |}.

Definition SignForTier (s : PaymentService) (tier : string) (blinded : Z) (draws : list Z)
    : result sign_error Z :=
  match batcher s with
  | Some submit => submit tier blinded
  | None =>
      match signingKeys s !! tier with
      | None => Err NoSigningKey
      | Some k => of_option SignFailed (SignBlinded blinded k draws)
      end
  end.

Definition ProcessPayment (s : PaymentService) (method : string) (proof : bytes)
    (blinded : Z) (draws : list Z) : option (Z * string) :=
  verify ← processors s !! method;
  tier ← verify proof;
  match SignForTier s tier blinded draws with
  | Ok sig => Some (sig, tier)
  | Err _ => None
  end.

(** The loop of [VerifyForTier] over the tiers. *)
Fixpoint first_tier (sha256 : bytes -> bytes) (s : PaymentService) (token : bytes)
    (signature : Z) (tiers : list string) : option string :=
  match tiers with
  | [] => None
  | tier :: tiers =>
      match publicKeys s !! tier with
      | None => first_tier sha256 s token signature tiers
      | Some k =>
          if VerifySignature sha256 token signature k then Some tier
          else first_tier sha256 s token signature tiers
      end
  end.

Definition VerifyForTier (sha256 : bytes -> bytes) (s : PaymentService) (token : bytes)
    (signature : Z) : option string :=
  first_tier sha256 s token signature Tiers.

Definition GetPublicKey (s : PaymentService) (tier : string) : option PublicKey :=
  publicKeys s !! tier.

(** * Tables *)

Inductive fault := NoFault | FailBefore | FailAfter.

Record DB := {
  spent_tokens : gmap bytes string;        (* token_hash -> tier *)
  consumed_slots : gmap bytes Z;           (* primary_tag -> consumed_at *)
  mint_flags : gmap string Z;              (* subscription_id -> minted_at *)
  faults : list fault                      (* of the next statements *)
}.

Inductive db_error := ErrTokenAlreadySpent | ErrSlotAlreadyTaken | ErrFakeIDAlreadyMinted
                    | ErrDB.

Definition next_fault (db : DB) : fault * DB :=
  match faults db with
  | [] => (NoFault, db)
  | f :: fs => (f, {| spent_tokens := spent_tokens db; consumed_slots := consumed_slots db;
                      mint_flags := mint_flags db; faults := fs |})
  end.

Definition set_spent (db : DB) (m : gmap bytes string) : DB :=
  {| spent_tokens := m; consumed_slots := consumed_slots db; mint_flags := mint_flags db;
     faults := faults db |}.
Definition set_consumed (db : DB) (m : gmap bytes Z) : DB :=
  {| spent_tokens := spent_tokens db; consumed_slots := m; mint_flags := mint_flags db;
     faults := faults db |}.
Definition set_flags (db : DB) (m : gmap string Z) : DB :=
  {| spent_tokens := spent_tokens db; consumed_slots := consumed_slots db; mint_flags := m;
     faults := faults db |}.

(** A statement with effect [upd] and outcome [r] under the next fault. *)
Definition exec {A} (db : DB) (r : result db_error A) (upd : DB -> DB)
    : result db_error A * DB :=
  match next_fault db with
  | (NoFault, db) => (r, upd db)
  | (FailBefore, db) => (Err ErrDB, db)
  | (FailAfter, db) => (Err ErrDB, upd db)
  end.

(** [INSERT ... ON CONFLICT (token_hash) DO NOTHING] *)
Definition InsertSpentToken (tokenHash : bytes) (tier : string) (db : DB)
    : result db_error unit * DB :=
  match spent_tokens db !! tokenHash with
  | Some _ => exec db (Err ErrTokenAlreadySpent) (fun db => db)
  | None => exec db (Ok tt) (fun db => set_spent db (<[tokenHash := tier]> (spent_tokens db)))
  end.

Definition IsTokenSpent (tokenHash : bytes) (db : DB) : result db_error bool * DB :=
  exec db (Ok (bool_decide (is_Some (spent_tokens db !! tokenHash)))) (fun db => db).

(** [ON CONFLICT DO UPDATE ... WHERE minted_at < now() - 30 seconds]; times in
    seconds. *)
Definition MarkFakeIDMinted (now : Z) (sub : string) (db : DB) : result db_error unit * DB :=
  let put db := set_flags db (<[sub := now]> (mint_flags db)) in
  match mint_flags db !! sub with
  | None => exec db (Ok tt) put
  | Some t => if t <? now - 30 then exec db (Ok tt) put
              else exec db (Err ErrFakeIDAlreadyMinted) (fun db => db)
  end.

Definition HasFakeIDMinted (sub : string) (db : DB) : result db_error bool * DB :=
  exec db (Ok (bool_decide (is_Some (mint_flags db !! sub)))) (fun db => db).

Inductive SlotState := SlotFree | SlotConsumed.

Definition StatusForTag (tag : bytes) (db : DB) : result db_error SlotState * DB :=
  exec db (Ok (match consumed_slots db !! tag with Some _ => SlotConsumed | None => SlotFree end))
       (fun db => db).

Definition InsertConsumed (now : Z) (tag : bytes) (db : DB) : result db_error unit * DB :=
  match consumed_slots db !! tag with
  | Some _ => exec db (Err ErrSlotAlreadyTaken) (fun db => db)
  | None => exec db (Ok tt) (fun db => set_consumed db (<[tag := now]> (consumed_slots db)))
  end.

Definition SeedConsumed (tag : bytes) (at_ : Z) (db : DB) : result db_error unit * DB :=
  match consumed_slots db !! tag with
  | Some _ => exec db (Ok tt) (fun db => db)
  | None => exec db (Ok tt) (fun db => set_consumed db (<[tag := at_]> (consumed_slots db)))
  end.

(** * Handlers *)

(** [big.Int.Bytes]: the shortest big-endian form. *)
Fixpoint big_bytes (fuel : nat) (n : Z) (acc : bytes) : bytes :=
  match fuel with
  | O => acc
  | S fuel =>
      if n <=? 0 then acc
      else big_bytes fuel (n / 256) (default x00 (Byte.of_N (Z.to_N (n mod 256))) :: acc)
  end.

Definition Bytes (n : Z) : bytes := big_bytes (Z.to_nat (BitLen n)) n [].

Inductive body :=
| ErrorBody (msg : string)
| BlindSigBody (blind_signature : string)
| SignBody (blind_signature tier : string)
| MintBody (blind_signature primary_tag tag_attestation : string)
| OKBody
| StateBody (state : string)
| TierBody (tier : string).

Definition response := (Z * body)%type.

(** [hex.DecodeString] of a request field, non-empty where the code asks so. *)
Definition hex_field (s : string) : option bytes :=
  b ← hex_DecodeString s; if bool_decide (b = []) then None else Some b.

Section handlers.
Context (sha256 : bytes -> bytes) (hmac : bytes -> string -> bytes).
Context (ed_sign : bytes -> bytes -> bytes) (ed_verify : bytes -> bytes -> bytes -> bool).

(** [DerivePrimaryTag], [SignTagAttestation], [VerifyTagAttestation]. *)
Definition DerivePrimaryTag (tagKey : bytes) (primaryID : string) : bytes := hmac tagKey primaryID.

Record FakeIDAttestationKey := { Private : bytes; Public : bytes }.

Definition SignTagAttestation (k : FakeIDAttestationKey) (primaryTag : bytes) : bytes :=
  ed_sign (Private k) primaryTag.

Definition VerifyTagAttestation (k : FakeIDAttestationKey) (primaryTag sig : bytes) : bool :=
  (length sig =? 64)%nat && ed_verify (Public k) primaryTag sig.

Record fakeidSlotDeps := {
  svc : PaymentService;
  tagKey : bytes;
  attKey : FakeIDAttestationKey
}.

(** ** POST /payment/fakeid/mint *)

Record fakeidMintV2Request := { PrimaryID : string; BlindedToken : string }.

Definition handleFakeIDMintV2 (deps : fakeidSlotDeps) (draws : list Z)
    (req : option fakeidMintV2Request) (db : DB) : response * DB :=
  match req with
  | None => ((400, ErrorBody "invalid request body"), db)
  | Some req =>
      if String.eqb (PrimaryID req) "" then ((400, ErrorBody "primary_id is required"), db)
      else match hex_field (BlindedToken req) with
      | None => ((400, ErrorBody "invalid hex in blinded_token"), db)
      | Some blindedBytes =>
          let primaryTag := DerivePrimaryTag (tagKey deps) (PrimaryID req) in
          match StatusForTag primaryTag db with
          | (Err _, db) => ((500, ErrorBody "internal error"), db)
          | (Ok SlotConsumed, db) =>
              ((409, ErrorBody "fakeid already exists for this primary"), db)
          | (Ok SlotFree, db) =>
              match SignForTier (svc deps) TierFakeIDMint (SetBytes blindedBytes) draws with
              | Err _ => ((500, ErrorBody "signing failed"), db)
              | Ok blindSig =>
                  ((200, MintBody (hex_EncodeToString (Bytes blindSig))
                           (hex_EncodeToString primaryTag)
                           (hex_EncodeToString (SignTagAttestation (attKey deps) primaryTag))),
                   db)
              end
          end
      end
  end.

(** ** POST /payment/fakeid/verify-credential *)

Record verifyCredRequest :=
  { Token : string; Signature : string; PrimaryTag : string; TagAttestation : string }.

(** Everything before the first insert: the response that ends the call, or the
    token's hash and the tag to be consumed. *)
Definition check_credential (deps : fakeidSlotDeps) (req : option verifyCredRequest)
    : response + bytes * bytes :=
  match req with
  | None => inl (400, ErrorBody "invalid request body")
  | Some req =>
      match hex_field (Token req), hex_field (Signature req),
            hex_DecodeString (PrimaryTag req), hex_field (TagAttestation req) with
      | None, _, _, _ => inl (400, ErrorBody "invalid hex in token")
      | _, None, _, _ => inl (400, ErrorBody "invalid hex in signature")
      | _, _, None, _ => inl (400, ErrorBody "invalid primary_tag")
      | Some tokenBytes, Some sigBytes, Some primaryTag, att =>
          if negb (length primaryTag =? 32)%nat then inl (400, ErrorBody "invalid primary_tag")
          else match att with
          | None => inl (400, ErrorBody "invalid hex in tag_attestation")
          | Some attSig =>
              match GetPublicKey (svc deps) TierFakeIDMint with
              | None => inl (500, ErrorBody "pubkey unavailable")
              | Some k =>
                  if negb (VerifySignature sha256 tokenBytes (SetBytes sigBytes) k)
                  then inl (401, ErrorBody "invalid blind signature")
                  else if negb (VerifyTagAttestation (attKey deps) primaryTag attSig)
                  then inl (401, ErrorBody "invalid tag attestation")
                  else inr (sha256 tokenBytes, primaryTag)
              end
          end
      end
  end.

(** The first statement: burn the token. *)
Definition spend_step (tokenHash : bytes) (db : DB) : option response * DB :=
  match InsertSpentToken tokenHash TierFakeIDMint db with
  | (Ok _, db) => (None, db)
  | (Err ErrTokenAlreadySpent, db) => (Some (409, ErrorBody "credential already used"), db)
  | (Err _, db) => (Some (500, ErrorBody "spent-token check failed"), db)
  end.

(** The second: consume the primary's slot. *)
Definition consume_step (now : Z) (primaryTag : bytes) (db : DB) : response * DB :=
  match InsertConsumed now primaryTag db with
  | (Ok _, db) => ((200, OKBody), db)
  | (Err ErrSlotAlreadyTaken, db) => ((409, ErrorBody "primary already has a fakeid"), db)
  | (Err _, db) => ((500, ErrorBody "slot insert failed"), db)
  end.

Definition handleFakeIDVerifyCredential (deps : fakeidSlotDeps) (now : Z)
    (req : option verifyCredRequest) (db : DB) : response * DB :=
  match check_credential deps req with
  | inl r => (r, db)
  | inr (tokenHash, primaryTag) =>
      match spend_step tokenHash db with
      | (Some r, db) => (r, db)
      | (None, db) => consume_step now primaryTag db
      end
  end.

(** ** GET /payment/fakeid/slot-status *)

Definition handleFakeIDSlotStatus (deps : fakeidSlotDeps) (primaryID : string) (db : DB)
    : response * DB :=
  if String.eqb primaryID "" then ((400, ErrorBody "primary_id query param required"), db)
  else match StatusForTag (DerivePrimaryTag (tagKey deps) primaryID) db with
  | (Err _, db) => ((500, ErrorBody "status query failed"), db)
  | (Ok SlotConsumed, db) => ((200, StateBody "consumed"), db)
  | (Ok SlotFree, db) => ((200, StateBody "free"), db)
  end.

(** ** POST /payment/fakeid/admin/seed-consumed *)

Record seedConsumedRequest := { SeedPrimaryID : string; ConsumedAt : string }.

Definition handleFakeIDSeedConsumed (parse_time : string -> option Z) (deps : fakeidSlotDeps)
    (now : Z) (req : option seedConsumedRequest) (db : DB) : response * DB :=
  match req with
  | None => ((400, ErrorBody "invalid request body"), db)
  | Some req =>
      if String.eqb (SeedPrimaryID req) "" then ((400, ErrorBody "primary_id required"), db)
      else
        let consumedAt := if String.eqb (ConsumedAt req) "" then Some now
                          else parse_time (ConsumedAt req) in
        match consumedAt with
        | None => ((400, ErrorBody "invalid consumed_at"), db)
        | Some at_ =>
            match SeedConsumed (DerivePrimaryTag (tagKey deps) (SeedPrimaryID req)) at_ db with
            | (Err _, db) => ((500, ErrorBody "seed failed"), db)
            | (Ok _, db) => ((200, OKBody), db)
            end
        end
  end.

(** ** The legacy flows *)

Record fakeIDMintRequest := { SubscriptionID : string; MintBlindedToken : string }.

Definition handleFakeIDMint (s : PaymentService) (now : Z) (draws : list Z)
    (req : option fakeIDMintRequest) (db : DB) : response * DB :=
  match req with
  | None => ((400, ErrorBody "invalid request body"), db)
  | Some req =>
      if String.eqb (SubscriptionID req) "" then
        ((400, ErrorBody "subscription_id is required"), db)
      else match hex_field (MintBlindedToken req) with
      | None => ((400, ErrorBody "invalid hex in blinded_token"), db)
      | Some b =>
          match MarkFakeIDMinted now (SubscriptionID req) db with
          | (Err ErrFakeIDAlreadyMinted, db) =>
              ((409, ErrorBody "fakeid already minted for this subscription"), db)
          | (Err _, db) => ((500, ErrorBody "internal error"), db)
          | (Ok _, db) =>
              match SignForTier s TierFakeIDMint (SetBytes b) draws with
              | Err _ => ((500, ErrorBody "signing failed"), db)
              | Ok sig => ((200, BlindSigBody (hex_EncodeToString (Bytes sig))), db)
              end
          end
      end
  end.

Definition handleFakeIDRatchet (s : PaymentService) (draws : list Z) (req : option string)
    : response :=
  match req with
  | None => (400, ErrorBody "invalid request body")
  | Some blinded =>
      match hex_field blinded with
      | None => (400, ErrorBody "invalid hex in blinded_token")
      | Some b =>
          match SignForTier s TierFakeIDRatchet (SetBytes b) draws with
          | Err _ => (500, ErrorBody "signing failed")
          | Ok sig => (200, BlindSigBody (hex_EncodeToString (Bytes sig)))
          end
      end
  end.

Record signRequest := { PaymentMethod : string; PaymentProof : string; SignBlindedToken : string }.

Definition handleSign (s : PaymentService) (draws : list Z) (req : option signRequest)
    : response :=
  match req with
  | None => (400, ErrorBody "invalid request body")
  | Some req =>
      match hex_DecodeString (SignBlindedToken req) with
      | None => (400, ErrorBody "invalid hex in blinded_token")
      | Some b =>
          match ProcessPayment s (PaymentMethod req) (string_bytes (PaymentProof req))
                  (SetBytes b) draws with
          | None => (402, ErrorBody "payment verification failed")
          | Some (sig, tier) => (200, SignBody (hex_EncodeToString (Bytes sig)) tier)
          end
      end
  end.

Record redeemRequest := { RedeemToken : string; RedeemSignature : string }.

Definition handleRedeem (s : PaymentService) (req : option redeemRequest) (db : DB)
    : response * DB :=
  match req with
  | None => ((400, ErrorBody "invalid request body"), db)
  | Some req =>
      match hex_DecodeString (RedeemToken req), hex_DecodeString (RedeemSignature req) with
      | None, _ => ((400, ErrorBody "invalid hex in token"), db)
      | _, None => ((400, ErrorBody "invalid hex in signature"), db)
      | Some tokenBytes, Some sigBytes =>
          match VerifyForTier sha256 s tokenBytes (SetBytes sigBytes) with
          | None => ((401, ErrorBody "invalid signature"), db)
          | Some tier =>
              match InsertSpentToken (sha256 tokenBytes) tier db with
              | (Err ErrTokenAlreadySpent, db) => ((409, ErrorBody "token already redeemed"), db)
              | (Err _, db) => ((500, ErrorBody "internal error"), db)
              | (Ok _, db) => ((200, TierBody tier), db)
              end
          end
      end
  end.

(** [requireAPIKey]: the shared secret, compared as a whole. *)
Definition requireAPIKey {A} (apiKey authorization : string) (refused next : A) : A :=
  if String.eqb authorization "" || negb (String.eqb authorization ("Bearer " ++ apiKey))
  then refused else next.

(** * Interleaved verifications

Concurrent calls of verify-credential, each of its two statements being one
step; other statements (redeem, seed) may come in between. *)

Inductive verify_pc :=
| VStart (cred : bytes * bytes)          (* token hash and tag, already checked *)
| VSpent (cred : bytes * bytes)
| VDone (cred : bytes * bytes) (r : response).

Inductive verify_step : list verify_pc * DB -> list verify_pc * DB -> Prop :=
| vstep_spend (i : nat) (pcs : list verify_pc) c (db : DB) :
    pcs !! i = Some (VStart c) ->
    verify_step (pcs, db)
      (<[i := match fst (spend_step (fst c) db) with
              | Some r => VDone c r
              | None => VSpent c
              end]> pcs, snd (spend_step (fst c) db))
| vstep_consume (i : nat) (pcs : list verify_pc) c now (db : DB) :
    pcs !! i = Some (VSpent c) ->
    verify_step (pcs, db)
      (<[i := VDone c (fst (consume_step now (snd c) db))]> pcs,
       snd (consume_step now (snd c) db))
| vstep_redeem h tier pcs db :
    verify_step (pcs, db) (pcs, snd (InsertSpentToken h tier db))
| vstep_seed tag at_ pcs db :
    verify_step (pcs, db) (pcs, snd (SeedConsumed tag at_ db))
| vstep_arrive c pcs db :
    verify_step (pcs, db) (pcs ++ [VStart c], db).

(** Calls that were answered 200. *)
Definition registered (pc : verify_pc) : bool :=
  match pc with VDone _ r => fst r =? 200 | _ => false end.

Definition cred_of (pc : verify_pc) : bytes * bytes :=
  match pc with VStart c | VSpent c | VDone c _ => c end.

(** Calls whose own insert of the token was reported successful. *)
Definition holds_token (pc : verify_pc) : bool :=
  match pc with VStart _ => false | VSpent _ => true | VDone _ r => fst r =? 200 end.

Definition count_calls (f : verify_pc -> bool) (pcs : list verify_pc) : Z :=
  foldr (fun pc n => (if f pc then 1 else 0) + n) 0 pcs.

Lemma count_calls_cons f pc pcs :
  count_calls f (pc :: pcs) = (if f pc then 1 else 0) + count_calls f pcs.
Proof. done. Qed.

Lemma count_calls_mono f g pcs :
  (forall pc, f pc = true -> g pc = true) -> count_calls f pcs <= count_calls g pcs.
Proof.
  intros Hfg. induction pcs as [|pc pcs IH]; [done|]. rewrite !count_calls_cons.
  specialize (Hfg pc). destruct (f pc); [rewrite Hfg by done|destruct (g pc)]; lia.
Qed.

Lemma count_calls_app f pcs qcs :
  count_calls f (pcs ++ qcs) = count_calls f pcs + count_calls f qcs.
Proof. unfold count_calls. induction pcs as [|pc pcs IH]; cbn; [done|]. rewrite IH. lia. Qed.

Lemma count_calls_insert f (pcs : list verify_pc) (i : nat) pc pc' :
  pcs !! i = Some pc ->
  count_calls f (<[i := pc']> pcs) =
    count_calls f pcs - (if f pc then 1 else 0) + (if f pc' then 1 else 0).
Proof.
  revert i. induction pcs as [|p pcs IH]; intros [|i] Hi; [done..| |]; cbn in Hi.
  - injection Hi as ->. change (<[0%nat:=pc']> (pc :: pcs)) with (pc' :: pcs).
    rewrite !count_calls_cons. lia.
  - change (<[S i:=pc']> (p :: pcs)) with (p :: <[i:=pc']> pcs).
    rewrite !count_calls_cons, (IH i Hi). lia.
Qed.

(** What the two statements do to the tables. *)
Lemma next_fault_tables db :
  spent_tokens (snd (next_fault db)) = spent_tokens db /\
  consumed_slots (snd (next_fault db)) = consumed_slots db.
Proof. unfold next_fault. by destruct (faults db). Qed.

Definition in_slot (tag : bytes) (db : DB) : Z :=
  match consumed_slots db !! tag with Some _ => 1 | None => 0 end.

Definition is_spent (h : bytes) (db : DB) : Z :=
  match spent_tokens db !! h with Some _ => 1 | None => 0 end.

(** Inserting [k] reports success only when the key was absent, and adds at
    most that key. *)
Lemma insert_spent_effect h tier db h' :
  let r := InsertSpentToken h tier db in
  is_spent h' db + (if is_ok (fst r) && bool_decide (h = h') then 1 else 0)
    <= is_spent h' (snd r) /\
  consumed_slots (snd r) = consumed_slots db.
Proof.
  cbv zeta. unfold InsertSpentToken, exec, is_spent.
  pose proof (next_fault_tables db) as [Hs Hc]. destruct (next_fault db) as [f db'].
  cbn [snd] in Hs, Hc.
  destruct (spent_tokens db !! h) as [t|] eqn:E; destruct f; cbn [fst snd is_ok andb set_spent
    spent_tokens consumed_slots]; rewrite ?Hs, ?Hc;
    (split; [|done]); destruct (decide (h = h')) as [->|Hne];
    rewrite ?bool_decide_eq_true_2, ?bool_decide_eq_false_2 by done;
    rewrite ?lookup_insert_eq, ?lookup_insert_ne by done; rewrite ?E; try lia;
    destruct (spent_tokens db !! h'); lia.
Qed.

Lemma insert_consumed_effect now tag db tag' :
  let r := InsertConsumed now tag db in
  in_slot tag' db + (if is_ok (fst r) && bool_decide (tag = tag') then 1 else 0)
    <= in_slot tag' (snd r) /\
  spent_tokens (snd r) = spent_tokens db.
Proof.
  cbv zeta. unfold InsertConsumed, exec, in_slot.
  pose proof (next_fault_tables db) as [Hs Hc]. destruct (next_fault db) as [f db'].
  cbn [snd] in Hs, Hc.
  destruct (consumed_slots db !! tag) as [t|] eqn:E; destruct f; cbn [fst snd is_ok andb
    set_consumed spent_tokens consumed_slots]; rewrite ?Hs, ?Hc;
    (split; [|done]); destruct (decide (tag = tag')) as [->|Hne];
    rewrite ?bool_decide_eq_true_2, ?bool_decide_eq_false_2 by done;
    rewrite ?lookup_insert_eq, ?lookup_insert_ne by done; rewrite ?E; try lia;
    destruct (consumed_slots db !! tag'); lia.
Qed.

Lemma seed_effect tag at_ db tag' :
  in_slot tag' db <= in_slot tag' (snd (SeedConsumed tag at_ db)) /\
  spent_tokens (snd (SeedConsumed tag at_ db)) = spent_tokens db.
Proof.
  unfold SeedConsumed, exec, in_slot.
  pose proof (next_fault_tables db) as [Hs Hc]. destruct (next_fault db) as [f db'].
  cbn [snd] in Hs, Hc.
  destruct (consumed_slots db !! tag) as [t|] eqn:E; destruct f; cbn [fst snd
    set_consumed spent_tokens consumed_slots]; rewrite ?Hs, ?Hc;
    (split; [|done]); destruct (decide (tag = tag')) as [->|Hne];
    rewrite ?lookup_insert_eq, ?lookup_insert_ne by done; rewrite ?E; try lia;
    destruct (consumed_slots db !! tag'); lia.
Qed.
(** The two statements, by their reported outcome. *)
Lemma spend_step_ok h db :
  match fst (spend_step h db) with
  | None => is_ok (fst (InsertSpentToken h TierFakeIDMint db)) = true
  | Some (code, _) => code <> 200
  end /\ snd (spend_step h db) = snd (InsertSpentToken h TierFakeIDMint db).
Proof.
  unfold spend_step. destruct (InsertSpentToken h TierFakeIDMint db) as [[u|[]] db']; done.
Qed.

Lemma consume_step_ok now tag db :
  (fst (fst (consume_step now tag db)) = 200 ->
   is_ok (fst (InsertConsumed now tag db)) = true) /\
  snd (consume_step now tag db) = snd (InsertConsumed now tag db).
Proof.
  unfold consume_step. destruct (InsertConsumed now tag db) as [[u|[]] db']; done.
Qed.

Definition for_tag (tag : bytes) (pc : verify_pc) : bool :=
  registered pc && bool_decide (snd (cred_of pc) = tag).

Definition for_token (h : bytes) (pc : verify_pc) : bool :=
  holds_token pc && bool_decide (fst (cred_of pc) = h).

(** The accounting invariant: successes so far are paid for by table rows. *)
Definition accounted (tag h : bytes) (s : list verify_pc * DB) : Prop :=
  count_calls (for_tag tag) (fst s) <= in_slot tag (snd s) /\
  count_calls (for_token h) (fst s) <= is_spent h (snd s).

Lemma registered_done c r : registered (VDone c r) = true <-> fst r = 200.
Proof. apply Z.eqb_eq. Qed.

Lemma holds_done c r : holds_token (VDone c r) = registered (VDone c r).
Proof. done. Qed.

Lemma accounted_step tag h s s' :
  verify_step s s' ->
  count_calls (for_tag tag) (fst s') - count_calls (for_tag tag) (fst s)
    <= in_slot tag (snd s') - in_slot tag (snd s) /\
  count_calls (for_token h) (fst s') - count_calls (for_token h) (fst s)
    <= is_spent h (snd s') - is_spent h (snd s).
Proof.
  intros Hstep. destruct Hstep as [i pcs c db Hi|i pcs c now db Hi|t tier pcs db|t at_ pcs db|c pcs db];
    cbn [fst snd].
  - destruct (spend_step_ok (fst c) db) as [Hok ->].
    destruct (insert_spent_effect (fst c) TierFakeIDMint db h) as [He Hc].
    rewrite !(count_calls_insert _ _ _ _ _ Hi). unfold in_slot in *. rewrite Hc.
    assert (for_tag tag (VStart c) = false) as -> by done.
    assert (for_token h (VStart c) = false) as -> by done.
    destruct (fst (spend_step (fst c) db)) as [r|].
    + assert (registered (VDone c r) = false) as Hr.
      { destruct r as [code b]. apply not_true_iff_false. rewrite registered_done. exact Hok. }
      unfold for_tag, for_token. rewrite holds_done, Hr. cbn [andb].
      destruct (is_ok _ && _)%bool; lia.
    + unfold for_tag, for_token. cbn [registered holds_token cred_of andb].
      rewrite Hok in He. cbn [andb] in He. lia.
  - destruct (consume_step_ok now (snd c) db) as [Hok ->].
    destruct (insert_consumed_effect now (snd c) db tag) as [He Hs].
    rewrite !(count_calls_insert _ _ _ _ _ Hi). unfold is_spent. rewrite Hs.
    assert (for_tag tag (VSpent c) = false) as -> by done.
    unfold for_tag, for_token. rewrite holds_done. cbn [cred_of holds_token andb].
    destruct (registered (VDone c _)) eqn:Er; cbn [andb].
    + apply registered_done in Er. rewrite (Hok Er) in He. cbn [andb] in He.
      destruct (bool_decide (fst c = h)); lia.
    + destruct (is_ok _ && _)%bool, (bool_decide (fst c = h)); lia.
  - destruct (insert_spent_effect t tier db h) as [He Hc]. unfold in_slot. rewrite Hc.
    destruct (is_ok _ && _)%bool; lia.
  - destruct (seed_effect t at_ db tag) as [He Hs]. unfold is_spent. rewrite Hs. lia.
  - rewrite !count_calls_app. cbn. lia.
Qed.
End handlers.

(** * Properties *)

(** C10. One Fake ID per primary and one use per token, under any interleaving of
    verify-credential calls with each other and with redemptions and seeding,
    and any database faults: among the calls started from a state where none is
    in flight, at most one with a given primary tag is answered 200 (none if
    the tag was already consumed), and at most one with a given token. *)
Theorem one_registration_per_primary db pcs' db' tag h
    (HR : rtc verify_step ([], db) (pcs', db')) :
  count_calls (for_tag tag) pcs' <= 1 - in_slot tag db /\
  count_calls (fun pc => registered pc && bool_decide (fst (cred_of pc) = h)) pcs'
    <= 1 - is_spent h db.
Proof.
  assert (forall s s', rtc verify_step s s' ->
    count_calls (for_tag tag) (fst s') - count_calls (for_tag tag) (fst s)
      <= in_slot tag (snd s') - in_slot tag (snd s) /\
    count_calls (for_token h) (fst s') - count_calls (for_token h) (fst s)
      <= is_spent h (snd s') - is_spent h (snd s)) as Hall.
  { induction 1 as [s|s1 s2 s3 H12 _ IH]; [lia|].
    destruct (accounted_step tag h _ _ H12). lia. }
  destruct (Hall _ _ HR) as [H1 H2]. cbn [fst snd] in H1, H2.
  change (count_calls (for_tag tag) []) with 0 in H1.
  change (count_calls (for_token h) []) with 0 in H2.
  assert (Hmono : count_calls (fun pc => registered pc && bool_decide (fst (cred_of pc) = h)) pcs'
            <= count_calls (for_token h) pcs').
  { apply count_calls_mono. unfold for_token.
    intros [c|c|c r]; cbn [registered holds_token]; done. }
  unfold in_slot, is_spent in *.
  split.
  - destruct (consumed_slots db' !! tag); lia.
  - destruct (spent_tokens db' !! h); lia.
Qed.

Definition empty_db (fs : list fault) : DB :=
  {| spent_tokens := ∅; consumed_slots := ∅; mint_flags := ∅; faults := fs |}.

Lemma one_registration_per_primary_witness :
  let c1 := ([x01], [xaa]) in let c2 := ([x02], [xaa]) in
  exists pcs db', rtc verify_step ([], empty_db []) (pcs, db') /\
    length pcs = 2%nat /\ count_calls (for_tag [xaa]) pcs <= 1 - in_slot [xaa] (empty_db []) /\
    count_calls (fun pc => registered pc && bool_decide (fst (cred_of pc) = [x01])) pcs
      <= 1 - is_spent [x01] (empty_db []).
Proof.
  intros c1 c2. eexists _, _. split; [|split].
  - eapply rtc_l; [apply (vstep_arrive c1)|]. eapply rtc_l; [apply (vstep_arrive c2)|].
    eapply rtc_l; [apply (vstep_spend 0 _ c1); reflexivity|].
    eapply rtc_l; [apply (vstep_spend 1 _ c2); reflexivity|].
    eapply rtc_l; [apply (vstep_consume 1 _ c2 7); reflexivity|].
    apply rtc_refl.
  - reflexivity.
  - eapply (one_registration_per_primary (empty_db [])) .
    eapply rtc_l; [apply (vstep_arrive c1)|]. eapply rtc_l; [apply (vstep_arrive c2)|].
    eapply rtc_l; [apply (vstep_spend 0 _ c1); reflexivity|].
    eapply rtc_l; [apply (vstep_spend 1 _ c2); reflexivity|].
    eapply rtc_l; [apply (vstep_consume 1 _ c2 7); reflexivity|].
    apply rtc_refl.
Defined.

(** ** Sequential behaviour *)

Section sequential.
Context (sha256 : bytes -> bytes) (ed_verify : bytes -> bytes -> bytes -> bool).

(** A credential that the checks before the first statement let through. *)
Definition valid_credential (deps : fakeidSlotDeps) (req : verifyCredRequest)
    (token tag : bytes) : Prop :=
  exists sig att k,
    hex_DecodeString (Token req) = Some token /\ token <> [] /\
    hex_DecodeString (Signature req) = Some sig /\ sig <> [] /\
    hex_DecodeString (PrimaryTag req) = Some tag /\ length tag = 32%nat /\
    hex_DecodeString (TagAttestation req) = Some att /\ length att = 64%nat /\
    GetPublicKey (svc deps) TierFakeIDMint = Some k /\
    VerifySignature sha256 token (SetBytes sig) k = true /\
    ed_verify (Public (attKey deps)) tag att = true.

Lemma hex_field_ok s b : hex_field s = Some b <-> hex_DecodeString s = Some b /\ b <> [].
Proof.
  unfold hex_field. destruct (hex_DecodeString s) as [x|]; cbn; [|naive_solver].
  case_bool_decide; naive_solver.
Qed.

Lemma check_credential_ok deps req h tag :
  check_credential sha256 ed_verify deps req = inr (h, tag) <->
  exists r token, req = Some r /\ valid_credential deps r token tag /\ h = sha256 token.
Proof.
  unfold check_credential. split.
  - destruct req as [r|]; [|done].
    destruct (hex_field (Token r)) as [token|] eqn:Et; [|done].
    destruct (hex_field (Signature r)) as [sig|] eqn:Es; [|done].
    destruct (hex_DecodeString (PrimaryTag r)) as [t|] eqn:Ep; [|done].
    destruct (Nat.eqb_spec (length t) 32) as [Hl|]; [|done]. cbn [negb].
    destruct (hex_field (TagAttestation r)) as [att|] eqn:Ea; [|done].
    destruct (GetPublicKey _ _) as [k|] eqn:Ek; [|done].
    destruct (VerifySignature _ _ _ _) eqn:Ev; [|done].
    unfold VerifyTagAttestation.
    destruct (Nat.eqb_spec (length att) 64) as [Hal|]; [|done].
    destruct (ed_verify _ _ _) eqn:Ee; [|done]. intros [= <- <-].
    apply hex_field_ok in Et as [Et ?], Es as [Es ?], Ea as [Ea ?].
    exists r, token. split; [done|]. split; [|done]. exists sig, att, k. done.
  - intros (r & token & -> & (sig & att & k & Ht & Htn & Hs & Hsn & Hp & Hpl & Ha & Hal & Hk & Hv & He) & ->).
    rewrite (proj2 (hex_field_ok _ _) (conj Ht Htn)), (proj2 (hex_field_ok _ _) (conj Hs Hsn)), Hp, Hpl.
    cbn [Nat.eqb negb].
    assert (att <> []) as Han by (by intros ->).
    rewrite (proj2 (hex_field_ok _ _) (conj Ha Han)), Hk, Hv. unfold VerifyTagAttestation.
    rewrite Hal, He. done.
Qed.
End sequential.

(** Without database faults, verify-credential answers 200 exactly for a
    valid credential (blind signature under the mint key, attested 32-byte tag)
    whose token was never spent and whose primary has no Fake ID yet, and it
    then records both. *)
Theorem verify_credential_accepts_iff sha256 ed_verify deps now req db
    (HF : faults db = []) :
  let out := handleFakeIDVerifyCredential sha256 ed_verify deps now req db in
  fst (fst out) = 200 <->
  exists r token tag,
    req = Some r /\ valid_credential sha256 ed_verify deps r token tag /\
    spent_tokens db !! sha256 token = None /\ consumed_slots db !! tag = None /\
    spent_tokens (snd out) = <[sha256 token := TierFakeIDMint]> (spent_tokens db) /\
    consumed_slots (snd out) = <[tag := now]> (consumed_slots db).
Proof.
  cbv zeta. unfold handleFakeIDVerifyCredential.
  destruct (check_credential sha256 ed_verify deps req) as [resp|[h tag]] eqn:Ec.
  - split.
    + intros Hr. exfalso. revert Ec Hr. unfold check_credential. cbn [fst].
      repeat break_match; intros [= <-]; done.
    + intros (r & token & tag & Hreq & Hv & _). exfalso.
      assert (check_credential sha256 ed_verify deps req = inr (sha256 token, tag)) as Hc
        by (apply check_credential_ok; eauto).
      congruence.
  - apply check_credential_ok in Ec as (r & token & -> & Hv & ->).
    assert (Huniq : forall token' tag', valid_credential sha256 ed_verify deps r token' tag' ->
              token' = token /\ tag' = tag).
    { intros token' tag' (? & ? & ? & Ht' & _ & _ & _ & Hp' & _).
      destruct Hv as (? & ? & ? & Ht & _ & _ & _ & Hp & _). split; congruence. }
    unfold spend_step, InsertSpentToken, exec, next_fault.
    destruct (spent_tokens db !! sha256 token) as [t|] eqn:Es; rewrite HF; cbn [fst snd].
    + split; [done|]. intros (r' & token' & tag' & [= <-] & Hv' & Hn & _).
      destruct (Huniq _ _ Hv') as [-> ->]. congruence.
    + unfold consume_step, InsertConsumed, exec, next_fault, set_spent.
      cbn [consumed_slots faults].
      destruct (consumed_slots db !! tag) as [t|] eqn:Et; rewrite HF; cbn [fst snd].
      * split; [done|]. intros (r' & token' & tag' & [= <-] & Hv' & _ & Hn & _).
        destruct (Huniq _ _ Hv') as [-> ->]. congruence.
      * split; [intros _|done]. exists r, token, tag. done.
Qed.

(** A credential is burned even when its registration fails: whenever the
    second statement refuses (the primary already has a Fake ID) or meets a
    fault, the answer is an error and the token stays spent, so a retry with it
    can only be refused. *)
Theorem failed_registration_burns_token sha256 ed_verify deps now req db token tag
    (HV : exists r, req = Some r /\ valid_credential sha256 ed_verify deps r token tag)
    (HN : spent_tokens db !! sha256 token = None)
    (HF : (faults db = [] /\ is_Some (consumed_slots db !! tag)) \/
          faults db = [NoFault; FailBefore]) :
  let out := handleFakeIDVerifyCredential sha256 ed_verify deps now req db in
  fst (fst out) <> 200 /\
  spent_tokens (snd out) !! sha256 token = Some TierFakeIDMint /\
  fst (fst (handleFakeIDVerifyCredential sha256 ed_verify deps now req (snd out))) = 409.
Proof.
  destruct HV as (r & -> & Hv).
  assert (check_credential sha256 ed_verify deps (Some r) = inr (sha256 token, tag)) as Hc
    by (apply check_credential_ok; eauto).
  cbv zeta.
  assert (Hre : forall db2 : DB, faults db2 = [] ->
    spent_tokens db2 !! sha256 token = Some TierFakeIDMint ->
    fst (fst (handleFakeIDVerifyCredential sha256 ed_verify deps now (Some r) db2)) = 409).
  { intros db2 Hf2 Hs2. unfold handleFakeIDVerifyCredential. rewrite Hc.
    unfold spend_step, InsertSpentToken, exec, next_fault. by rewrite Hs2, Hf2. }
  unfold handleFakeIDVerifyCredential at 1 2 4. rewrite Hc.
  unfold spend_step, InsertSpentToken, exec, next_fault. rewrite HN.
  destruct HF as [[Hf [t Ht]]|Hf]; rewrite Hf; cbn [fst snd];
    unfold consume_step, InsertConsumed, exec, next_fault, set_spent;
    cbn [consumed_slots faults spent_tokens].
  - rewrite Ht, Hf. cbn [fst snd spent_tokens]. rewrite lookup_insert_eq.
    split; [done|]. split; [done|]. apply Hre; cbn; [done|apply lookup_insert_eq].
  - destruct (consumed_slots db !! tag); cbn [fst snd spent_tokens];
      rewrite lookup_insert_eq; (split; [done|]); (split; [done|]);
      apply Hre; cbn; [done|apply lookup_insert_eq|done|apply lookup_insert_eq].
Qed.

(** Batching answers every queued job exactly once, in the order of the
    queue: after [n] ticks the first [n * maxBatch] jobs have been answered and
    the others are still waiting. *)
Theorem batches_answer_in_order draws n b :
  run_ticks draws n b =
    ((fun j => (job_id j, answer b draws j)) <$> firstn (n * maxBatch b) (queue b),
     {| keys := keys b; maxBatch := maxBatch b; queueSize := queueSize b;
        queue := skipn (n * maxBatch b) (queue b) |}).
Proof.
  assert (Hloop : forall room q batch,
    drain_loop room q batch = (batch ++ firstn room q, skipn room q)).
  { induction room as [|room IH]; intros q batch; cbn; [by rewrite app_nil_r|].
    destruct q as [|j q]; [by rewrite app_nil_r|]. rewrite IH. by rewrite <-app_assoc. }
  revert b. induction n as [|n IH]; intros b; cbn [run_ticks].
  - rewrite Nat.mul_0_l. cbn. by destruct b.
  - unfold processBatch, drain. rewrite Hloop. cbn [app].
    rewrite IH. cbn [maxBatch queue keys].
    rewrite <-fmap_app, skipn_skipn. f_equal.
    + f_equal. cbn [Nat.mul]. apply take_take_drop.
    + f_equal. f_equal. lia.
Qed.

(** ** Witnesses *)

Definition demo_deps : fakeidSlotDeps :=
  {| svc := NewPaymentService {["fakeid_mint"%string := toy_key]} ∅; tagKey := [];
     attKey := {| Private := []; Public := [] |} |}.

Definition any_sig (p m s : bytes) : bool := true.

Definition demo_tag : bytes := replicate 32 x07.

Definition demo_cred : verifyCredRequest :=
  {| Token := "01"; Signature := "0224"; PrimaryTag := hex_EncodeToString demo_tag;
     TagAttestation := hex_EncodeToString (replicate 64 x09) |}.

Lemma demo_cred_valid : valid_credential toy_sha any_sig demo_deps demo_cred [x01] demo_tag.
Proof.
  exists [x02; x24], (replicate 64 x09), (pub toy_key).
  repeat match goal with |- _ /\ _ => split end; try done; vm_compute; reflexivity.
Qed.

Lemma verify_credential_accepts_iff_witness :
  let out := handleFakeIDVerifyCredential toy_sha any_sig demo_deps 5 (Some demo_cred)
               (empty_db []) in
  fst (fst out) = 200 /\ spent_tokens (snd out) = {[ toy_sha [x01] := TierFakeIDMint ]}.
Proof.
  intros out.
  assert (fst (fst out) = 200) as H200 by (vm_compute; reflexivity).
  split; [exact H200|].
  destruct (proj1 (verify_credential_accepts_iff toy_sha any_sig demo_deps 5 (Some demo_cred)
                     (empty_db []) eq_refl) H200)
    as (r & token & tag & _ & (sig & att & k & Ht & _) & _ & _ & Hs & _).
  unfold out. rewrite Hs. reflexivity.
Defined.

Lemma failed_registration_burns_token_witness :
  let out := handleFakeIDVerifyCredential toy_sha any_sig demo_deps 5 (Some demo_cred)
               (empty_db [NoFault; FailBefore]) in
  fst (fst out) <> 200 /\
  spent_tokens (snd out) !! toy_sha [x01] = Some TierFakeIDMint /\
  fst (fst (handleFakeIDVerifyCredential toy_sha any_sig demo_deps 5 (Some demo_cred)
              (snd out))) = 409.
Proof.
  apply (failed_registration_burns_token toy_sha any_sig demo_deps 5 (Some demo_cred)
           (empty_db [NoFault; FailBefore]) [x01] demo_tag).
  - exists demo_cred. split; [reflexivity|exact demo_cred_valid].
  - reflexivity.
  - right. reflexivity.
Defined.
