(* ===== verification/Sql.v ===== *)
(** What the stores of internal/storage use of PostgreSQL: tables by primary
    key, UPDATE and DELETE with a condition on the row, comparisons with NULL,
    and transactions, in which one failed statement makes every later one fail
    and the commit a rollback. *)

From stdpp Require Import sorting.
From S2P Require Import Prelude.

#[local] Open Scope Z_scope.

(** The errors stores return. *)
Inductive serr :=
| SqlFailed
| SqlNoRows
| SqlUndefinedTable
| SqlAborted
| SqlUnique
| SqlRefused.

#[export] Instance serr_eq_dec : EqDecision serr.
Proof. solve_decision. Defined.

(** A comparison with NULL is not true. *)
Definition sql_lt (a b : option Z) : bool :=
  match a, b with Some x, Some y => x <? y | _, _ => false end.

Definition coalesce {A : Type} (a b : option A) : option A :=
  match a with Some _ => a | None => b end.

Lemma sql_lt_spec a b : sql_lt a b = true <-> exists x y, a = Some x /\ b = Some y /\ x < y.
Proof.
  destruct a as [x|], b as [y|]; cbn; try (split; [done|by intros (? & ? & ? & ? & ?)]).
  rewrite Z.ltb_lt. split; [eauto 6|]. by intros (? & ? & [= <-] & [= <-] & ?).
Qed.

(** A bigint does not wrap, and a sum is scanned into 64 bits or not at all. *)
Definition fits (x : Z) : bool := bool_decide (int64 x = x).

Definition scan_int (x : Z) : result serr Z := if fits x then Ok x else Err SqlFailed.

Lemma fits_small x : - 2 ^ 63 <= x < 2 ^ 63 -> fits x = true.
Proof. intros H. apply bool_decide_eq_true. by apply int64_small. Qed.

(** * Statements on a table *)

Section table.
Context `{Countable K} {R : Type}.
Implicit Types (P : K -> R -> bool) (m : gmap K R).

(** The rows a condition selects. *)
Definition select_where P m : gmap K R := filter (fun kr => P kr.1 kr.2 = true) m.

(** [UPDATE ... SET f WHERE P]. *)
Definition update_where P (f : R -> R) m : gmap K R :=
  map_imap (fun k r => Some (if P k r then f r else r)) m.

(** [DELETE ... WHERE P]. *)
Definition delete_where P m : gmap K R := filter (fun kr => P kr.1 kr.2 = false) m.

(** [RowsAffected]. *)
Definition affected P m : nat := size (select_where P m).

Lemma lookup_update_where P f m k :
  update_where P f m !! k = (fun r => if P k r then f r else r) <$> m !! k.
Proof. unfold update_where. rewrite map_lookup_imap. by destruct (m !! k). Qed.

Lemma lookup_delete_where P m k r :
  delete_where P m !! k = Some r <-> m !! k = Some r /\ P k r = false.
Proof. apply map_lookup_filter_Some. Qed.

Lemma lookup_delete_where_None P m k :
  delete_where P m !! k = None <-> forall r, m !! k = Some r -> P k r = true.
Proof.
  unfold delete_where. rewrite map_lookup_filter_None. split.
  - intros [E|E] r Hr; [congruence|]. destruct (P k r) eqn:Ep; [done|]. by apply E in Hr.
  - intros E. destruct (m !! k) as [r|] eqn:Ek; [right|by left]. intros r' [= <-] Hp. cbn in Hp.
    rewrite (E _ eq_refl) in Hp. discriminate.
Qed.

Lemma lookup_select_where P m k r :
  select_where P m !! k = Some r <-> m !! k = Some r /\ P k r = true.
Proof. apply map_lookup_filter_Some. Qed.

(** The first of the selected rows. *)
Lemma head_selected P m kr :
  head (map_to_list (select_where P m)) = Some kr -> m !! kr.1 = Some kr.2 /\ P kr.1 kr.2 = true.
Proof.
  destruct (map_to_list _) as [|[k r] l] eqn:E; [done|]. intros [= <-].
  apply lookup_select_where, elem_of_map_to_list. rewrite E. by left.
Qed.

Lemma affected_zero P m : affected P m = 0%nat <-> forall k r, m !! k = Some r -> P k r = false.
Proof.
  unfold affected. rewrite map_size_empty_iff. split.
  - intros E k r Hk. destruct (P k r) eqn:Ep; [|done].
    assert (select_where P m !! k = Some r) as Hs by by apply lookup_select_where.
    by rewrite E, lookup_empty in Hs.
  - intros E. apply map_empty. intros k. destruct (select_where P m !! k) as [r|] eqn:Hs; [|done].
    apply lookup_select_where in Hs as [Hk Hp]. by rewrite (E _ _ Hk) in Hp.
Qed.

End table.

(** * ORDER BY and LIMIT *)

(** LIMIT and OFFSET; a negative one is an error. *)
Definition page {A : Type} (limit offset : Z) (l : list A) : result serr (list A) :=
  if (limit <? 0) || (offset <? 0) then Err SqlFailed
  else Ok (take (Z.to_nat limit) (drop (Z.to_nat offset) l)).

Section order.
Context {A : Type} (R : relation A) `{!forall x y, Decision (R x y), !Total R, !Transitive R}.
Implicit Types (l : list A).

Lemma head_merge_sort l :
  match head (merge_sort R l) with
  | Some x => x ∈ l /\ forall y, y ∈ l -> y = x \/ R x y
  | None => l = []
  end.
Proof.
  pose proof (StronglySorted_merge_sort R l) as Hs. pose proof (merge_sort_Permutation R l) as Hp.
  destruct (merge_sort R l) as [|x l'] eqn:E; cbn.
  - by apply Permutation_nil_l in Hp.
  - inversion Hs as [|? ? _ Hall]; subst. split; [rewrite <- Hp; by left|].
    intros y Hy. rewrite <- Hp in Hy. apply elem_of_cons in Hy as [->|Hy]; [by left|right].
    by eapply Forall_forall in Hall.
Qed.

Lemma taken_first n l x y :
  x ∈ take n (merge_sort R l) -> y ∈ l -> y ∈ take n (merge_sort R l) \/ R x y.
Proof.
  intros Hx Hy. rewrite <- (merge_sort_Permutation R l), <- (take_drop n (merge_sort R l)), elem_of_app in Hy.
  destruct Hy as [Hy|Hy]; [by left|right].
  pose proof (StronglySorted_merge_sort R l) as Hs. rewrite <- (take_drop n (merge_sort R l)) in Hs.
  by eapply StronglySorted_app_1_elem_of.
Qed.

Lemma taken_all n l y : (length l <= n)%nat -> y ∈ l -> y ∈ take n (merge_sort R l).
Proof.
  intros Hn Hy. rewrite take_ge by by rewrite (merge_sort_Permutation R l). by rewrite (merge_sort_Permutation R l).
Qed.

Lemma taken_from n l y : y ∈ take n (merge_sort R l) -> y ∈ l.
Proof.
  intros Hy. rewrite <- (merge_sort_Permutation R l), <- (take_drop n (merge_sort R l)), elem_of_app. by left.
Qed.

End order.

(** * Transactions *)

(** The state inside a transaction; [broken]: a statement has failed. *)
Record tx (S : Type) := mkTx { inside : S; broken : bool }.
Arguments mkTx {S}.
Arguments inside {S}.
Arguments broken {S}.

Section tx.
Context {S : Type}.

Definition tx_begin (s : S) : tx S := mkTx s false.

Definition tx_exec {A : Type} (stmt : S -> result serr (A * S)) (t : tx S) : result serr A * tx S :=
  if broken t then (Err SqlAborted, t)
  else match stmt (inside t) with
       | Ok (a, s) => (Ok a, mkTx s false)
       | Err e => (Err e, mkTx (inside t) true)
       end.

(** [tx.Commit], over the state before the transaction. *)
Definition tx_commit (ok : bool) (before : S) (t : tx S) : result serr unit * S :=
  if broken t then (Err SqlAborted, before)
  else if ok then (Ok tt, inside t) else (Err SqlFailed, before).

Lemma tx_exec_broken {A : Type} (stmt : S -> result serr (A * S)) t :
  broken t = true -> tx_exec stmt t = (Err SqlAborted, t).
Proof. unfold tx_exec. by intros ->. Qed.

End tx.
