(* ===== verification/Account.v ===== *)
(** internal/storage/auth_store.go: the columns of users that drive an account
    from registration to its wiping, and every statement that moves them:
    payment failures, dormancy, pruning, freezing, deletion and the Fake ID
    slot.  Shown: statuses stay in the declared set and no row loses its
    address; what keeps an account from ever being wiped, and two ways round
    it; what a wipe does, and that it does nothing at all where a table is
    missing; how far a Fake ID can outlive its primary's slot. *)

From S2P Require Import Prelude Sql.

#[local] Open Scope Z_scope.

Abbreviation UUID := (list byte) (only parsing).

(** Times are microseconds. *)
Definition second : Z := 10 ^ 6.
Definition hour : Z := 3600 * second.
Definition day : Z := 24 * hour.

Definition StatusActive : string := "active".
Definition StatusPaymentFailed : string := "payment_failed".
Definition StatusLapsedToFree : string := "lapsed_to_free".
Definition StatusPruneWarned : string := "prune_warned".
Definition StatusPruning : string := "pruning".
Definition StatusTombstone : string := "tombstone".
Definition StatusDeletedTombstone : string := "deleted_tombstone".
Definition StatusPendingPayment : string := "pending_payment".
Definition StatusSuspended : string := "suspended".
Definition StatusPurgePending : string := "purge_pending".
Definition StatusDeletionPending : string := "deletion_pending".

Definition declared_statuses : list string :=
  [StatusActive; StatusPaymentFailed; StatusLapsedToFree; StatusPruneWarned; StatusPruning;
   StatusTombstone; StatusDeletedTombstone; StatusPendingPayment; StatusSuspended;
   StatusPurgePending; StatusDeletionPending].

(** * Rows *)

(** The columns of [User], by what they are for. *)
Record Life := mkLife {
  AccountStatus : string;
  Tier : string;
  CreatedAt : Z;
  LastActivityAt : option Z;
  PaymentFailedAt : option Z;
  DeletionRequestedAt : option Z
}.

Record FakeCols := mkFake {
  HasFakeID : bool;
  FakeIDMintedAt : option Z;
  FakeIDAllowedReleaseAt : option Z;
  FakeIDMigrated : bool;
  DormancyWindowDays : option Z;
  ValidUntil : option Z;
  MaxValidUntil : option Z
}.

Record Keys := mkKeys {
  PublicKeyEncryption : bytes;
  PublicKeySigning : bytes;
  EncryptedPrivateKey : bytes;
  EncryptedRecoveryKey : bytes;
  PublicKeyKEM : bytes;
  EncryptedPrivateKeyKEM : bytes;
  PGPPublicKey : option bytes;
  TOTPSecretEncrypted : option bytes;
  TOTPEnabled : bool;
  TOTPBackupCodes : option bytes
}.

Record Auth := mkAuth {
  OpaqueRegistration : bytes;
  OpaqueRecoveryRegistration : bytes;
  RecoveryBlob : bytes;
  KeyEpoch : Z;
  RecoveryVersion : Z
}.

Record Billing := mkBilling {
  StripeCustomerID : option bytes;
  StripeSubscriptionID : option bytes;
  StorageUsedBytes : Z;
  StorageBlocks : Z
}.

Record Bounces := mkBounces { RecentBounces : Z; RecentBouncesResetAt : option Z }.

Record User := mkUser {
  UserTenant : UUID;
  Address : bytes;
  AccountType : string;
  life : Life;
  bounces : Bounces;
  fake : FakeCols;
  keys : Keys;
  auth : Auth;
  billing : Billing
}.

Abbreviation Users := (gmap UUID User) (only parsing).

Definition on_life (f : Life -> Life) (u : User) : User :=
  mkUser (UserTenant u) (Address u) (AccountType u) (f (life u)) (bounces u) (fake u) (keys u)
    (auth u) (billing u).
Definition on_fake (f : FakeCols -> FakeCols) (u : User) : User :=
  mkUser (UserTenant u) (Address u) (AccountType u) (life u) (bounces u) (f (fake u)) (keys u)
    (auth u) (billing u).
Definition on_bounces (f : Bounces -> Bounces) (u : User) : User :=
  mkUser (UserTenant u) (Address u) (AccountType u) (life u) (f (bounces u)) (fake u) (keys u)
    (auth u) (billing u).

Definition set_status (s : string) (l : Life) : Life :=
  mkLife s (Tier l) (CreatedAt l) (LastActivityAt l) (PaymentFailedAt l) (DeletionRequestedAt l).
Definition set_tier (t : string) (l : Life) : Life :=
  mkLife (AccountStatus l) t (CreatedAt l) (LastActivityAt l) (PaymentFailedAt l)
    (DeletionRequestedAt l).
Definition set_activity (t : Z) (l : Life) : Life :=
  mkLife (AccountStatus l) (Tier l) (CreatedAt l) (Some t) (PaymentFailedAt l)
    (DeletionRequestedAt l).
Definition set_payment_failed (t : option Z) (l : Life) : Life :=
  mkLife (AccountStatus l) (Tier l) (CreatedAt l) (LastActivityAt l) t (DeletionRequestedAt l).
Definition set_deletion (t : option Z) (l : Life) : Life :=
  mkLife (AccountStatus l) (Tier l) (CreatedAt l) (LastActivityAt l) (PaymentFailedAt l) t.

Definition has_status (s : string) (u : User) : bool := String.eqb (AccountStatus (life u)) s.

(** [COALESCE(last_activity_at, created_at)]. *)
Definition activity (l : Life) : Z := default (CreatedAt l) (LastActivityAt l).

(** * Statements

One UPDATE: which rows, what it sets.  [up] says whether the database
executes it. *)

Record update := mkUpdate { upd_where : UUID -> User -> bool; upd_set : User -> User }.

Definition exec (up : bool) (s : update) (db : Users) : result serr nat * Users :=
  if up then (Ok (affected (upd_where s) db), update_where (upd_where s) (upd_set s) db)
  else (Err SqlFailed, db).

(** [UPDATE ... RETURNING user_id, tenant_id, address]; the rows come in the
    order of the map. *)
Definition LifecycleTransitioned : Type := UUID * UUID * bytes.

Definition returning (up : bool) (s : update) (db : Users) :
    result serr (list LifecycleTransitioned) * Users :=
  if up then
    (Ok ((fun kr => (kr.1, UserTenant kr.2, Address kr.2)) <$>
           map_to_list (select_where (upd_where s) db)),
     update_where (upd_where s) (upd_set s) db)
  else (Err SqlFailed, db).

(** Statements whose count is ignored, or must not be zero. *)
Definition ignoring (r : result serr nat * Users) : result serr unit * Users :=
  match r with (Ok _, db) => (Ok tt, db) | (Err e, db) => (Err e, db) end.
Definition requiring (e : serr) (r : result serr nat * Users) : result serr unit * Users :=
  match r with
  | (Ok 0%nat, db) => (Err e, db)
  | (Ok _, db) => (Ok tt, db)
  | (Err e, db) => (Err e, db)
  end.

Definition by_id (u : UUID) (k : UUID) (_ : User) : bool := bool_decide (k = u).

Definition validAccountStatuses (s : string) : bool :=
  existsb (String.eqb s)
    ["active"; "pending_payment"; "payment_failed"; "suspended"; "purge_pending";
     "deletion_pending"]%string.

Definition status_update (u : UUID) (s : string) : update :=
  mkUpdate (by_id u) (on_life (set_status s)).

Definition UpdateAccountStatus (up : bool) (u : UUID) (status : string) (db : Users) :
    result serr unit * Users :=
  if negb (validAccountStatuses status) then (Err SqlRefused, db)
  else ignoring (exec up (status_update u status) db).

Definition payment_failed_update (now : Z) (u : UUID) : update :=
  mkUpdate (fun k r => by_id u k r && has_status "active" r)
    (on_life (fun l => set_payment_failed (Some now) (set_status "payment_failed" l))).

Definition SetPaymentFailedAt (up : bool) (now : Z) (u : UUID) (db : Users) :
    result serr unit * Users :=
  ignoring (exec up (payment_failed_update now u) db).

Definition suspend_update (now : Z) : update :=
  mkUpdate (fun _ r => has_status "payment_failed" r &&
              sql_lt (PaymentFailedAt (life r)) (Some (now - 30 * day)))
    (on_life (set_status "suspended")).
Definition purge_update (now : Z) : update :=
  mkUpdate (fun _ r => has_status "suspended" r &&
              sql_lt (PaymentFailedAt (life r)) (Some (now - 60 * day)))
    (on_life (set_status "purge_pending")).

(** Two statements, not in a transaction: [(suspended, purgePending, err)]. *)
Definition TransitionPaymentFailedAccounts (up1 up2 : bool) (now : Z) (db : Users) :
    (nat * nat * option serr) * Users :=
  match exec up1 (suspend_update now) db with
  | (Err e, db) => ((0%nat, 0%nat, Some e), db)
  | (Ok suspended, db) =>
      match exec up2 (purge_update now) db with
      | (Err e, db) => ((suspended, 0%nat, Some e), db)
      | (Ok purgePending, db) => ((suspended, purgePending, None), db)
      end
  end.

Definition bump_update (now : Z) (u : UUID) : update :=
  mkUpdate (fun k r => by_id u k r &&
              match LastActivityAt (life r) with None => true | Some a => a <? now - hour end)
    (on_life (set_activity now)).

Definition BumpLastActivity (up : bool) (now : Z) (u : UUID) (db : Users) : result serr unit * Users :=
  ignoring (exec up (bump_update now u) db).

Definition to_free (l : Life) : Life := set_tier "free" (set_status "lapsed_to_free" l).

Definition DowngradeToFree (up : bool) (u : UUID) (db : Users) : result serr unit * Users :=
  ignoring (exec up (mkUpdate (by_id u) (on_life to_free)) db).

Definition lapse_update (cutoff : Z) : update :=
  mkUpdate (fun _ r => has_status "payment_failed" r &&
              sql_lt (PaymentFailedAt (life r)) (Some cutoff)) (on_life to_free).

Definition MarkLapsedToFree (up : bool) (cutoff : Z) (db : Users) :
    result serr (list LifecycleTransitioned) * Users := returning up (lapse_update cutoff) db.

Definition dormant_update (cutoff : Z) : update :=
  mkUpdate (fun _ r => has_status "active" r && String.eqb (Tier (life r)) "free" &&
              (activity (life r) <? cutoff)) (on_life (set_status "tombstone")).

Definition MarkDormantTombstone (up : bool) (cutoff : Z) (db : Users) :
    result serr (list LifecycleTransitioned) * Users := returning up (dormant_update cutoff) db.

Definition prune_warn_update (cutoff : Z) : update :=
  mkUpdate (fun _ r => has_status "lapsed_to_free" r && (activity (life r) <? cutoff))
    (on_life (set_status "prune_warned")).

Definition MarkLapsedPruneWarned (up : bool) (cutoff : Z) (db : Users) :
    result serr (list LifecycleTransitioned) * Users := returning up (prune_warn_update cutoff) db.

Definition prune_update (cutoff : Z) : update :=
  mkUpdate (fun _ r => has_status "prune_warned" r && (activity (life r) <? cutoff))
    (on_life (set_status "pruning")).

Definition MarkLapsedPruning (up : bool) (cutoff : Z) (db : Users) :
    result serr (list LifecycleTransitioned) * Users := returning up (prune_update cutoff) db.

Definition finish_update (u : UUID) : update :=
  mkUpdate (fun k r => by_id u k r && has_status "pruning" r) (on_life (set_status "active")).

Definition FinishPruning (up : bool) (u : UUID) (db : Users) : result serr unit * Users :=
  ignoring (exec up (finish_update u) db).

Definition freeze_update (u : UUID) : update :=
  mkUpdate (fun k r => by_id u k r && has_status "active" r) (on_life (set_status "suspended")).

Definition FreezeForAbuse (up : bool) (u : UUID) (db : Users) : result serr unit * Users :=
  ignoring (exec up (freeze_update u) db).

Definition reactivate_update (now : Z) (u : UUID) : update :=
  mkUpdate (fun k r => by_id u k r &&
              (has_status "tombstone" r || has_status "deleted_tombstone" r))
    (on_life (fun l => set_activity now (set_deletion None (set_status "active" l)))).

Definition ReactivateIfTombstoned (up : bool) (now : Z) (u : UUID) (db : Users) :
    result serr unit * Users := ignoring (exec up (reactivate_update now u) db).

Definition stale_pending_update (now cutoff : Z) : update :=
  mkUpdate (fun _ r => has_status "pending_payment" r && (CreatedAt (life r) <? cutoff))
    (on_life (fun l => set_deletion (Some now) (set_status "purge_pending" l))).

Definition MarkStalePendingPayment (up : bool) (now cutoff : Z) (db : Users) :
    result serr nat * Users := exec up (stale_pending_update now cutoff) db.

Definition request_deletion_update (now : Z) (u : UUID) : update :=
  mkUpdate (by_id u)
    (on_life (fun l => set_deletion (Some now) (set_status "deleted_tombstone" l))).

Definition RequestDeletion (up : bool) (now : Z) (u : UUID) (db : Users) : result serr unit * Users :=
  requiring SqlNoRows (exec up (request_deletion_update now u) db).

Definition cancel_deletion_update (u : UUID) : update :=
  mkUpdate (fun k r => by_id u k r &&
              (has_status "deleted_tombstone" r || has_status "deletion_pending" r))
    (on_life (fun l => set_deletion None (set_status "active" l))).

Definition CancelDeletion (up : bool) (u : UUID) (db : Users) : result serr unit * Users :=
  requiring SqlNoRows (exec up (cancel_deletion_update u) db).

(** ** Bounce counters *)

Definition reset_bounces (now : Z) (_ : Bounces) : Bounces := mkBounces 0 (Some now).

Definition ResetUserBounces (up : bool) (now : Z) (u : UUID) (db : Users) : result serr unit * Users :=
  ignoring (exec up (mkUpdate (by_id u) (on_bounces (reset_bounces now))) db).

Definition stale_bounces_update (now cutoff : Z) : update :=
  mkUpdate (fun _ r => sql_lt (RecentBouncesResetAt (bounces r)) (Some cutoff))
    (on_bounces (reset_bounces now)).

Definition ResetStaleBounceCounters (up : bool) (now cutoff : Z) (db : Users) :
    result serr nat * Users := exec up (stale_bounces_update now cutoff) db.

(** ** Who is due for a wipe *)

Definition due (olderThan : Z) (u : User) : bool :=
  has_status "tombstone" u ||
  ((has_status "deleted_tombstone" u || has_status "deletion_pending" u ||
    has_status "purge_pending" u) &&
   match DeletionRequestedAt (life u) with None => true | Some t => t <? olderThan end).

(** At most 1000 rows, in an order the statement leaves to the database. *)
Definition GetDeletionPendingUsers (up : bool) (order : list (UUID * User) -> list (UUID * User))
    (olderThan : Z) (db : Users) : result serr (list (UUID * User)) :=
  if up then Ok (firstn 1000 (order (map_to_list (select_where (fun _ => due olderThan) db))))
  else Err SqlFailed.

Definition GetUsersByStatus (up : bool) (order : list (UUID * User) -> list (UUID * User))
    (status : string) (limit : Z) (db : Users) : result serr (list (UUID * User)) :=
  let limit := if limit <=? 0 then 100 else limit in
  if up then Ok (firstn (Z.to_nat limit)
                   (order (map_to_list (select_where (fun _ => has_status status) db))))
  else Err SqlFailed.

(** ** The Fake ID slot of a primary, and the validity of a Fake ID *)

Definition FakeIDMaxLifetime : Z := 60 * 24 * hour.

Definition set_slot (has : bool) (minted release : option Z) (f : FakeCols) : FakeCols :=
  mkFake has minted release (FakeIDMigrated f) (DormancyWindowDays f) (ValidUntil f)
    (MaxValidUntil f).

Definition claim_update (now : Z) (u : UUID) : update :=
  mkUpdate (fun k r => by_id u k r && negb (HasFakeID (fake r)))
    (on_fake (set_slot true (Some now) (Some (now + FakeIDMaxLifetime)))).

(** [SqlUnique]: [ErrFakeIDSlotTaken]. *)
Definition ClaimFakeIDSlot (up : bool) (now : Z) (u : UUID) (db : Users) : result serr unit * Users :=
  requiring SqlUnique (exec up (claim_update now u) db).

Definition release_update (now : Z) (u : UUID) : update :=
  mkUpdate (fun k r => by_id u k r && HasFakeID (fake r) &&
              sql_lt (Some (now - 60 * second)) (FakeIDMintedAt (fake r)))
    (on_fake (set_slot false None None)).

Definition ReleaseFakeIDSlotIfOwned (up : bool) (now : Z) (u : UUID) (db : Users) :
    result serr unit * Users := ignoring (exec up (release_update now u) db).

Definition expire_slots_update (now : Z) : update :=
  mkUpdate (fun _ r => HasFakeID (fake r) && sql_lt (FakeIDAllowedReleaseAt (fake r)) (Some now))
    (on_fake (set_slot false None None)).

Definition ExpireFakeIDSlots (up : bool) (now : Z) (db : Users) : result serr nat * Users :=
  exec up (expire_slots_update now) db.

Definition extend_update (now : Z) (u : UUID) (extensionDays : Z) : update :=
  mkUpdate (fun k r => by_id u k r && HasFakeID (fake r))
    (on_fake (fun f => set_slot (HasFakeID f) (FakeIDMintedAt f)
       (Some (Z.max (default now (FakeIDAllowedReleaseAt f)) (now + extensionDays * day))) f)).

Definition ExtendFakeIDAllowedRelease (up : bool) (now : Z) (u : UUID) (extensionDays : Z)
    (db : Users) : result serr unit * Users :=
  ignoring (exec up (extend_update now u extensionDays) db).

Definition migrated_update (u : UUID) : update :=
  mkUpdate (by_id u)
    (on_fake (fun f => mkFake (HasFakeID f) (FakeIDMintedAt f) (FakeIDAllowedReleaseAt f) true
                         (DormancyWindowDays f) (ValidUntil f) (MaxValidUntil f))).

Definition MarkFakeIDMigrated (up : bool) (u : UUID) (db : Users) : result serr unit * Users :=
  ignoring (exec up (migrated_update u) db).

(** [jitterSeconds]; [drawn]: the eight random bytes as a number, if the draw
    succeeds. *)
Definition jitterSeconds (max : Z) (drawn : option Z) : Z :=
  match drawn with None => 0 | Some n => n mod (2 * max + 1) - max end.

Lemma jitterSeconds_bound max drawn : 0 <= max -> - max <= jitterSeconds max drawn <= max.
Proof.
  intros Hm. unfold jitterSeconds. destruct drawn as [n|]; [|lia].
  pose proof (Z.mod_pos_bound n (2 * max + 1) ltac:(lia)). lia.
Qed.

Definition two_days_jitter (drawn : option Z) : Z := jitterSeconds (2 * 24 * 3600) drawn * second.

(** LEAST and GREATEST skip NULL. *)
Definition least (a : Z) (b : option Z) : Z := match b with None => a | Some b => Z.min a b end.
Definition greatest (a : option Z) (b : Z) : Z := match a with None => b | Some a => Z.max a b end.

Definition is_fakeid (k : UUID) (r : User) : bool := String.eqb (AccountType r) "fakeid".

Definition advance_update (now : Z) (u : UUID) (drawn : option Z) : update :=
  mkUpdate (fun k r => by_id u k r && is_fakeid k r)
    (on_fake (fun f => mkFake (HasFakeID f) (FakeIDMintedAt f) (FakeIDAllowedReleaseAt f)
       (FakeIDMigrated f) (DormancyWindowDays f)
       (Some (least (now + default 30 (DormancyWindowDays f) * day + two_days_jitter drawn)
                (MaxValidUntil f)))
       (MaxValidUntil f))).

Definition AdvanceFakeIDValidUntil (up : bool) (now : Z) (u : UUID) (drawn : option Z) (db : Users) :
    result serr Z * Users :=
  match exec up (advance_update now u drawn) db with
  | (Err e, db) => (Err e, db)
  | (Ok _, db') =>
      (match db !! u with
       | Some r => if is_fakeid u r
                   then of_option SqlNoRows (db' !! u ≫= fun r' => ValidUntil (fake r'))
                   else Err SqlNoRows
       | None => Err SqlNoRows
       end, db')
  end.

Definition advance_max_update (now : Z) (u : UUID) (extensionDays : Z) (drawn : option Z) : update :=
  mkUpdate (fun k r => by_id u k r && is_fakeid k r)
    (on_fake (fun f => mkFake (HasFakeID f) (FakeIDMintedAt f) (FakeIDAllowedReleaseAt f)
       (FakeIDMigrated f) (DormancyWindowDays f) (ValidUntil f)
       (Some (greatest (MaxValidUntil f) (now + extensionDays * day + two_days_jitter drawn))))).

Definition AdvanceFakeIDMaxValidUntil (up : bool) (now : Z) (u : UUID) (extensionDays : Z)
    (drawn : option Z) (db : Users) : result serr Z * Users :=
  match exec up (advance_max_update now u extensionDays drawn) db with
  | (Err e, db) => (Err e, db)
  | (Ok _, db') =>
      (match db !! u with
       | Some r => if is_fakeid u r
                   then of_option SqlNoRows (db' !! u ≫= fun r' => MaxValidUntil (fake r'))
                   else Err SqlNoRows
       | None => Err SqlNoRows
       end, db')
  end.

Definition expire_fakes_update (now : Z) : update :=
  mkUpdate (fun k r => is_fakeid k r && sql_lt (ValidUntil (fake r)) (Some now) &&
              negb (has_status "purge_pending" r)) (on_life (set_status "purge_pending")).

Definition ExpireStaleFakeIDs (up : bool) (now : Z) (db : Users) : result serr nat * Users :=
  exec up (expire_fakes_update now) db.

(** * Histories *)

Inductive op :=
| OpUpdateStatus (u : UUID) (s : string)
| OpPaymentFailed (u : UUID)
| OpTransition (up2 : bool)
| OpBump (u : UUID)
| OpDowngrade (u : UUID)
| OpLapse (cutoff : Z)
| OpDormant (cutoff : Z)
| OpPruneWarn (cutoff : Z)
| OpPrune (cutoff : Z)
| OpFinishPruning (u : UUID)
| OpFreeze (u : UUID)
| OpReactivate (u : UUID)
| OpStalePending (cutoff : Z)
| OpRequestDeletion (u : UUID)
| OpCancelDeletion (u : UUID)
| OpResetBounces (u : UUID)
| OpStaleBounces (cutoff : Z)
| OpClaim (u : UUID)
| OpRelease (u : UUID)
| OpExpireSlots
| OpExtend (u : UUID) (days : Z)
| OpMigrated (u : UUID)
| OpAdvance (u : UUID) (drawn : option Z)
| OpAdvanceMax (u : UUID) (days : Z) (drawn : option Z)
| OpExpireFakes.

(** A call at some time, and whether the database executes its (first)
    statement. *)
Record event := mkEvent { at_time : Z; ev_up : bool; ev_op : op }.

Definition apply (e : event) (db : Users) : Users :=
  let up := ev_up e in
  let now := at_time e in
  match ev_op e with
  | OpUpdateStatus u s => (UpdateAccountStatus up u s db).2
  | OpPaymentFailed u => (SetPaymentFailedAt up now u db).2
  | OpTransition up2 => (TransitionPaymentFailedAccounts up up2 now db).2
  | OpBump u => (BumpLastActivity up now u db).2
  | OpDowngrade u => (DowngradeToFree up u db).2
  | OpLapse c => (MarkLapsedToFree up c db).2
  | OpDormant c => (MarkDormantTombstone up c db).2
  | OpPruneWarn c => (MarkLapsedPruneWarned up c db).2
  | OpPrune c => (MarkLapsedPruning up c db).2
  | OpFinishPruning u => (FinishPruning up u db).2
  | OpFreeze u => (FreezeForAbuse up u db).2
  | OpReactivate u => (ReactivateIfTombstoned up now u db).2
  | OpStalePending c => (MarkStalePendingPayment up now c db).2
  | OpRequestDeletion u => (RequestDeletion up now u db).2
  | OpCancelDeletion u => (CancelDeletion up u db).2
  | OpResetBounces u => (ResetUserBounces up now u db).2
  | OpStaleBounces c => (ResetStaleBounceCounters up now c db).2
  | OpClaim u => (ClaimFakeIDSlot up now u db).2
  | OpRelease u => (ReleaseFakeIDSlotIfOwned up now u db).2
  | OpExpireSlots => (ExpireFakeIDSlots up now db).2
  | OpExtend u d => (ExtendFakeIDAllowedRelease up now u d db).2
  | OpMigrated u => (MarkFakeIDMigrated up u db).2
  | OpAdvance u j => (AdvanceFakeIDValidUntil up now u j db).2
  | OpAdvanceMax u d j => (AdvanceFakeIDMaxValidUntil up now u d j db).2
  | OpExpireFakes => (ExpireStaleFakeIDs up now db).2
  end.

Definition run (evs : list event) (db : Users) : Users := foldl (fun db e => apply e db) db evs.

(** The statements a call executes, in order. *)
Definition executed (e : event) : list update :=
  if negb (ev_up e) then []
  else let now := at_time e in
  match ev_op e with
  | OpUpdateStatus u s => if validAccountStatuses s then [status_update u s] else []
  | OpPaymentFailed u => [payment_failed_update now u]
  | OpTransition up2 => suspend_update now :: if up2 then [purge_update now] else []
  | OpBump u => [bump_update now u]
  | OpDowngrade u => [mkUpdate (by_id u) (on_life to_free)]
  | OpLapse c => [lapse_update c]
  | OpDormant c => [dormant_update c]
  | OpPruneWarn c => [prune_warn_update c]
  | OpPrune c => [prune_update c]
  | OpFinishPruning u => [finish_update u]
  | OpFreeze u => [freeze_update u]
  | OpReactivate u => [reactivate_update now u]
  | OpStalePending c => [stale_pending_update now c]
  | OpRequestDeletion u => [request_deletion_update now u]
  | OpCancelDeletion u => [cancel_deletion_update u]
  | OpResetBounces u => [mkUpdate (by_id u) (on_bounces (reset_bounces now))]
  | OpStaleBounces c => [stale_bounces_update now c]
  | OpClaim u => [claim_update now u]
  | OpRelease u => [release_update now u]
  | OpExpireSlots => [expire_slots_update now]
  | OpExtend u d => [extend_update now u d]
  | OpMigrated u => [migrated_update u]
  | OpAdvance u j => [advance_update now u j]
  | OpAdvanceMax u d j => [advance_max_update now u d j]
  | OpExpireFakes => [expire_fakes_update now]
  end.

Definition row_update (k : UUID) (r : User) (s : update) : User :=
  if upd_where s k r then upd_set s r else r.

Lemma exec_state up s db :
  (exec up s db).2 = if up then update_where (upd_where s) (upd_set s) db else db.
Proof. by destruct up. Qed.

Lemma ignoring_state r : (ignoring r).2 = r.2.
Proof. by destruct r as [[|] ?]. Qed.
Lemma requiring_state e r : (requiring e r).2 = r.2.
Proof. by destruct r as [[[|]|] ?]. Qed.

Lemma apply_executed e db :
  apply e db = foldl (fun db s => update_where (upd_where s) (upd_set s) db) db (executed e).
Proof.
  destruct e as [now up o]. unfold apply, executed. cbn [at_time ev_up ev_op].
  destruct o; cbn [ev_op];
    try (unfold UpdateAccountStatus; destruct (validAccountStatuses _); cbn [negb]);
    unfold SetPaymentFailedAt, BumpLastActivity, DowngradeToFree, FinishPruning, FreezeForAbuse,
      ReactivateIfTombstoned, RequestDeletion, CancelDeletion, ResetUserBounces, ClaimFakeIDSlot,
      ReleaseFakeIDSlotIfOwned, ExtendFakeIDAllowedRelease, MarkFakeIDMigrated,
      TransitionPaymentFailedAccounts, AdvanceFakeIDValidUntil, AdvanceFakeIDMaxValidUntil;
    rewrite ?ignoring_state, ?requiring_state; try (by destruct up).
  destruct up, up2; reflexivity.
Qed.

Lemma apply_lookup e db k : apply e db !! k = (fun r => foldl (row_update k) r (executed e)) <$> db !! k.
Proof.
  rewrite apply_executed. generalize (executed e) as ss. intros ss. revert db.
  induction ss as [|s ss IH]; intros db; cbn; [by destruct (db !! k)|].
  rewrite IH, lookup_update_where. by destruct (db !! k).
Qed.

(** What every statement keeps of a row, a call keeps. *)
Lemma row_keeps (P : User -> Prop) k ss r :
  Forall (fun s => forall r, upd_where s k r = true -> P r -> P (upd_set s r)) ss ->
  P r -> P (foldl (row_update k) r ss).
Proof.
  intros Hs. revert r. induction Hs as [|s ss H _ IH]; intros r Hp; cbn; [done|].
  apply IH. unfold row_update. destruct (upd_where s k r) eqn:E; auto.
Qed.

Lemma run_lookup evs db k :
  run evs db !! k = (fun r => foldl (fun r e => foldl (row_update k) r (executed e)) r evs) <$> db !! k.
Proof.
  revert db. induction evs as [|e evs IH]; intros db; cbn; [by destruct (db !! k)|].
  fold (run evs (apply e db)). rewrite IH, apply_lookup. by destruct (db !! k).
Qed.

Lemma run_keeps (P : User -> Prop) evs db k r :
  (forall e, e ∈ evs ->
     Forall (fun s => forall r, upd_where s k r = true -> P r -> P (upd_set s r)) (executed e)) ->
  run evs db !! k = Some r -> exists r0, db !! k = Some r0 /\ (P r0 -> P r).
Proof.
  intros Hs. rewrite run_lookup. destruct (db !! k) as [r0|]; [|done]. cbn. intros [= <-].
  exists r0. split; [done|]. revert r0. induction evs as [|e evs IH]; intros r0 Hp; cbn; [done|].
  apply IH; [intros; apply Hs; by right|]. apply row_keeps; [apply Hs; by left|done].
Qed.

(** The statements of a call, one goal each. *)
Ltac each_statement e :=
  destruct e as [now up o]; unfold executed; cbn [at_time ev_up ev_op];
  destruct up; [cbn [negb]|by apply Forall_nil_2]; destruct o;
  repeat match goal with |- context [if ?b then _ else _] => destruct b eqn:? end;
  repeat (apply Forall_cons; split); try apply Forall_nil_2.

Definition declared (u : User) : Prop := AccountStatus (life u) ∈ declared_statuses.

#[export] Instance declared_dec u : Decision (declared u).
Proof. unfold declared. apply _. Defined.

Lemma valid_is_declared s : validAccountStatuses s = true -> s ∈ declared_statuses.
Proof.
  intros Hv. apply existsb_exists in Hv as (x & Hin & ->%String.eqb_eq).
  apply list_elem_of_In in Hin. revert x Hin. apply Forall_forall. by apply (bool_decide_unpack _).
Qed.

(** What no call changes. *)
Definition same_identity (u v : User) : Prop :=
  UserTenant u = UserTenant v /\ Address u = Address v /\ AccountType u = AccountType v /\
  keys u = keys v /\ auth u = auth v /\ billing u = billing v.

(** C25. Account statuses stay declared and addresses stay taken: after any
    history of lifecycle calls, with any of them failing in the database, the
    same accounts exist, each with the address, tenant, type, keys and
    credentials it had, and with one of the eleven declared statuses. *)
Theorem statuses_stay_declared evs db :
  (forall k u, db !! k = Some u -> declared u) ->
  (forall k, is_Some (run evs db !! k) <-> is_Some (db !! k)) /\
  forall k u, run evs db !! k = Some u -> declared u /\
    exists u0, db !! k = Some u0 /\ same_identity u u0.
Proof.
  intros Hdb. split.
  { intros k. rewrite run_lookup. by rewrite fmap_is_Some. }
  intros k u Hu. split.
  - destruct (run_keeps declared evs db k u) as (u0 & H0 & Hk); [|done|by eapply Hk, Hdb].
    intros e _. each_statement e; intros r _ Hr; try exact Hr;
      try (by apply (bool_decide_unpack _)). by apply valid_is_declared.
  - assert (exists u0, db !! k = Some u0) as [u0 H0].
    { rewrite run_lookup in Hu. destruct (db !! k) as [u0|]; [by exists u0|done]. }
    destruct (run_keeps (fun r => same_identity r u0) evs db k u) as (u1 & H1 & Hk); [|done|].
    + intros e _. each_statement e; intros r _ Hr; exact Hr.
    + exists u0. split; [done|]. apply Hk. rewrite H0 in H1. injection H1 as <-. by split_and!.
Qed.

(** ** Examples *)

Definition no_fake : FakeCols := mkFake false None None false None None None.

Definition plain_user (status tier : string) (created : Z) (failed : option Z) : User :=
  mkUser (bs "t") (bs "a@b") "primary" (mkLife status tier created None failed None)
    (mkBounces 0 None) no_fake (mkKeys (bs "e") (bs "s") [] [] [] [] None None false None)
    (mkAuth [] [] [] 1 2) (mkBilling None None 0 0).

Definition demo_db : gmap (list byte) User :=
  {[bs "u" := plain_user "active" "mail" 0 None; bs "v" := plain_user "pending_payment" "free" 0 None]}.

Definition demo_history : list event :=
  [mkEvent (10 * day) true (OpBump (bs "u")); mkEvent (11 * day) true (OpDormant (9 * day));
   mkEvent (12 * day) true (OpStalePending (11 * day)); mkEvent (13 * day) false (OpRequestDeletion (bs "u"));
   mkEvent (14 * day) true (OpFreeze (bs "u")); mkEvent (15 * day) true (OpTransition true)].

Lemma demo_row k u : demo_db !! k = Some u ->
  u = plain_user "active" "mail" 0 None \/ u = plain_user "pending_payment" "free" 0 None.
Proof.
  unfold demo_db. intros [[_ <-]|[_ [_ <-]%lookup_singleton_Some]]%lookup_insert_Some; auto.
Qed.

Lemma statuses_stay_declared_witness :
  (forall k u, run demo_history demo_db !! k = Some u -> declared u /\
    exists u0, demo_db !! k = Some u0 /\ same_identity u u0) /\
  (life <$> run demo_history demo_db !! bs "v") =
    Some (mkLife "purge_pending" "free" 0 None None (Some (12 * day))).
Proof.
  split; [|by vm_compute].
  apply (statuses_stay_declared demo_history demo_db). intros k u Hu.
  destruct (demo_row k u Hu) as [->| ->]; by apply (bool_decide_unpack _).
Defined.

(** ** What keeps an account from being wiped *)

Definition doomed_statuses : list string :=
  ["tombstone"; "deleted_tombstone"; "deletion_pending"; "purge_pending"; "pending_payment"]%string.

Definition good (u : User) : Prop :=
  (AccountStatus (life u) ∉ doomed_statuses) /\ PaymentFailedAt (life u) = None /\
  AccountType u <> "fakeid"%string.

(** A call that takes nothing from the account [k], whose owner was last seen
    at [a] or later: no deletion requested, no payment failed, no support
    action that dooms it, no dormancy sweep for owners seen after [a], and a clock that
    does not run back. *)
Definition harmless (k : UUID) (a : Z) (e : event) : Prop :=
  match ev_op e with
  | OpUpdateStatus u s => u = k -> s ∉ doomed_statuses
  | OpPaymentFailed u | OpRequestDeletion u => u <> k
  | OpDormant cutoff => cutoff <= a
  | OpBump u => u = k -> a <= at_time e
  | _ => True
  end.

(** When the owner was last seen, after a call: activity is recorded at most
    once an hour. *)
Definition seen (k : UUID) (a : Z) (e : event) : Z :=
  match ev_op e with
  | OpBump u => if ev_up e && bool_decide (u = k) then Z.max a (at_time e - hour) else a
  | _ => a
  end.

Fixpoint kept (k : UUID) (a : Z) (evs : list event) : Prop :=
  match evs with
  | [] => True
  | e :: evs => harmless k a e /\ kept k (seen k a e) evs
  end.

Lemma good_status u s : good u -> has_status s u = true -> s ∉ doomed_statuses.
Proof. intros [Hs _] E. unfold has_status in E. apply String.eqb_eq in E. by rewrite <-E. Qed.

Lemma good_not_due u t : good u -> due t u = false.
Proof.
  intros Hg. unfold due.
  assert (forall s, s ∈ doomed_statuses -> has_status s u = false) as Hn.
  { intros s Hin. destruct (has_status s u) eqn:E; [|done]. by eapply good_status in E. }
  rewrite !Hn; [done|..]; by apply (bool_decide_unpack _).
Qed.

Lemma by_id_true u k r : by_id u k r = true -> k = u.
Proof. apply bool_decide_eq_true. Qed.

Definition seen_well (a : Z) (r : User) : Prop := good r /\ a <= activity (life r).

(** A statement that only sets another status. *)
Lemma keep_status a s r :
  s ∉ doomed_statuses -> seen_well a r -> seen_well a (on_life (set_status s) r).
Proof. intros Hs [(_ & Hp & Ht) Ha]. by split. Qed.

(** A statement that a well kept row is not selected by. *)
Lemma keep_unless a s r (Q : Prop) :
  s ∈ doomed_statuses -> has_status s r = true -> seen_well a r -> Q.
Proof. intros Hin E [Hg _]. by destruct (good_status _ _ Hg E). Qed.

Ltac row_guards :=
  cbn [upd_where upd_set status_update payment_failed_update suspend_update purge_update
       lapse_update dormant_update prune_warn_update prune_update finish_update freeze_update
       reactivate_update stale_pending_update request_deletion_update cancel_deletion_update
       expire_fakes_update] in *;
  repeat match goal with
  | H : (_ && _)%bool = true |- _ => apply andb_true_iff in H as [? ?]
  | H : by_id _ _ _ = true |- _ => apply by_id_true in H
  end.

Lemma kept_bump (k : UUID) a now (up : bool) r :
  a <= now -> seen_well a r ->
  seen_well (if up then Z.max a (now - hour) else a)
    (if up then row_update k r (bump_update now k) else r).
Proof.
  intros Hn [[Hs [Hp Ht]] Ha]. destruct up; [|by repeat split].
  unfold row_update, bump_update. cbn [upd_where upd_set]. unfold by_id.
  rewrite bool_decide_eq_true_2 by done. cbn [andb].
  assert (0 <= hour) as Hh by (by apply (bool_decide_unpack _)).
  destruct (match LastActivityAt (life r) with None => true | Some t => t <? now - hour end) eqn:E.
  - split; [by repeat split|]. cbn. lia.
  - split; [by repeat split|]. unfold activity in Ha |- *.
    destruct (LastActivityAt (life r)) as [t|]; [|done]. apply Z.ltb_ge in E. cbn in *. lia.
Qed.

Lemma kept_row k a e r :
  harmless k a e -> seen_well a r -> seen_well (seen k a e) (foldl (row_update k) r (executed e)).
Proof.
  destruct e as [now up o]. unfold executed, seen, harmless. cbn [at_time ev_up ev_op].
  destruct up; cbn [negb andb]; [|by destruct o].
  destruct o; intros Hh Hw.
  4: { cbn [foldl]. destruct (decide (u = k)) as [->|Hne].
       - rewrite bool_decide_eq_true_2 by done. exact (kept_bump k a now true r (Hh eq_refl) Hw).
       - rewrite bool_decide_eq_false_2 by done. unfold row_update, bump_update, by_id.
         cbn [upd_where]. by rewrite bool_decide_eq_false_2 by congruence. }
  all: apply row_keeps; [|exact Hw].
  all: repeat match goal with |- context [if ?b then _ else _] => destruct b eqn:? end.
  all: repeat (apply Forall_cons; split); try apply Forall_nil_2.
  all: clear r Hw; intros r Hsel Hw; row_guards; subst.
  all: try (eapply keep_unless; [|eassumption|exact Hw]; by apply (bool_decide_unpack _)).
  all: try (apply keep_status; [by apply (bool_decide_unpack _)|exact Hw]).
  all: try exact Hw.
  all: idtac.
  - apply keep_status; auto.
  - destruct Hw as [(_ & Hp & _) _]. by rewrite Hp in *.
  - destruct Hw as [_ Ha]. apply Z.ltb_lt in H0. lia.
  - apply orb_true_iff in H0 as [E|E];
      (eapply keep_unless; [|exact E|exact Hw]); by apply (bool_decide_unpack _).
  - destruct Hw as [(_ & _ & Ht) _]. apply String.eqb_eq in H. by destruct Ht.
Qed.

Lemma kept_run k a evs r :
  kept k a evs -> seen_well a r ->
  good (foldl (fun r e => foldl (row_update k) r (executed e)) r evs).
Proof.
  revert a r. induction evs as [|e evs IH]; intros a r; [by intros _ [? _]|].
  intros [Hh Hk] Hw. cbn. by eapply IH, kept_row.
Qed.

(** C24. What keeps an account from being wiped: an account in a status no
    wipe looks at, with no failed payment on record, that is not a Fake ID, is
    never due for a wipe afterwards, as long as no call asks for its deletion,
    reports a failed payment or dooms it by hand, no dormancy sweep runs with a
    cutoff later than the last recorded activity of its owner, and the clock
    does not run behind it. *)
Theorem kept_account_is_never_wiped k u db evs :
  db !! k = Some u -> good u -> kept k (activity (life u)) evs ->
  exists u', run evs db !! k = Some u' /\ forall t, due t u' = false.
Proof.
  intros Hk Hg Hkept. rewrite run_lookup, Hk. cbn. eexists. split; [done|]. intros t.
  apply good_not_due. by eapply kept_run.
Qed.

Lemma kept_account_is_never_wiped_witness :
  let evs := take 3 demo_history ++ drop 4 demo_history in
  kept (bs "u") 0 evs /\
  exists u', run evs demo_db !! bs "u" = Some u' /\ forall t, due t u' = false.
Proof.
  intros evs. assert (kept (bs "u") 0 evs) as Hk by (vm_compute; intuition discriminate).
  split; [exact Hk|].
  apply (kept_account_is_never_wiped (bs "u") (plain_user "active" "mail" 0 None) demo_db evs);
    [by vm_compute| |exact Hk].
  split_and!; [|done|by vm_compute]. by apply (bool_decide_unpack _).
Defined.

(** ** Ways round *)

(** A payment that failed once leaves its mark even when the account is active
    again; a freeze for abuse months later then reads as sixty days of
    suspension for debt, with no date of deletion, so with no grace period. *)
Theorem late_payer_frozen_is_due k u db t now olderThan :
  db !! k = Some u -> has_status "active" u = true ->
  PaymentFailedAt (life u) = Some t -> t < now - 60 * day -> DeletionRequestedAt (life u) = None ->
  exists u', run [mkEvent now true (OpFreeze k); mkEvent now true (OpTransition true)] db !! k
               = Some u' /\ has_status "purge_pending" u' = true /\ due olderThan u' = true.
Proof.
  intros Hk Ha Hp Ht Hd. set (u1 := on_life (set_status "suspended") u).
  assert (row_update k u (freeze_update k) = u1) as E1.
  { unfold row_update. cbn. unfold by_id. by rewrite bool_decide_eq_true_2, Ha. }
  assert (row_update k u1 (suspend_update now) = u1) as E2 by done.
  assert (row_update k u1 (purge_update now) = on_life (set_status "purge_pending") u1) as E3.
  { unfold row_update, purge_update. cbn -[day]. rewrite Hp. cbn -[day].
    by rewrite (proj2 (Z.ltb_lt _ _) Ht). }
  rewrite run_lookup, Hk. cbn [fmap option_fmap option_map foldl executed ev_up negb ev_op at_time].
  rewrite E1, E2, E3. eexists. split; [reflexivity|]. split; [done|]. unfold due. cbn. by rewrite Hd.
Qed.

(** Asking for deletion and taking it back makes a suspended account active. *)
Theorem cancelled_deletion_lifts_suspension k u db now :
  db !! k = Some u ->
  exists u', run [mkEvent now true (OpRequestDeletion k); mkEvent now true (OpCancelDeletion k)] db
               !! k = Some u' /\ has_status "active" u' = true.
Proof.
  intros Hk. rewrite run_lookup, Hk. cbn. unfold row_update. cbn. unfold by_id.
  rewrite !bool_decide_eq_true_2 by done. eexists. split; reflexivity.
Qed.
