(* ===== verification/Wipe.v ===== *)
(** internal/storage/auth_store.go: deleting what an account owns.
    TombstoneUser empties twelve tables and the key columns of the row in one
    transaction; PurgeUser removes the row too; PurgeTenant purges every member
    of a domain and then the domain.  A deletion takes along the rows that hang
    on the deleted ones by foreign keys ON DELETE CASCADE.  Shown: on a
    database with all the tables the wipe is all or nothing, and takes exactly
    the account's rows there and what hangs on them; with a table missing it
    does nothing, whatever the test for missing tables says; rows that hang on
    the row of users survive it; a wiped account stays due for wiping; an
    interrupted PurgeTenant is completed by running it again. *)

From S2P Require Import Prelude GoStrings Sql Account.

#[local] Open Scope Z_scope.

(** * The database *)

(** The table and the identifier of a row. *)
Abbreviation Key := (string * UUID)%type (only parsing).

(** What a row of an owned table says of its owner (tables without the column
    have no tenant), and the rows that its foreign keys ON DELETE CASCADE refer
    to, those of users and of tenants among them.  The schema is not in the
    repository: every row brings its own. *)
Record OwnedRow := mkOwned {
  row_user : UUID;
  row_tenant : option UUID;
  row_parents : list Key
}.

#[export] Instance owned_row_eq_dec : EqDecision OwnedRow.
Proof. solve_decision. Defined.

Record Db := mkDb {
  users : gmap UUID User;
  rows : gmap Key OwnedRow;
  installed : gset string;
  tenants : gset UUID
}.

Definition with_users (us : gmap UUID User) (d : Db) : Db := mkDb us (rows d) (installed d) (tenants d).
Definition with_rows (rs : gmap Key OwnedRow) (d : Db) : Db := mkDb (users d) rs (installed d) (tenants d).

(** ON DELETE CASCADE: the rows that refer to a row that goes, and so on. *)
Definition hangs_on (gone : gset Key) (r : OwnedRow) : bool :=
  existsb (fun p => bool_decide (p ∈ gone)) (row_parents r).

Definition sweep_step (rs : gmap Key OwnedRow) (gone : gset Key) : gset Key :=
  gone ∪ dom (select_where (fun _ => hangs_on gone) rs).

Definition sweep (rs : gmap Key OwnedRow) (gone : gset Key) : gset Key :=
  Nat.iter (size (dom rs)) (sweep_step rs) gone.

Definition cascade (gone : gset Key) (d : Db) : Db :=
  with_rows (delete_where (fun k _ => bool_decide (k ∈ sweep (rows d) gone)) (rows d)) d.

(** The text of an error, as the driver gives it. *)
Definition quoted (s : string) : bytes := [x22%byte] ++ bs s ++ [x22%byte].

Definition error_text (table : string) (e : serr) : bytes :=
  match e with
  | SqlUndefinedTable =>
      bs "ERROR: relation " ++ quoted table ++ bs " does not exist (SQLSTATE 42P01)"
  | SqlAborted =>
      bs "ERROR: current transaction is aborted, commands ignored until end of transaction block (SQLSTATE 25P02)"
  | SqlNoRows => bs "no rows in result set"
  | SqlUnique => bs "ERROR: duplicate key value violates unique constraint (SQLSTATE 23505)"
  | SqlRefused => bs "invalid account status"
  | SqlFailed => bs "unexpected EOF"
  end.

Definition isUndefinedTable (msg : bytes) : bool :=
  contains msg (bs "does not exist") && (contains msg (bs "relation") || contains msg (bs "table")).

(** The rows a condition selects in a table. *)
Definition selected (table : string) (P : OwnedRow -> bool) (rs : gmap Key OwnedRow) : gset Key :=
  dom (select_where (fun k r => bool_decide (k.1 = table) && P r) rs).

(** [DELETE FROM table WHERE ...]; [fails]: the statements the database fails
    for reasons of its own. *)
Definition delete_owned (fails : string -> bool) (table : string) (P : OwnedRow -> bool) (d : Db) :
    result serr (nat * Db) :=
  if fails table then Err SqlFailed
  else if bool_decide (table ∈ installed d)
       then Ok (size (selected table P (rows d)), cascade (selected table P (rows d)) d)
       else Err SqlUndefinedTable.

Definition owned_by (u : UUID) (r : OwnedRow) : bool := bool_decide (row_user r = u).
Definition owned_in (u tenant : UUID) (r : OwnedRow) : bool :=
  owned_by u r && bool_decide (row_tenant r = Some tenant).

(** * TombstoneUser *)

Definition tenantScoped : list string :=
  ["messages"; "folders"; "contacts"; "contact_groups"; "labels"; "mail_rules";
   "blocked_senders"]%string.
Definition userScoped : list string :=
  ["api_tokens"; "push_subscriptions"; "webhooks"; "pending_sends"; "sessions"]%string.

(** The DELETE statements in order, each with its condition. *)
Definition wipe_statements (u tenant : UUID) : list (string * (OwnedRow -> bool)) :=
  map (fun t => (t, owned_in u tenant)) tenantScoped ++ map (fun t => (t, owned_by u)) userScoped.

Definition wiped_user (r : User) : User :=
  mkUser (UserTenant r) (Address r) (AccountType r)
    (set_tier "free" (set_payment_failed None (life r)))
    (bounces r)
    (set_slot false None None (fake r))
    (mkKeys [] [] [] [] [] [] None None false None)
    (auth r)
    (mkBilling None None 0 0).

Definition wipe_row (u tenant : UUID) : update :=
  mkUpdate (fun k r => by_id u k r && bool_decide (UserTenant r = tenant)) wiped_user.

Fixpoint wipe_tables (fails : string -> bool) (stmts : list (string * (OwnedRow -> bool)))
    (t : tx Db) : result serr unit * tx Db :=
  match stmts with
  | [] => (Ok tt, t)
  | (table, P) :: stmts =>
      match tx_exec (delete_owned fails table P) t with
      | (Err e, t) =>
          if isUndefinedTable (error_text table e) then wipe_tables fails stmts t else (Err e, t)
      | (Ok _, t) => wipe_tables fails stmts t
      end
  end.

(** A statement on users. *)
Definition exec_users (fails : string -> bool) (s : update) (d : Db) : result serr (nat * Db) :=
  if fails "users"%string then Err SqlFailed
  else Ok (affected (upd_where s) (users d),
           with_users (update_where (upd_where s) (upd_set s) (users d)) d).

Definition TombstoneUser (begins : bool) (fails : string -> bool) (commits : bool)
    (u tenant : UUID) (d : Db) : result serr unit * Db :=
  if negb begins then (Err SqlFailed, d)
  else match wipe_tables fails (wipe_statements u tenant) (tx_begin d) with
       | (Err e, _) => (Err e, d)
       | (Ok _, t) =>
           match tx_exec (exec_users fails (wipe_row u tenant)) t with
           | (Err e, _) => (Err e, d)
           | (Ok _, t) => tx_commit commits d t
           end
       end.

(** What the DELETE statements leave. *)
Definition wiped_rows (stmts : list (string * (OwnedRow -> bool))) (d : Db) : Db :=
  foldl (fun d s => cascade (selected s.1 s.2 (rows d)) d) d stmts.

Definition no_failure (_ : string) : bool := false.

(** * PurgeUser, DeleteUser, PurgeTenant

A deleted row of users or of tenants takes along what hangs on it. *)

(** [DELETE FROM users WHERE ...]. *)
Definition delete_user_row (fails : string -> bool) (u : UUID) (P : User -> bool) (d : Db) :
    result serr (nat * Db) :=
  if fails "users"%string then Err SqlFailed
  else match users d !! u with
       | Some r =>
           if P r then Ok (1%nat, cascade {[("users"%string, u)]} (with_users (delete u (users d)) d))
           else Ok (0%nat, d)
       | None => Ok (0%nat, d)
       end.

Fixpoint delete_all_owned (fails : string -> bool) (stmts : list (string * (OwnedRow -> bool)))
    (t : tx Db) : result serr unit * tx Db :=
  match stmts with
  | [] => (Ok tt, t)
  | (table, P) :: stmts =>
      match tx_exec (delete_owned fails table P) t with
      | (Err e, t) => (Err e, t)
      | (Ok _, t) => delete_all_owned fails stmts t
      end
  end.

(** A transaction that deletes from tables, then the row of users. *)
Definition purge_with (begins : bool) (fails : string -> bool) (commits : bool)
    (stmts : list (string * (OwnedRow -> bool))) (u : UUID) (P : User -> bool) (d : Db) :
    result serr unit * Db :=
  if negb begins then (Err SqlFailed, d)
  else match delete_all_owned fails stmts (tx_begin d) with
       | (Err e, _) => (Err e, d)
       | (Ok _, t) =>
           match tx_exec (delete_user_row fails u P) t with
           | (Err e, _) => (Err e, d)
           | (Ok 0%nat, _) => (Err SqlNoRows, d)
           | (Ok _, t) => tx_commit commits d t
           end
       end.

Definition PurgeUser (begins : bool) (fails : string -> bool) (commits : bool) (u tenant : UUID)
    (d : Db) : result serr unit * Db :=
  purge_with begins fails commits
    [("messages"%string, owned_in u tenant); ("folders"%string, owned_in u tenant);
     ("sessions"%string, owned_by u)]
    u (fun r => bool_decide (UserTenant r = tenant)) d.

(** The subselect makes the condition on the tenant true. *)
Definition DeleteUser (begins : bool) (fails : string -> bool) (commits : bool) (u : UUID)
    (d : Db) : result serr unit * Db :=
  purge_with begins fails commits [("sessions"%string, owned_by u)] u (fun _ => true) d.

(** How the database answers each purge of a member. *)
Record Member := mkMember { m_begins : bool; m_fails : string -> bool; m_commits : bool }.

Fixpoint purge_members (env : UUID -> Member) (us : list UUID) (tenant : UUID) (d : Db) :
    result serr unit * Db :=
  match us with
  | [] => (Ok tt, d)
  | u :: us =>
      let m := env u in
      match PurgeUser (m_begins m) (m_fails m) (m_commits m) u tenant d with
      | (Err e, d) => (Err e, d)
      | (Ok _, d) => purge_members env us tenant d
      end
  end.

(** [ListUsersByTenant], in the order of the map. *)
Definition members (tenant : UUID) (d : Db) : list UUID :=
  (map_to_list (select_where (fun _ r => bool_decide (UserTenant r = tenant)) (users d))).*1.

Definition in_tenant (tenant : UUID) (r : OwnedRow) : bool :=
  bool_decide (row_tenant r = Some tenant).

(** [clears], [lists]: the statements before the loop; [env]: the purges;
    [fails]: the two after it.  The cleared references are no columns here. *)
Definition PurgeTenant (clears lists : bool) (env : UUID -> Member) (fails : string -> bool)
    (tenant : UUID) (d : Db) : result serr unit * Db :=
  if negb clears then (Err SqlFailed, d)
  else if negb lists then (Err SqlFailed, d)
  else match purge_members env (members tenant d) tenant d with
       | (Err e, d) => (Err e, d)
       | (Ok _, d) =>
           match delete_owned fails "kt_leaves" (in_tenant tenant) d with
           | Err e => (Err e, d)
           | Ok (_, d) =>
               if fails "tenants"%string then (Err SqlFailed, d)
               else (Ok tt, cascade {[("tenants"%string, tenant)]}
                              (mkDb (users d) (rows d) (installed d) (tenants d ∖ {[tenant]})))
           end
       end.

(** * What a deletion takes along *)

Section sweep.
Implicit Types (rs : gmap Key OwnedRow) (gone : gset Key) (G : Key -> Prop).

(** A row goes with the ones it hangs on. *)
Inductive doomed rs G : Key -> Prop :=
| doomed_itself k : G k -> doomed rs G k
| doomed_along k r p : rs !! k = Some r -> p ∈ row_parents r -> doomed rs G p -> doomed rs G k.

Lemma elem_of_sweep_step rs gone k :
  k ∈ sweep_step rs gone <->
  k ∈ gone \/ exists r p, rs !! k = Some r /\ p ∈ row_parents r /\ p ∈ gone.
Proof.
  unfold sweep_step. rewrite elem_of_union, elem_of_dom. unfold is_Some, hangs_on.
  setoid_rewrite lookup_select_where. setoid_rewrite existsb_exists. setoid_rewrite bool_decide_eq_true.
  setoid_rewrite <-list_elem_of_In. naive_solver.
Qed.

Lemma sweep_fixed rs n gone :
  sweep_step rs gone = gone -> Nat.iter n (sweep_step rs) gone = gone.
Proof. intros E. induction n as [|n IH]; [done|]. rewrite Nat.iter_succ, IH. exact E. Qed.

(** As many rounds as there are rows are enough. *)
Lemma sweep_saturates rs n gone :
  (size (dom rs ∖ gone) <= n)%nat ->
  sweep_step rs (Nat.iter n (sweep_step rs) gone) = Nat.iter n (sweep_step rs) gone.
Proof.
  assert (forall g, g ⊆ sweep_step rs g) as Hle by (intros g k; rewrite elem_of_sweep_step; by left).
  assert (forall g k, k ∈ sweep_step rs g -> k ∈ g \/ k ∈ dom rs) as Hin.
  { intros g k [?|(r & p & Hr & _)]%elem_of_sweep_step; [by left|]. right. by apply elem_of_dom. }
  revert gone. induction n as [|n IH]; intros gone Hn.
  - assert (dom rs ∖ gone ≡ ∅) as E by (apply size_empty_iff; lia). cbn.
    apply set_eq. intros k. split; [|apply Hle]. intros [?|?]%Hin; [done|set_solver].
  - rewrite Nat.iter_succ_r. destruct (decide (sweep_step rs gone = gone)) as [E|Hne].
    { rewrite E, (sweep_fixed _ _ _ E). exact E. }
    apply IH. assert (size (dom rs ∖ sweep_step rs gone) < size (dom rs ∖ gone))%nat; [|lia].
    apply subset_size. split; [specialize (Hle gone); set_solver|]. intros Hsub. apply Hne, set_eq.
    intros k. split; [|apply Hle]. intros Hk. destruct (Hin _ _ Hk) as [?|Hd]; [done|].
    destruct (decide (k ∈ gone)); [done|]. specialize (Hsub k). set_solver.
Qed.

Lemma elem_of_sweep rs gone k : k ∈ sweep rs gone <-> doomed rs (fun k => k ∈ gone) k.
Proof.
  unfold sweep. split.
  - generalize (size (dom rs)) as n. intros n. revert k. induction n as [|n IH]; intros k; cbn.
    + intros Hk. exact (doomed_itself rs (fun k => k ∈ gone) k Hk).
    + intros [Hk|(r & p & Hr & Hp & Hg)]%elem_of_sweep_step; [by apply IH|].
      eapply doomed_along; eauto.
  - assert (sweep_step rs (sweep rs gone) = sweep rs gone) as E.
    { apply sweep_saturates. apply subseteq_size. set_solver. }
    induction 1 as [k Hk|k r p Hr Hp _ IH].
    + clear E. generalize (size (dom rs)) as n. induction n as [|n IH]; cbn; [done|].
      apply elem_of_sweep_step. by left.
    + fold (sweep rs gone) in *. rewrite <-E. apply elem_of_sweep_step. right. by exists r, p.
Qed.

Lemma doomed_mono rs G G' k : (forall k, G k -> G' k) -> doomed rs G k -> doomed rs G' k.
Proof. intros HG. induction 1; [by apply doomed_itself, HG|by eapply doomed_along]. Qed.

Lemma lookup_cascade gone d k r :
  rows (cascade gone d) !! k = Some r <->
  rows d !! k = Some r /\ ~ doomed (rows d) (fun k => k ∈ gone) k.
Proof.
  unfold cascade. cbn. rewrite lookup_delete_where, bool_decide_eq_false, elem_of_sweep. done.
Qed.

(** Two deletions one after the other are one. *)
Lemma doomed_after gone G d k r :
  rows (cascade gone d) !! k = Some r ->
  doomed (rows (cascade gone d)) (fun k => G k /\ is_Some (rows (cascade gone d) !! k)) k <->
  doomed (rows d) (fun k => k ∈ gone \/ G k /\ is_Some (rows d !! k)) k.
Proof.
  intros Hk. split.
  - clear Hk. induction 1 as [k [HG [r' Hr]]|k r' p Hr Hp _ IH].
    + apply doomed_itself. right. split; [done|]. apply lookup_cascade in Hr as [Hr _]. by exists r'.
    + apply lookup_cascade in Hr as [Hr _]. by eapply doomed_along.
  - intros Hd. enough (doomed (rows d) (fun k => k ∈ gone) k \/
      doomed (rows (cascade gone d)) (fun k => G k /\ is_Some (rows (cascade gone d) !! k)) k) as [H|H]; [|done|].
    { apply lookup_cascade in Hk as [_ Hk]. done. }
    clear Hk. induction Hd as [k [HG|[HG [r' Hr]]]|k r' p Hr Hp _ IH].
    + left. by apply doomed_itself.
    + destruct (rows (cascade gone d) !! k) as [o|] eqn:E.
      * right. apply doomed_itself. rewrite E. by split; [|exists o].
      * left. destruct (decide (k ∈ sweep (rows d) gone)) as [Hs|Hs]; [by apply elem_of_sweep|].
        rewrite elem_of_sweep in Hs. assert (rows (cascade gone d) !! k = Some r') as E'; [|congruence].
        by apply lookup_cascade.
    + destruct (decide (k ∈ sweep (rows d) gone)) as [Hs|Hs]; [left; by apply elem_of_sweep|].
      rewrite elem_of_sweep in Hs. assert (rows (cascade gone d) !! k = Some r') as E by by apply lookup_cascade.
      destruct IH as [IH|IH]; [left; by eapply doomed_along|right; by eapply doomed_along].
Qed.

End sweep.

Lemma elem_of_selected table P rs k :
  k ∈ selected table P rs <-> exists r, rs !! k = Some r /\ k.1 = table /\ P r = true.
Proof.
  unfold selected. rewrite elem_of_dom. unfold is_Some. setoid_rewrite lookup_select_where.
  setoid_rewrite andb_true_iff. setoid_rewrite bool_decide_eq_true. naive_solver.
Qed.

(** * What TombstoneUser does *)

Lemma aborted_is_not_soft t : isUndefinedTable (error_text t SqlAborted) = false.
Proof. by vm_compute. Qed.
Lemma failed_is_not_soft t : isUndefinedTable (error_text t SqlFailed) = false.
Proof. by vm_compute. Qed.

(** Once a statement has failed, the transaction is lost. *)
Lemma wipe_tables_broken fails stmts t :
  broken t = true -> broken (wipe_tables fails stmts t).2 = true.
Proof.
  intros Hb. destruct stmts as [|[table P] stmts]; [done|]. cbn [wipe_tables].
  rewrite tx_exec_broken by done. by rewrite aborted_is_not_soft.
Qed.

Definition runs (fails : string -> bool) (d : Db) (t : string) : bool :=
  bool_decide (t ∈ installed d) && negb (fails t).

Lemma delete_owned_spec fails table P d :
  delete_owned fails table P d =
    if runs fails d table
    then Ok (size (selected table P (rows d)), cascade (selected table P (rows d)) d)
    else Err (if fails table then SqlFailed else SqlUndefinedTable).
Proof. unfold delete_owned, runs. destruct (fails table); [by rewrite andb_false_r|]. by case_bool_decide. Qed.

Definition runs_all (fails : string -> bool) (stmts : list (string * (OwnedRow -> bool)))
    (d : Db) : bool := forallb (fun s => runs fails d s.1) stmts.

Lemma wipe_tables_spec fails stmts d :
  if runs_all fails stmts d
  then wipe_tables fails stmts (mkTx d false) = (Ok tt, mkTx (wiped_rows stmts d) false)
  else broken (wipe_tables fails stmts (mkTx d false)).2 = true.
Proof.
  revert d. induction stmts as [|[table P] stmts IH]; intros d; [done|].
  unfold runs_all. cbn [forallb wipe_tables fst]. unfold tx_exec. cbn [broken inside].
  rewrite delete_owned_spec. destruct (runs fails d table) eqn:E; cbn [andb].
  - exact (IH (cascade _ d)).
  - destruct (isUndefinedTable _); [|done]. by apply wipe_tables_broken.
Qed.

Lemma wiped_rows_frame stmts d :
  users (wiped_rows stmts d) = users d /\ installed (wiped_rows stmts d) = installed d /\
  tenants (wiped_rows stmts d) = tenants d.
Proof. revert d. induction stmts as [|s stmts IH]; intros d; [done|]. exact (IH (cascade _ d)). Qed.

(** The rows that some of the statements select. *)
Definition chosen (stmts : list (string * (OwnedRow -> bool))) (rs : gmap Key OwnedRow) (k : Key) : Prop :=
  exists s o, s ∈ stmts /\ s.1 = k.1 /\ rs !! k = Some o /\ s.2 o = true.

Lemma wiped_rows_keep stmts d k o :
  rows (wiped_rows stmts d) !! k = Some o <->
  rows d !! k = Some o /\ ~ doomed (rows d) (chosen stmts (rows d)) k.
Proof.
  revert d. induction stmts as [|s stmts IH]; intros d.
  { split; [|by intros [? _]]. intros Hk. split; [exact Hk|]. clear Hk.
    induction 1 as [k (? & ? & ?%not_elem_of_nil & _)|]; done. }
  change (wiped_rows (s :: stmts) d) with (wiped_rows stmts (cascade (selected s.1 s.2 (rows d)) d)).
  rewrite IH. set (gone := selected s.1 s.2 (rows d)).
  assert (forall k', chosen (s :: stmts) (rows d) k' <->
    k' ∈ gone \/ chosen stmts (rows d) k' /\ is_Some (rows d !! k')) as Hc.
  { intros k'. unfold gone. rewrite elem_of_selected. unfold chosen, is_Some.
    setoid_rewrite elem_of_cons. naive_solver. }
  assert (forall k', chosen stmts (rows (cascade gone d)) k' <->
    chosen stmts (rows d) k' /\ is_Some (rows (cascade gone d) !! k')) as Hc'.
  { intros k'. unfold chosen, is_Some. split.
    - intros (s' & o' & Hs & Ht & Hr & HP). pose proof Hr as [Hr' _]%lookup_cascade. naive_solver.
    - intros [(s' & o' & Hs & Ht & Hr & HP) [o'' Hr'']]. pose proof Hr'' as [Hr' _]%lookup_cascade.
      exists s', o''. split_and!; congruence. }
  split.
  - intros [Hk Hn]. pose proof Hk as [Hk' _]%lookup_cascade. split; [done|]. intros Hd. apply Hn.
    apply (doomed_mono _ (fun k => chosen stmts (rows d) k /\ is_Some (rows (cascade gone d) !! k))).
    { intros k' Hk''. by apply Hc'. }
    eapply doomed_after; [exact Hk|]. eapply doomed_mono; [|exact Hd]. intros k' ?. by apply Hc.
  - intros [Hk Hn]. assert (rows (cascade gone d) !! k = Some o) as Hk'.
    { apply lookup_cascade. split; [done|]. intros Hd. apply Hn. eapply doomed_mono; [|exact Hd].
      intros k' ?. apply Hc. by left. }
    split; [done|]. intros Hd. apply Hn.
    apply (doomed_mono _ (fun k => k ∈ gone \/ chosen stmts (rows d) k /\ is_Some (rows d !! k))).
    { intros k' ?. by apply Hc. }
    eapply doomed_after; [exact Hk'|]. eapply doomed_mono; [|exact Hd]. intros k' ?. by apply Hc'.
Qed.

(** The account's rows in the twelve tables. *)
Definition account_row (u tenant : UUID) (rs : gmap Key OwnedRow) (k : Key) : Prop :=
  exists o, rs !! k = Some o /\
    (k.1 ∈ tenantScoped /\ owned_in u tenant o = true \/ k.1 ∈ userScoped /\ owned_by u o = true).

Lemma chosen_account u tenant rs k :
  chosen (wipe_statements u tenant) rs k <-> account_row u tenant rs k.
Proof.
  unfold chosen, account_row, wipe_statements. setoid_rewrite elem_of_app. split.
  - intros (s & o & [(t & -> & Ht)%list_elem_of_fmap|(t & -> & Ht)%list_elem_of_fmap] & <- & Hr & HP); eauto.
  - intros (o & Hr & [[Ht HP]|[Ht HP]]); eexists (k.1, _), o; split_and!; [left|..]; try done.
    + apply list_elem_of_fmap. by exists k.1.
    + right. apply list_elem_of_fmap. by exists k.1.
Qed.

Lemma wipe_statements_run fails u tenant d :
  runs_all fails (wipe_statements u tenant) d = forallb (runs fails d) (tenantScoped ++ userScoped).
Proof. done. Qed.

Definition all_tables (d : Db) : Prop := forall t, t ∈ tenantScoped ++ userScoped -> t ∈ installed d.

(** No statement fails, and neither do begin and commit. *)
Definition wipe_answered (begins : bool) (fails : string -> bool) (commits : bool) : bool :=
  begins && forallb (fun t => negb (fails t)) (tenantScoped ++ userScoped) &&
  negb (fails "users"%string) && commits.

Lemma all_tables_run fails d :
  all_tables d ->
  forallb (runs fails d) (tenantScoped ++ userScoped) =
    forallb (fun t => negb (fails t)) (tenantScoped ++ userScoped).
Proof.
  unfold all_tables. generalize (tenantScoped ++ userScoped) as l. intros l.
  induction l as [|t l IH]; intros Ha; [done|]. cbn. unfold runs at 1.
  rewrite bool_decide_eq_true_2 by (apply Ha; by left). cbn. f_equal. apply IH. intros t' Ht'. apply Ha. by right.
Qed.

(** What the wipe comes to. *)
Lemma TombstoneUser_spec begins fails commits u tenant d :
  if begins && forallb (runs fails d) (tenantScoped ++ userScoped) && negb (fails "users"%string) && commits
  then exists d', TombstoneUser begins fails commits u tenant d = (Ok tt, d') /\
    (forall k, users d' !! k = (fun r => if by_id u k r && bool_decide (UserTenant r = tenant)
                                         then wiped_user r else r) <$> users d !! k) /\
    (forall k o, rows d' !! k = Some o <->
       rows d !! k = Some o /\ ~ doomed (rows d) (account_row u tenant (rows d)) k) /\
    installed d' = installed d /\ tenants d' = tenants d
  else exists e, TombstoneUser begins fails commits u tenant d = (Err e, d).
Proof.
  pose proof (wipe_tables_spec fails (wipe_statements u tenant) d) as Hw.
  rewrite wipe_statements_run in Hw. unfold TombstoneUser, tx_begin.
  pose proof (wiped_rows_frame (wipe_statements u tenant) d) as Hf.
  pose proof (wiped_rows_keep (wipe_statements u tenant) d) as Hk.
  pose proof (chosen_account u tenant (rows d)) as Hc.
  revert Hw Hf Hk Hc. generalize (wiped_rows (wipe_statements u tenant) d) as d1.
  generalize (wipe_statements u tenant) as stmts. intros stmts d1 Hw (Hu & Hi & Ht) Hk Hc.
  destruct begins; cbn [andb negb]; [|by eexists]. destruct (forallb _ _); cbn [andb].
  - rewrite Hw. unfold tx_exec, exec_users. cbn [broken inside].
    destruct (fails "users"%string); cbn [negb andb]; [by eexists|].
    destruct commits; [|by eexists]. eexists. split; [reflexivity|].
    cbn [users rows installed tenants with_users inside upd_where upd_set wipe_row]. split_and!; [| |done|done].
    + intros k. by rewrite lookup_update_where, Hu.
    + intros k o. rewrite Hk. split; intros [Hr Hn]; (split; [done|]); intros Hd; apply Hn;
        (eapply doomed_mono; [|exact Hd]); intros k'; apply Hc.
  - destruct (wipe_tables _ _ _) as [[[]|e] t]; [|by eexists]. cbn in Hw. unfold tx_exec.
    rewrite Hw. by eexists.
Qed.

(** What a wipe makes of the row of an account. *)
Record erased (r r' : User) : Prop := mkErased {
  erased_identity : UserTenant r' = UserTenant r /\ Address r' = Address r /\ AccountType r' = AccountType r;
  erased_status : AccountStatus (life r') = AccountStatus (life r) /\ CreatedAt (life r') = CreatedAt (life r) /\
    DeletionRequestedAt (life r') = DeletionRequestedAt (life r);
  erased_login : auth r' = auth r;
  erased_keys : keys r' = mkKeys [] [] [] [] [] [] None None false None;
  erased_billing : billing r' = mkBilling None None 0 0 /\ Tier (life r') = "free"%string /\
    PaymentFailedAt (life r') = None;
  erased_fake : HasFakeID (fake r') = false /\ FakeIDMintedAt (fake r') = None /\
    FakeIDAllowedReleaseAt (fake r') = None
}.

Lemma wiped_user_erased r : erased r (wiped_user r).
Proof. by repeat split. Qed.

(** C26. A wipe on a database with all its tables is all or nothing.  When the
    transaction begins, no statement fails and the commit goes through,
    TombstoneUser succeeds: exactly the account's rows in the twelve tables
    are gone and, by ON DELETE CASCADE, the rows that hang on these, through
    any number of references; the row of the account keeps its address, status
    and login records without keys or identifiers; every other account and
    row is untouched.  In any other case it reports an error and changes
    nothing. *)
Theorem tombstone_all_or_nothing begins fails commits u tenant d :
  all_tables d ->
  if wipe_answered begins fails commits
  then exists d', TombstoneUser begins fails commits u tenant d = (Ok tt, d') /\
    (forall k, users d !! k = None -> users d' !! k = None) /\
    (forall k r, users d !! k = Some r -> exists r', users d' !! k = Some r' /\
       (k = u /\ UserTenant r = tenant -> erased r r') /\ (~ (k = u /\ UserTenant r = tenant) -> r' = r)) /\
    (forall k o, rows d' !! k = Some o <->
       rows d !! k = Some o /\ ~ doomed (rows d) (account_row u tenant (rows d)) k) /\
    installed d' = installed d /\ tenants d' = tenants d
  else exists e, TombstoneUser begins fails commits u tenant d = (Err e, d).
Proof.
  intros Ha. pose proof (TombstoneUser_spec begins fails commits u tenant d) as H.
  rewrite (all_tables_run fails d Ha) in H. unfold wipe_answered. destruct (_ && _); [|exact H].
  destruct H as (d' & E & Hu & H). exists d'. split_and!; [done| | |apply H..].
  - intros k Hk. by rewrite Hu, Hk.
  - intros k r Hk. rewrite Hu, Hk. cbn. eexists. split; [done|]. unfold by_id.
    destruct (bool_decide (k = u) && _) eqn:Eb.
    + apply andb_true_iff in Eb as [E1%bool_decide_eq_true E2%bool_decide_eq_true].
      split; [intros _; apply wiped_user_erased|by intros Hn; destruct Hn].
    + apply andb_false_iff in Eb as [Eb%bool_decide_eq_false|Eb%bool_decide_eq_false]; by split; [intros [? ?]|].
Qed.

(** One table missing, and no account is ever wiped, although the error of
    the statement on it is meant to be skipped. *)
Theorem missing_table_stops_wipe fails commits u tenant d t :
  t ∈ tenantScoped ++ userScoped -> t ∉ installed d ->
  exists e, TombstoneUser true fails commits u tenant d = (Err e, d).
Proof.
  intros Ht Hn. pose proof (TombstoneUser_spec true fails commits u tenant d) as H.
  assert (forallb (runs fails d) (tenantScoped ++ userScoped) = false) as E; [|by rewrite E in H].
  apply not_true_iff_false. rewrite forallb_forall. intros Hr.
  apply list_elem_of_In, Hr, andb_true_iff in Ht as [Ht _]. by apply bool_decide_eq_true in Ht.
Qed.

(** The row of users stays, so what hangs on nothing else stays. *)
Theorem rows_of_the_user_survive begins fails commits u tenant d k o :
  rows d !! k = Some o -> k.1 ∉ tenantScoped ++ userScoped ->
  row_parents o = [("users"%string, u)] -> rows d !! ("users"%string, u) = None ->
  rows (TombstoneUser begins fails commits u tenant d).2 !! k = Some o.
Proof.
  intros Hk Hout Hp Hnu. pose proof (TombstoneUser_spec begins fails commits u tenant d) as H.
  destruct (_ && _)%bool; [|by destruct H as (e & ->)].
  destruct H as (d' & -> & _ & Hr & _). cbn. apply Hr. split; [done|]. intros Hd.
  assert (forall k', account_row u tenant (rows d) k' -> k'.1 ∈ tenantScoped ++ userScoped) as Hc.
  { intros k' (o' & _ & [[? _]|[? _]]); apply elem_of_app; auto. }
  inversion Hd as [? Hg|? r p Hr' Hp' Hd']; subst; [by apply Hout, Hc|].
  rewrite Hk in Hr'. injection Hr' as <-. rewrite Hp in Hp'. apply list_elem_of_singleton in Hp' as ->.
  inversion Hd' as [? Hg|? r p Hr' ? ?]; subst; [|congruence]. by destruct Hg as (? & Hg & _); congruence.
Qed.

(** * What PurgeTenant does *)

(** Members of a tenant may be gone, and the tenant itself; no one else, and
    no table. *)
Record shrunk (tenant : UUID) (d d' : Db) : Prop := mkShrunk {
  shrunk_users : forall k, users d' !! k = users d !! k \/
    users d' !! k = None /\ exists r, users d !! k = Some r /\ UserTenant r = tenant;
  shrunk_tenants : tenants d' = tenants d \/ tenants d' = tenants d ∖ {[tenant]};
  shrunk_installed : installed d' = installed d
}.

#[export] Instance shrunk_preorder tenant : PreOrder (shrunk tenant).
Proof.
  split.
  - intros d. split; auto.
  - intros d1 d2 d3 [U1 T1 X1] [U2 T2 X2]. split.
    + intros k. specialize (U1 k). specialize (U2 k).
      destruct U2 as [->|(-> & r & Hr & Ht)]; [done|]. right. split; [done|].
      destruct U1 as [<-|(E & _)]; [by exists r|congruence].
    + destruct T1 as [E1|E1], T2 as [E2|E2]; rewrite E2, E1; auto. right. set_solver.
    + by rewrite X2.
Qed.

Lemma delete_all_owned_spec fails stmts d :
  if runs_all fails stmts d
  then delete_all_owned fails stmts (mkTx d false) = (Ok tt, mkTx (wiped_rows stmts d) false)
  else exists e t, delete_all_owned fails stmts (mkTx d false) = (Err e, t).
Proof.
  revert d. induction stmts as [|[table P] stmts IH]; intros d; [done|].
  unfold runs_all. cbn [forallb delete_all_owned fst]. unfold tx_exec. cbn [broken inside].
  rewrite delete_owned_spec. destruct (runs fails d table) eqn:E; cbn [andb]; [|by eexists _, _].
  exact (IH (cascade _ d)).
Qed.

(** A purge takes exactly one account, or nothing. *)
Lemma purge_with_spec begins fails commits stmts u P d :
  match users d !! u with
  | Some r =>
      if begins && runs_all fails stmts d && negb (fails "users"%string) && P r && commits
      then exists d', purge_with begins fails commits stmts u P d = (Ok tt, d') /\
             users d' = delete u (users d) /\ tenants d' = tenants d /\
             installed d' = installed d
      else exists e, purge_with begins fails commits stmts u P d = (Err e, d)
  | None => exists e, purge_with begins fails commits stmts u P d = (Err e, d)
  end.
Proof.
  unfold purge_with. destruct begins; cbn [negb andb]; [|by destruct (users d !! u); eexists].
  unfold tx_begin. pose proof (delete_all_owned_spec fails stmts d) as Hd.
  destruct (runs_all _ _ _); cbn [andb].
  2: { destruct Hd as (e & t & ->). by destruct (users d !! u); eexists. }
  destruct (wiped_rows_frame stmts d) as (Hu & Hi & Ht).
  rewrite Hd. unfold tx_exec, delete_user_row. cbn [broken inside]. rewrite Hu.
  destruct (fails "users"%string); cbn [negb andb]; [by destruct (users d !! u); eexists|].
  destruct (users d !! u) as [r|] eqn:Eu; [|by eexists].
  destruct (P r); cbn [andb]; [|by eexists]. destruct commits; [|by eexists].
  eexists. split; [reflexivity|]. by cbn [users tenants installed inside cascade with_rows with_users].
Qed.

Lemma purge_user_shrinks begins fails commits u tenant d :
  shrunk tenant d (PurgeUser begins fails commits u tenant d).2.
Proof.
  unfold PurgeUser. pose proof (purge_with_spec begins fails commits
    [("messages"%string, owned_in u tenant); ("folders"%string, owned_in u tenant);
     ("sessions"%string, owned_by u)] u (fun r => bool_decide (UserTenant r = tenant)) d) as H.
  destruct (users d !! u) as [r|] eqn:Eu; [|by destruct H as (e & ->)].
  destruct (_ && _)%bool eqn:E; [|by destruct H as (e & ->)].
  apply andb_true_iff in E as [E _]. apply andb_true_iff in E as [_ E].
  apply bool_decide_eq_true in E.
  destruct H as (d' & -> & Hu & Ht & Hx). cbn. split; [|by left|done].
  intros k. rewrite Hu. destruct (decide (k = u)) as [->|Hne].
  - right. rewrite lookup_delete_eq. eauto.
  - left. by rewrite lookup_delete_ne.
Qed.

Lemma purge_members_shrink env us tenant d :
  shrunk tenant d (purge_members env us tenant d).2.
Proof.
  revert d. induction us as [|u us IH]; intros d; [done|]. cbn [purge_members].
  pose proof (purge_user_shrinks (m_begins (env u)) (m_fails (env u)) (m_commits (env u)) u tenant d)
    as H.
  destruct (PurgeUser _ _ _ _ _ _) as [[[]|e] d']; cbn in H |- *; [|done].
  etransitivity; [exact H|apply IH].
Qed.

Lemma delete_owned_shrinks fails t P tenant d n d' :
  delete_owned fails t P d = Ok (n, d') -> shrunk tenant d d'.
Proof.
  rewrite delete_owned_spec. destruct (runs _ _ _); [|done]. intros [= _ <-].
  split; cbn; [by left|by left|done].
Qed.

Lemma purge_tenant_shrinks clears lists env fails tenant d :
  shrunk tenant d (PurgeTenant clears lists env fails tenant d).2.
Proof.
  unfold PurgeTenant. destruct clears, lists; try done; cbn [negb].
  pose proof (purge_members_shrink env (members tenant d) tenant d) as H.
  destruct (purge_members _ _ _ _) as [[[]|e] d1]; cbn in H |- *; [|done].
  destruct (delete_owned _ _ _ _) as [[n d2]|e] eqn:E; [|done].
  eapply delete_owned_shrinks in E. assert (shrunk tenant d d2) as H2 by (etransitivity; eauto).
  destruct (fails _); [done|]. cbn. etransitivity; [exact H2|]. by split; cbn; [left|right|].
Qed.

Definition willing (_ : UUID) : Member := mkMember true no_failure true.

Definition purgeable (d : Db) : bool :=
  forallb (fun t => bool_decide (t ∈ installed d)) ["messages"; "folders"; "sessions"; "kt_leaves"]%string.

Lemma shrunk_purgeable tenant d d' : shrunk tenant d d' -> purgeable d' = purgeable d.
Proof. intros [_ _ Ht]. unfold purgeable. by rewrite Ht. Qed.

Lemma willing_user u tenant d r :
  purgeable d = true -> users d !! u = Some r -> UserTenant r = tenant ->
  exists d', PurgeUser true no_failure true u tenant d = (Ok tt, d') /\
    users d' = delete u (users d) /\ tenants d' = tenants d /\ purgeable d' = true.
Proof.
  intros Hp Hu Ht. pose proof (purge_with_spec true no_failure true
    [("messages"%string, owned_in u tenant); ("folders"%string, owned_in u tenant);
     ("sessions"%string, owned_by u)] u (fun r => bool_decide (UserTenant r = tenant)) d) as H.
  rewrite Hu in H. unfold PurgeUser. rewrite bool_decide_eq_true_2 in H by done.
  pose proof Hp as Hq. unfold purgeable in Hp. cbn in Hp. rewrite !andb_true_iff in Hp.
  destruct Hp as (Hm & Hf & Hs & _).
  unfold runs_all, runs in H. cbn [forallb fst no_failure negb] in H. rewrite Hm, Hf, Hs in H.
  cbn in H. destruct H as (d' & H & Hd & Hts & Hx). exists d'. split_and!; [done..|].
  rewrite <-Hq. unfold purgeable. by rewrite Hx.
Qed.

Lemma willing_members us tenant d :
  NoDup us -> purgeable d = true ->
  (forall u, u ∈ us -> exists r, users d !! u = Some r /\ UserTenant r = tenant) ->
  exists d', purge_members willing us tenant d = (Ok tt, d') /\
    (forall k, users d' !! k = if bool_decide (k ∈ us) then None else users d !! k) /\
    tenants d' = tenants d /\ purgeable d' = true.
Proof.
  revert d. induction us as [|u us IH]; intros d Hnd Hp Hus.
  { exists d. split_and!; try done. }
  apply NoDup_cons in Hnd as [Hn Hnd]. destruct (Hus u) as (r & Hr & Ht); [by left|].
  destruct (willing_user u tenant d r Hp Hr Ht) as (d1 & E1 & Hu1 & Ht1 & Hp1).
  destruct (IH d1 Hnd Hp1) as (d2 & E2 & Hu2 & Ht2 & Hp2).
  { intros v Hv. rewrite Hu1, lookup_delete_ne by (intros ->; done). apply Hus. by right. }
  exists d2. cbn [purge_members willing m_begins m_fails m_commits]. rewrite E1.
  split_and!; [done| |by rewrite Ht2|done].
  intros k. rewrite Hu2, Hu1. destruct (decide (k = u)) as [->|Hne].
  - rewrite (bool_decide_eq_true_2 (u ∈ u :: us)) by (apply elem_of_cons; by left).
    rewrite lookup_delete_eq. by destruct (bool_decide (u ∈ us)).
  - rewrite lookup_delete_ne by done.
    rewrite (bool_decide_ext (k ∈ us) (k ∈ u :: us)); [done|]. rewrite elem_of_cons. tauto.
Qed.

Lemma elem_of_members k tenant d :
  k ∈ members tenant d <-> exists r, users d !! k = Some r /\ UserTenant r = tenant.
Proof.
  unfold members. rewrite list_elem_of_fmap. split.
  - intros ([k' r] & -> & Hin). apply elem_of_map_to_list in Hin.
    apply lookup_select_where in Hin as [Hk Ht]. exists r. by apply bool_decide_eq_true in Ht.
  - intros (r & Hr & Ht). exists (k, r). split; [done|]. apply elem_of_map_to_list.
    apply lookup_select_where. split; [done|]. by apply bool_decide_eq_true.
Qed.

Lemma willing_tenant tenant d :
  purgeable d = true ->
  exists d', PurgeTenant true true willing no_failure tenant d = (Ok tt, d') /\
    (forall k, users d' !! k = r ← users d !! k;
       if bool_decide (UserTenant r = tenant) then None else Some r) /\
    tenants d' = tenants d ∖ {[tenant]}.
Proof.
  intros Hp. unfold PurgeTenant. cbn [negb].
  destruct (willing_members (members tenant d) tenant d) as (d1 & E1 & Hu1 & Ht1 & Hp1); try done.
  { apply NoDup_fst_map_to_list. }
  { intros u. by rewrite elem_of_members. }
  rewrite E1, delete_owned_spec. unfold runs. unfold purgeable in Hp1. cbn in Hp1.
  rewrite !andb_true_iff in Hp1. destruct Hp1 as (_ & _ & _ & -> & _). cbn [andb negb no_failure].
  eexists. split; [reflexivity|]. cbn. split; [|by rewrite Ht1].
  intros k. rewrite Hu1. destruct (users d !! k) as [r|] eqn:Ek; cbn.
  - rewrite (bool_decide_ext (k ∈ members tenant d) (UserTenant r = tenant)); [done|].
    rewrite elem_of_members, Ek.
    split; [by intros (? & [= <-] & ?)|eauto].
  - by destruct (bool_decide _).
Qed.

(** An interrupted PurgeTenant does no harm and is completed by running
    it again: however the database failed during a first run, no account of
    another tenant was lost, and a second run in which no statement fails
    succeeds, leaving exactly the accounts of the other tenants and no row of
    the tenant, which is what an uninterrupted run leaves. *)
Theorem purge_tenant_resumes clears lists env fails tenant d :
  purgeable d = true ->
  let d1 := (PurgeTenant clears lists env fails tenant d).2 in
  (forall k r, users d !! k = Some r -> UserTenant r <> tenant -> users d1 !! k = Some r) /\
  exists d2, PurgeTenant true true willing no_failure tenant d1 = (Ok tt, d2) /\
    users d2 = users (PurgeTenant true true willing no_failure tenant d).2 /\
    (forall k r, users d2 !! k = Some r <-> users d !! k = Some r /\ UserTenant r <> tenant) /\
    tenants d2 = tenants d ∖ {[tenant]}.
Proof.
  intros Hp d1. pose proof (purge_tenant_shrinks clears lists env fails tenant d) as Hs.
  fold d1 in Hs. split.
  { intros k r Hk Ht. destruct (shrunk_users _ _ _ Hs k) as [->|(_ & r' & Hr & Ht')]; congruence. }
  destruct (willing_tenant tenant d Hp) as (d' & E & Hu & Ht).
  destruct (willing_tenant tenant d1) as (d2 & E2 & Hu2 & Ht2).
  { by rewrite (shrunk_purgeable _ _ _ Hs). }
  assert (users d2 = users d') as Huu.
  { apply map_eq. intros k. rewrite Hu, Hu2.
    destruct (shrunk_users _ _ _ Hs k) as [->|(-> & r & -> & <-)]; [done|]. cbn.
    by rewrite bool_decide_eq_true_2. }
  exists d2. split_and!; [done| |..].
  - by rewrite E.
  - intros k r. rewrite Huu, Hu. destruct (users d !! k) as [r'|]; cbn; [|naive_solver].
    case_bool_decide; naive_solver.
  - rewrite Ht2. destruct (shrunk_tenants _ _ _ Hs) as [->| ->]; set_solver.
Qed.

(** A wiped account keeps its status, so it stays due for a wipe. *)
Lemma wiped_accounts_stay_due t r : due t (wiped_user r) = due t r.
Proof. done. Qed.

(** * Examples *)

(** A message of [u] with an attachment, a file of [u], a contact of [v]. *)
#[local] Definition of_u (parents : list Key) : OwnedRow := mkOwned (bs "u") (Some (bs "t")) parents.
#[local] Definition demo_rows : gmap Key OwnedRow := {[
  ("messages"%string, bs "1") := of_u [("users"%string, bs "u")];
  ("attachments"%string, bs "2") := of_u [("messages"%string, bs "1")];
  ("drive_files"%string, bs "3") := of_u [("users"%string, bs "u")];
  ("contacts"%string, bs "4") := mkOwned (bs "v") (Some (bs "t")) [("users"%string, bs "v")] ]}.

#[local] Definition demo_full : Db :=
  mkDb demo_db demo_rows
    (list_to_set (tenantScoped ++ userScoped ++ ["kt_leaves"; "attachments"; "drive_files"]%string))
    {[bs "t"]}.

#[local] Lemma demo_complete : all_tables demo_full.
Proof.
  intros t Ht. apply elem_of_list_to_set. rewrite app_assoc. apply elem_of_app. by left.
Qed.

(** The attachment goes with the message; the file and the other account's
    contact stay. *)
Lemma tombstone_all_or_nothing_witness : exists d',
  TombstoneUser true no_failure true (bs "u") (bs "t") demo_full = (Ok tt, d') /\
  keys <$> users d' !! bs "u" = Some (mkKeys [] [] [] [] [] [] None None false None) /\
  rows d' !! ("attachments"%string, bs "2") = None /\
  is_Some (rows d' !! ("drive_files"%string, bs "3")) /\
  is_Some (rows d' !! ("contacts"%string, bs "4")).
Proof.
  pose proof (tombstone_all_or_nothing true no_failure true (bs "u") (bs "t") demo_full demo_complete) as H.
  assert (wipe_answered true no_failure true = true) as E by by vm_compute. rewrite E in H.
  destruct H as (d' & E' & _ & Hu & Hr & _). exists d'. split; [exact E'|]. split; [|split; [|split]].
  - destruct (Hu (bs "u") (plain_user "active" "mail" 0 None)) as (r' & Hr' & He & _); [vm_compute; reflexivity|].
    rewrite Hr'. cbn [fmap option_fmap option_map]. f_equal. apply (erased_keys _ _ (He (conj eq_refl eq_refl))).
  - destruct (rows d' !! ("attachments"%string, bs "2")) as [o|] eqn:Eo; [exfalso|reflexivity].
    apply Hr in Eo as [Eo Hn]. apply Hn.
    apply (doomed_along _ _ _ (of_u [("messages"%string, bs "1")]) ("messages"%string, bs "1")).
    + vm_compute. reflexivity.
    + by left.
    + apply doomed_itself. exists (of_u [("users"%string, bs "u")]). split; [vm_compute; reflexivity|].
      left. split; [by left|vm_compute; reflexivity].
  - replace d' with (TombstoneUser true no_failure true (bs "u") (bs "t") demo_full).2 by by rewrite E'.
    apply (bool_decide_unpack _). vm_compute. exact I.
  - replace d' with (TombstoneUser true no_failure true (bs "u") (bs "t") demo_full).2 by by rewrite E'.
    apply (bool_decide_unpack _). vm_compute. exact I.
Defined.

(** Without the table of webhooks the wipe stops. *)
Lemma wipe_without_webhooks :
  (TombstoneUser true no_failure true (bs "u") (bs "t")
     (mkDb demo_db demo_rows (installed demo_full ∖ {["webhooks"%string]}) {[bs "t"]})).1 = Err SqlAborted.
Proof. by vm_compute. Qed.

Lemma purge_tenant_resumes_witness :
  let fails t := String.eqb t "tenants" in
  let d1 := (PurgeTenant true true willing fails (bs "t") demo_full).2 in
  (forall k r, users demo_full !! k = Some r -> UserTenant r <> bs "t" -> users d1 !! k = Some r) /\
  exists d2, PurgeTenant true true willing no_failure (bs "t") d1
               = (Ok tt, d2) /\
    users d2 = users (PurgeTenant true true willing no_failure
                        (bs "t") demo_full).2 /\
    (forall k r, users d2 !! k = Some r <-> users demo_full !! k = Some r /\ UserTenant r <> bs "t") /\
    tenants d2 = tenants demo_full ∖ {[bs "t"]}.
Proof.
  intros fails d1.
  apply (purge_tenant_resumes true true willing fails (bs "t") demo_full).
  by vm_compute.
Defined.
