(* ===== verification/Sessions.v ===== *)
(** internal/storage/auth_store.go: sessions, the hashes of their tokens, and
    the backup email of an account.  Shown: bearer and refresh tokens never
    hash alike once a key is set; a session that was ended stays ended, and so
    do the old tokens of a rotated one, through any later calls; the purge of
    expired sessions is invisible to every lookup; a backup email verifies by
    the token last mailed to it, for a day, once. *)

From stdpp Require Import sorting.
From S2P Require Import Prelude Sql Account.

#[local] Open Scope Z_scope.

(** * Token hashes *)

Section hashes.
Context (hmac : bytes -> bytes -> bytes) (sha256 : bytes -> bytes).

(** [tokenHMACKey], nil until InitTokenHMACKey. *)
Definition InitTokenHMACKey (key : bytes) : option bytes := Some key.
Definition InitRefreshTokenKey (key : bytes) : option bytes := InitTokenHMACKey key.

Definition HashSessionToken (tokenHMACKey : option bytes) (token : bytes) : bytes :=
  match tokenHMACKey with
  | Some k => hmac k (bs "session:" ++ token)
  | None => sha256 token
  end.

Definition HashRefreshToken (tokenHMACKey : option bytes) (token : bytes) : bytes :=
  match tokenHMACKey with
  | Some k => hmac k (bs "refresh:" ++ token)
  | None => sha256 token
  end.

Lemma hashes_apart k t t' :
  (forall a b, hmac k a = hmac k b -> a = b) ->
  HashSessionToken (Some k) t <> HashRefreshToken (Some k) t'.
Proof. intros Hinj E. by apply Hinj in E. Qed.

Lemma hashes_meet_without_key t : HashSessionToken None t = HashRefreshToken None t.
Proof. done. Qed.

End hashes.

(** * Rows *)

Record Session := mkSession {
  UserID : UUID;
  SessionCreatedAt : Z;
  ExpiresAt : Z;
  RefreshExpiresAt : Z;
  RefreshTokenHash : bytes;
  TokenHash : option bytes
}.

Abbreviation Sessions := (gmap UUID Session) (only parsing).

(** A statement the database executes, or not. *)
Definition query {A : Type} (up : bool) (r : result serr A) : result serr A :=
  if up then r else Err SqlFailed.

Definition CreateSession (up : bool) (id : UUID) (s : Session) (db : Sessions) :
    result serr unit * Sessions :=
  if negb up then (Err SqlFailed, db)
  else match db !! id with
       | Some _ => (Err SqlUnique, db)
       | None => (Ok tt, <[id := s]> db)
       end.

(** [COALESCE(token_hash, ''::bytea)]. *)
Definition scanned (kr : UUID * Session) : UUID * Session :=
  (kr.1, mkSession (UserID kr.2) (SessionCreatedAt kr.2) (ExpiresAt kr.2) (RefreshExpiresAt kr.2)
           (RefreshTokenHash kr.2) (Some (default [] (TokenHash kr.2)))).

(** [QueryRow]: the first of the rows. *)
Definition one_row (P : UUID -> Session -> bool) (db : Sessions) : result serr (UUID * Session) :=
  of_option SqlNoRows (head (map_to_list (select_where P db))).

Definition by_session (now : Z) (id : UUID) (k : UUID) (s : Session) : bool :=
  bool_decide (k = id) && (now <? ExpiresAt s).
Definition by_token (now : Z) (hash : bytes) (_ : UUID) (s : Session) : bool :=
  bool_decide (TokenHash s = Some hash) && (now <? ExpiresAt s).
Definition by_refresh (now : Z) (hash : bytes) (_ : UUID) (s : Session) : bool :=
  bool_decide (RefreshTokenHash s = hash) && (now <? RefreshExpiresAt s).
Definition of_user (now : Z) (u : UUID) (_ : UUID) (s : Session) : bool :=
  bool_decide (UserID s = u) && (now <? RefreshExpiresAt s).

Definition GetSession (up : bool) (now : Z) (id : UUID) (db : Sessions) :
    result serr (UUID * Session) := query up (r ← one_row (by_session now id) db; Ok (scanned r)).

Definition GetSessionByTokenHash (up : bool) (now : Z) (hash : bytes) (db : Sessions) :
    result serr (UUID * Session) := query up (one_row (by_token now hash) db).

Definition GetSessionByRefreshHash (up : bool) (now : Z) (hash : bytes) (db : Sessions) :
    result serr (UUID * Session) := query up (r ← one_row (by_refresh now hash) db; Ok (scanned r)).

(** [ORDER BY created_at DESC]. *)
Definition newest_first (a b : UUID * Session) : Prop := SessionCreatedAt b.2 <= SessionCreatedAt a.2.

#[export] Instance newest_first_dec : RelDecision newest_first.
Proof. intros a b. unfold newest_first. apply _. Defined.

Definition ListSessions (up : bool) (now : Z) (u : UUID) (db : Sessions) :
    result serr (list (UUID * Session)) :=
  query up (Ok (map scanned (merge_sort newest_first (map_to_list (select_where (of_user now u) db))))).

(** ** Ending sessions *)

Definition DeleteSession (up : bool) (id : UUID) (db : Sessions) : result serr unit * Sessions :=
  if negb up then (Err SqlFailed, db)
  else match db !! id with
       | None => (Err SqlNoRows, db)
       | Some _ => (Ok tt, delete id db)
       end.

Definition DeleteSessionsExcept (up : bool) (u except : UUID) (db : Sessions) :
    result serr unit * Sessions :=
  if up then (Ok tt, delete_where (fun k s => bool_decide (UserID s = u) && bool_decide (k <> except)) db)
  else (Err SqlFailed, db).

Definition DeleteAllSessions (up : bool) (u : UUID) (db : Sessions) : result serr unit * Sessions :=
  if up then (Ok tt, delete_where (fun _ s => bool_decide (UserID s = u)) db) else (Err SqlFailed, db).

Definition expired (now : Z) (_ : UUID) (s : Session) : bool := RefreshExpiresAt s <? now.

Definition PurgeExpiredSessions (up : bool) (now : Z) (db : Sessions) : result serr nat * Sessions :=
  if up then (Ok (affected (expired now) db), delete_where (expired now) db) else (Err SqlFailed, db).

(** [acquired]: [None] when the lock query fails. *)
Definition PurgeExpiredSessionsWithLock (begins : bool) (acquired : option bool)
    (up commits : bool) (now : Z) (db : Sessions) : result serr nat * Sessions :=
  if negb begins then (Err SqlFailed, db)
  else match acquired with
       | None => (Err SqlFailed, db)
       | Some false => (Ok 0%nat, db)
       | Some true =>
           if negb up then (Err SqlFailed, db)
           else if negb commits then (Err SqlFailed, db)
           else (Ok (affected (expired now) db), delete_where (expired now) db)
       end.

(** ** Refreshing *)

Definition update_session (up : bool) (id : UUID) (f : Session -> Session) (db : Sessions) :
    result serr unit * Sessions :=
  if negb up then (Err SqlFailed, db)
  else match db !! id with
       | None => (Err SqlNoRows, db)
       | Some s => (Ok tt, <[id := f s]> db)
       end.

Definition UpdateSessionRefresh (up : bool) (id : UUID) (expiresAt refreshExpiresAt : Z)
    (newRefreshHash : bytes) : Sessions -> result serr unit * Sessions :=
  update_session up id (fun s =>
    mkSession (UserID s) (SessionCreatedAt s) expiresAt refreshExpiresAt newRefreshHash (TokenHash s)).

Definition UpdateSessionRefreshAndToken (up : bool) (id : UUID) (expiresAt refreshExpiresAt : Z)
    (newRefreshHash newTokenHash : bytes) : Sessions -> result serr unit * Sessions :=
  update_session up id (fun s =>
    mkSession (UserID s) (SessionCreatedAt s) expiresAt refreshExpiresAt newRefreshHash
      (Some newTokenHash)).

(** [RequireTokenHMACKey]: whether startup goes on. *)
Definition RequireTokenHMACKey (VP_ENV : string) (tokenHMACKey : option bytes) : bool :=
  negb (String.eqb VP_ENV "production" && bool_decide (tokenHMACKey = None)).

(** * Histories *)

Inductive sop :=
| SCreate (id : UUID) (s : Session)
| SDelete (id : UUID)
| SDeleteExcept (u except : UUID)
| SDeleteAll (u : UUID)
| SPurge
| SPurgeLock (begins : bool) (acquired : option bool) (commits : bool)
| SRefresh (id : UUID) (exp refexp : Z) (rh : bytes)
| SRotate (id : UUID) (exp refexp : Z) (rh th : bytes).

Record sevent := mkSEvent { s_at : Z; s_up : bool; s_op : sop }.

Definition sapply (e : sevent) (db : Sessions) : Sessions :=
  match s_op e with
  | SCreate id s => (CreateSession (s_up e) id s db).2
  | SDelete id => (DeleteSession (s_up e) id db).2
  | SDeleteExcept u x => (DeleteSessionsExcept (s_up e) u x db).2
  | SDeleteAll u => (DeleteAllSessions (s_up e) u db).2
  | SPurge => (PurgeExpiredSessions (s_up e) (s_at e) db).2
  | SPurgeLock b a c => (PurgeExpiredSessionsWithLock b a (s_up e) c (s_at e) db).2
  | SRefresh id x r rh => (UpdateSessionRefresh (s_up e) id x r rh db).2
  | SRotate id x r rh th => (UpdateSessionRefreshAndToken (s_up e) id x r rh th db).2
  end.

Definition srun (evs : list sevent) (db : Sessions) : Sessions :=
  foldl (fun db e => sapply e db) db evs.

(** ** Lookups *)

Implicit Types (now later : Z) (k u : UUID) (s : Session) (h : bytes) (hs : gset (list byte))
  (db : Sessions) (evs : list sevent) (e : sevent).

Lemma one_row_ok (P : UUID -> Session -> bool) (db : Sessions) r :
  one_row P db = Ok r -> db !! r.1 = Some r.2 /\ P r.1 r.2 = true.
Proof.
  unfold one_row. rewrite of_option_ok. apply head_selected.
Qed.

Lemma one_row_none (P : UUID -> Session -> bool) (db : Sessions) :
  (forall k s, db !! k = Some s -> P k s = false) -> one_row P db = Err SqlNoRows.
Proof.
  intros H. destruct (one_row P db) as [r|e] eqn:E.
  - apply one_row_ok in E as [E Hp]. by rewrite (H _ _ E) in Hp.
  - unfold one_row, of_option in E. destruct (head _); [discriminate|by injection E as <-].
Qed.

(** Two stores with the same rows selected answer alike. *)
Lemma select_ext (P : UUID -> Session -> bool) (db db' : Sessions) :
  (forall k s, P k s = true -> (db !! k = Some s <-> db' !! k = Some s)) ->
  select_where P db = select_where P db'.
Proof.
  intros H. apply map_eq. intros k. apply option_eq. intros s.
  rewrite !lookup_select_where. split; intros [Hk Hp]; split; try done; by apply (H k s Hp).
Qed.

Lemma one_row_ext (P : UUID -> Session -> bool) (db db' : Sessions) :
  (forall k s, P k s = true -> (db !! k = Some s <-> db' !! k = Some s)) ->
  one_row P db = one_row P db'.
Proof. intros H. unfold one_row. by rewrite (select_ext P db db'). Qed.

(** ** The purge *)

(** The window of the bearer token lies within that of the refresh token. *)
Definition nested (db : Sessions) : Prop :=
  forall k s, db !! k = Some s -> ExpiresAt s <= RefreshExpiresAt s.

Lemma unexpired_kept now (k : UUID) (s : Session) (db : Sessions) :
  now <= RefreshExpiresAt s ->
  (delete_where (expired now) db !! k = Some s <-> db !! k = Some s).
Proof.
  intros H. rewrite lookup_delete_where. unfold expired. rewrite Z.ltb_ge. tauto.
Qed.

(** The purge of expired sessions cannot be told from outside: at its time
    and later, finding a session by its id, by its bearer token or by its
    refresh token, and listing the sessions of a user, give the same answers
    after PurgeExpiredSessions as without it, as long as no bearer token
    outlives its refresh token; and under the lock it removes the same rows or
    none. *)
Theorem purge_unobservable up now later db :
  nested db -> now <= later ->
  let db' := (PurgeExpiredSessions up now db).2 in
  (forall id, GetSession true later id db' = GetSession true later id db) /\
  (forall h, GetSessionByTokenHash true later h db' = GetSessionByTokenHash true later h db) /\
  (forall h, GetSessionByRefreshHash true later h db' = GetSessionByRefreshHash true later h db) /\
  (forall u, ListSessions true later u db' = ListSessions true later u db) /\
  forall b a c, let d := (PurgeExpiredSessionsWithLock b a up c now db).2 in d = db \/ d = db'.
Proof.
  intros Hn Hle db'. assert (forall k s, later < RefreshExpiresAt s \/ later < ExpiresAt s ->
    (db' !! k = Some s <-> db !! k = Some s)) as He.
  { intros k s Hs. unfold db', PurgeExpiredSessions. destruct up; [|done]. cbn [snd].
    split; [by intros [? _]%lookup_delete_where|]. intros Hk. apply unexpired_kept; [|done].
    specialize (Hn k s Hk). lia. }
  split_and!.
  - intros id. unfold GetSession. rewrite (one_row_ext _ db' db); [done|].
    intros k s [_ Hp]%andb_true_iff. apply He. lia.
  - intros h. unfold GetSessionByTokenHash. rewrite (one_row_ext _ db' db); [done|].
    intros k s [_ Hp]%andb_true_iff. apply He. lia.
  - intros h. unfold GetSessionByRefreshHash. rewrite (one_row_ext _ db' db); [done|].
    intros k s [_ Hp]%andb_true_iff. apply He. lia.
  - intros u. unfold ListSessions. rewrite (select_ext _ db' db); [done|].
    intros k s [_ Hp]%andb_true_iff. apply He. lia.
  - intros b a c. unfold db', PurgeExpiredSessionsWithLock, PurgeExpiredSessions.
    destruct b, a as [[]|], up, c; cbn; auto.
Qed.

(** ** Ended sessions, rotated tokens *)

(** A call that does not bring session [k] about, nor hand out the hashes in
    [dead]. *)
Definition foreign (k : UUID) (e : sevent) : Prop :=
  match s_op e with SCreate id _ => id <> k | _ => True end.

Definition avoids (hs : gset (list byte)) (e : sevent) : Prop :=
  match s_op e with
  | SCreate _ s => (RefreshTokenHash s ∉ hs) /\ (forall h, TokenHash s = Some h -> h ∉ hs)
  | SRefresh _ _ _ rh => rh ∉ hs
  | SRotate _ _ _ rh th => (rh ∉ hs) /\ (th ∉ hs)
  | _ => True
  end.

(** What a row is after a call: itself, or refreshed, or new. *)
Lemma sapply_row e db (k : UUID) (s : Session) :
  sapply e db !! k = Some s ->
  db !! k = Some s \/
  (exists s0, db !! k = Some s0 /\
     ((exists x r rh, s_op e = SRefresh k x r rh /\
         s = mkSession (UserID s0) (SessionCreatedAt s0) x r rh (TokenHash s0)) \/
      (exists x r rh th, s_op e = SRotate k x r rh th /\
         s = mkSession (UserID s0) (SessionCreatedAt s0) x r rh (Some th)))) \/
  (s_op e = SCreate k s /\ db !! k = None).
Proof.
  assert (forall P, delete_where P db !! k = Some s -> db !! k = Some s) as Hdel
    by (intros P [? _]%lookup_delete_where; done).
  destruct e as [now up o]. unfold sapply. cbn [s_op s_up s_at].
  destruct o; intros H.
  - unfold CreateSession in H. destruct up; [|by left]. cbn [negb] in H.
    destruct (db !! id) eqn:E; [by left|]. cbn in H.
    apply lookup_insert_Some in H as [[<- <-]|[_ H]]; [by right; right|by left].
  - unfold DeleteSession in H. destruct up; [|by left]. cbn [negb] in H.
    destruct (db !! id); [|by left]. cbn in H. apply lookup_delete_Some in H as [_ H]. by left.
  - unfold DeleteSessionsExcept in H. destruct up; left; first [exact H|exact (Hdel _ H)].
  - unfold DeleteAllSessions in H. destruct up; left; first [exact H|exact (Hdel _ H)].
  - unfold PurgeExpiredSessions in H. destruct up; left; first [exact H|exact (Hdel _ H)].
  - unfold PurgeExpiredSessionsWithLock in H.
    destruct begins, acquired as [[]|], up, commits; left; first [exact H|exact (Hdel _ H)].
  - unfold UpdateSessionRefresh, update_session in H. destruct up; [|by left]. cbn [negb] in H.
    destruct (db !! id) as [s0|] eqn:E; [|by left]. cbn in H.
    apply lookup_insert_Some in H as [[<- <-]|[_ H]]; [|by left].
    right. left. exists s0. split; [done|]. left. by eexists _, _, _.
  - unfold UpdateSessionRefreshAndToken, update_session in H. destruct up; [|by left].
    cbn [negb] in H. destruct (db !! id) as [s0|] eqn:E; [|by left]. cbn in H.
    apply lookup_insert_Some in H as [[<- <-]|[_ H]]; [|by left].
    right. left. exists s0. split; [done|]. right. by eexists _, _, _, _.
Qed.

Lemma absent_stays k evs db :
  db !! k = None -> Forall (foreign k) evs -> srun evs db !! k = None.
Proof.
  intros Hk Hf. revert db Hk. induction Hf as [|e evs He _ IH]; intros db Hk; [done|].
  apply IH. destruct (sapply e db !! k) as [s|] eqn:E; [|done].
  destruct (sapply_row _ _ _ _ E) as [?|[(s0 & ? & _)|[Hc _]]]; [congruence..|].
  unfold foreign in He. rewrite Hc in He. done.
Qed.

(** No row carries one of the hashes. *)
Definition clean (hs : gset (list byte)) (db : Sessions) : Prop :=
  forall k s, db !! k = Some s ->
    (RefreshTokenHash s ∉ hs) /\ forall h, TokenHash s = Some h -> h ∉ hs.

Lemma clean_stays hs evs db : clean hs db -> Forall (avoids hs) evs -> clean hs (srun evs db).
Proof.
  intros Hc Hf. revert db Hc. induction Hf as [|e evs He _ IH]; intros db Hc; [done|].
  apply IH. intros k s E. unfold avoids in He.
  destruct (sapply_row _ _ _ _ E) as [H|[(s0 & H & [(x & r & rh & Ho & ->)|(x & r & rh & th & Ho & ->)])|[Ho _]]].
  - by apply (Hc k).
  - rewrite Ho in He. cbn. split; [done|]. by apply (Hc k).
  - rewrite Ho in He. cbn. split; [tauto|]. intros h [= <-]. tauto.
  - by rewrite Ho in He.
Qed.

Lemma clean_finds_nothing hs now h db :
  clean hs db -> h ∈ hs ->
  GetSessionByTokenHash true now h db = Err SqlNoRows /\
  GetSessionByRefreshHash true now h db = Err SqlNoRows.
Proof.
  intros Hc Hh. unfold GetSessionByTokenHash, GetSessionByRefreshHash, query. split.
  - apply one_row_none. intros k s Hk. unfold by_token. destruct (Hc k s Hk) as [_ Ht].
    rewrite bool_decide_eq_false_2; [done|]. intros E. by apply Ht in E.
  - rewrite one_row_none; [done|]. intros k s Hk. unfold by_refresh. destruct (Hc k s Hk) as [Hr _].
    rewrite bool_decide_eq_false_2; [done|]. intros E; by rewrite E in Hr.
Qed.

(** The hashes of a row. *)
Definition row_hashes (s : Session) : gset (list byte) :=
  {[RefreshTokenHash s]} ∪ match TokenHash s with Some h => {[h]} | None => ∅ end.

(** Hashes are of random tokens: no two rows share one. *)
Definition distinct_hashes (db : Sessions) : Prop :=
  forall k1 k2 s1 s2, db !! k1 = Some s1 -> db !! k2 = Some s2 -> k1 <> k2 ->
    row_hashes s1 ## row_hashes s2.

Lemma clean_hashes hs db :
  (forall k s, db !! k = Some s -> row_hashes s ## hs) -> clean hs db.
Proof.
  intros H k s Hk. specialize (H k s Hk). unfold row_hashes in H. split; [set_solver|].
  intros h E. rewrite E in H. set_solver.
Qed.

(** C27. What is revoked stays revoked: when a session is deleted by its id,
    by the logout of its user everywhere, or everywhere but at another session,
    then through any later calls, with any of them failing, that never hand
    out its old hashes again, neither of its tokens finds a session; and as
    long as its id is not created anew, neither does the id. *)
Theorem revoked_stays_revoked db k s o evs now :
  distinct_hashes db -> db !! k = Some s ->
  o = SDelete k \/ o = SDeleteAll (UserID s) \/
    (exists x, x <> k /\ o = SDeleteExcept (UserID s) x) ->
  Forall (avoids (row_hashes s)) evs ->
  let db' := srun evs (sapply (mkSEvent now true o) db) in
  (forall later h, h ∈ row_hashes s ->
     GetSessionByTokenHash true later h db' = Err SqlNoRows /\
     GetSessionByRefreshHash true later h db' = Err SqlNoRows) /\
  (Forall (foreign k) evs -> forall later, GetSession true later k db' = Err SqlNoRows).
Proof.
  intros Hd Hk Ho Hev db'.
  assert (forall k' s', sapply (mkSEvent now true o) db !! k' = Some s' ->
            db !! k' = Some s' /\ k' <> k) as Hrest.
  { intros k' s' H. unfold sapply in H. cbn [s_op s_up s_at] in H.
    destruct Ho as [->|[->|(x & Hx & ->)]].
    - unfold DeleteSession in H. cbn [negb] in H. rewrite Hk in H. cbn in H.
      apply lookup_delete_Some in H as [? ?]. by split.
    - apply lookup_delete_where in H as [H Hp]. apply bool_decide_eq_false in Hp.
      split; [done|]. intros ->. congruence.
    - apply lookup_delete_where in H as [H Hp]. split; [done|]. intros ->.
      rewrite Hk in H. injection H as <-.
      by rewrite !bool_decide_eq_true_2 in Hp by done. }
  split.
  - intros later h Hh. eapply clean_finds_nothing, Hh. apply clean_stays; [|done].
    apply clean_hashes. intros k' s' H. apply Hrest in H as [H Hne]. by eapply Hd.
  - intros Hf later. unfold GetSession, query. rewrite one_row_none; [done|].
    intros k' s' H'. unfold by_session. destruct (decide (k' = k)) as [->|Hne];
      [|by rewrite bool_decide_eq_false_2].
    exfalso. enough (db' !! k = None) by congruence. apply absent_stays; [|done].
    destruct (sapply _ db !! k) as [s0|] eqn:E; [|done]. by apply Hrest in E as [_ ?].
Qed.

(** A rotated session answers to its new tokens only: after the round
    trip of a refresh, the new bearer token and the new refresh token find the
    session until their times, and the old ones find nothing, through any
    later calls that do not hand them out again. *)
Theorem rotation_kills_old_tokens db k s x r rh th now evs :
  distinct_hashes db -> db !! k = Some s ->
  rh ∉ row_hashes s -> th ∉ row_hashes s ->
  (forall k' s', db !! k' = Some s' -> k' <> k ->
     (rh ∉ row_hashes s') /\ (th ∉ row_hashes s')) ->
  Forall (avoids (row_hashes s)) evs ->
  let db1 := (UpdateSessionRefreshAndToken true k x r rh th db).2 in
  (forall later, later < x -> exists s', GetSessionByTokenHash true later th db1 = Ok (k, s')) /\
  (forall later, later < r -> exists s', GetSessionByRefreshHash true later rh db1 = Ok (k, s')) /\
  (forall later h, h ∈ row_hashes s ->
     GetSessionByTokenHash true later h (srun evs db1) = Err SqlNoRows /\
     GetSessionByRefreshHash true later h (srun evs db1) = Err SqlNoRows).
Proof.
  intros Hd Hk Hr Ht Hfresh Hev db1.
  set (s1 := mkSession (UserID s) (SessionCreatedAt s) x r rh (Some th)).
  assert (db1 = <[k := s1]> db) as E1.
  { unfold db1, UpdateSessionRefreshAndToken, update_session. cbn. by rewrite Hk. }
  assert (forall (P : UUID -> Session -> bool), P k s1 = true ->
    (forall k' s', db !! k' = Some s' -> k' <> k -> P k' s' = false) ->
    one_row P db1 = Ok (k, s1)) as Hone.
  { intros P Hp Hn. unfold one_row. apply of_option_ok.
    assert (select_where P db1 = {[k := s1]}) as ->; [|by rewrite map_to_list_singleton].
    apply map_eq. intros k'. apply option_eq. intros s'. rewrite lookup_select_where, E1.
    rewrite lookup_insert_Some, lookup_singleton_Some. split.
    - intros [[[-> ->]|[Hne Hs']] Hp']; [done|]. by rewrite Hn in Hp' by (done || congruence).
    - intros [-> ->]. split; [by left|done]. }
  split_and!.
  - intros later Hl. exists s1. unfold GetSessionByTokenHash, query. apply Hone.
    + unfold by_token. cbn. rewrite bool_decide_eq_true_2 by done. by apply Z.ltb_lt.
    + intros k' s' Hk' Hne. unfold by_token. destruct (Hfresh _ _ Hk' Hne) as [_ Hth].
      rewrite bool_decide_eq_false_2; [done|]. intros E. apply Hth. unfold row_hashes. rewrite E.
      set_solver.
  - intros later Hl. eexists. unfold GetSessionByRefreshHash, query. rewrite Hone; [reflexivity|..].
    + unfold by_refresh. cbn. rewrite bool_decide_eq_true_2 by done. by apply Z.ltb_lt.
    + intros k' s' Hk' Hne. unfold by_refresh. destruct (Hfresh _ _ Hk' Hne) as [Hrh _].
      rewrite bool_decide_eq_false_2; [done|]. intros E. apply Hrh. unfold row_hashes. set_solver.
  - intros later h Hh. eapply clean_finds_nothing, Hh. apply clean_stays; [|done].
    apply clean_hashes. rewrite E1. intros k' s' [[<- <-]|[Hne Hk']]%lookup_insert_Some.
    + unfold row_hashes at 1. cbn. set_solver.
    + eapply Hd; [exact Hk'|exact Hk|done].
Qed.

(** ** Examples *)

Definition session_db : gmap (list byte) Session :=
  {[bs "s1" := mkSession (bs "u") 0 100 1000 (bs "r1") (Some (bs "t1"));
    bs "s2" := mkSession (bs "u") 5 105 1005 (bs "r2") (Some (bs "t2"))]}.

Lemma session_db_rows k s : session_db !! k = Some s ->
  k = bs "s1" /\ s = mkSession (bs "u") 0 100 1000 (bs "r1") (Some (bs "t1")) \/
  k = bs "s2" /\ s = mkSession (bs "u") 5 105 1005 (bs "r2") (Some (bs "t2")).
Proof.
  unfold session_db.
  intros [[<- <-]|[_ [<- <-]%lookup_singleton_Some]]%lookup_insert_Some; auto.
Qed.

Lemma session_db_distinct : distinct_hashes session_db.
Proof.
  intros k1 k2 s1 s2 H1 H2 Hne.
  destruct (session_db_rows _ _ H1) as [[-> ->]|[-> ->]],
    (session_db_rows _ _ H2) as [[-> ->]|[-> ->]]; try done;
    apply (bool_decide_unpack _); by vm_compute.
Qed.

Lemma purge_unobservable_witness :
  nested session_db /\
  ListSessions true 1003 (bs "u") (PurgeExpiredSessions true 1002 session_db).2 =
  ListSessions true 1003 (bs "u") session_db.
Proof.
  assert (nested session_db) as Hn.
  { intros k s H. destruct (session_db_rows _ _ H) as [[_ ->]|[_ ->]]; cbn; lia. }
  split; [exact Hn|].
  apply (purge_unobservable true 1002 1003 session_db); [exact Hn|lia].
Defined.

Lemma revoked_stays_revoked_witness :
  let evs := [mkSEvent 7 true (SRefresh (bs "s1") 200 2000 (bs "r3"));
              mkSEvent 8 true (SCreate (bs "s3") (mkSession (bs "u") 8 108 1008 (bs "r4") None))] in
  let db' := srun evs (sapply (mkSEvent 6 true (SDeleteExcept (bs "u") (bs "s2"))) session_db) in
  GetSessionByRefreshHash true 9 (bs "r1") db' = Err SqlNoRows.
Proof.
  intros evs db'.
  apply (revoked_stays_revoked session_db (bs "s1")
    (mkSession (bs "u") 0 100 1000 (bs "r1") (Some (bs "t1"))) (SDeleteExcept (bs "u") (bs "s2"))
    evs 6); [exact session_db_distinct|by vm_compute|right; right; by exists (bs "s2")| |].
  - apply Forall_cons. split; [|apply Forall_cons; split; [|done]].
    + apply (bool_decide_unpack _). by vm_compute.
    + split; [apply (bool_decide_unpack _); by vm_compute|]. cbn. done.
  - apply (bool_decide_unpack _). by vm_compute.
Defined.

Lemma rotation_kills_old_tokens_witness :
  GetSessionByTokenHash true 9 (bs "t1")
    (srun [] (UpdateSessionRefreshAndToken true (bs "s1") 200 2000 (bs "r3") (bs "t3") session_db).2)
  = Err SqlNoRows.
Proof.
  apply (rotation_kills_old_tokens session_db (bs "s1")
    (mkSession (bs "u") 0 100 1000 (bs "r1") (Some (bs "t1"))) 200 2000 (bs "r3") (bs "t3") 6 []);
    [exact session_db_distinct|by vm_compute|apply (bool_decide_unpack _); by vm_compute..| | |].
  - intros k s H Hne. destruct (session_db_rows _ _ H) as [[-> _]|[-> ->]]; [done|].
    split; apply (bool_decide_unpack _); by vm_compute.
  - done.
  - apply (bool_decide_unpack _). by vm_compute.
Defined.

(** * The backup email *)

Record Settings := mkSettings {
  backup_email : option bytes;
  backup_email_verified : bool;
  backup_email_token : option bytes;
  backup_email_token_expires : option Z
}.

Abbreviation SettingsTable := (gmap UUID Settings) (only parsing).

Definition GetBackupEmail (up : bool) (u : UUID) (db : SettingsTable) : result serr (bytes * bool) :=
  query up (Ok match db !! u with
               | None => ([], false)
               | Some r => (default [] (backup_email r), backup_email_verified r)
               end).

(** INSERT ... ON CONFLICT DO UPDATE: the row is the same either way, in these
    columns. *)
Definition SetBackupEmail (up : bool) (now : Z) (u : UUID) (email token : bytes)
    (db : SettingsTable) : result serr unit * SettingsTable :=
  if up then (Ok tt, <[u := mkSettings (Some email) false (Some token) (Some (now + 24 * hour))]> db)
  else (Err SqlFailed, db).

Definition token_matches (now : Z) (token : bytes) (_ : UUID) (r : Settings) : bool :=
  bool_decide (backup_email_token r = Some token) && sql_lt (Some now) (backup_email_token_expires r).

(** [UPDATE ... RETURNING user_id]: all the rows, the first one's owner. *)
Definition VerifyBackupEmail (up : bool) (now : Z) (token : bytes) (db : SettingsTable) :
    result serr UUID * SettingsTable :=
  if negb up then (Err SqlFailed, db)
  else (of_option SqlNoRows (fst <$> head (map_to_list (select_where (token_matches now token) db))),
        update_where (token_matches now token)
          (fun r => mkSettings (backup_email r) true None None) db).

(** [addresses]: the address column of users. *)
Definition GetUserByVerifiedBackupEmail (up : bool) (addresses : gmap UUID bytes) (address : bytes)
    (db : SettingsTable) : result serr UUID :=
  query up (of_option SqlNoRows (fst <$> head (map_to_list (select_where (fun u r =>
    bool_decide (addresses !! u = Some address) && backup_email_verified r &&
    bool_decide (default [] (backup_email r) <> [])) db)))).

Inductive bop := BSet (u : UUID) (email token : bytes) | BVerify (token : bytes).

Record bevent := mkBEvent { b_at : Z; b_up : bool; b_op : bop }.

Definition bapply (e : bevent) (db : SettingsTable) : SettingsTable :=
  match b_op e with
  | BSet u m t => (SetBackupEmail (b_up e) (b_at e) u m t db).2
  | BVerify t => (VerifyBackupEmail (b_up e) (b_at e) t db).2
  end.

Definition brun (evs : list bevent) (db : SettingsTable) : SettingsTable :=
  foldl (fun (db : SettingsTable) (e : bevent) => bapply e db) db evs.

Definition sets_for (u : UUID) (e : bevent) : Prop :=
  b_up e = true /\ match b_op e with BSet v _ _ => v = u | _ => False end.

(** Where the row of [u] comes from. *)
Definition mailed (u : UUID) (evs : list bevent) (r : Settings) : Prop :=
  exists (evs1 : list bevent) t m token (evs2 : list bevent), evs = evs1 ++ mkBEvent t true (BSet u m token) :: evs2 /\
    Forall (fun e : bevent => ~ sets_for u e) evs2 /\ backup_email r = Some m /\
    (backup_email_token r = Some token /\ backup_email_token_expires r = Some (t + 24 * hour) /\
       backup_email_verified r = false \/
     backup_email_token r = None /\
       exists t', mkBEvent t' true (BVerify token) ∈ evs2 /\ t' < t + 24 * hour).

Lemma brun_app (evs : list bevent) (e : bevent) (db : SettingsTable) : brun (evs ++ [e]) db = bapply e (brun evs db).
Proof. unfold brun. by rewrite foldl_app. Qed.

Lemma brun_mailed (evs : list bevent) u r : brun evs ∅ !! u = Some r -> mailed u evs r.
Proof.
  revert r. induction evs as [|e evs IH] using rev_ind; intros r; [done|].
  rewrite brun_app. destruct e as [now up o]. unfold bapply. cbn [b_op b_up b_at].
  assert (forall r, brun evs ∅ !! u = Some r -> ~ sets_for u (mkBEvent now up o) ->
            mailed u (evs ++ [mkBEvent now up o]) r) as Hsame.
  { intros r' Hr' Hn. destruct (IH r' Hr') as (evs1 & t & m & tok & evs2 & -> & Hf & Hm & Hc).
    exists evs1, t, m, tok, (evs2 ++ [mkBEvent now up o]). rewrite <-app_assoc.
    split_and!; [done|apply Forall_app; auto|done|]. destruct Hc as [?|(? & t' & ? & ?)]; [by left|].
    right. split; [done|]. exists t'. split; [apply elem_of_app; by left|done]. }
  destruct up; [|destruct o; intros H; apply Hsame; try exact H; by intros [? _]].
  destruct o as [v m tok|tok]; cbn.
  - intros [[<- <-]|[Hne H]]%lookup_insert_Some.
    + exists evs, now, m, tok, []. split_and!; try done. by left.
    + apply Hsame; [done|]. by intros [_ ?].
  - rewrite lookup_update_where. destruct (brun evs ∅ !! u) as [r0|] eqn:E; [|done].
    cbn. intros [= <-]. assert (~ sets_for u (mkBEvent now true (BVerify tok))) as Hn by by intros [_ ?].
    destruct (token_matches now tok u r0) eqn:Et; [|by apply Hsame].
    destruct (Hsame r0 eq_refl Hn) as (evs1 & t & m & tok' & evs2 & Heq & Hf & Hm & Hc).
    apply andb_true_iff in Et as [Et%bool_decide_eq_true Ee].
    destruct Hc as [(H1 & H2 & _)|(H1 & _)]; [|congruence].
    rewrite Et in H1. injection H1 as <-. rewrite H2 in Ee. apply Z.ltb_lt in Ee.
    exists evs1, t, m, tok, evs2. split_and!; [done..|]. right. split; [done|]. exists now.
    split; [|done].
    assert (mkBEvent now true (BVerify tok) ∈ evs1 ++ mkBEvent t true (BSet u m tok) :: evs2) as Hin
      by (rewrite <-Heq; apply elem_of_app; right; by left).
    destruct evs2 as [|e2 evs2 _] using rev_ind.
    + apply app_inj_tail in Heq as [_ Heq]. discriminate.
    + replace (evs1 ++ mkBEvent t true (BSet u m tok) :: evs2 ++ [e2])
        with ((evs1 ++ mkBEvent t true (BSet u m tok) :: evs2) ++ [e2]) in Heq
        by by rewrite <-app_assoc.
      apply app_inj_tail in Heq as [_ <-]. apply elem_of_app. right. by left.
Qed.

(** A backup email counts as verified only by the token last mailed to it:
    after any history of calls, an account whose backup email is verified has
    as its email the one of the last successful SetBackupEmail for it, and
    after that call, within 24 hours of it, VerifyBackupEmail was called with
    the token of that call. *)
Theorem verified_email_was_mailed (evs : list bevent) u m :
  GetBackupEmail true u (brun evs ∅) = Ok (m, true) ->
  exists (evs1 : list bevent) t token (evs2 : list bevent), evs = evs1 ++ mkBEvent t true (BSet u m token) :: evs2 /\
    Forall (fun e : bevent => ~ sets_for u e) evs2 /\
    exists t', mkBEvent t' true (BVerify token) ∈ evs2 /\ t' < t + 24 * hour.
Proof.
  unfold GetBackupEmail, query. destruct (brun evs ∅ !! u) as [r|] eqn:E; [|by intros [= _]].
  intros [= <- Hv]. destruct (brun_mailed _ _ _ E) as (evs1 & t & m & tok & evs2 & -> & Hf & Hm & Hc).
  rewrite Hm. cbn. exists evs1, t, tok, evs2. split_and!; [done..|].
  destruct Hc as [(_ & _ & Hn)|(_ & H)]; [congruence|exact H].
Qed.

Definition mail_history : list bevent :=
  [mkBEvent 0 true (BSet (bs "u") (bs "old@x") (bs "tok1"));
   mkBEvent hour true (BSet (bs "u") (bs "new@x") (bs "tok2"));
   mkBEvent (2 * hour) true (BVerify (bs "tok1")); mkBEvent (3 * hour) true (BVerify (bs "tok2"))].

Lemma verified_email_was_mailed_witness :
  GetBackupEmail true (bs "u") (brun (take 3 mail_history) ∅) = Ok (bs "new@x", false) /\
  exists (evs1 : list bevent) t token (evs2 : list bevent),
    mail_history = evs1 ++ mkBEvent t true (BSet (bs "u") (bs "new@x") token) :: evs2 /\
    Forall (fun e : bevent => ~ sets_for (bs "u") e) evs2 /\
    exists t', mkBEvent t' true (BVerify token) ∈ evs2 /\ t' < t + 24 * hour.
Proof.
  split; [by vm_compute|]. apply (verified_email_was_mailed mail_history (bs "u") (bs "new@x")).
  by vm_compute.
Defined.
