(* ===== verification/GroupStore.v ===== *)
(** internal/storage/group_store.go: private groups, their members' wrapped
    keys, and the archive of superseded keys.  Shown: a rotation archives every
    key that was handed out and nothing but deleting the group ever loses one;
    a group is being rotated exactly when someone is named to finish; an epoch
    whose key was not handed out before the next rotation is lost for good; and
    a key that arrives late is stored as the current one. *)

From S2P Require Import Prelude Sql.

#[local] Open Scope Z_scope.

Abbreviation UUID := (list byte) (only parsing).

(** * Rows *)

Record Group := mkGroup {
  TenantID : UUID;
  Address : bytes;
  PublicKeyX25519 : bytes;
  PublicKeyKEM : bytes;
  KTEpoch : Z;
  KeyEpoch : Z;
  PendingKeygenUserID : option UUID;
  Status : string;
  PostingPolicy : string
}.

(** A wrapped private key and the KEM output it was wrapped with. *)
Record KeyPair := mkKeyPair { WrappedPrivateKey : option bytes; KEMOutput : option bytes }.

Record GroupMember := mkMember {
  member_key : KeyPair;
  IsAdmin : bool;
  JoinedAtEpoch : Z;
  AddedAt : Z
}.

Record Db := mkDb {
  groups : gmap UUID Group;
  group_members : gmap (UUID * UUID) GroupMember;
  group_epoch_keys : gmap (UUID * UUID * Z) KeyPair
}.

#[export] Instance key_pair_eq_dec : EqDecision KeyPair.
Proof. solve_decision. Defined.

Definition empty_db : Db := mkDb ∅ ∅ ∅.

Definition with_groups (f : gmap UUID Group -> gmap UUID Group) (d : Db) : Db :=
  mkDb (f (groups d)) (group_members d) (group_epoch_keys d).
Definition with_members
    (f : gmap (UUID * UUID) GroupMember -> gmap (UUID * UUID) GroupMember) (d : Db) : Db :=
  mkDb (groups d) (f (group_members d)) (group_epoch_keys d).

(** * Statements

[ok]: which of its statements the database executes. *)

Definition posting_policy (policy : string) : string :=
  if String.eqb policy "anyone" then "anyone" else "members".

Definition insert_group (id : UUID) (g : Group) (d : Db) : result serr (unit * Db) :=
  match groups d !! id with
  | Some _ => Err SqlUnique
  | None => Ok (tt, with_groups <[id := g]> d)
  end.

(** Members belong to a group, once. *)
Definition insert_member (group user : UUID) (m : GroupMember) (d : Db) : result serr (unit * Db) :=
  match groups d !! group, group_members d !! (group, user) with
  | None, _ => Err SqlFailed
  | _, Some _ => Err SqlUnique
  | Some _, None => Ok (tt, with_members <[(group, user) := m]> d)
  end.

(** The group the code inserts. *)
Definition new_group (tenant : UUID) (address x kem : bytes) (ktEpoch keyEpoch : Z)
    (policy : string) : Group :=
  mkGroup tenant address x kem ktEpoch keyEpoch None "active" (posting_policy policy).

Definition joining (now keyEpoch : Z) (k : KeyPair) (admin : bool) : GroupMember :=
  mkMember k admin keyEpoch now.

Fixpoint insert_members (now : Z) (id : UUID) (keyEpoch : Z)
    (ms : list (UUID * KeyPair * bool)) (d : Db) : result serr Db :=
  match ms with
  | [] => Ok d
  | (u, k, admin) :: ms =>
      match insert_member id u (joining now keyEpoch k admin) d with
      | Err e => Err e
      | Ok (_, d) => insert_members now id keyEpoch ms d
      end
  end.

(** [id]: the group's, or a new one when it has none. *)
Definition CreateGroup (ok : string -> bool) (now : Z) (id : UUID) (g : Group)
    (ms : list (UUID * KeyPair * bool)) (d : Db) : result serr unit * Db :=
  if negb (ok "begin"%string) then (Err SqlFailed, d)
  else if negb (ok "insert group"%string) then (Err SqlFailed, d)
  else match insert_group id (new_group (TenantID g) (Address g) (PublicKeyX25519 g)
                                (PublicKeyKEM g) (KTEpoch g) (KeyEpoch g) (PostingPolicy g)) d with
       | Err e => (Err e, d)
       | Ok (_, d1) =>
           if negb (ok "insert members"%string) then (Err SqlFailed, d)
           else match insert_members now id (KeyEpoch g) ms d1 with
                | Err e => (Err e, d)
                | Ok d2 => if ok "commit"%string then (Ok tt, d2) else (Err SqlFailed, d)
                end
       end.

Definition GetGroupByID (up : bool) (id : UUID) (d : Db) : result serr Group :=
  if up then of_option SqlNoRows (groups d !! id) else Err SqlFailed.

Definition GetGroupByAddress (up : bool) (address : bytes) (d : Db) : result serr (UUID * Group) :=
  if up then of_option SqlNoRows (head (map_to_list
               (select_where (fun _ g => bool_decide (Address g = address)) (groups d))))
  else Err SqlFailed.

Definition by_group_id (id k : UUID) (_ : Group) : bool := bool_decide (k = id).

Definition SetPostingPolicy (up : bool) (id : UUID) (policy : string) (d : Db) :
    result serr unit * Db :=
  if up then (Ok tt, with_groups (update_where (by_group_id id) (fun g =>
                mkGroup (TenantID g) (Address g) (PublicKeyX25519 g) (PublicKeyKEM g) (KTEpoch g)
                  (KeyEpoch g) (PendingKeygenUserID g) (Status g) (posting_policy policy))) d)
  else (Err SqlFailed, d).

(** Members and archived keys go with the group. *)
Definition DeleteGroup (up : bool) (id : UUID) (d : Db) : result serr unit * Db :=
  if up then (Ok tt,
      mkDb (delete id (groups d))
        (delete_where (fun gu _ => bool_decide (gu.1 = id)) (group_members d))
        (delete_where (fun gue _ => bool_decide (gue.1.1 = id)) (group_epoch_keys d)))
  else (Err SqlFailed, d).

Definition of_group (id : UUID) (gu : UUID * UUID) (_ : GroupMember) : bool :=
  bool_decide (gu.1 = id).

Definition GetMember (up : bool) (group user : UUID) (d : Db) : result serr GroupMember :=
  if up then of_option SqlNoRows (group_members d !! (group, user)) else Err SqlFailed.

Definition IsGroupAdmin (up : bool) (group user : UUID) (d : Db) : result serr bool :=
  if up then Ok match group_members d !! (group, user) with Some m => IsAdmin m | None => false end
  else Err SqlFailed.

Definition GetEpochKey (up : bool) (group user : UUID) (epoch : Z) (d : Db) : result serr KeyPair :=
  if up then of_option SqlNoRows (group_epoch_keys d !! (group, user, epoch)) else Err SqlFailed.

Definition AddMember (up : bool) (now : Z) (group user : UUID) (k : KeyPair) (admin : bool)
    (joinedAtEpoch : Z) (d : Db) : result serr unit * Db :=
  if negb up then (Err SqlFailed, d)
  else match insert_member group user (joining now joinedAtEpoch k admin) d with
       | Err e => (Err e, d)
       | Ok (_, d) => (Ok tt, d)
       end.

Definition RemoveMember (up : bool) (group user : UUID) (d : Db) : result serr unit * Db :=
  if up then (Ok tt, with_members (delete (group, user)) d) else (Err SqlFailed, d).

Definition update_member (up : bool) (group user : UUID) (f : GroupMember -> GroupMember) (d : Db) :
    result serr unit * Db :=
  if negb up then (Err SqlFailed, d)
  else match group_members d !! (group, user) with
       | None => (Err SqlNoRows, d)
       | Some m => (Ok tt, with_members <[(group, user) := f m]> d)
       end.

Definition SetMemberAdmin (up : bool) (group user : UUID) (isAdmin : bool) : Db -> result serr unit * Db :=
  update_member up group user (fun m => mkMember (member_key m) isAdmin (JoinedAtEpoch m) (AddedAt m)).

Definition SetMemberWrappedKey (up : bool) (group user : UUID) (k : KeyPair) :
    Db -> result serr unit * Db :=
  update_member up group user (fun m => mkMember k (IsAdmin m) (JoinedAtEpoch m) (AddedAt m)).

(** ** Rotation *)

Definition has_key (k : KeyPair) : bool :=
  match k with mkKeyPair None None => false | _ => true end.

(** INSERT ... SELECT ... ON CONFLICT DO NOTHING: what is archived wins. *)
Definition at_epoch (epoch : Z) (gu : UUID * UUID) : UUID * UUID * Z := (gu.1, gu.2, epoch).

Definition archive (id : UUID) (epoch : Z) (d : Db) : Db :=
  mkDb (groups d) (group_members d)
    (group_epoch_keys d ∪
     kmap (at_epoch epoch)
       (member_key <$> select_where (fun gu m => of_group id gu m && has_key (member_key m))
                         (group_members d))).

#[export] Instance at_epoch_inj epoch : Inj (=) (=) (at_epoch epoch).
Proof. intros [g u] [g' u'] [=]. by subst. Qed.

Definition rotated (leader x kem : bytes) (ktEpoch newEpoch : Z) (g : Group) : Group :=
  mkGroup (TenantID g) (Address g) x kem ktEpoch newEpoch (Some leader) "rotation_pending"
    (PostingPolicy g).

Definition without_key (m : GroupMember) : GroupMember :=
  mkMember (mkKeyPair None None) (IsAdmin m) (JoinedAtEpoch m) (AddedAt m).

Definition rotate (id leader x kem : bytes) (ktEpoch curEpoch : Z) (d : Db) : Db :=
  with_members (update_where (of_group id) without_key)
    (with_groups (update_where (by_group_id id) (rotated leader x kem ktEpoch (curEpoch + 1)))
       (archive id curEpoch d)).

Definition RotateGroupKey (ok : string -> bool) (id leader x kem : bytes) (newKTEpoch : Z) (d : Db) :
    result serr Z * Db :=
  if negb (ok "begin"%string) then (Err SqlFailed, d)
  else if negb (ok "lock group"%string) then (Err SqlFailed, d)
  else match groups d !! id with
       | None => (Err SqlNoRows, d)
       | Some g =>
           if negb (ok "archive epoch keys"%string) then (Err SqlFailed, d)
           else if negb (ok "update group rotation"%string) then (Err SqlFailed, d)
           else if negb (ok "clear member keys"%string) then (Err SqlFailed, d)
           else if negb (ok "commit"%string) then (Err SqlFailed, d)
           else (Ok (KeyEpoch g + 1), rotate id leader x kem newKTEpoch (KeyEpoch g) d)
       end.

Definition ClearPendingKeygen (up : bool) (id leader : UUID) (keyEpoch : Z) (d : Db) :
    result serr unit * Db :=
  if negb up then (Err SqlFailed, d)
  else match groups d !! id with
       | None => (Err SqlNoRows, d)
       | Some g =>
           if bool_decide (PendingKeygenUserID g = Some leader) && (KeyEpoch g =? keyEpoch)
           then (Ok tt, with_groups <[id := mkGroup (TenantID g) (Address g) (PublicKeyX25519 g)
                          (PublicKeyKEM g) (KTEpoch g) (KeyEpoch g) None "active"
                          (PostingPolicy g)]> d)
           else (Err SqlNoRows, d)
       end.

(** * Histories *)

Inductive gop :=
| GCreate (ok : string -> bool) (now : Z) (id : UUID) (g : Group) (ms : list (UUID * KeyPair * bool))
| GPolicy (up : bool) (id : UUID) (policy : string)
| GDelete (up : bool) (id : UUID)
| GAdd (up : bool) (now : Z) (group user : UUID) (k : KeyPair) (admin : bool) (joined : Z)
| GRemove (up : bool) (group user : UUID)
| GAdmin (up : bool) (group user : UUID) (isAdmin : bool)
| GWrap (up : bool) (group user : UUID) (k : KeyPair)
| GRotate (ok : string -> bool) (id leader x kem : bytes) (ktEpoch : Z)
| GClear (up : bool) (id leader : UUID) (keyEpoch : Z).

Definition gapply (o : gop) (d : Db) : Db :=
  match o with
  | GCreate ok now id g ms => (CreateGroup ok now id g ms d).2
  | GPolicy up id p => (SetPostingPolicy up id p d).2
  | GDelete up id => (DeleteGroup up id d).2
  | GAdd up now g u k a j => (AddMember up now g u k a j d).2
  | GRemove up g u => (RemoveMember up g u d).2
  | GAdmin up g u a => (SetMemberAdmin up g u a d).2
  | GWrap up g u k => (SetMemberWrappedKey up g u k d).2
  | GRotate ok id l x k t => (RotateGroupKey ok id l x k t d).2
  | GClear up id l e => (ClearPendingKeygen up id l e d).2
  end.

Definition grun (os : list gop) (d : Db) : Db := foldl (fun d o => gapply o d) d os.

Definition keeps_group (id : UUID) (o : gop) : Prop :=
  match o with GDelete true g => g <> id | _ => True end.

(** ** What a call does to groups and to the archive *)

(** A group after a call: as it was, or rotated once, or with the same keys and
    epoch; new ones appear under new ids. *)
Inductive group_step (d : Db) (id : UUID) (o : gop) (g' : Group) : Prop :=
| GSame g : groups d !! id = Some g -> KeyEpoch g' = KeyEpoch g ->
    (PendingKeygenUserID g' = PendingKeygenUserID g /\ Status g' = Status g \/
     PendingKeygenUserID g' = None /\ Status g' = "active"%string) -> group_step d id o g'
| GRotated g leader : groups d !! id = Some g -> KeyEpoch g' = KeyEpoch g + 1 ->
    PendingKeygenUserID g' = Some leader -> Status g' = "rotation_pending"%string ->
    group_step d id o g'
| GNew : groups d !! id = None -> PendingKeygenUserID g' = None -> Status g' = "active"%string ->
    group_step d id o g'.

Lemma insert_members_groups now id e ms d d' :
  insert_members now id e ms d = Ok d' ->
  groups d' = groups d /\ group_epoch_keys d' = group_epoch_keys d.
Proof.
  revert d. induction ms as [|[[u k] a] ms IH]; intros d; cbn; [by intros [= <-]|].
  destruct (insert_member _ _ _ _) as [[[] d1]|] eqn:E; [|done]. intros [-> ->]%IH.
  unfold insert_member in E. destruct (groups d !! id), (group_members d !! (id, u)); try done.
  by injection E as <-.
Qed.

Lemma create_group_cases ok now id g ms d :
  (CreateGroup ok now id g ms d).2 = d \/
  (groups d !! id = None /\ exists g', groups (CreateGroup ok now id g ms d).2 = <[id := g']> (groups d) /\
     PendingKeygenUserID g' = None /\ Status g' = "active"%string /\
     group_epoch_keys (CreateGroup ok now id g ms d).2 = group_epoch_keys d).
Proof.
  unfold CreateGroup, insert_group. destruct (ok "begin"%string), (ok "insert group"%string); auto.
  cbn [negb]. destruct (groups d !! id); [by left|]. destruct (ok "insert members"%string); [|by left].
  cbn [negb]. destruct (insert_members _ _ _ _ _) as [d2|] eqn:E; [|by left].
  destruct (ok "commit"%string); [|by left]. right. split; [done|].
  apply insert_members_groups in E as [Eg Ek]. eexists. cbn [snd]. by rewrite Eg, Ek.
Qed.

Lemma add_member_groups up now g u k a j d :
  groups (AddMember up now g u k a j d).2 = groups d /\
  group_epoch_keys (AddMember up now g u k a j d).2 = group_epoch_keys d.
Proof.
  unfold AddMember, insert_member. destruct up; [|done].
  by destruct (groups d !! g), (group_members d !! (g, u)).
Qed.

Lemma update_member_groups up g u f d :
  groups (update_member up g u f d).2 = groups d /\
  group_epoch_keys (update_member up g u f d).2 = group_epoch_keys d.
Proof. unfold update_member. destruct up; [|done]. by destruct (group_members d !! (g, u)). Qed.

(** A rotation happens in full, or not at all. *)
Lemma rotate_cases ok id l x k t d :
  (RotateGroupKey ok id l x k t d).2 = d \/
  exists g, groups d !! id = Some g /\
    RotateGroupKey ok id l x k t d = (Ok (KeyEpoch g + 1), rotate id l x k t (KeyEpoch g) d).
Proof.
  unfold RotateGroupKey.
  destruct (ok "begin"%string), (ok "lock group"%string); auto. cbn [negb].
  destruct (groups d !! id) as [g|]; [|by left].
  destruct (ok "archive epoch keys"%string), (ok "update group rotation"%string),
    (ok "clear member keys"%string), (ok "commit"%string); eauto.
Qed.

Lemma gapply_group o d id g' : groups (gapply o d) !! id = Some g' -> group_step d id o g'.
Proof.
  assert (forall g, groups d !! id = Some g -> group_step d id o g) as Hsame
    by (intros g Hg; econstructor 1; eauto).
  destruct o as [ok now i g ms|up i p|up i|up now i u k a j|up i u|up i u a|up i u k
                |ok i l x k t|up i l e]; cbn [gapply].
  - destruct (create_group_cases ok now i g ms d) as [->|(Hn & g0 & -> & Hp & Hs & _)]; [auto|].
    intros [[<- <-]|[_ H]]%lookup_insert_Some; [by constructor 3|auto].
  - destruct up; [|auto]. cbn. rewrite lookup_update_where.
    destruct (groups d !! id) as [g|] eqn:E; [|done]. intros [= <-].
    econstructor 1; [exact E|..]; destruct (by_group_id i id g); auto.
  - destruct up; [|auto]. cbn. intros [_ H]%lookup_delete_Some. auto.
  - by destruct (add_member_groups up now i u k a j d) as [-> _]; auto.
  - destruct up; auto.
  - by destruct (update_member_groups up i u
      (fun m => mkMember (member_key m) a (JoinedAtEpoch m) (AddedAt m)) d) as [E _];
      unfold SetMemberAdmin; rewrite E; auto.
  - by destruct (update_member_groups up i u
      (fun m => mkMember k (IsAdmin m) (JoinedAtEpoch m) (AddedAt m)) d) as [E _];
      unfold SetMemberWrappedKey; rewrite E; auto.
  - destruct (rotate_cases ok i l x k t d) as [->|(g & Hg & ->)]; [auto|]. cbn.
    rewrite lookup_update_where. destruct (groups d !! id) as [g0|] eqn:E; [|done]. intros [= <-].
    unfold by_group_id. destruct (decide (id = i)) as [->|Hne].
    + rewrite bool_decide_eq_true_2 by done. econstructor 2; [exact E|..]; try reflexivity. cbn.
      congruence.
    + rewrite bool_decide_eq_false_2 by done. auto.
  - unfold ClearPendingKeygen. destruct up; [|auto]. cbn [negb].
    destruct (groups d !! i) as [g|] eqn:E; [|auto]. destruct (_ && _)%bool; [|auto]. cbn.
    intros [[<- <-]|[_ H]]%lookup_insert_Some; [econstructor 1; eauto|auto].
Qed.

Lemma rotate_archive id l x k t g d :
  group_epoch_keys (rotate id l x k t (KeyEpoch g) d) =
    group_epoch_keys d ∪
    kmap (at_epoch (KeyEpoch g))
      (member_key <$> select_where (fun gu m => of_group id gu m && has_key (member_key m))
                        (group_members d)).
Proof. done. Qed.

(** What a rotation puts in the archive. *)
Lemma archived_new id e d (g u : UUID) e' k :
  kmap (M2 := gmap (UUID * UUID * Z)) (at_epoch e)
    (member_key <$> select_where (fun gu m => of_group id gu m && has_key (member_key m))
                      (group_members d)) !! (g, u, e') = Some k <->
  e' = e /\ g = id /\ has_key k = true /\ exists m, group_members d !! (g, u) = Some m /\ member_key m = k.
Proof.
  rewrite lookup_kmap_Some by apply _. setoid_rewrite lookup_fmap_Some.
  setoid_rewrite lookup_select_where. split.
  - intros ([g' u'] & [= -> -> ->] & m & <- & Hm & [Hg Hk]%andb_true_iff).
    apply bool_decide_eq_true in Hg. cbn in Hg. subst g'. eauto 6.
  - intros (-> & -> & Hk & m & Hm & <-). exists (id, u). split; [done|]. exists m.
    split_and!; try done. rewrite Hk. unfold of_group. by rewrite bool_decide_eq_true_2.
Qed.

(** The archive after a call: as it was, without a deleted group, or with the
    keys of a rotation. *)
Lemma archive_cases o d :
  let a' := group_epoch_keys (gapply o d) in
  a' = group_epoch_keys d \/
  (exists i, o = GDelete true i /\
     a' = delete_where (fun gue _ => bool_decide (gue.1.1 = i)) (group_epoch_keys d)) \/
  (exists ok i l x w t g, o = GRotate ok i l x w t /\ groups d !! i = Some g /\
     gapply o d = rotate i l x w t (KeyEpoch g) d).
Proof.
  destruct o as [ok now i g ms|up i p|up i|up now i v w a j|up i v|up i v a|up i v w
                |ok i l x w t|up i l c]; cbn [gapply]; cbv zeta.
  - destruct (create_group_cases ok now i g ms d) as [->|(_ & g0 & _ & _ & _ & ->)]; auto.
  - destruct up; auto.
  - destruct up; [|auto]. right. left. by exists i.
  - destruct (add_member_groups up now i v w a j d) as [_ ->]. auto.
  - destruct up; auto.
  - left. unfold SetMemberAdmin. apply update_member_groups.
  - left. unfold SetMemberWrappedKey. apply update_member_groups.
  - destruct (rotate_cases ok i l x w t d) as [->|(g & Hg & E)]; [auto|]. right. right.
    exists ok, i, l, x, w, t, g. by rewrite E.
  - unfold ClearPendingKeygen. destruct up; [|auto]. cbn [negb].
    destruct (groups d !! i) as [g|]; [|auto]. destruct (_ && _)%bool; auto.
Qed.

(** An entry of the archive after a call: an old one, or the live key of a
    member at the epoch a rotation just closed. *)
Lemma gapply_archive o d (id u : UUID) e k :
  group_epoch_keys (gapply o d) !! (id, u, e) = Some k ->
  group_epoch_keys d !! (id, u, e) = Some k \/
  exists l x w t g m, gapply o d = rotate id l x w t (KeyEpoch g) d /\
    groups d !! id = Some g /\ e = KeyEpoch g /\ has_key k = true /\ group_members d !! (id, u) = Some m /\ member_key m = k.
Proof.
  destruct (archive_cases o d) as [->|[(i & -> & ->)|(ok & i & l & x & w & t & g & -> & Hg & E)]];
    [auto|by intros [H _]%lookup_delete_where; left|].
  rewrite E, rotate_archive. intros [H|[_ H]]%lookup_union_Some_raw; [auto|].
  apply archived_new in H as (-> & -> & Hk & m & Hm & Hmk). right. eauto 15.
Qed.

Lemma gapply_archive_kept o d (id u : UUID) e k :
  keeps_group id o -> group_epoch_keys d !! (id, u, e) = Some k ->
  group_epoch_keys (gapply o d) !! (id, u, e) = Some k.
Proof.
  intros Hk H.
  destruct (archive_cases o d) as [->|[(i & -> & ->)|(ok & i & l & x & w & t & g & -> & Hg & E)]].
  - done.
  - apply lookup_delete_where. split; [done|]. cbn in Hk |- *. by rewrite bool_decide_eq_false_2.
  - rewrite E, rotate_archive. by apply lookup_union_Some_l.
Qed.

Lemma grun_archive_kept os d (id u : UUID) e k :
  Forall (keeps_group id) os -> group_epoch_keys d !! (id, u, e) = Some k ->
  group_epoch_keys (grun os d) !! (id, u, e) = Some k.
Proof.
  intros Hf. revert d. induction Hf as [|o os Ho _ IH]; intros d H; [done|].
  by apply IH, gapply_archive_kept.
Qed.

(** ** Invariants of every history *)

(** Archived epochs are over; who is to finish a rotation is named exactly
    while it is pending. *)
Record well_kept (d : Db) : Prop := mkWell {
  archived_over : forall (id u : UUID) e k, group_epoch_keys d !! (id, u, e) = Some k ->
    exists g, groups d !! id = Some g /\ e < KeyEpoch g;
  pending_named : forall id g, groups d !! id = Some g ->
    PendingKeygenUserID g = None /\ Status g = "active"%string \/
    is_Some (PendingKeygenUserID g) /\ Status g = "rotation_pending"%string
}.

(** Groups do not go but by deletion, and their epochs do not run back. *)
Lemma gapply_epoch o d id g :
  keeps_group id o -> groups d !! id = Some g ->
  exists g', groups (gapply o d) !! id = Some g' /\ KeyEpoch g <= KeyEpoch g'.
Proof.
  intros Hk Hg. assert (exists g', groups (gapply o d) !! id = Some g') as [g' Hg'].
  { destruct o as [ok now i g0 ms|up i p|up i|up now i u k a j|up i u|up i u a|up i u k
                  |ok i l x k t|up i l e]; cbn [gapply].
    - destruct (create_group_cases ok now i g0 ms d) as [->|(Hn & g1 & -> & _)]; [eauto|].
      destruct (decide (i = id)) as [->|?]; [congruence|]. rewrite lookup_insert_ne by done. eauto.
    - destruct up; [|eauto]. cbn. rewrite lookup_update_where, Hg. by eexists.
    - destruct up; [|eauto]. cbn in Hk |- *. rewrite lookup_delete_ne by congruence. eauto.
    - destruct (add_member_groups up now i u k a j d) as [-> _]. eauto.
    - destruct up; eauto.
    - unfold SetMemberAdmin. edestruct (update_member_groups up i u) as [-> _]. eauto.
    - unfold SetMemberWrappedKey. edestruct (update_member_groups up i u) as [-> _]. eauto.
    - destruct (rotate_cases ok i l x k t d) as [->|(g1 & Hg1 & ->)]; [eauto|]. cbn.
      rewrite lookup_update_where, Hg. by eexists.
    - unfold ClearPendingKeygen. destruct up; [|eauto]. cbn [negb].
      destruct (groups d !! i) as [g1|] eqn:E; [|eauto]. destruct (_ && _)%bool; [|eauto]. cbn.
      destruct (decide (i = id)) as [->|?]; [rewrite lookup_insert_eq|rewrite lookup_insert_ne by done];
        eauto. }
  exists g'. split; [done|].
  destruct (gapply_group _ _ _ _ Hg') as [g0 H0 He _|g0 l H0 He _ _|H0 _ _]; rewrite Hg in H0;
    try done; injection H0 as <-; lia.
Qed.

Lemma grun_epoch os d id g :
  Forall (keeps_group id) os -> groups d !! id = Some g ->
  exists g', groups (grun os d) !! id = Some g' /\ KeyEpoch g <= KeyEpoch g'.
Proof.
  intros Hf. revert d g. induction Hf as [|o os Ho _ IH]; intros d g Hg; [by exists g; split|].
  destruct (gapply_epoch o d id g Ho Hg) as (g1 & H1 & Hle1).
  destruct (IH _ _ H1) as (g2 & H2 & Hle2). exists g2. split; [done|lia].
Qed.

Lemma gapply_well o d : well_kept d -> well_kept (gapply o d).
Proof.
  intros [Ha Hp]. split.
  - intros id u e k H. assert (keeps_group id o) as Hk.
    { destruct o as [| |[] i| | | | | |]; try done. intros ->. cbn in H.
      apply lookup_delete_where in H as [_ H]. by rewrite bool_decide_eq_true_2 in H. }
    apply gapply_archive in H as [H|(l & x & w & t & g & m & -> & Hg & -> & _)].
    + destruct (Ha _ _ _ _ H) as (g & Hg & Hlt). destruct (gapply_epoch o d id g Hk Hg) as (g' & ? & ?).
      exists g'. split; [done|lia].
    + cbn. rewrite lookup_update_where, Hg. eexists. split; [reflexivity|].
      unfold by_group_id. rewrite bool_decide_eq_true_2 by done. cbn. lia.
  - intros id g' H. destruct (gapply_group _ _ _ _ H) as [g Hg _ [[-> ->]|[-> ->]]|g l Hg _ -> ->|_ -> ->].
    + by apply (Hp id).
    + by left.
    + right. by split.
    + by left.
Qed.

Lemma grun_well os d : well_kept d -> well_kept (grun os d).
Proof. revert d. induction os as [|o os IH]; intros d H; [done|]. by apply IH, gapply_well. Qed.

Lemma empty_well : well_kept empty_db.
Proof. by split. Qed.

(** ** What rotations keep and lose *)

Lemma rotate_ok ok id l x k t d e d' :
  RotateGroupKey ok id l x k t d = (Ok e, d') ->
  exists g, groups d !! id = Some g /\ e = KeyEpoch g + 1 /\
    d' = rotate id l x k t (KeyEpoch g) d /\
    groups d' !! id = Some (rotated l x k t (KeyEpoch g + 1) g) /\
    gapply (GRotate ok id l x k t) d = d'.
Proof.
  intros H. cbn [gapply]. rewrite H. unfold RotateGroupKey in H.
  destruct (ok "begin"%string), (ok "lock group"%string); try done. cbn [negb] in H.
  destruct (groups d !! id) as [g|] eqn:Eg; [|done].
  destruct (ok "archive epoch keys"%string), (ok "update group rotation"%string),
    (ok "clear member keys"%string), (ok "commit"%string); try done.
  injection H as <- <-. exists g. split_and!; try done. cbn. rewrite lookup_update_where, Eg. cbn.
  unfold by_group_id. by rewrite bool_decide_eq_true_2.
Qed.

Lemma rotate_clears id l x k t e d (u : UUID) m :
  group_members (rotate id l x k t e d) !! (id, u) = Some m -> member_key m = mkKeyPair None None.
Proof.
  cbn. rewrite lookup_update_where. destruct (group_members d !! (id, u)); [|done]. cbn.
  unfold of_group. rewrite bool_decide_eq_true_2 by done. by intros [= <-].
Qed.

(** The archive has no key of the open epoch yet. *)
Lemma open_epoch_not_archived d id g (u : UUID) :
  well_kept d -> groups d !! id = Some g -> group_epoch_keys d !! (id, u, KeyEpoch g) = None.
Proof.
  intros [Ha _] Hg. destruct (group_epoch_keys d !! _) as [k|] eqn:E; [|done].
  destruct (Ha _ _ _ _ E) as (g' & Hg' & Hlt). rewrite Hg in Hg'. injection Hg' as <-. lia.
Qed.

(** A rotation archives what a member holds. *)
Lemma rotation_archives d id g l x k t (u : UUID) m :
  well_kept d -> groups d !! id = Some g -> group_members d !! (id, u) = Some m ->
  has_key (member_key m) = true ->
  group_epoch_keys (rotate id l x k t (KeyEpoch g) d) !! (id, u, KeyEpoch g) = Some (member_key m).
Proof.
  intros Hw Hg Hm Hk. rewrite rotate_archive. apply lookup_union_Some_raw. right.
  split; [by apply open_epoch_not_archived|]. apply archived_new. eauto 6.
Qed.

(** A closed epoch without a key stays without. *)
Lemma grun_lost os d (id u : UUID) e g :
  Forall (keeps_group id) os -> groups d !! id = Some g -> e < KeyEpoch g ->
  group_epoch_keys d !! (id, u, e) = None -> group_epoch_keys (grun os d) !! (id, u, e) = None.
Proof.
  intros Hf. revert d g. induction Hf as [|o os Ho _ IH]; intros d g Hg Hlt Hn; [done|].
  destruct (gapply_epoch o d id g Ho Hg) as (g1 & H1 & Hle). apply (IH _ g1); [done|lia|].
  destruct (group_epoch_keys (gapply o d) !! _) as [k|] eqn:E; [|done].
  apply gapply_archive in E as [E|(l & x & w & t & g2 & m & _ & H2 & -> & _)]; [congruence|].
  rewrite Hg in H2. injection H2 as <-. lia.
Qed.

(** C28. A rotation loses no key: in any state that calls lead to, once a
    rotation has succeeded, the next epoch is open and no member holds a live
    key for it yet, and every key a member held before is what the archive
    returns for that member at the closed epoch, through any later calls, even
    after the member left, until the group is deleted. *)
Theorem superseded_keys_kept os ok id l x k t e d' os' :
  let d := grun os empty_db in
  RotateGroupKey ok id l x k t d = (Ok e, d') -> Forall (keeps_group id) os' ->
  (exists g, groups d' !! id = Some g /\ KeyEpoch g = e) /\
  (forall u m, group_members d' !! (id, u) = Some m -> member_key m = mkKeyPair None None) /\
  forall u m, group_members d !! (id, u) = Some m -> has_key (member_key m) = true ->
    GetEpochKey true id u (e - 1) (grun os' d') = Ok (member_key m).
Proof.
  intros d Hr Hos. destruct (rotate_ok _ _ _ _ _ _ _ _ _ Hr) as (g & Hg & -> & -> & Hg' & _).
  split_and!.
  - eexists. split; [exact Hg'|done].
  - intros u m. apply rotate_clears.
  - intros u m Hm Hk. unfold GetEpochKey. replace (KeyEpoch g + 1 - 1) with (KeyEpoch g) by lia.
    rewrite (grun_archive_kept _ _ _ _ _ (member_key m)); [done|done|].
    apply rotation_archives; try done. apply grun_well, empty_well.
Qed.

(** Somebody is named to finish a rotation exactly while it is pending, and
    only that caller, at the epoch the rotation opened, can finish it: in any
    state that calls lead to, a group is either active with nobody named, or
    has a rotation pending and a name, and ClearPendingKeygen succeeds for one
    caller and one epoch and leaves every key and member alone. *)
Theorem pending_rotation_is_named os id g :
  let d := grun os empty_db in
  groups d !! id = Some g ->
  (Status g = "active"%string /\ PendingKeygenUserID g = None \/
   Status g = "rotation_pending"%string /\ is_Some (PendingKeygenUserID g)) /\
  forall caller epoch, let r := ClearPendingKeygen true id caller epoch d in
    (r.1 = Ok tt <-> PendingKeygenUserID g = Some caller /\ epoch = KeyEpoch g) /\
    group_members r.2 = group_members d /\ group_epoch_keys r.2 = group_epoch_keys d /\
    (r.1 = Ok tt -> exists g', groups r.2 !! id = Some g' /\ Status g' = "active"%string /\
       KeyEpoch g' = KeyEpoch g).
Proof.
  intros d Hg. assert (well_kept d) as [_ Hp] by apply grun_well, empty_well. split.
  { destruct (Hp id g Hg) as [[? ?]|[? ?]]; auto. }
  intros caller epoch r. subst r. unfold ClearPendingKeygen. cbn [negb]. rewrite Hg.
  destruct (decide (PendingKeygenUserID g = Some caller)) as [E|E];
    [rewrite bool_decide_eq_true_2 by done|rewrite bool_decide_eq_false_2 by done];
    cbn [andb]; [destruct (Z.eqb_spec (KeyEpoch g) epoch)|]; cbn [fst snd]; split_and!; try done;
    try naive_solver.
  intros _. cbn. rewrite lookup_insert_eq. by eexists.
Qed.

(** ** Ways keys go wrong *)

(** A second rotation before the keys of the first are handed out: nobody ever
    finds a key for mail of the epoch between. *)
Theorem unredistributed_epoch_is_lost os ok1 ok2 id l1 l2 x1 x2 k1 k2 t1 t2 e1 e2 d1 d2 os' u :
  RotateGroupKey ok1 id l1 x1 k1 t1 (grun os empty_db) = (Ok e1, d1) ->
  RotateGroupKey ok2 id l2 x2 k2 t2 d1 = (Ok e2, d2) ->
  Forall (keeps_group id) os' ->
  GetEpochKey true id u e1 (grun os' d2) = Err SqlNoRows.
Proof.
  intros H1 H2 Hos.
  destruct (rotate_ok _ _ _ _ _ _ _ _ _ H1) as (g & Hg & -> & Ed1 & Hg1 & Ea).
  destruct (rotate_ok _ _ _ _ _ _ _ _ _ H2) as (g' & Hg' & -> & -> & Hg2 & _).
  rewrite Hg1 in Hg'. injection Hg' as <-. cbn [KeyEpoch rotated] in Hg2 |- *.
  assert (well_kept d1) as Hw1 by (rewrite <-Ea; apply gapply_well, grun_well, empty_well).
  unfold GetEpochKey. erewrite grun_lost; [done|done|exact Hg2|cbn; lia|].
  destruct (group_epoch_keys (rotate _ _ _ _ _ _ d1) !! _) as [k|] eqn:E; [|done].
  change (KeyEpoch g + 1) with (KeyEpoch (rotated l1 x1 k1 t1 (KeyEpoch g + 1) g)) in E at 2.
  rewrite rotate_archive in E. apply lookup_union_Some_raw in E as [E|[_ E]].
  - pose proof (open_epoch_not_archived _ _ _ u Hw1 Hg1) as Hn. cbn in Hn. congruence.
  - apply archived_new in E as (_ & _ & Hk & m & Hm & <-). rewrite Ed1 in Hm.
    apply rotate_clears in Hm. by rewrite Hm in Hk.
Qed.

(** A wrapped key is stored with no question of the epoch it is for, and
    archived as the key of whatever epoch is open then. *)
Theorem late_key_becomes_current os ok ok' id l l' x x' k k' t t' e e' d1 d3 u m key :
  RotateGroupKey ok id l x k t (grun os empty_db) = (Ok e, d1) ->
  group_members d1 !! (id, u) = Some m -> has_key key = true ->
  let d2 := (SetMemberWrappedKey true id u key d1).2 in
  (SetMemberWrappedKey true id u key d1).1 = Ok tt /\
  (RotateGroupKey ok' id l' x' k' t' d2 = (Ok e', d3) -> GetEpochKey true id u e d3 = Ok key).
Proof.
  intros H1 Hm Hk d2.
  destruct (rotate_ok _ _ _ _ _ _ _ _ _ H1) as (g & Hg & -> & _ & Hg1 & Ea).
  assert (well_kept d2) as Hw.
  { apply (gapply_well (GWrap true id u key)). rewrite <-Ea. apply gapply_well, grun_well, empty_well. }
  assert (SetMemberWrappedKey true id u key d1 =
    (Ok tt, with_members <[(id, u) := mkMember key (IsAdmin m) (JoinedAtEpoch m) (AddedAt m)]> d1)) as Es.
  { unfold SetMemberWrappedKey, update_member. cbn [negb]. by rewrite Hm. }
  split; [by rewrite Es|]. intros H2. unfold d2 in *. rewrite Es in *. cbn [snd] in *.
  destruct (rotate_ok _ _ _ _ _ _ _ _ _ H2) as (g' & Hg' & -> & -> & _).
  cbn in Hg'. rewrite Hg1 in Hg'. injection Hg' as <-. unfold GetEpochKey.
  pose proof (rotation_archives _ id _ l' x' k' t' u (mkMember key (IsAdmin m) (JoinedAtEpoch m) (AddedAt m))
    Hw Hg1 (lookup_insert_eq _ _ _) Hk) as Ha. cbn [KeyEpoch rotated member_key] in Ha |- *.
  by rewrite Ha.
Qed.

(** * Examples *)

Definition yes (_ : string) : bool := true.
Definition key_of (s : string) : KeyPair := mkKeyPair (Some (bs s)) None.

Definition group_history : list gop :=
  [GCreate yes 0 (bs "g") (mkGroup (bs "t") (bs "g@b") (bs "x0") [] 5 0 None "" "anyone")
     [(bs "u", key_of "u0", true); (bs "v", key_of "v0", false)];
   GRotate yes (bs "g") (bs "u") (bs "x1") [] 6; GWrap true (bs "g") (bs "u") (key_of "u1");
   GWrap true (bs "g") (bs "v") (key_of "v1"); GClear true (bs "g") (bs "u") 1].

Definition later_calls : list gop :=
  [GRemove true (bs "g") (bs "v"); GWrap true (bs "g") (bs "u") (key_of "u2")].

Definition after_rotation : Db :=
  (RotateGroupKey yes (bs "g") (bs "u") (bs "x2") [] 7 (grun group_history empty_db)).2.

Lemma superseded_keys_kept_witness :
  GetEpochKey true (bs "g") (bs "v") 1 (grun later_calls after_rotation) = Ok (key_of "v1").
Proof.
  apply (superseded_keys_kept group_history yes (bs "g") (bs "u") (bs "x2") [] 7 2 after_rotation
           later_calls) with (m := mkMember (key_of "v1") false 0 0).
  - apply injective_projections; by vm_compute.
  - by repeat constructor.
  - by vm_compute.
  - by vm_compute.
Defined.

Lemma pending_rotation_is_named_witness :
  exists g, groups after_rotation !! bs "g" = Some g /\
    (Status g = "active"%string /\ PendingKeygenUserID g = None \/
     Status g = "rotation_pending"%string /\ is_Some (PendingKeygenUserID g)).
Proof.
  eexists. split; [by vm_compute|].
  apply (pending_rotation_is_named
    (group_history ++ [GRotate yes (bs "g") (bs "u") (bs "x2") [] 7]) (bs "g")). by vm_compute.
Defined.
