(* ===== verification/Registration.v ===== *)
(** internal/storage/auth_store.go (registration, tenants), folder_store.go and
    role_store.go: the rows that make an account.  Shown: a registration
    happens in full or not at all; two racing calls of EnsureTenant agree on the
    tenant; deleting a folder loses no message; roles are ordered, and an
    unknown role asks for nothing; an invitation is good for any number of
    accounts. *)

From S2P Require Import Prelude Sql Account.

#[local] Open Scope Z_scope.

(** * Rows *)

Record Folder := mkFolder {
  FolderUser : UUID;
  FolderTenant : UUID;
  NameEncrypted : bytes;
  FolderType : string;
  SortOrder : Z;
  ParentID : option UUID
}.

Record Message := mkMessage {
  MessageUser : UUID;
  MessageTenant : UUID;
  MessageFolder : UUID;
  Content : bytes
}.

Record Invitation := mkInvitation { InvTenant : UUID; InvStatus : string }.

Record Db := mkDb {
  users : gmap UUID User;
  folders : gmap UUID Folder;
  messages : gmap UUID Message;
  domain_invitations : gmap UUID Invitation;
  tenant_roles : gmap (UUID * UUID) string;
  tenants : gmap UUID bytes
}.

Definition with_users (us : gmap UUID User) (d : Db) : Db :=
  mkDb us (folders d) (messages d) (domain_invitations d) (tenant_roles d) (tenants d).
Definition with_folders (fs : gmap UUID Folder) (d : Db) : Db :=
  mkDb (users d) fs (messages d) (domain_invitations d) (tenant_roles d) (tenants d).
Definition with_messages (ms : gmap UUID Message) (d : Db) : Db :=
  mkDb (users d) (folders d) ms (domain_invitations d) (tenant_roles d) (tenants d).
Definition with_invitations (invs : gmap UUID Invitation) (d : Db) : Db :=
  mkDb (users d) (folders d) (messages d) invs (tenant_roles d) (tenants d).
Definition with_roles (rs : gmap (UUID * UUID) string) (d : Db) : Db :=
  mkDb (users d) (folders d) (messages d) (domain_invitations d) rs (tenants d).
Definition with_tenants (ts : gmap UUID bytes) (d : Db) : Db :=
  mkDb (users d) (folders d) (messages d) (domain_invitations d) (tenant_roles d) ts.

(** * Registration

[ok]: which statements the database executes; [ids]: the ids drawn for the
folders; [defaults]: the columns the schema fills in. *)

Definition FolderInbox : string := "inbox".
Definition FolderSent : string := "sent".
Definition FolderDrafts : string := "drafts".
Definition FolderTrash : string := "trash".
Definition FolderJunk : string := "junk".
Definition FolderArchive : string := "archive".
Definition FolderSnoozed : string := "snoozed".
Definition FolderCustom : string := "custom".

Definition defaultFolderTypes : list (string * Z) :=
  [(FolderInbox, 0); (FolderSent, 1); (FolderDrafts, 2); (FolderTrash, 3); (FolderJunk, 4);
   (FolderArchive, 5)].

Definition insert_folder (ok : string -> bool) (id : UUID) (f : Folder) (d : Db) : result serr Db :=
  if negb (ok (FolderType f)) then Err SqlFailed
  else match folders d !! id with
       | Some _ => Err SqlUnique
       | None => Ok (with_folders (<[id := f]> (folders d)) d)
       end.

Definition default_folder (user tenant : UUID) (df : string * Z) : Folder :=
  mkFolder user tenant (bs df.1) df.1 df.2 None.

Fixpoint insert_default_folders (ok : string -> bool) (ids : string -> UUID) (user tenant : UUID)
    (dfs : list (string * Z)) (d : Db) : result serr Db :=
  match dfs with
  | [] => Ok d
  | df :: dfs =>
      d ← insert_folder ok (ids df.1) (default_folder user tenant df) d;
      insert_default_folders ok ids user tenant dfs d
  end.

(** Ids and addresses are unique. *)
Definition insert_user (ok : string -> bool) (id : UUID) (u : User) (d : Db) : result serr Db :=
  if negb (ok "users"%string) then Err SqlFailed
  else if bool_decide (users d !! id = None) &&
          bool_decide (select_where (fun _ r => bool_decide (Address r = Address u)) (users d) = ∅)
       then Ok (with_users (<[id := u]> (users d)) d)
       else Err SqlUnique.

Definition recovery_version (v : Z) : Z := if v =? 0 then 2 else v.
Definition or_default (dflt s : string) : string := if String.eqb s "" then dflt else s.

(** The columns the INSERT of CreateUser names, over the defaults. *)
Definition created_row (dflt u : User) : User :=
  mkUser (UserTenant u) (Address u) (AccountType dflt)
    (set_status (or_default "active" (AccountStatus (life u))) (life dflt))
    (bounces dflt) (fake dflt)
    (mkKeys (PublicKeyEncryption (keys u)) (PublicKeySigning (keys u)) (EncryptedPrivateKey (keys u))
       (EncryptedRecoveryKey (keys u)) (PublicKeyKEM (keys u)) (EncryptedPrivateKeyKEM (keys u))
       (PGPPublicKey (keys dflt)) (TOTPSecretEncrypted (keys dflt)) (TOTPEnabled (keys dflt))
       (TOTPBackupCodes (keys dflt)))
    (mkAuth (OpaqueRegistration (auth u)) (OpaqueRecoveryRegistration (auth dflt))
       (RecoveryBlob (auth dflt)) (KeyEpoch (auth u)) (recovery_version (RecoveryVersion (auth u))))
    (billing dflt).

(** And those of RegisterInvitedUser and RegisterUser. *)
Definition with_recovery (u row : User) : User :=
  mkUser (UserTenant row) (Address row) (AccountType row) (life row) (bounces row) (fake row)
    (keys row)
    (mkAuth (OpaqueRegistration (auth row)) (OpaqueRecoveryRegistration (auth u))
       (RecoveryBlob (auth u)) (KeyEpoch (auth row)) (RecoveryVersion (auth row)))
    (billing row).

Definition invited_row (dflt u : User) : User :=
  on_life (set_status "active") (with_recovery u (created_row dflt u)).

Definition registered_row (dflt u : User) : User :=
  let row := with_recovery u (created_row dflt u) in
  mkUser (UserTenant row) (Address row) (or_default "primary" (AccountType u)) (life row)
    (bounces row)
    (mkFake (HasFakeID (fake row)) (FakeIDMintedAt (fake row)) (FakeIDAllowedReleaseAt (fake row))
       (FakeIDMigrated (fake row)) (DormancyWindowDays (fake u)) (ValidUntil (fake u))
       (MaxValidUntil (fake u)))
    (keys row) (auth row) (billing row).

Definition CreateUser (ok : string -> bool) (dflt : User) (id : UUID) (u : User) (d : Db) :
    result serr unit * Db :=
  match insert_user ok id (created_row dflt u) d with
  | Ok d => (Ok tt, d)
  | Err e => (Err e, d)
  end.

(** A transaction whose statements stop at the first error. *)
Definition atomically (ok : string -> bool) (body : Db -> result serr Db) (d : Db) :
    result serr unit * Db :=
  if negb (ok "begin"%string) then (Err SqlFailed, d)
  else match body d with
       | Err e => (Err e, d)
       | Ok d' => if ok "commit"%string then (Ok tt, d') else (Err SqlFailed, d)
       end.

Definition RegisterUser (ok : string -> bool) (ids : string -> UUID) (dflt : User) (id : UUID)
    (u : User) : Db -> result serr unit * Db :=
  atomically ok (fun d =>
    d ← insert_user ok id (registered_row dflt u) d;
    insert_default_folders ok ids id (UserTenant u) defaultFolderTypes d).

Definition accept_invitation (ok : string -> bool) (inv tenant : UUID) (d : Db) : result serr Db :=
  if negb (ok "invitation"%string) then Err SqlFailed
  else match domain_invitations d !! inv with
       | Some i =>
           if bool_decide (InvTenant i = tenant)
           then Ok (with_invitations (<[inv := mkInvitation tenant "accepted"]> (domain_invitations d)) d)
           else Err SqlNoRows
       | None => Err SqlNoRows
       end.

Definition assign_role (ok : string -> bool) (user tenant : UUID) (role : string) (d : Db) :
    result serr Db :=
  if ok "role"%string then Ok (with_roles (<[(user, tenant) := role]> (tenant_roles d)) d)
  else Err SqlFailed.

Definition invited_body (ok : string -> bool) (ids : string -> UUID) (dflt : User) (id : UUID)
    (u : User) (invitation : UUID) (d : Db) : result serr Db :=
  d ← insert_user ok id (invited_row dflt u) d;
  d ← accept_invitation ok invitation (UserTenant u) d;
  d ← assign_role ok id (UserTenant u) "member" d;
  insert_default_folders ok ids id (UserTenant u) defaultFolderTypes d.

Definition RegisterInvitedUser (ok : string -> bool) (ids : string -> UUID) (dflt : User) (id : UUID)
    (u : User) (invitation : UUID) : Db -> result serr unit * Db :=
  atomically ok (invited_body ok ids dflt id u invitation).

(** Not in a transaction: folders made before a failure stay. *)
Fixpoint create_folders (ok : string -> bool) (ids : string -> UUID) (user tenant : UUID)
    (dfs : list (string * Z)) (d : Db) : result serr unit * Db :=
  match dfs with
  | [] => (Ok tt, d)
  | df :: dfs =>
      match insert_folder ok (ids df.1) (default_folder user tenant df) d with
      | Err e => (Err e, d)
      | Ok d => create_folders ok ids user tenant dfs d
      end
  end.

Definition CreateDefaultFolders (ok : string -> bool) (ids : string -> UUID) (user tenant : UUID) :
    Db -> result serr unit * Db := create_folders ok ids user tenant defaultFolderTypes.

(** ** What a registration does *)

Definition folders_with (ids : string -> UUID) (user tenant : UUID) (dfs : list (string * Z))
    (fs : gmap UUID Folder) : gmap UUID Folder :=
  foldl (fun fs df => <[ids df.1 := default_folder user tenant df]> fs) fs dfs.

Definition all_ok (ok : string -> bool) (stmts : list string) : Prop := Forall (fun s => ok s = true) stmts.

(** The ids drawn for the folders are new, and no two are the same. *)
Definition fresh_ids (ids : string -> UUID) (dfs : list (string * Z)) (fs : gmap UUID Folder) : Prop :=
  NoDup (map (fun df => ids df.1) dfs) /\ Forall (fun df => fs !! ids df.1 = None) dfs.

Lemma insert_folders_spec ok ids user tenant dfs d d' :
  insert_default_folders ok ids user tenant dfs d = Ok d' <->
  all_ok ok (map fst dfs) /\ fresh_ids ids dfs (folders d) /\
  d' = with_folders (folders_with ids user tenant dfs (folders d)) d.
Proof.
  unfold all_ok, fresh_ids. revert d. induction dfs as [|df dfs IH]; intros d; cbn.
  { split; [intros [= <-]|intros (_ & _ & ->)]; [|by destruct d]. split_and!; try constructor.
    by destruct d. }
  rewrite NoDup_cons, !Forall_cons. unfold insert_folder. cbn [FolderType default_folder].
  destruct (ok df.1) eqn:Eo; cbn [negb]; [|by split; [done|intros [[? _] _]]].
  destruct (folders d !! ids df.1) eqn:Ef; [by split; [done|intros (_ & [_ [? _]] & _)]|].
  cbn. rewrite IH. cbn [folders with_folders].
  assert (Forall (fun x => folders d !! ids x.1 = None) dfs /\ ids df.1 ∉ map (fun df => ids df.1) dfs <->
          Forall (fun x => <[ids df.1 := default_folder user tenant df]> (folders d) !! ids x.1 = None) dfs)
    as Hf.
  { rewrite !Forall_forall. split.
    - intros [H1 H2] x Hx. rewrite lookup_insert_ne; [by apply H1|]. intros E. apply H2. rewrite E.
      apply list_elem_of_fmap. by exists x.
    - intros H. split.
      + intros x Hx. specialize (H x Hx). by apply lookup_insert_None in H as [? _].
      + intros (x & E & Hx)%list_elem_of_fmap. specialize (H x Hx). rewrite <-E, lookup_insert_eq in H.
        done. }
  rewrite <-Hf. split.
  - intros (H1 & (H2 & H3 & H4) & ->). by split_and!.
  - intros ((_ & H1) & ((H2 & H3) & _ & H4) & ->). by split_and!.
Qed.

Lemma insert_user_spec ok id u d d' :
  insert_user ok id u d = Ok d' <->
  ok "users"%string = true /\ users d !! id = None /\
  (forall k r, users d !! k = Some r -> Address r <> Address u) /\
  d' = with_users (<[id := u]> (users d)) d.
Proof.
  unfold insert_user. destruct (ok "users"%string); cbn [negb]; [|by split; [|intros [? _]]].
  assert (select_where (fun _ r => bool_decide (Address r = Address u)) (users d) = ∅ <->
          forall k r, users d !! k = Some r -> Address r <> Address u) as Hs.
  { rewrite <-map_size_empty_iff. change (size _) with (affected (fun _ r => bool_decide (Address r = Address u)) (users d)).
    rewrite affected_zero. by setoid_rewrite bool_decide_eq_false. }
  destruct (decide (users d !! id = None)) as [E|E];
    [rewrite (bool_decide_eq_true_2 (users d !! id = None)) by done
    |rewrite (bool_decide_eq_false_2 (users d !! id = None)) by done]; cbn [andb].
  - case_bool_decide as Ha; rewrite Hs in Ha.
    + split; [intros [= <-]; by split_and!|by intros (_ & _ & _ & ->)].
    + by split; [|intros (_ & _ & ? & _)].
  - by split; [|intros (_ & ? & _)].
Qed.

Lemma atomically_spec ok body d :
  match atomically ok body d with
  | (Ok _, d') => ok "begin"%string = true /\ ok "commit"%string = true /\ body d = Ok d'
  | (Err _, d') => d' = d
  end.
Proof.
  unfold atomically. destruct (ok "begin"%string); [|done]. cbn [negb].
  destruct (body d); [|done]. by destruct (ok "commit"%string).
Qed.

Lemma atomically_ok ok body d d' :
  ok "begin"%string = true -> ok "commit"%string = true -> body d = Ok d' ->
  atomically ok body d = (Ok tt, d').
Proof. unfold atomically. by intros -> -> ->. Qed.

Lemma accept_invitation_spec ok inv tenant d d' :
  accept_invitation ok inv tenant d = Ok d' <->
  ok "invitation"%string = true /\
  (exists i, domain_invitations d !! inv = Some i /\ InvTenant i = tenant) /\
  d' = with_invitations (<[inv := mkInvitation tenant "accepted"]> (domain_invitations d)) d.
Proof.
  unfold accept_invitation. destruct (ok "invitation"%string); cbn [negb]; [|by split; [|intros [? _]]].
  destruct (domain_invitations d !! inv) as [i|]; [|by split; [|intros (_ & (? & ? & _) & _)]].
  case_bool_decide as E.
  - split; [intros [= <-]; eauto|by intros (_ & _ & ->)].
  - split; [done|]. by intros (_ & (? & [= <-] & ?) & _).
Qed.

(** What a registration by invitation needs, and what it does. *)
Definition can_register (ok : string -> bool) (ids : string -> UUID) (id : UUID) (u : User)
    (inv : UUID) (d : Db) : Prop :=
  all_ok ok (["begin"; "users"; "invitation"; "role"; "commit"]%string ++ map fst defaultFolderTypes) /\
  users d !! id = None /\ (forall k r, users d !! k = Some r -> Address r <> Address u) /\
  (exists i, domain_invitations d !! inv = Some i /\ InvTenant i = UserTenant u) /\
  fresh_ids ids defaultFolderTypes (folders d).

Definition registered (ids : string -> UUID) (dflt : User) (id : UUID) (u : User) (inv : UUID)
    (d : Db) : Db :=
  mkDb (<[id := invited_row dflt u]> (users d))
    (folders_with ids id (UserTenant u) defaultFolderTypes (folders d))
    (messages d) (<[inv := mkInvitation (UserTenant u) "accepted"]> (domain_invitations d))
    (<[(id, UserTenant u) := "member"%string]> (tenant_roles d)) (tenants d).

Lemma invited_body_spec ok ids dflt id u inv d d' :
  ok "begin"%string = true -> ok "commit"%string = true ->
  (invited_body ok ids dflt id u inv d = Ok d' <->
   can_register ok ids id u inv d /\ d' = registered ids dflt id u inv d).
Proof.
  intros Hb Hc. unfold can_register, all_ok. cbn [app]. rewrite !Forall_cons.
  unfold invited_body. split.
  - destruct (insert_user _ _ _ _) as [d1|] eqn:E1; [|done]. cbn [mbind result_bind].
    destruct (accept_invitation _ _ _ _) as [d2|] eqn:E2; [|done]. cbn [mbind result_bind].
    unfold assign_role. destruct (ok "role"%string) eqn:Er; [|done]. cbn [mbind result_bind].
    intros (Hfo & Hfr & ->)%insert_folders_spec. apply insert_user_spec in E1 as (Hu & Hid & Hadr & ->).
    apply accept_invitation_spec in E2 as (Hin & Hi & ->). by split_and!.
  - intros (((_ & Hus & Hin & Hr & _ & Hfo) & Hu & Hadr & Hi & Hf) & ->).
    rewrite (proj2 (insert_user_spec ok id (invited_row dflt u) d _)) by by split_and!.
    cbn [mbind result_bind].
    rewrite (proj2 (accept_invitation_spec ok inv (UserTenant u) _ _)) by by split_and!.
    cbn [mbind result_bind]. unfold assign_role at 1. rewrite Hr. cbn [mbind result_bind].
    apply insert_folders_spec. by split_and!.
Qed.

(** C29. A registration by invitation happens in full or not at all: it succeeds
    exactly when no statement fails, the id and the address are new, the
    invitation is one of the account's domain and the folder ids are new; then
    the account, its six folders and its role are there and the invitation is
    accepted; in every other case it reports an error and nothing has changed. *)
Theorem registration_all_or_nothing ok ids dflt id u inv d :
  let '(r, d') := RegisterInvitedUser ok ids dflt id u inv d in
  (r = Ok tt <-> can_register ok ids id u inv d) /\
  d' = match r with Ok _ => registered ids dflt id u inv d | Err _ => d end.
Proof.
  pose proof (atomically_spec ok (invited_body ok ids dflt id u inv) d) as Ha.
  fold (RegisterInvitedUser ok ids dflt id u inv d) in Ha.
  destruct (RegisterInvitedUser ok ids dflt id u inv d) as [[[]|e] d'] eqn:E.
  - destruct Ha as (Hb & Hc & H). apply invited_body_spec in H as [H ->]; [|done..]. by split.
  - split; [|done]. split; [done|]. intros H. pose proof (proj1 H) as Hall. unfold all_ok in Hall.
    cbn [app] in Hall. rewrite !Forall_cons in Hall. destruct Hall as (Hb & _ & _ & _ & Hc & _).
    unfold RegisterInvitedUser in E. erewrite atomically_ok in E; [done|done|done|].
    by apply invited_body_spec.
Qed.

(** * Tenants *)

Definition of_domain (domain : bytes) (_ : UUID) (d : bytes) : bool := bool_decide (d = domain).

Definition DomainTaken (up : bool) (domain : bytes) (d : Db) : result serr bool :=
  if up then Ok (bool_decide (select_where (of_domain domain) (tenants d) <> ∅)) else Err SqlFailed.

Definition tenant_of (domain : bytes) (ts : gmap UUID bytes) : option UUID :=
  fst <$> head (map_to_list (select_where (of_domain domain) ts)).

(** INSERT ... ON CONFLICT (domain) DO NOTHING. *)
Definition insert_tenant (id : UUID) (domain : bytes) (ts : gmap UUID bytes) :
    result serr (gmap UUID bytes) :=
  match tenant_of domain ts with
  | Some _ => Ok ts
  | None => match ts !! id with Some _ => Err SqlUnique | None => Ok (<[id := domain]> ts) end
  end.

(** EnsureTenant, statement by statement, so that calls can interleave. *)
Inductive ensure := ELookup | EInsert | ERefetch | EDone (r : result serr UUID).

Definition ensure_step (up : bool) (fresh : UUID) (domain : bytes) (s : ensure)
    (ts : gmap UUID bytes) : ensure * gmap UUID bytes :=
  match s with
  | ELookup =>
      if negb up then (EDone (Err SqlFailed), ts)
      else match tenant_of domain ts with Some t => (EDone (Ok t), ts) | None => (EInsert, ts) end
  | EInsert =>
      if negb up then (EDone (Err SqlFailed), ts)
      else match insert_tenant fresh domain ts with
           | Ok ts => (ERefetch, ts)
           | Err e => (EDone (Err e), ts)
           end
  | ERefetch =>
      if negb up then (EDone (Err SqlFailed), ts)
      else match tenant_of domain ts with
           | Some t => (EDone (Ok t), ts)
           | None => (EDone (Err SqlNoRows), ts)
           end
  | EDone r => (EDone r, ts)
  end.

Definition EnsureTenant (up1 up2 up3 : bool) (fresh : UUID) (domain : bytes) (d : Db) :
    result serr UUID * Db :=
  let '(s, ts) := ensure_step up1 fresh domain ELookup (tenants d) in
  let '(s, ts) := ensure_step up2 fresh domain s ts in
  let '(s, ts) := ensure_step up3 fresh domain s ts in
  (match s with EDone r => r | _ => Err SqlFailed end, with_tenants ts d).

(** Callers, each with its domain, the id it would create and how far it is;
    a schedule says who executes the next statement, and whether it fails. *)
Record caller := mkCaller { c_domain : bytes; c_fresh : UUID; c_state : ensure }.

Definition caller_step (up : bool) (c : caller) (ts : gmap UUID bytes) : caller * gmap UUID bytes :=
  let '(s, ts) := ensure_step up (c_fresh c) (c_domain c) (c_state c) ts in
  (mkCaller (c_domain c) (c_fresh c) s, ts).

Fixpoint interleave (schedule : list (nat * bool)) (cs : list caller) (ts : gmap UUID bytes) :
    list caller * gmap UUID bytes :=
  match schedule with
  | [] => (cs, ts)
  | (i, up) :: schedule =>
      match cs !! i with
      | None => interleave schedule cs ts
      | Some c => let '(c, ts) := caller_step up c ts in interleave schedule (<[i := c]> cs) ts
      end
  end.

Definition unique_domains (ts : gmap UUID bytes) : Prop :=
  forall a b dom, ts !! a = Some dom -> ts !! b = Some dom -> a = b.

Lemma tenant_of_some dom ts t : tenant_of dom ts = Some t -> ts !! t = Some dom.
Proof.
  unfold tenant_of. destruct (head _) as [[k d]|] eqn:E; [|done]. cbn. intros [= <-].
  apply head_selected in E as [H Hp]. apply bool_decide_eq_true in Hp. cbn in H, Hp. by subst.
Qed.

Lemma tenant_of_none dom ts t : tenant_of dom ts = None -> ts !! t <> Some dom.
Proof.
  unfold tenant_of. destruct (map_to_list _) as [|[k d] l] eqn:E; [|done]. intros _ H.
  assert ((t, dom) ∈ map_to_list (select_where (of_domain dom) ts)) as Hin.
  { apply elem_of_map_to_list, lookup_select_where. split; [done|]. by apply bool_decide_eq_true. }
  rewrite E in Hin. by apply elem_of_nil in Hin.
Qed.

Lemma insert_tenant_keeps id dom ts ts' :
  insert_tenant id dom ts = Ok ts' -> unique_domains ts ->
  unique_domains ts' /\ ts ⊆ ts'.
Proof.
  unfold insert_tenant. destruct (tenant_of dom ts) eqn:Et; [by intros [= <-]|].
  destruct (ts !! id) eqn:Ei; [done|]. intros [= <-] Hu. split; [|by apply insert_subseteq].
  intros a b x [[<- <-]|[Ha Hxa]]%lookup_insert_Some [[<- E]|[Hb Hxb]]%lookup_insert_Some; try done.
  - by apply (tenant_of_none _ _ b) in Et.
  - subst x. by apply (tenant_of_none _ _ a) in Et.
  - by eapply Hu.
Qed.

(** Whoever is done has the tenant the table has. *)
Definition answered (ts : gmap UUID bytes) (c : caller) : Prop :=
  match c_state c with EDone (Ok t) => ts !! t = Some (c_domain c) | _ => True end.

Lemma caller_step_keeps up c ts :
  unique_domains ts -> answered ts c ->
  let '(c', ts') := caller_step up c ts in
  unique_domains ts' /\ ts ⊆ ts' /\ answered ts' c' /\ c_domain c' = c_domain c.
Proof.
  intros Hu Ha. unfold caller_step, ensure_step, answered in *.
  destruct (c_state c) as [| | |r]; cbn [c_state c_domain];
    [destruct up; cbn [negb]..|]; try by split_and!.
  - destruct (tenant_of _ _) as [t|] eqn:E; cbn; split_and!; try done. by apply tenant_of_some.
  - destruct (insert_tenant _ _ _) as [ts'|] eqn:E; cbn; [|by split_and!].
    destruct (insert_tenant_keeps _ _ _ _ E Hu). by split_and!.
  - destruct (tenant_of _ _) as [t|] eqn:E; cbn; split_and!; try done. by apply tenant_of_some.
Qed.

Lemma answered_mono ts ts' c : ts ⊆ ts' -> answered ts c -> answered ts' c.
Proof.
  unfold answered. intros Hs. destruct (c_state c) as [| | |[t|]]; try done.
  intros H. by eapply lookup_weaken.
Qed.

Lemma interleave_keeps schedule cs ts :
  unique_domains ts -> Forall (answered ts) cs ->
  let '(cs', ts') := interleave schedule cs ts in
  unique_domains ts' /\ ts ⊆ ts' /\ Forall (answered ts') cs'.
Proof.
  revert cs ts. induction schedule as [|[i up] schedule IH]; intros cs ts Hu Ha; cbn; [done|].
  destruct (cs !! i) as [c|] eqn:Ei; [|by apply IH].
  pose proof (caller_step_keeps up c ts Hu) as Hs. destruct (caller_step up c ts) as [c' ts1].
  destruct Hs as (Hu1 & Hsub & Hc & _); [by eapply Forall_lookup_1 in Ha|].
  specialize (IH (<[i := c']> cs) ts1 Hu1). destruct (interleave _ _ _) as [cs' ts'].
  destruct IH as (? & ? & ?).
  - apply Forall_insert; [|done]. eapply Forall_impl; [exact Ha|]. intros x. by apply answered_mono.
  - split_and!; try done. by etransitivity.
Qed.

(** C30. Racing calls of EnsureTenant agree: however many callers interleave
    their statements, and whichever of those fail, no two tenants ever have
    one domain, no tenant is lost, and any two callers that succeed for the
    same domain return the same tenant, which is the one of that domain. *)
Theorem ensure_tenant_agrees schedule cs ts :
  unique_domains ts -> Forall (fun c => c_state c = ELookup) cs ->
  let cs' := (interleave schedule cs ts).1 in let ts' := (interleave schedule cs ts).2 in
  unique_domains ts' /\ ts ⊆ ts' /\
  forall i j ci cj a b, cs' !! i = Some ci -> cs' !! j = Some cj ->
    c_domain ci = c_domain cj -> c_state ci = EDone (Ok a) -> c_state cj = EDone (Ok b) ->
    a = b /\ ts' !! a = Some (c_domain ci).
Proof.
  intros Hu Hc. pose proof (interleave_keeps schedule cs ts Hu) as Hk.
  destruct (interleave schedule cs ts) as [cs' ts']. cbn [fst snd]. destruct Hk as (Hu' & Hs & Ha).
  { eapply Forall_impl; [exact Hc|]. intros c E. unfold answered. by rewrite E. }
  split_and!; try done. intros i j ci cj a b Hi Hj Hd Hsa Hsb.
  pose proof (Forall_lookup_1 _ _ _ _ Ha Hi) as H1. pose proof (Forall_lookup_1 _ _ _ _ Ha Hj) as H2.
  unfold answered in H1, H2. rewrite Hsa in H1. rewrite Hsb in H2. split; [|done].
  eapply Hu'; [exact H1|]. by rewrite Hd.
Qed.

(** * Folders *)

Definition CreateFolder (ok : string -> bool) (id : UUID) (f : Folder) (d : Db) :
    result serr unit * Db :=
  match insert_folder ok id f d with Ok d => (Ok tt, d) | Err e => (Err e, d) end.

Definition owned (user tenant : UUID) (f : Folder) : bool :=
  bool_decide (FolderUser f = user) && bool_decide (FolderTenant f = tenant).

Definition typed (user tenant : UUID) (type : string) (_ : UUID) (f : Folder) : bool :=
  owned user tenant f && String.eqb (FolderType f) type.

Definition GetFolderByType (up : bool) (user tenant : UUID) (type : string) (d : Db) :
    result serr (UUID * Folder) :=
  if up then of_option SqlNoRows (head (map_to_list (select_where (typed user tenant type) (folders d))))
  else Err SqlFailed.

Definition GetFolderByID (up : bool) (user tenant id : UUID) (d : Db) :
    result serr (option (UUID * Folder)) :=
  if up then Ok (f ← folders d !! id; if owned user tenant f then Some (id, f) else None)
  else Err SqlFailed.

(** What DELETE leaves of the messages that refer to the folder: there must be
    none. *)
Definition delete_folder_row (ok : string -> bool) (id user tenant : UUID) (d : Db) : result serr Db :=
  if negb (ok "delete"%string) then Err SqlFailed
  else match folders d !! id with
       | Some f =>
           if negb (owned user tenant f) then Err SqlNoRows
           else if bool_decide (select_where (fun _ m => bool_decide (MessageFolder m = id)) (messages d) = ∅)
                then Ok (with_folders (delete id (folders d)) d)
                else Err SqlFailed
       | None => Err SqlNoRows
       end.

Definition move_messages (to from user tenant : UUID) (ms : gmap UUID Message) : gmap UUID Message :=
  update_where (fun _ m => bool_decide (MessageFolder m = from) && bool_decide (MessageUser m = user) &&
                           bool_decide (MessageTenant m = tenant))
    (fun m => mkMessage (MessageUser m) (MessageTenant m) to (Content m)) ms.

Definition delete_folder_body (ok : string -> bool) (id user tenant : UUID) (d : Db) : result serr Db :=
  if negb (ok "lock"%string) then Err SqlFailed
  else match folders d !! id with
       | None => Err SqlNoRows
       | Some f =>
           if negb (owned user tenant f) then Err SqlNoRows
           else if negb (String.eqb (FolderType f) FolderCustom) then Err SqlRefused
           else if negb (ok "trash"%string) then Err SqlFailed
           else match head (map_to_list (select_where (typed user tenant FolderTrash) (folders d))) with
                | None => Err SqlNoRows
                | Some (trashID, _) =>
                    if negb (ok "move"%string) then Err SqlFailed
                    else delete_folder_row ok id user tenant
                           (with_messages (move_messages trashID id user tenant (messages d)) d)
                end
       end.

Definition DeleteFolder (ok : string -> bool) (id user tenant : UUID) : Db -> result serr unit * Db :=
  atomically ok (delete_folder_body ok id user tenant).

Definition RenameFolder (up : bool) (id user tenant : UUID) (name : bytes) (d : Db) :
    result serr unit * Db :=
  if negb up then (Err SqlFailed, d)
  else match folders d !! id with
       | Some f =>
           if owned user tenant f
           then (Ok tt, with_folders (<[id := mkFolder (FolderUser f) (FolderTenant f) name (FolderType f)
                                            (SortOrder f) (ParentID f)]> (folders d)) d)
           else (Err SqlNoRows, d)
       | None => (Err SqlNoRows, d)
       end.

Definition filed (d : Db) : Prop :=
  forall k m, messages d !! k = Some m -> is_Some (folders d !! MessageFolder m).

Lemma delete_folder_ok ok id user tenant d d' :
  delete_folder_body ok id user tenant d = Ok d' ->
  exists f trash t, folders d !! id = Some f /\ FolderType f = FolderCustom /\ owned user tenant f = true /\
    folders d !! trash = Some t /\ typed user tenant FolderTrash trash t = true /\
    (forall k m, move_messages trash id user tenant (messages d) !! k = Some m -> MessageFolder m <> id) /\
    d' = with_folders (delete id (folders d))
           (with_messages (move_messages trash id user tenant (messages d)) d).
Proof.
  unfold delete_folder_body. intros H. destruct (ok "lock"%string); [|done]. cbn [negb] in H.
  destruct (folders d !! id) as [f|] eqn:Ef; [|done].
  destruct (owned user tenant f) eqn:Eo; [|done]. cbn [negb] in H.
  destruct (String.eqb_spec (FolderType f) FolderCustom) as [Et|]; [|done]. cbn [negb] in H.
  destruct (ok "trash"%string); [|done]. cbn [negb] in H.
  destruct (head _) as [[trash t]|] eqn:Eh; [|done].
  destruct (ok "move"%string); [|done]. cbn [negb] in H.
  unfold delete_folder_row in H. destruct (ok "delete"%string); [|done].
  cbn [negb folders with_messages] in H. rewrite Ef, Eo in H. cbn [negb] in H.
  case_bool_decide as Hempty; [|done]. injection H as <-. apply head_selected in Eh as [Htr Hty].
  exists f, trash, t. split_and!; try done.
  apply map_size_empty_iff in Hempty. change (size _) with (affected (fun _ m => bool_decide (MessageFolder m = id))
    (move_messages trash id user tenant (messages d))) in Hempty.
  rewrite affected_zero in Hempty. intros k m Hk. apply Hempty in Hk. by apply bool_decide_eq_false in Hk.
Qed.

(** Where the move puts a message, when it leaves none in the folder. *)
Lemma moved_message trash id user tenant ms k m :
  (forall k m, move_messages trash id user tenant ms !! k = Some m -> MessageFolder m <> id) ->
  ms !! k = Some m ->
  move_messages trash id user tenant ms !! k =
    Some (if bool_decide (MessageFolder m = id)
          then mkMessage (MessageUser m) (MessageTenant m) trash (Content m) else m).
Proof.
  intros Hn Hk. specialize (Hn k). unfold move_messages in *. rewrite lookup_update_where, Hk in *.
  cbn in *. destruct (decide (MessageFolder m = id)) as [E|E].
  - rewrite (bool_decide_eq_true_2 (MessageFolder m = id)) in * by done. cbn [andb] in *.
    destruct (_ && _)%bool; [done|]. by destruct (Hn m eq_refl).
  - by rewrite (bool_decide_eq_false_2 (MessageFolder m = id)) by done.
Qed.

(** Deleting a folder loses no mail: an attempt that fails changes nothing;
    one that succeeds was on a custom folder of the caller, removes exactly that
    folder, keeps every message with its content and owner, moves those of the
    folder into a trash folder of the caller and leaves every other where it
    was, so that every message still is in a folder that exists. *)
Theorem folder_deletion_keeps_mail ok id user tenant d :
  filed d ->
  let d' := (DeleteFolder ok id user tenant d).2 in
  filed d' /\
  match (DeleteFolder ok id user tenant d).1 with
  | Err _ => d' = d
  | Ok _ =>
      (exists f, folders d !! id = Some f /\ FolderType f = FolderCustom /\ owned user tenant f = true) /\
      folders d' = delete id (folders d) /\
      exists trash t, folders d' !! trash = Some t /\ typed user tenant FolderTrash trash t = true /\
        forall k m, messages d !! k = Some m ->
          messages d' !! k = Some (if bool_decide (MessageFolder m = id)
            then mkMessage (MessageUser m) (MessageTenant m) trash (Content m) else m)
  end.
Proof.
  intros Hfiled. unfold DeleteFolder.
  pose proof (atomically_spec ok (delete_folder_body ok id user tenant) d) as Ha.
  destruct (atomically _ _ _) as [[[]|e] d']; cbn [fst snd]; [|by subst].
  destruct Ha as (_ & _ & H). apply delete_folder_ok in H as (f & trash & t & Ef & Et & Eo & Htr & Hty & Hn & ->).
  pose proof (fun k m => moved_message trash id user tenant (messages d) k m Hn) as Hm.
  assert (delete id (folders d) !! trash = Some t) as Htr'.
  { rewrite lookup_delete_ne; [done|]. intros ->. rewrite Ef in Htr. injection Htr as <-.
    apply andb_true_iff in Hty as [_ Hty]. apply String.eqb_eq in Hty. by rewrite Et in Hty. }
  split; [|split_and!; [by exists f|done|by exists trash, t]].
  intros k m' Hk. pose proof (Hn k m' Hk) as Hne. cbn in Hk |- *. rewrite lookup_delete_ne by done.
  destruct (messages d !! k) as [m|] eqn:Ek;
    [|unfold move_messages in Hk; by rewrite lookup_update_where, Ek in Hk].
  rewrite (Hm k m Ek) in Hk. injection Hk as <-. case_bool_decide as E; [by exists t|by eapply Hfiled].
Qed.

(** * Roles *)

(** A missing key of a Go map reads as zero. *)
Definition roleLevel (role : string) : Z :=
  if String.eqb role "admin" then 1 else if String.eqb role "owner" then 2 else 0.

Definition AssignRole (up : bool) (user tenant : UUID) (role : string) (d : Db) :
    result serr unit * Db :=
  if up then (Ok tt, with_roles (<[(user, tenant) := role]> (tenant_roles d)) d) else (Err SqlFailed, d).

Definition GetRole (up : bool) (user tenant : UUID) (d : Db) : result serr string :=
  if up then Ok (default ""%string (tenant_roles d !! (user, tenant))) else Err SqlFailed.

Definition HasRole (up : bool) (user tenant : UUID) (minRole : string) (d : Db) : result serr bool :=
  role ← GetRole up user tenant d;
  if String.eqb role "" then Ok false else Ok (roleLevel minRole <=? roleLevel role).

Definition RemoveRole (up : bool) (user tenant : UUID) (d : Db) : result serr unit * Db :=
  if negb up then (Err SqlFailed, d)
  else match tenant_roles d !! (user, tenant) with
       | None => (Err SqlNoRows, d)
       | Some _ => (Ok tt, with_roles (delete (user, tenant) (tenant_roles d)) d)
       end.

(** A role gives the rights of every lower one. *)
Lemma roles_ordered user tenant lower higher d :
  roleLevel lower <= roleLevel higher ->
  HasRole true user tenant higher d = Ok true -> HasRole true user tenant lower d = Ok true.
Proof.
  unfold HasRole, GetRole. cbn [mbind result_bind]. destruct (String.eqb _ ""); [done|].
  intros Hle [= Hh]. f_equal. apply Z.leb_le in Hh. apply Z.leb_le. lia.
Qed.

Lemma removed_role_is_gone user tenant minRole d d' :
  RemoveRole true user tenant d = (Ok tt, d') -> HasRole true user tenant minRole d' = Ok false.
Proof.
  unfold RemoveRole. cbn [negb]. destruct (tenant_roles d !! (user, tenant)); [|done]. intros [= <-].
  unfold HasRole, GetRole. cbn. by rewrite lookup_delete_eq.
Qed.

(** A role the map does not have asks for nothing: every member passes. *)
Lemma unknown_role_asks_nothing user tenant role minRole d :
  tenant_roles d !! (user, tenant) = Some role -> role <> ""%string ->
  minRole <> "admin"%string -> minRole <> "owner"%string ->
  HasRole true user tenant minRole d = Ok true.
Proof.
  intros Hr Hne Ha Ho. unfold HasRole, GetRole. rewrite Hr. cbn [mbind result_bind from_option id].
  unfold id. destruct (String.eqb_spec role ""); [done|]. f_equal. apply Z.leb_le. unfold roleLevel at 1.
  destruct (String.eqb_spec minRole "admin"); [done|]. destruct (String.eqb_spec minRole "owner"); [done|].
  unfold roleLevel. destruct (String.eqb role "admin"), (String.eqb role "owner"); lia.
Qed.

(** * Keys and credentials

One UPDATE each, by the id of the user. *)

Definition on_keys (f : Keys -> Keys) (u : User) : User :=
  mkUser (UserTenant u) (Address u) (AccountType u) (life u) (bounces u) (fake u) (f (keys u))
    (auth u) (billing u).
Definition on_auth (f : Auth -> Auth) (u : User) : User :=
  mkUser (UserTenant u) (Address u) (AccountType u) (life u) (bounces u) (fake u) (keys u)
    (f (auth u)) (billing u).
Definition on_billing (f : Billing -> Billing) (u : User) : User :=
  mkUser (UserTenant u) (Address u) (AccountType u) (life u) (bounces u) (fake u) (keys u)
    (auth u) (f (billing u)).

Definition set_by_id (up : bool) (id : UUID) (f : User -> User) (us : gmap UUID User) :
    result serr nat * gmap UUID User := exec up (mkUpdate (by_id id) f) us.

(** No such user is an error. *)
Definition set_existing (up : bool) (id : UUID) (f : User -> User) (us : gmap UUID User) :
    result serr unit * gmap UUID User := requiring SqlNoRows (set_by_id up id f us).

Definition UpdateUserKeys (up : bool) (id : UUID) (priv rec opaque : bytes) :=
  set_existing up id (fun u =>
    on_auth (fun a => mkAuth opaque (OpaqueRecoveryRegistration a) (RecoveryBlob a) (KeyEpoch a) 2)
      (on_keys (fun k => mkKeys (PublicKeyEncryption k) (PublicKeySigning k) priv rec (PublicKeyKEM k)
         (EncryptedPrivateKeyKEM k) (PGPPublicKey k) (TOTPSecretEncrypted k) (TOTPEnabled k)
         (TOTPBackupCodes k)) u)).

Definition UpdateEncryptedRecoveryKey (up : bool) (id : UUID) (rec : bytes) (version : Z) :=
  set_existing up id (fun u =>
    on_auth (fun a => mkAuth (OpaqueRegistration a) (OpaqueRecoveryRegistration a) (RecoveryBlob a)
                        (KeyEpoch a) version)
      (on_keys (fun k => mkKeys (PublicKeyEncryption k) (PublicKeySigning k) (EncryptedPrivateKey k) rec
         (PublicKeyKEM k) (EncryptedPrivateKeyKEM k) (PGPPublicKey k) (TOTPSecretEncrypted k)
         (TOTPEnabled k) (TOTPBackupCodes k)) u)).

Definition UpdateRecoveryOPAQUE (up : bool) (id : UUID) (reg blob : bytes) :=
  set_existing up id (on_auth (fun a =>
    mkAuth (OpaqueRegistration a) reg blob (KeyEpoch a) (RecoveryVersion a))).

Definition UpdateUserPublicKeys (up : bool) (id : UUID) (enc sign : bytes) :=
  set_existing up id (on_keys (fun k =>
    mkKeys enc sign (EncryptedPrivateKey k) (EncryptedRecoveryKey k) (PublicKeyKEM k)
      (EncryptedPrivateKeyKEM k) (PGPPublicKey k) (TOTPSecretEncrypted k) (TOTPEnabled k)
      (TOTPBackupCodes k))).

Definition UpdateUserKEMKeys (up : bool) (id : UUID) (pub priv : bytes) :=
  set_existing up id (on_keys (fun k =>
    mkKeys (PublicKeyEncryption k) (PublicKeySigning k) (EncryptedPrivateKey k)
      (EncryptedRecoveryKey k) pub priv (PGPPublicKey k) (TOTPSecretEncrypted k) (TOTPEnabled k)
      (TOTPBackupCodes k))).

Definition UpdatePGPPublicKey (up : bool) (id : UUID) (armored : bytes) (us : gmap UUID User) :=
  ignoring (set_by_id up id (on_keys (fun k =>
    mkKeys (PublicKeyEncryption k) (PublicKeySigning k) (EncryptedPrivateKey k)
      (EncryptedRecoveryKey k) (PublicKeyKEM k) (EncryptedPrivateKeyKEM k) (Some armored)
      (TOTPSecretEncrypted k) (TOTPEnabled k) (TOTPBackupCodes k))) us).

Definition GetPGPPublicKeyByAddress (up : bool) (address : bytes) (us : gmap UUID User) :
    result serr bytes :=
  if up then of_option SqlNoRows ((fun kr => default [] (PGPPublicKey (keys kr.2))) <$>
               head (map_to_list (select_where (fun _ u => bool_decide (Address u = address)) us)))
  else Err SqlFailed.

Definition set_totp (secret : option bytes) (enabled : bool) (codes : option bytes) (k : Keys) : Keys :=
  mkKeys (PublicKeyEncryption k) (PublicKeySigning k) (EncryptedPrivateKey k)
    (EncryptedRecoveryKey k) (PublicKeyKEM k) (EncryptedPrivateKeyKEM k) (PGPPublicKey k)
    secret enabled codes.

Definition SetTOTPSecret (up : bool) (id : UUID) (secret : bytes) :=
  set_existing up id (on_keys (fun k => set_totp (Some secret) (TOTPEnabled k) (TOTPBackupCodes k) k)).
Definition EnableTOTP (up : bool) (id : UUID) (codes : bytes) :=
  set_existing up id (on_keys (fun k => set_totp (TOTPSecretEncrypted k) true (Some codes) k)).
Definition DisableTOTP (up : bool) (id : UUID) :=
  set_existing up id (on_keys (set_totp None false None)).
Definition UseTOTPBackupCode (up : bool) (id : UUID) (codes : bytes) :=
  set_existing up id (on_keys (fun k =>
    set_totp (TOTPSecretEncrypted k) (TOTPEnabled k) (Some codes) k)).

Definition UpdateUserTier (up : bool) (id : UUID) (tier : string) :=
  set_existing up id (on_life (set_tier tier)).
Definition SetUserStripeCustomerID (up : bool) (id : UUID) (c : bytes) (us : gmap UUID User) :=
  ignoring (set_by_id up id (on_billing (fun b =>
    mkBilling (Some c) (StripeSubscriptionID b) (StorageUsedBytes b) (StorageBlocks b))) us).
Definition SetUserStripeSubscriptionID (up : bool) (id : UUID) (s : bytes) (us : gmap UUID User) :=
  ignoring (set_by_id up id (on_billing (fun b =>
    mkBilling (StripeCustomerID b) (Some s) (StorageUsedBytes b) (StorageBlocks b))) us).

(** An update of an existing user succeeds, changes that user and no other. *)
Lemma set_existing_spec id f us u :
  us !! id = Some u -> set_existing true id f us = (Ok tt, <[id := f u]> us).
Proof.
  intros Hu. unfold set_existing, set_by_id, exec, requiring. cbn [upd_where upd_set].
  destruct (affected (by_id id) us) as [|n] eqn:E.
  { rewrite affected_zero in E. specialize (E id u Hu). unfold by_id in E.
    by rewrite bool_decide_eq_true_2 in E. }
  f_equal. apply map_eq. intros k. rewrite lookup_update_where. unfold by_id.
  destruct (decide (k = id)) as [->|Hne].
  - by rewrite lookup_insert_eq, Hu; cbn; rewrite bool_decide_eq_true_2.
  - rewrite lookup_insert_ne by done. destruct (us !! k); cbn; [|done].
    by rewrite bool_decide_eq_false_2.
Qed.

(** * Examples *)

Definition reg_db : Db :=
  mkDb demo_db ∅ ∅ {[bs "inv" := mkInvitation (bs "t") "pending"]} ∅ {[bs "t" := bs "b.org"]}.

Definition new_user (address : bytes) : User :=
  mkUser (bs "t") address "" (mkLife "" "free" 0 None None None) (mkBounces 0 None) no_fake
    (mkKeys (bs "e") (bs "s") (bs "p") (bs "r") [] [] None None false None) (mkAuth (bs "o") [] [] 1 0)
    (mkBilling None None 0 0).

Definition ids_from (p : string) (t : string) : UUID := bs p ++ bs t.

(** One invitation, two accounts: nothing asks whether it is still pending. *)
Lemma invitation_is_reusable :
  let '(r1, d1) := RegisterInvitedUser (fun _ => true) (ids_from "x") (new_user []) (bs "n1")
                     (new_user (bs "n1@b.org")) (bs "inv") reg_db in
  let '(r2, d2) := RegisterInvitedUser (fun _ => true) (ids_from "y") (new_user []) (bs "n2")
                     (new_user (bs "n2@b.org")) (bs "inv") d1 in
  r1 = Ok tt /\ r2 = Ok tt /\ HasRole true (bs "n2") (bs "t") "member" d2 = Ok true.
Proof. by vm_compute. Qed.

Lemma ensure_tenant_agrees_witness :
  let c id := mkCaller (bs "new.org") (bs id) ELookup in
  let r := interleave [(0%nat, true); (1%nat, true); (1%nat, true); (0%nat, true); (0%nat, true);
                       (1%nat, true)] [c "a"; c "b"] {[bs "t" := bs "b.org"]} in
  (c_state <$> r.1) = [EDone (Ok (bs "b")); EDone (Ok (bs "b"))] /\ unique_domains r.2.
Proof.
  intros c r. split; [by vm_compute|].
  apply (ensure_tenant_agrees [(0%nat, true); (1%nat, true); (1%nat, true); (0%nat, true); (0%nat, true);
    (1%nat, true)] [c "a"%string; c "b"%string] {[bs "t" := bs "b.org"]}).
  - intros x y dom Hx Hy. apply lookup_singleton_Some in Hx as [<- _].
    by apply lookup_singleton_Some in Hy as [<- _].
  - by repeat constructor.
Defined.

Definition folder_db : Db :=
  mkDb ∅
    {[bs "trash" := mkFolder (bs "u") (bs "t") [] FolderTrash 3 None;
      bs "mine" := mkFolder (bs "u") (bs "t") [] FolderCustom 9 None]}
    {[bs "m1" := mkMessage (bs "u") (bs "t") (bs "mine") (bs "hello")]} ∅ ∅ ∅.

Lemma folder_deletion_keeps_mail_witness :
  (DeleteFolder (fun _ => true) (bs "mine") (bs "u") (bs "t") folder_db).1 = Ok tt /\
  filed (DeleteFolder (fun _ => true) (bs "mine") (bs "u") (bs "t") folder_db).2.
Proof.
  split; [by vm_compute|].
  refine (proj1 (folder_deletion_keeps_mail (fun _ => true) (bs "mine") (bs "u") (bs "t") folder_db _)).
  intros k m Hm. cbn [messages folder_db] in Hm. apply lookup_singleton_Some in Hm as [_ <-]. by eexists.
Defined.
