(* ===== verification/Drive.v ===== *)
(** internal/storage/drive_store.go, folders: the rows, the epochs of a folder's
    keys, and the members it is shared with.  A folder has a key per epoch,
    wrapped for each member; every change of members opens a new epoch.
    Shown: every folder has a name at its current epoch and epochs are
    numbered without gaps; a removed member has no key of the folder until one
    is made for them; sharing a folder can keep its subfolders from ever being
    shared; the backfill of past keys stores one key for every epoch. *)

From S2P Require Import Prelude Sql.

#[local] Open Scope Z_scope.

Abbreviation UUID := (list byte) (only parsing).

(** * Rows *)

Record DriveFolder := mkFolder {
  FUser : UUID;
  FTenant : UUID;
  ParentID : option UUID;
  CurrentEpoch : Z;
  FCreatedAt : Z;
  FUpdatedAt : Z
}.

Record DriveFolderEpochKey := mkEpochKey {
  ek_tenant : UUID;
  WrappedFCK : bytes;
  WrappedFCKEphPubkey : bytes
}.

Record DriveFolderShareMember := mkMember {
  m_tenant : UUID;
  OwnerUserID : UUID;
  JoinedEpoch : Z;
  PastEpochAccess : bool;
  CanEdit : bool;
  ExpiresAt : option Z;
  CreatedAt : Z
}.

Record DriveFile := mkFile {
  FileUser : UUID;
  FileTenant : UUID;
  FolderID : option UUID;
  EncryptedName : bytes;
  EncryptedContentType : bytes;
  SizeBytes : Z;
  OriginalSizeBytes : option Z;
  BlobRef : bytes;
  EphemeralPubkey : bytes;
  EncryptedFileKey : bytes;
  FCKWrappedMessageKey : option bytes;
  Epoch : Z;
  EncryptionFormat : bytes;
  ChunkCount : Z;
  UploadComplete : bool;
  Starred : bool;
  Trashed : bool;
  TrashedAt : option Z;
  FileCreatedAt : Z;
  FileUpdatedAt : Z
}.

Record Db := mkDb {
  drive_folders : gmap UUID DriveFolder;
  drive_folder_epoch_keys : gmap (UUID * Z * UUID) DriveFolderEpochKey;
  drive_folder_epoch_names : gmap (UUID * Z) bytes;
  drive_folder_shares : gmap (UUID * UUID) DriveFolderShareMember;
  drive_files : gmap UUID DriveFile
}.

#[export] Instance drive_folder_eq_dec : EqDecision DriveFolder.
Proof. solve_decision. Defined.
#[export] Instance epoch_key_eq_dec : EqDecision DriveFolderEpochKey.
Proof. solve_decision. Defined.
#[export] Instance drive_file_eq_dec : EqDecision DriveFile.
Proof. solve_decision. Defined.

Definition empty_drive : Db := mkDb ∅ ∅ ∅ ∅ ∅.

Definition with_folders (x : gmap UUID DriveFolder) (d : Db) : Db :=
  mkDb x (drive_folder_epoch_keys d) (drive_folder_epoch_names d) (drive_folder_shares d) (drive_files d).
Definition with_keys (x : gmap (UUID * Z * UUID) DriveFolderEpochKey) (d : Db) : Db :=
  mkDb (drive_folders d) x (drive_folder_epoch_names d) (drive_folder_shares d) (drive_files d).
Definition with_names (x : gmap (UUID * Z) bytes) (d : Db) : Db :=
  mkDb (drive_folders d) (drive_folder_epoch_keys d) x (drive_folder_shares d) (drive_files d).
Definition with_members (x : gmap (UUID * UUID) DriveFolderShareMember) (d : Db) : Db :=
  mkDb (drive_folders d) (drive_folder_epoch_keys d) (drive_folder_epoch_names d) x (drive_files d).
Definition with_files (x : gmap UUID DriveFile) (d : Db) : Db :=
  mkDb (drive_folders d) (drive_folder_epoch_keys d) (drive_folder_epoch_names d)
    (drive_folder_shares d) x.

(** * Statements

[ok]: which of its statements the database executes. *)

Definition atomically {A : Type} (ok : string -> bool) (body : Db -> result serr (A * Db)) (d : Db) :
    result serr A * Db :=
  if negb (ok "begin"%string) then (Err SqlFailed, d)
  else match body d with
       | Err e => (Err e, d)
       | Ok (a, d') => if ok "commit"%string then (Ok a, d') else (Err SqlFailed, d)
       end.

(** A parent must exist. *)
Definition parent_exists (parent : option UUID) (d : Db) : bool :=
  match parent with
  | None => true
  | Some p => match drive_folders d !! p with Some _ => true | None => false end
  end.

Definition insert_folder (ok : string -> bool) (id : UUID) (f : DriveFolder) (d : Db) : result serr Db :=
  if negb (ok "insert folder"%string) then Err SqlFailed
  else match drive_folders d !! id with
       | Some _ => Err SqlUnique
       | None => if parent_exists (ParentID f) d
                 then Ok (with_folders (<[id := f]> (drive_folders d)) d) else Err SqlFailed
       end.

(** One key per folder, epoch and member. *)
Definition insert_key (ok : string -> bool) (k : UUID * Z * UUID) (v : DriveFolderEpochKey) (d : Db) :
    result serr Db :=
  if negb (ok "insert key"%string) then Err SqlFailed
  else match drive_folder_epoch_keys d !! k with
       | Some _ => Err SqlUnique
       | None => Ok (with_keys (<[k := v]> (drive_folder_epoch_keys d)) d)
       end.

(** One name per folder and epoch. *)
Definition insert_name (ok : string -> bool) (folder : UUID) (epoch : Z) (name : bytes) (d : Db) :
    result serr Db :=
  if negb (ok "insert name"%string) then Err SqlFailed
  else match drive_folder_epoch_names d !! (folder, epoch) with
       | Some _ => Err SqlUnique
       | None => Ok (with_names (<[(folder, epoch) := name]> (drive_folder_epoch_names d)) d)
       end.

Record CreateFolderInput := mkCreate {
  cf_user : UUID; cf_tenant : UUID; cf_parent : option UUID;
  cf_WrappedFCK : bytes; cf_WrappedFCKEph : bytes; cf_EncryptedName : bytes
}.

(** [id]: the folder's, or a new one when it has none. *)
Definition create_body (ok : string -> bool) (now : Z) (id : UUID) (i : CreateFolderInput) (d : Db) :
    result serr (unit * Db) :=
  d ← insert_folder ok id (mkFolder (cf_user i) (cf_tenant i) (cf_parent i) 0 now now) d;
  d ← insert_key ok (id, 0, cf_user i) (mkEpochKey (cf_tenant i) (cf_WrappedFCK i) (cf_WrappedFCKEph i)) d;
  d ← insert_name ok id 0 (cf_EncryptedName i) d;
  Ok (tt, d).

Definition CreateFolder (ok : string -> bool) (now : Z) (id : UUID) (i : CreateFolderInput) :
    Db -> result serr unit * Db := atomically ok (create_body ok now id i).

Definition create_via_body (ok : string -> bool) (now : Z) (id user tenant : UUID)
    (parent : option UUID) (encryptedName : bytes) (d : Db) : result serr (unit * Db) :=
  d ← insert_folder ok id (mkFolder user tenant parent 0 now now) d;
  d ← insert_name ok id 0 encryptedName d;
  Ok (tt, d).

Definition CreateFolderViaSharedFolder (ok : string -> bool) (now : Z) (id user tenant : UUID)
    (parent : option UUID) (encryptedName : bytes) : Db -> result serr unit * Db :=
  atomically ok (create_via_body ok now id user tenant parent encryptedName).

Definition owned (user tenant : UUID) (f : DriveFolder) : bool :=
  bool_decide (FUser f = user) && bool_decide (FTenant f = tenant).

Definition GetFolder (up : bool) (user tenant id : UUID) (d : Db) : result serr DriveFolder :=
  if up then of_option SqlNoRows (f ← drive_folders d !! id; if owned user tenant f then Some f else None)
  else Err SqlFailed.

Definition GetFolderByID (up : bool) (id : UUID) (d : Db) : result serr DriveFolder :=
  if up then of_option SqlNoRows (drive_folders d !! id) else Err SqlFailed.

(** A new parent: any folder that exists. *)
Definition UpdateFolder (up : bool) (now : Z) (id user tenant : UUID) (parent : option UUID) (d : Db) :
    result serr unit * Db :=
  if negb up then (Err SqlFailed, d)
  else match drive_folders d !! id with
       | Some f =>
           if negb (owned user tenant f) then (Err SqlNoRows, d)
           else if parent_exists parent d
                then (Ok tt, with_folders (<[id := mkFolder (FUser f) (FTenant f) parent (CurrentEpoch f)
                                                  (FCreatedAt f) now]> (drive_folders d)) d)
                else (Err SqlFailed, d)
       | None => (Err SqlNoRows, d)
       end.

Definition UpdateFolderName (up : bool) (id : UUID) (name : bytes) (d : Db) : result serr unit * Db :=
  if negb up then (Err SqlFailed, d)
  else match drive_folders d !! id with
       | None => (Err SqlNoRows, d)
       | Some f =>
           match drive_folder_epoch_names d !! (id, CurrentEpoch f) with
           | None => (Err SqlNoRows, d)
           | Some _ =>
               (Ok tt, with_names (<[(id, CurrentEpoch f) := name]> (drive_folder_epoch_names d)) d)
           end
       end.

Definition GetEpochNameForFolder (up : bool) (id : UUID) (epoch : Z) (d : Db) : result serr bytes :=
  if up then of_option SqlNoRows (drive_folder_epoch_names d !! (id, epoch)) else Err SqlFailed.

(** For a negative epoch the statement has one parameter and is given two
    arguments, which the driver refuses. *)
Definition GetFolderEpochName (up : bool) (id : UUID) (epoch : Z) (d : Db) : result serr bytes :=
  if epoch <? 0 then Err SqlRefused else GetEpochNameForFolder up id epoch d.

(** ** Epochs *)

Record EpochKeyWrap := mkWrap { RecipientUserID : UUID; kw_fck : bytes; kw_eph : bytes }.
Record FCKFileWrapInput := mkFileWrap { fw_file : UUID; fw_key : bytes }.

Record ShareFolderEpochInput := mkShare {
  sf_folder : UUID;
  sf_owner : UUID;
  sf_tenant : UUID;
  NewEpochKeyWraps : list EpochKeyWrap;
  sf_name : bytes;
  FileWraps : list FCKFileWrapInput;
  SubFolderNames : list (UUID * bytes)
}.

Fixpoint insert_wraps (ok : string -> bool) (folder : UUID) (epoch : Z) (tenant : UUID)
    (ws : list EpochKeyWrap) (d : Db) : result serr Db :=
  match ws with
  | [] => Ok d
  | w :: ws =>
      d ← insert_key ok (folder, epoch, RecipientUserID w) (mkEpochKey tenant (kw_fck w) (kw_eph w)) d;
      insert_wraps ok folder epoch tenant ws d
  end.

(** ON CONFLICT DO UPDATE. *)
Definition upsert_names (epoch : Z) (ns : list (UUID * bytes)) (d : Db) : Db :=
  with_names (foldl (fun m n => <[(n.1, epoch) := n.2]> m) (drive_folder_epoch_names d) ns) d.

Definition file_owned (user tenant : UUID) (f : DriveFile) : bool :=
  bool_decide (FileUser f = user) && bool_decide (FileTenant f = tenant).

Definition set_wrap (key : bytes) (epoch now : Z) (f : DriveFile) : DriveFile :=
  mkFile (FileUser f) (FileTenant f) (FolderID f) (EncryptedName f) (EncryptedContentType f)
    (SizeBytes f) (OriginalSizeBytes f) (BlobRef f) (EphemeralPubkey f) (EncryptedFileKey f)
    (Some key) epoch (EncryptionFormat f) (ChunkCount f) (UploadComplete f) (Starred f) (Trashed f)
    (TrashedAt f) (FileCreatedAt f) now.

Definition wrap_files (user tenant : UUID) (epoch now : Z) (fws : list FCKFileWrapInput) (d : Db) : Db :=
  with_files (foldl (fun m fw =>
      update_where (fun k f => bool_decide (k = fw_file fw) && file_owned user tenant f)
        (set_wrap (fw_key fw) epoch now) m) (drive_files d) fws) d.

Definition bump_epoch (now : Z) (f : DriveFolder) : DriveFolder :=
  mkFolder (FUser f) (FTenant f) (ParentID f) (CurrentEpoch f + 1) (FCreatedAt f) now.

Definition advance_body (ok : string -> bool) (now : Z) (i : ShareFolderEpochInput) (d : Db) :
    result serr (Z * Db) :=
  if negb (ok "advance"%string) then Err SqlFailed
  else match drive_folders d !! sf_folder i with
       | None => Err SqlNoRows
       | Some f =>
           if negb (owned (sf_owner i) (sf_tenant i) f) then Err SqlNoRows
           else
             let epoch := CurrentEpoch f + 1 in
             let d := with_folders (<[sf_folder i := bump_epoch now f]> (drive_folders d)) d in
             d ← insert_wraps ok (sf_folder i) epoch (sf_tenant i) (NewEpochKeyWraps i) d;
             d ← insert_name ok (sf_folder i) epoch (sf_name i) d;
             if negb (ok "subfolder names"%string) then Err SqlFailed
             else let d := upsert_names epoch (SubFolderNames i) d in
                  if negb (ok "file wraps"%string) then Err SqlFailed
                  else Ok (epoch, wrap_files (sf_owner i) (sf_tenant i) epoch now (FileWraps i) d)
       end.

Definition AdvanceFolderEpoch (ok : string -> bool) (now : Z) (i : ShareFolderEpochInput) :
    Db -> result serr Z * Db := atomically ok (advance_body ok now i).

Definition AddFolderShareMember (up : bool) (now : Z) (folder recipient tenant owner : UUID)
    (joined : Z) (past edit : bool) (expires : option Z) (d : Db) : result serr unit * Db :=
  if negb up then (Err SqlFailed, d)
  else (Ok tt, with_members (<[(folder, recipient) :=
      match drive_folder_shares d !! (folder, recipient) with
      | Some m => mkMember (m_tenant m) (OwnerUserID m) joined past edit expires (CreatedAt m)
      | None => mkMember tenant owner joined past edit expires now
      end]> (drive_folder_shares d)) d).

(** ON CONFLICT DO NOTHING. *)
Definition insert_key_once (k : UUID * Z * UUID) (v : DriveFolderEpochKey) (d : Db) : Db :=
  match drive_folder_epoch_keys d !! k with
  | Some _ => d
  | None => with_keys (<[k := v]> (drive_folder_epoch_keys d)) d
  end.

(** The loop over the wraps stops after its first, for every epoch. *)
Fixpoint backfill_loop (up : Z -> bool) (folder recipient tenant : UUID) (wraps : list EpochKeyWrap)
    (from : Z) (count : nat) (d : Db) : result serr unit * Db :=
  match count with
  | O => (Ok tt, d)
  | S count =>
      match wraps with
      | [] => backfill_loop up folder recipient tenant wraps (from + 1) count d
      | kw :: _ =>
          if up from
          then backfill_loop up folder recipient tenant wraps (from + 1) count
                 (insert_key_once (folder, from, recipient) (mkEpochKey tenant (kw_fck kw) (kw_eph kw)) d)
          else (Err SqlFailed, d)
      end
  end.

Definition BackfillEpochKeysForMember (up : Z -> bool) (folder recipient tenant : UUID)
    (wraps : list EpochKeyWrap) (fromEpoch toEpoch : Z) : Db -> result serr unit * Db :=
  backfill_loop up folder recipient tenant wraps fromEpoch (Z.to_nat (toEpoch - fromEpoch)).

Definition remove_body (ok : string -> bool) (folder recipient tenant : UUID) (d : Db) :
    result serr (unit * Db) :=
  if negb (ok "delete member"%string) then Err SqlFailed
  else if negb (ok "delete keys"%string) then Err SqlFailed
  else Ok (tt,
    with_keys (delete_where (fun k v => bool_decide (k.1.1 = folder) && bool_decide (k.2 = recipient) &&
                                        bool_decide (ek_tenant v = tenant)) (drive_folder_epoch_keys d))
      (with_members (delete_where (fun k m => bool_decide (k = (folder, recipient)) &&
                                              bool_decide (m_tenant m = tenant)) (drive_folder_shares d)) d)).

Definition RemoveFolderShareMember (ok : string -> bool) (folder recipient tenant : UUID) :
    Db -> result serr unit * Db := atomically ok (remove_body ok folder recipient tenant).

(** [ORDER BY epoch]: the epochs with their keys, as the map gives them. *)
Definition GetFolderEpochKeysForUser (up : bool) (folder recipient tenant : UUID) (d : Db) :
    result serr (gmap (UUID * Z * UUID) DriveFolderEpochKey) :=
  if up then Ok (select_where (fun k v => bool_decide (k.1.1 = folder) && bool_decide (k.2 = recipient) &&
                                          bool_decide (ek_tenant v = tenant)) (drive_folder_epoch_keys d))
  else Err SqlFailed.

Definition active (now : Z) (m : DriveFolderShareMember) : bool :=
  match ExpiresAt m with None => true | Some t => now <? t end.

Definition ListFolderShareMembers (up : bool) (now : Z) (folder tenant : UUID) (d : Db) :
    result serr (gmap (UUID * UUID) DriveFolderShareMember) :=
  if up then Ok (select_where (fun k m => bool_decide (k.1 = folder) && bool_decide (m_tenant m = tenant) &&
                                          active now m) (drive_folder_shares d))
  else Err SqlFailed.

(** ** Deleting a folder

The folders below go with it, whoever owns them; files in them lose their
folder.  Whether the rows of keys, names and members go too is the schema's
rule ([rows_cascade]). *)

Fixpoint under (fuel : nat) (fs : gmap UUID DriveFolder) (root k : UUID) : bool :=
  bool_decide (k = root) ||
  match fuel with
  | O => false
  | S fuel => match f ← fs !! k; ParentID f with
              | Some p => under fuel fs root p
              | None => false
              end
  end.

Definition in_tree (root : UUID) (d : Db) (k : UUID) : bool :=
  bool_decide (is_Some (drive_folders d !! k)) && under (size (drive_folders d)) (drive_folders d) root k.

Definition unfiled (f : DriveFile) : DriveFile :=
  mkFile (FileUser f) (FileTenant f) None (EncryptedName f) (EncryptedContentType f)
    (SizeBytes f) (OriginalSizeBytes f) (BlobRef f) (EphemeralPubkey f) (EncryptedFileKey f)
    (FCKWrappedMessageKey f) (Epoch f) (EncryptionFormat f) (ChunkCount f) (UploadComplete f)
    (Starred f) (Trashed f) (TrashedAt f) (FileCreatedAt f) (FileUpdatedAt f).

Definition delete_tree (rows_cascade : bool) (root : UUID) (d : Db) : Db :=
  let gone := in_tree root d in
  mkDb (delete_where (fun k _ => gone k) (drive_folders d))
    (delete_where (fun k _ => rows_cascade && gone k.1.1) (drive_folder_epoch_keys d))
    (delete_where (fun k _ => rows_cascade && gone k.1) (drive_folder_epoch_names d))
    (delete_where (fun k _ => rows_cascade && gone k.1) (drive_folder_shares d))
    (update_where (fun _ f => match FolderID f with Some p => gone p | None => false end) unfiled
       (drive_files d)).

Definition delete_folder_row (rows_cascade up : bool) (user tenant id : UUID) (d : Db) : result serr Db :=
  if negb up then Err SqlFailed
  else match drive_folders d !! id with
       | Some f => if owned user tenant f then Ok (delete_tree rows_cascade id d) else Err SqlNoRows
       | None => Err SqlNoRows
       end.

Definition DeleteFolder (rows_cascade up : bool) (user tenant id : UUID) (d : Db) :
    result serr unit * Db :=
  match delete_folder_row rows_cascade up user tenant id d with
  | Ok d => (Ok tt, d)
  | Err e => (Err e, d)
  end.

(** ** WITH RECURSIVE ... UNION ALL

A recursive query runs until its working table is empty, which it need not
be. *)

(** The rows of every round; [None]: rounds are left after [n]. *)
Fixpoint cte {A : Type} (n : nat) (next : A -> list A) (ws : list A) : option (list A) :=
  match ws with
  | [] => Some []
  | _ => match n with
         | O => None
         | S n => rest ← cte n next (flat_map next ws); Some (ws ++ rest)
         end
  end.

(** The subfolders of [w] that a user owns; any, for the public queries. *)
Definition children (P : DriveFolder -> bool) (d : Db) (w : UUID) : list UUID :=
  fst <$> map_to_list (select_where (fun _ f => bool_decide (ParentID f = Some w) && P f) (drive_folders d)).

Definition base (P : DriveFolder -> bool) (d : Db) (id : UUID) : list UUID :=
  match drive_folders d !! id with Some f => if P f then [id] else [] | None => [] end.

Definition subtree (n : nat) (P : DriveFolder -> bool) (id : UUID) (d : Db) : option (list UUID) :=
  cte n (children P d) (base P d id).

Definition in_folders (ids : list UUID) (f : DriveFile) : bool :=
  match FolderID f with Some p => bool_decide (p ∈ ids) | None => false end.

(** ** Deleting with the files put in the trash *)

Definition trashed_file (now : Z) (f : DriveFile) : DriveFile :=
  mkFile (FileUser f) (FileTenant f) (FolderID f) (EncryptedName f) (EncryptedContentType f)
    (SizeBytes f) (OriginalSizeBytes f) (BlobRef f) (EphemeralPubkey f) (EncryptedFileKey f)
    (FCKWrappedMessageKey f) (Epoch f) (EncryptionFormat f) (ChunkCount f) (UploadComplete f)
    (Starred f) true (Some now) (FileCreatedAt f) now.

Definition to_trash (user tenant : UUID) (ids : list UUID) (_ : UUID) (f : DriveFile) : bool :=
  file_owned user tenant f && in_folders ids f && negb (Trashed f).

Definition DeleteFolderCascadeTrash (n : nat) (rows_cascade : bool) (ok : string -> bool) (now : Z)
    (user tenant folder : UUID) (d : Db) : option (result serr nat * Db) :=
  if negb (ok "begin"%string && ok "trash"%string) then Some (Err SqlFailed, d)
  else
    ids ← subtree n (owned user tenant) folder d;
    let d1 := with_files (update_where (to_trash user tenant ids) (trashed_file now) (drive_files d)) d in
    Some match delete_folder_row rows_cascade (ok "delete"%string) user tenant folder d1 with
         | Err e => (Err e, d)
         | Ok d2 => if ok "commit"%string then (Ok (affected (to_trash user tenant ids) (drive_files d)), d2)
                    else (Err SqlFailed, d)
         end.

(** * Histories *)

Inductive dop :=
| DCreate (ok : string -> bool) (now : Z) (id : UUID) (i : CreateFolderInput)
| DCreateVia (ok : string -> bool) (now : Z) (id user tenant : UUID) (parent : option UUID) (name : bytes)
| DMove (up : bool) (now : Z) (id user tenant : UUID) (parent : option UUID)
| DName (up : bool) (id : UUID) (name : bytes)
| DDelete (rows_cascade up : bool) (user tenant id : UUID)
| DTrash (n : nat) (rows_cascade : bool) (ok : string -> bool) (now : Z) (user tenant id : UUID)
| DAdvance (ok : string -> bool) (now : Z) (i : ShareFolderEpochInput)
| DAdd (up : bool) (now : Z) (folder recipient tenant owner : UUID) (joined : Z) (past edit : bool)
    (expires : option Z)
| DBackfill (up : Z -> bool) (folder recipient tenant : UUID) (wraps : list EpochKeyWrap) (from to : Z)
| DRemove (ok : string -> bool) (folder recipient tenant : UUID).

(** A query that does not return in [n] rounds leaves everything as it is. *)
Definition dapply (o : dop) (d : Db) : Db :=
  match o with
  | DCreate ok now id i => (CreateFolder ok now id i d).2
  | DCreateVia ok now id u t p n => (CreateFolderViaSharedFolder ok now id u t p n d).2
  | DMove up now id u t p => (UpdateFolder up now id u t p d).2
  | DName up id n => (UpdateFolderName up id n d).2
  | DDelete c up u t id => (DeleteFolder c up u t id d).2
  | DTrash n c ok now u t id => default d (snd <$> DeleteFolderCascadeTrash n c ok now u t id d)
  | DAdvance ok now i => (AdvanceFolderEpoch ok now i d).2
  | DAdd up now f r t w j p e x => (AddFolderShareMember up now f r t w j p e x d).2
  | DBackfill up f r t ws a b => (BackfillEpochKeysForMember up f r t ws a b d).2
  | DRemove ok f r t => (RemoveFolderShareMember ok f r t d).2
  end.

Definition drun (os : list dop) (d : Db) : Db := foldl (fun d o => dapply o d) d os.

Lemma atomically_cases {A : Type} ok (body : Db -> result serr (A * Db)) d :
  (atomically ok body d).2 = d \/ exists a, body d = Ok (a, (atomically ok body d).2) /\
    (atomically ok body d).1 = Ok a.
Proof.
  unfold atomically. destruct (ok "begin"%string); [|by left]. cbn [negb].
  destruct (body d) as [[a d']|]; [|by left]. destruct (ok "commit"%string); [|by left].
  right. by exists a.
Qed.

(** ** What the statements do to keys and names *)

Lemma insert_folder_ok ok id f d d' :
  insert_folder ok id f d = Ok d' ->
  drive_folders d !! id = None /\ parent_exists (ParentID f) d = true /\
  d' = with_folders (<[id := f]> (drive_folders d)) d.
Proof.
  unfold insert_folder. destruct (ok "insert folder"%string); [|done]. cbn [negb].
  destruct (drive_folders d !! id); [done|]. destruct (parent_exists _ _); [|done].
  by intros [= <-].
Qed.

Lemma insert_key_ok ok k v d d' :
  insert_key ok k v d = Ok d' ->
  drive_folder_epoch_keys d !! k = None /\ d' = with_keys (<[k := v]> (drive_folder_epoch_keys d)) d.
Proof.
  unfold insert_key. destruct (ok "insert key"%string); [|done]. cbn [negb].
  destruct (drive_folder_epoch_keys d !! k); [done|]. by intros [= <-].
Qed.

Lemma insert_name_ok ok folder epoch n d d' :
  insert_name ok folder epoch n d = Ok d' ->
  drive_folder_epoch_names d !! (folder, epoch) = None /\
  d' = with_names (<[(folder, epoch) := n]> (drive_folder_epoch_names d)) d.
Proof.
  unfold insert_name. destruct (ok "insert name"%string); [|done]. cbn [negb].
  destruct (drive_folder_epoch_names d !! _); [done|]. by intros [= <-].
Qed.

(** Wraps change keys only, and only those of their recipients. *)
Lemma insert_wraps_ok ok folder epoch tenant ws d d' :
  insert_wraps ok folder epoch tenant ws d = Ok d' ->
  drive_folders d' = drive_folders d /\ drive_folder_epoch_names d' = drive_folder_epoch_names d /\
  drive_files d' = drive_files d /\ drive_folder_shares d' = drive_folder_shares d /\
  forall k, k.1 <> (folder, epoch) \/ k.2 ∉ map RecipientUserID ws ->
    drive_folder_epoch_keys d' !! k = drive_folder_epoch_keys d !! k.
Proof.
  revert d. induction ws as [|w ws IH]; intros d; cbn; [by intros [= <-]|].
  destruct (insert_key _ _ _ _) as [d1|] eqn:E; [|done]. cbn. apply insert_key_ok in E as [_ ->].
  intros (-> & -> & -> & -> & Hk)%IH. split_and!; try done. intros k Hne. rewrite Hk.
  - cbn. rewrite lookup_insert_ne; [done|]. intros <-. cbn in Hne. destruct Hne as [?|Hn]; [done|].
    apply Hn. by left.
  - destruct Hne as [?|Hn]; [by left|]. right. intros Hin. apply Hn. by right.
Qed.

Lemma upsert_names_lookup epoch ns d k :
  is_Some (drive_folder_epoch_names (upsert_names epoch ns d) !! k) <->
  is_Some (drive_folder_epoch_names d !! k) \/ (k.2 = epoch /\ k.1 ∈ map fst ns).
Proof.
  unfold upsert_names. cbn. generalize (drive_folder_epoch_names d). induction ns as [|n ns IH]; intros m; cbn.
  { split; [by left|]. by intros [?|[_ ?%elem_of_nil]]. }
  rewrite IH, elem_of_cons. destruct k as [f e]. cbn. destruct (decide ((n.1, epoch) = (f, e))) as [[= <- <-]|Hne].
  - rewrite lookup_insert_eq. split; [right; eauto|]. left. by eexists.
  - rewrite lookup_insert_ne by done. split; [intuition|].
    intros [?|[-> [->|?]]]; [by left|done|by right].
Qed.

(** A successful advance, taken apart. *)
Lemma advance_epoch_ok ok now i d e d' :
  advance_body ok now i d = Ok (e, d') ->
  exists f, drive_folders d !! sf_folder i = Some f /\ e = CurrentEpoch f + 1 /\
    owned (sf_owner i) (sf_tenant i) f = true /\
    drive_folders d' = <[sf_folder i := bump_epoch now f]> (drive_folders d) /\
    drive_folder_epoch_names d !! (sf_folder i, e) = None /\
    (forall k, is_Some (drive_folder_epoch_names d' !! k) <->
       is_Some (drive_folder_epoch_names d !! k) \/ k = (sf_folder i, e) \/
       (k.2 = e /\ k.1 ∈ map fst (SubFolderNames i))) /\
    (forall k, k.1 <> (sf_folder i, e) \/ k.2 ∉ map RecipientUserID (NewEpochKeyWraps i) ->
       drive_folder_epoch_keys d' !! k = drive_folder_epoch_keys d !! k).
Proof.
  unfold advance_body. destruct (ok "advance"%string); [|done]. cbn [negb].
  destruct (drive_folders d !! sf_folder i) as [f|] eqn:Ef; [|done].
  destruct (owned _ _ f) eqn:Eo; [|done]. cbn [negb].
  destruct (insert_wraps _ _ _ _ _ _) as [d1|] eqn:E1; [|done]. cbn [mbind result_bind].
  apply insert_wraps_ok in E1 as (H1 & H2 & _ & _ & H5). cbn in H1, H2.
  destruct (insert_name _ _ _ _ _) as [d2|] eqn:E2; [|done]. cbn [mbind result_bind].
  apply insert_name_ok in E2 as [Hn ->]. rewrite H2 in Hn.
  destruct (ok "subfolder names"%string), (ok "file wraps"%string); try done. cbn [negb].
  intros [= <- <-]. exists f. split_and!; try done.
  - intros k. cbn [wrap_files drive_folder_epoch_names with_files]. rewrite upsert_names_lookup. cbn.
    rewrite H2. destruct (decide (k = (sf_folder i, CurrentEpoch f + 1))) as [->|Hne].
    + rewrite lookup_insert_eq. split; [by right; left|]. left. by eexists.
    + rewrite lookup_insert_ne by done. tauto.
Qed.

Lemma create_folder_ok ok now id i d a d' :
  create_body ok now id i d = Ok (a, d') ->
  drive_folders d !! id = None /\
  drive_folders d' = <[id := mkFolder (cf_user i) (cf_tenant i) (cf_parent i) 0 now now]> (drive_folders d) /\
  drive_folder_epoch_names d' = <[(id, 0) := cf_EncryptedName i]> (drive_folder_epoch_names d) /\
  drive_folder_epoch_keys d' =
    <[(id, 0, cf_user i) := mkEpochKey (cf_tenant i) (cf_WrappedFCK i) (cf_WrappedFCKEph i)]>
      (drive_folder_epoch_keys d).
Proof.
  unfold create_body. destruct (insert_folder _ _ _ _) as [d1|] eqn:E1; [|done].
  cbn [mbind result_bind]. apply insert_folder_ok in E1 as (Hn & _ & ->).
  destruct (insert_key _ _ _ _) as [d2|] eqn:E2; [|done]. cbn [mbind result_bind].
  apply insert_key_ok in E2 as [_ ->].
  destruct (insert_name _ _ _ _ _) as [d3|] eqn:E3; [|done]. cbn [mbind result_bind].
  apply insert_name_ok in E3 as [_ ->]. intros [= _ <-]. by split_and!.
Qed.

Lemma create_via_ok ok now id u t p n d a d' :
  create_via_body ok now id u t p n d = Ok (a, d') ->
  drive_folders d !! id = None /\
  drive_folders d' = <[id := mkFolder u t p 0 now now]> (drive_folders d) /\
  drive_folder_epoch_names d' = <[(id, 0) := n]> (drive_folder_epoch_names d) /\
  drive_folder_epoch_keys d' = drive_folder_epoch_keys d.
Proof.
  unfold create_via_body. destruct (insert_folder _ _ _ _) as [d1|] eqn:E1; [|done].
  cbn [mbind result_bind]. apply insert_folder_ok in E1 as (Hn & _ & ->).
  destruct (insert_name _ _ _ _ _) as [d3|] eqn:E3; [|done]. cbn [mbind result_bind].
  apply insert_name_ok in E3 as [_ ->]. intros [= _ <-]. by split_and!.
Qed.

Lemma remove_ok ok f r t d a d' :
  remove_body ok f r t d = Ok (a, d') ->
  drive_folders d' = drive_folders d /\ drive_folder_epoch_names d' = drive_folder_epoch_names d /\
  (forall k v, drive_folder_epoch_keys d' !! k = Some v <-> drive_folder_epoch_keys d !! k = Some v /\
     ~ (k.1.1 = f /\ k.2 = r /\ ek_tenant v = t)) /\
  (forall k m, drive_folder_shares d' !! k = Some m <-> drive_folder_shares d !! k = Some m /\
     ~ (k = (f, r) /\ m_tenant m = t)).
Proof.
  unfold remove_body. destruct (ok "delete member"%string), (ok "delete keys"%string); try done. cbn [negb].
  intros [= _ <-]. split_and!; try done.
  - intros k v. cbn. rewrite lookup_delete_where, !andb_false_iff, !bool_decide_eq_false.
    destruct (decide (k.1.1 = f)), (decide (k.2 = r)), (decide (ek_tenant v = t)); tauto.
  - intros k m. cbn. rewrite lookup_delete_where, andb_false_iff, !bool_decide_eq_false.
    destruct (decide (k = (f, r))), (decide (m_tenant m = t)); tauto.
Qed.

(** Where a folder is after a call: as it was, moved or renamed, one epoch on,
    or new at epoch 0. *)
Inductive folder_step (d : Db) (k : UUID) (o : dop) (f' : DriveFolder) : Prop :=
| FSame f : drive_folders d !! k = Some f -> CurrentEpoch f' = CurrentEpoch f ->
    FUser f' = FUser f -> FTenant f' = FTenant f -> folder_step d k o f'
| FAdvanced ok now i f : o = DAdvance ok now i -> sf_folder i = k -> drive_folders d !! k = Some f ->
    CurrentEpoch f' = CurrentEpoch f + 1 -> FUser f' = FUser f -> FTenant f' = FTenant f ->
    is_Some (drive_folder_epoch_names (dapply o d) !! (k, CurrentEpoch f')) ->
    drive_folder_epoch_names d !! (k, CurrentEpoch f') = None -> folder_step d k o f'
| FNew : drive_folders d !! k = None -> CurrentEpoch f' = 0 ->
    is_Some (drive_folder_epoch_names (dapply o d) !! (k, 0)) -> folder_step d k o f'.

Lemma delete_folder_cases c up u t id d :
  (DeleteFolder c up u t id d).2 = d \/ (DeleteFolder c up u t id d).2 = delete_tree c id d.
Proof.
  unfold DeleteFolder, delete_folder_row. destruct up; [|by left]. cbn [negb].
  destruct (drive_folders d !! id) as [f|]; [|by left]. destruct (owned u t f); [by right|by left].
Qed.

(** [DeleteFolderCascadeTrash] changes nothing, or files and then the tree. *)
Lemma trash_cases n c ok now u t id d :
  let d' := default d (snd <$> DeleteFolderCascadeTrash n c ok now u t id d) in
  d' = d \/ exists fs, d' = delete_tree c id (with_files fs d).
Proof.
  unfold DeleteFolderCascadeTrash, delete_folder_row. destruct (_ && _); [|by left]. cbn [negb].
  destruct (subtree n _ id d) as [ids|]; [|by left]. cbn [mbind option_bind fmap option_fmap option_map default snd].
  destruct (ok "delete"%string); [|by left]. cbn [negb]. destruct (drive_folders _ !! id) as [f|]; [|by left].
  destruct (owned u t f); [|by left]. destruct (ok "commit"%string); [right; by eexists|by left].
Qed.

Lemma backfill_keeps up f r t ws from n d :
  let d' := (backfill_loop up f r t ws from n d).2 in
  drive_folders d' = drive_folders d /\ drive_folder_epoch_names d' = drive_folder_epoch_names d /\
  (forall k, k.1.1 <> f \/ k.2 <> r -> drive_folder_epoch_keys d' !! k = drive_folder_epoch_keys d !! k).
Proof.
  cbv zeta. revert from d. induction n as [|n IH]; intros from d; [by split_and!|]. cbn [backfill_loop].
  destruct ws as [|kw ws]; [apply IH|]. destruct (up from); [|by split_and!].
  destruct (IH (from + 1) (insert_key_once (f, from, r) (mkEpochKey t (kw_fck kw) (kw_eph kw)) d))
    as (-> & -> & Hk).
  unfold insert_key_once in *. destruct (drive_folder_epoch_keys d !! (f, from, r)) eqn:E; [by split_and!|].
  split_and!; try done. intros k Hne. rewrite Hk by done. cbn. rewrite lookup_insert_ne; [done|].
  intros <-. cbn in Hne. by destruct Hne.
Qed.

Lemma dapply_folder o d k f' : drive_folders (dapply o d) !! k = Some f' -> folder_step d k o f'.
Proof.
  assert (forall f, drive_folders d !! k = Some f -> folder_step d k o f) as Hsame
    by (intros f Hf; econstructor 1; eauto).
  destruct o as [ok now id i|ok now id u t p n|up now id u t p|up id n|c up u t id|n c ok now u t id|ok now i
    |up now f r t w j p e x|up f r t ws a b|ok f r t]; cbn [dapply].
  - unfold CreateFolder. destruct (atomically_cases ok (create_body ok now id i) d)
      as [->|(a & E & _)]; [auto|].
    pose proof (create_folder_ok _ _ _ _ _ _ _ E) as (Hn & Hf & Hna & _). rewrite Hf.
    intros [[<- <-]|[_ H]]%lookup_insert_Some; [|auto]. econstructor 3; [done|done|].
    cbn [dapply]. unfold CreateFolder. rewrite Hna, lookup_insert_eq. by eexists.
  - unfold CreateFolderViaSharedFolder. destruct (atomically_cases ok (create_via_body ok now id u t p n) d)
      as [->|(a & E & _)]; [auto|].
    pose proof (create_via_ok _ _ _ _ _ _ _ _ _ _ E) as (Hn & Hf & Hna & _). rewrite Hf.
    intros [[<- <-]|[_ H]]%lookup_insert_Some; [|auto]. econstructor 3; [done|done|].
    cbn [dapply]. unfold CreateFolderViaSharedFolder. rewrite Hna, lookup_insert_eq. by eexists.
  - unfold UpdateFolder. destruct up; [|auto]. cbn [negb].
    destruct (drive_folders d !! id) as [f|] eqn:E; [|auto]. destruct (owned u t f); [|auto].
    cbn [negb]. destruct (parent_exists p d); [|auto]. cbn.
    intros [[<- <-]|[_ H]]%lookup_insert_Some; [econstructor 1; eauto|auto].
  - unfold UpdateFolderName. destruct up; [|auto]. cbn [negb].
    destruct (drive_folders d !! id) as [f|]; [|auto].
    destruct (drive_folder_epoch_names d !! _); auto.
  - destruct (delete_folder_cases c up u t id d) as [->| ->]; [auto|]. cbn.
    intros [H _]%lookup_delete_where. auto.
  - destruct (trash_cases n c ok now u t id d) as [->|(fs & ->)]; [auto|]. cbn.
    intros [H _]%lookup_delete_where. auto.
  - unfold AdvanceFolderEpoch. destruct (atomically_cases ok (advance_body ok now i) d)
      as [->|(e & E & _)]; [auto|].
    pose proof (advance_epoch_ok _ _ _ _ _ _ E) as (f & Hf & -> & _ & Hfs & Hn & Hna & _). rewrite Hfs.
    intros [[<- <-]|[_ H]]%lookup_insert_Some; [|auto].
    econstructor 2; [done|done|exact Hf|done|done|done| |exact Hn].
    cbn [dapply]. unfold AdvanceFolderEpoch. apply Hna. right. by left.
  - destruct up; auto.
  - unfold BackfillEpochKeysForMember. destruct (backfill_keeps up f r t ws a (Z.to_nat (b - a)) d) as [-> _].
    auto.
  - unfold RemoveFolderShareMember. destruct (atomically_cases ok (remove_body ok f r t) d)
      as [->|(a & E & _)]; [auto|].
    apply remove_ok in E as (E & _). rewrite E. auto.
Qed.

(** Names stay, but with their folder. *)
Lemma dapply_name o d k e :
  is_Some (drive_folder_epoch_names d !! (k, e)) -> is_Some (drive_folders (dapply o d) !! k) ->
  is_Some (drive_folder_epoch_names (dapply o d) !! (k, e)).
Proof.
  intros Hn Hf. destruct o as [ok now id i|ok now id u t p n|up now id u t p|up id n|c up u t id|n c ok now u t id|ok now i
    |up now f r t w j p x y|up f r t ws a b|ok f r t]; cbn [dapply] in *.
  - unfold CreateFolder in *. destruct (atomically_cases ok (create_body ok now id i) d)
      as [->|(a & E & _)]; [done|].
    pose proof (create_folder_ok _ _ _ _ _ _ _ E) as (_ & _ & -> & _). by apply lookup_insert_is_Some'; right.
  - unfold CreateFolderViaSharedFolder in *. destruct (atomically_cases ok (create_via_body ok now id u t p n) d)
      as [->|(a & E & _)]; [done|].
    pose proof (create_via_ok _ _ _ _ _ _ _ _ _ _ E) as (_ & _ & -> & _). by apply lookup_insert_is_Some'; right.
  - unfold UpdateFolder in *. destruct up; [|done]. cbn [negb] in *.
    destruct (drive_folders d !! id) as [g|]; [|done]. destruct (owned u t g); [|done].
    cbn [negb] in *. by destruct (parent_exists p d).
  - unfold UpdateFolderName in *. destruct up; [|done]. cbn [negb] in *.
    destruct (drive_folders d !! id) as [g|]; [|done].
    destruct (drive_folder_epoch_names d !! (id, _)); [|done]. by apply lookup_insert_is_Some'; right.
  - destruct (delete_folder_cases c up u t id d) as [E|E]; rewrite E in Hf |- *; [done|].
    destruct Hn as [n Hn], Hf as [g Hg]. cbn in Hg |- *. apply lookup_delete_where in Hg as [_ Hg].
    exists n. apply lookup_delete_where. split; [done|]. cbn. by rewrite Hg, andb_false_r.
  - destruct (trash_cases n c ok now u t id d) as [E|(fs & E)]; rewrite E in Hf |- *; [done|].
    destruct Hn as [x Hn], Hf as [g Hg]. cbn in Hg |- *. apply lookup_delete_where in Hg as [_ Hg].
    exists x. apply lookup_delete_where. split; [done|]. cbn.
    by rewrite (Hg : in_tree id (with_files fs d) k = false), andb_false_r.
  - unfold AdvanceFolderEpoch in *. destruct (atomically_cases ok (advance_body ok now i) d)
      as [->|(x & E & _)]; [done|].
    pose proof (advance_epoch_ok _ _ _ _ _ _ E) as (g & _ & _ & _ & _ & _ & Hna & _). apply Hna. by left.
  - by destruct up.
  - unfold BackfillEpochKeysForMember. by destruct (backfill_keeps up f r t ws a (Z.to_nat (b - a)) d)
      as (_ & -> & _).
  - unfold RemoveFolderShareMember in *. destruct (atomically_cases ok (remove_body ok f r t) d)
      as [->|(a & E & _)]; [done|].
    apply remove_ok in E as (_ & E & _). by rewrite E.
Qed.

(** Every epoch of a folder, from 0 to the current one, has a name. *)
Definition named (d : Db) : Prop :=
  forall k f, drive_folders d !! k = Some f ->
    0 <= CurrentEpoch f /\ forall e, 0 <= e <= CurrentEpoch f -> is_Some (drive_folder_epoch_names d !! (k, e)).

Lemma dapply_named o d : named d -> named (dapply o d).
Proof.
  intros Hd k f' Hf'. pose proof (dapply_folder o d k f' Hf') as Hs.
  destruct Hs as [f Hf He _ _|ok now i f -> Hi Hf He _ _ Hn _|Hf He Hn].
  - destruct (Hd k f Hf) as [H0 Hall]. rewrite He. split; [done|]. intros e Hr.
    apply dapply_name; [by apply Hall|by eexists].
  - destruct (Hd k f Hf) as [H0 Hall]. split; [lia|]. intros e Hr.
    destruct (decide (e = CurrentEpoch f')) as [->|]; [done|].
    apply dapply_name; [apply Hall; lia|by eexists].
  - rewrite He. split; [done|]. intros e Hr. by replace e with 0 by lia.
Qed.

Lemma drun_named os d : named d -> named (drun os d).
Proof. revert d. induction os as [|o os IH]; intros d H; [done|]. by apply IH, dapply_named. Qed.

(** C31. Folder epochs are numbered without gaps and every one can be read by
    its name: in every state that calls lead to, failing or not, each folder
    has a name at every epoch from 0 to its current one; the first one at the
    folder's own epoch 0, where it was made inside a shared folder as well. *)
Theorem every_epoch_is_named os k f e :
  let d := drun os empty_drive in
  drive_folders d !! k = Some f -> 0 <= e <= CurrentEpoch f ->
  exists n, GetEpochNameForFolder true k e d = Ok n.
Proof.
  intros d Hf He. assert (named d) as Hd by (apply drun_named; by intros ? ? ?).
  destruct (Hd k f Hf) as [_ Hn]. destruct (Hn e He) as [n Hk]. exists n.
  unfold GetEpochNameForFolder. by rewrite Hk.
Qed.

(** ** Removed members *)

(** A call that makes a key of folder [f] for [u]. *)
Definition grants (f u : UUID) (o : dop) : Prop :=
  match o with
  | DCreate _ _ id i => id = f /\ cf_user i = u
  | DAdvance _ _ i => sf_folder i = f /\ u ∈ map RecipientUserID (NewEpochKeyWraps i)
  | DBackfill _ g r _ _ _ _ => g = f /\ r = u
  | _ => False
  end.

(** No key of [f] for [u] is there, among those of a tenant. *)
Definition keyless (f u tenant : UUID) (d : Db) : Prop :=
  forall e v, drive_folder_epoch_keys d !! (f, e, u) = Some v -> ek_tenant v <> tenant.

Lemma keyless_found f u tenant d :
  keyless f u tenant d -> GetFolderEpochKeysForUser true f u tenant d = Ok ∅.
Proof.
  intros Hd. unfold GetFolderEpochKeysForUser. f_equal. apply map_empty. intros k. apply eq_None_not_Some.
  intros [v Hv]. apply lookup_select_where in Hv as [Hv Hp]. rewrite !andb_true_iff in Hp.
  destruct Hp as [[Hf Hu] Ht]. apply bool_decide_eq_true in Hf, Hu, Ht. destruct k as [[g e] w].
  cbn in Hf, Hu. subst. by apply Hd in Hv.
Qed.

Lemma dapply_keyless f u tenant o d :
  ~ grants f u o -> keyless f u tenant d -> keyless f u tenant (dapply o d).
Proof.
  intros Hg Hd x v. destruct o as [ok now id i|ok now id w t p n|up now id w t p|up id n|c up w t id|n c ok now w t id|ok now i
    |up now g r t w j p y z|up g r t ws a b|ok g r t]; cbn [dapply] in *.
  - unfold CreateFolder. destruct (atomically_cases ok (create_body ok now id i) d) as [->|(a & E & _)]; [apply Hd|].
    pose proof (create_folder_ok _ _ _ _ _ _ _ E) as (_ & _ & _ & Hk). rewrite Hk.
    intros [[[= -> <- <-] _]|[_ H]]%lookup_insert_Some; [by destruct Hg|by eapply Hd].
  - unfold CreateFolderViaSharedFolder.
    destruct (atomically_cases ok (create_via_body ok now id w t p n) d) as [->|(a & E & _)]; [apply Hd|].
    pose proof (create_via_ok _ _ _ _ _ _ _ _ _ _ E) as (_ & _ & _ & Hk). rewrite Hk. apply Hd.
  - unfold UpdateFolder. destruct up; [|apply Hd]. cbn [negb].
    destruct (drive_folders d !! id) as [y|]; [|apply Hd]. destruct (owned w t y); [|apply Hd].
    cbn [negb]. destruct (parent_exists p d); apply Hd.
  - unfold UpdateFolderName. destruct up; [|apply Hd]. cbn [negb].
    destruct (drive_folders d !! id) as [y|]; [|apply Hd].
    destruct (drive_folder_epoch_names d !! (id, _)); apply Hd.
  - destruct (delete_folder_cases c up w t id d) as [->| ->]; [apply Hd|]. cbn.
    intros [H _]%lookup_delete_where. by eapply Hd.
  - destruct (trash_cases n c ok now w t id d) as [->|(fs & ->)]; [apply Hd|]. cbn.
    intros [H _]%lookup_delete_where. by eapply Hd.
  - unfold AdvanceFolderEpoch.
    destruct (atomically_cases ok (advance_body ok now i) d) as [->|(a & E & _)]; [apply Hd|].
    pose proof (advance_epoch_ok _ _ _ _ _ _ E) as (_ & _ & _ & _ & _ & _ & _ & Hk). rewrite Hk; [apply Hd|].
    cbn. cbn in Hg. destruct (decide (sf_folder i = f)) as [Ei|Ei]; [right|left; congruence].
    intros Hin. by destruct Hg.
  - destruct up; apply Hd.
  - unfold BackfillEpochKeysForMember.
    destruct (backfill_keeps up g r t ws a (Z.to_nat (b - a)) d) as (_ & _ & Hk). rewrite Hk; [apply Hd|].
    cbn. cbn in Hg. destruct (decide (f = g)) as [->|]; [right|by left]. intros ->. by destruct Hg.
  - unfold RemoveFolderShareMember.
    destruct (atomically_cases ok (remove_body ok g r t) d) as [->|(a & E & _)]; [apply Hd|].
    apply remove_ok in E as (_ & _ & Hk & _). intros [H _]%Hk. by eapply Hd.
Qed.

(** ** Members *)

Lemma create_keeps_members ok now id i d a d' :
  create_body ok now id i d = Ok (a, d') -> drive_folder_shares d' = drive_folder_shares d.
Proof.
  unfold create_body. destruct (insert_folder _ _ _ _) as [d1|] eqn:E1; [|done].
  cbn [mbind result_bind]. apply insert_folder_ok in E1 as (_ & _ & ->).
  destruct (insert_key _ _ _ _) as [d2|] eqn:E2; [|done]. cbn [mbind result_bind].
  apply insert_key_ok in E2 as [_ ->].
  destruct (insert_name _ _ _ _ _) as [d3|] eqn:E3; [|done]. cbn [mbind result_bind].
  apply insert_name_ok in E3 as [_ ->]. by intros [= _ <-].
Qed.

Lemma create_via_keeps_members ok now id u t p n d a d' :
  create_via_body ok now id u t p n d = Ok (a, d') -> drive_folder_shares d' = drive_folder_shares d.
Proof.
  unfold create_via_body. destruct (insert_folder _ _ _ _) as [d1|] eqn:E1; [|done].
  cbn [mbind result_bind]. apply insert_folder_ok in E1 as (_ & _ & ->).
  destruct (insert_name _ _ _ _ _) as [d3|] eqn:E3; [|done]. cbn [mbind result_bind].
  apply insert_name_ok in E3 as [_ ->]. by intros [= _ <-].
Qed.

Lemma advance_keeps_members ok now i d e d' :
  advance_body ok now i d = Ok (e, d') -> drive_folder_shares d' = drive_folder_shares d.
Proof.
  unfold advance_body. destruct (ok "advance"%string); [|done]. cbn [negb].
  destruct (drive_folders d !! sf_folder i) as [f|]; [|done]. destruct (owned _ _ f); [|done]. cbn [negb].
  destruct (insert_wraps _ _ _ _ _ _) as [d1|] eqn:E1; [|done]. cbn [mbind result_bind].
  apply insert_wraps_ok in E1 as (_ & _ & _ & H & _).
  destruct (insert_name _ _ _ _ _) as [d2|] eqn:E2; [|done]. cbn [mbind result_bind].
  apply insert_name_ok in E2 as [_ ->].
  destruct (ok "subfolder names"%string), (ok "file wraps"%string); try done. by intros [= _ <-].
Qed.

Lemma backfill_keeps_members up f r t ws from n d :
  drive_folder_shares (backfill_loop up f r t ws from n d).2 = drive_folder_shares d.
Proof.
  revert from d. induction n as [|n IH]; intros from d; [done|]. cbn [backfill_loop].
  destruct ws as [|kw ws]; [apply IH|]. destruct (up from); [|done]. rewrite IH.
  unfold insert_key_once. by destruct (drive_folder_epoch_keys d !! (f, from, r)).
Qed.

(** A call that lists [u] as a member of [f]. *)
Definition enlists (f u : UUID) (o : dop) : Prop :=
  match o with DAdd _ _ g r _ _ _ _ _ _ => g = f /\ r = u | _ => False end.

(** Members of a folder come from [AddFolderShareMember]. *)
Lemma dapply_members f u m o d :
  ~ enlists f u o -> drive_folder_shares (dapply o d) !! (f, u) = Some m ->
  drive_folder_shares d !! (f, u) = Some m.
Proof.
  intros Hl. destruct o as [ok now id i|ok now id w t p n|up now id w t p|up id n|c up w t id|n c ok now w t id|ok now i
    |up now g r t w j p y z|up g r t ws a b|ok g r t]; cbn [dapply] in *.
  - unfold CreateFolder. destruct (atomically_cases ok (create_body ok now id i) d) as [->|(a & E & _)]; [done|].
    by pose proof (create_keeps_members _ _ _ _ _ _ _ E) as ->.
  - unfold CreateFolderViaSharedFolder.
    destruct (atomically_cases ok (create_via_body ok now id w t p n) d) as [->|(a & E & _)]; [done|].
    by pose proof (create_via_keeps_members _ _ _ _ _ _ _ _ _ _ E) as ->.
  - unfold UpdateFolder. destruct up; [|done]. cbn [negb].
    destruct (drive_folders d !! id) as [y|]; [|done]. destruct (owned w t y); [|done].
    cbn [negb]. by destruct (parent_exists p d).
  - unfold UpdateFolderName. destruct up; [|done]. cbn [negb].
    destruct (drive_folders d !! id) as [y|]; [|done].
    by destruct (drive_folder_epoch_names d !! (id, _)).
  - destruct (delete_folder_cases c up w t id d) as [->| ->]; [done|]. cbn. by intros [H _]%lookup_delete_where.
  - destruct (trash_cases n c ok now w t id d) as [->|(fs & ->)]; [done|]. cbn.
    by intros [H _]%lookup_delete_where.
  - unfold AdvanceFolderEpoch.
    destruct (atomically_cases ok (advance_body ok now i) d) as [->|(a & E & _)]; [done|].
    by pose proof (advance_keeps_members _ _ _ _ _ _ E) as ->.
  - destruct up; [|done]. cbn. rewrite lookup_insert_ne; [done|]. intros [= -> ->]. by destruct Hl.
  - unfold BackfillEpochKeysForMember. by rewrite backfill_keeps_members.
  - unfold RemoveFolderShareMember.
    destruct (atomically_cases ok (remove_body ok g r t) d) as [->|(a & E & _)]; [done|].
    apply remove_ok in E as (_ & _ & _ & Hm). by intros [? _]%Hm.
Qed.

(** A removal that succeeded. *)
Lemma remove_succeeded ok f u tenant d :
  (RemoveFolderShareMember ok f u tenant d).1 = Ok tt ->
  exists a, remove_body ok f u tenant d = Ok (a, (RemoveFolderShareMember ok f u tenant d).2).
Proof.
  unfold RemoveFolderShareMember, atomically. destruct (ok "begin"%string); [|done]. cbn [negb].
  destruct (remove_body ok f u tenant d) as [[a d2]|]; [|done].
  destruct (ok "commit"%string); [|done]. by exists a.
Qed.

(** C32. A removed member is out: once RemoveFolderShareMember has succeeded for
    a folder and a user, the user's keys of every epoch of the folder are gone
    and everybody else's are as they were; through any later calls, failing or
    not, none is found for that user until some call makes one for them, and
    no list of the folder's members has the user until AddFolderShareMember
    puts them there again. *)
Theorem removed_member_has_no_key ok f u tenant d os :
  (RemoveFolderShareMember ok f u tenant d).1 = Ok tt ->
  let d1 := (RemoveFolderShareMember ok f u tenant d).2 in
  (forall g e v, (g, v) <> (f, u) ->
     drive_folder_epoch_keys d1 !! (g, e, v) = drive_folder_epoch_keys d !! (g, e, v)) /\
  (Forall (fun o => ~ grants f u o) os ->
   GetFolderEpochKeysForUser true f u tenant (drun os d1) = Ok ∅) /\
  (Forall (fun o => ~ enlists f u o) os -> forall now ms,
   ListFolderShareMembers true now f tenant (drun os d1) = Ok ms -> ms !! (f, u) = None).
Proof.
  intros [a E]%remove_succeeded d1. fold d1 in E. apply remove_ok in E as (_ & _ & Hk & Hm). split; [|split].
  - intros g e v Hne. apply option_eq. intros x. rewrite Hk. cbn. split; [by intros [? _]|].
    intros H. split; [done|]. intros (-> & -> & _). done.
  - intros Hos. assert (keyless f u tenant d1) as Hd.
    { intros e v H. apply Hk in H as [_ H]. cbn in H. tauto. }
    clear Hk Hm. generalize dependent d1. induction Hos as [|o os Ho _ IH]; intros d1 Hd.
    + by apply keyless_found.
    + cbn. apply IH. by apply dapply_keyless.
  - intros Hos now ms [= <-]. assert (forall m, drive_folder_shares d1 !! (f, u) = Some m -> m_tenant m <> tenant) as Hd.
    { intros m H. apply Hm in H as [_ H]. tauto. }
    clear Hk Hm. generalize dependent d1. induction Hos as [|o os Ho _ IH]; intros d1 Hd.
    + apply eq_None_not_Some. intros [m Hm]. apply lookup_select_where in Hm as [Hm Hp].
      rewrite !andb_true_iff in Hp. destruct Hp as [[_ Ht] _]. apply bool_decide_eq_true in Ht. by apply Hd in Hm.
    + cbn. apply IH. intros m Hm. apply Hd. by eapply dapply_members.
Qed.

(** ** What goes wrong *)

(** Sharing a folder stores its subfolders' names at the folder's epoch, under
    the subfolders' ids; where that is the epoch a subfolder would open next,
    the subfolder can never be shared itself. *)
Definition blocked (s : UUID) (d : Db) : Prop :=
  exists f, drive_folders d !! s = Some f /\
    is_Some (drive_folder_epoch_names d !! (s, CurrentEpoch f + 1)).

Lemma blocked_advance s d ok now i :
  blocked s d -> sf_folder i = s -> exists e, AdvanceFolderEpoch ok now i d = (Err e, d).
Proof.
  intros (f & Hf & Hn) <-. unfold AdvanceFolderEpoch, atomically. destruct (ok "begin"%string); [|by eexists].
  cbn [negb]. destruct (advance_body ok now i d) as [[e d']|] eqn:E; [|by eexists].
  apply advance_epoch_ok in E as (f' & Hf' & -> & _ & _ & Hno & _). rewrite Hf in Hf'. injection Hf' as <-.
  rewrite Hno in Hn. by destruct Hn.
Qed.

Lemma blocked_stays s o d : blocked s d -> is_Some (drive_folders (dapply o d) !! s) -> blocked s (dapply o d).
Proof.
  intros (f & Hf & Hn) [f' Hf']. exists f'. split; [done|].
  destruct (dapply_folder o d s f' Hf') as [f0 H0 He _ _|ok now i f0 -> Hi H0 He _ _ _ Hno|H0 _ _];
    rewrite Hf in H0; [|exfalso|done]; injection H0 as <-.
  - rewrite He. apply dapply_name; [done|by eexists].
  - rewrite <-He, Hno in Hn. by destruct Hn.
Qed.

(** Sharing a folder can make its subfolders unshareable: when a share of a
    folder stored the name of a subfolder whose own next epoch is the one the
    folder opened (as on the first share of folders never shared before), then
    through any later calls that leave the subfolder there, every attempt to
    share the subfolder fails and changes nothing. *)
Theorem subfolder_names_block_sharing ok now i e d d1 s n f os ok' now' i' :
  AdvanceFolderEpoch ok now i d = (Ok e, d1) -> (s, n) ∈ SubFolderNames i ->
  drive_folders d !! s = Some f -> s <> sf_folder i -> CurrentEpoch f + 1 = e ->
  (forall os1 os2, os = os1 ++ os2 -> is_Some (drive_folders (drun os1 d1) !! s)) ->
  sf_folder i' = s ->
  exists err, AdvanceFolderEpoch ok' now' i' (drun os d1) = (Err err, drun os d1).
Proof.
  intros Ha Hin Hf Hne He Hos Hi'. eapply blocked_advance; [|exact Hi'].
  assert (blocked s d1) as Hb.
  { unfold AdvanceFolderEpoch, atomically in Ha. destruct (ok "begin"%string); [|done]. cbn [negb] in Ha.
    destruct (advance_body ok now i d) as [[e' d']|] eqn:E; [|done].
    destruct (ok "commit"%string); [|done]. injection Ha as -> <-.
    apply advance_epoch_ok in E as (g & _ & _ & _ & Hfs & _ & Hn & _). exists f.
    rewrite Hfs, lookup_insert_ne by done. split; [done|]. apply Hn. right. right. rewrite He.
    split; [done|]. apply list_elem_of_fmap. by exists (s, n). }
  clear Ha. induction os as [|o os IH] using rev_ind; [done|].
  unfold drun. rewrite foldl_app. cbn. apply blocked_stays.
  - apply IH. intros os1 os2 ->. apply (Hos os1 (os2 ++ [o])). by rewrite <-app_assoc.
  - specialize (Hos (os ++ [o]) [] ltac:(by rewrite app_nil_r)). unfold drun in Hos.
    by rewrite foldl_app in Hos.
Qed.

(** The backfill stores the first wrap it is given as the key of every epoch. *)
Theorem backfill_stores_one_key f r t w ws from to d e :
  from <= e < to -> drive_folder_epoch_keys d !! (f, e, r) = None ->
  drive_folder_epoch_keys (BackfillEpochKeysForMember (fun _ => true) f r t (w :: ws) from to d).2
    !! (f, e, r) = Some (mkEpochKey t (kw_fck w) (kw_eph w)).
Proof.
  intros He Hn. unfold BackfillEpochKeysForMember.
  assert (exists n, Z.to_nat (to - from) = n /\ from <= e < from + Z.of_nat n) as (n & -> & Hr)
    by (exists (Z.to_nat (to - from)); lia).
  clear He. revert from d Hn Hr. induction n as [|n IH]; intros from d Hn Hr; [lia|]. cbn [backfill_loop].
  destruct (decide (e = from)) as [->|Hne].
  - clear IH. set (d1 := insert_key_once _ _ d).
    assert (drive_folder_epoch_keys d1 !! (f, from, r) = Some (mkEpochKey t (kw_fck w) (kw_eph w))) as H1.
    { unfold d1, insert_key_once. rewrite Hn. cbn. apply lookup_insert_eq. }
    clearbody d1. generalize (from + 1) as x. clear Hn Hr. revert d1 H1.
    induction n as [|n IH]; intros d1 H1 x; [done|]. cbn [backfill_loop]. apply IH.
    unfold insert_key_once. destruct (drive_folder_epoch_keys d1 !! (f, x, r)) eqn:E; [done|]. cbn.
    rewrite lookup_insert_ne; [done|]. intros [= ->]. congruence.
  - apply IH; [|lia]. unfold insert_key_once.
    destruct (drive_folder_epoch_keys d !! (f, from, r)); [done|]. cbn.
    rewrite lookup_insert_ne by congruence. done.
Qed.

(** * Examples *)

Definition yes (_ : string) : bool := true.

Definition drive_history : list dop :=
  [DCreate yes 0 (bs "root") (mkCreate (bs "ann") (bs "t") None (bs "k0") [] (bs "Root"));
   DCreate yes 1 (bs "sub") (mkCreate (bs "ann") (bs "t") (Some (bs "root")) (bs "s0") [] (bs "Sub"))].

Definition share_root : ShareFolderEpochInput :=
  mkShare (bs "root") (bs "ann") (bs "t")
    [mkWrap (bs "ann") (bs "ka") []; mkWrap (bs "bob") (bs "kb") []] (bs "Root1") []
    [(bs "sub", bs "Sub1")].

Definition shared_drive : Db := (AdvanceFolderEpoch yes 2 share_root (drun drive_history empty_drive)).2.

Lemma every_epoch_is_named_witness :
  exists n, GetEpochNameForFolder true (bs "root") 0
    (drun (drive_history ++ [DAdvance yes 2 share_root]) empty_drive) = Ok n.
Proof.
  apply (every_epoch_is_named (drive_history ++ [DAdvance yes 2 share_root]) (bs "root")
    (mkFolder (bs "ann") (bs "t") None 1 0 2) 0); [by vm_compute|cbn; lia].
Defined.

(** Bob is a member, is removed, and the folder is renamed and shared anew. *)
#[local] Definition with_bob : Db :=
  (AddFolderShareMember true 3 (bs "root") (bs "bob") (bs "t") (bs "ann") 1 false true None shared_drive).2.

#[local] Definition later_calls : list dop :=
  [DName true (bs "root") (bs "R");
   DAdd true 5 (bs "root") (bs "cat") (bs "t") (bs "ann") 1 false false None].

Lemma removed_member_has_no_key_witness :
  let d1 := (RemoveFolderShareMember yes (bs "root") (bs "bob") (bs "t") with_bob).2 in
  (forall e v, drive_folder_epoch_keys with_bob !! (bs "root", e, bs "ann") = Some v ->
     drive_folder_epoch_keys d1 !! (bs "root", e, bs "ann") = Some v) /\
  GetFolderEpochKeysForUser true (bs "root") (bs "bob") (bs "t") (drun later_calls d1) = Ok ∅ /\
  forall ms, ListFolderShareMembers true 6 (bs "root") (bs "t") (drun later_calls d1) = Ok ms ->
    ms !! (bs "root", bs "bob") = None.
Proof.
  intros d1. destruct (removed_member_has_no_key yes (bs "root") (bs "bob") (bs "t") with_bob later_calls)
    as (H1 & H2 & H3); [by vm_compute|]. split; [|split].
  - intros e v Hv. rewrite <-Hv. apply H1. discriminate.
  - apply H2. repeat constructor; intros [].
  - intros ms. apply H3. repeat constructor; [intros []|]. intros [_ E]. discriminate E.
Defined.

#[local] Lemma advance_root : AdvanceFolderEpoch yes 2 share_root (drun drive_history empty_drive) = (Ok 1, shared_drive).
Proof.
  assert (forall p : result serr Z * Db, p.1 = Ok 1 -> p = (Ok 1, p.2)) as H by (by intros [r d]; cbn; intros ->).
  apply H. by vm_compute.
Qed.

Lemma subfolder_names_block_sharing_witness :
  exists err, AdvanceFolderEpoch yes 3
    (mkShare (bs "sub") (bs "ann") (bs "t") [mkWrap (bs "bob") (bs "x") []] (bs "S") [] [])
    (drun [] shared_drive) = (Err err, drun [] shared_drive).
Proof.
  apply (subfolder_names_block_sharing yes 2 share_root 1 (drun drive_history empty_drive) shared_drive
    (bs "sub") (bs "Sub1") (mkFolder (bs "ann") (bs "t") (Some (bs "root")) 0 1 1) []).
  - exact advance_root.
  - by left.
  - by vm_compute.
  - discriminate.
  - done.
  - intros os1 os2 E. assert (os1 = []) as -> by (by destruct os1). apply (bool_decide_unpack _).
    by vm_compute.
  - done.
Defined.
