(* ===== verification/DriveTree.v ===== *)
(** internal/storage/drive_store.go: the recursive queries over the tree of
    folders.  A recursive query runs until its working table is empty; whether
    it ever is depends on the parents.  Shown: folders form a forest unless one
    is moved below itself; in a forest every recursive query returns, access is
    exactly an unexpired share of the folder or of one above it, and deleting a
    folder puts its files and those below it in the trash and loses none; after
    a move below itself, which nothing refuses, they never return. *)

From S2P Require Import Prelude Sql Drive.

#[local] Open Scope Z_scope.

(** * WITH RECURSIVE ... UNION ALL *)

Section cte.
Context {A : Type} `{EqDecision A}.
Implicit Types (next : A -> list A) (ws l : list A) (n : nat).

Lemma elem_of_flat_map next ws x : x ∈ flat_map next ws <-> exists w, w ∈ ws /\ x ∈ next w.
Proof.
  rewrite list_elem_of_In, in_flat_map. split; intros (w & ? & ?); exists w;
    by rewrite ?list_elem_of_In in *; rewrite <-?list_elem_of_In in *.
Qed.

(** What a query returns is what can be reached. *)
Lemma cte_elements n next ws l :
  cte n next ws = Some l ->
  forall x, x ∈ l <-> exists w, w ∈ ws /\ rtc (fun a b => b ∈ next a) w x.
Proof.
  revert ws l. induction n as [|n IH]; intros ws l H x.
  - destruct ws; [|done]. injection H as <-. split; [by intros ?%elem_of_nil|].
    by intros (w & ?%elem_of_nil & _).
  - destruct ws as [|w0 ws]; [injection H as <-; split;
      [by intros ?%elem_of_nil|by intros (w & ?%elem_of_nil & _)]|].
    cbn [cte] in H. destruct (cte n next _) as [rest|] eqn:E; [|done]. injection H as <-.
    rewrite (elem_of_app (w0 :: ws) rest x), (IH _ _ E x). setoid_rewrite elem_of_flat_map. split.
    + intros [Hin|(y & (w & Hw & Hy) & Hr)]; [by exists x; split; [|constructor]|].
      exists w. split; [done|]. by eapply rtc_l.
    + intros (w & Hw & Hr). inversion Hr as [|? y ? Hy Hr']; subst; [by left|]. right. exists y.
      split; [by exists w|done].
Qed.

(** More rounds do not change the result. *)
Lemma cte_more n m next ws l : (n <= m)%nat -> cte n next ws = Some l -> cte m next ws = Some l.
Proof.
  revert m ws l. induction n as [|n IH]; intros m ws l Hle H.
  - destruct ws; [|done]. by destruct m.
  - destruct m as [|m]; [lia|]. destruct ws as [|w ws]; [done|]. cbn [cte] in *.
    destruct (cte n next _) as [rest|] eqn:E; [|done]. by rewrite (IH m _ _ ltac:(lia) E).
Qed.

(** A query on a cycle never ends. *)
Lemma cte_cycle n next ws w :
  w ∈ ws -> tc (fun a b => b ∈ next a) w w -> cte n next ws = None.
Proof.
  revert ws w. induction n as [|n IH]; intros ws w Hw Hc; (destruct ws; [by apply elem_of_nil in Hw|]); [done|].
  cbn [cte]. assert (exists y, y ∈ next w /\ tc (fun a b => b ∈ next a) y y) as (y & Hy & Hcy).
  { inversion Hc as [? ? Hs|? y ? Hs Ht]; subst; [by exists w|]. exists y. split; [done|].
    eapply tc_r; [exact Ht|done]. }
  rewrite (IH _ y); [done|apply elem_of_flat_map; by exists w|done].
Qed.

(** ** Rounds and paths *)

Fixpoint chain (R : A -> A -> Prop) (l : list A) : Prop :=
  match l with
  | x :: (y :: _) as l' => R x y /\ chain R l'
  | _ => True
  end.

Lemma cte_none_path n next ws :
  cte n next ws = None ->
  exists w path, w ∈ ws /\ length path = n /\ chain (fun a b => b ∈ next a) (w :: path).
Proof.
  revert ws. induction n as [|n IH]; intros ws H; (destruct ws as [|w0 ws]; [done|]).
  { exists w0, []. split; [by left|done]. }
  cbn [cte] in H. destruct (cte n next _) eqn:E; [done|].
  destruct (IH _ E) as (y & path & (w & Hw & Hy)%elem_of_flat_map & Hl & Hc).
  exists w, (y :: path). split_and!; [done|cbn; lia|by split].
Qed.

Lemma chain_reaches (R : A -> A -> Prop) x l y : chain R (x :: l) -> y ∈ l -> tc R x y.
Proof.
  revert x. induction l as [|z l IH]; intros x Hc Hy; [by apply elem_of_nil in Hy|].
  destruct Hc as [Hxz Hc]. apply elem_of_cons in Hy as [->|Hy]; [by apply tc_once|].
  eapply tc_l; [exact Hxz|]. by apply IH.
Qed.

Lemma chain_nodup (R : A -> A -> Prop) l : (forall x, ~ tc R x x) -> chain R l -> NoDup l.
Proof.
  intros Hr. induction l as [|x l IH]; intros Hc; [constructor|]. apply NoDup_cons. split.
  - intros Hin. by eapply Hr, chain_reaches.
  - apply IH. destruct l; [done|]. by destruct Hc.
Qed.

(** Without cycles, no more rounds than there are rows. *)
Lemma cte_returns (xs : list A) n next ws :
  (forall x, ~ tc (fun a b => b ∈ next a) x x) ->
  (forall w x, x ∈ next w -> x ∈ xs) -> (forall w, w ∈ ws -> w ∈ xs) -> (length xs <= n)%nat ->
  is_Some (cte n next ws).
Proof.
  intros Hr Hs Hw Hn. destruct (cte n next ws) eqn:E; [by eexists|]. exfalso.
  apply cte_none_path in E as (w & path & Hin & Hl & Hc).
  assert (NoDup (w :: path)) as Hnd by by eapply chain_nodup.
  assert (w :: path ⊆ xs) as Hsub.
  { intros x [->|Hx]%elem_of_cons; [by apply Hw|]. clear Hnd Hl.
    destruct (chain_reaches _ _ _ x Hc Hx) as [? ? Hy|? y z _ Ht]; [by eapply Hs|].
    clear -Ht Hs. induction Ht; [by eapply Hs|done]. }
  apply NoDup_submseteq in Hsub; [|done]. apply submseteq_length in Hsub. cbn in Hsub. lia.
Qed.

End cte.

(** * The tree *)

(** [b] is the parent of [a]. *)
Definition parent_of (fs : gmap UUID DriveFolder) (a b : UUID) : Prop :=
  exists f, fs !! a = Some f /\ ParentID f = Some b.

Definition forest (d : Db) : Prop :=
  (forall k, ~ tc (parent_of (drive_folders d)) k k) /\
  (forall a b, parent_of (drive_folders d) a b -> is_Some (drive_folders d !! b)).

(** The parent of [w], in the tenant. *)
Definition parents (tenant : UUID) (d : Db) (w : UUID) : list UUID :=
  match f ← drive_folders d !! w; ParentID f with
  | Some p => base (fun g => bool_decide (FTenant g = tenant)) d p
  | None => []
  end.

Definition ancestors (n : nat) (tenant id : UUID) (d : Db) : option (list UUID) :=
  cte n (parents tenant d) (base (fun g => bool_decide (FTenant g = tenant)) d id).

Lemma elem_of_children P d w x :
  x ∈ children P d w <-> exists f, drive_folders d !! x = Some f /\ ParentID f = Some w /\ P f = true.
Proof.
  unfold children. rewrite list_elem_of_fmap. split.
  - intros ([k f] & -> & Hin). apply elem_of_map_to_list, lookup_select_where in Hin as [Hk Hp].
    apply andb_true_iff in Hp as [Hp HP]. apply bool_decide_eq_true in Hp. by exists f.
  - intros (f & Hx & Hp & HP). exists (x, f). split; [done|]. apply elem_of_map_to_list, lookup_select_where.
    split; [done|]. cbn. by rewrite bool_decide_eq_true_2.
Qed.

Lemma elem_of_base P d id x :
  x ∈ base P d id <-> x = id /\ exists f, drive_folders d !! id = Some f /\ P f = true.
Proof.
  unfold base. destruct (drive_folders d !! id) as [f|].
  - destruct (P f) eqn:E.
    + rewrite list_elem_of_singleton. split; [intros ->; eauto|by intros [-> _]].
    + split; [by intros ?%elem_of_nil|]. intros (_ & ? & [= <-] & ?). congruence.
  - split; [by intros ?%elem_of_nil|by intros (_ & ? & ? & _)].
Qed.

Lemma elem_of_parents t d w x :
  x ∈ parents t d w <-> parent_of (drive_folders d) w x /\
    exists g, drive_folders d !! x = Some g /\ FTenant g = t.
Proof.
  unfold parents, parent_of. destruct (drive_folders d !! w) as [f|]; cbn.
  2: { split; [by intros ?%elem_of_nil|by intros [(? & ? & _) _]]. }
  destruct (ParentID f) as [p|] eqn:E.
  - rewrite elem_of_base. setoid_rewrite bool_decide_eq_true. split.
    + intros (-> & g & Hg & Ht). split; eauto.
    + intros ((? & [= <-] & Hp) & g & Hg & Ht). rewrite E in Hp. injection Hp as <-. eauto.
  - split; [by intros ?%elem_of_nil|]. intros ((? & [= <-] & ?) & _). congruence.
Qed.

Lemma tc_mono {A : Type} (R S : A -> A -> Prop) x y : (forall a b, R a b -> S a b) -> tc R x y -> tc S x y.
Proof. intros H Ht. induction Ht; [by apply tc_once, H|]. eapply tc_l; [by apply H|done]. Qed.

Lemma tc_turned {A : Type} (R : A -> A -> Prop) x y : tc (fun a b => R b a) x y -> tc R y x.
Proof. intros Ht. induction Ht; [by apply tc_once|]. by eapply tc_r. Qed.

Definition rows (d : Db) : list UUID := (map_to_list (drive_folders d)).*1.

Lemma elem_of_rows d k : k ∈ rows d <-> is_Some (drive_folders d !! k).
Proof.
  unfold rows. rewrite list_elem_of_fmap. split.
  - intros ([? f] & -> & H%elem_of_map_to_list). by exists f.
  - intros [f H]. exists (k, f). split; [done|]. by apply elem_of_map_to_list.
Qed.

Lemma length_rows d : length (rows d) = size (drive_folders d).
Proof. unfold rows. by rewrite length_fmap, length_map_to_list. Qed.

(** In a forest the recursive queries return after as many rounds as there are
    folders. *)
Lemma subtree_returns n P id d :
  forest d -> (size (drive_folders d) <= n)%nat -> is_Some (subtree n P id d).
Proof.
  intros [Hc _] Hn. apply (cte_returns (rows d)).
  - intros x Hx. apply (Hc x). apply tc_turned. eapply tc_mono; [|exact Hx]. cbn. intros a b Hab.
    apply elem_of_children in Hab as (f & Hf & Hp & _). by exists f.
  - intros w x Hx. apply elem_of_rows. apply elem_of_children in Hx as (f & Hf & _). by exists f.
  - intros w Hw. apply elem_of_rows. apply elem_of_base in Hw as (-> & f & Hf & _). by exists f.
  - by rewrite length_rows.
Qed.

Lemma ancestors_return n t id d :
  forest d -> (size (drive_folders d) <= n)%nat -> is_Some (ancestors n t id d).
Proof.
  intros [Hc _] Hn. apply (cte_returns (rows d)).
  - intros x Hx. apply (Hc x). eapply tc_mono; [|exact Hx]. cbn. intros a b Hab.
    by apply elem_of_parents in Hab as [? _].
  - intros w x Hx. apply elem_of_rows. apply elem_of_parents in Hx as (_ & g & Hg & _). by exists g.
  - intros w Hw. apply elem_of_rows. apply elem_of_base in Hw as (-> & f & Hf & _). by exists f.
  - by rewrite length_rows.
Qed.

(** * The queries

[n]: the rounds the database is given; [None] when they are not enough. *)

Definition shared_at (now : Z) (P : DriveFolderShareMember -> bool) (recipient tenant : UUID) (d : Db)
    (k : UUID) : bool :=
  match drive_folder_shares d !! (k, recipient) with
  | Some m => bool_decide (m_tenant m = tenant) && active now m && P m
  | None => false
  end.

Definition HasFolderShareAccess (n : nat) (up : bool) (now : Z) (recipient tenant folder : UUID) (d : Db) :
    option (result serr bool) :=
  if negb up then Some (Err SqlFailed)
  else anc ← ancestors n tenant folder d;
       Some (Ok (existsb (shared_at now (fun _ => true) recipient tenant d) anc)).

Definition CanWriteToFolder (n : nat) (up1 up2 : bool) (now : Z) (user tenant folder : UUID) (d : Db) :
    option (result serr (bool * UUID)) :=
  if negb up1 then Some (Err SqlFailed)
  else match drive_folders d !! folder with
       | None => Some (Err SqlNoRows)
       | Some f =>
           if negb (bool_decide (FTenant f = tenant)) then Some (Err SqlNoRows)
           else if bool_decide (FUser f = user) then Some (Ok (true, FUser f))
           else if negb up2 then Some (Err SqlFailed)
           else anc ← ancestors n tenant folder d;
                Some (Ok (existsb (shared_at now CanEdit user tenant d) anc, FUser f))
       end.

Definition has_member (d : Db) (k : UUID) : bool :=
  bool_decide (select_where (fun kr (_ : DriveFolderShareMember) => bool_decide (kr.1 = k))
                 (drive_folder_shares d) <> ∅).

(** The rounds come in the order of the depth. *)
Definition GetShareRootForFolder (n : nat) (up : bool) (tenant folder : UUID) (d : Db) :
    option (result serr (UUID * Z)) :=
  if negb up then Some (Err SqlFailed)
  else anc ← ancestors n tenant folder d;
       Some (of_option SqlNoRows (k ← head (filter (fun k => has_member d k = true) anc);
                                  f ← drive_folders d !! k; Some (k, CurrentEpoch f))).

Definition files_where (P : DriveFile -> bool) (d : Db) : list (UUID * DriveFile) :=
  map_to_list (select_where (fun _ => P) (drive_files d)).

Definition ListFilesInFolderRecursive (n : nat) (up : bool) (owner tenant root : UUID) (d : Db) :
    option (result serr (list (UUID * DriveFile))) :=
  if negb up then Some (Err SqlFailed)
  else ids ← subtree n (owned owner tenant) root d;
       Some (Ok (files_where (fun f => in_folders ids f && file_owned owner tenant f && negb (Trashed f)) d)).

Definition ListFilesInFolderByID (n : nat) (up : bool) (root : UUID) (d : Db) :
    option (result serr (list (UUID * DriveFile))) :=
  if negb up then Some (Err SqlFailed)
  else ids ← subtree n (fun _ => true) root d;
       Some (Ok (files_where (fun f => in_folders ids f && negb (Trashed f)) d)).

(** These two begin with the folders below the root. *)
Definition ListSubfoldersRecursive (n : nat) (up : bool) (owner tenant root : UUID) (d : Db) :
    option (result serr (list UUID)) :=
  if negb up then Some (Err SqlFailed)
  else ids ← cte n (children (owned owner tenant) d) (children (owned owner tenant) d root);
       Some (Ok ids).

Definition ListSubfoldersByID (n : nat) (up : bool) (root : UUID) (d : Db) :
    option (result serr (list UUID)) :=
  if negb up then Some (Err SqlFailed)
  else ids ← cte n (children (fun _ => true) d) (children (fun _ => true) d root); Some (Ok ids).

(** * Access *)

(** A folder at or above [k], all of the tenant. *)
Definition at_or_above (d : Db) (tenant k a : UUID) : Prop :=
  (exists f, drive_folders d !! k = Some f /\ FTenant f = tenant) /\
  rtc (fun x y => parent_of (drive_folders d) x y /\
                  exists g, drive_folders d !! y = Some g /\ FTenant g = tenant) k a.

Lemma elem_of_ancestors n t id d l x :
  ancestors n t id d = Some l -> x ∈ l <-> at_or_above d t id x.
Proof.
  intros H. rewrite (cte_elements _ _ _ _ H). unfold at_or_above.
  assert (forall a b, rtc (fun a b => b ∈ parents t d a) a b <->
    rtc (fun x y => parent_of (drive_folders d) x y /\
                    exists g, drive_folders d !! y = Some g /\ FTenant g = t) a b) as Hr.
  { intros a b. split; apply rtc_subrel; intros ? ?; apply elem_of_parents. }
  setoid_rewrite Hr. setoid_rewrite elem_of_base. setoid_rewrite bool_decide_eq_true.
  split; [by intros (w & [-> Hb] & Hw)|]. intros [Hb Hw]. by exists id.
Qed.

Lemma shared_at_spec now P r t d k :
  shared_at now P r t d k = true <-> exists m, drive_folder_shares d !! (k, r) = Some m /\
    m_tenant m = t /\ active now m = true /\ P m = true.
Proof.
  unfold shared_at. destruct (drive_folder_shares d !! (k, r)) as [m|].
  - rewrite !andb_true_iff, bool_decide_eq_true. split; [intros [[? ?] ?]; eauto|].
    by intros (? & [= <-] & ? & ? & ?).
  - split; [done|by intros (? & ? & _)].
Qed.

Lemma exists_shared now P r t d n id l :
  ancestors n t id d = Some l ->
  existsb (shared_at now P r t d) l = true <->
  exists a m, at_or_above d t id a /\ drive_folder_shares d !! (a, r) = Some m /\
    m_tenant m = t /\ active now m = true /\ P m = true.
Proof.
  intros H. rewrite existsb_exists. setoid_rewrite <-list_elem_of_In.
  setoid_rewrite (elem_of_ancestors _ _ _ _ _ _ H). setoid_rewrite shared_at_spec. split.
  - intros (a & Ha & m & Hm). by exists a, m.
  - intros (a & m & Ha & Hm). exists a. split; [done|]. by exists m.
Qed.

(** C33. Access to a shared folder is what its shares say: where folders form a
    forest, HasFolderShareAccess returns, and says yes exactly when the folder
    or one above it is shared with the user and the share has not expired;
    CanWriteToFolder returns too, for a folder of the tenant, and says yes
    exactly to the owner and to those with an unexpired editing share of it or
    of one above, all of whom have access. *)
Theorem access_is_an_unexpired_share n now user tenant folder d :
  forest d -> (size (drive_folders d) <= n)%nat ->
  let shared P := exists a m, at_or_above d tenant folder a /\
    drive_folder_shares d !! (a, user) = Some m /\ m_tenant m = tenant /\ active now m = true /\ P m = true in
  (exists b, HasFolderShareAccess n true now user tenant folder d = Some (Ok b) /\
     (b = true <-> shared (fun _ => true))) /\
  (forall f, drive_folders d !! folder = Some f -> FTenant f = tenant ->
     exists b, CanWriteToFolder n true true now user tenant folder d = Some (Ok (b, FUser f)) /\
       (b = true <-> FUser f = user \/ shared CanEdit)) /\
  (shared CanEdit -> shared (fun _ => true)).
Proof.
  intros Hf Hn shared. destruct (ancestors_return n tenant folder d Hf Hn) as [l El]. split_and!.
  - unfold HasFolderShareAccess. cbn [negb]. rewrite El. eexists. split; [reflexivity|].
    by apply exists_shared with (n := n) (id := folder).
  - intros f Hfo Ht. unfold CanWriteToFolder. cbn [negb]. rewrite Hfo.
    rewrite (bool_decide_eq_true_2 (FTenant f = tenant)) by done. cbn [negb].
    destruct (decide (FUser f = user)) as [Eu|Eu].
    + rewrite bool_decide_eq_true_2 by done. exists true. split; [done|]. split; [by left|done].
    + rewrite bool_decide_eq_false_2 by done. rewrite El. eexists. split; [reflexivity|].
      rewrite (exists_shared now CanEdit user tenant d n folder l El). split; [by right|by intros [?|?]].
  - intros (a & m & Ha & Hm & Ht & Hac & _). by exists a, m.
Qed.

(** * The trash *)

Lemma under_sound n fs root k : under n fs root k = true -> rtc (parent_of fs) k root.
Proof.
  revert k. induction n as [|n IH]; intros k; cbn [under]; rewrite orb_true_iff, bool_decide_eq_true.
  - intros [->|?]; [constructor|done].
  - intros [->|H]; [constructor|]. destruct (fs !! k) as [f|] eqn:Ek; cbn in H; [|done].
    destruct (ParentID f) as [p|] eqn:Ep; [|done]. eapply rtc_l; [by exists f|by apply IH].
Qed.

Lemma under_false_path n fs root k :
  under n fs root k = false -> rtc (parent_of fs) k root ->
  exists path, length path = n /\ chain (parent_of fs) (k :: path).
Proof.
  revert k. induction n as [|n IH]; intros k Hu Hr; [by exists []|]. cbn [under] in Hu.
  apply orb_false_iff in Hu as [Hne Hu]. apply bool_decide_eq_false in Hne.
  inversion Hr as [|? p ? Hp Hr']; subst; [done|]. pose proof Hp as (f & Hf & Hpf).
  rewrite Hf in Hu. cbn in Hu. rewrite Hpf in Hu. destruct (IH p Hu Hr') as (path & Hl & Hc).
  exists (p :: path). split; [cbn; lia|]. by split.
Qed.

(** The folders that go with one are those below it. *)
Lemma in_tree_spec d root k :
  forest d -> in_tree root d k = true <->
  is_Some (drive_folders d !! k) /\ rtc (parent_of (drive_folders d)) k root.
Proof.
  intros [Hc He]. unfold in_tree. rewrite andb_true_iff, bool_decide_eq_true. split.
  - intros [Hk Hu]. split; [done|]. by eapply under_sound.
  - intros [Hk Hr]. split; [done|]. destruct (under _ _ root k) eqn:E; [done|]. exfalso.
    destruct (under_false_path _ _ _ _ E Hr) as (path & Hl & Hch).
    assert (NoDup (k :: path)) as Hnd by by eapply chain_nodup.
    assert (k :: path ⊆ rows d) as Hsub.
    { intros x [->|Hx]%elem_of_cons; [by apply elem_of_rows|]. apply elem_of_rows.
      pose proof (chain_reaches _ _ _ x Hch Hx) as Ht. clear -Ht He. induction Ht; [by eapply He|done]. }
    apply NoDup_submseteq in Hsub; [|done]. apply submseteq_length in Hsub.
    rewrite length_rows in Hsub. cbn in Hsub. lia.
Qed.

(** The user's folders from [root] down. *)
Definition below (d : Db) (user tenant root k : UUID) : Prop :=
  (exists f, drive_folders d !! root = Some f /\ owned user tenant f = true) /\
  rtc (fun x y => exists f, drive_folders d !! y = Some f /\ ParentID f = Some x /\ owned user tenant f = true)
    root k.

Lemma elem_of_subtree n user tenant root d l k :
  subtree n (owned user tenant) root d = Some l -> k ∈ l <-> below d user tenant root k.
Proof.
  intros H. rewrite (cte_elements _ _ _ _ H). unfold below.
  assert (forall a b, rtc (fun a b => b ∈ children (owned user tenant) d a) a b <->
    rtc (fun x y => exists f, drive_folders d !! y = Some f /\ ParentID f = Some x /\ owned user tenant f = true)
      a b) as Hr.
  { intros a b. split; apply rtc_subrel; intros ? ?; apply elem_of_children. }
  setoid_rewrite Hr. setoid_rewrite elem_of_base. split; [by intros (w & [-> Hb] & Hw)|].
  intros [Hb Hw]. by exists root.
Qed.

(** What the deletion of a tree leaves of a file: all but its folder. *)
Lemma delete_tree_file c root d k f :
  drive_files d !! k = Some f ->
  drive_files (delete_tree c root d) !! k =
    Some (if match FolderID f with Some p => in_tree root d p | None => false end then unfiled f else f).
Proof. intros Hk. cbn. by rewrite lookup_update_where, Hk. Qed.

Definition same_content (f g : DriveFile) : Prop :=
  FileUser g = FileUser f /\ FileTenant g = FileTenant f /\ EncryptedName g = EncryptedName f /\
  BlobRef g = BlobRef f /\ EncryptedFileKey g = EncryptedFileKey f /\ EphemeralPubkey g = EphemeralPubkey f /\
  FCKWrappedMessageKey g = FCKWrappedMessageKey f /\ Epoch g = Epoch f.

(** The first statement, on one file. *)
Definition swept (now : Z) (user tenant : UUID) (ids : list UUID) (k : UUID) (f : DriveFile) : DriveFile :=
  if to_trash user tenant ids k f then trashed_file now f else f.

Lemma swept_same now user tenant ids k f :
  same_content f (swept now user tenant ids k f) /\ FolderID (swept now user tenant ids k f) = FolderID f.
Proof. unfold swept. by destruct (to_trash _ _ _ _ _). Qed.

Lemma swept_trashed now user tenant ids k f :
  Trashed (swept now user tenant ids k f) = true <->
  Trashed f = true \/ (file_owned user tenant f = true /\ exists p, FolderID f = Some p /\ p ∈ ids).
Proof.
  unfold swept, to_trash, in_folders.
  destruct (Trashed f) eqn:Et; [rewrite andb_false_r, Et; by split; [left|]|]. rewrite andb_true_r.
  destruct (file_owned user tenant f); cbn [andb]; [|rewrite Et; split; [done|by intros [?|[? _]]]].
  destruct (FolderID f) as [p|]; [|rewrite Et; split; [done|by intros [?|(_ & ? & ? & _)]]].
  case_bool_decide as Hp; [split; [right; eauto|done]|]. rewrite Et.
  split; [done|by intros [?|(_ & ? & [= <-] & ?)]].
Qed.

(** Files and folders after the whole. *)
Lemma delete_tree_folders c root d k :
  forest d -> is_Some (drive_folders (delete_tree c root d) !! k) <->
  is_Some (drive_folders d !! k) /\ ~ rtc (parent_of (drive_folders d)) k root.
Proof.
  intros Hf. cbn. split.
  - intros [f Hk]. apply lookup_delete_where in Hk as [Hk Ht]. split; [by exists f|]. intros Hr.
    change (in_tree root d k = false) in Ht.
    rewrite (proj2 (in_tree_spec d root k Hf)) in Ht; [done|]. split; [by exists f|done].
  - intros [[f Hk] Hr]. exists f. apply lookup_delete_where. split; [done|].
    change (in_tree root d k = false). destruct (in_tree root d k) eqn:E; [|done].
    apply in_tree_spec in E as [_ ?]; done.
Qed.

Lemma unfiled_file root d f :
  forest d ->
  let f' := if match FolderID f with Some p => in_tree root d p | None => false end then unfiled f else f in
  same_content f f' /\ Trashed f' = Trashed f /\ (FolderID f' = FolderID f \/ FolderID f' = None) /\
  forall p, FolderID f' = Some p ->
    ~ (is_Some (drive_folders d !! p) /\ rtc (parent_of (drive_folders d)) p root).
Proof.
  intros Hf. cbv zeta. destruct (FolderID f) as [p|] eqn:Ep; [destruct (in_tree root d p) eqn:Ein|].
  - repeat split; [by right|done].
  - repeat split; [by left|]. rewrite Ep. intros p' [= <-] Hp. apply in_tree_spec in Hp; [|done]. congruence.
  - repeat split; [by left|]. by rewrite Ep.
Qed.

#[export] Instance same_content_trans : Transitive same_content.
Proof. unfold same_content. intros f g h. naive_solver congruence. Qed.

(** What DeleteFolderCascadeTrash comes to: of the files in the folders that
    go, those of the user in folders reached through the user's own. *)
Lemma cascade_trash_spec n c ok now user tenant folder fo d :
  forest d -> (size (drive_folders d) <= n)%nat ->
  drive_folders d !! folder = Some fo -> owned user tenant fo = true ->
  exists r d', DeleteFolderCascadeTrash n c ok now user tenant folder d = Some (r, d') /\
  match r with
  | Err _ => d' = d
  | Ok _ =>
      (forall k, is_Some (drive_folders d' !! k) <->
         is_Some (drive_folders d !! k) /\ ~ rtc (parent_of (drive_folders d)) k folder) /\
      (forall k f, drive_files d !! k = Some f -> exists f', drive_files d' !! k = Some f' /\
         same_content f f' /\
         (Trashed f' = true <-> Trashed f = true \/
            (file_owned user tenant f = true /\
             exists p, FolderID f = Some p /\ below d user tenant folder p)) /\
         (FolderID f' = FolderID f \/ FolderID f' = None) /\
         forall p, FolderID f' = Some p -> ~ (is_Some (drive_folders d !! p) /\
                                              rtc (parent_of (drive_folders d)) p folder))
  end.
Proof.
  intros Hf Hn Hfo Ho. unfold DeleteFolderCascadeTrash.
  destruct (subtree_returns n (owned user tenant) folder d Hf Hn) as [ids Eids].
  destruct (ok "begin"%string && ok "trash"%string); cbn [negb]; [|by eexists _, _]. rewrite Eids.
  cbn [mbind option_bind]. set (d1 := with_files _ d). unfold delete_folder_row.
  destruct (ok "delete"%string); cbn [negb]; [|by eexists _, _]. cbn [drive_folders with_files d1].
  rewrite Hfo, Ho. destruct (ok "commit"%string); [|by eexists _, _].
  eexists _, _. split; [reflexivity|]. split; [intros k; by apply (delete_tree_folders c folder d1 k)|].
  intros k f Hk. pose proof (swept_same now user tenant ids k f) as [Hsame Efo].
  assert (drive_files d1 !! k = Some (swept now user tenant ids k f)) as H1
    by (cbn; by rewrite lookup_update_where, Hk).
  rewrite (delete_tree_file c folder d1 k _ H1).
  pose proof (unfiled_file folder d1 (swept now user tenant ids k f) Hf) as (H2 & H3 & H4 & H5).
  eexists. split; [reflexivity|]. refine (conj _ (conj _ (conj _ H5))).
  - by etransitivity.
  - rewrite H3, swept_trashed. by setoid_rewrite (elem_of_subtree _ _ _ _ _ _ _ Eids).
  - rewrite <-Efo. exact H4.
Qed.

(** Where the whole tree is the user's, these are all the files in it. *)
Lemma below_own d user tenant root p :
  (forall k f, drive_folders d !! k = Some f -> rtc (parent_of (drive_folders d)) k root -> owned user tenant f = true) ->
  is_Some (drive_folders d !! root) ->
  below d user tenant root p <-> is_Some (drive_folders d !! p) /\ rtc (parent_of (drive_folders d)) p root.
Proof.
  intros Hown [fo Hfo]. unfold below. split.
  - intros [_ Hr]. revert p Hr.
    apply (rtc_ind_r (fun p => is_Some (drive_folders d !! p) /\ rtc (parent_of (drive_folders d)) p root)).
    + split; [by exists fo|constructor].
    + intros x y _ (f & Hy & Hp & _) [_ IH]. split; [by exists f|]. eapply rtc_l; [by exists f|exact IH].
  - intros [Hp Hr]. split; [exists fo; split; [done|]; by eapply Hown|].
    induction Hr as [x|x y z (f & Hx & Hpar) Hr IH]; [constructor|].
    eapply rtc_r; [apply IH; [done..|]|].
    + inversion Hr as [|? w ? (g & Hg & _) _]; subst; [by exists fo|by exists g].
    + exists f. split_and!; [done|done|]. eapply Hown; [exact Hx|]. eapply rtc_l; [by exists f|exact Hr].
Qed.

(** C34. Deleting a folder with its content loses no file: where folders form a
    forest and the folder, those below it and the files in them are all the
    user's, DeleteFolderCascadeTrash returns.  Then exactly the folders at and
    below it are gone, every file is still there with its content and keys,
    the files now in the trash are those that were and all those in the folders
    that went, whatever their depth, and no file is left in such a folder; if
    any statement fails, nothing has changed. *)
Theorem cascade_trash_loses_no_file n c ok now user tenant folder d :
  let gone p := is_Some (drive_folders d !! p) /\ rtc (parent_of (drive_folders d)) p folder in
  forest d -> (size (drive_folders d) <= n)%nat -> is_Some (drive_folders d !! folder) ->
  (forall k f, drive_folders d !! k = Some f -> gone k -> owned user tenant f = true) ->
  (forall k f p, drive_files d !! k = Some f -> FolderID f = Some p -> gone p -> file_owned user tenant f = true) ->
  exists r d', DeleteFolderCascadeTrash n c ok now user tenant folder d = Some (r, d') /\
  match r with
  | Err _ => d' = d
  | Ok _ =>
      (forall k, is_Some (drive_folders d' !! k) <-> is_Some (drive_folders d !! k) /\ ~ gone k) /\
      (forall k f, drive_files d !! k = Some f -> exists f', drive_files d' !! k = Some f' /\
         same_content f f' /\
         (Trashed f' = true <-> Trashed f = true \/ exists p, FolderID f = Some p /\ gone p) /\
         (FolderID f' = FolderID f \/ FolderID f' = None) /\
         forall p, FolderID f' = Some p -> ~ gone p)
  end.
Proof.
  intros gone Hf Hn [fo Hfo] Hown Hfiles.
  assert (forall k f, drive_folders d !! k = Some f -> rtc (parent_of (drive_folders d)) k folder -> owned user tenant f = true) as Hown'
    by (intros k f Hk Hr; eapply Hown; [exact Hk|]; split; [by exists f|done]).
  destruct (cascade_trash_spec n c ok now user tenant folder fo d Hf Hn Hfo) as (r & d' & E & H).
  { eapply Hown'; [exact Hfo|constructor]. }
  exists r, d'. split; [done|]. destruct r as [m|e]; [|done]. destruct H as [H1 H2]. split.
  - intros k. rewrite H1. unfold gone. tauto.
  - intros k f Hk. destruct (H2 k f Hk) as (f' & Hk' & Hc & Ht & Hfo' & Hl).
    exists f'. split_and!; [done|done| |done|done]. rewrite Ht.
    setoid_rewrite (below_own d user tenant folder _ Hown'); [|by exists fo]. split.
    + intros [?|(_ & p & Hp & Hg)]; [by left|right; by exists p].
    + intros [?|(p & Hp & Hg)]; [by left|right]. split; [by eapply Hfiles|by exists p].
Qed.

(** * Forests stay forests *)

Lemma parent_of_insert fs id f a b :
  parent_of (<[id := f]> fs) a b <-> a = id /\ ParentID f = Some b \/ a <> id /\ parent_of fs a b.
Proof.
  unfold parent_of. setoid_rewrite lookup_insert_Some. split.
  - intros (g & [[-> ->]|[Hne Hg]] & Hp); [by left|right; eauto].
  - intros [[-> Hp]|[Hne (g & Hg & Hp)]]; [exists f|exists g]; auto.
Qed.

(** A path that may use the new edge. *)
Lemma tc_insert fs id f x y :
  (forall p, ParentID f = Some p -> ~ rtc (parent_of fs) p id) ->
  tc (parent_of (<[id := f]> fs)) x y ->
  tc (parent_of fs) x y \/ (rtc (parent_of fs) x id /\ exists p, ParentID f = Some p /\ rtc (parent_of fs) p y).
Proof.
  intros Hn Ht. induction Ht as [x y H|x z y H _ IH]; apply parent_of_insert in H as [[-> Hp]|[_ H]].
  - right. split; [done|]. by exists y.
  - left. by apply tc_once.
  - destruct IH as [IH|[IH _]]; [|by apply Hn in Hp]. right. split; [done|]. exists z.
    split; [done|]. by apply tc_rtc.
  - destruct IH as [IH|[IH Hp]]; [left; by eapply tc_l|right; split; [by eapply rtc_l|done]].
Qed.

Lemma forest_insert d id f :
  forest d -> (forall p, ParentID f = Some p -> is_Some (drive_folders d !! p) /\
                                   ~ rtc (parent_of (drive_folders d)) p id) ->
  forest (with_folders (<[id := f]> (drive_folders d)) d).
Proof.
  intros [Hc He] Hp. split; cbn [drive_folders with_folders].
  - intros k Hk. apply tc_insert in Hk as [Hk|[Hk (p & Hf & Hr)]]; [by apply (Hc k)| |by intros p [_ ?]%Hp].
    destruct (Hp p Hf) as [_ Hn]. apply Hn. by etransitivity.
  - intros a b [[-> Hf]|[_ Hab]]%parent_of_insert; apply lookup_insert_is_Some'; right; [by apply Hp|by eapply He].
Qed.

Lemma forest_new d id f :
  forest d -> drive_folders d !! id = None -> parent_exists (ParentID f) d = true ->
  forest (with_folders (<[id := f]> (drive_folders d)) d).
Proof.
  intros Hf Hn Hp. apply forest_insert; [done|]. intros p Ep. rewrite Ep in Hp. cbn in Hp.
  destruct (drive_folders d !! p) eqn:Edp; [|done]. split; [by eexists|]. intros Hr.
  apply rtc_inv_r in Hr as [->|(z & _ & Hz)]; [congruence|]. destruct Hf as [_ He].
  apply He in Hz as [? Hz]. congruence.
Qed.

Lemma forest_ext d d' : drive_folders d' = drive_folders d -> forest d -> forest d'.
Proof. unfold forest. by intros ->. Qed.

(** The same parents. *)
Lemma forest_update d id f g :
  forest d -> drive_folders d !! id = Some f -> ParentID g = ParentID f ->
  forest (with_folders (<[id := g]> (drive_folders d)) d).
Proof.
  intros [Hc He] Hf Hp.
  assert (forall a b, parent_of (<[id := g]> (drive_folders d)) a b <-> parent_of (drive_folders d) a b) as Hr.
  { intros a b. rewrite parent_of_insert, Hp. unfold parent_of. split.
    - intros [[-> E]|[_ E]]; [by exists f|done].
    - intros (x & Hx & E). destruct (decide (a = id)) as [->|]; [left|right; eauto].
      split; [done|]. congruence. }
  split; cbn [drive_folders with_folders].
  - intros k Hk. apply (Hc k). eapply tc_mono; [|exact Hk]. intros ? ?. apply Hr.
  - intros a b [x Hx]%Hr%He. apply lookup_insert_is_Some'. right. by exists x.
Qed.

Lemma forest_delete c root d : forest d -> forest (delete_tree c root d).
Proof.
  intros Hf. destruct Hf as [Hc He].
  assert (forall a b, parent_of (drive_folders (delete_tree c root d)) a b -> parent_of (drive_folders d) a b) as Hr.
  { intros a b (f & Ha & Hp). cbn in Ha. apply lookup_delete_where in Ha as [Ha _]. by exists f. }
  split.
  - intros k Hk. apply (Hc k). by eapply tc_mono.
  - intros a b Hab. apply delete_tree_folders; [done|]. pose proof (Hr _ _ Hab) as H.
    split; [by eapply He|]. intros Hb. destruct Hab as (f & Ha & _).
    assert (is_Some (drive_folders (delete_tree c root d) !! a)) as [_ Hn]%delete_tree_folders
      by (by exists f || done).
    + apply Hn. by eapply rtc_l.
    + done.
Qed.

(** No folder is moved below itself. *)
Definition tidy (o : dop) (d : Db) : Prop :=
  match o with
  | DMove _ _ id _ _ (Some p) => ~ rtc (parent_of (drive_folders d)) p id
  | _ => True
  end.

Fixpoint all_tidy (os : list dop) (d : Db) : Prop :=
  match os with [] => True | o :: os => tidy o d /\ all_tidy os (dapply o d) end.

Lemma create_forest ok now id i d a d' :
  create_body ok now id i d = Ok (a, d') -> forest d -> forest d'.
Proof.
  unfold create_body. destruct (insert_folder _ _ _ _) as [d1|] eqn:E1; [|done]. cbn [mbind result_bind].
  apply insert_folder_ok in E1 as (Hn & Hp & ->).
  destruct (insert_key _ _ _ _) as [d2|] eqn:E2; [|done]. cbn [mbind result_bind].
  apply insert_key_ok in E2 as [_ ->]. destruct (insert_name _ _ _ _ _) as [d3|] eqn:E3; [|done].
  cbn [mbind result_bind]. apply insert_name_ok in E3 as [_ ->]. intros [= _ <-] Hf.
  eapply forest_ext; [|by apply (forest_new d id _ Hf Hn Hp)]. done.
Qed.

Lemma create_via_forest ok now id u t p n d a d' :
  create_via_body ok now id u t p n d = Ok (a, d') -> forest d -> forest d'.
Proof.
  unfold create_via_body. destruct (insert_folder _ _ _ _) as [d1|] eqn:E1; [|done]. cbn [mbind result_bind].
  apply insert_folder_ok in E1 as (Hn & Hp & ->). destruct (insert_name _ _ _ _ _) as [d3|] eqn:E3; [|done].
  cbn [mbind result_bind]. apply insert_name_ok in E3 as [_ ->]. intros [= _ <-] Hf.
  eapply forest_ext; [|by apply (forest_new d id _ Hf Hn Hp)]. done.
Qed.

Lemma dapply_forest o d : tidy o d -> forest d -> forest (dapply o d).
Proof.
  intros Ht Hf. destruct o as [ok now id i|ok now id w t p n|up now id w t p|up id n|c up w t id|m c ok now w t id|ok now i
    |up now g r t w j p y z|up g r t ws a b|ok g r t]; cbn [dapply].
  - unfold CreateFolder. destruct (atomically_cases ok (create_body ok now id i) d) as [->|(a & E & _)]; [done|].
    by eapply create_forest.
  - unfold CreateFolderViaSharedFolder.
    destruct (atomically_cases ok (create_via_body ok now id w t p n) d) as [->|(a & E & _)]; [done|].
    by eapply create_via_forest.
  - unfold UpdateFolder. destruct up; [|done]. cbn [negb].
    destruct (drive_folders d !! id) as [y|] eqn:E; [|done]. destruct (owned w t y); [|done].
    cbn [negb]. destruct (parent_exists p d) eqn:Ep; [|done]. cbn [snd].
    apply forest_insert; [done|]. cbn. intros q ->. cbn in Ep, Ht.
    split; [destruct (drive_folders d !! q); [by eexists|done]|done].
  - unfold UpdateFolderName. destruct up; [|done]. cbn [negb].
    destruct (drive_folders d !! id) as [y|]; [|done]. by destruct (drive_folder_epoch_names d !! (id, _)).
  - destruct (delete_folder_cases c up w t id d) as [->| ->]; [done|]. by apply forest_delete.
  - destruct (trash_cases m c ok now w t id d) as [->|(fs & ->)]; [done|].
    apply forest_delete. by eapply forest_ext.
  - unfold AdvanceFolderEpoch.
    destruct (atomically_cases ok (advance_body ok now i) d) as [->|(a & E & _)]; [done|].
    apply advance_epoch_ok in E as (f & Hfo & _ & _ & E & _).
    apply (forest_ext (with_folders (<[sf_folder i := bump_epoch now f]> (drive_folders d)) d)); [exact E|].
    by eapply (forest_update d _ f).
  - by destruct up.
  - unfold BackfillEpochKeysForMember.
    destruct (backfill_keeps up g r t ws a (Z.to_nat (b - a)) d) as (E & _). by eapply forest_ext.
  - unfold RemoveFolderShareMember.
    destruct (atomically_cases ok (remove_body ok g r t) d) as [->|(a & E & _)]; [done|].
    apply remove_ok in E as (E & _). by eapply forest_ext.
Qed.

(** The walk that begins below the root. *)
Lemma subfolders_return n P id d :
  forest d -> (size (drive_folders d) <= n)%nat -> is_Some (cte n (children P d) (children P d id)).
Proof.
  intros [Hc _] Hn. apply (cte_returns (rows d)).
  - intros x Hx. apply (Hc x). apply tc_turned. eapply tc_mono; [|exact Hx]. cbn. intros a b Hab.
    apply elem_of_children in Hab as (f & Hf & Hp & _). by exists f.
  - intros w x Hx. apply elem_of_rows. apply elem_of_children in Hx as (f & Hf & _). by exists f.
  - intros w Hw. apply elem_of_rows. apply elem_of_children in Hw as (f & Hf & _). by exists f.
  - by rewrite length_rows.
Qed.

Lemma forest_empty : forest empty_drive.
Proof.
  split; [intros k Hk|by intros a b (f & Hf & _)].
  by inversion Hk as [? ? (f & Hf & _)|? ? ? (f & Hf & _)].
Qed.

Lemma drun_forest os d : all_tidy os d -> forest d -> forest (drun os d).
Proof.
  revert d. induction os as [|o os IH]; intros d; [done|]. intros [Ho Ht] Hf.
  apply IH; [done|]. by apply dapply_forest.
Qed.

(** C35. Folders form a forest after any history of calls on folders, failing or
    not, that moves no folder below itself: no folder is above itself and
    every parent exists.  So every recursive query returns, whatever it is
    asked, once it is given as many rounds as there are folders: the two
    checks of access, the search for the root of a share, the four listings of
    files and subfolders, and DeleteFolderCascadeTrash. *)
Theorem folders_form_a_forest os n :
  all_tidy os empty_drive ->
  let d := drun os empty_drive in
  forest d /\
  ((size (drive_folders d) <= n)%nat -> forall up now user tenant folder,
   is_Some (HasFolderShareAccess n up now user tenant folder d) /\
   (forall up2, is_Some (CanWriteToFolder n up up2 now user tenant folder d)) /\
   is_Some (GetShareRootForFolder n up tenant folder d) /\
   is_Some (ListFilesInFolderRecursive n up user tenant folder d) /\
   is_Some (ListFilesInFolderByID n up folder d) /\
   is_Some (ListSubfoldersRecursive n up user tenant folder d) /\
   is_Some (ListSubfoldersByID n up folder d) /\
   (forall c ok, is_Some (DeleteFolderCascadeTrash n c ok now user tenant folder d))).
Proof.
  intros Ht d. assert (forest d) as Hf by (apply drun_forest; [done|apply forest_empty]).
  split; [done|]. intros Hn up now user tenant folder.
  destruct (ancestors_return n tenant folder d Hf Hn) as [anc Ea].
  destruct (subtree_returns n (owned user tenant) folder d Hf Hn) as [ids Ei].
  destruct (subtree_returns n (fun _ => true) folder d Hf Hn) as [all Eall].
  destruct (subfolders_return n (owned user tenant) folder d Hf Hn) as [subs Es].
  destruct (subfolders_return n (fun _ => true) folder d Hf Hn) as [alls Eas].
  unfold HasFolderShareAccess, CanWriteToFolder, GetShareRootForFolder, ListFilesInFolderRecursive,
    ListFilesInFolderByID, ListSubfoldersRecursive, ListSubfoldersByID, DeleteFolderCascadeTrash.
  rewrite Ea, Ei, Eall, Es, Eas. cbn [mbind option_bind].
  split_and!; try (destruct up; by eexists).
  - intros up2. destruct up; [|by eexists]. cbn [negb]. destruct (drive_folders d !! folder); [|by eexists].
    destruct (bool_decide (FTenant _ = _)); [|by eexists]. cbn [negb].
    destruct (bool_decide (FUser _ = _)); [by eexists|]. destruct up2; by eexists.
  - intros c ok. destruct (_ && _)%bool; by eexists.
Qed.

(** Nothing refuses to move a folder into itself, and then nothing that walks
    the tree from it returns. *)
Theorem folder_moved_into_itself now user tenant id f d :
  drive_folders d !! id = Some f -> owned user tenant f = true ->
  let r := UpdateFolder true now id user tenant (Some id) d in
  r.1 = Ok tt /\
  forall n, HasFolderShareAccess n true now user tenant id r.2 = None /\
    forall c, DeleteFolderCascadeTrash n c (fun _ => true) now user tenant id r.2 = None.
Proof.
  intros Hf Ho. cbv zeta. unfold UpdateFolder. cbn [negb]. rewrite Hf, Ho. cbn [negb parent_exists].
  rewrite Hf. cbn [fst snd]. split; [done|]. set (g := mkFolder _ _ (Some id) _ _ _).
  set (d' := with_folders _ d). assert (drive_folders d' !! id = Some g) as Hg by apply lookup_insert_eq.
  assert (owned user tenant g = true) as Hog by done.
  assert (FTenant g = tenant) as Htg by (by apply andb_true_iff in Ho as [_ Ho]; apply bool_decide_eq_true in Ho).
  intros n. split.
  - unfold HasFolderShareAccess, ancestors. cbn [negb]. rewrite (cte_cycle n _ _ id); [done| |].
    + apply elem_of_base. split; [done|]. exists g. by rewrite bool_decide_eq_true.
    + apply tc_once, elem_of_parents. split; [by exists g|by exists g].
  - intros c. unfold DeleteFolderCascadeTrash, subtree. cbn [andb negb]. rewrite (cte_cycle n _ _ id); [done| |].
    + apply elem_of_base. split; [done|]. by exists g.
    + apply tc_once, elem_of_children. by exists g.
Qed.

(** * Examples *)

Lemma example_forest : forest shared_drive.
Proof.
  apply (dapply_forest (DAdvance yes 2 share_root)); [done|].
  apply (dapply_forest (DCreate yes 1 (bs "sub") _)); [done|].
  apply (dapply_forest (DCreate yes 0 (bs "root") _)); [done|].
  apply forest_empty.
Qed.

Definition shared_with_bob : Db :=
  (AddFolderShareMember true 3 (bs "root") (bs "bob") (bs "t") (bs "ann") 1 false true (Some 100) shared_drive).2.

Lemma access_is_an_unexpired_share_witness :
  HasFolderShareAccess 2 true 50 (bs "bob") (bs "t") (bs "sub") shared_with_bob = Some (Ok true) /\
  HasFolderShareAccess 2 true 100 (bs "bob") (bs "t") (bs "sub") shared_with_bob = Some (Ok false) /\
  exists b, HasFolderShareAccess 2 true 50 (bs "bob") (bs "t") (bs "sub") shared_with_bob = Some (Ok b) /\
    (b = true <-> exists a m, at_or_above shared_with_bob (bs "t") (bs "sub") a /\
      drive_folder_shares shared_with_bob !! (a, bs "bob") = Some m /\ m_tenant m = bs "t" /\
      active 50 m = true /\ true = true).
Proof.
  split; [by vm_compute|]. split; [by vm_compute|].
  refine (proj1 (access_is_an_unexpired_share 2 50 (bs "bob") (bs "t") (bs "sub") shared_with_bob _ _)).
  - exact (forest_ext shared_drive shared_with_bob eq_refl example_forest).
  - apply (bool_decide_unpack _). by vm_compute.
Defined.

#[local] Definition file_in (user folder : UUID) : DriveFile :=
  mkFile user (bs "t") (Some folder) [] [] 3 None (bs "blob") [] [] None 0 (bs "xchacha") 0 true false
    false None 0 0.

#[local] Definition drive_with_files : Db :=
  with_files {[bs "f" := file_in (bs "ann") (bs "sub")]} shared_drive.

(** The file two folders down ends in the trash, at the root. *)
Lemma cascade_trash_loses_no_file_witness :
  exists d', DeleteFolderCascadeTrash 2 true yes 9 (bs "ann") (bs "t") (bs "root") drive_with_files
               = Some (Ok 1%nat, d') /\
    exists f', drive_files d' !! bs "f" = Some f' /\ Trashed f' = true /\ FolderID f' = None.
Proof.
  destruct (cascade_trash_loses_no_file 2 true yes 9 (bs "ann") (bs "t") (bs "root") drive_with_files)
    as (r & d' & E & H).
  - exact (forest_ext shared_drive drive_with_files eq_refl example_forest).
  - apply (bool_decide_unpack _). by vm_compute.
  - apply (bool_decide_unpack _). by vm_compute.
  - intros k f Hf _.
    assert (map_Forall (fun _ f => owned (bs "ann") (bs "t") f = true) (drive_folders drive_with_files)) as Hall.
    { apply (bool_decide_unpack _). by vm_compute. }
    exact (Hall k f Hf).
  - intros k f p Hf _ _.
    assert (map_Forall (fun _ f => file_owned (bs "ann") (bs "t") f = true) (drive_files drive_with_files)) as Hall.
    { apply (bool_decide_unpack _). by vm_compute. }
    exact (Hall k f Hf).
  - assert (r = Ok 1%nat) as ->.
    { apply (f_equal (fmap fst)) in E. cbn [fmap option_fmap option_map fst] in E.
      assert (fst <$> DeleteFolderCascadeTrash 2 true yes 9 (bs "ann") (bs "t") (bs "root") drive_with_files
              = Some (Ok 1%nat)) as E' by (by vm_compute).
      rewrite E' in E. by injection E as <-. }
    exists d'. split; [exact E|]. destruct H as [_ H].
    destruct (H (bs "f") (file_in (bs "ann") (bs "sub"))) as (f' & Hf & _ & Ht & Hfo & Hl); [by vm_compute|].
    exists f'. split; [exact Hf|].
    assert (rtc (parent_of (drive_folders drive_with_files)) (bs "sub") (bs "root")) as Hr.
    { apply rtc_once. exists (mkFolder (bs "ann") (bs "t") (Some (bs "root")) 0 1 1). split; by vm_compute. }
    assert (is_Some (drive_folders drive_with_files !! bs "sub")) as Hs.
    { apply (bool_decide_unpack _). by vm_compute. }
    split.
    + apply Ht. right. exists (bs "sub"). split; [reflexivity|]. split; [exact Hs|exact Hr].
    + destruct Hfo as [Hfo|Hfo]; [|exact Hfo]. exfalso. apply (Hl (bs "sub") Hfo). split; [exact Hs|exact Hr].
Defined.

(** A file of hers in another user's subfolder is not put in the trash: it
    falls to the root, and is not counted. *)
#[local] Definition drive_with_bobs_folder : Db :=
  with_files {[bs "f" := file_in (bs "ann") (bs "bobs")]}
    (dapply (DCreateVia yes 5 (bs "bobs") (bs "bob") (bs "t") (Some (bs "root")) (bs "B")) shared_drive).

Theorem file_in_others_subfolder_escapes_trash :
  (r ← DeleteFolderCascadeTrash 3 true yes 9 (bs "ann") (bs "t") (bs "root") drive_with_bobs_folder;
   Some (r.1, (fun f => (Trashed f, FolderID f)) <$> drive_files r.2 !! bs "f"))
  = Some (Ok 0%nat, Some (false, None)).
Proof. by vm_compute. Qed.

#[local] Definition tidy_history : list dop :=
  drive_history ++ [DAdvance yes 2 share_root; DMove true 3 (bs "sub") (bs "ann") (bs "t") None;
    DTrash 2 true yes 4 (bs "ann") (bs "t") (bs "root")].

Lemma folders_form_a_forest_witness :
  drive_folders (drun tidy_history empty_drive) !! bs "root" = None /\
  forest (drun tidy_history empty_drive) /\
  is_Some (ListSubfoldersByID 1 true (bs "sub") (drun tidy_history empty_drive)).
Proof.
  destruct (folders_form_a_forest tidy_history 1) as [Hf Hr].
  - by repeat split.
  - split; [by vm_compute|]. split; [exact Hf|].
    destruct (Hr ltac:(apply (bool_decide_unpack _); by vm_compute) true 5 (bs "ann") (bs "t") (bs "sub"))
      as (_ & _ & _ & _ & _ & _ & H & _). exact H.
Defined.
