(* ===== verification/DriveFiles.v ===== *)
(** internal/storage/drive_store.go, files: uploads, the trash, and shares of
    single files.  A file is uploaded in chunks and listed once it is complete;
    a share hands the recipient the file with its own wrapped keys.
    Shown: an upload that is not complete is in none of the views of complete
    files, and is in the others; its size counts the chunks that went through;
    what the recipient of a share gets, and until when; the trash is emptied of
    exactly what it returns; a re-share returns an id that no row has. *)

From Stdlib Require Import SpecFloat.
From stdpp Require Import sorting.
From S2P Require Import Prelude Float Sql Account Drive DriveTree.

#[local] Open Scope Z_scope.

(** * Rows

Files are those of the folder tables; shares have a table of their own. *)

Record DriveShare := mkDriveShare {
  sh_file : option UUID;
  sh_folder : option UUID;
  ParentShareID : option UUID;
  sh_user : UUID;
  sh_tenant : UUID;
  ShareType : string;
  LinkEncryptedFileKey : bytes;
  PasswordSalt : bytes;
  EncryptedBlob : bytes;
  sh_name : bytes;
  sh_content_type : bytes;
  sh_recipient : option UUID;
  RecipientEncryptedFileKey : bytes;
  RecipientEphemeralPubkey : bytes;
  sh_can_edit : bool;
  sh_expires : option Z;
  AccessCount : Z;
  sh_created : Z;
  EncryptedLinkToken : bytes;
  LinkTokenEphPubkey : bytes
}.

#[export] Instance drive_share_eq_dec : EqDecision DriveShare.
Proof. solve_decision. Defined.

Record Store := mkStore { drive : Db; drive_shares : gmap UUID DriveShare }.

Definition files (s : Store) : gmap UUID DriveFile := drive_files (drive s).
Definition set_files (fs : gmap UUID DriveFile) (s : Store) : Store :=
  mkStore (with_files fs (drive s)) (drive_shares s).
Definition set_shares (sh : gmap UUID DriveShare) (s : Store) : Store := mkStore (drive s) sh.

Definition empty_store : Store := mkStore empty_drive ∅.

(** How a query over many rows ends: whole, refused at once, or broken off after
    some rows; [applied]: a statement that writes has taken effect all the
    same.  The loops over rows do not ask which (rows.Err is not called). *)
Inductive answer := Whole | Refused | Broken (n : nat) (applied : bool).

Definition rows_read {A : Type} (a : answer) (l : list A) : result serr (list A) :=
  match a with Whole => Ok l | Refused => Err SqlFailed | Broken n _ => Ok (take n l) end.

(** * Files

[up]: the database executes the statement. *)

(** One row under an id, of its owner. *)
Definition own (user tenant id k : UUID) (f : DriveFile) : bool :=
  bool_decide (k = id) && file_owned user tenant f.

(** An UPDATE that must find its row, and one that need not. *)
Definition update_file (up : bool) (P : UUID -> DriveFile -> bool) (g : DriveFile -> DriveFile)
    (s : Store) : result serr unit * Store :=
  if negb up then (Err SqlFailed, s)
  else if bool_decide (affected P (files s) = 0%nat) then (Err SqlNoRows, s)
  else (Ok tt, set_files (update_where P g (files s)) s).

Definition touch_file (up : bool) (P : UUID -> DriveFile -> bool) (g : DriveFile -> DriveFile)
    (s : Store) : result serr unit * Store :=
  if up then (Ok tt, set_files (update_where P g (files s)) s) else (Err SqlFailed, s).

(** DELETE; whether the shares of a file go with it is the schema's rule. *)
Definition remove_files (cascade : bool) (P : UUID -> DriveFile -> bool) (s : Store) : Store :=
  mkStore (with_files (delete_where P (files s)) (drive s))
    (delete_where (fun _ sh => cascade &&
       match sh_file sh with
       | Some k => match files s !! k with Some f => P k f | None => false end
       | None => false
       end) (drive_shares s)).

Definition stamp (created updated : Z) (complete : bool) (f : DriveFile) : DriveFile :=
  mkFile (FileUser f) (FileTenant f) (FolderID f) (EncryptedName f) (EncryptedContentType f)
    (SizeBytes f) (OriginalSizeBytes f) (BlobRef f) (EphemeralPubkey f) (EncryptedFileKey f)
    (FCKWrappedMessageKey f) (Epoch f) (EncryptionFormat f) (ChunkCount f) complete
    (Starred f) (Trashed f) (TrashedAt f) created updated.

Definition insert_file (up : bool) (id : UUID) (f : DriveFile) (s : Store) : result serr unit * Store :=
  if negb up then (Err SqlFailed, s)
  else match files s !! id with
       | Some _ => (Err SqlUnique, s)
       | None => if parent_exists (FolderID f) (drive s)
                 then (Ok tt, set_files (<[id := f]> (files s)) s) else (Err SqlFailed, s)
       end.

Definition CreateFile (up : bool) (now : Z) (id : UUID) (f : DriveFile) : Store -> result serr unit * Store :=
  insert_file up id (stamp now now (UploadComplete f) f).

(** This INSERT leaves upload_complete to the schema. *)
Definition CreateFileViaSharedFolder (dflt up : bool) (now : Z) (id : UUID) (f : DriveFile) :
    Store -> result serr unit * Store := insert_file up id (stamp now now dflt f).

Definition one_file (a : answer) (P : UUID -> DriveFile -> bool) (s : Store) : result serr (UUID * DriveFile) :=
  l ← rows_read a (map_to_list (select_where P (files s))); of_option SqlNoRows (head l).

Definition GetFile (a : answer) (user tenant id : UUID) : Store -> result serr (UUID * DriveFile) :=
  one_file a (fun k f => own user tenant id k f && UploadComplete f).

Definition GetFileByID (a : answer) (id : UUID) : Store -> result serr (UUID * DriveFile) :=
  one_file a (fun k _ => bool_decide (k = id)).

(** [ORDER BY created_at DESC], [updated_at DESC], [trashed_at DESC] (NULL first). *)
Definition newest_file (a b : UUID * DriveFile) : Prop := FileCreatedAt b.2 <= FileCreatedAt a.2.
Definition last_updated (a b : UUID * DriveFile) : Prop := FileUpdatedAt b.2 <= FileUpdatedAt a.2.
Definition last_trashed (a b : UUID * DriveFile) : Prop :=
  match TrashedAt a.2, TrashedAt b.2 with
  | None, _ => True
  | Some _, None => False
  | Some x, Some y => y <= x
  end.

#[export] Instance newest_file_dec : RelDecision newest_file.
Proof. intros a b. unfold newest_file. apply _. Defined.
#[export] Instance last_updated_dec : RelDecision last_updated.
Proof. intros a b. unfold last_updated. apply _. Defined.
#[export] Instance last_trashed_dec : RelDecision last_trashed.
Proof. intros a b. unfold last_trashed. destruct (TrashedAt a.2), (TrashedAt b.2); apply _. Defined.

Definition list_files (a : answer) (R : UUID * DriveFile -> UUID * DriveFile -> Prop) `{!RelDecision R}
    (P : UUID -> DriveFile -> bool) (s : Store) : result serr (list (UUID * DriveFile)) :=
  rows_read a (merge_sort R (map_to_list (select_where P (files s)))).

(** Without a folder, the files that have none. *)
Definition ListFiles (a : answer) (user tenant : UUID) (folder : option UUID) :
    Store -> result serr (list (UUID * DriveFile)) :=
  list_files a newest_file (fun _ f => file_owned user tenant f && bool_decide (FolderID f = folder) &&
                                        negb (Trashed f) && UploadComplete f).

Definition ListStarred (a : answer) (user tenant : UUID) : Store -> result serr (list (UUID * DriveFile)) :=
  list_files a last_updated (fun _ f => file_owned user tenant f && Starred f && negb (Trashed f) &&
                                         UploadComplete f).

Definition ListTrashed (a : answer) (user tenant : UUID) : Store -> result serr (list (UUID * DriveFile)) :=
  list_files a last_trashed (fun _ f => file_owned user tenant f && Trashed f).

(** The columns of an UpdateFile, over the row's other columns. *)
Definition with_update (now : Z) (u f : DriveFile) : DriveFile :=
  mkFile (FileUser f) (FileTenant f) (FolderID u) (EncryptedName u) (EncryptedContentType u)
    (SizeBytes f) (OriginalSizeBytes f) (BlobRef f) (EphemeralPubkey u) (EncryptedFileKey u)
    (FCKWrappedMessageKey f) (Epoch f) (EncryptionFormat f) (ChunkCount f) (UploadComplete f)
    (Starred u) (Trashed u) (TrashedAt u) (FileCreatedAt f) now.

Definition UpdateFile (up : bool) (now : Z) (id : UUID) (u : DriveFile) (s : Store) :
    result serr unit * Store :=
  update_file (up && parent_exists (FolderID u) (drive s)) (own (FileUser u) (FileTenant u) id)
    (with_update now u) s.

Definition remove_some (cascade up : bool) (P : UUID -> DriveFile -> bool) (s : Store) :
    result serr unit * Store :=
  if negb up then (Err SqlFailed, s)
  else if bool_decide (affected P (files s) = 0%nat) then (Err SqlNoRows, s)
  else (Ok tt, remove_files cascade P s).

Definition DeleteFile (cascade up : bool) (user tenant id : UUID) : Store -> result serr unit * Store :=
  remove_some cascade up (own user tenant id).

(** ** The trash *)

Definition set_trash (now : Z) (trashed : bool) (at_ : option Z) (f : DriveFile) : DriveFile :=
  mkFile (FileUser f) (FileTenant f) (FolderID f) (EncryptedName f) (EncryptedContentType f)
    (SizeBytes f) (OriginalSizeBytes f) (BlobRef f) (EphemeralPubkey f) (EncryptedFileKey f)
    (FCKWrappedMessageKey f) (Epoch f) (EncryptionFormat f) (ChunkCount f) (UploadComplete f)
    (Starred f) trashed at_ (FileCreatedAt f) now.

Definition TrashFile (up : bool) (now : Z) (user tenant id : UUID) : Store -> result serr unit * Store :=
  update_file up (own user tenant id) (set_trash now true (Some now)).

Definition RestoreFile (up : bool) (now : Z) (user tenant id : UUID) : Store -> result serr unit * Store :=
  update_file up (own user tenant id) (set_trash now false None).

(** DELETE ... RETURNING. *)
Definition purge (cascade : bool) (a : answer) (P : UUID -> DriveFile -> bool) (s : Store) :
    result serr (list (UUID * DriveFile)) * Store :=
  (rows_read a (map_to_list (select_where P (files s))),
   match a with Whole | Broken _ true => remove_files cascade P s | _ => s end).

Definition old_trash (cutoff : Z) (_ : UUID) (f : DriveFile) : bool :=
  Trashed f && sql_lt (TrashedAt f) (Some cutoff).

Definition PurgeOldTrashed (cascade : bool) (a : answer) (cutoff : Z) :
    Store -> result serr (list (UUID * DriveFile)) * Store := purge cascade a (old_trash cutoff).

Definition in_trash (user tenant : UUID) (_ : UUID) (f : DriveFile) : bool :=
  file_owned user tenant f && Trashed f.

Definition EmptyTrash (cascade : bool) (a : answer) (user tenant : UUID) :
    Store -> result serr (list (UUID * DriveFile)) * Store := purge cascade a (in_trash user tenant).

(** ** Uploads *)

Definition set_size (now size : Z) (f : DriveFile) : DriveFile :=
  mkFile (FileUser f) (FileTenant f) (FolderID f) (EncryptedName f) (EncryptedContentType f)
    size (OriginalSizeBytes f) (BlobRef f) (EphemeralPubkey f) (EncryptedFileKey f)
    (FCKWrappedMessageKey f) (Epoch f) (EncryptionFormat f) (ChunkCount f) (UploadComplete f)
    (Starred f) (Trashed f) (TrashedAt f) (FileCreatedAt f) now.

Definition AddFileSize (up : bool) (now : Z) (id : UUID) (n : Z) (s : Store) : result serr unit * Store :=
  touch_file (up && match files s !! id with Some f => fits (SizeBytes f + n) | None => true end)
    (fun k _ => bool_decide (k = id)) (fun f => set_size now (SizeBytes f + n) f) s.

Definition MarkUploadComplete (up : bool) (now : Z) (id : UUID) : Store -> result serr unit * Store :=
  touch_file up (fun k _ => bool_decide (k = id)) (fun f => stamp (FileCreatedAt f) now true f).

(** [int64(d.Seconds())]: the whole seconds and the rest, added as floats and
    cut off. *)
Definition nanos : Z := 1000000000.
Definition trunc (x : float64) : Z :=
  match x with
  | S754_finite sign m e =>
      let v := if 0 <=? e then Z.pos m * 2 ^ e else Z.pos m / 2 ^ (- e) in
      if sign then - v else v
  | _ => 0
  end.
Definition seconds (d : Z) : Z :=
  trunc (f64_of_Z (Z.quot d nanos) + f64_of_Z (Z.rem d nanos) / f64_of_Z nanos)%f64.

(** Times are in microseconds, the resolution of a timestamp. *)
Definition stale (now secs : Z) (_ : UUID) (f : DriveFile) : bool :=
  negb (UploadComplete f) && (FileCreatedAt f <? now - secs * 1000000).

Definition ReapStaleUploads (cascade up : bool) (now older_than : Z) (s : Store) :
    result serr nat * Store :=
  let secs := seconds older_than in
  let secs := if secs <=? 0 then 1 else secs in
  if up then (Ok (affected (stale now secs) (files s)), remove_files cascade (stale now secs) s)
  else (Err SqlFailed, s).

Definition total_size (fs : gmap UUID DriveFile) : Z :=
  foldr (fun kf n => SizeBytes kf.2 + n) 0 (map_to_list fs).

(** Files in the trash and unfinished ones count too. *)
Definition GetStorageUsed (up : bool) (user tenant : UUID) (s : Store) : result serr (Z * nat) :=
  let own_files := select_where (fun _ f => file_owned user tenant f) (files s) in
  if up && fits (total_size own_files) then Ok (total_size own_files, size own_files) else Err SqlFailed.

Definition missing_wrap (user tenant id k : UUID) (f : DriveFile) : bool :=
  own user tenant id k f && bool_decide (FCKWrappedMessageKey f = None).

Definition set_missing_wrap (now : Z) (key : bytes) (f : DriveFile) : DriveFile :=
  set_wrap key (Epoch f) now f.

Definition BackfillFCKFileWraps (ok : string -> bool) (now : Z) (user tenant : UUID)
    (ws : list FCKFileWrapInput) (s : Store) : result serr unit * Store :=
  match ws with
  | [] => (Ok tt, s)
  | _ =>
      if ok "begin"%string && ok "wraps"%string && ok "commit"%string
      then (Ok tt, foldl (fun s w => set_files (update_where (missing_wrap user tenant (fw_file w))
                                       (set_missing_wrap now (fw_key w)) (files s)) s) s ws)
      else (Err SqlFailed, s)
  end.

(** * Shares of a file *)

Definition same_direct (f r : UUID) (_ : UUID) (sh : DriveShare) : bool :=
  String.eqb (ShareType sh) "user" && bool_decide (ParentShareID sh = None) &&
  bool_decide (sh_file sh = Some f) && bool_decide (sh_recipient sh = Some r).

(** A share given to a user for one file. *)
Definition direct (sh : DriveShare) : option (UUID * UUID) :=
  if String.eqb (ShareType sh) "user" && bool_decide (ParentShareID sh = None)
  then f ← sh_file sh; r ← sh_recipient sh; Some (f, r) else None.

(** The columns DO UPDATE takes from the new row. *)
Definition reshared (new old : DriveShare) : DriveShare :=
  mkDriveShare (sh_file old) (sh_folder old) (ParentShareID old) (sh_user old) (sh_tenant old)
    (ShareType old) (LinkEncryptedFileKey old) (PasswordSalt old) (EncryptedBlob old) (sh_name old)
    (sh_content_type old) (sh_recipient old) (RecipientEncryptedFileKey new)
    (RecipientEphemeralPubkey new) (sh_can_edit new) (sh_expires new) (AccessCount old)
    (sh_created old) (EncryptedLinkToken old) (LinkTokenEphPubkey old).

Definition created (now : Z) (sh : DriveShare) : DriveShare :=
  mkDriveShare (sh_file sh) (sh_folder sh) (ParentShareID sh) (sh_user sh) (sh_tenant sh)
    (ShareType sh) (LinkEncryptedFileKey sh) (PasswordSalt sh) (EncryptedBlob sh) (sh_name sh)
    (sh_content_type sh) (sh_recipient sh) (RecipientEncryptedFileKey sh)
    (RecipientEphemeralPubkey sh) (sh_can_edit sh) (sh_expires sh) (AccessCount sh) now
    (EncryptedLinkToken sh) (LinkTokenEphPubkey sh).

Definition insert_share (id : UUID) (sh : DriveShare) (s : Store) : result serr unit * Store :=
  match drive_shares s !! id with
  | Some _ => (Err SqlUnique, s)
  | None => (Ok tt, set_shares (<[id := sh]> (drive_shares s)) s)
  end.

(** [id]: the id the share is given, and keeps for the caller. *)
Definition CreateShare (up : bool) (now : Z) (id : UUID) (sh : DriveShare) (s : Store) :
    result serr unit * Store :=
  if negb up then (Err SqlFailed, s)
  else match direct sh with
       | Some (f, r) =>
           if bool_decide (affected (same_direct f r) (drive_shares s) = 0%nat)
           then insert_share id (created now sh) s
           else (Ok tt, set_shares (update_where (same_direct f r) (reshared sh) (drive_shares s)) s)
       | None => insert_share id (created now sh) s
       end.

Definition GetShare (a : answer) (id : UUID) (s : Store) : result serr (UUID * DriveShare) :=
  l ← rows_read a (map_to_list (select_where (fun k _ => bool_decide (k = id)) (drive_shares s)));
  of_option SqlNoRows (head l).

Definition share_owned (user tenant : UUID) (sh : DriveShare) : bool :=
  bool_decide (sh_user sh = user) && bool_decide (sh_tenant sh = tenant).

Definition newest_share (a b : UUID * DriveShare) : Prop := sh_created b.2 <= sh_created a.2.
#[export] Instance newest_share_dec : RelDecision newest_share.
Proof. intros a b. unfold newest_share. apply _. Defined.

Definition list_shares (a : answer) (P : UUID -> DriveShare -> bool) (s : Store) :
    result serr (list (UUID * DriveShare)) :=
  rows_read a (merge_sort newest_share (map_to_list (select_where P (drive_shares s)))).

Definition ListSharesByFile (a : answer) (user tenant file : UUID) :=
  list_shares a (fun _ sh => bool_decide (sh_file sh = Some file) && share_owned user tenant sh &&
                             bool_decide (ParentShareID sh = None)).

Definition ListSharesByFolder (a : answer) (user tenant folder : UUID) :=
  list_shares a (fun _ sh => bool_decide (sh_folder sh = Some folder) && share_owned user tenant sh &&
                             String.eqb (ShareType sh) "link").

Definition DeleteShare (up : bool) (user tenant id : UUID) (s : Store) : result serr unit * Store :=
  if negb up then (Err SqlFailed, s)
  else match drive_shares s !! id with
       | Some sh => if share_owned user tenant sh
                    then (Ok tt, set_shares (delete id (drive_shares s)) s) else (Err SqlNoRows, s)
       | None => (Err SqlNoRows, s)
       end.

Definition accessed (sh : DriveShare) : DriveShare :=
  mkDriveShare (sh_file sh) (sh_folder sh) (ParentShareID sh) (sh_user sh) (sh_tenant sh)
    (ShareType sh) (LinkEncryptedFileKey sh) (PasswordSalt sh) (EncryptedBlob sh) (sh_name sh)
    (sh_content_type sh) (sh_recipient sh) (RecipientEncryptedFileKey sh)
    (RecipientEphemeralPubkey sh) (sh_can_edit sh) (sh_expires sh) (AccessCount sh + 1)
    (sh_created sh) (EncryptedLinkToken sh) (LinkTokenEphPubkey sh).

Definition IncrementShareAccess (up : bool) (id : UUID) (s : Store) : result serr unit * Store :=
  if up then (Ok tt, set_shares (update_where (fun k _ => bool_decide (k = id)) accessed (drive_shares s)) s)
  else (Err SqlFailed, s).

(** ** What the recipient gets *)

Record SharedDriveFile := mkShared { SharedFileID : UUID; SharedFile : DriveFile; OwnerAddress : bytes }.

(** COALESCE(u.address, '') over a LEFT JOIN. *)
Definition owner_address (us : gmap UUID User) (owner : UUID) : bytes :=
  match us !! owner with Some u => Address u | None => [] end.

(** The file with the share's keys. *)
Definition rewrapped (sh : DriveShare) (f : DriveFile) : DriveFile :=
  mkFile (FileUser f) (FileTenant f) (FolderID f) (EncryptedName f) (EncryptedContentType f)
    (SizeBytes f) (OriginalSizeBytes f) (BlobRef f) (RecipientEphemeralPubkey sh)
    (RecipientEncryptedFileKey sh) (FCKWrappedMessageKey f) (Epoch f) (EncryptionFormat f)
    (ChunkCount f) (UploadComplete f) (Starred f) (Trashed f) (TrashedAt f) (FileCreatedAt f)
    (FileUpdatedAt f).

Definition live (now : Z) (sh : DriveShare) : bool :=
  match sh_expires sh with None => true | Some t => now <? t end.

(** The rows of the join, newest share first. *)
Definition shared_with (now : Z) (recipient tenant : UUID) (_ : UUID) (sh : DriveShare) : bool :=
  bool_decide (sh_recipient sh = Some recipient) && bool_decide (sh_tenant sh = tenant) &&
  String.eqb (ShareType sh) "user" && live now sh.

Definition shared_row (us : gmap UUID User) (s : Store) (sh : UUID * DriveShare) : option SharedDriveFile :=
  id ← sh_file sh.2;
  f ← files s !! id;
  if UploadComplete f then Some (mkShared id (rewrapped sh.2 f) (owner_address us (FileUser f))) else None.

Definition shared_rows (us : gmap UUID User) (P : UUID -> DriveShare -> bool) (s : Store) :
    list SharedDriveFile :=
  omap (shared_row us s) (merge_sort newest_share (map_to_list (select_where P (drive_shares s)))).

Definition ListSharedWithUser (a : answer) (us : gmap UUID User) (now : Z) (recipient tenant : UUID)
    (s : Store) : result serr (list SharedDriveFile) :=
  rows_read a (shared_rows us (shared_with now recipient tenant) s).

(** LIMIT 1, in no order: any of them may be the one. *)
Definition GetSharedFile (up : bool) (us : gmap UUID User) (now : Z) (recipient tenant file : UUID)
    (s : Store) : result serr SharedDriveFile :=
  if negb up then Err SqlFailed
  else of_option SqlNoRows (head (shared_rows us
         (fun k sh => shared_with now recipient tenant k sh && bool_decide (sh_file sh = Some file)) s)).

(** * Shared folders *)

Record SharedFolderEntry := mkEntry {
  EntryFolderID : UUID;
  EntryFolder : DriveFolder;
  EntryOwnerAddress : bytes;
  EntryCanEdit : bool;
  EntryJoinedEpoch : Z;
  EntryPastEpochAccess : bool;
  EntryName : option bytes;
  EntryFCK : option bytes;
  EntryFCKEphPubkey : option bytes
}.

Definition older_folder (a b : UUID * DriveFolder) : Prop := FCreatedAt a.2 <= FCreatedAt b.2.
#[export] Instance older_folder_dec : RelDecision older_folder.
Proof. intros a b. unfold older_folder. apply _. Defined.

(** A folder's name at its own current epoch. *)
Definition current_name (d : Db) (id : UUID) (f : DriveFolder) : option bytes :=
  drive_folder_epoch_names d !! (id, CurrentEpoch f).

Definition contents_file (tenant folder : UUID) (_ : UUID) (f : DriveFile) : bool :=
  bool_decide (FolderID f = Some folder) && bool_decide (FileTenant f = tenant) &&
  negb (Trashed f) && UploadComplete f.

Definition contents_folder (tenant folder : UUID) (_ : UUID) (f : DriveFolder) : bool :=
  bool_decide (ParentID f = Some folder) && bool_decide (FTenant f = tenant).

Definition ListSharedFolderContents (a1 a2 : answer) (us : gmap UUID User) (tenant folder : UUID)
    (s : Store) : result serr (list SharedDriveFile * list SharedFolderEntry) :=
  fs ← rows_read a1 (map (fun kf => mkShared kf.1 kf.2 (owner_address us (FileUser kf.2)))
         (merge_sort newest_file (map_to_list (select_where (contents_file tenant folder) (files s)))));
  sub ← rows_read a2 (map (fun kf => mkEntry kf.1 kf.2 (owner_address us (FUser kf.2)) false 0 false
                                       (current_name (drive s) kf.1 kf.2) None None)
         (merge_sort older_folder
            (map_to_list (select_where (contents_folder tenant folder) (drive_folders (drive s))))));
  Ok (fs, sub).

Definition newest_member (a b : (UUID * UUID) * DriveFolderShareMember) : Prop :=
  Drive.CreatedAt b.2 <= Drive.CreatedAt a.2.
#[export] Instance newest_member_dec : RelDecision newest_member.
Proof. intros a b. unfold newest_member. apply _. Defined.

Definition member_entry (us : gmap UUID User) (d : Db) (recipient : UUID)
    (km : (UUID * UUID) * DriveFolderShareMember) : option SharedFolderEntry :=
  let id := km.1.1 in
  f ← drive_folders d !! id;
  let key := drive_folder_epoch_keys d !! (id, CurrentEpoch f, recipient) in
  Some (mkEntry id f (owner_address us (FUser f)) (CanEdit km.2) (JoinedEpoch km.2)
          (PastEpochAccess km.2) (current_name d id f)
          (WrappedFCK <$> key) (WrappedFCKEphPubkey <$> key)).

Definition member_of (now : Z) (recipient tenant : UUID) (k : UUID * UUID) (m : DriveFolderShareMember) :
    bool := bool_decide (k.2 = recipient) && bool_decide (m_tenant m = tenant) && active now m.

Definition ListFolderSharesForRecipient (a : answer) (us : gmap UUID User) (now : Z)
    (recipient tenant : UUID) (s : Store) : result serr (list SharedFolderEntry) :=
  rows_read a (omap (member_entry us (drive s) recipient)
    (merge_sort newest_member
       (map_to_list (select_where (member_of now recipient tenant) (drive_folder_shares (drive s)))))).

Record FolderShareParty := mkParty {
  PartyUser : UUID; PartyAddress : bytes; PartyKey : bytes; PartyKeyKEM : bytes
}.

Definition party (us : gmap UUID User) (u : UUID) : option FolderShareParty :=
  x ← us !! u; Some (mkParty u (Address x) (PublicKeyEncryption (keys x)) (PublicKeyKEM (keys x))).

Definition GetFolderShareParties (up : bool) (a : answer) (us : gmap UUID User) (now : Z)
    (folder tenant : UUID) (s : Store) : result serr (FolderShareParty * list FolderShareParty) :=
  if negb up then Err SqlFailed
  else
    owner ← of_option SqlNoRows (f ← drive_folders (drive s) !! folder;
              if bool_decide (FTenant f = tenant) then party us (FUser f) else None);
    rs ← rows_read a (omap (fun km => party us km.1.2)
      (map_to_list (select_where (fun k m => bool_decide (k.1 = folder) && bool_decide (m_tenant m = tenant) &&
                                             active now m) (drive_folder_shares (drive s)))));
    Ok (owner, rs).

(** DISTINCT ids: sets. *)
Definition shared_files (user tenant : UUID) (s : Store) : gset UUID :=
  list_to_set (omap (fun kr => sh_file kr.2)
    (map_to_list (select_where (fun _ sh => share_owned user tenant sh) (drive_shares s)))).

Definition shared_folders (user tenant : UUID) (s : Store) : gset UUID :=
  list_to_set (omap (fun kr => sh_folder kr.2)
    (map_to_list (select_where (fun _ sh => share_owned user tenant sh) (drive_shares s)))) ∪
  list_to_set (map (fun kr => kr.1.1)
    (map_to_list (select_where (fun _ m => bool_decide (OwnerUserID m = user) && bool_decide (m_tenant m = tenant))
                    (drive_folder_shares (drive s))))).

Definition ListSharedIDs (a1 a2 : answer) (user tenant : UUID) (s : Store) :
    result serr (list UUID * list UUID) :=
  fs ← rows_read a1 (elements (shared_files user tenant s));
  ds ← rows_read a2 (elements (shared_folders user tenant s));
  Ok (fs, ds).

(** * Histories *)

Inductive fop :=
| FCreate (up : bool) (now : Z) (id : UUID) (f : DriveFile)
| FCreateVia (dflt up : bool) (now : Z) (id : UUID) (f : DriveFile)
| FUpdate (up : bool) (now : Z) (id : UUID) (f : DriveFile)
| FDelete (cascade up : bool) (user tenant id : UUID)
| FTrash (up : bool) (now : Z) (user tenant id : UUID)
| FRestore (up : bool) (now : Z) (user tenant id : UUID)
| FPurge (cascade : bool) (a : answer) (cutoff : Z)
| FEmpty (cascade : bool) (a : answer) (user tenant : UUID)
| FAddSize (up : bool) (now : Z) (id : UUID) (n : Z)
| FComplete (up : bool) (now : Z) (id : UUID)
| FReap (cascade up : bool) (now older : Z)
| FWraps (ok : string -> bool) (now : Z) (user tenant : UUID) (ws : list FCKFileWrapInput)
| FShare (up : bool) (now : Z) (id : UUID) (sh : DriveShare)
| FUnshare (up : bool) (user tenant id : UUID)
| FAccess (up : bool) (id : UUID)
| FFolders (o : dop).

Definition fapply (o : fop) (s : Store) : Store :=
  match o with
  | FCreate up now id f => (CreateFile up now id f s).2
  | FCreateVia dflt up now id f => (CreateFileViaSharedFolder dflt up now id f s).2
  | FUpdate up now id f => (UpdateFile up now id f s).2
  | FDelete c up u t id => (DeleteFile c up u t id s).2
  | FTrash up now u t id => (TrashFile up now u t id s).2
  | FRestore up now u t id => (RestoreFile up now u t id s).2
  | FPurge c a cutoff => (PurgeOldTrashed c a cutoff s).2
  | FEmpty c a u t => (EmptyTrash c a u t s).2
  | FAddSize up now id n => (AddFileSize up now id n s).2
  | FComplete up now id => (MarkUploadComplete up now id s).2
  | FReap c up now older => (ReapStaleUploads c up now older s).2
  | FWraps ok now u t ws => (BackfillFCKFileWraps ok now u t ws s).2
  | FShare up now id sh => (CreateShare up now id sh s).2
  | FUnshare up u t id => (DeleteShare up u t id s).2
  | FAccess up id => (IncrementShareAccess up id s).2
  | FFolders o => mkStore (dapply o (drive s)) (drive_shares s)
  end.

Definition frun (os : list fop) (s : Store) : Store := foldl (fun s o => fapply o s) s os.

(** * What an operation does to one file *)

Definition creates (id : UUID) (o : fop) : bool :=
  match o with
  | FCreate _ _ k _ | FCreateVia _ _ _ k _ => bool_decide (k = id)
  | _ => false
  end.

Definition completes (id : UUID) (o : fop) : bool :=
  match o with FComplete _ _ k => bool_decide (k = id) | _ => false end.

(** The bytes a call has added. *)
Definition added (id : UUID) (o : fop) (s : Store) : Z :=
  match o with
  | FAddSize up now k n =>
      match (AddFileSize up now k n s).1 with
      | Ok _ => if bool_decide (k = id) then n else 0
      | Err _ => 0
      end
  | _ => 0
  end.

Fixpoint chunks (id : UUID) (os : list fop) (s : Store) : Z :=
  match os with [] => 0 | o :: os => added id o s + chunks id os (fapply o s) end.

(** The columns no call but the upload's writes. *)
Definition same_upload (f g : DriveFile) : Prop :=
  FileUser g = FileUser f /\ FileTenant g = FileTenant f /\ BlobRef g = BlobRef f /\
  ChunkCount g = ChunkCount f /\ EncryptionFormat g = EncryptionFormat f /\
  OriginalSizeBytes g = OriginalSizeBytes f /\ FileCreatedAt g = FileCreatedAt f.

Definition kept (id : UUID) (o : fop) (s : Store) (f g : DriveFile) : Prop :=
  same_upload f g /\ SizeBytes g = SizeBytes f + added id o s /\
  (completes id o = false -> UploadComplete g = UploadComplete f).

(** A change of other columns. *)
Definition quiet (g : DriveFile -> DriveFile) : Prop :=
  forall f, same_upload f (g f) /\ SizeBytes (g f) = SizeBytes f /\ UploadComplete (g f) = UploadComplete f.

Lemma quiet_if (g : DriveFile -> DriveFile) (b : bool) : quiet g -> quiet (fun f => if b then g f else f).
Proof. intros H f. destruct b; [apply H|done]. Qed.

Lemma files_set fs s : files (set_files fs s) = fs.
Proof. done. Qed.

Definition untouched (id : UUID) (m m' : gmap UUID DriveFile) : Prop :=
  match m' !! id with
  | None => True
  | Some g => exists f, m !! id = Some f /\ same_upload f g /\ SizeBytes g = SizeBytes f /\
                UploadComplete g = UploadComplete f
  end.

Lemma untouched_refl id m : untouched id m m.
Proof. unfold untouched. destruct (m !! id) as [f|]; [|done]. by exists f. Qed.

Lemma untouched_trans id m1 m2 m3 : untouched id m1 m2 -> untouched id m2 m3 -> untouched id m1 m3.
Proof.
  unfold untouched. intros H1 H2. destruct (m3 !! id); [|done].
  destruct H2 as (g & Hg & H2 & Hs & Hc). rewrite Hg in H1. destruct H1 as (f & Hf & H1 & Hs1 & Hc1).
  exists f. unfold same_upload in *. split_and!; naive_solver congruence.
Qed.

Lemma untouched_update id P g m : quiet g -> untouched id m (update_where P g m).
Proof.
  intros Hg. unfold untouched. rewrite lookup_update_where. destruct (m !! id) as [f|]; [|done].
  exists f. split; [done|]. apply (quiet_if g (P id f) Hg f).
Qed.

Lemma untouched_delete id P m : untouched id m (delete_where P m).
Proof.
  unfold untouched. destruct (delete_where P m !! id) as [f|] eqn:E; [|done].
  apply lookup_delete_where in E as [E _]. by exists f.
Qed.

Lemma untouched_insert id k f m : k <> id -> untouched id m (<[k := f]> m).
Proof. intros Hk. unfold untouched. rewrite lookup_insert_ne by done. apply untouched_refl. Qed.

#[local] Ltac quiet := intros ?; by repeat split.

Lemma quiet_wrap key e now : quiet (set_wrap key e now).
Proof. quiet. Qed.

(** Operations on folders leave the uploads alone. *)
Lemma wrap_files_untouched id u t e now fws d :
  untouched id (drive_files d) (drive_files (wrap_files u t e now fws d)).
Proof.
  unfold wrap_files. cbn [drive_files with_files]. generalize (drive_files d). clear d.
  induction fws as [|fw fws IH]; intros m; cbn; [apply untouched_refl|].
  eapply untouched_trans; [|apply IH]. apply untouched_update, quiet_wrap.
Qed.

Lemma insert_folder_files ok id f d d' : insert_folder ok id f d = Ok d' -> drive_files d' = drive_files d.
Proof. intros H. by apply insert_folder_ok in H as (_ & _ & ->). Qed.
Lemma insert_key_files ok k v d d' : insert_key ok k v d = Ok d' -> drive_files d' = drive_files d.
Proof. intros H. by apply insert_key_ok in H as [_ ->]. Qed.
Lemma insert_name_files ok f e n d d' : insert_name ok f e n d = Ok d' -> drive_files d' = drive_files d.
Proof. intros H. by apply insert_name_ok in H as [_ ->]. Qed.
Lemma insert_wraps_files ok f e t ws d d' : insert_wraps ok f e t ws d = Ok d' -> drive_files d' = drive_files d.
Proof.
  revert d. induction ws as [|w ws IH]; intros d; cbn; [by intros [= <-]|].
  destruct (insert_key _ _ _ _) as [d1|] eqn:E; [|done]. cbn. intros H%IH. rewrite H.
  by eapply insert_key_files.
Qed.
Lemma upsert_names_files e ns d : drive_files (upsert_names e ns d) = drive_files d.
Proof. done. Qed.

Lemma advance_files id ok now i d e d' :
  advance_body ok now i d = Ok (e, d') -> untouched id (drive_files d) (drive_files d').
Proof.
  unfold advance_body. destruct (ok "advance"%string); [|done]. cbn [negb].
  destruct (drive_folders d !! _) as [f|]; [|done]. destruct (owned _ _ f); [|done]. cbn [negb].
  destruct (insert_wraps _ _ _ _ _ _) as [d1|] eqn:E1; [|done]. cbn [mbind result_bind].
  apply insert_wraps_files in E1. destruct (insert_name _ _ _ _ _) as [d2|] eqn:E2; [|done].
  cbn [mbind result_bind]. apply insert_name_files in E2. destruct (ok "subfolder names"%string); [|done].
  destruct (ok "file wraps"%string); [|done]. cbn [negb]. intros [= _ <-].
  change (drive_files d) with (drive_files (with_folders (<[sf_folder i:=bump_epoch now f]> (drive_folders d)) d)).
  rewrite <-E1, <-E2, <-(upsert_names_files (CurrentEpoch f + 1) (SubFolderNames i) d2).
  apply wrap_files_untouched.
Qed.

Lemma backfill_files up f r t ws from n d :
  drive_files (backfill_loop up f r t ws from n d).2 = drive_files d.
Proof.
  revert from d. induction n as [|n IH]; intros from d; cbn [backfill_loop]; [done|].
  destruct ws as [|w ws]; [apply IH|]. destruct (up from); [|done]. rewrite IH.
  unfold insert_key_once. by destruct (drive_folder_epoch_keys d !! _).
Qed.

Lemma trash_untouched id n c ok now u t k d :
  untouched id (drive_files d) (drive_files (default d (snd <$> DeleteFolderCascadeTrash n c ok now u t k d))).
Proof.
  unfold DeleteFolderCascadeTrash, delete_folder_row. destruct (_ && _); [|apply untouched_refl]. cbn [negb].
  destruct (subtree n _ k d) as [ids|]; [|apply untouched_refl].
  cbn [mbind option_bind fmap option_fmap option_map default snd].
  destruct (ok "delete"%string); [|apply untouched_refl]. cbn [negb].
  destruct (drive_folders _ !! k) as [f|]; [|apply untouched_refl].
  destruct (owned u t f); [|apply untouched_refl]. destruct (ok "commit"%string); [|apply untouched_refl].
  cbn. eapply untouched_trans; apply untouched_update; quiet.
Qed.

Lemma dapply_untouched id o d : untouched id (drive_files d) (drive_files (dapply o d)).
Proof.
  destruct o as [ok now k i|ok now k w t p n|up now k w t p|up k n|c up w t k|n c ok now w t k|ok now i
    |up now g r t w j p y z|up g r t ws a b|ok g r t]; cbn [dapply].
  - unfold CreateFolder. destruct (atomically_cases ok (create_body ok now k i) d) as [->|(a & E & _)];
      [apply untouched_refl|]. revert E. unfold create_body.
    destruct (insert_folder _ _ _ _) as [d1|] eqn:E1; [|done]. cbn [mbind result_bind].
    destruct (insert_key _ _ _ _) as [d2|] eqn:E2; [|done]. cbn [mbind result_bind].
    destruct (insert_name _ _ _ _ _) as [d3|] eqn:E3; [|done]. cbn [mbind result_bind]. intros [= _ <-].
    rewrite (insert_name_files _ _ _ _ _ _ E3), (insert_key_files _ _ _ _ _ E2), (insert_folder_files _ _ _ _ _ E1).
    apply untouched_refl.
  - unfold CreateFolderViaSharedFolder.
    destruct (atomically_cases ok (create_via_body ok now k w t p n) d) as [->|(a & E & _)];
      [apply untouched_refl|]. revert E. unfold create_via_body.
    destruct (insert_folder _ _ _ _) as [d1|] eqn:E1; [|done]. cbn [mbind result_bind].
    destruct (insert_name _ _ _ _ _) as [d3|] eqn:E3; [|done]. cbn [mbind result_bind]. intros [= _ <-].
    rewrite (insert_name_files _ _ _ _ _ _ E3), (insert_folder_files _ _ _ _ _ E1). apply untouched_refl.
  - unfold UpdateFolder. destruct up; [|apply untouched_refl]. cbn [negb].
    destruct (drive_folders d !! k) as [x|]; [|apply untouched_refl].
    destruct (owned w t x), (parent_exists p d); apply untouched_refl.
  - unfold UpdateFolderName. destruct up; [|apply untouched_refl]. cbn [negb].
    destruct (drive_folders d !! k) as [x|]; [|apply untouched_refl].
    destruct (drive_folder_epoch_names d !! _); apply untouched_refl.
  - destruct (delete_folder_cases c up w t k d) as [->| ->]; [apply untouched_refl|].
    cbn. apply untouched_update. quiet.
  - apply trash_untouched.
  - unfold AdvanceFolderEpoch.
    destruct (atomically_cases ok (advance_body ok now i) d) as [->|(a & E & _)]; [apply untouched_refl|].
    by eapply advance_files.
  - destruct up; apply untouched_refl.
  - unfold BackfillEpochKeysForMember. rewrite backfill_files. apply untouched_refl.
  - unfold RemoveFolderShareMember.
    destruct (atomically_cases ok (remove_body ok g r t) d) as [->|(a & E & _)]; [apply untouched_refl|].
    revert E. unfold remove_body. destruct (ok "delete member"%string), (ok "delete keys"%string); try done.
    cbn [negb]. intros [= _ <-]. apply untouched_refl.
Qed.

Lemma untouched_kept id o s m' :
  added id o s = 0 -> untouched id (files s) m' ->
  match m' !! id with
  | None => True
  | Some g => exists f, files s !! id = Some f /\ kept id o s f g
  end.
Proof.
  unfold untouched, kept. intros ->. destruct (m' !! id); [|done].
  intros (f & Hf & Hs & Hz & Hc). exists f. split_and!; [done..|lia|done].
Qed.

Lemma touched_one (P : UUID -> DriveFile -> bool) g m id k f :
  (forall j h, P j h = bool_decide (j = k)) -> m !! id = Some f ->
  update_where P g m !! id = Some (if bool_decide (id = k) then g f else f).
Proof. intros HP Hf. rewrite lookup_update_where, Hf. cbn. by rewrite HP. Qed.

Lemma fapply_kept id o s :
  creates id o = false ->
  match files (fapply o s) !! id with
  | None => True
  | Some g => exists f, files s !! id = Some f /\ kept id o s f g
  end.
Proof.
  intros Hc. assert (Hi : forall up k f, bool_decide (k = id) = false ->
    untouched id (files s) (files (insert_file up k f s).2)).
  { intros up k f Hk%bool_decide_eq_false. unfold insert_file. destruct up; [|apply untouched_refl].
    cbn [negb]. destruct (files s !! k); [apply untouched_refl|].
    destruct (parent_exists _ _); [by apply untouched_insert|apply untouched_refl]. }
  assert (Hu : forall up P g, quiet g -> untouched id (files s) (files (update_file up P g s).2)).
  { intros up P g Hg. unfold update_file. destruct up; [|apply untouched_refl]. cbn [negb].
    case_bool_decide; [apply untouched_refl|by apply untouched_update]. }
  destruct o as [up now k f|dflt up now k f|up now k f|c up u t k|up now u t k|up now u t k|c a cut|c a u t
    |up now k n|up now k|c up now older|ok now u t ws|up now k sh|up u t k|up k|o]; cbn [fapply creates] in *;
    lazymatch goal with
    | |- context [kept _ (FAddSize _ _ _ _)] => idtac
    | |- context [kept _ (FComplete _ _ _)] => idtac
    | |- _ => apply untouched_kept; [done|]
    end.
  - by apply Hi.
  - by apply Hi.
  - apply Hu. quiet.
  - unfold DeleteFile, remove_some. destruct up; [|apply untouched_refl]. cbn [negb].
    case_bool_decide; [apply untouched_refl|apply untouched_delete].
  - apply Hu. quiet.
  - apply Hu. quiet.
  - unfold PurgeOldTrashed, purge. destruct a as [| |n []]; first [apply untouched_delete|apply untouched_refl].
  - unfold EmptyTrash, purge. destruct a as [| |n []]; first [apply untouched_delete|apply untouched_refl].
  - unfold kept. cbn [added]. unfold AddFileSize, touch_file.
    destruct (up && _) eqn:E; cbn [fst snd].
    + rewrite files_set. destruct (files s !! id) as [f|] eqn:Ef; [|by rewrite lookup_update_where, Ef].
      rewrite (touched_one _ _ _ _ k f) by done. exists f. rewrite (bool_decide_ext (id = k) (k = id)) by done.
      case_bool_decide; split_and!; try done. lia.
    + destruct (files s !! id) as [f|]; [|done]. exists f. split_and!; try done. lia.
  - unfold kept. cbn [added completes]. unfold MarkUploadComplete, touch_file. destruct up; cbn [snd].
    + rewrite files_set. destruct (files s !! id) as [f|] eqn:Ef; [|by rewrite lookup_update_where, Ef].
      rewrite (touched_one _ _ _ _ k f) by done. exists f. rewrite (bool_decide_ext (id = k) (k = id)) by done.
      case_bool_decide; split_and!; try done; cbn; lia.
    + destruct (files s !! id) as [f|]; [|done]. exists f. split_and!; try done. lia.
  - unfold ReapStaleUploads. destruct up; [apply untouched_delete|apply untouched_refl].
  - unfold BackfillFCKFileWraps. destruct ws as [|w ws]; [apply untouched_refl|].
    destruct (_ && _); [|apply untouched_refl]. cbn [snd]. generalize (w :: ws). clear -id. intros ws.
    revert s. induction ws as [|w ws IH]; intros s; cbn [foldl]; [apply untouched_refl|].
    eapply untouched_trans; [|apply IH]. apply untouched_update. quiet.
  - unfold CreateShare. destruct up; [|apply untouched_refl]. cbn [negb]. unfold insert_share.
    destruct (direct sh) as [[]|]; [case_bool_decide|]; try destruct (drive_shares s !! k); apply untouched_refl.
  - unfold DeleteShare. destruct up; [|apply untouched_refl]. cbn [negb].
    destruct (drive_shares s !! k) as [sh|]; [destruct (share_owned u t sh)|]; apply untouched_refl.
  - destruct up; apply untouched_refl.
  - apply dapply_untouched.
Qed.

(** * Uploads *)

(** File [id] is handed out by one of the views of complete files: the owner's
    download, folders and starred files, the contents of a shared folder, and
    the download and the list of files shared with a user. *)
Inductive seen (id : UUID) (s : Store) : Prop :=
| seen_get a user tenant f : GetFile a user tenant id s = Ok (id, f) -> seen id s
| seen_list a user tenant folder l :
    ListFiles a user tenant folder s = Ok l -> id ∈ l.*1 -> seen id s
| seen_starred a user tenant l : ListStarred a user tenant s = Ok l -> id ∈ l.*1 -> seen id s
| seen_contents a1 a2 us tenant folder l sub :
    ListSharedFolderContents a1 a2 us tenant folder s = Ok (l, sub) -> id ∈ map SharedFileID l -> seen id s
| seen_shared us now recipient tenant f :
    GetSharedFile true us now recipient tenant id s = Ok f -> seen id s
| seen_shares a us now recipient tenant l :
    ListSharedWithUser a us now recipient tenant s = Ok l -> id ∈ map SharedFileID l -> seen id s.

Lemma rows_read_sub {A : Type} a (l l' : list A) x : rows_read a l = Ok l' -> x ∈ l' -> x ∈ l.
Proof.
  destruct a as [| |n b]; cbn; [by intros [= <-]|done|]. intros [= <-] Hx.
  rewrite <-(take_drop n l), elem_of_app. by left.
Qed.

Lemma rows_read_map {A B : Type} a (g : A -> B) l l' x :
  rows_read a l = Ok l' -> x ∈ map g l' -> exists y, x = g y /\ y ∈ l.
Proof.
  intros H (y & -> & Hy)%list_elem_of_fmap. exists y. split; [done|]. by eapply rows_read_sub.
Qed.

Lemma selected_in `{Countable K} {R : Type} (P : K -> R -> bool) (m : gmap K R) kr :
  kr ∈ map_to_list (select_where P m) <-> m !! kr.1 = Some kr.2 /\ P kr.1 kr.2 = true.
Proof. destruct kr. by rewrite elem_of_map_to_list, lookup_select_where. Qed.

Lemma sorted_in `{Countable K} {R : Type} (Q : K * R -> K * R -> Prop) `{!RelDecision Q}
    (P : K -> R -> bool) (m : gmap K R) kr :
  kr ∈ merge_sort Q (map_to_list (select_where P m)) <-> m !! kr.1 = Some kr.2 /\ P kr.1 kr.2 = true.
Proof. by rewrite merge_sort_Permutation, selected_in. Qed.

Lemma list_files_in a R `{!RelDecision R} P s l id :
  list_files a R P s = Ok l -> id ∈ l.*1 -> exists f, files s !! id = Some f /\ P id f = true.
Proof.
  unfold list_files. intros Hl Hin. destruct (rows_read_map _ _ _ _ _ Hl Hin) as ([k f] & -> & H).
  apply sorted_in in H. by exists f.
Qed.

Lemma shared_rows_in us P s x :
  x ∈ shared_rows us P s <->
  exists k sh id f, drive_shares s !! k = Some sh /\ P k sh = true /\ sh_file sh = Some id /\
    files s !! id = Some f /\ UploadComplete f = true /\
    x = mkShared id (rewrapped sh f) (owner_address us (FileUser f)).
Proof.
  unfold shared_rows. rewrite list_elem_of_omap. setoid_rewrite sorted_in. split.
  - intros ([k sh] & [Hk HP] & Hx). cbn [fst snd] in *. unfold shared_row in Hx. cbn [snd] in Hx.
    destruct (sh_file sh) as [id|] eqn:Eid; [|done]. cbn in Hx.
    destruct (files s !! id) as [f|] eqn:Ef; [|done]. cbn in Hx.
    destruct (UploadComplete f) eqn:Ec; [|done]. injection Hx as <-. by exists k, sh, id, f.
  - intros (k & sh & id & f & Hk & HP & Eid & Ef & Ec & ->). exists (k, sh). split; [done|].
    unfold shared_row. cbn [snd]. rewrite Eid. cbn. rewrite Ef. cbn. by rewrite Ec.
Qed.

Lemma one_file_ok a P s kf : one_file a P s = Ok kf -> files s !! kf.1 = Some kf.2 /\ P kf.1 kf.2 = true.
Proof.
  unfold one_file. destruct (rows_read a _) as [l|] eqn:E; [|done]. cbn [mbind result_bind].
  destruct l as [|x l]; [done|]. intros [= <-]. apply selected_in. eapply rows_read_sub; [exact E|]. by left.
Qed.

Lemma seen_complete id s : seen id s -> exists f, files s !! id = Some f /\ UploadComplete f = true.
Proof.
  intros [a u t f H|a u t fo l H Hin|a u t l H Hin|a1 a2 us t fo l sub H Hin|us now r t x H|a us now r t l H Hin].
  - apply one_file_ok in H as [Hf HP]. cbn in *. exists f. split; [done|]. by apply andb_true_iff in HP as [_ ?].
  - destruct (list_files_in _ _ _ _ _ _ H Hin) as (f & Hf & HP). exists f. split; [done|].
    by apply andb_true_iff in HP as [_ ?].
  - destruct (list_files_in _ _ _ _ _ _ H Hin) as (f & Hf & HP). exists f. split; [done|].
    by apply andb_true_iff in HP as [_ ?].
  - unfold ListSharedFolderContents in H. destruct (rows_read a1 _) as [l1|] eqn:E1; [|done].
    cbn [mbind result_bind] in H. destruct (rows_read a2 _) as [l2|]; [|done]. injection H as -> _.
    destruct (rows_read_map _ _ _ _ _ E1 Hin) as (x & -> & ([k f] & -> & Hx)%list_elem_of_fmap).
    apply sorted_in in Hx as [Hf HP]. exists f. split; [done|]. by apply andb_true_iff in HP as [_ ?].
  - unfold GetSharedFile in H. cbn [negb] in H. destruct (shared_rows _ _ _) as [|y l] eqn:E; [done|].
    assert (y ∈ y :: l) as Hy by left. rewrite <-E in Hy.
    apply shared_rows_in in Hy as (k & sh & id' & f & _ & HP & Eid & Hf & Hc & _).
    apply andb_true_iff in HP as [_ HP]. apply bool_decide_eq_true in HP. rewrite Eid in HP.
    injection HP as ->. by exists f.
  - destruct (rows_read_map _ _ _ _ _ H Hin) as (x & -> & Hx).
    apply shared_rows_in in Hx as (k & sh & id' & f & _ & _ & _ & Hf & Hc & ->). by exists f.
Qed.

(** No call creates or completes the file. *)
Definition leaves_open (id : UUID) (os : list fop) : Prop :=
  Forall (fun o => creates id o = false /\ completes id o = false) os.

Lemma frun_kept id os s g :
  leaves_open id os -> files (frun os s) !! id = Some g ->
  exists f, files s !! id = Some f /\ same_upload f g /\ SizeBytes g = SizeBytes f + chunks id os s /\
            UploadComplete g = UploadComplete f.
Proof.
  intros Ho. revert s. induction Ho as [|o os [Hc Hd] _ IH]; intros s Hg; cbn in *.
  - exists g. split_and!; [done..|lia|done].
  - apply IH in Hg as (f & Hf & Hs & Hz & Hu). pose proof (fapply_kept id o s Hc) as Hk.
    rewrite Hf in Hk. destruct Hk as (f0 & Hf0 & Hs0 & Hz0 & Hu0). exists f0. specialize (Hu0 Hd).
    unfold same_upload in *. split_and!; first [done|lia|naive_solver congruence].
Qed.

(** C36. A chunked upload is all or nothing in the views meant for complete
    files: from the moment its row is there with upload_complete false, through
    any calls that neither complete it nor create its id again, GetFile,
    ListFiles and ListStarred hand it to no user, and ListSharedFolderContents,
    GetSharedFile and ListSharedWithUser to no recipient; and if the row is
    still there when it is marked complete, its owner gets it, with the size it
    began with plus the chunks whose addition was reported to have succeeded. *)
Theorem upload_is_all_or_nothing os id f now s :
  files s !! id = Some f -> UploadComplete f = false -> leaves_open id os ->
  let s1 := frun os s in
  ~ seen id s1 /\
  forall g, files s1 !! id = Some g ->
    exists g', GetFile Whole (FileUser f) (FileTenant f) id (MarkUploadComplete true now id s1).2 = Ok (id, g') /\
      SizeBytes g' = SizeBytes f + chunks id os s /\ same_upload f g'.
Proof.
  intros Hf Hc Ho s1. split.
  - intros (g & Hg & Hgc)%seen_complete. destruct (frun_kept id os s g Ho Hg) as (f' & Hf' & _ & _ & Hu).
    congruence.
  - intros g Hg. destruct (frun_kept id os s g Ho Hg) as (f' & Hf' & Hs & Hz & Hu).
    assert (f' = f) as -> by congruence. exists (stamp (FileCreatedAt g) now true g).
    split; [|split; [by cbn|done]]. unfold MarkUploadComplete, touch_file. cbn [snd].
    unfold GetFile, one_file. cbn [rows_read mbind result_bind]. rewrite files_set.
    set (m := select_where _ _). assert (m = {[id := stamp (FileCreatedAt g) now true g]}) as ->.
    { apply map_eq. intros k. apply option_eq. intros h. unfold m. rewrite lookup_select_where, lookup_update_where.
      rewrite lookup_singleton_Some. unfold own, file_owned. destruct Hs as (Hsu & Hst & _).
      split.
      - intros [Hh HP]. rewrite !andb_true_iff, !bool_decide_eq_true in HP. destruct HP as [[-> _] _].
        rewrite Hg in Hh. cbn in Hh. rewrite bool_decide_eq_true_2 in Hh by done. by injection Hh as <-.
      - intros [<- <-]. rewrite Hg. cbn. rewrite !bool_decide_eq_true_2 by congruence. done. }
    by rewrite map_to_list_singleton.
Qed.

(** The other queries do not ask whether the upload is complete: the one by id,
    which the chunks of an upload use and the download over a share too, the
    trash, and the listing of a folder for a public link. *)
Theorem unfinished_upload_shown_elsewhere id f s :
  files s !! id = Some f -> UploadComplete f = false ->
  GetFileByID Whole id s = Ok (id, f) /\
  (Trashed f = true -> forall l,
     ListTrashed Whole (FileUser f) (FileTenant f) s = Ok l -> (id, f) ∈ l) /\
  (Trashed f = false -> forall n p l, FolderID f = Some p -> is_Some (drive_folders (drive s) !! p) ->
     ListFilesInFolderByID n true p (drive s) = Some (Ok l) -> (id, f) ∈ l).
Proof.
  intros Hf _. split; [|split].
  - unfold GetFileByID, one_file. cbn [rows_read mbind result_bind].
    set (m := select_where _ _). assert (m = {[id := f]}) as ->; [|by rewrite map_to_list_singleton].
    apply map_eq. intros k. apply option_eq. intros h. unfold m.
    rewrite lookup_select_where, lookup_singleton_Some, bool_decide_eq_true. split; [intros [Hk ->]|intros [<- <-]].
    + rewrite Hf in Hk. by injection Hk as ->.
    + done.
  - intros Ht l [= <-]. apply sorted_in. split; [done|]. cbn. unfold file_owned.
    by rewrite !bool_decide_eq_true_2, Ht by done.
  - intros Ht n p l Hp [g Hg] Hl. unfold ListFilesInFolderByID in Hl. cbn [negb] in Hl.
    destruct (subtree n _ p (drive s)) as [ids|] eqn:E; [|done]. injection Hl as <-.
    unfold files_where. apply selected_in. split; [done|]. cbn. unfold in_folders.
    rewrite Hp, Ht, bool_decide_eq_true_2; [done|].
    apply (cte_elements _ _ _ _ E). exists p. split; [|constructor]. apply elem_of_base. by split; [|exists g].
Qed.

(** A chunk that arrives after the upload has been reaped is accepted, and so is
    the end of the upload; there is no file. *)
Theorem reaped_upload_completes now id n s :
  files s !! id = None ->
  let r1 := AddFileSize true now id n s in
  let r2 := MarkUploadComplete true now id r1.2 in
  r1.1 = Ok tt /\ r2.1 = Ok tt /\ files r2.2 !! id = None.
Proof.
  intros Hn. unfold AddFileSize, MarkUploadComplete, touch_file. rewrite Hn. cbn [andb fst snd].
  rewrite !files_set, !lookup_update_where, Hn. done.
Qed.

(** * Shares *)

(** A user, a file and a tenant have at most one direct share. *)
Definition direct_unique (m : gmap UUID DriveShare) : Prop :=
  forall a b sa sb p, m !! a = Some sa -> m !! b = Some sb -> direct sa = Some p -> direct sb = Some p -> a = b.

(** A property of what a share is of: writes to its other columns keep it. *)
Definition of_shape (Q : DriveShare -> Prop) : Prop :=
  forall sh, (forall now, Q (created now sh) <-> Q sh) /\ (forall x, Q (reshared x sh) <-> Q sh) /\
             (Q (accessed sh) <-> Q sh).

(** The rows of which [Q] holds were there before. *)
Definition no_new (Q : DriveShare -> Prop) (m m' : gmap UUID DriveShare) : Prop :=
  forall k sh', m' !! k = Some sh' -> Q sh' -> exists sh, m !! k = Some sh /\ Q sh.

Lemma no_new_refl Q m : no_new Q m m.
Proof. intros k sh Hk Hd. by exists sh. Qed.

Lemma no_new_trans Q m1 m2 m3 : no_new Q m1 m2 -> no_new Q m2 m3 -> no_new Q m1 m3.
Proof. intros H1 H2 k sh Hk Hd. destruct (H2 k sh Hk Hd) as (x & Hx & Hdx). by eapply H1. Qed.

Lemma no_new_update (Q : DriveShare -> Prop) P g m :
  (forall sh, Q (g sh) <-> Q sh) -> no_new Q m (update_where P g m).
Proof.
  intros Hg k sh. rewrite lookup_update_where. destruct (m !! k) as [x|] eqn:E; [|done]. cbn.
  intros [= <-] Hd. exists x. split; [done|]. destruct (P k x); [by apply Hg|done].
Qed.

Lemma no_new_delete_where Q P m : no_new Q m (delete_where P m).
Proof. intros k sh [Hk _]%lookup_delete_where Hd. by exists sh. Qed.

Lemma no_new_unique m m' : (forall p, no_new (fun sh => direct sh = Some p) m m') -> direct_unique m -> direct_unique m'.
Proof.
  intros Hn Hu a b sa sb p Ha Hb Hda Hdb.
  destruct (Hn p a sa Ha Hda) as (x & Hx & Hdx). destruct (Hn p b sb Hb Hdb) as (y & Hy & Hdy).
  by eapply Hu.
Qed.

Lemma direct_some sh f r :
  direct sh = Some (f, r) <->
  ShareType sh = "user"%string /\ ParentShareID sh = None /\ sh_file sh = Some f /\ sh_recipient sh = Some r.
Proof.
  unfold direct. destruct (String.eqb_spec (ShareType sh) "user"); cbn [andb].
  - case_bool_decide; [|by split; [|intros (_ & ? & _)]].
    destruct (sh_file sh), (sh_recipient sh); cbn; naive_solver congruence.
  - by split; [|intros (? & _)].
Qed.

Lemma same_direct_spec f r k sh : same_direct f r k sh = true <-> direct sh = Some (f, r).
Proof.
  unfold same_direct. rewrite direct_some, !andb_true_iff, !bool_decide_eq_true, String.eqb_eq. tauto.
Qed.

Definition a_direct (p : UUID * UUID) (sh : DriveShare) : Prop := direct sh = Some p.

Lemma a_direct_shape p : of_shape (a_direct p).
Proof. by intros sh. Qed.

(** The call may make a row of which [Q] holds. *)
Definition shares (Q : DriveShare -> Prop) (o : fop) : Prop :=
  match o with FShare _ _ _ sh => Q sh | _ => False end.

Lemma fapply_no_new Q o s :
  of_shape Q -> ~ shares Q o -> no_new Q (drive_shares s) (drive_shares (fapply o s)).
Proof.
  intros Hsh Hs. destruct o as [up now k f|dflt up now k f|up now k f|c up u t k|up now u t k|up now u t k|c a cut|c a u t
    |up now k n|up now k|c up now older|ok now u t ws|up now k sh|up u t k|up k|o]; cbn [fapply shares] in *.
  - unfold CreateFile, insert_file. destruct up; [|apply no_new_refl]. cbn [negb].
    destruct (files s !! k); [|destruct (parent_exists _ _)]; apply no_new_refl.
  - unfold CreateFileViaSharedFolder, insert_file. destruct up; [|apply no_new_refl]. cbn [negb].
    destruct (files s !! k); [|destruct (parent_exists _ _)]; apply no_new_refl.
  - unfold UpdateFile, update_file. destruct (up && _); [|apply no_new_refl]. cbn [negb].
    case_bool_decide; apply no_new_refl.
  - unfold DeleteFile, remove_some. destruct up; [|apply no_new_refl]. cbn [negb].
    case_bool_decide; [apply no_new_refl|apply no_new_delete_where].
  - unfold TrashFile, update_file. destruct up; [|apply no_new_refl]. cbn [negb].
    case_bool_decide; apply no_new_refl.
  - unfold RestoreFile, update_file. destruct up; [|apply no_new_refl]. cbn [negb].
    case_bool_decide; apply no_new_refl.
  - unfold PurgeOldTrashed, purge. destruct a as [| |n []]; first [apply no_new_delete_where|apply no_new_refl].
  - unfold EmptyTrash, purge. destruct a as [| |n []]; first [apply no_new_delete_where|apply no_new_refl].
  - unfold AddFileSize, touch_file. destruct (up && _); apply no_new_refl.
  - unfold MarkUploadComplete, touch_file. destruct up; apply no_new_refl.
  - unfold ReapStaleUploads. destruct up; [apply no_new_delete_where|apply no_new_refl].
  - unfold BackfillFCKFileWraps. destruct ws as [|w ws]; [apply no_new_refl|].
    destruct (_ && _); [|apply no_new_refl]. cbn [snd]. generalize (w :: ws). clear. intros ws. revert s.
    induction ws as [|w ws IH]; intros s; cbn [foldl]; [apply no_new_refl|]. apply (IH (set_files _ s)).
  - unfold CreateShare. destruct up; [|apply no_new_refl]. cbn [negb].
    assert (no_new Q (drive_shares s) (drive_shares (insert_share k (created now sh) s).2)) as Hi.
    { unfold insert_share. destruct (drive_shares s !! k); [apply no_new_refl|]. intros j x.
      cbn [snd drive_shares set_shares]. rewrite lookup_insert_Some.
      intros [[<- <-]|[_ Hj]] Hd; [by apply (proj1 (Hsh sh) now) in Hd|by exists x]. }
    destruct (direct sh) as [[f r]|]; [|exact Hi]. case_bool_decide; [exact Hi|].
    apply no_new_update. intros x. apply Hsh.
  - unfold DeleteShare. destruct up; [|apply no_new_refl]. cbn [negb].
    destruct (drive_shares s !! k) as [x|]; [|apply no_new_refl]. destruct (share_owned u t x); [|apply no_new_refl].
    intros j y. cbn [snd drive_shares set_shares]. intros [_ Hj]%lookup_delete_Some Hd. by exists y.
  - unfold IncrementShareAccess. destruct up; [|apply no_new_refl]. apply no_new_update. intros x. apply Hsh.
  - apply no_new_refl.
Qed.

Lemma fapply_unique o s : direct_unique (drive_shares s) -> direct_unique (drive_shares (fapply o s)).
Proof.
  intros Hu. assert (Hq : (forall p, ~ shares (a_direct p) o) -> direct_unique (drive_shares (fapply o s))).
  { intros Hn. eapply no_new_unique; [|exact Hu]. intros p. apply (fapply_no_new (a_direct p)); [apply a_direct_shape|done]. }
  destruct o as [| | | | | | | | | | | |up now k sh| | |]; try (apply Hq; intros p Hp; exact Hp).
  destruct (direct sh) as [[f r]|] eqn:Ed; [|apply Hq; intros p; cbn; congruence].
  cbn [fapply]. unfold CreateShare. destruct up; [|done]. cbn [negb]. rewrite Ed. case_bool_decide as Ha.
  - unfold insert_share. destruct (drive_shares s !! k); [done|]. cbn [snd drive_shares set_shares].
    assert (forall j x, drive_shares s !! j = Some x -> direct x <> Some (f, r)) as Hno.
    { intros j x Hx Hd. apply (same_direct_spec f r j) in Hd.
      rewrite (proj1 (affected_zero _ _) Ha j x Hx) in Hd.
      discriminate. }
    intros a b sa sb p. rewrite !lookup_insert_Some.
    intros [[<- <-]|[Hka Ha']] [[<- <-]|[Hkb Hb']]; rewrite ?(eq_refl : direct (created now sh) = direct sh), ?Ed; [done| | |by apply Hu].
    + intros [= <-] Hd. by destruct (Hno b sb Hb').
    + intros Hd [= <-]. by destruct (Hno a sa Ha').
  - eapply no_new_unique; [|exact Hu]. intros p. by apply no_new_update.
Qed.

Lemma frun_unique os s : direct_unique (drive_shares s) -> direct_unique (drive_shares (frun os s)).
Proof. revert s. induction os as [|o os IH]; intros s Hs; cbn; [done|]. by apply IH, fapply_unique. Qed.

Lemma frun_no_new Q os s :
  of_shape Q -> Forall (fun o => ~ shares Q o) os -> no_new Q (drive_shares s) (drive_shares (frun os s)).
Proof.
  intros Hsh Ho. revert s. induction Ho as [|o os H _ IH]; intros s; cbn; [apply no_new_refl|].
  eapply no_new_trans; [by apply fapply_no_new|apply IH].
Qed.

(** A row under a folder share, and any row that gives a user a file. *)
Definition a_rewrap (sh : DriveShare) : Prop := ShareType sh = "user"%string /\ ParentShareID sh <> None.

Definition gives (f r : UUID) (sh : DriveShare) : Prop :=
  ShareType sh = "user"%string /\ sh_file sh = Some f /\ sh_recipient sh = Some r.

Lemma shape_rewrap : of_shape a_rewrap.
Proof. by intros sh. Qed.

Lemma shape_gives f r : of_shape (gives f r).
Proof. by intros sh. Qed.

Lemma shared_row_gives us now r t s x :
  x ∈ shared_rows us (shared_with now r t) s ->
  exists k sh, drive_shares s !! k = Some sh /\ gives (SharedFileID x) r sh.
Proof.
  intros (k & sh & id & f & Hk & HP & Hid & _ & _ & ->)%shared_rows_in. exists k, sh. split; [done|].
  unfold shared_with in HP. rewrite !andb_true_iff, !bool_decide_eq_true, String.eqb_eq in HP.
  destruct HP as [[[Hr _] Ht] _]. by split_and!.
Qed.

(** [file] is not handed to [r] over a share of the file itself. *)
Definition no_share_hands (r file : UUID) (s : Store) : Prop :=
  forall us now t, (forall up, GetSharedFile up us now r t file s = Err (if up then SqlNoRows else SqlFailed)) /\
    forall a l, ListSharedWithUser a us now r t s = Ok l -> file ∉ map SharedFileID l.

Lemma nothing_gives r file s :
  (forall k sh, drive_shares s !! k = Some sh -> ~ gives file r sh) -> no_share_hands r file s.
Proof.
  intros Hn us now t. split.
  - intros []; [|done]. unfold GetSharedFile. cbn [negb]. destruct (shared_rows _ _ _) as [|x l] eqn:E; [done|].
    exfalso. assert (x ∈ x :: l) as Hx by left. rewrite <-E in Hx.
    apply shared_rows_in in Hx as (k & sh & id & f & Hk & HP & Hid & _).
    unfold shared_with in HP. rewrite !andb_true_iff, !bool_decide_eq_true, String.eqb_eq in HP.
    destruct HP as [[[[Hr _] Ht] _] Hf]. by apply (Hn k sh Hk).
  - intros a l Hl Hin. destruct (rows_read_map _ _ _ _ _ Hl Hin) as (x & -> & Hx).
    apply shared_row_gives in Hx as (k & sh & Hk & Hg). by apply (Hn k sh Hk).
Qed.

(** C37. Revoking the share of a file ends what it gave: in any store reached
    without rows under folder shares, once the owner has deleted the share of a
    file with a user, GetSharedFile and ListSharedWithUser, the download and
    the list of shared files, no longer give that user the file, through any
    later calls, failing or not, that do not share the file with them again.
    (A share of a folder the file lies in is a grant of its own.) *)
Theorem revoked_share_ends_access os1 os2 u t id sh file r :
  let s := frun os1 empty_store in
  Forall (fun o => ~ shares a_rewrap o) os1 ->
  drive_shares s !! id = Some sh -> gives file r sh ->
  (DeleteShare true u t id s).1 = Ok tt ->
  Forall (fun o => ~ shares (gives file r) o) os2 ->
  no_share_hands r file (frun os2 (DeleteShare true u t id s).2).
Proof.
  intros s Ho1 Hid Hg Hd Ho2. apply nothing_gives. intros k x Hx Hxg.
  destruct (frun_no_new _ os2 _ (shape_gives file r) Ho2 k x Hx Hxg) as (y & Hy & Hyg).
  unfold DeleteShare in Hy, Hd. rewrite Hid in Hy, Hd. cbn [negb] in Hy, Hd.
  destruct (share_owned u t sh); [|done]. cbn [snd drive_shares set_shares] in Hy.
  apply lookup_delete_Some in Hy as [Hne Hy].
  assert (forall j z, drive_shares s !! j = Some z -> gives file r z -> direct z = Some (file, r)) as Hdir.
  { intros j z Hz (Hty & Hf & Hr). apply direct_some. split_and!; [done| |done..].
    destruct (decide (ParentShareID z = None)) as [|Hp]; [done|]. exfalso.
    destruct (frun_no_new a_rewrap os1 empty_store shape_rewrap Ho1 j z Hz) as (w & Hw & _); done. }
  apply Hne. eapply (frun_unique os1 empty_store); [by intros ? ? ? ? ? ?|exact Hid|exact Hy|..]; by eapply Hdir.
Qed.

(** Sharing a file with somebody who already has it succeeds, and gives the
    caller an id no row has: revoking by it fails and the access stays. *)
Theorem reshare_returns_unknown_id now u t id sh f r old osh s :
  drive_shares s !! id = None -> direct sh = Some (f, r) ->
  drive_shares s !! old = Some osh -> direct osh = Some (f, r) ->
  let s' := (CreateShare true now id sh s).2 in
  (CreateShare true now id sh s).1 = Ok tt /\
  DeleteShare true u t id s' = (Err SqlNoRows, s') /\
  drive_shares s' !! old = Some (reshared sh osh).
Proof.
  intros Hid Hd Hold Ho s'. subst s'. unfold CreateShare. cbn [negb]. rewrite Hd.
  rewrite bool_decide_eq_false_2.
  - cbn [fst snd]. split; [done|]. unfold DeleteShare. cbn [negb set_shares drive_shares].
    rewrite !lookup_update_where, Hid, Hold. cbn [fmap option_fmap option_map]. split; [done|].
    by rewrite (proj2 (same_direct_spec f r old osh) Ho).
  - rewrite affected_zero. intros H. specialize (H old osh Hold).
    by rewrite (proj2 (same_direct_spec f r old osh) Ho) in H.
Qed.

(** * The trash *)

(** Emptying the trash deletes what it returns: answered in full, it
    returns each of the owner's files in the trash once, as it was, and exactly
    those rows are gone, every other file being untouched; refused, it returns
    an error and nothing has changed; broken off, it reports success with some
    of the rows, all of them in the trash, whether or not any was deleted. *)
Theorem empty_trash_deletes_what_it_returns cascade a user tenant s :
  let '(r, s') := EmptyTrash cascade a user tenant s in
  match a with
  | Whole =>
      exists l, r = Ok l /\ NoDup l.*1 /\
      (forall k f, (k, f) ∈ l <-> files s !! k = Some f /\ in_trash user tenant k f = true) /\
      (forall k, files s' !! k = if bool_decide (k ∈ l.*1) then None else files s !! k)
  | Refused => r = Err SqlFailed /\ s' = s
  | Broken n applied =>
      exists l, r = Ok l /\ (length l <= n)%nat /\
      (forall k f, (k, f) ∈ l -> files s !! k = Some f /\ in_trash user tenant k f = true) /\
      (applied = false -> s' = s)
  end.
Proof.
  unfold EmptyTrash, purge. set (l := map_to_list _). destruct a as [| |n b]; cbn [rows_read].
  - exists l. split; [done|].
    assert (forall k f, (k, f) ∈ l <-> files s !! k = Some f /\ in_trash user tenant k f = true) as Hl
      by (intros k f; apply (selected_in (in_trash user tenant) (files s) (k, f))).
    split; [apply NoDup_fst_map_to_list|]. split; [exact Hl|]. intros k. cbn.
    case_bool_decide as Hk.
    + apply lookup_delete_where_None. intros f Hf. apply list_elem_of_fmap in Hk as ([k' f'] & -> & Hin).
      apply Hl in Hin as [Hf' Hp]. cbn in Hf, Hf'. by replace f with f' by congruence.
    + apply option_eq. intros f. rewrite lookup_delete_where. split; [by intros [? _]|]. intros Hf. split; [done|].
      destruct (in_trash user tenant k f) eqn:Ep; [|done]. destruct Hk. apply list_elem_of_fmap. exists (k, f).
      split; [done|]. by apply Hl.
  - done.
  - exists (take n l). split; [done|]. split; [rewrite length_take; lia|]. split.
    + intros k f Hin. apply (selected_in (in_trash user tenant) (files s) (k, f)).
      apply (rows_read_sub (Broken n b) l (take n l)); [done|exact Hin].
    + by destruct b.
Qed.

(** A purge that the database breaks off and undoes returns files that are
    still there: the caller deletes their contents. *)
Theorem purge_broken_off_loses_contents cascade cutoff k f s :
  files s !! k = Some f -> old_trash cutoff k f = true ->
  exists k' f' l, PurgeOldTrashed cascade (Broken 1 false) cutoff s = (Ok ((k', f') :: l), s) /\
    files s !! k' = Some f'.
Proof.
  intros Hf Hp. unfold PurgeOldTrashed, purge. cbn [rows_read].
  destruct (map_to_list (select_where (old_trash cutoff) (files s))) as [|[k' f'] l] eqn:E.
  - assert ((k, f) ∈ map_to_list (select_where (old_trash cutoff) (files s))) as Hin by by apply selected_in.
    rewrite E in Hin. by apply not_elem_of_nil in Hin.
  - exists k', f', []. split; [done|].
    assert ((k', f') ∈ map_to_list (select_where (old_trash cutoff) (files s))) as Hin by (rewrite E; by left).
    by apply selected_in in Hin as [? _].
Qed.

(** A file put in the trash by an update without a date is never purged. *)
Theorem undated_trash_is_kept now id u f s cascade cutoff :
  files s !! id = Some f -> file_owned (FileUser u) (FileTenant u) f = true ->
  parent_exists (FolderID u) (drive s) = true -> Trashed u = true -> TrashedAt u = None ->
  let s' := (UpdateFile true now id u s).2 in
  files (PurgeOldTrashed cascade Whole cutoff s').2 !! id = Some (with_update now u f).
Proof.
  intros Hf Ho Hp Ht Hd s'. assert (files s' !! id = Some (with_update now u f)) as Hs.
  { subst s'. unfold UpdateFile, update_file. rewrite Hp. cbn [andb negb].
    rewrite bool_decide_eq_false_2.
    - cbn [snd]. rewrite files_set, lookup_update_where, Hf. cbn. unfold own.
      by rewrite bool_decide_eq_true_2, Ho by done.
    - rewrite affected_zero. intros H. specialize (H id f Hf). unfold own in H.
      by rewrite bool_decide_eq_true_2, Ho in H. }
  unfold PurgeOldTrashed, purge. cbn [snd files]. apply lookup_delete_where. split; [exact Hs|].
  unfold old_trash. cbn [Trashed TrashedAt with_update]. by rewrite Ht, Hd.
Qed.

(** Members of a shared folder are shown each subfolder under the name of the
    subfolder's own epoch: the names stored with the share, at the epoch of the
    folder that is shared, are not read unless the two numbers agree. *)
Theorem share_names_unread ok now i e d d' k g :
  AdvanceFolderEpoch ok now i d = (Ok e, d') ->
  k <> sf_folder i -> drive_folders d !! k = Some g -> CurrentEpoch g <> e ->
  drive_folders d' !! k = Some g /\ (is_Some (current_name d' k g) <-> is_Some (current_name d k g)).
Proof.
  intros Ha Hk Hg He. unfold AdvanceFolderEpoch in Ha.
  destruct (atomically_cases ok (advance_body ok now i) d) as [E|(e' & E & E')].
  - rewrite Ha in E. cbn in E. subst d'. split; [done|]. unfold atomically in Ha.
    destruct (ok "begin"%string); [|done]. cbn [negb] in Ha. by destruct (advance_body ok now i d) as [[]|].
  - rewrite Ha in E, E'. cbn in E, E'. injection E' as <-.
    apply advance_epoch_ok in E as (f & _ & _ & _ & Hfs & _ & Hn & _). split.
    + rewrite Hfs. by rewrite lookup_insert_ne.
    + unfold current_name. rewrite Hn. cbn [fst snd]. split; [|by left].
      intros [H|[[= ? _]|[H _]]]; [done|by subst|done].
Qed.

(** * Examples *)

Definition half_file : DriveFile :=
  mkFile (bs "ann") (bs "t") None (bs "n") [] 10 None (bs "blob") [] (bs "k") None 0 (bs "aesgcm-chunked") 2
    false false false None 0 0.

Definition upload_started : Store := (CreateFile true 1 (bs "f") half_file empty_store).2.
Definition second_chunk : list fop := [FAddSize true 2 (bs "f") 7; FReap true true 3 0].

Lemma upload_is_all_or_nothing_witness :
  ~ seen (bs "f") (frun second_chunk upload_started) /\
  exists g, GetFile Whole (bs "ann") (bs "t") (bs "f")
              (MarkUploadComplete true 4 (bs "f") (frun second_chunk upload_started)).2 = Ok (bs "f", g) /\
            SizeBytes g = 17.
Proof.
  destruct (upload_is_all_or_nothing second_chunk (bs "f") (stamp 1 1 false half_file) 4 upload_started)
    as [Hn Hg].
  - by vm_compute.
  - by vm_compute.
  - repeat constructor.
  - split; [exact Hn|].
    assert (is_Some (files (frun second_chunk upload_started) !! bs "f")) as [g Eg]
      by (apply (bool_decide_unpack _); by vm_compute).
    destruct (Hg g Eg) as (g' & E & Hz & _). exists g'. split; [exact E|]. rewrite Hz. by vm_compute.
Defined.

Definition bobs_share (key : bytes) : DriveShare :=
  mkDriveShare (Some (bs "f")) None None (bs "ann") (bs "t") "user" [] [] [] [] [] (Some (bs "bob")) key
    (bs "e") false None 0 0 [] [].

Definition shared_history : list fop :=
  [FCreate true 0 (bs "f") (stamp 0 0 true half_file); FShare true 1 (bs "s1") (bobs_share (bs "k1"));
   FShare true 2 (bs "s2") (bobs_share (bs "k2"))].

Example bob_reads_newest_key :
  GetSharedFile true ∅ 5 (bs "bob") (bs "t") (bs "f") (frun shared_history empty_store) =
  Ok (mkShared (bs "f") (rewrapped (bobs_share (bs "k2")) (stamp 0 0 true half_file)) []).
Proof. by vm_compute. Qed.

Lemma revoked_share_ends_access_witness :
  no_share_hands (bs "bob") (bs "f")
    (frun [FAccess true (bs "s1"); FTrash true 6 (bs "ann") (bs "t") (bs "f")]
       (DeleteShare true (bs "ann") (bs "t") (bs "s1") (frun shared_history empty_store)).2).
Proof.
  refine (revoked_share_ends_access shared_history _ (bs "ann") (bs "t") (bs "s1")
            (reshared (bobs_share (bs "k2")) (created 1 (bobs_share (bs "k1")))) (bs "f") (bs "bob") _ _ _ _ _).
  - repeat constructor; cbn; try (by intros []); intros [_ H]; by apply H.
  - by vm_compute.
  - by split_and!.
  - by vm_compute.
  - repeat constructor; by intros [].
Defined.
