(* ===== verification/Billing.v ===== *)
(** internal/storage/billing_store.go, with the expired-credit queries of
    auth_store.go: credits, seats, prices and storage limits.
    Shown: the price of a number of mailboxes is the sum of the prices of
    their places; the recheck before a downgrade agrees with the list; a comp
    credit is all or nothing; what a change of seats does to the quota; storage
    limits and their bounds; on a shared tenant one user's credit keeps
    everybody else's expiry from being noticed. *)

From stdpp Require Import sorting.
From S2P Require Import Prelude Sql Account.

#[local] Open Scope Z_scope.

(** * Rows *)

Record TierLimits := mkTier {
  MaxMailboxes : Z;
  MaxStorageBytes : Z;
  MaxCustomDomains : Z;
  TierPriceCents : Z
}.

Record BillingCredit := mkCredit {
  CreditTenant : UUID;
  CreditTier : string;
  MailboxQuota : Z;
  ValidFrom : Z;
  ValidUntil : Z;
  TokenHash : bytes;
  PriceCentsEach : Z;
  CompedBy : option UUID;
  CompReason : option bytes;
  CreditUser : option UUID
}.

Record PricingBracket := mkBracket { MinMailboxes : Z; MaxInBracket : Z; PriceCents : Z }.

Record StorageAddon := mkAddon {
  AddonTenant : UUID;
  Blocks : Z;
  AddonPriceCents : Z;
  AddonFrom : Z;
  AddonUntil : Z;
  AddonCreatedAt : Z
}.

(** The owner and the size of a message or an attachment. *)
Record Stored := mkStored { StoredUser : UUID; StoredTenant : UUID; StoredSize : Z }.

(** A subscription bought through Apple or Google. *)
Record AppSubscription := mkSub { SubUser : UUID; SubStatus : string }.

Record Db := mkDb {
  users : gmap UUID User;
  billing_credits : gmap UUID BillingCredit;
  storage_addons : gmap UUID StorageAddon;
  pricing_brackets : list PricingBracket;
  tier_limits : gmap string TierLimits;
  messages : gmap UUID Stored;
  attachments : gmap UUID Stored;
  apple_subscriptions : gmap UUID AppSubscription;
  google_subscriptions : gmap UUID AppSubscription;
  tenant_roles : gmap (UUID * UUID) string;
  verified_tenants : gset UUID
}.

Definition with_users (us : gmap UUID User) (d : Db) : Db :=
  mkDb us (billing_credits d) (storage_addons d) (pricing_brackets d) (tier_limits d) (messages d)
    (attachments d) (apple_subscriptions d) (google_subscriptions d) (tenant_roles d) (verified_tenants d).
Definition with_credits (cs : gmap UUID BillingCredit) (d : Db) : Db :=
  mkDb (users d) cs (storage_addons d) (pricing_brackets d) (tier_limits d) (messages d)
    (attachments d) (apple_subscriptions d) (google_subscriptions d) (tenant_roles d) (verified_tenants d).
Definition with_addons (adds : gmap UUID StorageAddon) (d : Db) : Db :=
  mkDb (users d) (billing_credits d) adds (pricing_brackets d) (tier_limits d) (messages d)
    (attachments d) (apple_subscriptions d) (google_subscriptions d) (tenant_roles d) (verified_tenants d).
Definition with_mail (ms ats : gmap UUID Stored) (d : Db) : Db :=
  mkDb (users d) (billing_credits d) (storage_addons d) (pricing_brackets d) (tier_limits d) ms
    ats (apple_subscriptions d) (google_subscriptions d) (tenant_roles d) (verified_tenants d).

(** * Sums

COALESCE(SUM(g), 0) over the rows a condition selects. *)

Definition sum_list {A : Type} (g : A -> Z) (l : list A) : Z := foldr (fun x n => g x + n) 0 l.

Definition sum_where `{Countable K} {R : Type} (P : K -> R -> bool) (g : R -> Z) (m : gmap K R) : Z :=
  sum_list (fun kr => g kr.2) (map_to_list (select_where P m)).

(** A query of one number. *)
Definition one_int (up : bool) (x : Z) : result serr Z := if up then scan_int x else Err SqlFailed.

(** * Tiers and credits *)

Definition GetTierLimits (up : bool) (tier : string) (d : Db) : result serr TierLimits :=
  if up then of_option SqlNoRows (tier_limits d !! tier) else Err SqlFailed.

Definition cheaper (a b : string * TierLimits) : Prop := TierPriceCents a.2 <= TierPriceCents b.2.
#[export] Instance cheaper_dec : RelDecision cheaper.
Proof. intros a b. unfold cheaper. apply _. Defined.

Definition ListTierLimits (up : bool) (d : Db) : result serr (list (string * TierLimits)) :=
  if up then Ok (merge_sort cheaper (map_to_list (tier_limits d))) else Err SqlFailed.

Definition insert_credit (up : bool) (id : UUID) (c : BillingCredit) (d : Db) : result serr Db :=
  if negb up then Err SqlFailed
  else match billing_credits d !! id with
       | Some _ => Err SqlUnique
       | None => Ok (with_credits (<[id := c]> (billing_credits d)) d)
       end.

Definition stored_credit (comp : option UUID) (reason : option bytes) (user : option UUID)
    (c : BillingCredit) : BillingCredit :=
  mkCredit (CreditTenant c) (CreditTier c) (MailboxQuota c) (ValidFrom c) (ValidUntil c) (TokenHash c)
    (PriceCentsEach c) comp reason user.

Definition write {A : Type} (r : result serr Db) (a : A) (d : Db) : result serr A * Db :=
  match r with Ok d' => (Ok a, d') | Err e => (Err e, d) end.

Definition AddCredit (up : bool) (id : UUID) (c : BillingCredit) (d : Db) : result serr unit * Db :=
  write (insert_credit up id (stored_credit None None (CreditUser c) c) d) tt d.

(** In a transaction of the caller; this one leaves the user out. *)
Definition AddCreditTx (up : bool) (id : UUID) (c : BillingCredit) : Db -> result serr Db :=
  insert_credit up id (stored_credit None None None c).

(** [sha256] of the text of an id. *)
Definition comp_token (sha256 text : bytes -> bytes) (id : UUID) : bytes :=
  sha256 (bs "admin-comp:" ++ text id).

Definition comp_credit (sha256 text : bytes -> bytes) (now : Z) (id tenant by_ : UUID) (tier : string)
    (quota until : Z) (reason : bytes) : BillingCredit :=
  mkCredit tenant tier quota now until (comp_token sha256 text id) 0 (Some by_)
    (match reason with [] => None | _ => Some reason end) None.

Definition set_user_tier (user : UUID) (tier : string) (d : Db) : Db :=
  with_users (update_where (fun k _ => bool_decide (k = user)) (on_life (set_tier tier)) (users d)) d.

(** [ok]: which statements the database executes. *)
Definition AddCompCredit (sha256 text : bytes -> bytes) (ok : string -> bool) (now : Z)
    (id tenant user by_ : UUID) (tier : string) (quota until : Z) (reason : bytes) (d : Db) :
    result serr BillingCredit * Db :=
  let c := comp_credit sha256 text now id tenant by_ tier quota until reason in
  if negb (ok "begin"%string) then (Err SqlFailed, d)
  else match insert_credit (ok "credit"%string) id c d with
       | Err e => (Err e, d)
       | Ok d' =>
           if ok "tier"%string && ok "commit"%string
           then (Ok (stored_credit None None None c), set_user_tier user tier d')
           else (Err SqlFailed, d)
       end.

(** ** Seats *)

Definition active_credit (now : Z) (tenant : UUID) (_ : UUID) (c : BillingCredit) : bool :=
  bool_decide (CreditTenant c = tenant) && (ValidFrom c <=? now) && (now <? ValidUntil c).

Definition GetActiveMailboxQuota (up : bool) (now : Z) (tenant : UUID) (d : Db) : result serr Z :=
  one_int up (sum_where (active_credit now tenant) MailboxQuota (billing_credits d)).

Definition paid (c : BillingCredit) : bool := bool_decide (CompedBy c = None).

Definition set_quota (q : Z) (c : BillingCredit) : BillingCredit :=
  mkCredit (CreditTenant c) (CreditTier c) q (ValidFrom c) (ValidUntil c) (TokenHash c)
    (PriceCentsEach c) (CompedBy c) (CompReason c) (CreditUser c).

Definition UpdateActiveMailboxQuota (up : bool) (now : Z) (tenant : UUID) (q : Z) (d : Db) :
    result serr unit * Db :=
  if up
  then (Ok tt, with_credits (update_where (fun k c => active_credit now tenant k c && paid c) (set_quota q)
                               (billing_credits d)) d)
  else (Err SqlFailed, d).

Definition sooner (a b : UUID * BillingCredit) : Prop := ValidUntil a.2 <= ValidUntil b.2.
#[export] Instance sooner_dec : RelDecision sooner.
Proof. intros a b. unfold sooner. apply _. Defined.

Definition GetActiveCredits (up : bool) (now : Z) (tenant : UUID) (d : Db) :
    result serr (list (UUID * BillingCredit)) :=
  if up then Ok (merge_sort sooner (map_to_list (select_where (active_credit now tenant) (billing_credits d))))
  else Err SqlFailed.

Definition of_tenant (tenant : UUID) (_ : UUID) (u : User) : bool := bool_decide (UserTenant u = tenant).

Definition CountTenantMailboxes (up : bool) (tenant : UUID) (d : Db) : result serr Z :=
  if up then Ok (Z.of_nat (affected (of_tenant tenant) (users d))) else Err SqlFailed.

Definition CountTenantCustomDomains (up : bool) (owner : UUID) (d : Db) : result serr Z :=
  if up then Ok (Z.of_nat (affected (fun k r => bool_decide (k.1 = owner) && String.eqb r "owner" &&
                                       bool_decide (k.2 ∈ verified_tenants d)) (tenant_roles d)))
  else Err SqlFailed.

(** * Prices *)

Definition by_min (a b : PricingBracket) : Prop := MinMailboxes a <= MinMailboxes b.
#[export] Instance by_min_dec : RelDecision by_min.
Proof. intros a b. unfold by_min. apply _. Defined.

Definition GetPricingBrackets (up : bool) (d : Db) : result serr (list PricingBracket) :=
  if up then Ok (merge_sort by_min (pricing_brackets d)) else Err SqlFailed.

(** Go's int wraps. *)
Fixpoint brackets_cost (remaining total : Z) (bs : list PricingBracket) : Z * Z :=
  match bs with
  | [] => (remaining, total)
  | b :: bs =>
      if remaining <=? 0 then (remaining, total)
      else
        let bracketSize := int64 (MaxInBracket b - MinMailboxes b + 1) in
        let inBracket := if bracketSize <? remaining then bracketSize else remaining in
        brackets_cost (int64 (remaining - inBracket)) (int64 (total + int64 (inBracket * PriceCents b))) bs
  end.

Definition CalculateMailboxCost (count : Z) (bs : list PricingBracket) : Z :=
  let '(remaining, total) := brackets_cost count 0 bs in
  match last bs with
  | Some b => if 0 <? remaining then int64 (total + int64 (remaining * PriceCents b)) else total
  | None => total
  end.

Definition active_addon (now : Z) (tenant : UUID) (_ : UUID) (a : StorageAddon) : bool :=
  bool_decide (AddonTenant a = tenant) && (AddonFrom a <=? now) && (now <? AddonUntil a).

Definition CalculateMonthlyTotal (up1 up2 up3 : bool) (now : Z) (tenant : UUID) (d : Db) : result serr Z :=
  count ← CountTenantMailboxes up1 tenant d;
  brackets ← GetPricingBrackets up2 d;
  storageCents ← one_int up3 (sum_where (active_addon now tenant) (fun a => Blocks a * AddonPriceCents a)
                                (storage_addons d));
  Ok (int64 (CalculateMailboxCost count brackets + storageCents)).

Definition first_addon (a b : UUID * StorageAddon) : Prop := AddonCreatedAt a.2 <= AddonCreatedAt b.2.
#[export] Instance first_addon_dec : RelDecision first_addon.
Proof. intros a b. unfold first_addon. apply _. Defined.

Definition GetActiveStorageAddons (up : bool) (now : Z) (tenant : UUID) (d : Db) :
    result serr (list (UUID * StorageAddon)) :=
  if up then Ok (merge_sort first_addon (map_to_list (select_where (active_addon now tenant) (storage_addons d))))
  else Err SqlFailed.

Definition AddStorageAddon (up : bool) (id : UUID) (a : StorageAddon) (d : Db) : result serr unit * Db :=
  if negb up then (Err SqlFailed, d)
  else match storage_addons d !! id with
       | Some _ => (Err SqlUnique, d)
       | None => (Ok tt, with_addons (<[id := a]> (storage_addons d)) d)
       end.

(** * Storage *)

Definition StorageBlockBytes : Z := 10 * 1073741824.
Definition PrimaryBaseStorageBytes : Z := 15 * 1073741824.
Definition FreeStorageBytes : Z := 100 * 1024 * 1024.
Definition FakeIDStorageLimitBytes : Z := 1073741824.

Definition of_user (user tenant k : UUID) (u : User) : bool :=
  bool_decide (k = user) && bool_decide (UserTenant u = tenant).

Definition set_used (used : Z) (u : User) : User :=
  mkUser (UserTenant u) (Address u) (AccountType u) (life u) (bounces u) (fake u) (keys u) (auth u)
    (mkBilling (StripeCustomerID (billing u)) (StripeSubscriptionID (billing u)) used
       (StorageBlocks (billing u))).

Definition set_blocks (blocks : Z) (u : User) : User :=
  mkUser (UserTenant u) (Address u) (AccountType u) (life u) (bounces u) (fake u) (keys u) (auth u)
    (mkBilling (StripeCustomerID (billing u)) (StripeSubscriptionID (billing u))
       (StorageUsedBytes (billing u)) blocks).

(** GREATEST(0, used + delta), in a bigint. *)
Definition UpdateUserStorage (up : bool) (user tenant : UUID) (delta : Z) (d : Db) : result serr unit * Db :=
  let fits_row := match users d !! user with
                  | Some u => negb (bool_decide (UserTenant u = tenant)) ||
                              fits (StorageUsedBytes (billing u) + delta)
                  | None => true
                  end in
  if up && fits_row
  then (Ok tt, with_users (update_where (of_user user tenant)
                  (fun u => set_used (Z.max 0 (StorageUsedBytes (billing u) + delta)) u) (users d)) d)
  else (Err SqlFailed, d).

Definition stored_by (user tenant : UUID) (_ : UUID) (x : Stored) : bool :=
  bool_decide (StoredUser x = user) && bool_decide (StoredTenant x = tenant).

Definition GetUserStorage (up : bool) (user tenant : UUID) (d : Db) : result serr Z :=
  one_int up (sum_where (stored_by user tenant) StoredSize (messages d) +
              sum_where (stored_by user tenant) StoredSize (attachments d)).

Definition SetUserStorageBlocks (up : bool) (user : UUID) (blocks : Z) (d : Db) : result serr unit * Db :=
  if blocks <? 0 then (Err SqlRefused, d)
  else if up then (Ok tt, with_users (update_where (fun k _ => bool_decide (k = user)) (set_blocks blocks)
                             (users d)) d)
  else (Err SqlFailed, d).

Definition GetUserStorageBlocks (up : bool) (user : UUID) (d : Db) : result serr Z :=
  if up then of_option SqlNoRows ((fun u => StorageBlocks (billing u)) <$> users d !! user)
  else Err SqlFailed.

Definition SumTenantStorageBlocks (up : bool) (tenant : UUID) (d : Db) : result serr Z :=
  one_int up (sum_where (of_tenant tenant) (fun u => StorageBlocks (billing u)) (users d)).

(** A failed lookup falls back to the base. *)
Definition EffectiveStorageLimit (up : bool) (user : UUID) (accountType tier : string) (d : Db) : Z :=
  if String.eqb accountType "fakeid" then FakeIDStorageLimitBytes
  else if String.eqb tier "free" then FreeStorageBytes
  else match GetUserStorageBlocks up user d with
       | Err _ => PrimaryBaseStorageBytes
       | Ok blocks => int64 (PrimaryBaseStorageBytes + int64 (blocks * StorageBlockBytes))
       end.

Definition EffectiveStorageUsed (up : bool) (user tenant : UUID) (driveUsed : Z) (d : Db) : result serr Z :=
  mailUsed ← GetUserStorage up user tenant d; Ok (int64 (mailUsed + driveUsed)).

Definition GetTenantStorageLimit (up1 up2 : bool) (now : Z) (tenant : UUID) (d : Db) : result serr Z :=
  count ← CountTenantMailboxes up1 tenant d;
  extraBlocks ← one_int up2 (sum_where (active_addon now tenant) Blocks (storage_addons d));
  Ok (int64 (int64 (count * 15 * 1073741824) + int64 (extraBlocks * 10 * 1073741824))).

Definition GetTenantStorageUsed (up : bool) (tenant : UUID) (d : Db) : result serr Z :=
  one_int up (sum_where (of_tenant tenant) (fun u => StorageUsedBytes (billing u)) (users d)).

(** * Expired credits *)

Record ExpiredCreditCandidate := mkCandidate {
  CandidateUser : UUID;
  CandidateTenant : UUID;
  CandidateAddress : bytes;
  CandidateTier : string;
  LastCreditUntil : Z
}.

(** MAX(valid_until) over the credits of the tenant; no row without a credit. *)
Definition last_credit (tenant : UUID) (cs : gmap UUID BillingCredit) : option Z :=
  match map_to_list (select_where (fun _ c => bool_decide (CreditTenant c = tenant)) cs) with
  | [] => None
  | (_, c) :: l => Some (foldr (fun kc m => Z.max (ValidUntil kc.2) m) (ValidUntil c) l)
  end.

Definition subscribed (user : UUID) (subs : gmap UUID AppSubscription) : bool :=
  negb (bool_decide (affected (fun _ s => bool_decide (SubUser s = user) && String.eqb (SubStatus s) "active")
                       subs = 0%nat)).

(** The WHERE of both queries. *)
Definition unsubscribed (d : Db) (id : UUID) (u : User) : bool :=
  negb (String.eqb (Tier (life u)) "free") && String.eqb (AccountStatus (life u)) "active" &&
  String.eqb (AccountType u) "primary" && bool_decide (StripeSubscriptionID (billing u) = None) &&
  negb (subscribed id (apple_subscriptions d)) && negb (subscribed id (google_subscriptions d)).

Definition candidate (now : Z) (d : Db) (ku : UUID * User) : option ExpiredCreditCandidate :=
  last ← last_credit (UserTenant ku.2) (billing_credits d);
  if unsubscribed d ku.1 ku.2 && (last <? now)
  then Some (mkCandidate ku.1 (UserTenant ku.2) (Address ku.2) (Tier (life ku.2)) last) else None.

(** Bytes in order, as the database compares addresses in the C locale. *)
Fixpoint bytes_le (a b : bytes) : bool :=
  match a, b with
  | [], _ => true
  | _, [] => false
  | x :: a, y :: b =>
      let m := Byte.to_N x in let n := Byte.to_N y in
      (m <? n)%N || ((m =? n)%N && bytes_le a b)
  end.

Definition expired_first (a b : ExpiredCreditCandidate) : Prop :=
  LastCreditUntil a < LastCreditUntil b \/
  LastCreditUntil a = LastCreditUntil b /\ bytes_le (CandidateAddress a) (CandidateAddress b) = true.
#[export] Instance expired_first_dec : RelDecision expired_first.
Proof. intros a b. unfold expired_first. apply _. Defined.

Definition ListExpiredCreditCandidates (up : bool) (now : Z) (d : Db) :
    result serr (list ExpiredCreditCandidate) :=
  if up then Ok (merge_sort expired_first (omap (candidate now d) (map_to_list (users d)))) else Err SqlFailed.

Definition IsExpiredCreditCandidate (up : bool) (now : Z) (user : UUID) (d : Db) :
    result serr (option ExpiredCreditCandidate) :=
  if up then Ok (u ← users d !! user; candidate now d (user, u)) else Err SqlFailed.

(** * What things cost *)

Lemma sum_list_app {A : Type} (g : A -> Z) l l' : sum_list g (l ++ l') = sum_list g l + sum_list g l'.
Proof. unfold sum_list. induction l as [|x l IH]; cbn; [done|]. rewrite IH. lia. Qed.

Lemma sum_list_const {A : Type} (g : A -> Z) l c :
  (forall x, x ∈ l -> g x = c) -> sum_list g l = Z.of_nat (length l) * c.
Proof.
  unfold sum_list. induction l as [|x l IH]; intros H; cbn [foldr length]; [done|].
  rewrite IH, (H x) by set_solver. lia.
Qed.

Lemma sum_list_ext {A : Type} (g h : A -> Z) l :
  (forall x, x ∈ l -> g x = h x) -> sum_list g l = sum_list h l.
Proof.
  unfold sum_list. induction l as [|x l IH]; intros H; cbn; [done|]. by rewrite IH, (H x) by set_solver.
Qed.

#[export] Instance sum_list_perm {A : Type} (g : A -> Z) : Proper ((≡ₚ) ==> (=)) (sum_list g).
Proof. intros l l' H. unfold sum_list. induction H; cbn; lia. Qed.

(** The price of the [n]-th mailbox: that of the first bracket that reaches so
    far, of the last one beyond them all. *)
Fixpoint place_price (brs : list PricingBracket) (n : Z) : Z :=
  match brs with
  | [] => 0
  | b :: brs =>
      match brs with
      | [] => PriceCents b
      | _ => if n <=? MaxInBracket b then PriceCents b else place_price brs n
      end
  end.

(** Brackets follow each other without gaps, from [from] on. *)
Fixpoint tile (from top : Z) (brs : list PricingBracket) : Prop :=
  match brs with
  | [] => True
  | b :: brs => MinMailboxes b = from /\ from <= MaxInBracket b < 2 ^ 63 - 1 /\
                0 <= PriceCents b <= top /\ tile (MaxInBracket b + 1) top brs
  end.

Lemma sum_split f from n m :
  0 <= n -> 0 <= m ->
  sum_list f (seqZ from (n + m)) = sum_list f (seqZ from n) + sum_list f (seqZ (from + n) m).
Proof. intros Hn Hm. by rewrite seqZ_app, sum_list_app by done. Qed.

Lemma sum_const f from n c :
  0 <= n -> (forall i, from <= i < from + n -> f i = c) -> sum_list f (seqZ from n) = n * c.
Proof.
  intros Hn H. rewrite (sum_list_const _ _ c).
  - by rewrite length_seqZ, Z2Nat.id by lia.
  - intros i Hi. apply H. by apply elem_of_seqZ in Hi.
Qed.

(** One round of the loop, without its wrap-arounds. *)
Lemma bracket_round b brs from top r t :
  MinMailboxes b = from -> from <= MaxInBracket b < 2 ^ 63 - 1 -> 0 <= PriceCents b <= top ->
  1 <= from -> 0 < r < 2 ^ 63 -> 0 <= t -> t + r * top < 2 ^ 63 ->
  let n := Z.min (MaxInBracket b - from + 1) r in
  brackets_cost r t (b :: brs) = brackets_cost (r - n) (t + n * PriceCents b) brs /\
  0 < n <= r /\ 0 <= n * PriceCents b /\ n * PriceCents b + (r - n) * top <= r * top.
Proof.
  intros Hmin Hmax Hp Hfrom Hr Ht Hb n. cbn [brackets_cost]. rewrite Hmin.
  assert (0 < n <= r) as Hn by lia. assert (0 <= n * PriceCents b) as H0 by nia.
  assert (n * PriceCents b + (r - n) * top <= r * top) as H1 by nia.
  assert (0 <= (r - n) * top) as H2 by nia.
  destruct (Z.leb_spec r 0); [lia|]. rewrite (int64_small (MaxInBracket b - from + 1)) by lia.
  replace (if MaxInBracket b - from + 1 <? r then MaxInBracket b - from + 1 else r) with n
    by (destruct (Z.ltb_spec (MaxInBracket b - from + 1) r); lia).
  split; [|done]. rewrite (int64_small (n * PriceCents b)), !int64_small by lia. done.
Qed.

Lemma brackets_cost_spec brs from top r t b0 :
  tile from top brs -> last brs = Some b0 -> 1 <= from -> 0 <= r < 2 ^ 63 -> 0 <= t ->
  t + r * top < 2 ^ 63 ->
  let '(r', t') := brackets_cost r t brs in
  0 <= r' /\ 0 <= t' /\ t' + r' * PriceCents b0 = t + sum_list (place_price brs) (seqZ from r) /\
  0 <= PriceCents b0 <= top /\ t' + r' * top <= t + r * top.
Proof.
  revert from r t. induction brs as [|b brs IH]; intros from r t Htile Hl Hfrom Hr Ht Hb; [done|].
  cbn [tile] in Htile. destruct Htile as (Hmin & Hmax & Hp & Htile).
  assert (0 <= PriceCents b0 <= top) as Hp0.
  { clear -Hl Hp Htile. revert Htile. generalize (MaxInBracket b + 1). revert b Hl Hp.
    induction brs as [|c brs IH]; intros b Hl Hp z Ht; [by injection Hl as <-|].
    cbn [tile] in Ht. destruct Ht as (_ & _ & Hc & Ht). by eapply IH. }
  destruct (decide (r = 0)) as [->|Hr0].
  { cbn [brackets_cost Z.leb]. change (seqZ from 0) with (@nil Z). cbn [sum_list foldr]. split_and!; lia. }
  destruct (bracket_round b brs from top r t) as (-> & Hn & Hn0 & Hn1); [done..|lia|done|done|].
  set (n := Z.min (MaxInBracket b - from + 1) r) in *. assert (seqZ from r = seqZ from (n + (r - n))) as -> by (f_equal; lia).
  rewrite sum_split by lia. rewrite (sum_const (place_price (b :: brs)) from n (PriceCents b)).
  - destruct brs as [|c brs].
    + injection Hl as <-. cbn [brackets_cost]. rewrite (sum_const _ (from + n) (r - n) (PriceCents b)) by (done || lia).
      split_and!; nia.
    + specialize (IH (MaxInBracket b + 1) (r - n) (t + n * PriceCents b) Htile Hl).
      destruct (brackets_cost _ _ _) as [r' t']. destruct IH as (H1 & H2 & H3 & _ & H4); [lia..|].
      split_and!; try lia. rewrite H3. rewrite <-Z.add_assoc. f_equal. f_equal.
      destruct (decide (r - n = 0)) as [->|Hne]; [done|]. replace (from + n) with (MaxInBracket b + 1) by lia.
      apply sum_list_ext. intros i Hi. apply elem_of_seqZ in Hi. cbn [place_price].
      destruct (Z.leb_spec i (MaxInBracket b)); [lia|done].
  - lia.
  - intros i Hi. cbn [place_price]. destruct brs; [done|]. destruct (Z.leb_spec i (MaxInBracket b)); [done|lia].
Qed.

(** C38. The price of a tenant's mailboxes is the sum of the prices of their
    places: with brackets that follow each other from the first mailbox on,
    CalculateMailboxCost charges the n-th mailbox at the price of the bracket n
    falls in, and at the last bracket's beyond them all, with no wrap-around
    for any count whose price at the highest rate fits. *)
Theorem mailbox_cost_is_per_place brs top count :
  tile 1 top brs -> 0 <= count < 2 ^ 63 -> 0 <= top -> count * top < 2 ^ 63 ->
  CalculateMailboxCost count brs = sum_list (place_price brs) (seqZ 1 count).
Proof.
  intros Ht Hc Htop Hb. unfold CalculateMailboxCost. destruct (last brs) as [b0|] eqn:Hl.
  - pose proof (brackets_cost_spec brs 1 top count 0 b0 Ht Hl) as H.
    destruct (brackets_cost count 0 brs) as [r t]. destruct H as (Hr & Ht0 & Hs & Hp & Hx); [lia..|].
    assert (0 <= r * PriceCents b0 <= r * top) by nia.
    destruct (Z.ltb_spec 0 r).
    + rewrite (int64_small (r * PriceCents b0)), int64_small by lia. lia.
    + replace r with 0 in Hs by lia. lia.
  - apply last_None in Hl as ->. cbn. rewrite (sum_const _ 1 count 0) by (done || lia). lia.
Qed.

(** * Seats *)

Section rows.
Context `{Countable K} {R : Type}.
Implicit Types (P Q : K -> R -> bool) (f : R -> R) (g : R -> Z) (m : gmap K R) (n : R).

Lemma sum_where_insert P g m (k : K) n :
  m !! k = None -> sum_where P g (<[k := n]> m) = (if P k n then g n else 0) + sum_where P g m.
Proof.
  intros Hk. unfold sum_where, select_where. destruct (P k n) eqn:E.
  - rewrite map_filter_insert_True by done. rewrite map_to_list_insert; [done|].
    apply map_lookup_filter_None. by left.
  - rewrite map_filter_insert_not'; [done|cbn; by rewrite E|by rewrite Hk].
Qed.

Lemma sum_where_empty P g : sum_where P g ∅ = 0.
Proof. unfold sum_where, select_where. by rewrite map_filter_empty, map_to_list_empty. Qed.

Lemma affected_insert P m (k : K) n :
  m !! k = None -> affected P (<[k := n]> m) = ((if P k n then 1 else 0) + affected P m)%nat.
Proof.
  intros Hk. unfold affected, select_where. destruct (P k n) eqn:E.
  - rewrite map_filter_insert_True by done. rewrite map_size_insert_None; [done|].
    apply map_lookup_filter_None. by left.
  - rewrite map_filter_insert_not'; [done|cbn; by rewrite E|by rewrite Hk].
Qed.

Lemma update_where_insert P f m (k : K) n :
  update_where P f (<[k := n]> m) = <[k := if P k n then f n else n]> (update_where P f m).
Proof. unfold update_where. by rewrite (map_imap_insert_Some _ k n m (if P k n then f n else n)). Qed.

(** Setting a column to one value in some of the selected rows. *)
Lemma sum_where_set P Q f g m c :
  (forall k n, Q k n = true -> P k (f n) = P k n) -> (forall n, g (f n) = c) ->
  sum_where P g (update_where Q f m) =
  Z.of_nat (affected (fun k n => P k n && Q k n) m) * c + sum_where (fun k n => P k n && negb (Q k n)) g m.
Proof.
  intros HP Hg. induction m as [|k n m Hk IH] using map_ind.
  - unfold update_where. rewrite map_imap_empty, !sum_where_empty. unfold affected, select_where.
    by rewrite map_filter_empty, map_size_empty.
  - rewrite update_where_insert, !sum_where_insert, affected_insert, IH
      by (done || (rewrite lookup_update_where, Hk; done)).
    destruct (Q k n) eqn:Eq; cbn [negb].
    + rewrite (HP k n Eq), Hg, andb_true_r, andb_false_r. destruct (P k n); lia.
    + rewrite andb_true_r, andb_false_r. destruct (P k n); lia.
Qed.

End rows.

(** A change of seats sets every active paid credit of the tenant, and leaves
    the comps: the quota is the new number once for each of them, plus the
    comps'.  It is the number asked for when there is one and no comp. *)
Theorem seats_after_change now tenant q d :
  let active := active_credit now tenant in
  let total := Z.of_nat (affected (fun k c => active k c && paid c) (billing_credits d)) * q +
               sum_where (fun k c => active k c && negb (paid c)) MailboxQuota (billing_credits d) in
  fits total = true ->
  GetActiveMailboxQuota true now tenant (UpdateActiveMailboxQuota true now tenant q d).2 = Ok total.
Proof.
  intros active total Hf. unfold GetActiveMailboxQuota, UpdateActiveMailboxQuota, one_int. cbn [snd].
  cbn [billing_credits with_credits]. rewrite (sum_where_set _ _ _ _ _ q) by done.
  replace (_ + _) with total; [by unfold scan_int; rewrite Hf|]. unfold total, active. f_equal; [f_equal; f_equal|].
  - unfold affected, select_where. f_equal. apply map_filter_ext. intros k c _.
    cbn. destruct (active_credit now tenant k c), (paid c); done.
  - unfold sum_where, select_where. f_equal. f_equal. apply map_filter_ext. intros k c _.
    cbn. destruct (active_credit now tenant k c), (paid c); done.
Qed.

(** * Comps *)

Lemma insert_credit_ok up id c d d' :
  insert_credit up id c d = Ok d' <->
  up = true /\ billing_credits d !! id = None /\ d' = with_credits (<[id := c]> (billing_credits d)) d.
Proof.
  unfold insert_credit. destruct up; cbn [negb]; [|by split; [|intros [? _]]].
  destruct (billing_credits d !! id); [by split; [|intros (_ & ? & _)]|].
  split; [by intros [= <-]|by intros (_ & _ & ->)].
Qed.

(** Granting a free plan is all or nothing: it succeeds exactly when no
    statement fails and the credit's id is new; then the credit is there, paid
    by nobody and marked with who granted it and why, every other credit is as
    it was, and the user, if there is one, has the tier; otherwise it reports
    an error and nothing has changed.  That the user exists is not asked. *)
Theorem comp_all_or_nothing sha256 text ok now id tenant user by_ tier quota until reason d :
  let '(r, d') := AddCompCredit sha256 text ok now id tenant user by_ tier quota until reason d in
  let c := comp_credit sha256 text now id tenant by_ tier quota until reason in
  ((exists x, r = Ok x) <->
     ok "begin"%string = true /\ ok "credit"%string = true /\ ok "tier"%string = true /\
     ok "commit"%string = true /\ billing_credits d !! id = None) /\
  match r with
  | Err _ => d' = d
  | Ok x =>
      billing_credits d' = <[id := c]> (billing_credits d) /\ paid c = false /\ PriceCentsEach c = 0 /\
      x = stored_credit None None None c /\
      users d' !! user = on_life (set_tier tier) <$> users d !! user /\
      forall k, k <> user -> users d' !! k = users d !! k
  end.
Proof.
  unfold AddCompCredit. set (c := comp_credit _ _ _ _ _ _ _ _ _ _). cbv zeta.
  destruct (ok "begin"%string); cbn [negb]; [|split; [by split; [intros [? ?]|intros (? & _)]|done]].
  destruct (insert_credit (ok "credit"%string) id c d) as [d1|e] eqn:E.
  - apply insert_credit_ok in E as (Hc & Hid & ->).
    destruct (ok "tier"%string), (ok "commit"%string); cbn [andb];
      try (split; [by split; [intros [? ?]|intros (_ & _ & ? & ? & _)]|done]).
    split; [split; [done|by eexists]|]. split; [done|]. split; [done|]. split; [done|]. split; [done|].
    unfold set_user_tier. cbn [users with_users with_credits]. split.
    + rewrite lookup_update_where. destruct (users d !! user); cbn; [|done]. by rewrite bool_decide_eq_true_2.
    + intros k Hk. rewrite lookup_update_where. destruct (users d !! k); cbn; [|done].
      by rewrite bool_decide_eq_false_2.
  - split; [|done]. split; [by intros [? ?]|]. intros (_ & Hc & _ & _ & Hid). exfalso.
    unfold insert_credit in E. by rewrite Hc, Hid in E.
Qed.

(** * Storage limits *)

(** Storage limits: a Fake ID has one GiB and a free account 100 MiB
    whatever was bought; a paid account has 15 GiB and ten more for each block
    on record, without wrap-around up to 858 993 457 blocks; blocks are never
    set to a negative number, so no paid account falls below its base, also
    when the lookup fails. *)
Theorem storage_limit_bounds up user accountType tier blocks d :
  let d' := (SetUserStorageBlocks true user blocks d).2 in
  blocks <= 858993457 -> is_Some (users d !! user) ->
  (forall u, users d !! user = Some u -> 0 <= StorageBlocks (billing u) <= 858993457) ->
  let limit := EffectiveStorageLimit up user accountType tier d' in
  (accountType = "fakeid"%string -> limit = 2 ^ 30) /\
  (accountType <> "fakeid"%string -> tier = "free"%string -> limit = 100 * 2 ^ 20) /\
  (accountType <> "fakeid"%string -> tier <> "free"%string ->
     15 * 2 ^ 30 <= limit < 2 ^ 63 /\
     (up = false -> limit = 15 * 2 ^ 30) /\
     (up = true -> 0 <= blocks -> limit = (15 + 10 * blocks) * 2 ^ 30)).
Proof.
  intros d' Hb [u Hu] Hu0. specialize (Hu0 u Hu). cbv zeta. unfold EffectiveStorageLimit.
  assert (exists v, users d' !! user = Some v /\ 0 <= StorageBlocks (billing v) <= 858993457 /\
            (0 <= blocks -> StorageBlocks (billing v) = blocks)) as (v & Hv & Hv0 & Hvb).
  { subst d'. unfold SetUserStorageBlocks. destruct (Z.ltb_spec blocks 0); cbn [snd].
    - exists u. split_and!; [done|lia|lia|lia].
    - cbn [users with_users]. rewrite lookup_update_where, Hu. cbn. rewrite bool_decide_eq_true_2 by done.
      eexists. split; [done|]. cbn. lia. }
  split; [by intros ->|]. split.
  - intros Ha%String.eqb_neq ->. by rewrite Ha.
  - intros Ha%String.eqb_neq Ht%String.eqb_neq. rewrite Ha, Ht. unfold GetUserStorageBlocks.
    destruct up; [|split_and!; done]. rewrite Hv. cbn [fmap option_fmap option_map of_option].
    unfold PrimaryBaseStorageBytes, StorageBlockBytes.
    rewrite (int64_small (StorageBlocks (billing v) * _)), int64_small by lia.
    split_and!; [lia|lia|done|]. intros _ H0. rewrite (Hvb H0). lia.
Qed.

(** One block more and the limit is negative. *)
Lemma limit_wraps_around user tier u d :
  tier <> "free"%string -> users d !! user = Some u -> StorageBlocks (billing u) = 858993458 ->
  EffectiveStorageLimit true user "primary" tier d < 0.
Proof.
  intros Ht%String.eqb_neq Hu Hb. unfold EffectiveStorageLimit, GetUserStorageBlocks. cbn [String.eqb].
  rewrite Ht, Hu. cbn. rewrite Hb. by vm_compute.
Qed.

(** The usage of a tenant does not depend on its mail. *)
Theorem tenant_usage_ignores_mail up tenant ms ats d :
  GetTenantStorageUsed up tenant (with_mail ms ats d) = GetTenantStorageUsed up tenant d.
Proof. done. Qed.

(** * Expired credits *)

Lemma last_credit_spec tenant cs :
  match last_credit tenant cs with
  | Some z => (forall k c, cs !! k = Some c -> CreditTenant c = tenant -> ValidUntil c <= z) /\
              exists k c, cs !! k = Some c /\ CreditTenant c = tenant /\ ValidUntil c = z
  | None => forall k c, cs !! k = Some c -> CreditTenant c <> tenant
  end.
Proof.
  unfold last_credit. set (l := map_to_list _).
  assert (forall k c, (k, c) ∈ l <-> cs !! k = Some c /\ CreditTenant c = tenant) as Hl.
  { intros k c. unfold l. by rewrite elem_of_map_to_list, lookup_select_where, bool_decide_eq_true. }
  clearbody l. destruct l as [|[k c] l].
  { intros k c Hk Ht. assert ((k, c) ∈ @nil (UUID * BillingCredit)) as Hin by by apply Hl.
    by apply not_elem_of_nil in Hin. }
  assert (forall l z, (forall kc, kc ∈ l -> ValidUntil kc.2 <= foldr (fun kc m => Z.max (ValidUntil kc.2) m) z l) /\
            z <= foldr (fun (kc : UUID * BillingCredit) m => Z.max (ValidUntil kc.2) m) z l /\
            (foldr (fun kc m => Z.max (ValidUntil kc.2) m) z l = z \/
             exists kc, kc ∈ l /\ ValidUntil kc.2 = foldr (fun kc m => Z.max (ValidUntil kc.2) m) z l)) as Hf.
  { clear. induction l as [|x l IH]; intros z; cbn; [split_and!; [set_solver|lia|by left]|].
    destruct (IH z) as (H1 & H2 & H3). split_and!.
    - intros kc [->|H%H1]%elem_of_cons; lia.
    - lia.
    - destruct (Z.max_spec (ValidUntil x.2) (foldr (fun kc m => Z.max (ValidUntil kc.2) m) z l)) as [[_ E]|[_ E]];
        rewrite E.
      + destruct H3 as [H3|(kc & Hin & H3)]; [by left|right]. exists kc. split; [by right|done].
      + right. exists x. split; [by left|done]. }
  destruct (Hf l (ValidUntil c)) as (H1 & H2 & H3). split.
  - intros k' c' Hk' Ht'. assert ((k', c') ∈ (k, c) :: l) as Hin by (by apply Hl).
    apply elem_of_cons in Hin as [[= -> ->]|Hin]; [exact H2|by apply (H1 (k', c'))].
  - destruct H3 as [H3|([k' c'] & Hin & H3)].
    + exists k, c. assert ((k, c) ∈ (k, c) :: l) as [? ?]%Hl by by left. by rewrite H3.
    + exists k', c'. assert ((k', c') ∈ (k, c) :: l) as [? ?]%Hl by by right. done.
Qed.

Lemma candidate_user now d k u c : candidate now d (k, u) = Some c -> CandidateUser c = k.
Proof.
  unfold candidate. cbn [fst snd]. destruct (last_credit _ _); [|done]. cbn. destruct (_ && _); [|done].
  by intros [= <-].
Qed.

Lemma candidates_once now d (m : list (UUID * User)) :
  NoDup m.*1 -> NoDup (map CandidateUser (omap (candidate now d) m)).
Proof.
  induction m as [|[k u] m IH]; cbn; [constructor|]. intros [Hk Hm]%NoDup_cons.
  destruct (candidate now d (k, u)) as [c|] eqn:E; [|by apply IH].
  cbn. apply NoDup_cons. split; [|by apply IH]. rewrite (candidate_user _ _ _ _ _ E).
  intros (c' & -> & Hc')%list_elem_of_fmap. apply list_elem_of_omap in Hc' as ([k' u'] & Hc' & E').
  apply Hk. rewrite (candidate_user _ _ _ _ _ E'). apply list_elem_of_fmap. by exists (k', u').
Qed.

(** The recheck before a downgrade agrees with the list an administrator
    saw: as long as nothing has changed, exactly the users on the list pass
    it, with the same row, each of them once; every one of them is on a paid
    tier without a subscription, and every credit of the tenant has ended, the
    last one at the time given. *)
Theorem recheck_agrees_with_list now d l :
  ListExpiredCreditCandidates true now d = Ok l ->
  NoDup (map CandidateUser l) /\
  (forall c, c ∈ l <-> IsExpiredCreditCandidate true now (CandidateUser c) d = Ok (Some c)) /\
  forall c, c ∈ l -> exists u, users d !! CandidateUser c = Some u /\ unsubscribed d (CandidateUser c) u = true /\
    LastCreditUntil c < now /\
    (forall k x, billing_credits d !! k = Some x -> CreditTenant x = UserTenant u -> ValidUntil x <= LastCreditUntil c) /\
    exists k x, billing_credits d !! k = Some x /\ CreditTenant x = UserTenant u /\ ValidUntil x = LastCreditUntil c.
Proof.
  intros [= <-]. set (l := omap _ _).
  assert (forall c, c ∈ merge_sort expired_first l <-> exists k u, users d !! k = Some u /\ candidate now d (k, u) = Some c)
    as Hin.
  { intros c. rewrite merge_sort_Permutation. unfold l. rewrite list_elem_of_omap. split.
    - intros ([k u] & Hk & Hc). apply elem_of_map_to_list in Hk. by exists k, u.
    - intros (k & u & Hk & Hc). exists (k, u). by rewrite elem_of_map_to_list. }
  split; [|split].
  - rewrite merge_sort_Permutation. apply candidates_once, NoDup_fst_map_to_list.
  - intros c. rewrite Hin. unfold IsExpiredCreditCandidate. split.
    + intros (k & u & Hk & Hc). rewrite (candidate_user _ _ _ _ _ Hc), Hk. cbn. by rewrite Hc.
    + intros [= H]. destruct (users d !! CandidateUser c) as [u|] eqn:E; [|done]. cbn in H. by exists (CandidateUser c), u.
  - intros c (k & u & Hk & Hc)%Hin. rewrite (candidate_user _ _ _ _ _ Hc). exists u. split; [done|].
    unfold candidate in Hc. cbn [fst snd] in Hc. pose proof (last_credit_spec (UserTenant u) (billing_credits d)) as Hl.
    destruct (last_credit _ _) as [z|]; [|done]. cbn in Hc.
    destruct (unsubscribed d k u && (z <? now)) eqn:E; [|done]. injection Hc as <-. cbn.
    apply andb_true_iff in E as [? ?%Z.ltb_lt]. destruct Hl as [? ?]. by split_and!.
Qed.

(** Credits are those of the tenant, whoever holds them: one user's live credit
    keeps everybody of the tenant off the list, however long their own have
    been over. *)
Theorem expiry_is_the_tenants now d user u k c :
  users d !! user = Some u -> billing_credits d !! k = Some c -> CreditTenant c = UserTenant u ->
  now <= ValidUntil c ->
  IsExpiredCreditCandidate true now user d = Ok None.
Proof.
  intros Hu Hk Ht Hv. unfold IsExpiredCreditCandidate. rewrite Hu. cbn. unfold candidate. cbn [fst snd].
  pose proof (last_credit_spec (UserTenant u) (billing_credits d)) as Hl.
  destruct (last_credit _ _) as [z|]; [|done]. cbn. destruct Hl as [Hl _]. specialize (Hl k c Hk Ht).
  rewrite (proj2 (Z.ltb_ge z now)) by lia. by rewrite andb_false_r.
Qed.

(** * Examples *)

Definition tiers_of_three : list PricingBracket :=
  [mkBracket 1 5 300; mkBracket 6 20 200; mkBracket 21 100 100].

Lemma mailbox_cost_is_per_place_witness :
  CalculateMailboxCost 25 tiers_of_three = sum_list (place_price tiers_of_three) (seqZ 1 25) /\
  CalculateMailboxCost 25 tiers_of_three = 5000.
Proof.
  split; [|by vm_compute]. apply (mailbox_cost_is_per_place tiers_of_three 300 25); [|lia..].
  cbn. split_and!; lia.
Defined.

Definition mailbox_owner (blocks : Z) : User :=
  mkUser (bs "t") (bs "ann@t.org") "primary" (mkLife "active" "mail" 0 None None None)
    (mkBounces 0 None) (mkFake false None None false None None None)
    (mkKeys [] [] [] [] [] [] None None false None) (mkAuth [] [] [] 0 2) (mkBilling None None 0 blocks).

Definition billing_db : Db :=
  mkDb {[bs "ann" := mailbox_owner 0]}
    {[bs "c1" := mkCredit (bs "t") "mail" 1 0 100 [] 300 None None (Some (bs "ann"));
      bs "c2" := mkCredit (bs "t") "mail" 2 0 200 [] 0 (Some (bs "admin")) None None]}
    ∅ tiers_of_three ∅ ∅ ∅ ∅ ∅ ∅ ∅.

Lemma storage_limit_bounds_witness :
  EffectiveStorageLimit true (bs "ann") "primary" "mail" (SetUserStorageBlocks true (bs "ann") 3 billing_db).2
    = 45 * 2 ^ 30.
Proof.
  destruct (storage_limit_bounds true (bs "ann") "primary" "mail" 3 billing_db) as (_ & _ & H).
  - lia.
  - apply (bool_decide_unpack _). by vm_compute.
  - intros u Hu. assert (users billing_db !! bs "ann" = Some (mailbox_owner 0)) as E by by vm_compute.
    rewrite E in Hu. injection Hu as <-. cbn. lia.
  - destruct H as (_ & _ & H); [done|done|]. rewrite H by (done || lia). by vm_compute.
Defined.

Definition ann_expired : ExpiredCreditCandidate :=
  mkCandidate (bs "ann") (bs "t") (bs "ann@t.org") "mail" 200.

Lemma ann_listed : ListExpiredCreditCandidates true 201 billing_db = Ok [ann_expired].
Proof. by vm_compute. Qed.

Lemma recheck_agrees_with_list_witness :
  IsExpiredCreditCandidate true 201 (CandidateUser ann_expired) billing_db = Ok (Some ann_expired).
Proof.
  destruct (recheck_agrees_with_list 201 billing_db [ann_expired] ann_listed) as (_ & H & _).
  apply H. by left.
Defined.
