(* ===== verification/MailStore.v ===== *)
(** internal/storage/mail_store.go: the rows of stored mail.
    Shown: pruning an account takes its oldest messages, gives back what they
    took and ends; nobody's calls change another user's mail beyond filling in
    a missing thread, and a thread once known is kept; address lines are split
    into the addresses they were joined from; a draft is saved over any
    message. *)

From stdpp Require Import sorting.
From S2P Require Import Prelude GoStrings Sql Account.

#[local] Open Scope Z_scope.

(** * Rows *)

(** What UpdateDraftByTenant writes. *)
Record Body := mkBody {
  BlobRef : bytes;
  EncryptedSubject : bytes;
  EncryptedMessageKey : bytes;
  EphemeralPubkey : bytes;
  SizeBytes : Z;
  EncryptedHeaders : bytes
}.

(** What nothing writes after the INSERT. *)
Record Meta := mkMeta {
  HasAttachments : bool;
  MsgKeyEpoch : Z;
  EnclaveReceipt : bytes;
  InReplyTo : option bytes;
  References : option bytes;
  EncryptionType : string;
  Subject : option bytes;
  RFCMessageID : option bytes;
  RawBlobRef : option bytes;
  RawBlobFormat : bytes;
  EncryptedRawMeta : bytes;
  SenderBlindIndex : bytes;
  GroupID : option UUID
}.

Record Message := mkMessage {
  MsgUser : UUID;
  MsgTenant : UUID;
  MsgFolder : UUID;
  ReceivedAt : option Z;
  IsRead : bool;
  IsStarred : bool;
  ThreadID : option UUID;
  body : Body;
  meta : Meta
}.

Record Db := mkDb {
  users : gmap UUID User;
  messages : gmap UUID Message;
  message_labels : gset (UUID * UUID)
}.

Definition with_messages (ms : gmap UUID Message) (d : Db) : Db := mkDb (users d) ms (message_labels d).

Definition set_folder (f : UUID) (m : Message) : Message :=
  mkMessage (MsgUser m) (MsgTenant m) f (ReceivedAt m) (IsRead m) (IsStarred m) (ThreadID m) (body m) (meta m).
Definition set_read (b : bool) (m : Message) : Message :=
  mkMessage (MsgUser m) (MsgTenant m) (MsgFolder m) (ReceivedAt m) b (IsStarred m) (ThreadID m) (body m) (meta m).
Definition set_starred (b : bool) (m : Message) : Message :=
  mkMessage (MsgUser m) (MsgTenant m) (MsgFolder m) (ReceivedAt m) (IsRead m) b (ThreadID m) (body m) (meta m).
Definition set_thread (t : UUID) (m : Message) : Message :=
  mkMessage (MsgUser m) (MsgTenant m) (MsgFolder m) (ReceivedAt m) (IsRead m) (IsStarred m) (Some t)
    (body m) (meta m).
Definition set_body (b : Body) (m : Message) : Message :=
  mkMessage (MsgUser m) (MsgTenant m) (MsgFolder m) (ReceivedAt m) (IsRead m) (IsStarred m) (ThreadID m)
    b (meta m).

(** * Statements *)

Definition with_type (t : string) (x : Meta) : Meta :=
  mkMeta (HasAttachments x) (MsgKeyEpoch x) (EnclaveReceipt x) (InReplyTo x) (References x) t (Subject x)
    (RFCMessageID x) (RawBlobRef x) (RawBlobFormat x) (EncryptedRawMeta x) (SenderBlindIndex x) (GroupID x).

Definition InsertMessage (up : bool) (id : UUID) (m : Message) (d : Db) : result serr unit * Db :=
  let encType := if String.eqb (EncryptionType (meta m)) "" then "bmail"%string else EncryptionType (meta m) in
  let row := mkMessage (MsgUser m) (MsgTenant m) (MsgFolder m) (ReceivedAt m) (IsRead m) (IsStarred m)
               (ThreadID m) (body m) (with_type encType (meta m)) in
  if negb up then (Err SqlFailed, d)
  else match messages d !! id with
       | Some _ => (Err SqlUnique, d)
       | None => (Ok tt, with_messages (<[id := row]> (messages d)) d)
       end.

Definition StringPtr (s : bytes) : option bytes := match s with [] => None | _ => Some s end.
Definition DerefString (s : option bytes) : bytes := default [] s.

(** A user's messages in a tenant. *)
Definition mine (user tenant : UUID) (_ : UUID) (m : Message) : bool :=
  bool_decide (MsgUser m = user) && bool_decide (MsgTenant m = tenant).

Definition mine_of (user tenant : UUID) (ids : list UUID) (k : UUID) (m : Message) : bool :=
  mine user tenant k m && bool_decide (k ∈ ids).

Definition received_le (a b : option Z) : Prop :=
  match a, b with None, _ => True | Some _, None => False | Some x, Some y => x <= y end.

(** Ascending, NULL first; ascending, NULL last; descending, NULL first. *)
Definition oldest_first (a b : UUID * Message) : Prop := received_le (ReceivedAt a.2) (ReceivedAt b.2).
Definition thread_order (a b : UUID * Message) : Prop :=
  match ReceivedAt a.2, ReceivedAt b.2 with
  | _, None => True
  | None, Some _ => False
  | Some x, Some y => x <= y
  end.
Definition newest_first (a b : UUID * Message) : Prop :=
  match ReceivedAt a.2, ReceivedAt b.2 with
  | None, _ => True
  | Some _, None => False
  | Some x, Some y => y <= x
  end.

#[export] Instance oldest_first_dec : RelDecision oldest_first.
Proof. intros a b. unfold oldest_first, received_le. destruct (ReceivedAt a.2), (ReceivedAt b.2); apply _. Defined.
#[export] Instance thread_order_dec : RelDecision thread_order.
Proof. intros a b. unfold thread_order. destruct (ReceivedAt a.2), (ReceivedAt b.2); apply _. Defined.
#[export] Instance newest_first_dec : RelDecision newest_first.
Proof. intros a b. unfold newest_first. destruct (ReceivedAt a.2), (ReceivedAt b.2); apply _. Defined.

Definition ListMessages (up : bool) (user tenant folder : UUID) (limit offset : Z) (d : Db) :
    result serr (list (UUID * Message)) :=
  if up then page limit offset (merge_sort newest_first (map_to_list
          (select_where (fun k m => mine user tenant k m && bool_decide (MsgFolder m = folder)) (messages d))))
  else Err SqlFailed.

Definition ListMessagesByLabel (up : bool) (user tenant label : UUID) (limit offset : Z) (d : Db) :
    result serr (list (UUID * Message)) :=
  if up then page limit offset (merge_sort newest_first (map_to_list
          (select_where (fun k m => mine user tenant k m && bool_decide ((k, label) ∈ message_labels d))
             (messages d))))
  else Err SqlFailed.

Definition GetMessage (up : bool) (id user tenant : UUID) (d : Db) : result serr Message :=
  if negb up then Err SqlFailed
  else match messages d !! id with
       | Some m => if mine user tenant id m then Ok m else Err SqlNoRows
       | None => Err SqlNoRows
       end.

Definition GetMessagesByThread (up : bool) (user tenant thread : UUID) (d : Db) :
    result serr (list (UUID * Message)) :=
  if up then Ok (merge_sort thread_order (map_to_list
          (select_where (fun k m => mine user tenant k m && bool_decide (ThreadID m = Some thread)) (messages d))))
  else Err SqlFailed.

Definition copy_of (tenant : UUID) (rfc : bytes) (_ : UUID) (m : Message) : bool :=
  bool_decide (RFCMessageID (meta m) = Some rfc) && bool_decide (MsgTenant m = tenant).

(** None is not an error here. *)
Definition GetMessageByRFCMessageID (up : bool) (tenant : UUID) (rfc : bytes) (d : Db) :
    result serr (option (UUID * Message)) :=
  if up then Ok (head (map_to_list (select_where (copy_of tenant rfc) (messages d)))) else Err SqlFailed.

Definition HasMessageWithRFCMessageID (up : bool) (user : UUID) (rfc : bytes) (d : Db) : result serr bool :=
  if up then Ok (negb (bool_decide (affected (fun _ m => bool_decide (MsgUser m = user) &&
                        bool_decide (RFCMessageID (meta m) = Some rfc)) (messages d) = 0%nat)))
  else Err SqlFailed.

Definition set_where (up : bool) (P : UUID -> Message -> bool) (f : Message -> Message) (d : Db) :
    result serr unit * Db :=
  if up then (Ok tt, with_messages (update_where P f (messages d)) d) else (Err SqlFailed, d).

(** No row is an error. *)
Definition set_some (up : bool) (P : UUID -> Message -> bool) (f : Message -> Message) (d : Db) :
    result serr unit * Db :=
  if negb up then (Err SqlFailed, d)
  else if bool_decide (affected P (messages d) = 0%nat) then (Err SqlNoRows, d)
  else (Ok tt, with_messages (update_where P f (messages d)) d).

Definition UpdateThreadID (up : bool) (id tenant thread : UUID) : Db -> result serr unit * Db :=
  set_where up (fun k m => bool_decide (k = id) && bool_decide (MsgTenant m = tenant)) (set_thread thread).

Definition unthreaded (tenant : UUID) (rfc : bytes) (k : UUID) (m : Message) : bool :=
  copy_of tenant rfc k m && bool_decide (ThreadID m = None).

Definition UpdateThreadIDByRFCMessageID (up : bool) (rfc : bytes) (tenant thread : UUID) :
    Db -> result serr unit * Db := set_where up (unthreaded tenant rfc) (set_thread thread).

Definition MoveMessagesByTenant (up : bool) (user tenant : UUID) (ids : list UUID) (folder : UUID) :
    Db -> result serr unit * Db := set_some up (mine_of user tenant ids) (set_folder folder).

Definition MarkReadByTenant (up : bool) (user tenant : UUID) (ids : list UUID) (read : bool) :
    Db -> result serr unit * Db := set_some up (mine_of user tenant ids) (set_read read).

Definition MarkStarredByTenant (up : bool) (user tenant : UUID) (ids : list UUID) (starred : bool) :
    Db -> result serr unit * Db := set_some up (mine_of user tenant ids) (set_starred starred).

Definition DeleteMessagesByTenant (up : bool) (user tenant : UUID) (ids : list UUID) (d : Db) :
    result serr unit * Db :=
  if negb up then (Err SqlFailed, d)
  else if bool_decide (affected (mine_of user tenant ids) (messages d) = 0%nat) then (Err SqlNoRows, d)
  else (Ok tt, with_messages (delete_where (mine_of user tenant ids) (messages d)) d).

(** [headers] is nil to keep those of the row. *)
Definition UpdateDraftByTenant (up : bool) (id user tenant : UUID) (blob subject key eph : bytes)
    (headers : option bytes) (size : Z) : Db -> result serr unit * Db :=
  set_some up (fun k m => mine user tenant k m && bool_decide (k = id))
    (fun m => set_body (mkBody blob subject key eph size (default (EncryptedHeaders (body m)) headers)) m).

Definition CountUnread (up : bool) (user tenant folder : UUID) (d : Db) : result serr nat :=
  if up then Ok (affected (fun k m => mine user tenant k m && bool_decide (MsgFolder m = folder) &&
                             negb (IsRead m)) (messages d))
  else Err SqlFailed.

(** ** Pruning *)

Definition batch_of (batchSize : Z) : Z := if batchSize <=? 0 then 500 else batchSize.

Definition oldest (user tenant : UUID) (n : Z) (d : Db) : list (UUID * Message) :=
  take (Z.to_nat n) (merge_sort oldest_first (map_to_list (select_where (mine user tenant) (messages d)))).

Definition freed (l : list (UUID * Message)) : Z :=
  foldl (fun n km => int64 (n + SizeBytes (body km.2))) 0 l.

Definition give_back (user tenant : UUID) (n : Z) (us : gmap UUID User) : gmap UUID User :=
  update_where (fun k u => bool_decide (k = user) && bool_decide (UserTenant u = tenant))
    (fun u => mkUser (UserTenant u) (Address u) (AccountType u) (life u) (bounces u) (fake u) (keys u)
       (auth u) (mkBilling (StripeCustomerID (billing u)) (StripeSubscriptionID (billing u))
                   (Z.max 0 (StorageUsedBytes (billing u) - n)) (StorageBlocks (billing u)))) us.

Definition PruneOldestMessages (ok : string -> bool) (user tenant : UUID) (batchSize : Z) (d : Db) :
    result serr (Z * nat) * Db :=
  if negb (ok "begin"%string && ok "list"%string) then (Err SqlFailed, d)
  else
    match oldest user tenant (batch_of batchSize) d with
    | [] => if ok "commit"%string then (Ok (0, 0%nat), d) else (Err SqlFailed, d)
    | l =>
        if ok "delete"%string && ok "storage"%string && ok "commit"%string
        then (Ok (freed l, affected (mine_of user tenant l.*1) (messages d)),
              mkDb (give_back user tenant (freed l) (users d))
                (delete_where (mine_of user tenant l.*1) (messages d)) (message_labels d))
        else (Err SqlFailed, d)
    end.

(** ** Address lines *)

Definition is_blank (c : byte) : bool := bool_decide (c = " "%byte) || bool_decide (c = x09).

Fixpoint trim_left (s : bytes) : bytes :=
  match s with c :: s' => if is_blank c then trim_left s' else s | [] => [] end.

Definition trimSpace (s : bytes) : bytes := rev (trim_left (rev (trim_left s))).

(** The piece being read, and the pieces after it. *)
Fixpoint split_comma (s : bytes) : bytes * list bytes :=
  match s with
  | [] => ([], [])
  | c :: s =>
      let '(p, ps) := split_comma s in
      if bool_decide (c = ","%byte) then ([], p :: ps) else (c :: p, ps)
  end.

Definition bytesSplitComma (s : bytes) : list bytes :=
  let '(p, ps) := split_comma s in map trimSpace (p :: ps).

(** nil and the empty slice are one. *)
Definition splitAddressLine (value : bytes) : list bytes :=
  if bool_decide (value = []) then []
  else filter (fun p => p <> []) (bytesSplitComma value).

(** * Pruning takes the oldest *)

#[export] Instance oldest_first_total : Total oldest_first.
Proof. intros a b. unfold oldest_first, received_le. destruct (ReceivedAt a.2), (ReceivedAt b.2); try (by left); try (by right). lia. Qed.

#[export] Instance oldest_first_trans : Transitive oldest_first.
Proof.
  intros a b c. unfold oldest_first, received_le.
  destruct (ReceivedAt a.2), (ReceivedAt b.2), (ReceivedAt c.2); try done. lia.
Qed.

Lemma mine_spec user tenant k m : mine user tenant k m = true <-> MsgUser m = user /\ MsgTenant m = tenant.
Proof. unfold mine. by rewrite andb_true_iff, !bool_decide_eq_true. Qed.

(** The messages of a user, oldest first. *)
Definition in_order (user tenant : UUID) (d : Db) : list (UUID * Message) :=
  merge_sort oldest_first (map_to_list (select_where (mine user tenant) (messages d))).

Lemma in_order_in user tenant d k m :
  (k, m) ∈ in_order user tenant d <-> messages d !! k = Some m /\ mine user tenant k m = true.
Proof.
  unfold in_order. rewrite merge_sort_Permutation. by rewrite elem_of_map_to_list, lookup_select_where.
Qed.

Lemma in_order_keys user tenant d : NoDup (in_order user tenant d).*1.
Proof. unfold in_order. rewrite merge_sort_Permutation. apply NoDup_fst_map_to_list. Qed.

Lemma in_order_length user tenant d : length (in_order user tenant d) = affected (mine user tenant) (messages d).
Proof. unfold in_order. rewrite merge_sort_Permutation. apply length_map_to_list. Qed.

(** What a batch takes comes before what it leaves. *)
Lemma batch_before user tenant d n x y :
  x ∈ take n (in_order user tenant d) -> y ∈ drop n (in_order user tenant d) -> oldest_first x y.
Proof.
  pose proof (StronglySorted_merge_sort oldest_first (map_to_list (select_where (mine user tenant) (messages d)))) as Hs.
  fold (in_order user tenant d) in Hs. rewrite <-(take_drop n (in_order user tenant d)) in Hs.
  intros Hx Hy. by eapply StronglySorted_app_1_elem_of.
Qed.

Lemma selected_count `{Countable K} {R : Type} (P : K -> R -> bool) (m : gmap K R) (l : list (K * R)) :
  NoDup l.*1 -> (forall kr, kr ∈ l -> m !! kr.1 = Some kr.2) ->
  (forall k r, m !! k = Some r -> P k r = bool_decide (k ∈ l.*1)) -> affected P m = length l.
Proof.
  intros Hnd Hin HP. unfold affected.
  replace (select_where P m) with (list_to_map l : gmap K R).
  - rewrite <-length_map_to_list. by rewrite map_to_list_to_map.
  - apply map_eq. intros k. apply option_eq. intros r. rewrite lookup_select_where, <-elem_of_list_to_map by done.
    split.
    + intros Hkr. pose proof (Hin _ Hkr) as Hk. cbn in Hk. split; [done|]. rewrite (HP k r Hk).
      apply bool_decide_eq_true. apply list_elem_of_fmap. by exists (k, r).
    + intros [Hk Hp]. rewrite (HP k r Hk), bool_decide_eq_true in Hp.
      apply list_elem_of_fmap in Hp as ([k' r'] & -> & Hl). cbn. pose proof (Hin _ Hl) as Hk'. cbn in Hk, Hk'. by simplify_eq.
Qed.

Section batch.
Context (user tenant : UUID) (d : Db) (n : nat).
Let gone := take n (in_order user tenant d).
Let left := drop n (in_order user tenant d).

Lemma gone_in k m : (k, m) ∈ gone -> messages d !! k = Some m /\ mine user tenant k m = true.
Proof. intros H. apply in_order_in. rewrite <-(take_drop n (in_order user tenant d)), elem_of_app. by left. Qed.

Lemma split_keys : NoDup (gone.*1 ++ left.*1).
Proof. rewrite <-fmap_app. unfold gone, left. rewrite take_drop. apply in_order_keys. Qed.

Lemma gone_mine k m : messages d !! k = Some m -> mine_of user tenant gone.*1 k m = bool_decide (k ∈ gone.*1).
Proof.
  intros Hm. unfold mine_of. case_bool_decide as Hk; [|by rewrite andb_false_r].
  apply list_elem_of_fmap in Hk as ([k' m'] & -> & Hk). apply gone_in in Hk as [Hm' Hmine].
  cbn in *. rewrite Hm' in Hm. injection Hm as <-. by rewrite Hmine.
Qed.

Lemma gone_count : affected (mine_of user tenant gone.*1) (messages d) = length gone.
Proof.
  apply selected_count.
  - apply (NoDup_app gone.*1 left.*1), split_keys.
  - intros [k m] H. by apply gone_in.
  - intros k m. apply gone_mine.
Qed.

Lemma gone_lookup k :
  delete_where (mine_of user tenant gone.*1) (messages d) !! k =
  if bool_decide (k ∈ gone.*1) then None else messages d !! k.
Proof.
  apply option_eq. intros m. rewrite lookup_delete_where. split.
  - intros [Hm Hf]. rewrite (gone_mine k m Hm) in Hf. by rewrite Hf.
  - case_bool_decide as Hk; [done|]. intros Hm. split; [done|]. rewrite (gone_mine k m Hm).
    by apply bool_decide_eq_false.
Qed.

Lemma left_in k m :
  (k, m) ∈ left <-> delete_where (mine_of user tenant gone.*1) (messages d) !! k = Some m /\
                    mine user tenant k m = true.
Proof.
  rewrite gone_lookup. pose proof (in_order_in user tenant d k m) as Hin.
  rewrite <-(take_drop n (in_order user tenant d)), elem_of_app in Hin. fold gone left in Hin.
  pose proof split_keys as (_ & Hd & _)%NoDup_app. split.
  - intros Hl. rewrite bool_decide_eq_false_2; [by apply Hin; right|]. intros Hk. apply (Hd k Hk).
    apply list_elem_of_fmap. by exists (k, m).
  - case_bool_decide as Hk; [by intros [? _]|]. intros [Hg|Hl]%Hin; [|done]. destruct Hk.
    apply list_elem_of_fmap. by exists (k, m).
Qed.

Lemma left_count :
  affected (mine user tenant) (delete_where (mine_of user tenant gone.*1) (messages d)) = length left.
Proof.
  apply selected_count.
  - apply (NoDup_app gone.*1 left.*1), split_keys.
  - intros [k m] H. by apply left_in in H as [? _].
  - intros k m Hm. apply eq_true_iff_eq. rewrite bool_decide_eq_true. split.
    + intros Hmine. apply list_elem_of_fmap. exists (k, m). split; [done|]. by apply left_in.
    + intros ([k' m'] & -> & Hl)%list_elem_of_fmap. apply left_in in Hl as [Hm' Hmine].
      cbn in Hm. rewrite Hm in Hm'. by injection Hm' as <-.
Qed.

End batch.

Lemma give_back_used user tenant n us k u :
  us !! k = Some u -> exists u', give_back user tenant n us !! k = Some u' /\
    StorageUsedBytes (billing u') =
      if decide (k = user /\ UserTenant u = tenant) then Z.max 0 (StorageUsedBytes (billing u) - n)
      else StorageUsedBytes (billing u).
Proof.
  intros Hu. unfold give_back. rewrite lookup_update_where, Hu. cbn. eexists. split; [done|].
  destruct (decide (k = user /\ UserTenant u = tenant)) as [[-> ->]|Hn]; [by rewrite !bool_decide_eq_true_2|].
  destruct (bool_decide (k = user) && bool_decide (UserTenant u = tenant)) eqn:E; [|done].
  destruct Hn. by rewrite andb_true_iff, !bool_decide_eq_true in E.
Qed.

(** C39. Pruning takes the oldest and nothing else: if any statement fails it
    reports an error and nothing has changed; otherwise it has deleted the
    account's oldest messages, a batch of them or all there are, each at least
    as old as any the account still has, no other message is touched, it
    returns how many they were and what they took (in 64 bits), and the
    account's counter of used storage has gone down by that, not below zero. *)
Theorem prune_takes_the_oldest ok user tenant batchSize d :
  let n := Z.to_nat (batch_of batchSize) in
  let gone := take n (in_order user tenant d) in
  let '(r, d') := PruneOldestMessages ok user tenant batchSize d in
  match r with
  | Err _ => d' = d
  | Ok (bytesFreed, deleted) =>
      deleted = Nat.min n (affected (mine user tenant) (messages d)) /\
      (affected (mine user tenant) (messages d') = affected (mine user tenant) (messages d) - deleted)%nat /\
      (forall k, messages d' !! k = if bool_decide (k ∈ gone.*1) then None else messages d !! k) /\
      (forall k m k' m', (k, m) ∈ gone -> messages d' !! k' = Some m' -> mine user tenant k' m' = true ->
         received_le (ReceivedAt m) (ReceivedAt m')) /\
      bytesFreed = freed gone /\
      (deleted <> 0%nat -> forall k u, users d !! k = Some u -> exists u', users d' !! k = Some u' /\
         StorageUsedBytes (billing u') =
           if decide (k = user /\ UserTenant u = tenant) then Z.max 0 (StorageUsedBytes (billing u) - bytesFreed)
           else StorageUsedBytes (billing u)) /\
      (deleted = 0%nat -> d' = d)
  end.
Proof.
  intros n gone. assert (0 < n)%nat as Hn by (unfold n, batch_of; destruct (Z.leb_spec batchSize 0); lia).
  pose proof (in_order_length user tenant d) as Hlen.
  unfold PruneOldestMessages. destruct (ok "begin"%string && ok "list"%string); [|done]. cbn [negb].
  change (oldest user tenant (batch_of batchSize) d) with gone. destruct gone as [|x l] eqn:Eg.
  - assert (in_order user tenant d = []) as E0.
    { unfold gone in Eg. destruct (in_order user tenant d); [done|]. by destruct n; [lia|]. }
    rewrite E0 in Hlen. cbn in Hlen. destruct (ok "commit"%string); [|done].
    rewrite <-Hlen. split_and!; try done; [lia|]. intros k m k' m' H. by apply not_elem_of_nil in H.
  - rewrite <-Eg. destruct (_ && ok "commit"%string); [|done]. cbn [messages users].
    assert (affected (mine_of user tenant gone.*1) (messages d) =
            Nat.min n (affected (mine user tenant) (messages d))) as ->
      by (unfold gone; by rewrite gone_count, length_take, Hlen).
    split; [done|]. split; [unfold gone; rewrite left_count, length_drop, Hlen; lia|].
    split; [intros k; apply gone_lookup|].
    split; [|split; [done|split; [intros _ k u; apply give_back_used|]]].
    + intros k m k' m' Hk Hk' Hm'. eapply (batch_before user tenant d n (k, m) (k', m')); [exact Hk|].
      by apply left_in.
    + intros H0. rewrite <-Hlen in H0. unfold gone in Eg. destruct (in_order user tenant d); [by rewrite take_nil in Eg|].
      cbn in H0. lia.
Qed.

(** * Whose calls change a message *)

Inductive mop :=
| MInsert (up : bool) (id : UUID) (m : Message)
| MThread (up : bool) (id tenant thread : UUID)
| MThreadRFC (up : bool) (rfc : bytes) (tenant thread : UUID)
| MMove (up : bool) (user tenant : UUID) (ids : list UUID) (folder : UUID)
| MPrune (ok : string -> bool) (user tenant : UUID) (batchSize : Z)
| MDelete (up : bool) (user tenant : UUID) (ids : list UUID)
| MRead (up : bool) (user tenant : UUID) (ids : list UUID) (read : bool)
| MStar (up : bool) (user tenant : UUID) (ids : list UUID) (starred : bool)
| MDraft (up : bool) (id user tenant : UUID) (blob subject key eph : bytes) (headers : option bytes) (size : Z).

Definition mapply (o : mop) (d : Db) : Db :=
  match o with
  | MInsert up id m => (InsertMessage up id m d).2
  | MThread up id t th => (UpdateThreadID up id t th d).2
  | MThreadRFC up rfc t th => (UpdateThreadIDByRFCMessageID up rfc t th d).2
  | MMove up u t ids f => (MoveMessagesByTenant up u t ids f d).2
  | MPrune ok u t b => (PruneOldestMessages ok u t b d).2
  | MDelete up u t ids => (DeleteMessagesByTenant up u t ids d).2
  | MRead up u t ids b => (MarkReadByTenant up u t ids b d).2
  | MStar up u t ids b => (MarkStarredByTenant up u t ids b d).2
  | MDraft up id u t b s k e h z => (UpdateDraftByTenant up id u t b s k e h z d).2
  end.

Definition mrun (os : list mop) (d : Db) : Db := foldl (fun d o => mapply o d) d os.

(** Whom the call is made for. *)
Definition actor (o : mop) : option (UUID * UUID) :=
  match o with
  | MInsert _ _ _ | MThread _ _ _ _ | MThreadRFC _ _ _ _ => None
  | MMove _ u t _ _ | MPrune _ u t _ | MDelete _ u t _ | MRead _ u t _ _ | MStar _ u t _ _
  | MDraft _ _ u t _ _ _ _ _ _ => Some (u, t)
  end.

Definition threads (id : UUID) (o : mop) : bool :=
  match o with MThread _ k _ _ => bool_decide (k = id) | _ => false end.

(** The same message, but for a thread that was missing. *)
Definition same_mail (m m' : Message) : Prop :=
  exists t, m' = mkMessage (MsgUser m) (MsgTenant m) (MsgFolder m) (ReceivedAt m) (IsRead m) (IsStarred m)
                   t (body m) (meta m) /\ (ThreadID m <> None -> t = ThreadID m).

#[export] Instance same_mail_refl : Reflexive same_mail.
Proof. intros m. exists (ThreadID m). by destruct m. Qed.

#[export] Instance same_mail_trans : Transitive same_mail.
Proof.
  intros a b c (t & -> & Ht) (t' & -> & Ht'). cbn in *. exists t'. split; [done|]. intros H. rewrite Ht'; [by apply Ht|].
  by rewrite (Ht H).
Qed.

Lemma updated_other P f d k m :
  messages d !! k = Some m -> P k m = false -> messages (with_messages (update_where P f (messages d)) d) !! k = Some m.
Proof. intros Hm HP. cbn. rewrite lookup_update_where, Hm. cbn. by rewrite HP. Qed.

Lemma set_some_other up P f d k m :
  messages d !! k = Some m -> P k m = false -> messages (set_some up P f d).2 !! k = Some m.
Proof.
  intros Hm HP. unfold set_some. destruct up; [|done]. cbn [negb].
  case_bool_decide; [done|]. by apply updated_other.
Qed.

Lemma deleted_other P d k m :
  messages d !! k = Some m -> P k m = false -> messages (with_messages (delete_where P (messages d)) d) !! k = Some m.
Proof. intros Hm HP. by apply lookup_delete_where. Qed.

Lemma not_mine u t ids k m : (u, t) <> (MsgUser m, MsgTenant m) -> mine u t k m = false /\ mine_of u t ids k m = false.
Proof.
  intros Hn. assert (mine u t k m = false) as H.
  { apply not_true_is_false. intros [E1 E2]%mine_spec. apply Hn. by rewrite E1, E2. }
  split; [done|]. unfold mine_of. by rewrite H.
Qed.

Lemma mapply_other o d k m :
  messages d !! k = Some m -> actor o <> Some (MsgUser m, MsgTenant m) -> threads k o = false ->
  exists m', messages (mapply o d) !! k = Some m' /\ same_mail m m'.
Proof.
  intros Hm Ha Ht.
  assert (forall d', messages d' !! k = Some m -> exists m', messages d' !! k = Some m' /\ same_mail m m') as Hd
    by (intros d' H; by exists m).
  assert (forall u t ids, Some (u, t) <> Some (MsgUser m, MsgTenant m) -> mine_of u t ids k m = false) as Hof
    by (intros u t ids Hn; apply not_mine; congruence).
  destruct o as [up id x|up id t th|up rfc t th|up u t ids f|ok u t b|up u t ids|up u t ids b|up u t ids b
    |up id u t b s ky e h z]; cbn [mapply actor threads] in *.
  - apply Hd. unfold InsertMessage. destruct up; [|done]. cbn [negb].
    destruct (messages d !! id) eqn:E; [done|]. cbn. rewrite lookup_insert_ne; [done|congruence].
  - apply Hd. unfold UpdateThreadID, set_where. destruct up; [|done]. apply updated_other; [done|].
    apply bool_decide_eq_false in Ht. by rewrite bool_decide_eq_false_2.
  - unfold UpdateThreadIDByRFCMessageID, set_where. destruct up; [|by apply Hd]. cbn.
    rewrite lookup_update_where, Hm. cbn. destruct (unthreaded t rfc k m) eqn:E; [|by exists m].
    exists (set_thread th m). split; [done|]. exists (Some th). split; [done|]. intros Hn.
    apply andb_true_iff in E as [_ E]. by apply bool_decide_eq_true in E.
  - apply Hd, set_some_other; [done|]. by apply Hof.
  - apply Hd. unfold PruneOldestMessages. destruct (_ && _); [|done]. cbn [negb].
    destruct (oldest u t (batch_of b) d) as [|x l]; [by destruct (ok "commit"%string)|].
    destruct (_ && _); [|done]. cbn. apply lookup_delete_where. split; [done|]. by apply Hof.
  - apply Hd. unfold DeleteMessagesByTenant. destruct up; [|done]. cbn [negb].
    case_bool_decide; [done|]. apply deleted_other; [done|]. by apply Hof.
  - apply Hd, set_some_other; [done|]. by apply Hof.
  - apply Hd, set_some_other; [done|]. by apply Hof.
  - apply Hd, set_some_other; [done|]. destruct (not_mine u t [] k m) as [-> _]; [congruence|done].
Qed.

(** C40. A mailbox is its owner's: through any calls, failing or not, that are
    made for other users or the same user in another tenant, a message stays
    where it is, as it is, except that a missing thread may be filled in;
    a thread already known stays, unless UpdateThreadID names the message. *)
Theorem others_do_not_touch_mail os k m d :
  messages d !! k = Some m ->
  Forall (fun o => actor o <> Some (MsgUser m, MsgTenant m) /\ threads k o = false) os ->
  exists m', messages (mrun os d) !! k = Some m' /\ same_mail m m'.
Proof.
  intros Hm Ho. assert (forall os d m1, messages d !! k = Some m1 -> same_mail m m1 ->
    Forall (fun o => actor o <> Some (MsgUser m, MsgTenant m) /\ threads k o = false) os ->
    exists m', messages (mrun os d) !! k = Some m' /\ same_mail m m') as H.
  { clear. induction os as [|o os IH]; intros d m1 Hm1 Hs Ho; cbn; [by exists m1|].
    apply Forall_cons in Ho as [[Ha Ht] Ho]. destruct Hs as (t & -> & Hs).
    destruct (mapply_other o d k _ Hm1 Ha Ht) as (m2 & Hm2 & Hs2). apply (IH _ m2); [done| |done].
    etransitivity; [|exact Hs2]. by exists t. }
  by apply (H os d m).
Qed.

(** A draft is saved over any message of the user, received ones included. *)
Theorem draft_overwrites_received_mail id m blob subject key eph size d :
  messages d !! id = Some m ->
  UpdateDraftByTenant true id (MsgUser m) (MsgTenant m) blob subject key eph None size d =
  (Ok tt, with_messages (<[id := set_body (mkBody blob subject key eph size (EncryptedHeaders (body m))) m]>
                           (messages d)) d).
Proof.
  intros Hm. unfold UpdateDraftByTenant, set_some. cbn [negb]. rewrite bool_decide_eq_false_2.
  - f_equal. f_equal. apply map_eq. intros k. rewrite lookup_update_where.
    destruct (decide (k = id)) as [->|Hne].
    + rewrite lookup_insert_eq, Hm. cbn. rewrite (proj2 (mine_spec _ _ _ m)) by done.
      by rewrite bool_decide_eq_true_2.
    + rewrite lookup_insert_ne by done. destruct (messages d !! k); [|done]. cbn.
      by rewrite bool_decide_eq_false_2, andb_false_r.
  - rewrite affected_zero. intros H. specialize (H id m Hm).
    by rewrite (proj2 (mine_spec _ _ _ m)), bool_decide_eq_true_2 in H.
Qed.

(** * Address lines *)

(** An address as it stands in a line: no comma, no blank at either end. *)
Definition plain_address (a : bytes) : Prop :=
  (","%byte ∉ a) /\ (exists c s, a = c :: s /\ is_blank c = false) /\
  (exists s c, a = s ++ [c] /\ is_blank c = false).

Fixpoint join (sep : bytes) (l : list bytes) : bytes :=
  match l with
  | [] => []
  | x :: l => match l with [] => x | _ => x ++ sep ++ join sep l end
  end.

Lemma split_app a s : ","%byte ∉ a -> split_comma (a ++ s) = (a ++ (split_comma s).1, (split_comma s).2).
Proof.
  induction a as [|c a IH]; cbn; intros Ha; [by destruct (split_comma s)|].
  apply not_elem_of_cons in Ha as [Hc Ha]. rewrite IH by done.
  by rewrite bool_decide_eq_false_2.
Qed.

Lemma trim_left_blanks n a :
  (exists c s, a = c :: s /\ is_blank c = false) -> trim_left (replicate n " "%byte ++ a) = a.
Proof. intros (c & s & -> & Hc). induction n as [|n IH]; cbn; [by rewrite Hc|done]. Qed.

Lemma trim_plain n a : plain_address a -> trimSpace (replicate n " "%byte ++ a) = a.
Proof.
  intros (_ & Hl & (s & c & E & Hc)). unfold trimSpace. rewrite trim_left_blanks by done.
  pose proof (trim_left_blanks 0 (rev a)) as H. cbn in H. rewrite H; [apply rev_involutive|].
  rewrite E, rev_app_distr. cbn. by exists c, (rev s).
Qed.

Lemma split_join n k x l :
  Forall plain_address (x :: l) ->
  bytesSplitComma (replicate k " "%byte ++ join (","%byte :: replicate n " "%byte) (x :: l)) = x :: l.
Proof.
  revert k x. induction l as [|y l IH]; intros k x [Hx Hl]%Forall_cons; pose proof Hx as (Hc & _).
  - cbn [join]. unfold bytesSplitComma.
    assert (","%byte ∉ replicate k " "%byte ++ x) as Hc'
      by (rewrite elem_of_app; intros [[? _]%elem_of_replicate|?]; done).
    pose proof (split_app _ [] Hc') as E. rewrite app_nil_r in E. rewrite E. cbn. rewrite app_nil_r.
    by rewrite trim_plain.
  - change (join _ (x :: y :: l)) with (x ++ (","%byte :: replicate n " "%byte) ++ join (","%byte :: replicate n " "%byte) (y :: l)).
    unfold bytesSplitComma. rewrite app_assoc.
    assert (","%byte ∉ replicate k " "%byte ++ x) as Hc'
      by (rewrite elem_of_app; intros [[? _]%elem_of_replicate|?]; done).
    rewrite (split_app _ _ Hc'). cbn [app split_comma].
    specialize (IH n y Hl). unfold bytesSplitComma in IH.
    destruct (split_comma (replicate n " "%byte ++ join _ (y :: l))) as [q qs].
    rewrite bool_decide_eq_true_2 by done. cbn [fst snd map] in *. rewrite app_nil_r, trim_plain by done.
    by rewrite IH.
Qed.

(** Addresses joined by a comma and any number of blanks are split back
    into the same addresses. *)
Theorem address_line_roundtrip n l :
  Forall plain_address l -> splitAddressLine (join (","%byte :: replicate n " "%byte) l) = l.
Proof.
  intros Hl. assert (Forall (fun p => p <> []) l) as Hne.
  { eapply Forall_impl; [exact Hl|]. by intros a (_ & (c & s & -> & _) & _). }
  unfold splitAddressLine. destruct l as [|x l]; [done|].
  rewrite bool_decide_eq_false_2.
  - pose proof (split_join n 0 x l Hl) as E. cbn [replicate app] in E. rewrite E.
    revert Hne. generalize (x :: l). clear. intros m Hne. induction Hne as [|a m Ha _ IH]; [done|].
    by rewrite filter_cons_True, IH.
  - apply Forall_cons in Hne as [Hx _]. cbn. destruct x; [done|]. by destruct l.
Qed.

(** * Examples *)

Definition a_body (size : Z) : Body := mkBody (bs "blob") [] [] [] size [].
Definition a_meta : Meta := mkMeta false 0 [] None None "" None (Some (bs "<1@x>")) None [] [] [] None.
Definition a_message (user : string) (at_ size : Z) : Message :=
  mkMessage (bs user) (bs "t") (bs "inbox") (Some at_) false false None (a_body size) a_meta.

Definition two_mailboxes : Db :=
  mkDb ∅ {[bs "m1" := a_message "ann" 5 10; bs "m2" := a_message "ann" 3 20; bs "m3" := a_message "bob" 1 30]} ∅.

Example oldest_of_ann :
  (PruneOldestMessages (fun _ => true) (bs "ann") (bs "t") 1 two_mailboxes).1 = Ok (20, 1%nat).
Proof. by vm_compute. Qed.

Lemma others_do_not_touch_mail_witness :
  exists m', messages (mrun [MPrune (fun _ => true) (bs "ann") (bs "t") 0;
                             MThreadRFC true (bs "<1@x>") (bs "t") (bs "th")] two_mailboxes) !! bs "m3" = Some m' /\
             same_mail (a_message "bob" 1 30) m'.
Proof.
  apply (others_do_not_touch_mail _ (bs "m3") (a_message "bob" 1 30)).
  - by vm_compute.
  - repeat constructor; by vm_compute.
Defined.

Lemma address_line_roundtrip_witness :
  splitAddressLine (join (bs ", ") [bs "ann@x.org"; bs "Bob B <bob@y.org>"]) =
    [bs "ann@x.org"; bs "Bob B <bob@y.org>"].
Proof.
  apply (address_line_roundtrip 1). apply Forall_cons; split; [|apply Forall_singleton]; (split; [|split]).
  - apply (bool_decide_unpack _). by vm_compute.
  - by eexists _, _.
  - by exists (bs "ann@x.or"), "g"%byte.
  - apply (bool_decide_unpack _). by vm_compute.
  - by eexists _, _.
  - by exists (bs "Bob B <bob@y.org"), ">"%byte.
Defined.
