(* ===== verification/Sanitizer.v ===== *)
(** internal/gateway: the request sanitizer (sanitizer.go) and the redaction of
    addresses in logs (redact.go), with net/http's cookies as the sanitizer
    reads and writes them.  Shown: a handler behind the sanitizer sees allowed
    headers only, and of the cookies the client sent exactly the program's own,
    in order and with their values; a redacted address tells its domain only. *)

From S2P Require Import Prelude GoNet FilePath GatewayRouter.

(** * Cookies *)

(** [http.Cookie], as a request carries it. *)
Record cookie := { CName : bytes; CValue : bytes; Quoted : bool }.

(** [parseCookieValue(raw, true)] with its second result. *)
Definition parseQuoted (raw : bytes) : option (bytes * bool) :=
  let '(raw, quoted) := match raw with
             | x22 :: (_ :: _) as body =>
                 if bool_decide (last body = Some x22) then (removelast body, true)
                 else (raw, false)
             | _ => (raw, false)
             end in
  if forallb cookie_value_byte raw then Some (raw, quoted) else None.

Definition read_cookie (part : bytes) : option cookie :=
  let part := TrimString part in
  if bool_decide (part = []) then None
  else
    let '(name, val) := cut_byte "=" part in
    let name := TrimString name in
    if isCookieNameValid name then
      '(v, q) ← parseQuoted val; Some {| CName := name; CValue := v; Quoted := q |}
    else None.

Definition read_line (line : bytes) : list cookie :=
  omap read_cookie (split_byte ";" (TrimString line)).

(** [r.Cookies()] *)
Definition readCookies (h : Header) : list cookie :=
  line ← default [] (h !! "Cookie"); read_line (string_bytes line).

(** [sanitizeCookieValue]; a byte no value may hold is dropped. *)
Definition sanitizeCookieValue (v : bytes) (quoted : bool) : bytes :=
  let v := filter (fun b => cookie_value_byte b = true) v in
  if bool_decide (v = []) then v
  else if bool_decide (x20 ∈ v) || bool_decide (x2c ∈ v) || quoted
       then x22 :: v ++ [x22] else v.

(** [sanitizeCookieName] *)
Definition sanitizeCookieName (n : bytes) : bytes :=
  (fun b => if bool_decide (b = x0a) || bool_decide (b = x0d) then "-"%byte else b) <$> n.

Definition cookie_pair (c : cookie) : bytes :=
  sanitizeCookieName (CName c) ++ "="%byte :: sanitizeCookieValue (CValue c) (Quoted c).

(** [r.AddCookie(c)] *)
Definition AddCookie (h : Header) (c : cookie) : Header :=
  let s := bytes_string (cookie_pair c) in
  let l := header_get h "Cookie" in
  if String.eqb l "" then header_set h "Cookie" s
  else header_set h "Cookie" (l ++ "; " ++ s).

(** * sanitizer.go *)

Definition allowedHeaders : list string :=
  ["Authorization"; "Content-Type"; "Content-Length"; "Accept"; "X-Csrf-Token"; "X-Request-Id";
   "Last-Event-Id"; "Cache-Control"; "If-None-Match"; "Origin"; "Stripe-Signature";
   "X-Client-Type"; "X-Account-Index"; "X-Platform-Secret"; "X-Meet-Secret";
   "X-Reauth-Token"]%string.

(** [http.CanonicalHeaderKey]: a letter after the start or a hyphen is upper
    case, every other lower; a key with a byte no token has stays. *)
Definition to_upper (b : byte) : byte :=
  if byte_between "a" "z" b then default b (Byte.of_N (Byte.to_N b - 32)) else b.

Definition to_lower (b : byte) : byte :=
  if byte_between "A" "Z" b then default b (Byte.of_N (Byte.to_N b + 32)) else b.

Fixpoint canonical_from (upper : bool) (s : bytes) : bytes :=
  match s with
  | [] => []
  | c :: s => (if upper then to_upper c else to_lower c) :: canonical_from (byte_eqb c "-") s
  end.

Definition CanonicalHeaderKey (k : string) : string :=
  let s := string_bytes k in
  if forallb token_byte s then bytes_string (canonical_from true s) else k.

Example canonical_ex : CanonicalHeaderKey "x-cSRF-token" = "X-Csrf-Token"%string.
Proof. vm_compute. reflexivity. Qed.

(** The copy of the allowed headers, in the order the map is ranged over. *)
Definition keep_header (sanitized : Header) (kv : string * list string) : Header :=
  if bool_decide (CanonicalHeaderKey (fst kv) ∈ allowedHeaders)
  then <[CanonicalHeaderKey (fst kv) := snd kv]> sanitized else sanitized.

Definition own_cookie (c : cookie) : Prop := HasPrefix (CName c) (bs "bmail_") = true.

#[export] Instance own_cookie_dec c : Decision (own_cookie c).
Proof. unfold own_cookie. apply _. Defined.

Definition preservedCookies (h : Header) : list cookie := filter own_cookie (readCookies h).

(** The Accept header a handler may see. *)
Definition force_accept (h : Header) : Header :=
  let accept := header_get h "Accept" in
  if negb (String.eqb accept "") && negb (String.eqb accept "application/json") &&
     negb (String.eqb accept "*/*")
  then header_set h "Accept" "application/json" else h.

(** [SanitizeMiddleware]: the headers the next handler gets, for a range over
    [r.Header] in the order [entries]. *)
Definition SanitizeMiddleware (h : Header) (entries : list (string * list string)) : Header :=
  let sanitized := foldl keep_header ∅ entries in
  let preserved := preservedCookies h in
  let sanitized := delete "Cookie" sanitized in
  force_accept (foldl AddCookie sanitized preserved).

(** * redact.go *)

Definition RedactEmail (email : bytes) : bytes :=
  match LastIndexByte "@" email with
  | None => bs "***"
  | Some at_ =>
      if (at_ =? length email - 1)%nat then bs "***"
      else bs "***@" ++ skipn (at_ + 1) email
  end.

(** * Lemmas *)

(** ** White space *)

Definition not_space (b : byte) : bool := negb (bool_decide (b ∈ [x20; x09; x0a; x0d])).

Lemma trim_left_id n s :
  (forall b, head s = Some b -> not_space b = true) -> trim_left n ascii_space s = s.
Proof.
  intros Hs. destruct n as [|n]; [done|]. cbn [trim_left].
  assert (find_index (HasPrefix s) ascii_space = None) as ->; [|done].
  apply find_index_None. intros r Hr. destruct s as [|b s]; [set_solver|].
  specialize (Hs b eq_refl). unfold not_space in Hs. bool_prop.
  unfold ascii_space in Hr. rewrite !elem_of_cons in Hr.
  destruct (HasPrefix (b :: s) r) eqn:E; [|done]. apply HasPrefix_spec in E as [t E].
  destruct Hs. destruct Hr as [->|[->|[->|[->|?]]]]; [..|set_solver]; simplify_eq/=; set_solver.
Qed.

Lemma TrimString_id s :
  (forall b, head s = Some b -> not_space b = true) ->
  (forall b, last s = Some b -> not_space b = true) -> TrimString s = s.
Proof.
  intros Hh Hl. unfold TrimString. rewrite (trim_left_id _ s) by done.
  rewrite trim_left_id; [apply rev_involutive|].
  intros b Hb. apply Hl. destruct s as [|x s _] using rev_ind; [done|].
  rewrite rev_app_distr in Hb. by rewrite last_snoc.
Qed.

Lemma TrimString_space s : TrimString (x20 :: s) = TrimString s.
Proof.
  assert (trim_left (length (x20 :: s)) ascii_space (x20 :: s) = trim_left (length s) ascii_space s)
    as E.
  { cbn. by destruct s. }
  unfold TrimString. by rewrite E.
Qed.

(** ** One cookie *)

Definition good_cookie (c : cookie) : Prop :=
  isCookieNameValid (CName c) = true /\ forallb cookie_value_byte (CValue c) = true.

Lemma token_byte_facts b :
  token_byte b = true -> not_space b = true /\ b <> "="%byte /\ b <> ";"%byte /\
    b <> x0a /\ b <> x0d.
Proof. destruct b; intros H; vm_compute in H; try discriminate H; by split_and!. Qed.

Lemma value_byte_facts b :
  cookie_value_byte b = true -> b <> x22 /\ b <> ";"%byte /\ (b <> x20 -> not_space b = true).
Proof. destruct b; intros H; vm_compute in H; try discriminate H; by split_and!. Qed.

Lemma read_cookie_good part c : read_cookie part = Some c -> good_cookie c.
Proof.
  unfold read_cookie. case_bool_decide; [done|]. destruct (cut_byte _ _) as [n v].
  destruct (isCookieNameValid _) eqn:En; [|done].
  destruct (parseQuoted v) as [[v' q]|] eqn:Ev; [|done]. intros [= <-]. split; [done|].
  unfold parseQuoted in Ev. destruct (match v with x22 :: _ => _ | _ => _ end) as [r q'].
  destruct (forallb _ r) eqn:Ef; [|done]. by injection Ev as <- <-.
Qed.

Lemma readCookies_good h c : c ∈ readCookies h -> good_cookie c.
Proof.
  unfold readCookies. rewrite list_elem_of_bind. intros (line & Hc & _).
  unfold read_line in Hc. apply list_elem_of_omap in Hc as (p & _ & Hp).
  by apply read_cookie_good in Hp.
Qed.

Lemma sanitizeName_id n : isCookieNameValid n = true -> sanitizeCookieName n = n.
Proof.
  unfold isCookieNameValid, sanitizeCookieName. intros H. bool_prop. clear H.
  induction n as [|b n IH]; [done|]. cbn in *. bool_prop.
  destruct (token_byte_facts b) as (_ & _ & _ & H1 & H2); [done|].
  rewrite !bool_decide_eq_false_2 by done. cbn. f_equal. by apply IH.
Qed.

Lemma value_filter_id v :
  forallb cookie_value_byte v = true -> filter (fun b => cookie_value_byte b = true) v = v.
Proof.
  induction v as [|b v IH]; [done|]. intros H. cbn in H. bool_prop.
  rewrite filter_cons_True by done. by rewrite IH.
Qed.

Lemma parse_sanitized v q :
  forallb cookie_value_byte v = true -> exists q', parseQuoted (sanitizeCookieValue v q) = Some (v, q').
Proof.
  intros Hv. unfold sanitizeCookieValue. rewrite value_filter_id by done.
  case_bool_decide as E0; [subst; by exists false|].
  destruct v as [|b v]; [done|].
  destruct (_ || q)%bool.
  - exists true. unfold parseQuoted.
    pose proof (last_snoc x22 (b :: v)) as Hl. pose proof (removelast_last (b :: v) x22) as Hr.
    cbn [app] in *. by rewrite Hl, Hr, bool_decide_eq_true_2, Hv.
  - exists false. assert (cookie_value_byte b = true) as Hb by (cbn in Hv; by bool_prop).
    destruct (value_byte_facts b Hb) as (Hq & _). unfold parseQuoted.
    destruct b; try done; by rewrite Hv.
Qed.

Lemma cut_byte_first c a b : c ∉ a -> cut_byte c (a ++ c :: b) = (a, b).
Proof.
  intros H. unfold cut_byte. rewrite IndexByte_first by done.
  rewrite take_app_length. f_equal. rewrite drop_app_ge by lia.
  by replace (S (length a) - length a)%nat with 1%nat by lia.
Qed.

Lemma name_bytes n b : isCookieNameValid n = true -> b ∈ n -> token_byte b = true.
Proof.
  unfold isCookieNameValid. intros H Hb. bool_prop.
  apply forallb_Forall in H0. rewrite Forall_forall in H0. auto.
Qed.

(** The written value: a space stands inside quotes. *)
Lemma sanitized_bytes v q b :
  forallb cookie_value_byte v = true -> b ∈ sanitizeCookieValue v q -> b <> ";"%byte.
Proof.
  intros Hv. unfold sanitizeCookieValue. rewrite value_filter_id by done.
  assert (forall b, b ∈ v -> b <> ";"%byte) as H.
  { intros x Hx. apply forallb_Forall in Hv. rewrite Forall_forall in Hv.
    by destruct (value_byte_facts x (Hv x Hx)) as (_ & ? & _). }
  case_bool_decide; [intros; by apply H|]. destruct (_ || q)%bool; [|by intros; apply H].
  rewrite elem_of_cons, elem_of_app, elem_of_cons. intros [->|[?|[->|?]]]; [done|auto|done|set_solver].
Qed.

Lemma sanitized_last v q b :
  forallb cookie_value_byte v = true -> last (sanitizeCookieValue v q) = Some b -> not_space b = true.
Proof.
  intros Hv. unfold sanitizeCookieValue. rewrite value_filter_id by done.
  case_bool_decide; [by subst|].
  destruct (_ || q)%bool eqn:E.
  - rewrite app_comm_cons, last_snoc. by intros [= <-].
  - intros Hl. bool_prop. apply last_Some in Hl as [v' ->].
    apply forallb_Forall, Forall_app in Hv as [_ Hb]. inversion Hb; subst.
    destruct (value_byte_facts b) as (_ & _ & Hs); [done|]. apply Hs. set_solver.
Qed.

Lemma pair_head c b :
  good_cookie c -> head (cookie_pair c) = Some b -> token_byte b = true.
Proof.
  intros [Hn _]. unfold cookie_pair. rewrite sanitizeName_id by done.
  destruct (CName c) as [|x n] eqn:En; [done|]. cbn. intros [= <-].
  apply (name_bytes (x :: n)); [done|left].
Qed.

Lemma pair_last c b :
  good_cookie c -> last (cookie_pair c) = Some b -> not_space b = true.
Proof.
  intros [Hn Hv]. unfold cookie_pair. rewrite last_app.
  pose proof (fun b => sanitized_last (CValue c) (Quoted c) b Hv) as Hs.
  destruct (sanitizeCookieValue _ _) as [|x s]; [by intros [= <-]|].
  change (last ("="%byte :: x :: s)) with (last (x :: s)).
  destruct (last (x :: s)) eqn:E; [intros [= <-]; auto|by apply last_None in E].
Qed.

Lemma pair_trim c : good_cookie c -> TrimString (cookie_pair c) = cookie_pair c.
Proof.
  intros Hg. apply TrimString_id; intros b Hb.
  - apply pair_head in Hb; [|done]. by apply token_byte_facts.
  - by eapply pair_last.
Qed.

Definition same_cookie (a b : cookie) : Prop := CName a = CName b /\ CValue a = CValue b.

Lemma read_pair c : good_cookie c -> exists c', read_cookie (cookie_pair c) = Some c' /\ same_cookie c c'.
Proof.
  intros Hg. unfold read_cookie. rewrite pair_trim by done.
  destruct Hg as [Hn Hv]. unfold cookie_pair. rewrite sanitizeName_id by done.
  rewrite bool_decide_eq_false_2 by (by intros [_ ?]%app_eq_nil).
  rewrite cut_byte_first.
  - rewrite TrimString_id.
    + rewrite Hn. destruct (parse_sanitized (CValue c) (Quoted c)) as [q ->]; [done|].
      eexists. split; [done|]. by split.
    + intros b Hb. apply head_Some_elem_of in Hb. by apply (token_byte_facts b), (name_bytes (CName c)).
    + intros b Hb. apply last_Some_elem_of in Hb. by apply (token_byte_facts b), (name_bytes (CName c)).
  - intros Hb. apply (name_bytes (CName c)) in Hb; [|done]. by destruct (token_byte_facts _ Hb) as (_ & ? & ? & _).
Qed.

(** ** The Cookie line *)

Definition cookie_line (h : Header) : bytes := string_bytes (header_get h "Cookie").

Lemma AddCookie_lookup h c k :
  k <> "Cookie"%string -> AddCookie h c !! k = h !! k.
Proof.
  intros Hk. unfold AddCookie. destruct (String.eqb _ _); rewrite header_set_lookup;
    by rewrite decide_False by done.
Qed.

Lemma AddCookie_first h c :
  h !! "Cookie"%string = None -> AddCookie h c !! "Cookie"%string = Some [bytes_string (cookie_pair c)].
Proof.
  intros Hn. unfold AddCookie, header_get. rewrite Hn. cbn.
  by rewrite header_set_lookup, decide_True.
Qed.

Lemma pair_nonempty c : cookie_pair c <> [].
Proof. by intros [_ ?]%app_eq_nil. Qed.

Lemma AddCookie_next h c l :
  h !! "Cookie"%string = Some [bytes_string l] -> l <> [] ->
  AddCookie h c !! "Cookie"%string = Some [bytes_string (l ++ bs "; " ++ cookie_pair c)].
Proof.
  intros Hl Hne. unfold AddCookie, header_get. rewrite Hl.
  destruct (String.eqb_spec (bytes_string l) "") as [E|E].
  - destruct Hne. apply (f_equal string_bytes) in E. by rewrite string_bytes_string in E.
  - rewrite header_set_lookup, decide_True by done. do 2 f_equal.
    apply string_bytes_inj. by rewrite !string_bytes_app, !string_bytes_string.
Qed.

(** The line that writing [c0] and then [cs] leaves. *)
Definition line_of (c0 : cookie) (cs : list cookie) : bytes :=
  foldl (fun l c => l ++ bs "; " ++ cookie_pair c) (cookie_pair c0) cs.

Lemma AddCookie_fold h c0 cs :
  h !! "Cookie"%string = None ->
  foldl AddCookie h (c0 :: cs) !! "Cookie"%string = Some [bytes_string (line_of c0 cs)] /\
  line_of c0 cs <> [].
Proof.
  intros Hn. cbn [foldl]. induction cs as [|c cs [IH Hne]] using rev_ind.
  - split; [by apply AddCookie_first|apply pair_nonempty].
  - unfold line_of in *. rewrite !foldl_app. cbn [foldl]. split; [by apply AddCookie_next|].
    by intros [? _]%app_eq_nil.
Qed.

Lemma AddCookie_fold_other h cs k :
  k <> "Cookie"%string -> foldl AddCookie h cs !! k = h !! k.
Proof.
  intros Hk. revert h. induction cs as [|c cs IH]; intros h; [done|].
  cbn. by rewrite IH, AddCookie_lookup.
Qed.

Lemma pair_no_semicolon c : good_cookie c -> ";"%byte ∉ cookie_pair c.
Proof.
  intros [Hn Hv] Hb. unfold cookie_pair in Hb. rewrite sanitizeName_id in Hb by done.
  apply elem_of_app in Hb as [Hb|Hb].
  - apply (name_bytes (CName c)) in Hb; [|done]. by destruct (token_byte_facts _ Hb) as (_ & ? & ? & _).
  - apply elem_of_cons in Hb as [?|Hb]; [done|]. by apply sanitized_bytes in Hb.
Qed.

Lemma line_split c0 cs :
  Forall good_cookie (c0 :: cs) ->
  split_byte ";" (line_of c0 cs) = cookie_pair c0 :: ((fun c => x20 :: cookie_pair c) <$> cs).
Proof.
  intros H. induction cs as [|c cs IH] using rev_ind.
  - inversion H; subst. apply split_byte_none. by apply pair_no_semicolon.
  - rewrite app_comm_cons in H. apply Forall_app in H as [H Hc]. inversion Hc; subst.
    unfold line_of in *. rewrite foldl_app. cbn [foldl].
    change (bs "; " ++ cookie_pair c) with (";"%byte :: x20 :: cookie_pair c).
    rewrite split_byte_app_sep, IH by done. rewrite (split_byte_none _ (x20 :: _)).
    + by rewrite fmap_app.
    + rewrite not_elem_of_cons. split; [done|]. by apply pair_no_semicolon.
Qed.

Lemma line_trim c0 cs :
  Forall good_cookie (c0 :: cs) -> TrimString (line_of c0 cs) = line_of c0 cs.
Proof.
  intros H. apply TrimString_id; intros b Hb.
  - assert (head (cookie_pair c0) = Some b) as Hh.
    { revert Hb. clear H. induction cs as [|c cs IH] using rev_ind; [done|].
      unfold line_of in *. rewrite foldl_app. cbn [foldl]. intros Hb. apply IH.
      destruct (foldl _ _ cs) eqn:E; [|done].
      destruct (AddCookie_fold ∅ c0 cs) as [_ Hne]; [done|]. by destruct Hne. }
    inversion H; subst. apply pair_head in Hh; [|done]. by apply token_byte_facts.
  - destruct cs as [|c cs _] using rev_ind.
    + inversion H; subst. by eapply pair_last.
    + rewrite app_comm_cons in H. apply Forall_app in H as [_ Hc]. inversion Hc; subst.
      unfold line_of in Hb. rewrite foldl_app in Hb. cbn [foldl] in Hb.
      rewrite app_assoc, last_app in Hb. destruct (last (cookie_pair c)) eqn:E; [|by apply last_None, pair_nonempty in E].
      injection Hb as <-. by eapply pair_last.
Qed.

Lemma read_spaced c : read_cookie (x20 :: cookie_pair c) = read_cookie (cookie_pair c).
Proof. unfold read_cookie. by rewrite TrimString_space. Qed.

Lemma read_written c0 cs :
  Forall good_cookie (c0 :: cs) -> Forall2 same_cookie (c0 :: cs) (read_line (line_of c0 cs)).
Proof.
  intros H. unfold read_line. rewrite line_trim, line_split by done.
  inversion H as [|? ? H0 Hcs]; subst. cbn.
  destruct (read_pair c0 H0) as (c' & -> & Hc). constructor; [done|].
  clear -Hcs. induction Hcs as [|c cs Hg _ IH]; [constructor|]. cbn. rewrite read_spaced.
  destruct (read_pair c Hg) as (c' & -> & Hc). by constructor.
Qed.

(** ** The copy *)

Lemma keep_dom acc entries k :
  is_Some (foldl keep_header acc entries !! k) -> is_Some (acc !! k) \/ k ∈ allowedHeaders.
Proof.
  revert acc. induction entries as [|[k' vs] es IH]; intros acc Hk; [by left|].
  cbn [foldl] in Hk. apply IH in Hk as [Hk|?]; [|by right]. unfold keep_header in Hk.
  case_bool_decide as Ha; [|by left]. cbn [fst snd] in *.
  destruct (decide (CanonicalHeaderKey k' = k)) as [<-|Hne]; [by right|].
  rewrite lookup_insert_ne in Hk by done. by left.
Qed.

Lemma keep_lookup acc entries k vs :
  k ∈ allowedHeaders ->
  (forall kv, kv ∈ entries -> CanonicalHeaderKey (fst kv) = k -> snd kv = vs) ->
  acc !! k = Some vs \/ (exists kv, kv ∈ entries /\ CanonicalHeaderKey (fst kv) = k) ->
  foldl keep_header acc entries !! k = Some vs.
Proof.
  intros Ha. revert acc. induction entries as [|[k' vs'] es IH]; intros acc Hall [Hk|(kv & Hin & Hk)];
    [done|by apply not_elem_of_nil in Hin|..]; cbn [foldl]; apply IH; try (intros; apply Hall; [by right|done]).
  - left. unfold keep_header. cbn [fst snd]. case_bool_decide; [|done].
    destruct (decide (CanonicalHeaderKey k' = k)) as [E|E]; [|by rewrite lookup_insert_ne].
    rewrite E, lookup_insert_eq. f_equal. apply (Hall (k', vs')); [left|done].
  - apply elem_of_cons in Hin as [->|Hin]; [|right; by exists kv]. left. unfold keep_header.
    cbn [fst snd] in *. rewrite Hk, bool_decide_eq_true_2, lookup_insert_eq by done.
    f_equal. apply (Hall (k', vs')); [left|done].
Qed.

Lemma keep_none acc entries k :
  (forall kv, kv ∈ entries -> CanonicalHeaderKey (fst kv) <> k) ->
  foldl keep_header acc entries !! k = acc !! k.
Proof.
  revert acc. induction entries as [|[k' vs'] es IH]; intros acc Hall; [done|]. cbn [foldl].
  rewrite IH by (intros; apply Hall; by right). unfold keep_header. cbn [fst snd].
  case_bool_decide; [|done]. rewrite lookup_insert_ne; [done|]. apply (Hall (k', vs')). left.
Qed.

Lemma force_accept_other h k : k <> "Accept"%string -> force_accept h !! k = h !! k.
Proof.
  intros Hk. unfold force_accept. destruct (_ && _ && _)%bool; [|done].
  by rewrite header_set_lookup, decide_False by done.
Qed.

Lemma force_accept_get h :
  header_get (force_accept h) "Accept" ∈ [""; "application/json"; "*/*"]%string.
Proof.
  unfold force_accept. destruct (_ && _ && _)%bool eqn:E.
  - unfold header_get. rewrite header_set_lookup, decide_True by done. set_solver.
  - apply andb_false_iff in E as [E|E]; [apply andb_false_iff in E as [E|E]|]; bool_prop;
      rewrite E; set_solver.
Qed.

Lemma sanitized_cookies h entries :
  exists cs, readCookies (SanitizeMiddleware h entries) = cs /\ Forall2 same_cookie (preservedCookies h) cs.
Proof.
  eexists. split; [done|]. unfold SanitizeMiddleware.
  set (s := delete _ _). assert (s !! "Cookie"%string = None) as Hs by apply lookup_delete_eq.
  assert (Forall good_cookie (preservedCookies h)) as Hg.
  { apply Forall_forall. intros c Hc. unfold preservedCookies in Hc.
    apply list_elem_of_filter in Hc as [_ Hc]. by eapply readCookies_good. }
  unfold readCookies at 1. rewrite force_accept_other by done.
  destruct (preservedCookies h) as [|c0 cs].
  - cbn [foldl]. rewrite Hs. constructor.
  - destruct (AddCookie_fold s c0 cs Hs) as [-> _]. cbn [default from_option id mbind list_bind].
    rewrite app_nil_r, string_bytes_string. by apply read_written.
Qed.

Lemma sanitized_own h entries :
  (fun c => (CName c, CValue c)) <$> readCookies (SanitizeMiddleware h entries) =
  (fun c => (CName c, CValue c)) <$> filter own_cookie (readCookies h).
Proof.
  destruct (sanitized_cookies h entries) as (cs & -> & Hcs).
  unfold preservedCookies in Hcs. induction Hcs as [|c c' l l' [Hn Hv] _ IH]; [done|].
  rewrite !fmap_cons, IH. congruence.
Qed.

Lemma sanitized_kept h entries k :
  entries ≡ₚ map_to_list h -> (forall k vs, h !! k = Some vs -> CanonicalHeaderKey k = k) ->
  k ∈ allowedHeaders -> k <> "Accept"%string -> SanitizeMiddleware h entries !! k = h !! k.
Proof.
  intros HE Hcan Ha Hne. unfold SanitizeMiddleware.
  assert (k <> "Cookie"%string) by (intros ->; vm_compute in Ha; set_solver).
  rewrite force_accept_other, AddCookie_fold_other, lookup_delete_ne by done.
  assert (forall kv, kv ∈ entries -> h !! fst kv = Some (snd kv) /\ CanonicalHeaderKey (fst kv) = fst kv)
    as Hin.
  { intros [k' vs'] Hin. rewrite HE in Hin. apply elem_of_map_to_list in Hin.
    split; [done|]. by apply (Hcan _ vs'). }
  destruct (h !! k) as [vs|] eqn:Hk.
  + apply keep_lookup; [done|..].
    * intros kv Hkv E. destruct (Hin kv Hkv) as [Hl Hc]. congruence.
    * right. exists (k, vs). rewrite HE, elem_of_map_to_list. eauto.
  + rewrite keep_none; [apply lookup_empty|].
    intros kv Hkv E. destruct (Hin kv Hkv) as [Hl Hc]. congruence.
Qed.

(** * Properties *)

(** Behind the sanitizer a handler sees allowed header names and Cookie
    only, an Accept that asks for nothing but JSON, and exactly the program's own
    cookies among those the client sent: the same ones, in the same order, with
    the same values, though the line is parsed, filtered and written again, in
    whatever order the headers are ranged over. *)
Theorem sanitized_request h entries (HE : entries ≡ₚ map_to_list h) :
  let h' := SanitizeMiddleware h entries in
  (forall k, is_Some (h' !! k) -> k ∈ allowedHeaders \/ k = "Cookie"%string) /\
  header_get h' "Accept" ∈ [""; "application/json"; "*/*"]%string /\
  (fun c => (CName c, CValue c)) <$> readCookies h' =
    (fun c => (CName c, CValue c)) <$> filter own_cookie (readCookies h) /\
  ((forall k vs, h !! k = Some vs -> CanonicalHeaderKey k = k) ->
   forall k, k ∈ allowedHeaders -> k <> "Accept"%string -> h' !! k = h !! k).
Proof.
  cbv zeta. split_and!.
  - intros k Hk. destruct (decide (k = "Accept"%string)) as [->|Ha]; [left; set_solver|].
    unfold SanitizeMiddleware in Hk. rewrite force_accept_other in Hk by done.
    destruct (decide (k = "Cookie"%string)) as [->|Hc]; [by right|].
    rewrite AddCookie_fold_other, lookup_delete_ne in Hk by done.
    apply keep_dom in Hk as [Hk|?]; [|by left]. rewrite lookup_empty in Hk. by destruct Hk.
  - apply force_accept_get.
  - apply sanitized_own.
  - intros Hcan k Ha Hne. by apply sanitized_kept.
Qed.

Definition sent_headers : Header :=
  {[ "Cookie" := ["theme=dark; bmail_session_0=abc; bmail_csrf=a b;x"];
     "Accept" := ["text/html"]; "X-Csrf-Token" := ["t1"]; "User-Agent" := ["Mozilla/5.0"] ]}%string.

Definition sent_entries : list (string * list string) := map_to_list sent_headers.

Lemma sent_canonical k vs : sent_headers !! k = Some vs -> CanonicalHeaderKey k = k.
Proof.
  intros Hk'. pose proof (proj2 (elem_of_map_to_list sent_headers k vs) Hk') as Hin.
  assert (forallb (fun kv => String.eqb (CanonicalHeaderKey (fst kv)) (fst kv)) sent_entries = true)
    as HF by (vm_compute; reflexivity).
  apply forallb_Forall in HF. rewrite Forall_forall in HF. specialize (HF _ Hin).
  by apply String.eqb_eq in HF.
Qed.

Lemma sanitized_request_witness :
  SanitizeMiddleware sent_headers sent_entries !! "X-Csrf-Token"%string = Some ["t1"%string] /\
  (fun c => (CName c, CValue c)) <$> readCookies (SanitizeMiddleware sent_headers sent_entries) =
    [(bs "bmail_session_0", bs "abc"); (bs "bmail_csrf", bs "a b")].
Proof.
  destruct (sanitized_request sent_headers sent_entries (reflexivity _)) as (_ & _ & Hc & Hk).
  split.
  - rewrite Hk; [vm_compute; reflexivity| |apply (bool_decide_unpack _); by vm_compute|discriminate].
    apply sent_canonical.
  - rewrite Hc. apply (bool_decide_unpack _). by vm_compute.
Defined.

(** The credential check of the router reads the same cookies. *)
Lemma read_cookie_agrees part :
  parse_cookie part = (fun c => (bytes_string (CName c), bytes_string (CValue c))) <$> read_cookie part.
Proof.
  unfold parse_cookie, read_cookie. case_bool_decide; [done|].
  destruct (cut_byte _ _) as [n v]. destruct (isCookieNameValid _); [|done].
  unfold parseCookieValue, parseQuoted.
  destruct v as [|b [|b' v]]; [done|by destruct b|].
  destruct b; try (by destruct (forallb _ _)). case_bool_decide; by destruct (forallb _ _).
Qed.

Lemma Cookies_agree h :
  Cookies h = (fun c => (bytes_string (CName c), bytes_string (CValue c))) <$> readCookies h.
Proof.
  unfold Cookies, readCookies. induction (default [] (h !! "Cookie"%string)) as [|l ls IH]; [done|].
  cbn [mbind list_bind]. rewrite fmap_app. f_equal; [clear IH|exact IH].
  unfold read_line. induction (split_byte ";" _) as [|p ps IHp]; [done|]. cbn.
  rewrite read_cookie_agrees. destruct (read_cookie p); cbn; by rewrite IHp.
Qed.

Definition session_name (n : bytes) : bool :=
  HasPrefix n (bs "bmail_session") || HasPrefix n (bs "bmail_fakeid_session").

Lemma session_own n : session_name n = true -> HasPrefix n (bs "bmail_") = true.
Proof.
  unfold session_name. intros [H|H]%orb_true_iff; apply HasPrefix_spec in H as [t ->].
  - change (bs "bmail_session" ++ t) with (bs "bmail_" ++ (bs "session" ++ t)). apply HasPrefix_app.
  - change (bs "bmail_fakeid_session" ++ t) with (bs "bmail_" ++ (bs "fakeid_session" ++ t)).
    apply HasPrefix_app.
Qed.

Lemma credentials_cookies h :
  existsb (fun c => has_prefix (fst c) "bmail_session" || has_prefix (fst c) "bmail_fakeid_session")
    (Cookies h) =
  existsb (fun c => session_name (fst c)) ((fun c => (CName c, CValue c)) <$> readCookies h).
Proof.
  rewrite Cookies_agree. induction (readCookies h) as [|c cs IH]; [done|]. cbn [fmap list_fmap existsb].
  rewrite IH. unfold has_prefix, session_name. cbn [fst]. by rewrite string_bytes_string.
Qed.

(** Sanitizing neither adds nor removes a session: a request the gateway
    takes for logged in still is, and one it does not still is not. *)
Theorem sanitizing_keeps_credentials r entries (HE : entries ≡ₚ map_to_list (ReqHeader r))
    (HC : forall k vs, ReqHeader r !! k = Some vs -> CanonicalHeaderKey k = k) :
  hasCredentials {| URLPath := URLPath r; RequestURI := RequestURI r; Host := Host r;
      RemoteAddr := RemoteAddr r; ReqHeader := SanitizeMiddleware (ReqHeader r) entries |} =
  hasCredentials r.
Proof.
  unfold hasCredentials. cbn [ReqHeader]. unfold header_get.
  rewrite sanitized_kept; [|done|done|apply (bool_decide_unpack _); by vm_compute|done].
  f_equal. rewrite !credentials_cookies, sanitized_own.
  induction (readCookies (ReqHeader r)) as [|c cs IH]; [done|].
  rewrite filter_cons. case_decide as Ho; cbn [fmap list_fmap existsb fst]; [by rewrite IH|].
  destruct (session_name (CName c)) eqn:E; [|exact IH]. by apply session_own in E.
Qed.

Definition sent_request : request :=
  {| URLPath := "/app/api/mail/list"; RequestURI := "/app/api/mail/list"; Host := "bmail.ag";
     RemoteAddr := bs "203.0.113.9:51442"; ReqHeader := sent_headers |}.

Lemma sanitizing_keeps_credentials_witness : hasCredentials sent_request = true /\
  hasCredentials {| URLPath := URLPath sent_request; RequestURI := RequestURI sent_request;
    Host := Host sent_request; RemoteAddr := RemoteAddr sent_request;
    ReqHeader := SanitizeMiddleware (ReqHeader sent_request) sent_entries |} = true.
Proof.
  assert (hasCredentials sent_request = true) as H by (vm_compute; reflexivity).
  split; [exact H|]. rewrite (sanitizing_keeps_credentials sent_request sent_entries (reflexivity _)); [exact H|].
  intros k' vs' Hk'. apply sent_canonical in Hk'. done.
Defined.

(** What a log line tells of an address is its domain: two addresses with
    the same domain are logged alike, and so are all that have none. *)
Theorem redaction_tells_the_domain_only l1 l2 d (HD : "@"%byte ∉ d) :
  RedactEmail (l1 ++ "@"%byte :: d) = RedactEmail (l2 ++ "@"%byte :: d) /\
  RedactEmail d = bs "***".
Proof.
  assert (forall l, RedactEmail (l ++ "@"%byte :: d) = if bool_decide (d = []) then bs "***" else bs "***@" ++ d) as E.
  { intros l. unfold RedactEmail. rewrite LastIndexByte_app by done. rewrite length_app. cbn [length].
    destruct d as [|x d].
    - rewrite (proj2 (Nat.eqb_eq _ _)) by (cbn; lia). done.
    - rewrite (proj2 (Nat.eqb_neq _ _)) by (cbn; lia). rewrite bool_decide_eq_false_2 by done.
      f_equal. rewrite drop_app_ge by lia. by replace (length l + 1 - length l)%nat with 1%nat by lia. }
  split; [by rewrite !E|]. unfold RedactEmail.
  destruct (LastIndexByte "@" d) as [i|] eqn:Ei; [|done].
  apply LastIndexByte_spec in Ei. destruct HD. rewrite Ei. apply elem_of_app. right. left.
Qed.

Lemma redaction_tells_the_domain_only_witness :
  RedactEmail (bs "alice@example.com") = RedactEmail (bs "bob@example.com") /\
  RedactEmail (bs "example.com") = bs "***".
Proof.
  apply (redaction_tells_the_domain_only (bs "alice") (bs "bob") (bs "example.com")).
  apply (bool_decide_unpack _). by vm_compute.
Defined.
