(* ===== verification/GatewayEdge.v ===== *)
(** The gateway's edge: the certificate cache that seals TLS keys
    (internal/gateway/sealed_cache.go), the attestation endpoint
    (attestation.go) and the proxy to the other enclaves'
    (cmd/gateway/sgx_quotes.go), the readiness check (health.go), the release
    proxy (release_proxy.go), and of cmd/gateway/main.go the image proxy, the
    static files and the order of the outermost handlers.  Shown: the sealed
    cache is a cache again, and holds sealings only where a TLS key is; what
    the release proxy serves is at most five minutes old; the image proxy dials
    nothing but the address it checked, and stops; static files stay in their
    directory. *)

From S2P Require Import Prelude GoNet FilePath GoStrings Pgp GatewayRouter Sanitizer.
Local Open Scope Z_scope.

(** * sealed_cache.go *)

Section cache.
(** The errors a cache reports beside a miss. *)
Context {E : Type}.

Inductive cache_err := ErrCacheMiss | CacheOther (e : E) | SealFailed.

(** [autocert.Cache]: its operations over a store. *)
Record Cache (St : Type) := {
  cache_get : St -> string -> result cache_err bytes;
  cache_put : St -> string -> bytes -> option cache_err * St;
  cache_delete : St -> string -> option cache_err * St
}.
Arguments cache_get {St} _ _ _.
Arguments cache_put {St} _ _ _ _.
Arguments cache_delete {St} _ _ _.

(** What a cache promises: what is put is found until it is put again or
    deleted, other entries do not move, and a failed write changes nothing (the
    directory cache writes a temporary file and renames it). *)
Class CacheLaws {St} (c : Cache St) := {
  get_put s k d s' : cache_put c s k d = (None, s') -> cache_get c s' k = Ok d;
  put_fails s k d e s' : cache_put c s k d = (Some e, s') -> cache_get c s' k = cache_get c s k;
  get_put_ne s k d k' : k <> k' -> cache_get c (cache_put c s k d).2 k' = cache_get c s k';
  get_delete s k s' : cache_delete c s k = (None, s') -> cache_get c s' k = Err ErrCacheMiss;
  delete_fails s k e s' : cache_delete c s k = (Some e, s') -> cache_get c s' k = cache_get c s k;
  get_delete_ne s k k' : k <> k' -> cache_get c (cache_delete c s k).2 k' = cache_get c s k'
}.

Definition has_sub (s sub : string) : bool := contains (string_bytes s) (string_bytes sub).

Definition shouldSeal (cacheKey : string) : bool :=
  if has_prefix cacheKey "acme_" then false
  else if has_sub cacheKey "+token" || has_sub cacheKey "+http-01" || has_sub cacheKey "+tls-alpn-01"
  then false
  else true.

(** The functions the cache is given. *)
Context (seal unseal : bytes -> option bytes).

Section wrapped.
Context {St : Type} (inner : Cache St).

Definition sealed_get (s : St) (key : string) : result cache_err bytes :=
  match cache_get inner s key with
  | Err e => Err e
  | Ok b =>
      if negb (shouldSeal key) then Ok b
      else match unseal b with None => Err ErrCacheMiss | Some plain => Ok plain end
  end.

Definition sealed_put (s : St) (key : string) (data : bytes) : option cache_err * St :=
  if negb (shouldSeal key) then cache_put inner s key data
  else match seal data with
       | None => (Some SealFailed, s)
       | Some sealed => cache_put inner s key sealed
       end.

Definition sealed_delete (s : St) (key : string) : option cache_err * St := cache_delete inner s key.

(** [NewSealedDirCache] *)
Definition SealedDirCache : Cache St :=
  {| cache_get := sealed_get; cache_put := sealed_put; cache_delete := sealed_delete |}.

Context `{!CacheLaws inner}.

(** Sealing and unsealing within one build. *)
Definition seals : Prop := forall d c, seal d = Some c -> unseal c = Some d.

Lemma sealed_laws : seals -> CacheLaws SealedDirCache.
Proof.
  intros Hs. split; unfold SealedDirCache; cbn; unfold sealed_put, sealed_get, sealed_delete.
  - intros s k d s' H. destruct (shouldSeal k) eqn:Ek; cbn in *.
    + destruct (seal d) as [c|] eqn:Ec; [|done]. rewrite (get_put _ _ _ _ H).
      by rewrite (Hs _ _ Ec).
    + by rewrite (get_put _ _ _ _ H).
  - intros s k d e s' H. destruct (negb (shouldSeal k)); [by rewrite (put_fails _ _ _ _ _ H)|].
    destruct (seal d); [by rewrite (put_fails _ _ _ _ _ H)|]. by injection H as <- <-.
  - intros s k d k' Hk. destruct (negb (shouldSeal k)); [by rewrite get_put_ne|].
    destruct (seal d); [by rewrite get_put_ne|done].
  - intros s k s' H. by rewrite (get_delete _ _ _ H).
  - intros s k e s' H. by rewrite (delete_fails _ _ _ _ H).
  - intros s k k' Hk. by rewrite get_delete_ne.
Qed.

(** ** What is on disk *)

Inductive cache_op := OpPut (k : string) (d : bytes) | OpDelete (k : string).

Definition cache_step (s : St) (o : cache_op) : St :=
  match o with
  | OpPut k d => (cache_put SealedDirCache s k d).2
  | OpDelete k => (cache_delete SealedDirCache s k).2
  end.

(** Every entry of a TLS key is a sealing of what was put there, every other is
    what was put there. *)
Definition disk_ok (ops : list cache_op) (s : St) : Prop :=
  forall k b, cache_get inner s k = Ok b ->
    exists d, OpPut k d ∈ ops /\ (if shouldSeal k then seal d = Some b else d = b).

Lemma disk_mono ops ops' s : disk_ok ops s -> disk_ok (ops ++ ops') s.
Proof.
  intros H k b Hk. destruct (H k b Hk) as (d & Hd & Hb). exists d.
  split; [|done]. apply elem_of_app. by left.
Qed.

Lemma disk_step ops s o : disk_ok ops s -> disk_ok (ops ++ [o]) (cache_step s o).
Proof.
  intros H. destruct o as [k0 d0|k0]; cbn [cache_step cache_put cache_delete SealedDirCache].
  - unfold sealed_put. set (data := if shouldSeal k0 then seal d0 else Some d0).
    assert (forall x, data = Some x -> disk_ok (ops ++ [OpPut k0 d0]) (cache_put inner s k0 x).2) as Hput.
    { intros x Hx k b Hk. destruct (decide (k0 = k)) as [<-|Hne].
      - destruct (cache_put inner s k0 x) as [[e|] s'] eqn:Ep; cbn in Hk.
        + rewrite (put_fails _ _ _ _ _ Ep) in Hk. apply (disk_mono _ [OpPut k0 d0]) in H; by apply H.
        + rewrite (get_put _ _ _ _ Ep) in Hk. injection Hk as <-. exists d0.
          split; [apply elem_of_app; right; left|]. subst data. destruct (shouldSeal k0); [done|congruence].
      - rewrite get_put_ne in Hk by done. apply (disk_mono _ [OpPut k0 d0]) in H; by apply H. }
    subst data. destruct (shouldSeal k0); cbn [negb]; [|by apply Hput].
    destruct (seal d0) as [c|]; [by apply Hput|by apply disk_mono].
  - unfold sealed_delete. intros k b Hk. apply (disk_mono _ [OpDelete k0]) in H.
    destruct (decide (k0 = k)) as [<-|Hne]; [|rewrite get_delete_ne in Hk by done; by apply H].
    destruct (cache_delete inner s k0) as [[e|] s'] eqn:Ed; cbn in Hk.
    + rewrite (delete_fails _ _ _ _ Ed) in Hk. by apply H.
    + by rewrite (get_delete _ _ _ Ed) in Hk.
Qed.

Lemma disk_run ops s : (forall k b, cache_get inner s k <> Ok b) -> disk_ok ops (foldl cache_step s ops).
Proof.
  intros Hs. induction ops as [|o ops IH] using rev_ind.
  - intros k b Hk. by apply Hs in Hk.
  - rewrite foldl_app. by apply disk_step.
Qed.
End wrapped.
End cache.

Arguments cache_get {E St} _ _ _.
Arguments cache_put {E St} _ _ _ _.
Arguments cache_delete {E St} _ _ _.

(** * Responses *)

Record response := { rstatus : Z; rheader : gmap string string; rbody : bytes }.

(** [http.Error]; the body ends in a newline. *)
Definition http_error (code : Z) (msg : string) : response :=
  {| rstatus := code;
     rheader := {[ "Content-Type" := "text/plain; charset=utf-8"; "X-Content-Type-Options" := "nosniff" ]}%string;
     rbody := bs msg ++ [x0a] |}.

Definition method_not_allowed : response := http_error 405 "method not allowed".

Definition not_found : response := http_error 404 "404 page not found".

(** * attestation.go *)

Record AttestationResponse := {
  AttestationReport : bytes;
  IdentityPublicKey : bytes;
  TLSPublicKey : bytes;
  EnclaveMeasurement : string;
  Timestamp : string
}.

Inductive attest_result := NotGet | AttestFailed | Attested (r : AttestationResponse).

Section attestation.
(** [teeRuntime.Attest], [SelfID], and crypto/sha256. *)
Context (sha256 : bytes -> bytes) (Attest : bytes -> option bytes) (SelfID : string).

Definition attestationHandlerCoreFn (boundKey : bytes) (tlsKeyFn : option bytes) (identityKey : bytes)
    (method now : string) : attest_result :=
  if negb (String.eqb method "GET") then NotGet
  else
    let userData := sha256 boundKey in
    match Attest userData with
    | None => AttestFailed
    | Some report =>
        let tlsKey := default [] tlsKeyFn in
        Attested {| AttestationReport := base64 report;
                    IdentityPublicKey := match identityKey with [] => [] | _ => base64 identityKey end;
                    TLSPublicKey := match tlsKey with [] => [] | _ => base64 tlsKey end;
                    EnclaveMeasurement := SelfID; Timestamp := now |}
    end.

(** [AttestationHandler] *)
Definition AttestationHandler (tlsPubKey : bytes) : string -> string -> attest_result :=
  attestationHandlerCoreFn tlsPubKey (Some tlsPubKey) [].

(** [AttestationHandlerWithIdentity]; [tlsPubKeyFn] is what the closure yields
    for this request. *)
Definition AttestationHandlerWithIdentity (identityPubKey : bytes) (tlsPubKeyFn : option bytes) :
    string -> string -> attest_result :=
  attestationHandlerCoreFn identityPubKey tlsPubKeyFn identityPubKey.
End attestation.

(** The check the type's comment asks of a verifier: the report data of the
    quote is the digest of the identity key if there is one, else of the TLS
    key. *)
Definition verifier_accepts (sha256 : bytes -> bytes) (report_data : bytes -> option bytes)
    (r : AttestationResponse) : bool :=
  match base64_decode (AttestationReport r) with
  | None => false
  | Some report =>
      let key := match IdentityPublicKey r with [] => TLSPublicKey r | k => k end in
      match base64_decode key, report_data report with
      | Some k, Some d => bool_decide (d = sha256 k)
      | _, _ => false
      end
  end.

(** [currentAutocertSPKI]: no manager, no domain, no certificate or one that
    does not parse give nothing. *)
Definition currentAutocertSPKI (GetCertificate : option (string -> option (list bytes)))
    (parse_spki : bytes -> option bytes) (domains : list string) : option bytes :=
  match GetCertificate, domains with
  | Some get, d :: _ =>
      match get d with
      | Some (c :: _) => parse_spki c
      | _ => None
      end
  | _, _ => None
  end.

(** * sgx_quotes.go *)

(** What an HTTP fetch yields: a status, a Content-Type, and a body that is
    read so far and then ends or breaks off. *)
Record upstream_response := { ustatus : Z; uctype : string; uread : bytes; ubroken : bool }.

(** [io.ReadAll(io.LimitReader(resp.Body, n))]: what lies beyond the limit is
    not looked at. *)
Definition read_limited (n : Z) (r : upstream_response) : option bytes :=
  if n <=? Z.of_nat (length (uread r)) then Some (limit_reader n (uread r))
  else if ubroken r then None else Some (uread r).

Definition ok_2xx (s : Z) : bool := (200 <=? s) && (s <? 300).

Definition json_error (msg : string) : bytes :=
  [x7b; x22] ++ bs "error" ++ [x22; x3a; x22] ++ bs msg ++ [x22; x7d].

Definition http_error_json (code : Z) (msg : string) : response :=
  {| rstatus := code;
     rheader := {[ "Content-Type" := "text/plain; charset=utf-8"; "X-Content-Type-Options" := "nosniff" ]}%string;
     rbody := json_error msg ++ [x0a] |}.

Section quotes.
(** [json.Valid]; http.NewRequest's check of the URL and the fetch; this
    gateway's own attestation handler. *)
Context (json_valid : bytes -> bool) (url_ok : string -> bool)
  (Do : string -> option upstream_response) (own : response).

Definition proxyTo (upstream : string) : response :=
  if negb (url_ok upstream) then http_error_json 502 "bad upstream url"
  else match Do upstream with
  | None => http_error_json 502 "upstream unreachable"
  | Some resp =>
      match read_limited (64 * 1024) resp with
      | None => http_error_json 502 "upstream read failed"
      | Some body =>
          let ct := if contains (ToLower (string_bytes (uctype resp))) (bs "json")
                    then uctype resp else "application/json"%string in
          let h : gmap string string := {[ "Content-Type" := ct; "Cache-Control" := "no-store" ]}%string in
          if negb (ok_2xx (ustatus resp)) then {| rstatus := 502; rheader := h; rbody := body |}
          else if json_valid body then {| rstatus := 200; rheader := h; rbody := body |}
          else {| rstatus := 502; rheader := h; rbody := json_error "upstream returned non-JSON" |}
      end
  end.

Definition proxied_names : list string := ["smtp-inbound"; "smtp-outbound"; "payment"; "keystore"]%string.

(** [sgxQuotesProxy.ServeHTTP] *)
Definition sgxQuotes (upstreams : gmap string string) (method name : string) : response :=
  if negb (String.eqb method "GET") then method_not_allowed
  else if String.eqb name "gateway" then own
  else if bool_decide (name ∈ proxied_names) then
    let upstream := default ""%string (upstreams !! name) in
    if String.eqb upstream "" then http_error_json 503 "upstream not configured"
    else proxyTo upstream
  else not_found.
End quotes.

(** * health.go *)

(** [ReadinessChecker.Handler]: the status code and the results, for a range
    over the checks in the order [checks]; [None] is a check that passes. *)
Definition readiness (checks : list (string * option string)) : Z * gmap string string :=
  let '(results, allOK) :=
    foldl (fun '(rs, ok) '(name, err) =>
             match err with
             | Some e => (<[name := e]> rs, false)
             | None => (<[name := "ok"%string]> rs, ok)
             end) (∅ : gmap string string, true) checks in
  if (allOK : bool) then (200, <["status" := "ready"]> results)%string
  else (503, <["status" := "not ready"]> results)%string.

(** * release_proxy.go *)

Record releaseCacheEntry := { ebody : bytes; contentType : string; expires : Z }.

Definition releaseCacheTTL : Z := 300.

Definition releaseURLs (name : string) : option string :=
  if String.eqb name "latest-release"
  then Some "https://api.github.com/repos/bmailag/bmail/releases/latest"%string
  else if String.eqb name "latest-enclave-release"
  then Some "https://api.github.com/repos/bmailag/bmail-enclave/releases/latest"%string
  else None.

Abbreviation releaseProxy := (gmap string releaseCacheEntry).

(** What one request does: the address it may fetch, the clock when the cache
    is asked and when it is filled. *)
Record release_request := {
  rmethod : string; rpath : string; asked : Z; filled : Z;
  fetch : string -> option upstream_response
}.

Definition release_headers (ct : string) : gmap string string :=
  {[ "Content-Type" := ct; "Cache-Control" := "public, max-age=300" ]}%string.

(** The fetch after a miss; the addresses are constants, which NewRequest takes. *)
Definition releaseFetch (p : releaseProxy) (r : release_request) (name upstream : string) :
    response * releaseProxy * option string :=
  match fetch r upstream with
  | None => (http_error 502 "upstream fetch failed", p, Some upstream)
  | Some resp =>
      if negb (ustatus resp =? 200) then (http_error 502 "upstream returned non-200", p, Some upstream)
      else match read_limited (2 ^ 20) resp with
      | None => (http_error 502 "upstream read failed", p, Some upstream)
      | Some body =>
          let ct := if String.eqb (uctype resp) "" then "application/json"%string else uctype resp in
          ({| rstatus := 200; rheader := release_headers ct; rbody := body |},
           <[name := {| ebody := body; contentType := ct; expires := filled r + releaseCacheTTL |}]> p,
           Some upstream)
      end
  end.

(** [releaseProxy.ServeHTTP]: the response, the cache, and the address fetched. *)
Definition releaseServe (p : releaseProxy) (r : release_request) :
    response * releaseProxy * option string :=
  if negb (String.eqb (rmethod r) "GET") then (method_not_allowed, p, None)
  else
    let name := trim_prefix (rpath r) "/verify/" in
    match releaseURLs name with
    | None => (not_found, p, None)
    | Some upstream =>
        match p !! name with
        | Some e => if asked r <? expires e
            then ({| rstatus := 200; rheader := release_headers (contentType e); rbody := ebody e |}, p, None)
            else releaseFetch p r name upstream
        | None => releaseFetch p r name upstream
        end
    end.

(** * internal/security/headers.go *)

(** The directives of the policy, as they are concatenated. *)
Definition csp_directives : list string :=
  ["default-src 'self'; ";
   "script-src 'self' 'wasm-unsafe-eval' blob: https://challenges.cloudflare.com; ";
   "style-src 'self'; "; "img-src 'self' data:; ";
   "connect-src 'self' https://meet.fullxp.net wss://meet.fullxp.net https://meet.bmail.ag wss://meet.bmail.ag https://*.meet.bmail.ag:7443 wss://*.meet.bmail.ag:7443; ";
   "font-src 'self'; "; "frame-src 'self' https://challenges.cloudflare.com; ";
   "object-src 'none'; "; "base-uri 'self'; "; "form-action 'self'; "; "frame-ancestors 'none'"]%string.

Definition csp : string := String.concat "" csp_directives.

Definition security_headers : gmap string string :=
  {[ "Content-Security-Policy" := csp;
     "X-Content-Type-Options" := "nosniff";
     "X-Frame-Options" := "DENY";
     "Strict-Transport-Security" := "max-age=31536000; includeSubDomains; preload";
     "Referrer-Policy" := "strict-origin-when-cross-origin";
     "Permissions-Policy" := "camera=(self), microphone=(self), geolocation=(), payment=(), usb=()";
     "X-XSS-Protection" := "0" ]}%string.

(** [SecurityHeaders]: set before the next handler runs, which may set its own. *)
Definition SecurityHeaders (next : request -> response) (r : request) : response :=
  let resp := next r in
  {| rstatus := rstatus resp; rheader := rheader resp ∪ security_headers; rbody := rbody resp |}.

(** * cmd/gateway/main.go: the outermost handler *)

(** The domains of GATEWAY_DOMAINS. *)
Definition parse_domains (env : bytes) : list bytes :=
  if bool_decide (env = []) then []
  else filter (fun d => d <> []) (TrimSpace <$> split_byte "," env).

(** A permanent redirect, or what the handler inside answers. *)
Inductive edge := Moved (target : string) | Answered (r : response).

Definition edge_handler (domains : list string) (mux : request -> response) (r : request) : edge :=
  let handler := SecurityHeaders mux in
  match domains with
  | [] => Answered (handler r)
  | primaryDomain :: _ =>
      match primary_redirect primaryDomain r with
      | Some target => Moved target
      | None => Answered (handler r)
      end
  end.

(** The headers of the answer: [http.Redirect] sets the location, and the type
    of the short text it writes. *)
Definition edge_header (e : edge) : gmap string string :=
  match e with
  | Moved t => {[ "Location" := t; "Content-Type" := "text/html; charset=utf-8" ]}%string
  | Answered r => rheader r
  end.

(** ** Static files *)

Inductive static_result := ServeExact (path : bytes) (immutable : bool) | ServeIndex (path : bytes).

(** The handler of "/"; [Stat] tells whether there is something at a path, and
    whether it is a directory. *)
Definition static_handler (webRoot : bytes) (Stat : bytes -> option bool) (urlPath : bytes) : static_result :=
  let path := Join webRoot (Clean urlPath) in
  match Stat path with
  | Some false => ServeExact path (HasPrefix urlPath (bs "/assets/"))
  | _ => ServeIndex (Join webRoot (bs "index.html"))
  end.

(** ** The image proxy *)

(** [IP.IsLinkLocalUnicast], [IP.IsLinkLocalMulticast], [IP.IsUnspecified]. *)
Definition IsLinkLocalUnicast (ip : IP) : bool :=
  match To4 ip with
  | Some (a :: b :: _) => (a =? 169) && (b =? 254)
  | _ => match ip with a :: b :: _ => (length ip =? 16)%nat && (a =? 254) && (Z.land b 192 =? 128) | _ => false end
  end.

Definition IsLinkLocalMulticast (ip : IP) : bool :=
  match To4 ip with
  | Some (a :: b :: c :: _) => (a =? 224) && (b =? 0) && (c =? 0)
  | _ => match ip with a :: b :: _ => (length ip =? 16)%nat && (a =? 255) && (Z.land b 15 =? 2) | _ => false end
  end.

Definition IsUnspecified (ip : IP) : bool :=
  match To4 ip with
  | Some v4 => bool_decide (v4 = [0; 0; 0; 0])
  | None => bool_decide (ip = replicate 16 0)
  end.

Definition blocked_address (ip : IP) : bool :=
  IsLoopback ip || IsPrivate ip || IsLinkLocalUnicast ip || IsLinkLocalMulticast ip || IsUnspecified ip.

(** [net.JoinHostPort] *)
Definition JoinHostPort (host port : bytes) : bytes :=
  if bool_decide (":"%byte ∈ host) || bool_decide ("%"%byte ∈ host)
  then ["["%byte] ++ host ++ bs "]:" ++ port else host ++ ":"%byte :: port.

(** The cookie that lets a browser use the proxy: any value will do. *)
Definition proxy_cookie (c : cookie) : bool :=
  (bool_decide (CName c = bs "bmail_session") || bool_decide (CName c = bs "bmail_fakeid_session") ||
   HasPrefix (CName c) (bs "bmail_session_")) && negb (bool_decide (CValue c = [])).

(** What the server behind an address answers a GET. *)
Inductive hop := HopFails | HopRedirect (url : bytes) | HopDone (r : upstream_response).

Section image_proxy.
(** net/url: the scheme and the host name of a URL, and the port a client dials
    for it; the resolver; the network: what is found behind a dialled address
    when a URL is asked for there. *)
Context (Parse : bytes -> option (bytes * bytes)) (port_of : bytes -> bytes) (request_ok : bytes -> bool)
  (LookupIPAddr : bytes -> option (list IP)) (net : bytes -> bytes -> hop).

(** [proxyClient.Do]: each request is dialled at [resolvedAddr], whatever host
    its URL names; a redirect is refused when three requests were made.  With
    the answer, the addresses dialled. *)
Fixpoint proxy_do (fuel : nat) (resolvedAddr : bytes) (made : Z) (url : bytes) :
    option upstream_response * list bytes :=
  match fuel with
  | O => (None, [])
  | S fuel =>
      let addr := JoinHostPort resolvedAddr (port_of url) in
      match net addr url with
      | HopFails => (None, [addr])
      | HopDone r => (Some r, [addr])
      | HopRedirect url' =>
          if 3 <=? made + 1 then (None, [addr])
          else let '(r, log) := proxy_do fuel resolvedAddr (made + 1) url' in (r, addr :: log)
      end
  end.

(** The addresses of the host: what the resolver finds, or the literal. *)
Definition proxy_addresses (host : bytes) : option (list IP) :=
  match LookupIPAddr host with
  | Some (ip :: ips) => Some (ip :: ips)
  | _ => match ParseIP host with Some ip => Some [ip] | None => None end
  end.

(** [newImageProxyHandler]: the response, and the addresses dialled.
    [targetURL] is the query's "url". *)
Definition imageProxy (h : Header) (targetURL : bytes) : response * list bytes :=
  if negb (existsb proxy_cookie (readCookies h)) then (http_error_json 401 "authentication required", [])
  else if bool_decide (targetURL = []) then (http_error_json 400 "url parameter required", [])
  else match Parse targetURL with
  | None => (http_error_json 400 "invalid url", [])
  | Some (scheme, host) =>
      if negb (bool_decide (scheme = bs "http") || bool_decide (scheme = bs "https"))
      then (http_error_json 400 "invalid url", [])
      else match proxy_addresses host with
      | None => (http_error_json 502 "dns resolution failed", [])
      | Some ips =>
          if existsb blocked_address ips then (http_error_json 403 "blocked address", [])
          else match ips with
          | [] => (http_error_json 502 "dns resolution failed", [])
          | ip :: _ =>
              let resolvedAddr := IP_String ip in
              if negb (request_ok targetURL) then (http_error_json 400 "invalid request", [])
              else match proxy_do 3 resolvedAddr 0 targetURL with
              | (None, log) => (http_error_json 502 "fetch failed", log)
              | (Some resp, log) =>
                  let h : gmap string string :=
                    if String.eqb (uctype resp) "" then ∅ else {[ "Content-Type" := uctype resp ]}%string in
                  ({| rstatus := ustatus resp;
                      rheader := <["Cache-Control"%string := "public, max-age=86400"%string]> h;
                      rbody := limit_reader (10 * 2 ^ 20) (uread resp) |}, log)
              end
          end
      end
  end.
End image_proxy.

(** * Lemmas *)

Lemma base64_cons s : s <> [] -> base64 s <> [].
Proof. by destruct s as [|a [|b [|c s]]]. Qed.

Lemma limit_reader_le n b : 0 <= n -> Z.of_nat (length (limit_reader n b)) <= n.
Proof.
  intros Hn. unfold limit_reader. destruct (Z.leb_spec (Z.of_nat (length b)) n); [done|].
  rewrite length_take. lia.
Qed.

Lemma read_limited_le n r b : 0 <= n -> read_limited n r = Some b -> Z.of_nat (length b) <= n.
Proof.
  intros Hn. unfold read_limited. destruct (Z.leb_spec n (Z.of_nat (length (uread r)))).
  - intros [= <-]. by apply limit_reader_le.
  - destruct (ubroken r); [done|]. intros [= <-]. lia.
Qed.

(** ** Cleaning a rooted path leaves no ".." *)

Lemma clean_stack cs stack :
  Forall (fun c => "/"%byte ∉ c) cs -> Forall (fun c => proper c /\ "/"%byte ∉ c) stack ->
  Forall (fun c => proper c /\ "/"%byte ∉ c) (foldl (clean_step true) stack cs).
Proof.
  intros Hcs. revert stack. induction Hcs as [|c cs Hc _ IH]; intros stack Hs; [done|].
  cbn [foldl]. apply IH. unfold clean_step.
  destruct (bool_decide (c = []) || bool_decide (c = string_bytes "."))%bool eqn:E1; [done|].
  apply orb_false_iff in E1 as [E1 E2]. bool_prop. case_bool_decide as E3.
  - destruct Hs as [|top rest [Ht Hts] Hr]; [constructor|]. case_bool_decide; [|done].
    destruct Ht as (_ & _ & ?). done.
  - constructor; [|done]. by split.
Qed.

Lemma split_no_sep c s : Forall (fun w => c ∉ w) (split_byte c s).
Proof.
  induction s as [|x s IH]; cbn; [by repeat constructor; set_solver|].
  destruct (byte_eqb x c) eqn:E; [constructor; [set_solver|done]|].
  destruct (split_byte c s) as [|w ws]; inversion IH; subst; constructor; try done.
  all: apply not_elem_of_cons; split; [|set_solver].
  all: intros ->; by rewrite (proj2 (byte_eqb_eq x x) eq_refl) in E.
Qed.

Lemma fields_joined cs :
  cs <> [] -> Forall (fun c => "/"%byte ∉ c) cs -> split_byte "/" (join_slash cs) = cs.
Proof.
  intros Hne Hcs. induction Hcs as [|c cs Hc Hcs IH]; [done|].
  destruct cs as [|d cs]; [by apply split_byte_none|].
  change (join_slash (c :: d :: cs)) with (c ++ "/"%byte :: join_slash (d :: cs)).
  rewrite split_byte_app_sep, split_byte_none, IH by done. done.
Qed.

Lemma Clean_rooted_components p :
  Forall (fun c => c <> string_bytes "..") (split_byte "/" (Clean ("/"%byte :: p))).
Proof.
  unfold Clean. cbv iota.
  pose proof (clean_stack (split_byte "/" ("/"%byte :: p)) [] (split_no_sep _ _) (List.Forall_nil _)) as H.
  set (st := foldl _ _ _) in *. cbn [split_byte byte_eqb].
  change (split_byte "/" ("/"%byte :: join_slash (rev st))) with ([] :: split_byte "/" (join_slash (rev st))).
  constructor; [done|]. destruct (decide (rev st = [])) as [->|Hne]; [by repeat constructor|].
  apply List.Forall_rev in H. rewrite fields_joined; [|done|].
  - eapply Forall_impl; [exact H|]. by intros c [(_ & _ & ?) _].
  - eapply Forall_impl; [exact H|]. by intros c [_ ?].
Qed.

(** ** Redirects of the image proxy *)

Section image_lemmas.
Context (port_of : bytes -> bytes) (net : bytes -> bytes -> hop).

Lemma proxy_do_log fuel ra made url :
  Forall (fun a => exists port, a = JoinHostPort ra port) (proxy_do port_of net fuel ra made url).2 /\
  (length (proxy_do port_of net fuel ra made url).2 <= fuel)%nat.
Proof.
  revert made url. induction fuel as [|fuel IH]; intros made url; cbn [proxy_do]; [by split; [constructor|]|].
  set (addr := JoinHostPort ra (port_of url)).
  assert (Forall (fun a => exists port, a = JoinHostPort ra port) [addr] /\ (length [addr] <= S fuel)%nat)
    as Hone by (split; [by apply Forall_singleton; eexists|cbn; lia]).
  destruct (net addr url) as [|url'|r]; [done| |done]. destruct (3 <=? made + 1); [done|].
  destruct (IH (made + 1) url') as [Hl Hn]. destruct (proxy_do _ _ fuel _ _ url') as [r log]. cbn in *.
  split; [constructor; [by eexists|done]|lia].
Qed.

(** Three requests are enough fuel: the client itself refuses the fourth. *)
Lemma proxy_do_fuel fuel ra made url :
  0 <= made < 3 -> (Z.to_nat (3 - made) <= fuel)%nat ->
  proxy_do port_of net fuel ra made url = proxy_do port_of net (Z.to_nat (3 - made)) ra made url.
Proof.
  revert made url. induction fuel as [|fuel IH]; intros made url Hm Hf; [lia|].
  destruct (Z.to_nat (3 - made)) as [|n] eqn:En; [lia|]. cbn [proxy_do].
  destruct (net _ url) as [|url'|r]; [done| |done].
  destruct (Z.leb_spec 3 (made + 1)); [done|].
  rewrite IH by lia. by replace (Z.to_nat (3 - (made + 1))) with n by lia.
Qed.
End image_lemmas.

Lemma proxy_addresses_nonempty L host ips : proxy_addresses L host = Some ips -> ips <> [].
Proof.
  unfold proxy_addresses. destruct (L host) as [[|ip l]|]; [|by intros [= <-]|];
    destruct (ParseIP host); by intros [= <-].
Qed.

(** * Properties *)

(** The certificate cache over any cache is a cache again, so autocert
    finds what it stored; and beneath it, whatever was stored and deleted
    since the store was empty, every entry of a TLS key is a sealing of bytes
    stored under that name, which this build reads back.  For a build that
    cannot unseal them every such entry is a miss, which makes autocert ask
    for a new certificate, while the account entries are all still there. *)
Theorem sealed_cache_seals {E St} (inner : Cache (E := E) St) `{!CacheLaws inner} seal unseal s ops
    (HS : seals seal unseal) (H0 : forall k b, cache_get inner s k <> Ok b) :
  CacheLaws (SealedDirCache seal unseal inner) /\
  let s' := foldl (cache_step seal unseal inner) s ops in
  (forall k b, cache_get inner s' k = Ok b -> shouldSeal k = true ->
     exists d, OpPut k d ∈ ops /\ seal d = Some b /\
       cache_get (SealedDirCache seal unseal inner) s' k = Ok d) /\
  (forall seal2 unseal2 k b, cache_get inner s' k = Ok b ->
     (forall d c, seal d = Some c -> unseal2 c = None) ->
     cache_get (SealedDirCache seal2 unseal2 inner) s' k =
       if shouldSeal k then Err ErrCacheMiss else Ok b).
Proof.
  split; [by apply sealed_laws|]. cbv zeta.
  pose proof (disk_run seal unseal inner ops s H0) as Hd. split.
  - intros k b Hk Hs. destruct (Hd k b Hk) as (d & Hin & Hb). rewrite Hs in Hb.
    exists d. split_and!; [done..|]. cbn. unfold sealed_get. by rewrite Hk, Hs, (HS _ _ Hb).
  - intros seal2 unseal2 k b Hk Hu. destruct (Hd k b Hk) as (d & _ & Hb). cbn. unfold sealed_get.
    rewrite Hk. destruct (shouldSeal k); cbn; [by rewrite (Hu _ _ Hb)|done].
Qed.

(** A directory whose writes never fail. *)
Definition map_cache : Cache (E := unit) (gmap string bytes) :=
  {| cache_get m k := match m !! k with Some b => Ok b | None => Err ErrCacheMiss end;
     cache_put m k d := (None, <[k := d]> m);
     cache_delete m k := (None, delete k m) |}.

#[export] Instance map_cache_laws : CacheLaws map_cache.
Proof.
  split; cbn.
  - intros s k d s' [= <-]. by rewrite lookup_insert_eq.
  - done.
  - intros s k d k' Hk. by rewrite lookup_insert_ne.
  - intros s k s' [= <-]. by rewrite lookup_delete_eq.
  - done.
  - intros s k k' Hk. by rewrite lookup_delete_ne.
Qed.

Definition toy_seal (tag : byte) (d : bytes) : option bytes := Some (tag :: d).

Definition toy_unseal (tag : byte) (c : bytes) : option bytes :=
  match c with t :: d => if byte_eqb t tag then Some d else None | [] => None end.

Lemma toy_seals tag : seals (toy_seal tag) (toy_unseal tag).
Proof. intros d c [= <-]. cbn. by rewrite (proj2 (byte_eqb_eq tag tag) eq_refl). Qed.

Definition toy_ops : list cache_op :=
  [OpPut "bmail.ag" (bs "PRIVATE KEY"); OpPut "acme_account+key" (bs "ACCOUNT")].

Lemma sealed_cache_seals_witness :
  cache_get (SealedDirCache (toy_seal x02) (toy_unseal x02) map_cache)
    (foldl (cache_step (toy_seal x01) (toy_unseal x01) map_cache) ∅ toy_ops) "bmail.ag" = Err ErrCacheMiss /\
  cache_get (SealedDirCache (toy_seal x02) (toy_unseal x02) map_cache)
    (foldl (cache_step (toy_seal x01) (toy_unseal x01) map_cache) ∅ toy_ops) "acme_account+key" =
    Ok (bs "ACCOUNT").
Proof.
  assert (forall k b, cache_get map_cache ∅ k <> Ok b) as H0 by (intros k b; cbn; by rewrite lookup_empty).
  destruct (sealed_cache_seals map_cache (toy_seal x01) (toy_unseal x01) ∅ toy_ops (toy_seals x01) H0)
    as (_ & _ & H). split.
  - rewrite (H _ _ "bmail.ag" (x01 :: bs "PRIVATE KEY")); [reflexivity|vm_compute; reflexivity|].
    by intros d c [= <-].
  - rewrite (H _ _ "acme_account+key" (bs "ACCOUNT")); [reflexivity|vm_compute; reflexivity|].
    by intros d c [= <-].
Defined.

(** The image proxy connects to checked addresses only: every address it
    dials, also after redirects to other hosts, is that of the first address
    the host of the query's URL had when it was looked up, none of whose
    addresses is loopback, private, link-local or unspecified; it makes three
    requests at most, and answers with at most 10 MiB. *)
Theorem image_proxy_dials_checked Parse port_of request_ok L net h targetURL resp log
    (HP : imageProxy Parse port_of request_ok L net h targetURL = (resp, log)) :
  (log = [] \/ exists scheme host ip ips, Parse targetURL = Some (scheme, host) /\
     proxy_addresses L host = Some (ip :: ips) /\ blocked_address ip = false /\
     Forall (fun a => exists port, a = JoinHostPort (IP_String ip) port) log) /\
  (length log <= 3)%nat /\
  Z.of_nat (length (rbody resp)) <= 10 * 2 ^ 20.
Proof.
  unfold imageProxy in HP.
  repeat match type of HP with
  | (if ?b then _ else _) = _ => destruct b;
      [injection HP as <- <-; split_and!; [by left|cbn; lia|vm_compute; done]|]
  end.
  destruct (Parse targetURL) as [[scheme host]|] eqn:EP;
    [|injection HP as <- <-; split_and!; [by left|cbn; lia|vm_compute; done]].
  destruct (negb _); [injection HP as <- <-; split_and!; [by left|cbn; lia|vm_compute; done]|].
  destruct (proxy_addresses L host) as [ips|] eqn:EA;
    [|injection HP as <- <-; split_and!; [by left|cbn; lia|vm_compute; done]].
  destruct (existsb blocked_address ips) eqn:EB;
    [injection HP as <- <-; split_and!; [by left|cbn; lia|vm_compute; done]|].
  destruct ips as [|ip ips]; [by apply proxy_addresses_nonempty in EA|].
  destruct (negb _); [injection HP as <- <-; split_and!; [by left|cbn; lia|vm_compute; done]|].
  destruct (proxy_do_log port_of net 3 (IP_String ip) 0 targetURL) as [Hlog Hlen].
  destruct (proxy_do _ _ _ _ _ _) as [[r|] log'] eqn:ED; injection HP as <- <-.
  all: (split; [right; exists scheme, host, ip, ips; split_and!; try done;
                cbn in EB; by apply orb_false_iff in EB as [? _]|split; [done|]]).
  - cbn [rbody]. by apply limit_reader_le.
  - vm_compute. done.
Qed.

Definition toy_parse (u : bytes) : option (bytes * bytes) :=
  if HasPrefix u (bs "http://") then Some (bs "http", TrimPrefix u (bs "http://")) else None.

Definition toy_lookup (host : bytes) : option (list IP) :=
  if bool_decide (host = bs "cdn.example") then Some [[203; 0; 113; 7]]
  else if bool_decide (host = bs "inside.example") then Some [[203; 0; 113; 7]; [127; 0; 0; 1]]
  else None.

(** Every server sends the client on to the cloud's metadata address. *)
Definition toy_net (addr url : bytes) : hop := HopRedirect (bs "http://169.254.169.254/latest").

Definition logged_in : Header := {[ "Cookie" := ["bmail_session_0=anything"] ]}%string.

Lemma image_proxy_dials_checked_witness :
  let '(resp, log) := imageProxy toy_parse (fun _ => bs "80") (fun _ => true) toy_lookup toy_net
      logged_in (bs "http://cdn.example") in
  log = replicate 3 (bs "203.0.113.7:80") /\ (length log <= 3)%nat /\
  rstatus (imageProxy toy_parse (fun _ => bs "80") (fun _ => true) toy_lookup toy_net
      logged_in (bs "http://inside.example")).1 = 403.
Proof.
  destruct (imageProxy toy_parse (fun _ => bs "80") (fun _ => true) toy_lookup toy_net
      logged_in (bs "http://cdn.example")) as [resp log] eqn:E.
  destruct (image_proxy_dials_checked _ _ _ _ _ _ _ _ _ E) as (_ & Hl & _).
  split_and!; [|exact Hl|vm_compute; reflexivity].
  apply (f_equal snd) in E. cbn [snd] in E. rewrite <-E. vm_compute. reflexivity.
Defined.

Lemma token_value b : token_byte b = true -> cookie_value_byte b = true /\ b <> x20 /\ b <> x2c.
Proof. destruct b; intros H; vm_compute in H; try discriminate H; by split_and!. Qed.

Lemma any_session_value value :
  forallb token_byte value = true -> value <> [] ->
  existsb proxy_cookie (readCookies {["Cookie"%string := [bytes_string (bs "bmail_session=" ++ value)]]}) = true.
Proof.
  intros Hv Hn. apply forallb_Forall in Hv.
  set (c := {| CName := bs "bmail_session"; CValue := value; Quoted := false |}).
  assert (Hg : good_cookie c).
  { split; [done|]. apply forallb_Forall. eapply Forall_impl; [exact Hv|]. intros b Hb.
    by apply token_value. }
  assert (Hp : cookie_pair c = bs "bmail_session=" ++ value).
  { unfold cookie_pair, sanitizeCookieValue. cbn [CName CValue Quoted c].
    rewrite value_filter_id, !bool_decide_eq_false_2; [done|..|done|by apply Hg].
    all: intros Hb; rewrite Forall_forall in Hv; apply Hv, token_value in Hb as (_ & ? & ?); done. }
  unfold readCookies. rewrite lookup_singleton_eq. cbn [default from_option id mbind list_bind].
  rewrite app_nil_r, string_bytes_string, <-Hp.
  assert (Forall2 same_cookie [c] (read_line (cookie_pair c))) as H
    by (apply (read_written c []); by constructor).
  inversion H as [|? c' ? ? [En Ev] Hnil]; subst. inversion Hnil; subst. cbn [existsb].
  unfold proxy_cookie. rewrite <-En, <-Ev. cbn [CName CValue c].
  rewrite (bool_decide_eq_true_2 (bs "bmail_session" = bs "bmail_session")) by done.
  by rewrite (bool_decide_eq_false_2 (value = [])) by done.
Qed.

(** The proxy hands on whatever type the other server names: a page or a
    script of any site is served, from the gateway's own origin, to whoever
    sends a cookie of the right name, whatever its value. *)
Theorem image_proxy_serves_any_type Parse port_of L scheme host ip ips targetURL ct body value
    (HU : targetURL <> []) (HP : Parse targetURL = Some (scheme, host)) (HS : scheme = bs "https")
    (HL : L host = Some (ip :: ips)) (HB : existsb blocked_address (ip :: ips) = false)
    (HT : ct <> ""%string) (HZ : Z.of_nat (length body) <= 10 * 2 ^ 20)
    (HV : forallb token_byte value = true) (HN : value <> []) :
  exists net, let resp := (imageProxy Parse port_of (fun _ => true) L net
      {["Cookie"%string := [bytes_string (bs "bmail_session=" ++ value)]]} targetURL).1 in
    rstatus resp = 200 /\ rheader resp !! "Content-Type"%string = Some ct /\ rbody resp = body.
Proof.
  exists (fun _ _ => HopDone {| ustatus := 200; uctype := ct; uread := body; ubroken := false |}).
  cbv zeta. unfold imageProxy.
  assert (existsb proxy_cookie (readCookies {["Cookie"%string :=
    [bytes_string (bs "bmail_session=" ++ value)]]}) = true) as ->.
  { by apply any_session_value. }
  cbn [negb]. rewrite bool_decide_eq_false_2 by done. rewrite HP, HS. cbn [bool_decide orb negb].
  rewrite (bool_decide_eq_true_2 (bs "https" = bs "https")), orb_true_r by done. cbn [negb].
  unfold proxy_addresses. rewrite HL, HB. cbn [proxy_do fst rstatus rheader rbody uctype ustatus uread].
  destruct (String.eqb_spec ct ""); [done|]. split_and!; [done| |].
  - rewrite lookup_insert_ne by done. apply lookup_singleton_eq.
  - unfold limit_reader. by rewrite (proj2 (Z.leb_le _ _) HZ).
Qed.

Lemma image_proxy_serves_any_type_witness : exists net,
  let resp := (imageProxy (fun u => Some (bs "https", bs "cdn.example")) (fun _ => bs "443") (fun _ => true)
      toy_lookup net {["Cookie"%string := [bytes_string (bs "bmail_session=" ++ bs "x")]]}
      (bs "https://cdn.example/x.js")).1 in
  rstatus resp = 200 /\ rheader resp !! "Content-Type"%string = Some "text/javascript"%string /\
  rbody resp = bs "alert(1)".
Proof.
  apply (image_proxy_serves_any_type _ _ _ (bs "https") (bs "cdn.example") [203; 0; 113; 7] []);
    (reflexivity || discriminate).
Defined.

(** The cache after some requests. *)
Definition release_run (rs : list release_request) : releaseProxy :=
  foldl (fun p r => (releaseServe p r).1.2) ∅ rs.

Definition fetched_by (r : release_request) (name : string) (e : releaseCacheEntry) : Prop :=
  exists url resp, releaseURLs name = Some url /\ fetch r url = Some resp /\ ustatus resp = 200 /\
    read_limited (2 ^ 20) resp = Some (ebody e) /\ expires e = filled r + releaseCacheTTL.

Lemma releaseServe_cases p r :
  (rstatus (releaseServe p r).1.1 = 200 /\
     ((exists e, p !! trim_prefix (rpath r) "/verify/" = Some e /\ asked r < expires e /\
         rbody (releaseServe p r).1.1 = ebody e /\ (releaseServe p r).1.2 = p) \/
      (exists e, fetched_by r (trim_prefix (rpath r) "/verify/") e /\
         rbody (releaseServe p r).1.1 = ebody e /\
         (releaseServe p r).1.2 = <[trim_prefix (rpath r) "/verify/" := e]> p))) \/
  (rstatus (releaseServe p r).1.1 <> 200 /\ (releaseServe p r).1.2 = p).
Proof.
  unfold releaseServe. destruct (negb _); [by right|].
  set (name := trim_prefix _ _). destruct (releaseURLs name) as [url|] eqn:EU; [|by right].
  assert (HF : (exists e, fetched_by r name e /\ rstatus (releaseFetch p r name url).1.1 = 200 /\
      rbody (releaseFetch p r name url).1.1 = ebody e /\ (releaseFetch p r name url).1.2 = <[name := e]> p) \/
    (rstatus (releaseFetch p r name url).1.1 <> 200 /\ (releaseFetch p r name url).1.2 = p)).
  { unfold releaseFetch. destruct (fetch r url) as [resp|] eqn:Ef; [|by right].
    destruct (Z.eqb_spec (ustatus resp) 200) as [Hs|Hs]; [|by right]. cbn [negb].
    destruct (read_limited (2 ^ 20) resp) as [body|] eqn:Eb; [|by right].
    left. set (ct := if String.eqb (uctype resp) "" then "application/json"%string else uctype resp).
    exists {| ebody := body; contentType := ct; expires := filled r + releaseCacheTTL |}.
    split_and!; [|done..]. exists url, resp. by split_and!. }
  destruct (p !! name) as [e|] eqn:Ep.
  - destruct (Z.ltb_spec (asked r) (expires e)).
    + left. split; [done|]. left. by exists e.
    + destruct HF as [(e' & ? & ? & ? & ?)|?]; [left; split; [done|]; right; by exists e'|by right].
  - destruct HF as [(e' & ? & ? & ? & ?)|?]; [left; split; [done|]; right; by exists e'|by right].
Qed.

Lemma release_inv rs name e :
  release_run rs !! name = Some e -> exists r, r ∈ rs /\ fetched_by r name e.
Proof.
  unfold release_run. induction rs as [|r rs IH] using rev_ind; [cbn [foldl]; by rewrite lookup_empty|].
  rewrite foldl_app. cbn [foldl]. set (p := foldl _ _ rs) in *.
  assert (Hold : p !! name = Some e -> exists r0, r0 ∈ rs ++ [r] /\ fetched_by r0 name e).
  { intros Hp. destruct (IH Hp) as (r0 & Hr & Hf). exists r0. split; [|done]. apply elem_of_app. by left. }
  destruct (releaseServe_cases p r) as [(_ & [(e0 & _ & _ & _ & ->)|(e0 & Hf & _ & ->)])|[_ ->]];
    [done| |done].
  destruct (decide (trim_prefix (rpath r) "/verify/" = name)) as [<-|Hne].
  - rewrite lookup_insert_eq. intros [= ->]. exists r. split; [apply elem_of_app; right; left|done].
  - rewrite lookup_insert_ne by done. done.
Qed.

(** Whatever was asked before, a release the proxy answers with status 200
    was fetched for this request, or for an earlier one less than five minutes
    ago, from one of two fixed addresses, with status 200, and is at most a
    megabyte. *)
Theorem released_json_is_fresh rs r :
  let '(resp, p', _) := releaseServe (release_run rs) r in
  rstatus resp = 200 ->
  exists r0 e, r0 ∈ rs ++ [r] /\ fetched_by r0 (trim_prefix (rpath r) "/verify/") e /\
    rbody resp = ebody e /\ Z.of_nat (length (rbody resp)) <= 2 ^ 20 /\
    (r0 = r \/ asked r < filled r0 + 300).
Proof.
  destruct (releaseServe (release_run rs) r) as [[resp p'] u] eqn:E. intros H200.
  destruct (releaseServe_cases (release_run rs) r) as [(_ & Hc)|[Hne _]]; rewrite E in *; cbn [fst snd] in *;
    [|done].
  assert (Hlen : forall r0 e, fetched_by r0 (trim_prefix (rpath r) "/verify/") e ->
    Z.of_nat (length (ebody e)) <= 2 ^ 20).
  { intros r0 e (url & rr & _ & _ & _ & Hb & _). by eapply read_limited_le. }
  destruct Hc as [(e & Hp & Ht & Hb & _)|(e & Hf & Hb & _)].
  - apply release_inv in Hp as (r0 & Hr & Hf). exists r0, e. rewrite Hb. split_and!; try done.
    + apply elem_of_app. by left.
    + by eapply Hlen.
    + right. destruct Hf as (? & ? & _ & _ & _ & _ & He). unfold releaseCacheTTL in He. lia.
  - exists r, e. rewrite Hb. split_and!; try done; [apply elem_of_app; right; left|by eapply Hlen|by left].
Qed.

(** The check the attestation endpoint documents holds of what it answers:
    the quote's report data is the digest of the identity key in the answer, or
    of the TLS key where there is no identity. *)
Theorem attestation_answer_verifies sha256 Attest SelfID report_data identity tlsKeyFn tlsPubKey
    (HA : forall d q, Attest d = Some q -> report_data q = Some d) :
  (forall method now r, identity <> [] ->
     AttestationHandlerWithIdentity sha256 Attest SelfID identity tlsKeyFn method now = Attested r ->
     verifier_accepts sha256 report_data r = true) /\
  (forall method now r, tlsPubKey <> [] ->
     AttestationHandler sha256 Attest SelfID tlsPubKey method now = Attested r ->
     verifier_accepts sha256 report_data r = true).
Proof.
  split; intros method now r Hne H.
  - unfold AttestationHandlerWithIdentity, attestationHandlerCoreFn in H.
    destruct (negb _); [done|]. destruct (Attest _) as [q|] eqn:Eq; [|done]. injection H as <-.
    unfold verifier_accepts. cbn [AttestationReport IdentityPublicKey TLSPublicKey].
    rewrite base64_decode_base64, (HA _ _ Eq).
    destruct identity as [|b identity]; [done|]. pose proof (base64_cons (b :: identity) Hne).
    destruct (base64 (b :: identity)) as [|c l] eqn:Eb; [done|].
    rewrite <-Eb, base64_decode_base64. by apply bool_decide_eq_true_2.
  - unfold AttestationHandler, attestationHandlerCoreFn in H.
    destruct (negb _); [done|]. destruct (Attest _) as [q|] eqn:Eq; [|done]. injection H as <-.
    unfold verifier_accepts. cbn [AttestationReport IdentityPublicKey TLSPublicKey default from_option id].
    rewrite base64_decode_base64, (HA _ _ Eq).
    destruct tlsPubKey as [|b k]; [done|]. rewrite base64_decode_base64. by apply bool_decide_eq_true_2.
Qed.

Definition toy_digest (b : bytes) : bytes := rev b.

Lemma attestation_answer_verifies_witness : exists r,
  AttestationHandlerWithIdentity toy_digest (fun d => Some (x51 :: d)) "mr" (bs "IDKEY") (Some (bs "TLS"))
    "GET" "2026-01-01T00:00:00Z" = Attested r /\
  verifier_accepts toy_digest (fun q => Some (drop 1 q)) r = true.
Proof.
  eexists. split; [reflexivity|].
  destruct (attestation_answer_verifies toy_digest (fun d => Some (x51 :: d)) "mr"
    (fun q => Some (drop 1 q)) (bs "IDKEY") (Some (bs "TLS")) (bs "TLS")) as [H _].
  - by intros d q [= <-].
  - apply (H "GET"%string "2026-01-01T00:00:00Z"%string); [done|reflexivity].
Defined.

(** The answer as somebody on the way may rewrite it. *)
Definition with_tls_key (r : AttestationResponse) (other : bytes) : AttestationResponse :=
  {| AttestationReport := AttestationReport r; IdentityPublicKey := IdentityPublicKey r;
     TLSPublicKey := other; EnclaveMeasurement := EnclaveMeasurement r; Timestamp := Timestamp r |}.

(** Nothing ties the gateway's TLS key to its quote: the answer with any other
    TLS key in its place passes the same check, so whoever relays the
    gateway's answer can put the key of their own certificate there. *)
Theorem gateway_tls_key_unattested sha256 report_data r other
    (HI : IdentityPublicKey r <> []) :
  verifier_accepts sha256 report_data (with_tls_key r other) = verifier_accepts sha256 report_data r.
Proof.
  unfold verifier_accepts, with_tls_key. cbn [AttestationReport IdentityPublicKey TLSPublicKey].
  by destruct (IdentityPublicKey r).
Qed.

Definition own_answer : AttestationResponse :=
  {| AttestationReport := base64 (x51 :: toy_digest (bs "IDKEY")); IdentityPublicKey := base64 (bs "IDKEY");
     TLSPublicKey := base64 (bs "TLS"); EnclaveMeasurement := "mr"; Timestamp := "now" |}.

Lemma gateway_tls_key_unattested_witness :
  verifier_accepts toy_digest (fun q => Some (drop 1 q)) (with_tls_key own_answer (base64 (bs "MITM"))) = true.
Proof.
  rewrite (gateway_tls_key_unattested toy_digest (fun q => Some (drop 1 q)) own_answer);
    [vm_compute; reflexivity|discriminate].
Defined.

(** Of the other enclaves only the configured four are asked, and what is
    passed on with status 200 is valid JSON of at most 64 KiB. *)
Theorem quotes_are_bounded_json json_valid url_ok Do own upstreams method name
    (HN : name <> "gateway"%string) (HV : json_valid [] = false)
    (H : rstatus (sgxQuotes json_valid url_ok Do own upstreams method name) = 200) :
  name ∈ proxied_names /\ is_Some (upstreams !! name) /\
  json_valid (rbody (sgxQuotes json_valid url_ok Do own upstreams method name)) = true /\
  Z.of_nat (length (rbody (sgxQuotes json_valid url_ok Do own upstreams method name))) <= 65536.
Proof.
  unfold sgxQuotes in *. destruct (negb _); [done|]. destruct (String.eqb_spec name "gateway"); [done|].
  case_bool_decide as Hn; [|done]. split; [done|].
  destruct (upstreams !! name) as [u|]; [|done]. cbn [default from_option id] in *.
  destruct (String.eqb u ""); [done|]. split; [by eexists|]. unfold proxyTo in *.
  destruct (negb _); [done|]. destruct (Do u) as [resp|]; [|done].
  destruct (read_limited _ resp) as [b|] eqn:Eb; [|done].
  destruct (negb (ok_2xx _)); [done|]. destruct (json_valid b) eqn:Ej; [|done].
  cbn [rbody]. split; [done|]. by eapply read_limited_le in Eb.
Qed.

Lemma quotes_are_bounded_json_witness : Z.of_nat (length (rbody (sgxQuotes (fun b => negb (bool_decide (b = [])))
   (fun _ => true) (fun _ => Some {| ustatus := 200; uctype := ""; uread := replicate 100 x20; ubroken := false |})
   not_found {["payment" := "https://127.0.0.1:9443/attestation"]}%string "GET" "payment"))) <= 65536.
Proof.
  refine (proj2 (proj2 (proj2 (quotes_are_bounded_json _ _ _ _ _ "GET" "payment" _ _ _)))).
  - discriminate.
  - reflexivity.
  - vm_compute. reflexivity.
Defined.

(** The readiness check answers 200 exactly when every check passes. *)
Theorem ready_iff_all_pass checks :
  (readiness checks).1 = 200 <-> Forall (fun c => c.2 = None) checks.
Proof.
  unfold readiness.
  assert (forall (rs : gmap string string) ok,
    (foldl (fun '(rs, ok) '(name, err) => match err with
       | Some e => (<[name := e]> rs, false)
       | None => (<[name := "ok"%string]> rs, ok) end) (rs, ok) checks).2 = true <->
    ok = true /\ Forall (fun c : string * option string => c.2 = None) checks) as H.
  { induction checks as [|[n [e|]] cs IH]; intros rs ok; cbn [foldl].
    - cbn. split; [intros ->|intros [? _]]; [by split; [|constructor]|done].
    - rewrite IH. split; [by intros [? _]|]. intros [_ Hf]. by inversion Hf.
    - rewrite IH. split; intros [? Hf]; (split; [done|]); [by constructor|by inversion Hf]. }
  specialize (H ∅ true). destruct (foldl _ _ checks) as [rs ok]. cbn [snd] in H.
  destruct ok; cbn [fst]; split; intros Hx; try done; [by apply H|].
  assert (false = true) by (by apply H). done.
Qed.

(** Whatever the path of a request, the file the gateway serves for it lies
    in the web root. *)
Theorem static_files_in_root root Stat p (HR : Clean ("/"%byte :: root) <> ["/"%byte]) :
  at_or_below ("/"%byte :: root)
    (match static_handler ("/"%byte :: root) Stat ("/"%byte :: p) with
     | ServeExact path _ => path | ServeIndex path => path end).
Proof.
  unfold static_handler.
  assert (at_or_below ("/"%byte :: root) (Join ("/"%byte :: root) (bs "index.html"))).
  { apply Join_below; [done|]. vm_compute. repeat constructor; discriminate. }
  destruct (Stat _) as [[]|]; [done| |done]. apply Join_below; [done|apply Clean_rooted_components].
Qed.

Lemma static_files_in_root_witness :
  at_or_below (bs "/var/www/bmail") (bs "/var/www/bmail/etc/passwd") /\
  static_handler (bs "/var/www/bmail") (fun _ => Some false) (bs "/../../etc/passwd") =
    ServeExact (bs "/var/www/bmail/etc/passwd") false.
Proof.
  assert (static_handler (bs "/var/www/bmail") (fun _ => Some false) (bs "/../../etc/passwd") =
    ServeExact (bs "/var/www/bmail/etc/passwd") false) as E by (vm_compute; reflexivity).
  split; [|exact E].
  pose proof (static_files_in_root (bs "var/www/bmail") (fun _ => Some false) (bs "../../etc/passwd")) as H.
  change ("/"%byte :: bs "../../etc/passwd") with (bs "/../../etc/passwd") in H.
  change ("/"%byte :: bs "var/www/bmail") with (bs "/var/www/bmail") in H.
  rewrite E in H. apply H. vm_compute. discriminate.
Defined.

(** The redirects to the primary domain carry none of the security headers,
    which every other answer does that does not set its own. *)
Theorem redirects_lack_security_headers domains mux r k (HK : is_Some (security_headers !! k)) :
  match edge_handler domains mux r with
  | Moved t => edge_header (Moved t) !! k = None
  | Answered resp => is_Some (edge_header (Answered resp) !! k) /\
      (rheader (mux r) !! k = None -> edge_header (Answered resp) !! k = security_headers !! k)
  end.
Proof.
  assert (forall resp, resp = SecurityHeaders mux r ->
    is_Some (rheader resp !! k) /\ (rheader (mux r) !! k = None -> rheader resp !! k = security_headers !! k)) as H.
  { intros resp ->. cbn [SecurityHeaders rheader]. rewrite lookup_union. split.
    - destruct HK as [v ->]. destruct (rheader (mux r) !! k); by eexists.
    - intros ->. by destruct (security_headers !! k). }
  unfold edge_handler. destruct domains as [|d ds]; [by apply H|].
  destruct (primary_redirect d r) as [t|]; [|by apply H]. cbn [edge_header].
  assert (k <> "Location"%string /\ k <> "Content-Type"%string) as [H1 H2].
  { split; intros ->; destruct HK as [v HK]; vm_compute in HK; discriminate. }
  rewrite lookup_insert_ne by done. by apply lookup_singleton_ne.
Qed.

Definition old_link : request :=
  {| URLPath := "/"; RequestURI := "/"; Host := "www.bmail.ag"; RemoteAddr := bs "203.0.113.9:51442"; ReqHeader := ∅ |}.

Lemma redirects_lack_security_headers_witness :
  edge_header (edge_handler ["bmail.ag"; "www.bmail.ag"] (fun _ => not_found) old_link)
    !! "Strict-Transport-Security"%string = None.
Proof.
  assert (edge_handler ["bmail.ag"; "www.bmail.ag"]%string (fun _ => not_found) old_link =
    Moved "https://bmail.ag/") as E by (vm_compute; reflexivity).
  pose proof (redirects_lack_security_headers ["bmail.ag"; "www.bmail.ag"]%string (fun _ => not_found) old_link
    "Strict-Transport-Security") as H. rewrite E in H |- *. apply H. vm_compute. by eexists.
Defined.
