(* ===== verification/PaymentEnclave.v ===== *)
(** cmd/payment/main.go around the service: the sealed keys a start loads
    (with internal/payment/fakeid_tags.go), the payment processors it
    registers (and the stubs of processor_crypto.go), the route table, the key
    distribution and attestation handlers, and the backup configuration.
    Shown: a start that persisted its keys leaves them to every later one; the
    default backup set is exactly the sealed files of a start; no route but the
    two public ones answers without the API key; and what one failed read of
    the tag key does to the one-Fake-ID rule. *)

From S2P Require Import Prelude SysFS Hex GoNet GoStrings FilePath Pgp Tee BlindSig RateLimit Payment.
Local Open Scope Z_scope.

(** * Sealed keys *)

Definition sealed_dir : bytes := bs "/opt/bmail/sealed/".

Definition tier_key_file (tier : string) : bytes :=
  sealed_dir ++ bs "sealed_payment_key_" ++ string_bytes tier ++ bs ".bin".

Definition fakeidTagKeyPath : bytes := sealed_dir ++ bs "sealed_fakeid_tag_key.bin".
Definition fakeidAttestationKeyPath : bytes := sealed_dir ++ bs "sealed_fakeid_attestation_key.bin".
Definition payment_tls_path : bytes := sealed_dir ++ bs "sealed_payment_tls_key.bin".

Definition fakeidTagKeyLen : nat := 32.
Definition ed25519_SeedSize : nat := 32.

Inductive start_err := StartTee (e : tee_err) | StartParse | WrongLength.

(** What the start loads, with what each load logged. *)
Record sealed_keys := {
  tier_keys : list (string * PrivateKey);
  tag_key : bytes;
  att_key : FakeIDAttestationKey
}.

Section keys.
Context `{SealingLaws}.
(** crypto/rsa, crypto/x509, crypto/rand and crypto/ed25519. *)
Context (generate_rsa : IO (option bytes)) (ParsePKCS1PrivateKey : bytes -> option PrivateKey)
  (read_random : nat -> IO (option bytes)) (NewKeyFromSeed public_half : bytes -> bytes).

(** A load, and what the caller makes of the bytes. *)
Definition load_key {A} (p : path) (generate : IO (option bytes)) (check : bytes -> result start_err A) :
    IO (result start_err (A * load_log)) :=
  r ← LoadOrSeal p generate;
  mret (match r with
        | Err e => Err (StartTee e)
        | Ok (k, log) => match check k with Err e => Err e | Ok a => Ok (a, log) end
        end).

Definition loadOrGenerateKey (tier : string) : IO (result start_err (PrivateKey * load_log)) :=
  load_key (loc (tier_key_file tier)) generate_rsa (fun b => of_option StartParse (ParsePKCS1PrivateKey b)).

Definition check_length (n : nat) (b : bytes) : result start_err bytes :=
  if negb (length b =? n)%nat then Err WrongLength else Ok b.

Definition LoadOrSealFakeIDTagKey : IO (result start_err (bytes * load_log)) :=
  load_key (loc fakeidTagKeyPath) (read_random fakeidTagKeyLen) (check_length fakeidTagKeyLen).

Definition attestation_key (seed : bytes) : result start_err FakeIDAttestationKey :=
  seed ← check_length ed25519_SeedSize seed;
  let priv := NewKeyFromSeed seed in
  Ok {| Private := priv; Public := public_half priv |}.

Definition LoadOrSealFakeIDAttestationKey : IO (result start_err (FakeIDAttestationKey * load_log)) :=
  load_key (loc fakeidAttestationKeyPath) (read_random ed25519_SeedSize) attestation_key.

(** The loop over the tiers. *)
Fixpoint load_tiers (tiers : list string) : IO (result start_err (list (string * PrivateKey) * list load_log)) :=
  match tiers with
  | [] => mret (Ok ([], []))
  | tier :: tiers =>
      r ← loadOrGenerateKey tier;
      match r with
      | Err e => mret (Err e)
      | Ok (k, log) =>
          rest ← load_tiers tiers;
          mret (match rest with Err e => Err e | Ok (ks, logs) => Ok ((tier, k) :: ks, log :: logs) end)
      end
  end.

(** The key loads of [run], in their order. *)
Definition start_keys : IO (result start_err (sealed_keys * list load_log)) :=
  r ← load_tiers Tiers;
  match r with
  | Err e => mret (Err e)
  | Ok (ks, logs) =>
      t ← LoadOrSealFakeIDTagKey;
      match t with
      | Err e => mret (Err e)
      | Ok (tk, log1) =>
          a ← LoadOrSealFakeIDAttestationKey;
          match a with
          | Err e => mret (Err e)
          | Ok (ak, log2) =>
              mret (Ok ({| tier_keys := ks; tag_key := tk; att_key := ak |}, logs ++ [log1; log2]))
          end
      end
  end.

(** ** Lemmas *)

(** Drawing a key does not touch the disk. *)
Definition keeps_disk (g : IO (option bytes)) : Prop := forall w, fs (g w).2 = fs w.

Lemma write_file_frame p b w q : q <> p -> fs (write_file p b w).2 !! q = fs w !! q.
Proof.
  intros Hq. unfold write_file, sys_open_trunc, sys_write, sys_close, mbind, io_bind, mret, io_ret,
    take_outcome, set_fs.
  destruct w as [m [|[|a] [|[|a'] [|[|a''] os]]] en h]; cbn; by rewrite ?lookup_insert_ne, ?lookup_alter_ne by done.
Qed.

Lemma load_frame p g w q : keeps_disk g -> q <> p -> fs (LoadOrSeal p g w).2 !! q = fs w !! q.
Proof.
  intros Hg Hq. unfold LoadOrSeal, LoadOrSealBytes, mbind, io_bind.
  assert (fs (sys_read p w).2 = fs w) as Hr.
  { unfold sys_read, take_outcome. destruct (fs w !! p); [|done]. by destruct (oracle w) as [|[|n] os]. }
  destruct (sys_read p w) as [r w1]. cbn [snd] in Hr. destruct (unsealed Unseal r); [by rewrite <-Hr|].
  specialize (Hg w1). destruct (g w1) as [[k|] w2]; cbn [snd] in Hg; [|by rewrite <-Hr, <-Hg].
  cbn [fresh_entropy]. set (w3 := mkWorld _ _ _ _).
  assert (fs w3 = fs w) as H3 by (subst w3; cbn; congruence).
  destruct (Seal _ k) as [c|]; [|by rewrite <-H3].
  pose proof (write_file_frame p c w3 q Hq) as Hw. destruct (write_file p c w3) as [ok w4].
  cbn [snd] in *. by rewrite <-H3.
Qed.

Lemma load_again p g w k : oracle w = [] -> holds Unseal p k (fs w) -> LoadOrSeal p g w = (Ok (k, Unsealed), w).
Proof.
  intros Ho (f & Hf & Hne & Hu). unfold LoadOrSeal, LoadOrSealBytes, mbind, io_bind, sys_read, take_outcome.
  rewrite Hf, Ho. cbn [unsealed]. destruct (content f) as [|b c] eqn:Ec; [done|]. cbn [length Nat.eqb].
  by rewrite Hu.
Qed.

Lemma load_key_holds {A} p g (check : bytes -> result start_err A) w a log w' :
  keeps_disk g -> load_key p g check w = (Ok (a, log), w') -> log <> NotPersisted ->
  (exists k, holds Unseal p k (fs w') /\ check k = Ok a) /\ forall q, q <> p -> fs w' !! q = fs w !! q.
Proof.
  intros Hg E Hl. unfold load_key, mbind, io_bind in E.
  destruct (LoadOrSeal p g w) as [[[k log0]|e] w1] eqn:El; [|done].
  destruct (check k) as [a0|e] eqn:Ec; [|done]. injection E as <- <- <-. split.
  - exists k. split; [|done]. apply load_or_seal_cases in El. destruct log0; [|tauto|done].
    by destruct El as [? ->].
  - intros q Hq. pose proof (load_frame p g w q Hg Hq) as Hf. by rewrite El in Hf.
Qed.

Lemma load_key_again {A} p g (check : bytes -> result start_err A) w k a :
  oracle w = [] -> holds Unseal p k (fs w) -> check k = Ok a -> load_key p g check w = (Ok (a, Unsealed), w).
Proof.
  intros Ho Hh Hc. unfold load_key, mbind, io_bind. rewrite (load_again _ _ _ k) by done.
  cbn. by rewrite Hc.
Qed.

(** The sealed file is there for the key [a]. *)
Definition stored {A} (p : path) (check : bytes -> result start_err A) (a : A) (m : files) : Prop :=
  exists k, holds Unseal p k m /\ check k = Ok a.

Lemma stored_frame {A} p (check : bytes -> result start_err A) a m m' :
  m' !! p = m !! p -> stored p check a m -> stored p check a m'.
Proof. intros E (k & (f & Hf & Hk) & Hc). exists k. split; [|done]. exists f. by rewrite E. Qed.

Definition parse_rsa (b : bytes) : result start_err PrivateKey := of_option StartParse (ParsePKCS1PrivateKey b).

Lemma load_tiers_stored tiers w ks logs w' :
  keeps_disk generate_rsa -> NoDup ((fun t => loc (tier_key_file t)) <$> tiers) ->
  load_tiers tiers w = (Ok (ks, logs), w') -> Forall (fun l => l <> NotPersisted) logs ->
  ks.*1 = tiers /\ Forall (fun tk => stored (loc (tier_key_file tk.1)) parse_rsa tk.2 (fs w')) ks /\
  forall q, q ∉ ((fun t => loc (tier_key_file t)) <$> tiers) -> fs w' !! q = fs w !! q.
Proof.
  intros Hg. revert w ks logs w'. induction tiers as [|tier tiers IH]; intros w ks logs w' Hnd E Hl.
  { injection E as <- <- <-. by split_and!. }
  rewrite fmap_cons in Hnd. apply NoDup_cons in Hnd as [Hnot Hnd].
  cbn [load_tiers] in E. unfold mbind at 1, io_bind in E.
  destruct (loadOrGenerateKey tier w) as [[[k log]|e] w1] eqn:E1; [|done]. unfold mbind, io_bind in E.
  destruct (load_tiers tiers w1) as [[[ks0 logs0]|e] w2] eqn:E2; [|done]. injection E as <- <- <-.
  inversion Hl as [|? ? Hl1 Hl2]; subst.
  destruct (load_key_holds _ _ _ _ _ _ _ Hg E1 Hl1) as [Hst Hfr].
  destruct (IH w1 ks0 logs0 w2 Hnd E2 Hl2) as (Hf & Hs & Hfr2). split_and!.
  - cbn. by rewrite Hf.
  - constructor; [|done]. cbn [fst snd]. eapply stored_frame; [by apply Hfr2|exact Hst].
  - intros q Hq. rewrite fmap_cons, not_elem_of_cons in Hq. destruct Hq as [Hq1 Hq2].
    by rewrite Hfr2, Hfr.
Qed.

Lemma load_tiers_again ks w :
  oracle w = [] -> Forall (fun tk => stored (loc (tier_key_file tk.1)) parse_rsa tk.2 (fs w)) ks ->
  load_tiers ks.*1 w = (Ok (ks, (fun _ => Unsealed) <$> ks), w).
Proof.
  intros Ho Hs. induction Hs as [|[t k] ks (b & Hh & Hc) _ IH]; [done|]. cbn [fmap list_fmap load_tiers fst].
  unfold mbind at 1, io_bind. unfold loadOrGenerateKey. rewrite (load_key_again _ _ _ _ b k) by done.
  unfold mbind, io_bind. change (list_fmap _ _ fst ks) with (ks.*1). by rewrite IH.
Qed.

(** The keys of the payment enclave last: when a start got its keys and
    none of them was reported unpersisted, a later start on the same disk that
    can read it gets the very same blind-signing keys, the same tag key and the
    same attestation key, and writes nothing. *)
Theorem payment_keys_last w ks logs w' w2
    (HG : keeps_disk generate_rsa) (HR : forall n, keeps_disk (read_random n))
    (HS : start_keys w = (Ok (ks, logs), w')) (HL : Forall (fun l => l <> NotPersisted) logs)
    (HD : fs w2 = fs w') (HO : oracle w2 = []) :
  exists logs2, start_keys w2 = (Ok (ks, logs2), w2) /\ Forall (fun l => l = Unsealed) logs2.
Proof.
  unfold start_keys, mbind at 1, io_bind in HS.
  destruct (load_tiers Tiers w) as [[[tks logs0]|e] w3] eqn:E1; [|done]. unfold mbind at 1, io_bind in HS.
  destruct (LoadOrSealFakeIDTagKey w3) as [[[tk l1]|e] w4] eqn:E2; [|done]. unfold mbind, io_bind in HS.
  destruct (LoadOrSealFakeIDAttestationKey w4) as [[[ak l2]|e] w5] eqn:E3; [|done].
  injection HS as <- <- <-. apply Forall_app in HL as [HL0 HL].
  inversion HL as [|? ? Hl1 HL']; subst. inversion HL' as [|? ? Hl2 _]; subst.
  destruct (load_tiers_stored Tiers w tks logs0 w3 HG) as (Hf & Hst & _); [|done..|].
  { apply (bool_decide_unpack _). by vm_compute. }
  destruct (load_key_holds _ _ _ _ _ _ _ (HR _) E2 Hl1) as [Htk Hfr1].
  destruct (load_key_holds _ _ _ _ _ _ _ (HR _) E3 Hl2) as [Hak Hfr2].
  assert (Ht5 : stored (loc fakeidTagKeyPath) (check_length fakeidTagKeyLen) tk (fs w2)).
  { rewrite HD. eapply stored_frame; [|exact Htk]. apply Hfr2. vm_compute. discriminate. }
  assert (Hs5 : Forall (fun tk => stored (loc (tier_key_file tk.1)) parse_rsa tk.2 (fs w2)) tks).
  { rewrite HD. apply Forall_forall. intros [t k] Hin. rewrite Forall_forall in Hst.
    specialize (Hst _ Hin). cbn [fst snd] in *.
    assert (t ∈ Tiers) as Ht by (rewrite <-Hf; apply list_elem_of_fmap; by exists (t, k)).
    eapply stored_frame; [|exact Hst]. rewrite Hfr2, Hfr1; [done|..].
    all: unfold Tiers in Ht; rewrite !elem_of_cons in Ht;
      destruct Ht as [->|[->|[->|[->|[->|Ht]]]]]; [vm_compute; discriminate..|set_solver]. }
  exists (((fun _ => Unsealed) <$> tks) ++ [Unsealed; Unsealed]). split.
  - unfold start_keys, mbind at 1, io_bind. rewrite <-Hf, load_tiers_again by done.
    unfold mbind at 1, io_bind. destruct Ht5 as (kb & Hh & Hc).
    unfold LoadOrSealFakeIDTagKey. rewrite (load_key_again _ _ _ _ kb tk) by done.
    unfold mbind, io_bind. destruct Hak as (kb2 & Hh2 & Hc2).
    unfold LoadOrSealFakeIDAttestationKey. rewrite (load_key_again _ _ _ _ kb2 ak) by (rewrite ?HD; done).
    done.
  - apply Forall_app. split; [|by repeat constructor]. by apply Forall_fmap, Forall_true.
Qed.
End keys.

(** * The service behind the routes *)

(** ** Processors *)

Inductive proof_err := InvalidProof | MissingField (f : string) | NotImplemented.

(** The stubs: [json] is the decoded proof. *)
Definition bitcoin_VerifyPayment (json : option bytes) : result proof_err string :=
  match json with
  | None => Err InvalidProof
  | Some txid => if bool_decide (txid = []) then Err (MissingField "txid") else Err NotImplemented
  end.

Record moneroProof := { TXHash : bytes; TXKey : bytes; Address : bytes }.

Definition monero_VerifyPayment (json : option moneroProof) : result proof_err string :=
  match json with
  | None => Err InvalidProof
  | Some p =>
      if bool_decide (TXHash p = []) then Err (MissingField "tx_hash")
      else if bool_decide (TXKey p = []) then Err (MissingField "tx_key")
      else if bool_decide (Address p = []) then Err (MissingField "address")
      else Err NotImplemented
  end.

Definition ethereum_VerifyPayment (json : option bytes) : result proof_err string :=
  match json with
  | None => Err InvalidProof
  | Some tx => if bool_decide (tx = []) then Err (MissingField "tx_hash") else Err NotImplemented
  end.

Definition test_VerifyPayment (proof : bytes) : option string := Some "paid"%string.

(** The environment of the process: unset variables are empty. *)
Abbreviation env := (string -> string).

Definition ok_of {E A} (r : result E A) : option A := match r with Ok a => Some a | Err _ => None end.

Section processors.
(** The processors of processor.go on this configuration, and the JSON of the
    proofs. *)
Context (stripe lightning : bytes -> option string) (json_txid json_txhash : bytes -> option bytes)
  (json_monero : bytes -> option moneroProof).

(** The processors [run] registers; [None]: it does not start. *)
Definition run_processors (e : env) : option (gmap string (bytes -> option string)) :=
  let ps : gmap string (bytes -> option string) := {[ "test"%string := test_VerifyPayment ]} in
  let ps := if String.eqb (e "STRIPE_SECRET_KEY") "" then ps else <["stripe"%string := stripe]> ps in
  if negb (String.eqb (e "LND_REST_URL") "") && String.eqb (e "LND_MACAROON") "" then None
  else
    let ps := if String.eqb (e "LND_REST_URL") "" then ps else <["lightning"%string := lightning]> ps in
    let experimental := String.eqb (e "ENABLE_EXPERIMENTAL_CRYPTO") "true" in
    let stub name url f ps :=
      if negb (String.eqb (e url) "") && experimental then <[name := f]> ps else ps in
    let ps := stub "bitcoin"%string "BITCOIN_RPC_URL"%string
                (fun p => ok_of (bitcoin_VerifyPayment (json_txid p))) ps in
    let ps := stub "monero"%string "MONERO_WALLET_RPC_URL"%string
                (fun p => ok_of (monero_VerifyPayment (json_monero p))) ps in
    let ps := stub "ethereum"%string "ETHEREUM_RPC_URL"%string
                (fun p => ok_of (ethereum_VerifyPayment (json_txhash p))) ps in
    Some ps.
End processors.

(** ** Routes *)

Inductive route := RSign | RRedeem | RLegacyMint | RRatchet | RPubKey | RAttestation
  | RMint | RVerify | RStatus | RSeed | RHealthz | RReadyz.

(** The patterns of [registerRoutes], [registerFakeIDSlotRoutes] and [run]. *)
Definition route_table : list (string * string * route) :=
  [("GET", "/healthz", RHealthz); ("GET", "/readyz", RReadyz);
   ("POST", "/payment/sign", RSign); ("POST", "/payment/redeem", RRedeem);
   ("POST", "/payment/fakeid-mint", RLegacyMint); ("POST", "/payment/fakeid-ratchet", RRatchet);
   ("GET", "/payment/pubkey", RPubKey); ("GET", "/payment/attestation", RAttestation);
   ("POST", "/payment/fakeid/mint", RMint); ("POST", "/payment/fakeid/verify-credential", RVerify);
   ("GET", "/payment/fakeid/slot-status", RStatus);
   ("POST", "/payment/fakeid/admin/seed-consumed", RSeed)]%string.

(** A GET pattern also takes HEAD requests. *)
Definition match_route (method path : string) : option route :=
  snd <$> (snd <$> list_find (fun '(m, p, _) =>
     p = path /\ (m = method \/ (m = "GET"%string /\ method = "HEAD"%string))) route_table).

Definition needs_key (r : route) : bool :=
  match r with RPubKey | RAttestation | RHealthz | RReadyz => false | _ => true end.

Inductive limiter_of := NoLimiter | SignLimiter | RedeemLimiter.

Definition route_limiter (r : route) : limiter_of :=
  match r with
  | RPubKey | RAttestation | RHealthz | RReadyz => NoLimiter
  | RRedeem => RedeemLimiter
  | _ => SignLimiter
  end.

Record front := { signLimiter : IPLimit.ipRateLimiter; redeemLimiter : IPLimit.ipRateLimiter }.

Definition new_front : front :=
  {| signLimiter := IPLimit.newIPRateLimiter 10 60; redeemLimiter := IPLimit.newIPRateLimiter 30 60 |}.

Inductive answer := NotFound | TooMany | Unauthorized | Handled (r : route).

(** Whether [registerRoutes] goes on: without a key, not in production. *)
Definition register_ok (apiKey : string) (production : bool) : bool :=
  negb (String.eqb apiKey "" && production).

(** One request up to its handler: the limiter, then the key if there is one. *)
Definition dispatch (apiKey : string) (now : Z) (remoteAddr : bytes) (method path authorization : string)
    (f : front) : answer * front :=
  match match_route method path with
  | None => (NotFound, f)
  | Some r =>
      let next := if needs_key r && negb (String.eqb apiKey "")
                  then requireAPIKey apiKey authorization Unauthorized (Handled r) else Handled r in
      match route_limiter r with
      | NoLimiter => (next, f)
      | SignLimiter =>
          let '(a, l) := IPLimit.rateLimitMiddleware now remoteAddr TooMany next (signLimiter f) in
          (a, {| signLimiter := l; redeemLimiter := redeemLimiter f |})
      | RedeemLimiter =>
          let '(a, l) := IPLimit.rateLimitMiddleware now remoteAddr TooMany next (redeemLimiter f) in
          (a, {| signLimiter := signLimiter f; redeemLimiter := l |})
      end
  end.

(** ** Key distribution and attestation *)

Section attestation.
Context (MarshalPKCS1PublicKey : PublicKey -> bytes) (pem_encode : string -> bytes -> bytes)
  (sha256 : bytes -> bytes) (Attest : bytes -> option bytes).

(** [handlePubKey]: the tiers in their order, as many as have a key. *)
Definition handlePubKey (s : PaymentService) : list (string * bytes) :=
  omap (fun tier => k ← GetPublicKey s tier; Some (tier, pem_encode "RSA PUBLIC KEY" (MarshalPKCS1PublicKey k)))
    Tiers.

Definition tier_pubkeys (s : PaymentService) : bytes :=
  concat (omap (fun tier => MarshalPKCS1PublicKey <$> GetPublicKey s tier) Tiers).

Record payment_attestation := { attestation_report : string; tier_pubkeys_der : bytes }.

(** [handleAttestation]; [None] is the 500. *)
Definition handleAttestation (s : PaymentService) : option payment_attestation :=
  let raw := tier_pubkeys s in
  let userData := if bool_decide (raw = []) then [] else sha256 raw in
  report ← Attest userData;
  Some {| attestation_report := hex_EncodeToString report; tier_pubkeys_der := base64 raw |}.

(** What the page that verifies does with it. *)
Definition page_accepts (report_data : bytes -> option bytes) (a : payment_attestation) : bool :=
  match hex_DecodeString (attestation_report a), base64_decode (tier_pubkeys_der a) with
  | Some report, Some raw =>
      match report_data report with
      | Some d => bool_decide (d = sha256 raw)
      | None => false
      end
  | _, _ => false
  end.
End attestation.

(** ** Backups *)

Definition backup_names : list string :=
  ["sealed_payment_key_business.bin"; "sealed_payment_key_paid.bin"; "sealed_payment_key_pro.bin";
   "sealed_payment_key_fakeid_mint.bin"; "sealed_payment_key_fakeid_ratchet.bin";
   "sealed_fakeid_attestation_key.bin"; "sealed_fakeid_tag_key.bin"; "sealed_payment_tls_key.bin"]%string.

Definition paymentSnapshotFiles (e : env) : list bytes :=
  let csv := string_bytes (e "PAYMENT_SNAPSHOT_FILES"%string) in
  if bool_decide (csv = []) then (fun b => sealed_dir ++ string_bytes b) <$> backup_names
  else filter (fun p => p <> []) (TrimSpace <$> split_byte "," csv).

Inductive snapshotter :=
| S3Snapshotter (endpoint accessKey secretKey bucket prefix : string) (useTLS : bool)
| LocalFSSnapshotter (dir : string).

(** [buildPaymentSnapshotter]: an error, or the configured target if any. *)
Definition buildPaymentSnapshotter (e : env) : result unit (option snapshotter) :=
  let endpoint := e "PAYMENT_SNAPSHOT_S3_ENDPOINT"%string in
  let bucket := e "PAYMENT_SNAPSHOT_S3_BUCKET"%string in
  if negb (String.eqb endpoint "") || negb (String.eqb bucket "") then
    if String.eqb endpoint "" || String.eqb bucket "" then Err tt
    else
      let prefix := e "PAYMENT_SNAPSHOT_S3_PREFIX"%string in
      Ok (Some (S3Snapshotter endpoint (e "PAYMENT_SNAPSHOT_S3_ACCESS_KEY"%string)
        (e "PAYMENT_SNAPSHOT_S3_SECRET_KEY"%string) bucket
        (if String.eqb prefix "" then "payment-snapshots/"%string else prefix)
        (negb (String.eqb (e "PAYMENT_SNAPSHOT_S3_INSECURE"%string) "1"))))
  else
    let dir := e "PAYMENT_SNAPSHOT_LOCAL_DIR"%string in
    if String.eqb dir "" then Ok None else Ok (Some (LocalFSSnapshotter dir)).

(** Whether [run] goes on past the backups. *)
Definition snapshot_start_ok (e : env) : bool :=
  match buildPaymentSnapshotter e with
  | Err _ => false
  | Ok (Some _) => true
  | Ok None => negb (String.eqb (e "VP_ENV"%string) "production")
  end.

(** * Properties *)

(** The files a start reads or writes. *)
Definition sealed_files : list bytes :=
  payment_tls_path :: (tier_key_file <$> Tiers) ++ [fakeidTagKeyPath; fakeidAttestationKeyPath].

(** The default backup set is complete: it is exactly the sealed files a
    start of the enclave reads or writes. *)
Theorem backup_covers_sealed_files e p (HE : e "PAYMENT_SNAPSHOT_FILES"%string = ""%string) :
  p ∈ paymentSnapshotFiles e <-> p ∈ sealed_files.
Proof.
  unfold paymentSnapshotFiles. rewrite HE. cbn [string_bytes]. rewrite bool_decide_eq_true_2 by done.
  assert (forall l1 l2 : list bytes, bool_decide (Forall (fun x => x ∈ l2) l1) = true ->
    forall x, x ∈ l1 -> x ∈ l2) as H.
  { intros l1 l2 Hb x Hx. apply bool_decide_eq_true in Hb. rewrite Forall_forall in Hb. auto. }
  split; apply H; vm_compute; reflexivity.
Qed.

Lemma backup_covers_sealed_files_witness :
  bs "/opt/bmail/sealed/sealed_payment_key_pro.bin" ∈ paymentSnapshotFiles (fun _ => ""%string).
Proof.
  apply backup_covers_sealed_files; [reflexivity|]. apply (bool_decide_unpack _). vm_compute. exact I.
Defined.

(** Nothing but the key distribution, the attestation and the health checks
    answers without the shared key, once there is one; and in production there
    is one or the enclave does not start. *)
Theorem no_handler_without_key apiKey production now addr method path authorization f r f'
    (HS : register_ok apiKey production = true) (HP : production = true \/ apiKey <> ""%string)
    (HD : dispatch apiKey now addr method path authorization f = (Handled r, f')) :
  r ∈ [RPubKey; RAttestation; RHealthz; RReadyz] \/ authorization = ("Bearer " ++ apiKey)%string.
Proof.
  assert (apiKey <> ""%string) as Hk.
  { intros ->. destruct HP as [->|HP]; [done|by apply HP]. }
  unfold dispatch in HD. destruct (match_route method path) as [r0|]; [|done].
  assert (Hnext : (if needs_key r0 && negb (String.eqb apiKey "")
     then requireAPIKey apiKey authorization Unauthorized (Handled r0) else Handled r0) = Handled r ->
     r ∈ [RPubKey; RAttestation; RHealthz; RReadyz] \/ authorization = ("Bearer " ++ apiKey)%string).
  { destruct (needs_key r0) eqn:En; cbn [andb].
    - destruct (String.eqb_spec apiKey ""); [done|]. cbn [negb]. unfold requireAPIKey.
      destruct (_ || _)%bool eqn:E; [done|]. bool_prop. by right.
    - intros [= <-]. left. destruct r0; try done; set_solver. }
  destruct (route_limiter r0); [injection HD as HD _; by apply Hnext|..];
    unfold IPLimit.rateLimitMiddleware in HD; destruct (IPLimit.allow _ _ _) as [[] l];
    injection HD as HD _; by try apply Hnext.
Qed.

Lemma no_handler_without_key_witness :
  (dispatch "k1" 0 (bs "10.0.0.1:5000") "POST" "/payment/sign" "Bearer k1" new_front).1 = Handled RSign /\
  (RSign ∈ [RPubKey; RAttestation; RHealthz; RReadyz] \/ "Bearer k1" = ("Bearer " ++ "k1")%string).
Proof.
  destruct (dispatch "k1" 0 (bs "10.0.0.1:5000") "POST" "/payment/sign" "Bearer k1" new_front) as [a f] eqn:E.
  assert (a = Handled RSign) as -> by (apply (f_equal fst) in E; cbn [fst] in E; rewrite <-E; vm_compute; reflexivity).
  split; [reflexivity|].
  apply (no_handler_without_key "k1" true 0 (bs "10.0.0.1:5000") "POST" "/payment/sign" "Bearer k1" new_front RSign f);
    [reflexivity|by left|exact E].
Defined.

(** The processor made for tests is there in every environment, production
    included: naming it buys a signature of the paid tier for any proof. *)
Theorem test_processor_always_on stripe lightning jx jh jm e ps keys proof blinded draws k sig
    (HP : run_processors stripe lightning jx jh jm e = Some ps)
    (HK : keys !! "paid"%string = Some k) (HS : SignBlinded blinded k draws = Some sig) :
  ProcessPayment (NewPaymentService keys ps) "test" proof blinded draws = Some (sig, "paid"%string).
Proof.
  assert (ps !! "test"%string = Some test_VerifyPayment) as Ht.
  { unfold run_processors in HP. destruct (_ && _)%bool in HP; [done|]. injection HP as <-.
    repeat match goal with
    | |- (if ?b then _ else _) !! _ = _ => destruct b
    | |- <[_ := _]> _ !! _ = _ => rewrite lookup_insert_ne by done
    end; apply lookup_singleton_eq. }
  unfold ProcessPayment, NewPaymentService. cbn [processors]. rewrite Ht. cbn.
  rewrite HK, HS. done.
Qed.

Definition production_env : env := fun v =>
  if String.eqb v "VP_ENV" then "production"%string
  else if String.eqb v "STRIPE_SECRET_KEY" then "sk_live_1"%string else ""%string.

Lemma test_processor_always_on_witness : exists ps sig,
  run_processors (fun _ => None) (fun _ => None) (fun _ => None) (fun _ => None) (fun _ => None)
    production_env = Some ps /\
  ProcessPayment (NewPaymentService {["paid"%string := toy_key]} ps) "test" [] 603 [0; 5] = Some (sig, "paid"%string).
Proof.
  eexists _, _. split; [reflexivity|].
  eapply (test_processor_always_on (fun _ => None) (fun _ => None) (fun _ => None) (fun _ => None)
    (fun _ => None) production_env _ {["paid"%string := toy_key]} [] 603 [0; 5] toy_key).
  - reflexivity.
  - apply lookup_singleton_eq.
  - vm_compute. reflexivity.
Defined.

(** The stub processors never let a payment through, whatever the proof. *)
Theorem stubs_never_pay txid monero txhash :
  ok_of (bitcoin_VerifyPayment txid) = None /\ ok_of (monero_VerifyPayment monero) = None /\
  ok_of (ethereum_VerifyPayment txhash) = None.
Proof.
  split_and!; [destruct txid as [t|]|destruct monero as [p|]|destruct txhash as [t|]]; try done; cbn;
    unfold monero_VerifyPayment; repeat case_bool_decide; done.
Qed.

(** The quote of the payment enclave covers the keys it hands out: the page's
    check accepts what the handler answers, as soon as one tier has a key. *)
Theorem payment_attestation_verifies marshal sha256 Attest report_data s a
    (HA : forall d q, Attest d = Some q -> report_data q = Some d)
    (HK : tier_pubkeys marshal s <> [])
    (HH : handleAttestation marshal sha256 Attest s = Some a) :
  page_accepts sha256 report_data a = true /\
  base64_decode (tier_pubkeys_der a) = Some (tier_pubkeys marshal s).
Proof.
  unfold handleAttestation in HH. rewrite bool_decide_eq_false_2 in HH by done.
  destruct (Attest _) as [q|] eqn:Eq; [|done]. injection HH as <-. unfold page_accepts.
  cbn [attestation_report tier_pubkeys_der].
  assert (base64_decode (base64 (tier_pubkeys marshal s)) = Some (tier_pubkeys marshal s)) as Hb
    by apply base64_decode_base64.
  rewrite hex_roundtrip, Hb, (HA _ _ Eq). split; [|done]. by apply bool_decide_eq_true_2.
Qed.

Definition sample_service : PaymentService := NewPaymentService {["pro"%string := toy_key]} ∅.

Lemma payment_attestation_verifies_witness :
  match handleAttestation (fun _ => bs "DER") (fun b => rev b) (fun d => Some (x51 :: d)) sample_service with
  | Some a => page_accepts (fun b => rev b) (fun q => Some (drop 1 q)) a = true
  | None => False
  end.
Proof.
  destruct (handleAttestation (fun _ => bs "DER") (fun b => rev b) (fun d => Some (x51 :: d)) sample_service)
    as [a|] eqn:E; [|vm_compute in E; discriminate].
  refine (proj1 (payment_attestation_verifies (fun _ => bs "DER") (fun b => rev b) (fun d => Some (x51 :: d))
    (fun q => Some (drop 1 q)) sample_service a _ _ E)).
  - by intros d q [= <-].
  - vm_compute. discriminate.
Defined.

#[local] Existing Instance marker_sealings.
#[local] Existing Instance marker_sealing_laws.

Definition draws_key (k : bytes) : IO (option bytes) := fun w => (Some k, w).

Definition toy_start : IO (result start_err (sealed_keys * list load_log)) :=
  start_keys (draws_key (bs "RSA")) (fun _ => Some toy_key) (fun n => draws_key (replicate n x07))
    (fun b => b) (fun b => b).

Definition empty_box : world := mkWorld ∅ [] 0 [].

Definition first_start : world := (toy_start empty_box).2.

Lemma toy_start_logs ks logs w' : toy_start empty_box = (Ok (ks, logs), w') ->
  Forall (fun l => l <> NotPersisted) logs.
Proof.
  intros E. assert (logs = replicate 7 Persisted) as ->; [|by repeat constructor].
  apply (f_equal fst) in E. vm_compute in E. by injection E as _ <-.
Qed.

Lemma payment_keys_last_witness : exists ks logs2,
  toy_start (mkWorld (fs first_start) [] 9 []) = (Ok (ks, logs2), mkWorld (fs first_start) [] 9 []) /\
  Forall (fun l => l = Unsealed) logs2.
Proof.
  unfold first_start. destruct (toy_start empty_box) as [[[ks logs]|e] w'] eqn:E.
  - pose proof (payment_keys_last (draws_key (bs "RSA")) (fun _ => Some toy_key)
      (fun n => draws_key (replicate n x07)) (fun b => b) (fun b => b) empty_box ks logs w'
      (mkWorld (fs w') [] 9 []) (fun _ => eq_refl) (fun _ _ => eq_refl) E (toy_start_logs _ _ _ E)
      eq_refl eq_refl) as (logs2 & H & Hl).
    exact (ex_intro _ ks (ex_intro _ logs2 (conj H Hl))).
  - apply (f_equal fst) in E. vm_compute in E. discriminate.
Defined.

Section tag_key.
Context `{SealingLaws} (hmac : bytes -> string -> bytes) (read_random : nat -> IO (option bytes)).

(** One failed read of the tag key's file when the enclave starts lifts the
    one-Fake-ID rule: the start goes on with a new key, which it writes over
    the old one, and every primary whose new tag is not taken by chance is free
    to register again. *)
Theorem failed_read_frees_slots w f n k' w2 c deps db id
    (HF : fs w !! loc fakeidTagKeyPath = Some f) (HO : oracle w = [Failed n])
    (HR : read_random fakeidTagKeyLen (mkWorld (fs w) [] (entropy w) (history w)) = (Some k', w2))
    (HO2 : oracle w2 = []) (HL : length k' = fakeidTagKeyLen) (HS : Seal (entropy w2) k' = Some c)
    (HK : tagKey deps = k') (HI : id <> ""%string) (HN : consumed_slots db !! hmac k' id = None)
    (HDB : faults db = []) :
  (exists w', LoadOrSealFakeIDTagKey read_random w = (Ok (k', Persisted), w') /\
     holds Unseal (loc fakeidTagKeyPath) k' (fs w')) /\
  (handleFakeIDSlotStatus hmac deps id db).1 = (200, StateBody "free").
Proof.
  split.
  - destruct (seal_unseal _ _ _ HS) as [Hne Hun].
    unfold LoadOrSealFakeIDTagKey, load_key, LoadOrSeal, LoadOrSealBytes, mbind, io_bind, sys_read.
    rewrite HF. unfold take_outcome. rewrite HO. cbn [unsealed]. rewrite HR. cbn. rewrite HS.
    unfold write_file, sys_open_trunc, sys_write, sys_close, mbind, io_bind, mret, io_ret, take_outcome, set_fs.
    cbn. rewrite HO2. cbn. unfold check_length. rewrite (proj2 (Nat.eqb_eq _ _)) by done. cbn.
    eexists. split; [done|]. exists (mkFile c false). split; [apply lookup_insert_eq|done].
  - unfold handleFakeIDSlotStatus. destruct (String.eqb_spec id ""); [done|].
    unfold StatusForTag, DerivePrimaryTag, exec, next_fault. rewrite HK, HN, HDB. done.
Qed.
End tag_key.

Definition running_box : world := mkWorld (fs first_start) [Failed 0] 9 [].

Definition new_deps : fakeidSlotDeps :=
  {| svc := sample_service; tagKey := replicate 32 x08; attKey := {| Private := []; Public := [] |} |}.

Definition one_slot : DB :=
  {| spent_tokens := ∅; consumed_slots := {[ replicate 32 x07 ++ bs "u1" := 5 ]}; mint_flags := ∅; faults := [] |}.

Lemma failed_read_frees_slots_witness :
  (handleFakeIDSlotStatus (fun k id => k ++ string_bytes id)
     {| svc := sample_service; tagKey := replicate 32 x07; attKey := {| Private := []; Public := [] |} |}
     "u1" one_slot).1 = (200, StateBody "consumed") /\
  (handleFakeIDSlotStatus (fun k id => k ++ string_bytes id) new_deps "u1" one_slot).1 = (200, StateBody "free").
Proof.
  split; [vm_compute; reflexivity|].
  refine (proj2 (failed_read_frees_slots (fun k id => k ++ string_bytes id) (fun n => draws_key (replicate n x08))
    running_box (mkFile (x53 :: replicate 32 x07) false) 0 (replicate 32 x08)
    (mkWorld (fs running_box) [] 9 []) (x53 :: replicate 32 x08) new_deps one_slot "u1" _ _ _ _ _ _ _ _ _ _)).
  all: first [reflexivity|discriminate|vm_compute; reflexivity].
Defined.
