(* ===== verification/Config.v ===== *)
(** internal/config/env.go: the environment with the development file read once
    into it, and the variables the programs require.  Shown: the file never
    overrides a variable that is set, and is not looked at in production; a
    variable required in production is not empty there, or the process ends. *)

From S2P Require Import Prelude GoNet GoStrings GatewayRouter.

(** The environment; a variable that is not set reads as empty. *)
Abbreviation environ := (gmap string string).

Definition Getenv (e : environ) (k : string) : string := default "" (e !! k).

Definition IsProduction (e : environ) : bool := String.eqb (Getenv e "VP_ENV") "production".

(** One line of .env.dev.  The lines come without their line break, so a
    value never holds a NUL or a break that Setenv would refuse but for a NUL
    byte; a name with one, or an empty name, is refused. *)
Definition setenv_ok (k v : bytes) : bool :=
  negb (bool_decide (k = [])) && negb (bool_decide (x00 ∈ k)) && negb (bool_decide (x00 ∈ v)) &&
  negb (bool_decide ("="%byte ∈ k)).

Definition env_line (e : environ) (text : bytes) : environ :=
  let line := TrimSpace text in
  if bool_decide (line = []) || HasPrefix line (bs "#") then e
  else match IndexByte "=" line with
  | None => e
  | Some _ =>
      let '(k, v) := cut_byte "=" line in
      if String.eqb (Getenv e (bytes_string k)) "" && setenv_ok k v
      then <[bytes_string k := bytes_string v]> e else e
  end.

(** [loadEnvDev]; [file] is .env.dev, if it can be opened. *)
Definition loadEnvDev (file : option bytes) (e : environ) : environ :=
  if IsProduction e then e
  else match file with
  | None => e
  | Some b => foldl env_line e (scan_lines b)
  end.

(** The state a process keeps: its environment, and whether the file was
    loaded ([envOnce]). *)
Record process := { penv : environ; loaded : bool }.

Definition load_once (file : option bytes) (p : process) : process :=
  if loaded p then p else {| penv := loadEnvDev file (penv p); loaded := true |}.

(** [None] is the end of the process ([log.Fatal]). *)
Definition Require_ (file : option bytes) (key devDefault : string) (p : process) : option (string * process) :=
  let p := load_once file p in
  let v := Getenv (penv p) key in
  if negb (String.eqb v "") then Some (v, p)
  else if IsProduction (penv p) then None else Some (devDefault, p).

Definition Optional_ (file : option bytes) (key : string) (p : process) : string * process :=
  let p := load_once file p in (Getenv (penv p) key, p).

Definition RequireInProduction (file : option bytes) (key : string) (p : process) : option (string * process) :=
  let p := load_once file p in
  let v := Getenv (penv p) key in
  if String.eqb v "" && IsProduction (penv p) then None else Some (v, p).

(** * Lemmas *)

Lemma env_line_keeps e text k : Getenv e k <> ""%string -> Getenv (env_line e text) k = Getenv e k.
Proof.
  intros Hk. unfold env_line. destruct (_ || _)%bool; [done|].
  destruct (IndexByte _ _); [|done]. destruct (cut_byte _ _) as [nm v].
  destruct (String.eqb_spec (Getenv e (bytes_string nm)) ""); [|done].
  destruct (setenv_ok nm v); [|done]. cbn [andb]. unfold Getenv.
  destruct (decide (bytes_string nm = k)) as [<-|Hne]; [done|by rewrite lookup_insert_ne].
Qed.

Lemma env_lines_keep ls e k : Getenv e k <> ""%string -> Getenv (foldl env_line e ls) k = Getenv e k.
Proof.
  revert e. induction ls as [|l ls IH]; intros e Hk; [done|]. cbn.
  rewrite IH; by rewrite ?env_line_keeps.
Qed.

Lemma loadEnvDev_keeps file e k : Getenv e k <> ""%string -> Getenv (loadEnvDev file e) k = Getenv e k.
Proof.
  intros Hk. unfold loadEnvDev. destruct (IsProduction e); [done|]. destruct file as [b|]; [|done].
  by apply env_lines_keep.
Qed.

(** * Properties *)

(** The development file only fills gaps: a variable that is set keeps its
    value, whatever the file says, and in production the file changes nothing
    at all; loading again changes nothing either. *)
Theorem env_file_fills_gaps file p k :
  (Getenv (penv p) k <> ""%string -> Getenv (penv (load_once file p)) k = Getenv (penv p) k) /\
  (IsProduction (penv p) = true -> penv (load_once file p) = penv p) /\
  (forall file2, load_once file2 (load_once file p) = load_once file p).
Proof.
  unfold load_once. destruct (loaded p) eqn:El; [by rewrite El|]. split_and!.
  - apply loadEnvDev_keeps.
  - unfold loadEnvDev. cbn. by intros ->.
  - done.
Qed.

(** A required variable is there: in production [Require] and
    [RequireInProduction] end the process or return the variable's non-empty
    value, never a development default. *)
Theorem required_in_production file key d p v p'
    (HP : IsProduction (penv p) = true)
    (HR : Require_ file key d p = Some (v, p') \/ RequireInProduction file key p = Some (v, p')) :
  v <> ""%string /\ v = Getenv (penv p) key.
Proof.
  assert (penv (load_once file p) = penv p) as Hsame.
  { unfold load_once. destruct (loaded p); [done|]. cbn. unfold loadEnvDev. by rewrite HP. }
  unfold Require_, RequireInProduction in HR. rewrite Hsame, HP in HR.
  destruct (String.eqb_spec (Getenv (penv p) key) "") as [E|E]; cbn in HR;
    destruct HR as [HR|HR]; simplify_eq; done.
Qed.

Definition prod_process : process :=
  {| penv := {[ "VP_ENV" := "production"; "DATABASE_URL" := "postgres://db" ]}%string; loaded := false |}.

Lemma required_in_production_witness :
  Require_ (Some (bs "DATABASE_URL=postgres://dev")) "DATABASE_URL" "x" prod_process =
    Some ("postgres://db"%string, load_once (Some (bs "DATABASE_URL=postgres://dev")) prod_process) /\
  "postgres://db"%string <> ""%string.
Proof.
  assert (Require_ (Some (bs "DATABASE_URL=postgres://dev")) "DATABASE_URL" "x" prod_process =
    Some ("postgres://db"%string, load_once (Some (bs "DATABASE_URL=postgres://dev")) prod_process)) as E by reflexivity.
  split; [exact E|].
  apply (required_in_production (Some (bs "DATABASE_URL=postgres://dev")) "DATABASE_URL" "x" prod_process
    "postgres://db" _ eq_refl (or_introl E)).
Defined.
