(* ===== verification/Contacts.v ===== *)
(** internal/storage/contacts_store.go, block_store.go, address_encrypt.go and
    blind_index.go: address books and block lists whose addresses are sealed
    to their owner and found by a keyed index.  Shown: an address is stored
    for its owner's eyes and found again by any spelling; no call ever writes a
    plain address, and a user has one row for one address; merging a duplicate
    keeps the memberships and the fields it names, and loses the rest; one
    user's group can show another user's contact. *)

From stdpp Require Import sorting.
From S2P Require Import Prelude Hex GoNet Sql Aead ToyCrypto Envelope Encrypt.

#[local] Open Scope Z_scope.

Abbreviation UUID := (list byte) (only parsing).

(** * Addresses *)

Record EncryptedAddress := mkAddress {
  Encrypted : bytes;
  Ephemeral : bytes;
  EncryptedKey : bytes
}.

Section address.
Context `{Primitives} `{Entropy}.

Definition EncryptAddressForUser (userPubKey address : bytes) : M EncryptedAddress :=
  if negb (length userPubKey =? 32)%nat then failM
  else
    pub ← liftM (NewPublicKey userPubKey);
    enc ← EncryptMessage pub address [];
    mret (mkAddress (EncryptedSubject enc) (EphemeralPubkey enc) (EncryptedMessageKey enc)).

Definition EncryptAddressForUserHybrid (userPubKey userKEMPubKey address : bytes) : M EncryptedAddress :=
  if negb (length userPubKey =? 32)%nat then failM
  else
    pub ← liftM (NewPublicKey userPubKey);
    kemEK ← (match userKEMPubKey with
             | [] => mret None
             | _ => ek ← liftM (MLKEMEncapsulationKeyFromBytes userKEMPubKey); mret (Some ek)
             end);
    enc ← EncryptMessageHybrid pub kemEK address [];
    mret (mkAddress (EncryptedSubject enc) (EphemeralPubkey enc) (EncryptedMessageKey enc)).
End address.

(** * Blind indexes *)

Definition BlindScopeContact : bytes := bs "contact-address-v1".
Definition BlindScopeBlockSender : bytes := bs "block-sender-v1".

Definition normalized (address : bytes) : bytes := ToLower (TrimSpace address).

Section index.
(** HMAC-SHA256, and the secret the process was started with. *)
Context (hmac : bytes -> bytes -> bytes) (secret : bytes).

Definition blind_index (scope userID address : bytes) : bytes :=
  hex_bytes (hmac secret (scope ++ bs ":" ++ userID ++ bs ":" ++ normalized address)).
End index.

(** * Rows *)

(** What a row holds of its address: a legacy plain one, or the sealed one
    with its index. *)
Record AddressCols := mkCols {
  PlainAddress : option bytes;
  AddressEncrypted : option bytes;
  AddressEphemeral : option bytes;
  AddressEncKey : option bytes;
  AddressBlindIndex : option bytes
}.

Record Card := mkCard {
  NameEncrypted : option bytes;
  PublicKeyEnc : option bytes;
  LastContacted : option Z;
  Trusted : bool;
  CreatedAt : Z;
  PGPPublicKey : option bytes;
  SMIMECertificate : option bytes
}.

(** The fields only a client writes. *)
Record Details := mkDetails {
  EncryptedPhone : option bytes;
  EncryptedNotes : option bytes;
  EncryptedOrg : option bytes;
  EncryptedBirthday : option bytes
}.

Record Contact := mkContact {
  CUser : UUID;
  CTenant : UUID;
  cols : AddressCols;
  card : Card;
  details : Details
}.

Record ContactGroup := mkCGroup {
  GUser : UUID;
  GTenant : UUID;
  GName : bytes;
  GCreatedAt : Z
}.

Record Db := mkDb {
  contacts : gmap UUID Contact;
  contact_groups : gmap UUID ContactGroup;
  contact_group_members : gset (UUID * UUID)      (* group, contact *)
}.

Definition with_contacts (cs : gmap UUID Contact) (d : Db) : Db :=
  mkDb cs (contact_groups d) (contact_group_members d).
Definition with_groups (gs : gmap UUID ContactGroup) (d : Db) : Db :=
  mkDb (contacts d) gs (contact_group_members d).
Definition with_members (ms : gset (UUID * UUID)) (d : Db) : Db :=
  mkDb (contacts d) (contact_groups d) ms.

Definition set_card (x : Card) (c : Contact) : Contact :=
  mkContact (CUser c) (CTenant c) (cols c) x (details c).
Definition set_cols (x : AddressCols) (c : Contact) : Contact :=
  mkContact (CUser c) (CTenant c) x (card c) (details c).

(** * Statements

[up], [ok]: whether the database executes a statement. *)

Definition no_details : Details := mkDetails None None None None.

(** The columns the INSERT names; the others take their default. *)
Definition inserted (c : Contact) : Contact :=
  mkContact (CUser c) (CTenant c)
    (mkCols None (AddressEncrypted (cols c)) (AddressEphemeral (cols c)) (AddressEncKey (cols c))
       (AddressBlindIndex (cols c)))
    (mkCard (NameEncrypted (card c)) (PublicKeyEnc (card c)) (LastContacted (card c)) (Trusted (card c))
       (CreatedAt (card c)) None None)
    no_details.

(** A row of the user with that index. *)
Definition indexed (user blind : bytes) (_ : UUID) (c : Contact) : bool :=
  bool_decide (CUser c = user) && bool_decide (AddressBlindIndex (cols c) = Some blind).

Definition CreateContact (up : bool) (id : UUID) (c : Contact) (d : Db) : result serr unit * Db :=
  let blind := default [] (AddressBlindIndex (cols c)) in
  if bool_decide (blind = []) || bool_decide (default [] (AddressEncrypted (cols c)) = [])
  then (Err SqlRefused, d)
  else if negb up then (Err SqlFailed, d)
  else if negb (affected (indexed (CUser c) blind) (contacts d) =? 0)%nat then (Ok tt, d)
  else match contacts d !! id with
       | Some _ => (Err SqlUnique, d)
       | None => (Ok tt, with_contacts (<[id := inserted c]> (contacts d)) d)
       end.

Definition cmine (user tenant : UUID) (_ : UUID) (c : Contact) : bool :=
  bool_decide (CUser c = user) && bool_decide (CTenant c = tenant).

Definition cmine_id (user tenant id k : UUID) (c : Contact) : bool :=
  bool_decide (k = id) && cmine user tenant k c.

Definition newest_card (a b : UUID * Contact) : Prop := CreatedAt (card b.2) <= CreatedAt (card a.2).
Definition last_seen (c : Contact) : Z := default (CreatedAt (card c)) (LastContacted (card c)).
Definition most_recent (a b : UUID * Contact) : Prop := last_seen b.2 <= last_seen a.2.

#[export] Instance newest_card_dec : RelDecision newest_card.
Proof. intros a b. unfold newest_card. apply _. Defined.
#[export] Instance most_recent_dec : RelDecision most_recent.
Proof. intros a b. unfold most_recent. apply _. Defined.

Definition ListContacts (up : bool) (user tenant : UUID) (d : Db) : result serr (list (UUID * Contact)) :=
  if up then Ok (merge_sort newest_card (map_to_list (select_where (cmine user tenant) (contacts d))))
  else Err SqlFailed.

(** The 200 seen last; the query text is not used. *)
Definition SearchContacts (up : bool) (user tenant : UUID) (query : bytes) (d : Db) :
    result serr (list (UUID * Contact)) :=
  if up then Ok (take 200 (merge_sort most_recent (map_to_list (select_where (cmine user tenant) (contacts d)))))
  else Err SqlFailed.

Record ContactUpdate := mkUpdate {
  u_Name : option bytes;
  u_Trusted : option bool;
  u_Phone : option bytes;
  u_Notes : option bytes;
  u_Org : option bytes;
  u_Birthday : option bytes;
  ClearPhone : bool;
  ClearNotes : bool;
  ClearOrg : bool;
  ClearBirthday : bool
}.

(** [CASE WHEN clear THEN NULL ELSE COALESCE(new, old) END] *)
Definition field (clear : bool) (new old : option bytes) : option bytes :=
  if clear then None else coalesce new old.

Definition apply_update (u : ContactUpdate) (c : Contact) : Contact :=
  mkContact (CUser c) (CTenant c) (cols c)
    (mkCard (coalesce (u_Name u) (NameEncrypted (card c))) (PublicKeyEnc (card c)) (LastContacted (card c))
       (default (Trusted (card c)) (u_Trusted u)) (CreatedAt (card c)) (PGPPublicKey (card c))
       (SMIMECertificate (card c)))
    (mkDetails (field (ClearPhone u) (u_Phone u) (EncryptedPhone (details c)))
       (field (ClearNotes u) (u_Notes u) (EncryptedNotes (details c)))
       (field (ClearOrg u) (u_Org u) (EncryptedOrg (details c)))
       (field (ClearBirthday u) (u_Birthday u) (EncryptedBirthday (details c)))).

(** No row is no error. *)
Definition UpdateContact (up : bool) (user tenant id : UUID) (u : ContactUpdate) (d : Db) : result serr unit * Db :=
  if up then (Ok tt, with_contacts (update_where (cmine_id user tenant id) (apply_update u) (contacts d)) d)
  else (Err SqlFailed, d).

(** A contact takes its memberships with it. *)
Definition drop_memberships (id : UUID) (d : Db) : Db :=
  with_members (filter (fun gm => gm.2 <> id) (contact_group_members d)) d.

Definition DeleteContact (up : bool) (user tenant id : UUID) (d : Db) : result serr unit * Db :=
  if negb up then (Err SqlFailed, d)
  else if (affected (cmine_id user tenant id) (contacts d) =? 0)%nat then (Err SqlNoRows, d)
  else (Ok tt, drop_memberships id (with_contacts (delete_where (cmine_id user tenant id) (contacts d)) d)).

Definition at_index (user tenant blind : bytes) (k : UUID) (c : Contact) : bool :=
  cmine user tenant k c && bool_decide (AddressBlindIndex (cols c) = Some blind).

Definition ContactExistsByBlindIndex (up : bool) (user tenant blind : bytes) (d : Db) : result serr bool :=
  if up then Ok (negb (affected (at_index user tenant blind) (contacts d) =? 0)%nat) else Err SqlFailed.

Definition seen (t : option Z) (x : Card) : Card :=
  mkCard (NameEncrypted x) (PublicKeyEnc x) t (Trusted x) (CreatedAt x) (PGPPublicKey x) (SMIMECertificate x).

Definition UpdateLastContactedByBlindIndex (up : bool) (user tenant blind : bytes) (t : option Z) (d : Db) :
    result serr unit * Db :=
  if up then (Ok tt, with_contacts (update_where (at_index user tenant blind)
                       (fun c => set_card (seen t (card c)) c) (contacts d)) d)
  else (Err SqlFailed, d).

Definition with_pgp (key : bytes) (x : Card) : Card :=
  mkCard (NameEncrypted x) (PublicKeyEnc x) (LastContacted x) (Trusted x) (CreatedAt x) (Some key)
    (SMIMECertificate x).

Definition CountContacts (up : bool) (user tenant : UUID) (d : Db) : result serr nat :=
  if up then Ok (affected (cmine user tenant) (contacts d)) else Err SqlFailed.

(** ** Groups *)

Definition gmine (user tenant id k : UUID) (g : ContactGroup) : bool :=
  bool_decide (k = id) && bool_decide (GUser g = user) && bool_decide (GTenant g = tenant).

Definition CreateGroup (up : bool) (id : UUID) (g : ContactGroup) (d : Db) : result serr unit * Db :=
  if negb up then (Err SqlFailed, d)
  else match contact_groups d !! id with
       | Some _ => (Err SqlUnique, d)
       | None => (Ok tt, with_groups (<[id := g]> (contact_groups d)) d)
       end.

Definition member_count (id : UUID) (d : Db) : nat :=
  size (filter (fun gm => gm.1 = id) (contact_group_members d)).

Definition older_group (a b : UUID * ContactGroup) : Prop := GCreatedAt a.2 <= GCreatedAt b.2.
#[export] Instance older_group_dec : RelDecision older_group.
Proof. intros a b. unfold older_group. apply _. Defined.

Definition ListGroups (up : bool) (user tenant : UUID) (d : Db) : result serr (list (UUID * ContactGroup * nat)) :=
  if up then Ok ((fun kg => (kg, member_count kg.1 d)) <$>
        merge_sort older_group (map_to_list (select_where (fun k g => gmine user tenant k k g) (contact_groups d))))
  else Err SqlFailed.

Definition UpdateGroup (up : bool) (user tenant id : UUID) (name : bytes) (d : Db) : result serr unit * Db :=
  if negb up then (Err SqlFailed, d)
  else if (affected (gmine user tenant id) (contact_groups d) =? 0)%nat then (Err SqlNoRows, d)
  else (Ok tt, with_groups (update_where (gmine user tenant id)
                 (fun g => mkCGroup (GUser g) (GTenant g) name (GCreatedAt g)) (contact_groups d)) d).

Definition DeleteGroup (up : bool) (user tenant id : UUID) (d : Db) : result serr unit * Db :=
  if negb up then (Err SqlFailed, d)
  else if (affected (gmine user tenant id) (contact_groups d) =? 0)%nat then (Err SqlNoRows, d)
  else (Ok tt, with_members (filter (fun gm => gm.1 <> id) (contact_group_members d))
          (with_groups (delete_where (gmine user tenant id) (contact_groups d)) d)).

Definition of_tenant (tenant id k : UUID) (c : Contact) : bool :=
  bool_decide (k = id) && bool_decide (CTenant c = tenant).

(** The two look-ups before a membership changes: the group is the user's, the
    contact the tenant's. *)
Definition check_member (ok : string -> bool) (user tenant group contact : UUID) (d : Db) : result serr unit :=
  if negb (ok "group"%string) then Err SqlFailed
  else if (affected (gmine user tenant group) (contact_groups d) =? 0)%nat then Err SqlNoRows
  else if negb (ok "contact"%string) then Err SqlFailed
  else if (affected (of_tenant tenant contact) (contacts d) =? 0)%nat then Err SqlNoRows
  else Ok tt.

Definition AddGroupMember (ok : string -> bool) (user tenant group contact : UUID) (d : Db) : result serr unit * Db :=
  match check_member ok user tenant group contact d with
  | Err e => (Err e, d)
  | Ok _ => if ok "insert"%string then (Ok tt, with_members ({[ (group, contact) ]} ∪ contact_group_members d) d)
            else (Err SqlFailed, d)
  end.

Definition RemoveGroupMember (ok : string -> bool) (user tenant group contact : UUID) (d : Db) :
    result serr unit * Db :=
  match check_member ok user tenant group contact d with
  | Err e => (Err e, d)
  | Ok _ =>
      if negb (ok "delete"%string) then (Err SqlFailed, d)
      else if bool_decide ((group, contact) ∈ contact_group_members d)
      then (Ok tt, with_members (contact_group_members d ∖ {[ (group, contact) ]}) d)
      else (Err SqlNoRows, d)
  end.

Definition GetGroupMembers (ok : string -> bool) (user tenant group : UUID) (d : Db) :
    result serr (list (UUID * Contact)) :=
  if negb (ok "group"%string) then Err SqlFailed
  else if (affected (gmine user tenant group) (contact_groups d) =? 0)%nat then Err SqlNoRows
  else if negb (ok "members"%string) then Err SqlFailed
  else Ok (merge_sort newest_card (map_to_list (select_where (fun k c =>
             bool_decide ((group, k) ∈ contact_group_members d) && bool_decide (CTenant c = tenant)) (contacts d)))).

(** ** Calls made of several statements *)

Section calls.
Context `{Primitives} `{Entropy} (hmac : bytes -> bytes -> bytes) (secret : bytes).

Definition contact_index (user address : bytes) : bytes := blind_index hmac secret BlindScopeContact user address.

Definition ContactExists (up : bool) (user tenant address : bytes) (d : Db) : result serr bool :=
  ContactExistsByBlindIndex up user tenant (contact_index user address) d.

Definition UpdateContactPGPKey (up : bool) (user tenant address key : bytes) (d : Db) : result serr unit * Db :=
  if up then (Ok tt, with_contacts (update_where (at_index user tenant (contact_index user address))
                       (fun c => set_card (with_pgp key (card c)) c) (contacts d)) d)
  else (Err SqlFailed, d).

Definition UpdateLastContacted (up : bool) (user tenant address : bytes) (t : option Z) :
    Db -> result serr unit * Db :=
  UpdateLastContactedByBlindIndex up user tenant (contact_index user address) t.

(** The row AutoAdd inserts. *)
Definition auto_row (user tenant : UUID) (now : Z) (enc : EncryptedAddress) (blind : bytes) : Contact :=
  mkContact user tenant
    (mkCols None (Some (Encrypted enc)) (Some (Ephemeral enc)) (Some (EncryptedKey enc)) (Some blind))
    (mkCard None None None false now None None) no_details.

(** [AutoAdd]; [id] is the fresh id. *)
Definition AutoAdd (ok : string -> bool) (now : Z) (id user tenant userPubKey userKEMPubKey address : bytes)
    (d : Db) (w : world) : result serr unit * Db * world :=
  if bool_decide (address = []) then (Ok tt, d, w)
  else
    let blind := contact_index user address in
    match ContactExistsByBlindIndex (ok "exists"%string) user tenant blind d with
    | Err e => (Err e, d, w)
    | Ok true => (UpdateLastContactedByBlindIndex (ok "bump"%string) user tenant blind (Some now) d, w)
    | Ok false =>
        match EncryptAddressForUserHybrid userPubKey userKEMPubKey address w with
        | (None, w) => (Err SqlRefused, d, w)
        | (Some enc, w) => (CreateContact (ok "create"%string) id (auto_row user tenant now enc blind) d, w)
        end
    end.
End calls.

(** ** Merging *)

Definition opt_max (a b : option Z) : option Z :=
  match a, b with Some x, Some y => Some (Z.max x y) | _, _ => coalesce a b end.

Definition merged (c l : Card) : Card :=
  mkCard (coalesce (NameEncrypted c) (NameEncrypted l)) (coalesce (PublicKeyEnc c) (PublicKeyEnc l))
    (opt_max (LastContacted c) (LastContacted l)) (Trusted c || Trusted l) (Z.min (CreatedAt c) (CreatedAt l))
    (if bool_decide (default [] (PGPPublicKey c) = []) then PGPPublicKey l else PGPPublicKey c)
    (coalesce (SMIMECertificate c) (SMIMECertificate l)).

(** The groups of a contact, for another contact. *)
Definition rewired (legacy canonical : UUID) (ms : gset (UUID * UUID)) : gset (UUID * UUID) :=
  set_map (fun gm => (gm.1, canonical)) (filter (fun gm : UUID * UUID => gm.2 = legacy) ms) ∪ ms.

(** [mergeAndDropDuplicateContact]: one transaction; with a statement that
    fails nothing happens. *)
Definition mergeAndDropDuplicateContact (ok : string -> bool) (legacy canonical : UUID) (d : Db) :
    result serr unit * Db :=
  if negb (ok "begin"%string && ok "legacy"%string && ok "canonical"%string) then (Err SqlFailed, d)
  else match contacts d !! legacy, contacts d !! canonical with
  | Some l, Some c =>
      if negb (bool_decide (CUser l = CUser c)) then (Err SqlRefused, d)
      else if negb (ok "merge"%string && ok "rewire"%string && ok "delete"%string && ok "commit"%string)
      then (Err SqlFailed, d)
      else
        let cs := alter (fun c => set_card (merged (card c) (card l)) c) canonical (contacts d) in
        let d1 := with_members (rewired legacy canonical (contact_group_members d)) (with_contacts cs d) in
        (Ok tt, drop_memberships legacy (with_contacts (delete legacy (contacts d1)) d1))
  | _, _ => (Err SqlNoRows, d)
  end.

(** ** The backfill *)

Definition pending (_ : UUID) (c : Contact) : bool :=
  bool_decide (is_Some (PlainAddress (cols c))) && bool_decide (AddressEncrypted (cols c) = None).

(** The other row of the user with the index, if there is one. *)
Definition sibling (user blind id : UUID) (d : Db) : option UUID :=
  fst <$> head (map_to_list (select_where (fun k c => indexed user blind k c && negb (bool_decide (k = id)))
                                          (contacts d))).

Definition sealed_cols (enc : EncryptedAddress) (blind : bytes) : AddressCols :=
  mkCols None (Some (Encrypted enc)) (Some (Ephemeral enc)) (Some (EncryptedKey enc)) (Some blind).

Section backfill.
Context `{Primitives} `{Entropy} (hmac : bytes -> bytes -> bytes) (secret : bytes).
(** [authStore.GetUserByID]: the two public keys; a key found once is kept. *)
Context (user_keys : UUID -> option (bytes * bytes)).

(** One row of the list: whether it counts, and the tables after it. *)
Definition backfill_row (ok : string -> bool) (p : UUID * UUID * bytes) (d : Db) (w : world) : bool * Db * world :=
  let '(id, user, address) := p in
  match user_keys user with
  | None => (false, d, w)
  | Some (pub, kem) =>
      match EncryptAddressForUserHybrid pub kem address w with
      | (None, w) => (false, d, w)
      | (Some enc, w) =>
          let blind := contact_index hmac secret user address in
          match (if ok "sibling"%string then sibling user blind id d else None) with
          | Some canonical =>
              match mergeAndDropDuplicateContact ok id canonical d with
              | (Ok _, d) => (true, d, w)
              | (Err _, d) => (false, d, w)
              end
          | None =>
              if ok "update"%string && (affected (fun k c => indexed user blind k c && negb (bool_decide (k = id)))
                                          (contacts d) =? 0)%nat
              then (true, with_contacts (alter (set_cols (sealed_cols enc blind)) id (contacts d)) d, w)
              else (false, d, w)
          end
      end
  end.

Fixpoint backfill_rows (oks : list (string -> bool)) (todo : list (UUID * UUID * bytes)) (d : Db) (w : world) :
    nat * Db * world :=
  match todo with
  | [] => (0%nat, d, w)
  | p :: todo =>
      let '(counted, d, w) := backfill_row (default (fun _ => true) (head oks)) p d w in
      let '(n, d, w) := backfill_rows (tail oks) todo d w in
      ((if (counted : bool) then S n else n), d, w)
  end.

(** At most 5000 rows of those pending, in the order the database gives them;
    what it gave when the reading stopped early is worked on all the same. *)
Definition BackfillEncryptedAddresses (up : bool) (oks : list (string -> bool))
    (order : list (UUID * Contact)) (d : Db) (w : world) : result serr nat * Db * world :=
  if negb up then (Err SqlFailed, d, w)
  else
    let todo := (fun kc => (kc.1, CUser kc.2, default [] (PlainAddress (cols kc.2)))) <$> take 5000 order in
    let '(n, d, w) := backfill_rows oks todo d w in (Ok n, d, w).
End backfill.

(** * Block lists *)

Module Block.

Record BlockedSender := mkBlocked {
  BUser : UUID;
  BTenant : UUID;
  BCols : AddressCols;
  BCreatedAt : Z
}.

Abbreviation Table := (gmap UUID BlockedSender).

Definition at_block (user blind : bytes) (_ : UUID) (b : BlockedSender) : bool :=
  bool_decide (BUser b = user) && bool_decide (AddressBlindIndex (BCols b) = Some blind).

Section block.
Context `{Primitives} `{Entropy} (hmac : bytes -> bytes -> bytes) (secret : bytes).

Definition block_index (user address : bytes) : bytes := blind_index hmac secret BlindScopeBlockSender user address.

(** [id]: the fresh id; [now]: the column's default. *)
Definition BlockSender (up : bool) (now : Z) (id user tenant userPubKey userKEMPubKey address : bytes)
    (t : Table) (w : world) : result serr unit * Table * world :=
  match EncryptAddressForUserHybrid userPubKey userKEMPubKey address w with
  | (None, w) => (Err SqlRefused, t, w)
  | (Some enc, w) =>
      let blind := block_index user address in
      if negb up then (Err SqlFailed, t, w)
      else if negb (affected (at_block user blind) t =? 0)%nat then (Ok tt, t, w)
      else match t !! id with
           | Some _ => (Err SqlUnique, t, w)
           | None => (Ok tt, <[id := mkBlocked user tenant (sealed_cols enc blind) now]> t, w)
           end
  end.

Definition UnblockSender (up : bool) (user address : bytes) (t : Table) : result serr unit * Table :=
  let blind := block_index user address in
  if negb up then (Err SqlFailed, t)
  else if (affected (at_block user blind) t =? 0)%nat then (Err SqlNoRows, t)
  else (Ok tt, delete_where (at_block user blind) t).

Definition newest_block (a b : UUID * BlockedSender) : Prop := BCreatedAt b.2 <= BCreatedAt a.2.
#[export] Instance newest_block_dec : RelDecision newest_block.
Proof. intros a b. unfold newest_block. apply _. Defined.

Definition ListBlocked (up : bool) (user tenant : UUID) (t : Table) : result serr (list (UUID * BlockedSender)) :=
  if up then Ok (merge_sort newest_block (map_to_list (select_where (fun _ b =>
         bool_decide (BUser b = user) && bool_decide (BTenant b = tenant)) t)))
  else Err SqlFailed.

Definition IsBlocked (up : bool) (user address : bytes) (t : Table) : result serr bool :=
  if up then Ok (negb (affected (at_block user (block_index user address)) t =? 0)%nat) else Err SqlFailed.

Context (user_keys : UUID -> option (bytes * bytes)).

(** One row of [BackfillEncryptedSenders]; another row with the index makes
    the UPDATE fail. *)
Definition backfill_block (up : bool) (p : UUID * UUID * bytes) (t : Table) (w : world) : bool * Table * world :=
  let '(id, user, address) := p in
  match user_keys user with
  | None => (false, t, w)
  | Some (pub, kem) =>
      match EncryptAddressForUserHybrid pub kem address w with
      | (None, w) => (false, t, w)
      | (Some enc, w) =>
          let blind := block_index user address in
          if up && (affected (fun k b => at_block user blind k b && negb (bool_decide (k = id))) t =? 0)%nat
          then (true, alter (fun b => mkBlocked (BUser b) (BTenant b) (sealed_cols enc blind) (BCreatedAt b)) id t, w)
          else (false, t, w)
      end
  end.

Fixpoint backfill_blocks (ups : list bool) (todo : list (UUID * UUID * bytes)) (t : Table) (w : world) :
    nat * Table * world :=
  match todo with
  | [] => (0%nat, t, w)
  | p :: todo =>
      let '(counted, t, w) := backfill_block (default true (head ups)) p t w in
      let '(n, t, w) := backfill_blocks (tail ups) todo t w in
      ((if (counted : bool) then S n else n), t, w)
  end.

Definition BackfillEncryptedSenders (up : bool) (ups : list bool) (order : list (UUID * BlockedSender))
    (t : Table) (w : world) : result serr nat * Table * world :=
  if negb up then (Err SqlFailed, t, w)
  else
    let todo := (fun kb => (kb.1, BUser kb.2, default [] (PlainAddress (BCols kb.2)))) <$> take 5000 order in
    let '(n, t, w) := backfill_blocks ups todo t w in (Ok n, t, w).

(** A sender stays blocked, however the address is written, until unblocked. *)
Lemma blocked_after now id user tenant pub kem address t w t' w' :
  BlockSender true now id user tenant pub kem address t w = (Ok tt, t', w') ->
  forall spelling, normalized spelling = normalized address -> IsBlocked true user spelling t' = Ok true.
Proof.
  intros E spelling Hn. unfold IsBlocked. f_equal. apply negb_true_iff, Nat.eqb_neq.
  assert (block_index user spelling = block_index user address) as Hi
    by (unfold block_index, blind_index; by rewrite Hn).
  rewrite Hi, affected_zero. unfold BlockSender in E.
  destruct (EncryptAddressForUserHybrid pub kem address w) as [[enc|] w1]; [|done]. cbn [negb] in E.
  destruct (affected _ t =? 0)%nat eqn:Ea; cbn [negb] in E.
  - destruct (t !! id) eqn:Et; [done|]. injection E as <- <-. intros Hz.
    specialize (Hz id _ (lookup_insert_eq _ _ _)). unfold at_block in Hz. cbn in Hz.
    by rewrite !bool_decide_eq_true_2 in Hz.
  - injection E as <- <-. apply Nat.eqb_neq in Ea. by rewrite affected_zero in Ea.
Qed.
End block.
End Block.

(** * Lemmas *)

Section address_lemmas.
Context `{PrimitiveLaws} `{EntropyLaws}.

Lemma address_opens priv dk kemPub address w enc w' :
  length priv = 32%nat ->
  public_kem dk (match kemPub with [] => None | _ => MLKEMEncapsulationKeyFromBytes kemPub end) ->
  EncryptAddressForUserHybrid (x25519_base priv) kemPub address w = (Some enc, w') ->
  DecryptSubjectOnlyAuto priv dk (Ephemeral enc) (EncryptedKey enc) (Encrypted enc) = Some address.
Proof.
  intros Hp Hk E. unfold EncryptAddressForUserHybrid in E. destruct (negb _); [done|].
  unfold mbind, M_bind in E. rewrite NewPublicKey_base in E. cbn [liftM] in E.
  assert (exists ek m w1, public_kem dk ek /\
    EncryptMessageHybrid (x25519_base priv) ek address [] w = (Some m, w1) /\
    enc = mkAddress (EncryptedSubject m) (EphemeralPubkey m) (EncryptedMessageKey m)) as (ek & m & w1 & Hek & Em & ->).
  { destruct kemPub as [|b kemPub].
    - cbn [mret M_ret] in E. destruct (EncryptMessageHybrid _ None address [] w) as [[m|] w1] eqn:Em; [|done].
      injection E as <- <-. by exists None, m, w1.
    - destruct (MLKEMEncapsulationKeyFromBytes (b :: kemPub)) as [ek|] eqn:Eek; [|done]. cbn [liftM mret M_ret] in E.
      destruct (EncryptMessageHybrid _ (Some ek) address [] w) as [[m|] w1] eqn:Em; [|done].
      injection E as <- <-. by exists (Some ek), m, w1. }
  assert (message_for priv dk address [] None m) as Hm
    by by eapply EncryptMessageWithHeadersHybrid_spec.
  apply message_for_opens in Hm as (_ & Hs & _). exact Hs.
Qed.
End address_lemmas.

(** ** What calls do to the rows *)

(** One row per user and index, and no plain address beside an index. *)
Definition wf (cs : gmap UUID Contact) : Prop :=
  (forall k1 k2 c1 c2 b, cs !! k1 = Some c1 -> cs !! k2 = Some c2 -> CUser c1 = CUser c2 ->
     AddressBlindIndex (cols c1) = Some b -> AddressBlindIndex (cols c2) = Some b -> k1 = k2) /\
  (forall k c, cs !! k = Some c -> is_Some (AddressBlindIndex (cols c)) -> PlainAddress (cols c) = None).

(** Every plain address in [cs'] was there in [cs]. *)
Definition no_new_plain (cs cs' : gmap UUID Contact) : Prop :=
  forall k c' a, cs' !! k = Some c' -> PlainAddress (cols c') = Some a ->
    exists c, cs !! k = Some c /\ PlainAddress (cols c) = Some a.

Definition good_change (cs cs' : gmap UUID Contact) : Prop := (wf cs -> wf cs') /\ no_new_plain cs cs'.

(** The rows of the other users stay as they are. *)
Definition others (u : UUID) (cs cs' : gmap UUID Contact) : Prop :=
  forall k c, CUser c <> u -> (cs !! k = Some c <-> cs' !! k = Some c).

(** Every row comes from one with the same user and address. *)
Definition tame (cs cs' : gmap UUID Contact) : Prop :=
  forall k c', cs' !! k = Some c' -> exists c, cs !! k = Some c /\ CUser c' = CUser c /\ cols c' = cols c.

Lemma good_change_refl cs : good_change cs cs.
Proof. split; [done|]. intros k c a Hk Ha. by exists c. Qed.

Lemma good_trans a b c : good_change a b -> good_change b c -> good_change a c.
Proof.
  intros [H1 H2] [H3 H4]. split; [auto|]. intros k x addr Hk Hx.
  destruct (H4 _ _ _ Hk Hx) as (y & Hy & Hp). by apply (H2 _ _ _ Hy).
Qed.

Lemma tame_good cs cs' : tame cs cs' -> good_change cs cs'.
Proof.
  intros Ht. split.
  - intros [Hu Hp]. split.
    + intros k1 k2 c1 c2 b H1 H2 Hc Hb1 Hb2.
      destruct (Ht _ _ H1) as (d1 & Hd1 & Hu1 & Hc1), (Ht _ _ H2) as (d2 & Hd2 & Hu2 & Hc2).
      apply (Hu k1 k2 d1 d2 b); congruence.
    + intros k c Hk Hb. destruct (Ht _ _ Hk) as (e & He & _ & Hc). rewrite Hc in *. by apply (Hp k).
  - intros k c' a Hk Ha. destruct (Ht _ _ Hk) as (c & Hc & _ & E). exists c. by rewrite <-E.
Qed.

Lemma tame_refl cs : tame cs cs.
Proof. intros k c Hk. by exists c. Qed.

Lemma tame_trans a b c : tame a b -> tame b c -> tame a c.
Proof.
  intros H1 H2 k x Hx. destruct (H2 _ _ Hx) as (y & Hy & Eu & Ec). destruct (H1 _ _ Hy) as (z & Hz & Eu2 & Ec2).
  exists z. split_and!; congruence.
Qed.

Lemma tame_update P f cs :
  (forall c, CUser (f c) = CUser c /\ cols (f c) = cols c) -> tame cs (update_where P f cs).
Proof.
  intros Hf k c'. rewrite lookup_update_where. destruct (cs !! k) as [c|]; [|done]. intros [= <-].
  exists c. split; [done|]. by destruct (P k c).
Qed.

Lemma tame_delete P cs : tame cs (delete_where P cs).
Proof. intros k c [Hk _]%lookup_delete_where. by exists c. Qed.

Lemma others_refl u cs : others u cs cs.
Proof. done. Qed.

Lemma others_update u P f cs :
  (forall k c, P k c = true -> CUser c = u) -> (forall c, CUser (f c) = CUser c) ->
  others u cs (update_where P f cs).
Proof.
  intros HP Hf k c Hc. rewrite lookup_update_where. split.
  - intros ->. cbn. destruct (P k c) eqn:E; [by apply HP in E|done].
  - destruct (cs !! k) as [x|]; [|done]. cbn. destruct (P k x) eqn:E; [|done].
    intros [= Hx]. apply HP in E. rewrite <-Hx, Hf in Hc. done.
Qed.

Lemma others_delete u P cs : (forall k c, P k c = true -> CUser c = u) -> others u cs (delete_where P cs).
Proof.
  intros HP k c Hc. rewrite lookup_delete_where. split; [|tauto]. intros Hk. split; [done|].
  destruct (P k c) eqn:E; [by apply HP in E|done].
Qed.

Lemma cmine_user user tenant k c : cmine user tenant k c = true -> CUser c = user.
Proof. unfold cmine. intros H. by bool_prop. Qed.

Lemma cmine_id_user user tenant id k c : cmine_id user tenant id k c = true -> CUser c = user.
Proof. unfold cmine_id. intros H. bool_prop. by eapply cmine_user. Qed.

Lemma at_index_user user tenant blind k c : at_index user tenant blind k c = true -> CUser c = user.
Proof. unfold at_index. intros H. bool_prop. by eapply cmine_user. Qed.

(** A row with an index the user has not is no second one. *)
Lemma insert_good cs id c blind :
  cs !! id = None -> affected (indexed (CUser c) blind) cs = 0%nat ->
  AddressBlindIndex (cols c) = Some blind -> PlainAddress (cols c) = None -> good_change cs (<[id := c]> cs).
Proof.
  intros Hid Ha Hb Hp. rewrite affected_zero in Ha.
  assert (Hnew : forall k x, cs !! k = Some x -> CUser x = CUser c -> AddressBlindIndex (cols x) <> Some blind).
  { intros k x Hk Hx Hbx. specialize (Ha _ _ Hk). unfold indexed in Ha.
    by rewrite !bool_decide_eq_true_2 in Ha. }
  split.
  - intros [Hu Hpl]. split.
    + intros k1 k2 c1 c2 b H1 H2 Hc Hb1 Hb2.
      destruct (decide (k1 = id)) as [->|N1], (decide (k2 = id)) as [->|N2]; [done|..].
      * rewrite lookup_insert_eq in H1. rewrite lookup_insert_ne in H2 by done. simplify_eq.
        by apply (Hnew k2 c2) in H2.
      * rewrite lookup_insert_eq in H2. rewrite lookup_insert_ne in H1 by done. simplify_eq.
        by apply (Hnew k1 c1) in H1.
      * rewrite lookup_insert_ne in H1, H2 by done. by apply (Hu k1 k2 c1 c2 b).
    + intros k x Hk Hx. destruct (decide (k = id)) as [->|N].
      * rewrite lookup_insert_eq in Hk. by injection Hk as <-.
      * rewrite lookup_insert_ne in Hk by done. by apply (Hpl k).
  - intros k x a Hk Hx. destruct (decide (k = id)) as [->|N].
    + rewrite lookup_insert_eq in Hk. injection Hk as <-. congruence.
    + rewrite lookup_insert_ne in Hk by done. by exists x.
Qed.

Lemma others_insert cs id c : cs !! id = None -> others (CUser c) cs (<[id := c]> cs).
Proof.
  intros Hid k x Hx. destruct (decide (id = k)) as [->|N].
  - rewrite lookup_insert_eq, Hid. split; [done|]. by intros [= <-].
  - by rewrite lookup_insert_ne.
Qed.

Lemma create_spec up id c d :
  good_change (contacts d) (contacts (CreateContact up id c d).2) /\
  others (CUser c) (contacts d) (contacts (CreateContact up id c d).2).
Proof.
  unfold CreateContact. destruct (AddressBlindIndex (cols c)) as [blind|] eqn:Eb.
  2: { rewrite bool_decide_eq_true_2 by done. cbn. split; [apply good_change_refl|apply others_refl]. }
  change (default [] (Some blind)) with blind.
  destruct (_ || _)%bool; [split; [apply good_change_refl|apply others_refl]|].
  destruct (negb up); [split; [apply good_change_refl|apply others_refl]|].
  destruct (affected _ _ =? 0)%nat eqn:Ea; cbn [negb]; [|split; [apply good_change_refl|apply others_refl]].
  destruct (contacts d !! id) eqn:Ei; [split; [apply good_change_refl|apply others_refl]|]. cbn [snd contacts with_contacts].
  apply Nat.eqb_eq in Ea. split.
  - apply (insert_good _ _ _ blind); [done|exact Ea|exact Eb|done].
  - change (CUser c) with (CUser (inserted c)). by apply others_insert.
Qed.

Lemma bump_spec up user tenant blind t d :
  let d' := (UpdateLastContactedByBlindIndex up user tenant blind t d).2 in
  good_change (contacts d) (contacts d') /\ others user (contacts d) (contacts d').
Proof.
  cbv zeta. unfold UpdateLastContactedByBlindIndex. destruct up; [|split; [apply good_change_refl|apply others_refl]].
  split; [by apply tame_good, tame_update|]. by apply others_update; [apply at_index_user|].
Qed.

Lemma merge_good ok legacy canonical d :
  good_change (contacts d) (contacts (mergeAndDropDuplicateContact ok legacy canonical d).2).
Proof.
  unfold mergeAndDropDuplicateContact. destruct (negb _); [apply good_change_refl|].
  destruct (contacts d !! legacy) as [l|] eqn:El; [|apply good_change_refl].
  destruct (contacts d !! canonical) as [c|] eqn:Ec; [|apply good_change_refl].
  destruct (negb _); [apply good_change_refl|]. destruct (negb _); [apply good_change_refl|].
  cbn [snd contacts drop_memberships with_members with_contacts]. apply tame_good.
  intros k x Hk. apply lookup_delete_Some in Hk as [_ Hk].
  destruct (decide (canonical = k)) as [<-|N].
  - rewrite lookup_alter_eq, Ec in Hk. injection Hk as <-. by exists c.
  - rewrite lookup_alter_ne in Hk by done. by exists x.
Qed.

Section calls_lemmas.
Context `{Primitives} `{Entropy} (hmac : bytes -> bytes -> bytes) (secret : bytes).
Context (user_keys : UUID -> option (bytes * bytes)).

Lemma auto_spec ok now id user tenant pub kem address d w :
  let d' := (AutoAdd hmac secret ok now id user tenant pub kem address d w).1.2 in
  good_change (contacts d) (contacts d') /\ others user (contacts d) (contacts d').
Proof.
  cbv zeta. unfold AutoAdd. case_bool_decide; [split; [apply good_change_refl|apply others_refl]|].
  destruct (ContactExistsByBlindIndex _ _ _ _ d) as [[]|e]; [| |split; [apply good_change_refl|apply others_refl]].
  - apply bump_spec.
  - destruct (EncryptAddressForUserHybrid pub kem address w) as [[enc|] w1];
      [|split; [apply good_change_refl|apply others_refl]]. cbn [fst].
    apply (create_spec _ _ (auto_row user tenant now enc (contact_index hmac secret user address))).
Qed.

(** The listed rows are still their users'. *)
Definition of_users (todo : list (UUID * UUID * bytes)) (cs : gmap UUID Contact) : Prop :=
  forall id user a c, (id, user, a) ∈ todo -> cs !! id = Some c -> CUser c = user.

Definition same_users (cs cs' : gmap UUID Contact) : Prop :=
  forall k c', cs' !! k = Some c' -> exists c, cs !! k = Some c /\ CUser c' = CUser c.

Lemma of_users_mono todo cs cs' : same_users cs cs' -> of_users todo cs -> of_users todo cs'.
Proof. intros Hs Hu k u a c Hin Hk. destruct (Hs _ _ Hk) as (c0 & Hc0 & ->). by eapply Hu. Qed.

Lemma tame_same_users cs cs' : tame cs cs' -> same_users cs cs'.
Proof. intros Ht k c Hk. destruct (Ht _ _ Hk) as (x & Hx & Hu & _). by exists x. Qed.

Lemma merge_same_users ok legacy canonical d :
  same_users (contacts d) (contacts (mergeAndDropDuplicateContact ok legacy canonical d).2).
Proof.
  unfold mergeAndDropDuplicateContact. destruct (negb _); [intros k c Hk; by exists c|].
  destruct (contacts d !! legacy) as [l|] eqn:El; [|intros k x Hk; by exists x].
  destruct (contacts d !! canonical) as [c|] eqn:Ec; [|intros k x Hk; by exists x].
  destruct (negb _); [intros k x Hk; by exists x|]. destruct (negb _); [intros k x Hk; by exists x|].
  cbn [snd contacts drop_memberships with_members with_contacts].
  intros k x Hk. apply lookup_delete_Some in Hk as [_ Hk].
  destruct (decide (canonical = k)) as [<-|N].
  - rewrite lookup_alter_eq, Ec in Hk. injection Hk as <-. by exists c.
  - rewrite lookup_alter_ne in Hk by done. by exists x.
Qed.

Lemma seal_row_good cs id user enc blind :
  (forall c, cs !! id = Some c -> CUser c = user) ->
  affected (fun k c => indexed user blind k c && negb (bool_decide (k = id))) cs = 0%nat ->
  good_change cs (alter (set_cols (sealed_cols enc blind)) id cs).
Proof.
  intros Hu Ha. rewrite affected_zero in Ha.
  assert (Hnew : forall k x, cs !! k = Some x -> k <> id -> CUser x = user -> AddressBlindIndex (cols x) <> Some blind).
  { intros k x Hk N Hx Hb. specialize (Ha _ _ Hk). unfold indexed in Ha.
    rewrite !bool_decide_eq_true_2, bool_decide_eq_false_2 in Ha by done. done. }
  split.
  - intros [Huq Hpl]. split.
    + intros k1 k2 c1 c2 b H1 H2 Hc Hb1 Hb2.
      destruct (decide (id = k1)) as [<-|N1], (decide (id = k2)) as [<-|N2]; [done|..].
      * rewrite lookup_alter_eq in H1. rewrite lookup_alter_ne in H2 by done.
        apply fmap_Some in H1 as (x & Hx & ->). cbn in Hb1, Hc. injection Hb1 as <-.
        exfalso. apply (Hnew k2 c2); [done|done|by rewrite <-Hc; apply Hu|done].
      * rewrite lookup_alter_eq in H2. rewrite lookup_alter_ne in H1 by done.
        apply fmap_Some in H2 as (x & Hx & ->). cbn in Hb2, Hc. injection Hb2 as <-.
        exfalso. apply (Hnew k1 c1); [done|done|by rewrite Hc; apply Hu|done].
      * rewrite lookup_alter_ne in H1, H2 by done. by apply (Huq k1 k2 c1 c2 b).
    + intros k x Hk Hx. destruct (decide (id = k)) as [<-|N].
      * rewrite lookup_alter_eq in Hk. apply fmap_Some in Hk as (y & _ & ->). done.
      * rewrite lookup_alter_ne in Hk by done. by apply (Hpl k).
  - intros k x a Hk Hx. destruct (decide (id = k)) as [<-|N].
    + rewrite lookup_alter_eq in Hk. apply fmap_Some in Hk as (y & _ & ->). done.
    + rewrite lookup_alter_ne in Hk by done. by exists x.
Qed.

Lemma backfill_row_spec ok p d w :
  of_users [p] (contacts d) ->
  good_change (contacts d) (contacts (backfill_row hmac secret user_keys ok p d w).1.2) /\
  same_users (contacts d) (contacts (backfill_row hmac secret user_keys ok p d w).1.2).
Proof.
  destruct p as [[id user] address]. intros Hu. unfold backfill_row.
  assert (Hrefl : forall x : Db, good_change (contacts x) (contacts x) /\ same_users (contacts x) (contacts x))
    by (intros x; split; [apply good_change_refl|intros k c Hk; by exists c]).
  destruct (user_keys user) as [[pub kem]|]; [|apply Hrefl].
  destruct (EncryptAddressForUserHybrid pub kem address w) as [[enc|] w1]; [|apply Hrefl].
  set (blind := contact_index _ _ _ _).
  destruct (if ok "sibling"%string then _ else _) as [canonical|].
  - pose proof (merge_good ok id canonical d) as Hg. pose proof (merge_same_users ok id canonical d) as Hs.
    destruct (mergeAndDropDuplicateContact ok id canonical d) as [[[]|e] d']; cbn in *; by split.
  - destruct (ok "update"%string); [|apply Hrefl]. cbn [andb]. destruct (_ =? 0)%nat eqn:Ea; [|apply Hrefl].
    apply Nat.eqb_eq in Ea. cbn [fst snd contacts with_contacts]. split.
    + apply (seal_row_good _ _ user); [|exact Ea]. intros c Hc. apply (Hu id user address c); [left|done].
    + intros k x Hk. destruct (decide (id = k)) as [<-|N].
      * rewrite lookup_alter_eq in Hk. apply fmap_Some in Hk as (y & Hy & ->). by exists y.
      * rewrite lookup_alter_ne in Hk by done. by exists x.
Qed.

Lemma backfill_rows_good oks todo d w :
  of_users todo (contacts d) ->
  good_change (contacts d) (contacts (backfill_rows hmac secret user_keys oks todo d w).1.2).
Proof.
  revert oks d w. induction todo as [|p todo IH]; intros oks d w Hu; [apply good_change_refl|]. cbn [backfill_rows].
  destruct (backfill_row_spec (default (fun _ => true) (head oks)) p d w) as [Hg Hs].
  { intros k u a c Hin. apply list_elem_of_singleton in Hin as <-. eapply Hu. left. }
  destruct (backfill_row _ _ _ _ p d w) as [[counted d1] w1]. cbn [fst snd] in *.
  specialize (IH (tail oks) d1 w1).
  destruct (backfill_rows _ _ _ (tail oks) todo d1 w1) as [[n d2] w2]. cbn [fst snd] in *.
  eapply good_trans; [exact Hg|]. apply IH. eapply of_users_mono; [exact Hs|].
  intros k u a c Hin. eapply Hu. by right.
Qed.
End calls_lemmas.

(** ** All the calls *)

Section steps.
Context `{Primitives} `{Entropy} (hmac : bytes -> bytes -> bytes) (secret : bytes).
Context (user_keys : UUID -> option (bytes * bytes)).

(** One call, by a user or by the maintenance at start-up. *)
Inductive cstep : option UUID -> Db -> Db -> Prop :=
| s_create up id c d : cstep (Some (CUser c)) d (CreateContact up id c d).2
| s_update up user tenant id u d : cstep (Some user) d (UpdateContact up user tenant id u d).2
| s_delete up user tenant id d : cstep (Some user) d (DeleteContact up user tenant id d).2
| s_auto ok now id user tenant pub kem address d w :
    cstep (Some user) d (AutoAdd hmac secret ok now id user tenant pub kem address d w).1.2
| s_bump up user tenant address t d :
    cstep (Some user) d (UpdateLastContacted hmac secret up user tenant address t d).2
| s_pgp up user tenant address key d :
    cstep (Some user) d (UpdateContactPGPKey hmac secret up user tenant address key d).2
| s_group up id g d : cstep (Some (GUser g)) d (CreateGroup up id g d).2
| s_group_name up user tenant id name d : cstep (Some user) d (UpdateGroup up user tenant id name d).2
| s_group_delete up user tenant id d : cstep (Some user) d (DeleteGroup up user tenant id d).2
| s_member ok user tenant g c d : cstep (Some user) d (AddGroupMember ok user tenant g c d).2
| s_unmember ok user tenant g c d : cstep (Some user) d (RemoveGroupMember ok user tenant g c d).2
| s_backfill up oks order d w :
    (forall k c, (k, c) ∈ order -> contacts d !! k = Some c) ->
    cstep None d (BackfillEncryptedAddresses hmac secret user_keys up oks order d w).1.2.

Lemma groups_keep_contacts d d' cs : contacts d' = cs -> contacts d = cs -> forall u,
  good_change (contacts d) (contacts d') /\ others u (contacts d) (contacts d').
Proof. intros -> -> u. split; [apply good_change_refl|apply others_refl]. Qed.

Lemma cstep_spec u d d' :
  cstep u d d' -> good_change (contacts d) (contacts d') /\
    forall user, u = Some user -> others user (contacts d) (contacts d').
Proof.
  intros Hs.
  assert (Hone : forall user, good_change (contacts d) (contacts d') /\ others user (contacts d) (contacts d') ->
    u = Some user -> good_change (contacts d) (contacts d') /\
      forall x, u = Some x -> others x (contacts d) (contacts d')).
  { intros user [Hg Ho] Hu. split; [done|]. intros x Hx. rewrite Hu in Hx. by injection Hx as <-. }
  destruct Hs; try (eapply Hone; [|done]); clear Hone.
  - apply create_spec.
  - unfold UpdateContact. destruct up; [|split; [apply good_change_refl|apply others_refl]]. cbn [snd contacts with_contacts].
    split; [by apply tame_good, tame_update|]. by apply others_update; [apply cmine_id_user|].
  - unfold DeleteContact. destruct (negb up); [split; [apply good_change_refl|apply others_refl]|].
    destruct (_ =? 0)%nat; [split; [apply good_change_refl|apply others_refl]|].
    cbn [snd contacts drop_memberships with_members with_contacts].
    split; [apply tame_good, tame_delete|apply others_delete, cmine_id_user].
  - apply auto_spec.
  - apply bump_spec.
  - unfold UpdateContactPGPKey. destruct up; [|split; [apply good_change_refl|apply others_refl]]. cbn [snd contacts with_contacts].
    split; [by apply tame_good, tame_update|]. by apply others_update; [apply at_index_user|].
  - unfold CreateGroup. repeat case_match; split; (apply good_change_refl || apply others_refl).
  - unfold UpdateGroup. repeat case_match; split; (apply good_change_refl || apply others_refl).
  - unfold DeleteGroup. repeat case_match; split; (apply good_change_refl || apply others_refl).
  - unfold AddGroupMember. repeat case_match; split; (apply good_change_refl || apply others_refl).
  - unfold RemoveGroupMember. repeat case_match; split; (apply good_change_refl || apply others_refl).
  - split; [|done]. unfold BackfillEncryptedAddresses. destruct (negb up); [apply good_change_refl|].
    set (todo := _ <$> _).
    assert (Hu : of_users todo (contacts d)).
    { intros k u a c Hin Hk. subst todo. apply list_elem_of_fmap in Hin as ([k0 c0] & [= -> -> _] & Hin).
      apply elem_of_take in Hin as (i & Hin & _). apply list_elem_of_lookup_2 in Hin. apply H1 in Hin. congruence. }
    pose proof (backfill_rows_good hmac secret user_keys oks todo d w Hu) as Hg.
    destruct (backfill_rows _ _ _ oks todo d w) as [[n d2] w2]. exact Hg.
Qed.

(** Some calls in a row, with who made them. *)
Inductive cruns : list (option UUID) -> Db -> Db -> Prop :=
| cruns_nil d : cruns [] d d
| cruns_cons u us d d1 d2 : cstep u d d1 -> cruns us d1 d2 -> cruns (u :: us) d d2.

(** Whatever is called, in any order and with any failures: no plain address
    is ever written that was not there before, a row with an index has none,
    and a user has at most one row for an index; and what the others call,
    sharing, grouping and learning keys included, leaves a user's contacts as
    they are. *)
Theorem address_book_stays_sealed us d d' (HR : cruns us d d') (HW : wf (contacts d)) :
  wf (contacts d') /\ no_new_plain (contacts d) (contacts d') /\
  (forall user, Forall (fun u => exists x, u = Some x /\ x <> user) us ->
     forall k c, CUser c = user -> (contacts d !! k = Some c <-> contacts d' !! k = Some c)).
Proof.
  induction HR as [d|u us d d1 d2 Hs _ IH].
  { split; [done|]. split; [apply good_change_refl|done]. }
  apply cstep_spec in Hs as [[Hw Hn] Ho]. destruct (IH (Hw HW)) as (Hw2 & Hn2 & Ho2).
  split; [done|]. split.
  - intros k c a Hk Ha. destruct (Hn2 _ _ _ Hk Ha) as (x & Hx & Hp). by apply (Hn _ _ _ Hx).
  - intros user Hall k c Hc. inversion Hall as [|? ? (x & -> & Hx) Hall']; subst.
    rewrite (Ho x eq_refl k c) by (intros E; by apply Hx). by apply (Ho2 (CUser c)).
Qed.
End steps.

Section auto_added.
Context `{Primitives} `{!PrimitiveLaws} `{Entropy} `{!EntropyLaws}.

(** What AutoAdd stores, its owner can read and everybody else's index cannot
    find: the row's address opens with the owner's keys, any spelling of it
    (case, white space) finds the row, and adding it again, spelled any way,
    adds no row. *)
Theorem auto_added_address_is_found hmac secret ok now id user tenant priv dk kemPub
    address d w d' w'
    (HP : length priv = 32%nat)
    (HK : public_kem dk (match kemPub with [] => None | _ => MLKEMEncapsulationKeyFromBytes kemPub end))
    (HN : address <> []) (HO : ok = fun _ => true)
    (HE : ContactExists hmac secret true user tenant address d = Ok false)
    (HF : affected (indexed user (contact_index hmac secret user address)) (contacts d) = 0%nat)
    (HA : AutoAdd hmac secret ok now id user tenant (x25519_base priv) kemPub address d w = (Ok tt, d', w')) :
  (exists c enc, contacts d' !! id = Some c /\ cols c = sealed_cols enc (contact_index hmac secret user address) /\
     DecryptSubjectOnlyAuto priv dk (Ephemeral enc) (EncryptedKey enc) (Encrypted enc) = Some address) /\
  (forall spelling, normalized spelling = normalized address ->
     ContactExists hmac secret true user tenant spelling d' = Ok true) /\
  (forall spelling id2 t2 pub w2, normalized spelling = normalized address ->
     dom (contacts (AutoAdd hmac secret ok t2 id2 user tenant pub kemPub spelling d' w2).1.2) = dom (contacts d')).
Proof.
  unfold AutoAdd in HA. rewrite bool_decide_eq_false_2, HO in HA by done.
  change (ContactExistsByBlindIndex true user tenant (contact_index hmac secret user address) d = Ok false) in HE.
  rewrite HE in HA.
  destruct (EncryptAddressForUserHybrid _ kemPub address w) as [[enc|] w1] eqn:Ee; [|done].
  pose proof (address_opens _ _ _ _ _ _ _ HP HK Ee) as Hopen.
  set (blind := contact_index hmac secret user address) in *.
  injection HA as HA <-. unfold CreateContact in HA. cbn [auto_row cols AddressBlindIndex AddressEncrypted CUser] in HA.
  change (default [] (Some blind)) with blind in HA. change (default [] (Some (Encrypted enc))) with (Encrypted enc) in HA.
  destruct (_ || _)%bool; [done|]. rewrite HF in HA. cbn [negb Nat.eqb] in HA.
  destruct (contacts d !! id) as [c0|] eqn:Ei; [done|]. injection HA as <-. cbn [contacts with_contacts].
  set (row := inserted _).
  assert (Hfound : forall spelling, normalized spelling = normalized address ->
    ContactExistsByBlindIndex true user tenant (contact_index hmac secret user spelling)
      (with_contacts (<[id := row]> (contacts d)) d) = Ok true).
  { intros spelling Hs.
    assert (contact_index hmac secret user spelling = blind) as ->
      by (unfold blind, contact_index, blind_index; by rewrite Hs).
    unfold ContactExistsByBlindIndex. f_equal. apply negb_true_iff, Nat.eqb_neq. rewrite affected_zero.
    intros Hz. specialize (Hz id row (lookup_insert_eq _ _ _)). unfold at_index, cmine in Hz. cbn in Hz.
    by rewrite !bool_decide_eq_true_2 in Hz. }
  split_and!.
  - exists row, enc. split_and!; [apply lookup_insert_eq|done|done].
  - exact Hfound.
  - intros spelling id2 t2 pub w2 Hs. unfold AutoAdd. case_bool_decide; [done|]. rewrite HO, Hfound by done.
    cbn [fst snd]. unfold UpdateLastContactedByBlindIndex. cbn [snd contacts with_contacts].
    apply set_eq. intros k. rewrite !elem_of_dom, lookup_update_where. by rewrite fmap_is_Some.
Qed.
End auto_added.

(** A merged duplicate loses no membership and none of the fields the code
    names: every group of the old row is one of the remaining row, which keeps
    its own fields and takes the others from the old one. *)
Theorem merge_keeps_what_it_names ok legacy canonical d d' l c
    (HL : contacts d !! legacy = Some l) (HC : contacts d !! canonical = Some c) (HD : legacy <> canonical)
    (HM : mergeAndDropDuplicateContact ok legacy canonical d = (Ok tt, d')) :
  contacts d' !! legacy = None /\
  (exists c', contacts d' !! canonical = Some c' /\ card c' = merged (card c) (card l) /\ cols c' = cols c /\
     CUser c' = CUser l) /\
  (forall g, (g, legacy) ∈ contact_group_members d \/ (g, canonical) ∈ contact_group_members d <->
     (g, canonical) ∈ contact_group_members d') /\
  (forall g k, k <> legacy -> k <> canonical ->
     ((g, k) ∈ contact_group_members d <-> (g, k) ∈ contact_group_members d')).
Proof.
  unfold mergeAndDropDuplicateContact in HM. destruct (negb _); [done|]. rewrite HL, HC in HM.
  destruct (bool_decide (CUser l = CUser c)) eqn:Eu; [|done]. cbn [negb] in HM. destruct (negb _); [done|].
  apply bool_decide_eq_true in Eu.
  injection HM as <-. cbn [contacts contact_group_members drop_memberships with_members with_contacts].
  split_and!.
  - apply lookup_delete_eq.
  - eexists. rewrite lookup_delete_ne, lookup_alter_eq, HC by done. by split_and!.
  - intros g. unfold rewired. rewrite elem_of_filter, elem_of_union, elem_of_map. cbn [snd]. split.
    + intros [Hg|Hg]; (split; [by intros ?|]); [left|by right]. exists (g, legacy).
      split; [done|]. by apply elem_of_filter.
    + intros [_ [([g0 k0] & [= ->] & Hin)|Hg]]; [left|by right]. apply elem_of_filter in Hin as [Hk Hin].
      cbn in Hk. by subst k0.
  - intros g k H1 H2. unfold rewired. rewrite elem_of_filter, elem_of_union, elem_of_map. cbn [snd]. split.
    + intros Hg. split; [done|by right].
    + intros [_ [([g0 k0] & [= _ ->] & _)|Hg]]; done.
Qed.

(** And it loses the rest: the old row's phone number, notes, organisation
    and birthday are gone with it, though the code takes the row for fully
    merged. *)
Theorem merge_drops_details ok legacy canonical d d' c
    (HC : contacts d !! canonical = Some c) (HD : legacy <> canonical)
    (HM : mergeAndDropDuplicateContact ok legacy canonical d = (Ok tt, d')) :
  contacts d' !! legacy = None /\ details <$> contacts d' !! canonical = Some (details c).
Proof.
  unfold mergeAndDropDuplicateContact in HM. destruct (negb _); [done|]. rewrite HC in HM.
  destruct (contacts d !! legacy) as [l|]; [|done]. destruct (negb _); [done|]. destruct (negb _); [done|].
  injection HM as <-. cbn [contacts drop_memberships with_members with_contacts].
  split; [apply lookup_delete_eq|]. by rewrite lookup_delete_ne, lookup_alter_eq, HC.
Qed.

(** A group of one user can show another user's contact: of the contact only
    the tenant is checked, when it is added and when the group is listed. *)
Theorem group_shows_strangers_contact user tenant group g id c d
    (HG : contact_groups d !! group = Some g) (HU : GUser g = user) (HT : GTenant g = tenant)
    (HC : contacts d !! id = Some c) (HCT : CTenant c = tenant) :
  let '(r, d') := AddGroupMember (fun _ => true) user tenant group id d in
  r = Ok tt /\ exists l, GetGroupMembers (fun _ => true) user tenant group d' = Ok l /\ (id, c) ∈ l.
Proof.
  assert (Hg : affected (gmine user tenant group) (contact_groups d) <> 0%nat).
  { rewrite affected_zero. intros Hz. specialize (Hz _ _ HG). unfold gmine in Hz.
    by rewrite !bool_decide_eq_true_2 in Hz. }
  assert (Hc : affected (of_tenant tenant id) (contacts d) <> 0%nat).
  { rewrite affected_zero. intros Hz. specialize (Hz _ _ HC). unfold of_tenant in Hz.
    by rewrite !bool_decide_eq_true_2 in Hz. }
  unfold AddGroupMember, check_member. cbn [negb].
  rewrite (proj2 (Nat.eqb_neq _ _) Hg), (proj2 (Nat.eqb_neq _ _) Hc). split; [done|].
  unfold GetGroupMembers. cbn [negb contact_groups contacts contact_group_members with_members].
  rewrite (proj2 (Nat.eqb_neq _ _) Hg). eexists. split; [done|].
  rewrite merge_sort_Permutation. apply elem_of_map_to_list, lookup_select_where. split; [done|].
  rewrite !bool_decide_eq_true_2; [done|done|set_solver].
Qed.

(** * The properties at concrete inputs *)

#[local] Existing Instance toy.
#[local] Existing Instance toy_laws.
#[local] Existing Instance toy_entropy.
#[local] Existing Instance toy_entropy_laws.

#[local] Definition hm (k m : bytes) : bytes := k ++ m.
#[local] Definition ann : UUID := [x0a].
#[local] Definition bob : UUID := [x0b].
#[local] Definition org : UUID := [x01].
#[local] Definition empty_db : Db := mkDb ∅ ∅ ∅.
#[local] Definition my_priv : bytes := toy_key 9.

#[local] Definition plain_row (user : UUID) (a : bytes) (phone : option bytes) : Contact :=
  mkContact user org (mkCols (Some a) None None None None) (mkCard None None None false 3 None None)
    (mkDetails phone None None None).

#[local] Definition added : result serr unit * Db * world :=
  AutoAdd hm [x53] (fun _ => true) 5 [x77] ann org (x25519_base my_priv) [] (bs "Eve@Example.com") empty_db toy_world.

Lemma added_ok : added = (Ok tt, added.1.2, added.2).
Proof. vm_compute. reflexivity. Qed.

Lemma auto_added_address_is_found_witness :
  ContactExists hm [x53] true ann org (bs " eve@example.COM ") added.1.2 = Ok true.
Proof.
  destruct (auto_added_address_is_found hm [x53] (fun _ => true) 5 [x77] ann org my_priv None []
    (bs "Eve@Example.com") empty_db toy_world added.1.2 added.2) as (_ & Hf & _).
  - reflexivity.
  - vm_compute. reflexivity.
  - discriminate.
  - reflexivity.
  - reflexivity.
  - reflexivity.
  - exact added_ok.
  - apply Hf. vm_compute. reflexivity.
Defined.

#[local] Definition two_rows : Db :=
  mkDb {[ [x01] := plain_row ann (bs "eve@example.com") (Some (bs "PHONE"));
          [x02] := mkContact ann org (mkCols None (Some [x01]) None None (Some (bs "idx")))
                     (mkCard None None (Some 9) true 7 None None) no_details ]}
    {[ [x03] := mkCGroup ann org [] 1 ]} {[ ([x03], [x01]) ]}.

Lemma address_book_stays_sealed_witness : exists d',
  cruns hm [x53] (fun _ => None) [Some bob; None] two_rows d' /\ contacts d' !! [x02] = contacts two_rows !! [x02] /\
  wf (contacts d').
Proof.
  set (d1 := (UpdateContact true bob org [x02] (mkUpdate None (Some true) None None None None true true true true)
    two_rows).2).
  set (d2 := (BackfillEncryptedAddresses hm [x53] (fun _ => None) true [] (map_to_list (contacts d1)) d1 toy_world).1.2).
  assert (HR : cruns hm [x53] (fun _ => None) [Some bob; None] two_rows d2).
  { eapply cruns_cons; [apply s_update|]. eapply cruns_cons; [|apply cruns_nil]. apply s_backfill.
    intros k c. apply elem_of_map_to_list. }
  assert (HW : wf (contacts two_rows)).
  { split.
    - intros k1 k2 c1 c2 b H1 H2. unfold two_rows in H1, H2. cbn [contacts] in H1, H2.
      apply lookup_insert_Some in H1 as [[<- <-]|[_ H1]]; [done|]. apply lookup_singleton_Some in H1 as [<- <-].
      apply lookup_insert_Some in H2 as [[<- <-]|[_ H2]]; [done|]. by apply lookup_singleton_Some in H2 as [<- <-].
    - intros k c Hk. unfold two_rows in Hk. cbn [contacts] in Hk.
      apply lookup_insert_Some in Hk as [[<- <-]|[_ Hk]]; [by intros []|].
      by apply lookup_singleton_Some in Hk as [<- <-]. }
  exists d2. destruct (address_book_stays_sealed hm [x53] (fun _ => None) [Some bob; None] two_rows d2 HR HW)
    as (Hw & _ & _). split; [exact HR|]. split; [|exact Hw]. vm_compute. reflexivity.
Defined.

#[local] Definition after_merge : Db := (mergeAndDropDuplicateContact (fun _ => true) [x01] [x02] two_rows).2.

Lemma merge_keeps_what_it_names_witness :
  contacts after_merge !! [x01] = None /\ ([x03], [x02]) ∈ contact_group_members after_merge.
Proof.
  destruct (merge_keeps_what_it_names (fun _ => true) [x01] [x02] two_rows after_merge
    (plain_row ann (bs "eve@example.com") (Some (bs "PHONE")))
    (mkContact ann org (mkCols None (Some [x01]) None None (Some (bs "idx")))
       (mkCard None None (Some 9) true 7 None None) no_details)) as (Hl & _ & Hg & _);
    [reflexivity|reflexivity|discriminate|reflexivity|].
  split; [exact Hl|]. apply Hg. left. apply (bool_decide_unpack _). vm_compute. exact I.
Defined.

Lemma merge_drops_details_witness :
  contacts after_merge !! [x01] = None /\ details <$> contacts after_merge !! [x02] = Some no_details.
Proof.
  apply (merge_drops_details (fun _ => true) [x01] [x02] two_rows after_merge
    (mkContact ann org (mkCols None (Some [x01]) None None (Some (bs "idx")))
       (mkCard None None (Some 9) true 7 None None) no_details)); [reflexivity|discriminate|reflexivity].
Defined.

#[local] Definition bobs_card : Contact := plain_row bob (bs "secret@example.com") None.
#[local] Definition both : Db := mkDb {[ [x05] := bobs_card ]} {[ [x03] := mkCGroup ann org [] 1 ]} ∅.

Lemma group_shows_strangers_contact_witness : exists l,
  GetGroupMembers (fun _ => true) ann org [x03]
    (AddGroupMember (fun _ => true) ann org [x03] [x05] both).2 = Ok l /\ ([x05], bobs_card) ∈ l.
Proof.
  pose proof (group_shows_strangers_contact ann org [x03] (mkCGroup ann org [] 1) [x05] bobs_card both
    eq_refl eq_refl eq_refl eq_refl eq_refl) as Hs.
  destruct (AddGroupMember (fun _ => true) ann org [x03] [x05] both) as [r d']. exact (proj2 Hs).
Defined.
