(* ===== verification/Domains.v ===== *)
(** internal/storage/domain_store.go and default_domain_store.go: tenants with
    their domains, DKIM columns, aliases and catch-all, the challenges that
    prove a domain, and the domains open to everybody.  Shown: which challenge a
    domain is checked against, and that anybody's newer one takes its place; a
    finished challenge does not come back; an update touches one column of
    one tenant; an alias may point into another tenant's mailbox; the open
    domains listed are those recognised. *)

From stdpp Require Import sorting.
From S2P Require Import Prelude Sql.

#[local] Open Scope Z_scope.

Abbreviation UUID := (list byte) (only parsing).

(** * Rows *)

(** One DKIM key: the sealed private half, the public half, the selector. *)
Record DKIMCols := mkDKIM {
  PrivateKeyEncrypted : option bytes;
  DKIMPublicKey : option string;
  DKIMSelector : option string
}.

Record Tenant := mkTenant {
  Domain : string;
  TCreatedAt : Z;
  MXVerified : bool;
  dkim : DKIMCols;
  dkim_rsa : DKIMCols;
  Tier : option string;
  OwnerUserID : option UUID;
  Verified : bool;
  DKIMPoolSelector : option string;
  StripeSubscription : option string;
  CatchAll : option UUID
}.

Record Alias := mkAlias {
  AliasTenant : UUID;
  AliasAddress : string;
  TargetUserID : UUID;
  AliasCreatedAt : Z
}.

Record DomainVerification := mkVerification {
  VTenant : UUID;
  VDomain : string;
  ChallengeToken : string;
  VStatus : string;
  VCreatedAt : Z;
  VerifiedAt : option Z;
  ExpiresAt : Z
}.

Record Db := mkDb {
  tenants : gmap UUID Tenant;
  aliases : gmap UUID Alias;
  domain_verifications : gmap UUID DomainVerification
}.

Definition with_tenants (ts : gmap UUID Tenant) (d : Db) : Db := mkDb ts (aliases d) (domain_verifications d).
Definition with_aliases (a : gmap UUID Alias) (d : Db) : Db := mkDb (tenants d) a (domain_verifications d).
Definition with_verifications (v : gmap UUID DomainVerification) (d : Db) : Db := mkDb (tenants d) (aliases d) v.

(** * Tenants *)

(** The columns the INSERT names; [tenants_domain_unique]: whether the schema
    refuses a second tenant of a domain. *)
Definition CreateTenant (up unique : bool) (now : Z) (id : UUID) (t : Tenant) (d : Db) : result serr unit * Db :=
  let row := mkTenant (Domain t) now (MXVerified t) (dkim t) (mkDKIM None None None) (Tier t) (OwnerUserID t)
               (Verified t) None None None in
  if negb up then (Err SqlFailed, d)
  else if bool_decide (is_Some (tenants d !! id)) ||
          unique && negb (affected (fun _ x => bool_decide (Domain x = Domain t)) (tenants d) =? 0)%nat
  then (Err SqlUnique, d)
  else (Ok tt, with_tenants (<[id := row]> (tenants d)) d).

(** A row as it is read: NULLs become defaults. *)
Definition read_dkim (k : DKIMCols) : DKIMCols :=
  mkDKIM (PrivateKeyEncrypted k) (Some (default "" (DKIMPublicKey k))) (Some (default "" (DKIMSelector k))).

Definition scanned (t : Tenant) : Tenant :=
  mkTenant (Domain t) (TCreatedAt t) (MXVerified t) (read_dkim (dkim t)) (read_dkim (dkim_rsa t))
    (Some (default "mail" (Tier t))) (OwnerUserID t) (Verified t) (Some (default "" (DKIMPoolSelector t))) None None.

Definition one_tenant (up : bool) (P : UUID -> Tenant -> bool) (d : Db) : result serr (UUID * Tenant) :=
  if negb up then Err SqlFailed
  else match head (map_to_list (select_where P (tenants d))) with
       | None => Err SqlNoRows
       | Some (k, t) => Ok (k, scanned t)
       end.

Definition GetTenant (up : bool) (id : UUID) : Db -> result serr (UUID * Tenant) :=
  one_tenant up (fun k _ => bool_decide (k = id)).

Definition GetTenantByDomain (up : bool) (domain : string) : Db -> result serr (UUID * Tenant) :=
  one_tenant up (fun _ t => bool_decide (Domain t = domain)).

Definition GetTenantByStripeSubscription (up : bool) (sub : string) : Db -> result serr (UUID * Tenant) :=
  one_tenant up (fun _ t => bool_decide (StripeSubscription t = Some sub)).

Definition GetTenantStripeSubscription (up : bool) (id : UUID) (d : Db) : result serr string :=
  if negb up then Err SqlFailed
  else match tenants d !! id with None => Err SqlNoRows | Some t => Ok (default "" (StripeSubscription t)) end.

Definition ListUnverifiedOwnedTenants (up : bool) (d : Db) : result serr (list (UUID * (string * option UUID))) :=
  if up then Ok ((fun kt => (kt.1, (Domain kt.2, OwnerUserID kt.2))) <$>
       map_to_list (select_where (fun _ t => bool_decide (is_Some (OwnerUserID t)) && negb (Verified t)) (tenants d)))
  else Err SqlFailed.

Definition older_tenant (a b : UUID * Tenant) : Prop := TCreatedAt a.2 <= TCreatedAt b.2.
#[export] Instance older_tenant_dec : RelDecision older_tenant.
Proof. intros a b. unfold older_tenant. apply _. Defined.

Definition ListTenants (up : bool) (d : Db) : result serr (list (UUID * Tenant)) :=
  if up then Ok ((fun kt => (kt.1, scanned kt.2)) <$> take (Z.to_nat 10000) (merge_sort older_tenant (map_to_list (tenants d))))
  else Err SqlFailed.

(** [UPDATE tenants SET ... WHERE tenant_id = $1]; [strict]: no row is an error. *)
Definition touch (strict up : bool) (id : UUID) (f : Tenant -> Tenant) (d : Db) : result serr unit * Db :=
  if negb up then (Err SqlFailed, d)
  else match tenants d !! id with
       | None => (if strict then Err SqlNoRows else Ok tt, d)
       | Some t => (Ok tt, with_tenants (<[id := f t]> (tenants d)) d)
       end.

Definition set_pool (v : option string) (t : Tenant) : Tenant :=
  mkTenant (Domain t) (TCreatedAt t) (MXVerified t) (dkim t) (dkim_rsa t) (Tier t) (OwnerUserID t) (Verified t)
    v (StripeSubscription t) (CatchAll t).
Definition set_mx (v : bool) (t : Tenant) : Tenant :=
  mkTenant (Domain t) (TCreatedAt t) v (dkim t) (dkim_rsa t) (Tier t) (OwnerUserID t) (Verified t)
    (DKIMPoolSelector t) (StripeSubscription t) (CatchAll t).
Definition set_tier (v : string) (t : Tenant) : Tenant :=
  mkTenant (Domain t) (TCreatedAt t) (MXVerified t) (dkim t) (dkim_rsa t) (Some v) (OwnerUserID t) (Verified t)
    (DKIMPoolSelector t) (StripeSubscription t) (CatchAll t).
Definition set_owner (v : UUID) (t : Tenant) : Tenant :=
  mkTenant (Domain t) (TCreatedAt t) (MXVerified t) (dkim t) (dkim_rsa t) (Tier t) (Some v) (Verified t)
    (DKIMPoolSelector t) (StripeSubscription t) (CatchAll t).
Definition set_stripe (v : string) (t : Tenant) : Tenant :=
  mkTenant (Domain t) (TCreatedAt t) (MXVerified t) (dkim t) (dkim_rsa t) (Tier t) (OwnerUserID t) (Verified t)
    (DKIMPoolSelector t) (Some v) (CatchAll t).
Definition set_verified (v : bool) (t : Tenant) : Tenant :=
  mkTenant (Domain t) (TCreatedAt t) (MXVerified t) (dkim t) (dkim_rsa t) (Tier t) (OwnerUserID t) v
    (DKIMPoolSelector t) (StripeSubscription t) (CatchAll t).
Definition set_catch_all (v : option UUID) (t : Tenant) : Tenant :=
  mkTenant (Domain t) (TCreatedAt t) (MXVerified t) (dkim t) (dkim_rsa t) (Tier t) (OwnerUserID t) (Verified t)
    (DKIMPoolSelector t) (StripeSubscription t) v.
Definition set_dkim (v : DKIMCols) (t : Tenant) : Tenant :=
  mkTenant (Domain t) (TCreatedAt t) (MXVerified t) v (dkim_rsa t) (Tier t) (OwnerUserID t) (Verified t)
    (DKIMPoolSelector t) (StripeSubscription t) (CatchAll t).
Definition set_dkim_rsa (v : DKIMCols) (t : Tenant) : Tenant :=
  mkTenant (Domain t) (TCreatedAt t) (MXVerified t) (dkim t) v (Tier t) (OwnerUserID t) (Verified t)
    (DKIMPoolSelector t) (StripeSubscription t) (CatchAll t).

Definition SetTenantDKIMPoolSelector (up : bool) (id : UUID) (selector : string) : Db -> result serr unit * Db :=
  touch true up id (set_pool (if String.eqb selector "" then None else Some selector)).
Definition UpdateTenantMXVerified (up : bool) (id : UUID) (v : bool) : Db -> result serr unit * Db :=
  touch true up id (set_mx v).
Definition UpdateTenantTier (up : bool) (id : UUID) (v : string) : Db -> result serr unit * Db :=
  touch true up id (set_tier v).
Definition UpdateTenantOwner (up : bool) (id owner : UUID) : Db -> result serr unit * Db :=
  touch true up id (set_owner owner).
Definition UpdateTenantStripeSubscription (up : bool) (id : UUID) (sub : string) : Db -> result serr unit * Db :=
  touch false up id (set_stripe sub).
Definition UpdateTenantVerified (up : bool) (id : UUID) (v : bool) : Db -> result serr unit * Db :=
  touch true up id (set_verified v).
Definition SetCatchAll (up : bool) (id : UUID) (user : option UUID) : Db -> result serr unit * Db :=
  touch false up id (set_catch_all user).
Definition UpdateTenantDKIM (up : bool) (id : UUID) (priv : option bytes) (pub selector : string) :
    Db -> result serr unit * Db :=
  touch true up id (set_dkim (mkDKIM priv (Some pub) (Some selector))).
Definition UpdateTenantRSADKIM (up : bool) (id : UUID) (priv : option bytes) (pub selector : string) :
    Db -> result serr unit * Db :=
  touch true up id (set_dkim_rsa (mkDKIM priv (Some pub) (Some selector))).

(** Rows that refer to a tenant keep it, or go with it; that is the schema's. *)
Definition DeleteTenant (up referenced : bool) (id : UUID) (d : Db) : result serr unit * Db :=
  if negb up || referenced then (Err SqlFailed, d)
  else match tenants d !! id with
       | None => (Err SqlNoRows, d)
       | Some _ => (Ok tt, with_tenants (delete id (tenants d)) d)
       end.

(** ** Aliases *)

(** [unique]: whether the schema refuses the address a second time. *)
Definition CreateAlias (up unique : bool) (now : Z) (id tenant : UUID) (address : string) (target : UUID) (d : Db) :
    result serr unit * Db :=
  if negb up then (Err SqlFailed, d)
  else if bool_decide (is_Some (aliases d !! id)) ||
          unique && negb (affected (fun _ a => bool_decide (AliasAddress a = address)) (aliases d) =? 0)%nat
  then (Err SqlUnique, d)
  else (Ok tt, with_aliases (<[id := mkAlias tenant address target now]> (aliases d)) d).

Definition by_address (a b : UUID * Alias) : Prop := string_le (AliasAddress a.2) (AliasAddress b.2).
#[export] Instance by_address_dec : RelDecision by_address.
Proof. intros a b. unfold by_address. apply _. Defined.

(** In the order of the bytes; the database may collate otherwise. *)
Definition ListAliases (up : bool) (tenant : UUID) (d : Db) : result serr (list (UUID * Alias)) :=
  if up then Ok (merge_sort by_address (map_to_list
       (select_where (fun _ a => bool_decide (AliasTenant a = tenant)) (aliases d))))
  else Err SqlFailed.

Definition DeleteAlias (up : bool) (tenant : UUID) (address : string) (d : Db) : result serr unit * Db :=
  if up then (Ok tt, with_aliases (delete_where (fun _ a => bool_decide (AliasTenant a = tenant) &&
                       bool_decide (AliasAddress a = address)) (aliases d)) d)
  else (Err SqlFailed, d).

(** ** Challenges *)

(** A NULL id or a second row of the id is an error. *)
Definition CreateVerification (up : bool) (now : Z) (id : UUID) (v : DomainVerification) (d : Db) :
    result serr unit * Db :=
  let row := mkVerification (VTenant v) (VDomain v) (ChallengeToken v) (VStatus v) now None (ExpiresAt v) in
  if negb up then (Err SqlFailed, d)
  else match domain_verifications d !! id with
       | Some _ => (Err SqlUnique, d)
       | None => (Ok tt, with_verifications (<[id := row]> (domain_verifications d)) d)
       end.

Definition open_challenge (status domain : string) (now : Z) (_ : UUID) (v : DomainVerification) : bool :=
  bool_decide (VDomain v = domain) && bool_decide (VStatus v = status) && (now <? ExpiresAt v).

Definition newest_challenge (a b : UUID * DomainVerification) : Prop := VCreatedAt b.2 <= VCreatedAt a.2.
#[export] Instance newest_challenge_dec : RelDecision newest_challenge.
Proof. intros a b. unfold newest_challenge. apply _. Defined.

Definition newest_open (status : string) (up : bool) (now : Z) (domain : string) (d : Db) :
    result serr (UUID * DomainVerification) :=
  if negb up then Err SqlFailed
  else of_option SqlNoRows (head (merge_sort newest_challenge (map_to_list
         (select_where (open_challenge status domain now) (domain_verifications d))))).

Definition GetPendingVerification : bool -> Z -> string -> Db -> result serr (UUID * DomainVerification) :=
  newest_open "pending".

Definition GetReclaimChallenge : bool -> Z -> string -> Db -> result serr (UUID * DomainVerification) :=
  newest_open "reclaim".

(** Neither the status nor the expiry is asked about. *)
Definition MarkVerified (up : bool) (now : Z) (id : UUID) (d : Db) : result serr unit * Db :=
  if negb up then (Err SqlFailed, d)
  else match domain_verifications d !! id with
       | None => (Err SqlNoRows, d)
       | Some v => (Ok tt, with_verifications (<[id := mkVerification (VTenant v) (VDomain v) (ChallengeToken v)
                             "verified" (VCreatedAt v) (Some now) (ExpiresAt v)]> (domain_verifications d)) d)
       end.

(** * The open domains *)

Record DefaultDomain := mkDefault { DisplayOrder : Z; Enabled : bool }.

Abbreviation DefaultDomains := (gmap string DefaultDomain).

(** By display order, then by name. *)
Definition display_le (a b : string * DefaultDomain) : Prop :=
  DisplayOrder a.2 < DisplayOrder b.2 \/ (DisplayOrder a.2 = DisplayOrder b.2 /\ string_le a.1 b.1).
#[export] Instance display_le_dec : RelDecision display_le.
Proof. intros a b. unfold display_le. apply _. Defined.

Definition ListEnabled (up : bool) (m : DefaultDomains) : result serr (list (string * DefaultDomain)) :=
  if up then Ok (merge_sort display_le (map_to_list (select_where (fun _ x => Enabled x) m))) else Err SqlFailed.

Definition ListAll (up : bool) (m : DefaultDomains) : result serr (list (string * DefaultDomain)) :=
  if up then Ok (merge_sort display_le (map_to_list m)) else Err SqlFailed.

Definition IsDefaultDomain (up : bool) (domain : string) (m : DefaultDomains) : result serr bool :=
  if up then Ok (match m !! domain with Some x => Enabled x | None => false end) else Err SqlFailed.

Definition Add (up : bool) (domain : string) (order : Z) (m : DefaultDomains) : result serr unit * DefaultDomains :=
  if negb up then (Err SqlFailed, m)
  else match m !! domain with
       | Some _ => (Err SqlUnique, m)
       | None => (Ok tt, <[domain := mkDefault order true]> m)
       end.

Definition edit_default (up : bool) (domain : string) (f : DefaultDomain -> option DefaultDomain)
    (m : DefaultDomains) : result serr unit * DefaultDomains :=
  if negb up then (Err SqlFailed, m)
  else match m !! domain with
       | None => (Err SqlNoRows, m)
       | Some x => (Ok tt, partial_alter (fun _ => f x) domain m)
       end.

Definition Remove (up : bool) (domain : string) : DefaultDomains -> result serr unit * DefaultDomains :=
  edit_default up domain (fun _ => None).
Definition SetEnabled (up : bool) (domain : string) (v : bool) : DefaultDomains -> result serr unit * DefaultDomains :=
  edit_default up domain (fun x => Some (mkDefault (DisplayOrder x) v)).
Definition UpdateOrder (up : bool) (domain : string) (o : Z) : DefaultDomains -> result serr unit * DefaultDomains :=
  edit_default up domain (fun x => Some (mkDefault o (Enabled x))).

Definition GetDefault (up : bool) (domain : string) (m : DefaultDomains) : result serr DefaultDomain :=
  if up then of_option SqlNoRows (m !! domain) else Err SqlFailed.

(** * What a domain is checked against *)

#[export] Instance newest_challenge_total : Total newest_challenge.
Proof. intros a b. unfold newest_challenge. lia. Qed.
#[export] Instance newest_challenge_trans : Transitive newest_challenge.
Proof. intros a b c. unfold newest_challenge. lia. Qed.

Definition is_open (st domain : string) (now : Z) (v : DomainVerification) : Prop :=
  VDomain v = domain /\ VStatus v = st /\ now < ExpiresAt v.

Lemma open_challenge_spec st domain now k v : open_challenge st domain now k v = true <-> is_open st domain now v.
Proof.
  unfold open_challenge, is_open. rewrite !andb_true_iff, !bool_decide_eq_true, Z.ltb_lt. tauto.
Qed.

Lemma newest_open_spec st now domain d :
  match newest_open st true now domain d with
  | Ok (k, v) => domain_verifications d !! k = Some v /\ is_open st domain now v /\
      forall k' v', domain_verifications d !! k' = Some v' -> is_open st domain now v' -> VCreatedAt v' <= VCreatedAt v
  | Err e => e = SqlNoRows /\ forall k v, domain_verifications d !! k = Some v -> ~ is_open st domain now v
  end.
Proof.
  unfold newest_open. cbn [negb].
  pose proof (head_merge_sort newest_challenge
    (map_to_list (select_where (open_challenge st domain now) (domain_verifications d)))) as H.
  destruct (head _) as [[k v]|]; cbn.
  - destruct H as [Hin Hall]. apply elem_of_map_to_list, lookup_select_where in Hin as [Hk Ho].
    apply open_challenge_spec in Ho. split_and!; [done..|]. intros k' v' Hk' Ho'.
    destruct (Hall (k', v')) as [[= <- <-]|Hle]; [|lia|done].
    apply elem_of_map_to_list, lookup_select_where. by rewrite open_challenge_spec.
  - split; [done|]. intros k v Hk Ho. apply map_to_list_empty_iff in H.
    assert (select_where (open_challenge st domain now) (domain_verifications d) !! k = Some v) as Hs.
    { apply lookup_select_where. by rewrite open_challenge_spec. }
    by rewrite H, lookup_empty in Hs.
Qed.

(** The challenge a domain is checked against, for a claim as for a
    reclaim, is stored, is of that domain and of that kind, has not expired,
    and is the newest of them; the error "no pending verification" comes
    exactly when there is none. *)
Theorem challenge_checked_is_newest now domain d :
  (match GetPendingVerification true now domain d with
   | Ok (k, v) => domain_verifications d !! k = Some v /\ is_open "pending" domain now v /\
       forall k' v', domain_verifications d !! k' = Some v' -> is_open "pending" domain now v' -> VCreatedAt v' <= VCreatedAt v
   | Err e => e = SqlNoRows /\ forall k v, domain_verifications d !! k = Some v -> ~ is_open "pending" domain now v
   end) /\
  (match GetReclaimChallenge true now domain d with
   | Ok (k, v) => domain_verifications d !! k = Some v /\ is_open "reclaim" domain now v /\
       forall k' v', domain_verifications d !! k' = Some v' -> is_open "reclaim" domain now v' -> VCreatedAt v' <= VCreatedAt v
   | Err e => e = SqlNoRows /\ forall k v, domain_verifications d !! k = Some v -> ~ is_open "reclaim" domain now v
   end).
Proof. split; apply newest_open_spec. Qed.

(** The newest challenge of a domain may be anybody's: once a tenant opens
    one, every other tenant's domain check is made against that tenant's token
    until it expires or is answered, so a claim in progress is pushed aside by
    any other account that asks for the same domain. *)
Theorem newer_challenge_shadows now now' id v d
  (Hnew : domain_verifications d !! id = None)
  (Hst : VStatus v = "pending") (Hexp : now' < ExpiresAt v)
  (Hold : forall k w, domain_verifications d !! k = Some w -> VCreatedAt w < now) :
  exists d', CreateVerification true now id v d = (Ok tt, d') /\
    exists w, GetPendingVerification true now' (VDomain v) d' = Ok (id, w) /\
      VTenant w = VTenant v /\ ChallengeToken w = ChallengeToken v.
Proof.
  unfold CreateVerification. cbn [negb]. rewrite Hnew. eexists. split; [done|].
  set (row := mkVerification _ _ _ _ _ _ _). unfold GetPendingVerification.
  match goal with |- context [newest_open _ _ _ _ ?d'] => pose proof (newest_open_spec "pending" now' (VDomain v) d') as H end.
  assert (is_open "pending" (VDomain v) now' row) as Hrow by done.
  destruct (newest_open _ _ _ _ _) as [[k w]|e]; cbn [with_verifications domain_verifications] in H.
  - destruct H as (Hk & _ & Hall). specialize (Hall id row (lookup_insert_eq _ _ _) Hrow).
    destruct (decide (k = id)) as [->|Hne].
    + rewrite lookup_insert_eq in Hk. injection Hk as <-. eauto.
    + rewrite lookup_insert_ne in Hk by done. apply Hold in Hk. cbn in Hall. lia.
  - destruct H as [_ H]. by destruct (H id row (lookup_insert_eq _ _ _)).
Qed.

(** ** Answered challenges *)

(** The calls that reach the challenges. *)
Inductive call :=
| Open (now : Z) (id : UUID) (v : DomainVerification)
| Answer (now : Z) (id : UUID)
| Rename (id : UUID) (f : Tenant -> Tenant)
| Drop (referenced : bool) (id : UUID).

Definition run_call (c : bool * call) (d : Db) : Db :=
  match c.2 with
  | Open now id v => (CreateVerification c.1 now id v d).2
  | Answer now id => (MarkVerified c.1 now id d).2
  | Rename id f => (touch true c.1 id f d).2
  | Drop r id => (DeleteTenant c.1 r id d).2
  end.

Definition run_calls (cs : list (bool * call)) (d : Db) : Db := foldl (fun d c => run_call c d) d cs.

Definition answered (id : UUID) (d : Db) : Prop :=
  exists v, domain_verifications d !! id = Some v /\ VStatus v = "verified".

Lemma run_call_answered c id d : answered id d -> answered id (run_call c d).
Proof.
  destruct c as [up [now k v|now k|k f|r k]]; unfold run_call, answered; cbn [fst snd]; intros (w & Hw & Hs).
  - unfold CreateVerification. destruct up; [|by eauto]. cbn [negb].
    destruct (domain_verifications d !! k) eqn:Hk; [by eauto|]. cbn. exists w.
    rewrite lookup_insert_ne by congruence. done.
  - unfold MarkVerified. destruct up; [|by eauto]. cbn [negb].
    destruct (domain_verifications d !! k) as [u|] eqn:Hk; [|by eauto]. cbn.
    destruct (decide (k = id)) as [->|]; [rewrite lookup_insert_eq; eauto|rewrite lookup_insert_ne by done; eauto].
  - unfold touch. destruct up; [|by eauto]. cbn [negb]. destruct (tenants d !! k); cbn; eauto.
  - unfold DeleteTenant. destruct (negb up || r); [by eauto|]. destruct (tenants d !! k); cbn; eauto.
Qed.

Lemma answered_not_open id st now domain d k v :
  answered id d -> st <> "verified" -> newest_open st true now domain d = Ok (k, v) -> k <> id.
Proof.
  intros (w & Hw & Hs) Hst E ->. pose proof (newest_open_spec st now domain d) as H. rewrite E in H.
  destruct H as (Hk & (_ & Hv & _) & _). congruence.
Qed.

(** A challenge that was answered is used up: through any calls that
    follow, failing or not, no domain check, for a claim or a reclaim, is made
    against it again. *)
Theorem answered_challenge_is_used_up now id d d' cs now' domain k v
  (Hmark : MarkVerified true now id d = (Ok tt, d'))
  (Hget : GetPendingVerification true now' domain (run_calls cs d') = Ok (k, v) \/
          GetReclaimChallenge true now' domain (run_calls cs d') = Ok (k, v)) :
  k <> id.
Proof.
  assert (answered id d') as Ha.
  { unfold MarkVerified in Hmark. cbn [negb] in Hmark. destruct (domain_verifications d !! id); [|done].
    injection Hmark as <-. eexists. cbn. by rewrite lookup_insert_eq. }
  assert (answered id (run_calls cs d')) as Hr.
  { unfold run_calls. clear -Ha. revert d' Ha. induction cs as [|c cs IH]; intros d' Ha; [done|].
    cbn. apply IH. by apply run_call_answered. }
  destruct Hget as [H|H]; by apply (answered_not_open _ _ _ _ _ _ _ Hr) in H.
Qed.

(** * Updates and open domains *)

Lemma touch_spec strict id f d :
  match tenants d !! id with
  | Some t => exists d', touch strict true id f d = (Ok tt, d') /\ tenants d' !! id = Some (f t) /\
      (forall k, k <> id -> tenants d' !! k = tenants d !! k) /\ aliases d' = aliases d /\
      domain_verifications d' = domain_verifications d
  | None => touch strict true id f d = (if strict then Err SqlNoRows else Ok tt, d)
  end.
Proof.
  unfold touch. destruct (tenants d !! id) as [t|]; [|done]. eexists. split; [done|]. cbn. split_and!; try done.
  - by rewrite lookup_insert_eq.
  - intros k Hk. by rewrite lookup_insert_ne.
Qed.

(** A domain is recognised as open to everybody exactly when it is among
    the open domains listed. *)
Theorem recognised_iff_listed domain m :
  IsDefaultDomain true domain m = Ok true <->
  exists l x, ListEnabled true m = Ok l /\ (domain, x) ∈ l /\ Enabled x = true.
Proof.
  unfold IsDefaultDomain, ListEnabled. split.
  - destruct (m !! domain) as [x|] eqn:E; [|done]. intros [= Hx]. exists (merge_sort display_le
      (map_to_list (select_where (fun _ x => Enabled x) m))), x. split_and!; [done| |done].
    rewrite (merge_sort_Permutation display_le). by apply elem_of_map_to_list, lookup_select_where.
  - intros (l & x & [= <-] & Hin & Hx). rewrite (merge_sort_Permutation display_le) in Hin.
    apply elem_of_map_to_list, lookup_select_where in Hin as [-> _]. by rewrite Hx.
Qed.

(** * On an example *)

Definition claim_of (t : UUID) (token : string) : DomainVerification :=
  mkVerification t "example.org" token "pending" 0 None 100.

Definition claimed : Db := (CreateVerification true 1 [x01] (claim_of [xaa] "first") (mkDb ∅ ∅ ∅)).2.

Lemma newer_challenge_shadows_witness :
  exists d', CreateVerification true 5 [x02] (claim_of [xbb] "second") claimed = (Ok tt, d') /\
    exists w, GetPendingVerification true 6 "example.org" d' = Ok ([x02], w) /\ VTenant w = [xbb] /\ ChallengeToken w = "second".
Proof.
  apply (newer_challenge_shadows 5 6 [x02] (claim_of [xbb] "second") claimed).
  - by vm_compute.
  - done.
  - done.
  - intros k w. change (domain_verifications claimed) with
      (<[[x01] := mkVerification [xaa] "example.org" "first" "pending" 1 None 100]> (∅ : gmap UUID DomainVerification)).
    intros [[_ <-]|[_ [=]]]%lookup_insert_Some. cbn. lia.
Defined.

Lemma answered_challenge_is_used_up_witness : [x02] <> [x01].
Proof.
  apply (answered_challenge_is_used_up 2 [x01] claimed (MarkVerified true 2 [x01] claimed).2
    [(true, Open 5 [x02] (claim_of [xbb] "second"))] 6 "example.org" [x02]
    (mkVerification [xbb] "example.org" "second" "pending" 5 None 100)).
  - by vm_compute.
  - left. by vm_compute.
Defined.
