(* ===== verification/CalendarStore.v ===== *)
(** internal/storage/calendar_store.go: the events of every user's calendar,
    their reminders, and the answers of the attendees.  Times are microseconds.
    What a jsonb column keeps of a marshalled map is the class [Jsonb];
    google/uuid is the class [UUIDs] of Blobs.v.  Shown: what a range and the
    due reminders list, that a reminder marked sent is not listed again, whose
    calls can change an event, and that an answer to an event created here
    finds it. *)

From stdpp Require Import sorting.
From S2P Require Import Prelude GoNet Blobs Sql.

#[local] Open Scope Z_scope.

Abbreviation UUID := (list byte) (only parsing).
Abbreviation Answers := (gmap bytes bytes).

(** The map read back from a jsonb column after [json.Marshal] of [m] went into
    it; None: the server refuses it. *)
Class Jsonb := { jsonb_map : Answers -> option Answers }.

Definition printable (s : bytes) : Prop := Forall (fun c => (32 <= Byte.to_N c < 127)%N) s.

Class JsonbLaws `{Jsonb} := {
  jsonb_ascii m : (forall k v, m !! k = Some v -> printable k /\ printable v) -> jsonb_map m = Some m
}.

(** * Rows *)

(** The columns the caller writes. *)
Record Content := mkContent {
  EncryptedTitle : bytes;
  EncryptedLocation : bytes;
  EncryptedAttendees : bytes;
  EphemeralPubkey : bytes;
  EncryptedEventKey : bytes;
  DescriptionBlobRef : option bytes;
  StartTime : Z;
  EndTime : Z;
  AllDay : bool;
  RecurrenceRule : option bytes;
  ReminderMinutes : option Z;
  Color : bytes;
  ExternalUID : option bytes;
  Cancelled : bool
}.

Record CalendarEvent := mkEvent {
  UserID : UUID;
  TenantID : UUID;
  content : Content;
  ReminderSent : bool;
  AttendeeResponses : option Answers;
  CreatedAt : Z;
  UpdatedAt : Z
}.

#[export] Instance Content_eq_dec : EqDecision Content.
Proof. solve_decision. Defined.
#[export] Instance CalendarEvent_eq_dec : EqDecision CalendarEvent.
Proof. solve_decision. Defined.

(** The events, and the addresses of the users. *)
Record Db := mkDb { events : gmap UUID CalendarEvent; users : gmap UUID bytes }.

Definition with_events (e : gmap UUID CalendarEvent) (d : Db) : Db := mkDb e (users d).

Definition set_answers (a : option Answers) (now : Z) (e : CalendarEvent) : CalendarEvent :=
  mkEvent (UserID e) (TenantID e) (content e) (ReminderSent e) a (CreatedAt e) now.

Definition set_sent (v : bool) (e : CalendarEvent) : CalendarEvent :=
  mkEvent (UserID e) (TenantID e) (content e) v (AttendeeResponses e) (CreatedAt e) (UpdatedAt e).

Definition set_content (c : Content) (now : Z) (e : CalendarEvent) : CalendarEvent :=
  mkEvent (UserID e) (TenantID e) c (ReminderSent e) (AttendeeResponses e) (CreatedAt e) now.

Definition cancel (c : Content) : Content :=
  mkContent (EncryptedTitle c) (EncryptedLocation c) (EncryptedAttendees c) (EphemeralPubkey c)
    (EncryptedEventKey c) (DescriptionBlobRef c) (StartTime c) (EndTime c) (AllDay c) (RecurrenceRule c)
    (ReminderMinutes c) (Color c) (ExternalUID c) true.

Definition nil_uuid : UUID := repeat x00 16.

(** A Go map read from the column: NULL is the nil map. *)
Definition scanCalendarEvent (e : CalendarEvent) : CalendarEvent :=
  set_answers (Some (default ∅ (AttendeeResponses e))) (UpdatedAt e) e.

(** * Conditions and orders *)

Definition theirs (user tenant : UUID) (_ : UUID) (e : CalendarEvent) : bool :=
  bool_decide (UserID e = user) && bool_decide (TenantID e = tenant).

Definition this_event (user tenant event : UUID) (k : UUID) (e : CalendarEvent) : bool :=
  bool_decide (k = event) && theirs user tenant k e.

Definition overlaps (user tenant : UUID) (start stop : Z) (k : UUID) (e : CalendarEvent) : bool :=
  theirs user tenant k e && (StartTime (content e) <? stop) && (start <? EndTime (content e)).

Definition minute : Z := 60 * 1000000.

Definition due (now : Z) (_ : UUID) (e : CalendarEvent) : bool :=
  match ReminderMinutes (content e) with
  | None => false
  | Some m => negb (ReminderSent e) && (StartTime (content e) - m * minute <=? now) && (now <? StartTime (content e))
  end.

Definition copy_in (tenant : UUID) (uid : bytes) (_ : UUID) (e : CalendarEvent) : bool :=
  bool_decide (TenantID e = tenant) && bool_decide (ExternalUID (content e) = Some uid).

Definition by_start (a b : UUID * CalendarEvent) : Prop := StartTime (content a.2) <= StartTime (content b.2).
#[export] Instance by_start_dec : RelDecision by_start.
Proof. intros a b. unfold by_start. apply _. Defined.
#[export] Instance by_start_total : Total by_start.
Proof. intros a b. unfold by_start. lia. Qed.
#[export] Instance by_start_trans : Transitive by_start.
Proof. intros a b c. unfold by_start. lia. Qed.

Definition read (ke : UUID * CalendarEvent) : UUID * CalendarEvent := (ke.1, scanCalendarEvent ke.2).

Definition one_event (up : bool) (P : UUID -> CalendarEvent -> bool) (d : Db) : result serr (UUID * CalendarEvent) :=
  if negb up then Err SqlFailed
  else of_option SqlNoRows (read <$> head (map_to_list (select_where P (events d)))).

(** Rows until the connection breaks after [broke] of them: nobody asks
    [rows.Err], so what came is the answer. *)
Definition many_events (up : bool) (broke : option nat) (l : list (UUID * CalendarEvent)) :
    result serr (list (UUID * CalendarEvent)) :=
  if up then Ok (read <$> match broke with Some n => take n l | None => l end) else Err SqlFailed.

Definition in_order (P : UUID -> CalendarEvent -> bool) (d : Db) : list (UUID * CalendarEvent) :=
  merge_sort by_start (map_to_list (select_where P (events d))).

(** * Operations *)

Section store.
Context `{UUIDs} `{Jsonb}.

(** The column of a new event: NULL for an empty map; None: refused. *)
Definition stored_answers (a : option Answers) : option (option Answers) :=
  let m := default ∅ a in if bool_decide (m = ∅) then Some None else Some <$> jsonb_map m.

(** [fresh]: the identifier [uuid.New] draws. *)
Definition Create (up : bool) (fresh : UUID) (now : Z) (id : UUID) (e : CalendarEvent) (d : Db) :
    result serr unit * Db :=
  let id := if bool_decide (id = nil_uuid) then fresh else id in
  if negb up then (Err SqlFailed, d)
  else match events d !! id, stored_answers (AttendeeResponses e) with
       | Some _, _ => (Err SqlUnique, d)
       | None, None => (Err SqlRefused, d)
       | None, Some a => (Ok tt, with_events (<[id := mkEvent (UserID e) (TenantID e) (content e) (ReminderSent e) a now now]> (events d)) d)
       end.

Definition Get (up : bool) (user tenant event : UUID) : Db -> result serr (UUID * CalendarEvent) :=
  one_event up (this_event user tenant event).

Definition ListByRange (up : bool) (broke : option nat) (user tenant : UUID) (start stop : Z) (d : Db) :
    result serr (list (UUID * CalendarEvent)) :=
  many_events up broke (in_order (overlaps user tenant start stop) d).

(** An UPDATE; [strict]: no row is an error. *)
Definition change (strict up : bool) (P : UUID -> CalendarEvent -> bool) (f : CalendarEvent -> CalendarEvent) (d : Db) :
    result serr unit * Db :=
  if negb up then (Err SqlFailed, d)
  else if strict && (affected P (events d) =? 0)%nat then (Err SqlNoRows, d)
  else (Ok tt, with_events (update_where P f (events d)) d).

(** The answers stay; the reminder is armed again. *)
Definition Update (up : bool) (now : Z) (user tenant event : UUID) (c : Content) : Db -> result serr unit * Db :=
  change true up (this_event user tenant event) (fun e => set_sent false (set_content c now e)).

Definition MarkCancelled (up : bool) (now : Z) (user tenant event : UUID) : Db -> result serr unit * Db :=
  change false up (this_event user tenant event) (fun e => set_content (cancel (content e)) now e).

Definition Delete (up : bool) (user tenant event : UUID) (d : Db) : result serr unit * Db :=
  if negb up then (Err SqlFailed, d)
  else if (affected (this_event user tenant event) (events d) =? 0)%nat then (Err SqlNoRows, d)
  else (Ok tt, with_events (delete_where (this_event user tenant event) (events d)) d).

Definition ListDueReminders (up : bool) (broke : option nat) (now : Z) (d : Db) :
    result serr (list (UUID * CalendarEvent)) :=
  many_events up broke (take (Z.to_nat 100) (in_order (due now) d)).

Definition MarkReminderSent (up : bool) (event : UUID) : Db -> result serr unit * Db :=
  change false up (fun k _ => bool_decide (k = event)) (set_sent true).

(** [COALESCE(attendee_responses, '{}') || patch]. *)
Definition patched (patch : Answers) (a : option Answers) : option Answers := Some (patch ∪ default ∅ a).

Definition UpdateAttendeeResponse (up : bool) (now : Z) (user tenant event : UUID) (email status : bytes) (d : Db) :
    result serr unit * Db :=
  match jsonb_map {[email := status]} with
  | None => (Err SqlRefused, d)
  | Some p => change true up (this_event user tenant event) (fun e => set_answers (patched p (AttendeeResponses e)) now e) d
  end.

Definition BroadcastAttendeeResponse (up : bool) (now : Z) (tenant : UUID) (uid email status : bytes) (d : Db) :
    result serr unit * Db :=
  if bool_decide (uid = []) then (Ok tt, d)
  else match jsonb_map {[email := status]} with
       | None => (Err SqlRefused, d)
       | Some p => change false up (copy_in tenant uid) (fun e => set_answers (patched p (AttendeeResponses e)) now e) d
       end.

(** As many users as came. *)
Definition ListUsersByExternalUID (up : bool) (broke : option nat) (tenant : UUID) (uid : bytes) (d : Db) :
    result serr (list UUID) :=
  if bool_decide (uid = []) then Ok []
  else if negb up then Err SqlFailed
  else let l := remove_dups ((fun ke => UserID ke.2) <$> map_to_list (select_where (copy_in tenant uid) (events d))) in
       Ok (match broke with Some n => take n l | None => l end).

Definition SetAttendeeResponses (up : bool) (now : Z) (user tenant event : UUID) (m : Answers) (d : Db) :
    result serr unit * Db :=
  match jsonb_map m with
  | None => (Err SqlRefused, d)
  | Some a => change true up (this_event user tenant event) (set_answers (Some a) now) d
  end.

(** [up]: the two statements; [readable]: the row of the first one arrives. *)
Definition GetByExternalUID (up : bool * bool) (readable : bool) (user tenant : UUID) (uid : bytes) (d : Db) :
    result serr (UUID * CalendarEvent) :=
  let first := one_event up.1 (fun k e => theirs user tenant k e && bool_decide (ExternalUID (content e) = Some uid)) d in
  match first, uuid_Parse uid with
  | Err SqlFailed, _ => Err SqlFailed
  | Ok ke, None => if readable then Ok ke else Err SqlNoRows
  | Ok ke, Some id => if readable then Ok ke else one_event up.2 (this_event user tenant id) d
  | Err _, None => Err SqlNoRows
  | Err _, Some id => one_event up.2 (this_event user tenant id) d
  end.

Definition GetByExternalUIDForOrganizer (up : bool) (tenant : UUID) (organizer uid : bytes) (d : Db) :
    result serr (UUID * CalendarEvent) :=
  one_event up (fun k e => copy_in tenant uid k e && bool_decide (users d !! UserID e = Some organizer)) d.

Definition GetByEventIDGlobal (up : bool) (event : UUID) : Db -> result serr (UUID * CalendarEvent) :=
  one_event up (fun k _ => bool_decide (k = event)).

End store.

(** * Lists *)

Lemma in_order_event P d k e : (k, e) ∈ in_order P d <-> events d !! k = Some e /\ P k e = true.
Proof.
  unfold in_order. rewrite merge_sort_Permutation. by rewrite elem_of_map_to_list, lookup_select_where.
Qed.

Lemma one_event_spec P d :
  match one_event true P d with
  | Ok (k, e) => exists r, events d !! k = Some r /\ P k r = true /\ e = scanCalendarEvent r
  | Err x => x = SqlNoRows /\ forall k r, events d !! k = Some r -> P k r = false
  end.
Proof.
  unfold one_event. cbn [negb]. destruct (head _) as [[k e]|] eqn:E; cbn.
  - apply head_selected in E as [Hk Hp]. eauto.
  - split; [done|]. intros k r Hk. destruct (P k r) eqn:Hp; [|done].
    assert ((k, r) ∈ map_to_list (select_where P (events d))) as Hin
      by by apply elem_of_map_to_list, lookup_select_where.
    by destruct (map_to_list _); [apply elem_of_nil in Hin|].
Qed.

Lemma read_in (l : list (UUID * CalendarEvent)) ke : ke ∈ read <$> l <-> exists e, (ke.1, e) ∈ l /\ ke.2 = scanCalendarEvent e.
Proof.
  rewrite list_elem_of_fmap. split.
  - intros ([k e] & -> & Hin). eauto.
  - intros (e & Hin & He). exists (ke.1, e). split; [|done]. destruct ke. unfold read. cbn in *. by subst.
Qed.

(** What a range of the calendar shows, when the rows arrive, are the
    user's events that overlap it, each as stored, and no other; but when the
    connection breaks after n rows the first n are returned with no error, as
    if the calendar held no more. *)
Theorem range_shows_overlaps user tenant start stop d :
  (exists l, ListByRange true None user tenant start stop d = Ok l /\
    forall k e, (k, e) ∈ l <-> exists r, events d !! k = Some r /\ e = scanCalendarEvent r /\
      UserID r = user /\ TenantID r = tenant /\ StartTime (content r) < stop /\ start < EndTime (content r)) /\
  (forall n l, ListByRange true None user tenant start stop d = Ok l ->
     ListByRange true (Some n) user tenant start stop d = Ok (take n l)).
Proof.
  split.
  - eexists. split; [done|]. intros k e. rewrite read_in. cbn [fst snd]. split.
    + intros (r & Hin & He). apply in_order_event in Hin as [Hk Ho]. exists r. unfold overlaps, theirs in Ho.
      rewrite !andb_true_iff, !bool_decide_eq_true, !Z.ltb_lt in Ho. tauto.
    + intros (r & Hk & He & Ho). exists r. split; [|done]. apply in_order_event. split; [done|].
      unfold overlaps, theirs. rewrite !andb_true_iff, !bool_decide_eq_true, !Z.ltb_lt. tauto.
  - intros n l [= <-]. unfold ListByRange, many_events. by rewrite fmap_take.
Qed.

Definition is_due (now : Z) (e : CalendarEvent) : Prop :=
  ReminderSent e = false /\
  exists m, ReminderMinutes (content e) = Some m /\ StartTime (content e) - m * minute <= now < StartTime (content e).

Lemma due_spec now k e : due now k e = true <-> is_due now e.
Proof.
  unfold due, is_due. destruct (ReminderMinutes (content e)) as [m|].
  - rewrite !andb_true_iff, negb_true_iff, Z.leb_le, Z.ltb_lt. split.
    + intros [[? ?] ?]. eauto 6.
    + intros (? & m' & [= <-] & ?). tauto.
  - split; [done|]. by intros (_ & m & [=] & _).
Qed.

(** The reminders listed are due: not sent, their moment reached, the event
    still ahead.  They are at most a hundred, and a due one that is left out
    starts no earlier than any that is listed; with a hundred due or fewer
    none is left out. *)
Theorem reminders_listed_are_due now d :
  exists l, ListDueReminders true None now d = Ok l /\ (length l <= 100)%nat /\
    (forall k e, (k, e) ∈ l -> exists r, events d !! k = Some r /\ e = scanCalendarEvent r /\ is_due now r) /\
    (forall k r, events d !! k = Some r -> is_due now r -> (k, scanCalendarEvent r) ∈ l \/
       ((100 < affected (due now) (events d))%nat /\
        forall k' e', (k', e') ∈ l -> StartTime (content e') <= StartTime (content r))).
Proof.
  eexists. split; [done|]. split_and!.
  - rewrite length_fmap, length_take. lia.
  - intros k e Hin. apply read_in in Hin as (r & Hin & He). cbn in *. apply taken_from in Hin.
    apply elem_of_map_to_list, lookup_select_where in Hin as [Hk Hd]. apply due_spec in Hd. eauto.
  - intros k r Hk Hd. apply (due_spec now k) in Hd.
    assert ((k, r) ∈ map_to_list (select_where (due now) (events d))) as Hin
      by by apply elem_of_map_to_list, lookup_select_where.
    destruct (decide ((k, r) ∈ take (Z.to_nat 100) (in_order (due now) d))) as [Ht|Ht].
    { left. apply read_in. eauto. }
    right. split.
    + destruct (decide (100 < affected (due now) (events d))%nat) as [|Hle]; [done|]. destruct Ht.
      apply taken_all; [|done]. rewrite length_map_to_list. unfold affected in Hle. lia.
    + intros k' e' Hin'. apply read_in in Hin' as (r' & Hin' & He'). cbn in He', Hin'.
      subst e'. by destruct (taken_first by_start _ _ _ _ Hin' Hin).
Qed.

(** * Calls *)

Inductive call :=
| CCreate (fresh : UUID) (now : Z) (id : UUID) (e : CalendarEvent)
| CUpdate (now : Z) (user tenant event : UUID) (c : Content)
| CCancel (now : Z) (user tenant event : UUID)
| CDelete (user tenant event : UUID)
| CSent (event : UUID)
| CAnswer (now : Z) (user tenant event : UUID) (email status : bytes)
| CBroadcast (now : Z) (tenant : UUID) (uid email status : bytes)
| CSetAnswers (now : Z) (user tenant event : UUID) (m : Answers).

Section calls.
Context `{Jsonb}.

Definition run_call (c : bool * call) (d : Db) : Db :=
  let up := c.1 in
  match c.2 with
  | CCreate fresh now id e => (Create up fresh now id e d).2
  | CUpdate now u t k c => (Update up now u t k c d).2
  | CCancel now u t k => (MarkCancelled up now u t k d).2
  | CDelete u t k => (Delete up u t k d).2
  | CSent k => (MarkReminderSent up k d).2
  | CAnswer now u t k m s => (UpdateAttendeeResponse up now u t k m s d).2
  | CBroadcast now t uid m s => (BroadcastAttendeeResponse up now t uid m s d).2
  | CSetAnswers now u t k m => (SetAttendeeResponses up now u t k m d).2
  end.

Definition run_calls (cs : list (bool * call)) (d : Db) : Db := foldl (fun d c => run_call c d) d cs.

Lemma change_lookup strict up P f d k :
  events (change strict up P f d).2 !! k = events d !! k \/
  events (change strict up P f d).2 !! k = (fun e => if P k e then f e else e) <$> events d !! k.
Proof.
  unfold change. destruct up; [cbn [negb]|by left]. destruct (_ && _); [by left|right].
  apply lookup_update_where.
Qed.

(** What one call does to the row of an event. *)
Lemma run_call_row c d k :
  let r := events d !! k in
  let r' := events (run_call c d) !! k in
  r' = r \/
  match c.2 with
  | CCreate fresh _ id _ => r = None /\ k = (if bool_decide (id = nil_uuid) then fresh else id)
  | CUpdate now u t i c => exists e, r = Some e /\ this_event u t i k e = true /\ r' = Some (set_sent false (set_content c now e))
  | CCancel now u t i => exists e, r = Some e /\ this_event u t i k e = true /\ r' = Some (set_content (cancel (content e)) now e)
  | CDelete u t i => exists e, r = Some e /\ this_event u t i k e = true /\ r' = None
  | CSent i => exists e, r = Some e /\ k = i /\ r' = Some (set_sent true e)
  | CAnswer now u t i _ _ | CSetAnswers now u t i _ =>
      exists e a, r = Some e /\ this_event u t i k e = true /\ r' = Some (set_answers a now e)
  | CBroadcast now t uid _ _ => exists e a, r = Some e /\ copy_in t uid k e = true /\ r' = Some (set_answers a now e)
  end.
Proof.
  destruct c as [up [fresh now id e|now u t i c|now u t i|u t i|i|now u t i m s|now t uid m s|now u t i m]];
    cbn -[nil_uuid]; unfold Create, Update, MarkCancelled, Delete, MarkReminderSent, UpdateAttendeeResponse,
      BroadcastAttendeeResponse, SetAttendeeResponses.
  - destruct up; [cbn [negb]|by left]. set (i := if bool_decide (id = nil_uuid) then fresh else id).
    destruct (events d !! i) eqn:Ei; [by left|]. destruct (stored_answers _); [|by left].
    cbn. destruct (decide (k = i)) as [->|]; [by right|left]. by rewrite lookup_insert_ne.
  - destruct (change_lookup true up (this_event u t i) (fun e => set_sent false (set_content c now e)) d k) as [|Hc]; [by left|].
    rewrite Hc. destruct (events d !! k) as [e|]; [|by left]. cbn. destruct (this_event u t i k e) eqn:E; [right|by left]. eauto.
  - destruct (change_lookup false up (this_event u t i) (fun e => set_content (cancel (content e)) now e) d k) as [|Hc]; [by left|].
    rewrite Hc. destruct (events d !! k) as [e|]; [|by left]. cbn. destruct (this_event u t i k e) eqn:E; [right|by left]. eauto.
  - destruct up; [cbn [negb]|by left]. destruct (_ =? 0)%nat; [by left|]. cbn.
    destruct (events d !! k) as [e|] eqn:Ek.
    + destruct (this_event u t i k e) eqn:E.
      * right. exists e. split_and!; [done..|]. apply lookup_delete_where_None. intros r Hr. by simplify_eq.
      * left. by apply lookup_delete_where.
    + left. apply lookup_delete_where_None. by rewrite Ek.
  - destruct (change_lookup false up (fun k _ => bool_decide (k = i)) (set_sent true) d k) as [|Hc]; [by left|].
    rewrite Hc. destruct (events d !! k) as [e|]; [|by left]. cbn. case_bool_decide; [right|by left]. eauto.
  - destruct (jsonb_map _) as [p|]; [|by left].
    destruct (change_lookup true up (this_event u t i) (fun e => set_answers (patched p (AttendeeResponses e)) now e) d k) as [|Hc]; [by left|].
    rewrite Hc. destruct (events d !! k) as [e|]; [|by left]. cbn. destruct (this_event u t i k e) eqn:E; [right|by left]. eauto.
  - destruct (bool_decide (uid = [])); [by left|]. destruct (jsonb_map _) as [p|]; [|by left].
    destruct (change_lookup false up (copy_in t uid) (fun e => set_answers (patched p (AttendeeResponses e)) now e) d k) as [|Hc]; [by left|].
    rewrite Hc. destruct (events d !! k) as [e|]; [|by left]. cbn. destruct (copy_in t uid k e) eqn:E; [right|by left]. eauto.
  - destruct (jsonb_map _) as [p|]; [|by left].
    destruct (change_lookup true up (this_event u t i) (set_answers (Some p) now) d k) as [|Hc]; [by left|].
    rewrite Hc. destruct (events d !! k) as [e|]; [|by left]. cbn. destruct (this_event u t i k e) eqn:E; [right|by left]. eauto.
Qed.

End calls.

(** * Reminders *)

(** The calls that arm the reminder of an event again. *)
Definition rearms (k : UUID) (c : call) : Prop :=
  match c with
  | CCreate fresh _ id _ => (if bool_decide (id = nil_uuid) then fresh else id) = k
  | CUpdate _ _ _ i _ => i = k
  | _ => False
  end.

Definition sent (k : UUID) (d : Db) : Prop := forall e, events d !! k = Some e -> ReminderSent e = true.

Lemma this_event_key u t i k e : this_event u t i k e = true <-> k = i /\ UserID e = u /\ TenantID e = t.
Proof. unfold this_event, theirs. rewrite !andb_true_iff, !bool_decide_eq_true. tauto. Qed.

Section reminders.
Context `{Jsonb}.

Lemma run_call_sent k c d : ~ rearms k c.2 -> sent k d -> sent k (run_call c d).
Proof.
  unfold sent. intros Hc Hs e. pose proof (run_call_row c d k) as Hr. cbn zeta in Hr.
  destruct Hr as [->|Hr]; [apply Hs|].
  destruct c as [up [fresh now id e'|now u t i c|now u t i|u t i|i|now u t i m s|now t uid m s|now u t i m]];
    cbn -[run_call nil_uuid] in Hr, Hc.
  - by destruct Hr as [_ ->].
  - destruct Hr as (r & _ & [-> _]%this_event_key & _). done.
  - destruct Hr as (r & Hk & _ & ->). intros [= <-]. by apply Hs in Hk.
  - destruct Hr as (r & _ & _ & ->). done.
  - destruct Hr as (r & _ & _ & ->). by intros [= <-].
  - destruct Hr as (r & a & Hk & _ & ->). intros [= <-]. by apply Hs in Hk.
  - destruct Hr as (r & a & Hk & _ & ->). intros [= <-]. by apply Hs in Hk.
  - destruct Hr as (r & a & Hk & _ & ->). intros [= <-]. by apply Hs in Hk.
Qed.

(** Once its reminder has been marked sent an event is not listed for one
    again, through any calls by anybody that follow, failing or not, unless
    its owner edits it or its identifier is given out a second time. *)
Theorem reminder_not_repeated k d cs broke now l
  (Hcs : Forall (fun c => ~ rearms k c.2) cs)
  (Hl : ListDueReminders true broke now (run_calls cs (MarkReminderSent true k d).2) = Ok l) :
  k ∉ l.*1.
Proof.
  assert (sent k (MarkReminderSent true k d).2) as Hs.
  { intros e. unfold MarkReminderSent, change. cbn. rewrite lookup_update_where.
    destruct (events d !! k); [|done]. cbn. rewrite bool_decide_eq_true_2 by done. by intros [= <-]. }
  assert (sent k (run_calls cs (MarkReminderSent true k d).2)) as Hr.
  { unfold run_calls. clear Hl. revert Hs. generalize (MarkReminderSent true k d).2 as d'.
    induction Hcs as [|c cs Hc _ IH]; intros d' Hs; [done|]. cbn. by apply IH, run_call_sent. }
  injection Hl as <-. rewrite list_elem_of_fmap. intros ([k' e] & -> & Hin).
  apply read_in in Hin as (r & Hin & _). cbn [fst] in Hin.
  assert ((k', r) ∈ take (Z.to_nat 100) (in_order (due now) (run_calls cs (MarkReminderSent true k' d).2))) as Ht.
  { destruct broke as [n|]; [|done]. rewrite <- (take_drop n (take _ _)), elem_of_app. by left. }
  apply taken_from, elem_of_map_to_list, lookup_select_where in Ht as [Hk Hd]. apply due_spec in Hd as [Hd _].
  apply Hr in Hk. cbn in Hk. congruence.
Qed.

(** * Owners *)

(** A call made for the owner of the event. *)
Definition for_owner (e : CalendarEvent) (c : call) : Prop :=
  match c with
  | CUpdate _ u t _ _ | CCancel _ u t _ | CDelete u t _ | CAnswer _ u t _ _ _ | CSetAnswers _ u t _ _ =>
      UserID e = u /\ TenantID e = t
  | _ => False
  end.

Definition broadcasts_to (e : CalendarEvent) (c : call) : Prop :=
  match c with CBroadcast _ t uid _ _ => TenantID e = t /\ ExternalUID (content e) = Some uid | _ => False end.

(** The same event up to its reminder and its answers. *)
Definition same_event (e e' : CalendarEvent) : Prop :=
  UserID e' = UserID e /\ TenantID e' = TenantID e /\ content e' = content e /\ CreatedAt e' = CreatedAt e.

Lemma run_call_other k e c d :
  events d !! k = Some e -> ~ for_owner e c.2 ->
  exists e', events (run_call c d) !! k = Some e' /\ same_event e e' /\
    (~ broadcasts_to e c.2 -> AttendeeResponses e' = AttendeeResponses e).
Proof.
  intros Hk Ho. pose proof (run_call_row c d k) as Hr. cbn zeta in Hr.
  destruct Hr as [->|Hr]; [exists e; by rewrite Hk|]. rewrite Hk in Hr.
  destruct c as [up [fresh now id e'|now u t i c|now u t i|u t i|i|now u t i m s|now t uid m s|now u t i m]];
    cbn -[run_call nil_uuid] in Hr, Ho |- *; [by destruct Hr| | | | | | |];
    destruct Hr as (r & Hr); try (destruct Hr as [[= <-] [[_ Hu]%this_event_key _]]; by destruct Ho).
  - destruct Hr as ([= <-] & -> & Hr). eexists. split; [exact Hr|]. done.
  - destruct Hr as (a & [= <-] & [_ Hu]%this_event_key & _). by destruct Ho.
  - destruct Hr as (a & [= <-] & Hc & Hr). eexists. split; [exact Hr|]. split; [done|]. intros Hb. destruct Hb.
    unfold copy_in in Hc. by rewrite andb_true_iff, !bool_decide_eq_true in Hc.
  - destruct Hr as (a & [= <-] & [_ Hu]%this_event_key & _). by destruct Ho.
Qed.

(** An event is its owner's: through any calls made for other users or in
    another tenant it stays, with every column the owner wrote; its answers
    stay too, unless an answer is broadcast to its external UID in its
    tenant. *)
Theorem others_do_not_change_events k e cs d
  (Hk : events d !! k = Some e) (Hcs : Forall (fun c => ~ for_owner e c.2) cs) :
  exists e', events (run_calls cs d) !! k = Some e' /\ same_event e e' /\
    (Forall (fun c => ~ broadcasts_to e c.2) cs -> AttendeeResponses e' = AttendeeResponses e).
Proof.
  unfold run_calls. revert d e Hk Hcs. induction cs as [|c cs IH]; intros d e Hk Hcs; [by exists e|].
  inversion Hcs as [|? ? Hc Hcs']; subst. destruct (run_call_other k e c d Hk Hc) as (e1 & Hk1 & Hs1 & Ha1).
  pose proof Hs1 as (Hu & Ht & Hco & Hcr).
  destruct (IH (run_call c d) e1 Hk1) as (e2 & Hk2 & (Hu2 & Ht2 & Hco2 & Hcr2) & Ha2).
  { eapply Forall_impl; [exact Hcs'|]. intros c' Hc'. unfold for_owner in *. by rewrite Hu, Ht. }
  exists e2. split; [done|]. split; [unfold same_event; split_and!; congruence|]. intros Hb.
  inversion Hb as [|? ? Hb1 Hb2]; subst. rewrite Ha2, Ha1; [done|done|].
  eapply Forall_impl; [exact Hb2|]. intros c' Hc'. unfold broadcasts_to in *. by rewrite Ht, Hco.
Qed.

(** * Answers to events created here *)

Context `{UUIDLaws}.

(** An event created here goes out with its identifier as the UID and has
    no external one; when the answer comes back with that UID, GetByExternalUID
    finds the event in the organizer's calendar, if no event of the organizer
    was imported under the same UID. *)
Theorem answer_finds_created_event user tenant k e d
  (Hk : events d !! k = Some e) (Hlen : length k = 16%nat)
  (Hu : UserID e = user) (Ht : TenantID e = tenant)
  (Hfree : forall k' e', events d !! k' = Some e' -> UserID e' = user -> TenantID e' = tenant ->
     ExternalUID (content e') <> Some (uuid_String k)) :
  GetByExternalUID (true, true) true user tenant (uuid_String k) d = Ok (k, scanCalendarEvent e).
Proof.
  unfold GetByExternalUID. cbn [fst snd].
  pose proof (one_event_spec (fun k' e' => theirs user tenant k' e' &&
    bool_decide (ExternalUID (content e') = Some (uuid_String k))) d) as E1.
  destruct (one_event true _ d) as [[k' e']|x].
  { destruct E1 as (r & Hr & Hp & _). unfold theirs in Hp. rewrite !andb_true_iff, !bool_decide_eq_true in Hp.
    destruct Hp as [[Hu' Ht'] Hx]. by destruct (Hfree k' r Hr Hu' Ht'). }
  destruct E1 as [-> _]. rewrite (parse_printed k Hlen).
  pose proof (one_event_spec (this_event user tenant k) d) as E2.
  destruct (one_event true _ d) as [[k' e']|x].
  - destruct E2 as (r & Hr & [-> _]%this_event_key & ->). by simplify_eq.
  - destruct E2 as [_ E2]. assert (this_event user tenant k k e = true) as Ht' by by apply this_event_key.
    by rewrite (E2 k e Hk) in Ht'.
Qed.

Context `{!JsonbLaws}.

Lemma patch_stored m s : printable m -> printable s -> jsonb_map {[m := s]} = Some {[m := s]}.
Proof. intros Hm Hs. apply jsonb_ascii. intros k v. by intros [-> ->]%lookup_singleton_Some. Qed.

(** An attendee's answer, in printable characters, recorded for the owner's
    event or broadcast to its copies, is the one then read; the answers of the
    other attendees, and everything else in the event, stay. *)
Theorem answer_recorded now tenant k e m s d
  (Hk : events d !! k = Some e) (Ht : TenantID e = tenant) (Hm : printable m) (Hs : printable s) :
  let a := <[m := s]> (default ∅ (AttendeeResponses e)) in
  (exists d', UpdateAttendeeResponse true now (UserID e) tenant k m s d = (Ok tt, d') /\
     events d' = <[k := set_answers (Some a) now e]> (events d)) /\
  (forall uid, uid <> [] -> ExternalUID (content e) = Some uid ->
     exists d', BroadcastAttendeeResponse true now tenant uid m s d = (Ok tt, d') /\
       events d' !! k = Some (set_answers (Some a) now e)).
Proof.
  cbn zeta. rewrite (insert_union_singleton_l _ m s). split.
  - unfold UpdateAttendeeResponse. rewrite patch_stored by done. unfold change. cbn [negb andb].
    destruct (affected _ _ =? 0)%nat eqn:E.
    + apply Nat.eqb_eq in E. pose proof (proj1 (affected_zero _ _) E k e Hk) as Hf.
      assert (this_event (UserID e) tenant k k e = true) as Ht' by by apply this_event_key.
      by rewrite Hf in Ht'.
    + eexists. split; [done|]. cbn. apply map_eq. intros i. rewrite lookup_update_where.
      destruct (decide (i = k)) as [->|Hi].
      * rewrite Hk, lookup_insert_eq. cbn. assert (this_event (UserID e) tenant k k e = true) as -> by by apply this_event_key.
        done.
      * rewrite lookup_insert_ne by done. destruct (events d !! i) as [r|]; [|done]. cbn.
        destruct (this_event (UserID e) tenant k i r) eqn:Hr; [|done]. by apply this_event_key in Hr as [-> _].
  - intros uid Hne Hx. unfold BroadcastAttendeeResponse. rewrite bool_decide_eq_false_2, patch_stored by done.
    eexists. split; [done|]. cbn. rewrite lookup_update_where, Hk. cbn. unfold copy_in.
    rewrite !bool_decide_eq_true_2 by done. done.
Qed.

End reminders.

(** * On an example *)

#[local] Existing Instance toy_uuids.
#[local] Existing Instance toy_uuid_laws.

#[local] Instance printable_dec s : Decision (printable s).
Proof. unfold printable. apply _. Defined.

#[local] Instance toy_jsonb : Jsonb :=
  {| jsonb_map m := if bool_decide (map_Forall (fun k v => printable k /\ printable v) m) then Some m else None |}.

#[local] Instance toy_jsonb_laws : JsonbLaws.
Proof. split. intros m Hm. cbn. by rewrite bool_decide_eq_true_2 by exact Hm. Qed.

Definition amy : UUID := replicate 16 x01.
Definition bob : UUID := replicate 16 x02.
Definition party : UUID := replicate 16 x03.

Definition invitation (uid : option bytes) : Content :=
  mkContent (bs "t") (bs "l") (bs "a") [] [] None (100 * minute) (160 * minute) false None (Some 15) (bs "blue") uid false.

Definition planned (uid : option bytes) : CalendarEvent := mkEvent amy amy (invitation uid) false None 1 1.

Definition calendar (uid : option bytes) : Db := mkDb {[party := planned uid]} ∅.

Lemma reminder_not_repeated_witness : party ∉ ([] : list (UUID * CalendarEvent)).*1.
Proof.
  apply (reminder_not_repeated party (calendar None) [(true, CBroadcast 5 amy (bs "x") (bs "bob@b.org") (bs "accepted"))]
    None (90 * minute) []).
  - constructor; [|constructor]. by intros [].
  - by vm_compute.
Defined.

Lemma others_do_not_change_events_witness :
  exists e', events (run_calls [(true, CDelete bob amy party); (true, CBroadcast 5 bob (bs "x") (bs "bob@b.org") (bs "accepted"))]
    (calendar (Some (bs "x")))) !! party = Some e' /\ same_event (planned (Some (bs "x"))) e' /\
    (Forall (fun c => ~ broadcasts_to (planned (Some (bs "x"))) c.2)
      [(true, CDelete bob amy party); (true, CBroadcast 5 bob (bs "x") (bs "bob@b.org") (bs "accepted"))] ->
     AttendeeResponses e' = AttendeeResponses (planned (Some (bs "x")))).
Proof.
  apply others_do_not_change_events; [by vm_compute|].
  rewrite !Forall_cons. split_and!; [|by intros []|done]. intros [Ha _]. by vm_compute in Ha.
Defined.

Lemma answer_finds_created_event_witness :
  GetByExternalUID (true, true) true amy amy (uuid_String party) (calendar None) = Ok (party, scanCalendarEvent (planned None)).
Proof.
  apply answer_finds_created_event; [by vm_compute|done..|].
  intros k' e' Hk. change (({[party := planned None]} : gmap UUID CalendarEvent) !! k' = Some e') in Hk.
  by apply lookup_singleton_Some in Hk as [_ <-].
Defined.

Lemma answer_recorded_witness :
  let a := <[bs "bob@b.org" := bs "accepted"]> (default ∅ (AttendeeResponses (planned (Some (bs "x"))))) in
  (exists d', UpdateAttendeeResponse true 7 amy amy party (bs "bob@b.org") (bs "accepted") (calendar (Some (bs "x"))) = (Ok tt, d') /\
     events d' = <[party := set_answers (Some a) 7 (planned (Some (bs "x")))]> (events (calendar (Some (bs "x"))))) /\
  (forall uid, uid <> [] -> ExternalUID (content (planned (Some (bs "x")))) = Some uid ->
     exists d', BroadcastAttendeeResponse true 7 amy uid (bs "bob@b.org") (bs "accepted") (calendar (Some (bs "x"))) = (Ok tt, d') /\
       events d' !! party = Some (set_answers (Some a) 7 (planned (Some (bs "x"))))).
Proof.
  apply (answer_recorded 7 amy party (planned (Some (bs "x"))) (bs "bob@b.org") (bs "accepted") (calendar (Some (bs "x"))));
    [by vm_compute|done|by apply (bool_decide_unpack _); vm_compute..].
Defined.
